(* ===== verification/_CoqProject ===== *)
-Q . S2P
Prelude.v
GoStrings.v
GoLib.v
TopK.v
Bm25.v
ModelRef.v
Cooldown.v
ErrorClass.v
RateLimiter.v
Fallback.v
AgentID.v
SessionKey.v
Route.v
Message.v
ModelRouter.v
Identity.v
Split.v
Outbound.v
ChannelManager.v
ContextBudget.v
Session.v
Jsonl.v
ContextManager.v
LegacyContext.v
LegacyManager.v
AccountPolicy.v
Effects.v
AccountStore.v
AccountManager.v
AccountCoordinator.v
Binding.v
CodexRunner.v
Json.v
CodexProtocol.v
Projector.v
CodexClient.v
CodexTurn.v
CodexAccount.v
CodexLink.v
Cron.v
SeahorseStore.v
SeahorseCompact.v
SeahorseCover.v
SeahorseConserve.v
SeahorseOrder.v
SeahorseEngine.v
SeahorseHistory.v
SeahorseConcurrent.v
SeahorseClaims.v
SeahorseAdapter.v
Steering.v
Hooks.v
ToolArgs.v
GoPath.v
PathPolicy.v
FsTree.v
FileTools.v
ReadLines.v
FileClaims.v
WebGuard.v
ShellSessions.v
ShellGuard.v
ToolRegistry.v
ToolSearch.v
MediaStore.v
SearchCache.v
Bus.v
Transcription.v
Commands.v
AgentRun.v
PromptContext.v
AgentTurn.v
SubTurn.v
RunTurn.v
TurnDemo.v
TurnMoves.v
TurnBounds.v
TurnSession.v
TurnTranscript.v
