(* ===== verification/Prelude.v ===== *)
(** * codex-claw: a verification development

    codex-claw is an assistant that takes messages from chat channels, finds
    the agent and the conversation of a message, builds the context of a turn
    from the history of the conversation, runs the turn on a language model
    (over HTTP, or through the app server of Codex with accounts of its own)
    and splits the answer for the channel. This library models the parts that
    decide something; all paths are under [src/pkg].

    ** Parts and files

    - Foundations. [Prelude]: results, 64-bit integers, time, sequences of
      steps, tactics. [Effects]: functions with a receiver and an error as a
      monad of the state, and what every run of such a function respects
      ([keeps]). [GoStrings], [GoLib] with a module each for fields, sorting,
      regular expressions, UTF-8, durations, floating point numbers and SHA-256,
      and [Json]: what the program uses of Go's standard library.
    - Who answers. [AgentID], [SessionKey], [Route] (routing/agent_id.go,
      session_key.go, route.go), [Identity] (identity/identity.go),
      [ModelRouter] (routing/features.go, classifier.go, router.go). A message
      goes to the agent of the first binding of a cascade, the key of its
      session is built from agent, channel and peer, and its features choose a
      light or a heavy model.
    - What is remembered. [Message] (providers/protocoltypes/types.go),
      [Session] (session/manager.go and the interface [SessionStore], a class
      with laws), [Jsonl] (memory/jsonl.go, an instance of it on files with
      crashes), [ContextBudget] (tokenizer/estimator.go,
      agent/context_budget.go), [LegacyContext] (agent/context_legacy.go,
      over any instance).
    - The summary graph (seahorse), the other context manager.
      [SeahorseStore] (store.go, types.go) has the tables and transactions,
      [SeahorseCompact] (short_compaction.go) the compaction of messages into
      leaf summaries and of summaries into condensed ones, [SeahorseEngine]
      (short_engine.go, short_assembler.go) sessions, ingestion, reconciliation
      and assembly, [SeahorseAdapter] (agent/context_seahorse.go) the conversion
      of messages. [SeahorseCover], [SeahorseConserve], [SeahorseOrder],
      [SeahorseHistory], [SeahorseConcurrent] and [SeahorseClaims] (with modules
      for the background loop and the patterns of sessions) prove what they
      promise.
    - A turn of the agent. [Steering] (agent/steering.go) is the queue of the
      messages for a running turn, [Hooks] (agent/hooks.go, tools/result.go)
      the hooks around models and tools, [PromptContext] (agent/context.go) the
      messages of a request, [ContextManager] (agent/context_manager.go) the
      class of the strategies for long conversations, [AgentTurn]
      (agent/turn.go) the state of a turn, and [RunTurn] (agent/loop.go,
      tool_exec_shared.go, interactive_tool_exec.go) the turn itself, over any
      session store, context manager and tools. [SubTurn] (agent/subturn.go)
      has the turns that tools start beside it, with their limits, results and
      aborts. [LegacyManager] makes the legacy strategy an instance of the
      class. [TurnMoves], [TurnBounds], [TurnSession] and [TurnTranscript] prove
      what a turn promises, with the small world of [TurnDemo].
    - Around a turn. [AgentRun] (agent/loop.go, steering.go) takes a message of
      the bus through audio ([Transcription]), its agent and session ([Route])
      and the commands of users ([Commands], pkg/commands) to a turn, continues
      it with what waits, and publishes the response.
    - Tools. [ToolArgs] (tools/validate.go) checks arguments against schemas,
      [ToolRegistry] (registry.go, base.go) keeps core and hidden tools and runs
      them, and [ToolSearch] (search_tool.go) lets the model find hidden ones,
      over the full-text search of [Bm25] with the heap of [TopK]
      (utils/bm25.go).
    - Files and the web. [GoPath] has the paths of Go, [PathPolicy] the checks
      of tools/filesystem.go and of the patterns of agent/instance.go,
      [FsTree] a tree of files with symbolic links on which both are resolved,
      [FileTools] the tools that read, write, edit, append to and list files
      (filesystem.go, edit.go) over a record of a file system, which the host,
      the sandbox and the allowed paths implement, [ReadLines] reading by
      lines, and [FileClaims] what they promise. [WebGuard] is the guard of
      tools/web.go against private addresses, with its redirects; its module
      [WebSearch] has the keys and ranges of dates of searches.
    - The shell. [ShellGuard] (tools/shell.go) decides which commands run and
      where, with the patterns of dangerous commands, and [ShellSessions]
      (tools/session.go, shell.go) has the commands in the background: their
      output, their keys and the actions on them.
    - [Bus] (bus/bus.go) carries messages between channels and the agent,
      [MediaStore] (media/store.go) the files that come with them, and
      [SearchCache] (skills/search_cache.go) keeps results of searches.
    - Models and their failures. [ModelRef] (providers/model_ref.go),
      [ErrorClass] (error_classifier.go), [Cooldown] (cooldown.go),
      [RateLimiter] (ratelimiter.go), [Fallback] (fallback.go). The chain asks
      the limiter and the cooldown of each candidate, runs the request,
      classifies the error and records it.
    - Codex accounts. [AccountPolicy], [AccountStore], [AccountManager],
      [AccountCoordinator] (codexaccounts/policy.go, store.go, manager.go,
      coordinator.go): files of credentials, health of accounts, switches
      before and after a turn.
    - Codex app server. [Binding] (codexruntime/binding_store.go), [CodexRunner]
      (runner.go, catalog.go, status.go) over the class [RunnerClient],
      [CodexProtocol] (protocol.go), [Projector] (projector.go), [CodexClient]
      (client.go, tool_bridge.go, approval_bridge.go) with its theorems in
      [CodexTurn], [CodexAccount] (account.go), and [CodexLink], where the
      client is an instance of the class and both are put together.
    - Answers. [Split] (channels/split.go) splits them, [Outbound]
      (channels/manager.go, errors.go, marker.go) is what a worker does to send
      them, with placeholders, typing indicators, streams and retries, and
      [ChannelManager] (manager.go, manager_channel.go) which channels and
      workers there are, through starts, stops and reloads.
    - [Cron] (cron/service.go), the scheduler.

    ** Conventions

    Names are those of the code; a definition without a namesake is a part of
    the function that the map of the development names. A Go [string] is a
    list of bytes; [rune] loops decode UTF-8 as Go does. Case mapping covers
    ASCII, white space is exact. An [int] is a [Z]: where the code can overflow
    the arithmetic wraps ([int_add]), and lengths and counts of tokens or
    requests, which stay far below 2^63, are unbounded. [float64] is binary64
    with the operations of [SpecFloat]. A time is the number of nanoseconds
    since Go's zero time; the clock is an argument, of the operation or as a
    function of the number of the call.

    What the program calls but does not contain is a parameter: the model
    ([Chat], [complete]), the login command, the cron expressions, the file of
    the tokens, the encoding of messages as JSON (a class with its round-trip
    law). What the outside can do is arbitrary: [fails n] says whether the
    [n]-th call of the operating system or the [n]-th transaction fails, a
    crash is a prefix of the effects of an operation, the messages of the app
    server are any list, a Go map is iterated in any order. A document that
    the program writes and reads as JSON is kept as its value.

    Methods under a lock are single steps. Where the code releases the lock in
    between, the steps are separate and others come in: before each look of a
    turn at shared state ([RunTurn.yield]), in the loop of the scheduler
    ([Cron.step]), between the accesses of publishers and of [Close]
    ([Bus.step]), before late deletions ([MediaStore.step]), the two halves of a summarisation
    ([LegacyContext]), of a turn ([CodexRunner.begin_turn], [end_turn]) and of a
    compaction ([SeahorseConcurrent.step]), between the parts of a call that spawns a sub-turn
    ([SubTurn.step]). A plan of a compaction is one step
    although it makes several queries: it reads the context once, and besides
    only rows that never change.

    ** Fuel

    Loops that are not structural have fuel and return [None] without it.
    [Fallback] waits in [RateLimiter.Wait], whose loop ends when the context is
    cancelled or a token is there; [Split.SplitMessage] ends for plain texts
    after one round for each rune ([SplitMessage_plain]) and does not end for
    some fenced ones; a turn of the client ends after as many rounds as there
    are messages ([RunTextTurn_returns]) unless it is steered ([steer_hangs]);
    the loop of condensation ends after as many rounds as the context has
    tokens, and one ([runCondensedLoop_ends]). The digits of [itoa] and of
    hexadecimal numbers have fuel for every digit. The fuel of
    [RunTurn.runTurn] is the number of times the condition of its loop is looked
    at; what is left of the limit, the messages that wait or come and one
    interrupt bound it ([turn_ends]).

    ** Theorems

    - Stores. A crash never loses a message that was stored before, nor mixes
      sessions ([Jsonl]); a save replaces its file whole or not at all
      ([Session]); the bindings are a map, on keys that their hashes tell apart
      ([Binding.store_refines_map]).
    - Contexts. Legacy compression accounts for every message and keeps calls
      and results together ([LegacyContext], [ContextBudget]). In the summary
      graph a compaction alone loses or repeats no message, whatever fails; while
      nothing fails the context stands for exactly the messages of the
      conversation, in order, also when a turn and the background loop work at
      the same time, with one condensation at most; what is assembled is the longest suffix that fits.
    - Routing. The cascade of [ResolveRoute] as a specification, and when two
      messages share a session.
    - Failover. [Execute] tries the candidates in order, changes the cooldowns
      by exactly what it saw, and always returns; the limiter admits what it
      says.
    - Turns. Every tool that runs was approved by every hook that approves
      tools. A turn ends, with bounded iterations and requests. While nothing else
      writes it and the store keeps messages as given, its session is written like
      a transaction: whole when it completes, not at all when it is aborted. What it records answers every call. The queue of steering
      messages is first in, first out; hooks run in a determined order; what is
      sent to a provider follows its rules.
    - Around turns: where each message goes that arrives while another is
      worked on; at most one response for a message; the agent of a session also
      continues it; a medium is taken away only for its text.
    - Sub-turns stay within their limits, each asynchronous result arrives once
      or is reported, and an abort reaches everything below a sub-turn.
    - Answers. What arrives are the pieces of the messages, in order and once
      each; functions that end typing indicators are called once for each time
      they are recorded; where messages go after a reload.
    - Tools. Arguments pass the check exactly when they have the types of the
      schema; only visible tools run, on arguments that pass; the model is
      offered exactly those; what a search finds can be called at once and for
      as many rounds as promised; a search gives the best documents.
    - Files and the web. A path that passes the checks leads into the workspace
      or to an allowed path on every tree of files, whatever links it has; reading
      by lines shows the lines asked for, and whether there are more; an edit replaces
      the one occurrence; a write of the sandbox happens whole or not at all; a
      fetch connects to public addresses only, whatever names resolve to.
    - The shell. What an accepted command mentions of absolute paths is in the
      working directory or exempt, it has no dangerous pattern, and it runs in
      the workspace; the output of a command in the background is read in order
      and takes bounded memory.
    - Bus and media. Channels keep order and lose nothing, and closing them
      comes to an end without help. A reference has its file unless it was given
      while the file was about to be deleted, and a release deletes exactly what
      nothing else refers to.
    - Accounts. A switch takes the best eligible account, a turn after the
      usage limit is run again with the file of another one in place, and adding
      an account keeps the live credentials.
    - App server. What a turn that answers has read and written, for every
      server; the thread of a turn is the one of its binding, started or
      resumed; the final text is the one that the events define.
    - Scheduler. One-time jobs run at most once and never early; the loop wakes
      in time; the file has the jobs.
    - Shortcomings of the code are theorems too, where they can be stated: a
      hanging steering request, responses that break later calls, messages lost
      behind a torn line or a failed transaction, contexts that cannot be
      compacted, settings and jobs that races lose, a send on a closed channel,
      a file deleted under a live reference, searches that get the results of
      others.

    ** Not modelled

    The clients of chat services and of providers, the gateway, configuration and credentials: they are input
    and output around the parts above. Of the web tools: the requests to search
    engines and the conversion of pages to text. Of the agent loop: building
    agents and, in a turn, events, logging, streaming, reasoning output, the
    settings of interactive threads. Of other modelled files: full-text search,
    expansion and session status of the summary graph (they only read), what the
    built-in commands print, and methods that only forward. The migration of old
    sessions and the loading of skills are left out too: they convert and copy
    files. *)

From Stdlib Require Export ZArith Lia Ascii String.
From stdpp Require Export base tactics option list gmap strings.

#[global] Open Scope string_scope.
#[global] Open Scope list_scope.
#[global] Open Scope Z_scope.

Declare Scope go_scope.
Delimit Scope go_scope with go.
#[global] Open Scope go_scope.

Create HintDb go.
Create Rewrite HintDb go.

(** ** Results

    A Go function that returns [(T, error)] is modelled by [result E T]; the
    code never returns a useful value next to a non-nil error where this type
    is used. *)

Inductive result (E A : Type) : Type :=
| Ok (a : A)
| Err (e : E).
Arguments Ok {E A} a.
Arguments Err {E A} e.

Definition result_bind {E A B} (c : result E A) (k : A -> result E B) : result E B :=
  match c with
  | Ok a => k a
  | Err e => Err e
  end.

Notation "'let*' x := c 'in' k" := (result_bind c (fun x => k))
  (at level 10, x pattern, c at level 100, k at level 200) : go_scope.

Definition is_ok {E A} (r : result E A) : bool :=
  match r with Ok _ => true | Err _ => false end.

Lemma result_bind_ok {E A B} (c : result E A) (k : A -> result E B) b :
  result_bind c k = Ok b <-> exists a, c = Ok a /\ k a = Ok b.
Proof. split; [destruct c as [a|e]; simpl; [eauto | done] | by intros (a & -> & ?)]. Qed.

(** ** Machine integers

    Go's [int] is 64 bits wide on the supported targets.  Counters that the
    code increments are wrapped explicitly; lengths of in-memory slices are
    kept as unbounded integers. *)

Definition int64_min : Z := - 2 ^ 63.
Definition int64_max : Z := 2 ^ 63 - 1.
Definition in_int64 (z : Z) : Prop := int64_min <= z <= int64_max.
Definition wrap64 (z : Z) : Z := (z + 2 ^ 63) mod 2 ^ 64 - 2 ^ 63.
Definition int_add (a b : Z) : Z := wrap64 (a + b).

Lemma wrap64_small z : in_int64 z -> wrap64 z = z.
Proof.
  unfold in_int64, int64_min, int64_max, wrap64; intros H.
  rewrite Z.mod_small; lia.
Qed.

Lemma wrap64_range z : in_int64 (wrap64 z).
Proof.
  unfold in_int64, int64_min, int64_max, wrap64.
  pose proof (Z.mod_pos_bound (z + 2 ^ 63) (2 ^ 64)). lia.
Qed.

Lemma int_add_small a b : in_int64 (a + b) -> int_add a b = a + b.
Proof. apply wrap64_small. Qed.

#[export] Hint Resolve wrap64_range : go.

(** ** Time

    A [time.Time] is the number of nanoseconds since Go's zero time, so
    [IsZero] is equality with [0].  [Sub] saturates to the range of
    [time.Duration], as Go's does. *)

Abbreviation time := Z (only parsing).
Abbreviation duration := Z (only parsing).

Definition Nanosecond : duration := 1.
Definition Millisecond : duration := 1000000.
Definition Second : duration := 1000000000.
Definition Minute : duration := 60 * Second.
Definition Hour : duration := 60 * Minute.

Definition zero_time : time := 0.
Definition IsZero (t : time) : bool := Z.eqb t zero_time.
Definition Before (t u : time) : bool := Z.ltb t u.
Definition After (t u : time) : bool := Z.ltb u t.
Definition Sub (t u : time) : duration := Z.max int64_min (Z.min int64_max (t - u)).
Definition Add (t : time) (d : duration) : time := t + d.

Lemma Sub_small t u : in_int64 (t - u) -> Sub t u = t - u.
Proof. unfold in_int64, Sub. lia. Qed.

Lemma Sub_gt t u d : in_int64 d -> d < int64_max -> (d <? Sub t u) = (d <? t - u).
Proof.
  unfold in_int64, Sub; intros Hd Hm.
  destruct (Z.ltb_spec d (t - u)), (Z.ltb_spec d (Z.max int64_min (Z.min int64_max (t - u)))); lia.
Qed.

(** ** Finite transition sequences, shared by the state machines. *)

Section Star.
Context {S : Type} (R : S -> S -> Prop).

Inductive star : S -> S -> Prop :=
| star_refl s : star s s
| star_step s1 s2 s3 : R s1 s2 -> star s2 s3 -> star s1 s3.

Lemma star_one s1 s2 : R s1 s2 -> star s1 s2.
Proof. intros; eapply star_step; [eassumption | constructor]. Qed.

Lemma star_trans s1 s2 s3 : star s1 s2 -> star s2 s3 -> star s1 s3.
Proof. induction 1; eauto using star_step. Qed.

(** An invariant preserved by each step is preserved by every sequence. *)
Lemma star_invariant (P : S -> Prop) :
  (forall s1 s2, P s1 -> R s1 s2 -> P s2) ->
  forall s1 s2, star s1 s2 -> P s1 -> P s2.
Proof. intros Hstep s1 s2 Hs; induction Hs; eauto. Qed.
End Star.

(** ** Tactics *)

(** Turn the boolean tests of the code into propositions. *)
Ltac breflect :=
  repeat match goal with
  | H : _ && _ = true |- _ => apply andb_true_iff in H; destruct H
  | H : _ || _ = false |- _ => apply orb_false_iff in H; destruct H
  | H : negb _ = true |- _ => apply negb_true_iff in H
  | H : negb _ = false |- _ => apply negb_false_iff in H
  | H : (_ <? _)%Z = true |- _ => apply Z.ltb_lt in H
  | H : (_ <? _)%Z = false |- _ => apply Z.ltb_ge in H
  | H : (_ <=? _)%Z = true |- _ => apply Z.leb_le in H
  | H : (_ <=? _)%Z = false |- _ => apply Z.leb_gt in H
  | H : (_ =? _)%Z = true |- _ => apply Z.eqb_eq in H
  | H : (_ =? _)%Z = false |- _ => apply Z.eqb_neq in H
  | H : (_ <? _)%nat = true |- _ => apply Nat.ltb_lt in H
  | H : (_ <? _)%nat = false |- _ => apply Nat.ltb_ge in H
  | H : (_ <=? _)%nat = true |- _ => apply Nat.leb_le in H
  | H : (_ <=? _)%nat = false |- _ => apply Nat.leb_gt in H
  | H : (_ =? _)%nat = true |- _ => apply Nat.eqb_eq in H
  | H : (_ =? _)%nat = false |- _ => apply Nat.eqb_neq in H
  | H : String.eqb _ _ = true |- _ => apply String.eqb_eq in H
  | H : String.eqb _ _ = false |- _ => apply String.eqb_neq in H
  | H : bool_decide _ = true |- _ => apply bool_decide_eq_true in H
  | H : bool_decide _ = false |- _ => apply bool_decide_eq_false in H
  end.

(** Case analysis on the first boolean test or match of the goal. *)
Ltac case_test :=
  match goal with
  | |- context [if ?b then _ else _] => destruct b eqn:?
  | |- context [match ?x with _ => _ end] => destruct x eqn:?
  end; breflect; simplify_eq/=.

Ltac case_test_in H :=
  match type of H with
  | context [if ?b then _ else _] => destruct b eqn:?
  | context [match ?x with _ => _ end] => destruct x eqn:?
  end; breflect; simplify_eq/=.

(** Settle a closed decidable proposition by evaluation. *)
Ltac decide_now :=
  match goal with |- ?P => refine (bool_decide_unpack P _); vm_compute; exact I end.

(** ** Lists *)

(** The first element that passes a test. *)
Fixpoint find_first {A} (p : A -> bool) (l : list A) : option A :=
  match l with
  | [] => None
  | x :: l' => if p x then Some x else find_first p l'
  end.

Lemma find_first_Some {A} (p : A -> bool) l x :
  find_first p l = Some x ->
  p x = true /\ exists l1 l2, l = l1 ++ x :: l2 /\ Forall (fun y => p y = false) l1.
Proof.
  induction l as [|y l IH]; simpl; [done|].
  destruct (p y) eqn:Hy; intros H; simplify_eq.
  - split; [done|]. by exists [], l.
  - destruct (IH H) as (Hp & l1 & l2 & -> & HF). split; [done|].
    exists (y :: l1), l2. auto.
Qed.

Lemma find_first_None {A} (p : A -> bool) l :
  find_first p l = None <-> Forall (fun y => p y = false) l.
Proof.
  induction l as [|y l IH]; simpl; [split; auto|].
  destruct (p y) eqn:Hy; split; intros H; simplify_eq.
  - inversion H; congruence.
  - constructor; [done|]. by apply IH.
  - apply IH. by inversion H.
Qed.

Lemma find_first_elem {A} (p : A -> bool) l x : find_first p l = Some x -> x ∈ l.
Proof. intros (_ & l1 & l2 & -> & _)%find_first_Some. set_solver. Qed.

#[export] Hint Resolve find_first_elem : go.
