(* ===== verification/GoStrings.v ===== *)
(** * The operations of package [strings] the program uses

    A Go string is a sequence of bytes, here a [string] of [ascii].
    White space is Go's [unicode.IsSpace], read off the UTF-8 encoding of each
    such rune.  Case mapping covers the ASCII letters; bytes above 127 are
    left as they are. *)

From S2P Require Import Prelude.

(** ** Strings and lists of bytes *)

Abbreviation chars := list_ascii_of_string (only parsing).
Abbreviation implode := string_of_list_ascii (only parsing).

Lemma chars_implode l : chars (implode l) = l.
Proof. apply list_ascii_of_string_of_list_ascii. Qed.

Lemma implode_chars s : implode (chars s) = s.
Proof. apply string_of_list_ascii_of_string. Qed.

Lemma chars_inj s t : chars s = chars t -> s = t.
Proof. intros H. rewrite <- (implode_chars s), <- (implode_chars t). by rewrite H. Qed.

Lemma chars_app s t : chars (s +:+ t) = chars s ++ chars t.
Proof. induction s as [|a s IH]; simpl; [done|]. by rewrite IH. Qed.

Lemma implode_app l k : implode (l ++ k) = implode l +:+ implode k.
Proof. apply chars_inj. by rewrite chars_app, !chars_implode. Qed.

Lemma chars_nil s : chars s = [] <-> s = "".
Proof. split; [|by intros ->]. intros H. by apply chars_inj. Qed.

Lemma append_nil_r s : s +:+ "" = s.
Proof. apply chars_inj. rewrite chars_app. apply app_nil_r. Qed.

Lemma append_assoc s t u : s +:+ t +:+ u = (s +:+ t) +:+ u.
Proof. apply chars_inj. rewrite !chars_app. apply app_assoc. Qed.

Lemma append_inj_l s t u : s +:+ t = s +:+ u -> t = u.
Proof.
  intros H. apply chars_inj. apply (f_equal chars) in H.
  rewrite !chars_app in H. by eapply app_inv_head.
Qed.

Lemma length_chars s : length (chars s) = String.length s.
Proof. induction s; simpl; congruence. Qed.

(** A line feed, and [strings.Join]. *)
Definition nl : string := String (ascii_of_nat 10) "".

Fixpoint join (sep : string) (l : list string) : string :=
  match l with
  | [] => ""
  | [x] => x
  | x :: l' => x +:+ sep +:+ join sep l'
  end.

(** [len(s)] *)
Definition len (s : string) : Z := Z.of_nat (length (chars s)).

Lemma len_nonneg s : 0 <= len s.
Proof. unfold len; lia. Qed.

Lemma len_append s t : len (s +:+ t) = len s + len t.
Proof. unfold len. rewrite chars_app, length_app. lia. Qed.

#[export] Hint Resolve len_nonneg : go.
#[export] Hint Rewrite chars_app chars_implode implode_chars len_append : go.

(** ** Bytes *)

Definition code (c : ascii) : Z := Z.of_N (N_of_ascii c).

Definition between (lo hi : Z) (c : ascii) : bool := (lo <=? code c) && (code c <=? hi).

Definition is_digit (c : ascii) : bool := between 48 57 c.
Definition is_lower (c : ascii) : bool := between 97 122 c.
Definition is_upper (c : ascii) : bool := between 65 90 c.

Definition lower_byte (c : ascii) : ascii :=
  if is_upper c then ascii_of_N (Z.to_N (code c + 32)) else c.

(** Every byte satisfies a decidable property: checked on the 256 bytes. *)
Definition all_bytes : list ascii := map (fun n => ascii_of_nat n) (seq 0 256).

Lemma all_bytes_complete c : c ∈ all_bytes.
Proof.
  unfold all_bytes. apply list_elem_of_In, in_map_iff.
  exists (nat_of_ascii c). split; [apply ascii_nat_embedding|].
  apply in_seq. pose proof (nat_ascii_bounded c). lia.
Qed.

Lemma byte_forall (p : ascii -> bool) : forallb p all_bytes = true -> forall c, p c = true.
Proof.
  intros H c. rewrite forallb_forall in H. apply H, list_elem_of_In, all_bytes_complete.
Qed.

Lemma lower_byte_idem c : lower_byte (lower_byte c) = lower_byte c.
Proof.
  apply Ascii.eqb_eq. revert c. apply byte_forall. vm_compute. reflexivity.
Qed.

Lemma lower_byte_not_upper c : is_upper (lower_byte c) = false.
Proof.
  apply negb_true_iff. revert c. apply byte_forall. vm_compute. reflexivity.
Qed.

Lemma lower_byte_id c : is_upper c = false -> lower_byte c = c.
Proof. unfold lower_byte. by intros ->. Qed.

(** ** Case mapping: [strings.ToLower], [strings.EqualFold] *)

Definition ToLower (s : string) : string := implode (map lower_byte (chars s)).

Definition EqualFold (s t : string) : bool := String.eqb (ToLower s) (ToLower t).

Lemma chars_ToLower s : chars (ToLower s) = map lower_byte (chars s).
Proof. apply chars_implode. Qed.

Lemma ToLower_app s t : ToLower (s +:+ t) = ToLower s +:+ ToLower t.
Proof.
  apply chars_inj. by rewrite chars_app, !chars_ToLower, chars_app, map_app.
Qed.

Lemma ToLower_idem s : ToLower (ToLower s) = ToLower s.
Proof.
  apply chars_inj. rewrite !chars_ToLower, map_map.
  apply map_ext, lower_byte_idem.
Qed.

Lemma ToLower_length s : length (chars (ToLower s)) = length (chars s).
Proof. by rewrite chars_ToLower, length_map. Qed.

Lemma ToLower_empty s : ToLower s = "" <-> s = "".
Proof.
  split; [|by intros ->]. intros H. apply chars_nil, nil_length_inv.
  rewrite <- ToLower_length, H. done.
Qed.

(** A string without upper-case letters. *)
Definition lowercase (s : string) : Prop := Forall (fun c => is_upper c = false) (chars s).

Lemma ToLower_lowercase s : lowercase (ToLower s).
Proof.
  unfold lowercase. rewrite chars_ToLower, Forall_map.
  apply Forall_forall. intros; apply lower_byte_not_upper.
Qed.

Lemma lowercase_ToLower s : lowercase s -> ToLower s = s.
Proof.
  intros H. apply chars_inj. rewrite chars_ToLower.
  induction H as [|c l Hc _ IH]; simpl; [done|]. by rewrite lower_byte_id, IH.
Qed.

Lemma lowercase_app s t : lowercase (s +:+ t) <-> lowercase s /\ lowercase t.
Proof. unfold lowercase. by rewrite chars_app, Forall_app. Qed.

Lemma EqualFold_refl s : EqualFold s s = true.
Proof. apply String.eqb_refl. Qed.

Lemma EqualFold_sym s t : EqualFold s t = EqualFold t s.
Proof. apply String.eqb_sym. Qed.

#[export] Hint Rewrite ToLower_idem ToLower_app : go.
#[export] Hint Resolve ToLower_lowercase lowercase_ToLower : go.

(** ** White space: [unicode.IsSpace] on the UTF-8 encoding *)

(** One-byte spaces: U+0009 .. U+000D and U+0020. *)
Definition sp1 (c : ascii) : bool := between 9 13 c || (code c =? 32).
(** Two-byte spaces: U+0085 and U+00A0. *)
Definition sp2 (c d : ascii) : bool :=
  (code c =? 194) && ((code d =? 133) || (code d =? 160)).
(** Three-byte spaces: U+1680, U+2000 .. U+200A, U+2028, U+2029, U+202F,
    U+205F and U+3000. *)
Definition sp3 (c d e : ascii) : bool :=
  (code c =? 225) && (code d =? 154) && (code e =? 128)
  || (code c =? 226) && (code d =? 128)
     && (between 128 138 e || (code e =? 168) || (code e =? 169) || (code e =? 175))
  || (code c =? 226) && (code d =? 129) && (code e =? 159)
  || (code c =? 227) && (code d =? 128) && (code e =? 128).

(** [strings.TrimLeftFunc(s, unicode.IsSpace)] *)
Fixpoint trim_left (l : list ascii) : list ascii :=
  match l with
  | [] => []
  | c :: l1 =>
      if sp1 c then trim_left l1
      else match l1 with
           | [] => l
           | d :: l2 =>
               if sp2 c d then trim_left l2
               else match l2 with
                    | [] => l
                    | e :: l3 => if sp3 c d e then trim_left l3 else l
                    end
           end
  end.

(** [strings.TrimRightFunc(s, unicode.IsSpace)], on the reversed bytes. *)
Fixpoint trim_rev (l : list ascii) : list ascii :=
  match l with
  | [] => []
  | c :: l1 =>
      if sp1 c then trim_rev l1
      else match l1 with
           | [] => l
           | d :: l2 =>
               if sp2 d c then trim_rev l2
               else match l2 with
                    | [] => l
                    | e :: l3 => if sp3 e d c then trim_rev l3 else l
                    end
           end
  end.

Definition trim_right (l : list ascii) : list ascii := rev (trim_rev (rev l)).

Definition TrimSpace (s : string) : string := implode (trim_right (trim_left (chars s))).

(** The bytes of the leading space, or [0]: [trim_left] drops that many. *)
Definition space_len (l : list ascii) : nat :=
  match l with
  | [] => 0
  | c :: l1 =>
      if sp1 c then 1
      else match l1 with
           | [] => 0
           | d :: l2 =>
               if sp2 c d then 2
               else match l2 with
                    | [] => 0
                    | e :: _ => if sp3 c d e then 3 else 0
                    end
           end
  end%nat.

Definition space_len_rev (l : list ascii) : nat :=
  match l with
  | [] => 0
  | c :: l1 =>
      if sp1 c then 1
      else match l1 with
           | [] => 0
           | d :: l2 =>
               if sp2 d c then 2
               else match l2 with
                    | [] => 0
                    | e :: _ => if sp3 e d c then 3 else 0
                    end
           end
  end%nat.

(** Both trims have the same shape: drop a recognised space, go on. *)
Section Trim.
Context (size : list ascii -> nat) (trim : list ascii -> list ascii).
Hypothesis size_le : forall l, (size l <= length l)%nat.
Hypothesis trim_unfold :
  forall l, trim l = match size l with O => l | n => trim (drop n l) end.
Hypothesis size_app : forall l k, size l <> O -> size (l ++ k) = size l.

Lemma trim_ind (P : list ascii -> Prop) :
  (forall l, size l = O -> P l) ->
  (forall l, size l <> O -> P (drop (size l) l) -> P l) ->
  forall l, P l.
Proof.
  intros H0 H1 l. remember (length l) as n eqn:Hn. revert l Hn.
  induction n as [n IH] using lt_wf_ind; intros l ->.
  destruct (size l) as [|m] eqn:Hs; [by apply H0|].
  apply H1; [by rewrite Hs|]. eapply IH; [|reflexivity].
  rewrite length_drop. pose proof (size_le l). lia.
Qed.

Lemma trim_fix l : size l = O -> trim l = l.
Proof. intros H. by rewrite trim_unfold, H. Qed.

Lemma trim_drop l : size l <> O -> trim l = trim (drop (size l) l).
Proof. intros H. rewrite trim_unfold at 1. by destruct (size l). Qed.

Lemma trim_size l : size (trim l) = O.
Proof.
  induction l as [l H|l H IH] using trim_ind.
  - by rewrite trim_fix.
  - by rewrite trim_drop.
Qed.

Lemma trim_idem l : trim (trim l) = trim l.
Proof. apply trim_fix, trim_size. Qed.

Lemma trim_suffix l : exists p, l = p ++ trim l.
Proof.
  induction l as [l H|l H (p & IH)] using trim_ind.
  - exists []. by rewrite trim_fix.
  - exists (take (size l) l ++ p). rewrite trim_drop by done.
    by rewrite <- app_assoc, <- IH, take_drop.
Qed.

Lemma size_prefix l k : size (l ++ k) = O -> size l = O.
Proof.
  intros H. destruct (decide (size l = O)) as [E|E]; [done|].
  by rewrite size_app in H.
Qed.
End Trim.

Ltac sp_cases :=
  repeat match goal with
  | |- context [sp1 ?c] => destruct (sp1 c) eqn:?; simpl
  | |- context [sp2 ?c ?d] => destruct (sp2 c d) eqn:?; simpl
  | |- context [sp3 ?c ?d ?e] => destruct (sp3 c d e) eqn:?; simpl
  end.

Lemma space_len_le l : (space_len l <= length l)%nat.
Proof. destruct l as [|c [|d [|e l]]]; simpl; sp_cases; lia. Qed.

Lemma space_len_rev_le l : (space_len_rev l <= length l)%nat.
Proof. destruct l as [|c [|d [|e l]]]; simpl; sp_cases; lia. Qed.

Lemma trim_left_unfold l :
  trim_left l = match space_len l with O => l | n => trim_left (drop n l) end.
Proof.
  destruct l as [|c l]; [reflexivity|]. cbn [trim_left space_len].
  destruct (sp1 c); [reflexivity|]. destruct l as [|d l]; [reflexivity|].
  destruct (sp2 c d); [reflexivity|]. destruct l as [|e l]; [reflexivity|].
  destruct (sp3 c d e); reflexivity.
Qed.

Lemma trim_rev_unfold l :
  trim_rev l = match space_len_rev l with O => l | n => trim_rev (drop n l) end.
Proof.
  destruct l as [|c l]; [reflexivity|]. cbn [trim_rev space_len_rev].
  destruct (sp1 c); [reflexivity|]. destruct l as [|d l]; [reflexivity|].
  destruct (sp2 d c); [reflexivity|]. destruct l as [|e l]; [reflexivity|].
  destruct (sp3 e d c); reflexivity.
Qed.

Lemma space_len_app l k : space_len l <> O -> space_len (l ++ k) = space_len l.
Proof. destruct l as [|c [|d [|e l]]], k as [|? [|? k]]; simpl; sp_cases; congruence. Qed.

Lemma space_len_rev_app l k : space_len_rev l <> O -> space_len_rev (l ++ k) = space_len_rev l.
Proof. destruct l as [|c [|d [|e l]]], k as [|? [|? k]]; simpl; sp_cases; congruence. Qed.

Lemma trim_left_idem l : trim_left (trim_left l) = trim_left l.
Proof. eapply trim_idem; [apply space_len_le | apply trim_left_unfold]. Qed.

Lemma trim_left_fix l : space_len l = O -> trim_left l = l.
Proof. eapply trim_fix, trim_left_unfold. Qed.

Lemma trim_left_size l : space_len (trim_left l) = O.
Proof. eapply trim_size; [apply space_len_le | apply trim_left_unfold]. Qed.

Lemma trim_right_idem l : trim_right (trim_right l) = trim_right l.
Proof.
  unfold trim_right. rewrite rev_involutive.
  f_equal. eapply trim_idem; [apply space_len_rev_le | apply trim_rev_unfold].
Qed.

Lemma trim_right_fix l : space_len_rev (rev l) = O -> trim_right l = l.
Proof.
  intros H. unfold trim_right.
  rewrite (trim_fix space_len_rev trim_rev trim_rev_unfold _ H). apply rev_involutive.
Qed.

Lemma trim_right_prefix l : exists q, l = trim_right l ++ q.
Proof.
  destruct (trim_suffix space_len_rev trim_rev space_len_rev_le trim_rev_unfold (rev l)) as [p Hp].
  exists (rev p). unfold trim_right.
  by rewrite <- rev_app_distr, <- Hp, rev_involutive.
Qed.

Lemma trim_left_suffix l : exists p, l = p ++ trim_left l.
Proof. eapply trim_suffix; [apply space_len_le | apply trim_left_unfold]. Qed.

Lemma trim_right_left l : trim_left (trim_right (trim_left l)) = trim_right (trim_left l).
Proof.
  apply trim_left_fix. destruct (trim_right_prefix (trim_left l)) as [q Hq].
  eapply size_prefix with (k := q); [apply space_len_app|].
  rewrite <- Hq. apply trim_left_size.
Qed.

Lemma chars_TrimSpace s : chars (TrimSpace s) = trim_right (trim_left (chars s)).
Proof. apply chars_implode. Qed.

Lemma TrimSpace_idem s : TrimSpace (TrimSpace s) = TrimSpace s.
Proof.
  apply chars_inj. by rewrite !chars_TrimSpace, trim_right_left, trim_right_idem.
Qed.

(** [TrimSpace] returns a substring. *)
Lemma TrimSpace_sub s : exists p q, s = p +:+ TrimSpace s +:+ q.
Proof.
  destruct (trim_left_suffix (chars s)) as [p Hp].
  destruct (trim_right_prefix (trim_left (chars s))) as [q Hq].
  exists (implode p), (implode q). apply chars_inj.
  rewrite !chars_app, chars_TrimSpace, !chars_implode. by rewrite <- Hq, <- Hp.
Qed.

(** A string with no space at either end. *)
Definition trimmed (s : string) : Prop := TrimSpace s = s.

Lemma TrimSpace_trimmed s : trimmed (TrimSpace s).
Proof. apply TrimSpace_idem. Qed.

Lemma TrimSpace_Forall (P : ascii -> Prop) s :
  Forall P (chars s) -> Forall P (chars (TrimSpace s)).
Proof.
  destruct (TrimSpace_sub s) as (p & q & Hs). rewrite Hs at 1.
  rewrite !chars_app, !Forall_app. tauto.
Qed.

(** Case mapping does not create or remove spaces. *)
Lemma lower_byte_between lo hi c :
  hi < 65 \/ 122 < lo -> between lo hi (lower_byte c) = between lo hi c.
Proof.
  intros H. unfold lower_byte. destruct (is_upper c) eqn:E; [|done].
  unfold is_upper, between, code in *. breflect.
  rewrite N_ascii_embedding by lia. rewrite Z2N.id by lia.
  generalize dependent (Z.of_N (N_of_ascii c)). intros z ? ?.
  apply Bool.eq_iff_eq_true. rewrite !andb_true_iff, !Z.leb_le. lia.
Qed.

Lemma code_eqb_between k c : (code c =? k) = between k k c.
Proof.
  unfold between. apply Bool.eq_iff_eq_true.
  rewrite andb_true_iff, !Z.leb_le, Z.eqb_eq. lia.
Qed.

Lemma sp1_lower c : sp1 (lower_byte c) = sp1 c.
Proof. unfold sp1. rewrite !code_eqb_between, !lower_byte_between by lia. done. Qed.

Lemma sp2_lower c d : sp2 (lower_byte c) (lower_byte d) = sp2 c d.
Proof. unfold sp2. rewrite !code_eqb_between, !lower_byte_between by lia. done. Qed.

Lemma sp3_lower c d e : sp3 (lower_byte c) (lower_byte d) (lower_byte e) = sp3 c d e.
Proof. unfold sp3. rewrite !code_eqb_between, !lower_byte_between by lia. done. Qed.

Lemma space_len_lower l : space_len (map lower_byte l) = space_len l.
Proof.
  destruct l as [|c [|d [|e l]]]; simpl; rewrite ?sp1_lower, ?sp2_lower, ?sp3_lower; done.
Qed.

Lemma space_len_rev_lower l : space_len_rev (map lower_byte l) = space_len_rev l.
Proof.
  destruct l as [|c [|d [|e l]]]; simpl; rewrite ?sp1_lower, ?sp2_lower, ?sp3_lower; done.
Qed.

(** A map that keeps the size test commutes with the trim. *)
Lemma trim_map (f : ascii -> ascii) size trim :
  (forall l, (size l <= length l)%nat) ->
  (forall l, trim l = match size l with O => l | n => trim (drop n l) end) ->
  (forall l, size (map f l) = size l) ->
  forall l, trim (map f l) = map f (trim l).
Proof.
  intros Hle Hun Hf l.
  induction l as [l H|l H IH] using (trim_ind size Hle).
  - rewrite (trim_fix size trim Hun l H). apply (trim_fix size trim Hun). by rewrite Hf.
  - rewrite (trim_drop size trim Hun l H), <- IH.
    rewrite (trim_drop size trim Hun) by (by rewrite Hf). by rewrite Hf, skipn_map.
Qed.

Lemma TrimSpace_ToLower s : TrimSpace (ToLower s) = ToLower (TrimSpace s).
Proof.
  apply chars_inj. rewrite chars_TrimSpace, !chars_ToLower, chars_TrimSpace.
  rewrite (trim_map _ _ _ space_len_le trim_left_unfold space_len_lower).
  unfold trim_right. rewrite <- !map_rev.
  by rewrite (trim_map _ _ _ space_len_rev_le trim_rev_unfold space_len_rev_lower), <- map_rev.
Qed.

#[export] Hint Rewrite TrimSpace_idem TrimSpace_ToLower : go.
#[export] Hint Resolve TrimSpace_trimmed : go.

(** ** Prefixes and searching *)

Fixpoint l_prefix (p l : list ascii) : bool :=
  match p, l with
  | [], _ => true
  | a :: p', b :: l' => Ascii.eqb a b && l_prefix p' l'
  | _ :: _, [] => false
  end.

Definition HasPrefix (s p : string) : bool := l_prefix (chars p) (chars s).

Definition TrimPrefix (s p : string) : string :=
  if HasPrefix s p then implode (drop (length (chars p)) (chars s)) else s.

(** [strings.Index] with [-1] as [None]. *)
Fixpoint l_index (p l : list ascii) : option nat :=
  if l_prefix p l then Some O
  else match l with
       | [] => None
       | _ :: l' => S <$> l_index p l'
       end.

Definition Index (s p : string) : option nat := l_index (chars p) (chars s).

Definition Contains (s p : string) : bool :=
  match Index s p with Some _ => true | None => false end.

(** [s[:i]] and [s[i:]] *)
Definition slice_to (s : string) (i : nat) : string := implode (take i (chars s)).
Definition slice_from (s : string) (i : nat) : string := implode (drop i (chars s)).

(** [strings.Count] of a non-empty separator: the occurrences do not overlap,
    [skip] is the rest of the last one. *)
Fixpoint l_count (p : list ascii) (skip : nat) (l : list ascii) : Z :=
  match l with
  | [] => 0
  | _ :: l' =>
      match skip with
      | S k => l_count p k l'
      | O => if l_prefix p l then 1 + l_count p (length p - 1) l' else l_count p O l'
      end
  end.

Definition Count (s p : string) : Z := l_count (chars p) O (chars s).

(** [strings.SplitN(s, c, n)] for a one-byte separator and [n >= 1]. *)
Fixpoint l_splitn (n : nat) (c : ascii) (acc l : list ascii) : list (list ascii) :=
  match l with
  | [] => [rev acc]
  | x :: l' =>
      match n with
      | O | S O => [rev acc ++ l]
      | S n' => if Ascii.eqb x c then rev acc :: l_splitn n' c [] l'
                else l_splitn n c (x :: acc) l'
      end
  end.

Definition SplitN (s : string) (c : ascii) (n : nat) : list string :=
  map implode (l_splitn n c [] (chars s)).

(** [strings.ReplaceAll] of one byte by another. *)
Definition ReplaceByte (s : string) (c d : ascii) : string :=
  implode (map (fun x => if Ascii.eqb x c then d else x) (chars s)).

Lemma l_prefix_spec p l : l_prefix p l = true <-> exists r, l = p ++ r.
Proof.
  revert l; induction p as [|a p IH]; intros l; simpl.
  - split; eauto.
  - destruct l as [|b l]; [split; [done | by intros (? & ?)]|].
    rewrite andb_true_iff, Ascii.eqb_eq, IH. split.
    + intros (-> & r & ->). by exists r.
    + intros (r & ?). simplify_eq. eauto.
Qed.

Lemma HasPrefix_spec s p : HasPrefix s p = true <-> exists r, s = p +:+ r.
Proof.
  unfold HasPrefix. rewrite l_prefix_spec. split; intros (r & Hr).
  - exists (implode r). apply chars_inj. by rewrite chars_app, chars_implode.
  - exists (chars r). by rewrite Hr, chars_app.
Qed.

Lemma HasPrefix_app p r : HasPrefix (p +:+ r) p = true.
Proof. apply HasPrefix_spec. eauto. Qed.

Lemma TrimPrefix_app p r : TrimPrefix (p +:+ r) p = r.
Proof.
  unfold TrimPrefix. rewrite HasPrefix_app, chars_app, drop_app_length. apply implode_chars.
Qed.

Lemma l_index_Some p l i :
  l_index p l = Some i -> exists a b, l = a ++ p ++ b /\ length a = i.
Proof.
  revert i; induction l as [|x l IH]; intros i; simpl.
  - destruct (l_prefix p []) eqn:E; [|done]. intros; simplify_eq.
    apply l_prefix_spec in E as (r & Hr). exists [], r. done.
  - destruct (l_prefix p (x :: l)) eqn:E; intros H.
    + simplify_eq. apply l_prefix_spec in E as (r & ->). by exists [], r.
    + destruct (l_index p l) as [j|]; simplify_eq/=.
      destruct (IH j eq_refl) as (a & b & -> & <-). by exists (x :: a), b.
Qed.

Lemma l_index_None p l a b : l_index p l = None -> l <> a ++ p ++ b.
Proof.
  revert a; induction l as [|x l IH]; intros a; simpl.
  - destruct (l_prefix p []) eqn:E; [done|]. intros _ Hl.
    symmetry in Hl. apply app_nil in Hl as (-> & (-> & ->)%app_nil). done.
  - destruct (l_prefix p (x :: l)) eqn:E; [done|].
    destruct (l_index p l) as [j|]; [done|]. intros _ Hl. destruct a as [|y a]; simplify_eq/=.
    + assert (l_prefix p (x :: l) = true) by (apply l_prefix_spec; eauto). congruence.
    + by apply (IH a).
Qed.

Lemma Contains_spec s p : Contains s p = true <-> exists a b, s = a +:+ p +:+ b.
Proof.
  unfold Contains, Index. destruct (l_index (chars p) (chars s)) as [i|] eqn:E; split.
  - intros _. apply l_index_Some in E as (a & b & H & _).
    exists (implode a), (implode b). apply chars_inj. by rewrite !chars_app, !chars_implode.
  - done.
  - done.
  - intros (a & b & ->). exfalso.
    eapply (l_index_None _ _ (chars a) (chars b)); [exact E|]. by rewrite !chars_app.
Qed.

(** The first occurrence of a byte. *)
Lemma l_index_byte_Some c l i :
  l_index [c] l = Some i <->
  exists a b, l = a ++ c :: b /\ length a = i /\ c ∉ a.
Proof.
  split.
  - revert i; induction l as [|x l IH]; intros i; simpl; [done|].
    rewrite andb_true_r. destruct (Ascii.eqb_spec c x) as [->|Hne]; intros H.
    + simplify_eq. exists [], l. split_and!; [done..|]. apply not_elem_of_nil.
    + destruct (l_index [c] l) as [j|]; simplify_eq/=.
      destruct (IH j eq_refl) as (a & b & -> & <- & Ha). exists (x :: a), b.
      split_and!; [done..|]. by rewrite not_elem_of_cons.
  - intros (a & b & -> & <- & Ha). induction a as [|x a IH]; simpl.
    + by rewrite Ascii.eqb_refl.
    + apply not_elem_of_cons in Ha as (Hx & Ha).
      rewrite andb_true_r. destruct (Ascii.eqb_spec c x); [done|]. by rewrite IH.
Qed.

Lemma l_index_byte_None c l : l_index [c] l = None <-> c ∉ l.
Proof.
  induction l as [|x l IH]; simpl; [split; [intros _; apply not_elem_of_nil | done]|].
  rewrite andb_true_r, not_elem_of_cons. destruct (Ascii.eqb_spec c x) as [->|Hne].
  - split; [done | tauto].
  - destruct (l_index [c] l) as [j|]; simpl; [|tauto].
    split; [done|]. intros (_ & H). by apply IH in H.
Qed.

(** The pieces of [SplitN]. *)
Lemma l_splitn_piece n c acc a r :
  c ∉ a -> l_splitn (S (S n)) c acc (a ++ c :: r) = (rev acc ++ a) :: l_splitn (S n) c [] r.
Proof.
  revert acc; induction a as [|x a IH]; intros acc Ha; simpl.
  - by rewrite Ascii.eqb_refl, app_nil_r.
  - apply not_elem_of_cons in Ha as (Hx & Ha).
    destruct (Ascii.eqb_spec x c); [congruence|]. rewrite IH by done. simpl.
    by rewrite <- app_assoc.
Qed.

Lemma l_splitn_last c l : l_splitn 1 c [] l = [l].
Proof. by destruct l. Qed.

(** No space at the end: what [TrimSpace] leaves, and what a separator in
    front of it keeps. *)
Definition tail_trimmed (s : string) : Prop := space_len_rev (rev (chars s)) = O.

Lemma TrimSpace_tail s : tail_trimmed (TrimSpace s).
Proof.
  unfold tail_trimmed. rewrite chars_TrimSpace. unfold trim_right. rewrite rev_involutive.
  apply (trim_size space_len_rev trim_rev space_len_rev_le trim_rev_unfold).
Qed.

Lemma ToLower_tail s : tail_trimmed s -> tail_trimmed (ToLower s).
Proof. unfold tail_trimmed. by rewrite chars_ToLower, <- map_rev, space_len_rev_lower. Qed.

Lemma tail_trimmed_after s t :
  t <> "" -> tail_trimmed t -> tail_trimmed (s +:+ ":" +:+ t).
Proof.
  unfold tail_trimmed. rewrite !chars_app, !rev_app_distr. simpl. intros Hne Ht.
  rewrite <- app_assoc. simpl.
  assert (Hr : rev (chars t) <> []).
  { intros E. apply Hne, chars_nil. by rewrite <- (rev_involutive (chars t)), E. }
  revert Ht. destruct (rev (chars t)) as [|a [|b [|c l]]]; [done | | |]; simpl.
  - destruct (sp1 a) eqn:E; [done|]. intros _.
    destruct (rev (chars s)) as [|e l]; [done|].
    assert (Hk : sp3 e ":"%char a = false).
    { unfold sp3. change (code ":"%char) with 58. by rewrite !andb_false_r. }
    by rewrite Hk.
  - destruct (sp1 a) eqn:E; [done|]. by destruct (sp2 b a) eqn:E2.
  - done.
Qed.

(** A string that begins with a letter and does not end with a space. *)
Lemma TrimSpace_letter c s :
  is_lower c = true -> tail_trimmed (String c s) -> TrimSpace (String c s) = String c s.
Proof.
  intros Hc Ht. apply chars_inj. rewrite chars_TrimSpace, trim_left_fix.
  - by apply trim_right_fix.
  - change (chars (String c s)) with (c :: chars s).
    assert (H1 : sp1 c = false /\ (forall d, sp2 c d = false) /\ (forall d e, sp3 c d e = false)).
    { unfold is_lower, between in Hc. breflect.
      assert (Hk : forall k, 128 <= k -> (code c =? k) = false) by (intros; apply Z.eqb_neq; lia).
      unfold sp1, sp2, sp3, between. split_and!.
      - apply orb_false_iff. split; [apply andb_false_iff; right; apply Z.leb_gt; lia | apply Z.eqb_neq; lia].
      - intros d. by rewrite Hk.
      - intros d e. by rewrite !Hk. }
    destruct H1 as (H1 & H2 & H3). destruct (chars s) as [|d [|e l]]; simpl; by rewrite H1, ?H2, ?H3.
Qed.

(** ** Decimal numerals: [%d] *)

Fixpoint digits_fuel (fuel : nat) (n : N) (acc : list ascii) : list ascii :=
  match fuel with
  | O => acc
  | S f =>
      let d := ascii_of_N (48 + n mod 10) in
      if (n <? 10)%N then d :: acc else digits_fuel f (n / 10)%N (d :: acc)
  end.

(** A number of [k] bits has at most [k + 1] digits. *)
Definition itoa_N (n : N) : string := implode (digits_fuel (S (N.to_nat (N.size n))) n []).

Definition itoa (z : Z) : string :=
  match z with
  | Zneg p => "-" +:+ itoa_N (Npos p)
  | _ => itoa_N (Z.to_N z)
  end.

Example itoa_examples :
  map itoa [0; 7; 10; 429; -12; 9223372036854775807] =
  ["0"; "7"; "10"; "429"; "-12"; "9223372036854775807"].
Proof. vm_compute. reflexivity. Qed.

Example strings_examples :
  (TrimSpace (implode [ascii_of_nat 194; ascii_of_nat 160] +:+ "  a b ") = "a b") /\
  (SplitN "agent:x:y:z" ":" 3 = ["agent"; "x"; "y:z"]) /\
  (Count "``````` ```" "```" = 3) /\
  (Index "telegram:12" ":" = Some 8%nat) /\
  (TrimPrefix "@alice" "@" = "alice").
Proof. vm_compute. auto. Qed.
