(* ===== verification/GoLib.v ===== *)
(** * Parts of Go's standard library: texts, numbers and hashes that the program uses

    One module each, imported where it is used: fields, durations, sorting,
    floating point numbers, SHA-256, regular expressions and UTF-8. *)

From Stdlib Require OrdersEx SpecFloat.
From stdpp Require sorting.
From S2P Require Import Prelude GoStrings.

(** * [strings.Fields] and [strings.Trim] *)
Module GoFields.
(** The fields between runs of white space. [skip] bytes of a space are still
    to come; [cur] is the field so far, backwards. *)
Fixpoint l_fields (skip : nat) (cur l : list ascii) : list (list ascii) :=
  match l with
  | [] => match cur with [] => [] | _ => [rev cur] end
  | c :: l' =>
      match skip with
      | Datatypes.S k => l_fields k cur l'
      | O =>
          match space_len l with
          | O => l_fields O (c :: cur) l'
          | Datatypes.S k => match cur with [] => l_fields k [] l' | _ => rev cur :: l_fields k [] l' end
          end
      end
  end.

Definition Fields (s : string) : list string := map implode (l_fields O [] (chars s)).

(** [cutset] holds ASCII characters only. *)
Fixpoint drop_cutset (cutset : string) (l : list ascii) : list ascii :=
  match l with
  | c :: l' => if existsb (Ascii.eqb c) (chars cutset) then drop_cutset cutset l' else l
  | [] => []
  end.

Definition TrimCutset (s cutset : string) : string :=
  implode (rev (drop_cutset cutset (rev (drop_cutset cutset (chars s))))).

Example fields_example : Fields " /new  chat
 now " = ["/new"; "chat"; "now"] /\ Fields "  " = [].
Proof. split; reflexivity. Qed.

Example trim_example : TrimCutset "(it's)." ".,;:!?'()" = "it's".
Proof. reflexivity. Qed.

(** A field is never empty. *)
Lemma l_fields_nonempty skip cur l : Forall (fun f => f <> []) (l_fields skip cur l).
Proof.
  revert skip cur. induction l as [|c l IH]; intros skip cur; cbn [l_fields].
  - destruct cur as [|x cur]; [constructor|]. constructor; [|constructor]. simpl. by destruct (rev cur).
  - destruct skip as [|k]; [|apply IH]. destruct (space_len (c :: l)) as [|k]; [apply IH|].
    destruct cur as [|x cur]; [apply IH|]. constructor; [|apply IH]. simpl. by destruct (rev cur).
Qed.
End GoFields.

(** * Rounding and printing a [time.Duration] *)
Module GoDuration.
(** [d.Round(m)] for [m > 0]: to the nearest multiple, halves away from zero,
    saturating. *)
Definition Round (d m : duration) : duration :=
  let r := Z.rem d m in
  if d <? 0 then
    let r := - r in
    if r + r <? m then d + r else Z.max int64_min (d - m + r)
  else
    if r + r <? m then d - r else Z.min int64_max (d + m - r).

(** [fmtFrac]: the fraction of [v / 10^prec] without trailing zeros (with its
    point when there is one), and the integer part. *)
Fixpoint fmtFrac (prec : nat) (v : Z) (print : bool) (acc : string) : string * Z :=
  match prec with
  | O => (if print then "." +:+ acc else acc, v)
  | S p =>
      let digit := v mod 10 in
      let print := print || negb (digit =? 0) in
      fmtFrac p (v / 10) print (if print then itoa digit +:+ acc else acc)
  end.

Definition micro_sign : string := implode [ascii_of_nat 194; ascii_of_nat 181].

(** [d.String()] *)
Definition DurationString (d : duration) : string :=
  let u := Z.abs d in
  let sign := if d <? 0 then "-" else "" in
  if u =? 0 then "0s"
  else if u <? Second then
    let '(prec, unit) :=
      if u <? 1000 then (0%nat, "ns")
      else if u <? 1000000 then (3%nat, micro_sign +:+ "s")
      else (6%nat, "ms") in
    let '(frac, v) := fmtFrac prec u false "" in
    sign +:+ itoa v +:+ frac +:+ unit
  else
    let '(frac, v) := fmtFrac 9 u false "" in
    let secs := itoa (v mod 60) +:+ frac +:+ "s" in
    let v := v / 60 in
    if v =? 0 then sign +:+ secs
    else
      let mins := itoa (v mod 60) +:+ "m" +:+ secs in
      let v := v / 60 in
      if v =? 0 then sign +:+ mins else sign +:+ itoa v +:+ "h" +:+ mins.

Example DurationString_examples :
  map DurationString [0; 1; 1100; 2200000; 1500 * Millisecond; 5 * Minute; Hour; 24 * Hour + 90 * Second] =
  ["0s"; "1ns"; "1.1" +:+ micro_sign +:+ "s"; "2.2ms"; "1.5s"; "5m0s"; "1h0m0s"; "24h1m30s"].
Proof. vm_compute. reflexivity. Qed.

Lemma Round_nonneg d m : 0 < m -> 0 <= d -> d <= int64_max - m ->
  (m | Round d m) /\ Z.abs (Round d m - d) * 2 <= m.
Proof.
  intros Hm Hd Hmax. unfold Round. rewrite (proj2 (Z.ltb_ge d 0)) by lia.
  rewrite Z.rem_mod_nonneg by lia. pose proof (Z.mod_pos_bound d m Hm).
  pose proof (Z.div_mod d m ltac:(lia)) as Hdm.
  destruct (Z.ltb_spec (d mod m + d mod m) m).
  - split; [|lia]. exists (d / m). lia.
  - rewrite Z.min_r by lia. split; [|lia]. exists (d / m + 1). lia.
Qed.
End GoDuration.

(** * Sorted strings: [sort.Strings] and the keys of a map in order *)
Module GoSort.
Import OrdersEx sorting.
(** Go's order on strings: by bytes. *)
Definition string_leb (s t : string) : bool :=
  match String.compare s t with Gt => false | _ => true end.

Fixpoint insert_sorted (s : string) (l : list string) : list string :=
  match l with
  | [] => [s]
  | x :: l' => if string_leb s x then s :: l else x :: insert_sorted s l'
  end.

(** [sort.Strings] on the keys of a map, in whatever order they come. *)
Definition sort_strings (l : list string) : list string := fold_right insert_sorted [] l.

Lemma string_compare_OT s t : String.compare s t = String_as_OT.compare s t.
Proof. revert t. induction s as [|a s IH]; intros [|b t]; simpl; try done. Qed.

Lemma string_leb_spec s t : string_leb s t <-> s = t \/ String_as_OT.lt s t.
Proof.
  unfold string_leb, String_as_OT.lt. rewrite string_compare_OT.
  destruct (String_as_OT.compare_spec s t) as [E|E|E]; simpl; try naive_solver.
  split; [done|]. intros [->|E']; unfold String_as_OT.lt in *; [|]; exfalso.
  - by apply (irreflexivity String_as_OT.lt t).
  - apply (irreflexivity String_as_OT.lt s). by eapply (transitivity (R := String_as_OT.lt)).
Qed.

#[export] Instance string_leb_preorder : PreOrder string_leb.
Proof.
  split.
  - intros s. apply string_leb_spec. by left.
  - intros s t u. rewrite !string_leb_spec. intros [->|H1] [->|H2]; eauto. right. by eapply (transitivity (R := String_as_OT.lt)).
Qed.

#[export] Instance string_leb_antisymm : AntiSymm (=) string_leb.
Proof.
  intros s t. rewrite !string_leb_spec. intros [->|Ha]; [done|]. intros [->|Hb]; [done|].
  exfalso. apply (irreflexivity String_as_OT.lt s). by eapply (transitivity (R := String_as_OT.lt)).
Qed.

Lemma string_leb_total s t : string_leb s t \/ string_leb t s.
Proof.
  rewrite !string_leb_spec. destruct (String_as_OT.compare_spec s t); unfold String_as_OT.eq in *; auto.
Qed.

Lemma insert_sorted_perm s l : insert_sorted s l ≡ₚ s :: l.
Proof. induction l as [|x l IH]; simpl; [done|]. destruct (string_leb s x); [done|]. rewrite IH. by constructor. Qed.

Lemma sort_strings_perm l : sort_strings l ≡ₚ l.
Proof. induction l as [|x l IH]; simpl; [done|]. by rewrite insert_sorted_perm, IH. Qed.

Lemma insert_sorted_sorted s l : StronglySorted string_leb l -> StronglySorted string_leb (insert_sorted s l).
Proof.
  induction 1 as [|x l Hl IH Hx]; simpl; [by repeat constructor|].
  destruct (string_leb s x) eqn:E.
  - apply Is_true_true in E. constructor; [by constructor|]. constructor; [done|].
    eapply Forall_impl; [done|]. intros y Hy. by transitivity x.
  - constructor; [done|]. rewrite insert_sorted_perm. constructor; [|done].
    destruct (string_leb_total s x) as [Hs|Hs]; [by rewrite E in Hs|done].
Qed.

Lemma sort_strings_sorted l : StronglySorted string_leb (sort_strings l).
Proof. induction l as [|x l IH]; simpl; [constructor|]. by apply insert_sorted_sorted. Qed.

(** The order in which a map gives its keys does not matter. *)
Lemma sort_strings_unique l k : StronglySorted string_leb k -> k ≡ₚ l -> sort_strings l = k.
Proof.
  intros Hk Hp. eapply (StronglySorted_unique string_leb); [apply sort_strings_sorted|done|].
  by rewrite sort_strings_perm.
Qed.

Lemma sort_strings_proper l k : l ≡ₚ k -> sort_strings l = sort_strings k.
Proof. intros Hp. apply sort_strings_unique; [apply sort_strings_sorted|]. by rewrite sort_strings_perm. Qed.

(** The keys of a map, sorted. *)
Definition sorted_keys {A} (m : gmap string A) : list string := sort_strings (map fst (map_to_list m)).

Lemma elem_sorted_keys {A} (m : gmap string A) k : k ∈ sorted_keys m <-> is_Some (m !! k).
Proof.
  unfold sorted_keys. rewrite sort_strings_perm, list_elem_of_fmap. split.
  - intros ([k' x] & -> & Hx). apply elem_of_map_to_list in Hx. by exists x.
  - intros [x Hx]. exists (k, x). split; [done|]. by apply elem_of_map_to_list.
Qed.

Lemma NoDup_sorted_keys {A} (m : gmap string A) : NoDup (sorted_keys m).
Proof. unfold sorted_keys. rewrite sort_strings_perm. apply NoDup_fst_map_to_list. Qed.

Lemma sorted_keys_sorted {A} (m : gmap string A) : StronglySorted string_leb (sorted_keys m).
Proof. apply sort_strings_sorted. Qed.
End GoSort.

(** * float64 arithmetic

    IEEE 754 binary64, with the executable operations of [SpecFloat]
    (round to nearest, ties to even), which rest on no axiom. *)
Module GoFloat.
Export SpecFloat.
Abbreviation float64 := spec_float.

Definition fadd : float64 -> float64 -> float64 := SFadd 53 1024.
Definition fsub : float64 -> float64 -> float64 := SFsub 53 1024.
Definition fmul : float64 -> float64 -> float64 := SFmul 53 1024.
Definition fdiv : float64 -> float64 -> float64 := SFdiv 53 1024.
Definition fltb : float64 -> float64 -> bool := SFltb.
Definition fleb : float64 -> float64 -> bool := SFleb.

(** [float64(z)] *)
Definition float_of_Z (z : Z) : float64 := binary_normalize 53 1024 z 0 false.

(** The literal [n / d]: the quotient of two exact integers is rounded once,
    so it is the double nearest to the decimal constant. *)
Definition lit (n d : Z) : float64 := fdiv (float_of_Z n) (float_of_Z d).

Definition fzero : float64 := S754_zero false.
Definition fone : float64 := float_of_Z 1.

Definition is_nan (x : float64) : bool := match x with S754_nan => true | _ => false end.
Definition fsign (x : float64) : bool :=
  match x with S754_zero s | S754_infinity s | S754_finite s _ _ => s | S754_nan => false end.

(** The built-in [min] on floats: NaN wins, then [-0] before [0]. *)
Definition fmin (x y : float64) : float64 :=
  if is_nan x || is_nan y then S754_nan
  else if fltb x y then x
  else if fltb y x then y
  else if fsign x then x else y.

(** [d.Seconds()] *)
Definition Seconds (d : duration) : float64 :=
  fadd (float_of_Z (Z.quot d Second)) (fdiv (float_of_Z (Z.rem d Second)) (float_of_Z 1000000000)).

(** Conversion to an integer truncates towards zero (in range). *)
Definition float_to_Z (x : float64) : Z :=
  match x with
  | S754_finite s m e =>
      let v := if 0 <=? e then Z.shiftl (Z.pos m) e else Z.shiftr (Z.pos m) (- e) in
      if s then - v else v
  | _ => 0
  end.

Example float_examples :
  fadd (lit 1 10) (lit 2 10) = lit 30000000000000004 100000000000000000 /\
  fadd (lit 25 100) (lit 10 100) = lit 35 100 /\
  float_to_Z (Seconds (90 * Second)) = 90.
Proof. vm_compute. auto. Qed.

Lemma SFcompare_refl x : is_nan x = false -> SFcompare x x = Some Eq.
Proof.
  destruct x as [s|s| |s m e]; intros H; try discriminate H.
  - reflexivity.
  - by destruct s.
  - assert (Hm : Pos.compare_cont Eq m m = Eq) by apply Pos.compare_cont_refl.
    simpl. rewrite Z.compare_refl, Hm. by destruct s.
Qed.

Lemma fleb_refl x : is_nan x = false -> fleb x x = true.
Proof. intros H. unfold fleb, SFleb. by rewrite SFcompare_refl. Qed.

Lemma fltb_fleb x y : fltb x y = true -> fleb x y = true.
Proof. unfold fltb, fleb, SFltb, SFleb. by destruct (SFcompare x y) as [[]|]. Qed.

(** *** The order is a strict weak order, NaN apart *)

Lemma fltb_asym x y : fltb x y = true -> fltb y x = false.
Proof.
  unfold fltb, SFltb. destruct x as [[]|[]| |[] m e], y as [[]|[]| |[] n f]; simpl; try done.
  all: rewrite ?(Z.compare_antisym f e); destruct (Z.compare_spec f e); simpl; try done;
    rewrite ?(Pos.compare_cont_spec n m), ?(Pos.compare_cont_spec m n); 
    rewrite ?(Pos.compare_antisym n m); destruct (Pos.compare n m); simpl; done.
Qed.

Lemma fltb_ntrans x y z :
  is_nan x = false -> is_nan y = false -> is_nan z = false ->
  fltb y x = false -> fltb z y = false -> fltb z x = false.
Proof.
  unfold fltb, SFltb.
  destruct x as [[]|[]| |[] m e], y as [[]|[]| |[] n f], z as [[]|[]| |[] p g]; simpl; try done; intros _ _ _.
  all: rewrite ?Pos.compare_cont_spec; simpl.
  all: destruct (Z.compare_spec f e), (Z.compare_spec g f), (Z.compare_spec g e); try lia; simpl; try done.
  all: destruct (Pos.compare_spec n m), (Pos.compare_spec p n), (Pos.compare_spec p m); simpl; try done; lia.
Qed.

(** *** and [<=] is its complement *)

Lemma fltb_nan_r x : fltb x S754_nan = false.
Proof. by destruct x. Qed.

Lemma fltb_not_nan x y : fltb x y = true -> is_nan x = false /\ is_nan y = false.
Proof. by destruct x, y. Qed.

Lemma fleb_fltb x y : is_nan x = false -> is_nan y = false -> fleb x y = negb (fltb y x).
Proof.
  unfold fleb, fltb, SFleb, SFltb. destruct x as [[]|[]| |[] m e], y as [[]|[]| |[] n f]; simpl; try done; intros _ _.
  all: rewrite ?Pos.compare_cont_spec; simpl; rewrite (Z.compare_antisym e f); destruct (Z.compare_spec e f); simpl; try done;
    rewrite (Pos.compare_antisym m n); by destruct (Pos.compare m n).
Qed.

Lemma fleb_not_nan x y : fleb x y = true -> is_nan x = false /\ is_nan y = false.
Proof. by destruct x, y. Qed.

(** Nothing above a bound is above what nothing exceeds. *)
Lemma fleb_max a x s : fleb a x = true -> fltb s x = false -> is_nan s = false -> fleb a s = true.
Proof.
  intros Ha Hs Hn. destruct (fleb_not_nan _ _ Ha) as [Hna Hnx]. rewrite fleb_fltb in * by done.
  apply negb_true_iff in Ha. apply negb_true_iff. by apply (fltb_ntrans a x s).
Qed.
End GoFloat.

(** * SHA-256 and hexadecimal output

    [crypto/sha256.Sum256] on a list of bytes (FIPS 180-4) with 32-bit words
    as [Z], and [encoding/hex.EncodeToString]. *)
Module GoSha256.
Definition byte := Z.

Definition word (z : Z) : Z := z mod 2 ^ 32.
Definition rotr (n x : Z) : Z := word (Z.lor (Z.shiftr x n) (Z.shiftl x (32 - n))).
Definition Ch (x y z : Z) : Z := Z.lxor (Z.land x y) (Z.land (Z.lxor x (2 ^ 32 - 1)) z).
Definition Maj (x y z : Z) : Z := Z.lxor (Z.land x y) (Z.lxor (Z.land x z) (Z.land y z)).
Definition Sigma0 (x : Z) : Z := Z.lxor (rotr 2 x) (Z.lxor (rotr 13 x) (rotr 22 x)).
Definition Sigma1 (x : Z) : Z := Z.lxor (rotr 6 x) (Z.lxor (rotr 11 x) (rotr 25 x)).
Definition sigma0 (x : Z) : Z := Z.lxor (rotr 7 x) (Z.lxor (rotr 18 x) (Z.shiftr x 3)).
Definition sigma1 (x : Z) : Z := Z.lxor (rotr 17 x) (Z.lxor (rotr 19 x) (Z.shiftr x 10)).

(** The constants of the standard: the first 32 bits of the fractions of the
    cube roots of the first 64 primes, and of the square roots of the first 8. *)
Definition is_prime (n : Z) : bool :=
  forallb (fun d => negb (n mod Z.of_nat d =? 0)) (seq 2 (Z.to_nat (Z.sqrt n) - 1)).
Definition primes : list Z := List.filter is_prime (map Z.of_nat (seq 2 310)).

(** The greatest [r] below [r + 2 ^ n] with [r ^ 3 <= x]. *)
Fixpoint cube_root (n : nat) (x r : Z) : Z :=
  match n with
  | O => r
  | S n' => let r' := r + 2 ^ Z.of_nat n' in cube_root n' x (if r' * r' * r' <=? x then r' else r)
  end.

Definition round_constants : list Z :=
  Eval vm_compute in map (fun p => cube_root 36 (p * 2 ^ 96) 0 mod 2 ^ 32) primes.
Definition initial_state : list Z :=
  Eval vm_compute in map (fun p => Z.sqrt (p * 2 ^ 64) mod 2 ^ 32) (take 8 primes).

(** Big-endian words, [n] bytes each. *)
Fixpoint to_bytes (n : nat) (z : Z) : list byte :=
  match n with
  | O => []
  | S n' => to_bytes n' (Z.shiftr z 8) ++ [z mod 256]
  end.

Definition of_bytes (l : list byte) : Z := fold_left (fun acc b => acc * 256 + b) l 0.

Definition pad (l : list byte) : list byte :=
  let n := Z.of_nat (length l) in
  l ++ [128] ++ replicate (Z.to_nat ((55 - n) mod 64)) 0 ++ to_bytes 8 (8 * n).

Fixpoint chunks (fuel n : nat) (l : list byte) : list (list byte) :=
  match fuel, l with
  | S fuel', _ :: _ => take n l :: chunks fuel' n (drop n l)
  | _, _ => []
  end.

(** The words of the schedule, the last one first. *)
Fixpoint schedule (n : nat) (w : list Z) : list Z :=
  match n with
  | O => w
  | S n' =>
      let next := word (sigma1 (nth 1 w 0) + nth 6 w 0 + sigma0 (nth 14 w 0) + nth 15 w 0) in
      schedule n' (next :: w)
  end.

Definition sha_round (h : list Z) (kw : Z * Z) : list Z :=
  match h with
  | [a; b; c; d; e; f; g; hh] =>
      let t1 := word (hh + Sigma1 e + Ch e f g + fst kw + snd kw) in
      let t2 := word (Sigma0 a + Maj a b c) in
      [word (t1 + t2); a; b; c; word (d + t1); e; f; g]
  | _ => h
  end.

Definition sha_block (h : list Z) (block : list byte) : list Z :=
  let w := rev (schedule 48 (rev (map of_bytes (chunks 16 4 block)))) in
  zip_with (fun x y => word (x + y)) h (fold_left sha_round (zip round_constants w) h).

Definition Sum256 (s : string) : list byte :=
  let l := pad (map code (chars s)) in
  flat_map (to_bytes 4) (fold_left sha_block (chunks (length l) 64 l) initial_state).

Definition hex_digit (z : Z) : ascii := nth (Z.to_nat z) (chars "0123456789abcdef") "0"%char.
Definition EncodeToString (l : list byte) : string :=
  implode (flat_map (fun b => [hex_digit (b / 16); hex_digit (b mod 16)]) l).

Lemma length_to_bytes n z : length (to_bytes n z) = n.
Proof. revert z; induction n as [|n IH]; intros z; [done|]. cbn [to_bytes]. rewrite length_app, IH. simpl. lia. Qed.

Lemma length_hex l : length (chars (EncodeToString l)) = (2 * length l)%nat.
Proof. unfold EncodeToString. rewrite chars_implode. induction l as [|b l IH]; [done|]. simpl in *. lia. Qed.

Example Sum256_vectors :
  EncodeToString (Sum256 "") = "e3b0c44298fc1c149afbf4c8996fb92427ae41e4649b934ca495991b7852b855" /\
  EncodeToString (Sum256 "abc") = "ba7816bf8f01cfea414140de5dae2223b00361a396177a9cb410ff61f20015ad" /\
  EncodeToString (Sum256 "abcdbcdecdefdefgefghfghighijhijkijkljklmklmnlmnomnopnopq") =
    "248d6a61d20638b8e5c026930c3e6039a33ce45964ff2167f6ecedd419db06c1".
Proof. vm_compute. auto. Qed.

Lemma length_sha_round h kw : length (sha_round h kw) = length h.
Proof. unfold sha_round. by destruct h as [|? [|? [|? [|? [|? [|? [|? [|? [|]]]]]]]]]. Qed.

Lemma length_rounds l h : length (fold_left sha_round l h) = length h.
Proof. revert h; induction l as [|kw l IH]; intros h; [done|]. cbn [fold_left]. by rewrite IH, length_sha_round. Qed.

Lemma length_sha_block h block : length (sha_block h block) = length h.
Proof. unfold sha_block. by rewrite length_zip_with, length_rounds, Nat.min_id. Qed.

Lemma length_Sum256 s : length (Sum256 s) = 32%nat.
Proof.
  unfold Sum256. set (bs := chunks _ _ _).
  assert (HB : forall h, length (fold_left sha_block bs h) = length h).
  { clear. induction bs as [|b bs IH]; intros h; [done|]. cbn [fold_left]. by rewrite IH, length_sha_block. }
  specialize (HB initial_state). set (h := fold_left _ _ _) in *. clearbody h.
  assert (HF : forall l, length (flat_map (to_bytes 4) l) = (4 * length l)%nat).
  { induction l as [|z l IH]; [done|]. cbn [flat_map length]. rewrite length_app, length_to_bytes, IH. lia. }
  rewrite HF, HB. reflexivity.
Qed.
End GoSha256.

(** * The regular expressions the program uses (package [regexp])

    Every pattern of the modelled files is a sequence of atoms over character
    classes, with no alternation.  The matcher backtracks and prefers the
    longest repetition first, as Go's leftmost-first semantics does. *)
Module GoRegexp.
Definition cls := ascii -> bool.

Inductive atom : Type :=
| ACls (p : cls)                  (* [p]        *)
| AOpt (p : cls)                  (* [p]?       *)
| AStar (p : cls)                 (* [p]*       *)
| ARep (p : cls) (hi : nat)       (* [p]{0,hi}  *)
| AWordB                          (* \b         *)
| ABegin                          (* ^          *)
| AEnd                            (* $          *)
| AOpen                           (* (          *)
| AClose.                         (* )          *)

Definition regex := list atom.

(** [p]+ *)
Definition APlus (p : cls) : regex := [ACls p; AStar p].

(** A literal text; under [(?i)] both cases of a letter match. *)
Definition ALit (s : string) : regex := map (fun c => ACls (Ascii.eqb c)) (chars s).
Definition ALitFold (s : string) : regex :=
  map (fun c => ACls (fun d => Ascii.eqb (lower_byte c) (lower_byte d))) (chars s).

(** Classes *)
Definition cDigit : cls := is_digit.                                   (* \d *)
Definition cSpace : cls := fun c => (code c =? 9) || (code c =? 10) || (code c =? 12)
                                    || (code c =? 13) || (code c =? 32).  (* \s *)
Definition cAny : cls := fun c => negb (code c =? 10).                 (* . *)
Definition cOneOf (s : string) : cls := fun c => existsb (Ascii.eqb c) (chars s).
Definition cWord : cls := fun c => is_digit c || is_lower c || is_upper c || (code c =? 95).

Definition at_word (o : option ascii) : bool :=
  match o with Some c => cWord c | None => false end.

(** The text captured so far by the group, innermost byte first. *)
Record capture : Type := Cap { cap_open : bool; cap_text : list ascii }.

Definition cap_push (c : ascii) (k : capture) : capture :=
  if cap_open k then Cap true (c :: cap_text k) else k.

(** Continuations of the matcher: the previous byte, the capture, the rest. *)
Definition kont := option ascii -> capture -> list ascii -> option (capture * list ascii).

Fixpoint m_star (p : cls) (k : kont) (prev : option ascii) (cp : capture) (l : list ascii) {struct l}
  : option (capture * list ascii) :=
  match l with
  | c :: l' =>
      if p c then
        match m_star p k (Some c) (cap_push c cp) l' with
        | Some r => Some r
        | None => k prev cp l
        end
      else k prev cp l
  | [] => k prev cp l
  end.

Fixpoint m_rep (p : cls) (k : kont) (hi : nat) (prev : option ascii) (cp : capture) (l : list ascii)
  : option (capture * list ascii) :=
  match hi, l with
  | S hi', c :: l' =>
      if p c then
        match m_rep p k hi' (Some c) (cap_push c cp) l' with
        | Some r => Some r
        | None => k prev cp l
        end
      else k prev cp l
  | _, _ => k prev cp l
  end.

Fixpoint m_re (r : regex) : kont := fun prev cp l =>
  match r with
  | [] => Some (cp, l)
  | ACls p :: r' =>
      match l with
      | c :: l' => if p c then m_re r' (Some c) (cap_push c cp) l' else None
      | [] => None
      end
  | AOpt p :: r' => m_rep p (m_re r') 1 prev cp l
  | AStar p :: r' => m_star p (m_re r') prev cp l
  | ARep p hi :: r' => m_rep p (m_re r') hi prev cp l
  | AWordB :: r' =>
      if xorb (at_word prev) (at_word (head l)) then m_re r' prev cp l else None
  | ABegin :: r' => match prev with None => m_re r' prev cp l | Some _ => None end
  | AEnd :: r' => match l with [] => m_re r' prev cp l | _ :: _ => None end
  | AOpen :: r' => m_re r' prev (Cap true []) l
  | AClose :: r' => m_re r' prev (Cap false (cap_text cp)) l
  end.

(** The leftmost match. *)
Fixpoint m_find (r : regex) (prev : option ascii) (l : list ascii) : option (capture * list ascii) :=
  match m_re r prev (Cap false []) l with
  | Some res => Some res
  | None => match l with
            | [] => None
            | c :: l' => m_find r (Some c) l'
            end
  end.

Definition MatchString (r : regex) (s : string) : bool :=
  match m_find r None (chars s) with Some _ => true | None => false end.

(** [FindStringSubmatch(s)[1]] for a pattern with one group. *)
Definition FindSubmatch (r : regex) (s : string) : option string :=
  match m_find r None (chars s) with
  | Some (cp, _) => Some (implode (rev (cap_text cp)))
  | None => None
  end.

(** ** Anchored identifiers: [^p[q]{0,hi}$] *)

Definition anchored (p q : cls) (hi : nat) : regex := [ABegin; ACls p; ARep q hi; AEnd].

Lemma m_rep_end q hi prev cp l :
  is_Some (m_rep q (m_re [AEnd]) hi prev cp l) <->
  Forall (fun c => q c = true) l /\ (length l <= hi)%nat.
Proof.
  assert (Hk : forall prev cp l, is_Some (m_re [AEnd] prev cp l) <-> l = []).
  { intros ?? [|??]; simpl; split; try done; by intros []. }
  revert prev cp l; induction hi as [|hi IH]; intros prev cp l.
  - destruct l as [|c l]; simpl; split; eauto using Forall_nil; [by intros []|lia].
  - destruct l as [|c l]; cbn [m_rep]; [rewrite Hk; split; [by simpl; auto with lia | done]|].
    destruct (q c) eqn:Hq.
    + specialize (IH (Some c) (cap_push c cp) l).
      destruct (m_rep q (m_re [AEnd]) hi _ _ l) as [r|].
      * split; [|eauto]. intros _. destruct (proj1 IH) as [? ?]; [eauto|].
        split; [by constructor | simpl; lia].
      * rewrite Hk. split; [done|]. intros [HF Hl]. inv HF. simpl in Hl.
        destruct (proj2 IH) as [? ?]; [split; [done|lia]|done].
    + rewrite Hk. split; [done|]. intros [HF _]. inv HF. congruence.
Qed.

Lemma m_find_begin r c l : m_find (ABegin :: r) (Some c) l = None.
Proof. revert c; induction l as [|d l IH]; intros c; simpl; [done|]. apply IH. Qed.

(** What an anchored pattern accepts. *)
Lemma anchored_spec p q hi s :
  MatchString (anchored p q hi) s = true <->
  exists c l, chars s = c :: l /\ p c = true /\
    Forall (fun d => q d = true) l /\ (length l <= hi)%nat.
Proof.
  unfold MatchString, anchored. destruct (chars s) as [|c l]; simpl.
  - split; [done | by intros (? & ? & ? & _)].
  - destruct (p c) eqn:Hp.
    + pose proof (m_rep_end q hi (Some c) (cap_push c (Cap false [])) l) as Hr.
      destruct (m_rep q _ hi _ _ l) as [r|] eqn:E.
      * split; [|done]. intros _. destruct (proj1 Hr) as [? ?]; [eauto|]. eauto 10.
      * rewrite m_find_begin. split; [done|]. intros (d & k & ? & _ & HF & Hl); simplify_eq.
        destruct (proj2 Hr) as [? ?]; done.
    + rewrite m_find_begin. split; [done|]. intros (d & k & ? & Hd & _); simplify_eq. congruence.
Qed.

Example regex_examples :
  (FindSubmatch (ALit "status" ++ [ACls (fun c => Ascii.eqb c ":" || cSpace c)]
                 ++ [AStar (fun c => Ascii.eqb c ":" || cSpace c)]
                 ++ [AOpen; ACls cDigit; ACls cDigit; ACls cDigit; AClose]) "http status: 429 oops"
   = Some "429") /\
  (MatchString (AWordB :: ALitFold "402" ++ [AWordB]) "code 4021") = false.
Proof. vm_compute. auto. Qed.
End GoRegexp.

(** * UTF-8: ranging over a string, [[]rune(s)] and [string(runes)]

    A rune is a code point in [Z].  A byte that does not start a valid
    encoding decodes to U+FFFD and is one byte wide, as in package
    [unicode/utf8]. *)
Module Utf8.
Abbreviation rune := Z (only parsing).

Definition RuneError : rune := 65533.

Definition cont (b : Z) : bool := (128 <=? b) && (b <=? 191).

(** The accepted multi-byte sequences. *)
Definition valid2 (b0 b1 : Z) : bool := (194 <=? b0) && (b0 <=? 223) && cont b1.

Definition valid3 (b0 b1 b2 : Z) : bool :=
  cont b2 &&
  ((b0 =? 224) && (160 <=? b1) && (b1 <=? 191)
   || (b0 =? 237) && (128 <=? b1) && (b1 <=? 159)
   || (225 <=? b0) && (b0 <=? 239) && negb (b0 =? 237) && cont b1).

Definition valid4 (b0 b1 b2 b3 : Z) : bool :=
  cont b2 && cont b3 &&
  ((b0 =? 240) && (144 <=? b1) && (b1 <=? 191)
   || (241 <=? b0) && (b0 <=? 243) && cont b1
   || (b0 =? 244) && (128 <=? b1) && (b1 <=? 143)).

Definition dec2 (b0 b1 : Z) : rune := (b0 - 192) * 64 + (b1 - 128).
Definition dec3 (b0 b1 b2 : Z) : rune := (b0 - 224) * 4096 + (b1 - 128) * 64 + (b2 - 128).
Definition dec4 (b0 b1 b2 b3 : Z) : rune :=
  (b0 - 240) * 262144 + (b1 - 128) * 4096 + (b2 - 128) * 64 + (b3 - 128).

Fixpoint decode (l : list Z) : list rune :=
  match l with
  | [] => []
  | b0 :: l1 =>
      if b0 <? 128 then b0 :: decode l1
      else match l1 with
           | [] => RuneError :: decode l1
           | b1 :: l2 =>
               if valid2 b0 b1 then dec2 b0 b1 :: decode l2
               else match l2 with
                    | [] => RuneError :: decode l1
                    | b2 :: l3 =>
                        if valid3 b0 b1 b2 then dec3 b0 b1 b2 :: decode l3
                        else match l3 with
                             | [] => RuneError :: decode l1
                             | b3 :: l4 =>
                                 if valid4 b0 b1 b2 b3 then dec4 b0 b1 b2 b3 :: decode l4
                                 else RuneError :: decode l1
                             end
                    end
           end
  end.

(** Unicode scalar values. *)
Definition valid_rune (r : rune) : bool :=
  (0 <=? r) && (r <? 55296) || (57344 <=? r) && (r <=? 1114111).

Definition encode_rune (r : rune) : list Z :=
  let r := if valid_rune r then r else RuneError in
  if r <? 128 then [r]
  else if r <? 2048 then [192 + r / 64; 128 + r mod 64]
  else if r <? 65536 then [224 + r / 4096; 128 + (r / 64) mod 64; 128 + r mod 64]
  else [240 + r / 262144; 128 + (r / 4096) mod 64; 128 + (r / 64) mod 64; 128 + r mod 64].

Definition encode (rs : list rune) : list Z := flat_map encode_rune rs.

(** [[]rune(s)], [string(rs)] and [utf8.RuneCountInString]. *)
Definition runes (s : string) : list rune := decode (map code (chars s)).

Definition string_of_runes (rs : list rune) : string :=
  implode (map (fun b => ascii_of_N (Z.to_N b)) (encode rs)).

Definition RuneCount (s : string) : Z := Z.of_nat (length (runes s)).

(** ** Lemmas *)

Lemma div_mod_64 r : r = 64 * (r / 64) + r mod 64 /\ 0 <= r mod 64 < 64.
Proof. split; [apply Z.div_mod; lia | apply Z.mod_pos_bound; lia]. Qed.

(** The quotients by 4096 and 262144 are iterated quotients by 64. *)
Lemma quot_4096 r : r / 4096 = r / 64 / 64.
Proof. rewrite Z.div_div by lia. reflexivity. Qed.

Lemma quot_262144 r : r / 262144 = r / 64 / 64 / 64.
Proof. rewrite !Z.div_div by lia. reflexivity. Qed.

Ltac digits r :=
  rewrite ?quot_262144, ?quot_4096;
  pose proof (div_mod_64 r); pose proof (div_mod_64 (r / 64)); pose proof (div_mod_64 (r / 64 / 64));
  generalize dependent (r mod 64); generalize dependent ((r / 64) mod 64);
  generalize dependent ((r / 64 / 64) mod 64);
  generalize dependent (r / 64 / 64 / 64); generalize dependent (r / 64 / 64);
  generalize dependent (r / 64); intros.

Lemma decode_encode_rune r l :
  valid_rune r = true -> decode (encode_rune r ++ l) = r :: decode l.
Proof.
  intros Hv. unfold encode_rune. rewrite Hv.
  assert (H : 0 <= r < 55296 \/ 57344 <= r <= 1114111).
  { revert Hv. unfold valid_rune. rewrite orb_true_iff, !andb_true_iff, !Z.leb_le, !Z.ltb_lt. lia. }
  clear Hv. destruct (Z.ltb_spec r 128).
  { simpl. by rewrite (proj2 (Z.ltb_lt r 128)) by lia. }
  destruct (Z.ltb_spec r 2048).
  { cbn [app decode]. digits r. rewrite (proj2 (Z.ltb_ge _ 128)) by lia.
    assert (valid2 (192 + z) (128 + z4) = true) as -> by (unfold valid2, cont; lia).
    unfold dec2. f_equal. lia. }
  destruct (Z.ltb_spec r 65536).
  { cbn [app decode]. digits r. rewrite (proj2 (Z.ltb_ge _ 128)) by lia.
    assert (valid2 (224 + z0) (128 + z3) = false) as -> by (unfold valid2, cont; lia).
    assert (valid3 (224 + z0) (128 + z3) (128 + z4) = true) as -> by (unfold valid3, cont; lia).
    unfold dec3. f_equal. lia. }
  cbn [app decode]. digits r. rewrite (proj2 (Z.ltb_ge _ 128)) by lia.
  assert (valid2 (240 + z1) (128 + z2) = false) as -> by (unfold valid2, cont; lia).
  assert (valid3 (240 + z1) (128 + z2) (128 + z3) = false) as -> by (unfold valid3, cont; lia).
  assert (valid4 (240 + z1) (128 + z2) (128 + z3) (128 + z4) = true) as -> by (unfold valid4, cont; lia).
  unfold dec4. f_equal. lia.
Qed.

Lemma decode_encode rs : Forall (fun r => valid_rune r = true) rs -> decode (encode rs) = rs.
Proof.
  induction 1 as [|r rs Hr _ IH]; [done|]. simpl. by rewrite decode_encode_rune, IH.
Qed.

Lemma encode_rune_bytes r : Forall (fun b => 0 <= b < 256) (encode_rune r).
Proof.
  unfold encode_rune. set (q := if valid_rune r then r else RuneError).
  assert (Hq : 0 <= q <= 1114111).
  { unfold q. destruct (valid_rune r) eqn:E; [|unfold RuneError; lia].
    revert E. unfold valid_rune. lia. }
  clearbody q. clear r. destruct (Z.ltb_spec q 128); [repeat constructor; lia|].
  destruct (Z.ltb_spec q 2048); [digits q; repeat constructor; lia|].
  destruct (Z.ltb_spec q 65536); digits q; repeat constructor; lia.
Qed.

Lemma encode_bytes rs : Forall (fun b => 0 <= b < 256) (encode rs).
Proof.
  induction rs as [|r rs IH]; simpl; [constructor|]. apply Forall_app. split; [apply encode_rune_bytes | done].
Qed.

Lemma code_of_byte b : 0 <= b < 256 -> code (ascii_of_N (Z.to_N b)) = b.
Proof. intros H. unfold code. rewrite N_ascii_embedding by lia. lia. Qed.

Lemma code_bounds c : 0 <= code c < 256.
Proof. unfold code. pose proof (N_ascii_bounded c). lia. Qed.

(** [[]rune(string(rs))] is [rs] for valid runes. *)
Lemma runes_string_of_runes rs :
  Forall (fun r => valid_rune r = true) rs -> runes (string_of_runes rs) = rs.
Proof.
  intros H. unfold runes, string_of_runes. rewrite chars_implode, map_map.
  rewrite <- (decode_encode rs H) at 2. f_equal.
  pose proof (encode_bytes rs) as HF. induction HF as [|b l Hb _ IH]; simpl; [done|].
  by rewrite code_of_byte, IH.
Qed.

Lemma decode_valid l :
  Forall (fun b => 0 <= b < 256) l -> Forall (fun r => valid_rune r = true) (decode l).
Proof.
  remember (length l) as n eqn:Hn. revert l Hn.
  induction n as [n IH] using lt_wf_ind; intros l -> HF.
  destruct l as [|b0 l1]; [constructor|]. cbn [decode].
  assert (Hd : forall r k, valid_rune r = true -> (length k < length (b0 :: l1))%nat ->
    Forall (fun b => 0 <= b < 256) k -> Forall (fun r => valid_rune r = true) (r :: decode k)).
  { intros r k Hr Hk HFk. constructor; [done|]. by eapply IH. }
  inversion HF as [|? ? H0 HF1]; subst. destruct (Z.ltb_spec b0 128).
  { apply Hd; [unfold valid_rune; lia | simpl; lia | done]. }
  destruct l1 as [|b1 l2]; [by apply Hd; [|simpl; lia|]|].
  inversion HF1 as [|? ? H1 HF2]; subst. destruct (valid2 b0 b1) eqn:E2.
  { apply Hd; [|simpl; lia|done]. unfold valid2, cont in E2. unfold valid_rune, dec2. lia. }
  destruct l2 as [|b2 l3]; [by apply Hd; [|simpl; lia|]|].
  inversion HF2 as [|? ? H2 HF3]; subst. destruct (valid3 b0 b1 b2) eqn:E3.
  { apply Hd; [|simpl; lia|done]. unfold valid3, cont in E3. unfold valid_rune, dec3. lia. }
  destruct l3 as [|b3 l4]; [by apply Hd; [|simpl; lia|]|].
  inversion HF3 as [|? ? H3 HF4]; subst. destruct (valid4 b0 b1 b2 b3) eqn:E4.
  { apply Hd; [|simpl; lia|done]. unfold valid4, cont in E4. unfold valid_rune, dec4. lia. }
  by apply Hd; [|simpl; lia|].
Qed.

Lemma runes_valid s : Forall (fun r => valid_rune r = true) (runes s).
Proof.
  apply decode_valid, Forall_map, Forall_forall. intros; apply code_bounds.
Qed.

Lemma RuneCount_nonneg s : 0 <= RuneCount s.
Proof. unfold RuneCount. lia. Qed.

Lemma decode_length l : (length (decode l) <= length l)%nat.
Proof.
  remember (length l) as n eqn:Hn. revert l Hn.
  induction n as [n IH] using lt_wf_ind; intros l ->.
  destruct l as [|b0 l1]; [simpl; lia|]. cbn [decode].
  assert (Hd : forall (r : Z) k, (length k < length (b0 :: l1))%nat ->
    (length (r :: decode k) <= length (b0 :: l1))%nat).
  { intros r k Hk. simpl. specialize (IH (length k) Hk k eq_refl). simpl in *. lia. }
  destruct (b0 <? 128); [apply Hd; simpl; lia|].
  destruct l1 as [|b1 l2]; [apply Hd; simpl; lia|].
  destruct (valid2 b0 b1); [apply Hd; simpl; lia|].
  destruct l2 as [|b2 l3]; [apply Hd; simpl; lia|].
  destruct (valid3 b0 b1 b2); [apply Hd; simpl; lia|].
  destruct l3 as [|b3 l4]; [apply Hd; simpl; lia|].
  destruct (valid4 b0 b1 b2 b3); apply Hd; simpl; lia.
Qed.

(** A string never has more runes than bytes. *)
Lemma RuneCount_len s : RuneCount s <= len s.
Proof.
  unfold RuneCount, len, runes. pose proof (decode_length (map code (chars s))) as H.
  rewrite length_map in H. lia.
Qed.

#[export] Hint Resolve RuneCount_nonneg RuneCount_len : go.

Example utf8_examples :
  runes (string_of_runes [104; 233; 8364; 128512]) = [104; 233; 8364; 128512] /\
  runes (implode (map ascii_of_nat [255; 226; 130]%nat)) = [RuneError; RuneError; RuneError].
Proof. vm_compute. auto. Qed.
End Utf8.
