(* ===== verification/TopK.v ===== *)
(** * The k best elements: the heap of [src/pkg/utils/bm25.go]

    The heap is a slice whose element [i] has the children [2i+1] and [2i+2],
    none of which is less. *)

From stdpp Require Import sorting.
From S2P Require Import Prelude.

Section Heap.
Context {A : Type} (less : A -> A -> bool).
#[local] Open Scope nat_scope.

(** [h[i] < h[j]], for indices in range. *)
Definition less_at (h : list A) (i j : nat) : bool :=
  match h !! i, h !! j with Some x, Some y => less x y | _, _ => false end.

Definition swap (h : list A) (i j : nat) : list A :=
  match h !! i, h !! j with Some x, Some y => <[j := x]> (<[i := y]> h) | _, _ => h end.

(** The smallest of [i] and its children. *)
Definition smallest_of (h : list A) (i : nat) : nat :=
  let l := 2 * i + 1 in
  let r := 2 * i + 2 in
  let s := if (l <? length h) && less_at h l i then l else i in
  if (r <? length h) && less_at h r s then r else s.

(** The index grows in every iteration: [length h] iterations are enough. *)
Fixpoint sift_down (fuel : nat) (h : list A) (i : nat) : list A :=
  match fuel with
  | O => h
  | S fuel =>
      let s := smallest_of h i in
      if s =? i then h else sift_down fuel (swap h i s) s
  end.

Definition bm25SiftDown (h : list A) (i : nat) : list A := sift_down (length h) h i.

(** The loop from [len/2 - 1] down to [0]. *)
Fixpoint heapify_from (n : nat) (h : list A) : list A :=
  match n with
  | O => h
  | S i => heapify_from i (bm25SiftDown h i)
  end.

Definition bm25MinHeapify (h : list A) : list A := heapify_from (length h / 2) h.

(** One element of the loop of [Search]: the heap is built when [k] elements
    are there, and then a better element replaces the least one. *)
Definition top_step (k : nat) (heap : list A) (x : A) : list A :=
  if length heap <? k then
    let heap := heap ++ [x] in
    if length heap =? k then bm25MinHeapify heap else heap
  else
    match heap with
    | least :: _ => if less least x then bm25SiftDown (<[0 := x]> heap) 0 else heap
    | [] => heap
    end.

Definition top_k (k : nat) (l : list A) : list A := fold_left (top_step k) l [].

(** ** Facts *)

(** [less] is a strict weak order on the elements at hand. *)
Context (ok : A -> Prop).
Hypothesis less_asym : forall x y, ok x -> ok y -> less x y = true -> less y x = false.
Hypothesis less_ntrans : forall x y z, ok x -> ok y -> ok z -> less y x = false -> less z y = false -> less z x = false.

Lemma order_irrefl x : ok x -> less x x = false.
Proof. intros Hx. destruct (less x x) eqn:E; [|done]. by rewrite (less_asym x x) in E. Qed.

Implicit Types h : list A.

(** No child of an index from [a] on is less than its parent, except at [j],
    whose children are not less than its parent. *)
Definition child (p c : nat) : Prop := c = 2 * p + 1 \/ c = 2 * p + 2.

Definition heap_from (a : nat) h : Prop := forall p c, a <= p -> child p c -> less_at h c p = false.

Definition heap_but (a j : nat) h : Prop :=
  (forall p c, a <= p -> p <> j -> child p c -> less_at h c p = false) /\
  (forall q c, a <= q -> child q j -> child j c -> less_at h c q = false).

Lemma less_at_Some h i j x y : h !! i = Some x -> h !! j = Some y -> less_at h i j = less x y.
Proof. unfold less_at. by intros -> ->. Qed.

Lemma less_at_range h i j : length h <= i \/ length h <= j -> less_at h i j = false.
Proof.
  unfold less_at. intros [Hi|Hj]; [by rewrite lookup_ge_None_2 by lia|].
  rewrite (lookup_ge_None_2 h j) by lia. by destruct (h !! i).
Qed.

Lemma less_at_asym h i j : Forall ok h -> less_at h i j = true -> less_at h j i = false.
Proof.
  unfold less_at. intros Hok. destruct (h !! i) as [x|] eqn:Ei, (h !! j) as [y|] eqn:Ej; try done.
  apply less_asym; by eapply Forall_lookup_1.
Qed.

Lemma less_at_ntrans h i j k :
  Forall ok h -> j < length h -> less_at h j i = false -> less_at h k j = false -> less_at h k i = false.
Proof.
  unfold less_at. intros Hok [y Ej]%lookup_lt_is_Some_2. rewrite Ej.
  destruct (h !! i) as [x|] eqn:Ei, (h !! k) as [z|] eqn:Ek; try done.
  apply less_ntrans; by eapply Forall_lookup_1.
Qed.

Lemma swap_perm h i j : swap h i j ≡ₚ h.
Proof.
  unfold swap. destruct (h !! i) as [x|] eqn:Ei; [|done]. destruct (h !! j) as [y|] eqn:Ej; [|done].
  by apply Permutation_insert_swap.
Qed.

Lemma swap_length h i j : length (swap h i j) = length h.
Proof. by rewrite swap_perm. Qed.

(** The transposition of two indices. *)
Definition transpose (i j n : nat) : nat := if n =? i then j else if n =? j then i else n.

Lemma swap_lookup h i j n : i < length h -> j < length h -> swap h i j !! n = h !! transpose i j n.
Proof.
  intros [x Ei]%lookup_lt_is_Some_2 [y Ej]%lookup_lt_is_Some_2. unfold swap, transpose. rewrite Ei, Ej.
  apply lookup_lt_Some in Ei as Hi. apply lookup_lt_Some in Ej as Hj.
  destruct (decide (n = j)) as [->|Hnj].
  - rewrite list_lookup_insert_eq by (by rewrite length_insert). rewrite Nat.eqb_refl.
    by destruct (Nat.eqb_spec j i) as [->|].
  - rewrite list_lookup_insert_ne by done. destruct (Nat.eqb_spec n i) as [->|Hni].
    + by rewrite list_lookup_insert_eq.
    + rewrite list_lookup_insert_ne by done. by destruct (Nat.eqb_spec n j).
Qed.

Lemma less_at_swap h i j m n :
  i < length h -> j < length h -> less_at (swap h i j) m n = less_at h (transpose i j m) (transpose i j n).
Proof. intros Hi Hj. unfold less_at. by rewrite !swap_lookup. Qed.

(** *** The smallest of three *)

Lemma smallest_of_spec h i :
  Forall ok h -> let s := smallest_of h i in
  (s = i \/ child i s /\ s < length h /\ less_at h s i = true) /\
  forall c, child i c -> less_at h c s = false.
Proof.
  intros Hok. unfold smallest_of, child. set (l := 2 * i + 1). set (r := 2 * i + 2).
  assert (Hrefl : forall n, less_at h n n = false).
  { intros n. destruct (less_at h n n) eqn:E; [|done]. by rewrite (less_at_asym h n n) in E. }
  assert (Hin : forall m n, less_at h m n = true -> m < length h).
  { intros m n E. destruct (decide (m < length h)); [done|]. rewrite less_at_range in E by lia. done. }
  assert (Hb : forall m n, (m <? length h) && less_at h m n = less_at h m n).
  { intros m n. destruct (Nat.ltb_spec m (length h)); [done|]. simpl. symmetry. apply less_at_range. by left. }
  rewrite !Hb. destruct (less_at h l i) eqn:El.
  - destruct (less_at h r l) eqn:Er; simpl.
    + assert (Hri : less_at h r i = true).
      { destruct (less_at h r i) eqn:E; [done|]. rewrite <- Er. symmetry.
        apply (less_at_ntrans h l i r Hok); [|by apply less_at_asym|done].
        apply Hin in El. unfold l in El. lia. }
      split; [right; eauto|]. intros c [E|E]; subst c; fold l r; [by apply less_at_asym|apply Hrefl].
    + split; [right; eauto|]. intros c [E|E]; subst c; fold l r; [apply Hrefl|done].
  - destruct (less_at h r i) eqn:Er; simpl.
    + split; [right; eauto|]. intros c [E|E]; subst c; fold l r; [|apply Hrefl].
      apply (less_at_ntrans h r i l Hok); [|by apply less_at_asym|done]. apply Hin in Er. unfold r in Er. lia.
    + split; [by left|]. by intros c [E|E]; subst c.
Qed.

(** *** Sifting down *)

Lemma transpose_other i j n : n <> i -> n <> j -> transpose i j n = n.
Proof. intros Hi Hj. unfold transpose. by rewrite !(proj2 (Nat.eqb_neq _ _)). Qed.

Lemma transpose_l i j : transpose i j i = j.
Proof. unfold transpose. by rewrite Nat.eqb_refl. Qed.

Lemma transpose_r i j : transpose i j j = i.
Proof. unfold transpose. rewrite Nat.eqb_refl. by destruct (Nat.eqb_spec j i) as [->|]. Qed.

Lemma child_lt p c : child p c -> p < c.
Proof. unfold child. lia. Qed.

Lemma child_inj p q c : child p c -> child q c -> p = q.
Proof. unfold child. lia. Qed.

Lemma swap_heap_but a j h :
  let s := smallest_of h j in
  Forall ok h -> s <> j -> a <= j -> heap_but a j h -> heap_but a s (swap h j s).
Proof.
  intros s Hok Hne Ha [Hpc Hqj]. destruct (smallest_of_spec h j Hok) as [[?|(Hs & Hlen & Hlt)] Hmin]; [done|].
  fold s in Hs, Hlen, Hlt, Hmin. apply child_lt in Hs as Hjs. split.
  - intros p c Hp Hps Hc. rewrite less_at_swap by lia. apply child_lt in Hc as Hpc'.
    destruct (decide (p = j)) as [->|Hpj].
    + rewrite transpose_l. destruct (decide (c = s)) as [->|].
      * rewrite transpose_r. by apply less_at_asym.
      * rewrite transpose_other by lia. by apply Hmin.
    + rewrite (transpose_other _ _ p) by done. destruct (decide (c = j)) as [->|].
      * rewrite transpose_l. by apply Hqj.
      * destruct (decide (c = s)) as [->|]; [by destruct Hpj; apply (child_inj p j s)|].
        rewrite transpose_other by done. by apply Hpc.
  - intros q c Hq Hqs Hc. assert (q = j) as -> by by apply (child_inj q j s). apply child_lt in Hc as Hsc.
    rewrite less_at_swap, transpose_l, transpose_other by lia. apply Hpc; [lia|done|done].
Qed.

Lemma sift_down_heap fuel a j h :
  Forall ok h -> a <= j -> length h <= fuel + j -> heap_but a j h -> heap_from a (sift_down fuel h j).
Proof.
  revert j h. induction fuel as [|fuel IH]; intros j h Hok Ha Hf Hb; simpl.
  - intros p c Hp Hc. destruct (decide (p = j)) as [->|]; [apply less_at_range; lia|by apply (proj1 Hb)].
  - destruct (smallest_of_spec h j Hok) as [Hs Hmin]. destruct (Nat.eqb_spec (smallest_of h j) j) as [E|Hne].
    + rewrite E in Hmin. intros p c Hp Hc. destruct (decide (p = j)) as [->|]; [by apply Hmin|by apply (proj1 Hb)].
    + destruct Hs as [?|(Hs & _ & _)]; [done|]. apply child_lt in Hs. apply IH.
      * by rewrite swap_perm.
      * lia.
      * rewrite swap_length. lia.
      * by apply swap_heap_but.
Qed.

Lemma sift_down_perm fuel h j : sift_down fuel h j ≡ₚ h.
Proof.
  revert h j. induction fuel as [|fuel IH]; intros h j; simpl; [done|].
  destruct (_ =? _); [done|]. by rewrite IH, swap_perm.
Qed.

Lemma bm25SiftDown_heap a h : Forall ok h -> heap_but a a h -> heap_from a (bm25SiftDown h a).
Proof. intros Hok Hb. apply sift_down_heap; [done|lia|lia|done]. Qed.

Lemma bm25SiftDown_perm h j : bm25SiftDown h j ≡ₚ h.
Proof. apply sift_down_perm. Qed.

(** *** Building the heap *)

Lemma heapify_from_heap n h : Forall ok h -> heap_from n h -> heap_from 0 (heapify_from n h).
Proof.
  revert h. induction n as [|i IH]; intros h Hok Hh; simpl; [done|]. apply IH.
  - by rewrite bm25SiftDown_perm.
  - apply bm25SiftDown_heap; [done|]. split.
    + intros p c Hp Hpi. apply Hh. lia.
    + intros q c Hq Hc. apply child_lt in Hc. lia.
Qed.

Lemma heapify_from_perm n h : heapify_from n h ≡ₚ h.
Proof. revert h. induction n as [|i IH]; intros h; simpl; [done|]. by rewrite IH, bm25SiftDown_perm. Qed.

Lemma bm25MinHeapify_heap h : Forall ok h -> heap_from 0 (bm25MinHeapify h).
Proof.
  intros Hok. apply heapify_from_heap; [done|]. intros p c Hp Hc. apply less_at_range. left.
  pose proof (Nat.div_mod_eq (length h) 2) as E. pose proof (Nat.mod_upper_bound (length h) 2 ltac:(done)).
  unfold child in Hc. lia.
Qed.

Lemma heap_root h m i x : Forall ok h -> heap_from 0 h -> h !! 0 = Some m -> h !! i = Some x -> less x m = false.
Proof.
  intros Hok Hh Hm. revert x. induction i as [i IH] using lt_wf_ind. intros x Hi. destruct i as [|i].
  - simplify_eq. apply order_irrefl. by eapply Forall_lookup_1.
  - assert (Hc : child (i / 2) (Datatypes.S i)).
    { pose proof (Nat.div_mod_eq i 2). pose proof (Nat.mod_upper_bound i 2 ltac:(done)). unfold child. lia. }
    apply child_lt in Hc as Hlt. assert (Hp : i / 2 < length h) by (apply lookup_lt_Some in Hi; lia).
    apply lookup_lt_is_Some_2 in Hp as [y Hy]. specialize (Hh _ _ (Nat.le_0_l _) Hc).
    rewrite (less_at_Some _ _ _ _ _ Hi Hy) in Hh. eapply (less_ntrans m y x); [by eapply Forall_lookup_1..| |done].
    by eapply IH.
Qed.

(** *** The loop *)

Definition top_inv (k : nat) (l h : list A) : Prop :=
  length h = Nat.min k (length l) /\ (length h = k -> heap_from 0 h) /\
  exists rest, l ≡ₚ h ++ rest /\ forall x y, x ∈ rest -> y ∈ h -> less y x = false.

Lemma top_step_inv k l h x :
  0 < k -> Forall ok (l ++ [x]) -> top_inv k l h -> top_inv k (l ++ [x]) (top_step k h x).
Proof.
  intros Hk Hok (Hlen & Hh & rest & Hp & Hr). unfold top_step, top_inv.
  assert (Hoks : Forall ok (h ++ rest) /\ ok x).
  { rewrite Forall_app, Forall_singleton, Hp in Hok. done. }
  destruct Hoks as [[Hokh Hokr]%Forall_app Hokx]. assert (Hl : length (l ++ [x]) = length l + 1) by by rewrite length_app. rewrite Hl.
  destruct (Nat.ltb_spec (length h) k) as [Hlt|Hge].
  - assert (rest = []) as ->.
    { apply Permutation_length in Hp. rewrite length_app in Hp. apply nil_length_inv. lia. }
    rewrite app_nil_r in Hp. rewrite length_app. cbn [length].
    assert (Hp' : l ++ [x] ≡ₚ (if length h + 1 =? k then bm25MinHeapify (h ++ [x]) else h ++ [x]) ++ []).
    { rewrite app_nil_r. destruct (_ =? _); [unfold bm25MinHeapify; rewrite heapify_from_perm|]; by rewrite Hp. }
    split; [|split; [|exists []; split; [done|by intros ? ? ?%elem_of_nil]]].
    + apply Permutation_length in Hp'. rewrite !length_app in Hp'. cbn [length] in Hp'. lia.
    + destruct (Nat.eqb_spec (length h + 1) k) as [|Hne].
      * intros _. apply bm25MinHeapify_heap. rewrite Forall_app, Forall_singleton. done.
      * rewrite length_app. cbn [length]. done.
  - destruct h as [|m t]; [simpl in *; lia|]. assert (Hlk : length (m :: t) = k) by lia.
    specialize (Hh Hlk).
    assert (Hmin : forall y, y ∈ m :: t -> less y m = false).
    { intros y [i Hy]%list_elem_of_lookup. exact (heap_root _ m i y Hokh Hh eq_refl Hy). }
    apply Forall_cons_1 in Hokh as [Hokm Hokt]. rewrite Forall_forall in Hokr, Hokt.
    destruct (less m x) eqn:El.
    + assert (Hp' : bm25SiftDown (<[0 := x]> (m :: t)) 0 ≡ₚ x :: t) by apply bm25SiftDown_perm.
      split; [|split; [|exists (m :: rest); split]].
      * apply Permutation_length in Hp'. simpl in *. lia.
      * intros _. apply bm25SiftDown_heap; [simpl; constructor; [done|by rewrite Forall_forall]|]. split.
        -- intros p c _ Hp0 Hc. apply child_lt in Hc as Hlt. destruct p as [|p], c as [|c]; try lia.
           apply (Hh (Datatypes.S p) (Datatypes.S c)); [lia|done].
        -- intros q c _ Hc. apply child_lt in Hc. lia.
      * rewrite Hp, Hp', (Permutation_app_comm _ [x]). simpl. constructor. by rewrite <- Permutation_middle.
      * intros z y Hz. rewrite Hp', !elem_of_cons in *. intros [E|Hy]; [subst y|].
        -- destruct Hz as [E|Hz]; [subst z; by apply less_asym|].
           apply (less_ntrans z m x); [auto..|by apply Hr; [|left]|by apply less_asym].
        -- destruct Hz as [E|Hz]; [subst z; apply Hmin; by right|]. apply Hr; [done|by right].
    + split; [lia|]. split; [done|]. exists (x :: rest). split.
      * rewrite Hp, (Permutation_app_comm _ [x]). apply (Permutation_middle (m :: t)).
      * intros z y Hz Hy. apply elem_of_cons in Hz as [->|Hz]; [|by apply Hr].
        apply (less_ntrans x m y); [auto| auto | |done|by apply Hmin].
        apply elem_of_cons in Hy as [->|Hy]; auto.
Qed.

Lemma top_k_inv k l : 0 < k -> Forall ok l -> top_inv k l (top_k k l).
Proof.
  intros Hk. unfold top_k. induction l as [|x l IH] using rev_ind; intros Hok.
  - split; [simpl; lia|]. split; [simpl; lia|]. exists []. split; [done|]. by intros ? ? ?%elem_of_nil.
  - rewrite fold_left_app. simpl. apply top_step_inv; [done..|]. apply IH. by apply Forall_app in Hok as [??].
Qed.

(** The [k] elements kept, or all if there are fewer: none that is left out
    is better than one that is kept. *)
Lemma top_k_spec k l :
  0 < k -> Forall ok l ->
  length (top_k k l) = Nat.min k (length l) /\
  exists rest, l ≡ₚ top_k k l ++ rest /\ forall x y, x ∈ rest -> y ∈ top_k k l -> less y x = false.
Proof. intros Hk Hok. destruct (top_k_inv k l Hk Hok) as (Hlen & _ & Hr). done. Qed.
End Heap.
