(* ===== verification/Bm25.v ===== *)
(** * Full-text search: [src/pkg/utils/bm25.go]

    The index of a corpus and the ranking of a query. [math.Log] and
    [sort.Slice] are arguments, and so is the order of an iteration over the
    map of scores. *)

From stdpp Require Import sorting.
From S2P Require Import Prelude GoStrings GoLib.
Import GoFields GoFloat.
From S2P Require Import TopK.

(** ** float32 *)

Abbreviation float32 := spec_float.

(** [float32(x)] *)
Definition to_float32 (x : float64) : float32 :=
  match x with
  | S754_finite s m e => binary_normalize 24 128 (cond_Zopp s (Z.pos m)) e s
  | _ => x
  end.

Definition add32 : float32 -> float32 -> float32 := SFadd 24 128.
Definition mul32 : float32 -> float32 -> float32 := SFmul 24 128.
Definition div32 : float32 -> float32 -> float32 := SFdiv 24 128.
Definition float32_of_Z (z : Z) : float32 := binary_normalize 24 128 z 0 false.

(** ** The index *)

Definition DefaultBM25K1 : float64 := lit 12 10.
Definition DefaultBM25B : float64 := lit 75 100.

Record bm25Index : Type := mkIndex {
  entries : list (gmap string Z);                                 (* uint32 *)
  idf : gmap string float32;
  docLenNorm : list float32;
  posting : gmap string (list nat)                                (* int32 *)
}.

Definition punctuation : string := ".,;:!?" +:+ String (ascii_of_nat 34) "'()/\-_".

Definition bm25Tokenize (s : string) : list string :=
  List.filter (fun t => negb (String.eqb t "")) (map (fun t => TrimCutset t punctuation) (Fields (ToLower s))).

Fixpoint dedupe (seen : gset string) (tokens : list string) : list string :=
  match tokens with
  | [] => []
  | t :: rest => if bool_decide (t ∈ seen) then dedupe seen rest else t :: dedupe ({[t]} ∪ seen) rest
  end.

Definition bm25Dedupe (tokens : list string) : list string := dedupe ∅ tokens.

Definition term_frequencies (tokens : list string) : gmap string Z :=
  fold_left (fun tf t => <[t := (default 0 (tf !! t) + 1) mod 2 ^ 32]> tf) tokens ∅.

Definition document_frequencies (tfs : list (gmap string Z)) : gmap string Z :=
  fold_left (fun df tf => map_fold (fun t _ df => <[t := default 0 (df !! t) + 1]> df) df tf) tfs ∅.

(** The documents of each term, in order; [i] is the next document. *)
Fixpoint postings (i : nat) (tfs : list (gmap string Z)) (p : gmap string (list nat)) : gmap string (list nat) :=
  match tfs with
  | [] => p
  | tf :: rest =>
      postings (Datatypes.S i) rest (map_fold (fun t _ p => <[t := default [] (p !! t) ++ [i]]> p) p tf)
  end.

Section Engine.
Context (Log : float64 -> float64).

Definition term_idf (n freq : Z) : float32 :=
  let half := lit 1 2 in
  to_float32 (Log (fadd (fdiv (fadd (fsub (float_of_Z n) (float_of_Z freq)) half) (fadd (float_of_Z freq) half)) fone)).

(** [texts] are the texts of the documents; there is no index without any. *)
Definition buildBM25Index (texts : list string) (k1 b : float64) : option bm25Index :=
  match texts with
  | [] => None
  | _ =>
      let tokens := map bm25Tokenize texts in
      let n := Z.of_nat (length texts) in
      let rawLens := map (fun l => Z.of_nat (length l)) tokens in
      let totalLen := fold_left Z.add rawLens 0 in
      let avg := fdiv (float_of_Z totalLen) (float_of_Z n) in
      let avgDocLen := if SFeqb avg fzero then fone else avg in
      let tfs := map term_frequencies tokens in
      let norm rawLen := to_float32 (fmul k1 (fadd (fsub fone b) (fdiv (fmul b (float_of_Z rawLen)) avgDocLen))) in
      Some (mkIndex tfs (term_idf n <$> document_frequencies tfs) (map norm rawLens) (postings 0 tfs ∅))
  end.

Context {D : Type}.

Record BM25Engine : Type := mkEngine { corpus : list D; k1 : float64; index : option bm25Index }.

Definition NewBM25Engine (docs : list D) (textFunc : D -> string) (k1 b : float64) : BM25Engine :=
  mkEngine docs k1 (buildBM25Index (map textFunc docs) k1 b).

(** ** Search *)

(** What one occurrence list adds to the scores. *)
Definition score_term (k1 : float64) (ix : bm25Index) (term : string) (scores : gmap nat float32) : gmap nat float32 :=
  match idf ix !! term with
  | None => scores
  | Some termIDF =>
      fold_left (fun scores docID =>
        let freq := float32_of_Z (default 0 (default ∅ (entries ix !! docID) !! term)) in
        let tfNorm := div32 (mul32 freq (to_float32 (fadd k1 fone))) (add32 freq (default fzero (docLenNorm ix !! docID))) in
        <[docID := add32 (default fzero (scores !! docID)) (mul32 termIDF tfNorm)]> scores)
        (default [] (posting ix !! term)) scores
  end.

Definition all_scores (k1 : float64) (ix : bm25Index) (unique : list string) : gmap nat float32 :=
  fold_left (fun scores term => score_term k1 ix term scores) unique ∅.

Definition bm25ScoredDoc : Type := nat * float32.
Definition lower_score (x y : bm25ScoredDoc) : bool := fltb (snd x) (snd y).

Context (order : gmap nat float32 -> list bm25ScoredDoc) (sort_Slice : list bm25ScoredDoc -> list bm25ScoredDoc).

(** The documents with their scores, the best first. *)
Definition search_ids (e : BM25Engine) (query : string) (topK : Z) : list bm25ScoredDoc :=
  if topK <=? 0 then []
  else match bm25Dedupe (bm25Tokenize query), index e with
       | [], _ | _, None => []
       | unique, Some ix =>
           sort_Slice (top_k lower_score (Z.to_nat topK) (order (all_scores (k1 e) ix unique)))
       end.

Definition Search (e : BM25Engine) (query : string) (topK : Z) : list (D * float32) :=
  omap (fun h => (fun d => (d, snd h)) <$> corpus e !! fst h) (search_ids e query topK).
End Engine.

(** ** Terms *)

Lemma elem_bm25Dedupe tokens t : t ∈ bm25Dedupe tokens <-> t ∈ tokens.
Proof.
  unfold bm25Dedupe. assert (H : forall seen, t ∈ dedupe seen tokens <-> t ∈ tokens /\ t ∉ seen).
  { induction tokens as [|x tokens IH]; intros seen; cbn [dedupe]; [set_solver|].
    case_bool_decide; [rewrite IH; set_solver|]. rewrite !elem_of_cons, IH.
    destruct (decide (t = x)) as [->|]; set_solver. }
  rewrite H. set_solver.
Qed.

(** An update at every key of a map. *)
Lemma map_fold_update {A B} (f : option B -> B) (tf : gmap string A) (m : gmap string B) t :
  map_fold (fun t _ m => <[t := f (m !! t)]> m) m tf !! t =
  match tf !! t with Some _ => Some (f (m !! t)) | None => m !! t end.
Proof.
  revert tf. apply (map_fold_weak_ind (fun r tf => r !! t = match tf !! t with Some _ => Some (f (m !! t)) | None => m !! t end)).
  - by rewrite lookup_empty.
  - intros i x tf r Hi IH. destruct (decide (t = i)) as [->|].
    + rewrite !lookup_insert_eq, IH, Hi. done.
    + by rewrite !lookup_insert_ne.
Qed.

Lemma elem_term_frequencies tokens t : is_Some (term_frequencies tokens !! t) <-> t ∈ tokens.
Proof.
  unfold term_frequencies. assert (H : forall tf : gmap string Z,
    is_Some (fold_left (fun tf t => <[t := (default 0 (tf !! t) + 1) mod 2 ^ 32]> tf) tokens tf !! t) <->
    t ∈ tokens \/ is_Some (tf !! t)).
  { induction tokens as [|x tokens IH]; intros tf; cbn [fold_left]; [set_solver|].
    rewrite IH, lookup_insert_is_Some', elem_of_cons. naive_solver. }
  rewrite H, lookup_empty. split; [intros [?|[]]; done|by left].
Qed.

Lemma elem_document_frequencies tfs t :
  is_Some (document_frequencies tfs !! t) <-> exists tf, tf ∈ tfs /\ is_Some (tf !! t).
Proof.
  unfold document_frequencies. assert (H : forall df : gmap string Z,
    is_Some (fold_left (fun df tf => map_fold (fun t _ df => <[t := default 0 (df !! t) + 1]> df) df tf) tfs df !! t) <->
    is_Some (df !! t) \/ exists tf, tf ∈ tfs /\ is_Some (tf !! t)).
  { induction tfs as [|tf tfs IH]; intros df; cbn [fold_left]; [set_solver|].
    rewrite IH, (map_fold_update (fun n => default 0 n + 1)). setoid_rewrite elem_of_cons.
    destruct (tf !! t) eqn:E.
    - split; [|by left]. intros _. right. exists tf. split; [by left|by exists z].
    - split; [naive_solver|]. intros [Hd|(tf' & [->|Hin] & Hs)]; [by left| |by right; eauto].
      rewrite E in Hs. by destruct Hs. }
  rewrite H, lookup_empty. split; [intros [[]|?]; done|by right].
Qed.

Lemma elem_postings i tfs p t d :
  d ∈ default [] (postings i tfs p !! t) <->
  d ∈ default [] (p !! t) \/ exists j tf, d = (i + j)%nat /\ tfs !! j = Some tf /\ is_Some (tf !! t).
Proof.
  revert i p. induction tfs as [|tf tfs IH]; intros i p; cbn [postings]; [set_solver|].
  rewrite IH, (map_fold_update (fun l => default [] l ++ [i])). split.
  - intros [Hd|(j & tf' & -> & Hj & Ht)].
    + destruct (tf !! t) eqn:E; [|by left]. simpl in Hd. apply elem_of_app in Hd as [Hd|Hd%list_elem_of_singleton]; [by left|].
      right. exists 0%nat, tf. rewrite E. split; [lia|]. eauto.
    + right. exists (Datatypes.S j), tf'. split; [lia|done].
  - intros [Hd|([|j] & tf' & -> & Hj & Ht)].
    + left. destruct (tf !! t); [|done]. set_solver.
    + left. injection Hj as <-. destruct Ht as [n ->]. simpl. apply elem_of_app. right. apply list_elem_of_singleton. lia.
    + right. exists j, tf'. split; [lia|done].
Qed.

(** ** Scores *)

Section Scores.
Context (Log : float64 -> float64).

Lemma elem_score_term k ix t scores d :
  is_Some (score_term k ix t scores !! d) <->
  is_Some (scores !! d) \/ is_Some (idf ix !! t) /\ d ∈ default [] (posting ix !! t).
Proof.
  unfold score_term. destruct (idf ix !! t) as [x|].
  2: { split; [by left|]. by intros [?|[[] _]]. }
  generalize (default [] (posting ix !! t)) as ids. intros ids. revert scores.
  induction ids as [|i ids IH]; intros scores; cbn [fold_left]; [set_solver|].
  rewrite IH, lookup_insert_is_Some', elem_of_cons. naive_solver.
Qed.

Lemma elem_all_scores k ix unique d :
  is_Some (all_scores k ix unique !! d) <->
  exists t, t ∈ unique /\ is_Some (idf ix !! t) /\ d ∈ default [] (posting ix !! t).
Proof.
  unfold all_scores. assert (H : forall scores,
    is_Some (fold_left (fun scores t => score_term k ix t scores) unique scores !! d) <->
    is_Some (scores !! d) \/ exists t, t ∈ unique /\ is_Some (idf ix !! t) /\ d ∈ default [] (posting ix !! t)).
  { induction unique as [|t unique IH]; intros scores; cbn [fold_left]; [set_solver|].
    rewrite IH, elem_score_term. setoid_rewrite elem_of_cons. naive_solver. }
  rewrite H, lookup_empty. split; [intros [[]|?]; done|by right].
Qed.

Lemma buildBM25Index_parts texts k1 b ix :
  buildBM25Index Log texts k1 b = Some ix ->
  let tfs := map (fun text => term_frequencies (bm25Tokenize text)) texts in
  (forall t, is_Some (idf ix !! t) <-> exists tf, tf ∈ tfs /\ is_Some (tf !! t)) /\ posting ix = postings 0 tfs ∅.
Proof.
  unfold buildBM25Index. intros E. destruct texts as [|x texts]; [done|]. rewrite <- map_map.
  injection E as <-. split; [|done]. intros t. cbn [idf].
  rewrite <- elem_document_frequencies, lookup_fmap. apply fmap_is_Some.
Qed.

(** A document gets a score when it shares a token with the query. *)
Lemma index_scores texts k1 b ix query d :
  buildBM25Index Log texts k1 b = Some ix ->
  is_Some (all_scores k1 ix (bm25Dedupe (bm25Tokenize query)) !! d) <->
  exists text t, texts !! d = Some text /\ t ∈ bm25Tokenize query /\ t ∈ bm25Tokenize text.
Proof.
  intros E. rewrite elem_all_scores. destruct (buildBM25Index_parts texts k1 b ix E) as [Hi ->].
  setoid_rewrite elem_bm25Dedupe. setoid_rewrite elem_postings.
  setoid_rewrite lookup_empty. setoid_rewrite Hi. split.
  - intros (t & Ht & _ & [Hd|(j & tf & -> & Hj & Hs)]); [by apply elem_of_nil in Hd|].
    apply list_lookup_fmap_Some in Hj as (text & -> & Hx).
    exists text, t. by apply elem_term_frequencies in Hs.
  - intros (text & t & Hd & Ht & Hx). exists t. apply elem_term_frequencies in Hx. split; [done|]. split.
    + exists (term_frequencies (bm25Tokenize text)). split; [|done].
      apply list_elem_of_fmap. exists text. split; [done|]. by eapply list_elem_of_lookup_2.
    + right. exists d, (term_frequencies (bm25Tokenize text)). split; [done|]. split; [|done].
      apply list_lookup_fmap_Some. by exists text.
Qed.
End Scores.

(** ** The best documents *)

Section Best.
Context (Log : float64 -> float64) {D : Type}.
Context (order : gmap nat float32 -> list bm25ScoredDoc) (sort_Slice : list bm25ScoredDoc -> list bm25ScoredDoc).

(** The documentation of Go: an iteration meets every entry of a map once,
    and [sort.Slice] permutes, so that no element is less than an earlier one
    (here: has a higher score). *)
Hypothesis order_perm : forall m, order m ≡ₚ map_to_list m.
Hypothesis sort_perm : forall l, sort_Slice l ≡ₚ l.
Hypothesis sort_sorted : forall l, Forall (fun x => is_nan (snd x) = false) l ->
  StronglySorted (fun x y => lower_score x y = false) (sort_Slice l).

Definition scores_of (e : BM25Engine (D := D)) (query : string) : gmap nat float32 :=
  match index e with Some ix => all_scores (k1 e) ix (bm25Dedupe (bm25Tokenize query)) | None => ∅ end.

(** The document shares a token with the query. *)
Definition matches (docs : list D) (textFunc : D -> string) (query : string) (d : nat) : Prop :=
  exists doc t, docs !! d = Some doc /\ t ∈ bm25Tokenize query /\ t ∈ bm25Tokenize (textFunc doc).

Lemma scores_of_matches docs textFunc k1 b query d :
  is_Some (scores_of (NewBM25Engine Log docs textFunc k1 b) query !! d) <-> matches docs textFunc query d.
Proof.
  unfold scores_of, matches. cbn [index NewBM25Engine]. destruct (buildBM25Index _ _ _ _) as [ix|] eqn:E.
  - rewrite (index_scores _ _ _ _ _ _ _ E). split.
    + intros (text & t & Hd & Ht). apply list_lookup_fmap_Some in Hd as (doc & -> & Hd). by exists doc, t.
    + intros (doc & t & Hd & Ht). exists (textFunc doc), t. split; [|done].
      apply list_lookup_fmap_Some. by exists doc.
  - rewrite lookup_empty. destruct docs; [|done]. split; [by intros []|]. by intros (doc & t & [=] & _).
Qed.

(** The loop over the scores, whatever the query. *)
Lemma search_ids_eq e query topK :
  0 < topK ->
  search_ids order sort_Slice e query topK ≡ₚ
  top_k lower_score (Z.to_nat topK) (order (scores_of e query)).
Proof.
  intros Hk. unfold search_ids, scores_of. rewrite (proj2 (Z.leb_gt _ _) Hk).
  assert (Hnil : order ∅ = []).
  { apply Permutation_nil_r. by rewrite order_perm, map_to_list_empty. }
  destruct (bm25Dedupe _) as [|t unique] eqn:E, (index e) as [ix|]; [..|by rewrite sort_perm|];
    try change (all_scores (k1 e) ix []) with (∅ : gmap nat float32); by rewrite Hnil.
Qed.

Lemma search_ids_sorted e query topK :
  (forall d s, scores_of e query !! d = Some s -> is_nan s = false) ->
  0 < topK -> StronglySorted (fun x y => lower_score x y = false) (search_ids order sort_Slice e query topK).
Proof.
  intros Hnan Hk. unfold search_ids, scores_of in *. rewrite (proj2 (Z.leb_gt _ _) Hk).
  destruct (bm25Dedupe _) as [|t unique], (index e) as [ix|]; try constructor.
  apply sort_sorted, Forall_forall. intros [d s] Hd. apply (Hnan d). apply elem_of_map_to_list. rewrite <- order_perm.
  set (l := order _) in *.
  assert (Hl : Forall (fun x => is_nan (snd x) = false) l).
  { apply Forall_forall. intros [d' s'] Hd'. apply (Hnan d'), elem_of_map_to_list. by rewrite <- order_perm. }
  destruct (top_k_spec lower_score (fun x => is_nan (snd x) = false) (fun x y _ _ => fltb_asym _ _)
    (fun x y z => fltb_ntrans _ _ _) (Z.to_nat topK) l ltac:(lia) Hl) as (_ & rest & Hp & _).
  rewrite Hp. apply elem_of_app. by left.
Qed.

(** Every document found is there. *)
Lemma Search_length docs textFunc k1 b query topK :
  let e := NewBM25Engine Log docs textFunc k1 b in
  Forall (matches docs textFunc query) (map fst (search_ids order sort_Slice e query topK)) ->
  length (Search order sort_Slice e query topK) = length (search_ids order sort_Slice e query topK).
Proof.
  intros e. unfold Search. induction (search_ids _ _ _ _ _) as [|[d s] l IH]; simpl; [done|].
  intros [(doc & t & Hd & _) Hl]%Forall_cons_1. rewrite Hd. simpl. f_equal. by apply IH.
Qed.

(** C27: a search gives the best documents, the best first: at most [topK],
    all different, each sharing a token with the query; fewer than [topK] only
    when no other document shares one; sorted by score; and no document left
    out has a higher score than one that is there. This holds whatever the
    order in which the map of scores is read and ties are sorted. *)
Theorem Search_gives_the_best docs textFunc k1 b query topK :
  let e := NewBM25Engine Log docs textFunc k1 b in
  let out := search_ids order sort_Slice e query topK in
  0 < topK ->
  (forall d s, scores_of e query !! d = Some s -> is_nan s = false) ->
  NoDup (map fst out) /\ Forall (matches docs textFunc query) (map fst out) /\
  (Z.of_nat (length out) = topK \/
   Z.of_nat (length out) < topK /\ forall d, matches docs textFunc query d -> d ∈ map fst out) /\
  StronglySorted (fun x y => fltb (snd x) (snd y) = false) out /\
  (forall d s, (d, s) ∈ out -> scores_of e query !! d = Some s /\
     forall d' s', scores_of e query !! d' = Some s' -> d' ∉ map fst out -> fltb s s' = false) /\
  length (Search order sort_Slice e query topK) = length out.
Proof.
  intros e out Hk Hnan. set (m := scores_of e query).
  pose proof (search_ids_eq e query topK Hk) as Hout. fold out m in Hout.
  assert (Hok : Forall (fun x => is_nan (snd x) = false) (order m)).
  { apply Forall_forall. intros [d s] Hd. rewrite order_perm, elem_of_map_to_list in Hd. by eapply Hnan. }
  destruct (top_k_spec lower_score (fun x => is_nan (snd x) = false) (fun x y _ _ => fltb_asym _ _)
    (fun x y z => fltb_ntrans _ _ _) (Z.to_nat topK) (order m) ltac:(lia) Hok) as (Hlen & rest & Hp & Hbest).
  fold m in Hout. rewrite <- Hout in Hp, Hlen.
  assert (Hin : forall d s, (d, s) ∈ out ++ rest <-> m !! d = Some s).
  { intros d s. by rewrite <- Hp, order_perm, elem_of_map_to_list. }
  assert (Hmatch : Forall (matches docs textFunc query) (map fst out)).
  { apply Forall_forall. intros d ([d' s] & -> & Hd)%list_elem_of_fmap. apply scores_of_matches with (k1 := k1) (b := b).
    exists s. apply Hin, elem_of_app. by left. }
  assert (Hnd : NoDup (map fst (out ++ rest))).
  { rewrite <- Hp, order_perm. apply NoDup_fst_map_to_list. }
  rewrite map_app in Hnd. apply NoDup_app in Hnd as (Hnd & _ & _).
  split; [done|]. split; [done|]. split; [|split; [by apply search_ids_sorted|split; [|by apply Search_length]]].
  - destruct (decide (Z.of_nat (length out) = topK)) as [|Hne]; [by left|right]. split; [lia|].
    intros d [s Hs]%(scores_of_matches docs textFunc k1 b). apply Hin in Hs.
    assert (rest = []) as ->. { apply Permutation_length in Hp. rewrite length_app in Hp. apply nil_length_inv. lia. }
    rewrite app_nil_r in Hs. apply list_elem_of_fmap. by exists (d, s).
  - intros d s Hd. split; [apply Hin, elem_of_app; by left|]. intros d' s' Hs Hout'. apply Hin, elem_of_app in Hs as [Hs|Hs].
    + destruct Hout'. apply list_elem_of_fmap. by exists (d', s').
    + rewrite Hout in Hd. by apply (Hbest (d', s') (d, s)).
Qed.
End Best.

(** *** An example *)

Fixpoint insert_score (x : bm25ScoredDoc) (l : list bm25ScoredDoc) : list bm25ScoredDoc :=
  match l with
  | [] => [x]
  | y :: l' => if lower_score x y then y :: insert_score x l' else x :: l
  end.

Definition sort_scores (l : list bm25ScoredDoc) : list bm25ScoredDoc := fold_right insert_score [] l.

Lemma insert_score_perm x l : insert_score x l ≡ₚ x :: l.
Proof. induction l as [|y l IH]; simpl; [done|]. destruct (lower_score x y); [|done]. rewrite IH. constructor. Qed.

Lemma sort_scores_perm l : sort_scores l ≡ₚ l.
Proof. induction l as [|x l IH]; simpl; [done|]. by rewrite insert_score_perm, IH. Qed.

Lemma sort_scores_sorted l :
  Forall (fun x => is_nan (snd x) = false) l -> StronglySorted (fun x y => lower_score x y = false) (sort_scores l).
Proof.
  intros Hl. assert (Hs : Forall (fun x => is_nan (snd x) = false) (sort_scores l)) by by rewrite sort_scores_perm.
  induction l as [|x l IH]; [constructor|]. cbn [sort_scores fold_right] in *. fold (sort_scores l) in *.
  rewrite insert_score_perm in Hs. apply Forall_cons_1 in Hl as [Hx Hl]. apply Forall_cons_1 in Hs as [_ Hs].
  specialize (IH Hl Hs). clear Hl. revert Hs. induction IH as [|y k Hk IHk Hy]; intros Hs; simpl; [by repeat constructor|].
  apply Forall_cons_1 in Hs as [Hny Hs]. rewrite Forall_forall in Hy, Hs.
  destruct (lower_score x y) eqn:E.
  - constructor; [by apply IHk, Forall_forall|]. rewrite insert_score_perm. constructor; [by apply fltb_asym|].
    by apply Forall_forall.
  - constructor; [by constructor; [|apply Forall_forall]|]. constructor; [done|]. apply Forall_forall. intros z Hz.
    apply (fltb_ntrans (snd z) (snd y) (snd x)); [by apply Hs|done|done|by apply Hy|done].
Qed.

Definition demo_docs : list string := ["read_file Read a file."; "deploy Deploy the site"; "write_file Write a File"].
Definition demo_engine : BM25Engine := NewBM25Engine (fun x => x) demo_docs (fun d => d) DefaultBM25K1 DefaultBM25B.

Example demo_search : map fst (Search map_to_list sort_scores demo_engine "a FILE, (read)" 2) =
  ["read_file Read a file."; "write_file Write a File"].
Proof. vm_compute. reflexivity. Qed.

Lemma Search_gives_the_best_witness :
  map fst (search_ids map_to_list sort_scores demo_engine "a FILE, (read)" 2) = [0%nat; 2%nat] /\
  NoDup (map fst (search_ids map_to_list sort_scores demo_engine "a FILE, (read)" 2)).
Proof.
  split; [vm_compute; reflexivity|].
  apply (Search_gives_the_best (fun x => x) map_to_list sort_scores (fun _ => Permutation_refl _) sort_scores_perm
    sort_scores_sorted demo_docs (fun d => d) DefaultBM25K1 DefaultBM25B "a FILE, (read)" 2); [done|].
  change (map_Forall (fun _ s => is_nan s = false) (scores_of demo_engine "a FILE, (read)")). decide_now.
Defined.
