(* ===== verification/ModelRef.v ===== *)
(** * Model references and the failover vocabulary

    [src/pkg/providers/model_ref.go] (parsing and canonical keys) and the
    failover part of [src/pkg/providers/types.go]. *)

From S2P Require Import Prelude GoStrings.

(** ** types.go: reasons and errors *)

Inductive FailoverReason : Type :=
| FailoverAuth
| FailoverRateLimit
| FailoverBilling
| FailoverTimeout
| FailoverFormat
| FailoverContextOverflow
| FailoverOverloaded
| FailoverUnknown.

#[export] Instance FailoverReason_eq_dec : EqDecision FailoverReason.
Proof. solve_decision. Defined.

Definition reason_text (r : FailoverReason) : string :=
  match r with
  | FailoverAuth => "auth"
  | FailoverRateLimit => "rate_limit"
  | FailoverBilling => "billing"
  | FailoverTimeout => "timeout"
  | FailoverFormat => "format"
  | FailoverContextOverflow => "context_overflow"
  | FailoverOverloaded => "overloaded"
  | FailoverUnknown => "unknown"
  end.

Definition reason_of_text (s : string) : option FailoverReason :=
  find_first (fun r => String.eqb (reason_text r) s)
    [FailoverAuth; FailoverRateLimit; FailoverBilling; FailoverTimeout; FailoverFormat;
     FailoverContextOverflow; FailoverOverloaded; FailoverUnknown].

Lemma reason_of_text_text r : reason_of_text (reason_text r) = Some r.
Proof. by destruct r. Qed.

#[export] Instance FailoverReason_countable : Countable FailoverReason.
Proof. exact (inj_countable reason_text reason_of_text reason_of_text_text). Defined.

(** ** model_ref.go *)

Record ModelRef : Type := mkModelRef { Provider : string; Model : string }.

#[export] Instance ModelRef_eq_dec : EqDecision ModelRef.
Proof. solve_decision. Defined.

Definition NormalizeProvider (provider : string) : string :=
  let p := ToLower (TrimSpace provider) in
  if String.eqb p "z.ai" || String.eqb p "z-ai" then "zai"
  else if String.eqb p "opencode-zen" then "opencode"
  else if String.eqb p "qwen" then "qwen-portal"
  else if String.eqb p "kimi-code" then "kimi-coding"
  else if String.eqb p "gpt" then "openai"
  else if String.eqb p "claude" then "anthropic"
  else if String.eqb p "glm" then "zhipu"
  else if String.eqb p "google" then "gemini"
  else if String.eqb p "alibaba-coding" || String.eqb p "qwen-coding" then "coding-plan"
  else if String.eqb p "alibaba-coding-anthropic" then "coding-plan-anthropic"
  else if String.eqb p "qwen-international" || String.eqb p "dashscope-intl" then "qwen-intl"
  else if String.eqb p "dashscope-us" then "qwen-us"
  else p.

Definition ParseModelRef (raw defaultProvider : string) : option ModelRef :=
  let raw := TrimSpace raw in
  if String.eqb raw "" then None
  else match Index raw "/" with
       | Some (S _ as idx) =>
           let provider := NormalizeProvider (slice_to raw idx) in
           let model := TrimSpace (slice_from raw (S idx)) in
           if String.eqb model "" then None else Some (mkModelRef provider model)
       | _ => Some (mkModelRef (NormalizeProvider defaultProvider) raw)
       end.

Definition ModelKey (provider model : string) : string :=
  NormalizeProvider provider +:+ "/" +:+ ToLower (TrimSpace model).

(** ** Lemmas *)

(** The result of [NormalizeProvider] is the lower-cased, trimmed input or one
    of the canonical names of the table. *)
Definition canonical_providers : list string :=
  ["zai"; "opencode"; "qwen-portal"; "kimi-coding"; "openai"; "anthropic"; "zhipu"; "gemini";
   "coding-plan"; "coding-plan-anthropic"; "qwen-intl"; "qwen-us"].

Definition provider_aliases : list string :=
  ["z.ai"; "z-ai"; "opencode-zen"; "qwen"; "kimi-code"; "gpt"; "claude"; "glm"; "google";
   "alibaba-coding"; "qwen-coding"; "alibaba-coding-anthropic"; "qwen-international";
   "dashscope-intl"; "dashscope-us"].

Ltac provider_cases :=
  repeat match goal with
  | |- context [String.eqb ?p ?k] => destruct (String.eqb_spec p k) as [?E|?E]; simpl
  end.

Lemma NormalizeProvider_cases p :
  ((ToLower (TrimSpace p) ∈ provider_aliases) /\ (NormalizeProvider p ∈ canonical_providers)) \/
  ((ToLower (TrimSpace p) ∉ provider_aliases) /\ NormalizeProvider p = ToLower (TrimSpace p)).
Proof.
  unfold NormalizeProvider. generalize (ToLower (TrimSpace p)) as q. intros q.
  provider_cases;
    first [ left; subst q; split; decide_now
          | right; split; [|reflexivity];
            unfold provider_aliases; repeat (apply not_elem_of_cons; split; [assumption|]);
            apply not_elem_of_nil ].
Qed.

Lemma NormalizeProvider_clean p :
  ToLower (NormalizeProvider p) = NormalizeProvider p /\
  TrimSpace (NormalizeProvider p) = NormalizeProvider p.
Proof.
  destruct (NormalizeProvider_cases p) as [[_ H] | [_ ->]].
  - unfold canonical_providers in H.
    repeat (apply elem_of_cons in H as [-> | H]; [by vm_compute|]). by apply not_elem_of_nil in H.
  - by rewrite ToLower_idem, TrimSpace_ToLower, TrimSpace_idem.
Qed.

Lemma NormalizeProvider_idem p : NormalizeProvider (NormalizeProvider p) = NormalizeProvider p.
Proof.
  destruct (NormalizeProvider_cases p) as [[_ H] | [Hq Hp]].
  - unfold canonical_providers in H.
    repeat (apply elem_of_cons in H as [-> | H]; [by vm_compute|]). by apply not_elem_of_nil in H.
  - destruct (NormalizeProvider_clean p) as [H1 H2].
    destruct (NormalizeProvider_cases (NormalizeProvider p)) as [[Hi _] | [_ ->]];
      rewrite H2, H1 in *; [|done].
    rewrite Hp in Hi. done.
Qed.

(** The canonical key does not see case or outer space, nor an alias. *)
Lemma ModelKey_normalized p m :
  ModelKey (NormalizeProvider p) (ToLower (TrimSpace m)) = ModelKey p m.
Proof.
  unfold ModelKey. by rewrite NormalizeProvider_idem, TrimSpace_ToLower, TrimSpace_idem, ToLower_idem.
Qed.

#[export] Hint Rewrite NormalizeProvider_idem ModelKey_normalized : go.

(** Text before the first slash, text after it. *)
Lemma Index_byte_split s c i :
  Index s (implode [c]) = Some i ->
  s = slice_to s i +:+ implode [c] +:+ slice_from s (S i) /\
  (c ∉ chars (slice_to s i)) /\ length (chars (slice_to s i)) = i.
Proof.
  unfold Index, slice_to, slice_from. rewrite chars_implode.
  intros (a & b & Hs & <- & Ha)%l_index_byte_Some. rewrite Hs, !chars_implode.
  rewrite take_app_length. change (S (length a)) with (1 + length a)%nat.
  rewrite Nat.add_comm, drop_app_add. simpl.
  split_and!; [|done|done]. apply chars_inj. by rewrite Hs, !chars_app, !chars_implode.
Qed.

(** A reference written [provider/model] with clean parts parses to itself. *)
Lemma ParseModelRef_slash p m d :
  p <> "" -> m <> "" -> "/"%char ∉ chars p -> trimmed (p +:+ "/" +:+ m) -> trimmed m ->
  ParseModelRef (p +:+ "/" +:+ m) d = Some (mkModelRef (NormalizeProvider p) m).
Proof.
  intros Hp Hm Hs Ht Htm. unfold ParseModelRef. rewrite Ht.
  destruct (String.eqb_spec (p +:+ "/" +:+ m) "") as [E|_].
  { apply chars_nil in E. rewrite chars_app in E. by apply app_nil in E as [E%chars_nil ?]. }
  assert (HI : l_index ["/"%char] (chars p ++ "/"%char :: chars m) = Some (length (chars p)))
    by (apply l_index_byte_Some; eauto).
  assert (HC : chars (p +:+ "/" +:+ m) = chars p ++ "/"%char :: chars m) by by rewrite !chars_app.
  unfold Index, slice_to, slice_from. rewrite HC. cbn [list_ascii_of_string]. rewrite HI.
  destruct (length (chars p)) as [|n] eqn:Hn.
  { by apply nil_length_inv, chars_nil in Hn. }
  rewrite <- Hn. rewrite take_app_length. change (S (length (chars p))) with (1 + length (chars p))%nat.
  rewrite Nat.add_comm, drop_app_add, skipn_cons, drop_0, !implode_chars, Htm.
  by destruct (String.eqb_spec m "").
Qed.

Example ParseModelRef_examples :
  ParseModelRef " Anthropic/claude-opus " "openai" = Some (mkModelRef "anthropic" "claude-opus") /\
  ParseModelRef "gpt-4" "GPT" = Some (mkModelRef "openai" "gpt-4") /\
  ParseModelRef "openai/ " "x" = None /\ ParseModelRef "/m" "glm" = Some (mkModelRef "zhipu" "/m").
Proof. vm_compute. auto. Qed.
