(* ===== verification/Cooldown.v ===== *)
(** * Provider cooldowns: [src/pkg/providers/cooldown.go]

    The tracker is a map from a candidate's key to its entry.  Each method
    runs under the tracker's lock, so it is one atomic step; [now] is the
    value its single call of [nowFunc] returns. *)

From S2P Require Import Prelude GoStrings ModelRef.

Definition defaultFailureWindow : duration := 24 * Hour.

Record cooldownEntry : Type := mkEntry {
  e_ErrorCount : Z;
  e_FailureCounts : gmap FailoverReason Z;
  e_CooldownEnd : time;
  e_DisabledUntil : time;
  e_DisabledReason : option FailoverReason;
  e_LastFailure : time
}.

Record CooldownTracker : Type := mkTracker {
  entries : gmap string cooldownEntry;
  failureWindow : duration
}.

Definition NewCooldownTracker : CooldownTracker := mkTracker ∅ defaultFailureWindow.

(** The zero value plus the empty counter map of [getOrCreate]. *)
Definition new_entry : cooldownEntry := mkEntry 0 ∅ zero_time zero_time None zero_time.

Definition getOrCreate (ct : CooldownTracker) (provider : string) : cooldownEntry :=
  default new_entry (entries ct !! provider).

Definition set_entry (ct : CooldownTracker) (provider : string) (e : cooldownEntry)
  : CooldownTracker :=
  mkTracker (<[provider := e]> (entries ct)) (failureWindow ct).

Definition count_of (m : gmap FailoverReason Z) (r : FailoverReason) : Z := default 0 (m !! r).

(** [min(1h, 1min * 5^min(n-1, 3))]; the powers are exact in float64. *)
Definition calculateStandardCooldown (errorCount : Z) : duration :=
  let n := Z.max 1 errorCount in
  let exp := Z.min (n - 1) 3 in
  let ms := 60000 * 5 ^ exp in
  let ms := Z.min 3600000 ms in
  ms * Millisecond.

(** [min(24h, 5h * 2^min(n-1, 10))]; the powers are exact in float64. *)
Definition calculateBillingCooldown (billingErrorCount : Z) : duration :=
  let baseMs := 5 * 60 * 60 * 1000 in
  let maxMs := 24 * 60 * 60 * 1000 in
  let n := Z.max 1 billingErrorCount in
  let exp := Z.min (n - 1) 10 in
  let raw := baseMs * 2 ^ exp in
  let ms := Z.min maxMs raw in
  ms * Millisecond.

Definition fail_entry (window : duration) (now : time) (reason : FailoverReason)
  (entry : cooldownEntry) : cooldownEntry :=
  let stale := negb (IsZero (e_LastFailure entry)) && (window <? Sub now (e_LastFailure entry)) in
  let errors := if stale then 0 else e_ErrorCount entry in
  let counts := if stale then ∅ else e_FailureCounts entry in
  let errors := int_add errors 1 in
  let counts := <[reason := int_add (count_of counts reason) 1]> counts in
  if bool_decide (reason = FailoverBilling) then
    mkEntry errors counts (e_CooldownEnd entry)
      (Add now (calculateBillingCooldown (count_of counts FailoverBilling)))
      (Some FailoverBilling) now
  else
    mkEntry errors counts (Add now (calculateStandardCooldown errors))
      (e_DisabledUntil entry) (e_DisabledReason entry) now.

Definition MarkFailure (now : time) (provider : string) (reason : FailoverReason)
  (ct : CooldownTracker) : CooldownTracker :=
  set_entry ct provider (fail_entry (failureWindow ct) now reason (getOrCreate ct provider)).

Definition MarkSuccess (provider : string) (ct : CooldownTracker) : CooldownTracker :=
  match entries ct !! provider with
  | None => ct
  | Some entry =>
      set_entry ct provider (mkEntry 0 ∅ zero_time zero_time None (e_LastFailure entry))
  end.

(** A deadline that is set and still ahead. *)
Definition pending (now deadline : time) : bool := negb (IsZero deadline) && Before now deadline.

Definition IsAvailable (now : time) (provider : string) (ct : CooldownTracker) : bool :=
  match entries ct !! provider with
  | None => true
  | Some entry =>
      if pending now (e_DisabledUntil entry) then false
      else if pending now (e_CooldownEnd entry) then false
      else true
  end.

Definition CooldownRemaining (now : time) (provider : string) (ct : CooldownTracker) : duration :=
  match entries ct !! provider with
  | None => 0
  | Some entry =>
      let remaining := 0 in
      let remaining :=
        if pending now (e_DisabledUntil entry) then
          let d := Sub (e_DisabledUntil entry) now in
          if remaining <? d then d else remaining
        else remaining in
      if pending now (e_CooldownEnd entry) then
        let d := Sub (e_CooldownEnd entry) now in
        if remaining <? d then d else remaining
      else remaining
  end.

Definition ErrorCount (provider : string) (ct : CooldownTracker) : Z :=
  match entries ct !! provider with
  | None => 0
  | Some entry => e_ErrorCount entry
  end.

Definition FailureCount (provider : string) (reason : FailoverReason) (ct : CooldownTracker) : Z :=
  match entries ct !! provider with
  | None => 0
  | Some entry => count_of (e_FailureCounts entry) reason
  end.

(** ** Step semantics *)

Inductive cd_event : Type :=
| EvFailure (now : time) (provider : string) (reason : FailoverReason)
| EvSuccess (provider : string).

Definition cd_step (ct : CooldownTracker) (ev : cd_event) : CooldownTracker :=
  match ev with
  | EvFailure now p r => MarkFailure now p r ct
  | EvSuccess p => MarkSuccess p ct
  end.

Definition cd_run (evs : list cd_event) : CooldownTracker :=
  foldl cd_step NewCooldownTracker evs.

(** ** Lemmas *)

Lemma lookup_set_entry ct p e q :
  entries (set_entry ct p e) !! q = if decide (p = q) then Some e else entries ct !! q.
Proof. apply lookup_insert. Qed.

Lemma calculateStandardCooldown_cases n :
  calculateStandardCooldown n =
    if n <=? 1 then Minute
    else if n =? 2 then 5 * Minute
    else if n =? 3 then 25 * Minute
    else Hour.
Proof.
  unfold calculateStandardCooldown.
  destruct (Z.leb_spec n 1); [by rewrite Z.max_l by lia|].
  destruct (Z.eqb_spec n 2) as [->|]; [done|]. destruct (Z.eqb_spec n 3) as [->|]; [done|].
  by rewrite (Z.max_r 1 n), (Z.min_r (n - 1) 3) by lia.
Qed.

Lemma calculateBillingCooldown_cases n :
  calculateBillingCooldown n =
    if n <=? 1 then 5 * Hour
    else if n =? 2 then 10 * Hour
    else if n =? 3 then 20 * Hour
    else 24 * Hour.
Proof.
  unfold calculateBillingCooldown.
  destruct (Z.leb_spec n 1); [by rewrite (Z.max_l 1 n) by lia|].
  destruct (Z.eqb_spec n 2) as [->|]; [done|]. destruct (Z.eqb_spec n 3) as [->|]; [done|].
  rewrite (Z.max_r 1 n) by lia.
  assert (2 ^ 3 <= 2 ^ Z.min (n - 1) 10) by (apply Z.pow_le_mono_r; lia).
  rewrite Z.min_l by lia. done.
Qed.

Lemma calculateStandardCooldown_range n : Minute <= calculateStandardCooldown n <= Hour.
Proof. rewrite calculateStandardCooldown_cases. repeat case_match; unfold Hour, Minute, Second; lia. Qed.

Lemma calculateBillingCooldown_range n : 5 * Hour <= calculateBillingCooldown n <= 24 * Hour.
Proof. rewrite calculateBillingCooldown_cases. repeat case_match; unfold Hour, Minute, Second; lia. Qed.

Lemma pending_spec now d : 0 < now -> pending now d = true <-> now < d.
Proof.
  intros H. unfold pending, IsZero, Before, zero_time.
  rewrite andb_true_iff, negb_true_iff, Z.eqb_neq, Z.ltb_lt. lia.
Qed.

Lemma IsAvailable_entry now p ct e :
  entries ct !! p = Some e ->
  IsAvailable now p ct = negb (pending now (e_DisabledUntil e)) && negb (pending now (e_CooldownEnd e)).
Proof. intros H. unfold IsAvailable. rewrite H. by destruct (pending _ _), (pending _ _). Qed.

Lemma Sub_pos t u : u < t -> 0 < Sub t u.
Proof. unfold Sub, int64_min, int64_max. lia. Qed.

Lemma Sub_upper t u : u < t -> Sub t u <= t - u.
Proof. unfold Sub, int64_min, int64_max. lia. Qed.

Lemma Sub_exact t u : u < t -> t - u <= int64_max -> Sub t u = t - u.
Proof. unfold Sub, int64_min, int64_max. lia. Qed.

#[export] Hint Resolve Sub_pos : go.

(** The remaining time is zero exactly when the provider is available. *)
Lemma CooldownRemaining_available now p ct :
  0 < now -> (CooldownRemaining now p ct = 0 <-> IsAvailable now p ct = true).
Proof.
  intros Hnow. unfold CooldownRemaining, IsAvailable. destruct (entries ct !! p) as [e|]; [|done].
  pose proof (pending_spec now (e_DisabledUntil e) Hnow) as H1.
  pose proof (pending_spec now (e_CooldownEnd e) Hnow) as H2.
  destruct (pending now (e_DisabledUntil e)).
  - pose proof (Sub_pos _ _ (proj1 H1 eq_refl)).
    split; [|done]. repeat case_match; breflect; lia.
  - destruct (pending now (e_CooldownEnd e)); [|done].
    pose proof (Sub_pos _ _ (proj1 H2 eq_refl)).
    split; [|done]. repeat case_match; breflect; lia.
Qed.

(** ** The failure counts add up to the error count *)

Definition all_reasons : list FailoverReason :=
  [FailoverAuth; FailoverRateLimit; FailoverBilling; FailoverTimeout; FailoverFormat;
   FailoverContextOverflow; FailoverOverloaded; FailoverUnknown].

Definition total (m : gmap FailoverReason Z) : Z :=
  foldr Z.add 0 (map (count_of m) all_reasons).

Lemma count_of_insert m r x q :
  count_of (<[r := x]> m) q = if decide (r = q) then x else count_of m q.
Proof. unfold count_of. rewrite lookup_insert. by case_decide. Qed.

Lemma total_insert m r x : total (<[r := x]> m) = total m - count_of m r + x.
Proof.
  unfold total, all_reasons. simpl. rewrite !count_of_insert.
  destruct r; repeat case_decide; try congruence; lia.
Qed.

Lemma total_empty : total ∅ = 0.
Proof. reflexivity. Qed.

(** Each count is non-negative, they add up to the error count, and no more
    than [n] failures were recorded. *)
Definition entry_ok (n : Z) (e : cooldownEntry) : Prop :=
  e_ErrorCount e = total (e_FailureCounts e) /\ 0 <= e_ErrorCount e <= n /\
  forall r, 0 <= count_of (e_FailureCounts e) r <= e_ErrorCount e.

Definition tracker_ok (n : Z) (ct : CooldownTracker) : Prop :=
  map_Forall (fun _ e => entry_ok n e) (entries ct).

Lemma entry_ok_new n : 0 <= n -> entry_ok n new_entry.
Proof. intros H. split_and!; simpl; [done | lia | lia |]. intros []; simpl; done. Qed.

Lemma entry_ok_fail n w now r e :
  n + 1 <= int64_max -> entry_ok n e -> entry_ok (n + 1) (fail_entry w now r e).
Proof.
  intros Hn (Ht & Hb & Hc).
  assert (Hreset : forall c m, c = total m -> 0 <= c <= n -> (forall q, 0 <= count_of m q <= c) ->
    entry_ok (n + 1) (mkEntry (int_add c 1) (<[r := int_add (count_of m r) 1]> m) 0 0 None 0)).
  { intros c m Hc1 Hc2 Hc3. pose proof (Hc3 r).
    unfold int64_max in Hn. rewrite !int_add_small by (unfold in_int64, int64_min, int64_max; lia).
    split_and!; simpl; [rewrite total_insert; lia | lia | lia |].
    intros q. rewrite count_of_insert. specialize (Hc3 q). case_decide; subst; lia. }
  unfold fail_entry.
  match goal with |- context [if ?b then 0 else _] => destruct b end.
  - specialize (Hreset 0 ∅). destruct Hreset as (A & B & C); [done | lia | |].
    + intros []; done.
    + case_bool_decide; split_and!; try done; apply B.
  - destruct (Hreset _ _ Ht Hb Hc) as (A & B & C).
    case_bool_decide; split_and!; try done; apply B.
Qed.

Lemma entry_ok_mono n m e : n <= m -> entry_ok n e -> entry_ok m e.
Proof. intros ? (? & ? & ?). split_and!; [done | lia.. | done]. Qed.

Lemma tracker_ok_step n ct ev :
  0 <= n -> n + 1 <= int64_max -> tracker_ok n ct -> tracker_ok (n + 1) (cd_step ct ev).
Proof.
  intros H0 Hn Hct p e. destruct ev as [now q r | q]; cbn [cd_step].
  - unfold MarkFailure. rewrite lookup_set_entry. case_decide as Hq.
    + intros; simplify_eq. apply entry_ok_fail; [done|]. unfold getOrCreate.
      destruct (entries ct !! p) as [e'|] eqn:E; simpl; [by apply (Hct p)|]. by apply entry_ok_new.
    + intros E. eapply entry_ok_mono; [|by apply (Hct p)]. lia.
  - unfold MarkSuccess. destruct (entries ct !! q) as [e'|] eqn:E.
    + rewrite lookup_set_entry. case_decide; intros; simplify_eq.
      * destruct (entry_ok_new (n + 1)) as (? & ? & ?); [lia|]. done.
      * eapply entry_ok_mono; [|by apply (Hct p)]. lia.
    + intros E'. eapply entry_ok_mono; [|by apply (Hct p)]. lia.
Qed.

Lemma tracker_ok_run evs :
  Z.of_nat (length evs) <= int64_max -> tracker_ok (Z.of_nat (length evs)) (cd_run evs).
Proof.
  unfold cd_run. induction evs as [|ev evs IH] using rev_ind; intros Hl.
  - intros p e. simpl. by rewrite lookup_empty.
  - rewrite foldl_app, length_app in *. simpl in *.
    replace (Z.of_nat (length evs + 1)) with (Z.of_nat (length evs) + 1) in * by lia.
    apply tracker_ok_step; [lia | done |]. apply IH. lia.
Qed.

(** Events of other providers do not touch an entry. *)
Definition about (p : string) (ev : cd_event) : Prop :=
  match ev with EvFailure _ q _ => q = p | EvSuccess q => q = p end.

#[export] Instance about_dec p ev : Decision (about p ev).
Proof. destruct ev; simpl; apply _. Defined.

Lemma cd_step_other p ct ev :
  ~ about p ev -> entries (cd_step ct ev) !! p = entries ct !! p.
Proof.
  destruct ev as [now q r | q]; simpl; intros Hq.
  - by rewrite lookup_insert_ne.
  - unfold MarkSuccess. destruct (entries ct !! q) as [e|]; [|done].
    rewrite lookup_set_entry. by case_decide.
Qed.

Lemma cd_step_same p ct1 ct2 ev :
  entries ct1 !! p = entries ct2 !! p -> failureWindow ct1 = failureWindow ct2 -> about p ev ->
  entries (cd_step ct1 ev) !! p = entries (cd_step ct2 ev) !! p.
Proof.
  intros He Hw Hq. destruct ev as [now q r | q]; simpl in Hq; subst q; cbn [cd_step].
  - unfold MarkFailure, getOrCreate. by rewrite !lookup_set_entry, !decide_True, He, Hw by done.
  - unfold MarkSuccess. rewrite He. destruct (entries ct2 !! p) as [e|] eqn:E; [|congruence].
    by rewrite !lookup_set_entry, !decide_True.
Qed.

Lemma cd_step_window ct ev : failureWindow (cd_step ct ev) = failureWindow ct.
Proof.
  destruct ev as [now q r | q]; simpl; [done|].
  unfold MarkSuccess. by destruct (entries ct !! q).
Qed.

Lemma cd_run_window evs ct : failureWindow (foldl cd_step ct evs) = failureWindow ct.
Proof. revert ct; induction evs as [|ev evs IH]; intros ct; simpl; [done|]. by rewrite IH, cd_step_window. Qed.

Lemma foldl_cd_step_filter p evs ct1 ct2 :
  entries ct1 !! p = entries ct2 !! p -> failureWindow ct1 = failureWindow ct2 ->
  entries (foldl cd_step ct1 evs) !! p = entries (foldl cd_step ct2 (filter (about p) evs)) !! p.
Proof.
  revert ct1 ct2; induction evs as [|ev evs IH]; intros ct1 ct2 He Hw; [done|].
  rewrite filter_cons. cbn [foldl]. destruct (decide (about p ev)) as [Hp|Hp].
  - cbn [foldl]. apply IH; [by apply cd_step_same | by rewrite !cd_step_window].
  - apply IH; [by rewrite cd_step_other | by rewrite cd_step_window].
Qed.

(** A run of failures of one provider, each no later than the failure window
    after the one before. *)
Fixpoint close_failures (w : duration) (last : time) (evs : list (time * FailoverReason)) : Prop :=
  match evs with
  | [] => True
  | (now, _) :: evs' => Sub now last <= w /\ 0 < now /\ close_failures w now evs'
  end.

Definition fail_run (p : string) (evs : list (time * FailoverReason)) (ct : CooldownTracker)
  : CooldownTracker :=
  foldl (fun ct '(now, r) => MarkFailure now p r ct) ct evs.

Lemma ErrorCount_MarkFailure now p r ct e :
  entries ct !! p = Some e -> e_LastFailure e <> 0 -> Sub now (e_LastFailure e) <= failureWindow ct ->
  ErrorCount p (MarkFailure now p r ct) = int_add (e_ErrorCount e) 1 /\
  exists e', entries (MarkFailure now p r ct) !! p = Some e' /\ e_LastFailure e' = now.
Proof.
  intros He Hl Hs. unfold ErrorCount, MarkFailure. rewrite lookup_set_entry, decide_True by done.
  unfold getOrCreate. rewrite He. unfold fail_entry. simpl.
  destruct (Z.ltb_spec (failureWindow ct) (Sub now (e_LastFailure e))); [lia|].
  rewrite andb_false_r. case_bool_decide; simpl; eauto.
Qed.

Lemma fail_run_count p evs ct e :
  entries ct !! p = Some e -> e_LastFailure e <> 0 -> 0 <= e_ErrorCount e ->
  e_ErrorCount e + Z.of_nat (length evs) <= int64_max ->
  close_failures (failureWindow ct) (e_LastFailure e) evs ->
  ErrorCount p (fail_run p evs ct) = e_ErrorCount e + Z.of_nat (length evs).
Proof.
  revert ct e; induction evs as [|[now r] evs IH]; intros ct e He Hl H0 Hb Hc; cbn [fail_run foldl].
  - unfold ErrorCount. rewrite He. simpl. lia.
  - destruct Hc as (Hs & Hn & Hc). cbn [length] in Hb.
    destruct (ErrorCount_MarkFailure now p r ct e He Hl Hs) as (Hec & e' & He' & Hl').
    unfold ErrorCount in Hec. rewrite He' in Hec.
    rewrite int_add_small in Hec by (unfold in_int64, int64_min; lia).
    change (foldl _ _ evs) with (fail_run p evs (MarkFailure now p r ct)).
    rewrite (IH _ e' He'); [simpl; lia | lia | lia | lia |]. simpl. by rewrite Hl'.
Qed.

(** ** Properties *)

(** A failure makes its provider unavailable exactly until the back-off
    that its (new) counters prescribe is over, a deadline of the other kind
    (billing or standard) still counting. *)
Theorem MarkFailure_available now p r ct t :
  0 < now -> now <= t ->
  let ct' := MarkFailure now p r ct in
  let old := getOrCreate ct p in
  IsAvailable t p ct' = true <->
  (if bool_decide (r = FailoverBilling)
   then now + calculateBillingCooldown (FailureCount p FailoverBilling ct') <= t /\
        e_CooldownEnd old <= t
   else now + calculateStandardCooldown (ErrorCount p ct') <= t /\ e_DisabledUntil old <= t).
Proof.
  intros Hn Ht ct' old.
  assert (He : entries ct' !! p = Some (fail_entry (failureWindow ct) now r old))
    by (unfold ct', MarkFailure; by rewrite lookup_set_entry, decide_True).
  rewrite (IsAvailable_entry _ _ _ _ He). unfold FailureCount, ErrorCount. rewrite He.
  rewrite andb_true_iff, !negb_true_iff, <- !not_true_iff_false, !pending_spec by lia.
  unfold fail_entry. case_bool_decide; simpl; unfold Add; lia.
Qed.

Lemma MarkFailure_available_witness :
  0 < 10 * Hour /\ 10 * Hour <= 12 * Hour /\
  IsAvailable (12 * Hour) "openai/gpt" (MarkFailure (10 * Hour) "openai/gpt" FailoverTimeout NewCooldownTracker) = true.
Proof.
  split; [done|]. split; [done|].
  apply (MarkFailure_available (10 * Hour) "openai/gpt" FailoverTimeout NewCooldownTracker (12 * Hour));
    [done | done |]. vm_compute. split; discriminate.
Defined.

(** The remaining cooldown is the least wait: from [now] on, the provider
    is available at [t] exactly when that much time has passed (the value is
    not clipped by the range of a duration). *)
Theorem CooldownRemaining_least now p ct t :
  0 < now -> now <= t -> CooldownRemaining now p ct < int64_max ->
  IsAvailable t p ct = true <-> now + CooldownRemaining now p ct <= t.
Proof.
  intros Hn Ht Hr. unfold IsAvailable, CooldownRemaining in *.
  destruct (entries ct !! p) as [e|]; [|split; [lia | done]].
  pose proof (pending_spec now (e_DisabledUntil e) Hn) as A1.
  pose proof (pending_spec now (e_CooldownEnd e) Hn) as A2.
  pose proof (pending_spec t (e_DisabledUntil e) ltac:(lia)) as B1.
  pose proof (pending_spec t (e_CooldownEnd e) ltac:(lia)) as B2.
  unfold Sub, int64_min in *.
  destruct (pending now (e_DisabledUntil e)), (pending now (e_CooldownEnd e)),
    (pending t (e_DisabledUntil e)), (pending t (e_CooldownEnd e));
    repeat match goal with
    | H : true = true <-> ?P |- _ => apply (proj1 H) in H || (pose proof (proj1 H eq_refl); clear H)
    | H : false = true <-> ?P |- _ => assert (~ P) by (intros X; by apply H in X); clear H
    end; repeat case_match; breflect; split; intros; try done; lia.
Qed.

Lemma CooldownRemaining_least_witness :
  let ct := MarkFailure (10 * Hour) "k" FailoverBilling NewCooldownTracker in
  CooldownRemaining (11 * Hour) "k" ct = 4 * Hour /\
  (IsAvailable (15 * Hour) "k" ct = true <-> 11 * Hour + CooldownRemaining (11 * Hour) "k" ct <= 15 * Hour).
Proof.
  split; [reflexivity|].
  apply (CooldownRemaining_least (11 * Hour) "k"
           (MarkFailure (10 * Hour) "k" FailoverBilling NewCooldownTracker) (15 * Hour));
    [done | done |]. vm_compute. reflexivity.
Defined.

(** [n] failures of a fresh provider, each within the failure window of
    the one before, count as [n]: the last of them, not a billing one, blocks
    the provider for 1, 5, 25 and from the fourth on 60 minutes. *)
Theorem consecutive_failures_backoff p first r0 evs now r t :
  0 < first -> Z.of_nat (length evs) + 2 <= int64_max ->
  close_failures defaultFailureWindow first (evs ++ [(now, r)]) -> r <> FailoverBilling ->
  let n := Z.of_nat (length evs) + 2 in
  let ct := fail_run p ((first, r0) :: evs ++ [(now, r)]) NewCooldownTracker in
  ErrorCount p ct = n /\
  (now <= t ->
   t < now + (if n =? 2 then 5 * Minute else if n =? 3 then 25 * Minute else Hour) ->
   IsAvailable t p ct = false).
Proof.
  intros Hf Hb Hc Hr n ct.
  pose (ct0 := MarkFailure first p r0 NewCooldownTracker).
  assert (exists e0, entries ct0 !! p = Some e0 /\ e_ErrorCount e0 = 1 /\ e_LastFailure e0 = first)
    as (e0 & He0 & Hec0 & Hl0).
  { unfold ct0, MarkFailure. rewrite lookup_set_entry, decide_True by done.
    eexists; split; [done|]. unfold fail_entry, getOrCreate. simpl.
    case_bool_decide; done. }
  assert (Hn : ErrorCount p ct = n).
  { change ct with (fail_run p (evs ++ [(now, r)]) ct0).
    rewrite (fail_run_count p _ ct0 e0 He0); rewrite ?Hec0, ?Hl0, ?length_app; simpl; try lia.
    exact Hc. }
  split; [done|]. intros Ht Hlt.
  assert (Hct : ct = MarkFailure now p r (fail_run p evs ct0)).
  { unfold ct, fail_run. cbn [foldl]. by rewrite foldl_app. }
  assert (Hnow : 0 < now).
  { clear -Hc. revert first Hc. induction evs as [|[m q] evs IH]; intros first Hc; simpl in Hc; [lia|].
    destruct Hc as (_ & _ & Hc). by eapply IH. }
  rewrite Hct in *.
  assert (He : entries (MarkFailure now p r (fail_run p evs ct0)) !! p
     = Some (fail_entry (failureWindow (fail_run p evs ct0)) now r (getOrCreate (fail_run p evs ct0) p)))
    by (unfold MarkFailure; by rewrite lookup_set_entry, decide_True).
  unfold ErrorCount in Hn. rewrite He in Hn.
  rewrite (IsAvailable_entry _ _ _ _ He). apply andb_false_iff. right. apply negb_false_iff.
  apply pending_spec; [lia|]. revert Hn. unfold fail_entry.
  rewrite !bool_decide_eq_false_2 by done. cbn [e_ErrorCount e_CooldownEnd]. intros ->.
  unfold Add. rewrite calculateStandardCooldown_cases.
  destruct (Z.leb_spec n 1); [unfold n in *; lia|]. exact Hlt.
Qed.

Lemma consecutive_failures_backoff_witness :
  let ct := fail_run "k" [(Hour, FailoverTimeout); (2 * Hour, FailoverAuth); (3 * Hour, FailoverRateLimit)]
              NewCooldownTracker in
  ErrorCount "k" ct = 3 /\ IsAvailable (3 * Hour + 24 * Minute) "k" ct = false.
Proof.
  destruct (consecutive_failures_backoff "k" Hour FailoverTimeout [(2 * Hour, FailoverAuth)]
              (3 * Hour) FailoverRateLimit (3 * Hour + 24 * Minute)) as [H1 H2].
  - done.
  - done.
  - vm_compute. repeat split; discriminate || done.
  - discriminate.
  - split; [exact H1|]. apply H2; vm_compute; [discriminate | reflexivity].
Defined.

(** In every reachable tracker the failure counts are non-negative and
    add up to the error count. *)
Theorem failure_counts_add_up evs p :
  Z.of_nat (length evs) <= int64_max ->
  ErrorCount p (cd_run evs) = foldr Z.add 0 (map (fun r => FailureCount p r (cd_run evs)) all_reasons) /\
  (forall r, 0 <= FailureCount p r (cd_run evs) <= ErrorCount p (cd_run evs)) /\
  ErrorCount p (cd_run evs) <= Z.of_nat (length evs).
Proof.
  intros Hl. unfold ErrorCount, FailureCount. pose proof (tracker_ok_run evs Hl p) as Hok.
  destruct (entries (cd_run evs) !! p) as [e|].
  - destruct (Hok e eq_refl) as (Ht & Hb & Hc). split_and!; [exact Ht | exact Hc | lia].
  - split_and!; [done | intros []; lia | lia].
Qed.

Lemma failure_counts_add_up_witness :
  let evs := [EvFailure Hour "a" FailoverAuth; EvFailure (2 * Hour) "a" FailoverBilling; EvSuccess "b"] in
  ErrorCount "a" (cd_run evs) = 2 /\
  ErrorCount "a" (cd_run evs) = foldr Z.add 0 (map (fun r => FailureCount "a" r (cd_run evs)) all_reasons).
Proof.
  split; [reflexivity|].
  apply (failure_counts_add_up [EvFailure Hour "a" FailoverAuth; EvFailure (2 * Hour) "a" FailoverBilling;
                                EvSuccess "b"] "a"). vm_compute. discriminate.
Defined.

(** A provider's availability depends only on the events of that
    provider; after a success it is available at once. *)
Theorem cooldown_isolated evs p t :
  IsAvailable t p (cd_run evs) = IsAvailable t p (cd_run (filter (about p) evs)) /\
  ErrorCount p (cd_run evs) = ErrorCount p (cd_run (filter (about p) evs)) /\
  IsAvailable t p (cd_run (evs ++ [EvSuccess p])) = true.
Proof.
  pose proof (foldl_cd_step_filter p evs NewCooldownTracker NewCooldownTracker eq_refl eq_refl) as H.
  unfold IsAvailable, ErrorCount, cd_run in *. rewrite H. split_and!; [done..|].
  rewrite foldl_app. cbn [foldl cd_step]. unfold MarkSuccess.
  destruct (entries (foldl cd_step NewCooldownTracker evs) !! p) as [e|] eqn:E.
  - by rewrite lookup_set_entry, decide_True.
  - by rewrite E.
Qed.
