(* ===== verification/ErrorClass.v ===== *)
(** * Errors and their classification: [src/pkg/providers/error_classifier.go]

    Errors are the values the fallback chain can see: the two context errors,
    an error of a provider known by its text, the wrapped and aggregate errors
    the chain builds itself. *)

From S2P Require Import Prelude GoStrings GoLib.
Import GoDuration GoRegexp.
From S2P Require Import ModelRef.
#[local] Set Warnings "-register-all".

(** ** types.go, fallback.go: error values *)

Record FailoverErrorOf (E : Type) : Type := mkFailoverError {
  fe_Reason : FailoverReason;
  fe_Provider : string;
  fe_Model : string;
  fe_Status : Z;
  fe_Wrapped : E
}.
Arguments mkFailoverError {E}.
Arguments fe_Reason {E}.
Arguments fe_Provider {E}.
Arguments fe_Model {E}.
Arguments fe_Status {E}.
Arguments fe_Wrapped {E}.

Record FallbackAttemptOf (E : Type) : Type := mkAttempt {
  at_Provider : string;
  at_Model : string;
  at_Error : option E;
  at_Reason : option FailoverReason;   (* [None] is the empty reason *)
  at_Duration : duration;
  at_Skipped : bool
}.
Arguments mkAttempt {E}.
Arguments at_Provider {E}.
Arguments at_Model {E}.
Arguments at_Error {E}.
Arguments at_Reason {E}.
Arguments at_Duration {E}.
Arguments at_Skipped {E}.

Inductive error : Type :=
| ErrCanceled                                        (* context.Canceled *)
| ErrDeadlineExceeded                                (* context.DeadlineExceeded *)
| ErrText (msg : string)                             (* any other error, by its text *)
| ErrWrap (msg : string) (inner : error)             (* fmt.Errorf with %w; [msg] is the whole text *)
| ErrFailover (f : FailoverErrorOf error)
| ErrExhausted (attempts : list (FallbackAttemptOf error)).

Abbreviation FailoverError := (FailoverErrorOf error).
Abbreviation FallbackAttempt := (FallbackAttemptOf error).

Definition opt_reason_text (r : option FailoverReason) : string :=
  match r with Some r => reason_text r | None => "" end.

(** The [Error] methods. *)
Fixpoint Error (e : error) : string :=
  match e with
  | ErrCanceled => "context canceled"
  | ErrDeadlineExceeded => "context deadline exceeded"
  | ErrText msg => msg
  | ErrWrap msg _ => msg
  | ErrFailover (mkFailoverError r p m st w) =>
      "failover(" +:+ reason_text r +:+ "): provider=" +:+ p +:+ " model=" +:+ m
      +:+ " status=" +:+ itoa st +:+ ": " +:+ Error w
  | ErrExhausted attempts =>
      let fix lines (i : Z) (l : list FallbackAttempt) : string :=
        match l with
        | [] => ""
        | mkAttempt p m err r d skipped :: l' =>
            (if skipped then
               "
  [" +:+ itoa i +:+ "] " +:+ p +:+ "/" +:+ m +:+ ": skipped (cooldown)"
             else
               "
  [" +:+ itoa i +:+ "] " +:+ p +:+ "/" +:+ m +:+ ": "
               +:+ match err with Some e' => Error e' | None => "<nil>" end
               +:+ " (reason=" +:+ opt_reason_text r +:+ ", "
               +:+ DurationString (Round d Millisecond) +:+ ")")
            +:+ lines (i + 1) l'
        end in
      "fallback: all " +:+ itoa (Z.of_nat (length attempts)) +:+ " candidates failed:"
      +:+ lines 1 attempts
  end.

Definition IsRetriable (f : FailoverError) : bool :=
  negb (bool_decide (fe_Reason f = FailoverFormat))
  && negb (bool_decide (fe_Reason f = FailoverContextOverflow)).

(** ** Patterns *)

Inductive errorPattern : Type :=
| substr (s : string)
| rxp (r : regex).      (* the [(?i)] of [rxp] is in the literals *)

Definition cUnderSpace : cls := cOneOf "_ ".
Definition cColonSpace : cls := fun c => Ascii.eqb c ":" || cSpace c.
Definition cSlashSpace : cls := fun c => Ascii.eqb c "/" || cSpace c.
Definition group3 (p : cls) : regex := [AOpen; ACls p; ACls cDigit; ACls cDigit; AClose].

Definition httpStatusPatterns : list regex :=
  [ ALit "status" ++ APlus cColonSpace ++ group3 cDigit;
    ALit "http" ++ APlus cSlashSpace ++ [AStar cDigit; AOpt (Ascii.eqb "."); AStar cDigit]
      ++ APlus cSpace ++ group3 cDigit;
    [AWordB] ++ group3 (between 51 53) ++ [AWordB] ].

Definition rateLimitPatterns : list errorPattern :=
  [ rxp (ALitFold "rate" ++ [ACls cUnderSpace] ++ ALitFold "limit");
    substr "too many requests";
    substr "429";
    substr "exceeded your current quota";
    rxp (ALitFold "exceeded" ++ [AStar cAny] ++ ALitFold "quota");
    rxp (ALitFold "resource has been exhausted");
    rxp (ALitFold "resource" ++ [AStar cAny] ++ ALitFold "exhausted");
    substr "resource_exhausted";
    substr "quota exceeded";
    substr "usage limit" ].

Definition quoted (s : string) : string :=
  implode [ascii_of_nat 34] +:+ s +:+ implode [ascii_of_nat 34].

Definition overloadedPatterns : list errorPattern :=
  [ rxp (ALitFold "overloaded_error");
    rxp (ALitFold (quoted "type") ++ [AStar cSpace] ++ ALitFold ":" ++ [AStar cSpace]
         ++ ALitFold (quoted "overloaded_error"));
    substr "overloaded" ].

Definition timeoutPatterns : list errorPattern :=
  [ substr "timeout"; substr "timed out"; substr "deadline exceeded";
    substr "context deadline exceeded" ].

Definition billingPatterns : list errorPattern :=
  [ rxp ([AWordB] ++ ALitFold "402" ++ [AWordB]);
    substr "payment required";
    substr "insufficient credits";
    substr "credit balance";
    substr "plans & billing";
    substr "insufficient balance" ].

Definition authPatterns : list errorPattern :=
  [ rxp (ALitFold "invalid" ++ [AOpt cUnderSpace] ++ ALitFold "api" ++ [AOpt cUnderSpace]
         ++ ALitFold "key");
    substr "incorrect api key";
    substr "invalid token";
    substr "authentication";
    substr "re-authenticate";
    substr "oauth token refresh failed";
    substr "unauthorized";
    substr "forbidden";
    substr "access denied";
    substr "expired";
    substr "token has expired";
    rxp ([AWordB] ++ ALitFold "401" ++ [AWordB]);
    rxp ([AWordB] ++ ALitFold "403" ++ [AWordB]);
    substr "no credentials found";
    substr "no api key found" ].

Definition formatPatterns : list errorPattern :=
  [ substr "string should match pattern";
    substr "tool_use.id";
    substr "tool_use_id";
    substr "messages.1.content.1.tool_use.id";
    substr "invalid request format" ].

Definition contextOverflowPatterns : list errorPattern :=
  [ rxp (ALitFold "context" ++ [AOpt cUnderSpace] ++ ALitFold "length" ++ [AOpt cUnderSpace]
         ++ ALitFold "exceeded");
    rxp (ALitFold "context" ++ [AOpt cUnderSpace] ++ ALitFold "window" ++ [AOpt cUnderSpace]
         ++ ALitFold "exceeded");
    substr "maximum context length";
    substr "token limit";
    substr "too many tokens";
    substr "prompt is too long";
    substr "request too large" ].

Definition imageDimensionPatterns : list errorPattern :=
  [ rxp (ALitFold "image dimensions exceed max") ].

Definition imageSizePatterns : list errorPattern :=
  [ rxp (ALitFold "image exceeds" ++ [AStar cAny] ++ ALitFold "mb") ].

Definition transientStatusCodes : list Z := [500; 502; 503; 521; 522; 523; 524; 529].

(** ** Classification *)

Definition matches (msg : string) (p : errorPattern) : bool :=
  match p with
  | rxp r => MatchString r msg
  | substr s => if String.eqb s "" then false else Contains msg s
  end.

Fixpoint matchesAny (msg : string) (patterns : list errorPattern) : bool :=
  match patterns with
  | [] => false
  | p :: ps => if matches msg p then true else matchesAny msg ps
  end.

Definition IsImageDimensionError (msg : string) : bool := matchesAny msg imageDimensionPatterns.
Definition IsImageSizeError (msg : string) : bool := matchesAny msg imageSizePatterns.

(** The runes other than digits are skipped. *)
Definition parseDigits (s : string) : Z :=
  fold_left (fun n c => if is_digit c then n * 10 + (code c - 48) else n) (chars s) 0.

Fixpoint extractFrom (ps : list regex) (msg : string) : Z :=
  match ps with
  | [] => 0
  | p :: ps' => match FindSubmatch p msg with
                | Some m => parseDigits m
                | None => extractFrom ps' msg
                end
  end.

Definition extractHTTPStatus (msg : string) : Z := extractFrom httpStatusPatterns msg.

Definition classifyByStatus (status : Z) : option FailoverReason :=
  if (status =? 401) || (status =? 403) then Some FailoverAuth
  else if status =? 402 then Some FailoverBilling
  else if status =? 408 then Some FailoverTimeout
  else if status =? 429 then Some FailoverRateLimit
  else if status =? 400 then Some FailoverFormat
  else if existsb (Z.eqb status) transientStatusCodes then Some FailoverTimeout
  else None.

Definition classifyByMessage (msg : string) : option FailoverReason :=
  if matchesAny msg rateLimitPatterns then Some FailoverRateLimit
  else if matchesAny msg overloadedPatterns then Some FailoverRateLimit
  else if matchesAny msg billingPatterns then Some FailoverBilling
  else if matchesAny msg timeoutPatterns then Some FailoverTimeout
  else if matchesAny msg authPatterns then Some FailoverAuth
  else if matchesAny msg formatPatterns then Some FailoverFormat
  else if matchesAny msg contextOverflowPatterns then Some FailoverContextOverflow
  else None.

Definition ClassifyError (err : option error) (provider model : string) : option FailoverError :=
  match err with
  | None => None
  | Some ErrCanceled => None
  | Some (ErrDeadlineExceeded as e) => Some (mkFailoverError FailoverTimeout provider model 0 e)
  | Some e =>
      let msg := ToLower (Error e) in
      if IsImageDimensionError msg || IsImageSizeError msg
      then Some (mkFailoverError FailoverFormat provider model 0 e)
      else
        let status := extractHTTPStatus msg in
        match (if 0 <? status then classifyByStatus status else None) with
        | Some reason => Some (mkFailoverError reason provider model status e)
        | None =>
            match classifyByMessage msg with
            | Some reason => Some (mkFailoverError reason provider model 0 e)
            | None => None
            end
        end
  end.

Definition IsCodexUsageExhausted (err : option error) : bool :=
  match ClassifyError err "codex" "" with
  | None => false
  | Some f => bool_decide (fe_Reason f = FailoverRateLimit) || bool_decide (fe_Reason f = FailoverBilling)
  end.

(** ** Lemmas *)

Lemma is_digit_bounds c : is_digit c = true -> 48 <= code c <= 57.
Proof. unfold is_digit, between. intros H; breflect; lia. Qed.

Lemma digit_not_sep c : is_digit c = true -> cColonSpace c = false.
Proof.
  intros H. assert (X : implb (is_digit c) (negb (cColonSpace c)) = true).
  { revert c H. intros c _. revert c. apply byte_forall. vm_compute. reflexivity. }
  rewrite H in X. by apply negb_true_iff in X.
Qed.

Lemma digit_lower c : is_digit c = true -> lower_byte c = c.
Proof.
  intros H. apply lower_byte_id. unfold is_upper, between. apply is_digit_bounds in H.
  apply andb_false_iff. left. apply Z.leb_gt. lia.
Qed.

(** The match at the first position wins. *)
Lemma m_find_here r prev l res :
  m_re r prev (Cap false []) l = Some res -> m_find r prev l = Some res.
Proof. intros H. destruct l; simpl; by rewrite H. Qed.

(** If the pattern matches at some suffix, whatever comes before, it is found. *)
Lemma m_find_suffix r a l :
  (forall prev, is_Some (m_re r prev (Cap false []) l)) ->
  forall prev, is_Some (m_find r prev (a ++ l)).
Proof.
  intros H. induction a as [|c a IH]; intros prev; simpl.
  - destruct (H prev) as [x Hx]. rewrite (m_find_here _ _ _ _ Hx). eauto.
  - destruct (m_re r prev _ _); eauto.
Qed.

Lemma m_re_litfold p q r prev cp l :
  map lower_byte p = map lower_byte q ->
  (forall prev cp, is_Some (m_re r prev cp l)) ->
  is_Some (m_re (map (fun c => ACls (fun d => Ascii.eqb (lower_byte c) (lower_byte d))) p ++ r)
             prev cp (q ++ l)).
Proof.
  revert q prev cp; induction p as [|c p IH]; intros [|d q] prev cp Hpq Hr; simplify_eq/=; [done|].
  rewrite H, Ascii.eqb_refl. by apply IH.
Qed.

(** A case-insensitive literal is found where the text contains it. *)
Lemma MatchString_litfold p s :
  Contains s (ToLower p) = true -> MatchString (ALitFold p) s = true.
Proof.
  rewrite Contains_spec. intros (a & b & ->). unfold MatchString.
  rewrite !chars_app, chars_ToLower.
  edestruct (m_find_suffix (ALitFold p) (chars a) (map lower_byte (chars p) ++ chars b)) as [x Hx].
  - intros prev. unfold ALitFold.
    rewrite <- (app_nil_r (map _ (chars p))). apply m_re_litfold.
    + rewrite map_map. symmetry. apply map_ext, lower_byte_idem.
    + intros; simpl; eauto.
  - by rewrite Hx.
Qed.

(** ["status: "] and three digits are read as that status, whatever follows. *)
Lemma extractHTTPStatus_status d1 d2 d3 rest :
  is_digit d1 = true -> is_digit d2 = true -> is_digit d3 = true ->
  extractHTTPStatus (ToLower ("status: " +:+ implode [d1; d2; d3] +:+ rest)) =
  100 * (code d1 - 48) + 10 * (code d2 - 48) + (code d3 - 48).
Proof.
  intros H1 H2 H3. unfold extractHTTPStatus, httpStatusPatterns, extractFrom, FindSubmatch.
  rewrite !ToLower_app, !chars_app, !chars_ToLower, chars_implode.
  cbn [map]. rewrite !digit_lower by done. erewrite m_find_here.
  2:{ cbn. rewrite (digit_not_sep d1 H1). unfold cDigit. rewrite H1. cbn.
      rewrite H2. cbn. rewrite H3. cbn. reflexivity. }
  unfold parseDigits. rewrite chars_implode. cbn. rewrite H1, H2, H3. lia.
Qed.

Lemma classifyByStatus_reasons st r :
  classifyByStatus st = Some r -> r <> FailoverOverloaded /\ r <> FailoverUnknown.
Proof. unfold classifyByStatus. intros H. repeat case_match; simplify_eq; done. Qed.

Lemma classifyByMessage_reasons msg r :
  classifyByMessage msg = Some r -> r <> FailoverOverloaded /\ r <> FailoverUnknown.
Proof. unfold classifyByMessage. intros H. repeat case_match; simplify_eq; done. Qed.

(** Except for the two context errors, only the lower-cased text counts. *)
Lemma ClassifyError_text e p m :
  e <> ErrCanceled -> e <> ErrDeadlineExceeded ->
  ClassifyError (Some e) p m =
    let msg := ToLower (Error e) in
    if IsImageDimensionError msg || IsImageSizeError msg
    then Some (mkFailoverError FailoverFormat p m 0 e)
    else match (if 0 <? extractHTTPStatus msg then classifyByStatus (extractHTTPStatus msg) else None) with
         | Some reason => Some (mkFailoverError reason p m (extractHTTPStatus msg) e)
         | None => (fun reason => mkFailoverError reason p m 0 e) <$> classifyByMessage msg
         end.
Proof. intros H1 H2. destruct e; try done; simpl; repeat case_match; simplify_eq; done. Qed.

(** ** Properties *)

(** An error text that starts with a status line is classified by that
    status code, whatever text follows (image errors apart). *)
Theorem ClassifyError_status d1 d2 d3 rest p m r :
  is_digit d1 = true -> is_digit d2 = true -> is_digit d3 = true ->
  let text := "Status: " +:+ implode [d1; d2; d3] +:+ rest in
  let status := 100 * (code d1 - 48) + 10 * (code d2 - 48) + (code d3 - 48) in
  IsImageDimensionError (ToLower text) = false -> IsImageSizeError (ToLower text) = false ->
  classifyByStatus status = Some r ->
  ClassifyError (Some (ErrText text)) p m = Some (mkFailoverError r p m status (ErrText text)).
Proof.
  intros H1 H2 H3 text status Hd Hs Hr.
  rewrite ClassifyError_text by done. cbn [Error]. rewrite Hd, Hs. cbn [orb].
  assert (Hx : extractHTTPStatus (ToLower text) = status).
  { unfold text. rewrite !ToLower_app. change (ToLower "Status: ") with (ToLower "status: ").
    rewrite <- !ToLower_app. by apply extractHTTPStatus_status. }
  rewrite Hx, Hr.
  destruct (Z.ltb_spec 0 status) as [|Hle]; [done|].
  exfalso. revert Hr. pose proof (is_digit_bounds _ H1). pose proof (is_digit_bounds _ H2).
  pose proof (is_digit_bounds _ H3). assert (status = 0) as -> by (unfold status in *; lia). done.
Qed.

Lemma ClassifyError_status_witness :
  let text := "Status: 503 Service Unavailable" in
  ClassifyError (Some (ErrText text)) "openai" "gpt" =
  Some (mkFailoverError FailoverTimeout "openai" "gpt" 503 (ErrText text)).
Proof.
  apply (ClassifyError_status "5" "0" "3" " Service Unavailable" "openai" "gpt" FailoverTimeout);
    reflexivity.
Defined.

(** An image-dimension error is a format error, so never retried, even
    when its text also carries a retriable status or message; and a user
    abort is never classified. *)
Theorem image_dimension_not_retried e p m :
  e <> ErrCanceled -> e <> ErrDeadlineExceeded ->
  Contains (ToLower (Error e)) "image dimensions exceed max" = true ->
  exists f, ClassifyError (Some e) p m = Some f /\ fe_Reason f = FailoverFormat /\
    IsRetriable f = false /\ fe_Wrapped f = e /\ ClassifyError (Some ErrCanceled) p m = None.
Proof.
  intros H1 H2 Hc. exists (mkFailoverError FailoverFormat p m 0 e).
  split; [|by split_and!]. rewrite ClassifyError_text by done. cbv zeta.
  assert (IsImageDimensionError (ToLower (Error e)) = true) as ->; [|done].
  unfold IsImageDimensionError, imageDimensionPatterns, matchesAny, matches.
  by rewrite MatchString_litfold.
Qed.

Lemma image_dimension_not_retried_witness :
  exists f, ClassifyError (Some (ErrText "HTTP 429: Image dimensions exceed max (8000)")) "a" "b" = Some f
            /\ IsRetriable f = false.
Proof.
  destruct (image_dimension_not_retried (ErrText "HTTP 429: Image dimensions exceed max (8000)") "a" "b")
    as (f & H & _ & Hr & _); [discriminate | discriminate | vm_compute; reflexivity|].
  exists f. split; [exact H | exact Hr].
Defined.

(** A classified error keeps the provider, the model and the error itself,
    carries one of the six reasons the classifier knows, and a status only if
    that status gave the reason; two texts that differ in case only are
    classified alike. *)
Theorem ClassifyError_sound e p m f :
  ClassifyError (Some e) p m = Some f ->
  fe_Provider f = p /\ fe_Model f = m /\ fe_Wrapped f = e /\
  fe_Reason f <> FailoverOverloaded /\ fe_Reason f <> FailoverUnknown /\
  (fe_Status f <> 0 -> 0 < fe_Status f /\ classifyByStatus (fe_Status f) = Some (fe_Reason f)) /\
  forall t, EqualFold t (Error e) = true -> e <> ErrDeadlineExceeded ->
    ClassifyError (Some (ErrText t)) p m =
    Some (mkFailoverError (fe_Reason f) p m (fe_Status f) (ErrText t)).
Proof.
  intros H. assert (e = ErrDeadlineExceeded \/ e <> ErrDeadlineExceeded) as [->|Hd]
    by (destruct e; (by left) || by right).
  { simpl in H. simplify_eq. by split_and!. }
  assert (Hc : e <> ErrCanceled) by (intros ->; done).
  rewrite ClassifyError_text in H by done. cbv zeta in H.
  assert (Ht : forall t, EqualFold t (Error e) = true -> ToLower t = ToLower (Error e))
    by (intros t; apply String.eqb_eq).
  destruct (IsImageDimensionError _ || IsImageSizeError _) eqn:Ei.
  { simplify_eq/=. split_and!; try done. intros t Hf _.
    by rewrite (Ht t Hf), Ei. }
  destruct (if 0 <? _ then _ else _) as [r|] eqn:Es.
  - destruct (Z.ltb_spec 0 (extractHTTPStatus (ToLower (Error e)))); [|done]. simplify_eq/=.
    destruct (classifyByStatus_reasons _ _ Es). split_and!; try done.
    intros t Hf _. rewrite (Ht t Hf), Ei, Es.
    by destruct (Z.ltb_spec 0 (extractHTTPStatus (ToLower (Error e)))); [|lia].
  - destruct (classifyByMessage _) as [r|] eqn:Em; simplify_eq/=.
    destruct (classifyByMessage_reasons _ _ Em). split_and!; try done.
    intros t Hf _. by rewrite (Ht t Hf), Ei, Es, Em.
Qed.

Lemma ClassifyError_sound_witness :
  ClassifyError (Some (ErrText "RATE LIMIT reached")) "x" "y" =
  Some (mkFailoverError FailoverRateLimit "x" "y" 0 (ErrText "RATE LIMIT reached")).
Proof.
  destruct (ClassifyError_sound (ErrText "Rate limit reached") "x" "y"
    (mkFailoverError FailoverRateLimit "x" "y" 0 (ErrText "Rate limit reached")))
    as (_ & _ & _ & _ & _ & _ & H); [vm_compute; reflexivity|].
  apply (H "RATE LIMIT reached"); [vm_compute; reflexivity | discriminate].
Defined.

Example classify_examples :
  let reason s := fe_Reason <$> ClassifyError (Some (ErrText s)) "p" "m" in
  reason "HTTP/1.1 402 Payment Required" = Some FailoverBilling /\
  reason "400: maximum context length is 8192" = Some FailoverFormat /\
  reason "maximum context length exceeded" = Some FailoverContextOverflow /\
  reason "quota for project exceeded your current quota" = Some FailoverRateLimit /\
  reason "hello" = None.
Proof. vm_compute. auto. Qed.
