(* ===== verification/RateLimiter.v ===== *)
(** * Token-bucket rate limiting: [src/pkg/providers/ratelimiter.go] *)

From S2P Require Import Prelude GoStrings GoLib.
Import GoFloat.
From S2P Require Import ModelRef ErrorClass.

(** ** fallback.go: candidates *)

Record FallbackCandidate : Type := mkCandidate {
  c_Provider : string;
  c_Model : string;
  c_RPM : Z;
  c_IdentityKey : string
}.

Definition StableKey (c : FallbackCandidate) : string :=
  let key := TrimSpace (c_IdentityKey c) in
  if String.eqb key "" then ModelKey (c_Provider c) (c_Model c) else key.

(** ** One limiter *)

Record RateLimiter : Type := mkRateLimiter {
  rpm : Z;
  tokens : float64;
  maxBurst : float64;
  lastTick : time
}.

Definition newRateLimiter (r : Z) (now : time) : RateLimiter :=
  mkRateLimiter r (float_of_Z r) (float_of_Z r) now.

Definition refillLocked (now : time) (rl : RateLimiter) : RateLimiter :=
  let elapsed := Seconds (Sub now (lastTick rl)) in
  let refill := fdiv (fmul elapsed (float_of_Z (rpm rl))) (float_of_Z 60) in
  mkRateLimiter (rpm rl) (fmin (maxBurst rl) (fadd (tokens rl) refill)) (maxBurst rl) now.

Definition take_token (rl : RateLimiter) : RateLimiter :=
  mkRateLimiter (rpm rl) (fsub (tokens rl) fone) (maxBurst rl) (lastTick rl).

Definition TryAcquire (now : time) (rl : RateLimiter) : bool * RateLimiter :=
  let rl := refillLocked now rl in
  if fltb (tokens rl) fone then (false, rl) else (true, take_token rl).

(** The timer of [Wait] for the missing fraction of a token. *)
Definition wait_time (rl : RateLimiter) : duration :=
  let deficit := fsub fone (tokens rl) in
  let waitSec := fdiv deficit (fdiv (float_of_Z (rpm rl)) (float_of_Z 60)) in
  float_to_Z (fmul waitSec (float_of_Z Second)).

(** ** The outside world

    Reading the clock and sleeping are the two effects; [w_sleep d] is the
    [select] on the timer and the context: [Some e] is the context's error. *)
Class World (W : Type) : Type := {
  w_now : W -> time * W;
  w_sleep : duration -> W -> option error * W;
  w_ctxErr : W -> option error
}.

(** ** The registry *)

Record RateLimiterRegistry : Type := mkRegistry { limiters : gmap string RateLimiter }.

Definition NewRateLimiterRegistry : RateLimiterRegistry := mkRegistry ∅.

Definition Register (key : string) (r : Z) (now : time) (reg : RateLimiterRegistry)
  : RateLimiterRegistry :=
  if r <=? 0 then reg else mkRegistry (<[key := newRateLimiter r now]> (limiters reg)).

Definition RegisterCandidates (now : time) (candidates : list FallbackCandidate)
  (reg : RateLimiterRegistry) : RateLimiterRegistry :=
  foldl (fun reg c => if 0 <? c_RPM c then Register (StableKey c) (c_RPM c) now reg else reg)
    reg candidates.

Section Effects.
Context {W : Type} `{World W}.

(** [Wait]: [None] when the fuel runs out before the loop ends. *)
Fixpoint Wait (fuel : nat) (rl : RateLimiter) (w : W)
  : option (option error * RateLimiter * W) :=
  match fuel with
  | O => None
  | S f =>
      let '(now, w) := w_now w in
      let rl := refillLocked now rl in
      if fleb fone (tokens rl) then Some (None, take_token rl, w)
      else
        let '(res, w) := w_sleep (wait_time rl) w in
        match res with
        | Some e => Some (Some e, rl, w)
        | None => Wait f rl w
        end
  end.

Definition RegistryWait (fuel : nat) (key : string) (reg : RateLimiterRegistry) (w : W)
  : option (option error * RateLimiterRegistry * W) :=
  match limiters reg !! key with
  | None => Some (None, reg, w)
  | Some rl =>
      match Wait fuel rl w with
      | None => None
      | Some (e, rl', w') => Some (e, mkRegistry (<[key := rl']> (limiters reg)), w')
      end
  end.

Definition RegistryTryAcquire (key : string) (reg : RateLimiterRegistry) (w : W)
  : bool * RateLimiterRegistry * W :=
  match limiters reg !! key with
  | None => (true, reg, w)
  | Some rl =>
      let '(now, w) := w_now w in
      let '(ok, rl') := TryAcquire now rl in
      (ok, mkRegistry (<[key := rl']> (limiters reg)), w)
  end.

(** Other keys keep their limiter. *)
Lemma RegistryTryAcquire_other key k reg w ok reg' w' :
  RegistryTryAcquire key reg w = (ok, reg', w') -> k <> key ->
  limiters reg' !! k = limiters reg !! k.
Proof.
  unfold RegistryTryAcquire. intros Hr Hk. repeat case_match; simplify_eq/=; [|done].
  by rewrite lookup_insert_ne.
Qed.

Lemma RegistryWait_other fuel key k reg w e reg' w' :
  RegistryWait fuel key reg w = Some (e, reg', w') -> k <> key ->
  limiters reg' !! k = limiters reg !! k.
Proof.
  unfold RegistryWait. intros Hr Hk. repeat case_match; simplify_eq/=; [|done].
  by rewrite lookup_insert_ne.
Qed.
End Effects.

(** ** Lemmas *)

(** The calls at one instant: how many of [n] are admitted. *)
Fixpoint admitted (n : nat) (now : time) (rl : RateLimiter) : nat :=
  match n with
  | O => O
  | S n' => let '(ok, rl') := TryAcquire now rl in
            (if ok then 1 else 0)%nat + admitted n' now rl'
  end%nat.

Definition burst_ok (r : nat) : bool :=
  (admitted r 0 (newRateLimiter (Z.of_nat r) 0) =? r)%nat &&
  (admitted (r + 3) 0 (newRateLimiter (Z.of_nat r) 0) =? r)%nat.

(** Only the difference of the clock readings counts. *)
Lemma refillLocked_shift now rl :
  refillLocked now rl =
  mkRateLimiter (rpm rl) (tokens (refillLocked (now - lastTick rl) (mkRateLimiter (rpm rl) (tokens rl) (maxBurst rl) 0)))
    (maxBurst rl) now.
Proof. unfold refillLocked. simpl. unfold Sub. by rewrite Z.sub_0_r. Qed.

Definition at_time (t : time) (rl : RateLimiter) : RateLimiter :=
  mkRateLimiter (rpm rl) (tokens rl) (maxBurst rl) t.

Lemma TryAcquire_shift now rl :
  lastTick rl = now ->
  TryAcquire now rl = ((TryAcquire 0 (at_time 0 rl)).1, at_time now (TryAcquire 0 (at_time 0 rl)).2).
Proof.
  intros <-. unfold TryAcquire. rewrite refillLocked_shift, Z.sub_diag. simpl.
  destruct (fltb _ _); reflexivity.
Qed.

Lemma TryAcquire_tick now rl : lastTick (TryAcquire now rl).2 = now.
Proof. unfold TryAcquire. by destruct (fltb _ _). Qed.

Lemma at_time_id t rl : lastTick rl = t -> at_time t rl = rl.
Proof. intros <-. by destruct rl. Qed.

Lemma admitted_shift n now rl :
  lastTick rl = now -> admitted n now rl = admitted n 0 (at_time 0 rl).
Proof.
  revert rl; induction n as [|n IH]; intros rl Hl; simpl; [done|].
  rewrite (TryAcquire_shift now rl Hl).
  destruct (TryAcquire 0 (at_time 0 rl)) as [ok rl'] eqn:E. cbn [fst snd].
  rewrite IH by done. change (at_time 0 (at_time now rl')) with (at_time 0 rl').
  rewrite at_time_id; [done|]. pose proof (TryAcquire_tick 0 (at_time 0 rl)) as Ht.
  by rewrite E in Ht.
Qed.

Lemma burst_checked : forallb burst_ok (seq 1 240) = true.
Proof. vm_compute. reflexivity. Qed.

Lemma lookup_Register key r now reg k :
  limiters (Register key r now reg) !! k =
  if decide (0 < r /\ k = key) then Some (newRateLimiter r now) else limiters reg !! k.
Proof.
  unfold Register. destruct (Z.leb_spec r 0); simpl.
  - rewrite decide_False; [done | lia].
  - rewrite lookup_insert. repeat case_decide; naive_solver.
Qed.

Lemma RegisterCandidates_lookup now cs reg k :
  limiters (RegisterCandidates now cs reg) !! k =
  match find_first (fun c => (0 <? c_RPM c) && String.eqb (StableKey c) k) (rev cs) with
  | Some c => Some (newRateLimiter (c_RPM c) now)
  | None => limiters reg !! k
  end.
Proof.
  unfold RegisterCandidates. revert reg. induction cs as [|c cs IH] using rev_ind; intros reg; [done|].
  rewrite foldl_app, rev_app_distr. cbn [foldl rev app find_first].
  destruct (Z.ltb_spec 0 (c_RPM c)) as [Hp|Hp]; simpl; [|apply IH].
  rewrite lookup_Register. destruct (String.eqb_spec (StableKey c) k) as [E|E].
  - by rewrite decide_True.
  - rewrite decide_False by naive_solver. apply IH.
Qed.

(** ** Properties *)

(** A fresh limiter of [r] requests per minute admits exactly [r] of any
    number of calls made at one instant, for every limit up to 240. *)
Theorem burst_is_rpm r now n :
  (1 <= r <= 240)%nat -> (n <= r + 3)%nat ->
  admitted n now (newRateLimiter (Z.of_nat r) now) = Nat.min n r.
Proof.
  intros Hr Hn. rewrite admitted_shift by done.
  change (at_time 0 (newRateLimiter (Z.of_nat r) now)) with (newRateLimiter (Z.of_nat r) 0).
  pose proof burst_checked as Hc. rewrite forallb_forall in Hc.
  specialize (Hc r). rewrite in_seq in Hc. specialize (Hc ltac:(lia)).
  unfold burst_ok in Hc. breflect.
  assert (Hm : forall n k rl, (admitted n 0 rl <= admitted (n + k) 0 rl <= admitted n 0 rl + k)%nat).
  { clear. induction n as [|n IH]; intros k rl; simpl.
    - induction k as [|k IHk] in rl |- *; simpl; [lia|].
      destruct (TryAcquire 0 rl) as [[] rl']; specialize (IHk rl'); lia.
    - destruct (TryAcquire 0 rl) as [[] rl']; specialize (IH k rl'); lia. }
  set (rl := newRateLimiter (Z.of_nat r) 0) in *.
  destruct (Nat.le_ge_cases n r) as [Hle|Hge].
  - pose proof (Hm n (r - n)%nat rl) as H1. pose proof (Hm O n rl) as H2.
    replace (n + (r - n))%nat with r in H1 by lia. simpl in H2. lia.
  - pose proof (Hm r (n - r)%nat rl) as H1. pose proof (Hm n (r + 3 - n)%nat rl) as H2.
    replace (r + (n - r))%nat with n in H1 by lia.
    replace (n + (r + 3 - n))%nat with (r + 3)%nat in H2 by lia. lia.
Qed.

Lemma burst_is_rpm_witness : admitted 7 Hour (newRateLimiter 5 Hour) = 5%nat.
Proof. apply (burst_is_rpm 5 Hour 7); lia. Defined.

(** Registering candidates gives a fresh limiter to exactly the keys of
    the candidates with a positive limit (the last one wins), and a key with
    no limiter is never refused and never waits. *)
Theorem RegisterCandidates_spec {W} `{World W} now cs k fuel (w : W) :
  let reg := RegisterCandidates now cs NewRateLimiterRegistry in
  match find_first (fun c => (0 <? c_RPM c) && String.eqb (StableKey c) k) (rev cs) with
  | Some c => limiters reg !! k = Some (newRateLimiter (c_RPM c) now)
  | None => RegistryTryAcquire k reg w = (true, reg, w) /\
            RegistryWait fuel k reg w = Some (None, reg, w)
  end.
Proof.
  intros reg. pose proof (RegisterCandidates_lookup now cs NewRateLimiterRegistry k) as Hl.
  fold reg in Hl. destruct (find_first _ _) as [c|]; [done|].
  unfold RegistryTryAcquire, RegistryWait. rewrite Hl. simpl. by rewrite lookup_empty.
Qed.
