(* ===== verification/Fallback.v ===== *)
(** * Model fallback: [src/pkg/providers/fallback.go]

    [Execute] and [ExecuteImage] thread the chain's state (cooldown tracker and
    rate limiters) and the outside world: the clock, the context and the [run]
    callback of the caller.  [None] means that the fuel given to the waiting
    loop of a rate limiter ran out. *)

From S2P Require Import Prelude GoStrings GoLib.
Import GoDuration GoFloat.
From S2P Require Import ModelRef Cooldown ErrorClass RateLimiter.

(** ** Candidate resolution *)

Record ModelConfig : Type := mkModelConfig { Primary : string; Fallbacks : list string }.

Definition addCandidate (defaultProvider : string) (lookup : option (string -> option string))
  (st : gset string * list FallbackCandidate) (raw : string) : gset string * list FallbackCandidate :=
  let '(seen, candidates) := st in
  let candidateRaw := TrimSpace raw in
  let candidateRaw :=
    match lookup with
    | Some f => match f candidateRaw with Some resolved => resolved | None => candidateRaw end
    | None => candidateRaw
    end in
  match ParseModelRef candidateRaw defaultProvider with
  | None => st
  | Some ref =>
      let key := ModelKey (Provider ref) (Model ref) in
      if bool_decide (key ∈ seen) then st
      else ({[key]} ∪ seen, candidates ++ [mkCandidate (Provider ref) (Model ref) 0 ""])
  end.

Definition ResolveCandidatesWithLookup (cfg : ModelConfig) (defaultProvider : string)
  (lookup : option (string -> option string)) : list FallbackCandidate :=
  let st := addCandidate defaultProvider lookup (∅, []) (Primary cfg) in
  (foldl (addCandidate defaultProvider lookup) st (Fallbacks cfg)).2.

Definition ResolveCandidates (cfg : ModelConfig) (defaultProvider : string)
  : list FallbackCandidate :=
  ResolveCandidatesWithLookup cfg defaultProvider None.

(** ** The chain *)

Record FallbackChain : Type := mkChain {
  cooldown : CooldownTracker;
  rl : option RateLimiterRegistry
}.

Definition NewFallbackChain (cd : CooldownTracker) (reg : option RateLimiterRegistry)
  : FallbackChain := mkChain cd reg.

Record FallbackResult (R : Type) : Type := mkResult {
  r_Response : R;
  r_Provider : string;
  r_Model : string;
  r_Attempts : list FallbackAttempt
}.
Arguments mkResult {R}.
Arguments r_Response {R}.
Arguments r_Provider {R}.
Arguments r_Model {R}.
Arguments r_Attempts {R}.

Definition skipped (c : FallbackCandidate) (e : error) : FallbackAttempt :=
  mkAttempt (c_Provider c) (c_Model c) (Some e) (Some FailoverRateLimit) 0 true.

Definition tried (c : FallbackCandidate) (e : error) (reason : option FailoverReason)
  (elapsed : duration) : FallbackAttempt :=
  mkAttempt (c_Provider c) (c_Model c) (Some e) reason elapsed false.

Definition is_canceled (e : option error) : bool :=
  match e with Some ErrCanceled => true | _ => false end.

Section Chain.
Context {W R : Type} `{World W}.

(** What one candidate leads to: the next one, or the end of the call. *)
Inductive verdict : Type :=
| VNext (a : FallbackAttempt)
| VStop (res : result error (FallbackResult R)).

(** The clock is read only for a provider with an entry. *)
Definition avail (key : string) (ch : FallbackChain) (w : W) : bool * W :=
  match entries (cooldown ch) !! key with
  | None => (true, w)
  | Some _ => let '(now, w) := w_now w in (IsAvailable now key (cooldown ch), w)
  end.

Definition remaining (key : string) (ch : FallbackChain) (w : W) : duration * W :=
  match entries (cooldown ch) !! key with
  | None => (0, w)
  | Some _ => let '(now, w) := w_now w in (CooldownRemaining now key (cooldown ch), w)
  end.

(** The local rate limit: [inl None] to go ahead, [inl (Some v)] to leave
    the candidate with verdict [v]. *)
Definition acquire (fuel : nat) (is_last : bool) (c : FallbackCandidate) (key : string)
  (ch : FallbackChain) (w : W) : option (option verdict * FallbackChain * W) :=
  match rl ch with
  | None => Some (None, ch, w)
  | Some reg =>
      let '(ok, reg, w) := RegistryTryAcquire key reg w in
      let ch := mkChain (cooldown ch) (Some reg) in
      if ok then Some (None, ch, w)
      else if negb is_last then
        Some (Some (VNext (skipped c (ErrText (key +:+ " waiting for local rate limit token")))), ch, w)
      else
        match RegistryWait fuel key reg w with
        | None => None
        | Some (waitErr, reg, w) =>
            let ch := mkChain (cooldown ch) (Some reg) in
            match waitErr with
            | Some e => Some (Some (VStop (Err e)), ch, w)
            | None => Some (None, ch, w)
            end
        end
  end.

Context (run : string -> string -> W -> (R + error) * W).

(** [start := time.Now(); resp, err := run(...); elapsed := time.Since(start)] *)
Definition timed_run (c : FallbackCandidate) (w : W) : (R + error) * duration * W :=
  let '(start, w) := w_now w in
  let '(res, w) := run (c_Provider c) (c_Model c) w in
  let '(stop, w) := w_now w in
  (res, Sub stop start, w).

Definition with_cooldown (ch : FallbackChain) (cd : CooldownTracker) : FallbackChain :=
  mkChain cd (rl ch).

Definition try_candidate (fuel : nat) (is_last : bool) (attempts : list FallbackAttempt)
  (c : FallbackCandidate) (ch : FallbackChain) (w : W) : option (verdict * FallbackChain * W) :=
  if is_canceled (w_ctxErr w) then Some (VStop (Err ErrCanceled), ch, w)
  else
    let key := StableKey c in
    let '(ok, w) := avail key ch w in
    if negb ok then
      let '(rem, w) := remaining key ch w in
      let text := key +:+ " in cooldown (" +:+ DurationString (Round rem Second) +:+ " remaining)" in
      Some (VNext (skipped c (ErrText text)), ch, w)
    else
      match acquire fuel is_last c key ch w with
      | None => None
      | Some (Some v, ch, w) => Some (v, ch, w)
      | Some (None, ch, w) =>
          let '(res, elapsed, w) := timed_run c w in
          match res with
          | inl resp =>
              Some (VStop (Ok (mkResult resp (c_Provider c) (c_Model c) attempts)),
                    with_cooldown ch (MarkSuccess key (cooldown ch)), w)
          | inr err =>
              if is_canceled (w_ctxErr w) then Some (VStop (Err ErrCanceled), ch, w)
              else
                match ClassifyError (Some err) (c_Provider c) (c_Model c) with
                | None =>
                    Some (VStop (Err (ErrWrap ("fallback: unclassified error from " +:+ c_Provider c
                            +:+ "/" +:+ c_Model c +:+ ": " +:+ Error err) err)), ch, w)
                | Some failErr =>
                    if negb (IsRetriable failErr) then Some (VStop (Err (ErrFailover failErr)), ch, w)
                    else
                      let '(now, w) := w_now w in
                      let ch := with_cooldown ch (MarkFailure now key (fe_Reason failErr) (cooldown ch)) in
                      let a := tried c (ErrFailover failErr) (Some (fe_Reason failErr)) elapsed in
                      if is_last then Some (VStop (Err (ErrExhausted (attempts ++ [a]))), ch, w)
                      else Some (VNext a, ch, w)
                end
          end
      end.

Definition is_nil {A} (l : list A) : bool := match l with [] => true | _ => false end.

Fixpoint exec_loop (step : bool -> list FallbackAttempt -> FallbackCandidate -> FallbackChain -> W ->
                           option (verdict * FallbackChain * W))
  (cs : list FallbackCandidate) (attempts : list FallbackAttempt) (ch : FallbackChain) (w : W)
  : option (result error (FallbackResult R) * FallbackChain * W) :=
  match cs with
  | [] => Some (Err (ErrExhausted attempts), ch, w)
  | c :: cs' =>
      match step (is_nil cs') attempts c ch w with
      | None => None
      | Some (VStop r, ch, w) => Some (r, ch, w)
      | Some (VNext a, ch, w) => exec_loop step cs' (attempts ++ [a]) ch w
      end
  end.

Definition Execute (fuel : nat) (candidates : list FallbackCandidate) (ch : FallbackChain) (w : W)
  : option (result error (FallbackResult R) * FallbackChain * W) :=
  match candidates with
  | [] => Some (Err (ErrText "fallback: no candidates configured"), ch, w)
  | _ => exec_loop (try_candidate fuel) candidates [] ch w
  end.

Definition try_image (fuel : nat) (is_last : bool) (attempts : list FallbackAttempt)
  (c : FallbackCandidate) (ch : FallbackChain) (w : W) : option (verdict * FallbackChain * W) :=
  if is_canceled (w_ctxErr w) then Some (VStop (Err ErrCanceled), ch, w)
  else
    match acquire fuel is_last c (StableKey c) ch w with
    | None => None
    | Some (Some v, ch, w) => Some (v, ch, w)
    | Some (None, ch, w) =>
        let '(res, elapsed, w) := timed_run c w in
        match res with
        | inl resp => Some (VStop (Ok (mkResult resp (c_Provider c) (c_Model c) attempts)), ch, w)
        | inr err =>
            if is_canceled (w_ctxErr w) then Some (VStop (Err ErrCanceled), ch, w)
            else
              let errMsg := ToLower (Error err) in
              if IsImageDimensionError errMsg || IsImageSizeError errMsg then
                Some (VStop (Err (ErrFailover (mkFailoverError FailoverFormat (c_Provider c)
                                                 (c_Model c) 0 err))), ch, w)
              else
                let a := tried c err None elapsed in
                if is_last then Some (VStop (Err (ErrExhausted (attempts ++ [a]))), ch, w)
                else Some (VNext a, ch, w)
        end
    end.

Definition ExecuteImage (fuel : nat) (candidates : list FallbackCandidate) (ch : FallbackChain) (w : W)
  : option (result error (FallbackResult R) * FallbackChain * W) :=
  match candidates with
  | [] => Some (Err (ErrText "image fallback: no candidates configured"), ch, w)
  | _ => exec_loop (try_image fuel) candidates [] ch w
  end.
End Chain.

Arguments verdict : clear implicits.

(** The context package: a canceled or expired context reports one of its two
    errors. *)
Class WorldLaws (W : Type) `{World W} : Prop := {
  sleep_err : forall d w e w', w_sleep d w = (Some e, w') -> e = ErrCanceled \/ e = ErrDeadlineExceeded
}.

(** ** Lemmas: resolution *)

Definition cand_key (c : FallbackCandidate) : string := ModelKey (c_Provider c) (c_Model c).

Definition resolve_raw (defaultProvider : string) (lookup : option (string -> option string))
  (raw : string) : option ModelRef :=
  let r := TrimSpace raw in
  ParseModelRef (match lookup with
                 | Some f => match f r with Some x => x | None => r end
                 | None => r
                 end) defaultProvider.

Definition ref_candidate (r : ModelRef) : FallbackCandidate := mkCandidate (Provider r) (Model r) 0 "".

Definition resolved_ok d lk (raws : list string) (st : gset string * list FallbackCandidate) : Prop :=
  (forall k, k ∈ st.1 <-> k ∈ map cand_key st.2) /\
  NoDup (map cand_key st.2) /\
  st.2 `sublist_of` map ref_candidate (omap (resolve_raw d lk) raws) /\
  (forall raw r, raw ∈ raws -> resolve_raw d lk raw = Some r -> cand_key (ref_candidate r) ∈ map cand_key st.2).

Lemma addCandidate_ok d lk raws st raw :
  resolved_ok d lk raws st -> resolved_ok d lk (raws ++ [raw]) (addCandidate d lk st raw).
Proof.
  destruct st as [seen cs]. intros (Hs & Hnd & Hsub & Hall). unfold addCandidate.
  change (ParseModelRef _ d) with (resolve_raw d lk raw).
  assert (Hap : forall rs, omap (resolve_raw d lk) (raws ++ [raw]) = rs ->
    rs = omap (resolve_raw d lk) raws ++ omap (resolve_raw d lk) [raw]) by (intros ? <-; apply omap_app).
  specialize (Hap _ eq_refl). unfold resolved_ok. rewrite Hap, map_app. clear Hap.
  destruct (resolve_raw d lk raw) as [r|] eqn:Er.
  - assert (Ho : omap (resolve_raw d lk) [raw] = [r]) by (simpl; by rewrite Er). rewrite Ho.
    case_bool_decide as Hin; simpl in *.
    + split_and!; [done | done | by apply sublist_inserts_r |].
      intros raw' r' [Hr' | ->%list_elem_of_singleton]%elem_of_app E; [by eapply Hall|].
      rewrite Er in E. simplify_eq. by apply Hs.
    + split_and!.
      * intros k. rewrite map_app, elem_of_app, elem_of_union, elem_of_singleton, Hs. simpl.
        rewrite list_elem_of_singleton. tauto.
      * rewrite map_app, NoDup_app. split_and!; [done | | simpl; apply NoDup_singleton].
        intros k Hk ->%list_elem_of_singleton. apply Hin. by apply Hs.
      * by apply sublist_app.
      * intros raw' r' [Hr' | ->%list_elem_of_singleton]%elem_of_app E; rewrite map_app, elem_of_app.
        -- left. by eapply Hall.
        -- right. rewrite Er in E. simplify_eq. simpl. by apply list_elem_of_singleton.
  - assert (Ho : omap (resolve_raw d lk) [raw] = []) by (simpl; by rewrite Er). rewrite Ho.
    simpl. rewrite app_nil_r. split_and!; [done..|].
    intros raw' r' [Hr' | ->%list_elem_of_singleton]%elem_of_app E; [by eapply Hall | congruence].
Qed.

Lemma resolve_ok d lk raws st raws' :
  resolved_ok d lk raws st -> resolved_ok d lk (raws ++ raws') (foldl (addCandidate d lk) st raws').
Proof.
  revert raws st; induction raws' as [|raw raws' IH]; intros raws st Hst; [by rewrite app_nil_r|].
  simpl. rewrite cons_middle, app_assoc. by apply IH, addCandidate_ok.
Qed.

Lemma resolved_ok_nil d lk : resolved_ok d lk [] (∅, []).
Proof. split_and!; simpl; [set_solver | constructor | constructor | set_solver]. Qed.

(** ** Lemmas: the loop *)

Definition same_model (c : FallbackCandidate) (a : FallbackAttempt) : Prop :=
  at_Provider a = c_Provider c /\ at_Model a = c_Model c.

(** What the tracker records of candidates that were gone through: nothing of
    one that was skipped, and of every other its failure, for the reason that
    the attempt has. *)
Inductive recorded : list FallbackCandidate -> list FallbackAttempt -> list cd_event -> Prop :=
| recorded_nil : recorded [] [] []
| recorded_skipped c a cs l evs : same_model c a -> at_Skipped a = true ->
    recorded cs l evs -> recorded (c :: cs) (a :: l) evs
| recorded_failed c a cs l evs now reason : same_model c a -> at_Skipped a = false -> at_Reason a = Some reason ->
    reason <> FailoverFormat -> reason <> FailoverContextOverflow ->
    recorded cs l evs -> recorded (c :: cs) (a :: l) (EvFailure now (StableKey c) reason :: evs).

Lemma recorded_app cs1 l1 evs1 cs2 l2 evs2 :
  recorded cs1 l1 evs1 -> recorded cs2 l2 evs2 -> recorded (cs1 ++ cs2) (l1 ++ l2) (evs1 ++ evs2).
Proof. intros H1 H2. induction H1; cbn [app]; [done | by constructor | by apply recorded_failed]. Qed.

#[local] Arguments ClassifyError : simpl never.

Section ChainFacts.
Context {W R : Type} `{World W, !WorldLaws W}.
Implicit Types (ch : FallbackChain) (w : W) (c : FallbackCandidate).

Lemma Wait_err fuel l w e l' w' :
  Wait fuel l w = Some (Some e, l', w') -> e = ErrCanceled \/ e = ErrDeadlineExceeded.
Proof.
  revert l w; induction fuel as [|f IH]; intros l w; simpl; [done|].
  destruct (w_now w) as [now w1]. destruct (fleb _ _); [done|].
  destruct (w_sleep _ w1) as [[e'|] w2] eqn:Es; [|apply IH].
  intros; simplify_eq. by eapply sleep_err.
Qed.

Lemma RegistryWait_err fuel k reg w e reg' w' :
  RegistryWait fuel k reg w = Some (Some e, reg', w') -> e = ErrCanceled \/ e = ErrDeadlineExceeded.
Proof.
  unfold RegistryWait. intros Hw. repeat case_match; simplify_eq. by eapply Wait_err.
Qed.

(** The rate limiter does not touch the tracker; it only skips the candidate
    or ends the call with the context's error. *)
Lemma acquire_spec fuel last c key ch w (v : option (verdict R)) ch' w' :
  acquire fuel last c key ch w = Some (v, ch', w') ->
  cooldown ch' = cooldown ch /\ (is_Some (rl ch') <-> is_Some (rl ch)) /\
  match v with
  | None => True
  | Some (VNext a) => last = false /\ exists e, a = skipped c e
  | Some (VStop r) => last = true /\ (r = Err ErrCanceled \/ r = Err ErrDeadlineExceeded)
  end.
Proof.
  unfold acquire. destruct (rl ch) as [reg|] eqn:Er; intros Ha; simplify_eq.
  2:{ rewrite Er. done. }
  destruct (RegistryTryAcquire key reg w) as [[ok reg1] w1].
  destruct ok; simplify_eq/=; [by split_and!|].
  destruct last; simplify_eq/=; [|split_and!; [done..|by eexists]].
  destruct (RegistryWait fuel key reg1 w1) as [[[e reg2] w2]|] eqn:Ew; [|done].
  destruct e as [e|]; simplify_eq/=; [|by split_and!].
  split_and!; [done..|]. apply RegistryWait_err in Ew as [-> | ->]; auto.
Qed.

Lemma acquire_none fuel last c key ch w :
  rl ch = None -> acquire (R := R) fuel last c key ch w = Some (None, ch, w).
Proof. unfold acquire. by intros ->. Qed.

Context (run : string -> string -> W -> (R + error) * W).

(** What a verdict may be. *)
Definition verdict_ok (last : bool) (ats : list FallbackAttempt) c (v : verdict R) : Prop :=
  match v with
  | VNext a => same_model c a
  | VStop (Ok r) => r_Attempts r = ats /\ r_Provider r = c_Provider c /\ r_Model r = c_Model c
  | VStop (Err (ErrExhausted l)) => last = true /\ exists a, l = ats ++ [a] /\ same_model c a
  | VStop (Err _) => True
  end.

Lemma acquire_verdict fuel last ats c key ch w (v : verdict R) ch' w' :
  acquire fuel last c key ch w = Some (Some v, ch', w') -> verdict_ok last ats c v.
Proof.
  intros (_ & _ & Hv)%acquire_spec. destruct v as [a|r]; simpl.
  - by destruct Hv as (_ & e & ->).
  - by destruct Hv as (_ & [-> | ->]).
Qed.

(** The effect of one candidate on the tracker. *)
Definition verdict_events (ats : list FallbackAttempt) c (v : verdict R) (evs : list cd_event) : Prop :=
  match v with
  | VNext a => recorded [c] [a] evs
  | VStop (Ok r) => evs = [EvSuccess (StableKey c)]
  | VStop (Err (ErrExhausted l)) => exists a, l = ats ++ [a] /\ recorded [c] [a] evs
  | VStop (Err _) => evs = []
  end.

Lemma IsRetriable_reason (f : FailoverError) :
  IsRetriable f = true -> fe_Reason f <> FailoverFormat /\ fe_Reason f <> FailoverContextOverflow.
Proof. unfold IsRetriable. intros Hr. breflect. done. Qed.

Lemma try_candidate_spec fuel last ats c ch w v ch' w' :
  try_candidate run fuel last ats c ch w = Some (v, ch', w') ->
  verdict_ok last ats c v /\
  exists evs, cooldown ch' = foldl cd_step (cooldown ch) evs /\ verdict_events ats c v evs.
Proof.
  unfold try_candidate. destruct (is_canceled (w_ctxErr w)); intros Ht.
  { simplify_eq. split; [done|]. by exists []. }
  destruct (avail (StableKey c) ch w) as [ok w1]. destruct ok; simpl in Ht.
  2:{ destruct (remaining (StableKey c) ch w1) as [rem w2]. simplify_eq. split; [done|]. exists []. split; [done|].
     by repeat constructor. }
  destruct (acquire (R := R) fuel last c (StableKey c) ch w1) as [[[[v1|] ch1] w2]|] eqn:Ea;
    simplify_eq.
  { split; [by eapply acquire_verdict|]. apply acquire_spec in Ea as (Hc & _ & Hv).
    exists []. split; [done|]. destruct v as [a|r]; simpl.
    - destruct Hv as (_ & e & ->). by repeat constructor.
    - by destruct Hv as (_ & [-> | ->]). }
  apply acquire_spec in Ea as (Hc & _ & _). rewrite <- Hc. clear Hc.
  destruct (timed_run run c w2) as [[res el] w3]. destruct res as [resp|err].
  { simplify_eq. split; [done|]. by exists [EvSuccess (StableKey c)]. }
  destruct (is_canceled (w_ctxErr w3)); [simplify_eq; split; [done|]; by exists []|].
  destruct (ClassifyError (Some err) (c_Provider c) (c_Model c)) as [f|]; [|simplify_eq; split; [done|]; by exists []].
  destruct (IsRetriable f) eqn:Er; simpl in Ht; [|simplify_eq; split; [done|]; by exists []].
  apply IsRetriable_reason in Er.
  destruct (w_now w3) as [now w4]. destruct last; simplify_eq;
    (split; [by repeat first [split | eexists] | ]);
    exists [EvFailure now (StableKey c) (fe_Reason f)]; (split; [done|]); simpl.
  - eexists. split; [done|]. destruct Er. apply recorded_failed; [done..|constructor].
  - destruct Er. apply recorded_failed; [done..|constructor].
Qed.

Lemma try_image_spec fuel last ats c ch w v ch' w' :
  try_image run fuel last ats c ch w = Some (v, ch', w') ->
  verdict_ok last ats c v /\ cooldown ch' = cooldown ch.
Proof.
  unfold try_image. destruct (is_canceled (w_ctxErr w)); intros Ht; [by simplify_eq|].
  destruct (acquire (R := R) fuel last c (StableKey c) ch w) as [[[[v1|] ch1] w2]|] eqn:Ea;
    simplify_eq.
  { split; [by eapply acquire_verdict|]. by apply acquire_spec in Ea as (Hc & _). }
  apply acquire_spec in Ea as (Hc & _ & _).
  destruct (timed_run run c w2) as [[res el] w3]. destruct res as [resp|err]; [by simplify_eq|].
  destruct (is_canceled (w_ctxErr w3)); [by simplify_eq|].
  destruct (_ || _); [by simplify_eq|].
  destruct last; simplify_eq; (split; [by repeat first [split | eexists] | done]).
Qed.

(** The shape of the outcome, for any step with lawful verdicts. *)
Definition outcome_ok (cs : list FallbackCandidate) (ats : list FallbackAttempt)
  (res : result error (FallbackResult R)) : Prop :=
  match res with
  | Ok r => exists pre c post l, cs = pre ++ c :: post /\ r_Attempts r = ats ++ l /\
              Forall2 same_model pre l /\ r_Provider r = c_Provider c /\ r_Model r = c_Model c
  | Err (ErrExhausted l) => exists l', l = ats ++ l' /\ Forall2 same_model cs l'
  | Err _ => True
  end.

Lemma exec_loop_outcome step cs ats ch w res ch' w' :
  (forall last ats c ch w v ch' w',
      step last ats c ch w = Some (v, ch', w') -> verdict_ok last ats c v) ->
  exec_loop step cs ats ch w = Some (res, ch', w') -> outcome_ok cs ats res.
Proof.
  intros Hstep. revert ats ch w; induction cs as [|c cs IH]; intros ats ch w Hl; cbn [exec_loop] in Hl.
  { simplify_eq. simpl. exists []. by rewrite app_nil_r. }
  destruct (step (is_nil cs) ats c ch w) as [[[v ch1] w1]|] eqn:Es; [|done].
  apply Hstep in Es. destruct v as [a|r].
  - apply IH in Hl. destruct res as [r|[]]; simpl in *; try done.
    + destruct Hl as (pre & c' & post & l & -> & Hr & HF & Hp). exists (c :: pre), c', post, (a :: l).
      rewrite Hr, <- app_assoc. split_and!; [done | done | by constructor | apply Hp..].
    + destruct Hl as (l' & -> & HF). exists (a :: l'). rewrite <- app_assoc. split; [done|].
      by constructor.
  - simplify_eq. destruct res as [r|[]]; simpl in *; try done.
    + destruct Es as (Hr & Hp & Hm). exists [], c, cs, []. rewrite app_nil_r. split_and!; done.
    + destruct Es as (Hlast & a & -> & Ha). exists [a]. split; [done|].
      destruct cs; [|done]. by constructor.
Qed.

(** The tracker of the outcome is the old one after the recorded events. *)
Definition outcome_events (cs : list FallbackCandidate) (ats : list FallbackAttempt)
  (res : result error (FallbackResult R)) (evs : list cd_event) : Prop :=
  exists pre rest l fails, cs = pre ++ rest /\ recorded pre l fails /\
    match res with
    | Ok r => r_Attempts r = ats ++ l /\ exists c post, rest = c :: post /\
        r_Provider r = c_Provider c /\ r_Model r = c_Model c /\ evs = fails ++ [EvSuccess (StableKey c)]
    | Err (ErrExhausted l') => rest = [] /\ l' = ats ++ l /\ evs = fails
    | Err _ => evs = fails
    end.

Lemma exec_loop_events fuel cs ats ch w res ch' w' :
  exec_loop (try_candidate run fuel) cs ats ch w = Some (res, ch', w') ->
  exists evs, cooldown ch' = foldl cd_step (cooldown ch) evs /\ outcome_events cs ats res evs.
Proof.
  revert ats ch w; induction cs as [|c cs IH]; intros ats ch w Hl; cbn [exec_loop] in Hl.
  { simplify_eq. exists []. split; [done|]. exists [], [], [], []. split; [done|]. split; [apply recorded_nil|]. by rewrite app_nil_r. }
  destruct (try_candidate run fuel (is_nil cs) ats c ch w) as [[[v ch1] w1]|] eqn:Es; [|done].
  apply try_candidate_spec in Es as (Hok & evs & Hc & Hv). destruct v as [a|r].
  - apply IH in Hl as (evs' & Hc' & pre & rest & l & fails & -> & HF & Hr).
    exists (evs ++ evs'). rewrite foldl_app, <- Hc. split; [done|].
    exists (c :: pre), rest, (a :: l), (evs ++ fails). split; [done|].
    split; [exact (recorded_app [c] [a] evs pre l fails Hv HF)|]. rewrite cons_middle, (app_assoc ats).
    destruct res as [r|[]]; try (by subst).
    + destruct Hr as (Hr & c' & post & -> & Hp & Hm & ->). split; [done|]. exists c', post. by rewrite app_assoc.
    + destruct Hr as (-> & -> & ->). done.
  - simplify_eq. exists evs. split; [done|].
    destruct res as [r|e]; simpl in Hv.
    + subst. destruct Hok as (Ha & Hp & Hm). exists [], (c :: cs), [], [].
      split; [done|]. split; [apply recorded_nil|]. rewrite app_nil_r. split; [done|]. by exists c, cs.
    + assert (Hnil : evs = [] -> exists pre rest l fails, c :: cs = pre ++ rest /\ recorded pre l fails /\ evs = fails).
      { intros ->. by exists [], (c :: cs), [], []; split_and!; [|apply recorded_nil|]. }
      destruct e; try (exact (Hnil Hv)).
      destruct Hok as (Hlast & _), Hv as (a & -> & Hv). destruct cs; [|done].
      exists [c], [], [a], evs. by split_and!.
Qed.

Lemma exec_loop_image_cooldown fuel cs ats ch w res ch' w' :
  exec_loop (try_image run fuel) cs ats ch w = Some (res, ch', w') -> cooldown ch' = cooldown ch.
Proof.
  revert ats ch w; induction cs as [|c cs IH]; intros ats ch w Hl; cbn [exec_loop] in Hl; [by simplify_eq|].
  destruct (try_image run fuel (is_nil cs) ats c ch w) as [[[v ch1] w1]|] eqn:Es; [|done].
  apply try_image_spec in Es as (_ & <-). destruct v; [by eapply IH | by simplify_eq].
Qed.
End ChainFacts.

Lemma foldl_addCandidate_prefix d lk st raws :
  exists l, (foldl (addCandidate d lk) st raws).2 = st.2 ++ l.
Proof.
  revert st; induction raws as [|raw raws IH]; intros st; [exists []; by rewrite app_nil_r|].
  simpl. destruct (IH (addCandidate d lk st raw)) as [l ->]. destruct st as [seen cs].
  unfold addCandidate. change (ParseModelRef _ d) with (resolve_raw d lk raw).
  destruct (resolve_raw d lk raw) as [r|]; [|eauto].
  case_bool_decide; [eauto|]. simpl. rewrite <- app_assoc. eauto.
Qed.

Section Total.
Context {W R : Type} `{World W} (run : string -> string -> W -> (R + error) * W).

Lemma try_candidate_total fuel last ats c ch w :
  rl ch = None ->
  exists v ch' w', try_candidate run fuel last ats c ch w = Some (v, ch', w') /\ rl ch' = None.
Proof.
  intros Hrl. unfold try_candidate. destruct (is_canceled (w_ctxErr w)); [eauto 10|].
  destruct (avail (StableKey c) ch w) as [[] w1]; simpl.
  2:{ destruct (remaining (StableKey c) ch w1). eauto 10. }
  rewrite acquire_none by done. destruct (timed_run run c w1) as [[[resp|err] el] w2]; [eauto 10|].
  destruct (is_canceled (w_ctxErr w2)); [eauto 10|].
  destruct (ClassifyError (Some err) (c_Provider c) (c_Model c)) as [f|]; [|eauto 10].
  destruct (IsRetriable f); simpl; [|eauto 10]. destruct (w_now w2) as [now w3].
  destruct last; eauto 10.
Qed.

Lemma exec_loop_total fuel cs ats ch w :
  rl ch = None -> is_Some (exec_loop (try_candidate run fuel) cs ats ch w).
Proof.
  revert ats ch w; induction cs as [|c cs IH]; intros ats ch w Hrl; cbn [exec_loop]; [eauto|].
  destruct (try_candidate_total fuel (is_nil cs) ats c ch w Hrl) as (v & ch1 & w1 & -> & Hrl1).
  destruct v; [by apply IH | eauto].
Qed.
End Total.

Section Cooling.
Context {W R : Type} `{World W}.
Context (T : time) (clock_bound : forall w : W, (w_now w).1 <= T).
Context (not_canceled : forall w : W, is_canceled (w_ctxErr w) = false).

Definition cooling (ch : FallbackChain) (c : FallbackCandidate) : Prop :=
  forall t, t <= T -> IsAvailable t (StableKey c) (cooldown ch) = false.

Lemma try_candidate_cooling last ats c ch (w : W) :
  cooling ch c ->
  exists a w', same_model c a /\ at_Skipped a = true /\ at_Reason a = Some FailoverRateLimit /\
    forall fuel (run : string -> string -> W -> (R + error) * W),
      try_candidate run fuel last ats c ch w = Some (VNext a, ch, w').
Proof.
  intros Hc. pose proof (Hc (w_now w).1 (clock_bound w)) as Hna.
  unfold try_candidate, avail. rewrite not_canceled.
  destruct (entries (cooldown ch) !! StableKey c) as [e|] eqn:Ee.
  2:{ unfold IsAvailable in Hna. by rewrite Ee in Hna. }
  destruct (w_now w) as [t w1]. simpl in Hna. rewrite Hna. simpl.
  destruct (remaining (StableKey c) ch w1) as [rem w2]. eexists _, w2.
  split_and!; [..|intros; reflexivity]; done.
Qed.

Lemma exec_loop_cooling cs ats ch (w : W) :
  Forall (cooling ch) cs ->
  exists l w', Forall2 same_model cs l /\
    Forall (fun a => at_Skipped a = true /\ at_Reason a = Some FailoverRateLimit) l /\
    forall fuel (run : string -> string -> W -> (R + error) * W),
      exec_loop (try_candidate run fuel) cs ats ch w = Some (Err (ErrExhausted (ats ++ l)), ch, w').
Proof.
  revert ats w; induction cs as [|c cs IH]; intros ats w HF; cbn [exec_loop].
  - exists [], w. rewrite app_nil_r. split_and!; [constructor | constructor | done].
  - apply Forall_cons in HF as [Hc HF].
    destruct (try_candidate_cooling (is_nil cs) ats c ch w Hc) as (a & w1 & Hm & Hs & Hr & Ht).
    destruct (IH (ats ++ [a]) w1 HF) as (l & w' & Hl & Hk & He).
    exists (a :: l), w'. split_and!; [by constructor | by constructor |].
    intros fuel run. rewrite Ht, He, <- app_assoc. done.
Qed.
End Cooling.

(** ** A concrete world, for the witnesses

    Every clock reading takes a second; sleeping advances the clock; the
    context is never canceled. *)
Module Demo.
Record world : Type := mkWorld { clock : time }.

#[global] Instance demo_world : World world := {
  w_now w := (clock w, mkWorld (clock w + Second));
  w_sleep d w := (None, mkWorld (clock w + d));
  w_ctxErr w := None
}.

#[global] Instance demo_laws : WorldLaws world.
Proof. constructor. done. Qed.

Definition cand (p m : string) : FallbackCandidate := mkCandidate p m 0 "".

(** [openai] is overloaded, [deepseek] answers. *)
Definition answer (p m : string) (w : world) : (string + error) * world :=
  if String.eqb p "deepseek" then (inl ("hello from " +:+ m), w)
  else (inr (ErrText "HTTP 529 overloaded"), w).

Definition chain0 : FallbackChain := NewFallbackChain NewCooldownTracker None.
End Demo.

(** ** Properties *)

(** The candidates are the parsed references without repetition of a
    canonical key, in the order of the configuration, the primary first, and
    none is lost. *)
Theorem ResolveCandidates_spec cfg d lk :
  let cs := ResolveCandidatesWithLookup cfg d lk in
  let raws := Primary cfg :: Fallbacks cfg in
  NoDup (map cand_key cs) /\
  cs `sublist_of` map ref_candidate (omap (resolve_raw d lk) raws) /\
  (forall raw r, raw ∈ raws -> resolve_raw d lk raw = Some r ->
     cand_key (ref_candidate r) ∈ map cand_key cs) /\
  (forall r, resolve_raw d lk (Primary cfg) = Some r -> head cs = Some (ref_candidate r)).
Proof.
  intros cs raws. unfold cs, ResolveCandidatesWithLookup.
  pose proof (addCandidate_ok d lk [] (∅, []) (Primary cfg) (resolved_ok_nil d lk)) as H1.
  destruct (resolve_ok d lk ([] ++ [Primary cfg]) _ (Fallbacks cfg) H1) as (_ & Hnd & Hsub & Hall).
  split_and!; [exact Hnd | exact Hsub | exact Hall |].
  intros r Hr. destruct (foldl_addCandidate_prefix d lk (addCandidate d lk (∅, []) (Primary cfg)) (Fallbacks cfg))
    as [l ->].
  unfold addCandidate. change (ParseModelRef _ d) with (resolve_raw d lk (Primary cfg)). rewrite Hr.
  rewrite bool_decide_eq_false_2 by set_solver. done.
Qed.

(** A call with no rate limiter always returns; a success comes from one
    candidate, with one attempt recorded for each candidate before it; an
    exhausted chain reports one attempt per candidate, in order. *)
Theorem Execute_attempts {W R} `{World W, !WorldLaws W}
  (run : string -> string -> W -> (R + error) * W) fuel cs ch w :
  cs <> [] ->
  (rl ch = None -> is_Some (Execute run fuel cs ch w)) /\
  forall res ch' w', Execute run fuel cs ch w = Some (res, ch', w') ->
    match res with
    | Ok r => exists pre c post, cs = pre ++ c :: post /\ Forall2 same_model pre (r_Attempts r) /\
                r_Provider r = c_Provider c /\ r_Model r = c_Model c
    | Err (ErrExhausted l) => Forall2 same_model cs l
    | Err _ => True
    end.
Proof.
  intros Hcs. unfold Execute. destruct cs as [|c cs]; [done|]. split; [apply exec_loop_total|].
  intros res ch' w' He.
  apply exec_loop_outcome in He; [|intros; by eapply try_candidate_spec].
  destruct res as [r|[]]; simpl in He; try done.
  - destruct He as (pre & c' & post & l & Hcs' & -> & HF & Hp & Hm). eauto 10.
  - by destruct He as (l' & -> & HF).
Qed.

Lemma Execute_attempts_witness :
  let cs := [Demo.cand "openai" "gpt"; Demo.cand "deepseek" "chat"] in
  exists r ch' w', Execute Demo.answer 0 cs Demo.chain0 (Demo.mkWorld Hour) = Some (Ok r, ch', w') /\
    r_Provider r = "deepseek" /\
    exists pre c post, cs = pre ++ c :: post /\ Forall2 same_model pre (r_Attempts r) /\
      r_Provider r = c_Provider c /\ r_Model r = c_Model c.
Proof.
  destruct (Execute_attempts Demo.answer 0 [Demo.cand "openai" "gpt"; Demo.cand "deepseek" "chat"]
              Demo.chain0 (Demo.mkWorld Hour)) as [_ H]; [discriminate|].
  eexists _, _, _. split; [vm_compute; reflexivity|]. split; [reflexivity|].
  eapply (H (Ok _)). vm_compute. reflexivity.
Defined.

(** C32: a call changes the cooldown tracker by recording, in order, one failure
    for every candidate that was tried and failed with a retriable error, for
    the reason that the attempt reports, and nothing for those that were
    skipped; and, only when it succeeds, then one success for the candidate that
    answered. The attempts are those of the result, or, when all candidates are
    exhausted, of the error, where every candidate has one. *)
Theorem Execute_tracker {W R} `{World W, !WorldLaws W}
  (run : string -> string -> W -> (R + error) * W) fuel cs ch w res ch' w' :
  Execute run fuel cs ch w = Some (res, ch', w') ->
  exists pre rest attempts fails, cs = pre ++ rest /\ recorded pre attempts fails /\
    match res with
    | Ok r => attempts = r_Attempts r /\ exists c post, rest = c :: post /\
        r_Provider r = c_Provider c /\ r_Model r = c_Model c /\
        cooldown ch' = foldl cd_step (cooldown ch) (fails ++ [EvSuccess (StableKey c)]) /\
        forall t, IsAvailable t (StableKey c) (cooldown ch') = true
    | Err (ErrExhausted l) => rest = [] /\ attempts = l /\ cooldown ch' = foldl cd_step (cooldown ch) fails
    | Err _ => cooldown ch' = foldl cd_step (cooldown ch) fails
    end.
Proof.
  unfold Execute. destruct cs as [|c cs]; intros He.
  { simplify_eq. exists [], [], [], []. split; [done|]. split; [apply recorded_nil|done]. }
  apply exec_loop_events in He as (evs & Hc & pre & rest & l & fails & Hs & HF & Hr).
  exists pre, rest, l, fails. split_and!; [done | done |]. destruct res as [r|[]]; try (by subst).
  - destruct Hr as (Ha & c' & post & Hin & Hp & Hm & ->). split; [done|]. exists c', post. split_and!; [done..|].
    intros t. rewrite Hc, foldl_app. cbn [foldl cd_step]. unfold IsAvailable, MarkSuccess.
    destruct (entries (foldl cd_step (cooldown ch) fails) !! StableKey c') as [e|] eqn:E.
    + by rewrite lookup_set_entry, decide_True.
    + by rewrite E.
  - destruct Hr as (-> & -> & ->). done.
Qed.

Lemma Execute_tracker_witness :
  let cs := [Demo.cand "openai" "gpt"; Demo.cand "deepseek" "chat"] in
  exists r ch' w' now,
    Execute Demo.answer 0 cs Demo.chain0 (Demo.mkWorld Hour) = Some (Ok r, ch', w') /\
    cooldown ch' = foldl cd_step NewCooldownTracker [EvFailure now "openai/gpt" FailoverTimeout; EvSuccess "deepseek/chat"].
Proof.
  eassert (He : Execute Demo.answer 0 [Demo.cand "openai" "gpt"; Demo.cand "deepseek" "chat"]
              Demo.chain0 (Demo.mkWorld Hour) = Some (Ok _, _, _)) by (vm_compute; reflexivity).
  destruct (Execute_tracker _ _ _ _ _ _ _ _ He) as (pre & rest & l & fails & Hs & HF & Ha & c & post & Hr & Hp & Hm & Hc & _).
  cbn [r_Provider r_Model r_Attempts] in Hp, Hm, Ha. subst l.
  inversion HF as [|? ? ? ? ? ? Hsk|c1 a1 cs1 l1 evs1 now reason Hm1 Hsk Hre _ _ Hrest]; subst; [discriminate Hsk|].
  inversion Hrest; subst. cbn [app] in Hs. injection Hs as <- <- <-. injection Hre as <-.
  eexists _, _, _, now. split; [exact He|]. exact Hc.
Defined.

(** While every candidate is cooling down (up to a time the clock does
    not pass), the call reports all of them as skipped, leaves the chain as it
    is and never runs the request: the outcome is the same for every [run]. *)
Theorem Execute_all_cooling {W} `{World W} {R} T cs ch (w : W) :
  cs <> [] -> (forall w : W, (w_now w).1 <= T) -> (forall w : W, is_canceled (w_ctxErr w) = false) ->
  Forall (cooling T ch) cs ->
  exists l w', Forall2 same_model cs l /\
    Forall (fun a => at_Skipped a = true /\ at_Reason a = Some FailoverRateLimit) l /\
    forall fuel (run : string -> string -> W -> (R + error) * W),
      Execute run fuel cs ch w = Some (Err (ErrExhausted l), ch, w').
Proof.
  intros Hcs Hclk Hcan HF. unfold Execute. destruct cs as [|c cs]; [done|].
  exact (exec_loop_cooling T Hclk Hcan (c :: cs) [] ch w HF).
Qed.

(** A world whose clock stands still, for the next witness. *)
#[local] Instance frozen_world : World unit := {
  w_now w := (2 * Hour, w); w_sleep _ w := (None, w); w_ctxErr _ := None
}.

Definition cooling_chain : FallbackChain :=
  NewFallbackChain (MarkFailure Hour "a/b" FailoverBilling NewCooldownTracker) None.

Lemma cooling_chain_cools : Forall (cooling (2 * Hour) cooling_chain) [Demo.cand "a" "b"].
Proof.
  constructor; [|constructor]. intros t Ht.
  change (StableKey (Demo.cand "a" "b")) with "a/b".
  unfold IsAvailable, cooling_chain, MarkFailure. cbn [cooldown NewFallbackChain].
  rewrite lookup_set_entry, decide_True by done.
  change (e_DisabledUntil (fail_entry _ _ _ _)) with (Hour + 5 * Hour).
  unfold pending, IsZero, Before, zero_time, Hour, Minute, Second in *.
  destruct (Z.ltb_spec t (60 * (60 * 1000000000) + 5 * (60 * (60 * 1000000000)))); [done | lia].
Qed.

Lemma Execute_all_cooling_witness :
  exists l w', forall fuel (run : string -> string -> unit -> (nat + error) * unit),
    Execute run fuel [Demo.cand "a" "b"] cooling_chain tt = Some (Err (ErrExhausted l), cooling_chain, w').
Proof.
  destruct (Execute_all_cooling (W := unit) (R := nat) (2 * Hour) [Demo.cand "a" "b"] cooling_chain tt)
    as (l & w' & _ & _ & He).
  - discriminate.
  - intros []. vm_compute. discriminate.
  - reflexivity.
  - exact cooling_chain_cools.
  - exists l, w'. exact He.
Defined.

(** An image request never reads or changes a cooldown, and its attempts
    are recorded like those of a text request. *)
Theorem ExecuteImage_spec {W R} `{World W, !WorldLaws W}
  (run : string -> string -> W -> (R + error) * W) fuel cs ch w res ch' w' :
  ExecuteImage run fuel cs ch w = Some (res, ch', w') ->
  cooldown ch' = cooldown ch /\
  match res with
  | Ok r => exists pre c post, cs = pre ++ c :: post /\ Forall2 same_model pre (r_Attempts r) /\
              r_Provider r = c_Provider c /\ r_Model r = c_Model c
  | Err (ErrExhausted l) => Forall2 same_model cs l
  | Err _ => True
  end.
Proof.
  unfold ExecuteImage. destruct cs as [|c cs]; intros He; [by simplify_eq|]. split.
  - by eapply exec_loop_image_cooldown.
  - apply exec_loop_outcome in He; [|intros; by eapply try_image_spec].
    destruct res as [r|[]]; simpl in He; try done.
    + destruct He as (pre & c' & post & l & Hcs' & -> & HF & Hp & Hm). eauto 10.
    + by destruct He as (l' & -> & HF).
Qed.

Lemma ExecuteImage_spec_witness :
  let cs := [Demo.cand "openai" "gpt"; Demo.cand "qwen" "vl"] in
  exists l ch' w', ExecuteImage Demo.answer 0 cs Demo.chain0 (Demo.mkWorld Hour)
                   = Some (Err (ErrExhausted l), ch', w') /\
    cooldown ch' = NewCooldownTracker /\ Forall2 same_model cs l.
Proof.
  eassert (He : ExecuteImage Demo.answer 0 [Demo.cand "openai" "gpt"; Demo.cand "qwen" "vl"]
              Demo.chain0 (Demo.mkWorld Hour) = Some (Err (ErrExhausted _), _, _))
    by (vm_compute; reflexivity).
  destruct (ExecuteImage_spec _ _ _ _ _ _ _ _ He) as [Hc HF].
  eexists _, _, _. split; [exact He|]. split; [exact Hc | exact HF].
Defined.
