(* ===== verification/AgentID.v ===== *)
(** * Agent and account identifiers: [src/pkg/routing/agent_id.go] *)

From S2P Require Import Prelude GoStrings GoLib.
Import GoRegexp.

Definition DefaultAgentID : string := "main".
Definition DefaultMainKey : string := "main".
Definition DefaultAccountID : string := "default".
Definition MaxAgentIDLength : nat := 64.

(** [[a-z0-9]] and [[a-z0-9_-]] *)
Definition idStart : cls := fun c => is_lower c || is_digit c.
Definition idBody : cls := fun c => is_lower c || is_digit c || Ascii.eqb c "_" || Ascii.eqb c "-".

(** [^[a-z0-9][a-z0-9_-]{0,63}$] *)
Definition validIDRe : regex := anchored idStart idBody 63.

(** [invalidCharsRe.ReplaceAllString(s, "-")]: each maximal run of other
    characters becomes one dash; [inrun] tells that the run has been replaced. *)
Fixpoint collapse_invalid (inrun : bool) (l : list ascii) : list ascii :=
  match l with
  | [] => []
  | c :: l' =>
      if idBody c then c :: collapse_invalid false l'
      else if inrun then collapse_invalid true l'
      else "-"%char :: collapse_invalid true l'
  end.

(** [leadingDashRe] and [trailingDashRe], replaced by the empty string. *)
Fixpoint strip_dashes (l : list ascii) : list ascii :=
  match l with
  | c :: l' => if Ascii.eqb c "-" then strip_dashes l' else l
  | [] => []
  end.

Definition strip_trailing_dashes (l : list ascii) : list ascii := rev (strip_dashes (rev l)).

Definition clean_id (l : list ascii) : list ascii :=
  strip_trailing_dashes (strip_dashes (collapse_invalid false l)).

(** The shared text of the two functions; they differ in the default. *)
Definition normalize_id (dflt id : string) : string :=
  let trimmed := TrimSpace id in
  if String.eqb trimmed "" then dflt
  else
    let lower := ToLower trimmed in
    if MatchString validIDRe lower then lower
    else
      let result := clean_id (chars lower) in
      let result := if (MaxAgentIDLength <? length result)%nat then take MaxAgentIDLength result
                    else result in
      if String.eqb (implode result) "" then dflt else implode result.

Definition NormalizeAgentID (id : string) : string := normalize_id DefaultAgentID id.
Definition NormalizeAccountID (id : string) : string := normalize_id DefaultAccountID id.

(** ** Lemmas *)

Definition all_body (l : list ascii) : Prop := Forall (fun c => idBody c = true) l.

Lemma idStart_body c : idStart c = true -> idBody c = true.
Proof. unfold idStart, idBody. by intros ->. Qed.

Lemma dash_body : idBody "-"%char = true.
Proof. reflexivity. Qed.

Lemma collapse_body b l : all_body (collapse_invalid b l).
Proof.
  revert b; induction l as [|c l IH]; intros b; simpl; [constructor|].
  destruct (idBody c) eqn:E; [by constructor; [|apply IH]|].
  destruct b; [apply IH|]. constructor; [apply dash_body | apply IH].
Qed.

Lemma strip_dashes_suffix l : exists p, l = p ++ strip_dashes l.
Proof.
  induction l as [|c l [p Hp]]; simpl; [by exists []|].
  destruct (Ascii.eqb c "-"); [|by exists []]. exists (c :: p). by rewrite Hp at 1.
Qed.

Lemma strip_dashes_head l : head (strip_dashes l) <> Some "-"%char.
Proof.
  induction l as [|c l IH]; simpl; [done|].
  destruct (Ascii.eqb_spec c "-"); [done|]. simpl. congruence.
Qed.

Lemma strip_trailing_prefix l : exists q, l = strip_trailing_dashes l ++ q.
Proof.
  destruct (strip_dashes_suffix (rev l)) as [p Hp]. exists (rev p).
  unfold strip_trailing_dashes. by rewrite <- rev_app_distr, <- Hp, rev_involutive.
Qed.

Lemma clean_id_body l : all_body (clean_id l).
Proof.
  unfold clean_id. pose proof (collapse_body false l) as H.
  destruct (strip_dashes_suffix (collapse_invalid false l)) as [p Hp].
  destruct (strip_trailing_prefix (strip_dashes (collapse_invalid false l))) as [q Hq].
  rewrite Hp in H. apply Forall_app in H as [_ H]. rewrite Hq in H. by apply Forall_app in H as [H _].
Qed.

Lemma clean_id_head l : head (clean_id l) <> Some "-"%char.
Proof.
  unfold clean_id. pose proof (strip_dashes_head (collapse_invalid false l)) as H.
  destruct (strip_trailing_prefix (strip_dashes (collapse_invalid false l))) as [q Hq].
  destruct (strip_trailing_dashes _) as [|c k]; [done|]. rewrite Hq in H. exact H.
Qed.

(** The form of a normalised identifier. *)
Definition id_shape (s : string) : Prop :=
  exists c l, chars s = c :: l /\ idBody c = true /\ c <> "-"%char /\ all_body l /\ (length l <= 63)%nat.

Lemma default_shape d : d = DefaultAgentID \/ d = DefaultAccountID -> id_shape d.
Proof.
  intros [-> | ->]; unfold id_shape; simpl; eexists _, _; (split; [reflexivity|]);
    (split; [reflexivity|]); (split; [discriminate|]); (split; [repeat constructor | simpl; lia]).
Qed.

Lemma idStart_not_dash c : idStart c = true -> c <> "-"%char.
Proof. intros H ->. discriminate H. Qed.

Lemma valid_shape s : MatchString validIDRe s = true -> id_shape s.
Proof.
  intros (c & l & Hs & Hc & HF & Hl)%anchored_spec. exists c, l. split_and!; try done.
  - by apply idStart_body.
  - by apply idStart_not_dash.
Qed.

Lemma normalize_id_shape d id : id_shape d -> id_shape (normalize_id d id).
Proof.
  intros Hd. unfold normalize_id. destruct (String.eqb_spec (TrimSpace id) ""); [done|].
  destruct (MatchString validIDRe (ToLower (TrimSpace id))) eqn:Ev; [by apply valid_shape|].
  set (k := clean_id _). set (r := if (_ <? _)%nat then _ else k).
  assert (Hr : all_body r /\ (length r <= 64)%nat /\ head r <> Some "-"%char).
  { pose proof (clean_id_body (chars (ToLower (TrimSpace id)))) as Hb.
    pose proof (clean_id_head (chars (ToLower (TrimSpace id)))) as Hh. fold k in Hb, Hh.
    unfold r, MaxAgentIDLength. destruct (Nat.ltb_spec 64 (length k)).
    - split_and!; [by apply Forall_take | rewrite length_take; lia |]. by destruct k.
    - split_and!; [done | lia | done]. }
  destruct (String.eqb_spec (implode r) "") as [E|E]; [done|].
  destruct r as [|c l]; [done|]. destruct Hr as (HF & Hl & Hh). inv HF.
  exists c, l. rewrite chars_implode. simpl in *. split_and!; [done | done | congruence | done | lia].
Qed.

Lemma NormalizeAgentID_shape id : id_shape (NormalizeAgentID id).
Proof. apply normalize_id_shape, default_shape. by left. Qed.

Lemma NormalizeAccountID_shape id : id_shape (NormalizeAccountID id).
Proof. apply normalize_id_shape, default_shape. by right. Qed.

(** Identifier characters are neither upper case, nor spaces, nor colons. *)
Lemma idBody_props c :
  idBody c = true -> is_upper c = false /\ code c < 128 /\ sp1 c = false /\ c <> ":"%char.
Proof.
  intros H.
  assert (X : implb (idBody c) (negb (is_upper c) && (code c <? 128) && negb (sp1 c) && negb (Ascii.eqb c ":")) = true)
    by (revert c H; intros c _; revert c; apply byte_forall; vm_compute; reflexivity).
  rewrite H in X. simpl in X. breflect. split_and!; try done.
  intros ->. done.
Qed.

(** An ASCII string with no space at its ends is trimmed. *)
Lemma ascii_no_space l : all_body l -> space_len l = O /\ space_len_rev l = O.
Proof.
  intros H. destruct l as [|c l]; [done|]. inversion H as [|? ? Hc Hl]; subst.
  destruct (idBody_props c Hc) as (_ & Hlt & Hsp & _).
  assert (Hk : forall k, 128 <= k -> (code c =? k) = false) by (intros; apply Z.eqb_neq; lia).
  assert (Hb : between 128 138 c = false) by (unfold between; apply andb_false_iff; left; apply Z.leb_gt; lia).
  assert (H2 : forall d, sp2 c d = false) by (intros d; unfold sp2; by rewrite !Hk).
  assert (H3 : forall d e, sp3 c d e = false) by (intros d e; unfold sp3; by rewrite !Hk).
  assert (H2' : forall d, sp2 d c = false)
    by (intros d; unfold sp2; rewrite !Hk by done; apply andb_false_r).
  assert (H3' : forall d e, sp3 e d c = false)
    by (intros d e; unfold sp3; rewrite !Hk, Hb by done; by rewrite !andb_false_r).
  simpl. rewrite Hsp. split; destruct l as [|d [|e l]]; rewrite ?H2, ?H3, ?H2', ?H3'; done.
Qed.

Lemma body_trimmed s : all_body (chars s) -> TrimSpace s = s.
Proof.
  intros H. apply chars_inj. rewrite chars_TrimSpace.
  rewrite trim_left_fix by apply (ascii_no_space _ H).
  apply trim_right_fix, ascii_no_space. unfold all_body. by apply Forall_rev.
Qed.

Lemma body_lowercase s : all_body (chars s) -> ToLower s = s.
Proof.
  intros H. apply lowercase_ToLower. eapply Forall_impl; [exact H|].
  intros c Hc. apply (idBody_props c Hc).
Qed.

Lemma id_shape_body s : id_shape s -> all_body (chars s) /\ s <> "".
Proof.
  intros (c & l & Hs & Hc & _ & Hl & _). rewrite Hs. split; [by constructor|].
  intros ->. done.
Qed.

(** A normalised identifier that matches the pattern is left alone. *)
Lemma normalize_id_valid d s :
  all_body (chars s) -> s <> "" -> MatchString validIDRe s = true -> normalize_id d s = s.
Proof.
  intros Hb Hs Hv. unfold normalize_id. rewrite body_trimmed, body_lowercase, Hv by done.
  by destruct (String.eqb_spec s "").
Qed.

Lemma shape_valid s :
  id_shape s -> MatchString validIDRe s = true <-> head (chars s) <> Some "_"%char.
Proof.
  intros (c & l & Hs & Hc & Hd & Hl & Hn). unfold validIDRe. rewrite anchored_spec, Hs. simpl. split.
  - intros (c' & l' & ? & Hc' & _); simplify_eq. by intros ?; simplify_eq.
  - intros Hu. exists c, l. split_and!; try done. revert Hc. unfold idBody, idStart.
    rewrite !orb_true_iff, !Ascii.eqb_eq. intros [[[? | ?] | ?] | ?]; [by left | by right | congruence..].
Qed.

(** Identifiers with a letter or a digit in front are fixed points, and no
    identifier contains a colon. *)
Lemma NormalizeAgentID_fixed id :
  head (chars (NormalizeAgentID id)) <> Some "_"%char ->
  NormalizeAgentID (NormalizeAgentID id) = NormalizeAgentID id.
Proof.
  intros Hu. pose proof (NormalizeAgentID_shape id) as Hs.
  destruct (id_shape_body _ Hs). apply normalize_id_valid; try done. by apply shape_valid.
Qed.

Lemma body_no_colon l : all_body l -> ":"%char ∉ l.
Proof. intros H Hin. eapply Forall_forall in H; [|exact Hin]. by apply idBody_props in H as (_ & _ & _ & ?). Qed.

Lemma NormalizeAgentID_no_colon id : ":"%char ∉ chars (NormalizeAgentID id).
Proof. apply body_no_colon, id_shape_body, NormalizeAgentID_shape. Qed.

Lemma NormalizeAccountID_no_colon id : ":"%char ∉ chars (NormalizeAccountID id).
Proof. apply body_no_colon, id_shape_body, NormalizeAccountID_shape. Qed.

Lemma NormalizeAgentID_clean id :
  NormalizeAgentID id <> "" /\ TrimSpace (NormalizeAgentID id) = NormalizeAgentID id /\
  ToLower (NormalizeAgentID id) = NormalizeAgentID id.
Proof.
  destruct (id_shape_body _ (NormalizeAgentID_shape id)).
  split_and!; [done | by apply body_trimmed | by apply body_lowercase].
Qed.

(** A 64-character prefix of dashes and letters after an underscore. *)
Definition long_underscore : string :=
  "_aaaaaaaaaaaaaaaaaaaaaaaaaaaaaaaaaaaaaaaaaaaaaaaaaaaaaaaaaaaaaa-b".

(** ** Properties *)

(** Every normalised identifier has 1 to 64 characters of [a-z0-9_-] and
    does not start with a dash; it matches [validIDRe] exactly when it does
    not start with an underscore, and is then a fixed point of the function. *)
Theorem NormalizeAgentID_form id :
  let n := NormalizeAgentID id in
  (1 <= length (chars n) <= 64)%nat /\ all_body (chars n) /\ head (chars n) <> Some "-"%char /\
  (MatchString validIDRe n = true <-> head (chars n) <> Some "_"%char) /\
  (head (chars n) <> Some "_"%char -> NormalizeAgentID n = n /\ NormalizeAccountID n = n).
Proof.
  intros n. pose proof (NormalizeAgentID_shape id) as Hs. fold n in Hs.
  destruct (id_shape_body n Hs) as [Hb Hne].
  split_and!.
  - destruct Hs as (c & l & -> & _ & _ & _ & Hl). simpl. lia.
  - destruct Hs as (c & l & -> & _ & _ & _ & Hl). simpl. lia.
  - done.
  - destruct Hs as (c & l & -> & _ & Hd & _ & _). simpl. congruence.
  - by apply shape_valid.
  - intros Hu. split; apply normalize_id_valid; try done; by apply shape_valid.
Qed.

(** Normalisation is not idempotent: the leading underscore keeps an
    identifier out of the accepted form, and the cut at 64 characters can
    leave a trailing dash that a second pass removes. *)
Theorem NormalizeAgentID_not_idempotent :
  exists id, NormalizeAgentID (NormalizeAgentID id) <> NormalizeAgentID id /\
    MatchString validIDRe (NormalizeAgentID id) = false.
Proof. exists long_underscore. vm_compute. split; [discriminate | reflexivity]. Qed.

Example NormalizeAgentID_examples :
  NormalizeAgentID "  My Agent!! " = "my-agent" /\ NormalizeAgentID "" = "main" /\
  NormalizeAgentID "---" = "main" /\ NormalizeAgentID "_x" = "_x".
Proof. vm_compute. auto. Qed.
