(* ===== verification/SessionKey.v ===== *)
(** * Session keys: [src/pkg/routing/session_key.go]

    The key of the conversation a message belongs to.  Go's map of identity
    links is iterated in an unspecified order: it is modelled by the list of
    its entries in the order of one iteration. *)

From S2P Require Import Prelude GoStrings GoLib.
Import GoRegexp.
From S2P Require Import AgentID.

(** ** Data *)

Abbreviation DMScope := string (only parsing).
Definition DMScopeMain : DMScope := "main".
Definition DMScopePerPeer : DMScope := "per-peer".
Definition DMScopePerChannelPeer : DMScope := "per-channel-peer".
Definition DMScopePerAccountChannelPeer : DMScope := "per-account-channel-peer".

Record RoutePeer : Type := mkRoutePeer { Kind : string; ID : string }.

Record SessionKeyParams : Type := mkSessionKeyParams {
  AgentID : string;
  Channel : string;
  AccountID : string;
  Peer : option RoutePeer;
  Scope : DMScope;
  IdentityLinks : list (string * list string)
}.

Record ParsedSessionKey : Type := mkParsedSessionKey { ParsedAgentID : string; Rest : string }.

(** ** Operations *)

Definition BuildAgentMainSessionKey (agentID : string) : string :=
  "agent:" +:+ NormalizeAgentID agentID +:+ ":" +:+ DefaultMainKey.

Definition normalizeChannel (channel : string) : string :=
  let c := TrimSpace (ToLower channel) in
  if String.eqb c "" then "unknown" else c.

(** The spellings under which a link may name the peer. *)
Definition link_candidates (channel peerID : string) : list string :=
  let rawCandidate := ToLower peerID in
  let channel := ToLower (TrimSpace channel) in
  (if String.eqb rawCandidate "" then [] else [rawCandidate]) ++
  (if String.eqb channel "" then [] else [channel +:+ ":" +:+ ToLower peerID]) ++
  match Index rawCandidate ":" with
  | Some idx =>
      if (0 <? idx)%nat && (idx <? length (chars rawCandidate) - 1)%nat
      then [slice_from rawCandidate (S idx)] else []
  | None => []
  end.

Definition in_strings (s : string) (l : list string) : bool := existsb (String.eqb s) l.

(** The test of one entry of the map. *)
Definition link_matches (candidates : list string) (entry : string * list string) : bool :=
  negb (String.eqb (TrimSpace (fst entry)) "") &&
  existsb (fun id => let normalized := ToLower (TrimSpace id) in
                     negb (String.eqb normalized "") && in_strings normalized candidates)
          (snd entry).

Definition resolveLinkedPeerID (identityLinks : list (string * list string))
    (channel peerID : string) : string :=
  match identityLinks with
  | [] => ""
  | _ =>
      let peerID := TrimSpace peerID in
      if String.eqb peerID "" then ""
      else
        match link_candidates channel peerID with
        | [] => ""
        | candidates =>
            match find_first (link_matches candidates) identityLinks with
            | Some (canonical, _) => TrimSpace canonical
            | None => ""
            end
        end
  end.

(** The peer of a direct message after the identity links. *)
Definition direct_peer (params : SessionKeyParams) (dmScope : DMScope) (peer : RoutePeer) : string :=
  let peerID := TrimSpace (ID peer) in
  let peerID :=
    if negb (String.eqb dmScope DMScopeMain) && negb (String.eqb peerID "") then
      let linked := resolveLinkedPeerID (IdentityLinks params) (Channel params) peerID in
      if String.eqb linked "" then peerID else linked
    else peerID in
  ToLower peerID.

Definition BuildAgentPeerSessionKey (params : SessionKeyParams) : string :=
  let agentID := NormalizeAgentID (AgentID params) in
  let peer := default (mkRoutePeer "direct" "") (Peer params) in
  let peerKind := TrimSpace (Kind peer) in
  let peerKind := if String.eqb peerKind "" then "direct" else peerKind in
  if String.eqb peerKind "direct" then
    let dmScope := if String.eqb (Scope params) "" then DMScopeMain else Scope params in
    let peerID := direct_peer params dmScope peer in
    if String.eqb peerID "" then BuildAgentMainSessionKey agentID
    else if String.eqb dmScope DMScopePerAccountChannelPeer then
      let channel := normalizeChannel (Channel params) in
      let accountID := NormalizeAccountID (AccountID params) in
      "agent:" +:+ agentID +:+ ":" +:+ channel +:+ ":" +:+ accountID +:+ ":direct:" +:+ peerID
    else if String.eqb dmScope DMScopePerChannelPeer then
      let channel := normalizeChannel (Channel params) in
      "agent:" +:+ agentID +:+ ":" +:+ channel +:+ ":direct:" +:+ peerID
    else if String.eqb dmScope DMScopePerPeer then
      "agent:" +:+ agentID +:+ ":direct:" +:+ peerID
    else BuildAgentMainSessionKey agentID
  else
    let channel := normalizeChannel (Channel params) in
    let peerID := ToLower (TrimSpace (ID peer)) in
    let peerID := if String.eqb peerID "" then "unknown" else peerID in
    "agent:" +:+ agentID +:+ ":" +:+ channel +:+ ":" +:+ peerKind +:+ ":" +:+ peerID.

Definition ParseAgentSessionKey (sessionKey : string) : option ParsedSessionKey :=
  let raw := TrimSpace sessionKey in
  if String.eqb raw "" then None
  else match SplitN raw ":" 3 with
       | [p0; p1; rest] =>
           if negb (String.eqb p0 "agent") then None
           else
             let agentID := TrimSpace p1 in
             if String.eqb agentID "" || String.eqb rest "" then None
             else Some (mkParsedSessionKey agentID rest)
       | _ => None
       end.

Definition IsSubagentSessionKey (sessionKey : string) : bool :=
  let raw := TrimSpace sessionKey in
  if String.eqb raw "" then false
  else if HasPrefix (ToLower raw) "subagent:" then true
  else match ParseAgentSessionKey raw with
       | None => false
       | Some parsed => HasPrefix (ToLower (Rest parsed)) "subagent:"
       end.

(** ** The shape of a key *)

Definition agent_key (a r : string) : string := "agent:" +:+ a +:+ ":" +:+ r.

Definition is_direct (params : SessionKeyParams) : bool :=
  let peerKind := TrimSpace (Kind (default (mkRoutePeer "direct" "") (Peer params))) in
  String.eqb (if String.eqb peerKind "" then "direct" else peerKind) "direct".

Definition effective_scope (params : SessionKeyParams) : DMScope :=
  if String.eqb (Scope params) "" then DMScopeMain else Scope params.

(** The kind and the identifier of the peer that enter the key. *)
Definition key_kind (params : SessionKeyParams) : string :=
  let peerKind := TrimSpace (Kind (default (mkRoutePeer "direct" "") (Peer params))) in
  if String.eqb peerKind "" then "direct" else peerKind.

Definition key_peer (params : SessionKeyParams) : string :=
  let peer := default (mkRoutePeer "direct" "") (Peer params) in
  if is_direct params then direct_peer params (effective_scope params) peer
  else let peerID := ToLower (TrimSpace (ID peer)) in
       if String.eqb peerID "" then "unknown" else peerID.

(** The message goes to the conversation shared by the agent's direct peers. *)
Definition is_shared (params : SessionKeyParams) : bool :=
  is_direct params &&
  (String.eqb (key_peer params) "" ||
   negb (in_strings (effective_scope params)
           [DMScopePerPeer; DMScopePerChannelPeer; DMScopePerAccountChannelPeer])).

(** What follows the agent in the key of a conversation that is not shared. *)
Definition key_rest (params : SessionKeyParams) : string :=
  let channel := normalizeChannel (Channel params) in
  if is_direct params then
    if String.eqb (effective_scope params) DMScopePerPeer then "direct:" +:+ key_peer params
    else if String.eqb (effective_scope params) DMScopePerChannelPeer then
      channel +:+ ":direct:" +:+ key_peer params
    else channel +:+ ":" +:+ NormalizeAccountID (AccountID params) +:+ ":direct:" +:+ key_peer params
  else channel +:+ ":" +:+ key_kind params +:+ ":" +:+ key_peer params.

Lemma Build_shape params :
  BuildAgentPeerSessionKey params =
    if is_shared params
    then agent_key (NormalizeAgentID (NormalizeAgentID (AgentID params))) DefaultMainKey
    else agent_key (NormalizeAgentID (AgentID params)) (key_rest params).
Proof.
  unfold BuildAgentPeerSessionKey, is_shared, key_rest, key_peer, key_kind.
  fold (is_direct params). fold (effective_scope params).
  unfold agent_key, in_strings, BuildAgentMainSessionKey. simpl existsb.
  destruct (is_direct params); [|done]. rewrite andb_true_l.
  destruct (String.eqb (direct_peer _ _ _) ""); [done|]. simpl orb.
  destruct (String.eqb_spec (effective_scope params) DMScopePerPeer) as [->|];
    [done|].
  destruct (String.eqb_spec (effective_scope params) DMScopePerChannelPeer) as [->|];
    [done|].
  by destruct (String.eqb_spec (effective_scope params) DMScopePerAccountChannelPeer).
Qed.

Lemma resolveLinkedPeerID_tail links channel peerID :
  tail_trimmed (resolveLinkedPeerID links channel peerID).
Proof.
  unfold resolveLinkedPeerID. destruct links; [done|].
  repeat case_test; try done; apply TrimSpace_tail.
Qed.

Lemma key_peer_tail params : tail_trimmed (key_peer params).
Proof.
  unfold key_peer, direct_peer.
  repeat case_test; try done; apply ToLower_tail;
    first [apply resolveLinkedPeerID_tail | apply TrimSpace_tail].
Qed.

Lemma key_peer_group params : is_direct params = false -> key_peer params <> "".
Proof. unfold key_peer. intros ->. by destruct (String.eqb_spec (ToLower (TrimSpace (ID (default (mkRoutePeer "direct" "") (Peer params))))) ""). Qed.

(** A key is parsed into what it was made of. *)
Lemma Parse_agent_key a r :
  all_body (chars a) -> a <> "" -> r <> "" -> tail_trimmed r ->
  ParseAgentSessionKey (agent_key a r) = Some (mkParsedSessionKey a r).
Proof.
  intros Ha Hne Hr Ht. unfold ParseAgentSessionKey.
  assert (Hk : TrimSpace (agent_key a r) = agent_key a r).
  { apply (TrimSpace_letter "a" ("gent:" +:+ a +:+ ":" +:+ r)); [done|].
    change (tail_trimmed (("agent:" +:+ a) +:+ ":" +:+ r)). by apply tail_trimmed_after. }
  rewrite Hk. change (String.eqb (agent_key a r) "") with false. cbv iota.
  unfold SplitN.
  assert (E : chars (agent_key a r) = chars "agent" ++ ":"%char :: chars a ++ ":"%char :: chars r)
    by (unfold agent_key; by rewrite !chars_app).
  rewrite E, l_splitn_piece by decide_now. rewrite l_splitn_piece by by apply body_no_colon.
  rewrite l_splitn_last. simpl. rewrite !implode_chars.
  rewrite body_trimmed by done.
  destruct (String.eqb_spec a ""), (String.eqb_spec r ""); done.
Qed.

Lemma key_rest_form params :
  is_shared params = false ->
  key_rest params <> "" /\ tail_trimmed (key_rest params) /\
  ":"%char ∈ chars (key_rest params).
Proof.
  intros Hs.
  assert (Hp : key_peer params <> "").
  { unfold is_shared in Hs. destruct (is_direct params) eqn:Ed; [|by apply key_peer_group].
    apply orb_false_iff in Hs as (Hs & _). by breflect. }
  assert (Hx : exists s, key_rest params = s +:+ ":" +:+ key_peer params).
  { unfold key_rest. repeat case_test.
    - by exists "direct".
    - exists (normalizeChannel (Channel params) +:+ ":direct"). by rewrite <- !append_assoc.
    - exists (normalizeChannel (Channel params) +:+ ":" +:+ NormalizeAccountID (AccountID params) +:+ ":direct").
      by rewrite <- !append_assoc.
    - exists (normalizeChannel (Channel params) +:+ ":" +:+ key_kind params). by rewrite <- !append_assoc. }
  destruct Hx as (s & ->). assert (Hc : ":"%char ∈ chars (s +:+ ":" +:+ key_peer params)).
  { rewrite !chars_app. set_solver. }
  split_and!; [|by apply tail_trimmed_after, key_peer_tail | done].
  intros E. rewrite E in Hc. by apply elem_of_nil in Hc.
Qed.

(** Fields separated by a colon that they do not contain. *)
Lemma colon_inj a b r s :
  ":"%char ∉ chars a -> ":"%char ∉ chars b ->
  a +:+ ":" +:+ r = b +:+ ":" +:+ s -> a = b /\ r = s.
Proof.
  intros Ha Hb H. apply (f_equal chars) in H. rewrite !chars_app in H.
  change (chars ":" ++ chars r) with (":"%char :: chars r) in H.
  change (chars ":" ++ chars s) with (":"%char :: chars s) in H.
  assert (E1 : l_index [":"%char] (chars a ++ ":"%char :: chars r) = Some (length (chars a)))
    by (apply l_index_byte_Some; eauto).
  assert (E2 : l_index [":"%char] (chars b ++ ":"%char :: chars s) = Some (length (chars b)))
    by (apply l_index_byte_Some; eauto).
  rewrite H in E1. assert (Hl : length (chars a) = length (chars b)) by congruence.
  apply app_inj_1 in H as (H1 & H2); [|done]. simplify_eq.
  split; by apply chars_inj.
Qed.

Lemma agent_key_inj a b r s :
  ":"%char ∉ chars a -> ":"%char ∉ chars b -> agent_key a r = agent_key b s -> a = b /\ r = s.
Proof. intros Ha Hb H. apply append_inj_l in H. by apply colon_inj. Qed.

(** ** Properties *)

(** The key built for any message is read back: the agent is the
    normalised agent of the message, the rest is [main] exactly for the
    conversation that direct peers share. *)
Theorem ParseAgentSessionKey_Build params :
  head (chars (NormalizeAgentID (AgentID params))) <> Some "_"%char ->
  exists rest,
    ParseAgentSessionKey (BuildAgentPeerSessionKey params) =
      Some (mkParsedSessionKey (NormalizeAgentID (AgentID params)) rest) /\
    (rest = DefaultMainKey <-> is_shared params = true).
Proof.
  intros Hu. rewrite Build_shape, (NormalizeAgentID_fixed _ Hu).
  destruct (id_shape_body _ (NormalizeAgentID_shape (AgentID params))) as [Hb Hne].
  destruct (is_shared params) eqn:Es.
  - exists DefaultMainKey. by rewrite Parse_agent_key.
  - destruct (key_rest_form params Es) as (Hr & Ht & Hc). exists (key_rest params).
    rewrite Parse_agent_key by done. split; [done|]. split; [|done].
    intros E. rewrite E in Hc. revert Hc. unfold DefaultMainKey. decide_now.
Qed.

Lemma ParseAgentSessionKey_Build_witness :
  ParseAgentSessionKey (BuildAgentPeerSessionKey
    (mkSessionKeyParams "Sales Bot" "Telegram" "" (Some (mkRoutePeer "group" " G1 ")) "" [])) =
  Some (mkParsedSessionKey "sales-bot" "telegram:group:g1").
Proof.
  set (p := mkSessionKeyParams _ _ _ _ _ _).
  destruct (ParseAgentSessionKey_Build p) as (rest & H & _); [discriminate|].
  rewrite H. vm_compute in H |- *. congruence.
Defined.

(** With the scope per channel and peer, conversations are isolated: two
    messages of channels and kinds without colon share a key exactly when
    they have the same agent, channel, kind of peer and peer. *)
Theorem per_channel_peer_isolation p1 p2 :
  Scope p1 = DMScopePerChannelPeer -> Scope p2 = DMScopePerChannelPeer ->
  key_peer p1 <> "" -> key_peer p2 <> "" ->
  ":"%char ∉ chars (normalizeChannel (Channel p1)) -> ":"%char ∉ chars (normalizeChannel (Channel p2)) ->
  ":"%char ∉ chars (key_kind p1) -> ":"%char ∉ chars (key_kind p2) ->
  BuildAgentPeerSessionKey p1 = BuildAgentPeerSessionKey p2 <->
    NormalizeAgentID (AgentID p1) = NormalizeAgentID (AgentID p2) /\
    normalizeChannel (Channel p1) = normalizeChannel (Channel p2) /\
    key_kind p1 = key_kind p2 /\ key_peer p1 = key_peer p2.
Proof.
  intros S1 S2 P1 P2 C1 C2 K1 K2.
  assert (HB : forall p, Scope p = DMScopePerChannelPeer -> key_peer p <> "" ->
    BuildAgentPeerSessionKey p = agent_key (NormalizeAgentID (AgentID p))
      (normalizeChannel (Channel p) +:+ ":" +:+ key_kind p +:+ ":" +:+ key_peer p)).
  { intros p S P. rewrite Build_shape. unfold is_shared, key_rest, effective_scope. rewrite S.
    change (String.eqb DMScopePerChannelPeer "") with false. cbv iota.
    apply String.eqb_neq in P. rewrite P.
    change (in_strings _ _) with true. rewrite andb_false_r.
    destruct (is_direct p) eqn:D; [|done]. simpl.
    unfold is_direct in D. apply String.eqb_eq in D. unfold key_kind. by rewrite D. }
  rewrite !HB by done. split.
  - intros [? H]%agent_key_inj; [|apply NormalizeAgentID_no_colon..].
    apply colon_inj in H as [? H]; [|done..]. by apply colon_inj in H as [? ?].
  - by intros (-> & -> & -> & ->).
Qed.

Lemma per_channel_peer_isolation_witness :
  let p ch id := mkSessionKeyParams "main" ch "" (Some (mkRoutePeer "direct" id))
                   DMScopePerChannelPeer [] in
  BuildAgentPeerSessionKey (p "telegram" "7") <> BuildAgentPeerSessionKey (p "discord" "7").
Proof.
  intros p H. apply per_channel_peer_isolation in H;
    [|first [reflexivity | discriminate | decide_now]..].
  destruct H as (_ & H & _). discriminate H.
Defined.

(** The links that name a peer. *)
Definition peer_links (params : SessionKeyParams) : list string :=
  link_candidates (Channel params)
    (TrimSpace (ID (default (mkRoutePeer "direct" "") (Peer params)))).

(** The answer of the search does not depend on the order of the iteration
    when the matching entries agree on the name. *)
Lemma resolve_links links channel peerID e :
  TrimSpace peerID <> "" -> e ∈ links ->
  link_matches (link_candidates channel (TrimSpace peerID)) e = true ->
  (forall e', e' ∈ links -> link_matches (link_candidates channel (TrimSpace peerID)) e' = true ->
              TrimSpace (fst e') = TrimSpace (fst e)) ->
  resolveLinkedPeerID links channel peerID = TrimSpace (fst e).
Proof.
  intros Hp He Hm Hu. unfold resolveLinkedPeerID.
  destruct links as [|e0 links]; [by apply elem_of_nil in He|].
  apply String.eqb_neq in Hp. rewrite Hp.
  destruct (link_candidates channel (TrimSpace peerID)) as [|c cs] eqn:Ec.
  { exfalso. unfold link_matches in Hm. apply andb_true_iff in Hm as (_ & Hm).
    apply existsb_exists in Hm as (id & _ & Hm). by rewrite andb_false_r in Hm. }
  destruct (find_first _ (e0 :: links)) as [[cn ids]|] eqn:Ef.
  - pose proof (find_first_elem _ _ _ Ef). apply find_first_Some in Ef as [Hf _].
    by apply (Hu (cn, ids)).
  - apply find_first_None in Ef. rewrite Forall_forall in Ef. apply Ef in He. congruence.
Qed.

(** Peers of different channels that the identity links give one name
    share a conversation per peer, whatever the order in which the links are
    visited, when no link gives one of them another name. *)
Theorem linked_peers_share p1 p2 e :
  Scope p1 = DMScopePerPeer -> Scope p2 = DMScopePerPeer ->
  is_direct p1 = true -> is_direct p2 = true ->
  NormalizeAgentID (AgentID p1) = NormalizeAgentID (AgentID p2) ->
  IdentityLinks p1 ≡ₚ IdentityLinks p2 -> e ∈ IdentityLinks p1 ->
  (forall p, p = p1 \/ p = p2 ->
     TrimSpace (ID (default (mkRoutePeer "direct" "") (Peer p))) <> "" /\
     link_matches (peer_links p) e = true /\
     (forall e', e' ∈ IdentityLinks p1 -> link_matches (peer_links p) e' = true ->
                 TrimSpace (fst e') = TrimSpace (fst e))) ->
  BuildAgentPeerSessionKey p1 = BuildAgentPeerSessionKey p2 /\
  BuildAgentPeerSessionKey p1 =
    agent_key (NormalizeAgentID (AgentID p1)) ("direct:" +:+ ToLower (TrimSpace (fst e))).
Proof.
  intros S1 S2 D1 D2 HA HP He Hall.
  assert (HK : forall p, p = p1 \/ p = p2 -> Scope p = DMScopePerPeer -> is_direct p = true ->
    BuildAgentPeerSessionKey p =
      agent_key (NormalizeAgentID (AgentID p)) ("direct:" +:+ ToLower (TrimSpace (fst e)))).
  { intros p Hp S D. destruct (Hall p Hp) as (Hid & Hm & Hu).
    assert (Hne : TrimSpace (fst e) <> "").
    { unfold link_matches in Hm. apply andb_true_iff in Hm as (Hm & _). by breflect. }
    assert (HR : resolveLinkedPeerID (IdentityLinks p) (Channel p)
              (TrimSpace (ID (default (mkRoutePeer "direct" "") (Peer p)))) = TrimSpace (fst e)).
    { assert (Hsub : forall x, x ∈ IdentityLinks p <-> x ∈ IdentityLinks p1).
      { intros x. destruct Hp as [->| ->]; [done|]. by rewrite HP. }
      apply resolve_links; rewrite ?TrimSpace_idem; [done | by apply Hsub | done |].
      intros e' ?%Hsub. by apply Hu. }
    assert (HKP : key_peer p = ToLower (TrimSpace (fst e))).
    { unfold key_peer, direct_peer, effective_scope. rewrite D, S. simpl.
      change (String.eqb DMScopePerPeer "") with false. cbv iota.
      change (String.eqb DMScopePerPeer DMScopeMain) with false. rewrite HR.
      apply String.eqb_neq in Hid, Hne. by rewrite Hid, Hne. }
    rewrite Build_shape. unfold is_shared, key_rest, effective_scope. rewrite S, D, HKP.
    change (String.eqb DMScopePerPeer "") with false. cbv iota.
    assert (HL : ToLower (TrimSpace (fst e)) <> "") by (by rewrite ToLower_empty).
    apply String.eqb_neq in HL. by rewrite HL. }
  rewrite (HK p1), (HK p2) by auto. by rewrite HA.
Qed.

Lemma linked_peers_share_witness :
  let links := [("Alice", ["telegram:123"; "discord:456"])] in
  BuildAgentPeerSessionKey (mkSessionKeyParams "main" "Telegram" "" (Some (mkRoutePeer "" "123"))
                              DMScopePerPeer links) =
  BuildAgentPeerSessionKey (mkSessionKeyParams "MAIN" "Discord" "" (Some (mkRoutePeer "direct" " 456 "))
                              DMScopePerPeer links).
Proof.
  intros links. apply (linked_peers_share _ _ ("Alice", ["telegram:123"; "discord:456"]));
    [reflexivity.. | by apply list_elem_of_singleton |].
  intros p [-> | ->]; (split_and!; [discriminate | reflexivity |]);
    intros e' ->%list_elem_of_singleton _; reflexivity.
Defined.

(** A peer that two links name differently belongs to the session of the
    link that the iteration meets first. *)
Example ambiguous_link_order :
  let p links := mkSessionKeyParams "main" "telegram" "" (Some (mkRoutePeer "direct" "1"))
                   DMScopePerPeer links in
  BuildAgentPeerSessionKey (p [("a", ["1"]); ("b", ["telegram:1"])]) = "agent:main:direct:a" /\
  BuildAgentPeerSessionKey (p [("b", ["telegram:1"]); ("a", ["1"])]) = "agent:main:direct:b".
Proof. split; reflexivity. Qed.
