(* ===== verification/Route.v ===== *)
(** * Agent routing: [src/pkg/routing/route.go]

    Which agent handles a message, by a cascade of bindings.  The part of the
    configuration it reads is the record [Config]. *)

From S2P Require Import Prelude GoStrings GoLib.
Import GoRegexp.
From S2P Require Import AgentID SessionKey.

(** ** Data *)

Record BindingMatch : Type := mkBindingMatch {
  MatchChannel : string;
  MatchAccountID : string;
  MatchPeer : option RoutePeer;
  MatchGuildID : string;
  MatchTeamID : string
}.

Record AgentBinding : Type := mkAgentBinding { BoundAgentID : string; Match : BindingMatch }.

Record AgentConfig : Type := mkAgentConfig { ConfiguredID : string; Default : bool }.

(** [cfg.Agents.List], [cfg.Bindings], [cfg.Session]. *)
Record Config : Type := mkConfig {
  Agents : list AgentConfig;
  Bindings : list AgentBinding;
  ConfigDMScope : string;
  ConfigIdentityLinks : list (string * list string)
}.

Record RouteInput : Type := mkRouteInput {
  InChannel : string;
  InAccountID : string;
  InPeer : option RoutePeer;
  InParentPeer : option RoutePeer;
  InGuildID : string;
  InTeamID : string
}.

Record ResolvedRoute : Type := mkResolvedRoute {
  RouteAgentID : string;
  RouteChannel : string;
  RouteAccountID : string;
  SessionKey : string;
  MainSessionKey : string;
  MatchedBy : string
}.

(** ** Operations *)

Definition resolveDefaultAgentID (cfg : Config) : string :=
  match Agents cfg with
  | [] => DefaultAgentID
  | a0 :: _ =>
      match find_first (fun a => Default a && negb (String.eqb (TrimSpace (ConfiguredID a)) ""))
              (Agents cfg) with
      | Some a => NormalizeAgentID (TrimSpace (ConfiguredID a))
      | None =>
          let id := TrimSpace (ConfiguredID a0) in
          if String.eqb id "" then DefaultAgentID else NormalizeAgentID id
      end
  end.

Definition pickAgentID (cfg : Config) (agentID : string) : string :=
  let trimmed := TrimSpace agentID in
  if String.eqb trimmed "" then NormalizeAgentID (resolveDefaultAgentID cfg)
  else
    let normalized := NormalizeAgentID trimmed in
    match Agents cfg with
    | [] => normalized
    | agents =>
        if existsb (fun a => String.eqb (NormalizeAgentID (ConfiguredID a)) normalized) agents
        then normalized
        else NormalizeAgentID (resolveDefaultAgentID cfg)
    end.

Definition matchesAccountID (matchAccountID actual : string) : bool :=
  let trimmed := TrimSpace matchAccountID in
  if String.eqb trimmed "" then String.eqb actual DefaultAccountID
  else if String.eqb trimmed "*" then true
  else String.eqb (ToLower trimmed) (ToLower actual).

(** The test of the loop of [filterBindings]. *)
Definition binding_matches (channel accountID : string) (b : AgentBinding) : bool :=
  let matchChannel := ToLower (TrimSpace (MatchChannel (Match b))) in
  if String.eqb matchChannel "" || negb (String.eqb matchChannel channel) then false
  else matchesAccountID (MatchAccountID (Match b)) accountID.

Definition filterBindings (cfg : Config) (channel accountID : string) : list AgentBinding :=
  List.filter (binding_matches channel accountID) (Bindings cfg).

Definition peer_binding (peer : RoutePeer) (b : AgentBinding) : bool :=
  match MatchPeer (Match b) with
  | None => false
  | Some p =>
      let peerKind := ToLower (TrimSpace (Kind p)) in
      let peerID := TrimSpace (ID p) in
      if String.eqb peerKind "" || String.eqb peerID "" then false
      else String.eqb peerKind (ToLower (Kind peer)) && String.eqb peerID (ID peer)
  end.

Definition findPeerMatch (bindings : list AgentBinding) (peer : RoutePeer) : option AgentBinding :=
  find_first (peer_binding peer) bindings.

Definition id_binding (field : BindingMatch -> string) (id : string) (b : AgentBinding) : bool :=
  let matchID := TrimSpace (field (Match b)) in
  negb (String.eqb matchID "") && String.eqb matchID id.

Definition findGuildMatch (bindings : list AgentBinding) (guildID : string) : option AgentBinding :=
  find_first (id_binding MatchGuildID guildID) bindings.

Definition findTeamMatch (bindings : list AgentBinding) (teamID : string) : option AgentBinding :=
  find_first (id_binding MatchTeamID teamID) bindings.

(** No peer, guild or team in the binding. *)
Definition unspecific (b : AgentBinding) : bool :=
  negb (match MatchPeer (Match b) with Some _ => true | None => false end
        || negb (String.eqb (MatchGuildID (Match b)) "")
        || negb (String.eqb (MatchTeamID (Match b)) "")).

Definition account_binding (b : AgentBinding) : bool :=
  if String.eqb (TrimSpace (MatchAccountID (Match b))) "*" then false else unspecific b.

Definition findAccountMatch (bindings : list AgentBinding) : option AgentBinding :=
  find_first account_binding bindings.

Definition wildcard_binding (b : AgentBinding) : bool :=
  if negb (String.eqb (TrimSpace (MatchAccountID (Match b))) "*") then false else unspecific b.

Definition findChannelWildcardMatch (bindings : list AgentBinding) : option AgentBinding :=
  find_first wildcard_binding bindings.

(** The closure [choose] of [ResolveRoute]. *)
Definition choose (cfg : Config) (channel accountID : string) (peer : option RoutePeer)
    (agentID matchedBy : string) : ResolvedRoute :=
  let dmScope := if String.eqb (ConfigDMScope cfg) "" then DMScopeMain else ConfigDMScope cfg in
  let resolvedAgentID := pickAgentID cfg agentID in
  let sessionKey := ToLower (BuildAgentPeerSessionKey
    (mkSessionKeyParams resolvedAgentID channel accountID peer dmScope (ConfigIdentityLinks cfg))) in
  let mainSessionKey := ToLower (BuildAgentMainSessionKey resolvedAgentID) in
  mkResolvedRoute resolvedAgentID channel accountID sessionKey mainSessionKey matchedBy.

(** [if c { if match := find(); match != nil { return ... } }] *)
Definition or_else {A} (c : bool) (m : option A) (found : A -> ResolvedRoute) (rest : ResolvedRoute) :
    ResolvedRoute :=
  if c then match m with Some b => found b | None => rest end else rest.

Definition present (peer : option RoutePeer) : bool :=
  match peer with Some p => negb (String.eqb (TrimSpace (ID p)) "") | None => false end.

Definition ResolveRoute (cfg : Config) (input : RouteInput) : ResolvedRoute :=
  let channel := ToLower (TrimSpace (InChannel input)) in
  let accountID := NormalizeAccountID (InAccountID input) in
  let peer := InPeer input in
  let bindings := filterBindings cfg channel accountID in
  let choose := choose cfg channel accountID peer in
  let parentPeer := InParentPeer input in
  let guildID := TrimSpace (InGuildID input) in
  let teamID := TrimSpace (InTeamID input) in
  or_else (present peer) (peer ≫= findPeerMatch bindings)
    (fun m => choose (BoundAgentID m) "binding.peer") $
  or_else (present parentPeer) (parentPeer ≫= findPeerMatch bindings)
    (fun m => choose (BoundAgentID m) "binding.peer.parent") $
  or_else (negb (String.eqb guildID "")) (findGuildMatch bindings guildID)
    (fun m => choose (BoundAgentID m) "binding.guild") $
  or_else (negb (String.eqb teamID "")) (findTeamMatch bindings teamID)
    (fun m => choose (BoundAgentID m) "binding.team") $
  or_else true (findAccountMatch bindings)
    (fun m => choose (BoundAgentID m) "binding.account") $
  or_else true (findChannelWildcardMatch bindings)
    (fun m => choose (BoundAgentID m) "binding.channel") $
  choose (resolveDefaultAgentID cfg) "default".

(** ** The specification of the cascade *)

Inductive level : Type := ByPeer | ByParent | ByGuild | ByTeam | ByAccount | ByChannel.

Definition levels : list level := [ByPeer; ByParent; ByGuild; ByTeam; ByAccount; ByChannel].

Definition rank (k : level) : nat :=
  match k with ByPeer => 0 | ByParent => 1 | ByGuild => 2 | ByTeam => 3 | ByAccount => 4 | ByChannel => 5 end.

Definition level_name (k : level) : string :=
  match k with
  | ByPeer => "binding.peer" | ByParent => "binding.peer.parent" | ByGuild => "binding.guild"
  | ByTeam => "binding.team" | ByAccount => "binding.account" | ByChannel => "binding.channel"
  end.

Definition peer_applies (peer : option RoutePeer) (b : AgentBinding) : bool :=
  present peer && match peer with Some p => peer_binding p b | None => false end.

(** A binding of the message's channel and account applies at a level. *)
Definition applies (input : RouteInput) (k : level) (b : AgentBinding) : bool :=
  binding_matches (ToLower (TrimSpace (InChannel input))) (NormalizeAccountID (InAccountID input)) b &&
  match k with
  | ByPeer => peer_applies (InPeer input) b
  | ByParent => peer_applies (InParentPeer input) b
  | ByGuild => id_binding MatchGuildID (TrimSpace (InGuildID input)) b
  | ByTeam => id_binding MatchTeamID (TrimSpace (InTeamID input)) b
  | ByAccount => account_binding b
  | ByChannel => wildcard_binding b
  end.

(** The first level at which a binding applies, and the first such binding. *)
Fixpoint best (input : RouteInput) (bs : list AgentBinding) (ks : list level) :
    option (level * AgentBinding) :=
  match ks with
  | [] => None
  | k :: ks' => match find_first (applies input k) bs with
                | Some b => Some (k, b)
                | None => best input bs ks'
                end
  end.

Lemma find_first_filter {A} (p q : A -> bool) l :
  find_first p (List.filter q l) = find_first (fun x => q x && p x) l.
Proof.
  induction l as [|x l IH]; simpl; [done|]. destruct (q x); simpl; [|done].
  by destruct (p x).
Qed.

Lemma find_first_ext {A} (p q : A -> bool) l :
  (forall x, p x = q x) -> find_first p l = find_first q l.
Proof. intros H. induction l as [|x l IH]; simpl; [done|]. by rewrite H, IH. Qed.

Lemma find_first_false {A} (p : A -> bool) l : (forall x, p x = false) -> find_first p l = None.
Proof. intros H. apply find_first_None, Forall_forall. auto. Qed.

(** One conditional of the cascade is one level of the specification. *)
Lemma or_else_level cfg input k (c : bool) (m : option AgentBinding) found rest bs :
  bs = Bindings cfg ->
  (if c then m else None) = find_first (applies input k) bs ->
  or_else c m found rest =
    match find_first (applies input k) bs with Some b => found b | None => rest end.
Proof. intros -> H. unfold or_else. rewrite <- H. by destruct c. Qed.

Lemma peer_level (cfg : Config) input k peer :
  (k = ByPeer /\ peer = InPeer input) \/ (k = ByParent /\ peer = InParentPeer input) ->
  (if present peer
   then peer ≫= findPeerMatch (filterBindings cfg (ToLower (TrimSpace (InChannel input)))
                                 (NormalizeAccountID (InAccountID input)))
   else None) = find_first (applies input k) (Bindings cfg).
Proof.
  intros Hk.
  assert (Ha : forall b, applies input k b =
    binding_matches (ToLower (TrimSpace (InChannel input))) (NormalizeAccountID (InAccountID input)) b
    && peer_applies peer b) by (intros b; by destruct Hk as [[-> ->]|[-> ->]]).
  rewrite (find_first_ext _ _ _ Ha). unfold peer_applies.
  destruct (present peer) eqn:Hp.
  - destruct peer as [p|]; [|done]. simpl. unfold findPeerMatch, filterBindings.
    by rewrite find_first_filter.
  - symmetry. apply find_first_false. intros b. apply andb_false_r.
Qed.

Lemma id_level (cfg : Config) input k field id :
  (k = ByGuild /\ field = MatchGuildID /\ id = TrimSpace (InGuildID input)) \/
  (k = ByTeam /\ field = MatchTeamID /\ id = TrimSpace (InTeamID input)) ->
  (if negb (String.eqb id "")
   then find_first (id_binding field id)
          (filterBindings cfg (ToLower (TrimSpace (InChannel input)))
             (NormalizeAccountID (InAccountID input)))
   else None) = find_first (applies input k) (Bindings cfg).
Proof.
  intros Hk.
  assert (Ha : forall b, applies input k b =
    binding_matches (ToLower (TrimSpace (InChannel input))) (NormalizeAccountID (InAccountID input)) b
    && id_binding field id b) by (intros b; by destruct Hk as [(-> & -> & ->)|(-> & -> & ->)]).
  rewrite (find_first_ext _ _ _ Ha). unfold filterBindings. rewrite find_first_filter.
  destruct (String.eqb_spec id "") as [->|]; simpl; [|done].
  symmetry. apply find_first_false. intros b. unfold id_binding.
  destruct (String.eqb_spec (TrimSpace (field (Match b))) ""); apply andb_false_r.
Qed.

(** [ResolveRoute] refines the specification. *)
Lemma ResolveRoute_best cfg input :
  ResolveRoute cfg input =
    let pick := choose cfg (ToLower (TrimSpace (InChannel input)))
                  (NormalizeAccountID (InAccountID input)) (InPeer input) in
    match best input (Bindings cfg) levels with
    | Some (k, b) => pick (BoundAgentID b) (level_name k)
    | None => pick (resolveDefaultAgentID cfg) "default"
    end.
Proof.
  cbv zeta. unfold ResolveRoute. cbv zeta.
  rewrite (or_else_level cfg input ByPeer _ _ _ _ _ eq_refl) by (apply peer_level; auto).
  rewrite (or_else_level cfg input ByParent _ _ _ _ _ eq_refl) by (apply peer_level; auto).
  rewrite (or_else_level cfg input ByGuild _ _ _ _ _ eq_refl) by (apply id_level; auto).
  rewrite (or_else_level cfg input ByTeam _ _ _ _ _ eq_refl) by (apply id_level; auto).
  rewrite (or_else_level cfg input ByAccount _ _ _ _ _ eq_refl) by apply find_first_filter.
  rewrite (or_else_level cfg input ByChannel _ _ _ _ _ eq_refl) by apply find_first_filter.
  unfold best, levels. repeat (destruct (find_first _ _); [done|]). done.
Qed.

Lemma best_spec input bs ks :
  match best input bs ks with
  | Some (k, b) =>
      exists ks1 ks2 bs1 bs2, ks = ks1 ++ k :: ks2 /\ bs = bs1 ++ b :: bs2 /\
        applies input k b = true /\ Forall (fun x => applies input k x = false) bs1 /\
        Forall (fun k' => Forall (fun x => applies input k' x = false) bs) ks1
  | None => Forall (fun k' => Forall (fun x => applies input k' x = false) bs) ks
  end.
Proof.
  induction ks as [|k ks IH]; simpl; [done|].
  destruct (find_first (applies input k) bs) as [b|] eqn:Ef.
  - apply find_first_Some in Ef as (Hb & bs1 & bs2 & -> & HF).
    exists [], ks, bs1, bs2. auto.
  - apply find_first_None in Ef. destruct (best input bs ks) as [[k' b]|]; [|by constructor].
    destruct IH as (ks1 & ks2 & bs1 & bs2 & -> & ? & ? & ? & ?).
    exists (k :: ks1), ks2, bs1, bs2. split_and!; try done. by constructor.
Qed.

Lemma levels_before ks1 k ks2 k' :
  levels = ks1 ++ k :: ks2 -> (rank k' < rank k)%nat -> k' ∈ ks1.
Proof.
  intros H Hr. unfold levels in H.
  destruct ks1 as [|? [|? [|? [|? [|? [|? [|? ?]]]]]]]; simplify_eq/=; try by destruct k'; simpl in Hr; lia.
  all: destruct k'; simpl in Hr; first [lia | repeat first [left | right]].
Qed.

(** ** Properties *)

(** C37: the cascade: a route found by a binding takes, of the bindings of the
    message's channel and account, the first one in the configuration that
    applies at the highest level at which any applies; the default agent is
    used exactly when no binding applies at any level. *)
Theorem ResolveRoute_cascade cfg input :
  let r := ResolveRoute cfg input in
  (MatchedBy r = "default" /\ RouteAgentID r = pickAgentID cfg (resolveDefaultAgentID cfg) /\
   forall k b, b ∈ Bindings cfg -> applies input k b = false) \/
  (exists k bs1 b bs2, MatchedBy r = level_name k /\ RouteAgentID r = pickAgentID cfg (BoundAgentID b) /\
   Bindings cfg = bs1 ++ b :: bs2 /\ applies input k b = true /\
   (forall b', b' ∈ bs1 -> applies input k b' = false) /\
   forall k' b', (rank k' < rank k)%nat -> b' ∈ Bindings cfg -> applies input k' b' = false).
Proof.
  intros r. subst r. rewrite ResolveRoute_best.
  pose proof (best_spec input (Bindings cfg) levels) as HB.
  destruct (best input (Bindings cfg) levels) as [[k b]|]; cbv zeta.
  - right. destruct HB as (ks1 & ks2 & bs1 & bs2 & Hk & Hb & Ha & H1 & H2).
    exists k, bs1, b, bs2. split_and!; try done.
    + intros b' Hb'. by eapply Forall_forall in H1.
    + intros k' b' Hr Hb'. pose proof (levels_before _ _ _ _ Hk Hr) as Hin.
      eapply Forall_forall in H2; [|exact Hin]. by eapply Forall_forall in H2.
  - left. split_and!; [done..|]. intros k b Hb.
    assert (Hin : k ∈ levels) by (destruct k; decide_now || (unfold levels; set_solver)).
    eapply Forall_forall in HB; [|exact Hin]. by eapply Forall_forall in HB.
Qed.

(** *** The agent *)

Lemma NormalizeAgentID_TrimSpace id : NormalizeAgentID (TrimSpace id) = NormalizeAgentID id.
Proof. unfold NormalizeAgentID, normalize_id. by rewrite TrimSpace_idem. Qed.

Lemma NormalizeAgentID_blank id : TrimSpace id = "" -> NormalizeAgentID id = DefaultAgentID.
Proof. unfold NormalizeAgentID, normalize_id. by intros ->. Qed.

(** The default agent is the configured agent marked so, or the first one. *)
Lemma resolveDefaultAgentID_configured cfg :
  Agents cfg <> [] ->
  exists a, a ∈ Agents cfg /\ resolveDefaultAgentID cfg = NormalizeAgentID (ConfiguredID a).
Proof.
  unfold resolveDefaultAgentID. destruct (Agents cfg) as [|a0 l]; [done|]. intros _.
  destruct (find_first _ (a0 :: l)) as [a|] eqn:E.
  - exists a. split; [by eapply find_first_elem | apply NormalizeAgentID_TrimSpace].
  - exists a0. split; [by left|]. destruct (String.eqb_spec (TrimSpace (ConfiguredID a0)) "").
    + by rewrite NormalizeAgentID_blank.
    + apply NormalizeAgentID_TrimSpace.
Qed.

(** No configured identifier begins with an underscore. *)
Definition plain_agents (cfg : Config) : Prop :=
  forall a, a ∈ Agents cfg -> head (chars (NormalizeAgentID (ConfiguredID a))) <> Some "_"%char.

Lemma pickAgentID_configured cfg agentID :
  Agents cfg <> [] -> plain_agents cfg ->
  exists a, a ∈ Agents cfg /\ pickAgentID cfg agentID = NormalizeAgentID (ConfiguredID a).
Proof.
  intros Hne Hp.
  assert (HD : exists a, a ∈ Agents cfg /\
    NormalizeAgentID (resolveDefaultAgentID cfg) = NormalizeAgentID (ConfiguredID a)).
  { destruct (resolveDefaultAgentID_configured cfg Hne) as (a & Ha & ->). exists a.
    split; [done|]. by apply NormalizeAgentID_fixed, Hp. }
  unfold pickAgentID. destruct (String.eqb (TrimSpace agentID) ""); [done|].
  destruct (Agents cfg) as [|a0 l] eqn:Ea; [done|].
  destruct (existsb _ (a0 :: l)) eqn:Ee; [|done].
  apply existsb_exists in Ee as (a & Hin & Heq). breflect.
  exists a. split; [by apply list_elem_of_In | done].
Qed.

Lemma chars_agent_key a r : ToLower (agent_key a r) = agent_key (ToLower a) (ToLower r).
Proof. unfold agent_key. by rewrite !ToLower_app. Qed.

Lemma ToLower_colon s : ":"%char ∈ chars s -> ":"%char ∈ chars (ToLower s).
Proof.
  rewrite chars_ToLower. intros H. change ":"%char with (lower_byte ":").
  by apply list_elem_of_fmap_2.
Qed.

(** The two keys of a route name its agent. *)
Lemma choose_keys cfg channel accountID peer agentID matchedBy :
  let r := choose cfg channel accountID peer agentID matchedBy in
  NormalizeAgentID (RouteAgentID r) = RouteAgentID r ->
  ParseAgentSessionKey (MainSessionKey r) = Some (mkParsedSessionKey (RouteAgentID r) DefaultMainKey) /\
  exists rest, ParseAgentSessionKey (SessionKey r) = Some (mkParsedSessionKey (RouteAgentID r) rest) /\
    (SessionKey r = MainSessionKey r <-> rest = DefaultMainKey).
Proof.
  cbv zeta. unfold choose. cbn [RouteAgentID MainSessionKey SessionKey].
  set (a := pickAgentID cfg agentID). intros Hn.
  destruct (NormalizeAgentID_clean a) as (Hne & _ & Hl). rewrite Hn in Hne, Hl.
  destruct (id_shape_body _ (NormalizeAgentID_shape a)) as [Hb _]. rewrite Hn in Hb.
  assert (HM : ToLower (BuildAgentMainSessionKey a) = agent_key a DefaultMainKey).
  { change (BuildAgentMainSessionKey a) with (agent_key (NormalizeAgentID a) DefaultMainKey).
    by rewrite chars_agent_key, Hn, Hl. }
  rewrite HM. split; [by apply Parse_agent_key|].
  rewrite Build_shape. cbn [AgentID]. rewrite !Hn.
  set (p := mkSessionKeyParams _ _ _ _ _ _).
  destruct (is_shared p) eqn:Es; rewrite chars_agent_key, Hl.
  - exists DefaultMainKey. split; [by apply Parse_agent_key | done].
  - destruct (key_rest_form p Es) as (Hr & Ht & Hc). exists (ToLower (key_rest p)).
    split.
    + apply Parse_agent_key; try done; [by rewrite ToLower_empty | by apply ToLower_tail].
    + split; [|by intros ->]. intros E.
      by apply agent_key_inj in E as [_ E]; [|apply body_no_colon..].
Qed.

(** With a list of agents none of whose identifiers begins with an
    underscore, the route leads to a configured agent. Both its keys are read
    back as keys of that agent. *)
Theorem ResolveRoute_agent cfg input :
  Agents cfg <> [] -> plain_agents cfg ->
  let r := ResolveRoute cfg input in
  (exists a, a ∈ Agents cfg /\ RouteAgentID r = NormalizeAgentID (ConfiguredID a)) /\
  ParseAgentSessionKey (MainSessionKey r) = Some (mkParsedSessionKey (RouteAgentID r) DefaultMainKey) /\
  exists rest, ParseAgentSessionKey (SessionKey r) = Some (mkParsedSessionKey (RouteAgentID r) rest).
Proof.
  intros Hne Hp r.
  assert (HC : exists channel accountID peer agentID by_,
    r = choose cfg channel accountID peer agentID by_).
  { subst r. rewrite ResolveRoute_best. cbv zeta. destruct (best _ _ _) as [[k b]|]; eauto 6. }
  destruct HC as (channel & accountID & peer & agentID & by_ & ->).
  destruct (pickAgentID_configured cfg agentID Hne Hp) as (a & Ha & Ep).
  destruct (choose_keys cfg channel accountID peer agentID by_) as (H1 & rest & H2 & _).
  - simpl. rewrite Ep. by apply NormalizeAgentID_fixed, Hp.
  - split; [by exists a|]. split; [done|]. by exists rest.
Qed.

(** A configuration with two agents and three bindings. *)
Definition example_config : Config :=
  mkConfig [mkAgentConfig "Main Agent" false; mkAgentConfig "sales" true]
    [mkAgentBinding "main-agent" (mkBindingMatch "telegram" "*" None "" "");
     mkAgentBinding "sales" (mkBindingMatch "Telegram" "" None "" "");
     mkAgentBinding "ghost" (mkBindingMatch "telegram" "" (Some (mkRoutePeer "group" "g1")) "" "")]
    "per-peer" [].

Definition example_input (peer : option RoutePeer) : RouteInput :=
  mkRouteInput "telegram" "" peer None "" "".

Lemma ResolveRoute_agent_witness :
  let r := ResolveRoute example_config (example_input (Some (mkRoutePeer "group" "g1"))) in
  MatchedBy r = "binding.peer" /\ RouteAgentID r = "sales" /\
  exists rest, ParseAgentSessionKey (SessionKey r) = Some (mkParsedSessionKey "sales" rest).
Proof.
  split; [reflexivity | split; [reflexivity|]].
  apply (ResolveRoute_agent example_config (example_input (Some (mkRoutePeer "group" "g1"))));
    [discriminate|].
  intros a [-> | [-> | []%elem_of_nil]%elem_of_cons]%elem_of_cons; discriminate.
Defined.

Example ResolveRoute_examples :
  map (fun p => (fun r => (RouteAgentID r, SessionKey r, MatchedBy r))
     (ResolveRoute example_config (example_input (Some (mkRoutePeer "direct" p))))) ["7"; ""] =
    [("sales", "agent:sales:direct:7", "binding.account"); ("sales", "agent:sales:main", "binding.account")] /\
  (fun r => (RouteAgentID r, SessionKey r, MatchedBy r))
    (ResolveRoute example_config (mkRouteInput " TELEGRAM " "work" None None "" "")) =
    ("main-agent", "agent:main-agent:main", "binding.channel").
Proof. split; reflexivity. Qed.

(** Without that condition the key can name another agent than the route: the
    identifier is normalised once for the route and twice for the key. *)
Example key_of_another_agent :
  exists cfg input,
    let r := ResolveRoute cfg input in
    (exists a, a ∈ Agents cfg /\ RouteAgentID r = NormalizeAgentID (ConfiguredID a)) /\
    ParseAgentSessionKey (MainSessionKey r) <> Some (mkParsedSessionKey (RouteAgentID r) DefaultMainKey).
Proof.
  exists (mkConfig [mkAgentConfig long_underscore true]
            [mkAgentBinding long_underscore (mkBindingMatch "cli" "*" None "" "")] "" []),
         (mkRouteInput "cli" "" None None "" "").
  split; [|vm_compute; discriminate].
  exists (mkAgentConfig long_underscore true). split; [by left | reflexivity].
Qed.
