(* ===== verification/Message.v ===== *)
(** * Messages: [src/pkg/providers/protocoltypes/types.go]

    The messages exchanged with a model, as the session store and the
    estimators see them.  The field
    [ToolCall.Arguments] (excluded from the encoding) is not modelled. *)

From S2P Require Import Prelude.

Record FunctionCall : Type := mkFunctionCall {
  FnName : string;
  FnArguments : string;
  FnThoughtSignature : string
}.

(** [ExtraContent] and its [GoogleExtra]: two pointers around one string. *)
Definition ExtraContent : Type := option string.

Record ToolCall : Type := mkToolCall {
  CallID : string;
  CallType : string;
  Function : option FunctionCall;
  CallName : string;
  CallThoughtSignature : string;
  CallExtra : option ExtraContent
}.

Record ContentBlock : Type := mkContentBlock {
  BlockType : string;
  Text : string;
  CacheControl : option string
}.

Record Message : Type := mkMessage {
  Role : string;
  Content : string;
  Media : list string;
  ReasoningContent : string;
  SystemParts : list ContentBlock;
  ToolCalls : list ToolCall;
  ToolCallID : string
}.

(** A plain message. *)
Definition text_message (role content : string) : Message :=
  mkMessage role content [] "" [] [] "".

#[global] Instance FunctionCall_eq_dec : EqDecision FunctionCall.
Proof. solve_decision. Defined.

#[global] Instance ToolCall_eq_dec : EqDecision ToolCall.
Proof. solve_decision. Defined.

#[global] Instance ContentBlock_eq_dec : EqDecision ContentBlock.
Proof. solve_decision. Defined.

#[global] Instance Message_eq_dec : EqDecision Message.
Proof. solve_decision. Defined.
