(* ===== verification/ModelRouter.v ===== *)
(** * Light or heavy model: [src/pkg/routing/classifier.go], [features.go], [router.go]

    The structural features of a message, their weighted sum in float64 and
    the comparison with the threshold.  [strings.Count] and [strings.Contains]
    work on bytes, [estimateTokens] on runes. *)

From S2P Require Import Prelude GoStrings GoLib.
Import GoFloat Utf8.
From S2P Require Import Message.

(** ** Features *)

Definition lookbackWindow : nat := 6.

Record Features : Type := mkFeatures {
  TokenEstimate : Z;
  CodeBlockCount : Z;
  RecentToolCalls : Z;
  ConversationDepth : Z;
  HasAttachments : bool
}.

Definition is_cjk (r : rune) : bool :=
  (11904 <=? r) && (r <=? 40959) || (63744 <=? r) && (r <=? 64255) || (44032 <=? r) && (r <=? 55215).

Definition estimateTokens (msg : string) : Z :=
  let total := RuneCount msg in
  if total =? 0 then 0
  else let cjk := Z.of_nat (length (List.filter is_cjk (runes msg))) in
       cjk + Z.quot (total - cjk) 4.

Definition countCodeBlocks (msg : string) : Z := Z.quot (Count msg "```") 2.

Definition count_calls (history : list Message) : Z :=
  fold_left (fun count msg => count + Z.of_nat (length (ToolCalls msg))) history 0.

Definition countRecentToolCalls (history : list Message) : Z :=
  count_calls (drop (length history - lookbackWindow) history).

Definition mediaExts : list string :=
  [".jpg"; ".jpeg"; ".png"; ".gif"; ".webp"; ".bmp";
   ".mp3"; ".wav"; ".ogg"; ".m4a"; ".flac";
   ".mp4"; ".avi"; ".mov"; ".webm"].

Definition hasAttachments (msg : string) : bool :=
  let lower := ToLower msg in
  if Contains lower "data:image/" || Contains lower "data:audio/" || Contains lower "data:video/"
  then true
  else existsb (Contains lower) mediaExts.

Definition ExtractFeatures (msg : string) (history : list Message) : Features :=
  mkFeatures (estimateTokens msg) (countCodeBlocks msg) (countRecentToolCalls history)
             (Z.of_nat (length history)) (hasAttachments msg).

(** ** The rule classifier *)

Definition RuleClassifier_Score (f : Features) : float64 :=
  if HasAttachments f then fone
  else
    let score := fzero in
    let score := if 200 <? TokenEstimate f then fadd score (lit 35 100)
                 else if 50 <? TokenEstimate f then fadd score (lit 15 100) else score in
    let score := if 0 <? CodeBlockCount f then fadd score (lit 40 100) else score in
    let score := if 3 <? RecentToolCalls f then fadd score (lit 25 100)
                 else if 0 <? RecentToolCalls f then fadd score (lit 10 100) else score in
    let score := if 10 <? ConversationDepth f then fadd score (lit 10 100) else score in
    if fltb fone score then fone else score.

(** ** The router *)

Definition defaultThreshold : float64 := lit 35 100.

Record RouterConfig : Type := mkRouterConfig { LightModelName : string; CfgThreshold : float64 }.

(** [Classifier] is an interface with one method. *)
Record Router : Type := mkRouter { cfg : RouterConfig; classifier : Features -> float64 }.

Definition newWithClassifier (cfg : RouterConfig) (c : Features -> float64) : Router :=
  let cfg := if fleb (CfgThreshold cfg) fzero
             then mkRouterConfig (LightModelName cfg) defaultThreshold else cfg in
  mkRouter cfg c.

Definition New (cfg : RouterConfig) : Router := newWithClassifier cfg RuleClassifier_Score.

Definition LightModel (r : Router) : string := LightModelName (cfg r).
Definition Threshold (r : Router) : float64 := CfgThreshold (cfg r).

Definition SelectModel (r : Router) (msg : string) (history : list Message) (primaryModel : string) :
    string * bool * float64 :=
  let features := ExtractFeatures msg history in
  let score := classifier r features in
  if fltb score (CfgThreshold (cfg r)) then (LightModelName (cfg r), true, score)
  else (primaryModel, false, score).

(** ** Lemmas *)

(** The score only depends on a finite class of the features. *)

Definition tok_class (n : Z) : Z := if 200 <? n then 201 else if 50 <? n then 51 else 0.
Definition block_class (n : Z) : Z := if 0 <? n then 1 else 0.
Definition call_class (n : Z) : Z := if 3 <? n then 4 else if 0 <? n then 1 else 0.
Definition depth_class (n : Z) : Z := if 10 <? n then 11 else 0.

Definition representative (f : Features) : Features :=
  mkFeatures (tok_class (TokenEstimate f)) (block_class (CodeBlockCount f))
    (call_class (RecentToolCalls f)) (depth_class (ConversationDepth f)) (HasAttachments f).

Definition representatives : list Features :=
  a ← [false; true]; d ← [0; 11]; c ← [0; 1; 4]; b ← [0; 1]; t ← [0; 51; 201];
  [mkFeatures t b c d a].

Lemma representative_in f : representative f ∈ representatives.
Proof.
  unfold representative, tok_class, block_class, call_class, depth_class.
  destruct (HasAttachments f); repeat case_match; vm_compute;
    repeat first [apply list_elem_of_here | apply list_elem_of_further].
Qed.

Lemma Score_representative f : RuleClassifier_Score f = RuleClassifier_Score (representative f).
Proof.
  unfold RuleClassifier_Score, representative, tok_class, block_class, call_class, depth_class.
  cbn [HasAttachments TokenEstimate CodeBlockCount RecentToolCalls ConversationDepth].
  destruct (HasAttachments f); [done|].
  destruct (200 <? TokenEstimate f), (50 <? TokenEstimate f), (0 <? CodeBlockCount f),
    (3 <? RecentToolCalls f), (0 <? RecentToolCalls f), (10 <? ConversationDepth f); reflexivity.
Qed.

(** A decidable fact about the score holds when it does on the 72 classes. *)
Lemma class_forall (p : Features -> bool) :
  forallb p representatives = true -> forall f, p (representative f) = true.
Proof. intros H f. rewrite forallb_forall in H. apply H, list_elem_of_In, representative_in. Qed.

(** Feature-wise order. *)
Definition le_features (f g : Features) : Prop :=
  TokenEstimate f <= TokenEstimate g /\ CodeBlockCount f <= CodeBlockCount g /\
  RecentToolCalls f <= RecentToolCalls g /\ ConversationDepth f <= ConversationDepth g /\
  (HasAttachments f = true -> HasAttachments g = true).

Definition leb_features (f g : Features) : bool :=
  (TokenEstimate f <=? TokenEstimate g) && (CodeBlockCount f <=? CodeBlockCount g) &&
  (RecentToolCalls f <=? RecentToolCalls g) && (ConversationDepth f <=? ConversationDepth g) &&
  implb (HasAttachments f) (HasAttachments g).

Lemma representative_mono f g :
  le_features f g -> leb_features (representative f) (representative g) = true.
Proof.
  intros (H1 & H2 & H3 & H4 & H5). unfold leb_features, representative.
  cbn [HasAttachments TokenEstimate CodeBlockCount RecentToolCalls ConversationDepth].
  unfold tok_class, block_class, call_class, depth_class.
  rewrite !andb_true_iff, !Z.leb_le. split_and!;
    [repeat case_match; lia .. | destruct (HasAttachments f); [by rewrite H5 | done]].
Qed.

(** The signals that make the heavy model the choice at the default threshold. *)
Definition heavy (f : Features) : bool :=
  HasAttachments f || (0 <? CodeBlockCount f) || (200 <? TokenEstimate f) ||
  (50 <? TokenEstimate f) && (3 <? RecentToolCalls f) ||
  (3 <? RecentToolCalls f) && (10 <? ConversationDepth f) ||
  (50 <? TokenEstimate f) && (0 <? RecentToolCalls f) && (10 <? ConversationDepth f).

Lemma heavy_representative f : heavy (representative f) = heavy f.
Proof.
  unfold heavy, representative, tok_class, block_class, call_class, depth_class.
  cbn [HasAttachments TokenEstimate CodeBlockCount RecentToolCalls ConversationDepth].
  f_equal; [f_equal; [f_equal; [f_equal; [f_equal|]|]|]|]; repeat case_match; lia.
Qed.

Lemma light_at_default f : fltb (RuleClassifier_Score f) defaultThreshold = negb (heavy f).
Proof.
  rewrite Score_representative, <- heavy_representative. apply eqb_prop.
  apply (class_forall (fun g => Bool.eqb (fltb (RuleClassifier_Score g) defaultThreshold)
                                  (negb (heavy g)))).
  vm_compute. reflexivity.
Qed.

Lemma threshold_default c :
  fleb (CfgThreshold c) fzero = true \/ CfgThreshold c = defaultThreshold ->
  Threshold (New c) = defaultThreshold /\ LightModel (New c) = LightModelName c.
Proof.
  unfold New, newWithClassifier, Threshold, LightModel.
  intros [H | H]; [by rewrite H|]. rewrite H.
  by replace (fleb defaultThreshold fzero) with false by (vm_compute; reflexivity).
Qed.

(** ** Properties *)

(** With the default threshold (or none) the light model is used exactly
    for messages without attachment, code block or long text that combine at
    most a medium text with few tool calls, or dense tool calls with a short
    conversation. The sums of the weights are rounded as float64 and are
    compared as such. *)
Theorem SelectModel_default c msg history primary :
  fleb (CfgThreshold c) fzero = true \/ CfgThreshold c = defaultThreshold ->
  let light := negb (heavy (ExtractFeatures msg history)) in
  SelectModel (New c) msg history primary =
    (if light then LightModelName c else primary, light,
     RuleClassifier_Score (ExtractFeatures msg history)).
Proof.
  intros H. destruct (threshold_default c H) as [Ht Hl]. unfold Threshold, LightModel in *.
  unfold SelectModel. rewrite Ht, Hl.
  replace (classifier (New c)) with RuleClassifier_Score by done.
  rewrite light_at_default. by destruct (heavy _).
Qed.

Lemma SelectModel_default_witness :
  fst (SelectModel (New (mkRouterConfig "small" fzero)) "Hello, how are you?" [] "big") = ("small", true) /\
  fst (SelectModel (New (mkRouterConfig "small" fzero)) "see PHOTO.JPG" [] "big") = ("big", false).
Proof.
  split.
  - rewrite SelectModel_default; [vm_compute; reflexivity | left; reflexivity].
  - rewrite SelectModel_default; [vm_compute; reflexivity | left; reflexivity].
Defined.

(** The score is between 0 and 1 and never decreases when a feature
    grows; it is 1 for every message with an attachment. *)
Theorem Score_range_monotone f g :
  fleb fzero (RuleClassifier_Score f) = true /\ fleb (RuleClassifier_Score f) fone = true /\
  (HasAttachments f = true -> RuleClassifier_Score f = fone) /\
  (le_features f g -> fleb (RuleClassifier_Score f) (RuleClassifier_Score g) = true).
Proof.
  split_and!.
  - rewrite Score_representative.
    apply (class_forall (fun h => fleb fzero (RuleClassifier_Score h))). vm_compute. reflexivity.
  - rewrite Score_representative.
    apply (class_forall (fun h => fleb (RuleClassifier_Score h) fone)). vm_compute. reflexivity.
  - intros H. unfold RuleClassifier_Score. by rewrite H.
  - intros H. rewrite (Score_representative f), (Score_representative g).
    assert (HA : forallb (fun h => forallb (fun k => implb (leb_features h k)
       (fleb (RuleClassifier_Score h) (RuleClassifier_Score k))) representatives) representatives = true)
      by (vm_compute; reflexivity).
    pose proof (class_forall _ HA f) as HB. pose proof (class_forall _ HB g) as HC.
    cbv beta in HC. by rewrite (representative_mono f g H) in HC.
Qed.

Lemma Score_range_monotone_witness :
  fleb (RuleClassifier_Score (mkFeatures 60 0 2 3 false)) (RuleClassifier_Score (mkFeatures 90 1 2 12 false)) = true.
Proof.
  apply (Score_range_monotone (mkFeatures 60 0 2 3 false) (mkFeatures 90 1 2 12 false)).
  vm_compute. repeat split; try discriminate.
Defined.

(** *** The features *)

Lemma estimateTokens_bounds msg : 0 <= estimateTokens msg <= RuneCount msg.
Proof.
  unfold estimateTokens. pose proof (RuneCount_nonneg msg).
  assert (Hc : Z.of_nat (length (List.filter is_cjk (runes msg))) <= RuneCount msg).
  { unfold RuneCount. apply inj_le. apply List.filter_length_le. }
  destruct (Z.eqb_spec (RuneCount msg) 0); [lia|]. rewrite Z.quot_div_nonneg by lia.
  pose proof (Z.div_le_upper_bound (RuneCount msg - Z.of_nat (length (List.filter is_cjk (runes msg)))) 4
    (RuneCount msg - Z.of_nat (length (List.filter is_cjk (runes msg))))).
  pose proof (Z.div_pos (RuneCount msg - Z.of_nat (length (List.filter is_cjk (runes msg)))) 4). lia.
Qed.

(** Only the last six messages count. *)
Lemma countRecentToolCalls_window old recent :
  length recent = lookbackWindow -> countRecentToolCalls (old ++ recent) = count_calls recent.
Proof.
  intros H. unfold countRecentToolCalls. rewrite length_app, H.
  replace (length old + lookbackWindow - lookbackWindow)%nat with (length old) by lia.
  by rewrite drop_app_length.
Qed.

(** A picture whose extension is not in the list goes to the light model. *)
Example undetected_attachment :
  fst (SelectModel (New (mkRouterConfig "small" fzero)) "look at scan.tiff" [] "big") = ("small", true).
Proof. vm_compute. reflexivity. Qed.
