(* ===== verification/Identity.v ===== *)
(** * Sender identities and allow lists: [src/pkg/identity/identity.go] *)

From S2P Require Import Prelude GoStrings GoLib.
Import GoRegexp.
From S2P Require Import AgentID SessionKey.

(** [bus.SenderInfo] *)
Record SenderInfo : Type := mkSenderInfo {
  Platform : string;
  PlatformID : string;
  CanonicalID : string;
  Username : string;
  DisplayName : string
}.

Definition BuildCanonicalID (platform platformID : string) : string :=
  let p := ToLower (TrimSpace platform) in
  let id := TrimSpace platformID in
  if String.eqb p "" || String.eqb id "" then "" else p +:+ ":" +:+ id.

Definition ParseCanonicalID (canonical : string) : option (string * string) :=
  let canonical := TrimSpace canonical in
  match Index canonical ":" with
  | None => None
  | Some idx =>
      if (idx =? 0)%nat || (idx =? length (chars canonical) - 1)%nat then None
      else Some (slice_to canonical idx, slice_from canonical (S idx))
  end.

Definition isNumeric (s : string) : bool :=
  match chars s with
  | [] => false
  | "-"%char :: (_ :: _ as l) => forallb is_digit l
  | l => forallb is_digit l
  end.

(** The legacy formats: what follows the attempt at a canonical entry. *)
Definition match_legacy (sender : SenderInfo) (allowed : string) : bool :=
  let isAtUsername := HasPrefix allowed "@" in
  let trimmed := TrimPrefix allowed "@" in
  let '(allowedID, allowedUser) :=
    match Index trimmed "|" with
    | Some idx => if (0 <? idx)%nat then (slice_to trimmed idx, slice_from trimmed (S idx))
                  else (trimmed, "")
    | None => (trimmed, "")
    end in
  if negb (String.eqb (PlatformID sender) "") && String.eqb (PlatformID sender) allowedID then true
  else if isAtUsername && negb (String.eqb (Username sender) "") && String.eqb (Username sender) trimmed
  then true
  else if negb (String.eqb allowedUser "") && negb (String.eqb (PlatformID sender) "")
          && String.eqb (PlatformID sender) allowedID then true
  else if negb (String.eqb allowedUser "") && negb (String.eqb (Username sender) "")
          && String.eqb (Username sender) allowedUser then true
  else false.

Definition MatchAllowed (sender : SenderInfo) (allowed : string) : bool :=
  let allowed := TrimSpace allowed in
  if String.eqb allowed "" then false
  else
    match ParseCanonicalID allowed with
    | Some (platform, id) =>
        if negb (isNumeric platform) then
          let candidate := BuildCanonicalID platform id in
          if negb (String.eqb candidate "") && negb (String.eqb (CanonicalID sender) "")
          then EqualFold (CanonicalID sender) candidate
          else EqualFold platform (Platform sender) && String.eqb (PlatformID sender) id
        else match_legacy sender allowed
    | None => match_legacy sender allowed
    end.

(** ** Lemmas *)

(** Splitting at the first separator. *)
Lemma Index_sep a c b :
  c ∉ chars a -> Index (a +:+ String c "" +:+ b) (String c "") = Some (length (chars a)).
Proof.
  intros H. unfold Index. apply l_index_byte_Some. exists (chars a), (chars b).
  by rewrite !chars_app.
Qed.

Lemma Index_no_sep a c : c ∉ chars a -> Index a (String c "") = None.
Proof. intros H. unfold Index. by apply l_index_byte_None. Qed.

Lemma slice_to_app a b : slice_to (a +:+ b) (length (chars a)) = a.
Proof. unfold slice_to. by rewrite chars_app, take_app_length, implode_chars. Qed.

Lemma slice_from_app a c b : slice_from (a +:+ String c "" +:+ b) (S (length (chars a))) = b.
Proof.
  unfold slice_from. rewrite !chars_app. change (chars (String c "")) with [c].
  rewrite app_assoc. replace (S (length (chars a))) with (length (chars a ++ [c]))
    by (rewrite length_app; simpl; lia).
  by rewrite drop_app_length, implode_chars.
Qed.

Lemma length_nonempty s : s <> "" -> (0 < length (chars s))%nat.
Proof. intros H. destruct (chars s) eqn:E; [by apply chars_nil in E | simpl; lia]. Qed.

Lemma Parse_sep p id :
  p <> "" -> id <> "" -> ":"%char ∉ chars p -> TrimSpace (p +:+ ":" +:+ id) = p +:+ ":" +:+ id ->
  ParseCanonicalID (p +:+ ":" +:+ id) = Some (p, id).
Proof.
  intros Hp Hid Hc Ht. unfold ParseCanonicalID. rewrite Ht, Index_sep by done.
  pose proof (length_nonempty p Hp). pose proof (length_nonempty id Hid).
  destruct (Nat.eqb_spec (length (chars p)) 0); [lia|].
  destruct (Nat.eqb_spec (length (chars p)) (length (chars (p +:+ ":" +:+ id)) - 1)) as [E|].
  - rewrite !chars_app, !length_app in E. simpl in E. lia.
  - simpl. by rewrite slice_to_app, slice_from_app.
Qed.

(** The first byte is not the beginning of a space. *)
Definition head_trimmed (s : string) : Prop := space_len (chars s) = O.

Lemma TrimSpace_head s : head_trimmed (TrimSpace s).
Proof.
  unfold head_trimmed. rewrite chars_TrimSpace, <- trim_right_left. apply trim_left_size.
Qed.

Lemma head_before s t : s <> "" -> head_trimmed s -> head_trimmed (s +:+ ":" +:+ t).
Proof.
  unfold head_trimmed. rewrite !chars_app. intros Hne.
  destruct (chars s) as [|c [|d [|e l]]] eqn:E; [by apply chars_nil in E | | |]; simpl.
  - destruct (sp1 c) eqn:E1; [done|]. intros _.
    assert (H2 : sp2 c ":"%char = false) by (unfold sp2; by rewrite andb_false_r).
    rewrite H2. destruct (chars t) as [|e l]; [done|].
    assert (H3 : sp3 c ":"%char e = false).
    { unfold sp3. change (code ":"%char) with 58. by rewrite !andb_false_r. }
    by rewrite H3.
  - destruct (sp1 c); [done|]. destruct (sp2 c d); [done|]. intros _.
    assert (H3 : sp3 c d ":"%char = false).
    { unfold sp3, between. change (code ":"%char) with 58. by rewrite !andb_false_r. }
    by rewrite H3.
  - done.
Qed.

Lemma trimmed_ends s : head_trimmed s -> tail_trimmed s -> TrimSpace s = s.
Proof.
  intros Hh Ht. apply chars_inj. rewrite chars_TrimSpace, trim_left_fix by done.
  by apply trim_right_fix.
Qed.

(** ** Properties *)

(** A canonical identifier is parsed into the lower-cased platform and
    the platform's identifier, and building it again changes nothing. *)
Theorem canonical_roundtrip platform id :
  TrimSpace platform <> "" -> TrimSpace id <> "" -> ":"%char ∉ chars platform ->
  let c := BuildCanonicalID platform id in
  ParseCanonicalID c = Some (ToLower (TrimSpace platform), TrimSpace id) /\
  BuildCanonicalID (ToLower (TrimSpace platform)) (TrimSpace id) = c.
Proof.
  intros Hp Hid Hc c. subst c. unfold BuildCanonicalID.
  rewrite TrimSpace_ToLower, !TrimSpace_idem, ToLower_idem.
  assert (HP : ToLower (TrimSpace platform) <> "") by (by rewrite ToLower_empty).
  pose proof HP as HP'. pose proof Hid as Hid'. apply String.eqb_neq in HP', Hid'.
  rewrite HP', Hid'. split; [|done]. simpl orb. cbv iota. apply Parse_sep; try done.
  - rewrite chars_ToLower, list_elem_of_fmap. intros (x & Hx & Hin).
    assert (Hl : forall y, lower_byte y = ":"%char -> y = ":"%char).
    { intros y Hy. assert (Hb : forall z, (implb (Ascii.eqb (lower_byte z) ":") (Ascii.eqb z ":")) = true)
        by (apply byte_forall; vm_compute; reflexivity).
      specialize (Hb y). rewrite Hy in Hb. by apply Ascii.eqb_eq. }
    symmetry in Hx. apply Hl in Hx as ->.
    destruct (TrimSpace_sub platform) as (a & b & Hs). apply Hc. rewrite Hs, !chars_app. set_solver.
  - apply trimmed_ends.
    + apply head_before; [done|]. rewrite <- TrimSpace_ToLower. apply TrimSpace_head.
    + by apply tail_trimmed_after, TrimSpace_tail.
Qed.

Lemma canonical_roundtrip_witness :
  BuildCanonicalID " Telegram" "123 " = "telegram:123" /\
  ParseCanonicalID "telegram:123" = Some ("telegram", "123").
Proof.
  split; [reflexivity|].
  apply (canonical_roundtrip " Telegram" "123 "); first [discriminate | decide_now].
Defined.

Lemma Parse_no_colon s : TrimSpace s = s -> ":"%char ∉ chars s -> ParseCanonicalID s = None.
Proof. intros Ht H. unfold ParseCanonicalID. by rewrite Ht, Index_no_sep. Qed.

Lemma string_eqb_sym_refl s t : s <> "" -> negb (String.eqb t "") && String.eqb t s = String.eqb t s.
Proof. intros H. destruct (String.eqb_spec t s) as [->|]; [|apply andb_false_r]. by destruct (String.eqb_spec s ""). Qed.

Lemma match_legacy_plain sender x :
  x <> "" -> HasPrefix x "@" = false -> "|"%char ∉ chars x ->
  match_legacy sender x = String.eqb (PlatformID sender) x.
Proof.
  intros Hx Ha Hb. unfold match_legacy, TrimPrefix. rewrite Ha, Index_no_sep by done.
  rewrite string_eqb_sym_refl by done. by destruct (String.eqb (PlatformID sender) x).
Qed.

Lemma match_legacy_at sender x :
  x <> "" -> "|"%char ∉ chars x ->
  match_legacy sender ("@" +:+ x) = String.eqb (PlatformID sender) x || String.eqb (Username sender) x.
Proof.
  intros Hx Hb. unfold match_legacy. rewrite TrimPrefix_app, HasPrefix_app, Index_no_sep by done.
  rewrite andb_true_l, !string_eqb_sym_refl by done.
  destruct (String.eqb (PlatformID sender) x), (String.eqb (Username sender) x); done.
Qed.

Lemma match_legacy_compound sender x u :
  x <> "" -> u <> "" -> HasPrefix x "@" = false -> "|"%char ∉ chars x ->
  match_legacy sender (x +:+ "|" +:+ u) =
    String.eqb (PlatformID sender) x || String.eqb (Username sender) u.
Proof.
  intros Hx Hu Ha Hb.
  assert (HP : HasPrefix (x +:+ "|" +:+ u) "@" = false).
  { unfold HasPrefix in *. rewrite chars_app. destruct (chars x) eqn:E; [by apply chars_nil in E|].
    simpl in *. by destruct (Ascii.eqb "@" a). }
  unfold match_legacy, TrimPrefix. rewrite HP, Index_sep by done.
  pose proof (length_nonempty x Hx). destruct (Nat.ltb_spec 0 (length (chars x))); [|lia].
  rewrite slice_to_app, slice_from_app. apply String.eqb_neq in Hu as Hu'. rewrite Hu'.
  rewrite !andb_true_l, !string_eqb_sym_refl by done.
  destruct (String.eqb (PlatformID sender) x), (String.eqb (Username sender) u); done.
Qed.

(** What each format of an allow-list entry accepts: an identifier, an
    [@name] (which also accepts that text as an identifier), an identifier
    with a name, and a canonical identifier, compared without case or, for a
    sender that has none, by platform and identifier. *)
Theorem MatchAllowed_formats sender x u :
  x <> "" -> u <> "" -> ":"%char ∉ chars x -> "|"%char ∉ chars x -> HasPrefix x "@" = false ->
  (TrimSpace x = x -> MatchAllowed sender x = String.eqb (PlatformID sender) x) /\
  (TrimSpace ("@" +:+ x) = "@" +:+ x ->
   MatchAllowed sender ("@" +:+ x) = String.eqb (PlatformID sender) x || String.eqb (Username sender) x) /\
  (TrimSpace (x +:+ "|" +:+ u) = x +:+ "|" +:+ u -> ":"%char ∉ chars u ->
   MatchAllowed sender (x +:+ "|" +:+ u) =
     String.eqb (PlatformID sender) x || String.eqb (Username sender) u) /\
  (TrimSpace (x +:+ ":" +:+ u) = x +:+ ":" +:+ u -> TrimSpace x = x -> TrimSpace u = u ->
   isNumeric x = false ->
   MatchAllowed sender (x +:+ ":" +:+ u) =
     if String.eqb (CanonicalID sender) ""
     then EqualFold x (Platform sender) && String.eqb (PlatformID sender) u
     else EqualFold (CanonicalID sender) (x +:+ ":" +:+ u)).
Proof.
  intros Hx Hu Hc Hb Ha.
  assert (Hne : forall s t, t <> "" -> String.eqb (s +:+ t) "" = false).
  { intros s t Ht. apply String.eqb_neq. destruct s; done. }
  split_and!.
  - intros Ht. unfold MatchAllowed. rewrite Ht, Parse_no_colon by done.
    apply String.eqb_neq in Hx as Hx'. rewrite Hx'. by apply match_legacy_plain.
  - intros Ht. unfold MatchAllowed. rewrite Ht, Parse_no_colon, Hne; [by apply match_legacy_at|done|done|].
    rewrite chars_app. by apply not_elem_of_cons.
  - intros Ht Hcu. unfold MatchAllowed. rewrite Ht, Parse_no_colon, Hne;
      [by apply match_legacy_compound | done | done |].
    rewrite !chars_app, !not_elem_of_app. split_and!; [done | decide_now | done].
  - intros Ht Htx Htu Hn. unfold MatchAllowed. rewrite Ht, Hne, Parse_sep by done. rewrite Hn. simpl negb. cbv iota.
    unfold BuildCanonicalID. rewrite Htx, Htu.
    assert (HL : ToLower x <> "") by (by rewrite ToLower_empty).
    apply String.eqb_neq in HL, Hu. rewrite HL, Hu. simpl orb. cbv iota.
    rewrite Hne by done. simpl negb. destruct (String.eqb (CanonicalID sender) ""); [done|].
    simpl. unfold EqualFold. by rewrite !ToLower_app, ToLower_idem.
Qed.

Lemma MatchAllowed_formats_witness :
  let s := mkSenderInfo "telegram" "123" "telegram:123" "alice" "Alice" in
  MatchAllowed s "telegram:123" = true /\ MatchAllowed s "telegram|alice" = true /\
  MatchAllowed s "telegram" = false /\ MatchAllowed s "@telegram" = false.
Proof.
  intros s.
  destruct (MatchAllowed_formats s "telegram" "alice") as (H1 & H2 & H3 & _);
    [discriminate | discriminate | decide_now | decide_now | reflexivity |].
  destruct (MatchAllowed_formats s "telegram" "123") as (_ & _ & _ & H4);
    [discriminate | discriminate | decide_now | decide_now | reflexivity |].
  split_and!.
  - refine (eq_trans (H4 _ _ _ _) _); reflexivity.
  - refine (eq_trans (H3 _ _) _); first [reflexivity | decide_now].
  - refine (eq_trans (H1 _) _); reflexivity.
  - refine (eq_trans (H2 _) _); reflexivity.
Defined.

(** An anonymous sender is on no list, and an empty entry allows nobody. *)
Lemma MatchAllowed_empty sender allowed :
  MatchAllowed (mkSenderInfo "" "" "" "" "") allowed = false /\
  (TrimSpace allowed = "" -> MatchAllowed sender allowed = false).
Proof.
  split; [|unfold MatchAllowed; by intros ->].
  assert (HL : forall a, match_legacy (mkSenderInfo "" "" "" "" "") a = false).
  { intros a. unfold match_legacy. simpl. destruct (Index _ _); [|by rewrite !andb_false_r].
    destruct (0 <? n)%nat; by rewrite !andb_false_r. }
  unfold MatchAllowed. destruct (String.eqb (TrimSpace allowed) ""); [done|].
  destruct (ParseCanonicalID (TrimSpace allowed)) as [[p id]|] eqn:Ep; [|done].
  destruct (isNumeric p); simpl; [done|]. rewrite andb_false_r. apply andb_false_iff. left.
  unfold EqualFold. apply String.eqb_neq. rewrite ToLower_empty. intros ->. revert Ep.
  unfold ParseCanonicalID. repeat case_match; try done. intros; simplify_eq.
  apply orb_false_iff in H0 as [H0 _]. breflect.
  match goal with H : slice_to _ _ = "" |- _ => unfold slice_to in H; apply (f_equal chars) in H;
    rewrite chars_implode in H; simpl in H end.
  match goal with H : take _ _ = [] |- _ => apply (f_equal length) in H; rewrite length_take in H; simpl in H end.
  match goal with H : Index _ _ = Some _ |- _ => unfold Index in H; apply l_index_Some in H as (a & b & E & <-) end.
  rewrite E, !length_app in *. simpl in *. lia.
Qed.
