(* ===== verification/Split.v ===== *)
(** * Splitting long messages: [src/pkg/channels/split.go]

    The loop of [SplitMessage] over a slice of runes.  Indices are integers
    as in the code.  A slice expression out of range is the outcome
    [Panicked]; the reads [runes[i]] are in range because every range that is
    searched ends at most at [len(runes)].  The loop need not terminate: it
    takes fuel, and running out of it is an outcome of its own. *)

From S2P Require Import Prelude GoStrings GoLib.
Import Utf8.

(** ** Searching *)

Definition newline : rune := 10.
Definition is_newline (r : rune) : bool := r =? newline.
Definition is_blank (r : rune) : bool := (r =? 32) || (r =? 9).
Definition is_white (r : rune) : bool := (r =? 32) || (r =? 9) || (r =? 10) || (r =? 13).

Definition rune_at (rs : list rune) (i : Z) : rune := nth (Z.to_nat i) rs 0.

(** Three back quotes at [i]. *)
Definition fence_at (rs : list rune) (i : Z) : bool :=
  (rune_at rs i =? 96) && (rune_at rs (i + 1) =? 96) && (rune_at rs (i + 2) =? 96).

(** The last of the [n] indices from [lo] on that passes the test. *)
Fixpoint find_last (p : rune -> bool) (rs : list rune) (lo : Z) (n : nat) : option Z :=
  match n with
  | O => None
  | S k => let i := lo + Z.of_nat k in
           if p (rune_at rs i) then Some i else find_last p rs lo k
  end.

Definition find_last_in_range (p : rune -> bool) (rs : list rune) (start stop searchWindow : Z) : Z :=
  let searchStart := Z.max (stop - searchWindow) start in
  default (start - 1) (find_last p rs searchStart (Z.to_nat (stop - searchStart))).

Definition findLastNewlineInRange := find_last_in_range is_newline.
Definition findLastSpaceInRange := find_last_in_range is_blank.

(** The first of the [n] indices from [i] on that passes the test. *)
Fixpoint find_next (p : Z -> bool) (i : Z) (n : nat) : option Z :=
  match n with
  | O => None
  | S k => if p i then Some i else find_next p (i + 1) k
  end.

Definition findNewlineFrom (rs : list rune) (from : Z) : Z :=
  default (-1) (find_next (fun i => is_newline (rune_at rs i)) from
                  (Z.to_nat (Z.of_nat (length rs) - from))).

Definition findNextClosingCodeBlockInRange (rs : list rune) (startIdx stop : Z) : Z :=
  match find_next (fun i => (i + 2 <? stop) && fence_at rs i) startIdx (Z.to_nat (stop - startIdx)) with
  | Some i => i + 3
  | None => -1
  end.

(** The loop over the fences; every turn advances [i]. *)
Fixpoint unclosed_loop (fuel : nat) (rs : list rune) (stop i : Z) (inCodeBlock : bool) (lastOpenIdx : Z) :
    bool * Z :=
  match fuel with
  | O => (inCodeBlock, lastOpenIdx)
  | S f =>
      if i <? stop then
        if (i + 2 <? stop) && fence_at rs i
        then unclosed_loop f rs stop (i + 3) (negb inCodeBlock) (if inCodeBlock then lastOpenIdx else i)
        else unclosed_loop f rs stop (i + 1) inCodeBlock lastOpenIdx
      else (inCodeBlock, lastOpenIdx)
  end.

Definition findLastUnclosedCodeBlockInRange (rs : list rune) (start stop : Z) : Z :=
  let '(inCodeBlock, lastOpenIdx) := unclosed_loop (Z.to_nat (stop - start)) rs stop start false (-1) in
  if inCodeBlock then lastOpenIdx else -1.

(** ** The loop *)

(** [runes[a:b]]; [None] when the bounds are out of range. *)
Definition slice (rs : list rune) (a b : Z) : option (list rune) :=
  if (0 <=? a) && (a <=? b) && (b <=? Z.of_nat (length rs))
  then Some (take (Z.to_nat (b - a)) (drop (Z.to_nat a) rs)) else None.

(** [strings.TrimRight(s, " \t\n\r")] *)
Definition white_byte (c : ascii) : bool := is_white (code c).

Fixpoint strip_white (l : list ascii) : list ascii :=
  match l with
  | c :: l' => if white_byte c then strip_white l' else l
  | [] => []
  end.

Definition TrimRightWhite (s : string) : string := implode (rev (strip_white (rev (chars s)))).

Definition newline_string : string := String (ascii_of_nat 10) "".

Record state : Type := mkState { content : list rune; start : Z; messages : list string }.

Inductive outcome : Type :=
| Continue (s : state)
| Finished (messages : list string)
| Panicked.

(** Close the block in this chunk and reopen it in front of the rest. *)
Definition split_inside (s : state) (header : string) (at_ : Z) : outcome :=
  match slice (content s) (start s) at_, slice (content s) at_ (Z.of_nat (length (content s))) with
  | Some inside, Some rest =>
      let chunk := TrimRightWhite (string_of_runes inside) +:+ newline_string +:+ "```" in
      let remaining := TrimSpace (header +:+ newline_string +:+ string_of_runes rest) in
      Continue (mkState (runes remaining) 0 (messages s ++ [chunk]))
  | _, _ => Panicked
  end.

(** Skip the white space before the next chunk. *)
Fixpoint skip_white (rs : list rune) (i : Z) (n : nat) : Z :=
  match n with
  | O => i
  | S k => if is_white (rune_at rs i) then skip_white rs (i + 1) k else i
  end.

Definition emit (s : state) (effectiveLimit msgEnd : Z) : outcome :=
  let totalLen := Z.of_nat (length (content s)) in
  let msgEnd := if msgEnd <=? start s then start s + effectiveLimit else msgEnd in
  match slice (content s) (start s) msgEnd with
  | Some chunk =>
      Continue (mkState (content s) (skip_white (content s) msgEnd (Z.to_nat (totalLen - msgEnd)))
                  (messages s ++ [string_of_runes chunk]))
  | None => Panicked
  end.

Definition codeBlockBuffer (maxLen : Z) : Z :=
  let b := Z.max (Z.quot maxLen 10) 50 in
  if Z.quot maxLen 2 <? b then Z.quot maxLen 2 else b.

Definition effective_limit (maxLen : Z) : Z := Z.max (maxLen - codeBlockBuffer maxLen) (Z.quot maxLen 2).

(** The natural split point. *)
Definition natural_end (s : state) (effectiveLimit : Z) : Z :=
  let stop := start s + effectiveLimit in
  let msgEnd := findLastNewlineInRange (content s) (start s) stop 200 in
  let msgEnd := if msgEnd <=? start s then findLastSpaceInRange (content s) (start s) stop 100 else msgEnd in
  if msgEnd <=? start s then stop else msgEnd.

(** The block opened at [unclosedIdx] is not closed within [maxLen]. *)
Definition long_block (s : state) (maxLen effectiveLimit msgEnd unclosedIdx : Z) : outcome :=
  let rs := content s in
  let totalLen := Z.of_nat (length rs) in
  let headerEnd := findNewlineFrom rs unclosedIdx in
  match slice rs unclosedIdx (if headerEnd =? -1 then unclosedIdx + 3 else headerEnd) with
  | None => Panicked
  | Some header_runes =>
      let header := TrimSpace (string_of_runes header_runes) in
      let headerEndIdx := if headerEnd =? -1 then unclosedIdx + RuneCount header else headerEnd in
      if headerEndIdx + 20 <? msgEnd then
        let innerLimit := Z.min (start s + maxLen - 5) totalLen in
        let betterEnd := findLastNewlineInRange rs (start s) innerLimit 200 in
        split_inside s header (if headerEndIdx <? betterEnd then betterEnd else innerLimit)
      else
        let newEnd := findLastNewlineInRange rs (start s) unclosedIdx 200 in
        let newEnd := if newEnd <=? start s then findLastSpaceInRange rs (start s) unclosedIdx 100
                      else newEnd in
        if start s <? newEnd then emit s effectiveLimit newEnd
        else if 20 <? unclosedIdx - start s then emit s effectiveLimit unclosedIdx
        else split_inside s header (Z.min (start s + maxLen - 5) totalLen)
  end.

(** One turn of the loop. *)
Definition step (maxLen : Z) (s : state) : outcome :=
  let rs := content s in
  let totalLen := Z.of_nat (length rs) in
  if totalLen <=? start s then Finished (messages s)
  else if totalLen - start s <=? maxLen then
    match slice rs (start s) totalLen with
    | Some rest => Finished (messages s ++ [string_of_runes rest])
    | None => Panicked
    end
  else
    let effectiveLimit := effective_limit maxLen in
    let msgEnd := natural_end s effectiveLimit in
    let unclosedIdx := findLastUnclosedCodeBlockInRange rs (start s) msgEnd in
    if (0 <=? unclosedIdx) && (msgEnd <? totalLen) then
      let closingIdx := findNextClosingCodeBlockInRange rs msgEnd totalLen in
      if (0 <? closingIdx) && (closingIdx - start s <=? maxLen) then emit s effectiveLimit closingIdx
      else long_block s maxLen effectiveLimit msgEnd unclosedIdx
    else emit s effectiveLimit msgEnd.

(** What a run gives; [None] when the fuel is used up. *)
Fixpoint run (fuel : nat) (maxLen : Z) (s : state) : option (result unit (list string)) :=
  match fuel with
  | O => None
  | S f => match step maxLen s with
           | Continue s' => run f maxLen s'
           | Finished ms => Some (Ok ms)
           | Panicked => Some (Err tt)
           end
  end.

Definition SplitMessage (fuel : nat) (content : string) (maxLen : Z) :
    option (result unit (list string)) :=
  if maxLen <=? 0 then Some (Ok (if String.eqb content "" then [] else [content]))
  else run fuel maxLen (mkState (runes content) 0 []).

Example SplitMessage_examples :
  SplitMessage 10 "hello world foo" 8 = Some (Ok ["hell"; "o"; "worl"; "d foo"]) /\
  SplitMessage 10 "short" 8 = Some (Ok ["short"]).
Proof. vm_compute. auto. Qed.

(** ** Lemmas *)

Lemma find_last_range p rs lo n i :
  find_last p rs lo n = Some i -> lo <= i < lo + Z.of_nat n /\ p (rune_at rs i) = true.
Proof.
  induction n as [|k IH]; simpl; [done|].
  destruct (p (rune_at rs (lo + Z.of_nat k))) eqn:E; intros H; simplify_eq.
  - split; [lia | done].
  - destruct (IH H). split; [lia | done].
Qed.

Lemma find_last_in_range_bounds p rs start stop w :
  find_last_in_range p rs start stop w = start - 1 \/
  start <= find_last_in_range p rs start stop w < stop.
Proof.
  unfold find_last_in_range. destruct (find_last _ _ _ _) as [i|] eqn:E; simpl; [|by left].
  apply find_last_range in E. lia.
Qed.

Lemma find_next_range p i n j : find_next p i n = Some j -> i <= j < i + Z.of_nat n /\ p j = true.
Proof.
  revert i; induction n as [|k IH]; intros i; simpl; [done|].
  destruct (p i) eqn:E; intros H; simplify_eq.
  - split; [lia | done].
  - destruct (IH _ H). split; [lia | done].
Qed.

Lemma findNewlineFrom_bounds rs from :
  findNewlineFrom rs from = -1 \/ from <= findNewlineFrom rs from < Z.of_nat (length rs).
Proof.
  unfold findNewlineFrom. destruct (find_next _ _ _) as [i|] eqn:E; simpl; [|by left].
  apply find_next_range in E. lia.
Qed.

Lemma findNextClosing_bounds rs lo stop :
  findNextClosingCodeBlockInRange rs lo stop = -1 \/
  lo + 3 <= findNextClosingCodeBlockInRange rs lo stop <= stop.
Proof.
  unfold findNextClosingCodeBlockInRange. destruct (find_next _ _ _) as [i|] eqn:E; simpl; [|by left].
  apply find_next_range in E as [? E]. breflect. lia.
Qed.

Lemma unclosed_loop_range fuel rs stop i b last lo b' last' :
  unclosed_loop fuel rs stop i b last = (b', last') -> lo <= i ->
  (b = true -> lo <= last /\ last + 2 < stop) ->
  (b' = true -> lo <= last' /\ last' + 2 < stop).
Proof.
  revert i b last; induction fuel as [|f IH]; intros i b last; simpl; [by intros [= <- <-] _ ?|].
  destruct (i <? stop); [|by intros [= <- <-] _ ?].
  destruct ((i + 2 <? stop) && fence_at rs i) eqn:E; intros H Hi Hb.
  - breflect. eapply IH; [exact H | lia |]. destruct b; simpl; [done | intros _; lia].
  - eapply IH; [exact H | lia | done].
Qed.

Lemma findLastUnclosed_bounds rs lo stop :
  0 <= findLastUnclosedCodeBlockInRange rs lo stop -> 0 <= lo ->
  lo <= findLastUnclosedCodeBlockInRange rs lo stop /\
  findLastUnclosedCodeBlockInRange rs lo stop + 2 < stop.
Proof.
  unfold findLastUnclosedCodeBlockInRange. destruct (unclosed_loop _ _ _ _ _ _) as [b last] eqn:E.
  destruct b; [|lia]. intros _ ?.
  pose proof (unclosed_loop_range _ _ _ _ _ _ lo _ _ E) as HR. apply HR; [lia | done | done].
Qed.

Lemma effective_limit_bounds maxLen :
  0 < maxLen -> 1 <= effective_limit maxLen <= maxLen /\ (3 <= effective_limit maxLen -> 5 <= maxLen).
Proof.
  intros H. unfold effective_limit, codeBlockBuffer.
  rewrite !Z.quot_div_nonneg by lia.
  pose proof (Z.div_mod maxLen 2). pose proof (Z.mod_pos_bound maxLen 2).
  destruct (Z.ltb_spec (maxLen / 2) (Z.max (maxLen / 10) 50)); lia.
Qed.

Lemma natural_end_bounds s eff :
  1 <= eff -> start s < natural_end s eff <= start s + eff.
Proof.
  intros H. unfold natural_end, findLastNewlineInRange, findLastSpaceInRange.
  pose proof (find_last_in_range_bounds is_newline (content s) (start s) (start s + eff) 200).
  pose proof (find_last_in_range_bounds is_blank (content s) (start s) (start s + eff) 100).
  repeat case_match; breflect; lia.
Qed.

Lemma skip_white_bounds rs i n : i <= skip_white rs i n <= i + Z.of_nat n.
Proof.
  revert i; induction n as [|k IH]; intros i; simpl; [lia|].
  destruct (is_white _); [specialize (IH (i + 1)); lia | lia].
Qed.

(** *** Trimming in terms of runes *)

Definition byte_of (b : Z) : ascii := ascii_of_N (Z.to_N b).

Lemma chars_string_of_runes rs : chars (string_of_runes rs) = map byte_of (encode rs).
Proof. apply chars_implode. Qed.

Lemma string_of_runes_app rs1 rs2 :
  string_of_runes (rs1 ++ rs2) = string_of_runes rs1 +:+ string_of_runes rs2.
Proof.
  apply chars_inj. rewrite chars_app, !chars_string_of_runes. unfold encode.
  by rewrite flat_map_app, map_app.
Qed.

(** The last byte of a rune beyond ASCII is not white. *)
Lemma encode_rune_last r :
  valid_rune r = true ->
  (encode_rune r = [r] /\ 0 <= r < 128) \/
  (128 <= r /\ exists l b, encode_rune r = l ++ [b] /\ 128 <= b < 256).
Proof.
  intros Hv. unfold encode_rune. rewrite Hv. assert (0 <= r) by (unfold valid_rune in Hv; lia).
  pose proof (Z.mod_pos_bound r 64).
  destruct (Z.ltb_spec r 128); [left; split; [done | lia]|]. right. split; [lia|].
  destruct (Z.ltb_spec r 2048); [exists [192 + r / 64], (128 + r mod 64); split; [done | lia]|].
  destruct (Z.ltb_spec r 65536);
    [exists [224 + r / 4096; 128 + (r / 64) mod 64], (128 + r mod 64); split; [done | lia]|].
  exists [240 + r / 262144; 128 + (r / 4096) mod 64; 128 + (r / 64) mod 64], (128 + r mod 64).
  split; [done | lia].
Qed.

Lemma white_byte_of b : 0 <= b < 256 -> white_byte (byte_of b) = is_white b.
Proof. intros H. unfold white_byte, byte_of. by rewrite code_of_byte. Qed.

Lemma is_white_small r : is_white r = true -> 0 <= r < 128.
Proof. unfold is_white. lia. Qed.

(** Trimming removes runes from the end. *)
Lemma TrimRightWhite_runes rs :
  Forall (fun r => valid_rune r = true) rs ->
  exists rs1 rs2, rs = rs1 ++ rs2 /\ TrimRightWhite (string_of_runes rs) = string_of_runes rs1 /\
    Forall (fun r => is_white r = true) rs2.
Proof.
  induction rs as [|r rs IH] using rev_ind; intros HF.
  - by exists [], [].
  - apply Forall_app in HF as [HF Hr]. inversion Hr as [|? ? Hv _]; subst.
    assert (HL : rev (chars (string_of_runes (rs ++ [r]))) =
      rev (map byte_of (encode_rune r)) ++ rev (chars (string_of_runes rs))).
    { rewrite chars_string_of_runes. unfold encode. rewrite flat_map_app, map_app, rev_app_distr. simpl.
      by rewrite app_nil_r, <- chars_string_of_runes. }
    unfold TrimRightWhite. rewrite HL.
    destruct (encode_rune_last r Hv) as [[Er Hs] | (Hge & l & b & Er & Hb)]; rewrite Er.
    + simpl. rewrite white_byte_of by lia. destruct (is_white r) eqn:Ew.
      * destruct (IH HF) as (rs1 & rs2 & -> & HT & HW). exists rs1, (rs2 ++ [r]).
        split_and!; [by rewrite app_assoc | exact HT |]. apply Forall_app. auto.
      * exists (rs ++ [r]), []. split_and!; [by rewrite app_nil_r | | done].
        apply chars_inj. rewrite chars_implode. simpl. rewrite rev_involutive.
        rewrite string_of_runes_app, chars_app. f_equal.
        rewrite chars_string_of_runes. unfold encode. simpl. by rewrite app_nil_r, Er.
    + rewrite map_app, rev_app_distr. simpl. rewrite white_byte_of by lia.
      assert (Ew : is_white b = false) by (unfold is_white; lia). rewrite Ew.
      exists (rs ++ [r]), []. split_and!; [by rewrite app_nil_r | | done].
      apply chars_inj. rewrite chars_implode. simpl. rewrite rev_app_distr, !rev_involutive.
      rewrite string_of_runes_app, chars_app, <- app_assoc. f_equal.
      rewrite chars_string_of_runes. unfold encode. simpl. rewrite app_nil_r, Er, map_app.
      done.
Qed.

(** *** The invariant of the loop *)

Definition fits (maxLen : Z) (m : string) : Prop := RuneCount m <= maxLen.
Definition valid (rs : list rune) : Prop := Forall (fun r => valid_rune r = true) rs.

Record Inv (maxLen : Z) (s : state) : Prop := {
  inv_start : 0 <= start s <= Z.of_nat (length (content s));
  inv_valid : valid (content s);
  inv_fits : Forall (fits maxLen) (messages s)
}.

Definition outcome_ok (maxLen : Z) (o : outcome) : Prop :=
  match o with
  | Continue s => Inv maxLen s
  | Finished ms => Forall (fits maxLen) ms
  | Panicked => False
  end.

Lemma slice_spec rs a b :
  0 <= a <= b -> b <= Z.of_nat (length rs) ->
  exists l, slice rs a b = Some l /\ Z.of_nat (length l) = b - a /\ (valid rs -> valid l) /\
    l = take (Z.to_nat (b - a)) (drop (Z.to_nat a) rs).
Proof.
  intros H1 H2. unfold slice.
  destruct (Z.leb_spec 0 a), (Z.leb_spec a b), (Z.leb_spec b (Z.of_nat (length rs))); try lia.
  simpl. eexists. split_and!; [done | rewrite length_take, length_drop; lia | | done].
  intros Hv. by apply Forall_take, Forall_drop.
Qed.

Lemma RuneCount_runes rs : valid rs -> RuneCount (string_of_runes rs) = Z.of_nat (length rs).
Proof. intros H. unfold RuneCount. by rewrite runes_string_of_runes. Qed.

Lemma emit_ok maxLen s eff msgEnd :
  Inv maxLen s -> start s < msgEnd <= Z.of_nat (length (content s)) -> msgEnd - start s <= maxLen ->
  outcome_ok maxLen (emit s eff msgEnd).
Proof.
  intros [Hs Hv Hf] Hm Hlen. unfold emit.
  destruct (Z.leb_spec msgEnd (start s)); [lia|].
  destruct (slice_spec (content s) (start s) msgEnd) as (l & -> & Hl & Hvl & _); [lia..|].
  pose proof (skip_white_bounds (content s) msgEnd
    (Z.to_nat (Z.of_nat (length (content s)) - msgEnd))).
  constructor; simpl; [lia | done |]. apply Forall_app. split; [done|].
  constructor; [|constructor]. unfold fits. rewrite RuneCount_runes by auto. lia.
Qed.

Lemma split_inside_ok maxLen s header at_ :
  Inv maxLen s -> start s <= at_ <= Z.of_nat (length (content s)) -> at_ - start s <= maxLen - 5 ->
  outcome_ok maxLen (split_inside s header at_).
Proof.
  intros [Hs Hv Hf] Hm Hlen. unfold split_inside.
  destruct (slice_spec (content s) (start s) at_) as (l & -> & Hl & Hvl & _); [lia..|].
  destruct (slice_spec (content s) at_ (Z.of_nat (length (content s)))) as (k & -> & _); [lia..|].
  constructor; simpl; [lia | apply runes_valid |]. apply Forall_app. split; [done|].
  constructor; [|constructor].
  destruct (TrimRightWhite_runes l (Hvl Hv)) as (l1 & l2 & -> & -> & _).
  specialize (Hvl Hv). apply Forall_app in Hvl as [Hv1 _]. rewrite length_app in Hl.
  change (newline_string +:+ "```") with (string_of_runes [10; 96; 96; 96]).
  rewrite <- string_of_runes_app. unfold fits. rewrite RuneCount_runes.
  - rewrite length_app. simpl. lia.
  - apply Forall_app. split; [done|]. by repeat constructor.
Qed.

Lemma long_block_ok maxLen s msgEnd u :
  let eff := effective_limit maxLen in
  5 <= maxLen -> Inv maxLen s -> msgEnd < Z.of_nat (length (content s)) ->
  msgEnd <= start s + eff -> start s <= u -> u + 2 < msgEnd ->
  outcome_ok maxLen (long_block s maxLen eff msgEnd u).
Proof.
  intros eff H5 HI Ht He Hu1 Hu2. pose proof (inv_start _ _ HI).
  destruct (effective_limit_bounds maxLen) as [Heff _]; [lia|]. fold eff in Heff.
  unfold long_block. cbv zeta.
  pose proof (findNewlineFrom_bounds (content s) u) as Hh.
  set (h := findNewlineFrom (content s) u) in *.
  destruct (slice_spec (content s) u (if h =? -1 then u + 3 else h)) as (hd & -> & _);
    [case_match; breflect; lia..|].
  pose proof (RuneCount_nonneg (TrimSpace (string_of_runes hd))).
  set (hi := if h =? -1 then _ else h). assert (Hhi : u <= hi) by (subst hi; case_match; breflect; lia).
  unfold findLastNewlineInRange, findLastSpaceInRange.
  set (inner := Z.min (start s + maxLen - 5) (Z.of_nat (length (content s)))).
  pose proof (find_last_in_range_bounds is_newline (content s) (start s) inner 200).
  pose proof (find_last_in_range_bounds is_newline (content s) (start s) u 200).
  pose proof (find_last_in_range_bounds is_blank (content s) (start s) u 100).
  destruct (hi + 20 <? msgEnd).
  - apply split_inside_ok; [done | case_match; breflect; lia..].
  - set (newEnd := if _ <=? start s then _ else _).
    assert (Hn : newEnd < u \/ newEnd <= start s) by (subst newEnd; case_match; breflect; lia).
    destruct (Z.ltb_spec (start s) newEnd); [apply emit_ok; [done | lia..]|].
    destruct (Z.ltb_spec 20 (u - start s)); [apply emit_ok; [done | lia..]|].
    apply split_inside_ok; [done | lia..].
Qed.

Lemma step_ok maxLen s : 0 < maxLen -> Inv maxLen s -> outcome_ok maxLen (step maxLen s).
Proof.
  intros Hm HI. pose proof (inv_start _ _ HI) as Hs. unfold step. cbv zeta.
  destruct (Z.leb_spec (Z.of_nat (length (content s))) (start s)); [by apply inv_fits|].
  destruct (Z.leb_spec (Z.of_nat (length (content s)) - start s) maxLen).
  - destruct (slice_spec (content s) (start s) (Z.of_nat (length (content s)))) as (l & -> & Hl & Hv & _);
      [lia..|]. apply Forall_app. split; [by apply inv_fits|]. constructor; [|constructor].
    unfold fits. rewrite RuneCount_runes; [lia | by apply Hv, inv_valid with maxLen].
  - destruct (effective_limit_bounds maxLen Hm) as [Heff H5].
    pose proof (natural_end_bounds s (effective_limit maxLen)) as Hne.
    set (e := natural_end s (effective_limit maxLen)) in *.
    destruct (_ && _) eqn:Eu; [|apply emit_ok; [done | lia..]].
    apply andb_true_iff in Eu as [Eu1 Eu2]. breflect.
    destruct (findLastUnclosed_bounds (content s) (start s) e Eu1) as [Hu1 Hu2]; [lia|].
    destruct (_ && _) eqn:Ec.
    + breflect. pose proof (findNextClosing_bounds (content s) e (Z.of_nat (length (content s)))).
      apply emit_ok; [done | lia..].
    + apply long_block_ok; [apply H5; lia | done | lia..].
Qed.

(** ** Properties *)

(** Whatever the text, the chunks that are returned have at most [maxLen]
    runes each, and no slice expression of the function is out of range. *)
Theorem SplitMessage_fits fuel text maxLen r :
  0 < maxLen -> SplitMessage fuel text maxLen = Some r ->
  exists ms, r = Ok ms /\ Forall (fits maxLen) ms.
Proof.
  intros Hm. unfold SplitMessage. destruct (Z.leb_spec maxLen 0); [lia|].
  assert (HI : Inv maxLen (mkState (runes text) 0 [])).
  { constructor; simpl; [lia | apply runes_valid | constructor]. }
  revert HI. generalize (mkState (runes text) 0 []).
  induction fuel as [|f IH]; intros s HI; simpl; [done|].
  pose proof (step_ok maxLen s Hm HI) as Hok. destruct (step maxLen s) as [s'|ms|]; simpl in Hok.
  - by apply IH.
  - intros; simplify_eq. eauto.
  - done.
Qed.

Lemma SplitMessage_fits_witness :
  Forall (fits 8) ["hell"; "o"; "worl"; "d foo"].
Proof.
  assert (H : SplitMessage 10 "hello world foo" 8 = Some (Ok ["hell"; "o"; "worl"; "d foo"]))
    by (vm_compute; reflexivity).
  destruct (SplitMessage_fits 10 "hello world foo" 8 _ eq_refl H) as (ms & Hms & HF).
  injection Hms as ->. exact HF.
Defined.

(** *** Text without fences *)

Definition no_fence (rs : list rune) : Prop := forall i, 0 <= i -> fence_at rs i = false.

(** The chunks are pieces of the text; only white space between them is
    dropped. *)
Inductive chunks_of : list rune -> list string -> Prop :=
| no_chunks : chunks_of [] []
| one_chunk c w rest ms :
    c <> [] -> Forall (fun r => is_white r = true) w -> chunks_of rest ms ->
    chunks_of (c ++ w ++ rest) (string_of_runes c :: ms).

Lemma unclosed_no_fence fuel rs stop i b last :
  no_fence rs -> 0 <= i -> unclosed_loop fuel rs stop i b last = (b, last).
Proof.
  intros H. revert i; induction fuel as [|f IH]; intros i Hi; simpl; [done|].
  rewrite H, andb_false_r by done. destruct (i <? stop); [apply IH; lia | done].
Qed.

Lemma skip_white_drop rs n i :
  0 <= i -> i + Z.of_nat n <= Z.of_nat (length rs) ->
  exists w, drop (Z.to_nat i) rs = w ++ drop (Z.to_nat (skip_white rs i n)) rs /\
    Forall (fun r => is_white r = true) w.
Proof.
  revert i; induction n as [|n IH]; intros i Hi Hn; simpl; [by exists []|].
  destruct (is_white (rune_at rs i)) eqn:E; [|by exists []].
  destruct (IH (i + 1)) as (w & Hw & HF); [lia..|].
  exists (rune_at rs i :: w). split; [|by constructor].
  simpl. rewrite <- Hw. replace (Z.to_nat (i + 1)) with (S (Z.to_nat i)) by lia.
  apply drop_S. unfold rune_at. destruct (rs !! Z.to_nat i) eqn:El.
  - f_equal. symmetry. by apply nth_lookup_Some.
  - apply lookup_ge_None in El. lia.
Qed.

Lemma emit_plain s eff msgEnd :
  start s < msgEnd <= Z.of_nat (length (content s)) -> 0 <= start s ->
  exists c w s', emit s eff msgEnd = Continue s' /\ content s' = content s /\
    messages s' = messages s ++ [string_of_runes c] /\ msgEnd <= start s' <= Z.of_nat (length (content s)) /\
    c <> [] /\ Forall (fun r => is_white r = true) w /\
    drop (Z.to_nat (start s)) (content s) = c ++ w ++ drop (Z.to_nat (start s')) (content s).
Proof.
  intros Hm Hs. unfold emit. destruct (Z.leb_spec msgEnd (start s)); [lia|].
  destruct (slice_spec (content s) (start s) msgEnd) as (l & -> & Hl & _ & El); [lia..|].
  set (n := Z.to_nat (Z.of_nat (length (content s)) - msgEnd)).
  destruct (skip_white_drop (content s) n msgEnd) as (w & Hw & HF); [lia..|].
  pose proof (skip_white_bounds (content s) msgEnd n).
  eexists l, w, _. split; [reflexivity|]. cbn [content start messages]. split_and!; try done; try lia.
  - intros ->. simpl in Hl. lia.
  - rewrite <- Hw, El. replace (Z.to_nat msgEnd) with (Z.to_nat (start s) + Z.to_nat (msgEnd - start s))%nat by lia.
    rewrite <- drop_drop. by rewrite take_drop.
Qed.

Lemma run_plain maxLen fuel s :
  0 < maxLen -> no_fence (content s) -> 0 <= start s <= Z.of_nat (length (content s)) ->
  Z.of_nat (length (content s)) - start s < Z.of_nat fuel ->
  exists ms, run fuel maxLen s = Some (Ok (messages s ++ ms)) /\
    chunks_of (drop (Z.to_nat (start s)) (content s)) ms.
Proof.
  intros Hm. revert s; induction fuel as [|f IH]; intros s Hn Hs Hf; [lia|]. simpl.
  unfold step. cbv zeta.
  destruct (Z.leb_spec (Z.of_nat (length (content s))) (start s)) as [Hle|Hgt].
  { exists []. rewrite app_nil_r, drop_ge by lia. split; [done | constructor]. }
  destruct (Z.leb_spec (Z.of_nat (length (content s)) - start s) maxLen).
  { destruct (slice_spec (content s) (start s) (Z.of_nat (length (content s)))) as (l & -> & Hl & _ & El); [lia..|].
    exists [string_of_runes l]. split; [done|].
    rewrite take_ge in El by (rewrite length_drop; lia). rewrite <- El.
    rewrite <- (app_nil_r l) at 1. change (l ++ []) with (l ++ [] ++ []).
    constructor; [intros ->; simpl in Hl; lia | constructor | constructor]. }
  unfold findLastUnclosedCodeBlockInRange. rewrite unclosed_no_fence by (done || lia). simpl.
  destruct (effective_limit_bounds maxLen Hm) as [Heff _].
  pose proof (natural_end_bounds s (effective_limit maxLen)).
  destruct (emit_plain s (effective_limit maxLen) (natural_end s (effective_limit maxLen)))
    as (c & w & s' & -> & Hc & Hms & Hs' & Hne & HF & Hd); [lia..|].
  destruct (IH s') as (ms & Hr & Hj); [by rewrite Hc | rewrite Hc; lia | rewrite Hc; lia |].
  exists (string_of_runes c :: ms). rewrite Hr, Hms, <- app_assoc. split; [done|].
  rewrite Hd. rewrite Hc in Hj. by constructor.
Qed.

(** A text without code fences is always split, within as many turns as
    it has runes, into non-empty pieces of it in order; only white space
    between two pieces is lost. *)
Theorem SplitMessage_plain text maxLen :
  0 < maxLen -> no_fence (runes text) ->
  exists ms, SplitMessage (S (length (runes text))) text maxLen = Some (Ok ms) /\
    chunks_of (runes text) ms.
Proof.
  intros Hm Hn. unfold SplitMessage. destruct (Z.leb_spec maxLen 0); [lia|].
  destruct (run_plain maxLen (S (length (runes text))) (mkState (runes text) 0 [])) as (ms & Hr & Hj);
    simpl; try done; try lia.
  exists ms. simpl in Hr. by rewrite Hr.
Qed.

(** Decidable form of the absence of fences. *)
Definition no_fenceb (rs : list rune) : bool :=
  forallb (fun i => negb (fence_at rs (Z.of_nat i))) (List.seq 0 (length rs)).

Lemma no_fenceb_spec rs : no_fenceb rs = true -> no_fence rs.
Proof.
  intros H i Hi. unfold no_fenceb in H. rewrite forallb_forall in H.
  destruct (decide (i < Z.of_nat (length rs))) as [Hl|Hl].
  - assert (Hin : In (Z.to_nat i) (List.seq 0 (length rs))) by (apply in_seq; lia).
    specialize (H _ Hin). rewrite Z2Nat.id in H by lia. by apply negb_true_iff.
  - unfold fence_at, rune_at. by rewrite (nth_overflow rs) by lia.
Qed.

Lemma SplitMessage_plain_witness :
  exists ms, SplitMessage 16 "hello world foo" 8 = Some (Ok ms) /\ chunks_of (runes "hello world foo") ms.
Proof.
  apply (SplitMessage_plain "hello world foo" 8); [reflexivity|].
  apply no_fenceb_spec. vm_compute. reflexivity.
Defined.

(** *** A fence in front of a line that does not fit *)

(** A printable ASCII character is no space, in front or at the end. *)
Lemma ascii_ends r l :
  33 <= r < 127 -> space_len (byte_of r :: l) = O /\ space_len_rev (byte_of r :: l) = O.
Proof.
  intros H. assert (Hc : code (byte_of r) = r) by (apply code_of_byte; lia).
  generalize dependent (byte_of r). intros c Hc.
  assert (H1 : sp1 c = false) by (unfold sp1, between; rewrite Hc; lia).
  assert (H2 : forall d, sp2 c d = false /\ sp2 d c = false) by (intros; unfold sp2; rewrite Hc; lia).
  assert (H3 : forall d e, sp3 c d e = false /\ sp3 e d c = false)
    by (intros; unfold sp3, between; rewrite Hc; lia).
  destruct l as [|d [|e l]]; simpl; rewrite H1, ?(proj1 (H2 _)), ?(proj2 (H2 _)),
    ?(proj1 (H3 _ _)), ?(proj2 (H3 _ _)); done.
Qed.

(** Text between two printable characters is not trimmed. *)
Lemma TrimSpace_printable a rs b :
  33 <= a < 127 -> 33 <= b < 127 ->
  TrimSpace (string_of_runes (a :: rs ++ [b])) = string_of_runes (a :: rs ++ [b]).
Proof.
  intros Ha Hb.
  assert (Hsingle : forall r, 33 <= r < 127 -> encode_rune r = [r]).
  { intros r Hr. unfold encode_rune. assert (Hv : valid_rune r = true) by (unfold valid_rune; lia).
    rewrite Hv. by destruct (Z.ltb_spec r 128); [|lia]. }
  apply chars_inj. rewrite chars_TrimSpace, !chars_string_of_runes.
  assert (E : map byte_of (encode (a :: rs ++ [b])) =
    byte_of a :: map byte_of (encode rs) ++ [byte_of b]).
  { unfold encode. cbn [flat_map]. rewrite flat_map_app. cbn [flat_map].
    rewrite !Hsingle by done. cbn [map app]. by rewrite !map_app. }
  rewrite E.
  rewrite trim_left_fix by (apply ascii_ends; done).
  apply trim_right_fix. rewrite app_comm_cons, rev_app_distr. by apply ascii_ends.
Qed.

Section LongHeader.
Context (maxLen : Z) (line : list rune).
Hypothesis Hmax : 5 <= maxLen.
Hypothesis Hline : Forall (fun r => 33 <= r < 127 /\ r <> 96) line.
Hypothesis Hlong : maxLen <= 3 + Z.of_nat (length line).

Let H : list rune := [96; 96; 96] ++ line.

Lemma header_length : length H = (3 + length line)%nat.
Proof. done. Qed.

Lemma header_valid : valid H.
Proof.
  apply Forall_app. split; [by repeat constructor|]. eapply Forall_impl; [exact Hline|].
  intros r [? ?]. unfold valid_rune. lia.
Qed.

Lemma header_runes i t : 3 <= i < 3 + Z.of_nat (length line) ->
  33 <= rune_at (H ++ t) i < 127 /\ rune_at (H ++ t) i <> 96.
Proof.
  intros Hi. unfold rune_at, H. rewrite app_nth1 by (rewrite length_app; simpl; lia).
  rewrite app_nth2 by (simpl; lia).
  eapply Forall_forall in Hline; [exact Hline|]. apply list_elem_of_In, nth_In. simpl. lia.
Qed.

Lemma header_first i t : 0 <= i < 3 -> rune_at (H ++ t) i = 96.
Proof. intros Hi. assert (i = 0 \/ i = 1 \/ i = 2) as [->|[->| ->]] by lia; done. Qed.

Lemma header_printable i t : 0 <= i < 3 + Z.of_nat (length line) -> 33 <= rune_at (H ++ t) i < 127.
Proof.
  intros Hi. destruct (decide (i < 3)); [rewrite header_first by lia; lia | apply (proj1 (header_runes i t ltac:(lia)))].
Qed.

(** No newline or blank in front of the end of the header. *)
Lemma header_find_last p t lo n :
  (forall r, 33 <= r < 127 -> p r = false) -> 0 <= lo -> lo + Z.of_nat n <= maxLen ->
  find_last p (H ++ t) lo n = None.
Proof.
  intros Hp Hlo. induction n as [|k IH]; intros Hn; simpl; [done|].
  rewrite Hp by (apply header_printable; lia). apply IH. lia.
Qed.

Lemma header_find_last_in_range p t stop w :
  (forall r, 33 <= r < 127 -> p r = false) -> stop <= maxLen -> 0 <= w ->
  find_last_in_range p (H ++ t) 0 stop w = -1.
Proof. intros Hp Hs Hw. unfold find_last_in_range. rewrite header_find_last by (done || lia). done. Qed.

Lemma header_unclosed fuel t stop i :
  3 <= i -> stop <= maxLen -> unclosed_loop fuel (H ++ t) stop i true 0 = (true, 0).
Proof.
  revert i; induction fuel as [|f IH]; intros i Hi Hs; cbn [unclosed_loop]; [done|].
  destruct (Z.ltb_spec i stop); [|done].
  replace ((i + 2 <? stop) && fence_at (H ++ t) i) with false; [apply IH; lia|].
  symmetry. apply andb_false_iff. right. unfold fence_at.
  destruct (header_runes i t) as [_ Hne]; [lia|]. apply Z.eqb_neq in Hne. by rewrite Hne.
Qed.

Lemma find_next_least p i n j k :
  i <= j -> p j = true -> (forall x, i <= x < j -> p x = false) -> j = i + Z.of_nat k -> (k < n)%nat ->
  find_next p i n = Some j.
Proof.
  revert i n; induction k as [|k IH]; intros i n Hij Hp Hlt Hk Hn; destruct n as [|n]; [lia| |lia|]; simpl.
  - replace i with j by lia. by rewrite Hp.
  - rewrite Hlt by lia. apply IH; [lia | done | intros; apply Hlt; lia | lia | lia].
Qed.

Lemma header_newline t : findNewlineFrom (H ++ newline :: t) 0 = 3 + Z.of_nat (length line).
Proof.
  unfold findNewlineFrom.
  erewrite (find_next_least _ _ _ (3 + Z.of_nat (length line)) (3 + length line)); [done | lia | | | lia |].
  - unfold rune_at. rewrite app_nth2 by (rewrite header_length; lia).
    rewrite header_length. by replace (Z.to_nat _ - _)%nat with O by lia.
  - intros x Hx. pose proof (header_printable x (newline :: t) ltac:(lia)).
    unfold is_newline. apply Z.eqb_neq. unfold newline in *. lia.
  - rewrite length_app, header_length. simpl length. lia.
Qed.

(** The closing fence, if there is one, is beyond the limit. *)
Lemma header_closing t lo stop :
  3 <= lo ->
  let c := findNextClosingCodeBlockInRange (H ++ newline :: t) lo stop in
  (0 <? c) && (c - 0 <=? maxLen) = false.
Proof.
  intros Hlo c. subst c. unfold findNextClosingCodeBlockInRange.
  destruct (find_next _ _ _) as [i|] eqn:E; [|done]. apply find_next_range in E as [Hi E].
  breflect. unfold fence_at in *.
  destruct (decide (i < 3 + Z.of_nat (length line))); [|lia].
  destruct (header_runes i (newline :: t)) as [_ Hne]; [lia|]. apply Z.eqb_neq in Hne.
  match goal with Hf : _ && _ && _ = true |- _ => rewrite Hne in Hf; done end.
Qed.

Lemma header_trimmed : TrimSpace (string_of_runes H) = string_of_runes H.
Proof.
  destruct line as [|z l] using rev_ind; [simpl in Hlong; lia|].
  apply Forall_app in Hline as [_ Hz]. inversion Hz as [|? ? [Hp _] _]; subst.
  unfold H. rewrite app_assoc. apply (TrimSpace_printable 96 (96 :: 96 :: l) z); [lia | done].
Qed.

Lemma effective_limit_3 : 3 <= effective_limit maxLen.
Proof.
  unfold effective_limit, codeBlockBuffer. rewrite !Z.quot_div_nonneg by lia.
  pose proof (Z.div_mod maxLen 2). pose proof (Z.mod_pos_bound maxLen 2).
  destruct (Z.ltb_spec (maxLen / 2) (Z.max (maxLen / 10) 50)); lia.
Qed.

Lemma no_newline r : 33 <= r < 127 -> is_newline r = false.
Proof. unfold is_newline, newline. lia. Qed.

Lemma no_blank r : 33 <= r < 127 -> is_blank r = false.
Proof. unfold is_blank. lia. Qed.

(** One turn emits a chunk of the header and puts the whole header back. *)
Lemma header_step t b ms :
  valid t -> 33 <= b < 127 ->
  exists t' ms', valid t' /\
    step maxLen (mkState (H ++ newline :: t ++ [b]) 0 ms) =
      Continue (mkState (H ++ newline :: t' ++ [b]) 0 ms').
Proof.
  intros Ht Hb. set (C := H ++ newline :: t ++ [b]).
  assert (HC : Z.of_nat (length C) = 5 + Z.of_nat (length line) + Z.of_nat (length t)).
  { unfold C. rewrite length_app, header_length. cbn [length]. rewrite length_app. cbn [length]. lia. }
  assert (HvC : valid C).
  { apply Forall_app. split; [apply header_valid|]. constructor; [done|].
    apply Forall_app. split; [done|]. constructor; [unfold valid_rune; lia | constructor]. }
  destruct (effective_limit_bounds maxLen) as [Heff _]; [lia|]. pose proof effective_limit_3 as H3.
  unfold step. cbv zeta. cbn [start content messages].
  destruct (Z.leb_spec (Z.of_nat (length C)) 0); [lia|].
  destruct (Z.leb_spec (Z.of_nat (length C) - 0) maxLen); [lia|].
  assert (Hnat : natural_end (mkState C 0 ms) (effective_limit maxLen) = effective_limit maxLen).
  { unfold natural_end, findLastNewlineInRange, findLastSpaceInRange. cbn [start content].
    unfold C. rewrite !header_find_last_in_range; [done | apply no_blank | lia | lia | apply no_newline | lia | lia]. }
  rewrite Hnat.
  assert (Hun : findLastUnclosedCodeBlockInRange C 0 (effective_limit maxLen) = 0).
  { unfold findLastUnclosedCodeBlockInRange.
    destruct (Z.to_nat (effective_limit maxLen - 0)) as [|f] eqn:Ef; [lia|]. cbn [unclosed_loop].
    destruct (Z.ltb_spec 0 (effective_limit maxLen)); [|lia].
    replace ((0 + 2 <? effective_limit maxLen) && fence_at C 0) with true
      by (symmetry; apply andb_true_iff; split; [lia | done]).
    cbn [negb]. unfold C. by rewrite header_unclosed by lia. }
  rewrite Hun. replace ((0 <=? 0) && (effective_limit maxLen <? Z.of_nat (length C))) with true by lia.
  pose proof (header_closing (t ++ [b]) (effective_limit maxLen) (Z.of_nat (length C)) H3) as Hcl.
  cbv zeta in Hcl. fold C in Hcl. rewrite Hcl.
  unfold long_block. cbv zeta. cbn [start content messages].
  assert (Hnl : findNewlineFrom C 0 = 3 + Z.of_nat (length line)) by apply header_newline.
  rewrite Hnl. destruct (Z.eqb_spec (3 + Z.of_nat (length line)) (-1)); [lia|].
  destruct (slice_spec C 0 (3 + Z.of_nat (length line))) as (hd & -> & _ & _ & Ehd); [lia..|].
  assert (Hhd : hd = H).
  { rewrite Ehd. change (drop (Z.to_nat 0) C) with C. unfold C.
    replace (Z.to_nat _) with (length H) by (rewrite header_length; lia). apply take_app_length. }
  rewrite Hhd, header_trimmed.
  destruct (Z.ltb_spec (3 + Z.of_nat (length line) + 20) (effective_limit maxLen)); [lia|].
  assert (HL : forall p, find_last_in_range p C 0 0 200 = -1 /\ find_last_in_range p C 0 0 100 = -1) by done.
  unfold findLastNewlineInRange, findLastSpaceInRange. rewrite (proj1 (HL is_newline)), (proj2 (HL is_blank)).
  replace (-1 <=? 0) with true by done. replace (0 <? -1) with false by done.
  replace (20 <? 0 - 0) with false by done.
  replace (Z.min (0 + maxLen - 5) (Z.of_nat (length C))) with (maxLen - 5) by lia.
  unfold split_inside. cbn [start content messages].
  destruct (slice_spec C 0 (maxLen - 5)) as (c1 & -> & _); [lia..|].
  destruct (slice_spec C (maxLen - 5) (Z.of_nat (length C))) as (c2 & -> & _ & Hv2 & Ec2); [lia..|].
  rewrite take_ge in Ec2 by (rewrite length_drop; lia).
  set (t' := drop (Z.to_nat (maxLen - 5)) (H ++ newline :: t)).
  assert (E2 : c2 = t' ++ [b]).
  { rewrite Ec2. unfold t', C. rewrite app_comm_cons, app_assoc.
    rewrite drop_app_le; [done|]. rewrite length_app, header_length. lia. }
  assert (Hv' : valid t') by (specialize (Hv2 HvC); rewrite E2 in Hv2; by apply Forall_app in Hv2 as [? _]).
  eexists t', _. split; [exact Hv'|].
  change newline_string with (string_of_runes [newline]).
  rewrite <- !string_of_runes_app, E2.
  replace (H ++ [newline] ++ t' ++ [b]) with (96 :: ([96; 96] ++ line ++ newline :: t') ++ [b])
    by (unfold H; simpl; by rewrite <- !app_assoc).
  rewrite TrimSpace_printable by (done || lia).
  rewrite runes_string_of_runes.
  - do 3 f_equal. unfold H. simpl. by rewrite <- !app_assoc.
  - pose proof header_valid as HvH. unfold H in HvH. apply Forall_app in HvH as [_ HvL].
    repeat (constructor; [done|]). apply Forall_app. split.
    + repeat (constructor; [done|]). apply Forall_app. split; [done|]. by constructor.
    + by repeat constructor; unfold valid_rune; lia.
Qed.
End LongHeader.

(** The loop does not end for a text that begins with a fence whose first
    line (printable ASCII characters) has at least [maxLen] runes and is
    followed by a second line: the whole line is taken for the header of the
    block and put back in front of the rest, which never gets shorter. *)
Theorem SplitMessage_diverges maxLen line t b fuel :
  5 <= maxLen -> Forall (fun r => 33 <= r < 127 /\ r <> 96) line ->
  maxLen <= 3 + Z.of_nat (length line) -> valid t -> 33 <= b < 127 ->
  SplitMessage fuel (string_of_runes (([96; 96; 96] ++ line) ++ newline :: t ++ [b])) maxLen = None.
Proof.
  intros Hm Hl Hlong Ht Hb. unfold SplitMessage. destruct (Z.leb_spec maxLen 0); [lia|].
  rewrite runes_string_of_runes.
  - generalize (@nil string) as ms. revert t Ht; induction fuel as [|f IH]; intros t Ht ms; [done|].
    destruct (header_step maxLen line Hm Hl Hlong t b ms Ht Hb) as (t' & ms' & Ht' & Hstep).
    cbn [run]. rewrite Hstep. by apply IH.
  - apply Forall_app. split; [by eapply header_valid|]. constructor; [done|].
    apply Forall_app. split; [done|]. constructor; [unfold valid_rune; lia | constructor].
Qed.

Lemma SplitMessage_diverges_witness :
  SplitMessage 1000 (string_of_runes (([96; 96; 96] ++ repeat 97 2000) ++ newline :: [120] ++ [121])) 2000 = None.
Proof.
  apply SplitMessage_diverges; [lia | | | by repeat constructor | lia].
  - apply Forall_forall. intros r Hr. apply list_elem_of_In, repeat_spec in Hr as ->. lia.
  - rewrite repeat_length. lia.
Defined.
