(* ===== verification/Outbound.v ===== *)
(** * Sending answers: [src/pkg/channels/manager.go], [errors.go], [errutil.go], [marker.go]

    A worker of a channel takes messages from its queue, splits them and sends
    the pieces: it waits for the rate limiter, ends the typing indicator and
    the reaction of the chat, edits a placeholder where there is one and sends
    otherwise, with retries. What the platform answers and when the context is
    cancelled depends in any way on what has happened before. *)

From stdpp Require Import gmap sorting.
From S2P Require Import Prelude GoStrings GoLib.
Import Utf8 GoDuration.
From S2P Require Import Split.

(** ** Errors *)

Inductive sentinel : Type := ErrNotRunning | ErrRateLimit | ErrTemporary | ErrSendFailed.

#[global] Instance sentinel_eq_dec : EqDecision sentinel.
Proof. solve_decision. Defined.

(** An error and the sentinels that [errors.Is] finds in it. *)
Record send_error : Type := mkErr { wraps : list sentinel; error_text : string }.

Definition Is (e : send_error) (s : sentinel) : bool := bool_decide (s ∈ wraps e).

Definition sentinel_text (s : sentinel) : string :=
  match s with
  | ErrNotRunning => "channel not running"
  | ErrRateLimit => "rate limited"
  | ErrTemporary => "temporary failure"
  | ErrSendFailed => "send failed"
  end.

Definition wrap (s : sentinel) (raw : send_error) : send_error :=
  mkErr [s] (sentinel_text s +:+ ": " +:+ error_text raw).

Definition ClassifySendError (statusCode : Z) (rawErr : send_error) : send_error :=
  if statusCode =? 429 then wrap ErrRateLimit rawErr
  else if 500 <=? statusCode then wrap ErrTemporary rawErr
  else if 400 <=? statusCode then wrap ErrSendFailed rawErr
  else rawErr.

Definition ClassifyNetError (err : option send_error) : option send_error := wrap ErrTemporary <$> err.

(** ** Splitting on the marker *)

(** [strings.Split] with a separator of at least one byte. *)
Fixpoint l_split (sep : list ascii) (skip : nat) (acc l : list ascii) : list (list ascii) :=
  match l with
  | [] => [rev acc]
  | c :: l' =>
      match skip with
      | S k => l_split sep k acc l'
      | O => if l_prefix sep l then rev acc :: l_split sep (Nat.pred (length sep)) [] l'
             else l_split sep 0 (c :: acc) l'
      end
  end.

Definition SplitOn (s sep : string) : list string := map implode (l_split (chars sep) 0 [] (chars s)).

Definition MessageSplitMarker : string := "<|[SPLIT]|>".

Definition SplitByMarker (content : string) : list string :=
  if String.eqb content "" then []
  else
    let result := filter (fun part => part <> "") (map TrimSpace (SplitOn content MessageSplitMarker)) in
    match result with [] => [content] | _ => result end.

(** [None] when [SplitMessage] does not return with the fuel. *)
Definition splitByLength (fuel : nat) (content : string) (maxLen : Z) : option (list string) :=
  if (0 <? maxLen) && (maxLen <? RuneCount content) then
    match SplitMessage fuel content maxLen with
    | Some (Ok chunks) => Some chunks
    | _ => None
    end
  else Some [content].

Fixpoint split_all (fuel : nat) (maxLen : Z) (parts : list string) : option (list string) :=
  match parts with
  | [] => Some []
  | part :: parts' =>
      c1 ← splitByLength fuel part maxLen; c2 ← split_all fuel maxLen parts'; Some (c1 ++ c2)
  end.

(** The pieces of a message: by marker when it has at least two parts, and by
    length. *)
Definition message_chunks (fuel : nat) (splitOnMarker : bool) (maxLen : Z) (content : string) : option (list string) :=
  let markerChunks := if splitOnMarker then SplitByMarker content else [] in
  chunks ← (if (1 <? length markerChunks)%nat then split_all fuel maxLen markerChunks else Some []);
  match chunks with
  | [] => splitByLength fuel content maxLen
  | _ => Some chunks
  end.

(** ** Messages, channels and what happens to them *)

Record OutboundMessage : Type := mkMsg {
  Channel : string; ChatID : string; Content : string; ReplyToMessageID : string; Metadata : gmap string string
}.

Definition with_content (msg : OutboundMessage) (c : string) : OutboundMessage :=
  mkMsg (Channel msg) (ChatID msg) c (ReplyToMessageID msg) (Metadata msg).

Record MediaPart : Type := mkPart { Type_ : string; Ref : string; Caption : string; Filename : string; ContentType : string }.
Record OutboundMediaMessage : Type := mkMediaMsg { MediaChannel : string; MediaChatID : string; Parts : list MediaPart }.

Abbreviation answer := (result send_error (list string)).

(** What the manager does to the outside, with the answers. Functions that stop
    a typing indicator or undo a reaction are known by a number. *)
Inductive event : Type :=
| ESend (msg : OutboundMessage) (r : answer)
| ESendMedia (msg : OutboundMediaMessage) (r : answer)
| EEdit (chat id content : string) (ok : bool)
| EDelete (chat id : string)
| EStop (f : nat)
| EUndo (f : nat)
| ESleep (d : duration).

(** A channel: [Send] and the optional interfaces. What it does may depend on
    all that happened. *)
Record channel : Type := mkChannel {
  MaxMessageLength : option Z;
  Send : list event -> OutboundMessage -> answer;
  SendMedia : option (list event -> OutboundMediaMessage -> answer);
  EditMessage : option (list event -> string -> string -> string -> bool);
  DeleteMessage : bool
}.

(** ** State *)

Record entry : Type := mkEntry { fn : nat; createdAt : time }.
Record placeholderEntry : Type := mkPlaceholder { id : string; placedAt : time }.

Record manager : Type := mkManager {
  typingStops : gmap string entry;
  reactionUndos : gmap string entry;
  placeholders : gmap string placeholderEntry;
  streamActive : gset string;
  log : list event
}.

Definition set_typing (x : gmap string entry) (m : manager) : manager :=
  mkManager x (reactionUndos m) (placeholders m) (streamActive m) (log m).
Definition set_reactions (x : gmap string entry) (m : manager) : manager :=
  mkManager (typingStops m) x (placeholders m) (streamActive m) (log m).
Definition set_placeholders (x : gmap string placeholderEntry) (m : manager) : manager :=
  mkManager (typingStops m) (reactionUndos m) x (streamActive m) (log m).
Definition set_streams (x : gset string) (m : manager) : manager :=
  mkManager (typingStops m) (reactionUndos m) (placeholders m) x (log m).
Definition happens (e : event) (m : manager) : manager :=
  mkManager (typingStops m) (reactionUndos m) (placeholders m) (streamActive m) (log m ++ [e]).

Definition chat_key (name chatID : string) : string := name +:+ ":" +:+ chatID.

(** ** Registering *)

Definition RecordPlaceholder (now : time) (name chatID placeholderID : string) (m : manager) : manager :=
  set_placeholders (<[chat_key name chatID := mkPlaceholder placeholderID now]> (placeholders m)) m.

(** [sent]: the answer of the channel, if it can send placeholders. *)
Definition SendPlaceholder (now : time) (name chatID : string) (sent : option (result send_error string)) (m : manager) : manager * bool :=
  match sent with
  | Some (Ok phID) => if String.eqb phID "" then (m, false) else (RecordPlaceholder now name chatID phID m, true)
  | _ => (m, false)
  end.

Definition RecordTypingStop (now : time) (name chatID : string) (stop : nat) (m : manager) : manager :=
  let key := chat_key name chatID in
  let m' := set_typing (<[key := mkEntry stop now]> (typingStops m)) m in
  match typingStops m !! key with
  | Some oldEntry => happens (EStop (fn oldEntry)) m'
  | None => m'
  end.

(** [LoadAndDelete] of a typing indicator, and its function. *)
Definition stop_typing (key : string) (m : manager) : manager :=
  match typingStops m !! key with
  | Some e => happens (EStop (fn e)) (set_typing (delete key (typingStops m)) m)
  | None => m
  end.

Definition InvokeTypingStop (name chatID : string) (m : manager) : manager := stop_typing (chat_key name chatID) m.

Definition RecordReactionUndo (now : time) (name chatID : string) (undo : nat) (m : manager) : manager :=
  set_reactions (<[chat_key name chatID := mkEntry undo now]> (reactionUndos m)) m.

Definition undo_reaction (key : string) (m : manager) : manager :=
  match reactionUndos m !! key with
  | Some e => happens (EUndo (fn e)) (set_reactions (delete key (reactionUndos m)) m)
  | None => m
  end.

(** [Finalize] of the streamer of [GetStreamer], when it succeeds. *)
Definition stream_finalized (name chatID : string) (m : manager) : manager :=
  set_streams ({[chat_key name chatID]} ∪ streamActive m) m.

(** ** Before sending *)

(** [LoadAndDelete] of the placeholder: its identifier, unless it is empty. *)
Definition take_placeholder (key : string) (m : manager) : manager * option string :=
  match placeholders m !! key with
  | Some e => (set_placeholders (delete key (placeholders m)) m, if String.eqb (id e) "" then None else Some (id e))
  | None => (m, None)
  end.

(** An edit, when the channel can edit, and whether it succeeded. *)
Definition edit (ch : channel) (chat phID content : string) (m : manager) : manager * bool :=
  match EditMessage ch with
  | Some f => let ok := f (log m) chat phID content in (happens (EEdit chat phID content ok) m, ok)
  | None => (m, false)
  end.

(** A stream has sent the message: the placeholder is deleted, or edited where
    that is not possible. *)
Definition clean_placeholder (ch : channel) (key : string) (msg : OutboundMessage) (m : manager) : manager :=
  let (m, ph) := take_placeholder key m in
  match ph with
  | Some phID =>
      if DeleteMessage ch then happens (EDelete (ChatID msg) phID) m
      else fst (edit ch (ChatID msg) phID (Content msg) m)
  | None => m
  end.

Definition preSend (name : string) (msg : OutboundMessage) (ch : channel) (m : manager) : manager * option (list string) :=
  let key := chat_key name (ChatID msg) in
  let m := undo_reaction key (stop_typing key m) in
  if bool_decide (key ∈ streamActive m) then
    (clean_placeholder ch key msg (set_streams (streamActive m ∖ {[key]}) m), Some [])
  else
    let (m, ph) := take_placeholder key m in
    match ph with
    | Some phID =>
        let (m, ok) := edit ch (ChatID msg) phID (Content msg) m in
        (m, if ok then Some [phID] else None)
    | None => (m, None)
    end.

Definition preSendMedia (name : string) (msg : OutboundMediaMessage) (ch : channel) (m : manager) : manager :=
  let key := chat_key name (MediaChatID msg) in
  let m := undo_reaction key (stop_typing key m) in
  let m := set_streams (streamActive m ∖ {[key]}) m in
  let (m, ph) := take_placeholder key m in
  match ph with
  | Some phID => if DeleteMessage ch then happens (EDelete (MediaChatID msg) phID) m else m
  | None => m
  end.

(** ** Sending *)

Definition maxRetries : nat := 3.
Definition rateLimitDelay : duration := Second.
Definition baseBackoff : duration := 500 * Millisecond.
Definition maxBackoff : duration := 8 * Second.

(** The powers of two are exact in floating point. *)
Definition backoff (attempt : nat) : duration := Z.min (baseBackoff * 2 ^ Z.of_nat attempt) maxBackoff.

Definition permanent (e : send_error) : bool := Is e ErrNotRunning || Is e ErrSendFailed.

Section Sending.
(** Whether the context has been cancelled when something is waited for. *)
Context (cancelled : list event -> bool).

(** The loop of both kinds of messages, [left] attempts after this one. The
    error is that of the last attempt, or none when the context ended a wait. *)
Fixpoint retry (send : list event -> answer) (ev : answer -> event) (left_ attempt : nat) (m : manager) :
    manager * result (option send_error) (list string) :=
  let r := send (log m) in
  let m := happens (ev r) m in
  match r with
  | Ok msgIDs => (m, Ok msgIDs)
  | Err e =>
      if permanent e then (m, Err (Some e))
      else
        match left_ with
        | O => (m, Err (Some e))
        | S left' =>
            let m := happens (ESleep (if Is e ErrRateLimit then rateLimitDelay else backoff attempt)) m in
            if cancelled (log m) then (m, Err None) else retry send ev left' (S attempt) m
        end
  end.

Definition sendWithRetry (name : string) (ch : channel) (msg : OutboundMessage) (m : manager) : manager * option (list string) :=
  if cancelled (log m) then (m, None)
  else
    let (m, handled) := preSend name msg ch m in
    match handled with
    | Some msgIDs => (m, Some msgIDs)
    | None =>
        let (m, r) := retry (fun l => Send ch l msg) (ESend msg) maxRetries 0 m in
        (m, match r with Ok msgIDs => Some msgIDs | Err _ => None end)
    end.

Inductive media_error : Type := NoMediaSender | ContextEnded | MediaFailed (e : send_error).

Definition sendMediaWithRetry (name : string) (ch : channel) (msg : OutboundMediaMessage) (m : manager) :
    manager * result media_error (list string) :=
  match SendMedia ch with
  | None => (m, Err NoMediaSender)
  | Some ms =>
      if cancelled (log m) then (m, Err ContextEnded)
      else
        let m := preSendMedia name msg ch m in
        let (m, r) := retry (fun l => ms l msg) (ESendMedia msg) maxRetries 0 m in
        (m, match r with Ok msgIDs => Ok msgIDs | Err (Some e) => Err (MediaFailed e) | Err None => Err ContextEnded end)
  end.

(** The pieces are sent one after the other, whatever becomes of them. *)
Fixpoint send_chunks (name : string) (ch : channel) (msg : OutboundMessage) (chunks : list string) (m : manager) : manager :=
  match chunks with
  | [] => m
  | chunk :: chunks' => send_chunks name ch msg chunks' (fst (sendWithRetry name ch (with_content msg chunk) m))
  end.

Definition max_length (ch : channel) : Z := default 0 (MaxMessageLength ch).

(** What [runWorker] does with one message; [None] when the splitting hangs. *)
Definition work (fuel : nat) (splitOnMarker : bool) (name : string) (ch : channel) (msg : OutboundMessage) (m : manager) : option manager :=
  chunks ← message_chunks fuel splitOnMarker (max_length ch) (Content msg);
  Some (send_chunks name ch msg chunks m).

Fixpoint runWorker (fuel : nat) (splitOnMarker : bool) (name : string) (ch : channel) (queue : list OutboundMessage) (m : manager) : option manager :=
  match queue with
  | [] => Some m
  | msg :: queue' => m ← work fuel splitOnMarker name ch msg m; runWorker fuel splitOnMarker name ch queue' m
  end.

Fixpoint runMediaWorker (name : string) (ch : channel) (queue : list OutboundMediaMessage) (m : manager) : manager :=
  match queue with
  | [] => m
  | msg :: queue' => runMediaWorker name ch queue' (fst (sendMediaWithRetry name ch msg m))
  end.

(** [SendMessage] on a channel with a worker: never an error. *)
Definition SendMessage (fuel : nat) (name : string) (ch : channel) (msg : OutboundMessage) (m : manager) : option manager :=
  chunks ← splitByLength fuel (Content msg) (max_length ch);
  Some (send_chunks name ch msg chunks m).
End Sending.

(** ** The janitor *)

Definition typingStopTTL : duration := 5 * Minute.
Definition placeholderTTL : duration := 10 * Minute.

(** [Range] shows an entry [e] to the janitor, which looks at its age, and then
    removes what has its key. *)
Definition evict_seen (now : time) (key : string) (e : entry) (m : manager) : manager :=
  if typingStopTTL <? now - createdAt e then
    match typingStops m !! key with
    | Some _ => happens (EStop (fn e)) (set_typing (delete key (typingStops m)) m)
    | None => m
    end
  else m.

(** The visits of [Range] to an entry, when nothing comes in between. *)
Definition evict_typing (now : time) (key : string) (m : manager) : manager :=
  match typingStops m !! key with Some e => evict_seen now key e m | None => m end.
Definition evict_reaction (now : time) (key : string) (m : manager) : manager :=
  match reactionUndos m !! key with
  | Some e => if typingStopTTL <? now - createdAt e then undo_reaction key m else m
  | None => m
  end.
Definition evict_placeholder (now : time) (key : string) (m : manager) : manager :=
  match placeholders m !! key with
  | Some e => if placeholderTTL <? now - placedAt e then set_placeholders (delete key (placeholders m)) m else m
  | None => m
  end.

(** A tick, over the keys in any order. *)
Definition janitor (now : time) (order : list string) (m : manager) : manager :=
  foldr (evict_placeholder now) (foldr (evict_reaction now) (foldr (evict_typing now) m order) order) order.

Example backoffs : map backoff [0; 1; 2]%nat = [500 * Millisecond; Second; 2 * Second].
Proof. reflexivity. Qed.

Example SplitByMarker_examples :
  SplitByMarker "a<|[SPLIT]|> b <|[SPLIT]|><|[SPLIT]|>c" = ["a"; "b"; "c"] /\
  message_chunks 10 true 0 "hello<|[SPLIT]|>" = Some ["hello<|[SPLIT]|>"] /\
  message_chunks 10 true 3 "ab<|[SPLIT]|>defg" = Some ["ab"; "de"; "fg"].
Proof. vm_compute. repeat split. Qed.

(** * Theorems *)

(** ** What is in a log *)

Definition sent (e : event) : option answer := match e with ESend _ r => Some r | _ => None end.
Definition sent_media (e : event) : option answer := match e with ESendMedia _ r => Some r | _ => None end.

(** The texts that have reached the platform. *)
Definition delivered_text (e : event) : option string :=
  match e with
  | ESend msg (Ok _) => Some (Content msg)
  | EEdit _ _ content true => Some content
  | _ => None
  end.
Abbreviation delivered := (omap delivered_text).

Definition sleep_time (e : event) : duration := match e with ESleep d => d | _ => 0 end.
Definition slept (es : list event) : duration := foldr Z.add 0 (map sleep_time es).

Lemma slept_app es fs : slept (es ++ fs) = slept es + slept fs.
Proof. unfold slept; induction es as [|e es IH]; cbn [app map foldr]; [lia | rewrite IH; lia]. Qed.

(** [m'] comes from [m] by what [es] says. *)
Definition adds (m m' : manager) (es : list event) : Prop := log m' = log m ++ es.

Lemma adds_nil m m' : log m' = log m -> adds m m' [].
Proof. unfold adds; intros ->; symmetry; apply app_nil_r. Qed.

Lemma adds_trans m1 m2 m3 es fs : adds m1 m2 es -> adds m2 m3 fs -> adds m1 m3 (es ++ fs).
Proof. unfold adds; intros -> ->; rewrite <- app_assoc; done. Qed.

Lemma adds_happens e m : adds m (happens e m) [e].
Proof. done. Qed.

(** ** Retries *)

(** At most how long the waits of [left_] attempts after [attempt] take. *)
Fixpoint waits (left_ attempt : nat) : duration :=
  match left_ with
  | O => 0
  | S left' => Z.max rateLimitDelay (backoff attempt) + waits left' (S attempt)
  end.

Lemma waits_nonneg l a : 0 <= waits l a.
Proof.
  revert a; induction l as [|l IH]; intros a; cbn; [done|]; specialize (IH (S a)).
  unfold rateLimitDelay, Second in *; lia.
Qed.

Section Retries.
Context (cancelled : list event -> bool).

Definition may_retry (r : answer) : Prop := exists e, r = Err e /\ permanent e = false.

(** How a loop of attempts ends: the answers are temporary failures and then the
    last one, which is the result, unless the context has been cancelled. *)
Definition ends_with (left_ : nat) (m : manager) (res : result (option send_error) (list string)) (rs : list answer) : Prop :=
  exists fails last, rs = fails ++ [last] /\ Forall may_retry fails /\ (length fails <= left_)%nat /\
    match res with
    | Ok ids => last = Ok ids
    | Err (Some e) => last = Err e /\ (permanent e = true \/ length fails = left_)
    | Err None => may_retry last /\ cancelled (log m) = true
    end.

Lemma ends_now left_ m r res : match res with
    | Ok ids => r = Ok ids
    | Err (Some e) => r = Err e /\ (permanent e = true \/ left_ = O)
    | Err None => may_retry r /\ cancelled (log m) = true
    end -> ends_with left_ m res [r].
Proof.
  intros H; exists [], r; split_and!; [done | constructor | cbn; lia |].
  destruct res as [ids|[e|]]; cbn [length]; [done | | done]; destruct H as [? [?| ->]]; auto.
Qed.

Lemma ends_later left_ m r res rs : may_retry r -> ends_with left_ m res rs -> ends_with (S left_) m res (r :: rs).
Proof.
  intros Hr (fails & last & -> & Hf & Hl & H); exists (r :: fails), last; split_and!; [done | constructor; done | cbn; lia |].
  destruct res as [ids|[e|]]; cbn [length]; [done | | done]; destruct H as [? [?| ->]]; auto.
Qed.

Lemma retry_spec send ev proj : (forall r, proj (ev r) = Some r) -> (forall d, proj (ESleep d) = None) -> (forall r, sleep_time (ev r) = 0) ->
  forall left_ attempt m, let m' := fst (retry cancelled send ev left_ attempt m) in
  exists es, adds m m' es /\ ends_with left_ m' (snd (retry cancelled send ev left_ attempt m)) (omap proj es) /\
    slept es <= waits left_ attempt /\ Forall (fun e => (exists l, e = ev (send l)) \/ exists d, e = ESleep d) es.
Proof.
  intros Hp Hs Hz left_.
  assert (forall r es, omap proj (ev r :: es) = r :: omap proj es) as Hc by (intros r es; cbn; rewrite Hp; done).
  assert (forall r l a, slept [ev r] <= waits l a) as Hw by (intros r l a; unfold slept; cbn; rewrite Hz; apply waits_nonneg).
  assert (forall l, Forall (fun e => (exists l, e = ev (send l)) \/ exists d, e = ESleep d) [ev (send l)]) as Ho by (intros l; constructor; eauto).
  induction left_ as [|l IH]; intros attempt m; cbn [retry];
    destruct (send (log m)) as [ids|e] eqn:Hr; try destruct (permanent e) eqn:Hperm;
    try (eexists; split; [apply adds_happens|]; split; [rewrite Hc; apply ends_now; cbn; auto | split; [auto | rewrite <- Hr; auto]]; fail).
  set (d := if Is e ErrRateLimit then rateLimitDelay else backoff attempt).
  assert (d <= Z.max rateLimitDelay (backoff attempt)) as Hd by (unfold d; destruct (Is e ErrRateLimit); lia).
  pose proof (waits_nonneg l (S attempt)) as Hpos.
  assert (slept [ev (Err e); ESleep d] = d) as Hsl by (unfold slept; cbn; rewrite Hz; lia).
  assert (omap proj [ev (Err e); ESleep d] = [Err e]) as Hom by (cbn; rewrite Hp, Hs; done).
  assert (Forall (fun e => (exists l, e = ev (send l)) \/ exists d, e = ESleep d) [ev (Err e); ESleep d]) as Hall
    by (rewrite <- Hr; repeat constructor; eauto).
  pose proof (adds_trans _ _ _ _ _ (adds_happens (ev (Err e)) m) (adds_happens (ESleep d) _)) as Hadd.
  destruct (cancelled _) eqn:Hcan; cbn [fst snd].
  - exists [ev (Err e); ESleep d]; split_and!; [exact Hadd | | rewrite Hsl; cbn [waits]; lia | exact Hall].
    rewrite Hom; apply ends_now; split; [exists e; done | exact Hcan].
  - destruct (IH (S attempt) (happens (ESleep d) (happens (ev (Err e)) m))) as (es & Ha & He & Hl & Hf).
    exists ([ev (Err e); ESleep d] ++ es); split_and!.
    + eapply adds_trans; eassumption.
    + rewrite omap_app, Hom; apply ends_later; [exists e; done | exact He].
    + rewrite slept_app, Hsl; cbn [waits]; lia.
    + apply Forall_app; done.
Qed.
End Retries.

(** ** A single message *)

Definition no_sends (es : list event) : Prop := omap sent es = [] /\ slept es = 0.

Lemma stop_typing_adds key m : exists es, adds m (stop_typing key m) es /\ no_sends es /\ delivered es = [].
Proof.
  unfold stop_typing; destruct (typingStops m !! key) as [e|]; [|exists []; split; [apply adds_nil; done | done]].
  exists [EStop (fn e)]; done.
Qed.

Lemma undo_reaction_adds key m : exists es, adds m (undo_reaction key m) es /\ no_sends es /\ delivered es = [].
Proof.
  unfold undo_reaction; destruct (reactionUndos m !! key) as [e|]; [|exists []; split; [apply adds_nil; done | done]].
  exists [EUndo (fn e)]; done.
Qed.

Lemma take_placeholder_adds key m : adds m (fst (take_placeholder key m)) [].
Proof. apply adds_nil; unfold take_placeholder; destruct (placeholders m !! key) as [e|]; done. Qed.

Lemma edit_adds ch chat phID content m : exists es, adds m (fst (edit ch chat phID content m)) es /\ no_sends es /\
  delivered es = if snd (edit ch chat phID content m) then [content] else [].
Proof.
  unfold edit; destruct (EditMessage ch) as [f|]; [|exists []; split; [apply adds_nil; done | done]].
  cbn [fst snd]; set (ok := f (log m) chat phID content).
  exists [EEdit chat phID content ok]; split; [done|]; destruct ok; done.
Qed.

Lemma no_sends_app es fs : no_sends es -> no_sends fs -> no_sends (es ++ fs).
Proof. intros [H1 H2] [H3 H4]; split; [rewrite omap_app, H1, H3; done | rewrite slept_app; lia]. Qed.

Lemma quiet_first key m : exists es, adds m (undo_reaction key (stop_typing key m)) es /\ no_sends es /\ delivered es = [].
Proof.
  destruct (stop_typing_adds key m) as (es & Ha & Hn & Hd); destruct (undo_reaction_adds key (stop_typing key m)) as (fs & Ha' & Hn' & Hd').
  exists (es ++ fs); split_and!; [eapply adds_trans; eassumption | apply no_sends_app; done | rewrite omap_app, Hd, Hd'; done].
Qed.

Lemma clean_placeholder_adds ch key msg m : exists es, adds m (clean_placeholder ch key msg m) es /\ no_sends es /\
  (delivered es = [] \/ delivered es = [Content msg]).
Proof.
  unfold clean_placeholder; pose proof (take_placeholder_adds key m) as Ha.
  destruct (take_placeholder key m) as [m1 [phID|]]; cbn [fst] in Ha; [|exists []; split_and!; [done.. | auto]].
  destruct (DeleteMessage ch).
  - exists [EDelete (ChatID msg) phID]; split_and!; [exact (adds_trans _ _ _ _ _ Ha (adds_happens _ _)) | done | auto].
  - destruct (edit_adds ch (ChatID msg) phID (Content msg) m1) as (es & He & Hn & Hd).
    exists es; split_and!; [exact (adds_trans _ _ _ _ _ Ha He) | done |]; rewrite Hd; destruct (snd _); auto.
Qed.

Lemma streamActive_quiet key m : streamActive (undo_reaction key (stop_typing key m)) = streamActive m.
Proof. unfold undo_reaction, stop_typing; destruct (typingStops m !! key); cbn; destruct (reactionUndos m !! key); done. Qed.

Lemma preSend_spec name msg ch m : exists es, adds m (fst (preSend name msg ch m)) es /\ no_sends es /\
  match snd (preSend name msg ch m) with
  | None => delivered es = []
  | Some _ => delivered es = [Content msg] \/ chat_key name (ChatID msg) ∈ streamActive m /\ delivered es = []
  end.
Proof.
  unfold preSend; set (key := chat_key name (ChatID msg)).
  destruct (quiet_first key m) as (es & Ha & Hn & Hd); revert Ha.
  pose proof (streamActive_quiet key m) as Hstr; rewrite Hstr.
  generalize (undo_reaction key (stop_typing key m)); intros m1 Ha.
  case_bool_decide as Hk; cbn [fst snd].
  - destruct (clean_placeholder_adds ch key msg (set_streams (streamActive m ∖ {[key]}) m1)) as (fs & Ha' & Hn' & Hd').
    exists (es ++ fs); split_and!; [exact (adds_trans _ _ _ _ _ Ha Ha') | apply no_sends_app; done |].
    rewrite omap_app, Hd; destruct Hd' as [->| ->]; auto.
  - pose proof (take_placeholder_adds key m1) as Ht; destruct (take_placeholder key m1) as [m2 [phID|]]; cbn [fst] in Ht; cycle 1.
    { exists (es ++ []); split_and!; [exact (adds_trans _ _ _ _ _ Ha Ht) | rewrite app_nil_r; done.. ]. }
    destruct (edit_adds ch (ChatID msg) phID (Content msg) m2) as (fs & He & Hn' & Hd').
    destruct (edit ch (ChatID msg) phID (Content msg) m2) as [m3 ok]; cbn [fst snd] in *.
    exists (es ++ fs); split_and!; [exact (adds_trans _ _ _ _ _ Ha (adds_trans _ _ _ _ _ Ht He)) | apply no_sends_app; done |].
    rewrite omap_app, Hd, Hd'; destruct ok; auto.
Qed.

(** Attempts are sends of the message and waits. *)
Lemma attempts_delivered msg es : Forall (fun e => (exists r, e = ESend msg r) \/ exists d, e = ESleep d) es ->
  delivered es = map (fun _ => Content msg) (filter (fun r => is_ok r = true) (omap sent es)).
Proof.
  induction 1 as [|e es [[r ->]|[d ->]] _ IH]; [done | | exact IH].
  destruct r as [ids|e]; cbn; case_decide; try done; cbn; first [exact IH | f_equal; exact IH].
Qed.

Lemma filter_fails fails : Forall may_retry fails -> filter (fun r => is_ok r = true) fails = [].
Proof. induction 1 as [|r fails (e & -> & _) _ IH]; [done|]; cbn; case_decide; [done | exact IH]. Qed.

(** Whatever the platform answers and whenever the context is cancelled, one
    call of [sendWithRetry] sends the message at most four times and waits at
    most four seconds between them; it puts the text on the platform at most
    once, and not at all when it reports a failure; a failure means that the
    context was cancelled, that the last answer was a permanent error, or that
    all four attempts failed; and when it reports success the text is there,
    unless a stream had claimed the chat. *)
Lemma sendWithRetry_spec cancelled name ch msg m :
  let (m', r) := sendWithRetry cancelled name ch msg m in
  exists es, adds m m' es /\ (length (omap sent es) <= 4)%nat /\ slept es <= 4 * Second /\
    Forall (fun r => exists l, r = Send ch l msg) (omap sent es) /\
    match r with
    | Some _ => delivered es = [Content msg] \/
        chat_key name (ChatID msg) ∈ streamActive m /\ delivered es = [] /\ omap sent es = []
    | None => delivered es = [] /\
        (cancelled (log m) = true \/ cancelled (log m') = true \/
         (exists e, last (omap sent es) = Some (Err e) /\ permanent e = true) \/ length (omap sent es) = 4%nat)
    end.
Proof.
  unfold sendWithRetry; destruct (cancelled (log m)) eqn:Hc.
  { exists []; split_and!; [apply adds_nil; done | cbn; lia | done | constructor | done | auto]. }
  destruct (preSend_spec name msg ch m) as (es & Ha & [Hs Hsl] & Hp).
  destruct (preSend name msg ch m) as [m1 [ids|]]; cbn [fst snd] in *.
  { exists es; split_and!; [done | rewrite Hs; cbn; lia | rewrite Hsl; done | rewrite Hs; constructor |]; destruct Hp as [Hp|[Hk Hp]]; auto. }
  destruct (retry_spec cancelled (fun l => Send ch l msg) (ESend msg) sent (fun r => eq_refl) (fun d => eq_refl) (fun r => eq_refl)
    maxRetries 0 m1) as (fs & Hb & (fails & lst & Hrs & Hf & Hl & He) & Hw & Hall).
  destruct (retry _ _ _ _ _ _) as [m2 res]; cbn [fst snd] in *.
  assert (Forall (fun r => exists l, r = Send ch l msg) (omap sent fs)) as Hfrom.
  { clear -Hall; induction Hall as [|e fs [[l ->]|[d ->]] _ IH]; [constructor | constructor; eauto | exact IH]. }
  assert (Forall (fun e => (exists r, e = ESend msg r) \/ exists d, e = ESleep d) fs) as Hall'
    by (eapply Forall_impl; [exact Hall|]; intros e [[l ->]|?]; eauto).
  pose proof (attempts_delivered msg fs Hall') as Hd.
  rewrite Hrs, filter_app, (filter_fails fails Hf) in Hd; cbn [app] in Hd.
  assert (omap sent (es ++ fs) = fails ++ [lst]) as Hsent by (rewrite omap_app, Hs; exact Hrs).
  exists (es ++ fs); split_and!; [exact (adds_trans _ _ _ _ _ Ha Hb) | | | rewrite omap_app, Hs; exact Hfrom | ].
  - rewrite Hsent, length_app; unfold maxRetries in Hl; cbn; lia.
  - rewrite slept_app, Hsl; etransitivity; [exact Hw | vm_compute; discriminate].
  - rewrite omap_app, Hp, Hd, Hsent; cbn [app].
    destruct res as [ids|[e|]]; [left; rewrite He; done | destruct He as [-> He] | destruct He as [(e & -> & _) He]].
    + split; [done|]; right; right; destruct He as [He|He]; [left; exists e; rewrite last_snoc; done | right; rewrite length_app, He; done].
    + split; [done|]; auto.
Qed.

(** ** A worker *)

Section Worker.
Context (cancelled : list event -> bool) (name : string) (ch : channel).

Lemma streams_shrink msg m : streamActive (fst (sendWithRetry cancelled name ch msg m)) ⊆ streamActive m.
Proof.
  assert (forall send ev l a m, streamActive (fst (retry cancelled send ev l a m)) = streamActive m) as Hr.
  { intros send ev l; induction l as [|l IH]; intros a m1; cbn [retry]; destruct (send (log m1)) as [?|e]; try done;
      destruct (permanent e); try done; destruct (cancelled _); [done | rewrite IH; done]. }
  assert (forall key m, streamActive (fst (take_placeholder key m)) = streamActive m) as Ht
    by (intros key m1; unfold take_placeholder; destruct (placeholders m1 !! key); done).
  assert (forall c p x m, streamActive (fst (edit ch c p x m)) = streamActive m) as He
    by (intros c p x m1; unfold edit; destruct (EditMessage ch); done).
  assert (streamActive (fst (preSend name msg ch m)) ⊆ streamActive m) as Hp.
  { unfold preSend; set (key := chat_key name (ChatID msg)); rewrite (streamActive_quiet key m).
    pose proof (streamActive_quiet key m) as Hq; revert Hq; generalize (undo_reaction key (stop_typing key m)); intros m1 Hq.
    case_bool_decide; cbn [fst].
    - unfold clean_placeholder; pose proof (Ht key (set_streams (streamActive m ∖ {[key]}) m1)) as Hx.
      destruct (take_placeholder key _) as [m2 [ph|]]; cbn [fst] in Hx |- *; [|rewrite Hx; cbn; set_solver].
      destruct (DeleteMessage ch); [|rewrite He]; cbn; rewrite Hx; cbn; set_solver.
    - pose proof (Ht key m1) as Hx; destruct (take_placeholder key m1) as [m2 [ph|]]; cbn [fst] in Hx |- *; [|rewrite Hx, Hq; done].
      pose proof (He (ChatID msg) ph (Content msg) m2) as Hy; destruct (edit ch _ _ _ m2); cbn [fst] in *; rewrite Hy, Hx, Hq; done. }
  unfold sendWithRetry; destruct (cancelled (log m)); [done|].
  destruct (preSend name msg ch m) as [m1 [ids|]]; [done|].
  specialize (Hr (fun l => Send ch l msg) (ESend msg) maxRetries 0%nat m1); destruct (retry _ _ _ _ _ _); cbn [fst] in *.
  rewrite Hr; exact Hp.
Qed.

Lemma send_chunks_spec msg chunks m : exists es, adds m (send_chunks cancelled name ch msg chunks m) es /\
  delivered es `sublist_of` chunks /\ streamActive (send_chunks cancelled name ch msg chunks m) ⊆ streamActive m /\
  ((forall l, cancelled l = false) -> (forall l msg, is_ok (Send ch l msg) = true) ->
    chat_key name (ChatID msg) ∉ streamActive m -> delivered es = chunks).
Proof.
  revert m; induction chunks as [|c chunks IH]; intros m; cbn [send_chunks].
  { exists []; split_and!; [apply adds_nil; done | constructor | done | done]. }
  pose proof (sendWithRetry_spec cancelled name ch (with_content msg c) m) as Hs.
  pose proof (streams_shrink (with_content msg c) m) as Hstr.
  destruct (sendWithRetry cancelled name ch (with_content msg c) m) as [m1 r]; cbn [fst] in *.
  destruct Hs as (es & Ha & Hlen & _ & Hfrom & Hr); destruct (IH m1) as (fs & Hb & Hsub & Hstr' & Hok).
  exists (es ++ fs); split_and!; [eapply adds_trans; eassumption | | set_solver | ].
  - rewrite omap_app; assert (delivered es = [] \/ delivered es = [c]) as [-> | ->]; cbn [app];
      [destruct r; tauto | apply sublist_cons; done | apply sublist_skip; done].
  - intros Hcan Hsend Hkey; rewrite omap_app, (Hok Hcan Hsend) by set_solver.
    destruct r as [ids|]; [destruct Hr as [-> | [Hin _]]; [done | tauto]|].
    exfalso; assert (forall r, r ∈ omap sent es -> is_ok r = true) as Hall.
    { intros r Hin; destruct (proj1 (Forall_forall _ _) Hfrom r Hin) as [l ->]; apply Hsend. }
    destruct Hr as (Hnone & [Hr|[Hr|[(e & Hr & _)|Hr]]]); rewrite ?Hcan in Hr; try done.
    + apply last_Some_elem_of, Hall in Hr; done.
    + destruct (omap sent es) as [|r rs] eqn:Hes; [done|].
      assert (r ∈ omap sent es) as (e & He & Hsent)%list_elem_of_omap by (rewrite Hes; left).
      specialize (Hall r ltac:(left)); destruct e as [msg' ans| | | | | |]; try done; injection Hsent as ->.
      destruct r as [ids|]; [|done].
      assert (Content msg' ∈ delivered es) as Hx by (apply list_elem_of_omap; exists (ESend msg' (Ok ids)); done).
      rewrite Hnone in Hx; inversion Hx.
Qed.
(** The pieces of all messages of a queue. *)
Fixpoint queue_chunks (fuel : nat) (splitOnMarker : bool) (queue : list OutboundMessage) : option (list string) :=
  match queue with
  | [] => Some []
  | msg :: queue' =>
      c1 ← message_chunks fuel splitOnMarker (max_length ch) (Content msg);
      c2 ← queue_chunks fuel splitOnMarker queue'; Some (c1 ++ c2)
  end.

Lemma splitByLength_fits fuel content maxLen cs : 0 < maxLen -> splitByLength fuel content maxLen = Some cs -> Forall (fits maxLen) cs.
Proof.
  intros Hm; unfold splitByLength; rewrite (proj2 (Z.ltb_lt 0 maxLen) Hm); cbn [andb].
  destruct (Z.ltb_spec maxLen (RuneCount content)) as [Hlt|Hge].
  - destruct (SplitMessage fuel content maxLen) as [r|] eqn:Hs; [|done].
    destruct (SplitMessage_fits fuel content maxLen r Hm Hs) as (ms & -> & Hf); intros [= <-]; exact Hf.
  - intros [= <-]; constructor; [exact Hge | constructor].
Qed.

Lemma split_all_fits fuel maxLen parts cs : 0 < maxLen -> split_all fuel maxLen parts = Some cs -> Forall (fits maxLen) cs.
Proof.
  intros Hm; revert cs; induction parts as [|p parts IH]; intros cs; cbn; [intros [= <-]; constructor|].
  destruct (splitByLength fuel p maxLen) as [c1|] eqn:H1; [|done]; destruct (split_all fuel maxLen parts) as [c2|]; [|done].
  intros [= <-]; apply Forall_app; split; [eapply splitByLength_fits; eassumption | apply IH; done].
Qed.

Lemma message_chunks_fits fuel b maxLen content cs : 0 < maxLen -> message_chunks fuel b maxLen content = Some cs -> Forall (fits maxLen) cs.
Proof.
  intros Hm; unfold message_chunks; set (parts := if b then _ else _).
  destruct (if (1 <? length parts)%nat then split_all fuel maxLen parts else Some []) as [c|] eqn:Hp; [|done]; cbn.
  destruct c as [|c cs']; [apply splitByLength_fits; exact Hm|]; intros [= <-].
  destruct (1 <? length parts)%nat; [eapply split_all_fits; eassumption | discriminate].
Qed.

Lemma queue_chunks_fits fuel b queue cs : 0 < max_length ch -> queue_chunks fuel b queue = Some cs -> Forall (fits (max_length ch)) cs.
Proof.
  intros Hm; revert cs; induction queue as [|msg queue IH]; intros cs; cbn [queue_chunks]; [intros [= <-]; constructor|].
  destruct (message_chunks fuel b (max_length ch) (Content msg)) as [c1|] eqn:H1; [|intros [=]].
  destruct (queue_chunks fuel b queue) as [c2|]; [|intros [=]]; cbn; intros [= <-].
  apply Forall_app; split; [eapply message_chunks_fits; eassumption | apply IH; done].
Qed.

(** *** Texts without code fences *)

(** A fence-free text that the function has the fuel for: as many turns as it has
    runes. *)
Definition fence_free (fuel : nat) (text : string) : Prop := no_fence (runes text) /\ (length (runes text) < fuel)%nat.

(** The parts that are split by length. *)
Definition parts_of (splitOnMarker : bool) (content : string) : list string :=
  let parts := if splitOnMarker then SplitByMarker content else [] in
  if (1 <? length parts)%nat then parts else [content].

(** A part stays whole, or its pieces are all of it in order, but for white space
    between them. *)
Definition pieces_of (part : string) (ps : list string) : Prop := ps = [part] \/ chunks_of (runes part) ps.

Definition text_of (splitOnMarker : bool) (content : string) (cs : list string) : Prop :=
  exists pss, cs = concat pss /\ Forall2 pieces_of (parts_of splitOnMarker content) pss.

Lemma run_more fuel k maxLen s r : run fuel maxLen s = Some r -> run (fuel + k) maxLen s = Some r.
Proof.
  revert s; induction fuel as [|fuel IH]; intros s; cbn [run Nat.add]; [done|]; destruct (step maxLen s); auto.
Qed.

Lemma SplitMessage_more fuel fuel' content maxLen r : (fuel <= fuel')%nat -> SplitMessage fuel content maxLen = Some r ->
  SplitMessage fuel' content maxLen = Some r.
Proof.
  intros Hle; unfold SplitMessage; destruct (maxLen <=? 0); [done|]; intros H.
  replace fuel' with (fuel + (fuel' - fuel))%nat by lia; apply run_more; done.
Qed.

Lemma splitByLength_plain fuel part maxLen : fence_free fuel part ->
  exists ps, splitByLength fuel part maxLen = Some ps /\ pieces_of part ps /\ ps <> [].
Proof.
  intros [Hn Hf]; unfold splitByLength; destruct (Z.ltb_spec 0 maxLen) as [Hm|]; cbn [andb]; [|exists [part]; split_and!; [done | by left | done]].
  destruct (Z.ltb_spec maxLen (RuneCount part)) as [Hlt|]; [|exists [part]; split_and!; [done | by left | done]].
  destruct (SplitMessage_plain part maxLen Hm Hn) as (ms & Hs & Hc); exists ms.
  rewrite (SplitMessage_more _ fuel _ _ _ Hf Hs); split_and!; [done | by right |].
  intros ->; inversion Hc as [E|]; unfold RuneCount in Hlt; rewrite <- E in Hlt; cbn in Hlt; lia.
Qed.

Lemma split_all_plain fuel maxLen parts : Forall (fence_free fuel) parts ->
  exists pss, split_all fuel maxLen parts = Some (concat pss) /\ Forall2 pieces_of parts pss /\ (parts <> [] -> concat pss <> []).
Proof.
  induction 1 as [|part parts Hp _ (pss & E & H2 & _)]; cbn [split_all]; [exists []; split_and!; [done | constructor | done]|].
  destruct (splitByLength_plain fuel part maxLen Hp) as (ps & Es & Hps & Hne); rewrite Es, E; cbn.
  exists (ps :: pss); split_and!; [done | by constructor | destruct ps; done].
Qed.

Lemma message_chunks_plain fuel b maxLen content : Forall (fence_free fuel) (parts_of b content) ->
  exists cs, message_chunks fuel b maxLen content = Some cs /\ text_of b content cs.
Proof.
  unfold parts_of, message_chunks, text_of; set (parts := if b then SplitByMarker content else []).
  unfold parts_of; fold parts; destruct (1 <? length parts)%nat eqn:Hl; intros Hp.
  - destruct (split_all_plain fuel maxLen parts Hp) as (pss & -> & H2 & Hne); cbn.
    destruct (concat pss) as [|c cs] eqn:Ec; [exfalso; apply Hne; [by destruct parts | done]|].
    exists (c :: cs); split; [done|]; exists pss; rewrite Ec; done.
  - apply Forall_inv in Hp; destruct (splitByLength_plain fuel content maxLen Hp) as (ps & Es & Hps & _); cbn; rewrite Es.
    exists ps; split; [done|]; exists [ps]; cbn; rewrite app_nil_r; split; [done | constructor; [exact Hps | constructor]].
Qed.

Lemma queue_chunks_plain fuel b queue : Forall (fun msg => Forall (fence_free fuel) (parts_of b (Content msg))) queue ->
  exists css, queue_chunks fuel b queue = Some (concat css) /\ Forall2 (fun msg cs => text_of b (Content msg) cs) queue css.
Proof.
  induction 1 as [|msg queue Hm _ (css & E & H2)]; cbn [queue_chunks]; [exists []; split; [done | constructor]|].
  destruct (message_chunks_plain fuel b (max_length ch) (Content msg) Hm) as (cs & Ec & Ht); rewrite Ec, E; cbn.
  exists (cs :: css); split; [done | by constructor].
Qed.

Lemma runWorker_ends fuel b queue m cs : queue_chunks fuel b queue = Some cs -> exists m', runWorker cancelled fuel b name ch queue m = Some m'.
Proof.
  revert m cs; induction queue as [|msg queue IH]; intros m cs; cbn [queue_chunks runWorker]; [eauto|]; unfold work.
  destruct (message_chunks _ _ _ _) as [c1|]; [|done]; destruct (queue_chunks fuel b queue) as [c2|]; [|done]; cbn; eauto.
Qed.

(** What a worker does to a queue whose pieces are [chunks]. *)
Definition brings (m m' : manager) (chunks : list string) (queue : list OutboundMessage) (es : list event) : Prop :=
  adds m m' es /\ delivered es `sublist_of` chunks /\
  (0 < max_length ch -> Forall (fits (max_length ch)) (delivered es)) /\
  ((forall l, cancelled l = false) -> (forall l msg, is_ok (Send ch l msg) = true) ->
   (forall msg, msg ∈ queue -> chat_key name (ChatID msg) ∉ streamActive m) -> delivered es = chunks).

Lemma worker_brings fuel splitOnMarker queue m m' :
  runWorker cancelled fuel splitOnMarker name ch queue m = Some m' ->
  exists chunks es, queue_chunks fuel splitOnMarker queue = Some chunks /\ brings m m' chunks queue es.
Proof.
  intros Hrun.
  assert (exists chunks es, queue_chunks fuel splitOnMarker queue = Some chunks /\ adds m m' es /\
    delivered es `sublist_of` chunks /\
    ((forall l, cancelled l = false) -> (forall l msg, is_ok (Send ch l msg) = true) ->
     (forall msg, msg ∈ queue -> chat_key name (ChatID msg) ∉ streamActive m) -> delivered es = chunks))
    as (chunks & es & Hq & Ha & Hs & Hok).
  { revert m Hrun; induction queue as [|msg queue IH]; intros m; cbn [runWorker queue_chunks].
    { intros [= ->]; exists [], []; split_and!; [done | apply adds_nil; done | constructor | auto]. }
    unfold work; destruct (message_chunks fuel splitOnMarker (max_length ch) (Content msg)) as [c1|]; [|done]; cbn.
    destruct (send_chunks_spec msg c1 m) as (es & Ha & Hs & Hstr & Hok); revert Ha Hstr.
    generalize (send_chunks cancelled name ch msg c1 m); intros m1 Ha Hstr Hrun.
    destruct (IH m1 Hrun) as (c2 & fs & -> & Hb & Hs2 & Hok2).
    exists (c1 ++ c2), (es ++ fs); split_and!; [done | eapply adds_trans; eassumption | rewrite omap_app; apply sublist_app; done |].
    intros Hcan Hsend Hkeys; rewrite omap_app, (Hok Hcan Hsend), (Hok2 Hcan Hsend); [done | | apply Hkeys; left].
    intros msg' Hin Hk; apply (Hkeys msg'); [right; exact Hin | set_solver]. }
  exists chunks, es; split; [done|]; unfold brings; split_and!; try done; intros Hm.
  apply Forall_forall; intros c Hc; apply (proj1 (Forall_forall _ _) (queue_chunks_fits _ _ _ _ Hm Hq)).
  eapply elem_of_sublist; eassumption.
Qed.

End Worker.

(** ** The registers *)

(** How many registered functions are [f]. *)
Definition registered (f : nat) (ts : gmap string entry) : nat :=
  length (filter (fun p => fn (snd p) = f) (map_to_list ts)).

Definition stop_event (e : event) : option nat := match e with EStop f => Some f | _ => None end.
Definition stopped (f : nat) (es : list event) : nat := length (filter (fun g => g = f) (omap stop_event es)).

Lemma registered_insert f key e ts : ts !! key = None ->
  registered f (<[key := e]> ts) = ((if bool_decide (fn e = f) then 1 else 0) + registered f ts)%nat.
Proof.
  intros Hk; unfold registered; rewrite (map_to_list_insert _ _ _ Hk), filter_cons; cbn [snd].
  case_decide; [rewrite bool_decide_true by done | rewrite bool_decide_false by done]; done.
Qed.

Lemma registered_delete f key e ts : ts !! key = Some e ->
  registered f ts = ((if bool_decide (fn e = f) then 1 else 0) + registered f (delete key ts))%nat.
Proof. intros Hk; rewrite <- (insert_delete_id ts key e Hk) at 1; apply registered_insert, lookup_delete_eq. Qed.

Lemma stopped_snoc f es e : stopped f (es ++ [e]) =
  (stopped f es + match e with EStop g => if bool_decide (g = f) then 1 else 0 | _ => 0 end)%nat.
Proof.
  unfold stopped; rewrite omap_app, filter_app, length_app; destruct e; cbn; try lia.
  case_decide; [rewrite bool_decide_true by done | rewrite bool_decide_false by done]; done.
Qed.

(** What happens to typing indicators: one begins, one is ended by a message or
    by the agent, the janitor looks at one. *)
Inductive typing_op : Type :=
| OpRecord (now : time) (name chatID : string) (stop : nat)
| OpTake (key : string)
| OpEvict (now : time) (key : string).

Definition typing_step (m : manager) (o : typing_op) : manager :=
  match o with
  | OpRecord now name chatID stop => RecordTypingStop now name chatID stop m
  | OpTake key => stop_typing key m
  | OpEvict now key => evict_typing now key m
  end.

Definition recorded (f : nat) (ops : list typing_op) : nat :=
  length (filter (fun g => g = f) (omap (fun o => match o with OpRecord _ _ _ g => Some g | _ => None end) ops)).

Lemma recorded_cons f o ops : recorded f (o :: ops) =
  (match o with OpRecord _ _ _ g => if bool_decide (g = f) then 1 else 0 | _ => 0 end + recorded f ops)%nat.
Proof.
  destruct o; try done; unfold recorded; cbn; case_decide; [rewrite bool_decide_true by done | rewrite bool_decide_false by done]; done.
Qed.

Definition balance (f : nat) (m : manager) : nat := (stopped f (log m) + registered f (typingStops m))%nat.

Lemma balance_take f key m : balance f (stop_typing key m) = balance f m.
Proof.
  unfold balance, stop_typing; destruct (typingStops m !! key) as [e|] eqn:Hk; [|done]; cbn [typingStops log happens set_typing].
  rewrite stopped_snoc, (registered_delete f key e _ Hk); lia.
Qed.

Lemma balance_record f now name chatID g m :
  balance f (RecordTypingStop now name chatID g m) = (balance f m + if bool_decide (g = f) then 1 else 0)%nat.
Proof.
  unfold balance, RecordTypingStop; set (key := chat_key name chatID).
  assert (forall e, registered f (<[key := e]> (typingStops m)) = ((if bool_decide (fn e = f) then 1 else 0) + registered f (delete key (typingStops m)))%nat) as Hi
    by (intros e; rewrite <- insert_delete_eq; apply registered_insert, lookup_delete_eq).
  destruct (typingStops m !! key) as [e|] eqn:Hk; cbn [typingStops log happens set_typing]; rewrite ?stopped_snoc, Hi; cbn [fn].
  - rewrite (registered_delete f key e _ Hk); lia.
  - rewrite delete_id by done; lia.
Qed.

Lemma balance_evict f now key m : balance f (evict_typing now key m) = balance f m.
Proof.
  unfold evict_typing; destruct (typingStops m !! key) as [e|] eqn:Hk; [|done].
  pose proof (balance_take f key m) as Ht; unfold stop_typing in Ht; unfold evict_seen; rewrite Hk in *.
  destruct (typingStopTTL <? now - createdAt e); done.
Qed.

(** Every function that stops a typing indicator is called once for each time
    that it was recorded, or is still registered, while the janitor is not
    interrupted. *)
Lemma typing_stops_accounted ops m f :
  balance f (fold_left typing_step ops m) = (balance f m + recorded f ops)%nat.
Proof.
  revert m; induction ops as [|o ops IH]; intros m; cbn [fold_left]; [unfold recorded; cbn; lia|].
  rewrite IH, recorded_cons; destruct o; cbn [typing_step]; rewrite ?balance_record, ?balance_take, ?balance_evict; lia.
Qed.

(** When another indicator begins in the chat between the janitor's look and its
    deletion, the new one is removed and the old one is stopped again: nothing
    will stop the new one. *)
Lemma janitor_loses_indicator now later name chatID f g old m : let key := chat_key name chatID in
  typingStops m !! key = Some old -> fn old = f -> f <> g -> typingStopTTL < now - createdAt old -> balance g m = 0%nat ->
  let m' := evict_seen now key old (RecordTypingStop later name chatID g (stop_typing key m)) in
  typingStops m' !! key = None /\ balance g m' = 0%nat /\ recorded g [OpTake key; OpRecord later name chatID g] = 1%nat.
Proof.
  intros key Hk Hf Hne Hold Hg; unfold evict_seen; rewrite (proj2 (Z.ltb_lt _ _) Hold).
  assert (typingStops (stop_typing key m) !! key = None) as Hnone by (unfold stop_typing; rewrite Hk; apply lookup_delete_eq).
  pose proof (balance_take g key m) as Ht; rewrite Hg in Ht.
  unfold RecordTypingStop; fold key; rewrite Hnone; cbn [typingStops set_typing]; rewrite lookup_insert_eq; cbn [happens typingStops set_typing log].
  split_and!; [apply lookup_delete_eq | | unfold recorded; cbn; rewrite decide_True by done; done].
  unfold balance in *; cbn [typingStops log happens set_typing].
  rewrite stopped_snoc, Hf, bool_decide_false by done; rewrite delete_insert_id by done; lia.
Qed.

(** A reaction that is recorded in a chat that has one already replaces it, and
    the old one is never undone. *)
Example reaction_is_lost : let m := RecordReactionUndo 1 "telegram" "7" 2 (RecordReactionUndo 0 "telegram" "7" 1 (mkManager ∅ ∅ ∅ ∅ [])) in
  log (undo_reaction (chat_key "telegram" "7") m) = [EUndo 2] /\ reactionUndos (undo_reaction (chat_key "telegram" "7") m) = ∅.
Proof. split; reflexivity. Qed.

(** ** Streams *)

(** A chat that a stream has claimed swallows the next message, whichever it
    is: nothing is sent, and success is reported. *)
Lemma claimed_chat_swallows cancelled name ch msg m : cancelled (log m) = false ->
  chat_key name (ChatID msg) ∈ streamActive m -> placeholders m !! chat_key name (ChatID msg) = None ->
  let (m', r) := sendWithRetry cancelled name ch msg m in
  r = Some [] /\ exists es, adds m m' es /\ omap sent es = [] /\ delivered es = [].
Proof.
  intros Hc Hk Hp; unfold sendWithRetry, preSend; rewrite Hc, streamActive_quiet, bool_decide_true by done.
  split; [done|]; set (key := chat_key name (ChatID msg)) in *.
  destruct (quiet_first key m) as (es & Ha & [Hs _] & Hd); exists es; split; [|done].
  unfold clean_placeholder, take_placeholder; cbn [placeholders set_streams].
  assert (placeholders (undo_reaction key (stop_typing key m)) = placeholders m) as ->
    by (unfold undo_reaction, stop_typing; destruct (typingStops m !! key); cbn; destruct (reactionUndos m !! key); done).
  rewrite Hp; exact Ha.
Qed.

(** Such a claim has no age: the janitor leaves it. *)
Lemma janitor_keeps_claims now order m : streamActive (janitor now order m) = streamActive m.
Proof.
  unfold janitor.
  assert (forall (f : string -> manager -> manager), (forall k m, streamActive (f k m) = streamActive m) ->
    forall ks m, streamActive (foldr f m ks) = streamActive m) as Hf
    by (intros f Hstep ks m0; induction ks as [|k ks IH]; cbn; [done | rewrite Hstep; exact IH]).
  rewrite !Hf; [done | | | ]; intros k m0.
  - unfold evict_typing, evict_seen; destruct (typingStops m0 !! k); [|done]; destruct (_ <? _); done.
  - unfold evict_reaction, undo_reaction; destruct (reactionUndos m0 !! k); [|done]; destruct (_ <? _); done.
  - unfold evict_placeholder; destruct (placeholders m0 !! k); [|done]; destruct (_ <? _); done.
Qed.

(** ** A run *)

Definition demo_channel : channel :=
  mkChannel (Some 3) (fun l msg => Ok [Content msg]) None (Some (fun _ _ _ _ => true)) true.

Definition demo_message (chat content : string) : OutboundMessage := mkMsg "telegram" chat content "" ∅.

Definition demo_start : manager :=
  RecordPlaceholder 0 "telegram" "8" "p" (mkManager ∅ ∅ ∅ ∅ []).


(** The first piece of an answer that was streamed is taken for all of it, the
    others are sent once more. *)
Example streamed_answer_is_sent_again : exists m',
  runWorker (fun _ => false) 10 false "telegram" demo_channel [demo_message "7" "abcdef"]
    (stream_finalized "telegram" "7" demo_start) = Some m' /\ delivered (log m') = ["cd"; "ef"].
Proof. eexists; split; vm_compute; reflexivity. Qed.
