(* ===== verification/ChannelManager.v ===== *)
(** * Channels that start, stop and are exchanged: [src/pkg/channels/manager.go], [manager_channel.go]

    The manager has the channels that are enabled, a worker for each that has
    started, and compares the configuration with what it was when it is loaded
    again. An instance of a channel and a worker are numbers; their queues are
    kept with the identity of the worker. What is done in the background after
    a reload are steps of their own. Methods that hold the lock are single
    steps; workers that are waited for come to their end. *)

From stdpp Require Import gmap sorting.
From S2P Require Import Prelude GoStrings.

(** ** Configuration *)

(** Of one channel: [digest] is the hash of all its settings. *)
Record channel_config : Type := mkChannelConfig { Enabled : bool; Token : string; digest : string }.

Record ChannelsConfig : Type := mkChannels { Telegram : channel_config; Discord : channel_config }.

Definition channelNames : list string := ["telegram"; "discord"].

Definition channel_of (cfg : ChannelsConfig) (name : string) : channel_config :=
  if String.eqb name "telegram" then Telegram cfg else Discord cfg.

Definition toChannelHashes (cfg : ChannelsConfig) : gmap string string :=
  list_to_map (omap (fun name => if Enabled (channel_of cfg name) then Some (name, digest (channel_of cfg name)) else None) channelNames).

(** [compareChannels], over the entries of both maps in any order. *)
Definition compareChannels (old news : gmap string string) (old_order new_order : list (string * string)) : list string * list string :=
  let changed := omap (fun '(key, newHash) => match old !! key with
                                              | Some oldHash => if String.eqb newHash oldHash then None else Some key
                                              | None => None end) new_order in
  let added := omap (fun '(key, newHash) => match old !! key with
                                            | Some oldHash => if String.eqb newHash oldHash then None else Some key
                                            | None => Some key end) new_order in
  let gone := omap (fun '(key, _) => match news !! key with None => Some key | Some _ => None end) old_order in
  (added, changed ++ gone).

Definition no_channel : channel_config := mkChannelConfig false "" "".

(** [toChannelConfig] keeps the channels of the list that are enabled, with their
    tokens. *)
Definition toChannelConfig (cfg : ChannelsConfig) (names : list string) : ChannelsConfig :=
  let keep (name : string) := let c := channel_of cfg name in
    if bool_decide (name ∈ names) && Enabled c then c else no_channel in
  mkChannels (keep "telegram") (keep "discord").

(** ** State *)

Inductive ChannelStartupState : Type := Disabled | Blocked | Initialized | Started.

Record worker : Type := mkWorker { wid : nat; serves : nat; task : nat }.

Inductive deferred : Type := Unregister (name : string) | Register (name : string) (ch : nat).

Record manager : Type := mkManager {
  channels : gmap string nat;
  workers : gmap string worker;
  config : ChannelsConfig;
  dispatchTask : option nat;
  channelHashes : gmap string string;
  startupStatus : gmap string (ChannelStartupState * string);
  running : gset nat;          (* instances that have been started and not stopped *)
  closed : gset nat;           (* workers whose queues are closed *)
  cancelled : gset nat;        (* tasks that have been cancelled *)
  dispatchers : gset nat;      (* tasks with dispatchers and janitor *)
  background : list (list deferred);
  fresh : nat
}.

Definition set_status (name : string) (s : ChannelStartupState) (reason : string) (m : manager) : manager :=
  mkManager (channels m) (workers m) (config m) (dispatchTask m) (channelHashes m) (<[name := (s, reason)]> (startupStatus m))
    (running m) (closed m) (cancelled m) (dispatchers m) (background m) (fresh m).
Definition set_channels (x : gmap string nat) (m : manager) : manager :=
  mkManager x (workers m) (config m) (dispatchTask m) (channelHashes m) (startupStatus m)
    (running m) (closed m) (cancelled m) (dispatchers m) (background m) (fresh m).
Definition set_workers (x : gmap string worker) (m : manager) : manager :=
  mkManager (channels m) x (config m) (dispatchTask m) (channelHashes m) (startupStatus m)
    (running m) (closed m) (cancelled m) (dispatchers m) (background m) (fresh m).
Definition set_running (x : gset nat) (m : manager) : manager :=
  mkManager (channels m) (workers m) (config m) (dispatchTask m) (channelHashes m) (startupStatus m)
    x (closed m) (cancelled m) (dispatchers m) (background m) (fresh m).
Definition set_closed (x : gset nat) (m : manager) : manager :=
  mkManager (channels m) (workers m) (config m) (dispatchTask m) (channelHashes m) (startupStatus m)
    (running m) x (cancelled m) (dispatchers m) (background m) (fresh m).
Definition set_background (x : list (list deferred)) (m : manager) : manager :=
  mkManager (channels m) (workers m) (config m) (dispatchTask m) (channelHashes m) (startupStatus m)
    (running m) (closed m) (cancelled m) (dispatchers m) x (fresh m).
Definition new_id (m : manager) : nat * manager :=
  (fresh m, mkManager (channels m) (workers m) (config m) (dispatchTask m) (channelHashes m) (startupStatus m)
    (running m) (closed m) (cancelled m) (dispatchers m) (background m) (S (fresh m))).
Definition cancel (m : manager) : manager :=
  mkManager (channels m) (workers m) (config m) None (channelHashes m) (startupStatus m)
    (running m) (closed m) (match dispatchTask m with Some t => {[t]} ∪ cancelled m | None => cancelled m end)
    (dispatchers m) (background m) (fresh m).
(** A new context for workers and dispatchers. *)
Definition new_task (m : manager) : nat * manager :=
  (fresh m, mkManager (channels m) (workers m) (config m) (Some (fresh m)) (channelHashes m) (startupStatus m)
    (running m) (closed m) (cancelled m) (dispatchers m) (background m) (S (fresh m))).
Definition start_dispatchers (t : nat) (m : manager) : manager :=
  mkManager (channels m) (workers m) (config m) (dispatchTask m) (channelHashes m) (startupStatus m)
    (running m) (closed m) (cancelled m) ({[t]} ∪ dispatchers m) (background m) (fresh m).

(** ** Statuses *)

Definition refreshSingleStartupStatus (name : string) (c : channel_config) (m : manager) : manager :=
  if negb (Enabled c) then set_status name Disabled "disabled in config" m
  else if String.eqb (Token c) "" then set_status name Blocked "enabled but token missing" m
  else set_status name Initialized "" m.

Definition refreshStartupStatus (cfg : ChannelsConfig) (m : manager) : manager :=
  refreshSingleStartupStatus "discord" (Discord cfg) (refreshSingleStartupStatus "telegram" (Telegram cfg)
    (mkManager (channels m) (workers m) (config m) (dispatchTask m) (channelHashes m) ∅
      (running m) (closed m) (cancelled m) (dispatchers m) (background m) (fresh m))).

(** A method either returns, with an error or without, or panics. *)
Inductive outcome : Type := Returns (m : manager) (err : option string) | Panics.

Section Manager.
(** What factories and [Start] answer: an error, or none. *)
Context (factory : string -> ChannelsConfig -> option string) (start : nat -> option string).

Definition initChannel (name : string) (m : manager) : manager :=
  match factory name (config m) with
  | Some err => set_status name Blocked err m
  | None =>
      let (ch, m) := new_id m in
      set_status name Initialized "" (set_channels (<[name := ch]> (channels m)) m)
  end.

Definition init_enabled (name : string) (c : channel_config) (m : manager) : manager :=
  if Enabled c && negb (String.eqb (Token c) "") then initChannel name m else m.

Definition initChannels (cfg : ChannelsConfig) (m : manager) : manager :=
  init_enabled "discord" (Discord cfg) (init_enabled "telegram" (Telegram cfg) m).

Definition NewManager (cfg : ChannelsConfig) : manager :=
  let m := initChannels cfg (refreshStartupStatus cfg (mkManager ∅ ∅ cfg None ∅ ∅ ∅ ∅ ∅ ∅ [] 0)) in
  mkManager (channels m) (workers m) (config m) (dispatchTask m) (toChannelHashes cfg) (startupStatus m)
    (running m) (closed m) (cancelled m) (dispatchers m) (background m) (fresh m).

(** [Start], and a worker when it succeeds. *)
Definition start_channel (t : nat) (name : string) (ch : nat) (m : manager) : manager * bool :=
  match start ch with
  | Some err => (set_status name Blocked ("failed to start: " +:+ err) m, false)
  | None =>
      let (w, m) := new_id (set_running ({[ch]} ∪ running m) m) in
      (set_status name Started "" (set_workers (<[name := mkWorker w ch t]> (workers m)) m), true)
  end.

(** [StartAll], over the channels in any order. *)
Definition StartAll (order : list (string * nat)) (m : manager) : manager * option string :=
  let (t, m) := new_task m in
  let m := fold_left (fun m '(name, ch) => fst (start_channel t name ch m)) order m in
  if negb (bool_decide (channels m = ∅)) && bool_decide (workers m = ∅)
  then (cancel m, Some "failed to start any enabled channels")
  else (start_dispatchers t m, None).

(** [StopAll]: every worker of the map is asked to end, and has ended. Closing a
    queue twice panics. *)
Definition StopAll (m : manager) : outcome :=
  let m := cancel m in
  let ids := (fun p => wid (snd p)) <$> map_to_list (workers m) in
  if existsb (fun i => bool_decide (i ∈ closed m)) ids then Panics
  else Returns (set_running (running m ∖ list_to_set (snd <$> map_to_list (channels m)))
                  (set_closed (list_to_set ids ∪ closed m) m)) None.

Definition UnregisterChannel (name : string) (m : manager) : outcome :=
  match workers m !! name with
  | Some w =>
      if bool_decide (wid w ∈ closed m) then Panics
      else Returns (set_channels (delete name (channels m)) (set_workers (delete name (workers m)) (set_closed ({[wid w]} ∪ closed m) m))) None
  | None => Returns (set_channels (delete name (channels m)) (set_workers (delete name (workers m)) m)) None
  end.

Definition RegisterChannel (name : string) (ch : nat) (m : manager) : manager :=
  set_channels (<[name := ch]> (channels m)) m.

(** The first loop of [Reload]: a channel that is not there is a nil interface. *)
Fixpoint stop_removed (names : list string) (m : manager) : option (manager * list deferred) :=
  match names with
  | [] => Some (m, [])
  | name :: names' =>
      match channels m !! name with
      | None => None
      | Some ch =>
          p ← stop_removed names' (set_running (running m ∖ {[ch]}) m);
          let '(m, fs) := p in Some (m, Unregister name :: fs)
      end
  end.

Fixpoint start_added (t : nat) (names : list string) (m : manager) : option (manager * list deferred) :=
  match names with
  | [] => Some (m, [])
  | name :: names' =>
      match channels m !! name with
      | None => None
      | Some ch =>
          let (m, ok) := start_channel t name ch m in
          p ← start_added t names' m;
          let '(m, fs) := p in Some (m, (if ok then [Register name ch] else []) ++ fs)
      end
  end.

Definition set_config (cfg : ChannelsConfig) (m : manager) : manager :=
  mkManager (channels m) (workers m) cfg (dispatchTask m) (channelHashes m) (startupStatus m)
    (running m) (closed m) (cancelled m) (dispatchers m) (background m) (fresh m).
Definition commit (hashes : gmap string string) (fs : list deferred) (m : manager) : manager :=
  mkManager (channels m) (workers m) (config m) (dispatchTask m) hashes (startupStatus m)
    (running m) (closed m) (cancelled m) (dispatchers m) (background m ++ [fs]) (fresh m).

(** [Reload]; [old_order] and [new_order] are the entries of the hashes. *)
Definition Reload (cfg : ChannelsConfig) (old_order new_order : list (string * string)) (m : manager) : outcome :=
  let m := refreshStartupStatus cfg (set_config cfg m) in
  let hashes := toChannelHashes cfg in
  let (added, removed) := compareChannels (channelHashes m) hashes old_order new_order in
  match stop_removed removed m with
  | None => Panics
  | Some (m, fs) =>
      let (t, m) := new_task m in
      match start_added t added (initChannels (toChannelConfig cfg added) m) with
      | None => Panics
      | Some (m, gs) => Returns (commit hashes (fs ++ gs) m) None
      end
  end.

(** The goroutine of a reload does what was put off, one after the other. *)
Definition do_deferred (f : deferred) (m : manager) : outcome :=
  match f with
  | Unregister name => UnregisterChannel name m
  | Register name ch => Returns (RegisterChannel name ch m) None
  end.

Fixpoint run_deferred (fs : list deferred) (m : manager) : outcome :=
  match fs with
  | [] => Returns m None
  | f :: fs' => match do_deferred f m with Returns m' _ => run_deferred fs' m' | Panics => Panics end
  end.

(** All goroutines, when nothing else comes in between. *)
Fixpoint settle (bg : list (list deferred)) (m : manager) : outcome :=
  match bg with
  | [] => Returns m None
  | fs :: bg' => match run_deferred fs m with Returns m' _ => settle bg' m' | Panics => Panics end
  end.

Definition settled (m : manager) : outcome := settle (background m) (set_background [] m).
End Manager.

(** ** Where a message goes *)

Inductive delivery : Type :=
| InternalChannel | UnknownChannel | NoWorker | Enqueued (w : nat) | SendOnClosed.

Definition IsInternalChannel (channel : string) : bool :=
  String.eqb channel "cli" || String.eqb channel "system" || String.eqb channel "subagent".

(** One round of [dispatchLoop]. *)
Definition dispatch (m : manager) (channel : string) : delivery :=
  if IsInternalChannel channel then InternalChannel
  else match channels m !! channel with
       | None => UnknownChannel
       | Some _ =>
           match workers m !! channel with
           | Some w => if bool_decide (wid w ∈ closed m) then SendOnClosed else Enqueued (wid w)
           | None => NoWorker
           end
       end.

Definition GetStartedChannels (m : manager) : list string := merge_sort String.le (fst <$> map_to_list (workers m)).

Definition GetStartupStatuses (m : manager) : list (string * (ChannelStartupState * string)) :=
  omap (fun name => (fun s => (name, s)) <$> startupStatus m !! name) channelNames.

(** * Theorems *)

(** The orders of iteration have the entries of the maps. *)
Definition entries (order : list (string * string)) (hashes : gmap string string) : Prop :=
  order ≡ₚ map_to_list hashes.

Lemma entries_elem order hashes name h : entries order hashes -> (name, h) ∈ order <-> hashes !! name = Some h.
Proof. intros ->; apply elem_of_map_to_list. Qed.

Lemma compareChannels_spec old news old_order new_order added removed :
  entries old_order old -> entries new_order news ->
  compareChannels old news old_order new_order = (added, removed) -> forall name,
  (name ∈ added <-> exists h, news !! name = Some h /\ old !! name <> Some h) /\
  (name ∈ removed <-> exists h, old !! name = Some h /\ news !! name <> Some h).
Proof.
  intros Ho Hn [= <- <-] name; split.
  - rewrite list_elem_of_omap; split.
    + intros ([k h] & Hin & Heq); rewrite (entries_elem _ _ _ _ Hn) in Hin.
      destruct (old !! k) as [h'|] eqn:Hk; [destruct (String.eqb_spec h h') as [->|Hne]; [done|]|];
        injection Heq as <-; exists h; split; [done | congruence | done | congruence].
    + intros (h & Hh & Hne); exists (name, h); rewrite (entries_elem _ _ _ _ Hn); split; [done|].
      destruct (old !! name) as [h'|]; [|done]; destruct (String.eqb_spec h h') as [->|]; [congruence | done].
  - rewrite elem_of_app, !list_elem_of_omap; split.
    + intros [([k h] & Hin & Heq)|([k h] & Hin & Heq)].
      * rewrite (entries_elem _ _ _ _ Hn) in Hin; destruct (old !! k) as [h'|] eqn:Hk; [|done].
        destruct (String.eqb_spec h h') as [->|Hne]; [done|]; injection Heq as <-; exists h'; split; [done | congruence].
      * rewrite (entries_elem _ _ _ _ Ho) in Hin; destruct (news !! k) as [h'|] eqn:Hk; [done|]; injection Heq as <-.
        exists h; split; [done | congruence].
    + intros (h & Hh & Hne); destruct (news !! name) as [h'|] eqn:Hk; [left; exists (name, h') | right; exists (name, h)].
      * rewrite (entries_elem _ _ _ _ Hn), Hh; split; [done|].
        destruct (String.eqb_spec h' h) as [->|]; [congruence | done].
      * rewrite (entries_elem _ _ _ _ Ho), Hk; done.
Qed.

(** ** Well-formed states *)

(** Instances and workers are used for one channel each, and the queues of the
    workers in the map are open. *)
Record wf (m : manager) : Prop := {
  channels_inj n n' c : channels m !! n = Some c -> channels m !! n' = Some c -> n = n';
  channels_old n c : channels m !! n = Some c -> (c < fresh m)%nat;
  workers_inj n n' w w' : workers m !! n = Some w -> workers m !! n' = Some w' -> wid w = wid w' -> n = n';
  workers_old n w : workers m !! n = Some w -> (wid w < fresh m)%nat;
  workers_open n w : workers m !! n = Some w -> wid w ∉ closed m;
  closed_old i : i ∈ closed m -> (i < fresh m)%nat
}.

(** States that differ in nothing that [wf] looks at. *)
Lemma manager_wf_same m m' : wf m -> channels m' = channels m -> workers m' = workers m -> closed m' = closed m ->
  (fresh m <= fresh m')%nat -> wf m'.
Proof.
  intros [H1 H2 H3 H4 H5 H6] Hc Hw Hcl Hf; split; rewrite ?Hc, ?Hw, ?Hcl; [exact H1 | | exact H3 | | exact H5 | ].
  - intros n c Hn; specialize (H2 n c Hn); lia.
  - intros n w Hn; specialize (H4 n w Hn); lia.
  - intros i Hi; specialize (H6 i Hi); lia.
Qed.

Lemma wf_add_channel m n : wf m -> wf (set_channels (<[n := fresh m]> (channels m)) (snd (new_id m))).
Proof.
  intros [H1 H2 H3 H4 H5 H6]; split; cbn; eauto.
  - intros n1 n2 c [(<- & <-)|[Hn1 Hc1]]%lookup_insert_Some [(<- & Heq)|[Hn2 Hc2]]%lookup_insert_Some; subst; eauto.
    + apply H2 in Hc2; lia.
    + apply H2 in Hc1; lia.
  - intros n1 c [(<- & <-)|[_ Hc]]%lookup_insert_Some; [lia|]; apply H2 in Hc; lia.
  - intros n1 w Hw; apply H4 in Hw; lia.
  - intros i Hi; apply H6 in Hi; lia.
Qed.

Lemma wf_add_worker m n ch t : wf m -> wf (set_workers (<[n := mkWorker (fresh m) ch t]> (workers m)) (snd (new_id m))).
Proof.
  intros [H1 H2 H3 H4 H5 H6]; split; cbn; eauto.
  - intros n1 c Hc; apply H2 in Hc; lia.
  - intros n1 n2 w w' [(<- & <-)|[Hn1 Hc1]]%lookup_insert_Some [(<- & <-)|[Hn2 Hc2]]%lookup_insert_Some; cbn; eauto; intros Heq.
    + apply H4 in Hc2; lia.
    + apply H4 in Hc1; lia.
  - intros n1 w [(<- & <-)|[_ Hc]]%lookup_insert_Some; cbn; [lia|]; apply H4 in Hc; lia.
  - intros n1 w [(<- & <-)|[_ Hc]]%lookup_insert_Some; cbn; [|eauto]; intros Hin; apply H6 in Hin; lia.
  - intros i Hi; apply H6 in Hi; lia.
Qed.

Section Phases.
Context (factory : string -> ChannelsConfig -> option string) (start : nat -> option string).

(** What the phases of a reload leave alone. *)
Definition same_rest (m m' : manager) : Prop :=
  closed m' = closed m /\ background m' = background m /\ (fresh m <= fresh m')%nat.

#[local] Instance same_rest_refl : Reflexive same_rest.
Proof. repeat split; done. Qed.

#[local] Instance same_rest_trans : Transitive same_rest.
Proof. intros m1 m2 m3 (H1 & H2 & H3) (H4 & H5 & H6); repeat split; [congruence.. | lia]. Qed.

Lemma wf_set_status n s r m : wf m -> wf (set_status n s r m).
Proof. intros Hw; eapply manager_wf_same; done || exact Hw. Qed.

(** A channel that [initChannels] makes: its configuration and the factory agree. *)
Definition makes (cfg : ChannelsConfig) (m : manager) (n : string) : bool :=
  bool_decide (n ∈ channelNames) && Enabled (channel_of cfg n) && negb (String.eqb (Token (channel_of cfg n)) "")
  && bool_decide (factory n (config m) = None).

Lemma init_enabled_spec n c m : let m' := init_enabled factory n c m in
  wf m -> wf m' /\ same_rest m m' /\ workers m' = workers m /\ config m' = config m /\
  (forall k, k <> n -> channels m' !! k = channels m !! k) /\
  (if Enabled c && negb (String.eqb (Token c) "") && bool_decide (factory n (config m) = None)
   then channels m' !! n = Some (fresh m) else channels m' !! n = channels m !! n).
Proof.
  intros m' Hw; unfold m', init_enabled; destruct (Enabled c && negb (String.eqb (Token c) "")) eqn:He; cbn [andb];
    [|split_and!; done].
  unfold initChannel; destruct (factory n (config m)) as [e|] eqn:Hf.
  - rewrite bool_decide_false by done; split_and!; [apply wf_set_status; done | done..].
  - rewrite bool_decide_true by done; cbn [new_id]; split_and!; cbn; try done.
    + apply wf_set_status; apply (wf_add_channel m n Hw).
    + repeat split; cbn; lia.
    + intros k Hk; rewrite lookup_insert_ne by done; done.
    + apply lookup_insert_eq.
Qed.

Lemma initChannels_spec cfg m : let m' := initChannels factory cfg m in
  wf m -> wf m' /\ same_rest m m' /\ workers m' = workers m /\
  forall n, if makes cfg m n then exists c, channels m' !! n = Some c /\ (fresh m <= c)%nat else channels m' !! n = channels m !! n.
Proof.
  intros m' Hw; unfold m', initChannels.
  destruct (init_enabled_spec "telegram" (Telegram cfg) m Hw) as (Hw1 & Hr1 & Hk1 & Hc1 & Ho1 & Hn1).
  revert Hw1 Hr1 Hk1 Hc1 Ho1 Hn1; generalize (init_enabled factory "telegram" (Telegram cfg) m); intros m1 Hw1 Hr1 Hk1 Hc1 Ho1 Hn1.
  destruct (init_enabled_spec "discord" (Discord cfg) m1 Hw1) as (Hw2 & Hr2 & Hk2 & _ & Ho2 & Hn2).
  split_and!; [done | etransitivity; eassumption | congruence |].
  intros n; unfold makes, channelNames; rewrite Hc1 in Hn2.
  destruct (decide (n = "telegram")) as [->|Ht]; [|destruct (decide (n = "discord")) as [->|Hd]].
  - rewrite Ho2 by done; rewrite bool_decide_true by (left); cbn [andb channel_of].
    change (channel_of cfg "telegram") with (Telegram cfg).
    destruct (Enabled (Telegram cfg) && _ && _); [eexists; split; [exact Hn1 | lia] | exact Hn1].
  - rewrite bool_decide_true by (right; left); cbn [andb]; change (channel_of cfg "discord") with (Discord cfg).
    destruct (Enabled (Discord cfg) && _ && _); [eexists; split; [exact Hn2 | apply Hr1]|].
    rewrite Hn2; apply Ho1; done.
  - rewrite bool_decide_false; [rewrite Ho2, Ho1 by done; done|].
    intros Hin; repeat (apply elem_of_cons in Hin as [Hin|Hin]; [done|]); inversion Hin.
Qed.

(** ** Starting *)

Lemma start_channel_spec t n ch m : let m' := fst (start_channel start t n ch m) in
  wf m -> wf m' /\ same_rest m m' /\ channels m' = channels m /\
  (forall k, k <> n -> workers m' !! k = workers m !! k) /\
  snd (start_channel start t n ch m) = bool_decide (start ch = None) /\
  (if bool_decide (start ch = None) then workers m' !! n = Some (mkWorker (fresh m) ch t) else workers m' !! n = workers m !! n).
Proof.
  intros m' Hw; unfold m', start_channel; destruct (start ch) as [e|] eqn:Hs; cbn [fst snd].
  - rewrite bool_decide_false by done; split_and!; [apply wf_set_status; done | done..].
  - rewrite bool_decide_true by done; cbn [new_id fst snd]; split_and!; cbn; try done.
    + apply wf_set_status; eapply manager_wf_same; [apply (wf_add_worker m n ch t Hw) | done..].
    + repeat split; cbn; lia.
    + intros k Hk; rewrite lookup_insert_ne by done; done.
    + apply lookup_insert_eq.
Qed.

(** Workers of the names that start, the others as before. *)
Definition started_workers (names : list string) (m m' : manager) : Prop := forall n,
  match channels m !! n with
  | Some ch => if bool_decide (n ∈ names) && bool_decide (start ch = None)
               then exists w, workers m' !! n = Some w /\ serves w = ch /\ (fresh m <= wid w)%nat
               else workers m' !! n = workers m !! n
  | None => workers m' !! n = workers m !! n
  end.

Definition registrations (names : list string) (m : manager) : list deferred :=
  omap (fun n => match channels m !! n with
                 | Some ch => if bool_decide (start ch = None) then Some (Register n ch) else None
                 | None => None end) names.

Lemma start_added_spec t names m m' gs : wf m -> NoDup names -> start_added start t names m = Some (m', gs) ->
  wf m' /\ same_rest m m' /\ channels m' = channels m /\ started_workers names m m' /\ gs = registrations names m /\
  forall n, n ∈ names -> is_Some (channels m !! n).
Proof.
  revert m m' gs; induction names as [|n names IH]; intros m m' gs Hw Hnd; cbn [start_added].
  { intros [= <- <-]; split_and!; try done; [intros n; destruct (channels m !! n); done | intros n Hn; inversion Hn]. }
  destruct (channels m !! n) as [ch|] eqn:Hch; [|done].
  pose proof (start_channel_spec t n ch m Hw) as (Hw1 & Hr1 & Hc1 & Ho1 & Hb & Hn1).
  destruct (start_channel start t n ch m) as [m1 ok]; cbn [fst snd] in *; apply NoDup_cons in Hnd as [Hnin Hnd].
  destruct (start_added start t names m1) as [[m2 gs2]|] eqn:Hs; [|done]; cbn; intros [= <- <-].
  destruct (IH m1 m2 gs2 Hw1 Hnd Hs) as (Hw2 & Hr2 & Hc2 & Hst & -> & Hall).
  split_and!; [done | etransitivity; eassumption | congruence | | | ].
  - intros k; specialize (Hst k); rewrite Hc1 in Hst; destruct (decide (k = n)) as [->|Hne].
    + rewrite Hch in *; rewrite (bool_decide_false (n ∈ names)) in Hst by done; cbn [andb] in Hst.
      rewrite (bool_decide_true (n ∈ n :: names)) by left; cbn [andb].
      destruct (bool_decide (start ch = None)); [|congruence].
      eexists; split; [rewrite Hst; exact Hn1 | split; cbn; lia || done].
    + rewrite <- (Ho1 k Hne); destruct (channels m !! k) as [c|]; [|exact Hst].
      rewrite (bool_decide_ext (k ∈ n :: names) (k ∈ names)) by (rewrite elem_of_cons; tauto).
      destruct (bool_decide (k ∈ names) && bool_decide (start c = None)); [|exact Hst].
      destruct Hst as (w & ? & ? & ?); exists w; destruct Hr1 as (_ & _ & ?); repeat split; try done; lia.
  - unfold registrations; cbn; rewrite Hch, Hb.
    rewrite (list_omap_ext _ (fun n => match channels m !! n with
       | Some ch => if bool_decide (start ch = None) then Some (Register n ch) else None | None => None end) names names);
      [destruct (bool_decide (start ch = None)); done | apply Forall_Forall2_diag, Forall_forall; intros; rewrite Hc1; done].
  - intros k [->|Hk]%elem_of_cons; [eauto | rewrite <- Hc1; apply Hall; done].
Qed.
End Phases.

(** ** Stopping, and what is put off *)

Lemma stop_removed_spec names m : 
  match stop_removed names m with
  | Some (m', fs) => fs = map Unregister names /\ channels m' = channels m /\ workers m' = workers m /\ closed m' = closed m /\
      background m' = background m /\ fresh m' = fresh m /\ config m' = config m /\ forall n, n ∈ names -> is_Some (channels m !! n)
  | None => exists n, n ∈ names /\ channels m !! n = None
  end.
Proof.
  revert m; induction names as [|n names IH]; intros m; cbn [stop_removed].
  { split_and!; try done; intros n Hn; inversion Hn. }
  destruct (channels m !! n) as [ch|] eqn:Hch; [|exists n; split; [left | done]].
  specialize (IH (set_running (running m ∖ {[ch]}) m)).
  destruct (stop_removed names _) as [[m' fs]|]; cbn [mbind option_bind].
  - destruct IH as (-> & Hc & Hw & Hcl & Hb & Hf & Hcfg & Hall); split_and!; try done.
    intros k [->|Hk]%elem_of_cons; [eauto | exact (Hall k Hk)].
  - destruct IH as (k & Hk & Hnone); exists k; split; [right; exact Hk | exact Hnone].
Qed.

Lemma Unregister_spec name m : wf m -> exists m', UnregisterChannel name m = Returns m' None /\ wf m' /\
  channels m' = delete name (channels m) /\ workers m' = delete name (workers m) /\ background m' = background m /\ fresh m' = fresh m.
Proof.
  intros Hw; pose proof Hw as [H1 H2 H3 H4 H5 H6]; unfold UnregisterChannel.
  destruct (workers m !! name) as [w|] eqn:Hwk; [rewrite bool_decide_false by (eapply H5; exact Hwk)|];
    eexists; (split; [reflexivity|]); cbn.
  - enough (wf (set_channels (delete name (channels m)) (set_workers (delete name (workers m)) (set_closed ({[wid w]} ∪ closed m) m)))) as Hwf
      by (split_and!; done).
    split; cbn; try (intros n n' x [_ A]%lookup_delete_Some [_ B]%lookup_delete_Some; eapply H1; eassumption);
      try (intros n n' x x' [_ A]%lookup_delete_Some [_ B]%lookup_delete_Some; eapply H3; eassumption).
    + intros n c [_ Hc]%lookup_delete_Some; eauto.
    + intros n w' [_ Hc]%lookup_delete_Some; eauto.
    + intros n w' [Hne Hc]%lookup_delete_Some [Heq%elem_of_singleton|Hin]%elem_of_union; [|eapply H5; eassumption].
      apply Hne; symmetry; eapply H3; eassumption.
    + intros i [->%elem_of_singleton|Hin]%elem_of_union; eauto.
  - enough (wf (set_channels (delete name (channels m)) (set_workers (delete name (workers m)) m))) as Hwf
      by (split_and!; done).
    split; cbn; try (intros n n' x [_ A]%lookup_delete_Some [_ B]%lookup_delete_Some; eapply H1; eassumption);
      try (intros n n' x x' [_ A]%lookup_delete_Some [_ B]%lookup_delete_Some; eapply H3; eassumption); try exact H6.
    + intros n c [_ Hc]%lookup_delete_Some; eauto.
    + intros n w' [_ Hc]%lookup_delete_Some; eauto.
    + intros n w' [Hne Hc]%lookup_delete_Some; eauto.
Qed.

(** The work that a reload has put off takes away the removed channels and their
    workers, and then puts back the channels that have started, without workers. *)
Lemma run_deferred_unregister names gs m : wf m -> exists m', wf m' /\ background m' = background m /\ fresh m' = fresh m /\
  run_deferred (map Unregister names ++ gs) m = run_deferred gs m' /\
  forall n, channels m' !! n = (if bool_decide (n ∈ names) then None else channels m !! n) /\
            workers m' !! n = (if bool_decide (n ∈ names) then None else workers m !! n).
Proof.
  revert m; induction names as [|k names IH]; intros m Hw; cbn [map app run_deferred do_deferred].
  { exists m; split_and!; done. }
  destruct (Unregister_spec k m Hw) as (m1 & -> & Hw1 & Hc1 & Hk1 & Hb1 & Hf1).
  destruct (IH m1 Hw1) as (m2 & Hw2 & Hb2 & Hf2 & Hrun & Hall); exists m2; split_and!; [done | congruence.. | done |].
  intros n; destruct (Hall n) as [-> ->]; rewrite Hc1, Hk1.
  destruct (decide (n = k)) as [->|Hne].
  - rewrite (bool_decide_true (k ∈ k :: names)), !lookup_delete_eq by left; destruct (bool_decide (k ∈ names)); done.
  - rewrite !lookup_delete_ne by done.
    rewrite (bool_decide_ext (n ∈ k :: names) (n ∈ names)) by (rewrite elem_of_cons; tauto); done.
Qed.

Lemma run_deferred_register start names m0 m : (forall n, n ∈ names -> is_Some (channels m0 !! n)) ->
  exists m', run_deferred (registrations start names m0) m = Returns m' None /\ workers m' = workers m /\ closed m' = closed m /\
  background m' = background m /\ fresh m' = fresh m /\ forall n, channels m' !! n =
    match channels m0 !! n with
    | Some ch => if bool_decide (n ∈ names) && bool_decide (start ch = None) then Some ch else channels m !! n
    | None => channels m !! n
    end.
Proof.
  revert m; induction names as [|k names IH]; intros m Hall; cbn.
  { exists m; split_and!; try done; intros n; destruct (channels m0 !! n); done. }
  destruct (Hall k ltac:(left)) as [ch Hch]; rewrite Hch.
  assert (forall n, n ∈ names -> is_Some (channels m0 !! n)) as Hall' by (intros n Hn; apply Hall; right; exact Hn).
  destruct (bool_decide (start ch = None)) eqn:Hs; cbn [run_deferred do_deferred].
  - destruct (IH (RegisterChannel k ch m) Hall') as (m' & Hrun & Hw & Hcl & Hb & Hf & Hc).
    exists m'; split_and!; try done; intros n; rewrite (Hc n); cbn.
    destruct (decide (n = k)) as [->|Hne].
    + rewrite Hch, Hs, (bool_decide_true (k ∈ k :: names)), lookup_insert_eq by left; cbn [andb].
      rewrite andb_true_r; destruct (bool_decide (k ∈ names)); done.
    + rewrite lookup_insert_ne by done.
      rewrite (bool_decide_ext (n ∈ k :: names) (n ∈ names)) by (rewrite elem_of_cons; tauto); done.
  - destruct (IH m Hall') as (m' & Hrun & Hw & Hcl & Hb & Hf & Hc).
    exists m'; split_and!; try done; intros n; rewrite (Hc n); destruct (decide (n = k)) as [->|Hne].
    + rewrite Hch, Hs, !andb_false_r; done.
    + rewrite (bool_decide_ext (n ∈ k :: names) (n ∈ names)) by (rewrite elem_of_cons; tauto); done.
Qed.

(** ** A reload *)

Lemma NoDup_keys (f : string * string -> option string) (l : list (string * string)) :
  (forall p k, f p = Some k -> k = fst p) -> NoDup (map fst l) -> NoDup (omap f l).
Proof.
  intros Hf; induction l as [|p l IH]; cbn; intros Hnd; [constructor|]; apply NoDup_cons in Hnd as [Hnin Hnd].
  destruct (f p) as [k|] eqn:Hp; [|auto]; apply NoDup_cons; split; [|auto].
  rewrite list_elem_of_omap; intros (q & Hq & Hk); apply Hnin.
  rewrite <- (Hf _ _ Hp), (Hf _ _ Hk); apply list_elem_of_fmap; eauto.
Qed.

Lemma added_NoDup old news old_order new_order : entries new_order news ->
  NoDup (fst (compareChannels old news old_order new_order)).
Proof.
  intros Hn; apply NoDup_keys.
  - intros [k h] x; cbn; destruct (old !! k); [destruct (String.eqb _ _)|]; congruence.
  - rewrite Hn; apply NoDup_fst_map_to_list.
Qed.

Lemma refresh_same cfg m : let m' := refreshStartupStatus cfg m in
  channels m' = channels m /\ workers m' = workers m /\ closed m' = closed m /\ background m' = background m /\
  fresh m' = fresh m /\ config m' = config m /\ channelHashes m' = channelHashes m.
Proof.
  unfold refreshStartupStatus, refreshSingleStartupStatus.
  destruct (negb (Enabled (Telegram cfg))), (negb (Enabled (Discord cfg))), (String.eqb (Token (Telegram cfg)) ""), (String.eqb (Token (Discord cfg)) "");
    split_and!; done.
Qed.

Lemma makes_only_added factory cfg names m n : n ∉ names -> makes factory (toChannelConfig cfg names) m n = false.
Proof.
  intros Hn; unfold makes, channelNames, toChannelConfig, channel_of; cbn [Telegram Discord].
  case_bool_decide as Hin; [|done].
  destruct (String.eqb_spec n "telegram") as [->|Ht]; [rewrite (bool_decide_false _ Hn); done|].
  apply elem_of_cons in Hin as [->|Hin]; [done|]; apply list_elem_of_singleton in Hin as ->.
  rewrite (bool_decide_false _ Hn); done.
Qed.

(** Channels from one well-formed state, workers from another. *)
Lemma wf_subset m5 m8 m9 : wf m5 -> wf m8 -> workers m9 = workers m8 -> closed m9 = closed m8 -> fresh m9 = fresh m8 ->
  (fresh m5 <= fresh m8)%nat -> (forall n, channels m9 !! n = channels m5 !! n \/ channels m9 !! n = None) -> wf m9.
Proof.
  intros H5 H8 Hk Hcl Hf Hle Hc; split; rewrite ?Hk, ?Hcl, ?Hf; try apply H8.
  - intros n n' c H1 H2; destruct (Hc n) as [E|E], (Hc n') as [E'|E']; try congruence; rewrite E in H1; rewrite E' in H2.
    eapply (channels_inj _ H5); eassumption.
  - intros n c H1; destruct (Hc n) as [E|E]; [|congruence]; rewrite E in H1; apply (channels_old _ H5) in H1; lia.
Qed.

Section Reload.
Context (factory : string -> ChannelsConfig -> option string) (start : nat -> option string).

(** What becomes of a channel whose hash was [old] and is now [new]. *)
Definition settles (n : string) (old new : option string) (m m2 : manager) : Prop :=
  match old, new with
  | None, None => channels m2 !! n = channels m !! n /\ workers m2 !! n = workers m !! n
  | Some h, Some h' =>
      if String.eqb h h' then channels m2 !! n = channels m !! n /\ workers m2 !! n = workers m !! n
      else workers m2 !! n = None
  | Some _, None => channels m2 !! n = None /\ workers m2 !! n = None
  | None, Some _ => exists ch, channels m2 !! n = Some ch /\
      if bool_decide (start ch = None) then exists w, workers m2 !! n = Some w /\ serves w = ch
      else workers m2 !! n = workers m !! n
  end.

Lemma Reload_cases cfg old_order new_order m m1 e : wf m -> background m = [] ->
  entries old_order (channelHashes m) -> entries new_order (toChannelHashes cfg) ->
  Reload factory start cfg old_order new_order m = Returns m1 e ->
  exists m2, settled m1 = Returns m2 None /\ wf m2 /\ background m2 = [] /\
    forall n, settles n (channelHashes m !! n) (toChannelHashes cfg !! n) m m2.
Proof.
  intros Hw Hbg Ho Hn; unfold Reload; destruct (refresh_same cfg (set_config cfg m)) as (Hc0 & Hk0 & Hcl0 & Hb0 & Hf0 & _ & Hh0).
  revert Hc0 Hk0 Hcl0 Hb0 Hf0 Hh0; generalize (refreshStartupStatus cfg (set_config cfg m)); cbn [set_config channels workers closed background fresh channelHashes].
  intros m0 Hc0 Hk0 Hcl0 Hb0 Hf0 Hh0; rewrite Hh0.
  pose proof (compareChannels_spec (channelHashes m) (toChannelHashes cfg) old_order new_order) as Hcmp.
  pose proof (added_NoDup (channelHashes m) (toChannelHashes cfg) old_order new_order Hn) as Hnd.
  destruct (compareChannels _ _ _ _) as [added removed]; cbn [fst] in Hnd.
  specialize (Hcmp added removed Ho Hn eq_refl).
  pose proof (stop_removed_spec removed m0) as Hs; destruct (stop_removed removed m0) as [[m3 fs]|]; [|done].
  destruct Hs as (-> & Hc3 & Hk3 & Hcl3 & Hb3 & Hf3 & _ & _); cbn [new_task].
  set (m4 := mkManager _ _ _ _ _ _ _ _ _ _ _ _).
  assert (wf m4) as Hw4 by (eapply (manager_wf_same m); [exact Hw | cbn; congruence.. | cbn; lia]).
  destruct (initChannels_spec factory (toChannelConfig cfg added) m4 Hw4) as (Hw5 & Hr5 & Hk5 & Hc5).
  revert Hw5 Hr5 Hk5 Hc5; generalize (initChannels factory (toChannelConfig cfg added) m4); intros m5 Hw5 Hr5 Hk5 Hc5.
  destruct (start_added start (fresh m3) added m5) as [[m6 gs]|] eqn:Hst; [|done]; intros [= <- <-].
  destruct (start_added_spec factory start _ _ _ _ _ Hw5 Hnd Hst) as (Hw6 & Hr6 & Hc6 & Hk6 & -> & Hall).
  assert (background m6 = []) as Hb6 by (destruct Hr6 as (_ & -> & _), Hr5 as (_ & -> & _); cbn; congruence).
  unfold settled, commit; cbn [background]; rewrite Hb6; cbn [app settle].
  set (m7 := set_background [] _).
  assert (wf m7) as Hw7 by (eapply (manager_wf_same m6); done).
  destruct (run_deferred_unregister removed (registrations start added m5) m7 Hw7) as (m8 & Hw8 & Hb8 & Hf8 & -> & H8).
  destruct (run_deferred_register start added m5 m8 Hall) as (m9 & -> & Hk9 & Hcl9 & Hb9 & Hf9 & Hc9).
  exists m9; split; [done|]; split; [|split; [rewrite Hb9, Hb8; reflexivity|]].
  { apply (wf_subset m5 m8); try done; [cbn in Hf8; destruct Hr6 as (_ & _ & ?); lia|].
    intros n; rewrite (Hc9 n), (proj1 (H8 n)); change (channels m7) with (channels m6); rewrite Hc6.
    destruct (channels m5 !! n); [destruct (_ && _)|]; destruct (bool_decide (n ∈ removed)); auto. }
  intros n; destruct (Hcmp n) as [Hadd Hrem]; clear Hcmp; destruct (H8 n) as [Hc8 Hk8]; clear H8.
  specialize (Hc5 n); specialize (Hk6 n); specialize (Hc9 n).
  change (channels m7) with (channels m6) in Hc8; change (workers m7) with (workers m6) in Hk8.
  change (channels m4) with (channels m3) in Hc5; change (workers m4) with (workers m3) in Hk5.
  assert (n ∉ added -> channels m5 !! n = channels m !! n) as Hkeep
    by (intros Hna; rewrite makes_only_added in Hc5 by done; congruence).
  unfold settles; destruct (channelHashes m !! n) as [h|], (toChannelHashes cfg !! n) as [h'|]; try destruct (String.eqb_spec h h') as [->|Hne].
  - rewrite (bool_decide_false (n ∈ removed)) in * by (rewrite Hrem; intros (? & ? & ?); congruence).
    assert (n ∉ added) as Hna by (rewrite Hadd; intros (? & ? & ?); congruence).
    rewrite (bool_decide_false _ Hna) in *; cbn [andb] in *.
    specialize (Hkeep Hna); split; destruct (channels m5 !! n) eqn:Hch; congruence.
  - rewrite (bool_decide_true (n ∈ removed)) in * by (apply Hrem; exists h; split; [done | congruence]); congruence.
  - rewrite (bool_decide_true (n ∈ removed)) in * by (apply Hrem; exists h; done).
    assert (n ∉ added) as Hna by (rewrite Hadd; intros (? & ? & ?); congruence).
    rewrite (bool_decide_false _ Hna) in *; cbn [andb] in *; split; destruct (channels m5 !! n) eqn:Hch; congruence.
  - assert (n ∈ added) as Ha by (apply Hadd; exists h'; done).
    rewrite (bool_decide_false (n ∈ removed)) in * by (rewrite Hrem; intros (? & ? & ?); congruence).
    destruct (Hall n Ha) as [ch Hch]; exists ch; rewrite Hch, (bool_decide_true _ Ha) in *; cbn [andb] in *.
    destruct (bool_decide (start ch = None)); [|split; congruence].
    split; [congruence|]; destruct Hk6 as (w & Hw6' & Hs & _); exists w; split; congruence.
  - rewrite (bool_decide_false (n ∈ removed)) in * by (rewrite Hrem; intros (? & ? & ?); congruence).
    assert (n ∉ added) as Hna by (rewrite Hadd; intros (? & ? & ?); congruence).
    rewrite (bool_decide_false _ Hna) in *; cbn [andb] in *.
    specialize (Hkeep Hna); split; destruct (channels m5 !! n) eqn:Hch; congruence.
Qed.
(** C15: After a reload has done what it put off, messages to a channel with the
    same settings go where they went before; a channel that is new has a worker
    if it starts; one that is gone is unknown; and one whose settings have
    changed has no worker, whether it starts or not: its messages are dropped. *)
Theorem messages_after_reload cfg old_order new_order m m1 e : wf m -> background m = [] ->
  entries old_order (channelHashes m) -> entries new_order (toChannelHashes cfg) ->
  Reload factory start cfg old_order new_order m = Returns m1 e ->
  exists m2, settled m1 = Returns m2 None /\ forall n, IsInternalChannel n = false ->
    match channelHashes m !! n, toChannelHashes cfg !! n with
    | Some h, Some h' =>
        if String.eqb h h' then dispatch m2 n = dispatch m n else dispatch m2 n = NoWorker \/ dispatch m2 n = UnknownChannel
    | None, None => dispatch m2 n = dispatch m n
    | Some _, None => dispatch m2 n = UnknownChannel
    | None, Some _ => exists ch, channels m2 !! n = Some ch /\
        (start ch = None -> exists w, workers m2 !! n = Some w /\ serves w = ch /\ dispatch m2 n = Enqueued (wid w))
    end.
Proof.
  intros Hw Hbg Ho Hn Hr; destruct (Reload_cases _ _ _ _ _ _ Hw Hbg Ho Hn Hr) as (m2 & Hs & Hw2 & _ & Hall).
  exists m2; split; [exact Hs|]; intros n Hint; specialize (Hall n); unfold settles in Hall.
  assert (channels m2 !! n = channels m !! n /\ workers m2 !! n = workers m !! n -> dispatch m2 n = dispatch m n) as Hsame.
  { unfold dispatch; intros [-> Hk]; rewrite Hk; destruct (workers m !! n) as [w|] eqn:Hwk; [|done].
    rewrite !bool_decide_false; [done | eapply (workers_open _ Hw); exact Hwk | eapply (workers_open _ Hw2); exact Hk]. }
  destruct (channelHashes m !! n) as [h|], (toChannelHashes cfg !! n) as [h'|]; try destruct (String.eqb h h'); auto.
  - unfold dispatch; rewrite Hint, Hall; destruct (channels m2 !! n); auto.
  - unfold dispatch; rewrite Hint, (proj1 Hall); done.
  - destruct Hall as (ch & Hch & Hk); exists ch; split; [done|]; intros Hst; rewrite bool_decide_true in Hk by done.
    destruct Hk as (w & Hwk & Hsv); exists w; split_and!; try done.
    unfold dispatch; rewrite Hint, Hch, Hwk, bool_decide_false; [done | eapply (workers_open _ Hw2); exact Hwk].
Qed.

(** A channel that is enabled without a token, or whose factory fails, is a nil
    interface to the reload that starts it: the program panics. *)
Lemma reload_panics_without_token cfg old_order new_order m n : wf m ->
  entries old_order (channelHashes m) -> entries new_order (toChannelHashes cfg) ->
  channels m !! n = None -> channelHashes m !! n = None -> is_Some (toChannelHashes cfg !! n) -> Token (channel_of cfg n) = "" ->
  Reload factory start cfg old_order new_order m = Panics.
Proof.
  intros Hw Ho Hn Hnone Hold [h Hnew] Htok; unfold Reload.
  destruct (refresh_same cfg (set_config cfg m)) as (Hc0 & Hk0 & Hcl0 & Hb0 & Hf0 & _ & Hh0).
  revert Hc0 Hk0 Hcl0 Hb0 Hf0 Hh0; generalize (refreshStartupStatus cfg (set_config cfg m)); cbn [set_config channels workers closed background fresh channelHashes].
  intros m0 Hc0 Hk0 Hcl0 Hb0 Hf0 Hh0; rewrite Hh0.
  pose proof (compareChannels_spec (channelHashes m) (toChannelHashes cfg) old_order new_order) as Hcmp.
  pose proof (added_NoDup (channelHashes m) (toChannelHashes cfg) old_order new_order Hn) as Hnd.
  destruct (compareChannels _ _ _ _) as [added removed]; cbn [fst] in Hnd.
  specialize (Hcmp added removed Ho Hn eq_refl n).
  assert (n ∈ added) as Ha by (apply Hcmp; exists h; split; [done | congruence]).
  pose proof (stop_removed_spec removed m0) as Hs; destruct (stop_removed removed m0) as [[m3 fs]|]; [|done].
  destruct Hs as (-> & Hc3 & Hk3 & Hcl3 & Hb3 & Hf3 & _ & _); cbn [new_task].
  set (m4 := mkManager _ _ _ _ _ _ _ _ _ _ _ _).
  assert (wf m4) as Hw4 by (eapply (manager_wf_same m); [exact Hw | cbn; congruence.. | cbn; lia]).
  destruct (initChannels_spec factory (toChannelConfig cfg added) m4 Hw4) as (Hw5 & _ & _ & Hc5); specialize (Hc5 n).
  destruct (start_added start (fresh m3) added _) as [[m6 gs]|] eqn:Hst; [|done].
  destruct (start_added_spec factory start _ _ _ _ _ Hw5 Hnd Hst) as (_ & _ & _ & _ & _ & Hall); destruct (Hall n Ha) as [ch Hch].
  assert (makes factory (toChannelConfig cfg added) m4 n = false) as Hm; [|rewrite Hm in Hc5; cbn in Hc5; congruence].
  unfold makes; assert (Token (channel_of (toChannelConfig cfg added) n) = "") as ->; [|rewrite !andb_false_r; done].
  unfold toChannelConfig, channel_of in *; cbn [Telegram Discord].
  destruct (String.eqb n "telegram"); cbn; match goal with |- Token (if ?b then _ else _) = _ => destruct b end; done.
Qed.

(** ** Reachable states are well-formed *)

Lemma wf_NewManager cfg : wf (NewManager factory cfg).
Proof.
  unfold NewManager; set (m0 := refreshStartupStatus cfg _).
  assert (wf m0) as H0.
  { destruct (refresh_same cfg (mkManager ∅ ∅ cfg None ∅ ∅ ∅ ∅ ∅ ∅ [] 0)) as (Hc & Hk & Hcl & _ & Hf & _).
    eapply (manager_wf_same (mkManager ∅ ∅ cfg None ∅ ∅ ∅ ∅ ∅ ∅ [] 0)); [|done..|fold m0 in Hf; rewrite Hf; done].
    split; cbn; intros *; rewrite ?lookup_empty; done || set_solver. }
  destruct (initChannels_spec factory cfg m0 H0) as (Hw & _); eapply manager_wf_same; [exact Hw | done..].
Qed.

Lemma wf_StartAll order m : wf m -> wf (fst (StartAll start order m)).
Proof.
  intros Hw; unfold StartAll; cbn [new_task]; set (m0 := mkManager _ _ _ _ _ _ _ _ _ _ _ _).
  assert (wf m0) as H0 by (eapply manager_wf_same; [exact Hw | done | done | done | cbn; lia]).
  set (m1 := fold_left _ order m0).
  assert (wf m1) as H1.
  { subst m1; revert H0; generalize m0; induction order as [|[n ch] order IH]; intros m2 H2; cbn [fold_left]; [done|].
    apply IH; apply (start_channel_spec start (fresh m) n ch m2 H2). }
  destruct (_ && _); cbn [fst]; eapply manager_wf_same; try exact H1; done.
Qed.
End Reload.

(** ** A run: both channels start, then the settings of one change *)

Definition demo_config (digest2 : string) : ChannelsConfig :=
  mkChannels (mkChannelConfig true "token" "1") (mkChannelConfig true "token" digest2).

Definition no_factory_error (name : string) (cfg : ChannelsConfig) : option string := None.
Definition no_start_error (ch : nat) : option string := None.

Definition demo_started : manager :=
  let m := NewManager no_factory_error (demo_config "1") in
  fst (StartAll no_start_error (map_to_list (channels m)) m).

Lemma demo_wf : wf demo_started.
Proof. apply wf_StartAll, wf_NewManager. Qed.

Lemma messages_after_reload_witness : exists m1 m2,
  Reload no_factory_error no_start_error (demo_config "2") (map_to_list (channelHashes demo_started))
    (map_to_list (toChannelHashes (demo_config "2"))) demo_started = Returns m1 None /\
  settled m1 = Returns m2 None /\ dispatch demo_started "discord" <> NoWorker /\
  dispatch m2 "telegram" = dispatch demo_started "telegram" /\ (dispatch m2 "discord" = NoWorker \/ dispatch m2 "discord" = UnknownChannel).
Proof.
  destruct (Reload no_factory_error no_start_error (demo_config "2") (map_to_list (channelHashes demo_started))
    (map_to_list (toChannelHashes (demo_config "2"))) demo_started) as [m1 e|] eqn:Hr; [|vm_compute in Hr; discriminate].
  destruct (messages_after_reload no_factory_error no_start_error _ _ _ _ _ _ demo_wf eq_refl (reflexivity _) (reflexivity _) Hr) as (m2 & Hs & Hall).
  assert (e = None) as -> by (vm_compute in Hr; injection Hr; auto).
  exists m1, m2; split; [reflexivity|]; split; [exact Hs|]; split; [vm_compute; discriminate|]; split.
  - exact (Hall "telegram" eq_refl).
  - exact (Hall "discord" eq_refl).
Defined.

(** The status of the channel that goes on running is that of one that has not
    been started. *)
Example reload_forgets_started : exists m1,
  Reload no_factory_error no_start_error (demo_config "2") (map_to_list (channelHashes demo_started))
    (map_to_list (toChannelHashes (demo_config "2"))) demo_started = Returns m1 None /\
  startupStatus demo_started !! "telegram" = Some (Started, "") /\ startupStatus m1 !! "telegram" = Some (Initialized, "").
Proof. eexists; split; [|split]; vm_compute; reflexivity. Qed.

(** [StopAll] cancels the task of the last reload only: the dispatchers that
    [StartAll] has started live on beside closed queues, and the next message
    is a send on a closed channel. *)
Example stop_after_reload_leaves_dispatchers : exists m1 m2 m3,
  Reload no_factory_error no_start_error (demo_config "2") (map_to_list (channelHashes demo_started))
    (map_to_list (toChannelHashes (demo_config "2"))) demo_started = Returns m1 None /\
  settled m1 = Returns m2 None /\ StopAll m2 = Returns m3 None /\
  (exists t, t ∈ dispatchers m3 /\ t ∉ cancelled m3) /\ dispatch m3 "telegram" = SendOnClosed.
Proof.
  do 3 eexists; split; [vm_compute; reflexivity|]; split; [vm_compute; reflexivity|]; split; [vm_compute; reflexivity|]; split.
  - exists 2%nat; split; apply (bool_decide_eq_true_1 _) || apply (bool_decide_eq_false_1 _); vm_compute; reflexivity.
  - vm_compute; reflexivity.
Qed.
