(* ===== verification/ContextBudget.v ===== *)
(** * Token estimates and turn boundaries

    [src/pkg/tokenizer/estimator.go] and [src/pkg/agent/context_budget.go].
    Sums of lengths are kept as unbounded integers; the products that the
    code computes stay far below 2^63 for texts that fit in memory. *)

From S2P Require Import Prelude GoStrings GoLib.
Import Utf8.
From S2P Require Import Message.
From Stdlib Require Import Sorted.

(** ** The estimator *)

Definition perPartOverhead : Z := 20.
Definition messageOverhead : Z := 12.
Definition mediaTokensPerItem : Z := 256.

Definition sum_over {A} (f : A -> Z) (l : list A) : Z := fold_left (fun n x => n + f x) l 0.

Definition call_chars (tc : ToolCall) : Z :=
  len (CallID tc) + len (CallType tc) +
  match Function tc with
  | Some fn => len (FnName fn) + len (FnArguments fn)
  | None => len (CallName tc)
  end.

Definition message_chars (msg : Message) : Z :=
  let contentChars := RuneCount (Content msg) in
  let systemPartsChars :=
    match SystemParts msg with
    | [] => 0
    | parts => sum_over (fun part => RuneCount (Text part)) parts
               + Z.of_nat (length parts) * perPartOverhead
    end in
  let chars := if contentChars <? systemPartsChars then systemPartsChars else contentChars in
  let chars := chars + RuneCount (ReasoningContent msg) in
  let chars := chars + sum_over call_chars (ToolCalls msg) in
  let chars := if String.eqb (ToolCallID msg) "" then chars else chars + len (ToolCallID msg) in
  chars + messageOverhead.

Definition EstimateMessageTokens (msg : Message) : Z :=
  Z.quot (message_chars msg * 2) 5 + Z.of_nat (length (Media msg)) * mediaTokensPerItem.

(** ** Turn boundaries *)

Definition isUserRole (role : string) : bool := EqualFold (TrimSpace role) "user".

Definition is_user (msg : Message) : bool := isUserRole (Role msg).

Fixpoint turn_starts (i : Z) (history : list Message) : list Z :=
  match history with
  | [] => []
  | msg :: rest => if is_user msg then i :: turn_starts (i + 1) rest else turn_starts (i + 1) rest
  end.

Definition parseTurnBoundaries (history : list Message) : list Z := turn_starts 0 history.

Definition isSafeBoundary (history : list Message) (index : Z) : bool :=
  if (index <=? 0) || (Z.of_nat (length history) <=? index) then true
  else match history !! Z.to_nat index with Some msg => is_user msg | None => false end.

Definition findSafeBoundary (history : list Message) (targetIndex : Z) : Z :=
  let n := Z.of_nat (length history) in
  if n =? 0 then 0
  else if targetIndex <=? 0 then 0
  else if n <=? targetIndex then n
  else
    match parseTurnBoundaries history with
    | [] => targetIndex
    | turns =>
        let backward := fold_left (fun b t => if t <=? targetIndex then t else b) turns (-1) in
        if 0 <? backward then backward
        else match find_first (fun t => targetIndex <? t) turns with
             | Some t => t
             | None => 0
             end
    end.

(** ** The budget *)

Section Budget.
(** Tool definitions and the length of their JSON text; the estimate
    [EstimateToolDefsTokens] of a request is an argument. *)
Context (toolTokens : Z).

Definition totalContextTokens (messages : list Message) (maxTokens : Z) : Z :=
  sum_over EstimateMessageTokens messages + toolTokens + maxTokens.

Definition isOverContextBudget (contextWindow : Z) (messages : list Message) (maxTokens : Z) : bool :=
  contextWindow <? totalContextTokens messages maxTokens.

Definition remainingContextPercent (contextWindow : Z) (messages : list Message) (maxTokens : Z) : Z :=
  if contextWindow <=? 0 then 100
  else
    let remaining := contextWindow - totalContextTokens messages maxTokens in
    let remaining := if remaining <? 0 then 0 else remaining in
    Z.quot (remaining * 100) contextWindow.
End Budget.

(** ** Lemmas *)

Lemma sum_over_fold {A} (f : A -> Z) l n : fold_left (fun n x => n + f x) l n = n + sum_over f l.
Proof.
  unfold sum_over. revert n. induction l as [|x l IH]; intros n; cbn [fold_left]; [lia|].
  rewrite IH, (IH (0 + f x)). lia.
Qed.

Lemma sum_over_cons {A} (f : A -> Z) x l : sum_over f (x :: l) = f x + sum_over f l.
Proof. unfold sum_over at 1. cbn [fold_left]. by rewrite sum_over_fold. Qed.

Lemma sum_over_app {A} (f : A -> Z) l k : sum_over f (l ++ k) = sum_over f l + sum_over f k.
Proof. induction l as [|x l IH]; [done|]. simpl. rewrite !sum_over_cons, IH. lia. Qed.

Lemma sum_over_nonneg {A} (f : A -> Z) l : (forall x, 0 <= f x) -> 0 <= sum_over f l.
Proof. intros H. induction l as [|x l IH]; [done|]. rewrite sum_over_cons. specialize (H x). lia. Qed.

Lemma message_chars_nonneg msg : messageOverhead <= message_chars msg.
Proof.
  unfold message_chars.
  pose proof (RuneCount_nonneg (Content msg)). pose proof (RuneCount_nonneg (ReasoningContent msg)).
  pose proof (len_nonneg (ToolCallID msg)).
  assert (0 <= sum_over call_chars (ToolCalls msg)).
  { apply sum_over_nonneg. intros tc. unfold call_chars. destruct (Function tc) as [fn|];
      [pose proof (len_nonneg (FnName fn)); pose proof (len_nonneg (FnArguments fn))
      | pose proof (len_nonneg (CallName tc))];
      pose proof (len_nonneg (CallID tc)); pose proof (len_nonneg (CallType tc)); lia. }
  repeat case_match; breflect; lia.
Qed.

(** Every message costs something. *)
Lemma EstimateMessageTokens_pos msg : 4 <= EstimateMessageTokens msg.
Proof.
  unfold EstimateMessageTokens. pose proof (message_chars_nonneg msg) as H.
  unfold messageOverhead, mediaTokensPerItem in *. rewrite Z.quot_div_nonneg by lia.
  pose proof (Z.div_le_mono 20 (message_chars msg * 2) 5 ltac:(lia) ltac:(lia)) as H2.
  change (20 / 5) with 4 in H2. lia.
Qed.

Lemma turn_starts_elem i history t :
  t ∈ turn_starts i history <->
  exists k msg, history !! k = Some msg /\ is_user msg = true /\ t = i + Z.of_nat k.
Proof.
  revert i; induction history as [|m rest IH]; intros i; simpl.
  - split; [by intros ?%elem_of_nil | by intros (k & ? & ? & _)].
  - assert (HR : t ∈ turn_starts (i + 1) rest <->
      exists k msg, (m :: rest) !! S k = Some msg /\ is_user msg = true /\ t = i + Z.of_nat (S k)).
    { rewrite IH. simpl. split; intros (k & msg & ? & ? & ?); exists k, msg; split_and!; try done; lia. }
    destruct (is_user m) eqn:Em; rewrite ?elem_of_cons, HR; split.
    + intros [-> | (k & msg & ? & ? & ?)]; [exists O, m; split_and!; [done..|lia] | by exists (S k), msg].
    + intros ([|k] & msg & Hk & Hu & ->); [left; lia | right; by exists k, msg].
    + intros (k & msg & ? & ? & ?); by exists (S k), msg.
    + intros ([|k] & msg & Hk & Hu & ->); [simplify_eq/=; congruence | by exists k, msg].
Qed.

(** Boundaries in the sense of the code, strictly inside the history. *)
Definition boundary (history : list Message) (t : Z) : Prop :=
  0 <= t < Z.of_nat (length history) /\
  exists msg, history !! Z.to_nat t = Some msg /\ is_user msg = true.

Lemma parseTurnBoundaries_spec history t : t ∈ parseTurnBoundaries history <-> boundary history t.
Proof.
  unfold parseTurnBoundaries, boundary. rewrite turn_starts_elem. split.
  - intros (k & msg & Hk & Hu & ->). pose proof (lookup_lt_Some _ _ _ Hk).
    split; [lia|]. exists msg. by rewrite Z.add_0_l, Nat2Z.id.
  - intros (Hr & msg & Hk & Hu). exists (Z.to_nat t), msg. split_and!; [done..|lia].
Qed.

Lemma turn_starts_sorted i history : StronglySorted Z.lt (turn_starts i history) /\
  Forall (fun t => i <= t) (turn_starts i history).
Proof.
  revert i; induction history as [|m rest IH]; intros i; simpl; [by repeat constructor|].
  destruct (IH (i + 1)) as [HS HF]. destruct (is_user m).
  - assert (HI : Forall (fun t => i < t) (turn_starts (i + 1) rest))
      by (eapply Forall_impl; [exact HF | intros; cbv beta in *; lia]).
    split; [by constructor|]. constructor; [lia|].
    eapply Forall_impl; [exact HI | intros; cbv beta in *; lia].
  - split; [done|]. eapply Forall_impl; [exact HF | intros; cbv beta in *; lia].
Qed.

(** The fold of [findSafeBoundary] finds the last boundary up to the target. *)
Lemma backward_spec turns target b0 :
  StronglySorted Z.lt turns ->
  let b := fold_left (fun b t => if t <=? target then t else b) turns b0 in
  (b = b0 /\ Forall (fun t => target < t) turns) \/
  (b ∈ turns /\ b <= target /\ forall t, t ∈ turns -> t <= target -> t <= b).
Proof.
  intros HS. revert b0; induction HS as [|t turns HS IH HF]; intros b0; simpl; [by left|].
  destruct (Z.leb_spec t target) as [Hle|Hgt].
  - right. destruct (IH t) as [[-> HF'] | (Hin & Hb & Hmax)].
    + split_and!; [by left | done |]. intros u [-> | Hu]%elem_of_cons Hle'; [lia|].
      eapply Forall_forall in HF'; [|exact Hu]. lia.
    + split_and!; [by right | done |]. intros u [-> | Hu]%elem_of_cons Hle'; [|by apply Hmax].
      eapply Forall_forall in HF; [|exact Hin]. lia.
  - left. assert (HA : Forall (fun u => target < u) turns) by (eapply Forall_impl; [exact HF | intros; cbv beta in *; lia]).
    split; [|by constructor].
    clear HS IH HF Hgt. revert b0. induction HA as [|u turns Hu _ IH]; intros b0; simpl; [done|].
    destruct (Z.leb_spec u target); [lia | apply IH].
Qed.

(** The first boundary behind the target. *)
Lemma forward_spec turns target :
  StronglySorted Z.lt turns ->
  match find_first (fun t => target <? t) turns with
  | Some t => t ∈ turns /\ target < t /\ forall u, u ∈ turns -> target < u -> t <= u
  | None => Forall (fun t => t <= target) turns
  end.
Proof.
  induction 1 as [|t turns HS IH HF]; simpl; [constructor|].
  destruct (Z.ltb_spec target t) as [Hlt|Hge].
  - split_and!; [by left | done |]. intros u [-> | Hu]%elem_of_cons _; [lia|].
    eapply Forall_forall in HF; [|exact Hu]. lia.
  - destruct (find_first _ turns) as [u|].
    + destruct IH as (Hin & ? & Hmin). split_and!; [by right | done |].
      intros v [-> | Hv]%elem_of_cons ?; [lia | by apply Hmin].
    + by constructor.
Qed.

(** The result of [findSafeBoundary] strictly inside the history. *)
Lemma findSafeBoundary_cases history target :
  0 < target < Z.of_nat (length history) ->
  let r := findSafeBoundary history target in
  ((forall b, ~ boundary history b) /\ r = target) \/
  (boundary history r /\ 0 < r <= target /\ forall b, boundary history b -> b <= target -> b <= r) \/
  ((forall b, boundary history b -> b <= 0 \/ target < b) /\ boundary history r /\ target < r /\
     forall b, boundary history b -> target < b -> r <= b) \/
  (boundary history 0 /\ (forall b, boundary history b -> b = 0) /\ r = 0).
Proof.
  intros Ht. unfold findSafeBoundary. cbv zeta.
  destruct (Z.eqb_spec (Z.of_nat (length history)) 0); [lia|].
  destruct (Z.leb_spec target 0); [lia|]. destruct (Z.leb_spec (Z.of_nat (length history)) target); [lia|].
  pose proof (parseTurnBoundaries_spec history) as HP.
  destruct (turn_starts_sorted 0 history) as [HS _].
  unfold parseTurnBoundaries in HP |- *. destruct (turn_starts 0 history) as [|t0 ts] eqn:Et.
  { left. split; [|done]. intros b Hb%HP. by apply elem_of_nil in Hb. }
  destruct (backward_spec (t0 :: ts) target (-1) HS) as [[-> HF] | (Hin & Hle & Hmax)].
  - pose proof (forward_spec (t0 :: ts) target HS) as HF2. simpl (0 <? -1). cbv iota.
    destruct (find_first _ (t0 :: ts)) as [t|].
    + destruct HF2 as (Hin & Hlt & Hmin). right; right; left. split_and!.
      * intros b Hb%HP. right. by eapply Forall_forall in HF.
      * by apply HP.
      * done.
      * intros b ?%HP ?. by apply Hmin.
    + exfalso. inversion HF; inversion HF2; subst. lia.
  - set (b0 := fold_left _ _ _) in *. destruct (Z.ltb_spec 0 b0).
    + right; left. split_and!; [by apply HP | done | done |]. intros b ?%HP ?. by apply Hmax.
    + assert (Hz : b0 = 0) by (apply HP in Hin as [? _]; lia).
      assert (Hlow : forall b, boundary history b -> b <= 0 \/ target < b).
      { intros b Hb%HP. destruct (decide (b <= target)); [left | right; lia].
        specialize (Hmax b Hb). lia. }
      pose proof (forward_spec (t0 :: ts) target HS) as HF2.
      destruct (find_first _ (t0 :: ts)) as [t|].
      * destruct HF2 as (Hin' & Hlt & Hmin). right; right; left. split_and!; [done | by apply HP | done |].
        intros b ?%HP ?. by apply Hmin.
      * right; right; right. split_and!; [rewrite <- Hz; by apply HP | | done].
        intros b Hb. pose proof (Hlow b Hb). apply HP in Hb as Hb'. destruct Hb as [? _].
        eapply Forall_forall in HF2; [|exact Hb']. cbv beta in HF2. lia.
Qed.

(** Every result is at a message, or at an end. *)
Definition tool_result (msg : Message) : Prop := Role msg = "tool".

Definition calls (msg : Message) (id : string) : Prop :=
  Role msg = "assistant" /\ exists tc, tc ∈ ToolCalls msg /\ CallID tc = id.

(** Each tool result answers a call made before it in the same turn. *)
Definition paired (history : list Message) : Prop :=
  forall j msg, history !! j = Some msg -> tool_result msg ->
    exists i caller, (i < j)%nat /\ history !! i = Some caller /\ calls caller (ToolCallID msg) /\
      forall k m, (i <= k <= j)%nat -> history !! k = Some m -> is_user m = false.

(** Cutting in front of a user message keeps every pair together. *)
Lemma paired_drop history n :
  paired history -> (n = O \/ (length history <= n)%nat \/ exists m, history !! n = Some m /\ is_user m = true) ->
  paired (drop n history).
Proof.
  intros HP Hn. destruct Hn as [-> | [Hn | (mu & Hmu & Hu)]]; [done | |].
  - rewrite drop_ge by done. intros j msg Hj. done.
  - intros j msg Hj Ht. rewrite lookup_drop in Hj.
    destruct (HP _ _ Hj Ht) as (i & caller & Hi & Hc & Hcalls & Hno).
    destruct (decide (n <= i)%nat) as [Hni|Hni].
    + exists (i - n)%nat, caller. rewrite lookup_drop.
      replace (n + (i - n))%nat with i by lia. split_and!; [lia | done | done |].
      intros k m Hk Hm. rewrite lookup_drop in Hm. apply (Hno (n + k)%nat); [lia | done].
    + exfalso. rewrite (Hno n mu) in Hu; [done | lia | done].
Qed.

Lemma boundary_user history b :
  boundary history b -> exists m, history !! Z.to_nat b = Some m /\ is_user m = true.
Proof. by intros [_ ?]. Qed.

(** ** Properties *)

(** When the history has a user message, the boundary found lies in the
    history and is safe: it is the last positive boundary up to the target,
    or else the first one behind it, or else 0. *)
Theorem findSafeBoundary_nearest history target :
  (exists b, boundary history b) ->
  let r := findSafeBoundary history target in
  0 <= r <= Z.of_nat (length history) /\ isSafeBoundary history r = true /\
  (0 < target < Z.of_nat (length history) ->
   (forall b, boundary history b -> 0 < b <= target -> b <= r <= target) /\
   ((forall b, boundary history b -> 0 < b -> target < b) ->
    (forall b, boundary history b -> target < b -> r <= b) /\ (r = 0 \/ target < r))).
Proof.
  intros (b0 & Hb0) r.
  assert (Hsafe : r = 0 \/ r = Z.of_nat (length history) \/ boundary history r).
  { subst r. destruct (decide (0 < target < Z.of_nat (length history))) as [Ht|Ht].
    - destruct (findSafeBoundary_cases history target Ht)
        as [[H _] | [[H _] | [(_ & H & _) | (_ & _ & H)]]]; auto. by destruct (H b0).
    - unfold findSafeBoundary. repeat case_match; breflect; try lia; auto. }
  split_and!.
  - destruct Hsafe as [? | [? | [? _]]]; lia.
  - destruct Hsafe as [? | [? | [? _]]]; lia.
  - unfold isSafeBoundary. destruct Hsafe as [-> | [-> | [Hr (m & -> & Hu)]]].
    + done.
    + rewrite Z.leb_refl. by rewrite orb_true_r.
    + by case_match.
  - intros Ht. pose proof (findSafeBoundary_cases history target Ht) as HC. cbv zeta in HC. fold r in HC.
    destruct HC as [[H _] | [(H1 & H2 & H3) | [(H0 & H1 & H2 & H3) | (H0 & H1 & H2)]]].
    + by destruct (H b0).
    + split; [intros b Hb Hr; specialize (H3 b Hb); lia|].
      intros Hall. specialize (Hall r H1). lia.
    + split; [intros b Hb Hr; specialize (H0 b Hb); lia|]. intros _. split; [|lia].
      intros b Hb Hr. by apply H3.
    + split; [intros b Hb Hr; specialize (H1 b Hb); lia|]. intros _. split; [|lia].
      intros b Hb Hr. specialize (H1 b Hb). lia.
Qed.

(** A conversation of two turns, the second one with a tool call. *)
Definition demo_call : ToolCall := mkToolCall "c1" "function" None "ls" "" None.
Definition demo_history : list Message :=
  [text_message "user" "hi"; text_message "assistant" "hello"; text_message "user" "list";
   mkMessage "assistant" "" [] "" [] [demo_call] "";
   mkMessage "tool" "a b" [] "" [] [] "c1"; text_message "assistant" "done"].

Lemma demo_boundary : boundary demo_history 2.
Proof. split; [vm_compute; split; [discriminate | reflexivity]|]. by exists (text_message "user" "list"). Qed.

Lemma findSafeBoundary_nearest_witness :
  isSafeBoundary demo_history (findSafeBoundary demo_history 4) = true /\ findSafeBoundary demo_history 4 = 2.
Proof.
  split; [|reflexivity].
  apply (findSafeBoundary_nearest demo_history 4 (ex_intro _ 2 demo_boundary)).
Defined.

(** Cutting a history at the boundary found never separates a tool
    result from the call that it answers. *)
Theorem findSafeBoundary_keeps_pairs history target :
  paired history -> (exists b, boundary history b) ->
  paired (drop (Z.to_nat (findSafeBoundary history target)) history).
Proof.
  intros HP (b0 & Hb0). apply paired_drop; [done|].
  destruct (decide (0 < target < Z.of_nat (length history))) as [Ht|Ht].
  - destruct (findSafeBoundary_cases history target Ht)
      as [[H _] | [[H _] | [(_ & H & _) | (_ & _ & ->)]]].
    + by destruct (H b0).
    + right; right. by apply boundary_user.
    + right; right. by apply boundary_user.
    + by left.
  - unfold findSafeBoundary. repeat case_match; breflect; try lia; simpl; first [by left | right; left; lia].
Qed.

Lemma demo_paired : paired demo_history.
Proof.
  intros j msg Hj Ht.
  assert (j = 4%nat) as ->.
  { destruct j as [|[|[|[|[|[|j]]]]]]; simplify_eq/=; try discriminate Ht; done. }
  injection Hj as <-.
  exists 3%nat, (mkMessage "assistant" "" [] "" [] [demo_call] "").
  split_and!; [lia | done | split; [done | exists demo_call; split; [by left | done]] |].
  intros k m Hk Hm. assert (k = 3 \/ k = 4)%nat as [-> | ->] by lia; by injection Hm as <-.
Qed.

Lemma findSafeBoundary_keeps_pairs_witness :
  paired (drop (Z.to_nat (findSafeBoundary demo_history 3)) demo_history).
Proof. exact (findSafeBoundary_keeps_pairs demo_history 3 demo_paired (ex_intro _ 2 demo_boundary)). Defined.

(** The share of the context window that is left is a percentage, 0 for a
    request over budget, and never grows when a message is added. *)
Theorem remainingContextPercent_bounds toolTokens window messages msg maxTokens :
  0 <= toolTokens -> 0 <= maxTokens -> 0 < window ->
  let p := remainingContextPercent toolTokens window messages maxTokens in
  0 <= p <= 100 /\
  (isOverContextBudget toolTokens window messages maxTokens = true -> p = 0) /\
  remainingContextPercent toolTokens window (messages ++ [msg]) maxTokens <= p.
Proof.
  intros Ht Hm Hw p. subst p. unfold remainingContextPercent, isOverContextBudget, totalContextTokens.
  destruct (Z.leb_spec window 0); [lia|].
  rewrite sum_over_app, sum_over_cons.
  assert (HS : 0 <= sum_over EstimateMessageTokens messages).
  { apply sum_over_nonneg. intros x. pose proof (EstimateMessageTokens_pos x). lia. }
  pose proof (EstimateMessageTokens_pos msg) as Hpos.
  replace (sum_over EstimateMessageTokens []) with 0 by done.
  set (used := sum_over EstimateMessageTokens messages) in *.
  set (c := EstimateMessageTokens msg) in *. clearbody used c.
  rewrite !Z.quot_div_nonneg by (repeat case_match; breflect; lia). split_and!.
  - apply Z.div_pos; [case_match; breflect; lia | lia].
  - apply Z.div_le_upper_bound; [lia|]. case_match; breflect; lia.
  - intros Ho. breflect. destruct (Z.ltb_spec (window - (used + toolTokens + maxTokens)) 0); [done | lia].
  - apply Z.div_le_mono; [lia|]. repeat case_match; breflect; lia.
Qed.

Lemma remainingContextPercent_bounds_witness :
  remainingContextPercent 100 1000 demo_history 200 = 66 /\
  0 <= remainingContextPercent 100 1000 demo_history 200 <= 100.
Proof.
  split; [vm_compute; reflexivity|].
  apply (remainingContextPercent_bounds 100 1000 demo_history (text_message "user" "x") 200); lia.
Defined.

(** Without any user message the target is returned as it is, and the cut can
    separate a result from its call. *)
Example cut_without_user :
  let h := drop 3 demo_history in findSafeBoundary h 1 = 1 /\ ~ paired (drop 1 h).
Proof.
  split; [reflexivity|]. intros H.
  destruct (H O _ eq_refl eq_refl) as (i & _ & Hi & _). lia.
Qed.
