(* ===== verification/Session.v ===== *)
(** * Session stores: [src/pkg/session/session_store.go] and [manager.go]

    The interface that the agent relies on, with the laws its clients use,
    and the in-memory manager with its JSON files as an instance. The clock
    reading of each operation is an argument. *)

From S2P Require Import Prelude GoStrings Message.

(** ** The interface

    [stored] is what an implementation keeps of a message, [acceptable] says
    which messages it can keep, [known] tells which
    sessions exist, [sane] is its invariant. *)

(** What is left of a history that is cut to its last [keepLast] messages. *)
Definition truncated (keepLast : Z) (h : list Message) : list Message :=
  if keepLast <=? 0 then []
  else drop (length h - Z.to_nat keepLast) h.

Class SessionStore (S : Type) : Type := {
  sane : S -> Prop;
  known : S -> string -> Prop;
  stored : Message -> Message;
  acceptable : Message -> Prop;

  AddFullMessage : time -> S -> string -> Message -> S;
  GetHistory : S -> string -> list Message;
  GetSummary : S -> string -> string;
  SetSummary : time -> S -> string -> string -> S;
  SetHistory : time -> S -> string -> list Message -> S;
  TruncateHistory : time -> S -> string -> Z -> S;
  Save : time -> S -> string -> S;

  sane_add t s k m : sane s -> acceptable m -> sane (AddFullMessage t s k m);
  sane_summary t s k v : sane s -> sane (SetSummary t s k v);
  sane_history t s k h : sane s -> Forall acceptable h -> sane (SetHistory t s k h);
  sane_truncate t s k n : sane s -> sane (TruncateHistory t s k n);
  sane_save t s k : sane s -> sane (Save t s k);

  known_add t s k m : known (AddFullMessage t s k m) k;
  known_summary t s k v : known s k -> known (SetSummary t s k v) k;
  known_history t s k h : known s k -> known (SetHistory t s k h) k;
  known_truncate t s k n : known s k -> known (TruncateHistory t s k n) k;
  known_save t s k : known s k -> known (Save t s k) k;
  history_known s k : sane s -> GetHistory s k <> [] -> known s k;

  history_add t s k m : sane s -> acceptable m -> GetHistory (AddFullMessage t s k m) k = GetHistory s k ++ [stored m];
  history_set t s k h : sane s -> known s k -> Forall acceptable h ->
    GetHistory (SetHistory t s k h) k = map stored h;
  history_truncate t s k n : sane s -> GetHistory (TruncateHistory t s k n) k = truncated n (GetHistory s k);
  history_summary t s k v : sane s -> GetHistory (SetSummary t s k v) k = GetHistory s k;
  history_save t s k : sane s -> GetHistory (Save t s k) k = GetHistory s k;
  history_stored s k : sane s -> map stored (GetHistory s k) = GetHistory s k;
  history_acceptable s k : sane s -> Forall acceptable (GetHistory s k);

  summary_add t s k m : sane s -> GetSummary (AddFullMessage t s k m) k = GetSummary s k;
  summary_set t s k v : sane s -> known s k -> GetSummary (SetSummary t s k v) k = v;
  summary_history t s k h : sane s -> GetSummary (SetHistory t s k h) k = GetSummary s k;
  summary_truncate t s k n : sane s -> GetSummary (TruncateHistory t s k n) k = GetSummary s k;
  summary_save t s k : sane s -> GetSummary (Save t s k) k = GetSummary s k
}.

(** [AddMessage] is the same in every implementation. *)
Definition AddMessage {S} `{SessionStore S} (t : time) (s : S) (k role content : string) : S :=
  AddFullMessage t s k (text_message role content).

Section Interface.
Context {S : Type} `{SessionStore S}.

(** A sequence of appended messages is the history. *)
Definition add_all (t : time) (s : S) (k : string) (ms : list Message) : S :=
  fold_left (fun s m => AddFullMessage t s k m) ms s.

Lemma sane_add_all t s k ms : sane s -> Forall acceptable ms -> sane (add_all t s k ms).
Proof.
  intros Hs HF. revert s Hs; induction HF as [|m ms Hm _ IH]; intros s Hs; simpl; [done|].
  by apply IH, sane_add.
Qed.

Lemma history_add_all t s k ms :
  sane s -> Forall acceptable ms -> GetHistory (add_all t s k ms) k = GetHistory s k ++ map stored ms.
Proof.
  intros Hs HF. revert s Hs; induction HF as [|m ms Hm _ IH]; intros s Hs; [symmetry; apply app_nil_r|].
  change (add_all t s k (m :: ms)) with (add_all t (AddFullMessage t s k m) k ms).
  rewrite IH by by apply sane_add. rewrite history_add by done.
  by rewrite <- app_assoc.
Qed.
End Interface.

Lemma truncated_all keepLast h : Z.of_nat (length h) <= keepLast -> 0 < keepLast -> truncated keepLast h = h.
Proof.
  intros Hn Hk. unfold truncated. destruct (Z.leb_spec keepLast 0); [lia|].
  by replace (length h - Z.to_nat keepLast)%nat with O by lia.
Qed.

(** ** The manager *)

Record Session : Type := mkSession {
  Key : string;
  Messages : list Message;
  Summary : string;
  Created : time;
  Updated : time
}.

Module Manager.

(** [sessions]; the directory of [storage] is kept apart, see [Save]. *)
Abbreviation SessionManager := (gmap string Session).

Definition fresh (key : string) (now : time) : Session := mkSession key [] "" now now.

Definition GetOrCreate (now : time) (sm : SessionManager) (key : string) : SessionManager * Session :=
  match sm !! key with
  | Some session => (sm, session)
  | None => (<[key := fresh key now]> sm, fresh key now)
  end.

Definition with_messages (now : time) (session : Session) (ms : list Message) : Session :=
  mkSession (Key session) ms (Summary session) (Created session) now.

Definition AddFullMessage (now : time) (sm : SessionManager) (sessionKey : string) (msg : Message) :
    SessionManager :=
  let session := match sm !! sessionKey with
                 | Some session => session
                 | None => mkSession sessionKey [] "" now zero_time
                 end in
  <[sessionKey := with_messages now session (Messages session ++ [msg])]> sm.

Definition GetHistory (sm : SessionManager) (key : string) : list Message :=
  match sm !! key with Some session => Messages session | None => [] end.

Definition GetSummary (sm : SessionManager) (key : string) : string :=
  match sm !! key with Some session => Summary session | None => "" end.

Definition SetSummary (now : time) (sm : SessionManager) (key summary : string) : SessionManager :=
  match sm !! key with
  | Some session =>
      <[key := mkSession (Key session) (Messages session) summary (Created session) now]> sm
  | None => sm
  end.

Definition SetHistory (now : time) (sm : SessionManager) (key : string) (history : list Message) :
    SessionManager :=
  match sm !! key with
  | Some session => <[key := with_messages now session history]> sm
  | None => sm
  end.

Definition TruncateHistory (now : time) (sm : SessionManager) (key : string) (keepLast : Z) :
    SessionManager :=
  match sm !! key with
  | None => sm
  | Some session =>
      if keepLast <=? 0 then <[key := with_messages now session []]> sm
      else if Z.of_nat (length (Messages session)) <=? keepLast then sm
      else <[key := with_messages now session
               (drop (Z.to_nat (Z.of_nat (length (Messages session)) - keepLast)) (Messages session))]> sm
  end.

(** The keys in the order of one iteration over the map. *)
Definition ListSessions (sm : SessionManager) : list string := map fst (map_to_list sm).

(** *** The instance *)

Lemma history_truncate_at now sm key n :
  GetHistory (TruncateHistory now sm key n) key = truncated n (GetHistory sm key).
Proof.
  unfold GetHistory, TruncateHistory, truncated. destruct (sm !! key) as [s|] eqn:E.
  - destruct (n <=? 0) eqn:En; [by rewrite lookup_insert_eq|].
    destruct (Z.leb_spec (Z.of_nat (length (Messages s))) n).
    + rewrite E. by replace (length (Messages s) - Z.to_nat n)%nat with O by lia.
    + rewrite lookup_insert_eq. simpl. f_equal. lia.
  - rewrite E. by case_match.
Qed.

(** An operation on a session that exists, or not. *)
Ltac manager_case :=
  intros; cbv beta in *;
  unfold AddFullMessage, GetHistory, GetSummary, SetSummary, SetHistory, TruncateHistory in *;
  let E := fresh "E" in
  match goal with |- context [?m !! ?k] => is_var m; destruct (m !! k) as [session|] eqn:E end;
  repeat match goal with H : is_Some None |- _ => by destruct H end;
  repeat match goal with |- context [if ?b then _ else _] => destruct b end;
  rewrite ?lookup_insert_eq, ?E, ?map_id; simpl; by eauto.

#[global] Instance manager_store : SessionStore SessionManager.
Proof.
  refine {|
    sane sm := True;
    known sm k := is_Some (sm !! k);
    stored m := m;
    acceptable m := True;
    Session.AddFullMessage := AddFullMessage;
    Session.GetHistory := GetHistory;
    Session.GetSummary := GetSummary;
    Session.SetSummary := SetSummary;
    Session.SetHistory := SetHistory;
    Session.TruncateHistory := TruncateHistory;
    Session.Save t sm k := sm
  |}.
  all: try done.
  all: try (intros; apply history_truncate_at).
  all: try (intros; by apply Forall_forall).
  all: try manager_case.
Defined.

(** *** Files *)

(** [strings.ReplaceAll] three times. *)
Definition sanitizeFilename (key : string) : string :=
  ReplaceByte (ReplaceByte (ReplaceByte key ":" "_") "/" "_") "\" "_".

(** [filepath.IsLocal] of a name without separators, on Unix. *)
Definition IsLocal (filename : string) : bool :=
  negb (String.eqb filename "") && negb (String.eqb filename "..").

Definition file_of (key : string) : string := sanitizeFilename key +:+ ".json".

(** [filepath.Ext(name) == ".json"] *)
Definition is_json (name : string) : bool :=
  l_prefix (rev (chars ".json")) (rev (chars name)).

(** The files of the storage directory. *)
Abbreviation directory := (gmap string (list ascii)).

(** The call of the file system that fails in [Save], if any does. *)
Inductive SaveStep : Type := CreateTemp | Write | Chmod | Sync | Close | Rename.

#[global] Instance SaveStep_eq_dec : EqDecision SaveStep.
Proof. solve_decision. Defined.

Inductive SaveError : Type := ErrInvalid | ErrIO (step : SaveStep).

Section Files.
(** [encoding/json] on a session. *)
Context (MarshalIndent : Session -> list ascii) (Unmarshal : list ascii -> option Session).

(** [tmpPath] is the name that [os.CreateTemp] picks. *)
Definition Save (fault : option SaveStep) (storage tmpPath : string) (sm : SessionManager)
    (dir : directory) (key : string) : directory * option SaveError :=
  if String.eqb storage "" then (dir, None)
  else
    let filename := sanitizeFilename key in
    if String.eqb filename "." || negb (IsLocal filename) then (dir, Some ErrInvalid)
    else
      match sm !! key with
      | None => (dir, None)
      | Some stored =>
          let data := MarshalIndent stored in
          let sessionPath := filename +:+ ".json" in
          match fault with
          | Some CreateTemp => (dir, Some (ErrIO CreateTemp))
          | Some step => (delete tmpPath (<[tmpPath := data]> dir), Some (ErrIO step))
          | None => (<[sessionPath := data]> (delete tmpPath (<[tmpPath := data]> dir)), None)
          end
      end.

(** [entries] is what [os.ReadDir] lists, with the contents. *)
Definition loadSessions (entries : list (string * list ascii)) (sm : SessionManager) : SessionManager :=
  fold_left (fun sm entry =>
    if is_json (fst entry) then
      match Unmarshal (snd entry) with
      | Some session => <[Key session := session]> sm
      | None => sm
      end
    else sm) entries sm.

(** Every session file holds a session under the name of its key. *)
Definition well_named (dir : directory) : Prop :=
  forall name data, dir !! name = Some data -> is_json name = true ->
    exists session, Unmarshal data = Some session /\ name = file_of (Key session).

Lemma is_json_file_of key : is_json (file_of key) = true.
Proof.
  unfold is_json, file_of. rewrite chars_app, rev_app_distr. apply l_prefix_spec. eauto.
Qed.

Lemma loadSessions_lookup entries sm key :
  NoDup (map fst entries) ->
  (forall e, e ∈ entries -> is_json (fst e) = true ->
     exists session, Unmarshal (snd e) = Some session /\ fst e = file_of (Key session)) ->
  loadSessions entries sm !! key =
    match find_first (fun e => String.eqb (fst e) (file_of key)) entries with
    | Some e => match Unmarshal (snd e) with
                | Some session => if decide (Key session = key) then Some session else sm !! key
                | None => sm !! key
                end
    | None => sm !! key
    end.
Proof.
  revert sm; induction entries as [|e entries IH]; intros sm Hnd Hwn; [done|].
  inversion Hnd as [|? ? Hnin Hnd']; subst.
  pose proof (fun m => IH m Hnd' (fun x Hx => Hwn x (list_elem_of_further _ _ _ Hx))) as HIH.
  change (loadSessions (e :: entries) sm) with (loadSessions entries
    (if is_json (fst e) then match Unmarshal (snd e) with
       Some session => <[Key session := session]> sm | None => sm end else sm)).
  rewrite HIH.
  cbn [find_first].
  destruct (String.eqb_spec (fst e) (file_of key)) as [Ek|Ek].
  - assert (Hnone : find_first (fun e => String.eqb (fst e) (file_of key)) entries = None).
    { apply find_first_None, Forall_forall. intros x Hx. apply String.eqb_neq. intros Hxk.
      apply Hnin. rewrite Ek, <- Hxk. by apply list_elem_of_fmap_2. }
    rewrite Hnone. rewrite Ek, is_json_file_of. destruct (Unmarshal (snd e)) as [s|]; [|done].
    destruct (decide (Key s = key)) as [<-|]; [by rewrite lookup_insert_eq | by rewrite lookup_insert_ne].
  - assert (Hsame : (if is_json (fst e) then match Unmarshal (snd e) with
        Some session => <[Key session := session]> sm | None => sm end else sm) !! key = sm !! key).
    { destruct (is_json (fst e)) eqn:Ej; [|done].
      destruct (Hwn e ltac:(by left) Ej) as (s & -> & Hs). apply lookup_insert_ne. congruence. }
    by rewrite Hsame.
Qed.

Lemma entries_nodup (dir : directory) entries : entries ≡ₚ map_to_list dir -> NoDup (map fst entries).
Proof. intros HP. change (NoDup (entries.*1)). rewrite HP. apply NoDup_fst_map_to_list. Qed.

Lemma entries_well_named dir entries e :
  entries ≡ₚ map_to_list dir -> well_named dir -> e ∈ entries -> is_json (fst e) = true ->
  exists session, Unmarshal (snd e) = Some session /\ fst e = file_of (Key session).
Proof.
  intros HP HW He. rewrite HP in He. destruct e as [n d]. apply elem_of_map_to_list in He.
  by apply HW.
Qed.

Lemma entries_find (dir : directory) entries name :
  entries ≡ₚ map_to_list dir ->
  find_first (fun e => String.eqb (fst e) name) entries = (fun d => (name, d)) <$> dir !! name.
Proof.
  intros HP. destruct (find_first _ entries) as [[n d]|] eqn:Ef.
  - pose proof (find_first_elem _ _ _ Ef) as He. apply find_first_Some in Ef as [Hn _]. breflect.
    simpl in Hn. subst n. rewrite HP in He. apply elem_of_map_to_list in He. by rewrite He.
  - destruct (dir !! name) as [d|] eqn:Ed; [|done]. exfalso.
    apply elem_of_map_to_list in Ed. rewrite <- HP in Ed.
    apply find_first_None in Ef. eapply Forall_forall in Ef; [|exact Ed]. simpl in Ef.
    by rewrite String.eqb_refl in Ef.
Qed.

(** A directory determines what is loaded, whatever the order of listing. *)
Lemma loadSessions_dir dir entries key :
  entries ≡ₚ map_to_list dir -> well_named dir ->
  loadSessions entries ∅ !! key =
    match dir !! file_of key with
    | Some data => match Unmarshal data with
                   | Some session => if decide (Key session = key) then Some session else None
                   | None => None
                   end
    | None => None
    end.
Proof.
  intros HP HW. rewrite loadSessions_lookup.
  - rewrite (entries_find dir) by done. destruct (dir !! file_of key); simpl; [|apply lookup_empty].
    repeat case_match; by rewrite ?lookup_empty.
  - by eapply entries_nodup.
  - intros e. by eapply entries_well_named.
Qed.

Lemma Save_success storage tmpPath sm dir key session :
  storage <> "" -> sanitizeFilename key <> "." -> IsLocal (sanitizeFilename key) = true ->
  sm !! key = Some session -> dir !! tmpPath = None ->
  Save None storage tmpPath sm dir key = (<[file_of key := MarshalIndent session]> dir, None).
Proof.
  intros Hs Hd Hl Hk Ht. unfold Save. apply String.eqb_neq in Hs, Hd. rewrite Hs, Hd, Hl, Hk. simpl.
  by rewrite delete_insert_id.
Qed.
End Files.

(** A save that succeeds makes the session what a restart loads under
    its key, in whatever order the directory is listed, and touches only the
    sessions whose file name is the same; a save that fails leaves every
    file as it was. *)
Theorem Save_atomic MarshalIndent Unmarshal storage tmpPath sm dir key session entries entries' :
  Unmarshal (MarshalIndent session) = Some session -> Key session = key ->
  sm !! key = Some session -> well_named Unmarshal dir ->
  storage <> "" -> sanitizeFilename key <> "." -> IsLocal (sanitizeFilename key) = true ->
  dir !! tmpPath = None ->
  (forall fault dir' e, Save MarshalIndent fault storage tmpPath sm dir key = (dir', Some e) -> dir' = dir) /\
  (exists dir', Save MarshalIndent None storage tmpPath sm dir key = (dir', None) /\
     well_named Unmarshal dir' /\
     (entries ≡ₚ map_to_list dir -> entries' ≡ₚ map_to_list dir' ->
      loadSessions Unmarshal entries' ∅ !! key = Some session /\
      forall k, file_of k <> file_of key ->
        loadSessions Unmarshal entries' ∅ !! k = loadSessions Unmarshal entries ∅ !! k)).
Proof.
  intros Hrt HK Hk HW Hs Hd Hl Ht. split.
  - intros fault dir' e. unfold Save. apply String.eqb_neq in Hs, Hd. rewrite Hs, Hd, Hl, Hk. simpl.
    destruct fault as [[]|]; intros; simplify_eq; try done; by rewrite delete_insert_id.
  - rewrite (Save_success _ _ _ _ _ _ session) by done. eexists. split; [done|].
    assert (HW' : well_named Unmarshal (<[file_of key := MarshalIndent session]> dir)).
    { intros name data Hn Hj. destruct (decide (name = file_of key)) as [->|Hne].
      - rewrite lookup_insert_eq in Hn. injection Hn as <-. exists session. by rewrite HK.
      - rewrite lookup_insert_ne in Hn by done. by apply (HW name). }
    split; [done|]. intros HE HE'. split.
    + rewrite (loadSessions_dir _ _ _ _ HE' HW'), lookup_insert_eq, Hrt. by rewrite decide_True.
    + intros k Hne. rewrite (loadSessions_dir _ _ _ _ HE' HW'), (loadSessions_dir _ _ _ _ HE HW).
      by rewrite lookup_insert_ne.
Qed.

(** A codec for sessions without messages. *)
Definition demo_marshal (s : Session) : list ascii := chars (Key s).
Definition demo_unmarshal (d : list ascii) : option Session := Some (mkSession (implode d) [] "" 0 0).
Definition demo_session (k : string) : Session := mkSession k [] "" 0 0.

Lemma Save_atomic_witness :
  fst (Save demo_marshal (Some Rename) "/data" "session-1.tmp" {["a:b" := demo_session "a:b"]} ∅ "a:b") = ∅ /\
  loadSessions demo_unmarshal [("a_b.json", chars "a:b")] ∅ !! "a:b" = Some (demo_session "a:b").
Proof.
  destruct (Save_atomic demo_marshal demo_unmarshal "/data" "session-1.tmp"
    {["a:b" := demo_session "a:b"]} ∅ "a:b" (demo_session "a:b") [] [("a_b.json", chars "a:b")])
    as [H1 (dir' & H2 & _ & H3)];
    [reflexivity | reflexivity | reflexivity | intros ? ? ?; done | discriminate | discriminate
    | reflexivity | reflexivity |].
  split; [reflexivity|]. apply H3; [reflexivity|].
  assert (E : dir' = {["a_b.json" := chars "a:b"]}) by (vm_compute in H2; by injection H2 as <-).
  rewrite E. by rewrite map_to_list_singleton.
Defined.

(** Two keys with one file name: the session saved first is lost. *)
Example Save_collision :
  let sm := <["a:b" := demo_session "a:b"]> {["a_b" := demo_session "a_b"]} in
  let d1 := fst (Save demo_marshal None "/data" "t1" sm ∅ "a:b") in
  let d2 := fst (Save demo_marshal None "/data" "t2" sm d1 "a_b") in
  loadSessions demo_unmarshal (map_to_list d1) ∅ !! "a:b" = Some (demo_session "a:b") /\
  loadSessions demo_unmarshal (map_to_list d2) ∅ !! "a:b" = None.
Proof. vm_compute. split; reflexivity. Qed.
End Manager.
