(* ===== verification/Jsonl.v ===== *)
(** * The append-only session store: [src/pkg/memory/jsonl.go]

    One file of JSON lines and one metadata file per session. A write
    operation is the list of its effects on the disk, so that a crash is a
    prefix of the effects in which the last append may be torn. The
    metadata file and the rewritten line file are replaced atomically
    ([fileutil.WriteFileAtomic]); the metadata document is modelled by its
    record, a line file by its bytes. *)

From S2P Require Import Prelude GoStrings Message Session.

(** ** [encoding/json] on a message

    The laws state documented behaviour: an encoding is one non-empty line
    that does not end with a carriage return; it decodes to the message less
    the fields that are excluded from the encoding; no proper prefix of an
    object is a JSON value, nor is such a prefix followed by an object. *)
Class MessageCodec : Type := {
  Marshal : Message -> list ascii;
  Unmarshal : list ascii -> option Message;
  persisted : Message -> Message;
  unmarshal_marshal m : Unmarshal (Marshal m) = Some (persisted m);
  marshal_persisted m : Marshal (persisted m) = Marshal m;
  persisted_idem m : persisted (persisted m) = persisted m;
  marshal_line m : Marshal m <> [] /\ (ascii_of_nat 10 ∉ Marshal m) /\ last (Marshal m) <> Some (ascii_of_nat 13);
  marshal_prefix m p q : Marshal m = p ++ q -> q <> [] -> Unmarshal p = None;
  marshal_torn m m' p q : Marshal m = p ++ q -> p <> [] -> q <> [] -> Unmarshal (p ++ Marshal m') = None
}.

(** ** The disk *)

Record sessionMeta : Type := mkMeta {
  MetaKey : string;
  MetaSummary : string;
  Skip : Z;
  Count : Z;
  CreatedAt : time;
  UpdatedAt : time
}.

Record disk : Type := mkDisk { lines : gmap string (list ascii); metas : gmap string sessionMeta }.

(** Effects on the files of a sanitized key. *)
Inductive effect : Type :=
| AppendLine (name : string) (bytes : list ascii)
| WriteMeta (name : string) (meta : sessionMeta)
| RewriteLines (name : string) (bytes : list ascii).

Definition bytes_of (d : disk) (name : string) : list ascii := default [] (lines d !! name).

Definition exec (d : disk) (e : effect) : disk :=
  match e with
  | AppendLine n b => mkDisk (<[n := bytes_of d n ++ b]> (lines d)) (metas d)
  | WriteMeta n m => mkDisk (lines d) (<[n := m]> (metas d))
  | RewriteLines n b => mkDisk (<[n := b]> (lines d)) (metas d)
  end.

Definition exec_all (d : disk) (es : list effect) : disk := fold_left exec es d.

(** The disks that a crash can leave behind. *)
Inductive crash : disk -> list effect -> disk -> Prop :=
| crash_done d es : crash d es d
| crash_step d e es d' : crash (exec d e) es d' -> crash d (e :: es) d'
| crash_torn d n b p q es :
    b = p ++ q -> crash d (AppendLine n b :: es) (exec d (AppendLine n p)).

(** ** Reading lines: [bufio.Scanner] *)

Definition maxLineSize : Z := 10 * 1024 * 1024.

Definition newline_byte : ascii := ascii_of_nat 10.
Definition cr_byte : ascii := ascii_of_nat 13.

(** The lines of a file; what follows the last newline is a line if it is not
    empty. *)
Fixpoint raw_lines (acc l : list ascii) : list (list ascii) :=
  match l with
  | [] => match acc with [] => [] | _ => [rev acc] end
  | c :: l' => if Ascii.eqb c newline_byte then rev acc :: raw_lines [] l' else raw_lines (c :: acc) l'
  end.

Definition drop_cr (l : list ascii) : list ascii :=
  match rev l with
  | c :: r => if Ascii.eqb c cr_byte then rev r else l
  | [] => l
  end.

Definition too_long (l : list ascii) : bool := maxLineSize <=? Z.of_nat (length l).

Definition is_nil (l : list ascii) : bool := match l with [] => true | _ => false end.

(** The non-empty lines, or the error of the scanner. *)
Definition scan_lines (bytes : list ascii) : result unit (list (list ascii)) :=
  let ls := raw_lines [] bytes in
  if existsb too_long ls then Err tt
  else Ok (List.filter (fun l => negb (is_nil l)) (map drop_cr ls)).

Section Store.
Context `{MessageCodec}.

Definition sanitizeKey (key : string) : string := Manager.sanitizeFilename key.

Definition readMeta (d : disk) (key : string) : sessionMeta :=
  default (mkMeta key "" 0 0 zero_time zero_time) (metas d !! sanitizeKey key).

Definition readMessages (bytes : list ascii) (skip : Z) : result unit (list Message) :=
  let* ls := scan_lines bytes in
  Ok (omap Unmarshal (drop (Z.to_nat skip) ls)).

Definition countLines (bytes : list ascii) : result unit Z :=
  let* ls := scan_lines bytes in Ok (Z.of_nat (length ls)).

Definition encode_line (m : Message) : list ascii := Marshal m ++ [newline_byte].

(** ** Operations *)

Definition addMsg (now : time) (d : disk) (sessionKey : string) (msg : Message) : list effect :=
  let meta := readMeta d sessionKey in
  let createdAt := if (Count meta =? 0) && IsZero (CreatedAt meta) then now else CreatedAt meta in
  [AppendLine (sanitizeKey sessionKey) (encode_line msg);
   WriteMeta (sanitizeKey sessionKey)
     (mkMeta (MetaKey meta) (MetaSummary meta) (Skip meta) (Count meta + 1) createdAt now)].

Definition GetHistory (d : disk) (sessionKey : string) : result unit (list Message) :=
  readMessages (bytes_of d (sanitizeKey sessionKey)) (Skip (readMeta d sessionKey)).

Definition GetSummary (d : disk) (sessionKey : string) : string := MetaSummary (readMeta d sessionKey).

Definition SetSummary (now : time) (d : disk) (sessionKey summary : string) : list effect :=
  let meta := readMeta d sessionKey in
  let createdAt := if IsZero (CreatedAt meta) then now else CreatedAt meta in
  [WriteMeta (sanitizeKey sessionKey)
     (mkMeta (MetaKey meta) summary (Skip meta) (Count meta) createdAt now)].

Definition TruncateHistory (now : time) (d : disk) (sessionKey : string) (keepLast : Z) :
    result unit (list effect) :=
  let meta := readMeta d sessionKey in
  let* n := countLines (bytes_of d (sanitizeKey sessionKey)) in
  let skip :=
    if keepLast <=? 0 then n
    else let effective := n - Skip meta in
         if keepLast <? effective then n - keepLast else Skip meta in
  Ok [WriteMeta (sanitizeKey sessionKey)
        (mkMeta (MetaKey meta) (MetaSummary meta) skip n (CreatedAt meta) now)].

Definition rewriteJSONL (sessionKey : string) (msgs : list Message) : effect :=
  RewriteLines (sanitizeKey sessionKey) (flat_map encode_line msgs).

Definition SetHistory (now : time) (d : disk) (sessionKey : string) (history : list Message) :
    list effect :=
  let meta := readMeta d sessionKey in
  let createdAt := if IsZero (CreatedAt meta) then now else CreatedAt meta in
  [WriteMeta (sanitizeKey sessionKey)
     (mkMeta (MetaKey meta) (MetaSummary meta) 0 (Z.of_nat (length history)) createdAt now);
   rewriteJSONL sessionKey history].

Definition Compact (now : time) (d : disk) (sessionKey : string) : result unit (list effect) :=
  let meta := readMeta d sessionKey in
  if Skip meta =? 0 then Ok []
  else
    let* active := readMessages (bytes_of d (sanitizeKey sessionKey)) (Skip meta) in
    Ok [WriteMeta (sanitizeKey sessionKey)
          (mkMeta (MetaKey meta) (MetaSummary meta) 0 (Z.of_nat (length active)) (CreatedAt meta) now);
        rewriteJSONL sessionKey active].
(** ** Lemmas *)

Definition small (m : Message) : Prop := Z.of_nat (length (Marshal m)) < maxLineSize.

(** The file of a session holds exactly these messages. *)
Definition holds (d : disk) (name : string) (ms : list Message) : Prop :=
  bytes_of d name = flat_map encode_line ms /\ Forall small ms.

Definition skip_of (d : disk) (name : string) : Z :=
  match metas d !! name with Some meta => Skip meta | None => 0 end.

Lemma raw_lines_line acc l rest :
  newline_byte ∉ l -> raw_lines acc (l ++ newline_byte :: rest) = (rev acc ++ l) :: raw_lines [] rest.
Proof.
  revert acc; induction l as [|c l IH]; intros acc Hl; cbn [raw_lines app].
  - by rewrite Ascii.eqb_refl, app_nil_r.
  - apply not_elem_of_cons in Hl as [Hc Hl]. destruct (Ascii.eqb_spec c newline_byte); [congruence|].
    rewrite IH by done. simpl. by rewrite <- app_assoc.
Qed.

Lemma raw_lines_tail acc l :
  newline_byte ∉ l -> raw_lines acc l = match rev acc ++ l with [] => [] | k => [k] end.
Proof.
  revert acc; induction l as [|c l IH]; intros acc Hl; cbn [raw_lines].
  - rewrite app_nil_r. destruct acc as [|a acc]; [done|]. simpl. by destruct (rev acc).
  - apply not_elem_of_cons in Hl as [Hc Hl]. destruct (Ascii.eqb_spec c newline_byte); [congruence|].
    rewrite IH by done. simpl. by rewrite <- app_assoc.
Qed.

(** Complete lines followed by a torn one. *)
Lemma raw_lines_file ms t :
  newline_byte ∉ t ->
  raw_lines [] (flat_map encode_line ms ++ t) = map Marshal ms ++ match t with [] => [] | _ => [t] end.
Proof.
  intros Ht. induction ms as [|m ms IH].
  - change (flat_map encode_line [] ++ t) with t. rewrite raw_lines_tail by done; by destruct t.
  - cbn [flat_map map app]. unfold encode_line at 1. rewrite <- !app_assoc.
    cbn [app]. rewrite raw_lines_line by apply marshal_line. by rewrite IH.
Qed.

Lemma drop_cr_id l : last l <> Some cr_byte -> drop_cr l = l.
Proof.
  intros Hl. unfold drop_cr. destruct (rev l) as [|c r] eqn:E; [done|].
  destruct (Ascii.eqb_spec c cr_byte) as [->|]; [|done]. exfalso. apply Hl.
  rewrite <- (rev_involutive l), E. simpl. by rewrite last_snoc.
Qed.

Lemma scan_lines_file ms t :
  Forall small ms -> newline_byte ∉ t -> Z.of_nat (length t) < maxLineSize ->
  scan_lines (flat_map encode_line ms ++ t) =
    Ok (map Marshal ms ++ List.filter (fun l => negb (is_nil l))
          (map drop_cr (match t with [] => [] | _ => [t] end))).
Proof.
  intros HS Ht Hlen. unfold scan_lines. rewrite raw_lines_file by done.
  rewrite existsb_app, map_app, List.filter_app.
  assert (E1 : existsb too_long (map Marshal ms) = false).
  { induction HS as [|m ms Hm _ IH]; [done|]. cbn [map existsb]. rewrite IH, orb_false_r.
    unfold too_long, small in *. lia. }
  assert (E2 : existsb too_long (match t with [] => [] | _ => [t] end) = false).
  { destruct t; [done|]. cbn [existsb]. rewrite orb_false_r. unfold too_long. lia. }
  rewrite E1, E2. cbn [orb]. do 2 f_equal.
  induction ms as [|m ms IH]; [done|]. inversion HS; subst.
  destruct (marshal_line m) as (Hne & _ & Hcr). cbn [map List.filter].
  rewrite drop_cr_id by done. destruct (Marshal m) eqn:Em; [done|]. cbn [is_nil negb]. f_equal.
  apply IH; [done|]. cbn [map existsb] in E1. by apply orb_false_iff in E1 as [_ ?].
Qed.

Lemma scan_lines_holds ms :
  Forall small ms -> scan_lines (flat_map encode_line ms) = Ok (map Marshal ms).
Proof.
  intros HS. pose proof (scan_lines_file ms [] HS (not_elem_of_nil _)) as HE.
  rewrite !app_nil_r in HE. by apply HE.
Qed.

Lemma omap_Unmarshal ms : omap Unmarshal (map Marshal ms) = map persisted ms.
Proof. induction ms as [|m ms IH]; [done|]. cbn. by rewrite unmarshal_marshal, IH. Qed.

Lemma readMessages_holds ms skip :
  Forall small ms ->
  readMessages (flat_map encode_line ms) skip = Ok (map persisted (drop (Z.to_nat skip) ms)).
Proof.
  intros HS. unfold readMessages. rewrite scan_lines_holds by done. cbn [result_bind].
  by rewrite skipn_map, omap_Unmarshal.
Qed.

Lemma readMeta_skip d key : Skip (readMeta d key) = skip_of d (sanitizeKey key).
Proof. unfold readMeta, skip_of. by destruct (metas d !! sanitizeKey key). Qed.

Lemma GetHistory_holds d key ms :
  holds d (sanitizeKey key) ms ->
  GetHistory d key = Ok (map persisted (drop (Z.to_nat (skip_of d (sanitizeKey key))) ms)).
Proof. intros [HB HS]. unfold GetHistory. by rewrite HB, readMeta_skip, readMessages_holds. Qed.

Lemma small_persisted m : small m -> small (persisted m).
Proof. unfold small. by rewrite marshal_persisted. Qed.

Lemma encode_persisted ms : flat_map encode_line (map persisted ms) = flat_map encode_line ms.
Proof.
  induction ms as [|m ms IH]; [done|]. cbn [map flat_map]. unfold encode_line at 1 3.
  by rewrite marshal_persisted, IH.
Qed.

(** *** The invariant of a disk without torn lines *)

Definition sane_disk (d : disk) : Prop :=
  forall name, exists ms, holds d name ms /\ 0 <= skip_of d name <= Z.of_nat (length ms).

Lemma bytes_of_insert n b ls ms' name :
  bytes_of (mkDisk (<[n := b]> ls) ms') name = if decide (n = name) then b else default [] (ls !! name).
Proof. unfold bytes_of. cbn [lines]. destruct (decide (n = name)) as [->|]; by rewrite ?lookup_insert_eq, ?lookup_insert_ne. Qed.

Lemma skip_of_insert n m ls ms name :
  skip_of (mkDisk ls (<[n := m]> ms)) name =
    if decide (n = name) then Skip m else match ms !! name with Some x => Skip x | None => 0 end.
Proof. unfold skip_of. cbn [metas]. destruct (decide (n = name)) as [->|]; by rewrite ?lookup_insert_eq, ?lookup_insert_ne. Qed.

(** New bytes and a new skip for one session. *)
Lemma sane_update d n b meta ms :
  sane_disk d -> b = flat_map encode_line ms -> Forall small ms ->
  0 <= Skip meta <= Z.of_nat (length ms) ->
  sane_disk (mkDisk (<[n := b]> (lines d)) (<[n := meta]> (metas d))).
Proof.
  intros HD -> HS Hk name. destruct (decide (n = name)) as [<-|Hne].
  - exists ms. unfold holds. rewrite bytes_of_insert, skip_of_insert, !decide_True by done. done.
  - destruct (HD name) as (ms' & [HB HS'] & Hk'). exists ms'. unfold holds.
    rewrite bytes_of_insert, skip_of_insert, !decide_False by done. done.
Qed.

Lemma sane_meta d n meta ms :
  sane_disk d -> holds d n ms -> 0 <= Skip meta <= Z.of_nat (length ms) ->
  sane_disk (mkDisk (lines d) (<[n := meta]> (metas d))).
Proof.
  intros HD Hh Hk name. destruct (decide (n = name)) as [<-|Hne].
  - exists ms. rewrite skip_of_insert, decide_True by done. done.
  - destruct (HD name) as (ms' & HB & Hk'). exists ms'. by rewrite skip_of_insert, decide_False.
Qed.

(** *** The operations without a crash *)

Definition run_add (now : time) (d : disk) (key : string) (msg : Message) : disk :=
  exec_all d (addMsg now d key msg).
Definition run_summary (now : time) (d : disk) (key summary : string) : disk :=
  exec_all d (SetSummary now d key summary).
Definition run_set (now : time) (d : disk) (key : string) (history : list Message) : disk :=
  exec_all d (SetHistory now d key history).

(** [JSONLBackend] logs an error and goes on. *)
Definition run_result (d : disk) (r : result unit (list effect)) : disk :=
  match r with Ok es => exec_all d es | Err _ => d end.
Definition run_truncate (now : time) (d : disk) (key : string) (keepLast : Z) : disk :=
  run_result d (TruncateHistory now d key keepLast).
Definition run_compact (now : time) (d : disk) (key : string) : disk := run_result d (Compact now d key).
Definition backend_history (d : disk) (key : string) : list Message :=
  match GetHistory d key with Ok h => h | Err _ => [] end.

Lemma meta_skip_some d key ms n :
  holds d n ms -> n = sanitizeKey key -> 0 <= skip_of d n <= Z.of_nat (length ms) ->
  backend_history d key = map persisted (drop (Z.to_nat (skip_of d n)) ms).
Proof. intros Hh -> _. unfold backend_history. by rewrite (GetHistory_holds _ _ ms). Qed.

Lemma run_add_holds now d key msg ms :
  holds d (sanitizeKey key) ms -> small msg ->
  holds (run_add now d key msg) (sanitizeKey key) (ms ++ [msg]) /\
  skip_of (run_add now d key msg) (sanitizeKey key) = skip_of d (sanitizeKey key).
Proof.
  intros [HB HS] Hm. split.
  - split; [|by apply Forall_app; split; [|constructor]].
    unfold run_add, exec_all, addMsg. cbn [fold_left exec lines metas].
    rewrite bytes_of_insert, decide_True, HB, flat_map_app by done. cbn [flat_map]. by rewrite app_nil_r.
  - unfold run_add, exec_all, addMsg. cbn [fold_left exec lines metas].
    by rewrite skip_of_insert, decide_True, <- readMeta_skip.
Qed.

Lemma run_set_holds now d key h :
  Forall small h ->
  holds (run_set now d key h) (sanitizeKey key) h /\ skip_of (run_set now d key h) (sanitizeKey key) = 0.
Proof.
  intros HS. unfold run_set, exec_all, SetHistory, rewriteJSONL. cbn [fold_left exec lines metas]. split.
  - split; [|done]. by rewrite bytes_of_insert, decide_True.
  - by rewrite skip_of_insert, decide_True.
Qed.

Lemma run_summary_holds now d key v name :
  (forall ms, holds d name ms -> holds (run_summary now d key v) name ms) /\
  skip_of (run_summary now d key v) name = skip_of d name.
Proof.
  unfold run_summary, exec_all, SetSummary. cbn [fold_left exec lines metas]. split; [done|].
  rewrite skip_of_insert. case_decide as E; [|done]. subst name. by rewrite <- readMeta_skip.
Qed.

Definition new_skip (keepLast n skip : Z) : Z :=
  if keepLast <=? 0 then n else if keepLast <? n - skip then n - keepLast else skip.

Lemma run_truncate_holds now d key n ms :
  holds d (sanitizeKey key) ms ->
  holds (run_truncate now d key n) (sanitizeKey key) ms /\
  skip_of (run_truncate now d key n) (sanitizeKey key) =
    new_skip n (Z.of_nat (length ms)) (skip_of d (sanitizeKey key)) /\
  TruncateHistory now d key n <> Err tt.
Proof.
  intros [HB HS]. unfold run_truncate, TruncateHistory, countLines.
  rewrite HB, scan_lines_holds by done. cbn [result_bind run_result].
  unfold exec_all. cbn [fold_left exec lines metas]. split_and!; [by split | | done].
  rewrite skip_of_insert, decide_True by done. cbn [Skip]. unfold new_skip.
  by rewrite length_map, readMeta_skip.
Qed.

Lemma new_skip_truncated n ms skip :
  0 <= skip <= Z.of_nat (length ms) ->
  map persisted (drop (Z.to_nat (new_skip n (Z.of_nat (length ms)) skip)) ms) =
    truncated n (map persisted (drop (Z.to_nat skip) ms)).
Proof.
  intros Hs. unfold new_skip, truncated. rewrite length_map, length_drop.
  destruct (Z.leb_spec n 0); [by rewrite drop_ge by lia|].
  rewrite <- skipn_map, <- (skipn_map persisted (Z.to_nat skip)), drop_drop.
  destruct (Z.ltb_spec n (Z.of_nat (length ms) - skip)); f_equal; lia.
Qed.

(** Only the files of the session change. *)
Lemma exec_all_frame d es name n :
  n <> name ->
  Forall (fun e => match e with AppendLine x _ | WriteMeta x _ | RewriteLines x _ => x = n end) es ->
  bytes_of (exec_all d es) name = bytes_of d name /\ metas (exec_all d es) !! name = metas d !! name.
Proof.
  intros Hne HF. revert d; induction HF as [|e es He _ IH]; intros d; [done|].
  unfold exec_all in *. cbn [fold_left]. destruct (IH (exec d e)) as [-> ->].
  destruct e; subst; cbn [exec metas]; rewrite ?bytes_of_insert, ?decide_False, ?lookup_insert_ne by done;
    done.
Qed.

Lemma sane_exec d es n ms :
  sane_disk d ->
  Forall (fun e => match e with AppendLine x _ | WriteMeta x _ | RewriteLines x _ => x = n end) es ->
  holds (exec_all d es) n ms -> 0 <= skip_of (exec_all d es) n <= Z.of_nat (length ms) ->
  sane_disk (exec_all d es).
Proof.
  intros HD HF Hh Hk name. destruct (decide (n = name)) as [<-|Hne]; [by exists ms|].
  destruct (exec_all_frame d es name n Hne HF) as [EB EM]. destruct (HD name) as (ms' & [HB HS] & Hk').
  exists ms'. unfold holds, skip_of in *. by rewrite EB, EM.
Qed.

Lemma sane_run_add now d key m : sane_disk d -> small m -> sane_disk (run_add now d key m).
Proof.
  intros HD Hm. destruct (HD (sanitizeKey key)) as (ms & Hh & Hk).
  destruct (run_add_holds now d key m ms Hh Hm) as [Hh' Hs'].
  eapply sane_exec; [done | by repeat constructor | exact Hh' |]. fold (run_add now d key m).
  rewrite Hs', length_app. lia.
Qed.

Lemma sane_run_set now d key h : sane_disk d -> Forall small h -> sane_disk (run_set now d key h).
Proof.
  intros HD HF. destruct (run_set_holds now d key h HF) as [Hh' Hs'].
  eapply sane_exec; [done | by repeat constructor | exact Hh' |]. fold (run_set now d key h). rewrite Hs'. lia.
Qed.

Lemma sane_run_summary now d key v : sane_disk d -> sane_disk (run_summary now d key v).
Proof.
  intros HD name. destruct (HD name) as (ms & Hh & Hk). exists ms.
  destruct (run_summary_holds now d key v name) as [H1 ->]. by split; [apply H1|].
Qed.

Lemma sane_run_truncate now d key n : sane_disk d -> sane_disk (run_truncate now d key n).
Proof.
  intros HD. destruct (HD (sanitizeKey key)) as (ms & Hh & Hk).
  destruct (run_truncate_holds now d key n ms Hh) as (Hh' & Hs' & Hok).
  unfold run_truncate in *. destruct (TruncateHistory now d key n) as [es|[]] eqn:E; [|done].
  cbn [run_result] in *. eapply sane_exec; [done | | exact Hh' |].
  - unfold TruncateHistory in E. destruct (countLines _); [|done]. cbn [result_bind] in E. simplify_eq.
    by repeat constructor.
  - rewrite Hs'. unfold new_skip. repeat case_match; breflect; lia.
Qed.

Lemma run_compact_holds now d key ms :
  holds d (sanitizeKey key) ms ->
  (run_compact now d key = d \/
   holds (run_compact now d key) (sanitizeKey key)
     (map persisted (drop (Z.to_nat (skip_of d (sanitizeKey key))) ms)) /\
   skip_of (run_compact now d key) (sanitizeKey key) = 0) /\
  GetSummary (run_compact now d key) key = GetSummary d key.
Proof.
  intros [HB HS]. unfold run_compact, Compact. rewrite readMeta_skip.
  destruct (Z.eqb_spec (skip_of d (sanitizeKey key)) 0); [by split; [left|]|].
  rewrite HB, readMessages_holds by done. cbn [result_bind run_result].
  unfold exec_all, rewriteJSONL. cbn [fold_left exec lines metas]. split.
  - right. split; [split|].
    + by rewrite bytes_of_insert, decide_True.
    + apply Forall_map. eapply Forall_impl; [apply Forall_drop, HS | apply small_persisted].
    + by rewrite skip_of_insert, decide_True.
  - unfold GetSummary, readMeta. cbn [metas]. by rewrite lookup_insert_eq.
Qed.

Lemma sane_run_compact now d key : sane_disk d -> sane_disk (run_compact now d key).
Proof.
  intros HD. destruct (HD (sanitizeKey key)) as (ms & Hh & Hk).
  destruct (run_compact_holds now d key ms Hh) as [[-> | [Hh' Hs']] _]; [done|].
  unfold run_compact in *. destruct (Compact now d key) as [es|] eqn:E; [|done]. cbn [run_result] in *.
  eapply sane_exec; [done | | exact Hh' | rewrite Hs'; lia].
  unfold Compact in E. case_match; simplify_eq; [by constructor|].
  destruct (readMessages _ _); [|done]. cbn [result_bind] in E. simplify_eq. by repeat constructor.
Qed.

(** *** The store behind the interface *)

Lemma summary_of d key : GetSummary d key = MetaSummary (default (mkMeta key "" 0 0 0 0) (metas d !! sanitizeKey key)).
Proof. done. Qed.

#[global] Instance jsonl_store : SessionStore disk.
Proof.
  refine {|
    sane := sane_disk;
    known d k := True;
    stored := persisted;
    acceptable := small;
    Session.AddFullMessage := run_add;
    Session.GetHistory := backend_history;
    Session.GetSummary := GetSummary;
    Session.SetSummary := run_summary;
    Session.SetHistory := run_set;
    Session.TruncateHistory := run_truncate;
    Session.Save := run_compact
  |}.
  - apply sane_run_add.
  - apply sane_run_summary.
  - apply sane_run_set.
  - apply sane_run_truncate.
  - apply sane_run_compact.
  - done.
  - done.
  - done.
  - done.
  - done.
  - done.
  - intros t d k m HD Hm. destruct (HD (sanitizeKey k)) as (ms & Hh & Hk).
    destruct (run_add_holds t d k m ms Hh Hm) as [Hh' Hs']. unfold backend_history.
    rewrite (GetHistory_holds _ _ _ Hh), (GetHistory_holds _ _ _ Hh'), Hs'.
    rewrite drop_app_le by lia. by rewrite map_app.
  - intros t d k h HD _ HF. destruct (run_set_holds t d k h HF) as [Hh' Hs']. unfold backend_history.
    by rewrite (GetHistory_holds _ _ _ Hh'), Hs'.
  - intros t d k n HD. destruct (HD (sanitizeKey k)) as (ms & Hh & Hk).
    destruct (run_truncate_holds t d k n ms Hh) as (Hh' & Hs' & _). unfold backend_history.
    rewrite (GetHistory_holds _ _ _ Hh), (GetHistory_holds _ _ _ Hh'), Hs'. by apply new_skip_truncated.
  - intros t d k v HD. destruct (HD (sanitizeKey k)) as (ms & Hh & Hk).
    destruct (run_summary_holds t d k v (sanitizeKey k)) as [H1 H2]. unfold backend_history.
    by rewrite (GetHistory_holds _ _ _ Hh), (GetHistory_holds _ _ _ (H1 _ Hh)), H2.
  - intros t d k HD. destruct (HD (sanitizeKey k)) as (ms & Hh & Hk). unfold backend_history.
    destruct (run_compact_holds t d k ms Hh) as [[-> | [Hh' Hs']] _]; [done|].
    rewrite (GetHistory_holds _ _ _ Hh), (GetHistory_holds _ _ _ Hh'), Hs'.
    change (drop (Z.to_nat 0) ?l) with l. rewrite map_map. apply map_ext, persisted_idem.
  - intros d k HD. destruct (HD (sanitizeKey k)) as (ms & Hh & Hk). unfold backend_history.
    rewrite (GetHistory_holds _ _ _ Hh), map_map. apply map_ext, persisted_idem.
  - intros d k HD. destruct (HD (sanitizeKey k)) as (ms & Hh & Hk). unfold backend_history.
    rewrite (GetHistory_holds _ _ _ Hh). apply Forall_map.
    eapply Forall_impl; [apply Forall_drop, Hh | apply small_persisted].
  - intros t d k m HD. unfold run_add, exec_all, addMsg, GetSummary, readMeta. cbn [fold_left exec metas].
    by rewrite lookup_insert_eq.
  - intros t d k v HD _. unfold run_summary, exec_all, SetSummary, GetSummary, readMeta at 1. cbn [fold_left exec metas].
    by rewrite lookup_insert_eq.
  - intros t d k h HD. unfold run_set, exec_all, SetHistory, rewriteJSONL, GetSummary, readMeta. cbn [fold_left exec metas].
    by rewrite lookup_insert_eq.
  - intros t d k n HD. unfold run_truncate, TruncateHistory. destruct (countLines _); [|done].
    cbn [result_bind run_result]. unfold exec_all, GetSummary, readMeta. cbn [fold_left exec metas].
    by rewrite lookup_insert_eq.
  - intros t d k HD. destruct (HD (sanitizeKey k)) as (ms & Hh & Hk).
    apply (run_compact_holds t d k ms Hh).
Defined.
End Store.

(** ** Crashes *)

Section Crash.
Context `{MessageCodec}.

Lemma raw_lines_app ms rest :
  raw_lines [] (flat_map encode_line ms ++ rest) = map Marshal ms ++ raw_lines [] rest.
Proof.
  induction ms as [|m ms IH]; [done|].
  cbn [flat_map map app]. unfold encode_line at 1. rewrite <- !app_assoc.
  cbn [app]. rewrite raw_lines_line by apply marshal_line. by rewrite IH.
Qed.

Lemma readMessages_app ms rest k :
  Forall small ms -> (k <= length ms)%nat ->
  readMessages (flat_map encode_line ms ++ rest) (Z.of_nat k) =
    if existsb too_long (raw_lines [] rest) then Err tt
    else Ok (map persisted (drop k ms) ++
             omap Unmarshal (List.filter (fun l => negb (is_nil l)) (map drop_cr (raw_lines [] rest)))).
Proof.
  intros HS Hk. unfold readMessages, scan_lines. rewrite raw_lines_app, existsb_app.
  assert (E1 : existsb too_long (map Marshal ms) = false).
  { clear Hk. induction HS as [|m ms Hm _ IH]; [done|]. cbn [map existsb]. rewrite IH, orb_false_r.
    unfold too_long, small in *. lia. }
  rewrite E1. cbn [orb]. destruct (existsb too_long (raw_lines [] rest)); [done|].
  cbn [result_bind]. rewrite map_app, List.filter_app, Nat2Z.id.
  assert (E2 : List.filter (fun l => negb (is_nil l)) (map drop_cr (map Marshal ms)) = map Marshal ms).
  { clear. induction ms as [|m ms IH]; [done|]. cbn [map List.filter].
    destruct (marshal_line m) as (Hne & _ & Hcr). rewrite drop_cr_id by done.
    destruct (Marshal m) eqn:E; [done|]. cbn [is_nil negb]. by rewrite IH. }
  rewrite E2, drop_app_le by by rewrite length_map.
  rewrite omap_app, skipn_map. f_equal. f_equal. apply omap_Unmarshal.
Qed.

(** A torn line is no message: it is skipped. *)
Lemma torn_line m p q :
  Marshal m ++ [newline_byte] = p ++ q -> small m ->
  let ls := raw_lines [] p in
  existsb too_long ls = false /\
  ((omap Unmarshal (List.filter (fun l => negb (is_nil l)) (map drop_cr ls)) = [] /\
    (p = [] \/ exists q', Marshal m = p ++ q' /\ q' <> [])) \/
   omap Unmarshal (List.filter (fun l => negb (is_nil l)) (map drop_cr ls)) = [persisted m]).
Proof.
  intros E HS ls. subst ls. destruct (marshal_line m) as (Hne & Hnl & Hcr).
  assert (Hfull : omap Unmarshal (List.filter (fun l => negb (is_nil l)) (map drop_cr [Marshal m])) = [persisted m]
     /\ existsb too_long [Marshal m] = false).
  { cbn [map List.filter existsb]. rewrite drop_cr_id by done.
    destruct (Marshal m) eqn:Em; [done|]. rewrite <- Em in *. cbn [is_nil negb].
    unfold too_long, small in *. split; [|lia].
    replace (negb (is_nil (Marshal m))) with true by by rewrite Em.
    cbn. by rewrite unmarshal_marshal. }
  destruct Hfull as (Hm1 & Hm2).
  destruct q as [|c q] using rev_ind; [|clear IHq].
  - rewrite app_nil_r in E. subst p.
    replace (raw_lines [] (Marshal m ++ [newline_byte])) with [Marshal m]
      by (by rewrite raw_lines_line).
    split; [done | by right].
  - rewrite app_assoc in E. apply app_inj_tail in E as [E <-].
    assert (Hp : newline_byte ∉ p) by (intros Hin; apply Hnl; rewrite E; set_solver).
    rewrite raw_lines_tail by done. cbn [rev app].
    destruct p as [|b p]; [by split; [|left; split; [|left]]|]. set (t := b :: p) in *.
    assert (Hlen : too_long t = false).
    { unfold too_long, small in *. rewrite E, length_app in HS. lia. }
    split; [cbn [existsb]; by rewrite Hlen|].
    destruct q as [|c q].
    + right. rewrite app_nil_r in E. by rewrite <- E.
    + left. split; [|right; by exists (c :: q)].
      cbn [map List.filter]. destruct (is_nil (drop_cr t)) eqn:En; [done|]. cbn [negb].
      assert (Hd : Unmarshal (drop_cr t) = None).
      { unfold drop_cr. destruct (rev t) as [|x r] eqn:Er; [by eapply marshal_prefix|].
        destruct (Ascii.eqb x cr_byte); [|by eapply marshal_prefix].
        assert (Ht : t = rev r ++ [x]) by (rewrite <- (rev_involutive t), Er; done).
        eapply (marshal_prefix m (rev r) (x :: c :: q)); [|done].
        rewrite E, Ht, <- app_assoc. done. }
      cbn. by rewrite Hd.
Qed.

Lemma history_after_append d key ms p :
  holds d (sanitizeKey key) ms -> 0 <= skip_of d (sanitizeKey key) <= Z.of_nat (length ms) ->
  forall d', bytes_of d' (sanitizeKey key) = flat_map encode_line ms ++ p ->
  skip_of d' (sanitizeKey key) = skip_of d (sanitizeKey key) ->
  existsb too_long (raw_lines [] p) = false ->
  GetHistory d' key = Ok (map persisted (drop (Z.to_nat (skip_of d (sanitizeKey key))) ms) ++
    omap Unmarshal (List.filter (fun l => negb (is_nil l)) (map drop_cr (raw_lines [] p)))).
Proof.
  intros [HB HS] Hk d' Hb' Hs' Hl. unfold GetHistory. rewrite Hb', readMeta_skip, Hs'.
  replace (skip_of d (sanitizeKey key)) with (Z.of_nat (Z.to_nat (skip_of d (sanitizeKey key)))) at 1 by lia.
  rewrite readMessages_app by (done || lia). by rewrite Hl.
Qed.

(** ** Properties *)

(** C8: when no line of the files is torn by an earlier crash and the messages
    are below the limit for a line: after a crash at any point of adding a
    message the session holds its history as it was, or with the new message,
    and nothing else; sessions with other file names are not touched. *)
Theorem addMsg_crash now d d' key msg h :
  sane_disk d -> small msg -> GetHistory d key = Ok h -> crash d (addMsg now d key msg) d' ->
  (GetHistory d' key = Ok h \/ GetHistory d' key = Ok (h ++ [persisted msg])) /\
  forall other, sanitizeKey other <> sanitizeKey key -> GetHistory d' other = GetHistory d other.
Proof.
  intros HD Hm Hh HC. destruct (HD (sanitizeKey key)) as (ms & HB & Hk).
  rewrite (GetHistory_holds _ _ _ HB) in Hh. injection Hh as <-.
  assert (HF : forall p, bytes_of (exec d (AppendLine (sanitizeKey key) p)) (sanitizeKey key) =
    flat_map encode_line ms ++ p).
  { intros p. cbn [exec]. by rewrite bytes_of_insert, decide_True, (proj1 HB). }
  assert (HN : forall p x, Marshal msg ++ [newline_byte] = p ++ x -> forall d1,
    bytes_of d1 (sanitizeKey key) = flat_map encode_line ms ++ p ->
    skip_of d1 (sanitizeKey key) = skip_of d (sanitizeKey key) ->
    GetHistory d1 key = Ok (map persisted (drop (Z.to_nat (skip_of d (sanitizeKey key))) ms)) \/
    GetHistory d1 key = Ok (map persisted (drop (Z.to_nat (skip_of d (sanitizeKey key))) ms) ++ [persisted msg])).
  { intros p x E d1 Hb1 Hs1. destruct (torn_line msg p x E Hm) as (Hl & [[Hn _] | Hn]);
      rewrite (history_after_append d key ms p HB Hk d1 Hb1 Hs1 Hl), Hn; [left | by right].
    by rewrite app_nil_r. }
  assert (HO : forall es other, sanitizeKey other <> sanitizeKey key ->
    Forall (fun e => match e with AppendLine x _ | WriteMeta x _ | RewriteLines x _ => x = sanitizeKey key end) es ->
    GetHistory (exec_all d es) other = GetHistory d other).
  { intros es other Hne HFo.
    destruct (exec_all_frame d es (sanitizeKey other) (sanitizeKey key) (not_eq_sym Hne) HFo) as [E1 E2].
    unfold GetHistory, readMeta. by rewrite E1, E2. }
  unfold addMsg in HC. inversion HC as [|? ? ? ? HC2|? ? ? p q ? E]; subst.
  - split; [left; by apply GetHistory_holds | done].
  - inversion HC2 as [|? ? ? ? HC3|]; subst.
    + split; [|intros other Hne; apply (HO [AppendLine (sanitizeKey key) (encode_line msg)]); [done|]].
      * eapply (HN _ []); [by rewrite app_nil_r | apply HF | done].
      * by repeat constructor.
    + inversion HC3; subst. split.
      * eapply (HN _ []); [by rewrite app_nil_r | apply HF |]. cbn [exec].
        rewrite skip_of_insert, decide_True by done. cbn [Skip]. by rewrite readMeta_skip.
      * intros other Hne. eapply (HO [AppendLine (sanitizeKey key) (encode_line msg);
          WriteMeta (sanitizeKey key) _]); [done | by repeat constructor].
  - split; [|intros other Hne; apply (HO [AppendLine (sanitizeKey key) p]); [done | by repeat constructor]].
    eapply (HN p q); [exact E | apply HF | done].
Qed.

(** The line that a crash leaves torn is not closed by the next append:
    the next message added to the session is written behind it, on the same
    line, and is lost although the operation succeeds. *)
Theorem append_after_crash_lost now now' d key m m2 p q h :
  sane_disk d -> GetHistory d key = Ok h ->
  Marshal m = p ++ q -> p <> [] -> q <> [] ->
  Z.of_nat (length p + length (Marshal m2)) < maxLineSize ->
  exists d1, crash d (addMsg now d key m) d1 /\ GetHistory (run_add now' d1 key m2) key = Ok h.
Proof.
  intros HD Hh E Hp Hq Hlen. destruct (HD (sanitizeKey key)) as (ms & HB & Hk).
  rewrite (GetHistory_holds _ _ _ HB) in Hh. injection Hh as <-.
  exists (exec d (AppendLine (sanitizeKey key) p)). split.
  { unfold addMsg. eapply crash_torn with (q := q ++ [newline_byte]).
    unfold encode_line. by rewrite E, <- app_assoc. }
  destruct (marshal_line m2) as (Hne & Hnl & Hcr).
  destruct (marshal_line m) as (_ & Hnl1 & _).
  assert (Hline : newline_byte ∉ p ++ Marshal m2).
  { rewrite not_elem_of_app. split; [|done]. intros Hin. apply Hnl1. rewrite E. apply elem_of_app. by left. }
  assert (ER : raw_lines [] (p ++ encode_line m2) = [p ++ Marshal m2]).
  { unfold encode_line. rewrite app_assoc. by rewrite raw_lines_line. }
  rewrite (history_after_append d key ms (p ++ encode_line m2) HB Hk).
  - rewrite ER. cbn [map List.filter]. rewrite drop_cr_id.
    + destruct (p ++ Marshal m2) as [|c l] eqn:Ec; [by apply app_nil in Ec as [-> ?]|].
      cbn [is_nil negb]. rewrite <- Ec. cbn. rewrite (marshal_torn m m2 p q) by done.
      by rewrite app_nil_r.
    + rewrite last_app. by destruct (last (Marshal m2)) eqn:El; [|apply last_None in El].
  - unfold run_add, exec_all, addMsg. cbn [fold_left exec lines metas].
    rewrite bytes_of_insert, decide_True by done. rewrite bytes_of_insert, decide_True by done.
    by rewrite (proj1 HB), <- app_assoc.
  - unfold run_add, exec_all, addMsg. cbn [fold_left exec lines metas].
    rewrite skip_of_insert, decide_True by done. cbn [Skip]. by rewrite readMeta_skip.
  - rewrite ER. cbn [existsb]. rewrite orb_false_r. unfold too_long. apply Z.leb_gt. by rewrite length_app.
Qed.

(** What the two rewriting operations leave in the session after a crash. *)
Lemma rewrite_crash d d' key ms meta new :
  holds d (sanitizeKey key) ms -> Skip meta = 0 -> Forall small new ->
  crash d [WriteMeta (sanitizeKey key) meta; rewriteJSONL key new] d' ->
  GetHistory d' key = GetHistory d key \/ GetHistory d' key = Ok (map persisted ms) \/
  GetHistory d' key = Ok (map persisted new).
Proof.
  intros HB Hsk HS HC.
  assert (Hmeta : forall x, skip_of (mkDisk x (<[sanitizeKey key := meta]> (metas d))) (sanitizeKey key) = 0)
    by (intros x; by rewrite skip_of_insert, decide_True).
  inversion HC as [|? ? ? ? HC2|]; subst; [by left|].
  inversion HC2 as [|? ? ? ? HC3|]; subst.
  - right; left. rewrite (GetHistory_holds _ _ ms) by apply HB. cbn [exec]. by rewrite Hmeta.
  - inversion HC3; subst. right; right. rewrite (GetHistory_holds _ _ new).
    + unfold rewriteJSONL. cbn [exec metas]. by rewrite Hmeta.
    + split; [|done]. unfold rewriteJSONL. cbn [exec lines]. by rewrite bytes_of_insert, decide_True.
Qed.

Lemma Compact_effects now d key ms es :
  holds d (sanitizeKey key) ms -> Compact now d key = Ok es ->
  (es = [] /\ skip_of d (sanitizeKey key) = 0) \/
  exists meta, Skip meta = 0 /\
    es = [WriteMeta (sanitizeKey key) meta;
          rewriteJSONL key (map persisted (drop (Z.to_nat (skip_of d (sanitizeKey key))) ms))].
Proof.
  intros [HB HS]. unfold Compact. rewrite readMeta_skip.
  destruct (Z.eqb_spec (skip_of d (sanitizeKey key)) 0); [intros; simplify_eq; by left|].
  rewrite HB, readMessages_holds by done. cbn [result_bind]. intros; simplify_eq. right.
  eexists. split; [|done]. done.
Qed.

(** Compaction keeps the history of the session; a crash during a
    compaction or a replacement of the history leaves a history that ends
    with the old one, or the new history: no message is lost. *)
Theorem rewrites_keep_history now d d' key h new :
  sane_disk d -> GetHistory d key = Ok h -> Forall small new ->
  (crash d (SetHistory now d key new) d' ->
     exists h', GetHistory d' key = Ok h' /\ (h' = map persisted new \/ h `suffix_of` h')) /\
  (forall es, Compact now d key = Ok es ->
     GetHistory (exec_all d es) key = Ok h /\
     (crash d es d' -> exists h', GetHistory d' key = Ok h' /\ h `suffix_of` h')).
Proof.
  intros HD Hh HS. destruct (HD (sanitizeKey key)) as (ms & HB & Hk).
  pose proof Hh as Hh0. rewrite (GetHistory_holds _ _ _ HB) in Hh. injection Hh as Hh.
  set (k := Z.to_nat (skip_of d (sanitizeKey key))) in *.
  assert (Hsuf : h `suffix_of` map persisted ms).
  { exists (map persisted (take k ms)). by rewrite <- Hh, <- map_app, take_drop. }
  assert (Hidem : map persisted h = h).
  { rewrite <- Hh, map_map. apply map_ext, persisted_idem. }
  assert (Hsm : Forall small h).
  { rewrite <- Hh. apply Forall_map. eapply Forall_impl; [apply Forall_drop, HB | apply small_persisted]. }
  split.
  - intros HC. unfold SetHistory in HC.
    eapply rewrite_crash in HC as [E | [E | E]]; [| | | exact HB | done | exact HS].
    + exists h. split; [congruence | by right].
    + eexists. split; [exact E | by right].
    + eexists. split; [exact E | by left].
  - intros es HE. destruct (Compact_effects _ _ _ _ _ HB HE) as [[-> _] | (meta & Hsk & ->)].
    + split; [done|]. intros HC. inversion HC as [? ? E1 E2 E3| |].
      exists h. split; [by rewrite <- E3 | done].
    + fold k. rewrite Hh. split.
      * unfold exec_all, rewriteJSONL. cbn [fold_left exec lines metas].
        rewrite (GetHistory_holds _ _ h).
        -- rewrite skip_of_insert, decide_True, Hsk by done. change (drop (Z.to_nat 0) h) with h. by rewrite Hidem.
        -- split; [|done]. by rewrite bytes_of_insert, decide_True.
      * intros HC. destruct (rewrite_crash _ _ _ _ _ _ HB Hsk Hsm HC) as [E | [E | E]].
        -- exists h. by split; [congruence|].
        -- eexists. by split; [exact E|].
        -- eexists. split; [exact E|]. by rewrite Hidem.
Qed.

(** A message whose line does not fit in the scanner's buffer makes the whole
    history of its session unreadable. *)
Lemma oversized_message_hides_history now d key m :
  sane_disk d -> maxLineSize <= Z.of_nat (length (Marshal m)) ->
  GetHistory (run_add now d key m) key = Err tt.
Proof.
  intros HD Hm. destruct (HD (sanitizeKey key)) as (ms & [HB HS] & Hk).
  unfold GetHistory. rewrite readMeta_skip.
  assert (Eb : bytes_of (run_add now d key m) (sanitizeKey key) = flat_map encode_line ms ++ encode_line m).
  { unfold run_add, exec_all, addMsg. cbn [fold_left exec lines metas].
    by rewrite bytes_of_insert, decide_True, HB. }
  rewrite Eb. unfold readMessages, scan_lines. rewrite raw_lines_app, existsb_app.
  unfold encode_line at 1. rewrite raw_lines_line by apply marshal_line. cbn [existsb].
  assert (E : too_long (rev [] ++ Marshal m) = true) by (apply Z.leb_le; exact Hm).
  by rewrite E, orb_true_r.
Qed.
End Crash.

(** ** A codec

    Messages in binary between braces: the laws of the class hold for it. *)

#[global] Instance FunctionCall_countable : Countable FunctionCall.
Proof.
  refine (inj_countable' (fun f => (FnName f, FnArguments f, FnThoughtSignature f))
    (fun '(a, b, c) => mkFunctionCall a b c) _). by intros [].
Defined.

#[global] Instance ToolCall_countable : Countable ToolCall.
Proof.
  refine (inj_countable' (fun c => (CallID c, CallType c, Function c, CallName c, CallThoughtSignature c, CallExtra c))
    (fun '(a, b, c, d, e, f) => mkToolCall a b c d e f) _). by intros [].
Defined.

#[global] Instance ContentBlock_countable : Countable ContentBlock.
Proof.
  refine (inj_countable' (fun b => (BlockType b, Text b, CacheControl b))
    (fun '(a, b, c) => mkContentBlock a b c) _). by intros [].
Defined.

#[global] Instance Message_countable : Countable Message.
Proof.
  refine (inj_countable' (fun m => (Role m, Content m, Media m, ReasoningContent m, SystemParts m, ToolCalls m, ToolCallID m))
    (fun '(a, b, c, d, e, f, g) => mkMessage a b c d e f g) _). by intros [].
Defined.

Module BinaryCodec.
Fixpoint bits (p : positive) : list ascii :=
  match p with
  | xH => []
  | xO q => "0"%char :: bits q
  | xI q => "1"%char :: bits q
  end.

(** The digits up to the closing brace, which must be the last byte. *)
Fixpoint parse (l : list ascii) : option positive :=
  match l with
  | [] => None
  | c :: l' =>
      if Ascii.eqb c "}" then match l' with [] => Some xH | _ => None end
      else if Ascii.eqb c "0" then xO <$> parse l'
      else if Ascii.eqb c "1" then xI <$> parse l'
      else None
  end.

Definition marshal (m : Message) : list ascii := "{"%char :: bits (encode m) ++ ["}"%char].
Definition unmarshal (l : list ascii) : option Message :=
  match l with
  | c :: l' => if Ascii.eqb c "{" then parse l' ≫= decode else None
  | [] => None
  end.

Definition bit (c : ascii) : Prop := c = "0"%char \/ c = "1"%char.

Lemma bits_bit p : Forall bit (bits p).
Proof. unfold bit. induction p; constructor; auto. Qed.

Lemma parse_bits p : parse (bits p ++ ["}"%char]) = Some p.
Proof. induction p as [p IH|p IH|]; simpl; by rewrite ?IH. Qed.

(** Without a closing brace behind the digits nothing is parsed. *)
Lemma parse_prefix l : Forall bit l -> parse l = None.
Proof. induction 1 as [|c l [-> | ->] _ IH]; simpl; by rewrite ?IH. Qed.

Lemma parse_brace l k : Forall bit l -> parse (l ++ "{"%char :: k) = None.
Proof. induction 1 as [|c l [-> | ->] _ IH]; simpl; by rewrite ?IH. Qed.

(** A proper prefix of an encoding. *)
Lemma prefix_bits m p q :
  marshal m = p ++ q -> q <> [] -> p = [] \/ exists l, p = "{"%char :: l /\ Forall bit l.
Proof.
  intros E Hq. destruct p as [|c l]; [by left|]. right. unfold marshal in E. injection E as <- E.
  exists l. split; [done|]. destruct q as [|z q] using rev_ind; [done|].
  rewrite app_assoc in E. apply app_inj_tail in E as [E _]. pose proof (bits_bit (encode m)) as HF.
  rewrite E in HF. by apply Forall_app in HF as [? _].
Qed.

#[global] Instance codec : MessageCodec.
Proof.
  refine {| Marshal := marshal; Unmarshal := unmarshal; persisted m := m |}.
  - intros m. unfold marshal, unmarshal. simpl. rewrite parse_bits. apply decode_encode.
  - done.
  - done.
  - intros m. split_and!; [done | |].
    + intros Hin. unfold marshal in Hin. rewrite elem_of_cons, elem_of_app, list_elem_of_singleton in Hin.
      destruct Hin as [? | [Hin | ?]]; [done | | done].
      pose proof (bits_bit (encode m)) as HF. by eapply Forall_forall in HF as [? | ?]; [| |exact Hin].
    + unfold marshal. rewrite app_comm_cons, last_snoc. done.
  - intros m p q E Hq. destruct (prefix_bits m p q E Hq) as [-> | (l & -> & HF)]; [done|].
    simpl. by rewrite parse_prefix.
  - intros m m' p q E Hp Hq. destruct (prefix_bits m p q E Hq) as [-> | (l & -> & HF)]; [done|].
    assert (EP : parse (l ++ marshal m') = None) by (unfold marshal; by apply parse_brace).
    simpl. by rewrite EP.
Defined.
End BinaryCodec.

(** *** The properties at a concrete session *)

Definition empty_disk : disk := mkDisk ∅ ∅.

Lemma empty_disk_sane : sane_disk empty_disk.
Proof.
  intros name. exists []. unfold holds, bytes_of, skip_of, empty_disk. simpl.
  rewrite !lookup_empty. split; [split; [done | constructor] | lia].
Qed.

Definition hi : Message := text_message "user" "hi".

Lemma hi_small : small hi.
Proof. vm_compute. reflexivity. Qed.

Definition torn_disk : disk := exec empty_disk (AppendLine (sanitizeKey "s") ["{"%char]).

Lemma torn_disk_crash : crash empty_disk (addMsg 5 empty_disk "s" hi) torn_disk.
Proof. eapply crash_torn. reflexivity. Qed.

Lemma addMsg_crash_witness :
  GetHistory torn_disk "s" = Ok [] \/ GetHistory torn_disk "s" = Ok ([] ++ [hi]).
Proof.
  refine (proj1 (addMsg_crash 5 empty_disk torn_disk "s" hi [] empty_disk_sane hi_small _ torn_disk_crash)).
  vm_compute. reflexivity.
Defined.

Lemma append_after_crash_lost_witness :
  exists d1, crash empty_disk (addMsg 5 empty_disk "s" hi) d1 /\ GetHistory (run_add 6 d1 "s" hi) "s" = Ok [].
Proof.
  refine (append_after_crash_lost 5 6 empty_disk "s" hi hi ["{"%char] _ [] empty_disk_sane _ eq_refl _ _ _).
  - vm_compute. reflexivity.
  - discriminate.
  - discriminate.
  - vm_compute. reflexivity.
Defined.

(** A session with two messages, the first of which is skipped. *)
Definition two_disk : disk := run_truncate 7 (run_add 6 (run_add 5 empty_disk "s" hi) "s" hi) "s" 1.

Lemma two_disk_sane : sane_disk two_disk.
Proof. apply sane_run_truncate, sane_run_add, hi_small. apply sane_run_add, hi_small. apply empty_disk_sane. Qed.

Lemma two_disk_history : GetHistory two_disk "s" = Ok [hi].
Proof. vm_compute. reflexivity. Qed.

Lemma rewrites_keep_history_witness :
  exists es, Compact 8 two_disk "s" = Ok es /\ es <> [] /\ GetHistory (exec_all two_disk es) "s" = Ok [hi].
Proof.
  eexists. split; [vm_compute; reflexivity|]. split; [discriminate|].
  refine (proj1 (proj2 (rewrites_keep_history 8 two_disk two_disk "s" [hi] [] two_disk_sane two_disk_history
    (Forall_nil_2 _)) _ _)).
  vm_compute. reflexivity.
Defined.
