(* ===== verification/ContextManager.v ===== *)
(** * Context managers: [src/pkg/agent/context_manager.go]

    What the agent loop asks of a strategy for long conversations. The
    session stores of all agents, by the identifier of the agent, are beside
    the state [C] of the manager, because one strategy keeps nothing of its
    own. The number is the time of the call. *)

From S2P Require Import Prelude Message Session.

Inductive CompressReason : Type := ReasonProactive | ReasonRetry | ReasonSummarize.

(** An error, a panic, or a value. *)
Inductive outcome (A : Type) : Type := Fine (a : A) | Failing | Panicking.
Arguments Fine {A} a.
Arguments Failing {A}.
Arguments Panicking {A}.

Abbreviation Stores S := (string -> S).

Class ContextManager (S C : Type) := {
  Assemble : nat -> Stores S -> C -> string -> Z -> Z -> C * outcome (list Message * string);
  Compact : nat -> Stores S -> C -> string -> CompressReason -> Z -> Stores S * C;
  Ingest : nat -> Stores S -> C -> string -> Message -> C * outcome unit
}.

(** One store changes. *)
Definition store_at {S : Type} (agent : string) (s : S) (ss : Stores S) : Stores S :=
  fun a => if String.eqb a agent then s else ss a.

Lemma store_at_same {S : Type} agent (s : S) ss : store_at agent s ss agent = s.
Proof. unfold store_at. by rewrite String.eqb_refl. Qed.

Lemma store_at_other {S : Type} agent a (s : S) ss : a <> agent -> store_at agent s ss a = ss a.
Proof. intros Hne. unfold store_at. by destruct (String.eqb_spec a agent). Qed.

#[export] Hint Rewrite @store_at_same : go.
