(* ===== verification/LegacyContext.v ===== *)
(** * Compression and summarisation: [src/pkg/agent/context_legacy.go]

    The legacy context manager over any session store. A call of the model is
    the function [Chat] of the number of the call and the prompt; the number
    is threaded. [summarizeSession] runs in a goroutine: its reads
    ([summary_plan]) and its writes ([apply_summary]) are separate steps, and
    the session may change in between. Event emission, logging and the sleeps
    between attempts are left out. *)

From S2P Require Import Prelude GoStrings GoLib.
Import Utf8.
From S2P Require Import Message ContextBudget Session.

(** ** Data *)

(** The fields of [AgentInstance] that are read. *)
Record Agent : Type := mkAgent {
  AgentID : string;
  ContextWindow : Z;
  SummarizeMessageThreshold : Z;
  SummarizeTokenPercent : Z
}.

Record compressionResult : Type := mkCompressionResult { DroppedMessages : Z; RemainingMessages : Z }.

(** What [Provider.Chat] returns: an error, no response, or a response. *)
Inductive reply : Type := Failed | NoResponse | Response (content : string).

Section Manager.
Context {S : Type} `{SessionStore S} (Chat : nat -> string -> reply).

(** ** Emergency compression *)

Definition is_role (role : string) (msg : Message) : bool := String.eqb (Role msg) role.

(** The loop from the end for the last message with the role [user]. *)
Definition last_user (history : list Message) : list Message :=
  match find_first (is_role "user") (rev history) with Some msg => [msg] | None => [] end.

Definition compression_mid (history : list Message) : Z :=
  let turns := parseTurnBoundaries history in
  if (2 <=? length turns)%nat then default 0 (turns !! (length turns / 2)%nat)
  else findSafeBoundary history (Z.quot (Z.of_nat (length history)) 2).

Definition compressed (history : list Message) : list Message :=
  let mid := compression_mid history in
  if mid <=? 0 then last_user history else drop (Z.to_nat mid) history.

Definition compression_note (existingSummary : string) (droppedCount : Z) : string :=
  let note := "[Emergency compression dropped " +:+ itoa droppedCount
              +:+ " oldest messages due to context limit]" in
  if String.eqb existingSummary "" then note else existingSummary +:+ nl +:+ nl +:+ note.

Definition forceCompression (now : time) (s : S) (sessionKey : string) : S * option compressionResult :=
  let history := GetHistory s sessionKey in
  if Z.of_nat (length history) <=? 2 then (s, None)
  else
    let keptHistory := compressed history in
    let droppedCount := Z.of_nat (length history) - Z.of_nat (length keptHistory) in
    let s := SetSummary now s sessionKey (compression_note (GetSummary s sessionKey) droppedCount) in
    let s := SetHistory now s sessionKey keptHistory in
    let s := Save now s sessionKey in
    (s, Some (mkCompressionResult droppedCount (Z.of_nat (length keptHistory)))).

(** ** Calls of the model *)

Definition llmMaxRetries : nat := 3.

(** The last reply of at most [n] attempts, the first usable one at best. *)
Fixpoint retryLLMCall (n : nat) (call : nat) (prompt : string) : nat * reply :=
  match n with
  | O => (call, NoResponse)
  | Datatypes.S n' =>
      let r := Chat call prompt in
      let usable := match r with Response c => negb (String.eqb c "") | _ => false end in
      if usable then (Datatypes.S call, r)
      else match n' with
           | O => (Datatypes.S call, r)
           | _ => retryLLMCall n' (Datatypes.S call) prompt
           end
  end.

Definition batch_prompt (batch : list Message) (existingSummary : string) : string :=
  "Provide a concise summary of this conversation segment, preserving core context and key points."
  +:+ nl
  +:+ (if String.eqb existingSummary "" then ""
       else "Existing context: " +:+ existingSummary +:+ nl)
  +:+ nl +:+ "CONVERSATION:" +:+ nl
  +:+ fold_right (fun msg acc => Role msg +:+ ": " +:+ Content msg +:+ nl +:+ acc) "" batch.

Definition fallbackMinContentLength : Z := 200.
Definition fallbackMaxContentPercent : Z := 10.

Definition fallback_entry (msg : Message) : string :=
  let content := TrimSpace (Content msg) in
  let rs := runes content in
  let n := Z.of_nat (length rs) in
  if n =? 0 then Role msg +:+ ": "
  else
    let keepLength := Z.quot (n * fallbackMaxContentPercent) 100 in
    let keepLength := if keepLength <? fallbackMinContentLength then fallbackMinContentLength else keepLength in
    let keepLength := if n <? keepLength then n else keepLength in
    let content := string_of_runes (take (Z.to_nat keepLength) rs) in
    let content := if keepLength <? n then content +:+ "..." else content in
    Role msg +:+ ": " +:+ content.

Definition fallback_summary (batch : list Message) : string :=
  "Conversation summary: " +:+ join " | " (map fallback_entry batch).

(** [None] is the panic of a dereferenced nil response. *)
Definition summarizeBatch (call : nat) (batch : list Message) (existingSummary : string) :
    nat * option string :=
  let '(call, r) := retryLLMCall llmMaxRetries call (batch_prompt batch existingSummary) in
  match r with
  | Failed => (call, Some (fallback_summary batch))
  | NoResponse => (call, None)
  | Response c => (call, Some (if String.eqb c "" then fallback_summary batch else TrimSpace c))
  end.

(** ** Summarisation *)

(** The two scans from [mid]; [messages[mid]] is in range for a non-empty list. *)
Fixpoint scan_back (messages : list Message) (mid : nat) : nat :=
  match mid with
  | O => O
  | Datatypes.S k =>
      if match messages !! mid with Some m => is_role "user" m | None => false end then mid
      else scan_back messages k
  end.

Fixpoint scan_forward (messages : list Message) (mid n : nat) : nat :=
  match n with
  | O => mid
  | Datatypes.S k =>
      if match messages !! mid with Some m => is_role "user" m | None => false end then mid
      else scan_forward messages (Datatypes.S mid) k
  end.

Definition findNearestUserMessage (messages : list Message) (mid : nat) : nat :=
  let back := scan_back messages mid in
  if match messages !! back with Some m => is_role "user" m | None => false end then back
  else
    let forward := scan_forward messages mid (length messages - mid) in
    if (forward <? length messages)%nat then forward else mid.

Definition oversized (agent : Agent) (msg : Message) : bool :=
  Z.quot (ContextWindow agent) 2 <? Z.quot (len (Content msg)) 2.

Definition summarizable (msg : Message) : bool := is_role "user" msg || is_role "assistant" msg.

Definition maxSummarizationMessages : nat := 10.

Definition merge_prompt (s1 s2 : string) : string :=
  "Merge these two conversation summaries into one cohesive summary:" +:+ nl +:+ nl
  +:+ "1: " +:+ s1 +:+ nl +:+ nl +:+ "2: " +:+ s2.

Definition final_summary (call : nat) (validMessages : list Message) (summary : string) : option string :=
  if (maxSummarizationMessages <? length validMessages)%nat then
    let mid := findNearestUserMessage validMessages (length validMessages / 2)%nat in
    match summarizeBatch call (take mid validMessages) "" with
    | (_, None) => None
    | (call, Some s1) =>
        match summarizeBatch call (drop mid validMessages) "" with
        | (_, None) => None
        | (call, Some s2) =>
            match retryLLMCall llmMaxRetries call (merge_prompt s1 s2) with
            | (_, Failed) => Some (s1 +:+ " " +:+ s2)
            | (_, NoResponse) => None
            | (_, Response c) => Some (if String.eqb c "" then s1 +:+ " " +:+ s2 else c)
            end
        end
    end
  else snd (summarizeBatch call validMessages summary).

Definition omitted_note : string :=
  nl +:+ "[Note: Some oversized messages were omitted from this summary for efficiency.]".

(** What the goroutine computes from the session it reads: the new summary
    and the number of messages to keep, if it gets that far. *)
Definition summary_plan (agent : Agent) (call : nat) (s : S) (sessionKey : string) :
    option (string * Z) :=
  let history := GetHistory s sessionKey in
  let summary := GetSummary s sessionKey in
  let n := Z.of_nat (length history) in
  if n <=? 4 then None
  else
    let safeCut := findSafeBoundary history (n - 4) in
    if safeCut <=? 0 then None
    else
      let toSummarize := take (Z.to_nat safeCut) history in
      let chosen := List.filter summarizable toSummarize in
      let omitted := existsb (oversized agent) chosen in
      let validMessages := List.filter (fun m => negb (oversized agent m)) chosen in
      match validMessages with
      | [] => None
      | _ =>
          match final_summary call validMessages summary with
          | None => None
          | Some final =>
              let final := if omitted && negb (String.eqb final "") then final +:+ omitted_note else final in
              if String.eqb final "" then None else Some (final, n - safeCut)
          end
      end.

Definition apply_summary (now : time) (s : S) (sessionKey : string) (plan : option (string * Z)) : S :=
  match plan with
  | None => s
  | Some (finalSummary, keepCount) =>
      let s := SetSummary now s sessionKey finalSummary in
      let s := TruncateHistory now s sessionKey keepCount in
      Save now s sessionKey
  end.

(** [summarizeSession] when nothing happens while the model is called. *)
Definition summarizeSession (agent : Agent) (now : time) (call : nat) (s : S) (sessionKey : string) : S :=
  apply_summary now s sessionKey (summary_plan agent call s sessionKey).

(** Whether [maybeSummarize] starts the goroutine; [summarizing] is the set of
    keys of those that run. *)
Definition estimateTokens (messages : list Message) : Z := sum_over EstimateMessageTokens messages.

Definition maybeSummarize (agent : Agent) (summarizing : gset string) (s : S) (sessionKey : string) :
    gset string * bool :=
  let newHistory := GetHistory s sessionKey in
  let threshold := Z.quot (ContextWindow agent * SummarizeTokenPercent agent) 100 in
  if (SummarizeMessageThreshold agent <? Z.of_nat (length newHistory)) ||
     (threshold <? estimateTokens newHistory)
  then
    let summarizeKey := AgentID agent +:+ ":" +:+ sessionKey in
    if decide (summarizeKey ∈ summarizing) then (summarizing, false)
    else ({[summarizeKey]} ∪ summarizing, true)
  else (summarizing, false).
End Manager.

(** ** Lemmas *)

Lemma last_user_spec history :
  last_user history = [] \/ exists m, last_user history = [m] /\ m ∈ history /\ Role m = "user".
Proof.
  unfold last_user. destruct (find_first _ (rev history)) as [m|] eqn:E; [right | by left].
  pose proof (find_first_elem _ _ _ E) as Hin. apply find_first_Some in E as [Hm _].
  exists m. split_and!; [done | | by apply String.eqb_eq].
  apply list_elem_of_In. by apply list_elem_of_In, in_rev in Hin.
Qed.

Lemma compression_mid_boundary history :
  (2 < length history)%nat ->
  (compression_mid history = 0) \/ (0 < compression_mid history < Z.of_nat (length history) /\
   ((exists b, boundary history b) -> boundary history (compression_mid history))).
Proof.
  intros Hn. unfold compression_mid.
  destruct (turn_starts_sorted 0 history) as [HS _].
  pose proof (parseTurnBoundaries_spec history) as HP. unfold parseTurnBoundaries in *.
  destruct (Nat.leb_spec 2 (length (turn_starts 0 history))) as [Hl|Hl].
  - right. destruct (lookup_lt_is_Some_2 (turn_starts 0 history) (length (turn_starts 0 history) / 2)) as [t Ht].
    { apply Nat.div_lt; lia. }
    rewrite Ht. simpl. assert (Hb : boundary history t) by (apply HP; by eapply list_elem_of_lookup_2).
    split; [|done]. split; [|apply Hb].
    destruct (turn_starts 0 history) as [|t0 ts] eqn:E; [done|].
    assert (H0 : boundary history t0) by (apply HP; by left).
    destruct (length (t0 :: ts) / 2)%nat as [|j] eqn:Ej.
    { pose proof (Nat.Div0.div_le_mono 2 (length (t0 :: ts)) 2 Hl). rewrite Ej in *. simpl in *. lia. }
    inversion HS as [|? ? _ HF]; subst. simpl in Ht.
    apply list_elem_of_lookup_2 in Ht. eapply Forall_forall in HF; [|exact Ht]. destruct H0. lia.
  - assert (Ht : 0 < Z.quot (Z.of_nat (length history)) 2 < Z.of_nat (length history)).
    { rewrite Z.quot_div_nonneg by lia. pose proof (Z.div_mod (Z.of_nat (length history)) 2).
      pose proof (Z.mod_pos_bound (Z.of_nat (length history)) 2). lia. }
    destruct (findSafeBoundary_cases history _ Ht) as [[Hno ->] | [(Hb & Hr & _) | [(_ & Hb & Hr & _) | (_ & _ & ->)]]].
    + right. split; [lia|]. intros (b & Hb). by destruct (Hno b).
    + right. split; [|done]. split; [lia|]. apply Hb.
    + right. split; [|done]. split; [lia|]. apply Hb.
    + by left.
Qed.

Lemma compressed_sub history : Forall (fun m => m ∈ history) (compressed history).
Proof.
  unfold compressed. apply Forall_forall. intros m Hm. case_match.
  - destruct (last_user_spec history) as [E | (u & E & Hu & _)]; rewrite E in Hm.
    + by apply elem_of_nil in Hm.
    + by apply list_elem_of_singleton in Hm as ->.
  - eapply elem_of_submseteq; [exact Hm|]. apply sublist_submseteq, sublist_drop.
Qed.

Lemma paired_single m : is_user m = true \/ Role m = "user" -> paired [m].
Proof.
  intros Hm j msg Hj Ht. destruct j as [|j]; [|done]. injection Hj as <-. unfold tool_result in Ht.
  destruct Hm as [Hm | Hm]; [unfold is_user in Hm; by rewrite Ht in Hm | congruence].
Qed.

Lemma compressed_paired history :
  (2 < length history)%nat -> paired history -> (exists b, boundary history b) -> paired (compressed history).
Proof.
  intros Hn HP HB. unfold compressed.
  destruct (compression_mid_boundary history Hn) as [-> | [Hr Hb]].
  - simpl. destruct (last_user_spec history) as [-> | (m & -> & _ & Hm)]; [by intros j ? Hj|].
    apply paired_single. by right.
  - destruct (Z.leb_spec (compression_mid history) 0); [lia|].
    apply paired_drop; [done|]. right; right. by apply boundary_user, Hb.
Qed.

Lemma compressed_shorter history :
  (2 < length history)%nat -> (length (compressed history) < length history)%nat.
Proof.
  intros Hn. unfold compressed. destruct (compression_mid_boundary history Hn) as [-> | [Hr _]].
  - simpl. destruct (last_user_spec history) as [-> | (m & -> & _)]; simpl; lia.
  - destruct (Z.leb_spec (compression_mid history) 0); [lia|]. rewrite length_drop. lia.
Qed.

Section Sessions.
Context {S : Type} `{SessionStore S} (Chat : nat -> string -> reply).

(** A selection of the messages of a history is stored unchanged. *)
Lemma stored_sub s k l :
  sane s -> Forall (fun m => m ∈ GetHistory s k) l -> map stored l = l /\ Forall acceptable l.
Proof.
  intros Hs HF. pose proof (history_stored s k Hs) as HSt. pose proof (history_acceptable s k Hs) as HA.
  assert (Hid : Forall (fun m => stored m = m) (GetHistory s k)).
  { generalize dependent (GetHistory s k). intros h _ HSt _. induction h as [|m h IH]; [done|].
    simpl in HSt. injection HSt as H1 H2. constructor; [done | by apply IH]. }
  split.
  - induction HF as [|m l Hm _ IH]; [done|]. simpl. rewrite IH. f_equal.
    by eapply Forall_forall in Hid.
  - eapply Forall_impl; [exact HF|]. intros m Hm. by eapply Forall_forall in HA.
Qed.

(** The history and the summary after [apply_summary]. *)
Lemma apply_summary_spec now s k f keep :
  sane s -> known s k ->
  let s' := apply_summary now s k (Some (f, keep)) in
  sane s' /\ GetHistory s' k = truncated keep (GetHistory s k) /\ GetSummary s' k = f.
Proof.
  intros Hs Hk. cbv zeta. unfold apply_summary.
  assert (Hs1 := sane_summary now s k f Hs). assert (Hs2 := sane_truncate now _ k keep Hs1).
  split_and!; [by apply sane_save | |].
  - by rewrite history_save, history_truncate, history_summary.
  - by rewrite summary_save, summary_truncate, summary_set.
Qed.

Lemma summary_plan_some agent call s k f keep :
  summary_plan Chat agent call s k = Some (f, keep) ->
  let h := GetHistory s k in let cut := findSafeBoundary h (Z.of_nat (length h) - 4) in
  f <> "" /\ keep = Z.of_nat (length h) - cut /\ 0 < cut < Z.of_nat (length h) /\ h <> [] /\
  4 < Z.of_nat (length h).
Proof.
  unfold summary_plan. intros HP. cbv zeta. set (h := GetHistory s k) in *.
  destruct (Z.leb_spec (Z.of_nat (length h)) 4); [done|].
  set (cut := findSafeBoundary h (Z.of_nat (length h) - 4)) in *.
  destruct (Z.leb_spec cut 0); [done|].
  assert (Hc : cut < Z.of_nat (length h)).
  { subst cut. destruct (findSafeBoundary_cases h (Z.of_nat (length h) - 4)) as
      [[_ ->] | [(Hb & Hr & _) | [(_ & [? _] & _) | (_ & _ & ->)]]]; lia. }
  destruct (List.filter _ (List.filter _ _)); [done|].
  destruct (final_summary _ _ _ _) as [fs|]; [|done].
  destruct (String.eqb_spec (if existsb (oversized agent) (List.filter summarizable (take (Z.to_nat cut) h))
     && negb (fs =? "")%string then fs +:+ omitted_note else fs) ""); [done|].
  simplify_eq. split_and!; try done; try lia. intros ->. simpl in *. lia.
Qed.
End Sessions.

(** ** Properties *)

(** C34: emergency compression of a history of more than two messages always
    shortens it and accounts for every message; what it keeps is stored as it
    was; the summary gets the note; and no tool result is separated from its
    call when the history has the message of a user to cut at and its results
    stand behind their calls. *)
Theorem forceCompression_spec {S} `{SessionStore S} now (s : S) k :
  sane s -> 2 < Z.of_nat (length (GetHistory s k)) ->
  exists s' r, forceCompression now s k = (s', Some r) /\ sane s' /\
    GetHistory s' k = compressed (GetHistory s k) /\
    RemainingMessages r = Z.of_nat (length (GetHistory s' k)) /\
    DroppedMessages r + RemainingMessages r = Z.of_nat (length (GetHistory s k)) /\ 0 < DroppedMessages r /\
    GetSummary s' k = compression_note (GetSummary s k) (DroppedMessages r) /\
    (paired (GetHistory s k) -> (exists b, boundary (GetHistory s k) b) -> paired (GetHistory s' k)).
Proof.
  intros Hs Hn. unfold forceCompression.
  destruct (Z.leb_spec (Z.of_nat (length (GetHistory s k))) 2); [lia|].
  set (h := GetHistory s k) in *. set (c := compressed h). set (note := compression_note _ _).
  assert (Hk : known s k) by (apply history_known; [done | intros E; unfold h in Hn; rewrite E in Hn; simpl in Hn; lia]).
  destruct (stored_sub s k c Hs (compressed_sub h)) as [Hst Hac].
  set (s1 := SetSummary now s k note). assert (Hs1 : sane s1) by by apply sane_summary.
  assert (Hk1 : known s1 k) by by apply known_summary.
  set (s2 := SetHistory now s1 k c). assert (Hs2 : sane s2) by by apply sane_history.
  assert (HH : GetHistory (Save now s2 k) k = c).
  { rewrite history_save by done. unfold s2. by rewrite history_set. }
  pose proof (compressed_shorter h ltac:(lia)) as Hlt. fold c in Hlt.
  eexists _, _. split; [reflexivity|]. cbn [RemainingMessages DroppedMessages]. rewrite HH.
  split_and!; try done; try lia.
  - by apply sane_save.
  - rewrite summary_save by done. unfold s2. rewrite summary_history by done. by apply summary_set.
  - intros HP HB. apply compressed_paired; [lia | done | done].
Qed.

(** A summary computed and applied without interruption replaces exactly
    the messages in front of the cut: the others stay, in whole turns. *)
Theorem summarizeSession_keeps_rest {S} `{SessionStore S} Chat agent now call (s : S) k f keep :
  sane s -> summary_plan Chat agent call s k = Some (f, keep) ->
  let h := GetHistory s k in
  let s' := summarizeSession Chat agent now call s k in
  GetSummary s' k = f /\ f <> "" /\
  (exists cut, 0 < cut < Z.of_nat (length h) /\ keep = Z.of_nat (length h) - cut /\
     GetHistory s' k = drop (Z.to_nat cut) h) /\
  (paired h -> (exists b, boundary h b) -> paired (GetHistory s' k)).
Proof.
  intros Hs HP h s'.
  destruct (summary_plan_some _ _ _ _ _ _ _ HP) as (Hf & Hkeep & Hcut & Hne & _). fold h in Hkeep, Hcut, Hne.
  assert (Hk : known s k) by by apply history_known.
  subst s'. unfold summarizeSession. rewrite HP.
  destruct (apply_summary_spec now s k f keep Hs Hk) as (_ & HH & HSum). fold h in HH.
  assert (HD : truncated keep h = drop (Z.to_nat (findSafeBoundary h (Z.of_nat (length h) - 4))) h).
  { unfold truncated. destruct (Z.leb_spec keep 0); [lia|]. f_equal. lia. }
  rewrite HH, HD. split_and!; [done | done | eauto |].
  intros HPa HB. apply paired_drop; [done|]. right; right. apply boundary_user.
  set (n := Z.of_nat (length h)) in *.
  destruct (findSafeBoundary_cases h (n - 4)) as [[Hno _] | [(Hb & _) | [(_ & Hb & _) | (_ & _ & E)]]];
    try done.
  - destruct (summary_plan_some _ _ _ _ _ _ _ HP) as (_ & _ & _ & _ & Hn). fold h in Hn. fold n in Hn. lia.
  - destruct HB as (b & Hb). by destruct (Hno b).
  - rewrite E in Hcut. lia.
Qed.

(** Messages that arrive while the model writes the summary push
    unsummarised ones out: the cut counts from the end, so as many messages
    behind the summarised part are lost as have been appended. *)
Theorem summarizeSession_race {S} `{SessionStore S} Chat agent now call (s : S) k f keep ms :
  sane s -> summary_plan Chat agent call s k = Some (f, keep) -> Forall acceptable ms ->
  let h := GetHistory s k in
  let cut := Z.to_nat (findSafeBoundary h (Z.of_nat (length h) - 4)) in
  let s' := apply_summary now (add_all now s k ms) k (summary_plan Chat agent call s k) in
  GetSummary s' k = f /\ GetHistory s' k = drop (cut + length ms)%nat (h ++ map stored ms) /\
  ((length ms <= length h - cut)%nat ->
   h = take cut h ++ take (length ms) (drop cut h) ++ drop (cut + length ms) h /\
   GetHistory s' k = drop (cut + length ms) h ++ map stored ms).
Proof.
  intros Hs HP Ha h cut s'.
  destruct (summary_plan_some _ _ _ _ _ _ _ HP) as (Hf & Hkeep & Hcut & Hne & _). fold h in Hkeep, Hcut, Hne.
  assert (Hs1 : sane (add_all now s k ms)) by by apply sane_add_all.
  assert (HH1 : GetHistory (add_all now s k ms) k = h ++ map stored ms) by by apply history_add_all.
  assert (Hk : known (add_all now s k ms) k).
  { apply history_known; [done|]. rewrite HH1. by destruct h. }
  subst s'. rewrite HP. destruct (apply_summary_spec now _ k f keep Hs1 Hk) as (_ & HH & HSum).
  rewrite HH1 in HH.
  assert (HD : truncated keep (h ++ map stored ms) = drop (cut + length ms) (h ++ map stored ms)).
  { unfold truncated. destruct (Z.leb_spec keep 0); [lia|]. f_equal. rewrite length_app, length_map. lia. }
  rewrite HH, HD. split_and!; [done | done |]. intros Hlen. split.
  - rewrite <- drop_drop, take_drop. by rewrite take_drop.
  - by rewrite drop_app_le by lia.
Qed.

(** *** The properties at a concrete session of the in-memory manager *)

Definition demo_store : Manager.SessionManager := {["s" := mkSession "s" demo_history "" 0 0]}.
Definition demo_chat (call : nat) (prompt : string) : reply := Response "the user said hi".
Definition demo_agent : Agent := mkAgent "main" 100000 20 75.

Lemma demo_history_lookup : GetHistory demo_store "s" = demo_history.
Proof. reflexivity. Qed.

Lemma demo_sane : sane demo_store.
Proof. exact I. Qed.

Lemma demo_acceptable : Forall (acceptable (S := Manager.SessionManager)) [text_message "user" "next"].
Proof. constructor; [exact I | constructor]. Qed.

Lemma demo_plan :
  summary_plan demo_chat demo_agent 0 demo_store "s" = Some ("the user said hi", 4).
Proof. vm_compute. reflexivity. Qed.

Lemma forceCompression_spec_witness :
  exists s' r, forceCompression 9 demo_store "s" = (s', Some r) /\ DroppedMessages r = 2 /\
    GetHistory s' "s" = drop 2 demo_history /\ paired (GetHistory s' "s").
Proof.
  destruct (forceCompression_spec 9 demo_store "s" demo_sane ltac:(rewrite demo_history_lookup; reflexivity))
    as (s' & r & E & _ & HH & HR & HD & _ & _ & HP).
  exists s', r. rewrite demo_history_lookup in *. split_and!; [exact E | | exact HH |].
  - rewrite HR, HH in HD. change (Z.of_nat (length (compressed demo_history))) with 4 in HD.
    change (Z.of_nat (length demo_history)) with 6 in HD. lia.
  - apply HP; [exact demo_paired | exists 2; exact demo_boundary].
Defined.

Lemma summarizeSession_keeps_rest_witness :
  GetSummary (summarizeSession demo_chat demo_agent 9 0 demo_store "s") "s" = "the user said hi" /\
  paired (GetHistory (summarizeSession demo_chat demo_agent 9 0 demo_store "s") "s").
Proof.
  destruct (summarizeSession_keeps_rest demo_chat demo_agent 9 0 demo_store "s" _ _ demo_sane demo_plan)
    as (HS & _ & _ & HP).
  split; [exact HS|]. apply HP; [exact demo_paired | exists 2; exact demo_boundary].
Defined.

(** The request of the second turn is lost: it is neither in the summary nor
    in the history. *)
Lemma summarizeSession_race_witness :
  GetHistory (apply_summary 9 (add_all 8 demo_store "s" [text_message "user" "next"]) "s"
                (summary_plan demo_chat demo_agent 0 demo_store "s")) "s" =
    drop 3 demo_history ++ [text_message "user" "next"].
Proof.
  destruct (summarizeSession_race demo_chat demo_agent 9 0 demo_store "s" _ _ [text_message "user" "next"]
    demo_sane demo_plan demo_acceptable) as (_ & HH & _).
  vm_compute in HH |- *. exact HH.
Defined.
