(* ===== verification/LegacyManager.v ===== *)
(** * The legacy strategy as a context manager: [src/pkg/agent/context_legacy.go]

    [LegacyContext] has the algorithms, over one store; here they are an
    instance of [ContextManager] over the stores of all agents, with the choice
    of the agent in [registry.go] and the goroutines that summarise. *)

From S2P Require Import Prelude Message Session ContextManager LegacyContext.

(** A goroutine that was started, for an agent and a session; and one that has
    asked the model and has not written yet. *)
Record job : Type := mkJob { JobAgent : Agent; JobSession : string }.

Record legacyContextManager : Type := mkLegacy {
  summarizing : gset string;
  started : list job;
  planned : list (job * option (string * Z))
}.

Definition job_key (j : job) : string := AgentID (JobAgent j) +:+ ":" +:+ JobSession j.

Section Legacy.
Context {S : Type} `{SessionStore S}.
(** The agents of the registry, the order of each iteration over them, the
    clock and the model. *)
Context (agents : gmap string Agent) (iteration : nat -> list Agent) (now : nat -> time) (Chat : nat -> string -> reply).

Definition GetDefaultAgent (n : nat) : option Agent :=
  match agents !! "main" with
  | Some agent => Some agent
  | None => head (iteration n)
  end.

Definition LegacyAssemble (n : nat) (ss : Stores S) (key : string) : list Message * string :=
  match GetDefaultAgent n with
  | None => ([], "")
  | Some agent => (GetHistory (ss (AgentID agent)) key, GetSummary (ss (AgentID agent)) key)
  end.

Definition LegacyCompact (n : nat) (ss : Stores S) (m : legacyContextManager) (key : string) (reason : CompressReason) :
    Stores S * legacyContextManager :=
  match GetDefaultAgent n with
  | None => (ss, m)
  | Some agent =>
      let s := ss (AgentID agent) in
      match reason with
      | ReasonProactive | ReasonRetry => (store_at (AgentID agent) (fst (forceCompression (now n) s key)) ss, m)
      | ReasonSummarize =>
          let '(running, go) := maybeSummarize agent (summarizing m) s key in
          (ss, mkLegacy running (if go then started m ++ [mkJob agent key] else started m) (planned m))
      end
  end.

#[global] Instance legacy_manager : ContextManager S legacyContextManager := {
  Assemble n ss m key budget maxTokens := (m, Fine (LegacyAssemble n ss key));
  Compact n ss m key reason budget := LegacyCompact n ss m key reason;
  Ingest n ss m key msg := (m, Fine tt)
}.

(** *** The goroutine: it reads and asks the model, then it writes. *)

Definition summarize_read (n : nat) (ss : Stores S) (m : legacyContextManager) : Stores S * legacyContextManager :=
  match started m with
  | [] => (ss, m)
  | j :: rest =>
      let plan := summary_plan Chat (JobAgent j) n (ss (AgentID (JobAgent j))) (JobSession j) in
      (ss, mkLegacy (summarizing m) rest (planned m ++ [(j, plan)]))
  end.

Definition summarize_write (n : nat) (ss : Stores S) (m : legacyContextManager) : Stores S * legacyContextManager :=
  match planned m with
  | [] => (ss, m)
  | (j, plan) :: rest =>
      let id := AgentID (JobAgent j) in
      (store_at id (apply_summary (now n) (ss id) (JobSession j) plan) ss,
       mkLegacy (summarizing m ∖ {[job_key j]}) (started m) rest)
  end.

(** One goroutine per session: the keys of those that run are distinct and
    are the ones on record. *)
Definition running (m : legacyContextManager) : list job := map fst (planned m) ++ started m.

Definition deduplicated (m : legacyContextManager) : Prop :=
  NoDup (map job_key (running m)) /\ list_to_set (map job_key (running m)) = summarizing m.

Lemma maybeSummarize_spec agent (keys : gset string) (s : S) key :
  let '(keys', go) := maybeSummarize agent keys s key in
  if go then ((AgentID agent +:+ ":" +:+ key) ∉ keys) /\ keys' = {[AgentID agent +:+ ":" +:+ key]} ∪ keys else keys' = keys.
Proof. unfold maybeSummarize. destruct (_ || _); [|done]. case_decide; done. Qed.

Lemma compact_deduplicated n ss m key reason : deduplicated m -> deduplicated (snd (LegacyCompact n ss m key reason)).
Proof.
  intros [HN HK]. unfold LegacyCompact. destruct (GetDefaultAgent n) as [agent|]; [|done].
  destruct reason; [done | done|]. pose proof (maybeSummarize_spec agent (summarizing m) (ss (AgentID agent)) key) as Hs.
  destruct (maybeSummarize _ _ _ _) as [keys go]. unfold deduplicated, running. cbn [snd summarizing started planned].
  destruct go; [|by subst keys]. destruct Hs as [Hn ->].
  rewrite app_assoc, map_app. cbn [map]. change (job_key (mkJob agent key)) with (AgentID agent +:+ ":" +:+ key).
  rewrite <- HK in *. split.
  - apply NoDup_app. split; [done|]. split; [set_solver | apply NoDup_singleton].
  - rewrite list_to_set_app_L. simpl. set_solver.
Qed.

Lemma read_deduplicated n ss m : deduplicated m -> deduplicated (snd (summarize_read n ss m)).
Proof.
  destruct m as [keys [|j rest] plans]; [done|]. unfold deduplicated.
  assert (E : running (snd (summarize_read n ss (mkLegacy keys (j :: rest) plans))) = running (mkLegacy keys (j :: rest) plans)).
  { unfold running. cbn. by rewrite map_app, <- app_assoc. }
  by rewrite E.
Qed.

Lemma write_deduplicated n ss m : deduplicated m -> deduplicated (snd (summarize_write n ss m)).
Proof.
  unfold summarize_write, deduplicated, running. destruct m as [keys js [|[j plan] rest]]; [done|]. cbn.
  intros [[Hj HN]%NoDup_cons <-]. split; [done|]. set_solver.
Qed.

(** The steps of the manager and of its goroutines. *)
Inductive legacy_step : Stores S * legacyContextManager -> Stores S * legacyContextManager -> Prop :=
| step_compact n ss m key reason : legacy_step (ss, m) (LegacyCompact n ss m key reason)
| step_read n ss m : legacy_step (ss, m) (summarize_read n ss m)
| step_write n ss m : legacy_step (ss, m) (summarize_write n ss m)
| step_sessions ss ss' m : legacy_step (ss, m) (ss', m).

Lemma legacy_step_deduplicated p q : deduplicated (snd p) -> legacy_step p q -> deduplicated (snd q).
Proof. intros Hd Hs; revert Hd. destruct Hs; [apply compact_deduplicated | apply read_deduplicated | apply write_deduplicated | done]. Qed.

(** However compactions, goroutines and other writers of the sessions
    interleave, there is at most one summarisation per agent and session, and
    the keys on record are exactly those of the goroutines that run: a session
    whose goroutine has ended can be summarised again. *)
Theorem one_summary_at_a_time ss ss' m :
  star legacy_step (ss, mkLegacy ∅ [] []) (ss', m) ->
  NoDup (map job_key (running m)) /\ list_to_set (map job_key (running m)) = summarizing m.
Proof.
  intros Hs. refine (star_invariant legacy_step (fun p => deduplicated (snd p)) legacy_step_deduplicated _ _ Hs _).
  by split; [apply NoDup_nil_2|].
Qed.
End Legacy.

(** ** With an agent [main] *)

Section Main.
Context {S : Type} `{SessionStore S} (agents : gmap string Agent) (iteration : nat -> list Agent).

(** The manager reads the sessions of the default agent only: what another
    agent's session store holds is never assembled for its turns. *)
Lemma other_sessions_not_read agent a n ss key (s : S) :
  agents !! "main" = Some agent -> a <> AgentID agent ->
  LegacyAssemble agents iteration n (store_at a s ss) key = LegacyAssemble agents iteration n ss key.
Proof.
  intros E Hne. unfold LegacyAssemble, GetDefaultAgent. rewrite E. by rewrite !(store_at_other a (AgentID agent)).
Qed.
End Main.

Definition one_agent : gmap string Agent := {["main" := demo_agent]}.
Definition long_sessions : Stores Manager.SessionManager :=
  fun _ => {["s" := mkSession "s" (replicate 21 (text_message "user" "hi")) "" 0 0]}.

Lemma one_summary_at_a_time_witness :
  let compact (m : legacyContextManager) n := LegacyCompact one_agent (fun _ => []) (fun _ => 0) n long_sessions m "s" ReasonSummarize in
  let m1 := snd (compact (mkLegacy ∅ [] []) 0%nat) in
  let m2 := snd (compact m1 1%nat) in
  length (running m2) = 1%nat /\ NoDup (map job_key (running m2)) /\ list_to_set (map job_key (running m2)) = summarizing m2.
Proof.
  split; [reflexivity|].
  apply (one_summary_at_a_time one_agent (fun _ => []) (fun _ => 0) demo_chat long_sessions long_sessions).
  eapply star_step; [exact (step_compact one_agent (fun _ => []) (fun _ => 0) demo_chat 0 long_sessions (mkLegacy ∅ [] []) "s" ReasonSummarize)|].
  eapply star_step; [exact (step_compact one_agent (fun _ => []) (fun _ => 0) demo_chat 1 long_sessions _ "s" ReasonSummarize)|].
  apply star_refl.
Defined.
