(* ===== verification/AccountPolicy.v ===== *)
(** * Account switching policy: [src/pkg/codexaccounts/policy.go], [types.go]

    When to leave an account, which one to take, when to copy the live
    credentials back. Percentages are unbounded integers here: the code only
    compares them. *)

From S2P Require Import Prelude GoStrings.

(** ** Data *)

Record AccountState : Type := mkAccountState { StateAlias : string; Enabled : bool }.

Record State : Type := mkState {
  Version : Z;
  ActiveAlias : string;
  Accounts : gmap string AccountState
}.

Record HealthSnapshot : Type := mkHealth {
  Alias : string;
  Status : string;
  FiveHourRemainingPct : Z;
  WeeklyRemainingPct : Z;
  FiveHourResetAt : time;
  WeeklyResetAt : time;
  ObservedAt : time
}.

Record SwitchEvent : Type := mkSwitchEvent {
  OccurredAt : time;
  SourceAlias : string;
  TargetAlias : string;
  Trigger : string;
  RouteReason : string;
  ResumeMode : string;
  TelemetryFresh : bool;
  AppServerRestart : bool
}.

(** ** Operations *)

Definition softSwitchFiveHourPercent : Z := 10.
Definition weeklyFloorPercent : Z := 20.
Definition telemetryFreshnessWindow : duration := 15 * Minute.
Definition syncAfterRefreshAge : duration := 6 * Hour.

Definition ShouldSoftSwitch (now : time) (health : HealthSnapshot) : bool :=
  if IsZero (ObservedAt health) || (telemetryFreshnessWindow <? Sub now (ObservedAt health)) then false
  else FiveHourRemainingPct health <=? softSwitchFiveHourPercent.

Definition isTelemetryFresh (now : time) (health : HealthSnapshot) : bool :=
  if IsZero (ObservedAt health) then false
  else Sub now (ObservedAt health) <=? telemetryFreshnessWindow.

Definition ShouldSyncAfterTurn (lastRefresh now : time) : bool :=
  if IsZero lastRefresh then false else syncAfterRefreshAge <=? Sub now lastRefresh.

Definition clampRemainingPercent (usedPercent : Z) : Z :=
  if usedPercent <=? 0 then 100 else if 100 <=? usedPercent then 0 else 100 - usedPercent.

(** The best account so far: alias, five-hour and weekly share. *)
Record best : Type := mkBest { best_alias : string; best_five : Z; best_weekly : Z }.

Definition no_best : best := mkBest "" (-1) (-1).

Definition improve (b : best) (c : HealthSnapshot) : best :=
  if (best_five b <? FiveHourRemainingPct c) ||
     ((FiveHourRemainingPct c =? best_five b) && (best_weekly b <? WeeklyRemainingPct c))
  then mkBest (Alias c) (FiveHourRemainingPct c) (WeeklyRemainingPct c)
  else b.

Definition skipped (activeAlias : string) (c : HealthSnapshot) : bool :=
  String.eqb (Alias c) activeAlias || String.eqb (Status c) "exhausted" || String.eqb (Status c) "unknown".

(** One turn of the loop on the pair (best healthy, best fallback). *)
Definition consider (activeAlias : string) (acc : best * best) (c : HealthSnapshot) : best * best :=
  if skipped activeAlias c then acc
  else if weeklyFloorPercent <=? WeeklyRemainingPct c then (improve (fst acc) c, snd acc)
  else (fst acc, improve (snd acc) c).

(** Alias and reason, or [None] for the result [("", "", false)]. *)
Definition ChooseTarget (activeAlias : string) (candidates : list HealthSnapshot) :
    option (string * string) :=
  let '(bestHealthy, bestFallback) := fold_left (consider activeAlias) candidates (no_best, no_best) in
  if negb (String.eqb (best_alias bestHealthy) "") then Some (best_alias bestHealthy, "best_5h_headroom")
  else if negb (String.eqb (best_alias bestFallback) "") then Some (best_alias bestFallback, "least_bad_fallback")
  else None.

(** ** Lemmas *)

(** Five-hour share first, then weekly share. *)
Definition better (c d : HealthSnapshot) : Prop :=
  FiveHourRemainingPct d < FiveHourRemainingPct c \/
  (FiveHourRemainingPct d = FiveHourRemainingPct c /\ WeeklyRemainingPct d < WeeklyRemainingPct c).

Definition sensible (c : HealthSnapshot) : Prop :=
  0 <= FiveHourRemainingPct c /\ 0 <= WeeklyRemainingPct c /\ Alias c <> "".

Definition betterb (c d : HealthSnapshot) : bool :=
  (FiveHourRemainingPct d <? FiveHourRemainingPct c) ||
  ((FiveHourRemainingPct c =? FiveHourRemainingPct d) && (WeeklyRemainingPct d <? WeeklyRemainingPct c)).

Lemma betterb_spec c d : betterb c d = true <-> better c d.
Proof. unfold betterb, better. lia. Qed.

Lemma better_trans_not x y z : ~ better x y -> ~ better y z -> ~ better x z.
Proof. unfold better. lia. Qed.

(** The candidate behind the three accumulators. *)
Definition values (o : option HealthSnapshot) : best :=
  match o with
  | None => no_best
  | Some c => mkBest (Alias c) (FiveHourRemainingPct c) (WeeklyRemainingPct c)
  end.

Definition pick (o : option HealthSnapshot) (c : HealthSnapshot) : option HealthSnapshot :=
  match o with
  | None => Some c
  | Some d => if betterb c d then Some c else Some d
  end.

Lemma improve_pick l o :
  Forall sensible l -> fold_left improve l (values o) = values (fold_left pick l o).
Proof.
  intros HS. revert o; induction HS as [|c l (Hf & Hw & Ha) _ IH]; intros o; [done|]. cbn [fold_left].
  rewrite <- IH. f_equal. unfold improve, pick, values, no_best.
  destruct o as [d|]; cbn [best_five best_weekly best_alias].
  - change (betterb c d) with ((FiveHourRemainingPct d <? FiveHourRemainingPct c) ||
      ((FiveHourRemainingPct c =? FiveHourRemainingPct d) && (WeeklyRemainingPct d <? WeeklyRemainingPct c))).
    by destruct (_ || _).
  - destruct (Z.ltb_spec (-1) (FiveHourRemainingPct c)); [done | lia].
Qed.

Lemma pick_fold l o :
  match fold_left pick l o with
  | None => l = [] /\ o = None
  | Some c => (c ∈ l \/ o = Some c) /\ (forall d, d ∈ l -> ~ better d c) /\ (forall d, o = Some d -> ~ better d c)
  end.
Proof.
  revert o; induction l as [|c l IH]; intros o; cbn [fold_left].
  - destruct o as [d|]; [|done]. split_and!; [by right | by intros ? ?%elem_of_nil |].
    intros ? [= ->]. unfold better. lia.
  - specialize (IH (pick o c)). destruct (fold_left pick l (pick o c)) as [x|].
    + destruct IH as (Hin & Hmax & Hini).
      assert (Hc : ~ better c x /\ forall d, o = Some d -> ~ better d x).
      { unfold pick in Hini. destruct o as [d0|].
        - destruct (betterb c d0) eqn:E.
          + apply betterb_spec in E. specialize (Hini c eq_refl). split; [done|].
            intros ? [= ->]. eapply better_trans_not; [|exact Hini]. unfold better in *. lia.
          + specialize (Hini d0 eq_refl). split; [|by intros ? [= ->]].
            eapply better_trans_not; [|exact Hini]. rewrite <- betterb_spec. congruence.
        - split; [by apply Hini | done]. }
      split_and!; [| |exact (proj2 Hc)].
      * destruct Hin as [Hin | Hin]; [left; by right|]. unfold pick in Hin.
        destruct o as [d0|]; [|injection Hin as ->; left; by left].
        destruct (betterb c d0); injection Hin as ->; [left; by left | by right].
      * intros d [-> | Hd]%elem_of_cons; [exact (proj1 Hc) | by apply Hmax].
    + destruct IH as [_ IH]. unfold pick in IH. by repeat case_match.
Qed.

Definition healthy_for (activeAlias : string) (c : HealthSnapshot) : bool :=
  negb (skipped activeAlias c) && (weeklyFloorPercent <=? WeeklyRemainingPct c).
Definition fallback_for (activeAlias : string) (c : HealthSnapshot) : bool :=
  negb (skipped activeAlias c) && (WeeklyRemainingPct c <? weeklyFloorPercent).

(** The loop runs two searches side by side. *)
Lemma consider_fold active l b1 b2 :
  fold_left (consider active) l (b1, b2) =
    (fold_left improve (List.filter (healthy_for active) l) b1,
     fold_left improve (List.filter (fallback_for active) l) b2).
Proof.
  revert b1 b2; induction l as [|c l IH]; intros b1 b2; [done|]. cbn [fold_left List.filter].
  unfold consider at 2, healthy_for at 1, fallback_for at 1.
  destruct (skipped active c); cbn [negb andb]; [apply IH|].
  rewrite Z.ltb_antisym. destruct (weeklyFloorPercent <=? WeeklyRemainingPct c); cbn [negb fold_left fst snd]; apply IH.
Qed.

Lemma filter_sensible (p : HealthSnapshot -> bool) l : Forall sensible l -> Forall sensible (List.filter p l).
Proof. induction 1 as [|c l Hc _ IH]; simpl; [constructor|]. destruct (p c); [by constructor | done]. Qed.

Lemma elem_filter (p : HealthSnapshot -> bool) l c : c ∈ List.filter p l <-> c ∈ l /\ p c = true.
Proof. rewrite !list_elem_of_In. apply filter_In. Qed.

(** The best of the candidates that pass a test. *)
Lemma search_spec (p : HealthSnapshot -> bool) l :
  Forall sensible l ->
  let b := fold_left improve (List.filter p l) no_best in
  (best_alias b = "" /\ forall d, d ∈ l -> p d = false) \/
  (exists c, c ∈ l /\ p c = true /\ best_alias b = Alias c /\ Alias c <> "" /\
     forall d, d ∈ l -> p d = true -> ~ better d c).
Proof.
  intros HS. cbv zeta. pose proof (filter_sensible p l HS) as HF.
  change no_best with (values None). rewrite (improve_pick _ None HF). pose proof (pick_fold (List.filter p l) None) as HP.
  destruct (fold_left pick (List.filter p l) None) as [c|].
  - right. destruct HP as ([Hin | Hn] & Hmax & _); [|done]. apply elem_filter in Hin as Hin'. destruct Hin' as [Hc Hp].
    exists c. split_and!; try done.
    + eapply Forall_forall in HS; [|exact Hc]. apply HS.
    + intros d Hd Hpd. apply Hmax, elem_filter. done.
  - left. destruct HP as [Hnil _]. split; [done|]. intros d Hd.
    destruct (p d) eqn:E; [|done]. exfalso.
    assert (Hx : d ∈ List.filter p l) by (by apply elem_filter). rewrite Hnil in Hx. by apply elem_of_nil in Hx.
Qed.

(** ** Properties *)

(** The account chosen is neither the active one nor exhausted or
    unknown; if some account is above the weekly floor it is one of those,
    and no account of its class has a better five-hour share, or the same
    share and a better weekly one. There is no choice exactly when every
    candidate is ruled out. This holds for every order of the candidates,
    which come from iterating over a map. *)
Theorem ChooseTarget_best active candidates :
  Forall sensible candidates ->
  match ChooseTarget active candidates with
  | Some (target, reason) =>
      exists c, c ∈ candidates /\ target = Alias c /\ skipped active c = false /\
        ((reason = "best_5h_headroom" /\ weeklyFloorPercent <= WeeklyRemainingPct c /\
          forall d, d ∈ candidates -> skipped active d = false ->
                    weeklyFloorPercent <= WeeklyRemainingPct d -> ~ better d c) \/
         (reason = "least_bad_fallback" /\
          forall d, d ∈ candidates -> skipped active d = false ->
                    WeeklyRemainingPct d < weeklyFloorPercent /\ ~ better d c))
  | None => forall d, d ∈ candidates -> skipped active d = true
  end.
Proof.
  intros HS. unfold ChooseTarget. rewrite consider_fold.
  destruct (search_spec (healthy_for active) candidates HS) as [[E1 H1] | (c & Hc & Hp & Ea & Hne & Hmax)].
  - rewrite E1. cbn [negb String.eqb].
    assert (HH : forall d, d ∈ candidates -> skipped active d = false -> WeeklyRemainingPct d < weeklyFloorPercent).
    { intros d Hd Hs. specialize (H1 d Hd). unfold healthy_for in H1. rewrite Hs in H1. simpl in H1. lia. }
    destruct (search_spec (fallback_for active) candidates HS) as [[E2 H2] | (c & Hc & Hp & Ea & Hne & Hmax)].
    + rewrite E2. cbn [negb String.eqb]. intros d Hd. destruct (skipped active d) eqn:Hs; [done|].
      specialize (HH d Hd Hs). specialize (H2 d Hd). unfold fallback_for in H2. rewrite Hs in H2. simpl in H2. lia.
    + rewrite Ea. apply String.eqb_neq in Hne. rewrite Hne. cbn [negb].
      unfold fallback_for in Hp. apply andb_true_iff in Hp as [Hp1 Hp2]. apply negb_true_iff in Hp1.
      exists c. split_and!; try done. right. split; [done|]. intros d Hd Hs. split; [by apply HH|].
      apply Hmax; [done|]. unfold fallback_for. rewrite Hs. specialize (HH d Hd Hs). simpl. lia.
  - rewrite Ea. apply String.eqb_neq in Hne. rewrite Hne. cbn [negb].
    unfold healthy_for in Hp. apply andb_true_iff in Hp as [Hp1 Hp2]. apply negb_true_iff in Hp1.
    exists c. split_and!; try done. left. split_and!; [done | lia |]. intros d Hd Hs Hw.
    apply Hmax; [done|]. unfold healthy_for. rewrite Hs. simpl. lia.
Qed.

Definition demo_health (alias status : string) (five weekly : Z) : HealthSnapshot :=
  mkHealth alias status five weekly 0 0 1.

Lemma ChooseTarget_best_witness :
  let cs := [demo_health "a" "soft-drain" 5 60; demo_health "b" "healthy" 40 30;
             demo_health "c" "soft-drain" 90 10] in
  ChooseTarget "a" cs = Some ("b", "best_5h_headroom") /\
  exists c, c ∈ cs /\ "b" = Alias c /\ skipped "a" c = false.
Proof.
  intros cs. assert (E : ChooseTarget "a" cs = Some ("b", "best_5h_headroom")) by reflexivity.
  split; [exact E|].
  pose proof (ChooseTarget_best "a" cs) as HT. rewrite E in HT.
  destruct HT as (c & H1 & H2 & H3 & _);
    [repeat constructor; try discriminate; vm_compute; discriminate | by exists c].
Defined.

(** A soft switch may leave the active account for a worse one, and the next
    turn goes back: nothing compares the target with the account it replaces. *)
Example soft_switch_to_worse :
  let a := demo_health "a" "soft-drain" 10 50 in
  let b := demo_health "b" "soft-drain" 1 50 in
  ShouldSoftSwitch 2 a = true /\ ChooseTarget "a" [a; b] = Some ("b", "best_5h_headroom") /\
  ShouldSoftSwitch 2 b = true /\ ChooseTarget "b" [a; b] = Some ("a", "best_5h_headroom").
Proof. repeat split. Qed.
