(* ===== verification/Effects.v ===== *)
(** * Stateful code that can fail

    Go functions with a receiver and an [error] result as functions of the
    state. A state change stays when an error is returned. *)

From S2P Require Import Prelude.

Section Effects.
Context {W E : Type}.

Definition ST (A : Type) : Type := W -> W * result E A.

Definition ret {A} (a : A) : ST A := fun w => (w, Ok a).

Definition bind {A B} (m : ST A) (k : A -> ST B) : ST B := fun w =>
  match m w with
  | (w', Ok a) => k a w'
  | (w', Err e) => (w', Err e)
  end.

Definition throw {A} (e : E) : ST A := fun w => (w, Err e).

(** The error as a value, for the code that inspects it. *)
Definition try {A} (m : ST A) : ST (result E A) := fun w => let '(w', r) := m w in (w', Ok r).

Lemma bind_inv {A B} (m : ST A) (k : A -> ST B) w w' r :
  bind m k w = (w', r) ->
  (exists a w1, m w = (w1, Ok a) /\ k a w1 = (w', r)) \/ (exists e, m w = (w', Err e) /\ r = Err e).
Proof.
  unfold bind. destruct (m w) as [w1 [a|e]]; [left; eauto | right]. exists e. by simplify_eq.
Qed.

Lemma try_inv {A} (m : ST A) w w' (r : result E (result E A)) :
  try m w = (w', r) -> exists r0, m w = (w', r0) /\ r = Ok r0.
Proof. unfold try. destruct (m w) as [w1 r0]. intros [= <- <-]. eauto. Qed.

(** *** What every run of a computation respects *)

Definition keeps (R : W -> W -> Prop) {A} (m : ST A) : Prop := forall w w' r, m w = (w', r) -> R w w'.

Context (R : W -> W -> Prop) `{!PreOrder R}.

Lemma keeps_ret {A} (a : A) : keeps R (ret a).
Proof. intros w w' r E'. unfold ret in E'. by injection E' as <- <-. Qed.

Lemma keeps_throw {A} (e : E) : keeps R (throw (A := A) e).
Proof. intros w w' r E'. unfold throw in E'. by injection E' as <- <-. Qed.

Lemma keeps_bind {A B} (m : ST A) (k : A -> ST B) :
  keeps R m -> (forall a, keeps R (k a)) -> keeps R (bind m k).
Proof.
  intros Hm Hk w w' r [(a & w1 & E1 & E2) | (e & E1 & _)]%bind_inv; [|by eapply Hm].
  transitivity w1; [by eapply Hm | by eapply Hk].
Qed.

Lemma keeps_try {A} (m : ST A) : keeps R m -> keeps R (try m).
Proof. intros Hm w w' r (r0 & E0 & _)%try_inv. by eapply Hm. Qed.
End Effects.
Arguments ST : clear implicits.

Notation "'let!' x := m 'in' k" := (bind m (fun x => k))
  (at level 10, x pattern, m at level 100, k at level 200) : go_scope.

#[export] Hint Resolve keeps_ret keeps_throw keeps_bind keeps_try : go.

(** A computation keeps a relation when the calls that it makes do, which are
    looked up in the hint database. *)
Ltac keeps_auto :=
  repeat match goal with
  | |- keeps _ (bind _ _) => apply keeps_bind; [apply _ | | intros ?]
  | |- keeps _ (ret _) => apply keeps_ret, _
  | |- keeps _ (throw _) => apply keeps_throw, _
  | |- keeps _ (try _) => apply keeps_try
  | |- keeps _ (let '(_, _) := ?x in _) => destruct x
  | |- keeps _ (match ?x with _ => _ end) => destruct x
  | |- _ => progress auto with go
  end.

(** *** Weakest preconditions

    What holds of the result and the state after a run, or of the error and
    the state. *)

Section WP.
Context {W E : Type}.

Definition wp {A} (m : ST W E A) (Q : A -> W -> Prop) (X : E -> W -> Prop) (w : W) : Prop :=
  match m w with
  | (w', Ok a) => Q a w'
  | (w', Err e) => X e w'
  end.

Lemma wp_ret {A} (a : A) (Q : A -> W -> Prop) X w : Q a w -> wp (ret a) Q X w.
Proof. done. Qed.

Lemma wp_throw {A} (e : E) (Q : A -> W -> Prop) (X : E -> W -> Prop) w : X e w -> wp (throw e) Q X w.
Proof. done. Qed.

Lemma wp_bind {A B} (m : ST W E A) (k : A -> ST W E B) Q X w :
  wp m (fun a => wp (k a) Q X) X w -> wp (bind m k) Q X w.
Proof. unfold wp, bind. by destruct (m w) as [w' [a|e]]. Qed.

Lemma wp_mono {A} (m : ST W E A) (Q Q' : A -> W -> Prop) (X X' : E -> W -> Prop) w :
  wp m Q X w -> (forall a w', Q a w' -> Q' a w') -> (forall e w', X e w' -> X' e w') -> wp m Q' X' w.
Proof. unfold wp. destruct (m w) as [w' [a|e]]; auto. Qed.

Lemma wp_and {A} (m : ST W E A) (Q1 Q2 : A -> W -> Prop) (X1 X2 : E -> W -> Prop) w :
  wp m Q1 X1 w -> wp m Q2 X2 w -> wp m (fun a w' => Q1 a w' /\ Q2 a w') (fun e w' => X1 e w' /\ X2 e w') w.
Proof. unfold wp. by destruct (m w) as [w' [a|e]]. Qed.

Lemma wp_inv {A} (m : ST W E A) Q X w w' r :
  wp m Q X w -> m w = (w', r) -> match r with Ok a => Q a w' | Err e => X e w' end.
Proof. unfold wp. intros H E0. by rewrite E0 in H. Qed.

Lemma wp_keeps (R : W -> W -> Prop) {A} (m : ST W E A) w : keeps R m -> wp m (fun _ => R w) (fun _ => R w) w.
Proof. intros Hk. unfold wp. destruct (m w) as [w' [a|e]] eqn:E0; by eapply Hk. Qed.

(** A relation that every run respects carries any property that it carries. *)
Lemma wp_keeps_elim (R : W -> W -> Prop) {A} (m : ST W E A) (Q : A -> W -> Prop) X w :
  keeps R m -> (forall a w', R w w' -> Q a w') -> (forall e w', R w w' -> X e w') -> wp m Q X w.
Proof. intros Hk HQ HX. unfold wp. destruct (m w) as [w' [a|e]] eqn:E0; [eapply HQ | eapply HX]; by eapply Hk. Qed.

Lemma wp_true {A} (m : ST W E A) w : wp m (fun _ _ => True) (fun _ _ => True) w.
Proof. unfold wp. by destruct (m w) as [w' [a|e]]. Qed.
End WP.
