(* ===== verification/AccountStore.v ===== *)
(** * Account files: [src/pkg/codexaccounts/store.go]

    The files under the home directory, by absolute path. A JSON document is
    kept as the value that it encodes. Every call of the operating system can
    fail: [fails n] tells whether the [n]-th one does. *)

From S2P Require Import Prelude Effects GoStrings GoLib.
Import GoRegexp.
From S2P Require Import AccountPolicy.

(** ** Paths *)

(** An absolute path, clean, as its elements. *)
Abbreviation path := (list string).

(** One element of a relative path after [filepath.Clean]. *)
Definition enter (dir : path) (element : string) : path :=
  if String.eqb element "" || String.eqb element "." then dir
  else if String.eqb element ".." then removelast dir
  else dir ++ [element].

(** [filepath.Join(dir, name)] *)
Definition Join (dir : path) (name : string) : path :=
  fold_left enter (SplitN name "/" (S (length (chars name)))) dir.

(** ** The world *)

Inductive content : Type :=
| Bytes (payload : list ascii)
| StateDoc (state : State)
| HealthDoc (health : gmap string HealthSnapshot)
| AuditDoc (events : list SwitchEvent).

Inductive error : Type :=
| NotExist
| IOError
| DecodeError
| InvalidAlias
| AlreadyExists
| NotFound
| IsolationRequired
| AuthFileRequired
| ActiveAccount
| NoAuthLeft
| LoginFailed
| RunFailed (usageExhausted : bool)
| NoLimits
| NoStatus.

Record world : Type := mkWorld { fs : gmap path content; calls : nat }.

Abbreviation M := (ST world error).

Section OS.
Context (fails : nat -> bool).

Definition os_call : M unit := fun w =>
  (mkWorld (fs w) (S (calls w)), if fails (calls w) then Err IOError else Ok tt).

Definition ReadFile (p : path) : M content :=
  let! _ := os_call in fun w => (w, match fs w !! p with Some c => Ok c | None => Err NotExist end).

(** Creating the directory may fail, and so may writing the temporary file
    and renaming it; the target changes only when everything succeeds. *)
Definition writeFileAtomic (p : path) (c : content) : M unit :=
  let! _ := os_call in let! _ := os_call in fun w => (mkWorld (<[p := c]> (fs w)) (calls w), Ok tt).

Definition RemoveFile (p : path) : M unit :=
  let! _ := os_call in fun w =>
    match fs w !! p with
    | Some _ => (mkWorld (delete p (fs w)) (calls w), Ok tt)
    | None => (w, Err NotExist)
    end.

(** ** The layout *)

(** [^[a-zA-Z0-9][a-zA-Z0-9._-]{0,63}$] *)
Definition aliasStart : cls := fun c => is_lower c || is_upper c || is_digit c.
Definition aliasBody : cls := fun c =>
  is_lower c || is_upper c || is_digit c || Ascii.eqb c "." || Ascii.eqb c "_" || Ascii.eqb c "-".
Definition aliasPattern : regex := anchored aliasStart aliasBody 63.

Record Layout : Type := mkLayout {
  HomeRoot : path;
  CodexHome : path;
  LiveAuthFile : path;
  AccountsRoot : path;
  SnapshotsDir : path;
  StateFile : path;
  HealthFile : path;
  SwitchAuditFile : path;
  IsolatedHomesDir : path
}.

Definition ResolveLayout (homeRoot : path) : Layout :=
  mkLayout homeRoot (homeRoot ++ ["codex-home"]) (homeRoot ++ ["codex-home"; "auth.json"])
    (homeRoot ++ ["codex-accounts"]) (homeRoot ++ ["codex-accounts"; "accounts"])
    (homeRoot ++ ["codex-accounts"; "state.json"]) (homeRoot ++ ["codex-accounts"; "health.json"])
    (homeRoot ++ ["codex-accounts"; "switches.jsonl"]) (homeRoot ++ ["isolated-homes"]).

Context (layout : Layout).

Definition snapshot_path (alias : string) : path := Join (SnapshotsDir layout) (alias +:+ ".json").

(** ** Operations *)

Definition WriteSnapshot (alias : string) (payload : content) : M unit :=
  if negb (MatchString aliasPattern alias) then throw InvalidAlias
  else writeFileAtomic (snapshot_path alias) payload.

Definition ReadSnapshot (alias : string) : M content :=
  if negb (MatchString aliasPattern alias) then throw InvalidAlias
  else ReadFile (snapshot_path alias).

Definition SaveState (state : State) : M unit := writeFileAtomic (StateFile layout) (StateDoc state).

Definition LoadState : M State :=
  let! r := try (ReadFile (StateFile layout)) in
    match r with
    | Ok (StateDoc state) => ret state
    | Ok _ => throw DecodeError
    | Err NotExist => ret (mkState 1 "" ∅)
    | Err e => throw e
    end.

Definition SaveHealth (health : gmap string HealthSnapshot) : M unit :=
  writeFileAtomic (HealthFile layout) (HealthDoc health).

Definition loadHealth : M (gmap string HealthSnapshot) :=
  let! r := try (ReadFile (HealthFile layout)) in
    match r with
    | Ok (HealthDoc health) => ret health
    | Ok _ => throw DecodeError
    | Err NotExist => ret ∅
    | Err e => throw e
    end.

(** Append one line; a file that is no audit log is left to the reader. *)
Definition AppendSwitchEvent (event : SwitchEvent) : M unit :=
  let! _ := os_call in let! _ := os_call in fun w =>
    let events := match fs w !! SwitchAuditFile layout with Some (AuditDoc es) => es | _ => [] end in
    (mkWorld (<[SwitchAuditFile layout := AuditDoc (events ++ [event])]> (fs w)) (calls w), Ok tt).

(** The trigger of the last event, from [coordinator.go]. *)
Definition lastSwitchTrigger : M string :=
  let! r := try (ReadFile (SwitchAuditFile layout)) in
    match r with
    | Ok (AuditDoc events) => ret (match last events with Some e => Trigger e | None => "" end)
    | Ok _ => throw DecodeError
    | Err NotExist => ret ""
    | Err e => throw e
    end.

Definition ReadLiveAuth : M content := ReadFile (LiveAuthFile layout).
Definition WriteLiveAuth (payload : content) : M unit := writeFileAtomic (LiveAuthFile layout) payload.
End OS.

(** ** Lemmas *)

Lemma alias_chars alias :
  MatchString aliasPattern alias = true ->
  alias <> "" /\ Forall (fun c => aliasBody c = true) (chars alias) /\
  exists c l, chars alias = c :: l /\ aliasStart c = true.
Proof.
  unfold aliasPattern. rewrite anchored_spec. intros (c & l & Hs & Hc & HF & Hl).
  split_and!.
  - intros ->. done.
  - rewrite Hs. constructor; [|done]. unfold aliasStart, aliasBody in *. by rewrite Hc.
  - by exists c, l.
Qed.

Lemma aliasBody_no_slash c : aliasBody c = true -> c <> "/"%char.
Proof. intros H ->. done. Qed.

(** A valid alias names a file of the snapshot directory itself. *)
Lemma Join_alias dir alias :
  MatchString aliasPattern alias = true -> Join dir (alias +:+ ".json") = dir ++ [alias +:+ ".json"].
Proof.
  intros H. destruct (alias_chars alias H) as (Hne & HF & (c & l & Hs & Hc)).
  unfold Join. set (name := alias +:+ ".json").
  assert (Hn : "/"%char ∉ chars name).
  { unfold name. rewrite chars_app, not_elem_of_app. split; [|decide_now].
    intros Hin. eapply Forall_forall in HF; [|exact Hin]. by apply aliasBody_no_slash in HF. }
  assert (HS : forall n acc k, "/"%char ∉ k -> l_splitn n "/" acc k = [rev acc ++ k]).
  { intros n acc k Hk. revert acc; induction k as [|x k IH]; intros acc; cbn [l_splitn].
    - by rewrite app_nil_r.
    - apply not_elem_of_cons in Hk as [Hx Hk]. destruct n as [|[|n]]; [done | done |].
      destruct (Ascii.eqb_spec x "/"); [congruence|]. rewrite IH by done. simpl. by rewrite <- app_assoc. }
  unfold SplitN. rewrite HS by done. cbn [map fold_left rev app]. rewrite implode_chars.
  unfold enter.
  assert (Hhead : forall s, (forall d k, chars s = d :: k -> aliasStart d = false) -> String.eqb name s = false).
  { intros s Hs'. apply String.eqb_neq. intros E. apply (f_equal chars) in E. unfold name in E.
    rewrite chars_app, Hs in E. simpl in E. symmetry in E. specialize (Hs' _ _ E). congruence. }
  rewrite !Hhead; [done | | |]; intros d k E; simplify_eq/=; done.
Qed.

(** ** Frames: the files that a computation can change *)

(** The files outside [P] are the same. *)
Definition same_outside (P : path -> Prop) (w w' : world) : Prop :=
  forall p, ~ P p -> fs w' !! p = fs w !! p.

#[export] Instance same_outside_preorder P : PreOrder (same_outside P).
Proof. split; [done|]. intros w1 w2 w3 H1 H2 p Hp. by rewrite H2, H1. Qed.

Definition touches {A} (P : path -> Prop) (m : M A) : Prop := keeps (same_outside P) m.

Lemma touches_weaken {A} (P Q : path -> Prop) (m : M A) :
  touches P m -> (forall p, P p -> Q p) -> touches Q m.
Proof. intros H HI w w' r E p Hp. eapply H; [exact E|]. auto. Qed.

Lemma touches_ret {A} P (a : A) : touches P (ret a).
Proof. apply keeps_ret, _. Qed.

Lemma touches_throw {A} P e : touches (A := A) P (throw e).
Proof. apply keeps_throw, _. Qed.

Lemma touches_bind {A B} P (m : M A) (k : A -> M B) :
  touches P m -> (forall a, touches P (k a)) -> touches P (bind m k).
Proof. apply keeps_bind, _. Qed.

Lemma touches_try {A} P (m : M A) : touches P m -> touches P (try m).
Proof. apply keeps_try. Qed.

Lemma touches_os_call fails P : touches P (os_call fails).
Proof. intros w w' r E. by injection E as <- <-. Qed.

#[export] Hint Resolve touches_ret touches_throw touches_bind touches_try touches_os_call : go.

Section Frames.
Context (fails : nat -> bool) (layout : Layout).

Lemma touches_ReadFile P p : touches P (ReadFile fails p).
Proof.
  unfold ReadFile. apply touches_bind; [auto with go|]. intros _ w w' r E. by injection E as <- <-.
Qed.

Lemma touches_write (P : path -> Prop) p c : P p -> touches P (writeFileAtomic fails p c).
Proof.
  intros Hp. unfold writeFileAtomic. apply touches_bind; [auto with go|]. intros _.
  apply touches_bind; [auto with go|]. intros _ w w' r E q Hq. injection E as <- <-.
  simpl. apply lookup_insert_ne. intros E. apply Hq. by rewrite <- E.
Qed.

Lemma touches_remove (P : path -> Prop) p : P p -> touches P (RemoveFile fails p).
Proof.
  intros Hp. unfold RemoveFile. apply touches_bind; [auto with go|]. intros _ w w' r E q Hq.
  destruct (fs w !! p); injection E as <- <-; [|done]. simpl. apply lookup_delete_ne. intros E. apply Hq. by rewrite <- E.
Qed.

Lemma touches_WriteSnapshot (P : path -> Prop) alias c :
  (MatchString aliasPattern alias = true -> P (snapshot_path layout alias)) ->
  touches P (WriteSnapshot fails layout alias c).
Proof.
  intros Hp. unfold WriteSnapshot. destruct (MatchString aliasPattern alias); simpl; auto using touches_write with go.
Qed.

Lemma touches_ReadSnapshot P alias : touches P (ReadSnapshot fails layout alias).
Proof. unfold ReadSnapshot. case_match; auto using touches_ReadFile with go. Qed.

Lemma touches_SaveState (P : path -> Prop) s : P (StateFile layout) -> touches P (SaveState fails layout s).
Proof. apply touches_write. Qed.

Lemma touches_SaveHealth (P : path -> Prop) h : P (HealthFile layout) -> touches P (SaveHealth fails layout h).
Proof. apply touches_write. Qed.

Lemma touches_WriteLiveAuth (P : path -> Prop) c : P (LiveAuthFile layout) -> touches P (WriteLiveAuth fails layout c).
Proof. apply touches_write. Qed.

Lemma touches_LoadState P : touches P (LoadState fails layout).
Proof.
  unfold LoadState. apply touches_bind; [auto using touches_ReadFile with go|].
  intros [[]|[]]; auto with go.
Qed.

Lemma touches_loadHealth P : touches P (loadHealth fails layout).
Proof.
  unfold loadHealth. apply touches_bind; [auto using touches_ReadFile with go|].
  intros [[]|[]]; auto with go.
Qed.

Lemma touches_AppendSwitchEvent (P : path -> Prop) e :
  P (SwitchAuditFile layout) -> touches P (AppendSwitchEvent fails layout e).
Proof.
  intros Hp. unfold AppendSwitchEvent. apply touches_bind; [auto with go|]. intros _.
  apply touches_bind; [auto with go|]. intros _ w w' r E q Hq. injection E as <- <-.
  simpl. apply lookup_insert_ne. intros E. apply Hq. by rewrite <- E.
Qed.

(** ** What a call that succeeds has done *)

Lemma write_Ok p c w w' :
  writeFileAtomic fails p c w = (w', Ok tt) -> fs w' = <[p := c]> (fs w).
Proof.
  unfold writeFileAtomic, bind, os_call. destruct (fails (calls w)); [done|].
  simpl. destruct (fails (S (calls w))); [done|]. by intros [= <-].
Qed.

Lemma ReadFile_Ok p w w' c : ReadFile fails p w = (w', Ok c) -> fs w' = fs w /\ fs w !! p = Some c.
Proof.
  unfold ReadFile, bind, os_call. destruct (fails (calls w)); [done|]. simpl.
  destruct (fs w !! p) eqn:E; [|done]. by intros [= <- <-].
Qed.

Lemma ReadFile_fs p w : fs (fst (ReadFile fails p w)) = fs w.
Proof. unfold ReadFile, bind, os_call. by destruct (fails (calls w)). Qed.

Lemma ReadFile_NotExist p w w' :
  ReadFile fails p w = (w', Err NotExist) -> fs w' = fs w /\ fs w !! p = None.
Proof.
  unfold ReadFile, bind, os_call. destruct (fails (calls w)); [done|]. simpl.
  destruct (fs w !! p) eqn:E; [done|]. by intros [= <-].
Qed.

Lemma RemoveFile_cases p w w' r :
  RemoveFile fails p w = (w', r) ->
  (r = Ok tt /\ fs w' = delete p (fs w)) \/
  (r = Err NotExist /\ fs w' = fs w /\ fs w !! p = None) \/
  (r = Err IOError /\ fs w' = fs w /\ exists n, fails n = true).
Proof.
  unfold RemoveFile, bind, os_call. destruct (fails (calls w)) eqn:Ef.
  - intros [= <- <-]. right; right. eauto.
  - cbn [fs calls]. destruct (fs w !! p) eqn:El; intros [= <- <-]; [by left | by right; left].
Qed.

Lemma write_nofault p c w : (forall n, fails n = false) ->
  exists k, writeFileAtomic fails p c w = (mkWorld (<[p := c]> (fs w)) k, Ok tt).
Proof. intros H. unfold writeFileAtomic, bind, os_call. rewrite !H. simpl. rewrite ?H. by eexists. Qed.

Lemma ReadFile_nofault p w : (forall n, fails n = false) ->
  ReadFile fails p w = (mkWorld (fs w) (S (calls w)),
                        match fs w !! p with Some c => Ok c | None => Err NotExist end).
Proof. intros H. unfold ReadFile, bind, os_call. by rewrite H. Qed.
End Frames.

(** The files of the layout are different files. *)
Lemma layout_distinct root alias :
  MatchString aliasPattern alias = true ->
  let l := ResolveLayout root in
  snapshot_path l alias <> LiveAuthFile l /\ snapshot_path l alias <> StateFile l /\
  snapshot_path l alias <> HealthFile l /\ snapshot_path l alias <> SwitchAuditFile l /\
  LiveAuthFile l <> StateFile l /\ LiveAuthFile l <> HealthFile l /\ LiveAuthFile l <> SwitchAuditFile l /\
  StateFile l <> HealthFile l /\ StateFile l <> SwitchAuditFile l /\ HealthFile l <> SwitchAuditFile l.
Proof.
  intros Ha l. unfold snapshot_path. rewrite Join_alias by done. subst l. unfold ResolveLayout. simpl.
  rewrite <- app_assoc. simpl. split_and!; intros E; apply app_inv_head in E; discriminate E.
Qed.
