(* ===== verification/AccountManager.v ===== *)
(** * Managing accounts: [src/pkg/codexaccounts/manager.go]

    [codex login] is the function [login] of the number of the call, the mode
    and the credentials that it finds in the home directory it is given: it
    tells whether it succeeds and what it leaves in [auth.json]. *)

From S2P Require Import Prelude Effects GoStrings GoLib.
Import GoSort GoRegexp.
From S2P Require Import AccountPolicy AccountStore.

Inductive LoginMode : Type := LoginModeBrowser | LoginModeDeviceAuth.

Record AddOptions : Type := mkAddOptions { Isolated : bool; DeviceAuth : bool }.

Record AccountSummary : Type := mkAccountSummary {
  SummaryAlias : string;
  SummaryEnabled : bool;
  Active : bool
}.

Record StatusSummary : Type := mkStatusSummary {
  TotalAccounts : Z;
  EnabledCount : Z;
  StatusActiveAlias : string
}.

Definition sorted_aliases (state : State) : list string :=
  sorted_keys (Accounts state).

Definition set_account (state : State) (alias : string) (account : AccountState) : State :=
  mkState (Version state) (ActiveAlias state) (<[alias := account]> (Accounts state)).

Section Manager.
Context (fails : nat -> bool) (login : nat -> LoginMode -> option content -> bool * option content).
Context (layout : Layout) (runtimeActive : bool).

(** Credentials that a login leaves in [home]/auth.json. *)
Definition run_login (mode : LoginMode) (auth : path) : M unit := fun w =>
  let '(ok, after) := login (calls w) mode (fs w !! auth) in
  let fs' := match after with Some c => <[auth := c]> (fs w) | None => delete auth (fs w) end in
  (mkWorld fs' (S (calls w)), if ok then Ok tt else Err LoginFailed).

Definition readLiveAuth : M (option content) :=
  let! r := try (ReadFile fails (LiveAuthFile layout)) in
  match r with
  | Ok payload => ret (Some payload)
  | Err NotExist => ret None
  | Err e => throw e
  end.

Definition restoreLiveAuth (backup : option content) : M unit :=
  match backup with
  | Some payload => WriteLiveAuth fails layout payload
  | None =>
      let! r := try (RemoveFile fails (LiveAuthFile layout)) in
      match r with
      | Err NotExist | Ok _ => ret tt
      | Err e => throw e
      end
  end.

Definition persistAccount (state : State) (alias : string) (authBytes : content) : M unit :=
  let! _ := WriteSnapshot fails layout alias authBytes in
  SaveState fails layout (set_account state alias (mkAccountState alias true)).

(** [auth.json] below a temporary directory, which is removed at the end. *)
Definition captureIsolated (mode : LoginMode) (alias : string) : M content :=
  let! _ := os_call fails in
  let! _ := os_call fails in
  let auth := IsolatedHomesDir layout ++ [alias +:+ "-"; "codex-home"; "auth.json"] in
  let! r := try (let! _ := run_login mode auth in
                 let! payload := try (ReadFile fails auth) in
                 match payload with
                 | Ok c => ret c
                 | Err NotExist => throw NoAuthLeft
                 | Err e => throw e
                 end) in
  fun w => (mkWorld (delete auth (fs w)) (calls w), r).

(** The test both [Add] and [Import] begin with. *)
Definition check_new (state : State) (alias : string) : M unit :=
  match Accounts state !! alias with
  | Some _ => throw AlreadyExists
  | None =>
      let! r := try (ReadSnapshot fails layout alias) in
      match r with
      | Ok _ => throw AlreadyExists
      | Err NotExist => ret tt
      | Err e => throw e
      end
  end.

(** The live credentials go into the snapshot of the active account. *)
Definition backup_active (state : State) (backup : option content) : M unit :=
  match backup with
  | Some payload => if String.eqb (ActiveAlias state) "" then ret tt
                    else WriteSnapshot fails layout (ActiveAlias state) payload
  | None => ret tt
  end.

(** Put the live credentials back, ignore a failure, report [e]. *)
Definition restore_and_throw (backup : option content) (e : error) : M unit :=
  let! _ := try (restoreLiveAuth backup) in throw e.

Definition Add (alias : string) (options : AddOptions) : M unit :=
  if runtimeActive && negb (Isolated options) then throw IsolationRequired
  else
    let! state := LoadState fails layout in
    let! _ := check_new state alias in
    let mode := if DeviceAuth options then LoginModeDeviceAuth else LoginModeBrowser in
    if Isolated options then
      let! authBytes := captureIsolated mode alias in
      persistAccount state alias authBytes
    else
      let! backup := readLiveAuth in
      let! _ := backup_active state backup in
      let! r := try (run_login mode (LiveAuthFile layout)) in
      match r with
      | Err e => restore_and_throw backup e
      | Ok _ =>
          let! captured := try (ReadFile fails (LiveAuthFile layout)) in
          match captured with
          | Err NotExist => restore_and_throw backup NoAuthLeft
          | Err e => restore_and_throw backup e
          | Ok captured =>
              let! p := try (persistAccount state alias captured) in
              match p with
              | Err e => restore_and_throw backup e
              | Ok _ => restoreLiveAuth backup
              end
          end
      end.

Definition Import (alias : string) (authFile : option path) : M unit :=
  match authFile with
  | None => throw AuthFileRequired
  | Some file =>
      let! state := LoadState fails layout in
      let! _ := check_new state alias in
      let! payload := ReadFile fails file in
      let! backup := readLiveAuth in
      let! _ := backup_active state backup in
      let! _ := WriteSnapshot fails layout alias payload in
      let! _ := WriteLiveAuth fails layout payload in
      SaveState fails layout
        (mkState (Version state) alias (<[alias := mkAccountState alias true]> (Accounts state)))
  end.

Definition List_ : M (list AccountSummary) :=
  let! state := LoadState fails layout in
  ret (map (fun alias =>
         mkAccountSummary alias
           (match Accounts state !! alias with Some a => Enabled a | None => false end)
           (String.eqb alias (ActiveAlias state)))
       (sorted_aliases state)).

Definition Status_ : M StatusSummary :=
  let! accounts := List_ in
  ret (mkStatusSummary (Z.of_nat (length accounts))
         (Z.of_nat (length (List.filter SummaryEnabled accounts)))
         (fold_left (fun active a => if Active a then SummaryAlias a else active) accounts "")).

Definition Remove (alias : string) : M unit :=
  let! state := LoadState fails layout in
  if String.eqb alias (ActiveAlias state) then throw ActiveAccount
  else
    let! _ := SaveState fails layout
                (mkState (Version state) (ActiveAlias state) (delete alias (Accounts state))) in
    let! r := try (RemoveFile fails (snapshot_path layout alias)) in
    match r with
    | Ok _ | Err NotExist => ret tt
    | Err e => throw e
    end.

Definition setEnabled (alias : string) (enabled : bool) : M unit :=
  let! state := LoadState fails layout in
  match Accounts state !! alias with
  | Some _ => SaveState fails layout (set_account state alias (mkAccountState alias enabled))
  | None =>
      let! r := try (ReadSnapshot fails layout alias) in
      match r with
      | Err _ => throw NotFound
      | Ok _ => SaveState fails layout (set_account state alias (mkAccountState alias enabled))
      end
  end.

Definition Enable (alias : string) : M unit := setEnabled alias true.
Definition Disable (alias : string) : M unit := setEnabled alias false.
End Manager.

(** ** Lemmas *)

Section Frames.
Context (fails : nat -> bool) (login : nat -> LoginMode -> option content -> bool * option content).
Context (root : path).
Let layout := ResolveLayout root.
Let other (p : path) : Prop := p <> LiveAuthFile layout.

(** What does not write the live credentials. *)
Lemma live_WriteSnapshot alias c : touches other (WriteSnapshot fails layout alias c).
Proof. apply touches_WriteSnapshot. intros H. apply (layout_distinct root alias H). Qed.

Lemma live_SaveState s : touches other (SaveState fails layout s).
Proof. apply touches_SaveState. unfold other. intros E. by apply app_inv_head in E. Qed.

Lemma live_check_new state alias : touches other (check_new fails layout state alias).
Proof.
  unfold check_new. destruct (Accounts state !! alias); [auto with go|].
  apply touches_bind; [auto using touches_ReadSnapshot with go|]. intros [|[]]; auto with go.
Qed.

Lemma live_backup_active state b : touches other (backup_active fails layout state b).
Proof. unfold backup_active. repeat case_match; auto using live_WriteSnapshot with go. Qed.

Lemma live_persistAccount state alias c : touches other (persistAccount fails layout state alias c).
Proof.
  unfold persistAccount. apply touches_bind; [apply live_WriteSnapshot|]. intros _. apply live_SaveState.
Qed.

Lemma live_run_login mode auth : auth <> LiveAuthFile layout -> touches other (run_login login mode auth).
Proof.
  intros Ha w w' r E p Hp. unfold run_login in E. destruct (login _ _ _) as [ok after].
  assert (Hpl : p = LiveAuthFile layout) by (destruct (decide (p = LiveAuthFile layout)); [done | by destruct Hp]).
  subst p. injection E as <- <-. simpl. destruct after; [by apply lookup_insert_ne | by apply lookup_delete_ne].
Qed.

Lemma live_captureIsolated mode alias : touches other (captureIsolated fails login layout mode alias).
Proof.
  unfold captureIsolated. set (auth := IsolatedHomesDir layout ++ _).
  assert (Ha : auth <> LiveAuthFile layout).
  { unfold auth. simpl. rewrite <- app_assoc. intros E. by apply app_inv_head in E. }
  apply touches_bind; [auto with go|]. intros _. apply touches_bind; [auto with go|]. intros _.
  apply touches_bind.
  - apply touches_try, touches_bind; [by apply live_run_login|]. intros _.
    apply touches_bind; [auto using touches_ReadFile with go|]. intros [|[]]; auto with go.
  - intros r w w' r' E p Hp. injection E as <- <-. simpl. apply lookup_delete_ne.
    intros E. apply Hp. unfold other. by rewrite <- E.
Qed.

Lemma live_same {A} (m : M A) w w' r :
  touches other m -> m w = (w', r) -> fs w' !! LiveAuthFile layout = fs w !! LiveAuthFile layout.
Proof. intros Ht E. eapply Ht; [exact E|]. unfold other. tauto. Qed.

Lemma readLiveAuth_Ok w w' b :
  readLiveAuth fails layout w = (w', Ok b) -> fs w' = fs w /\ b = fs w !! LiveAuthFile layout.
Proof.
  unfold readLiveAuth, bind, try. destruct (ReadFile fails (LiveAuthFile layout) w) as [w1 [c|[]]] eqn:E;
    try done; intros [= <- <-].
  - apply ReadFile_Ok in E as [-> ->]. done.
  - apply ReadFile_NotExist in E as [-> ->]. done.
Qed.

(** Restoring works unless the file system fails. *)
Lemma restoreLiveAuth_spec b w w' r :
  restoreLiveAuth fails layout b w = (w', r) -> (r = Ok tt \/ forall n, fails n = false) ->
  fs w' !! LiveAuthFile layout = b.
Proof.
  intros E Hr. destruct b as [c|]; cbn [restoreLiveAuth] in E.
  - destruct Hr as [-> | Hnf].
    + apply write_Ok in E. rewrite E. apply lookup_insert_eq.
    + destruct (write_nofault fails (LiveAuthFile layout) c w Hnf) as [k Ek].
      unfold WriteLiveAuth in E. rewrite Ek in E. injection E as <- <-. apply lookup_insert_eq.
  - unfold bind, try in E.
    destruct (RemoveFile fails (LiveAuthFile layout) w) as [w1 r1] eqn:ER.
    apply RemoveFile_cases in ER as [(-> & Hf) | [(-> & Hf & Hn) | (-> & Hf & n & Hn)]];
      unfold ret, throw in E; injection E as <- <-; rewrite Hf.
    + apply lookup_delete_eq.
    + done.
    + destruct Hr as [Hr | Hnf]; [done | congruence].
Qed.

Lemma restore_and_throw_spec b e w w' r :
  restore_and_throw fails layout b e w = (w', r) ->
  r = Err e /\ ((forall n, fails n = false) -> fs w' !! LiveAuthFile layout = b).
Proof.
  unfold restore_and_throw, bind, try. destruct (restoreLiveAuth fails layout b w) as [w1 r1] eqn:E.
  intros [= <- <-]. split; [done|]. intros Hnf. eapply restoreLiveAuth_spec; [exact E | by right].
Qed.

(** Results of sequences, step by step. *)
(** The part of [Add] after the backup. *)
Lemma Add_tail_live (state : State) alias mode b w w' r :
  (let! r := try (run_login login mode (LiveAuthFile layout)) in
   match r with
   | Err e => restore_and_throw fails layout b e
   | Ok _ =>
       let! captured := try (ReadFile fails (LiveAuthFile layout)) in
       match captured with
       | Err NotExist => restore_and_throw fails layout b NoAuthLeft
       | Err e => restore_and_throw fails layout b e
       | Ok captured =>
           let! p := try (persistAccount fails layout state alias captured) in
           match p with
           | Err e => restore_and_throw fails layout b e
           | Ok _ => restoreLiveAuth fails layout b
           end
       end
   end) w = (w', r) ->
  (r = Ok tt \/ forall n, fails n = false) -> fs w' !! LiveAuthFile layout = b.
Proof.
  assert (HT : forall e v v' q, restore_and_throw fails layout b e v = (v', q) ->
    (q = Ok tt \/ forall n, fails n = false) -> fs v' !! LiveAuthFile layout = b).
  { intros e v v' q E Hq. apply restore_and_throw_spec in E as [-> H]. destruct Hq; [done | auto]. }
  intros [(r1 & w1 & E1 & E2) | (e & E1 & ->)]%bind_inv Hr;
    [|by apply try_inv in E1 as (? & _ & ?)].
  destruct r1 as [|e]; [|by eapply HT].
  apply bind_inv in E2 as [(r2 & w2 & E2 & E3) | (e & E2 & ->)];
    [|by apply try_inv in E2 as (? & _ & ?)].
  destruct r2 as [captured|e]; [|destruct e; by eapply HT].
  apply bind_inv in E3 as [(r3 & w3 & E3 & E4) | (e & E3 & ->)];
    [|by apply try_inv in E3 as (? & _ & ?)].
  destruct r3 as [|e]; [|by eapply HT]. by eapply restoreLiveAuth_spec.
Qed.
End Frames.

(** ** Properties *)

(** C40: adding an account never changes the live credentials, whatever the
    login writes: when it succeeds, and, if the file system does not fail,
    also on every error path. *)
Theorem Add_keeps_live fails login root runtimeActive alias options w w' r :
  let layout := ResolveLayout root in
  Add fails login layout runtimeActive alias options w = (w', r) ->
  (r = Ok tt \/ forall n, fails n = false) ->
  fs w' !! LiveAuthFile layout = fs w !! LiveAuthFile layout.
Proof.
  intros layout. subst layout. intros E Hr. unfold Add in E. destruct (runtimeActive && negb (Isolated options)).
  { by injection E as <- <-. }
  apply bind_inv in E as [(state & w1 & E1 & E) | (e & E1 & ->)];
    [|by eapply live_same; [apply touches_LoadState|]].
  rewrite <- (live_same root _ _ _ _ (touches_LoadState fails (ResolveLayout root) _) E1).
  apply bind_inv in E as [([] & w2 & E2 & E) | (e & E2 & ->)];
    [|by eapply live_same; [apply live_check_new|]].
  rewrite <- (live_same root _ _ _ _ (live_check_new fails root state alias) E2).
  destruct (Isolated options).
  - apply bind_inv in E as [(auth & w3 & E3 & E) | (e & E3 & ->)];
      [|by eapply live_same; [apply live_captureIsolated|]].
    rewrite <- (live_same root _ _ _ _ (live_captureIsolated fails login root _ alias) E3).
    by eapply live_same; [apply live_persistAccount|].
  - apply bind_inv in E as [(b & w3 & E3 & E) | (e & E3 & ->)].
    + apply readLiveAuth_Ok in E3 as [Hfs ->]. rewrite <- Hfs.
      apply bind_inv in E as [([] & w4 & E4 & E) | (e & E4 & ->)];
        [|by eapply live_same; [apply live_backup_active|]].
      eapply Add_tail_live; [|exact Hr].
      rewrite Hfs. exact E.
    + eapply live_same; [|exact E3]. unfold readLiveAuth.
      apply touches_bind; [auto using touches_ReadFile with go|]. intros [|[]]; auto with go.
Qed.

(** A home with one active account and a login that leaves new credentials. *)
Definition demo_layout : Layout := ResolveLayout ["home"].
Definition demo_state : State := mkState 1 "a" {["a" := mkAccountState "a" true]}.
Definition demo_world : world :=
  mkWorld (<[LiveAuthFile demo_layout := Bytes (chars "token-a")]>
           {[StateFile demo_layout := StateDoc demo_state]}) 0.
Definition demo_login (call : nat) (mode : LoginMode) (before : option content) : bool * option content :=
  (true, Some (Bytes (chars "token-b"))).
Definition no_fault (n : nat) : bool := false.

Definition demo_add : world * result error unit :=
  Add no_fault demo_login demo_layout false "b" (mkAddOptions false false) demo_world.

Lemma Add_keeps_live_witness :
  snd demo_add = Ok tt /\
  fs (fst demo_add) !! snapshot_path demo_layout "b" = Some (Bytes (chars "token-b")) /\
  fs (fst demo_add) !! LiveAuthFile demo_layout = Some (Bytes (chars "token-a")).
Proof.
  assert (Hr : snd demo_add = Ok tt) by (vm_compute; reflexivity).
  split; [exact Hr|]. split; [vm_compute; reflexivity|].
  refine (eq_trans (Add_keeps_live no_fault demo_login ["home"] false "b" (mkAddOptions false false)
    demo_world (fst demo_add) (snd demo_add) (surjective_pairing _) (or_introl Hr)) _).
  vm_compute. reflexivity.
Defined.

(** [Remove] does not check the alias: a relative path reaches other files.
    Here the state of all accounts is deleted, and the call succeeds. *)
Example Remove_outside_snapshots :
  let w' := Remove no_fault demo_layout "../state" demo_world in
  snd w' = Ok tt /\ fs (fst w') !! StateFile demo_layout = None /\
  snd (List_ no_fault demo_layout (fst w')) = Ok [].
Proof. vm_compute. repeat split. Qed.

Example manager_examples :
  snd (List_ no_fault demo_layout (fst demo_add)) =
    Ok [mkAccountSummary "a" true true; mkAccountSummary "b" true false] /\
  snd (Status_ no_fault demo_layout (fst demo_add)) = Ok (mkStatusSummary 2 2 "a") /\
  snd (Add no_fault demo_login demo_layout true "b" (mkAddOptions false false) demo_world) = Err IsolationRequired /\
  snd (Remove no_fault demo_layout "a" demo_world) = Err ActiveAccount.
Proof. vm_compute. repeat split. Qed.
