(* ===== verification/AccountCoordinator.v ===== *)
(** * Running turns with account switching: [src/pkg/codexaccounts/coordinator.go]

    The runtime is a set of functions of the number of the call: a turn gets
    the request and what the file of the live credentials holds, and returns its
    result and what it leaves in the file (the app server refreshes it itself);
    rate limits are read separately. Nothing says that the file is read: an app
    server that runs already keeps the account with which it was started, and a
    switch does not stop it ([Client.Start] in codexruntime/client.go does
    nothing while there is a connection). *)

From S2P Require Import Prelude Effects GoStrings GoLib.
Import GoRegexp.
From S2P Require Import AccountPolicy AccountStore AccountManager.

(** The part of [codexruntime.RunRequest] that the coordinator changes. *)
Record RunRequest : Type := mkRunRequest {
  Payload : string;
  AllowResume : bool;
  AllowServerRestart : bool
}.

Record RateLimitSnapshot : Type := mkRateLimit {
  PrimaryUsedPercent : option Z;
  PrimaryResetAt : time;
  SecondaryUsedPercent : option Z;
  SecondaryResetAt : time
}.

(** [codexruntime.RuntimeStatusSnapshot]: the fields that the coordinator
    sets, the others as one value. *)
Record RuntimeStatusSnapshot : Type := mkStatus {
  OtherStatus : string;
  ActiveAccountAlias : string;
  AccountHealth : string;
  TelemetryFresh : bool;
  StatusFiveHour : Z;
  StatusWeekly : Z;
  SwitchTrigger : string
}.

Definition enableSwitchRecovery (req : RunRequest) : RunRequest :=
  mkRunRequest (Payload req) true true.

(** The accounts that are enabled and have telemetry, in the order of one
    iteration over the map of accounts. *)
Definition enabledHealthCandidates (accounts : list (string * AccountState))
    (healthByAlias : gmap string HealthSnapshot) : list HealthSnapshot :=
  omap (fun '(alias, account) => if Enabled account then healthByAlias !! alias else None) accounts.

Definition fallbackAlias (state : State) (exclude : string) : option string :=
  find_first (fun alias => negb (String.eqb alias exclude) &&
      match Accounts state !! alias with Some account => Enabled account | None => false end)
    (sorted_aliases state).

Definition with_active (state : State) (alias : string) : State :=
  mkState (Version state) alias (Accounts state).

(** The snapshot that the limits of a runtime amount to. *)
Definition fold_limits (limits : list RateLimitSnapshot) (h : HealthSnapshot) : HealthSnapshot :=
  fold_left (fun h limit =>
    let h := match PrimaryUsedPercent limit with
             | Some p => mkHealth (Alias h) (Status h) (clampRemainingPercent p) (WeeklyRemainingPct h)
                           (PrimaryResetAt limit) (WeeklyResetAt h) (ObservedAt h)
             | None => h
             end in
    match SecondaryUsedPercent limit with
    | Some p => mkHealth (Alias h) (Status h) (FiveHourRemainingPct h) (clampRemainingPercent p)
                  (FiveHourResetAt h) (SecondaryResetAt limit) (ObservedAt h)
    | None => h
    end) limits h.

Definition with_status (h : HealthSnapshot) (status : string) : HealthSnapshot :=
  mkHealth (Alias h) status (FiveHourRemainingPct h) (WeeklyRemainingPct h)
    (FiveHourResetAt h) (WeeklyResetAt h) (ObservedAt h).

Definition health_of_limits (activeAlias : string) (observedAt : time) (limits : list RateLimitSnapshot) :
    HealthSnapshot :=
  let h := fold_limits limits (mkHealth activeAlias "healthy" 0 0 zero_time zero_time observedAt) in
  if (FiveHourRemainingPct h <=? 0) || (WeeklyRemainingPct h <=? 0) then with_status h "exhausted"
  else if (FiveHourRemainingPct h <=? softSwitchFiveHourPercent)
          || (WeeklyRemainingPct h <? weeklyFloorPercent) then with_status h "soft-drain"
  else h.

(** ** What a status reports of the account *)

Definition status_account (status : RuntimeStatusSnapshot) (state : State) : RuntimeStatusSnapshot :=
  if String.eqb (ActiveAlias state) "" then status
  else mkStatus (OtherStatus status) (ActiveAlias state) (AccountHealth status) (TelemetryFresh status)
         (StatusFiveHour status) (StatusWeekly status) (SwitchTrigger status).

Definition status_health (status : RuntimeStatusSnapshot) (t : time) (health : HealthSnapshot) :
    RuntimeStatusSnapshot :=
  mkStatus (OtherStatus status) (ActiveAccountAlias status) (Status health) (isTelemetryFresh t health)
    (FiveHourRemainingPct health) (WeeklyRemainingPct health) (SwitchTrigger status).

Definition status_trigger (status : RuntimeStatusSnapshot) (trigger : string) : RuntimeStatusSnapshot :=
  mkStatus (OtherStatus status) (ActiveAccountAlias status) (AccountHealth status) (TelemetryFresh status)
    (StatusFiveHour status) (StatusWeekly status) trigger.

Section Coordinator.
Context (fails : nat -> bool).
Context (RunTextTurnOf : nat -> RunRequest -> option content -> result bool string * option content).
(** An error of [ReadRateLimits] may be [os.ErrNotExist]. *)
Context (ReadRateLimitsOf : nat -> result bool (list RateLimitSnapshot)).
Context (ReadStatusOf : nat -> option RuntimeStatusSnapshot).
Context (now : nat -> time).
(** The order of an iteration over the accounts. *)
Context (order : gmap string AccountState -> list (string * AccountState)).
(** [last_refresh] in a snapshot, and the modification time of its file. *)
Context (last_refresh : content -> option time) (mtime : nat -> time).
Context (layout : Layout).

(** [c.now()]: the clock is a function of the number of calls made so far. *)
Definition clock : M time := fun w => (w, Ok (now (calls w))).

(** A turn of the runtime; [RunFailed b] tells whether the error is the
    exhaustion of the usage limit ([IsUsageExhausted]). *)
Definition run_turn (req : RunRequest) : M string := fun w =>
  let live := LiveAuthFile layout in
  let '(r, after) := RunTextTurnOf (calls w) req (fs w !! live) in
  let fs' := match after with Some c => <[live := c]> (fs w) | None => delete live (fs w) end in
  (mkWorld fs' (S (calls w)), match r with Ok text => Ok text | Err exhausted => Err (RunFailed exhausted) end).

Definition read_limits : M (list RateLimitSnapshot) := fun w =>
  (mkWorld (fs w) (S (calls w)),
   match ReadRateLimitsOf (calls w) with Ok l => Ok l | Err missing => Err (if missing : bool then NotExist else NoLimits) end).

Definition switchActiveAlias (state : State) (targetAlias trigger routeReason : string)
    (appServerRestart : bool) : M unit :=
  let! snapshot := ReadSnapshot fails layout targetAlias in
  let! _ := WriteLiveAuth fails layout snapshot in
  let! _ := SaveState fails layout (with_active state targetAlias) in
  let! t := clock in
  AppendSwitchEvent fails layout
    (mkSwitchEvent t (ActiveAlias state) targetAlias trigger routeReason "same_thread_resume" true
       appServerRestart).

Definition maybeSoftSwitch : M bool :=
  let! state := LoadState fails layout in
  if String.eqb (ActiveAlias state) "" then ret false
  else
    let! healthByAlias := loadHealth fails layout in
    match healthByAlias !! ActiveAlias state with
    | None => ret false
    | Some activeHealth =>
        let! t := clock in
        if negb (ShouldSoftSwitch t activeHealth) then ret false
        else
          match ChooseTarget (ActiveAlias state)
                  (enabledHealthCandidates (order (Accounts state)) healthByAlias) with
          | None => ret false
          | Some (target, reason) =>
              let! _ := switchActiveAlias state target "soft_threshold_5h" reason true in ret true
          end
    end.

(** The new map is also what the caller goes on with. *)
Definition refreshHealth (activeAlias : string) (healthByAlias : gmap string HealthSnapshot) :
    M (gmap string HealthSnapshot) :=
  let! limits := read_limits in
  let! observedAt := clock in
  let healthByAlias := <[activeAlias := health_of_limits activeAlias observedAt limits]> healthByAlias in
  let! _ := SaveHealth fails layout healthByAlias in
  ret healthByAlias.

Definition stat_time (p : path) : M time :=
  let! r := try (ReadFile fails p) in
  fun w => (w, Ok (match r with Ok _ => mtime (calls w) | Err _ => zero_time end)).

Definition snapshotRefreshTime (alias : string) : M time :=
  let! r := try (ReadSnapshot fails layout alias) in
  match r with
  | Ok c => match last_refresh c with
            | Some t => ret t
            | None => stat_time (SnapshotsDir layout ++ [alias +:+ ".json"])
            end
  | Err _ => stat_time (SnapshotsDir layout ++ [alias +:+ ".json"])
  end.

Definition syncLiveAuth : M unit :=
  let! state := LoadState fails layout in
  if String.eqb (ActiveAlias state) "" then ret tt
  else
    let! healthByAlias := loadHealth fails layout in
    let! _ := refreshHealth (ActiveAlias state) healthByAlias in
    let! lastRefresh := snapshotRefreshTime (ActiveAlias state) in
    let! t := clock in
    if negb (ShouldSyncAfterTurn lastRefresh t) then ret tt
    else
      let! r := try (ReadLiveAuth fails layout) in
      match r with
      | Ok liveAuth => WriteSnapshot fails layout (ActiveAlias state) liveAuth
      | Err NotExist => ret tt
      | Err e => throw e
      end.

(** A result next to an error: the turn succeeded but the bookkeeping did
    not. *)
Definition with_sync (text : string) : M (string * option error) :=
  let! r := try syncLiveAuth in
  match r with Ok _ => ret (text, None) | Err e => ret (text, Some e) end.

Definition mark_exhausted (activeAlias : string) (t : time) (healthByAlias : gmap string HealthSnapshot) :
    gmap string HealthSnapshot :=
  let current := default (mkHealth "" "" 0 0 zero_time zero_time zero_time) (healthByAlias !! activeAlias) in
  <[activeAlias := mkHealth (if String.eqb (Alias current) "" then activeAlias else Alias current)
                     "exhausted" 0 (WeeklyRemainingPct current) (FiveHourResetAt current)
                     (WeeklyResetAt current) t]> healthByAlias.

(** [refreshHealthLocked] before the account is marked: the map is changed
    before it is saved, and an error other than a missing file stops the
    switch. *)
Definition refresh_or_keep (activeAlias : string) (healthByAlias : gmap string HealthSnapshot) :
    M (gmap string HealthSnapshot) :=
  let! limits := try read_limits in
  match limits with
  | Err NotExist => ret healthByAlias
  | Err e => throw e
  | Ok limits =>
  let! observedAt := clock in
  let updated := <[activeAlias := health_of_limits activeAlias observedAt limits]> healthByAlias in
  let! r := try (SaveHealth fails layout updated) in
  match r with
  | Ok _ | Err NotExist => ret updated
  | Err e => throw e
  end
  end.

Definition retryAfterHardSwitch (req : RunRequest) (originalErr : error) : M (string * option error) :=
  let! state := LoadState fails layout in
  if String.eqb (ActiveAlias state) "" then throw originalErr
  else
    let! healthByAlias := loadHealth fails layout in
    let! healthByAlias := refresh_or_keep (ActiveAlias state) healthByAlias in
    let! t := clock in
    let healthByAlias := mark_exhausted (ActiveAlias state) t healthByAlias in
    let! _ := SaveHealth fails layout healthByAlias in
    let choice :=
      match ChooseTarget (ActiveAlias state)
              (enabledHealthCandidates (order (Accounts state)) healthByAlias) with
      | Some (target, reason) => Some (target, reason)
      | None => (fun target => (target, "first_enabled_fallback")) <$> fallbackAlias state (ActiveAlias state)
      end in
    match choice with
    | None => throw originalErr
    | Some (target, reason) =>
        let! _ := switchActiveAlias state target "hard_usage_exhausted" reason true in
        let! text := run_turn (enableSwitchRecovery req) in
        with_sync text
    end.

Definition RunTextTurn (req : RunRequest) : M (string * option error) :=
  let! switched := maybeSoftSwitch in
  let req := if switched : bool then enableSwitchRecovery req else req in
  let! r := try (run_turn req) in
  match r with
  | Ok text => with_sync text
  | Err (RunFailed true) => retryAfterHardSwitch req (RunFailed true)
  | Err e => throw e
  end.

Definition read_status : M RuntimeStatusSnapshot := fun w =>
  (mkWorld (fs w) (S (calls w)),
   match ReadStatusOf (calls w) with Some status => Ok status | None => Err NoStatus end).

Definition ReadStatus : M RuntimeStatusSnapshot :=
  let! status := read_status in
  let! state := LoadState fails layout in
  let status := status_account status state in
  let! healthByAlias := loadHealth fails layout in
  let! t := clock in
  let status := match healthByAlias !! ActiveAccountAlias status with
                | Some health => status_health status t health
                | None => status
                end in
  if String.eqb (SwitchTrigger status) "" then
    let! trigger := lastSwitchTrigger fails layout in
    ret (status_trigger status trigger)
  else ret status.
End Coordinator.

(** ** Lemmas *)

Definition well_keyed (health : gmap string HealthSnapshot) : Prop :=
  forall alias h, health !! alias = Some h -> Alias h = alias.

Lemma LoadState_Ok fails layout w w' state :
  LoadState fails layout w = (w', Ok state) ->
  fs w' = fs w /\ (fs w !! StateFile layout = Some (StateDoc state) \/
                   (fs w !! StateFile layout = None /\ state = mkState 1 "" ∅)).
Proof.
  unfold LoadState, bind, try. destruct (ReadFile fails (StateFile layout) w) as [w1 [c|[]]] eqn:E; try done.
  - apply ReadFile_Ok in E as [Hf Hc]. destruct c; try done. unfold ret. intros [= <- <-]. auto.
  - apply ReadFile_NotExist in E as [Hf Hc]. unfold ret. intros [= <- <-]. auto.
Qed.

Lemma loadHealth_Ok fails layout w w' health :
  loadHealth fails layout w = (w', Ok health) ->
  fs w' = fs w /\ (fs w !! HealthFile layout = Some (HealthDoc health) \/
                   (fs w !! HealthFile layout = None /\ health = ∅)).
Proof.
  unfold loadHealth, bind, try. destruct (ReadFile fails (HealthFile layout) w) as [w1 [c|[]]] eqn:E; try done.
  - apply ReadFile_Ok in E as [Hf Hc]. destruct c; try done. unfold ret. intros [= <- <-]. auto.
  - apply ReadFile_NotExist in E as [Hf Hc]. unfold ret. intros [= <- <-]. auto.
Qed.

Lemma switchActiveAlias_Ok fails now root state target trigger reason restart w w' :
  let layout := ResolveLayout root in
  switchActiveAlias fails now layout state target trigger reason restart w = (w', Ok tt) ->
  MatchString aliasPattern target = true /\
  exists snapshot, fs w !! snapshot_path layout target = Some snapshot /\
    fs w' !! LiveAuthFile layout = Some snapshot /\
    fs w' !! StateFile layout = Some (StateDoc (with_active state target)) /\
    fs w' !! snapshot_path layout target = Some snapshot.
Proof.
  cbv zeta. set (layout := ResolveLayout root).
  intros [(snap & w1 & E1 & E) | (e & E1 & ?)]%bind_inv; [|done].
  unfold ReadSnapshot in E1. destruct (MatchString aliasPattern target) eqn:Ha; [|done]. simpl negb in E1. cbv iota in E1.
  split; [done|]. exists snap. apply ReadFile_Ok in E1 as [F1 Hs].
  apply bind_inv in E as [([] & w2 & E2 & E) | (e & E2 & ?)]; [|done]. apply write_Ok in E2.
  apply bind_inv in E as [([] & w3 & E3 & E) | (e & E3 & ?)]; [|done]. apply write_Ok in E3.
  destruct (layout_distinct root target Ha) as (D1 & D2 & D3 & D4 & D5 & D6 & D7 & D8 & D9 & D10).
  fold layout in D1, D2, D3, D4, D5, D6, D7, D8, D9, D10.
  unfold bind at 1 in E. unfold clock in E.
  assert (HF : forall p, p <> SwitchAuditFile layout -> fs w' !! p = fs w3 !! p).
  { intros p Hp. eapply (touches_AppendSwitchEvent fails layout (eq (SwitchAuditFile layout))); [done | exact E |].
    intros Eq. by apply Hp. }
  rewrite !HF by done. rewrite E3, E2, F1. split_and!.
  - exact Hs.
  - rewrite lookup_insert_ne by (intros Eq; by apply D5). apply lookup_insert_eq.
  - apply lookup_insert_eq.
  - rewrite lookup_insert_ne by (intros Eq; by apply D2). by rewrite lookup_insert_ne by (intros Eq; by apply D1).
Qed.

(** Candidates are enabled accounts, under their own alias. *)
Lemma candidates_enabled (accounts : gmap string AccountState) entries health c :
  entries ≡ₚ map_to_list accounts -> well_keyed health ->
  c ∈ enabledHealthCandidates entries health ->
  exists account, accounts !! Alias c = Some account /\ Enabled account = true /\ health !! Alias c = Some c.
Proof.
  intros HP HW Hc. unfold enabledHealthCandidates in Hc. apply list_elem_of_omap in Hc as ([alias account] & Hin & Hf).
  destruct (Enabled account) eqn:En; [|done]. rewrite (HW _ _ Hf). exists account.
  rewrite HP in Hin. apply elem_of_map_to_list in Hin. done.
Qed.

Lemma fallbackAlias_spec state exclude target :
  fallbackAlias state exclude = Some target ->
  target <> exclude /\ exists account, Accounts state !! target = Some account /\ Enabled account = true.
Proof.
  intros [H _]%find_first_Some. apply andb_true_iff in H as [H1 H2]. breflect. split; [done|].
  destruct (Accounts state !! target) as [account|]; [eauto | done].
Qed.

(** The alias chosen is that of a candidate, and not the active one. *)
Lemma ChooseTarget_candidate active candidates target reason :
  ChooseTarget active candidates = Some (target, reason) ->
  target <> active /\ exists c, c ∈ candidates /\ Alias c = target.
Proof.
  unfold ChooseTarget. rewrite consider_fold.
  assert (HI : forall (p : HealthSnapshot -> bool), (forall c, p c = true -> Alias c <> active) ->
    forall b, fold_left improve (List.filter p candidates) no_best = b -> best_alias b <> "" ->
    best_alias b <> active /\ exists c, c ∈ candidates /\ Alias c = best_alias b).
  { intros p Hp b <- Hb.
    assert (HG : forall l b0, (forall c, c ∈ l -> c ∈ candidates /\ p c = true) ->
      (best_alias b0 = "" \/ (best_alias b0 <> active /\ exists c, c ∈ candidates /\ Alias c = best_alias b0)) ->
      best_alias (fold_left improve l b0) = "" \/ (best_alias (fold_left improve l b0) <> active /\
        exists c, c ∈ candidates /\ Alias c = best_alias (fold_left improve l b0))).
    { induction l as [|c l IH]; intros b0 Hl Hb0; [done|]. cbn [fold_left]. apply IH.
      - intros d Hd. apply Hl. by right.
      - unfold improve. destruct (_ || _); [|done]. right. cbn [best_alias].
        destruct (Hl c ltac:(by left)) as [Hc Hpc]. split; [by apply Hp | by exists c]. }
    destruct (HG (List.filter p candidates) no_best) as [? | ?]; try done; [|by left].
    intros c Hc. by apply elem_filter in Hc. }
  assert (Hnot : forall c, negb (skipped active c) = true -> Alias c <> active).
  { intros c Hs. unfold skipped in Hs. apply negb_true_iff, orb_false_iff in Hs as [[Hs _]%orb_false_iff _].
    by breflect. }
  destruct (String.eqb_spec (best_alias (fold_left improve (List.filter (healthy_for active) candidates) no_best)) "")
    as [E|E]; cbn [negb].
  - destruct (String.eqb_spec (best_alias (fold_left improve (List.filter (fallback_for active) candidates) no_best)) "")
      as [E'|E']; cbn [negb]; [done|]. intros [= <- <-].
    eapply (HI (fallback_for active)); [|done|done]. intros c Hc. apply Hnot.
    unfold fallback_for in Hc. by apply andb_true_iff in Hc as [? _].
  - intros [= <- <-]. eapply (HI (healthy_for active)); [|done|done]. intros c Hc. apply Hnot.
    unfold healthy_for in Hc. by apply andb_true_iff in Hc as [? _].
Qed.

Lemma health_of_limits_alias alias t limits : Alias (health_of_limits alias t limits) = alias.
Proof.
  unfold health_of_limits.
  assert (HF : forall h, Alias (fold_limits limits h) = Alias h).
  { unfold fold_limits. induction limits as [|l limits IH]; intros h; cbn [fold_left]; [done|].
    rewrite IH. by destruct (PrimaryUsedPercent l), (SecondaryUsedPercent l). }
  repeat case_match; cbn [with_status Alias]; by rewrite HF.
Qed.

Lemma well_keyed_insert health alias h : well_keyed health -> Alias h = alias -> well_keyed (<[alias := h]> health).
Proof.
  intros HW Ha a x Hx. destruct (decide (a = alias)) as [->|].
  - rewrite lookup_insert_eq in Hx. by injection Hx as <-.
  - rewrite lookup_insert_ne in Hx by done. by apply HW.
Qed.

Lemma mark_exhausted_keyed alias t health : well_keyed health -> well_keyed (mark_exhausted alias t health).
Proof.
  intros HW. unfold mark_exhausted. apply well_keyed_insert; [done|]. cbn [Alias].
  destruct (health !! alias) as [h|] eqn:E; simpl; [|done].
  rewrite (HW _ _ E). by destruct (String.eqb_spec alias "") as [->|].
Qed.

Section HardSwitch.
Context (fails : nat -> bool).
Context (RunTextTurnOf : nat -> RunRequest -> option content -> result bool string * option content).
Context (ReadRateLimitsOf : nat -> result bool (list RateLimitSnapshot)) (now : nat -> time).
Context (order : gmap string AccountState -> list (string * AccountState)).
Context (last_refresh : content -> option time) (mtime : nat -> time) (root : path).
Let layout := ResolveLayout root.

Lemma refresh_or_keep_Ok alias health w w' health' :
  refresh_or_keep fails ReadRateLimitsOf now layout alias health w = (w', Ok health') ->
  well_keyed health ->
  well_keyed health' /\ forall p, p <> HealthFile layout -> fs w' !! p = fs w !! p.
Proof.
  intros E HW. unfold refresh_or_keep in E.
  apply bind_inv in E as [(limits & w1 & E1 & E) | (e & _ & ?)]; [|done].
  assert (F1 : fs w1 = fs w) by (apply try_inv in E1 as (? & E1 & _); unfold read_limits in E1; by injection E1 as <- _).
  destruct limits as [limits|[]]; try done; [|unfold ret in E; injection E as <- <-; by rewrite F1].
  unfold bind at 1, clock in E.
  set (updated := <[alias := _]> health) in E.
  assert (HU : well_keyed updated) by (apply well_keyed_insert; [done | apply health_of_limits_alias]).
  apply bind_inv in E as [(r & w2 & E2 & E) | (e & _ & ?)]; [|done].
  apply try_inv in E2 as (r0 & E2 & Er). injection Er as ->.
  assert (HF : forall p, p <> HealthFile layout -> fs w2 !! p = fs w !! p).
  { intros p Hp. rewrite <- F1.
    eapply (touches_SaveHealth fails layout (eq (HealthFile layout))); [done | exact E2 |].
    intros Eq. by apply Hp. }
  destruct r0 as [|[]]; try done; unfold ret in E; injection E as <- <-; done.
Qed.

Lemma syncLiveAuth_state w w' r :
  syncLiveAuth fails ReadRateLimitsOf now last_refresh mtime layout w = (w', r) ->
  fs w' !! StateFile layout = fs w !! StateFile layout.
Proof.
  assert (HT : touches (fun p => p <> StateFile layout)
    (syncLiveAuth fails ReadRateLimitsOf now last_refresh mtime layout)).
  { unfold syncLiveAuth. apply touches_bind; [apply touches_LoadState|]. intros state.
    destruct (String.eqb _ _); [auto with go|].
    apply touches_bind; [apply touches_loadHealth|]. intros health.
    apply touches_bind.
    { unfold refreshHealth. apply touches_bind; [intros v v' q E p _; by injection E as <- _|]. intros limits.
      apply touches_bind; [intros v v' q E p _; by injection E as <- _|]. intros t.
      apply touches_bind; [|auto with go]. apply touches_SaveHealth.
      intros Eq. by apply app_inv_head in Eq. }
    intros _. apply touches_bind.
    { assert (HS : forall q, touches (fun p => p <> StateFile layout) (stat_time fails mtime q)).
      { intros q. unfold stat_time. apply touches_bind; [auto using touches_ReadFile with go|].
        intros r0 v v' q0 E p _. by injection E as <- _. }
      unfold snapshotRefreshTime. apply touches_bind; [auto using touches_ReadSnapshot with go|].
      intros [c|]; [destruct (last_refresh c)|]; auto with go. }
    intros t0. apply touches_bind; [intros v v' q E p _; by injection E as <- _|]. intros t.
    destruct (negb _); [auto with go|].
    apply touches_bind; [apply touches_try, touches_ReadFile|].
    intros [c|[]]; auto with go. apply touches_WriteSnapshot.
    intros Ha. apply (layout_distinct root _ Ha). }
  intros E. eapply HT; [exact E | tauto].
Qed.
End HardSwitch.

(** ** Properties *)

(** A turn that is answered after the usage limit was reached was run again with
    permission to resume and to restart the server, while the file of the live
    credentials held those of another account, which is enabled and now the
    active one; whatever the order of the map iteration and whichever calls of
    the file system fail. Whether the server that runs has read the file is not
    said, see above. *)
Theorem hard_switch_uses_other_account fails runs limits now order last_refresh mtime root req e w w' text err :
  let layout := ResolveLayout root in
  (forall accounts, order accounts ≡ₚ map_to_list accounts) ->
  (forall h, fs w !! HealthFile layout = Some (HealthDoc h) -> well_keyed h) ->
  retryAfterHardSwitch fails runs limits now order last_refresh mtime layout req e w = (w', Ok (text, err)) ->
  exists state target account snapshot call after,
    fs w !! StateFile layout = Some (StateDoc state) /\ target <> ActiveAlias state /\
    Accounts state !! target = Some account /\ Enabled account = true /\
    fs w !! snapshot_path layout target = Some snapshot /\
    runs call (enableSwitchRecovery req) (Some snapshot) = (Ok text, after) /\
    fs w' !! StateFile layout = Some (StateDoc (with_active state target)).
Proof.
  cbv zeta. set (layout := ResolveLayout root). intros Hord HK E. unfold retryAfterHardSwitch in E.
  apply bind_inv in E as [(state & w1 & E1 & E) | (x & _ & ?)]; [|done].
  apply LoadState_Ok in E1 as [F1 HS]. destruct (String.eqb_spec (ActiveAlias state) "") as [|Hact]; [done|].
  destruct HS as [HS | [_ ->]]; [|done].
  apply bind_inv in E as [(health & w2 & E2 & E) | (x & _ & ?)]; [|done].
  apply loadHealth_Ok in E2 as [F2 HH].
  assert (HW : well_keyed health).
  { destruct HH as [HH | [_ ->]]; [apply HK; by rewrite <- F1 | intros a h Hh; by rewrite lookup_empty in Hh]. }
  apply bind_inv in E as [(health2 & w3 & E3 & E) | (x & _ & ?)]; [|done].
  apply refresh_or_keep_Ok in E3 as [HW2 F3]; [|done].
  unfold bind at 1, clock in E.
  pose proof (mark_exhausted_keyed (ActiveAlias state) (now (calls w3)) health2 HW2) as HW3.
  set (health3 := mark_exhausted _ _ health2) in *.
  apply bind_inv in E as [([] & w4 & E4 & E) | (x & _ & ?)]; [|done]. apply write_Ok in E4.
  set (choice := match ChooseTarget _ _ with Some _ => _ | None => _ end) in E.
  assert (HC : forall target reason, choice = Some (target, reason) ->
    target <> ActiveAlias state /\ exists account, Accounts state !! target = Some account /\ Enabled account = true).
  { unfold choice. intros target reason Hch.
    destruct (ChooseTarget (ActiveAlias state) _) as [[t r]|] eqn:ET.
    - injection Hch as -> ->. apply ChooseTarget_candidate in ET as [Hne (c & Hc & <-)]. split; [done|].
      eapply candidates_enabled in Hc as (account & ? & ? & _); [eauto | apply Hord | done].
    - destruct (fallbackAlias state (ActiveAlias state)) as [t|] eqn:EF; [|done].
      injection Hch as -> _. by apply fallbackAlias_spec. }
  destruct choice as [[target reason]|]; [|done].
  destruct (HC target reason eq_refl) as (Hne & account & Hacc & Hen).
  apply bind_inv in E as [([] & w5 & E5 & E) | (x & _ & ?)]; [|done].
  apply switchActiveAlias_Ok in E5 as (Ha & snapshot & Hsnap & Hlive & Hst & _). fold layout in Hsnap, Hlive, Hst.
  apply bind_inv in E as [(out & w6 & E6 & E) | (x & _ & ?)]; [|done].
  unfold run_turn in E6. rewrite Hlive in E6.
  destruct (runs (calls w5) (enableSwitchRecovery req) (Some snapshot)) as [[txt|x] after] eqn:Erun;
    injection E6 as Ew6 Eo; [subst out | done].
  apply bind_inv in E as [(r & w7 & E7 & E) | (x & _ & ?)]; [|done].
  apply try_inv in E7 as (r0 & E7 & _).
  assert (Hw7 : w' = w7 /\ text = txt) by (destruct r; unfold ret in E; by injection E as <- <- _).
  destruct Hw7 as [-> ->]. apply syncLiveAuth_state in E7. fold layout in E7.
  exists state, target, account, snapshot, (calls w5), after.
  destruct (layout_distinct root target Ha) as (_ & _ & D3 & _ & D5 & _). fold layout in D3, D5.
  split_and!; try done.
  - rewrite E4 in Hsnap. rewrite lookup_insert_ne in Hsnap by (intros Eq; by apply D3).
    rewrite F3 in Hsnap by done. by rewrite <- F1, <- F2.
  - rewrite E7, <- Ew6. cbn [fs]. destruct after as [c|].
    + by rewrite lookup_insert_ne.
    + by rewrite lookup_delete_ne.
Qed.

(** ** A concrete coordinator

    Accounts [a] (active) and [b]; the runtime rotates the credentials of
    every turn and reports an exhausted limit for those of [a]. *)

Definition two_state : State :=
  mkState 1 "a" (<["a" := mkAccountState "a" true]> {["b" := mkAccountState "b" true]}).

Definition two_world : world :=
  mkWorld (<[StateFile demo_layout := StateDoc two_state]>
           (<[LiveAuthFile demo_layout := Bytes (chars "token-a")]>
           (<[snapshot_path demo_layout "a" := Bytes (chars "token-a")]>
           {[snapshot_path demo_layout "b" := Bytes (chars "token-b")]}))) 0.

Definition is_token (t : string) (c : option content) : bool :=
  match c with Some (Bytes l) => String.eqb (implode l) t | _ => false end.

Definition demo_runs (call : nat) (req : RunRequest) (live : option content) :
    result bool string * option content :=
  if is_token "token-b" live then (Ok "done", live)
  else (Err true, Some (Bytes (chars "token-a2"))).

Definition demo_limits (call : nat) : result bool (list RateLimitSnapshot) :=
  Ok [mkRateLimit (Some 30) 0 (Some 40) 0].
Definition demo_now (call : nat) : time := Z.of_nat call + Hour.
Definition demo_mtime (call : nat) : time := Hour.
Definition demo_request : RunRequest := mkRunRequest "hello" false false.

Definition demo_turn (fails : nat -> bool) (w : world) : world * result error (string * option error) :=
  RunTextTurn fails demo_runs demo_limits demo_now map_to_list (fun _ => None) demo_mtime demo_layout
    demo_request w.

Definition demo_retry : world * result error (string * option error) :=
  retryAfterHardSwitch no_fault demo_runs demo_limits demo_now map_to_list (fun _ => None) demo_mtime
    demo_layout demo_request (RunFailed true) two_world.

Lemma hard_switch_uses_other_account_witness :
  snd demo_retry = Ok ("done", None) /\
  exists state target, fs two_world !! StateFile demo_layout = Some (StateDoc state) /\
    target <> ActiveAlias state /\
    fs (fst demo_retry) !! StateFile demo_layout = Some (StateDoc (with_active state target)).
Proof.
  assert (Hr : snd demo_retry = Ok ("done", None)) by (vm_compute; reflexivity).
  split; [exact Hr|].
  destruct (hard_switch_uses_other_account no_fault demo_runs demo_limits demo_now map_to_list (fun _ => None)
    demo_mtime ["home"] demo_request (RunFailed true) two_world (fst demo_retry) "done" None)
    as (state & target & account & snapshot & call & after & H1 & H2 & _ & _ & _ & _ & H3).
  - intros accounts. reflexivity.
  - intros h Hh. vm_compute in Hh. discriminate Hh.
  - etransitivity; [apply surjective_pairing|]. by rewrite <- Hr.
  - exists state, target. auto.
Defined.

(** The credentials that the runtime refreshed for [a] are overwritten by the
    switch: no file holds them any more. *)
Example switch_loses_refreshed_credentials :
  let w' := fst (demo_turn no_fault two_world) in
  fs w' !! LiveAuthFile demo_layout = Some (Bytes (chars "token-b")) /\
  fs w' !! snapshot_path demo_layout "a" = Some (Bytes (chars "token-a")).
Proof. vm_compute. split; reflexivity. Qed.

(** When the state cannot be saved after the live credentials were replaced,
    they stay those of [b] while [a] is active; the synchronisation after a
    later turn writes them into the snapshot of [a], whose own are lost. *)
Example failed_switch_mixes_accounts :
  exists k,
    let w1 := fst (demo_turn (Nat.eqb k) two_world) in
    let w2 := fst (syncLiveAuth no_fault demo_limits (fun n => Z.of_nat n + 8 * Hour) (fun _ => None)
                     demo_mtime demo_layout w1) in
    snd (demo_turn (Nat.eqb k) two_world) = Err IOError /\
    fs w1 !! StateFile demo_layout = Some (StateDoc two_state) /\
    fs w1 !! LiveAuthFile demo_layout = Some (Bytes (chars "token-b")) /\
    fs w2 !! snapshot_path demo_layout "a" = Some (Bytes (chars "token-b")).
Proof. exists 13%nat. vm_compute. repeat split. Qed.

(** A limit without weekly data counts as an exhausted account. *)
Example missing_weekly_limit_is_exhausted :
  Status (health_of_limits "a" 1 [mkRateLimit (Some 10) 5 None 0]) = "exhausted" /\
  Status (health_of_limits "a" 1 []) = "exhausted".
Proof. vm_compute. split; reflexivity. Qed.

(** ** The status *)

Lemma touches_lastSwitchTrigger P fails layout : touches P (lastSwitchTrigger fails layout).
Proof.
  unfold lastSwitchTrigger. apply touches_bind; [auto using touches_ReadFile with go|].
  intros [[]|[]]; auto with go.
Qed.

(** Reading the status changes no file. *)
Theorem ReadStatus_reads fails statuses now layout : touches (fun _ => False) (ReadStatus fails statuses now layout).
Proof.
  unfold ReadStatus. apply touches_bind; [intros w w' r E; by injection E as <- <-|]. intros status.
  apply touches_bind; [apply touches_LoadState|]. intros state.
  apply touches_bind; [apply touches_loadHealth|]. intros health.
  apply touches_bind; [intros w w' r E; by injection E as <- <-|]. intros t.
  case_match; [|auto with go]. apply touches_bind; [apply touches_lastSwitchTrigger | auto with go].
Qed.

(** A status names the active account and gives the telemetry recorded for
    it. Telemetry is reported as fresh for fifteen minutes. *)
Theorem ReadStatus_account fails statuses now layout w w' status state health h :
  ReadStatus fails statuses now layout w = (w', Ok status) ->
  fs w !! StateFile layout = Some (StateDoc state) -> ActiveAlias state <> "" ->
  fs w !! HealthFile layout = Some (HealthDoc health) -> health !! ActiveAlias state = Some h ->
  ActiveAccountAlias status = ActiveAlias state /\ AccountHealth status = Status h /\
  StatusFiveHour status = FiveHourRemainingPct h /\ StatusWeekly status = WeeklyRemainingPct h /\
  exists t, TelemetryFresh status = isTelemetryFresh t h.
Proof.
  intros E HS Ha HH Hh. unfold ReadStatus, bind in E.
  unfold read_status in E. destruct (statuses (calls w)) as [s0|]; [|done].
  destruct (LoadState fails layout _) as [w2 [state'|]] eqn:E2; [|done].
  apply LoadState_Ok in E2 as [Hf2 [Hs|[Hs _]]]; cbn [fs] in *; [|congruence].
  assert (state' = state) as -> by congruence.
  destruct (loadHealth fails layout w2) as [w3 [health'|]] eqn:E3; [|done].
  apply loadHealth_Ok in E3 as [Hf3 HH']. rewrite Hf2, HH in HH'.
  destruct HH' as [[= <-]|[? _]]; [|done].
  cbn [clock] in E. unfold status_account in E.
  destruct (String.eqb_spec (ActiveAlias state) ""); [done|]. cbn [ActiveAccountAlias] in E.
  rewrite Hh in E. set (s1 := status_health _ _ _) in E.
  destruct (String.eqb (SwitchTrigger s1) "").
  - destruct (lastSwitchTrigger fails layout w3) as [w4 [trigger|]]; [|done].
    injection E as _ <-. cbn. eauto 10.
  - injection E as _ <-. cbn. eauto 10.
Qed.
