(* ===== verification/Binding.v ===== *)
(** * Thread bindings: [src/pkg/codexruntime/binding_store.go]

    One JSON file per conversation in the directory of the store, by file
    name. A document is kept as the value that it encodes. Every call of the
    operating system can fail: [fails n] tells whether the [n]-th one does. *)

From S2P Require Import Prelude Effects GoStrings GoLib.
Import GoRegexp GoSha256.

(** ** File names *)

(** [[a-zA-Z0-9._-]] *)
Definition safe_char : cls := fun c =>
  is_lower c || is_upper c || is_digit c || Ascii.eqb c "." || Ascii.eqb c "_" || Ascii.eqb c "-".

(** [bindingFilenameUnsafeChars.ReplaceAllString(label, "_")]; a multi-byte
    character consists of unsafe bytes only. *)
Fixpoint collapse_unsafe (inrun : bool) (l : list ascii) : list ascii :=
  match l with
  | [] => []
  | c :: l' =>
      if safe_char c then c :: collapse_unsafe false l'
      else if inrun then collapse_unsafe true l'
      else "_"%char :: collapse_unsafe true l'
  end.

(** [strings.Trim(label, "._-")] *)
Definition is_punct (c : ascii) : bool := Ascii.eqb c "." || Ascii.eqb c "_" || Ascii.eqb c "-".

Fixpoint strip_punct (l : list ascii) : list ascii :=
  match l with
  | c :: l' => if is_punct c then strip_punct l' else l
  | [] => []
  end.

Definition trim_punct (l : list ascii) : list ascii := rev (strip_punct (rev (strip_punct l))).

Definition binding_label (key : string) : string :=
  let label := TrimSpace key in
  let label := if String.eqb label "" then "binding" else label in
  let label := implode (trim_punct (collapse_unsafe false (chars label))) in
  if String.eqb label "" then "binding" else label.

Definition sanitizeBindingKey (key : string) : string :=
  binding_label key +:+ "-" +:+ EncodeToString (take 6 (Sum256 key)).

Definition pathForKey (key : string) : string := sanitizeBindingKey key +:+ ".json".

(** ** Data *)

Inductive meta_value : Type :=
| MBool (b : bool)
| MString (s : string)
| MOther (json : string).

Record Binding : Type := mkBinding {
  Key : string;
  ThreadID : string;
  AgentID : string;
  Channel : string;
  ThreadKey : string;
  Model : string;
  ThinkingMode : string;
  FastEnabled : bool;
  LastUserMessageAt : time;
  Metadata : gmap string meta_value;
  CreatedAt : time;
  UpdatedAt : time
}.

Definition no_binding (key : string) : Binding := mkBinding key "" "" "" "" "" "" false zero_time ∅ zero_time zero_time.

Definition with_key (b : Binding) (key : string) : Binding :=
  mkBinding key (ThreadID b) (AgentID b) (Channel b) (ThreadKey b) (Model b) (ThinkingMode b) (FastEnabled b)
    (LastUserMessageAt b) (Metadata b) (CreatedAt b) (UpdatedAt b).
Definition with_thread (b : Binding) (threadID : string) : Binding :=
  mkBinding (Key b) threadID (AgentID b) (Channel b) (ThreadKey b) (Model b) (ThinkingMode b) (FastEnabled b)
    (LastUserMessageAt b) (Metadata b) (CreatedAt b) (UpdatedAt b).
Definition with_model (b : Binding) (model : string) : Binding :=
  mkBinding (Key b) (ThreadID b) (AgentID b) (Channel b) (ThreadKey b) model (ThinkingMode b) (FastEnabled b)
    (LastUserMessageAt b) (Metadata b) (CreatedAt b) (UpdatedAt b).
Definition with_thinking (b : Binding) (mode : string) : Binding :=
  mkBinding (Key b) (ThreadID b) (AgentID b) (Channel b) (ThreadKey b) (Model b) mode (FastEnabled b)
    (LastUserMessageAt b) (Metadata b) (CreatedAt b) (UpdatedAt b).
Definition with_fast (b : Binding) (fast : bool) : Binding :=
  mkBinding (Key b) (ThreadID b) (AgentID b) (Channel b) (ThreadKey b) (Model b) (ThinkingMode b) fast
    (LastUserMessageAt b) (Metadata b) (CreatedAt b) (UpdatedAt b).
Definition with_last_message (b : Binding) (t : time) : Binding :=
  mkBinding (Key b) (ThreadID b) (AgentID b) (Channel b) (ThreadKey b) (Model b) (ThinkingMode b) (FastEnabled b)
    t (Metadata b) (CreatedAt b) (UpdatedAt b).
Definition with_metadata (b : Binding) (m : gmap string meta_value) : Binding :=
  mkBinding (Key b) (ThreadID b) (AgentID b) (Channel b) (ThreadKey b) (Model b) (ThinkingMode b) (FastEnabled b)
    (LastUserMessageAt b) m (CreatedAt b) (UpdatedAt b).
Definition with_times (b : Binding) (created updated : time) : Binding :=
  mkBinding (Key b) (ThreadID b) (AgentID b) (Channel b) (ThreadKey b) (Model b) (ThinkingMode b) (FastEnabled b)
    (LastUserMessageAt b) (Metadata b) created updated.

Inductive document : Type := Json (b : Binding) | Malformed.

Record store : Type := mkStore { files : gmap string document; os_calls : nat }.

Inductive store_error : Type := ReadFailed | DecodeFailed | WriteFailed | RemoveFailed.

Abbreviation S := (ST store store_error).

(** ** Operations *)

Section Store.
Context (fails : nat -> bool) (now : nat -> time).

Definition os_call (e : store_error) : S unit := fun s =>
  (mkStore (files s) (Datatypes.S (os_calls s)), if fails (os_calls s) then Err e else Ok tt).

(** [time.Now().UTC()] *)
Definition clock : S time := fun s => (s, Ok (now (os_calls s))).

Definition Load (key : string) : S (option Binding) :=
  let! _ := os_call ReadFailed in fun s =>
    (s, match files s !! pathForKey key with
        | None => Ok None
        | Some (Json b) => Ok (Some b)
        | Some Malformed => Err DecodeFailed
        end).

(** The directory, the temporary file and the rename can each fail; only
    the rename changes the file of the binding. *)
Definition write_binding (b : Binding) : S unit :=
  let! _ := os_call WriteFailed in
  let! _ := os_call WriteFailed in
  let! _ := os_call WriteFailed in fun s =>
    (mkStore (<[pathForKey (Key b) := Json b]> (files s)) (os_calls s), Ok tt).

Definition Save (b : Binding) : S unit :=
  let! t := clock in
  let! created :=
    if IsZero (CreatedAt b) then
      let! existing := Load (Key b) in
      match existing with
      | Some e => ret (if IsZero (CreatedAt e) then t else CreatedAt e)
      | None => ret t
      end
    else ret (CreatedAt b) in
  write_binding (with_times b created t).

Definition LoadThread (key : string) : S (option string) :=
  let! b := Load key in ret (ThreadID <$> b).

Definition SaveThread (key threadID model : string) : S unit :=
  let! b := Load key in
  let b := with_thread (with_key (default (no_binding key) b) key) threadID in
  Save (if String.eqb model "" then b else with_model b model).

Definition mutate (key : string) (apply : Binding -> Binding) : S unit :=
  let! b := Load key in Save (apply (with_key (default (no_binding key) b) key)).

Definition SetModel (key model : string) : S unit := mutate key (fun b => with_model b model).
Definition SetThinkingMode (key mode : string) : S unit := mutate key (fun b => with_thinking b mode).
Definition SetFastEnabled (key : string) (fast : bool) : S unit := mutate key (fun b => with_fast b fast).
Definition SetLastUserMessageAt (key : string) (t : time) : S unit := mutate key (fun b => with_last_message b t).

Definition Delete (key : string) : S unit :=
  let! _ := os_call RemoveFailed in fun s => (mkStore (delete (pathForKey key) (files s)) (os_calls s), Ok tt).

Definition run_metadata : list string :=
  ["recovery_mode"; "restart_attempted"; "resume_attempted"; "fell_back_to_fresh"; "force_fresh_thread";
   "last_compaction_at"].

Definition reset_binding (b : Binding) : Binding :=
  with_metadata (with_thread b "") (fold_right delete (Metadata b) run_metadata).

Definition ResetThread (key : string) : S unit :=
  let! b := Load key in
  match b with
  | None => ret tt
  | Some b => Save (reset_binding b)
  end.
End Store.

Example sanitize_examples :
  sanitizeBindingKey "agent:main:telegram:direct:1" = "agent_main_telegram_direct_1-"
    +:+ EncodeToString (take 6 (Sum256 "agent:main:telegram:direct:1")) /\
  binding_label "../../etc/passwd" = "etc_passwd" /\ binding_label " ... " = "binding".
Proof. vm_compute. auto. Qed.

(** ** File names *)

Lemma collapse_safe b l : Forall (fun c => safe_char c = true) (collapse_unsafe b l).
Proof.
  revert b; induction l as [|c l IH]; intros b; simpl; [constructor|].
  destruct (safe_char c) eqn:E; [by constructor|]. destruct b; [done|]. by constructor.
Qed.

Lemma strip_punct_suffix l : exists p, l = p ++ strip_punct l.
Proof.
  induction l as [|c l [p Hp]]; simpl; [by exists []|].
  destruct (is_punct c); [|by exists []]. exists (c :: p). by rewrite Hp at 1.
Qed.

Lemma strip_punct_head l c k : strip_punct l = c :: k -> is_punct c = false.
Proof.
  induction l as [|x l IH]; simpl; [done|]. destruct (is_punct x) eqn:E; [done|].
  by intros [= -> _].
Qed.

Lemma trim_punct_prefix l : exists q, strip_punct l = trim_punct l ++ q.
Proof.
  unfold trim_punct. destruct (strip_punct_suffix (rev (strip_punct l))) as [p Hp]. exists (rev p).
  by rewrite <- rev_app_distr, <- Hp, rev_involutive.
Qed.

Lemma trim_punct_safe l :
  Forall (fun c => safe_char c = true) l -> Forall (fun c => safe_char c = true) (trim_punct l).
Proof.
  intros H. destruct (strip_punct_suffix l) as [p Hp]. rewrite Hp in H. apply Forall_app in H as [_ H].
  destruct (trim_punct_prefix l) as [q Hq]. rewrite Hq in H. by apply Forall_app in H as [H _].
Qed.

Lemma trim_punct_head l c k : trim_punct l = c :: k -> is_punct c = false.
Proof.
  intros E. destruct (trim_punct_prefix l) as [q Hq]. rewrite E in Hq. by eapply strip_punct_head.
Qed.

Lemma binding_label_safe key :
  exists c l, chars (binding_label key) = c :: l /\ is_punct c = false /\
    Forall (fun c => safe_char c = true) (c :: l).
Proof.
  unfold binding_label. set (l := trim_punct _).
  destruct (String.eqb_spec (implode l) "") as [E|E].
  - do 2 eexists. split; [reflexivity|]. split; [done|]. by repeat constructor.
  - rewrite chars_implode. destruct l as [|c k] eqn:El; [done|]. exists c, k. split; [done|].
    unfold l in El. split; [by eapply trim_punct_head|]. rewrite <- El. apply trim_punct_safe, collapse_safe.
Qed.

Lemma hex_safe l : Forall (fun c => safe_char c = true) (chars (EncodeToString l)).
Proof.
  assert (HD : forall z, safe_char (hex_digit z) = true).
  { intros z. unfold hex_digit. generalize (Z.to_nat z). intros n.
    do 16 (destruct n as [|n]; [reflexivity|]). by destruct n. }
  unfold EncodeToString. rewrite chars_implode. induction l as [|b l IH]; simpl; [constructor|].
  by repeat (constructor; [apply HD|]).
Qed.

(** Every key, whatever it contains, names a file of the store's directory
    itself: no separator, no leading dot, so that it is neither [..] nor one
    of the temporary files. *)
Theorem pathForKey_safe key :
  exists c l, chars (pathForKey key) = c :: l /\ is_punct c = false /\
    Forall (fun c => safe_char c = true) (c :: l).
Proof.
  destruct (binding_label_safe key) as (c & l & El & Hp & HF).
  exists c, (l ++ "-"%char :: chars (EncodeToString (take 6 (Sum256 key))) ++ chars ".json").
  split; [|split; [done|]].
  - unfold pathForKey, sanitizeBindingKey. by rewrite !chars_app, El, <- !app_assoc.
  - inversion HF; subst. constructor; [done|]. apply Forall_app. split; [done|].
    constructor; [done|]. apply Forall_app. split; [apply hex_safe | by repeat constructor].
Qed.

Lemma length_hash key : length (chars (EncodeToString (take 6 (Sum256 key)))) = 12%nat.
Proof. by rewrite length_hex, length_take, length_Sum256. Qed.

(** Two keys share a file exactly when label and hash prefix agree. *)
Lemma pathForKey_eq k1 k2 :
  pathForKey k1 = pathForKey k2 <->
  binding_label k1 = binding_label k2 /\
  EncodeToString (take 6 (Sum256 k1)) = EncodeToString (take 6 (Sum256 k2)).
Proof.
  unfold pathForKey, sanitizeBindingKey. split; [|by intros [-> ->]].
  intros E%(f_equal chars). rewrite !chars_app in E.
  apply app_inj_2 in E as [E _]; [|done]. apply app_inj_2 in E as [E1 E2].
  - apply app_inv_head in E2. split; by apply chars_inj.
  - by rewrite !length_app, !length_hash.
Qed.

(** ** The store implements a map from keys to bindings *)

Inductive op : Type :=
| OSave (b : Binding)
| OSaveThread (key threadID model : string)
| OSetModel (key model : string)
| OSetThinkingMode (key mode : string)
| OSetFastEnabled (key : string) (fast : bool)
| OSetLastUserMessageAt (key : string) (t : time)
| ODelete (key : string)
| OResetThread (key : string).

Definition op_key (o : op) : string :=
  match o with
  | OSave b => Key b
  | OSaveThread k _ _ | OSetModel k _ | OSetThinkingMode k _ | OSetFastEnabled k _
  | OSetLastUserMessageAt k _ | ODelete k | OResetThread k => k
  end.

Definition run_op (fails : nat -> bool) (now : nat -> time) (o : op) : S unit :=
  match o with
  | OSave b => Save fails now b
  | OSaveThread k th m => SaveThread fails now k th m
  | OSetModel k m => SetModel fails now k m
  | OSetThinkingMode k m => SetThinkingMode fails now k m
  | OSetFastEnabled k f => SetFastEnabled fails now k f
  | OSetLastUserMessageAt k t => SetLastUserMessageAt fails now k t
  | ODelete k => Delete fails k
  | OResetThread k => ResetThread fails now k
  end.

(** The abstract operations, at time [t]. *)
Definition created_at (t : time) (b : Binding) (old : option Binding) : time :=
  if IsZero (CreatedAt b) then
    match old with
    | Some e => if IsZero (CreatedAt e) then t else CreatedAt e
    | None => t
    end
  else CreatedAt b.

Definition put (t : time) (b : Binding) (m : gmap string Binding) : gmap string Binding :=
  <[Key b := with_times b (created_at t b (m !! Key b)) t]> m.

Definition update (t : time) (key : string) (f : Binding -> Binding) (m : gmap string Binding) :
    gmap string Binding :=
  put t (f (default (no_binding key) (m !! key))) m.

(** What an operation makes of a binding, field by field. *)
Definition spec_fields (o : op) (b : Binding) : Binding :=
  let '(mkBinding k thread agent channel thread_key model mode fast last meta created updated) := b in
  match o with
  | OSave _ | ODelete _ => b
  | OSaveThread _ thread' model' =>
      mkBinding k thread' agent channel thread_key (if String.eqb model' "" then model else model') mode fast last meta created updated
  | OSetModel _ model' => mkBinding k thread agent channel thread_key model' mode fast last meta created updated
  | OSetThinkingMode _ mode' => mkBinding k thread agent channel thread_key model mode' fast last meta created updated
  | OSetFastEnabled _ fast' => mkBinding k thread agent channel thread_key model mode fast' last meta created updated
  | OSetLastUserMessageAt _ last' => mkBinding k thread agent channel thread_key model mode fast last' meta created updated
  | OResetThread _ =>
      mkBinding k "" agent channel thread_key model mode fast last
        (filter (fun x => ~ (x.1 ∈ ["recovery_mode"; "restart_attempted"; "resume_attempted"; "fell_back_to_fresh";
                                    "force_fresh_thread"; "last_compaction_at"])) meta) created updated
  end.

Definition spec_op (t : time) (o : op) (m : gmap string Binding) : gmap string Binding :=
  match o with
  | OSave b => put t b m
  | ODelete k => delete k m
  | OResetThread k => if decide (is_Some (m !! k)) then update t k (spec_fields o) m else m
  | _ => update t (op_key o) (spec_fields o) m
  end.

(** The files of the keys [K] hold the map, each binding under its own key. *)
Definition represents (K : gset string) (s : store) (m : gmap string Binding) : Prop :=
  (forall k, k ∈ K -> files s !! pathForKey k = Json <$> (m !! k)) /\
  (forall k b, m !! k = Some b -> Key b = k).

Definition separate (K : gset string) : Prop :=
  forall k1 k2, k1 ∈ K -> k2 ∈ K -> pathForKey k1 = pathForKey k2 -> k1 = k2.

(** The first six bytes of the SHA-256 sum tell the keys apart. *)
Definition hashes_differ (K : gset string) : Prop :=
  forall k1 k2, k1 ∈ K -> k2 ∈ K -> EncodeToString (take 6 (Sum256 k1)) = EncodeToString (take 6 (Sum256 k2)) -> k1 = k2.

Lemma hashes_separate K : hashes_differ K -> separate K.
Proof. intros HK k1 k2 H1 H2 [_ E]%pathForKey_eq. by apply HK. Qed.

Lemma update_ext t k f g m : (forall b, f b = g b) -> update t k f m = update t k g m.
Proof. intros E. unfold update. by rewrite E. Qed.

Lemma reset_fields k b : reset_binding b = spec_fields (OResetThread k) b.
Proof.
  destruct b as [? ? ? ? ? ? ? ? ? meta ? ?]. unfold reset_binding, with_metadata, with_thread, spec_fields. cbn [Metadata Key AgentID Channel ThreadKey Model ThinkingMode FastEnabled LastUserMessageAt CreatedAt UpdatedAt ThreadID].
  f_equal. apply map_eq. intros i. unfold run_metadata. cbn [fold_right]. rewrite map_lookup_filter.
  destruct (decide (i ∈ ["recovery_mode"; "restart_attempted"; "resume_attempted"; "fell_back_to_fresh";
                        "force_fresh_thread"; "last_compaction_at"])) as [Hi|Hi].
  - transitivity (@None meta_value).
    + rewrite !elem_of_cons in Hi. repeat (destruct Hi as [->|Hi]; [by repeat (rewrite lookup_delete_eq || rewrite lookup_delete_ne by done)|]).
      by apply elem_of_nil in Hi.
    + destruct (meta !! i); [|done]. cbn. rewrite option_guard_False; [done|]. intros Hn. by apply Hn.
  - pose proof Hi as Hi'. rewrite !not_elem_of_cons in Hi'. rewrite !lookup_delete_ne by naive_solver.
    destruct (meta !! i); [|done]. cbn. by rewrite option_guard_True.
Qed.

Section Refinement.
Context (fails : nat -> bool) (now : nat -> time) (K : gset string) (HK : separate K).

(** One step of the store: it fails and leaves the files, or it does what
    [f] says for some reading of the clock. *)
Definition implements (c : S unit) (f : time -> gmap string Binding -> gmap string Binding) : Prop :=
  forall s m s' r, represents K s m -> c s = (s', r) ->
    (r = Ok tt /\ exists t, represents K s' (f t m)) \/
    ((exists e, r = Err e) /\ files s' = files s /\ exists n, fails n = true).

Lemma represents_files s s' m : files s' = files s -> represents K s m -> represents K s' m.
Proof. intros E [H1 H2]. split; [|done]. intros k Hk. rewrite E. auto. Qed.

Lemma os_call_cases e s s' r :
  os_call fails e s = (s', r) ->
  files s' = files s /\ (r = Ok tt \/ (r = Err e /\ exists n, fails n = true)).
Proof. unfold os_call. intros [= <- <-]. destruct (fails (os_calls s)) eqn:E; eauto. Qed.

Lemma Load_cases key s m s' r :
  represents K s m -> key ∈ K -> Load fails key s = (s', r) ->
  files s' = files s /\
  (r = Ok (m !! key) \/ ((exists e, r = Err e) /\ exists n, fails n = true)).
Proof.
  intros [HR _] Hk [([] & s1 & E1 & E2) | (e & E1 & ->)]%bind_inv; apply os_call_cases in E1 as [Hf Hr].
  - injection E2 as <- <-. rewrite Hf, HR by done. split; [done|]. left. by destruct (m !! key).
  - split; [done|]. right. destruct Hr as [?|[? ?]]; [done|]. eauto.
Qed.

Lemma write_cases b s s' r :
  write_binding fails b s = (s', r) ->
  (r = Ok tt /\ files s' = <[pathForKey (Key b) := Json b]> (files s)) \/
  ((exists e, r = Err e) /\ files s' = files s /\ exists n, fails n = true).
Proof.
  unfold write_binding. intros E.
  repeat (let s1 := fresh "s" in let e1 := fresh "e" in
    apply bind_inv in E as [([] & s1 & E1 & E) | (e1 & E1 & ->)];
    pose proof (os_call_cases _ _ _ _ E1) as [Hf Hr]; clear E1; destruct Hr as [Hr|[Hr Hn]];
    try discriminate Hr; clear Hr; try (right; split_and!; eauto; congruence); rewrite <- Hf; clear Hf).
  injection E as <- <-.
  left. split; [done|]. simpl. congruence.
Qed.

Lemma represents_insert s s' m b :
  represents K s m -> Key b ∈ K -> files s' = <[pathForKey (Key b) := Json b]> (files s) ->
  represents K s' (<[Key b := b]> m).
Proof.
  intros [H1 H2] Hb Hf. split.
  - intros k Hk. rewrite Hf. destruct (decide (k = Key b)) as [->|Hne]; [by rewrite !lookup_insert_eq|].
    rewrite !lookup_insert_ne; [auto | congruence |]. intros E. by apply Hne, HK.
  - intros k x. intros [[<- <-] | [_ Hx]]%lookup_insert_Some; auto.
Qed.

Lemma Save_implements b : Key b ∈ K -> implements (Save fails now b) (fun t m => put t b m).
Proof.
  intros Hb s m s' r HR E. unfold Save in E.
  apply bind_inv in E as [(t & s1 & E1 & E) | (e & E1 & ->)]; [|done]. injection E1 as <- <-.
  set (t := now (os_calls s)) in *. unfold put.
  apply bind_inv in E as [(created & s2 & E2 & E) | (e & E2 & ->)].
  - assert (files s2 = files s /\ created = created_at t b (m !! Key b)) as [Hf ->].
    { unfold created_at. destruct (IsZero (CreatedAt b)); [|by injection E2 as <- <-].
      apply bind_inv in E2 as [(x & s3 & E3 & E2) | (? & _ & ?)]; [|done].
      apply (Load_cases _ s m) in E3 as [Hf [[= ->] | [[? ?] _]]]; try done.
      destruct (m !! Key b); by injection E2 as <- <-. }
    apply write_cases in E as [[-> Hw] | (He & Hw & Hn)].
    + left. split; [done|]. exists t. cbn [Key with_times] in *.
      apply (represents_insert s2 s' m (with_times b _ t)); [by eapply represents_files | done | done].
    + right. split_and!; [done | congruence | done].
  - right. destruct (IsZero (CreatedAt b)); [|done].
    apply bind_inv in E2 as [(x & s3 & E3 & E2) | (x & E3 & [= ->])].
    + destruct x as [x|]; done.
    + apply (Load_cases _ s m) in E3 as [Hf [? | [_ Hn]]]; eauto; done.
Qed.

Lemma mutate_implements k f :
  k ∈ K -> (forall b, Key (f b) = Key b) ->
  implements (mutate fails now k f) (fun t m => update t k f m).
Proof.
  intros Hk Hf s m s' r HR E. unfold mutate in E. pose proof (proj2 HR k) as HKey.
  apply bind_inv in E as [(b & s1 & E1 & E) | (e & E1 & ->)].
  - apply (Load_cases _ s m) in E1 as [Hs [[= ->] | [[? ?] _]]]; try done.
    assert (EK : with_key (default (no_binding k) (m !! k)) k = default (no_binding k) (m !! k)).
    { destruct (m !! k) as [b|]; [|done]. simpl. rewrite <- (HKey b eq_refl) at 1. by destruct b. }
    rewrite EK in E. eapply Save_implements in E; [| |by eapply represents_files].
    + destruct E as [? | (? & ? & ?)]; [by left | right]. split_and!; [done | congruence | done].
    + rewrite Hf. destruct (m !! k) as [b|] eqn:Em; [|done].
      change (Key b ∈ K). by rewrite (HKey b eq_refl).
  - apply (Load_cases _ s m) in E1 as [Hs [? | [He Hn]]]; [done | | done | done]. eauto.
Qed.

Lemma implements_ext c f g : (forall t m, f t m = g t m) -> implements c f -> implements c g.
Proof.
  intros Hfg H s m s' r HR E. destruct (H s m s' r HR E) as [[? [t Ht]]|?]; [left | by right].
  split; [done|]. exists t. by rewrite <- Hfg.
Qed.

Lemma Delete_implements k : k ∈ K -> implements (Delete fails k) (fun _ m => delete k m).
Proof.
  intros Hk s m s' r [H1 H2] E. unfold Delete in E.
  apply bind_inv in E as [([] & s1 & E1 & E) | (e & E1 & ->)]; apply os_call_cases in E1 as [Hf Hr].
  - injection E as <- <-. left. split; [done|]. exists 0. split.
    + intros k' Hk'. cbn [files]. rewrite Hf. destruct (decide (k' = k)) as [->|Hne].
      * by rewrite !lookup_delete_eq.
      * rewrite !lookup_delete_ne; [auto | congruence |]. intros E. by apply Hne, HK.
    + intros k' b [_ Hb]%lookup_delete_Some. auto.
  - right. destruct Hr as [?|[? ?]]; [done|]. eauto.
Qed.

Lemma ResetThread_implements k : k ∈ K -> implements (ResetThread fails now k) (fun t m => spec_op t (OResetThread k) m).
Proof.
  intros Hk s m s' r HR E. pose proof (proj2 HR k) as HKey. unfold ResetThread in E.
  apply bind_inv in E as [(b & s1 & E1 & E) | (e & E1 & ->)].
  - apply (Load_cases _ s m) in E1 as [Hs [[= ->] | [[? ?] _]]]; try done. cbn [spec_op].
    destruct (m !! k) as [b|] eqn:Em.
    + pose proof (HKey b eq_refl) as Hb.
      eapply Save_implements in E; [| |by eapply represents_files]; [|change (Key b ∈ K); by rewrite Hb].
      destruct E as [[-> [t Ht]] | (? & ? & ?)].
      * left. split; [done|]. exists t. unfold update. rewrite Em. rewrite decide_True by eauto.
        cbn [default from_option id]. by rewrite <- reset_fields.
      * right. split_and!; [done | congruence | done].
    + injection E as <- <-. left. split; [done|]. exists 0. by eapply represents_files.
  - apply (Load_cases _ s m) in E1 as [Hs [? | [He Hn]]]; [done | | done | done]. eauto.
Qed.

Lemma run_op_implements o : op_key o ∈ K -> implements (run_op fails now o) (fun t m => spec_op t o m).
Proof.
  destruct o; cbn [op_key run_op spec_op]; intros Hk;
    try (eapply implements_ext; [|apply mutate_implements; [done | by intros []]]; intros t' m; apply update_ext; by intros []).
  - by apply Save_implements.
  - eapply implements_ext; [|apply (mutate_implements _ (fun b => if String.eqb model "" then with_thread b threadID
                                         else with_model (with_thread b threadID) model)); [done|]].
    + intros t m. apply update_ext. intros []. cbn. by destruct (String.eqb model "").
    + intros []; by destruct (String.eqb model "").
  - by apply Delete_implements.
  - by apply ResetThread_implements.
Qed.
End Refinement.

(** *** The files after any call, whatever they hold *)

Lemma Load_files fails key s s' r : Load fails key s = (s', r) -> files s' = files s.
Proof. intros [([] & s1 & E1 & E2) | (e & E1 & ->)]%bind_inv; apply os_call_cases in E1 as [Hf _]; by simplify_eq. Qed.

Lemma Load_Ok fails key s s' b :
  Load fails key s = (s', Ok b) -> files s !! pathForKey key = Json <$> b.
Proof.
  intros [([] & s1 & E1 & E2) | (e & E1 & ?)]%bind_inv; [|done]. apply os_call_cases in E1 as [Hf _].
  rewrite Hf in E2. destruct (files s !! pathForKey key) as [[x|]|]; by simplify_eq.
Qed.

Lemma Save_files fails now b s s' r :
  Save fails now b s = (s', r) ->
  (r = Ok tt /\ exists created t,
     files s' = <[pathForKey (Key b) := Json (with_times b created t)]> (files s)) \/
  ((exists e, r = Err e) /\ files s' = files s).
Proof.
  unfold Save. intros [(t & s1 & E1 & E) | (e & E1 & ->)]%bind_inv; [|done]. injection E1 as <- <-.
  apply bind_inv in E as [(created & s2 & E2 & E) | (e & E2 & ->)].
  - assert (Hf : files s2 = files s).
    { destruct (IsZero (CreatedAt b)); [|by injection E2 as <- <-].
      apply bind_inv in E2 as [([x|] & s3 & E3 & E2) | (? & _ & ?)]; try done;
        apply Load_files in E3; by injection E2 as <- <-. }
    rewrite <- Hf. apply write_cases in E as [[-> Hw] | (He & Hw & _)]; [left | by right].
    split; [done|]. by exists created, (now (os_calls s)).
  - right. split; [eauto|]. destruct (IsZero (CreatedAt b)); [|done].
    apply bind_inv in E2 as [([x|] & s3 & E3 & E2) | (x & E3 & _)]; try done. by apply Load_files in E3.
Qed.

Lemma Load_nofault fails key s :
  (forall n, fails n = false) -> files s !! pathForKey key <> Some Malformed ->
  exists k, Load fails key s =
    (mkStore (files s) k, Ok (match files s !! pathForKey key with Some (Json b) => Some b | _ => None end)).
Proof.
  intros Hf HM. unfold Load, bind, os_call. rewrite Hf. cbn [files].
  destruct (files s !! pathForKey key) as [[b|]|]; eauto. done.
Qed.

Lemma Save_nofault fails now b s :
  (forall n, fails n = false) -> files s !! pathForKey (Key b) <> Some Malformed ->
  exists s', Save fails now b s = (s', Ok tt).
Proof.
  intros Hf HM.
  assert (HW : forall x s1, exists s2, write_binding fails x s1 = (s2, Ok tt)).
  { intros x s1. unfold write_binding, bind, os_call. rewrite Hf. cbn [os_calls]. rewrite Hf.
    cbn [os_calls]. rewrite Hf. by eexists. }
  unfold Save, clock, bind, ret. destruct (IsZero (CreatedAt b)); [|apply HW].
  destruct (Load_nofault fails (Key b) s Hf HM) as [k ->].
  by destruct (files s !! pathForKey (Key b)) as [[x|]|].
Qed.

(** *** Sequences of operations *)

Definition run_all (fails : nat -> bool) (now : nat -> time) (ops : list op) (s : store) : store :=
  fold_left (fun s o => fst (run_op fails now o s)) ops s.

(** The operations that took effect, with their times. *)
Definition spec_all (l : list (op * option time)) (m : gmap string Binding) : gmap string Binding :=
  fold_left (fun m '(o, t) => match t with Some t => spec_op t o m | None => m end) l m.

(** C29: on keys that the first six bytes of their SHA-256 sums tell apart,
    whatever their labels are, the store behaves as a map from keys to bindings:
    of a sequence of operations each one either takes effect as on the map or
    fails and changes nothing, and none fails when the file system does not. *)
Theorem store_refines_map fails now K ops s m :
  hashes_differ K -> represents K s m -> Forall (fun o => op_key o ∈ K) ops ->
  exists times, length times = length ops /\
    represents K (run_all fails now ops s) (spec_all (zip ops times) m) /\
    ((forall n, fails n = false) -> Forall is_Some times).
Proof.
  intros HK%hashes_separate HR HF. revert s m HR; induction HF as [|o ops Ho _ IH]; intros s m HR; [by exists []|].
  destruct (run_op fails now o s) as [s' r] eqn:E.
  unfold run_all, spec_all. cbn [fold_left]. rewrite E. cbn [fst].
  destruct (run_op_implements fails now K HK o Ho s m s' r HR E) as [[_ [t Ht]] | (_ & Hs & n & Hn)].
  - destruct (IH s' _ Ht) as (times & Hl & HR' & Hsome). exists (Some t :: times).
    cbn [length zip zip_with fold_left]. split_and!; [congruence | exact HR' |].
    intros Hno. constructor; [by eexists | auto].
  - destruct (IH s' m) as (times & Hl & HR' & Hsome); [by eapply represents_files|]. exists (None :: times).
    cbn [length zip zip_with fold_left]. split_and!; [congruence | exact HR' |].
    intros Hno. by rewrite Hno in Hn.
Qed.

(** Two keys with the same label. *)
Lemma hashes_differ_ab : hashes_differ {["a:b"; "a/b"]}.
Proof.
  intros k1 k2. rewrite !elem_of_union, !elem_of_singleton. intros [->| ->] [->| ->] E; first [reflexivity | exfalso; vm_compute in E; discriminate E].
Qed.

Lemma store_refines_map_witness :
  let ops := [OSetModel "a:b" "gpt"; OResetThread "a/b"; ODelete "a/b"] in
  binding_label "a:b" = binding_label "a/b" /\
  exists times, length times = 3%nat /\
    represents {["a:b"; "a/b"]} (run_all (fun _ => false) (fun n => 5) ops (mkStore ∅ 0))
      (spec_all (zip ops times) ∅) /\ Forall is_Some times.
Proof.
  split; [vm_compute; reflexivity|].
  destruct (store_refines_map (fun _ => false) (fun n => 5) {["a:b"; "a/b"]}
              [OSetModel "a:b" "gpt"; OResetThread "a/b"; ODelete "a/b"] (mkStore ∅ 0) ∅ hashes_differ_ab)
    as (times & Hl & HR & HS).
  - split; intros k; [by rewrite !lookup_empty | intros b; by rewrite lookup_empty].
  - repeat constructor; cbn [op_key]; rewrite elem_of_union, !elem_of_singleton; auto.
  - exists times. split_and!; [exact Hl | exact HR | apply HS; reflexivity].
Defined.

(** Setting and resetting never change the time of creation. *)
Lemma spec_op_created t o m k b :
  (forall key x, m !! key = Some x -> Key x = key) -> m !! k = Some b -> CreatedAt b <> zero_time ->
  match o with OSave _ | ODelete _ => False | _ => True end ->
  exists b', spec_op t o m !! k = Some b' /\ CreatedAt b' = CreatedAt b.
Proof.
  intros HW Hm Hc Ho.
  assert (HU : forall key f, (forall x, Key (f x) = Key x /\ CreatedAt (f x) = CreatedAt x) ->
             exists b', update t key f m !! k = Some b' /\ CreatedAt b' = CreatedAt b).
  { intros key f Hf. unfold update, put. set (x := f _).
    destruct (decide (Key x = k)) as [HE|Hne]; [|rewrite lookup_insert_ne by done; eauto].
    rewrite HE, lookup_insert_eq. eexists. split; [done|]. cbn [with_times CreatedAt]. unfold created_at. rewrite Hm. unfold IsZero.
    destruct (Z.eqb_spec (CreatedAt x) zero_time) as [_|Hx].
    - by destruct (Z.eqb_spec (CreatedAt b) zero_time).
    - unfold x in *. destruct (Hf (default (no_binding key) (m !! key))) as [HfK HfC].
      rewrite HfK in HE. rewrite HfC in Hx |- *.
      destruct (m !! key) as [y|] eqn:Ey; [|done].
      change (Key y = k) in HE. rewrite (HW key y Ey) in HE. change (CreatedAt y = CreatedAt b). congruence. }
  destruct o; try done; cbn [spec_op]; try (apply HU; by intros []).
  case_decide; [apply HU; by intros [] | eauto].
Qed.
