(* ===== verification/CodexRunner.v ===== *)
(** * Turns on persistent threads: [src/pkg/codexruntime/runner.go]

    The client of the app server is any implementation of the interface
    [RunnerClient]: functions of the client's state. The model catalog
    ([catalog.go]) and the status report ([status.go]) are here too. The
    parts of a request that are only handed on (input, sandbox policy, tool
    handler) are one value. *)

From S2P Require Import Prelude Effects GoStrings Binding.

(** ** Data *)

Record RecoveryStatus : Type := mkRecovery {
  RestartAttempted : bool;
  ResumeAttempted : bool;
  FellBackToFresh : bool;
  Mode : string
}.

Definition recoveryModeFresh : string := "fresh".
Definition recoveryModeResumed : string := "resumed".
Definition recoveryModeResumeAfterRestart : string := "resume_after_restart".

Record RunRequest : Type := mkRequest {
  BindingKey : string;
  RequestModel : string;
  Input : string;
  AllowServerRestart : bool;
  AllowResume : bool;
  ControlThinkingMode : string;
  ControlFastEnabled : bool;
  FastEnabledSet : bool;
  ControlLastUserMessageAt : string;
  ForceFreshThread : bool;
  DynamicTools : list string
}.

Record ModelCatalogEntry : Type := mkModel {
  ModelID : string;
  Label : string;
  Hidden : bool;
  ReasoningEffortOptions : list string;
  SpeedTier : string;
  UpgradeTo : string
}.

Record ClientStatus : Type := mkClientStatus {
  Started : bool;
  TurnActive : bool;
  KnownModels : list string;
  LastCompactionAt : time;
  Recovery : RecoveryStatus;
  ActiveAccountAlias : string;
  AccountHealth : string;
  TelemetryFresh : bool;
  FiveHourRemainingPct : Z;
  WeeklyRemainingPct : Z;
  SwitchTrigger : string
}.

Class RunnerClient (C : Type) := {
  Start : C -> C * result string unit;
  ResumeThread : string -> list string -> C -> C * result string unit;
  StartThread : string -> list string -> C -> C * result string string;
  ClientTurn : string -> string -> C -> C * result string string;
  Restart : C -> C * result string unit;
  StartNativeCompaction : string -> C -> C * result string unit;
  ClientListModels : C -> C * result string (list ModelCatalogEntry);
  ClientStatusOf : C -> ClientStatus
}.

Inductive run_error : Type :=
| NoClient
| NoStore
| ClientError (e : string)
| StoreError (e : store_error).

(** [fallbackModelCatalog] *)
Definition fallbackModelCatalog : list ModelCatalogEntry :=
  [mkModel "gpt-5.4" "GPT-5.4" false ["minimal"; "medium"; "high"] "standard" "";
   mkModel "gpt-5.4-mini" "GPT-5.4 mini" false ["minimal"; "medium"] "fast" ""].

(** [RuntimeStatusSnapshot] *)
Record RuntimeStatus : Type := mkStatus {
  StatusBindingKey : string;
  StatusThreadID : string;
  StatusModel : string;
  StatusThinkingMode : string;
  StatusFastEnabled : bool;
  StatusLastUserMessageAt : time;
  StatusLastCompactionAt : time;
  StatusForceFresh : bool;
  StatusClient : ClientStatus
}.

Definition meta_bool (b : Binding) (field : string) (dflt : bool) : bool :=
  match Metadata b !! field with Some (MBool v) => v | _ => dflt end.
Definition meta_string (b : Binding) (field : string) (dflt : string) : string :=
  match Metadata b !! field with Some (MString v) => v | _ => dflt end.

(** What the client does not report is taken from the metadata of the
    binding. A number that was read from JSON is a [float64], so that the
    two shares, asserted to be [int], never come from there. *)
Definition BuildRuntimeStatus (ParseTime : string -> option time) (b : Binding) (c : ClientStatus) :
    RuntimeStatus :=
  let compaction :=
    if negb (IsZero (LastCompactionAt c)) then LastCompactionAt c
    else match Metadata b !! "last_compaction_at" with
         | Some (MString raw) => default zero_time (ParseTime raw)
         | _ => zero_time
         end in
  let rec := Recovery c in
  let either (v : bool) (field : string) := if v then v else meta_bool b field v in
  let filled (v : string) (field : string) := if String.eqb v "" then meta_string b field v else v in
  mkStatus (Key b) (ThreadID b) (Model b) (ThinkingMode b) (FastEnabled b) (LastUserMessageAt b) compaction
    (meta_bool b "force_fresh_thread" false)
    (mkClientStatus (Started c) (TurnActive c) (KnownModels c) compaction
       (mkRecovery (either (RestartAttempted rec) "restart_attempted")
          (either (ResumeAttempted rec) "resume_attempted")
          (either (FellBackToFresh rec) "fell_back_to_fresh")
          (filled (Mode rec) "recovery_mode"))
       (filled (ActiveAccountAlias c) "active_account_alias")
       (filled (AccountHealth c) "account_health")
       (either (TelemetryFresh c) "telemetry_fresh")
       (FiveHourRemainingPct c) (WeeklyRemainingPct c)
       (filled (SwitchTrigger c) "switch_trigger")).

(** [ClientStatus{}] with these models. *)
Definition no_client_status : ClientStatus :=
  mkClientStatus false false [] zero_time (mkRecovery false false false "") "" "" false 0 0 "".
Definition with_models (c : ClientStatus) (models : list string) : ClientStatus :=
  mkClientStatus (Started c) (TurnActive c) models (LastCompactionAt c) (Recovery c) (ActiveAccountAlias c)
    (AccountHealth c) (TelemetryFresh c) (FiveHourRemainingPct c) (WeeklyRemainingPct c) (SwitchTrigger c).

Section Runner.
Context {C : Type} `{RunnerClient C}.
Context (fails : nat -> bool) (now : nat -> time).
(** [time.Parse] and [Format] with [time.RFC3339Nano]. *)
Context (ParseTime : string -> option time) (FormatTime : time -> string).

(** A nil client or store is [None]; [cached] is the state of the catalog. *)
Record Runner : Type := mkRunner {
  client : option C;
  bindings : option store;
  cached : list ModelCatalogEntry
}.

Abbreviation R := (ST Runner run_error).

Definition on_client {A} (f : C -> C * result string A) : R A := fun r =>
  match client r with
  | None => (r, Err NoClient)
  | Some c => let '(c', x) := f c in
      (mkRunner (Some c') (bindings r) (cached r), match x with Ok a => Ok a | Err e => Err (ClientError e) end)
  end.

Definition on_store {A} (f : ST store store_error A) : R A := fun r =>
  match bindings r with
  | None => (r, Err NoStore)
  | Some s => let '(s', x) := f s in
      (mkRunner (client r) (Some s') (cached r), match x with Ok a => Ok a | Err e => Err (StoreError e) end)
  end.

Definition ensureClientStarted : R unit := on_client Start.

Definition has_store (key : string) : R bool := fun r =>
  (r, Ok (match bindings r with Some _ => negb (String.eqb key "") | None => false end)).

(** The binding of a key and whether there is one. *)
Definition loadBinding (key : string) : R (Binding * bool) :=
  let! stored := has_store key in
  if stored : bool then
    let! b := on_store (Load fails key) in
    ret (match b with Some b => (b, true) | None => (no_binding "", false) end)
  else ret (no_binding key, false).

(** ** Finding the thread of a turn *)

(** The thread that was resumed, [""] if none was, and what was tried. *)
Definition resume (req : RunRequest) (threadID : string) : R (string * RecoveryStatus) :=
  let! first := try (on_client (ResumeThread threadID (DynamicTools req))) in
  match first with
  | Ok _ => ret (threadID, mkRecovery false true false recoveryModeResumed)
  | Err _ =>
      if AllowServerRestart req then
        let! restarted := try (on_client Restart) in
        match restarted with
        | Ok _ =>
            let! second := try (on_client (ResumeThread threadID (DynamicTools req))) in
            match second with
            | Ok _ => ret (threadID, mkRecovery true true false recoveryModeResumeAfterRestart)
            | Err _ => ret ("", mkRecovery true true false recoveryModeFresh)
            end
        | Err _ => ret ("", mkRecovery true true false recoveryModeFresh)
        end
      else ret ("", mkRecovery false true false recoveryModeFresh)
  end.

Definition may_resume (req : RunRequest) : bool := AllowResume req && negb (ForceFreshThread req).

(** The thread to run on, whether it is new, and the recovery status. *)
Definition acquire (req : RunRequest) (binding : Binding) (ok : bool) : R (string * bool * RecoveryStatus) :=
  let! p :=
    if ok && negb (String.eqb (ThreadID binding) "") && may_resume req
    then resume req (ThreadID binding)
    else ret ("", mkRecovery false false false recoveryModeFresh) in
  let '(threadID, st) := p in
  if String.eqb threadID "" then
    let! threadID := on_client (StartThread (RequestModel req) (DynamicTools req)) in
    ret (threadID, true, mkRecovery (RestartAttempted st) (ResumeAttempted st) (ResumeAttempted st) (Mode st))
  else ret (threadID, false, st).

Definition saved_binding (key : string) (binding : Binding) (threadID : string) (req : RunRequest)
    (startedNew : bool) (st : RecoveryStatus) : Binding :=
  let b := with_thread (with_key binding key) threadID in
  let b := if startedNew || String.eqb (Model b) "" then with_model b (RequestModel req) else b in
  let b := if String.eqb (ControlThinkingMode req) "" then b else with_thinking b (ControlThinkingMode req) in
  let b := if FastEnabledSet req then with_fast b (ControlFastEnabled req) else b in
  let b := if String.eqb (ControlLastUserMessageAt req) "" then b
           else match ParseTime (ControlLastUserMessageAt req) with
                | Some t => with_last_message b t
                | None => b
                end in
  with_metadata b
    (delete "force_fresh_thread"
      (<["fell_back_to_fresh" := MBool (FellBackToFresh st)]>
        (<["resume_attempted" := MBool (ResumeAttempted st)]>
          (<["restart_attempted" := MBool (RestartAttempted st)]>
            (<["recovery_mode" := MString (Mode st)]> (Metadata b)))))).

Definition saveBinding (key : string) (binding : Binding) (threadID : string) (req : RunRequest)
    (startedNew : bool) (st : RecoveryStatus) : R unit :=
  let! stored := has_store key in
  if (stored : bool) && negb (String.eqb threadID "") then
    on_store (Save fails now (saved_binding key binding threadID req startedNew st))
  else ret tt.

(** What happens before the binding is written back: the client is busy with
    the turn, and other calls may change the binding. *)
Definition begin_turn (req : RunRequest) : R (string * Binding * string * bool * RecoveryStatus) :=
  let! _ := ensureClientStarted in
  let! p := loadBinding (BindingKey req) in
  let '(binding, ok) := p in
  let! q := acquire req binding ok in
  let '(threadID, startedNew, st) := q in
  let! content := on_client (ClientTurn threadID (Input req)) in
  ret (content, binding, threadID, startedNew, st).

Definition end_turn (req : RunRequest) (q : string * Binding * string * bool * RecoveryStatus) :
    R (string * string) :=
  let '(content, binding, threadID, startedNew, st) := q in
  let! _ := saveBinding (BindingKey req) binding threadID req startedNew st in
  ret (content, threadID).

(** Content and thread. *)
Definition RunTextTurn (req : RunRequest) : R (string * string) :=
  let! q := begin_turn req in end_turn req q.

(** ** The other operations *)

Definition CompactThread (bindingKey : string) : R unit :=
  let! _ := ensureClientStarted in
  let! p := loadBinding bindingKey in
  let '(binding, ok) := p in
  if negb ok || String.eqb (ThreadID binding) "" then ret tt
  else
    let! _ := on_client (StartNativeCompaction (ThreadID binding)) in
    let! t := on_store (clock now) in
    on_store (Save fails now
      (with_metadata binding (<["last_compaction_at" := MString (FormatTime t)]> (Metadata binding)))).

(** [Catalog.List]: the first list that is not empty is kept. *)
Definition ListModels : R (list ModelCatalogEntry) := fun r =>
  match client r, cached r with
  | None, _ => (r, Ok fallbackModelCatalog)
  | Some _, (_ :: _) as models => (r, Ok models)
  | Some c, [] =>
      match ClientListModels c with
      | (c', Ok (m :: models)) => (mkRunner (Some c') (bindings r) (m :: models), Ok (m :: models))
      | (c', _) => (mkRunner (Some c') (bindings r) [], Ok fallbackModelCatalog)
      end
  end.

Definition client_status : R ClientStatus := fun r =>
  (r, Ok (match client r with Some c => ClientStatusOf c | None => no_client_status end)).

Definition ReadStatus (bindingKey : string) : R RuntimeStatus :=
  let! p := loadBinding bindingKey in
  let! c := client_status in
  let! models := ListModels in
  let ids := List.filter (fun id => negb (String.eqb id "")) (map ModelID models) in
  ret (BuildRuntimeStatus ParseTime (fst p) (with_models c ids)).

(** The old value and the change of one setting. *)
Definition change_binding {A} (bindingKey : string) (none : A) (get : Binding -> A) (f : Binding -> Binding) :
    R A :=
  let! stored := has_store bindingKey in
  if negb stored then ret none
  else
    let! p := loadBinding bindingKey in
    let b := with_key (fst p) bindingKey in
    let! _ := on_store (Save fails now (f b)) in
    ret (get b).

Definition SetModel (bindingKey model : string) : R string :=
  change_binding bindingKey "" Model (fun b => with_model b model).
Definition SetThinkingMode (bindingKey mode : string) : R string :=
  change_binding bindingKey "" ThinkingMode (fun b => with_thinking b mode).
Definition ToggleFast (bindingKey : string) : R bool :=
  change_binding bindingKey false (fun b => negb (FastEnabled b)) (fun b => with_fast b (negb (FastEnabled b))).

Definition ResetThread (bindingKey : string) : R unit :=
  let! stored := has_store bindingKey in
  if negb stored then ret tt else on_store (Binding.ResetThread fails now bindingKey).
End Runner.

(** ** Lemmas *)

Section Lemmas.
Context {C : Type} `{RunnerClient C}.
Context (fails : nat -> bool) (now : nat -> time).
Context (ParseTime : string -> option time).

Definition stored (r : Runner (C := C)) : option (gmap string document) := files <$> bindings r.
Definition same_files (r r' : Runner (C := C)) : Prop := stored r' = stored r.

#[local] Instance same_files_preorder : PreOrder same_files.
Proof. split; [done|]. intros r1 r2 r3 H1 H2. by unfold same_files in *; rewrite H2. Qed.

Lemma keeps_on_client {A} (f : C -> C * result string A) : keeps same_files (on_client f).
Proof.
  intros r r' x E. unfold on_client in E. destruct (client r) as [c|]; [|by injection E as <- _].
  destruct (f c). by injection E as <- _.
Qed.

Lemma keeps_on_store {A} (f : ST store store_error A) :
  (forall s s' x, f s = (s', x) -> files s' = files s) -> keeps same_files (on_store f).
Proof.
  intros Hf r r' x E. unfold on_store in E. unfold same_files, stored.
  destruct (bindings r) as [s|] eqn:Es; [|injection E as <- _; by rewrite Es].
  destruct (f s) as [s' y] eqn:Ef. injection E as <- _. cbn [bindings fmap option_fmap option_map].
  by rewrite (Hf _ _ _ Ef).
Qed.

#[local] Hint Resolve keeps_on_client keeps_on_store Load_files : go.

Lemma keeps_has_store key : keeps same_files (has_store (C := C) key).
Proof. intros r r' x E. unfold has_store in E. by injection E as <- _. Qed.
#[local] Hint Resolve keeps_has_store : go.

Lemma keeps_loadBinding key : keeps same_files (loadBinding (C := C) fails key).
Proof. unfold loadBinding. keeps_auto. eapply keeps_on_store, Load_files. Qed.
#[local] Hint Resolve keeps_loadBinding : go.

Lemma keeps_resume req t : keeps same_files (resume req t).
Proof. unfold resume. keeps_auto. Qed.
#[local] Hint Resolve keeps_resume : go.

Lemma keeps_acquire req b ok : keeps same_files (acquire req b ok).
Proof. unfold acquire. keeps_auto. Qed.
#[local] Hint Resolve keeps_acquire : go.

Lemma keeps_begin_turn req : keeps same_files (begin_turn fails req).
Proof. unfold begin_turn, ensureClientStarted. keeps_auto. Qed.

(** *** What calls that succeed have done *)

Lemma on_client_inv {A} (f : C -> C * result string A) r r' x :
  on_client f r = (r', x) ->
  (client r = None /\ r' = r /\ x = Err NoClient) \/
  exists c c' y, client r = Some c /\ f c = (c', y) /\ r' = mkRunner (Some c') (bindings r) (cached r) /\
    x = match y with Ok a => Ok a | Err e => Err (ClientError e) end.
Proof.
  unfold on_client. destruct (client r) as [c|]; [|intros [= <- <-]; auto].
  destruct (f c) as [c' y] eqn:Ef. intros [= <- <-]. right. eauto 10.
Qed.

Lemma on_client_Ok {A} (f : C -> C * result string A) r r' a :
  on_client f r = (r', Ok a) ->
  exists c c', client r = Some c /\ f c = (c', Ok a) /\ client r' = Some c'.
Proof.
  intros [(_ & _ & ?) | (c & c' & [y|e] & Hc & Hf & -> & Hx)]%on_client_inv; try done.
  injection Hx as ->. eauto.
Qed.

Lemma loadBinding_Ok key (r r' : Runner (C := C)) b ok :
  loadBinding fails key r = (r', Ok (b, ok)) ->
  client r' = client r /\
  if ok then exists s, bindings r = Some s /\ key <> "" /\ files s !! pathForKey key = Some (Json b)
  else ThreadID b = "".
Proof.
  unfold loadBinding. intros [(stored & r1 & E1 & E) | (? & _ & ?)]%bind_inv; [|done].
  unfold has_store in E1. injection E1 as <- <-. destruct (bindings r) as [s|] eqn:Es.
  - destruct (String.eqb_spec key ""); cbn [negb] in E; [by injection E as <- <- <-|].
    apply bind_inv in E as [(x & r2 & E2 & E) | (? & _ & ?)]; [|done].
    unfold on_store in E2. rewrite Es in E2. destruct (Load fails key s) as [s' [y|]] eqn:EL; [|done].
    injection E2 as <- <-. apply Load_Ok in EL.
    destruct y as [y|]; injection E as <- <- <-; [|done]. split; [done|]. exists s. by rewrite EL.
  - by injection E as <- <- <-.
Qed.

Lemma resume_Ok req t r r' t' st :
  resume req t r = (r', Ok (t', st)) ->
  t' = "" \/ (t' = t /\ exists c c', ResumeThread t (DynamicTools req) c = (c', Ok tt) /\ client r' = Some c').
Proof.
  unfold resume. intros [(first & r1 & E1 & E) | (? & _ & ?)]%bind_inv; [|done].
  apply try_inv in E1 as ([[]|e] & E1 & [= ->]).
  { injection E as <- <- <-. apply on_client_Ok in E1 as (c & c' & _ & ? & ?). eauto 10. }
  destruct (AllowServerRestart req); [|injection E as _ <- _; by left].
  apply bind_inv in E as [(again & r2 & E2 & E) | (? & _ & ?)]; [|done].
  apply try_inv in E2 as ([[]|e2] & E2 & [= ->]); [|injection E as _ <- _; by left].
  apply bind_inv in E as [(second & r3 & E3 & E) | (? & _ & ?)]; [|done].
  apply try_inv in E3 as ([[]|e3] & E3 & [= ->]); [|injection E as _ <- _; by left].
  injection E as <- <- <-. apply on_client_Ok in E3 as (c & c' & _ & ? & ?). eauto 10.
Qed.

Lemma acquire_Ok req b ok r r' t new st :
  acquire req b ok r = (r', Ok (t, new, st)) ->
  exists c c', client r' = Some c' /\
  if new then StartThread (RequestModel req) (DynamicTools req) c = (c', Ok t)
  else ResumeThread t (DynamicTools req) c = (c', Ok tt) /\ may_resume req = true /\ ok = true /\
       t = ThreadID b /\ t <> "".
Proof.
  unfold acquire. intros [([t1 st1] & r1 & E1 & E) | (? & _ & ?)]%bind_inv; [|done].
  destruct (String.eqb_spec t1 "") as [->|Hne].
  - apply bind_inv in E as [(t2 & r2 & E2 & E) | (? & _ & ?)]; [|done].
    injection E as <- <- <- _. apply on_client_Ok in E2 as (c & c' & _ & ? & ?). eauto.
  - injection E as <- <- <- _.
    destruct (ok && negb (String.eqb (ThreadID b) "") && may_resume req) eqn:EG; [|by injection E1 as _ <- _].
    breflect. apply resume_Ok in E1 as [?|(-> & c & c' & Hr & Hc)]; [done|]. eauto 10.
Qed.

(** The thread on record for a conversation. *)
Definition thread_of (r : Runner (C := C)) (key : string) : option string :=
  match stored r with
  | Some fs => match fs !! pathForKey key with Some (Json b) => Some (ThreadID b) | _ => None end
  | None => None
  end.

Lemma begin_turn_Ok req r r' content b t new st :
  begin_turn fails req r = (r', Ok (content, b, t, new, st)) ->
  exists c0 c1 c2, ClientTurn t (Input req) c1 = (c2, Ok content) /\ client r' = Some c2 /\
  if new then StartThread (RequestModel req) (DynamicTools req) c0 = (c1, Ok t)
  else ResumeThread t (DynamicTools req) c0 = (c1, Ok tt) /\ may_resume req = true /\
       thread_of r (BindingKey req) = Some t /\ t <> "".
Proof.
  unfold begin_turn. intros [([] & r1 & E1 & E) | (? & _ & ?)]%bind_inv; [|done].
  apply keeps_on_client in E1 as F1.
  apply bind_inv in E as [([b0 ok] & r2 & E2 & E) | (? & _ & ?)]; [|done].
  apply loadBinding_Ok in E2 as [_ HB].
  apply bind_inv in E as [([[t0 new0] st0] & r3 & E3 & E) | (? & _ & ?)]; [|done].
  apply acquire_Ok in E3 as (c0 & c1 & Hc1 & HT).
  apply bind_inv in E as [(text & r4 & E4 & E) | (? & _ & ?)]; [|done].
  apply on_client_Ok in E4 as (c & c2 & Hc & Hturn & Hc2). injection E as <- <- <- <- <- <-.
  assert (c = c1) as -> by congruence. exists c0, c1, c2. split_and!; [done | done |].
  destruct new0; [done|]. destruct HT as (? & ? & -> & -> & ?). split_and!; try done.
  destruct HB as (s & Hs & _ & Hf). unfold thread_of. rewrite <- F1. unfold stored. rewrite Hs. simpl. by rewrite Hf.
Qed.

Lemma saved_binding_key key b t req new st :
  Key (saved_binding ParseTime key b t req new st) = key /\ ThreadID (saved_binding ParseTime key b t req new st) = t.
Proof. unfold saved_binding. by repeat case_match. Qed.

(** The write at the end of a turn depends on the binding that was read
    before it, not on what is stored now. *)
Lemma end_turn_cases req content b t new st r r' x :
  end_turn fails now ParseTime req (content, b, t, new, st) r = (r', x) ->
  (x = Ok (content, t) /\ client r' = client r /\
   match stored r with
   | Some fs =>
       if String.eqb (BindingKey req) "" || String.eqb t "" then stored r' = Some fs
       else exists created u, stored r' =
         Some (<[pathForKey (BindingKey req) :=
                 Json (with_times (saved_binding ParseTime (BindingKey req) b t req new st) created u)]> fs)
   | None => stored r' = None
   end) \/
  ((exists e, x = Err e) /\ stored r' = stored r).
Proof.
  unfold end_turn, saveBinding, has_store, bind, ret. cbv beta iota.
  set (sb := saved_binding _ _ _ _ _ _ _).
  destruct (bindings r) as [s|] eqn:Es.
  - replace (stored r) with (Some (files s)) by (unfold stored; by rewrite Es).
    destruct (String.eqb_spec (BindingKey req) "") as [Hk|Hk]; cbn [negb andb orb].
    { intros [= <- <-]. left. unfold stored. by rewrite Es. }
    destruct (String.eqb_spec t "") as [Ht|Ht]; cbn [negb].
    { intros [= <- <-]. left. unfold stored. by rewrite Es. }
    unfold on_store. rewrite Es. destruct (Save fails now sb s) as [s' y] eqn:ES.
    destruct (Save_files _ _ _ _ _ _ ES) as [[-> (created & u & Hf)] | [[e ->] Hf]]; intros [= <- <-].
    + left. split_and!; [done | done |]. exists created, u. unfold stored. cbn [bindings fmap option_fmap option_map].
      assert (HK : Key sb = BindingKey req) by apply saved_binding_key. by rewrite Hf, HK.
    + right. split; [eauto|]. unfold stored. cbn [bindings fmap option_fmap option_map]. by rewrite Hf.
  - cbn [andb]. intros [= <- <-]. left. unfold stored. by rewrite Es.
Qed.
End Lemmas.

(** ** Properties *)

(** A turn never runs on a thread that has not just been started, or
    resumed with the permission of the request and as the thread on record
    for the conversation. When it succeeds, the binding of the conversation
    names its thread and the other files are as they were; when it fails, no
    file has changed. *)
Theorem RunTextTurn_thread {C} `{RunnerClient C} fails now ParseTime req (r r' : Runner (C := C)) x :
  RunTextTurn fails now ParseTime req r = (r', x) ->
  match x with
  | Err _ => stored r' = stored r
  | Ok (content, t) =>
      (exists c0 c1 c2, ClientTurn t (Input req) c1 = (c2, Ok content) /\ client r' = Some c2 /\
        (StartThread (RequestModel req) (DynamicTools req) c0 = (c1, Ok t) \/
         ResumeThread t (DynamicTools req) c0 = (c1, Ok tt) /\ AllowResume req = true /\
         ForceFreshThread req = false /\ thread_of r (BindingKey req) = Some t)) /\
      (stored r <> None -> BindingKey req <> "" -> t <> "" -> thread_of r' (BindingKey req) = Some t) /\
      (forall name, name <> pathForKey (BindingKey req) ->
        (stored r' ≫= lookup name) = (stored r ≫= lookup name))
  end.
Proof.
  unfold RunTextTurn. intros [([[[[content b] t] new] st] & r1 & E1 & E2) | (e & E1 & ->)]%bind_inv.
  2: { by apply keeps_begin_turn in E1. }
  apply keeps_begin_turn in E1 as F1. apply begin_turn_Ok in E1 as (c0 & c1 & c2 & Hturn & Hc2 & HT).
  apply end_turn_cases in E2 as [(-> & Hc & HS) | [[e ->] HS]]; [|by rewrite HS].
  rewrite F1 in HS. split; [|split].
  - exists c0, c1, c2. split_and!; [done | congruence |].
    destruct new; [by left | right]. destruct HT as (? & HM & ? & _). unfold may_resume in HM. by breflect.
  - intros Hst Hk Ht. destruct (stored r) as [fs|] eqn:Er; [|done].
    rewrite (proj2 (String.eqb_neq _ _) Hk), (proj2 (String.eqb_neq _ _) Ht) in HS.
    destruct HS as (created & u & HS). unfold thread_of. rewrite HS, lookup_insert_eq.
    f_equal. apply saved_binding_key.
  - intros name Hn. destruct (stored r) as [fs|]; [|by rewrite HS].
    destruct (_ || _); [by rewrite HS|]. destruct HS as (created & u & ->). simpl.
    by rewrite lookup_insert_ne by congruence.
Qed.

(** The client resumes a thread, at once or after a permitted restart. *)
Definition resumes {C} `{RunnerClient C} (req : RunRequest) (t : string) (c c' : C) : Prop :=
  ResumeThread t (DynamicTools req) c = (c', Ok tt) \/
  exists e c1 c2, ResumeThread t (DynamicTools req) c = (c1, Err e) /\ AllowServerRestart req = true /\
    Restart c1 = (c2, Ok tt) /\ ResumeThread t (DynamicTools req) c2 = (c', Ok tt).

Lemma resume_resumes {C} `{RunnerClient C} req t c c' s models :
  resumes req t c c' ->
  exists st, resume req t (mkRunner (Some c) s models) = (mkRunner (Some c') s models, Ok (t, st)).
Proof.
  unfold resume, bind, try, on_client. cbn [client bindings cached].
  intros [HR | (e & c1 & c2 & HR1 & HA & HS & HR2)].
  - rewrite HR. by eexists.
  - rewrite HR1, HA. cbn [client bindings cached]. rewrite HS. cbn [client bindings cached]. rewrite HR2. by eexists.
Qed.

(** A conversation stays on its thread: when the request permits to
    resume and the client can, at once or after a restart, the turn runs on
    the thread on record, which stays on record with the model and the
    settings that the request does not change. *)
Theorem RunTextTurn_continues {C} `{RunnerClient C} fails now ParseTime req (r : Runner (C := C)) s b c c0 c1 c2 content :
  (forall n, fails n = false) -> AllowResume req = true -> ForceFreshThread req = false ->
  BindingKey req <> "" -> bindings r = Some s -> files s !! pathForKey (BindingKey req) = Some (Json b) ->
  ThreadID b <> "" -> client r = Some c -> Start c = (c0, Ok tt) ->
  resumes req (ThreadID b) c0 c1 -> ClientTurn (ThreadID b) (Input req) c1 = (c2, Ok content) ->
  exists r' b', RunTextTurn fails now ParseTime req r = (r', Ok (content, ThreadID b)) /\
    (stored r' ≫= lookup (pathForKey (BindingKey req))) = Some (Json b') /\ ThreadID b' = ThreadID b /\
    (Model b <> "" -> Model b' = Model b) /\
    (ControlThinkingMode req = "" -> ThinkingMode b' = ThinkingMode b) /\
    (FastEnabledSet req = false -> FastEnabled b' = FastEnabled b).
Proof.
  intros Hno HA HF Hk Hs Hfile Ht Hc HSt HR HT.
  destruct (Load_nofault fails (BindingKey req) s Hno) as [k HL]; [by rewrite Hfile|]. rewrite Hfile in HL.
  destruct (resume_resumes req (ThreadID b) c0 c1 (Some (mkStore (files s) k)) (cached r) HR) as [st HRes].
  assert (HB : begin_turn fails req r =
    (mkRunner (Some c2) (Some (mkStore (files s) k)) (cached r), Ok (content, b, ThreadID b, false, st))).
  { unfold begin_turn, ensureClientStarted, bind at 1, on_client at 1. rewrite Hc, HSt.
    unfold bind at 1, loadBinding, has_store, bind at 1. cbn [bindings]. rewrite Hs.
    rewrite (proj2 (String.eqb_neq _ _) Hk). cbn [negb]. unfold bind at 1, on_store. cbn [bindings client cached].
    rewrite HL. unfold ret, bind at 1, acquire, bind at 1.
    rewrite (proj2 (String.eqb_neq _ _) Ht). unfold may_resume. rewrite HA, HF. cbn [andb negb].
    rewrite HRes, (proj2 (String.eqb_neq _ _) Ht). unfold ret, bind, on_client. cbn [client].
    by rewrite HT. }
  unfold RunTextTurn, bind. rewrite HB.
  destruct (end_turn _ _ _ req _ _) as [r' x] eqn:E. 
  destruct (end_turn_cases _ _ _ _ _ _ _ _ _ _ _ _ E) as [(-> & _ & HS) | [[e ->] _]].
  - unfold stored in HS at 1. cbn [bindings fmap option_fmap option_map files] in HS.
    rewrite (proj2 (String.eqb_neq _ _) Hk), (proj2 (String.eqb_neq _ _) Ht) in HS.
    destruct HS as (created & u & HS). exists r'. eexists. split; [done|]. rewrite HS. cbn [mbind option_bind].
    rewrite lookup_insert_eq. split; [done|]. cbn [ThreadID with_times].
    split; [apply saved_binding_key|]. unfold saved_binding. cbn [orb].
    split_and!; intros Hx; cbn [with_times with_metadata Model ThinkingMode FastEnabled].
    + rewrite (proj2 (String.eqb_neq (Model (with_thread (with_key b _) _)) "") Hx). by repeat case_match.
    + rewrite Hx. cbn [String.eqb]. by repeat case_match.
    + rewrite Hx. by repeat case_match.
  - exfalso. revert E. unfold end_turn, saveBinding, has_store, bind. cbn [bindings].
    rewrite (proj2 (String.eqb_neq _ _) Hk), (proj2 (String.eqb_neq _ _) Ht). cbn [negb andb].
    unfold on_store. cbn [bindings]. set (sb := saved_binding _ _ _ _ _ _ _).
    destruct (Save_nofault fails now sb (mkStore (files s) k) Hno) as [s' ->]; [|done].
    assert (Key sb = BindingKey req) as -> by apply saved_binding_key. cbn [files]. by rewrite Hfile.
Qed.

(** A change of the binding while a turn runs is lost: whatever an
    operation of the store did between the beginning and the end of the turn,
    the binding written at the end is, up to its times, the one written
    without that operation. *)
Theorem changes_during_turn_lost {C} `{RunnerClient C} fails now ParseTime req (r r1 r2 r3 : Runner (C := C))
    content b t new st o res :
  begin_turn fails req r = (r1, Ok (content, b, t, new, st)) -> t <> "" ->
  on_store (run_op fails now o) r1 = (r2, Ok tt) -> BindingKey req <> "" ->
  end_turn fails now ParseTime req (content, b, t, new, st) r2 = (r3, Ok res) ->
  exists b3, (stored r3 ≫= lookup (pathForKey (BindingKey req))) = Some (Json b3) /\
    forall r3' res', end_turn fails now ParseTime req (content, b, t, new, st) r1 = (r3', Ok res') ->
      exists b3', (stored r3' ≫= lookup (pathForKey (BindingKey req))) = Some (Json b3') /\
        with_times b3 zero_time zero_time = with_times b3' zero_time zero_time.
Proof.
  intros _ Ht Ho Hk E.
  assert (HE : forall (r r' : Runner (C := C)) x, end_turn fails now ParseTime req (content, b, t, new, st) r = (r', Ok x) ->
    stored r <> None -> exists created u, (stored r' ≫= lookup (pathForKey (BindingKey req))) =
      Some (Json (with_times (saved_binding ParseTime (BindingKey req) b t req new st) created u))).
  { clear -Ht Hk. intros r r' x E Hr. apply end_turn_cases in E as [(_ & _ & HS) | [[e ?] _]]; [|done].
    destruct (stored r) as [fs|]; [|done].
    rewrite (proj2 (String.eqb_neq _ _) Hk), (proj2 (String.eqb_neq _ _) Ht) in HS.
    destruct HS as (created & u & ->). exists created, u. simpl. by rewrite lookup_insert_eq. }
  unfold on_store in Ho. destruct (bindings r1) as [s|] eqn:Es; [|done].
  destruct (run_op fails now o s) as [s' y]. injection Ho as <- _.
  destruct (HE _ _ _ E) as (created & u & HL); [done|]. rewrite HL.
  eexists. split; [done|]. intros r3' res' E'. destruct (HE _ _ _ E') as (created' & u' & ->).
  - unfold stored. by rewrite Es.
  - by eexists.
Qed.

(** ** A client for the examples *)

(** It knows the threads of its list, and starts thread [t2]. *)
#[local] Instance demo_client : RunnerClient (list string) := {|
  Start c := (c, Ok tt);
  ResumeThread t _ c := (c, if bool_decide (t ∈ c) then Ok tt else Err "unknown thread");
  StartThread _ _ c := ("t2" :: c, Ok "t2");
  ClientTurn t input c := (c, Ok (t +:+ ": " +:+ input));
  Restart c := ("t1" :: c, Ok tt);
  StartNativeCompaction _ c := (c, Ok tt);
  ClientListModels c := (c, Ok []);
  ClientStatusOf c := no_client_status
|}.

Definition demo_binding : Binding := with_model (with_thread (no_binding "k") "t1") "gpt".
Definition demo_runner (threads : list string) : Runner (C := list string) :=
  mkRunner (Some threads) (Some (mkStore {[pathForKey "k" := Json demo_binding]} 0)) [].
Definition demo_request (resume restart : bool) : RunRequest :=
  mkRequest "k" "gpt-new" "hello" restart resume "" false false "" false [].
Definition demo_turn (req : RunRequest) (r : Runner) :=
  RunTextTurn (fun _ => false) (fun n => Z.of_nat n + 1) (fun _ => None) req r.

Example demo_turns :
  snd (demo_turn (demo_request true false) (demo_runner ["t1"])) = Ok ("t1: hello", "t1") /\
  snd (demo_turn (demo_request true true) (demo_runner [])) = Ok ("t1: hello", "t1") /\
  snd (demo_turn (demo_request true false) (demo_runner [])) = Ok ("t2: hello", "t2") /\
  snd (demo_turn (demo_request false true) (demo_runner ["t1"])) = Ok ("t2: hello", "t2").
Proof. vm_compute. auto. Qed.

Lemma RunTextTurn_thread_witness :
  let p := demo_turn (demo_request true true) (demo_runner []) in
  snd p = Ok ("t1: hello", "t1") /\ thread_of (fst p) "k" = Some "t1".
Proof.
  intros p. assert (Hr : snd p = Ok ("t1: hello", "t1")) by (vm_compute; reflexivity).
  split; [exact Hr|].
  assert (E : demo_turn (demo_request true true) (demo_runner []) = (fst p, snd p))
    by apply surjective_pairing.
  rewrite Hr in E. unfold demo_turn in E.
  destruct (RunTextTurn_thread _ _ _ _ _ _ _ E) as (_ & HT & _). apply HT; discriminate.
Defined.

Lemma RunTextTurn_continues_witness :
  exists r', demo_turn (demo_request true true) (demo_runner []) = (r', Ok ("t1: hello", "t1")).
Proof.
  assert (HR : resumes (demo_request true true) "t1" [] ["t1"]).
  { right. exists "unknown thread", [], ["t1"]. split_and!; reflexivity. }
  destruct (RunTextTurn_continues (fun _ => false) (fun n => Z.of_nat n + 1) (fun _ => None)
    (demo_request true true) (demo_runner []) (mkStore {[pathForKey "k" := Json demo_binding]} 0)
    demo_binding [] [] ["t1"] ["t1"] "t1: hello") as (r' & b' & E & _).
  - reflexivity.
  - reflexivity.
  - reflexivity.
  - discriminate.
  - reflexivity.
  - cbn [files BindingKey demo_request]. apply lookup_insert_eq.
  - discriminate.
  - reflexivity.
  - reflexivity.
  - exact HR.
  - reflexivity.
  - exists r'. exact E.
Defined.

Definition no_fail (n : nat) : bool := false.
Definition demo_q : string * Binding * string * bool * RecoveryStatus :=
  ("t1: hello", demo_binding, "t1", false, mkRecovery false true false recoveryModeResumed).
Definition begun := begin_turn no_fail (demo_request true true) (demo_runner ["t1"]).
Definition changed := on_store (run_op no_fail (fun _ => 7) (OSetModel "k" "other")) (fst begun).
Definition ended (r : Runner (C := list string)) := end_turn no_fail (fun _ => 7) (fun _ => None) (demo_request true true) demo_q r.

Lemma changes_during_turn_lost_witness :
  snd begun = Ok demo_q /\ snd changed = Ok tt /\
  exists b3, (stored (fst (ended (fst changed))) ≫= lookup (pathForKey "k")) = Some (Json b3) /\ Model b3 = "gpt".
Proof.
  assert (HB : snd begun = Ok demo_q) by (vm_compute; reflexivity).
  assert (HC : snd changed = Ok tt) by (vm_compute; reflexivity).
  assert (HD : snd (ended (fst changed)) = Ok ("t1: hello", "t1")) by (vm_compute; reflexivity).
  assert (HE : snd (ended (fst begun)) = Ok ("t1: hello", "t1")) by (vm_compute; reflexivity).
  split; [exact HB|]. split; [exact HC|].
  destruct (changes_during_turn_lost no_fail (fun _ => 7) (fun _ => None) (demo_request true true)
    (demo_runner ["t1"]) (fst begun) (fst changed) (fst (ended (fst changed))) "t1: hello" demo_binding "t1" false
    (mkRecovery false true false recoveryModeResumed) (OSetModel "k" "other") ("t1: hello", "t1"))
    as (b3 & HL & Hlost).
  - rewrite (surjective_pairing (begin_turn _ _ _)). fold begun. by rewrite HB.
  - discriminate.
  - fold changed. by rewrite (surjective_pairing changed) at 1; rewrite HC.
  - discriminate.
  - change (end_turn _ _ _ _ _ _) with (ended (fst changed)).
    rewrite (surjective_pairing (ended (fst changed))) at 1. by rewrite HD.
  - exists b3. split; [exact HL|].
    destruct (Hlost (fst (ended (fst begun))) ("t1: hello", "t1")) as (b3' & HL' & Ht).
    + change (end_turn _ _ _ _ _ _) with (ended (fst begun)).
      rewrite (surjective_pairing (ended (fst begun))) at 1. by rewrite HE.
    + apply (f_equal Model) in Ht. cbn [with_times Model] in Ht. rewrite Ht.
      assert (HM : (Model <$> match stored (fst (ended (fst begun))) ≫= lookup (pathForKey "k") with
                              | Some (Json b) => Some b | _ => None end) = Some "gpt") by (vm_compute; reflexivity).
      cbn [BindingKey demo_request] in HL'. rewrite HL' in HM. by injection HM.
Defined.
