(* ===== verification/Json.v ===== *)
(** * JSON values and their decoding

    What the code uses of [encoding/json]: values, and the decoding of the
    fields of a struct. An object has no two keys for one field (keys are
    matched without case); Go would merge the values of such keys. *)

From S2P Require Import Prelude GoStrings.

#[local] Set Warnings "-register-all".
Inductive json : Type :=
| JNull
| JBool (b : bool)
| JInt (n : Z)
| JNumber (text : string)
| JStr (s : string)
| JArr (l : list json)
| JObj (fields : list (string * json)).

Abbreviation object := (list (string * json)).

(** The value of a field; [null] leaves the field as it is. *)
Definition field (o : object) (name : string) : option json :=
  match find_first (fun f => EqualFold (fst f) name) o with
  | Some (_, JNull) => None
  | Some (_, v) => Some v
  | None => None
  end.

(** A decoder gives [None] for a type error. *)
Definition field_string (o : object) (name : string) : option string :=
  match field o name with
  | None => Some ""
  | Some (JStr s) => Some s
  | Some _ => None
  end.

Definition field_object {A} (o : object) (name : string) (decode : object -> option A) : option (option A) :=
  match field o name with
  | None => Some None
  | Some (JObj o') => Some <$> decode o'
  | Some _ => None
  end.

Definition field_list {A} (o : object) (name : string) (decode : object -> option A) : option (list A) :=
  match field o name with
  | None => Some []
  | Some (JArr l) => mapM (fun j => match j with JObj o' => decode o' | JNull => decode [] | _ => None end) l
  | Some _ => None
  end.

(** [json.Unmarshal] of a raw message into a struct: nothing is an error,
    [null] changes nothing. *)
Definition unmarshal {A} (decode : object -> option A) (raw : option json) : option A :=
  match raw with
  | Some (JObj o) => decode o
  | Some JNull => decode []
  | _ => None
  end.

(** [firstProtocolValue] of [protocol.go] *)
Fixpoint firstProtocolValue (values : list string) : string :=
  match values with
  | [] => ""
  | v :: values' => if String.eqb v "" then firstProtocolValue values' else v
  end.

Notation "'let?' x := m 'in' k" := (mbind (fun x => k) m)
  (at level 10, x pattern, m at level 100, k at level 200) : go_scope.
