(* ===== verification/CodexProtocol.v ===== *)
(** * Messages of the app server: [src/pkg/codexruntime/protocol.go]

    Envelopes of the line protocol, and the parameters that the client
    decodes, with their legacy spellings. *)

From S2P Require Import Prelude GoStrings Json.

(** ** Envelopes *)

Record messageEnvelope : Type := mkEnvelope {
  JSONRPC : string;
  ID : option json;
  Method : string;
  Params : option json;
  Result : option json;
  Error : option (Z * string)
}.

Definition hasID (raw : option json) : bool :=
  match raw with None | Some JNull => false | _ => true end.

Definition int64_json (n : Z) : bool := (int64_min <=? n) && (n <=? int64_max).

Definition decodeNumericID (raw : option json) : option Z :=
  match raw with
  | Some (JInt n) => if int64_json n then Some n else None
  | _ => None
  end.

Definition isServerRequest (message : messageEnvelope) : bool :=
  negb (String.eqb (Method message) "") && hasID (ID message).

Definition MethodItemToolCall : string := "item/tool/call".
Definition MethodItemToolRequestUserInput : string := "item/tool/requestUserInput".
Definition MethodItemCommandExecutionRequestApproval : string := "item/commandExecution/requestApproval".
Definition MethodItemFileChangeRequestApproval : string := "item/fileChange/requestApproval".
Definition MethodItemPermissionsRequestApproval : string := "item/permissions/requestApproval".
Definition MethodItemAgentMessageDelta : string := "item/agentMessage/delta".
Definition MethodItemReasoningTextDelta : string := "item/reasoning/textDelta".
Definition MethodItemCompleted : string := "item/completed".
Definition MethodAccountChatgptAuthTokensRefresh : string := "account/chatgptAuthTokens/refresh".
Definition methodTurnCompleted : string := "turn/completed".

Definition ItemTypeAgentMessage : string := "agent_message".
Definition ItemRoleAssistant : string := "assistant".

(** ** Parameters of notifications *)

Record AgentMessageDeltaParams : Type := mkDelta {
  DeltaThreadID : string;
  DeltaTurnID : string;
  DeltaItemID : string;
  Delta : string
}.

Record ReasoningTextDeltaParams : Type := mkReasoning {
  ReasoningThreadID : string;
  ReasoningTurnID : string;
  ReasoningItemID : string;
  ReasoningText : string
}.

Record OutputItem : Type := mkItem {
  ItemID : string;
  ItemType : string;
  Role : string;
  ItemStatus : string;
  Text : string
}.

Record ItemCompletedParams : Type := mkCompleted {
  CompletedThreadID : string;
  CompletedTurnID : string;
  Item : OutputItem
}.

Record turnCompletedParams : Type := mkTurnCompleted {
  TurnThreadID : string;
  TurnTurnID : string;
  TurnStatus : string;
  TurnError : option string
}.

Definition thread_id (o : object) : option string :=
  let? a := field_string o "threadId" in
  let? b := field_string o "thread_id" in Some (firstProtocolValue [a; b]).
Definition turn_id (o : object) : option string :=
  let? a := field_string o "turnId" in
  let? b := field_string o "turn_id" in Some (firstProtocolValue [a; b]).
Definition item_id (o : object) : option string :=
  let? a := field_string o "itemId" in
  let? b := field_string o "item_id" in Some (firstProtocolValue [a; b]).

Definition decode_delta (o : object) : option AgentMessageDeltaParams :=
  let? th := thread_id o in let? tu := turn_id o in let? it := item_id o in
  let? d := field_string o "delta" in Some (mkDelta th tu it d).

Definition decode_reasoning (o : object) : option ReasoningTextDeltaParams :=
  let? th := thread_id o in let? tu := turn_id o in let? it := item_id o in
  let? d := field_string o "text" in Some (mkReasoning th tu it d).

Definition decode_item (o : object) : option OutputItem :=
  let? i := field_string o "id" in let? ty := field_string o "type" in let? r := field_string o "role" in
  let? s := field_string o "status" in let? t := field_string o "text" in Some (mkItem i ty r s t).

Definition decode_completed (o : object) : option ItemCompletedParams :=
  let? th := thread_id o in let? tu := turn_id o in
  let? it := field_object o "item" decode_item in
  Some (mkCompleted th tu (default (mkItem "" "" "" "" "") it)).

Definition decode_error (o : object) : option string := field_string o "message".

(** The turn of [turn/completed]: identifier, status and error. *)
Definition decode_turn (o : object) : option (string * string * option string) :=
  let? i := field_string o "id" in let? s := field_string o "status" in
  let? e := field_object o "error" decode_error in Some (i, s, e).

Definition decode_turn_completed (o : object) : option turnCompletedParams :=
  let? th := thread_id o in
  let? a := field_string o "turnId" in let? b := field_string o "turn_id" in
  let? status := field_string o "status" in
  let? err := field_object o "error" decode_error in
  let? turn := field_object o "turn" decode_turn in
  match turn with
  | Some (i, s, e) =>
      Some (mkTurnCompleted th (firstProtocolValue [i; a; b]) (firstProtocolValue [s; status])
              (match e with Some _ => e | None => err end))
  | None => Some (mkTurnCompleted th (firstProtocolValue [a; b]) status err)
  end.

(** [turnCompletedParams.err]: the text of the error. *)
Definition turn_err (p : turnCompletedParams) : option string :=
  let message := default "" (TurnError p) in
  let s := TurnStatus p in
  if String.eqb s "" || String.eqb s "completed" then None
  else if String.eqb s "failed" || String.eqb s "interrupted" then
    Some (if String.eqb message "" then "codexruntime: turn " +:+ s
          else "codexruntime: turn " +:+ s +:+ ": " +:+ message)
  else if String.eqb message "" then None
  else Some ("codexruntime: turn " +:+ s +:+ ": " +:+ message).

Inductive Notification : Type :=
| NDelta (p : AgentMessageDeltaParams)
| NReasoning (p : ReasoningTextDeltaParams)
| NItem (p : ItemCompletedParams)
| NTurn (p : turnCompletedParams)
| NOther.

(** Other notifications need parameters that are an object, or none. *)
Definition decodeNotification (m : messageEnvelope) : option Notification :=
  if String.eqb (Method m) MethodItemAgentMessageDelta then NDelta <$> unmarshal decode_delta (Params m)
  else if String.eqb (Method m) MethodItemReasoningTextDelta then
    NReasoning <$> unmarshal decode_reasoning (Params m)
  else if String.eqb (Method m) MethodItemCompleted then NItem <$> unmarshal decode_completed (Params m)
  else if String.eqb (Method m) methodTurnCompleted then NTurn <$> unmarshal decode_turn_completed (Params m)
  else match Params m with
       | None | Some JNull | Some (JObj _) => Some NOther
       | Some _ => None
       end.

(** ** Parameters of the server's requests *)

Record ToolCallRequestParams : Type := mkToolCall {
  CallThreadID : string;
  CallTurnID : string;
  CallID : string;
  CallName : string;
  Arguments : object
}.

Definition decode_tool_call (o : object) : option ToolCallRequestParams :=
  let? th := thread_id o in let? tu := turn_id o in
  let? c1 := field_string o "callId" in let? c2 := field_string o "call_id" in
  let? c3 := field_string o "itemId" in
  let? n1 := field_string o "name" in let? n2 := field_string o "tool" in
  let? args := field_object o "arguments" Some in
  Some (mkToolCall th tu (firstProtocolValue [c1; c2; c3]) (firstProtocolValue [n1; n2]) (default [] args)).

(** A question: its identifier and the labels of its options. *)
Record ToolRequestUserInputQuestion : Type := mkQuestion { QuestionID : string; OptionLabels : list string }.

Definition decode_question (o : object) : option ToolRequestUserInputQuestion :=
  let? i := field_string o "id" in
  let? labels := field_list o "options" (fun o' => field_string o' "label") in
  Some (mkQuestion i labels).

(** Thread, turn and questions; only the new spellings. *)
Definition decode_user_input (o : object) : option (string * string * list ToolRequestUserInputQuestion) :=
  let? th := field_string o "threadId" in let? tu := field_string o "turnId" in
  let? qs := field_list o "questions" decode_question in Some (th, tu, qs).

(** Thread and turn of an approval request, and the permissions asked for. *)
Definition decode_approval (o : object) : option (string * string * object) :=
  let? th := thread_id o in let? tu := turn_id o in
  let? ps := field_object o "permissions" Some in Some (th, tu, default [] ps).

(** ** Results of the client's requests *)

Definition decode_nested_id (o : object) : option string := field_string o "id".

Definition decode_thread_start (o : object) : option string :=
  let? a := field_string o "threadId" in let? b := field_string o "thread_id" in
  let? c := field_object o "thread" decode_nested_id in
  Some (firstProtocolValue [a; b; default "" c]).

Definition decode_turn_start (o : object) : option string :=
  let? a := field_string o "turnId" in let? b := field_string o "turn_id" in
  let? c := field_object o "turn" decode_nested_id in
  Some (firstProtocolValue [a; b; default "" c]).
