(* ===== verification/Projector.v ===== *)
(** * The answer of a turn: [src/pkg/codexruntime/projector.go]

    The projector collects the text of the assistant's items from the
    notifications of one turn. *)

From S2P Require Import Prelude GoStrings Json CodexProtocol.

(** ** The projector *)

Record projectedAssistantItem : Type := mkProjected { text : string; completed : bool }.

Record Projector : Type := mkProjector {
  threadID : string;
  turnID : string;
  assistantByItem : gmap string projectedAssistantItem;
  assistantOrder : list string;
  completedAssistant : list string;
  reasoning : string
}.

Definition NewProjector (threadID turnID : string) : Projector := mkProjector threadID turnID ∅ [] [] "".

Definition normalizeLifecycleValue (value : string) : string :=
  implode (List.filter (fun c => negb (Ascii.eqb c "_" || Ascii.eqb c "-")) (chars (ToLower value))).

Definition isAssistantItem (item : OutputItem) : bool :=
  String.eqb (normalizeLifecycleValue (Role item)) (normalizeLifecycleValue ItemRoleAssistant)
  || String.eqb (normalizeLifecycleValue (ItemType item)) (normalizeLifecycleValue ItemTypeAgentMessage).

(** The item, made on first use. *)
Definition assistantItem (p : Projector) (itemID : string) : Projector * projectedAssistantItem :=
  match assistantByItem p !! itemID with
  | Some item => (p, item)
  | None =>
      let item := mkProjected "" false in
      (mkProjector (threadID p) (turnID p) (<[itemID := item]> (assistantByItem p))
         (assistantOrder p ++ [itemID]) (completedAssistant p) (reasoning p), item)
  end.

Definition set_item (p : Projector) (itemID : string) (item : projectedAssistantItem) : Projector :=
  mkProjector (threadID p) (turnID p) (<[itemID := item]> (assistantByItem p)) (assistantOrder p)
    (completedAssistant p) (reasoning p).

Definition applyAgentMessageDelta (p : Projector) (params : AgentMessageDeltaParams) : Projector :=
  if negb (String.eqb (DeltaThreadID params) (threadID p)) || negb (String.eqb (DeltaTurnID params) (turnID p))
     || String.eqb (DeltaItemID params) "" || String.eqb (Delta params) "" then p
  else
    let '(p, item) := assistantItem p (DeltaItemID params) in
    set_item p (DeltaItemID params) (mkProjected (text item +:+ Delta params) (completed item)).

Definition applyReasoningTextDelta (p : Projector) (params : ReasoningTextDeltaParams) : Projector :=
  if negb (String.eqb (ReasoningThreadID params) (threadID p))
     || negb (String.eqb (ReasoningTurnID params) (turnID p)) || String.eqb (ReasoningText params) "" then p
  else mkProjector (threadID p) (turnID p) (assistantByItem p) (assistantOrder p) (completedAssistant p)
         (reasoning p +:+ ReasoningText params).

Definition applyItemCompleted (p : Projector) (params : ItemCompletedParams) : Projector :=
  let it := Item params in
  if negb (String.eqb (CompletedThreadID params) (threadID p))
     || negb (String.eqb (CompletedTurnID params) (turnID p)) || String.eqb (ItemID it) "" then p
  else if negb (isAssistantItem it) then p
  else
    let '(p, item) := assistantItem p (ItemID it) in
    let text := if String.eqb (Text it) "" then text item else Text it in
    let p := set_item p (ItemID it) (mkProjected text true) in
    if completed item then p
    else mkProjector (threadID p) (turnID p) (assistantByItem p) (assistantOrder p)
           (completedAssistant p ++ [ItemID it]) (reasoning p).

Definition Apply (p : Projector) (n : Notification) : Projector :=
  match n with
  | NDelta params => applyAgentMessageDelta p params
  | NReasoning params => applyReasoningTextDelta p params
  | NItem params => applyItemCompleted p params
  | NTurn _ | NOther => p
  end.

Definition item_text (p : Projector) (itemID : string) : option string := text <$> (assistantByItem p !! itemID).

Definition FinalAssistantText (p : Projector) : string :=
  match last (completedAssistant p) ≫= item_text p with
  | Some t => t
  | None => default "" (last (assistantOrder p) ≫= item_text p)
  end.

Definition ReasoningTextOf (p : Projector) : string := reasoning p.

(** ** The answer as a function of the events of the turn *)

Inductive event : Type :=
| EDelta (item delta : string)
| EComplete (item text : string).

Definition event_item (e : event) : string := match e with EDelta i _ | EComplete i _ => i end.
Definition is_complete (e : event) : bool := match e with EComplete _ _ => true | _ => false end.

(** The event that a notification is for the turn, if any. *)
Definition event_of (thread turn : string) (n : Notification) : option event :=
  match n with
  | NDelta p =>
      if bool_decide (DeltaThreadID p = thread /\ DeltaTurnID p = turn /\ DeltaItemID p <> "" /\ Delta p <> "")
      then Some (EDelta (DeltaItemID p) (Delta p)) else None
  | NItem p =>
      if bool_decide (CompletedThreadID p = thread /\ CompletedTurnID p = turn /\ ItemID (Item p) <> "") 
         && isAssistantItem (Item p)
      then Some (EComplete (ItemID (Item p)) (Text (Item p))) else None
  | _ => None
  end.

(** The text of an item: the deltas one after the other; a completion with a
    text replaces what there is. *)
Definition event_text (acc : string) (e : event) : string :=
  match e with
  | EDelta _ d => acc +:+ d
  | EComplete _ t => if String.eqb t "" then acc else t
  end.
Definition text_of (es : list event) (item : string) : string :=
  fold_left event_text (List.filter (fun e => String.eqb (event_item e) item) es) "".

(** The distinct items in the order of their first event. *)
Definition add_new (acc : list string) (i : string) : list string := if decide (i ∈ acc) then acc else acc ++ [i].
Definition firsts (l : list string) : list string := fold_left add_new l [].

Definition answer (es : list event) : string :=
  match last (firsts (map event_item (List.filter is_complete es))) with
  | Some item => text_of es item
  | None => match last (firsts (map event_item es)) with Some item => text_of es item | None => "" end
  end.

(** ** Lemmas *)

Lemma firsts_snoc l x : firsts (l ++ [x]) = add_new (firsts l) x.
Proof. unfold firsts. by rewrite fold_left_app. Qed.

Lemma elem_of_firsts l i : i ∈ firsts l <-> i ∈ l.
Proof.
  induction l as [|x l IH] using rev_ind; [done|]. rewrite firsts_snoc. unfold add_new.
  case_decide as Hd; rewrite ?elem_of_app, ?list_elem_of_singleton, ?IH in *; intuition (subst; auto).
Qed.

Lemma text_of_snoc es e i :
  text_of (es ++ [e]) i = if String.eqb (event_item e) i then event_text (text_of es i) e else text_of es i.
Proof.
  unfold text_of. rewrite List.filter_app, fold_left_app. cbn [List.filter].
  by destruct (String.eqb (event_item e) i).
Qed.

Lemma text_of_absent es i : i ∉ map event_item es -> text_of es i = "".
Proof.
  intros Hi. unfold text_of. assert (List.filter (fun e => String.eqb (event_item e) i) es = []) as ->; [|done].
  induction es as [|e es IH]; [done|]. cbn [map] in Hi. apply not_elem_of_cons in Hi as [Hne Hi].
  cbn [List.filter]. destruct (String.eqb_spec (event_item e) i); [congruence|]. auto.
Qed.

Definition completions (es : list event) : list string := map event_item (List.filter is_complete es).

Lemma completions_snoc es e :
  completions (es ++ [e]) = completions es ++ (if is_complete e then [event_item e] else []).
Proof. unfold completions. rewrite List.filter_app, map_app. cbn [List.filter]. by destruct (is_complete e). Qed.

(** What the projector holds after the events of the turn. *)
Record tracks (p : Projector) (thread turn : string) (es : list event) : Prop := {
  tracks_thread : threadID p = thread;
  tracks_turn : turnID p = turn;
  tracks_order : assistantOrder p = firsts (map event_item es);
  tracks_completed : completedAssistant p = firsts (completions es);
  tracks_items : forall i, assistantByItem p !! i =
    if bool_decide (i ∈ map event_item es)
    then Some (mkProjected (text_of es i) (bool_decide (i ∈ completions es))) else None
}.

Lemma completions_items es i : i ∈ completions es -> i ∈ map event_item es.
Proof.
  unfold completions. rewrite !list_elem_of_In, !in_map_iff. intros (e & He & Hin).
  exists e. split; [done|]. by apply filter_In in Hin as [? _].
Qed.

(** One event: an item of the right text, at its place in the orders. *)
Lemma tracks_event p thread turn es e t c :
  tracks p thread turn es ->
  t = event_text (text_of es (event_item e)) e ->
  c = bool_decide (event_item e ∈ completions (es ++ [e])) ->
  tracks (mkProjector thread turn (<[event_item e := mkProjected t c]> (assistantByItem p))
            (add_new (assistantOrder p) (event_item e))
            (if is_complete e then add_new (completedAssistant p) (event_item e) else completedAssistant p)
            (reasoning p)) thread turn (es ++ [e]).
Proof.
  intros HT -> ->. split; cbn [threadID turnID assistantOrder completedAssistant assistantByItem]; try done.
  - rewrite map_app. cbn [map]. by rewrite firsts_snoc, (tracks_order _ _ _ _ HT).
  - rewrite completions_snoc, (tracks_completed _ _ _ _ HT).
    destruct (is_complete e); [by rewrite firsts_snoc | by rewrite app_nil_r].
  - intros i. rewrite map_app, text_of_snoc. cbn [map].
    destruct (decide (event_item e = i)) as [<-|Hne].
    + rewrite lookup_insert_eq, String.eqb_refl.
      rewrite (bool_decide_true (event_item e ∈ map event_item es ++ [event_item e])); [done|].
      apply elem_of_app. right. by apply list_elem_of_singleton.
    + rewrite lookup_insert_ne by done. rewrite (tracks_items _ _ _ _ HT i).
      rewrite (proj2 (String.eqb_neq _ _) Hne).
      assert (HC : bool_decide (i ∈ completions (es ++ [e])) = bool_decide (i ∈ completions es)).
      { apply bool_decide_ext. rewrite completions_snoc, elem_of_app.
        destruct (is_complete e); rewrite ?list_elem_of_singleton.
        - split; [intros [?|?]; [done | congruence] | by left].
        - split; [intros [?|?%not_elem_of_nil]; done | by left]. }
      rewrite HC. rewrite (bool_decide_ext (i ∈ map event_item es ++ [event_item e]) (i ∈ map event_item es)); [done|].
      rewrite elem_of_app, list_elem_of_singleton. split; [intros [?|?]; [done | congruence] | by left].
Qed.

(** The item as the projector finds or makes it. *)
Lemma assistantItem_tracks p thread turn es i p' item :
  tracks p thread turn es -> assistantItem p i = (p', item) ->
  text item = text_of es i /\ completed item = bool_decide (i ∈ completions es) /\
  threadID p' = thread /\ turnID p' = turn /\ assistantOrder p' = add_new (assistantOrder p) i /\
  completedAssistant p' = completedAssistant p /\ reasoning p' = reasoning p /\
  forall x, <[i := x]> (assistantByItem p') = <[i := x]> (assistantByItem p).
Proof.
  intros HT. unfold assistantItem. rewrite (tracks_items _ _ _ _ HT i). unfold add_new.
  case_bool_decide as Hi; intros [= <- <-].
  - rewrite decide_True by (rewrite (tracks_order _ _ _ _ HT); by apply elem_of_firsts).
    split_and!; try done; by destruct HT.
  - rewrite decide_False by (rewrite (tracks_order _ _ _ _ HT); by rewrite elem_of_firsts).
    cbn. split_and!; try (by destruct HT); try done.
    + by rewrite text_of_absent.
    + symmetry. apply bool_decide_false. intros ?%completions_items. done.
    + intros x. by rewrite insert_insert_eq.
Qed.

Lemma Apply_tracks p thread turn es n :
  tracks p thread turn es -> tracks (Apply p n) thread turn (es ++ option_list (event_of thread turn n)).
Proof.
  intros HT. pose proof (tracks_thread _ _ _ _ HT) as Hth. pose proof (tracks_turn _ _ _ _ HT) as Htu.
  destruct n as [q|q|q|q|]; cbn [Apply event_of option_list]; rewrite ?app_nil_r; try exact HT.
  - unfold applyAgentMessageDelta. rewrite Hth, Htu.
    destruct (negb _ || negb _ || _ || _) eqn:E.
    + rewrite bool_decide_false; [by rewrite app_nil_r|]. intros (H1 & H2 & H3 & H4).
      rewrite H1, H2, !String.eqb_refl in E. cbn in E.
      apply String.eqb_neq in H3, H4. by rewrite H3, H4 in E.
    + breflect. rewrite bool_decide_true by done. cbn [option_list].
      destruct (assistantItem p (DeltaItemID q)) as [p' item] eqn:EI.
      destruct (assistantItem_tracks p thread turn es _ p' item HT EI) as (Ht & Hc & F1 & F2 & F3 & F4 & F5 & F6).
      unfold set_item. rewrite F1, F2, F3, F4, F5, F6.
      apply (tracks_event p thread turn es (EDelta (DeltaItemID q) (Delta q))); [done | by rewrite Ht |].
      rewrite Hc, completions_snoc. by rewrite app_nil_r.
  - unfold applyReasoningTextDelta. case_match; [exact HT|]. by destruct HT; split.
  - unfold applyItemCompleted. rewrite Hth, Htu. cbv zeta. set (it := Item q).
    destruct (negb _ || negb _ || _) eqn:E.
    + rewrite bool_decide_false; [by rewrite app_nil_r|]. intros (H1 & H2 & H3).
      rewrite H1, H2, !String.eqb_refl in E. cbn in E. apply String.eqb_neq in H3. by rewrite H3 in E.
    + breflect. rewrite bool_decide_true by done. cbn [andb].
      destruct (isAssistantItem it); cbn [negb]; [|by rewrite app_nil_r]. cbn [option_list].
      destruct (assistantItem p (ItemID it)) as [p' item] eqn:EI.
      destruct (assistantItem_tracks p thread turn es _ p' item HT EI) as (Ht & Hc & F1 & F2 & F3 & F4 & F5 & F6).
      pose proof (tracks_event p thread turn es (EComplete (ItemID it) (Text it)) _ true HT eq_refl) as HE.
      cbn [event_item is_complete event_text] in HE. unfold set_item. cbn [threadID turnID assistantByItem
        assistantOrder completedAssistant reasoning]. rewrite F1, F2, F3, F4, F5, F6, Ht.
      assert (HA : completed item = true -> add_new (completedAssistant p) (ItemID it) = completedAssistant p).
      { intros Hx. rewrite Hx in Hc. symmetry in Hc. apply bool_decide_eq_true in Hc. unfold add_new.
        apply decide_True. rewrite (tracks_completed _ _ _ _ HT). by apply elem_of_firsts. }
      assert (HN : completed item = false ->
        add_new (completedAssistant p) (ItemID it) = completedAssistant p ++ [ItemID it]).
      { intros Hx. rewrite Hx in Hc. symmetry in Hc. apply bool_decide_eq_false in Hc. unfold add_new.
        apply decide_False. rewrite (tracks_completed _ _ _ _ HT). by rewrite elem_of_firsts. }
      destruct (completed item); [rewrite HA in HE by done | rewrite HN in HE by done]; apply HE; symmetry;
        apply bool_decide_true; rewrite completions_snoc; apply elem_of_app; right; by apply list_elem_of_singleton.
Qed.

Lemma NewProjector_tracks thread turn : tracks (NewProjector thread turn) thread turn [].
Proof. by split. Qed.

Lemma Apply_all_tracks thread turn ns p es :
  tracks p thread turn es ->
  tracks (fold_left Apply ns p) thread turn (es ++ omap (event_of thread turn) ns).
Proof.
  revert p es; induction ns as [|n ns IH]; intros p es HT; [by rewrite app_nil_r|].
  cbn [fold_left]. pose proof (IH _ _ (Apply_tracks p thread turn es n HT)) as HI.
  rewrite <- app_assoc in HI. cbn [omap list_omap]. by destruct (event_of thread turn n).
Qed.

Lemma FinalAssistantText_tracks p thread turn es : tracks p thread turn es -> FinalAssistantText p = answer es.
Proof.
  intros HT. unfold FinalAssistantText, answer, item_text. fold (completions es).
  rewrite (tracks_completed _ _ _ _ HT), (tracks_order _ _ _ _ HT).
  assert (HI : forall i, i ∈ map event_item es -> text <$> assistantByItem p !! i = Some (text_of es i)).
  { intros i Hi. rewrite (tracks_items _ _ _ _ HT). by rewrite bool_decide_true. }
  destruct (last (firsts (completions es))) as [i|] eqn:E1; cbn [mbind option_bind].
  - rewrite HI; [done|]. apply completions_items, elem_of_firsts. by apply last_Some_elem_of.
  - destruct (last (firsts (map event_item es))) as [i|] eqn:E2; cbn [mbind option_bind]; [|done].
    rewrite HI; [done|]. apply elem_of_firsts. by apply last_Some_elem_of.
Qed.

(** C36: the final text of a projector, after any notifications of any turns
    in any order, is the answer as the events of its own turn define it: the
    text of the assistant item that was first completed last, or, when none
    was completed, of the item that appeared last. *)
Theorem projector_answer thread turn ns :
  FinalAssistantText (fold_left Apply ns (NewProjector thread turn)) = answer (omap (event_of thread turn) ns).
Proof.
  eapply FinalAssistantText_tracks, (Apply_all_tracks thread turn ns _ []), NewProjector_tracks.
Qed.

(** Other turns do not disturb: removing their notifications changes nothing. *)
Corollary projector_isolated thread turn ns :
  FinalAssistantText (fold_left Apply ns (NewProjector thread turn)) =
  FinalAssistantText (fold_left Apply
    (List.filter (fun n => match event_of thread turn n with Some _ => true | None => false end) ns)
    (NewProjector thread turn)).
Proof.
  assert (HP : forall l, FinalAssistantText (fold_left Apply l (NewProjector thread turn)) =
                         answer (omap (event_of thread turn) l)).
  { intros l. eapply FinalAssistantText_tracks, (Apply_all_tracks thread turn l _ []), NewProjector_tracks. }
  rewrite !HP. clear HP. f_equal. induction ns as [|n ns IH]; [done|]. cbn [omap list_omap List.filter].
  destruct (event_of thread turn n) as [e|] eqn:E; [|done]. cbn [omap list_omap]. by rewrite E, IH.
Qed.
