(* ===== verification/CodexClient.v ===== *)
(** * The app server client: [src/pkg/codexruntime/client.go]

    Requests, server requests and turns over a line connection. What the
    server sends is the list [inbox] of the connection, which may contain
    anything, so that the theorems hold for every server; reading can also
    fail at any point (a timeout) or be woken up by a steering request
    ([Wake]). [write_fails] tells which writes fail. The goroutines that call
    [SteerTurn] appear as the list [steers]: what each look into the channel
    of the turn finds. A mutex orders everything else. *)

From S2P Require Import Prelude Effects GoStrings Json CodexProtocol Projector.

(** ** State *)

Inductive frame : Type :=
| Frame (m : messageEnvelope)
| BadFrame
| ReadError (e : string)
| Wake.

Record Conn : Type := mkConn { inbox : list frame; close_error : option string }.

Inductive reply : Type :=
| RTool (content : list (string * string * string)) (success : bool)
| RDecision (decision : string)
| RPermissions (permissions : object) (scope : string)
| RAnswers (answers : gmap string (list string))
| RTokens (accessToken chatgptAccountID : string).

(** What the client has written: a request with its arguments, a
    notification, or the answer to a request of the server. *)
Inductive sent : Type :=
| SRequest (id : Z) (method : string) (args : list string)
| SNotify (method : string)
| SRespond (id : option json) (r : reply)
| SReject (id : option json) (code : Z) (text : string).

Inductive client_error : Type :=
| TurnInProgress
| NotStarted
| Canceled
| NoFuel
| Failed (text : string).

Record Client : Type := mkClient {
  conn : option Conn;
  next_conns : list (result string Conn);
  pending : list messageEnvelope;
  turnActive : bool;
  nextID : Z;
  writes : nat;
  outbox : list sent;
  steers : list (option (string * string));
  steer_results : list (result client_error unit);
  chunks : list string
}.

Abbreviation C := (ST Client client_error).

(** *** Updates of one field *)

Definition set_conn (c : Client) (x : option Conn) : Client :=
  mkClient x (next_conns c) (pending c) (turnActive c) (nextID c) (writes c) (outbox c) (steers c)
    (steer_results c) (chunks c).
Definition set_pending (c : Client) (x : list messageEnvelope) : Client :=
  mkClient (conn c) (next_conns c) x (turnActive c) (nextID c) (writes c) (outbox c) (steers c)
    (steer_results c) (chunks c).
Definition set_active (c : Client) (x : bool) : Client :=
  mkClient (conn c) (next_conns c) (pending c) x (nextID c) (writes c) (outbox c) (steers c)
    (steer_results c) (chunks c).
Definition set_next (c : Client) (x : Z) : Client :=
  mkClient (conn c) (next_conns c) (pending c) (turnActive c) x (writes c) (outbox c) (steers c)
    (steer_results c) (chunks c).
Definition add_sent (c : Client) (ok : bool) (x : sent) : Client :=
  mkClient (conn c) (next_conns c) (pending c) (turnActive c) (nextID c) (S (writes c))
    (if ok then outbox c ++ [x] else outbox c) (steers c) (steer_results c) (chunks c).
Definition add_chunk (c : Client) (x : string) : Client :=
  mkClient (conn c) (next_conns c) (pending c) (turnActive c) (nextID c) (writes c) (outbox c) (steers c)
    (steer_results c) (chunks c ++ [x]).

(** ** Requests of a turn *)

Record ToolCallRequest : Type := mkToolRequest { ReqCallID : string; ReqName : string; ReqArguments : object }.

(** The type, the text and the URL of each item of a result. *)
Record ToolCallResponse : Type := mkToolResponse {
  ToolContent : list (string * string * string);
  Success : bool
}.

Record RunTurnRequest : Type := mkTurnRequest {
  ThreadID : string;
  Input : string;
  HandleToolCall : option (ToolCallRequest -> result string ToolCallResponse);
  HasOnChunk : bool
}.

(** [normalizeToolResultContentItems] of [tool_bridge.go] *)
Definition normalize_item (item : string * string * string) : string * string * string :=
  let '(ty, text, url) := item in
  let t := TrimSpace ty in
  if String.eqb t "" || String.eqb t "text" || String.eqb t "inputText" then ("inputText", text, url)
  else if String.eqb t "image" || String.eqb t "imageUrl" || String.eqb t "inputImage"
  then ("inputImage", text, url)
  else item.

Definition toolFailure (message : string) : ToolCallResponse := mkToolResponse [("inputText", message, "")] false.

Definition handleToolCall (req : ToolCallRequest)
    (handler : option (ToolCallRequest -> result string ToolCallResponse)) : ToolCallResponse :=
  match handler with
  | None => toolFailure ("unknown tool: " +:+ ReqName req)
  | Some h =>
      match h req with
      | Err e => toolFailure e
      | Ok r =>
          let content := match ToolContent r with [] => [("inputText", "", "")] | l => l end in
          mkToolResponse (map normalize_item content) (Success r)
      end
  end.

(** [buildToolRequestUserInputResponse]: the first option of each question. *)
Definition first_label (q : ToolRequestUserInputQuestion) : list string :=
  match OptionLabels q with
  | l :: _ => if String.eqb l "" then [] else [l]
  | [] => []
  end.
Definition user_answers (qs : list ToolRequestUserInputQuestion) : gmap string (list string) :=
  fold_left (fun m q => if String.eqb (QuestionID q) "" then m else <[QuestionID q := first_label q]> m) qs ∅.

Section Client.
Context (write_fails : nat -> bool).
(** The tokens in the file [auth.json] of the Codex home, or why not. *)
Context (auth_tokens : result string (string * string)).

(** ** Input and output *)

Definition writeLocked (x : sent) : C unit := fun c =>
  match conn c with
  | None => (c, Err NotStarted)
  | Some _ =>
      let ok := negb (write_fails (writes c)) in
      (add_sent c ok x, if ok then Ok tt else Err (Failed "write"))
  end.

Definition readFromConnLocked : C messageEnvelope := fun c =>
  match conn c with
  | None => (c, Err NotStarted)
  | Some k =>
      match inbox k with
      | [] => (c, Err (Failed "EOF"))
      | f :: rest =>
          (set_conn c (Some (mkConn rest (close_error k))),
           match f with
           | Frame m => Ok m
           | BadFrame => Err (Failed "codexruntime: decode response")
           | ReadError e => Err (Failed e)
           | Wake => Err Canceled
           end)
      end
  end.

Definition readMessageLocked : C messageEnvelope := fun c =>
  match pending c with
  | m :: rest => (set_pending c rest, Ok m)
  | [] => readFromConnLocked c
  end.

Definition push_pending (m : messageEnvelope) : C unit := fun c => (set_pending c (pending c ++ [m]), Ok tt).

(** A counter of 64 bits, which the requests of one process do not exhaust. *)
Definition nextRequestID : C Z := fun c => let id := nextID c + 1 in (set_next c id, Ok id).

Definition rejectServerRequestLocked (m : messageEnvelope) (code : Z) (text : string) : C unit :=
  writeLocked (SReject (ID m) code text).
Definition respondToServerRequestLocked (m : messageEnvelope) (r : reply) : C unit := writeLocked (SRespond (ID m) r).

(** ** Calls *)

(** [decodeCallResult]: the result of a response with the right number. *)
Definition decodeCallResult (m : messageEnvelope) (id : Z) (method : string) : result client_error (option json) :=
  match decodeNumericID (ID m) with
  | None => Err (Failed "codexruntime: unsupported json-rpc id")
  | Some n =>
      if negb (n =? id) then
        Err (Failed ("codexruntime: " +:+ method +:+ " response id = " +:+ itoa n +:+ ", want " +:+ itoa id))
      else match Error m with
           | Some (_, text) =>
               Err (Failed (if String.eqb text "" then "codexruntime: " +:+ method +:+ " failed"
                            else "codexruntime: " +:+ method +:+ " failed: " +:+ text))
           | None => Ok (Result m)
           end
  end.

Definition lift_result {A} (r : result client_error A) : C A := fun c => (c, r).

(** Notifications that arrive before the response wait in [pending]; a
    request of the server ends the call. Every round takes a frame from the
    connection, so that [fuel] is the length of the inbox. *)
Fixpoint readResponseLocked (fuel : nat) (method : string) : C messageEnvelope :=
  match fuel with
  | O => throw NoFuel
  | S fuel' =>
      let! m := readFromConnLocked in
      if String.eqb (Method m) "" then ret m
      else if isServerRequest m then
        let! _ := rejectServerRequestLocked m (-32601) "server-initiated requests are unsupported" in
        throw (Failed ("codexruntime: server request " +:+ Method m +:+ " is unsupported during " +:+ method))
      else
        let! _ := push_pending m in
        readResponseLocked fuel' method
  end.

Definition inbox_of (c : Client) : list frame := match conn c with Some k => inbox k | None => [] end.

Definition callLocked (method : string) (args : list string) : C (option json) :=
  let! id := nextRequestID in
  let! _ := writeLocked (SRequest id method args) in
  fun c =>
    (let! m := readResponseLocked (S (length (inbox_of c))) method in
     lift_result (decodeCallResult m id method)) c.

Definition decode_or_fail {A} (decode : object -> option A) (method : string) (raw : option json) : C A :=
  match unmarshal decode raw with
  | Some a => ret a
  | None => throw (Failed ("codexruntime: decode " +:+ method +:+ " params"))
  end.

(** ** Requests of the server during a turn *)

Definition for_turn (req : RunTurnRequest) (turnID thread turn : string) : bool :=
  String.eqb thread (ThreadID req) && String.eqb turn turnID.

Definition mismatch (m : messageEnvelope) : C unit :=
  rejectServerRequestLocked m (-32600) "request thread/turn mismatch".

Definition routeServerRequestLocked (req : RunTurnRequest) (turnID : string) (m : messageEnvelope) : C unit :=
  if String.eqb (Method m) MethodItemToolCall then
    let! p := decode_or_fail decode_tool_call (Method m) (Params m) in
    if negb (for_turn req turnID (CallThreadID p) (CallTurnID p)) then mismatch m
    else
      let r := handleToolCall (mkToolRequest (CallID p) (CallName p) (Arguments p)) (HandleToolCall req) in
      respondToServerRequestLocked m (RTool (ToolContent r) (Success r))
  else if String.eqb (Method m) MethodItemToolRequestUserInput then
    let! p := decode_or_fail decode_user_input (Method m) (Params m) in
    let '(thread, turn, qs) := p in
    if negb (for_turn req turnID thread turn) then mismatch m
    else respondToServerRequestLocked m (RAnswers (user_answers qs))
  else if String.eqb (Method m) MethodItemCommandExecutionRequestApproval
          || String.eqb (Method m) MethodItemFileChangeRequestApproval then
    let! p := decode_or_fail decode_approval (Method m) (Params m) in
    let '(thread, turn, _) := p in
    if negb (for_turn req turnID thread turn) then mismatch m
    else respondToServerRequestLocked m (RDecision "accept")
  else if String.eqb (Method m) MethodItemPermissionsRequestApproval then
    let! p := decode_or_fail decode_approval (Method m) (Params m) in
    let '(thread, turn, permissions) := p in
    if negb (for_turn req turnID thread turn) then mismatch m
    else respondToServerRequestLocked m (RPermissions permissions "turn")
  else if String.eqb (Method m) MethodAccountChatgptAuthTokensRefresh then
    let! _ := decode_or_fail (fun o => let? _ := field_string o "reason" in field_string o "previousAccountId")
                (Method m) (Params m) in
    match auth_tokens with
    | Ok (access, account) => respondToServerRequestLocked m (RTokens access account)
    | Err e => rejectServerRequestLocked m (-32000) e
    end
  else rejectServerRequestLocked m (-32601) "server-initiated requests are unsupported".

(** ** Steering *)

(** The loop of [callDuringTurnLocked]. It reads from [pending] first and
    appends to [pending] what it does not want. *)
Fixpoint callDuringTurnLoop (fuel : nat) (id : Z) (method : string) (req : RunTurnRequest) (turnID : string) :
    C (option json) :=
  match fuel with
  | O => throw NoFuel
  | S fuel' =>
      let! m := readMessageLocked in
      if String.eqb (Method m) "" then lift_result (decodeCallResult m id method)
      else if isServerRequest m then
        let! _ := routeServerRequestLocked req turnID m in
        callDuringTurnLoop fuel' id method req turnID
      else
        let! _ := push_pending m in
        callDuringTurnLoop fuel' id method req turnID
  end.

Definition callDuringTurnLocked (fuel : nat) (method : string) (args : list string) (req : RunTurnRequest)
    (turnID : string) : C (option json) :=
  let! id := nextRequestID in
  let! _ := writeLocked (SRequest id method args) in
  callDuringTurnLoop fuel id method req turnID.

Definition handleSteerRequestLocked (fuel : nat) (req : RunTurnRequest) (turnID : string)
    (steer : string * string) : C unit :=
  if negb (String.eqb (ThreadID req) (fst steer)) then
    throw (Failed ("codexruntime: active turn thread mismatch: got " +:+ fst steer +:+ " want " +:+ ThreadID req))
  else
    let! _ := callDuringTurnLocked fuel "turn/steer" [fst steer; snd steer; turnID] req turnID in ret tt.

(** One look into the channel. *)
Definition receive_steer : C (option (string * string)) := fun c =>
  match steers c with
  | [] => (c, Ok None)
  | s :: rest =>
      (mkClient (conn c) (next_conns c) (pending c) (turnActive c) (nextID c) (writes c) (outbox c) rest
         (steer_results c) (chunks c), Ok s)
  end.

Definition answer_steer (r : result client_error unit) : C unit := fun c =>
  (mkClient (conn c) (next_conns c) (pending c) (turnActive c) (nextID c) (writes c) (outbox c) (steers c)
     (steer_results c ++ [r]) (chunks c), r).

Definition drainPendingSteerLocked (fuel : nat) (req : RunTurnRequest) (turnID : string) : C unit :=
  let! steer := receive_steer in
  match steer with
  | None => ret tt
  | Some s => let! r := try (handleSteerRequestLocked fuel req turnID s) in answer_steer r
  end.

(** ** Turns *)

Definition onChunk (req : RunTurnRequest) (delta : string) : C unit := fun c =>
  ((if HasOnChunk req then add_chunk c delta else c), Ok tt).

(** What one message means for the turn: it goes on with a projector, or
    ends. *)
Inductive progress : Type := Continue (p : Projector) | Done (text : string).

Definition handleMessage (req : RunTurnRequest) (turnID : string) (p : Projector) (m : messageEnvelope) :
    C progress :=
  if String.eqb (Method m) "" then
    match Error m with
    | Some (_, text) =>
        throw (Failed (if String.eqb text "" then "codexruntime: turn/start stream failed"
                       else "codexruntime: turn/start stream failed: " +:+ text))
    | None => ret (Continue p)
    end
  else
    match decodeNotification m with
    | None => throw (Failed ("codexruntime: decode " +:+ Method m +:+ " params"))
    | Some (NDelta d as n) =>
        if negb (for_turn req turnID (DeltaThreadID d) (DeltaTurnID d)) then ret (Continue p)
        else let! _ := onChunk req (Delta d) in ret (Continue (Apply p n))
    | Some (NItem _ as n) | Some (NReasoning _ as n) => ret (Continue (Apply p n))
    | Some (NTurn t) =>
        if for_turn req turnID (TurnThreadID t) (TurnTurnID t) then
          match turn_err t with
          | Some e => throw (Failed e)
          | None => ret (Done (FinalAssistantText p))
          end
        else ret (Continue p)
    | Some NOther => ret (Continue p)
    end.

(** A message, or nothing when the read was only woken up. *)
Definition nextMessage (req : RunTurnRequest) (turnID : string) : C (option messageEnvelope) :=
  let! r := try (let! m := readMessageLocked in
                 let! _ := if isServerRequest m then routeServerRequestLocked req turnID m else ret tt in
                 ret m) in
  match r with
  | Ok m => ret (Some m)
  | Err Canceled => ret None
  | Err e => throw e
  end.

Fixpoint turnLoop (fuel : nat) (req : RunTurnRequest) (turnID : string) (p : Projector) : C string :=
  match fuel with
  | O => throw NoFuel
  | S fuel' =>
      let! _ := drainPendingSteerLocked fuel req turnID in
      let! m := nextMessage req turnID in
      match m with
      | None => turnLoop fuel' req turnID p
      | Some m =>
          let! next := handleMessage req turnID p m in
          match next with
          | Continue p' => turnLoop fuel' req turnID p'
          | Done text => ret text
          end
      end
  end.

Definition activate (b : bool) : C unit := fun c => (set_active c b, Ok tt).

Definition check_idle : C unit := fun c =>
  (c, if turnActive c then Err TurnInProgress else match conn c with None => Err NotStarted | Some _ => Ok tt end).

Definition startTurn (fuel : nat) (req : RunTurnRequest) : C string :=
  let! raw := callLocked "turn/start" [ThreadID req; Input req] in
  let! turnID := match raw with
                 | None => ret ""
                 | Some _ => decode_or_fail decode_turn_start "turn/start" raw
                 end in
  if String.eqb turnID "" then throw (Failed "codexruntime: turn/start returned empty turn_id")
  else
    let! _ := drainPendingSteerLocked fuel req turnID in
    turnLoop fuel req turnID (NewProjector (ThreadID req) turnID).

(** The turn is no longer active when the function returns. *)
Definition RunTextTurn (fuel : nat) (req : RunTurnRequest) : C string :=
  let! _ := check_idle in
  let! _ := activate true in
  let! r := try (startTurn fuel req) in
  let! _ := activate false in
  lift_result r.

(** ** Connections and plain calls *)

Definition Call (method : string) (args : list string) : C (option json) :=
  let! _ := check_idle in callLocked method args.

Definition closeLocked : C unit := fun c =>
  match conn c with
  | None => (c, Ok tt)
  | Some k => (set_pending (set_conn c None) [],
               match close_error k with Some e => Err (Failed e) | None => Ok tt end)
  end.

Definition Close : C unit := fun c => if turnActive c then (c, Err TurnInProgress) else closeLocked c.

(** [transport.Start] *)
Definition connect : C unit := fun c =>
  match next_conns c with
  | Ok k :: rest =>
      (mkClient (Some k) rest [] (turnActive c) (nextID c) (writes c) (outbox c) (steers c) (steer_results c)
         (chunks c), Ok tt)
  | Err e :: rest =>
      (mkClient (conn c) rest (pending c) (turnActive c) (nextID c) (writes c) (outbox c) (steers c)
         (steer_results c) (chunks c), Err (Failed e))
  | [] => (c, Err (Failed "start"))
  end.

Definition initialize : C unit :=
  let! r := try (let! _ := callLocked "initialize" [] in writeLocked (SNotify "initialized")) in
  match r with
  | Ok _ => ret tt
  | Err e => let! _ := try closeLocked in throw e
  end.

Definition Start : C unit := fun c =>
  if turnActive c then (c, Err TurnInProgress)
  else match conn c with
       | Some _ => (c, Ok tt)
       | None => (let! _ := connect in initialize) c
       end.

Definition Restart : C unit :=
  let! r := try Close in
  match r with
  | Err NotStarted | Ok _ => Start
  | Err e => throw e
  end.

Definition ResumeThread (threadID : string) (dynamicTools : list string) : C unit :=
  let! _ := Call "thread/resume" (threadID :: dynamicTools) in ret tt.

Definition StartThread (model : string) (dynamicTools : list string) : C string :=
  let! raw := Call "thread/start" (model :: dynamicTools) in
  let! threadID := match raw with
                   | None => ret ""
                   | Some _ => decode_or_fail decode_thread_start "thread/start" raw
                   end in
  if String.eqb threadID "" then throw (Failed "codexruntime: thread/start returned empty thread_id")
  else ret threadID.

Definition StartNativeCompaction (threadID : string) : C unit :=
  let! _ := Call "thread/compact/start" [threadID] in ret tt.
End Client.
