(* ===== verification/CodexTurn.v ===== *)
(** * Turns of the app server client

    Properties of [CodexClient]: what a turn that returns a text has read and
    written, that turns return, and where the protocol of the client breaks
    down (steering, late responses). *)

From S2P Require Import Prelude Effects GoStrings Json CodexProtocol Projector CodexClient.

(** ** Waiting notifications *)

(** A message that neither answers a request nor is one. *)
Definition plain (m : messageEnvelope) : Prop := Method m <> "" /\ isServerRequest m = false.

Definition plain_pending (c c' : Client) : Prop := Forall plain (pending c) -> Forall plain (pending c').

#[export] Instance plain_pending_preorder : PreOrder plain_pending.
Proof. unfold plain_pending. split; [by intros c | intros c1 c2 c3 H1 H2 H; auto]. Qed.

(** A steering request that finds a notification waiting never returns: the
    loop takes the waiting messages in turn, puts each one back, and does not
    look at the connection. *)
Lemma callDuringTurnLoop_diverges auth wf fuel id method req turnID c :
  pending c <> [] -> Forall plain (pending c) ->
  exists c', callDuringTurnLoop wf auth fuel id method req turnID c = (c', Err NoFuel) /\
    conn c' = conn c /\ outbox c' = outbox c.
Proof.
  revert c; induction fuel as [|fuel IH]; intros c Hne HF; [by exists c|].
  destruct (pending c) as [|m rest] eqn:Ep; [done|]. inversion HF as [|? ? [Hm Hs] HF']; subst.
  cbn [callDuringTurnLoop]. unfold bind at 1, readMessageLocked. rewrite Ep.
  rewrite (proj2 (String.eqb_neq _ _) Hm), Hs. unfold bind at 1, push_pending.
  destruct (IH (set_pending (set_pending c rest) (pending (set_pending c rest) ++ [m]))) as (c' & HE & Hc & Ho).
  - cbn. by destruct rest.
  - cbn. apply Forall_app. split; [done|]. by constructor.
  - exists c'. split; [exact HE|]. by rewrite Hc, Ho.
Qed.

Section Keeps.
Context (wf : nat -> bool) (auth : result string (string * string)).

Lemma plain_same (c c' : Client) : pending c' = pending c -> plain_pending c c'.
Proof. intros H. unfold plain_pending. by rewrite H. Qed.

Lemma keeps_writeLocked x : keeps plain_pending (writeLocked wf x).
Proof. intros c c' r E. unfold writeLocked in E. destruct (conn c); injection E as <- _; by apply plain_same. Qed.

Lemma keeps_readFromConn : keeps plain_pending readFromConnLocked.
Proof.
  intros c c' r E. unfold readFromConnLocked in E.
  destruct (conn c) as [k|]; [destruct (inbox k)|]; injection E as <- _; by apply plain_same.
Qed.

Lemma keeps_readMessage : keeps plain_pending readMessageLocked.
Proof.
  intros c c' r E. unfold readMessageLocked in E. destruct (pending c) as [|m rest] eqn:Ep.
  - by eapply keeps_readFromConn.
  - injection E as <- _. intros HF. rewrite Ep in HF. by inversion HF.
Qed.

Lemma keeps_push m : plain m -> keeps plain_pending (push_pending m).
Proof.
  intros Hm c c' r E. injection E as <- _. intros HF. cbn. apply Forall_app. split; [done|]. by constructor.
Qed.

Lemma keeps_nextRequestID : keeps plain_pending nextRequestID.
Proof. intros c c' r E. injection E as <- _. by apply plain_same. Qed.

Lemma keeps_lift {A} (r : result client_error A) : keeps plain_pending (lift_result r).
Proof. intros c c' x E. injection E as <- _. by apply plain_same. Qed.

Lemma keeps_receive : keeps plain_pending receive_steer.
Proof. intros c c' r E. unfold receive_steer in E. destruct (steers c); injection E as <- _; by apply plain_same. Qed.

Lemma keeps_answer x : keeps plain_pending (answer_steer x).
Proof. intros c c' r E. injection E as <- _. by apply plain_same. Qed.

Lemma keeps_onChunk req d : keeps plain_pending (onChunk req d).
Proof. intros c c' r E. unfold onChunk in E. injection E as <- _. destruct (HasOnChunk req); by apply plain_same. Qed.

Lemma keeps_activate b : keeps plain_pending (activate b).
Proof. intros c c' r E. injection E as <- _. by apply plain_same. Qed.

Lemma keeps_check_idle : keeps plain_pending check_idle.
Proof. intros c c' r E. injection E as <- _. by apply plain_same. Qed.

#[local] Hint Resolve keeps_writeLocked keeps_readFromConn keeps_readMessage keeps_nextRequestID keeps_lift
  keeps_receive keeps_answer keeps_onChunk keeps_activate keeps_check_idle : go.

Lemma plain_intro m : String.eqb (Method m) "" = false -> isServerRequest m = false -> plain m.
Proof. intros H1%String.eqb_neq H2. by split. Qed.

Lemma keeps_readResponse fuel method : keeps plain_pending (readResponseLocked wf fuel method).
Proof.
  induction fuel as [|fuel IH]; cbn [readResponseLocked]; [apply keeps_throw, _|].
  apply keeps_bind; [apply _ | auto with go|]. intros m. destruct (String.eqb (Method m) "") eqn:EM; [apply keeps_ret, _|].
  destruct (isServerRequest m) eqn:ES; [unfold rejectServerRequestLocked; keeps_auto|].
  apply keeps_bind; [apply _ | by apply keeps_push, plain_intro | auto].
Qed.

Lemma keeps_callLocked method args : keeps plain_pending (callLocked wf method args).
Proof.
  unfold callLocked. keeps_auto. intros c c' r E. revert E. apply keeps_bind; [apply _ | apply keeps_readResponse | auto with go].
Qed.

Lemma keeps_decode {A} (d : object -> option A) method raw : keeps plain_pending (decode_or_fail d method raw).
Proof. unfold decode_or_fail. keeps_auto. Qed.

#[local] Hint Resolve keeps_readResponse keeps_callLocked keeps_decode : go.

Lemma keeps_route req turnID m : keeps plain_pending (routeServerRequestLocked wf auth req turnID m).
Proof.
  unfold routeServerRequestLocked, mismatch, respondToServerRequestLocked, rejectServerRequestLocked. keeps_auto.
Qed.
#[local] Hint Resolve keeps_route : go.

Lemma keeps_callDuringTurnLoop fuel id method req turnID :
  keeps plain_pending (callDuringTurnLoop wf auth fuel id method req turnID).
Proof.
  induction fuel as [|fuel IH]; cbn [callDuringTurnLoop]; [apply keeps_throw, _|].
  apply keeps_bind; [apply _ | auto with go|]. intros m. destruct (String.eqb (Method m) "") eqn:EM; [auto with go|].
  destruct (isServerRequest m) eqn:ES; [keeps_auto|].
  apply keeps_bind; [apply _ | by apply keeps_push, plain_intro | auto].
Qed.
#[local] Hint Resolve keeps_callDuringTurnLoop : go.

Lemma keeps_drain fuel req turnID : keeps plain_pending (drainPendingSteerLocked wf auth fuel req turnID).
Proof. unfold drainPendingSteerLocked, handleSteerRequestLocked, callDuringTurnLocked. keeps_auto. Qed.
#[local] Hint Resolve keeps_drain : go.

Lemma keeps_handleMessage req turnID p m : keeps plain_pending (handleMessage req turnID p m).
Proof. unfold handleMessage. keeps_auto. Qed.
#[local] Hint Resolve keeps_handleMessage : go.

Lemma keeps_nextMessage req turnID : keeps plain_pending (nextMessage wf auth req turnID).
Proof. unfold nextMessage. keeps_auto. Qed.
#[local] Hint Resolve keeps_nextMessage : go.

Lemma keeps_turnLoop fuel req turnID p : keeps plain_pending (turnLoop wf auth fuel req turnID p).
Proof. revert p; induction fuel as [|fuel IH]; intros p; cbn [turnLoop]; keeps_auto. Qed.
#[local] Hint Resolve keeps_turnLoop : go.

(** Whatever the server sends, only plain notifications are ever waiting. *)
Lemma RunTextTurn_plain fuel req : keeps plain_pending (RunTextTurn wf auth fuel req).
Proof. unfold RunTextTurn, startTurn. keeps_auto. Qed.

Lemma Call_plain method args : keeps plain_pending (Call wf method args).
Proof. unfold Call. keeps_auto. Qed.
End Keeps.

(** ** The messages of a turn *)

(** What the client will read: the waiting notifications, then the inbox. *)
Definition stream (c : Client) : list frame := map Frame (pending c) ++ inbox_of c.

Definition answers (m : messageEnvelope) (x : sent) : Prop :=
  (exists r, x = SRespond (ID m) r) \/ (exists code text, x = SReject (ID m) code text).

(** The same as before, but for what has been written and read. *)
Definition quiet (c c' : Client) : Prop := (steers c', chunks c') = (steers c, chunks c).

Section Turn.
Context (wf : nat -> bool) (auth : result string (string * string)).

Lemma writeLocked_cases x c c' r :
  writeLocked wf x c = (c', r) ->
  stream c' = stream c /\ quiet c c' /\ r <> Err Canceled /\
  (r = Ok tt -> outbox c' = outbox c ++ [x]).
Proof.
  unfold writeLocked. destruct (conn c) eqn:Ec; [|intros [= <- <-]; split_and!; done].
  destruct (negb (wf (writes c))); intros [= <- <-]; split_and!; done.
Qed.

Lemma readMessage_cases c c' r :
  readMessageLocked c = (c', r) ->
  quiet c c' /\ outbox c' = outbox c /\
  match r with
  | Ok m => stream c = Frame m :: stream c'
  | Err Canceled => stream c = Wake :: stream c'
  | Err _ => True
  end.
Proof.
  unfold readMessageLocked, stream. destruct (pending c) as [|m rest] eqn:Ep; [|by intros [= <- <-]].
  unfold readFromConnLocked, inbox_of. destruct (conn c) as [k|]; [|by intros [= <- <-]].
  destruct (inbox k) as [|[]]; intros [= <- <-]; cbn; rewrite ?Ep; done.
Qed.

Lemma decode_or_fail_inv {A} (d : object -> option A) method raw c c' r :
  decode_or_fail d method raw c = (c', r) -> c' = c /\ r <> Err Canceled.
Proof. unfold decode_or_fail. by case_match; intros [= <- <-]. Qed.

(** A request of the server that does not end the turn is answered once,
    under its own identifier. *)
Definition answering (m : messageEnvelope) (k : C unit) : Prop :=
  forall c c' r, k c = (c', r) ->
    stream c' = stream c /\ quiet c c' /\ r <> Err Canceled /\
    (r = Ok tt -> exists x, answers m x /\ outbox c' = outbox c ++ [x]).

Lemma answering_write m x : answers m x -> answering m (writeLocked wf x).
Proof. intros Hx c c' r E. apply writeLocked_cases in E as (? & ? & ? & ?). split_and!; eauto. Qed.

Lemma answering_decode {A} m (d : object -> option A) method raw (k : A -> C unit) :
  (forall a, answering m (k a)) -> answering m (let! p := decode_or_fail d method raw in k p).
Proof.
  intros Hk c c' r [(a & c1 & E1 & E2) | (e & E1 & ->)]%bind_inv; apply decode_or_fail_inv in E1 as [-> Hne].
  - by apply Hk in E2.
  - split_and!; try done. by intros [= ->].
Qed.

Lemma route_answers req turnID m : answering m (routeServerRequestLocked wf auth req turnID m).
Proof.
  assert (HR : forall code text, answering m (rejectServerRequestLocked wf m code text)).
  { intros. apply answering_write. right. eauto. }
  assert (HS : forall x, answering m (respondToServerRequestLocked wf m x)).
  { intros. apply answering_write. left. eauto. }
  unfold routeServerRequestLocked, mismatch.
  repeat (case_match; try apply answering_decode; intros; auto); repeat case_match; auto.
Qed.

Lemma nextMessage_cases req turnID c c' r :
  nextMessage wf auth req turnID c = (c', Ok r) ->
  quiet c c' /\
  match r with
  | None => stream c = Wake :: stream c' /\ outbox c' = outbox c
  | Some m => stream c = Frame m :: stream c' /\
      if isServerRequest m then exists x, answers m x /\ outbox c' = outbox c ++ [x] else outbox c' = outbox c
  end.
Proof.
  unfold nextMessage. intros [(x & c1 & E1 & E) | (e & E1 & ?)]%bind_inv; [|done].
  apply try_inv in E1 as (r1 & E1 & [= ->]).
  apply bind_inv in E1 as [(m & c2 & E2 & E1) | (e & E2 & ->)].
  - apply readMessage_cases in E2 as (HS & HO & HM).
    apply bind_inv in E1 as [([] & c3 & E3 & E1) | (e & E3 & ->)].
    + injection E1 as <- <-. injection E as <- <-. destruct (isServerRequest m) eqn:ES.
      * apply route_answers in E3 as (H1 & H2 & _ & H4). destruct (H4 eq_refl) as (x & Hx & Ho).
        unfold quiet in H2. split; [congruence|]. rewrite H1. split; [done|]. exists x. split; [done | congruence].
      * by injection E3 as <-.
    + exfalso. destruct (isServerRequest m); [|done]. apply route_answers in E3 as (_ & _ & Hne & _).
      by destruct e.
  - apply readMessage_cases in E2 as (HS & HO & HM). destruct e; try done. by injection E as <- <-.
Qed.

(** What a message contributes to the answer and to the stream of chunks. *)
Definition event_in (req : RunTurnRequest) (turnID : string) (m : messageEnvelope) : option event :=
  decodeNotification m ≫= event_of (ThreadID req) turnID.
Definition chunk_in (req : RunTurnRequest) (turnID : string) (m : messageEnvelope) : list string :=
  match decodeNotification m with
  | Some (NDelta d) => if HasOnChunk req && for_turn req turnID (DeltaThreadID d) (DeltaTurnID d)
                       then [Delta d] else []
  | _ => []
  end.

(** The message that ends a turn well. *)
Definition completes (req : RunTurnRequest) (turnID : string) (m : messageEnvelope) : Prop :=
  exists t, decodeNotification m = Some (NTurn t) /\ TurnThreadID t = ThreadID req /\ TurnTurnID t = turnID /\
    turn_err t = None.

Lemma handleMessage_cases req turnID p m c c' x es :
  handleMessage req turnID p m c = (c', Ok x) -> tracks p (ThreadID req) turnID es ->
  stream c' = stream c /\ steers c' = steers c /\ outbox c' = outbox c /\
  match x with
  | Continue p' =>
      tracks p' (ThreadID req) turnID (es ++ option_list (event_in req turnID m)) /\
      chunks c' = chunks c ++ chunk_in req turnID m
  | Done text => completes req turnID m /\ text = answer es /\ chunks c' = chunks c
  end.
Proof.
  intros E HT. unfold handleMessage, event_in, chunk_in, completes in *.
  assert (HA : forall n, tracks (Apply p n) (ThreadID req) turnID
                 (es ++ option_list (event_of (ThreadID req) turnID n))) by (intros; by apply Apply_tracks).
  destruct (String.eqb_spec (Method m) "") as [EM|EM].
  { destruct (Error m) as [[? ?]|]; [done|]. injection E as <- <-.
    assert (HD : decodeNotification m = Some NOther \/ decodeNotification m = None).
    { unfold decodeNotification. rewrite EM. cbn [String.eqb]. destruct (Params m) as [[]|]; auto. }
    destruct HD as [-> | ->]; cbn; rewrite !app_nil_r; done. }
  destruct (decodeNotification m) as [[d|q|q|q|]|] eqn:ED; [| | | | |done]; cbn [mbind option_bind] in *.
  - unfold for_turn in *. destruct (String.eqb_spec (DeltaThreadID d) (ThreadID req)) as [Ea|Ea];
      destruct (String.eqb_spec (DeltaTurnID d) turnID) as [Eb|Eb]; cbn [andb negb] in E |- *.
    2-4: injection E as <- <-; cbn [event_of]; rewrite bool_decide_false by (intros (? & ? & _); congruence);
      rewrite andb_false_r; cbn; by rewrite !app_nil_r.
    unfold bind, onChunk in E. destruct (HasOnChunk req); injection E as <- <-; rewrite ?app_nil_r;
      specialize (HA (NDelta d)); by split_and!.
  - injection E as <- <-. rewrite !app_nil_r. specialize (HA (NReasoning q)).
    cbn in HA. rewrite app_nil_r in HA. by split_and!.
  - injection E as <- <-. rewrite app_nil_r. specialize (HA (NItem q)). cbn in HA. by split_and!.
  - unfold for_turn in E. destruct (String.eqb_spec (TurnThreadID q) (ThreadID req)) as [Ea|Ea];
      destruct (String.eqb_spec (TurnTurnID q) turnID) as [Eb|Eb]; cbn [andb] in E.
    + destruct (turn_err q) eqn:Ee; [done|]. injection E as <- <-. split_and!; try done; [by exists q|].
      by eapply FinalAssistantText_tracks.
    + injection E as <- <-. cbn. by rewrite !app_nil_r.
    + injection E as <- <-. cbn. by rewrite !app_nil_r.
    + injection E as <- <-. cbn. by rewrite !app_nil_r.
  - injection E as <- <-. cbn. by rewrite !app_nil_r.
Qed.

Definition message_of (f : frame) : option messageEnvelope := match f with Frame m => Some m | _ => None end.
Definition read_well (f : frame) : Prop := f = Wake \/ exists m, f = Frame m.

(** Every request of the server in a list of messages has its answer, in
    order. *)
Definition answered (ms : list messageEnvelope) (new : list sent) : Prop :=
  Forall2 answers (List.filter isServerRequest ms) new.

Lemma drain_none fuel req turnID c :
  steers c = [] -> drainPendingSteerLocked wf auth fuel req turnID c = (c, Ok tt).
Proof. intros HS. unfold drainPendingSteerLocked, bind, receive_steer. by rewrite HS. Qed.

Lemma turnLoop_Ok fuel req turnID p c c' text es :
  turnLoop wf auth fuel req turnID p c = (c', Ok text) -> steers c = [] ->
  tracks p (ThreadID req) turnID es ->
  exists l mt new, stream c = l ++ Frame mt :: stream c' /\ Forall read_well l /\ completes req turnID mt /\
    text = answer (es ++ omap (event_in req turnID) (omap message_of l)) /\
    outbox c' = outbox c ++ new /\ answered (omap message_of l ++ [mt]) new /\
    chunks c' = chunks c ++ flat_map (chunk_in req turnID) (omap message_of l) /\ steers c' = [].
Proof.
  revert p c es; induction fuel as [|fuel IH]; intros p c es E HS HT; [done|].
  cbn [turnLoop] in E. unfold bind at 1 in E. rewrite drain_none in E by done.
  apply bind_inv in E as [(r & c1 & E1 & E) | (? & _ & ?)]; [|done].
  apply nextMessage_cases in E1 as [HQ HM]. unfold quiet in HQ. injection HQ as HS1 HC1.
  destruct r as [m|].
  - destruct HM as [Hst Hout].
    apply bind_inv in E as [(x & c2 & E2 & E) | (? & _ & ?)]; [|done].
    eapply handleMessage_cases in E2 as (F1 & F2 & F3 & F4); [|exact HT].
    assert (HA : exists a, outbox c2 = outbox c ++ a /\ answered [m] a).
    { unfold answered. cbn [List.filter]. rewrite F3. destruct (isServerRequest m).
      - destruct Hout as (a & Ha & ->). exists [a]. split; [done|]. econstructor; [done | econstructor].
      - exists []. rewrite Hout, app_nil_r. split; [done | constructor]. }
    destruct HA as (a & Ha & Hans). destruct x as [p'|out].
    + destruct F4 as [HT' HC2].
      destruct (IH p' c2 (es ++ option_list (event_in req turnID m)) E) as (l & mt & new & G1 & G2 & G3 & G4 & G5 & G6 & G7 & G8); [congruence | exact HT' |].
      exists (Frame m :: l), mt, (a ++ new). cbn [omap list_omap message_of flat_map].
      rewrite Hst, <- F1, G1, G4, G5, Ha, G7, HC2, HC1. split_and!; try done.
      * constructor; [right; by exists m | done].
      * cbn. rewrite <- !app_assoc. do 2 f_equal. by destruct (event_in req turnID m).
      * by rewrite <- app_assoc.
      * unfold answered in *. change ((m :: omap message_of l) ++ [mt]) with ([m] ++ (omap message_of l ++ [mt])).
        rewrite List.filter_app. by apply Forall2_app.
      * by rewrite <- app_assoc.
    + injection E as <- <-. destruct F4 as (HCm & -> & HC2). exists [], m, a. cbn.
      rewrite Hst, <- F1, !app_nil_r, Ha. split_and!; try done; congruence.
  - destruct HM as [Hst Hout].
    destruct (IH p c1 es E) as (l & mt & new & G1 & G2 & G3 & G4 & G5 & G6 & G7 & G8); [congruence | done |].
    exists (Wake :: l), mt, new. cbn [omap list_omap message_of].
    rewrite Hst, G1, G4, G5, G7, Hout, HC1. split_and!; try done. constructor; [by left | done].
Qed.

Lemma readResponse_Ok fuel method c c' m :
  readResponseLocked wf fuel method c = (c', Ok m) ->
  Method m = "" /\ quiet c c' /\ outbox c' = outbox c /\
  exists before, inbox_of c = map Frame before ++ Frame m :: inbox_of c' /\ Forall plain before /\
    pending c' = pending c ++ before.
Proof.
  revert c; induction fuel as [|fuel IH]; intros c E; [done|]. cbn [readResponseLocked] in E.
  apply bind_inv in E as [(x & c1 & E1 & E) | (? & _ & ?)]; [|done].
  assert (HR : quiet c c1 /\ outbox c1 = outbox c /\ pending c1 = pending c /\
               inbox_of c = Frame x :: inbox_of c1).
  { unfold readFromConnLocked, inbox_of in *. destruct (conn c) as [k|]; [|done].
    destruct (inbox k) as [|[]]; try done. by injection E1 as <- <-. }
  destruct HR as (HQ & HO & HP & HI).
  destruct (String.eqb (Method x) "") eqn:EM.
  - injection E as <- <-. apply String.eqb_eq in EM. split_and!; try done.
    exists []. by rewrite HP, app_nil_r.
  - destruct (isServerRequest x) eqn:ES.
    + by apply bind_inv in E as [(? & ? & _ & E) | (? & _ & ?)].
    + unfold bind, push_pending in E. apply IH in E as (H1 & H2 & H3 & before & H4 & H5 & H6).
      cbn in H4, H6. change (inbox_of (set_pending c1 _)) with (inbox_of c1) in H4. unfold quiet in *. cbn in H2, H3.
      split_and!; [done | congruence | congruence |]. exists (x :: before). cbn. rewrite HI, H4, H6, HP.
      split_and!; [done | constructor; [by apply plain_intro | done] | by rewrite <- app_assoc].
Qed.

Lemma decodeCallResult_Ok m id method raw :
  decodeCallResult m id method = Ok raw -> decodeNumericID (ID m) = Some id /\ Error m = None /\ raw = Result m.
Proof.
  unfold decodeCallResult. destruct (decodeNumericID (ID m)) as [n|]; [|done].
  destruct (Z.eqb_spec n id) as [->|]; cbn [negb]; [|done].
  destruct (Error m) as [[? ?]|]; [done|]. by intros [= <-].
Qed.

Lemma callLocked_Ok method args c c' raw :
  callLocked wf method args c = (c', Ok raw) ->
  quiet c c' /\ outbox c' = outbox c ++ [SRequest (nextID c + 1) method args] /\
  exists before m, inbox_of c = map Frame before ++ Frame m :: inbox_of c' /\ Forall plain before /\
    pending c' = pending c ++ before /\ decodeNumericID (ID m) = Some (nextID c + 1) /\ raw = Result m.
Proof.
  unfold callLocked. intros [(id & c1 & E1 & E) | (? & _ & ?)]%bind_inv; [|done]. injection E1 as <- <-.
  apply bind_inv in E as [([] & c2 & E2 & E) | (? & _ & ?)]; [|done].
  assert (HW : quiet c c2 /\ outbox c2 = outbox c ++ [SRequest (nextID c + 1) method args] /\
               inbox_of c2 = inbox_of c /\ pending c2 = pending c).
  { unfold writeLocked, inbox_of in *. cbn [conn set_next] in *. destruct (conn c) eqn:Ec; [|done].
    destruct (negb _); [|done]. injection E2 as <-. cbn. by rewrite Ec. }
  destruct HW as (HQ & HO & HI & HP).
  apply bind_inv in E as [(m & c3 & E3 & E) | (? & _ & ?)]; [|done].
  apply readResponse_Ok in E3 as (_ & HQ3 & HO3 & before & HB1 & HB2 & HB3).
  injection E as <- E. apply decodeCallResult_Ok in E as (HD & _ & ->). unfold quiet in *.
  split_and!; [congruence | congruence |]. exists before, m. split_and!; congruence.
Qed.
End Turn.

(** What a turn that returns a text has read and written. *)
Lemma startTurn_Ok wf auth fuel req c c' text :
  startTurn wf auth fuel req c = (c', Ok text) -> steers c = [] ->
  exists before response after turnID l last replies,
    inbox_of c = map Frame before ++ Frame response :: after /\ Forall plain before /\
    decodeNumericID (ID response) = Some (nextID c + 1) /\
    unmarshal decode_turn_start (Result response) = Some turnID /\ turnID <> "" /\
    map Frame (pending c ++ before) ++ after = l ++ Frame last :: stream c' /\ Forall read_well l /\
    completes req turnID last /\
    text = answer (omap (event_in req turnID) (omap message_of l)) /\
    outbox c' = outbox c ++ SRequest (nextID c + 1) "turn/start" [ThreadID req; Input req] :: replies /\
    answered (omap message_of l ++ [last]) replies /\
    chunks c' = chunks c ++ flat_map (chunk_in req turnID) (omap message_of l).
Proof.
  intros E3 HS. unfold startTurn in E3. apply bind_inv in E3 as [(raw & c5 & E5 & E3) | (? & _ & ?)]; [|done].
  apply callLocked_Ok in E5 as (HQ & HO & before & m & HI & HB & HP & HD & ->).
  apply bind_inv in E3 as [(turnID & c6 & E6 & E3) | (? & _ & ?)]; [|done].
  assert (c6 = c5 /\ (turnID <> "" -> unmarshal decode_turn_start (Result m) = Some turnID)) as [-> HT].
  { destruct (Result m); [|by injection E6 as <- <-]. unfold decode_or_fail in E6.
    destruct (unmarshal _ _) eqn:EU; [|done]. by injection E6 as <- <-. }
  destruct (String.eqb_spec turnID "") as [|Hne]; [done|].
  unfold quiet in HQ. injection HQ as HS5 HC5.
  unfold bind at 1 in E3. rewrite drain_none in E3 by congruence.
  eapply turnLoop_Ok in E3 as (l & mt & new & G1 & G2 & G3 & G4 & G5 & G6 & G7 & G8);
    [| congruence | apply NewProjector_tracks].
  exists before, m, (inbox_of c5), turnID, l, mt, new. rewrite HO in G5. rewrite HC5 in G7.
  rewrite <- G1. unfold stream. rewrite HP.
  split_and!; try done; [by apply HT |]. by rewrite G5, <- app_assoc.
Qed.

Lemma RunTextTurn_inv wf auth fuel req c c' text :
  RunTextTurn wf auth fuel req c = (c', Ok text) ->
  turnActive c' = false /\ exists c3, startTurn wf auth fuel req (set_active c true) = (c3, Ok text) /\ c' = set_active c3 false.
Proof.
  unfold RunTextTurn. intros [([] & c1 & E1 & E) | (? & _ & ?)]%bind_inv; [|done].
  unfold check_idle in E1. injection E1 as <- _.
  apply bind_inv in E as [([] & c2 & E2 & E) | (? & _ & ?)]; [|done]. injection E2 as <-.
  apply bind_inv in E as [(r & c3 & E3 & E) | (? & _ & ?)]; [|done].
  apply try_inv in E3 as (r0 & E3 & [= ->]).
  apply bind_inv in E as [([] & c4 & E4 & E) | (? & _ & ?)]; [|done]. injection E4 as <-. injection E as <- ->.
  split; [done|]. by exists c3.
Qed.

(** C24: whatever the server sends, a turn that returns a text (and that
    nobody steers) was started by one request, whose response gave the turn;
    of the messages that followed, the notifications that arrived before the
    response first, the last one completed this turn, the text is the answer
    that the events of this turn define, every request of the server among
    them has exactly one reply, in order and under its own identifier, and
    the chunks handed on are the deltas of this turn. *)
Theorem RunTextTurn_answer write_fails auth_tokens fuel req c c' text :
  RunTextTurn write_fails auth_tokens fuel req c = (c', Ok text) -> steers c = [] ->
  exists before response after turnID l last replies,
    inbox_of c = map Frame before ++ Frame response :: after /\ Forall plain before /\
    decodeNumericID (ID response) = Some (nextID c + 1) /\
    unmarshal decode_turn_start (Result response) = Some turnID /\ turnID <> "" /\
    map Frame (pending c ++ before) ++ after = l ++ Frame last :: stream c' /\ Forall read_well l /\
    completes req turnID last /\
    text = answer (omap (event_in req turnID) (omap message_of l)) /\
    outbox c' = outbox c ++ SRequest (nextID c + 1) "turn/start" [ThreadID req; Input req] :: replies /\
    answered (omap message_of l ++ [last]) replies /\
    chunks c' = chunks c ++ flat_map (chunk_in req turnID) (omap message_of l) /\ turnActive c' = false.
Proof.
  intros (HA & c3 & E & ->)%RunTextTurn_inv HS.
  destruct (startTurn_Ok _ _ _ _ _ _ _ E HS)
    as (before & m & after & turnID & l & mt & replies & H1 & H2 & H3 & H4 & H5 & H6 & H7 & H8 & H9 & H10 & H11 & H12).
  exists before, m, after, turnID, l, mt, replies. by split_and!.
Qed.

(** ** Turns that return, and turns that do not *)

Section Returns.
Context (wf : nat -> bool) (auth : result string (string * string)).

(** No fuel is missing anywhere, and no frame appears. *)
Definition progressing {A} (k : C A) : Prop :=
  forall c c' r, k c = (c', r) ->
    r <> Err NoFuel /\ (length (stream c') <= length (stream c))%nat /\ steers c' = steers c.

Lemma route_progress req turnID m : progressing (routeServerRequestLocked wf auth req turnID m).
Proof.
  intros c c' r E. pose proof E as E0. apply route_answers in E as (-> & HQ & _). unfold quiet in HQ.
  split_and!; [| lia | congruence]. clear HQ. intros ->. revert E0.
  unfold routeServerRequestLocked, mismatch, respondToServerRequestLocked, rejectServerRequestLocked, decode_or_fail,
    writeLocked, bind, ret, throw.
  repeat (case_match; simplify_eq/=; try done).
Qed.

Lemma nextMessage_progress req turnID c c' r :
  nextMessage wf auth req turnID c = (c', r) ->
  r <> Err NoFuel /\ steers c' = steers c /\
  (r = Ok None \/ (exists m, r = Ok (Some m)) -> (length (stream c') < length (stream c))%nat).
Proof.
  intros E. pose proof E as E0. unfold nextMessage in E.
  apply bind_inv in E as [(x & c1 & E1 & E) | (e & E1 & ->)].
  2: { apply try_inv in E1 as (? & _ & ?). done. }
  apply try_inv in E1 as (r1 & E1 & [= ->]).
  assert (HN : r1 <> Err NoFuel /\ steers c1 = steers c).
  { apply bind_inv in E1 as [(m & c2 & E2 & E1) | (e & E2 & ->)].
    - apply readMessage_cases in E2 as (HQ & _ & _). unfold quiet in HQ.
      apply bind_inv in E1 as [([] & c3 & E3 & E1) | (e & E3 & ->)].
      + injection E1 as <- <-. split; [done|]. destruct (isServerRequest m); [|injection E3 as <-; congruence].
        apply route_progress in E3 as (_ & _ & ?). congruence.
      + destruct (isServerRequest m); [|done]. apply route_progress in E3 as (? & _ & ?).
        split; [intros [= ->]; congruence | congruence].
    - assert (e <> NoFuel).
      { unfold readMessageLocked, readFromConnLocked in E2. repeat (case_match; simplify_eq/=; try done). }
      apply readMessage_cases in E2 as (HQ & _ & _). unfold quiet in HQ. split; congruence. }
  destruct HN as [HN HS].
  assert (c' = c1 /\ r <> Err NoFuel) as [-> HR].
  { destruct r1 as [m|[]]; injection E as <- <-; try done; split; try done; congruence. }
  split_and!; [done | done |]. intros [-> | [m ->]]; apply nextMessage_cases in E0 as [_ HM]; destruct HM as [-> _]; simpl; lia.
Qed.

Lemma turnLoop_returns fuel req turnID p c :
  steers c = [] -> (length (stream c) < fuel)%nat ->
  snd (turnLoop wf auth fuel req turnID p c) <> Err NoFuel.
Proof.
  revert p c; induction fuel as [|fuel IH]; intros p c HS HL; [lia|]. cbn [turnLoop].
  unfold bind at 1. rewrite drain_none by done.
  unfold bind at 1. destruct (nextMessage wf auth req turnID c) as [c1 r] eqn:E1.
  apply nextMessage_progress in E1 as (HN & HS1 & HP). destruct r as [[m|]|e]; [| |simpl; congruence].
  - assert (HP' : (length (stream c1) < length (stream c))%nat) by eauto.
    unfold bind. destruct (handleMessage req turnID p m c1) as [c2 r2] eqn:E2.
    assert (HH : stream c2 = stream c1 /\ steers c2 = steers c1 /\ r2 <> Err NoFuel).
    { unfold handleMessage, bind, onChunk, throw, ret in E2. by repeat (case_match; simplify_eq/=). }
    destruct HH as (H1 & H2 & H3). destruct r2 as [[p'|out]|e]; [| done | simpl; congruence].
    apply IH; [congruence | rewrite H1; lia].
  - assert (HP' : (length (stream c1) < length (stream c))%nat) by eauto. apply IH; [congruence | lia].
Qed.

Lemma readResponse_returns fuel method c :
  (length (inbox_of c) < fuel)%nat ->
  forall c' r, readResponseLocked wf fuel method c = (c', r) ->
    r <> Err NoFuel /\ (length (stream c') <= length (stream c))%nat /\ steers c' = steers c.
Proof.
  revert c; induction fuel as [|fuel IH]; intros c HL c' r E; [lia|]. cbn [readResponseLocked] in E.
  unfold bind at 1, readFromConnLocked in E. unfold stream, inbox_of in HL |- *.
  destruct (conn c) as [k|] eqn:Ec; [|by injection E as <- <-; rewrite Ec].
  destruct (inbox k) as [|f rest] eqn:Ei.
  { injection E as <- <-. rewrite Ec, Ei. done. }
  set (c1 := set_conn c (Some (mkConn rest (close_error k)))) in *.
  assert (HR : forall x, (c', r) = (c1, Err x) -> x <> NoFuel ->
    r <> Err NoFuel /\ (length (map Frame (pending c') ++ match conn c' with Some k => inbox k | None => [] end) <=
      length (map Frame (pending c) ++ f :: rest))%nat /\ steers c' = steers c).
  { intros x [= -> ->] Hx. split_and!; [congruence | | done]. cbn. rewrite !length_app. simpl. lia. }
  destruct f as [m| |e|]; [| by eapply HR; [symmetry; exact E|] ..].
  destruct (String.eqb (Method m) ""); [injection E as <- <-; split_and!; [done | | done]; cbn; rewrite !length_app; simpl; lia|].
  destruct (isServerRequest m).
  - unfold bind, rejectServerRequestLocked in E. destruct (writeLocked wf _ c1) as [c2 [[]|e]] eqn:EW.
    + injection E as <- <-. apply writeLocked_cases in EW as (HS & HQ & _). unfold stream, inbox_of, quiet in *.
      rewrite HS. split_and!; [done | | by injection HQ as ->]. cbn. rewrite !length_app. simpl. lia.
    + injection E as <- <-. assert (e <> NoFuel) by (unfold writeLocked in EW; repeat (case_match; simplify_eq/=; try done)).
      apply writeLocked_cases in EW as (HS & HQ & _). unfold stream, inbox_of, quiet in *.
      rewrite HS. split_and!; [congruence | | by injection HQ as ->]. cbn. rewrite !length_app. simpl. lia.
  - unfold bind, push_pending in E. apply IH in E as (H1 & H2 & H3).
    + split_and!; [done | | exact H3]. etransitivity; [exact H2|]. unfold stream, inbox_of. cbn.
      rewrite map_app, !length_app. simpl. lia.
    + unfold inbox_of. cbn. simpl in HL. lia.
Qed.
Lemma callLocked_no_fuel method args c c' e : callLocked wf method args c = (c', Err e) -> e <> NoFuel.
Proof.
  unfold callLocked. intros [(id & c1 & E1 & E) | (e' & E1 & He)]%bind_inv; [|done].
  apply bind_inv in E as [([] & c2 & E2 & E) | (e' & E2 & He)].
  - apply bind_inv in E as [(m & c3 & E3 & E) | (e' & E3 & He)].
    + unfold lift_result, decodeCallResult in E. by repeat (case_match; simplify_eq/=).
    + apply readResponse_returns in E3 as [? _]; [congruence | lia].
  - unfold writeLocked in E2. by repeat (case_match; simplify_eq/=).
Qed.

Lemma startTurn_returns fuel req c c' r :
  steers c = [] -> (length (stream c) < fuel)%nat ->
  startTurn wf auth fuel req c = (c', r) -> r <> Err NoFuel.
Proof.
  intros HS HL. unfold startTurn. intros [(raw & c3 & E1 & ET) | (e & E1 & ->)]%bind_inv.
  2: { apply callLocked_no_fuel in E1. congruence. }
  apply bind_inv in ET as [(turnID & c4 & E2 & ET) | (e & E2 & ->)].
  2: { destruct raw; [|done]. unfold decode_or_fail in E2.
       destruct (unmarshal _ _); [done|]. by injection E2 as <- <-. }
  assert (c4 = c3) as ->.
  { destruct raw; [by apply decode_or_fail_inv in E2 as [-> _] | by injection E2 as <- _]. }
  destruct (String.eqb turnID ""); [by injection ET as <- <-|].
  apply callLocked_Ok in E1 as (HQ & _ & before & m & HI & _ & HP & _). unfold quiet in HQ.
  unfold bind at 1 in ET. rewrite drain_none in ET by congruence.
  assert (HR := turnLoop_returns fuel req turnID (NewProjector (ThreadID req) turnID) c3).
  rewrite ET in HR. apply HR; [congruence|].
  eapply Nat.le_lt_trans; [|exact HL]. unfold stream. rewrite HP, HI, map_app, !length_app. simpl. lia.
Qed.
End Returns.

(** A turn that nobody steers always returns: as many rounds as there are
    messages to read are enough, whatever the messages are. *)
Theorem RunTextTurn_returns write_fails auth_tokens fuel req c :
  steers c = [] -> (length (stream c) < fuel)%nat ->
  snd (RunTextTurn write_fails auth_tokens fuel req c) <> Err NoFuel.
Proof.
  intros HS HL. unfold RunTextTurn, bind at 1, check_idle.
  destruct (turnActive c); [done|]. destruct (conn c) eqn:Ec; [|done].
  unfold bind at 1, activate. set (c1 := set_active c true).
  unfold bind at 1. destruct (try (startTurn write_fails auth_tokens fuel req) c1) as [c2 r] eqn:ET.
  apply try_inv in ET as (r0 & ET & ->). unfold bind, activate, lift_result. cbn [snd]. intros ->.
  eapply startTurn_returns; [| | exact ET | done]; [exact HS | exact HL].
Qed.

Lemma callDuringTurnLocked_hangs wf auth fuel method args req turnID c n frames :
  conn c <> None -> wf (writes c) = false -> Forall plain (pending c) -> stream c = Frame n :: frames -> plain n ->
  exists c', callDuringTurnLocked wf auth fuel method args req turnID c = (c', Err NoFuel).
Proof.
  intros HC HW HP HSt Hn. unfold callDuringTurnLocked, bind at 1, nextRequestID, bind at 1, writeLocked.
  cbn [conn set_next writes]. destruct (conn c) as [k|] eqn:Ec; [|done]. rewrite HW. cbn [negb].
  set (c1 := add_sent _ _ _). generalize (nextID c + 1). intros id.
  assert (HC1 : conn c1 = Some k /\ pending c1 = pending c) by done. clearbody c1. destruct HC1 as [HC1 HP1].
  destruct (pending c) as [|m ms] eqn:Ep.
  - unfold stream, inbox_of in HSt. rewrite Ep, Ec in HSt. cbn in HSt. destruct fuel as [|fuel]; [by exists c1|].
    cbn [callDuringTurnLoop]. unfold bind at 1, readMessageLocked, readFromConnLocked.
    rewrite HP1, HC1, HSt. destruct Hn as [Hm Hs].
    rewrite (proj2 (String.eqb_neq _ _) Hm), Hs. unfold bind at 1, push_pending.
    edestruct callDuringTurnLoop_diverges as (c' & HE & _); [| | exists c'; exact HE]; cbn; rewrite HP1; [done|].
    by repeat constructor.
  - edestruct callDuringTurnLoop_diverges as (c' & HE & _); [| | exists c'; exact HE]; by rewrite HP1.
Qed.

(** Steering hangs a turn for good: when a turn looks for a steering
    request and finds one while the next message to read is a notification,
    the call loops over that notification without reading the connection, and
    neither it nor the turn returns, however long they run. *)
Theorem steer_hangs write_fails auth_tokens fuel req turnID p c input rest n frames :
  steers c = Some (ThreadID req, input) :: rest -> conn c <> None -> write_fails (writes c) = false ->
  Forall plain (pending c) -> stream c = Frame n :: frames -> plain n ->
  snd (turnLoop write_fails auth_tokens fuel req turnID p c) = Err NoFuel.
Proof.
  intros HS HC HW HP HSt Hn. destruct fuel as [|fuel]; [done|]. cbn [turnLoop].
  unfold bind at 1, drainPendingSteerLocked at 1, bind at 1, receive_steer. rewrite HS.
  unfold bind at 1, try at 1, handleSteerRequestLocked. cbn [fst snd]. rewrite String.eqb_refl. cbn [negb].
  unfold bind at 1.
  edestruct (callDuringTurnLocked_hangs write_fails auth_tokens (S fuel) "turn/steer") as [c' HE];
    [| | | | exact Hn |]; [..| rewrite HE; reflexivity]; done.
Qed.

(** ** Late responses *)

Fixpoint run_calls (wf : nat -> bool) (calls : list (string * list string)) (c : Client) :
    list (result client_error (option json)) :=
  match calls with
  | [] => []
  | (method, args) :: calls' =>
      let '(c', r) := Call wf method args c in r :: run_calls wf calls' c'
  end.

(** One call that does not get its own response next. *)
Lemma Call_wrong_response wf method args c k :
  (forall n, wf n = false) -> conn c = Some k -> turnActive c = false -> pending c = [] ->
  match inbox k with
  | Frame m :: _ => Method m = "" /\ decodeNumericID (ID m) <> Some (nextID c + 1)
  | _ => True
  end ->
  exists c' e, Call wf method args c = (c', Err e) /\ conn c' = Some (mkConn (tail (inbox k)) (close_error k)) /\
    turnActive c' = false /\ pending c' = [] /\ nextID c' = nextID c + 1.
Proof.
  intros HW HC HA HP HI. destruct k as [fs ce]. unfold Call, bind at 1, check_idle. rewrite HA, HC.
  unfold callLocked, bind at 1, nextRequestID, bind at 1, writeLocked. cbn [conn set_next]. rewrite HC, HW.
  cbn [negb]. unfold inbox_of at 1. cbn [conn add_sent set_next]. rewrite HC. cbn [inbox].
  unfold bind, readResponseLocked at 1, bind, readFromConnLocked. cbn [conn add_sent set_next]. rewrite HC.
  cbn [inbox] in *. destruct fs as [|[m| |e|] rest].
  - do 2 eexists. split; [reflexivity|]. cbn. by rewrite HC.
  - destruct HI as [HM HD]. rewrite HM. cbn [String.eqb]. unfold lift_result, decodeCallResult, ret.
    destruct (decodeNumericID (ID m)) as [n|]; [|do 2 eexists; by split].
    assert (Hn : (n =? nextID c + 1) = false) by (apply Z.eqb_neq; congruence). rewrite Hn. cbn [negb].
    do 2 eexists. by split.
  - do 2 eexists. by split.
  - do 2 eexists. by split.
  - do 2 eexists. by split.
Qed.

Lemma run_calls_shifted wf calls responses c k :
  (forall n, wf n = false) -> conn c = Some k -> turnActive c = false -> pending c = [] ->
  inbox k = map Frame responses ->
  (forall i m, responses !! i = Some m -> Method m = "" /\ decodeNumericID (ID m) = Some (nextID c + Z.of_nat i)) ->
  Forall (fun r => exists e, r = Err e) (run_calls wf calls c).
Proof.
  intros HW. revert c k responses; induction calls as [|[method args] calls IH];
    intros c k responses HC HA HP HI HR; [constructor|]. cbn [run_calls].
  destruct (Call_wrong_response wf method args c k HW HC HA HP) as (c' & e & -> & HC' & HA' & HP' & HN').
  { rewrite HI. destruct responses as [|m ms]; [done|]. cbn. destruct (HR 0%nat m eq_refl) as [? HD].
    split; [done|]. rewrite HD. intros [= ?]. lia. }
  constructor; [by exists e|]. eapply (IH c' _ (tail responses)); [exact HC' | done | done | |].
  - cbn [inbox]. rewrite HI. by destruct responses.
  - intros i m Hm. destruct responses as [|m0 ms]; [done|]. cbn in Hm.
    destruct (HR (S i) m Hm) as [? ->]. split; [done|]. f_equal. lia.
Qed.

(** One response that comes too late breaks the connection: when a call
    times out and the server answers it, and every later call, in order and
    under the right number, all the later calls fail as well, because each
    one reads the response to the call before. *)
Theorem late_response_breaks_calls write_fails calls c timeout responses close :
  (forall n, write_fails n = false) -> turnActive c = false -> pending c = [] ->
  conn c = Some (mkConn (ReadError timeout :: map Frame responses) close) ->
  (forall i m, responses !! i = Some m ->
     Method m = "" /\ decodeNumericID (ID m) = Some (nextID c + 1 + Z.of_nat i)) ->
  Forall (fun r => exists e, r = Err e) (run_calls write_fails calls c).
Proof.
  intros HW HA HP HC HR. destruct calls as [|[method args] calls]; [constructor|]. cbn [run_calls].
  destruct (Call_wrong_response write_fails method args c _ HW HC HA HP I) as (c' & e & -> & HC' & HA' & HP' & HN').
  constructor; [by exists e|]. eapply run_calls_shifted; [done | exact HC' | done | done | reflexivity |].
  intros i m Hm. destruct (HR i m Hm) as [? ->]. split; [done|]. f_equal. lia.
Qed.

(** ** A turn that the theorems apply to *)

Definition notification (method : string) (params : object) : messageEnvelope :=
  mkEnvelope "2.0" None method (Some (JObj params)) None None.
Definition response_to (id : Z) (result : object) : messageEnvelope :=
  mkEnvelope "2.0" (Some (JInt id)) "" None (Some (JObj result)) None.
Definition turn_fields : object := [("threadId", JStr "th"); ("turnId", JStr "tu")].
Definition demo_delta (d : string) : messageEnvelope :=
  notification MethodItemAgentMessageDelta (turn_fields ++ [("itemId", JStr "i1"); ("delta", JStr d)]).
Definition demo_end : messageEnvelope := notification methodTurnCompleted (turn_fields ++ [("status", JStr "completed")]).
Definition demo_call : messageEnvelope :=
  mkEnvelope "2.0" (Some (JStr "srv-1")) MethodItemToolCall
    (Some (JObj (turn_fields ++ [("callId", JStr "c"); ("name", JStr "clock"); ("arguments", JObj [])]))) None None.
Definition demo_request : RunTurnRequest :=
  mkTurnRequest "th" "hello" (Some (fun r => Ok (mkToolResponse [("text", "12:00", "")] true))) true.
Definition demo_client (frames : list frame) (s : list (option (string * string))) : Client :=
  mkClient (Some (mkConn frames None)) [] [] false 0 0%nat [] s [] [].
Definition demo_frames : list frame :=
  [Frame (demo_delta "It is "); Frame (response_to 1 [("turn", JObj [("id", JStr "tu")])]); Wake;
   Frame demo_call; Frame (demo_delta "noon."); Frame demo_end].

Lemma RunTextTurn_answer_witness :
  exists c', RunTextTurn (fun _ => false) (Err "no tokens") 10%nat demo_request (demo_client demo_frames []) =
      (c', Ok "It is noon.") /\ outbox c' =
        [SRequest 1 "turn/start" ["th"; "hello"]; SRespond (Some (JStr "srv-1")) (RTool [("inputText", "12:00", "")] true)] /\
    exists replies, answered [demo_delta "It is "; demo_call; demo_delta "noon."; demo_end] replies.
Proof.
  destruct (RunTextTurn (fun _ => false) (Err "no tokens") 10%nat demo_request (demo_client demo_frames [])) as [c' r] eqn:E.
  assert (Hr : r = Ok "It is noon." /\
    outbox c' = [SRequest 1 "turn/start" ["th"; "hello"];
                 SRespond (Some (JStr "srv-1")) (RTool [("inputText", "12:00", "")] true)]).
  { change r with (snd (c', r)). change (outbox c') with (outbox (fst (c', r))). rewrite <- E.
    split; vm_compute; reflexivity. }
  destruct Hr as [-> Ho]. exists c'. split; [reflexivity|]. split; [exact Ho|].
  destruct (RunTextTurn_answer _ _ _ _ _ _ _ E eq_refl)
    as (before & response & after & turnID & l & m & replies & _ & _ & _ & _ & _ & _ & _ & _ & _ & Hout & _).
  exists [SRespond (Some (JStr "srv-1")) (RTool [("inputText", "12:00", "")] true)].
  econstructor; [left; eexists; reflexivity | constructor].
Defined.

Lemma RunTextTurn_returns_witness :
  snd (RunTextTurn (fun n => Nat.eqb n 3) (Err "no tokens") 7%nat demo_request (demo_client demo_frames [])) <> Err NoFuel.
Proof. apply RunTextTurn_returns; [reflexivity | vm_compute; lia]. Defined.

Lemma steer_hangs_witness :
  snd (turnLoop (fun _ => false) (Err "no tokens") 1000%nat demo_request "tu" (NewProjector "th" "tu")
    (demo_client [Frame (demo_delta "x"); Frame (response_to 1 []); Frame demo_end] [Some ("th", "stop")])) = Err NoFuel.
Proof.
  eapply steer_hangs; [reflexivity | discriminate | reflexivity | constructor | reflexivity |].
  split; [discriminate | reflexivity].
Defined.

Lemma late_response_breaks_calls_witness :
  Forall (fun r => exists e, r = Err e)
    (run_calls (fun _ => false) [("model/list", []); ("thread/start", ["m"]); ("model/list", [])]
       (mkClient (Some (mkConn [ReadError "deadline exceeded"; Frame (response_to 1 []); Frame (response_to 2 [("threadId", JStr "th")])] None))
          [] [] false 0 0%nat [] [] [] [])).
Proof.
  apply (late_response_breaks_calls _ _ _ "deadline exceeded" [response_to 1 []; response_to 2 [("threadId", JStr "th")]] None);
    try reflexivity.
  intros i m Hi. destruct i as [|[|i]]; [| |discriminate Hi]; injection Hi as <-; split; reflexivity.
Defined.
