(* ===== verification/CodexAccount.v ===== *)
(** * Accounts and rate limits of the app server: [src/pkg/codexruntime/account.go]

    The results of [account/read] and [account/rateLimits/read], and what the
    coordinator of the accounts makes of the limits. The results pass through
    [map[string]any], where numbers are [float64]: integers are meant to be at
    most 2^53, and are then exact. *)

From S2P Require Import Prelude GoStrings GoLib.
Import GoSort.
From S2P Require Import Json AccountPolicy AccountManager AccountCoordinator.

(** ** Decoding *)

Definition field_int (o : object) (name : string) : option Z :=
  match field o name with
  | None => Some 0
  | Some (JInt n) => Some n
  | Some _ => None
  end.

(** [raw["result"]] if it is an object; this key is matched exactly. *)
Definition unwrapResultPayload (raw : object) : object :=
  match find_first (fun f => String.eqb (fst f) "result") raw with
  | Some (_, JObj result) => result
  | _ => raw
  end.

Fixpoint firstNonEmptyString (values : list string) : string :=
  match values with
  | [] => ""
  | v :: values' => if String.eqb (TrimSpace v) "" then firstNonEmptyString values' else v
  end.

(** ** The account *)

Record AccountSnapshot : Type := mkAccount {
  Email : string;
  AccountPlanType : string;
  AuthMode : string;
  AccountObservedAt : time
}.

Definition normalizeAccountAuthMode (authMode accountType : string) : string :=
  let authMode := TrimSpace authMode in
  if negb (String.eqb authMode "") then authMode
  else if String.eqb (TrimSpace accountType) "apiKey" then "apikey"
  else TrimSpace accountType.

Definition decode_account (o : object) : option (string * string * string * string) :=
  let? ty := field_string o "type" in let? email := field_string o "email" in
  let? plan := field_string o "planType" in let? mode := field_string o "authMode" in
  Some (ty, email, plan, mode).

Definition parseAccountReadResult (raw : object) (observedAt : time) : option AccountSnapshot :=
  let? account := field_object (unwrapResultPayload raw) "account" decode_account in
  Some (match account with
        | Some (ty, email, plan, mode) => mkAccount email plan (normalizeAccountAuthMode mode ty) observedAt
        | None => mkAccount "" "" "" observedAt
        end).

(** ** The rate limits *)

Record window : Type := mkWindow { UsedPercent : Z; ResetsAt : Z }.

Record rateLimitSet : Type := mkSet {
  SetID : string;
  LimitID : string;
  Name : string;
  LimitName : string;
  Primary : window;
  Secondary : window
}.

Definition no_window : window := mkWindow 0 0.
Definition no_set : rateLimitSet := mkSet "" "" "" "" no_window no_window.

Definition decode_window (o : object) : option window :=
  let? used := field_int o "usedPercent" in let? at_ := field_int o "resetsAt" in Some (mkWindow used at_).

Definition decode_set (o : object) : option rateLimitSet :=
  let? i := field_string o "id" in let? li := field_string o "limitId" in
  let? n := field_string o "name" in let? ln := field_string o "limitName" in
  let? p := field_object o "primary" decode_window in let? s := field_object o "secondary" decode_window in
  Some (mkSet i li n ln (default no_window p) (default no_window s)).

Definition window_eqb (a b : window) : bool := (UsedPercent a =? UsedPercent b) && (ResetsAt a =? ResetsAt b).

Definition empty (r : rateLimitSet) : bool :=
  String.eqb (SetID r) "" && String.eqb (LimitID r) "" && String.eqb (Name r) "" && String.eqb (LimitName r) ""
  && window_eqb (Primary r) no_window && window_eqb (Secondary r) no_window.

(** [codexruntime.RateLimitSnapshot]: what the coordinator reads, and the
    rest. *)
Record LimitSnapshot : Type := mkLimit {
  SnapshotID : string;
  SnapshotName : string;
  PlanType : string;
  LimitObservedAt : time;
  Windows : RateLimitSnapshot
}.

(** Seconds from the year 1 to 1970: [time.Unix]. *)
Definition unix (seconds : Z) : time := (seconds + 62135596800) * Second.

(** The share, if it is not 0, and the time, if there is one. *)
Definition applyWindow (value : window) : option Z * time :=
  (if UsedPercent value =? 0 then None else Some (UsedPercent value),
   if 0 <? ResetsAt value then unix (ResetsAt value) else zero_time).

Definition snapshot (planType : string) (observedAt : time) (r : rateLimitSet) : LimitSnapshot :=
  let '(p, pt) := applyWindow (Primary r) in
  let '(s, st) := applyWindow (Secondary r) in
  mkLimit (firstNonEmptyString [LimitID r; SetID r]) (firstNonEmptyString [LimitName r; Name r]) planType observedAt
    (mkRateLimit p pt s st).

(** A value of a map or an element of a list; [null] is the zero value. *)
Definition decode_value (j : json) : option rateLimitSet :=
  match j with JObj o => decode_set o | JNull => Some no_set | _ => None end.

(** [rateLimitsByLimitId], as a map. *)
Definition by_limit (payload : object) : option (gmap string rateLimitSet) :=
  match field payload "rateLimitsByLimitId" with
  | None => Some ∅
  | Some (JObj fields) =>
      foldr (fun f acc => let? m := acc in let? r := decode_value (snd f) in Some (<[fst f := r]> m))
        (Some ∅) fields
  | Some _ => None
  end.

(** [rateLimits]: a list, or one set. *)
Definition legacy_limits (payload : object) : option (list rateLimitSet) :=
  match field payload "rateLimits" with
  | None => Some []
  | Some (JArr l) => mapM decode_value l
  | Some (JObj o) => let? r := decode_set o in Some (if empty r then [] else [r])
  | Some _ => None
  end.

(** The sets of limits that a result reports, in order: by identifier, when
    there are identifiers. *)
Definition limit_sets (payload : object) : option (list rateLimitSet) :=
  let? m := by_limit payload in
  if bool_decide (m = ∅) then legacy_limits payload
  else Some (omap (fun k => m !! k) (sorted_keys m)).

Definition parseRateLimitsResult (raw : object) (observedAt : time) : option (list LimitSnapshot) :=
  let payload := unwrapResultPayload raw in
  let? planType := field_string payload "planType" in
  let? sets := limit_sets payload in
  Some (map (snapshot planType observedAt) sets).

(** ** What the coordinator concludes *)

(** The last share that is not 0, if there is one. *)
Definition last_used (get : rateLimitSet -> window) (sets : list rateLimitSet) : option Z :=
  last (List.filter (fun p => negb (p =? 0)) (map (fun r => UsedPercent (get r)) sets)).

(** The share that is left according to it; nothing, if no limit reports a
    use. *)
Definition left_of (used : option Z) : Z := match used with Some p => clampRemainingPercent p | None => 0 end.

Lemma last_used_snoc get sets r :
  last_used get (sets ++ [r]) =
  if UsedPercent (get r) =? 0 then last_used get sets else Some (UsedPercent (get r)).
Proof.
  unfold last_used. rewrite map_app, List.filter_app. cbn [map List.filter].
  destruct (UsedPercent (get r) =? 0); cbn [negb]; [by rewrite app_nil_r | by rewrite last_snoc].
Qed.

Lemma fold_limits_snoc limits l h : fold_limits (limits ++ [l]) h = fold_limits [l] (fold_limits limits h).
Proof. unfold fold_limits. by rewrite fold_left_app. Qed.

Lemma fold_limits_shares planType t sets alias :
  let h := fold_limits (map Windows (map (snapshot planType t) sets))
             (mkHealth alias "healthy" 0 0 zero_time zero_time t) in
  FiveHourRemainingPct h = left_of (last_used Primary sets) /\
  WeeklyRemainingPct h = left_of (last_used Secondary sets) /\ Status h = "healthy".
Proof.
  cbv zeta. induction sets as [|r sets IH] using rev_ind; [done|].
  rewrite !map_app, !last_used_snoc. cbn [map]. rewrite fold_limits_snoc.
  revert IH. generalize (fold_limits (map Windows (map (snapshot planType t) sets))
    (mkHealth alias "healthy" 0 0 zero_time zero_time t)). intros h (H1 & H2 & H3).
  unfold fold_limits, snapshot, applyWindow. cbn [fold_left Windows PrimaryUsedPercent SecondaryUsedPercent].
  destruct (UsedPercent (Primary r) =? 0), (UsedPercent (Secondary r) =? 0);
    cbn [FiveHourRemainingPct WeeklyRemainingPct Status PrimaryUsedPercent SecondaryUsedPercent]; by split_and!.
Qed.

(** What the health of an account says after its limits were read: it is
    exhausted exactly when nothing is left of one of the two windows, where a
    window that no limit reports a use of counts as used up, soft-drained
    when little is left, and otherwise healthy. *)
Theorem health_of_response raw t limits alias :
  parseRateLimitsResult raw t = Some limits ->
  exists sets, limit_sets (unwrapResultPayload raw) = Some sets /\
    let five := left_of (last_used Primary sets) in
    let week := left_of (last_used Secondary sets) in
    let h := health_of_limits alias t (map Windows limits) in
    FiveHourRemainingPct h = five /\ WeeklyRemainingPct h = week /\
    (Status h = "exhausted" <-> five <= 0 \/ week <= 0) /\
    (Status h = "healthy" <-> softSwitchFiveHourPercent < five /\ weeklyFloorPercent <= week) /\
    (last_used Secondary sets = None -> Status h = "exhausted").
Proof.
  unfold parseRateLimitsResult. destruct (field_string _ _) as [plan|]; [|done]. cbn [mbind option_bind].
  destruct (limit_sets _) as [sets|] eqn:ES; [|done]. cbn [mbind option_bind]. intros [= <-].
  exists sets. split; [done|]. cbv zeta.
  destruct (fold_limits_shares plan t sets alias) as (H1 & H2 & H3).
  unfold health_of_limits. set (h := fold_limits _ _) in *. rewrite H1, H2.
  set (five := left_of (last_used Primary sets)) in *. set (week := left_of (last_used Secondary sets)) in *.
  assert (HN : last_used Secondary sets = None -> week = 0) by (unfold week; by intros ->).
  assert (HF : softSwitchFiveHourPercent = 10 /\ weeklyFloorPercent = 20) by done. destruct HF as [-> ->].
  destruct (Z.leb_spec five 0); destruct (Z.leb_spec week 0); destruct (Z.leb_spec five 10);
    destruct (Z.ltb_spec week 20); cbn [orb with_status Status FiveHourRemainingPct WeeklyRemainingPct];
    rewrite ?H1, ?H2, ?H3; split_and!; try done; try (split; intros; try done; lia); intros HU%HN; try done; lia.
Qed.

(** An account that has used 40% of its five hours and nothing of its week is
    taken for exhausted. *)
Definition unused_week : object :=
  [("planType", JStr "plus");
   ("rateLimitsByLimitId", JObj [("codex", JObj [("limitId", JStr "codex");
      ("primary", JObj [("usedPercent", JInt 40); ("resetsAt", JInt 1700000000)]);
      ("secondary", JObj [("usedPercent", JInt 0); ("resetsAt", JInt 1700500000)])])])].

Lemma health_of_response_witness :
  exists limits, parseRateLimitsResult [("result", JObj unused_week)] 5 = Some limits /\
    let h := health_of_limits "a" 5 (map Windows limits) in
    FiveHourRemainingPct h = 60 /\ WeeklyRemainingPct h = 0 /\ Status h = "exhausted".
Proof.
  destruct (parseRateLimitsResult [("result", JObj unused_week)] 5) as [limits|] eqn:E.
  - destruct (health_of_response _ 5 limits "a" E) as (sets & HS & H1 & H2 & H3 & _).
    assert (Hs : option_map (fun l => (last_used Primary l, last_used Secondary l))
                   (limit_sets (unwrapResultPayload [("result", JObj unused_week)])) = Some (Some 40, None))
      by (vm_compute; reflexivity).
    rewrite HS in Hs. injection Hs as Hp Hw. rewrite Hp, Hw in *. cbv zeta in *.
    exists limits. split; [reflexivity|]. split; [exact H1|]. split; [exact H2|]. apply H3. right. vm_compute. discriminate.
  - exfalso. assert (HN : match parseRateLimitsResult [("result", JObj unused_week)] 5 with Some _ => true | None => false end = true)
      by (vm_compute; reflexivity).
    rewrite E in HN. discriminate HN.
Defined.
