(* ===== verification/CodexLink.v ===== *)
(** * The runner on the app server client

    [CodexClient.Client] as an implementation of the interface that
    [CodexRunner] is written against, and what a turn of the two together
    does: the thread of the binding, the request on the wire and the answer
    of the events fit together. *)

From S2P Require Import Prelude Effects GoStrings Json CodexProtocol Projector CodexClient CodexTurn Binding CodexRunner.

(** ** The result of [model/list] *)

Definition field_bool (o : object) (name : string) : option bool :=
  match field o name with None => Some false | Some (JBool b) => Some b | Some _ => None end.

Definition field_strings (o : object) (name : string) : option (list string) :=
  match field o name with
  | None => Some []
  | Some (JArr l) => mapM (fun j => match j with JStr s => Some s | JNull => Some "" | _ => None end) l
  | Some _ => None
  end.

Definition decode_model (o : object) : option ModelCatalogEntry :=
  let? i := field_string o "id" in let? label := field_string o "label" in
  let? hidden := field_bool o "hidden" in let? efforts := field_strings o "reasoningEffortOptions" in
  let? tier := field_string o "speedTier" in let? upgrade := field_string o "upgradeTo" in
  Some (mkModel i label hidden efforts tier upgrade).

Definition decode_models (o : object) : option (list ModelCatalogEntry) := field_list o "models" decode_model.

(** ** The client as the runner sees it *)

Definition error_text (e : client_error) : string :=
  match e with
  | TurnInProgress => "codexruntime: active turn already in progress"
  | NotStarted => "codexruntime: client not started"
  | Canceled => "context canceled"
  | NoFuel => "no fuel"
  | Failed t => t
  end.

Definition seen {A} (m : C A) : Client -> Client * result string A :=
  fun c => let '(c', r) := m c in (c', match r with Ok a => Ok a | Err e => Err (error_text e) end).

Section Link.
Context (write_fails : nat -> bool) (auth_tokens : result string (string * string)).
(** The tool handler of the requests, and whether they want chunks. *)
Context (handler : option (ToolCallRequest -> result string ToolCallResponse)) (wants_chunks : bool).

Definition list_models : C (list ModelCatalogEntry) :=
  let! raw := Call write_fails "model/list" [] in
  match raw with None => ret [] | Some _ => decode_or_fail decode_models "model/list" raw end.

Definition turn_request (threadID input : string) : RunTurnRequest := mkTurnRequest threadID input handler wants_chunks.

(** As many rounds as there are messages to read. *)
Definition run_turn (threadID input : string) : C string := fun c =>
  CodexClient.RunTextTurn write_fails auth_tokens (Datatypes.S (length (stream c))) (turn_request threadID input) c.

#[local] Instance codex_client : RunnerClient Client := {|
  Start := seen (CodexClient.Start write_fails);
  ResumeThread t tools := seen (CodexClient.ResumeThread write_fails t tools);
  StartThread model tools := seen (CodexClient.StartThread write_fails model tools);
  ClientTurn t input := seen (run_turn t input);
  Restart := seen (CodexClient.Restart write_fails);
  StartNativeCompaction t := seen (CodexClient.StartNativeCompaction write_fails t);
  ClientListModels := seen list_models;
  ClientStatusOf c := mkClientStatus (match conn c with Some _ => true | None => false end) (turnActive c) []
                        zero_time (mkRecovery false false false "") "" "" false 0 0 ""
|}.

Lemma seen_Ok {A} (m : C A) c c' a : seen m c = (c', Ok a) -> m c = (c', Ok a).
Proof. unfold seen. destruct (m c) as [c1 [x|e]]; by intros [= <- <-]. Qed.

(** *** What calls leave alone *)

(** The steering requests and the number of the last request. *)
Definition calm (c c' : Client) : Prop := (steers c', nextID c') = (steers c, nextID c).
#[local] Instance calm_preorder : PreOrder calm.
Proof. split; [done|]. intros c1 c2 c3 H1 H2. unfold calm in *. congruence. Qed.

Lemma calm_write x : keeps calm (writeLocked write_fails x).
Proof. intros c c' r E. unfold writeLocked in E. destruct (conn c); by injection E as <- _. Qed.
Lemma calm_read : keeps calm readFromConnLocked.
Proof.
  intros c c' r E. unfold readFromConnLocked in E.
  destruct (conn c) as [k|]; [destruct (inbox k)|]; by injection E as <- _.
Qed.
Lemma calm_push m : keeps calm (push_pending m).
Proof. intros c c' r E. by injection E as <- _. Qed.
#[local] Hint Resolve calm_write calm_read calm_push : go.

Lemma calm_response fuel method : keeps calm (readResponseLocked write_fails fuel method).
Proof. induction fuel as [|fuel IH]; cbn [readResponseLocked]; unfold rejectServerRequestLocked; keeps_auto. Qed.

Lemma callLocked_calm method args c c' r :
  callLocked write_fails method args c = (c', r) -> steers c' = steers c /\ nextID c' = nextID c + 1.
Proof.
  unfold callLocked, bind at 1, nextRequestID. set (c0 := set_next c (nextID c + 1)).
  intros [([] & c1 & E1 & E) | (e & E1 & _)]%bind_inv; apply calm_write in E1; unfold calm in E1.
  - apply bind_inv in E as [(m & c2 & E2 & E) | (e & E2 & _)]; apply calm_response in E2; unfold calm in E2.
    + injection E as <- _. rewrite E1 in E2. by injection E2.
    + rewrite E1 in E2. by injection E2.
  - by injection E1.
Qed.

Definition same_steers (c c' : Client) : Prop := steers c' = steers c.
#[local] Instance same_steers_preorder : PreOrder same_steers.
Proof. split; [done|]. intros c1 c2 c3 H1 H2. unfold same_steers in *. congruence. Qed.

Lemma steers_call method args : keeps same_steers (callLocked write_fails method args).
Proof. intros c c' r E. by apply callLocked_calm in E as [? _]. Qed.
Lemma steers_write x : keeps same_steers (writeLocked write_fails x).
Proof. intros c c' r E. apply calm_write in E. by injection E. Qed.
Lemma steers_check : keeps same_steers check_idle.
Proof. intros c c' r E. by injection E as <- _. Qed.
Lemma steers_decode {A} (d : object -> option A) method raw : keeps same_steers (decode_or_fail d method raw).
Proof. intros c c' r E. by apply decode_or_fail_inv in E as [-> _]. Qed.
Lemma steers_close : keeps same_steers closeLocked.
Proof. intros c c' r E. unfold closeLocked in E. destruct (conn c); by injection E as <- _. Qed.
Lemma steers_connect : keeps same_steers connect.
Proof. intros c c' r E. unfold connect in E. destruct (next_conns c) as [|[]]; by injection E as <- _. Qed.
#[local] Hint Resolve steers_call steers_write steers_check steers_decode steers_close steers_connect : go.

Lemma steers_start : keeps same_steers (CodexClient.Start write_fails).
Proof.
  intros c c' r E. unfold CodexClient.Start in E. destruct (turnActive c); [by injection E as <- _|].
  destruct (conn c); [by injection E as <- _|]. revert E. unfold initialize.
  assert (HK : keeps same_steers (let! _ := connect in initialize write_fails)) by (unfold initialize; keeps_auto).
  intros E. by apply HK in E.
Qed.
Lemma steers_restart : keeps same_steers (CodexClient.Restart write_fails).
Proof.
  unfold CodexClient.Restart. assert (keeps same_steers Close).
  { intros c c' r E. unfold Close in E. destruct (turnActive c); [by injection E as <- _ | by apply steers_close in E]. }
  pose proof steers_start. keeps_auto.
Qed.
Lemma steers_resume t tools : keeps same_steers (CodexClient.ResumeThread write_fails t tools).
Proof. unfold CodexClient.ResumeThread, Call. keeps_auto. Qed.
Lemma steers_thread model tools : keeps same_steers (CodexClient.StartThread write_fails model tools).
Proof. unfold CodexClient.StartThread, Call. keeps_auto. Qed.

(** *** The runner on the client *)

(** Nobody steers the client of a runner. *)
Definition unsteered (r r' : Runner (C := Client)) : Prop :=
  (forall c, client r = Some c -> steers c = []) -> forall c, client r' = Some c -> steers c = [].
#[local] Instance unsteered_preorder : PreOrder unsteered.
Proof. unfold unsteered. split; [by intros r | intros r1 r2 r3 H1 H2 H; auto]. Qed.

Lemma unsteered_client {A} (m : C A) : keeps same_steers m -> keeps unsteered (on_client (seen m)).
Proof.
  intros Hm r r' x [(_ & -> & _) | (c & c' & y & Hc & E & -> & _)]%on_client_inv; [by intros H|].
  intros Hr c'' [= <-]. unfold seen in E. destruct (m c) as [c1 z] eqn:Em. injection E as <- _.
  apply Hm in Em. unfold same_steers in Em. rewrite Em. by apply Hr.
Qed.

Lemma same_client_unsteered (r r' : Runner (C := Client)) : client r' = client r -> unsteered r r'.
Proof. intros H. unfold unsteered. by rewrite H. Qed.

Lemma unsteered_store {A} (f : ST store store_error A) : keeps unsteered (on_store (C := Client) f).
Proof.
  intros r r' x E. apply same_client_unsteered. unfold on_store in E.
  destruct (bindings r) as [s|]; [destruct (f s)|]; by injection E as <- _.
Qed.

Lemma unsteered_has_store key : keeps unsteered (has_store (C := Client) key).
Proof. intros r r' x E. unfold has_store in E. injection E as <- _. by apply same_client_unsteered. Qed.

#[local] Hint Resolve unsteered_store unsteered_has_store unsteered_client steers_start steers_restart steers_resume
  steers_thread : go.

Lemma unsteered_acquire req b ok : keeps unsteered (acquire req b ok).
Proof. unfold acquire, resume. cbn [ResumeThread StartThread Restart codex_client]. keeps_auto. Qed.

Lemma unsteered_load fails key : keeps unsteered (loadBinding (C := Client) fails key).
Proof. unfold loadBinding. keeps_auto. Qed.

Lemma unsteered_start : keeps unsteered (ensureClientStarted (C := Client)).
Proof. unfold ensureClientStarted. cbn [Start codex_client]. auto with go. Qed.

(** One call on the wire. *)
Lemma Call_Ok method args c c' raw :
  Call write_fails method args c = (c', Ok raw) ->
  outbox c' = outbox c ++ [SRequest (nextID c + 1) method args] /\ nextID c' = nextID c + 1.
Proof.
  unfold Call. intros [([] & c1 & E1 & E) | (? & _ & ?)]%bind_inv; [|done]. unfold check_idle in E1. injection E1 as <- _.
  apply callLocked_calm in E as H1. apply callLocked_Ok in E as (_ & HO & _). split; [exact HO | apply H1].
Qed.

Lemma resume_on_wire t tools c c' u :
  CodexClient.ResumeThread write_fails t tools c = (c', Ok u) ->
  outbox c' = outbox c ++ [SRequest (nextID c + 1) "thread/resume" (t :: tools)] /\ nextID c' = nextID c + 1.
Proof.
  unfold CodexClient.ResumeThread. intros [(raw & c1 & E1 & E) | (? & _ & ?)]%bind_inv; [|done].
  injection E as <- _. by apply Call_Ok in E1.
Qed.

Lemma start_on_wire model tools c c' t :
  CodexClient.StartThread write_fails model tools c = (c', Ok t) ->
  outbox c' = outbox c ++ [SRequest (nextID c + 1) "thread/start" (model :: tools)] /\ nextID c' = nextID c + 1 /\
  t <> "".
Proof.
  unfold CodexClient.StartThread. intros [(raw & c1 & E1 & E) | (? & _ & ?)]%bind_inv; [|done]. apply Call_Ok in E1.
  apply bind_inv in E as [(u & c2 & E2 & E) | (? & _ & ?)]; [|done].
  assert (c2 = c1) as -> by (destruct raw; [by apply decode_or_fail_inv in E2 as [-> _] | by injection E2 as <- _]).
  destruct (String.eqb_spec u ""); [done|]. injection E as <- <-. destruct E1. by split_and!.
Qed.

(** The client when the turn begins: its last request was for the thread. *)
Lemma begin_turn_wire fails req (r r' : Runner (C := Client)) content b t new st :
  begin_turn fails req r = (r', Ok (content, b, t, new, st)) ->
  (forall c, client r = Some c -> steers c = []) ->
  exists c0 c1 c2 method args, steers c1 = [] /\ run_turn t (Input req) c1 = (c2, Ok content) /\ client r' = Some c2 /\
    outbox c1 = outbox c0 ++ [SRequest (nextID c0 + 1) method args] /\ nextID c1 = nextID c0 + 1 /\ t <> "" /\
    if new then method = "thread/start" /\ args = RequestModel req :: DynamicTools req
    else method = "thread/resume" /\ args = t :: DynamicTools req /\ may_resume req = true /\
         thread_of r (BindingKey req) = Some t.
Proof.
  unfold begin_turn. intros [([] & r1 & E1 & E) | (? & _ & ?)]%bind_inv HS; [|done].
  apply keeps_on_client in E1 as F1. apply unsteered_start in E1 as U1.
  apply bind_inv in E as [([b0 ok] & r2 & E2 & E) | (? & _ & ?)]; [|done].
  apply unsteered_load in E2 as U2. apply loadBinding_Ok in E2 as [_ HB].
  apply bind_inv in E as [([[t0 new0] st0] & r3 & E3 & E) | (? & _ & ?)]; [|done].
  apply unsteered_acquire in E3 as U3. apply acquire_Ok in E3 as (c0 & c1 & Hc1 & HT).
  apply bind_inv in E as [(text & r4 & E4 & E) | (? & _ & ?)]; [|done].
  apply on_client_Ok in E4 as (c & c2 & Hc & Hturn & Hc2). injection E as <- <- <- <- <- <-.
  assert (c = c1) as -> by congruence. cbn [ClientTurn codex_client] in Hturn. apply seen_Ok in Hturn.
  assert (HN : steers c1 = []) by (apply U3; [apply U2, U1, HS | exact Hc1]).
  exists c0, c1, c2. destruct new0; cbn [StartThread ResumeThread codex_client] in HT.
  - apply seen_Ok in HT. apply start_on_wire in HT as (HO & HI & Hne). by do 2 eexists; split_and!.
  - destruct HT as (HT & HM & -> & -> & Hne). apply seen_Ok in HT. apply resume_on_wire in HT as [HO HI].
    do 2 eexists; split_and!; try done.
    destruct HB as (s & Hs & _ & Hf). unfold thread_of. rewrite <- F1. unfold stored. rewrite Hs. simpl. by rewrite Hf.
Qed.

End Link.

(** ** A turn over the wire *)

Definition link_frames : list frame :=
  [Frame (response_to 1 []); Frame (response_to 2 [("thread", JObj [("id", JStr "th")])]);
   Frame (response_to 3 [("turnId", JStr "tu")]); Frame (demo_delta "Hi"); Wake; Frame (demo_delta " there."); Frame demo_end].
Definition link_client : Client :=
  mkClient None [Ok (mkConn link_frames None)] [] false 0 0 [] [] [] [].
Definition link_runner : Runner (C := Client) := mkRunner (Some link_client) (Some (mkStore ∅ 0)) [].
Definition link_turn : Runner (C := Client) * result run_error (string * string) :=
  CodexRunner.RunTextTurn (H := codex_client (fun _ => false) (Err "none") None true) (fun _ => false)
    (fun n => Z.of_nat n + 1) (fun _ => None) (demo_request true false) link_runner.

