(* ===== verification/Cron.v ===== *)
(** * The scheduler: [src/pkg/cron/service.go]

    The jobs and their file, the operations of the service, and the loop that
    waits for the next job and runs the ones that are due. An operation that
    holds the lock is one step and reads the clock once; the calls of the
    handler are between two steps, so that operations fall into them. Times
    are in milliseconds. *)

From S2P Require Import Prelude Effects GoStrings.

(** ** Data *)

Record CronSchedule : Type := mkSchedule {
  Kind : string;
  AtMS : option Z;
  EveryMS : option Z;
  Expr : string;
  TZ : string
}.

Record CronPayload : Type := mkPayload {
  PayloadKind : string;
  Message : string;
  Command : string;
  Channel : string;
  To : string
}.

Record CronJobState : Type := mkJobState {
  NextRunAtMS : option Z;
  LastRunAtMS : option Z;
  LastStatus : string;
  LastError : string
}.

Record CronJob : Type := mkJob {
  ID : string;
  Name : string;
  Enabled : bool;
  Schedule : CronSchedule;
  Payload : CronPayload;
  State : CronJobState;
  CreatedAtMS : Z;
  UpdatedAtMS : Z;
  DeleteAfterRun : bool
}.

Definition with_state (j : CronJob) (st : CronJobState) (updated : Z) : CronJob :=
  mkJob (ID j) (Name j) (Enabled j) (Schedule j) (Payload j) st (CreatedAtMS j) updated (DeleteAfterRun j).
Definition with_enabled (j : CronJob) (b : bool) : CronJob :=
  mkJob (ID j) (Name j) b (Schedule j) (Payload j) (State j) (CreatedAtMS j) (UpdatedAtMS j) (DeleteAfterRun j).
Definition with_next (st : CronJobState) (next : option Z) : CronJobState :=
  mkJobState next (LastRunAtMS st) (LastStatus st) (LastError st).
(** The time of the next run, nothing else. *)
Definition schedule_next (j : CronJob) (next : option Z) : CronJob :=
  with_state j (with_next (State j) next) (UpdatedAtMS j).
Definition next_of (j : CronJob) : option Z := NextRunAtMS (State j).

(** The file of the store. *)
Inductive document : Type := Missing | Corrupt | Doc (jobs : list CronJob).

Record CronService : Type := mkService {
  jobs : list CronJob;
  disk : document;
  running : bool;
  os_calls : nat
}.

Inductive cron_error : Type := LoadFailed | SaveFailed | JobNotFound.

Abbreviation S := (ST CronService cron_error).

Section Service.
(** [gronx.NextTickAfter], strictly after a time; and which operations on the
    file fail. *)
Context (NextTickAfter : string -> Z -> option Z) (fails : nat -> bool).

(** ** Next runs *)

Definition computeNextRun (schedule : CronSchedule) (nowMS : Z) : option Z :=
  if String.eqb (Kind schedule) "at" then
    match AtMS schedule with
    | Some at_ => if nowMS <? at_ then Some at_ else None
    | None => None
    end
  else if String.eqb (Kind schedule) "every" then
    match EveryMS schedule with
    | Some every => if every <=? 0 then None else Some (wrap64 (nowMS + every))
    | None => None
    end
  else if String.eqb (Kind schedule) "cron" then
    if String.eqb (Expr schedule) "" then None else NextTickAfter (Expr schedule) nowMS
  else None.

Definition recomputeNextRuns (now : Z) (js : list CronJob) : list CronJob :=
  map (fun j => if Enabled j then schedule_next j (computeNextRun (Schedule j) now) else j) js.

Definition getNextWakeMS (js : list CronJob) : option Z :=
  fold_left (fun wake j =>
    match Enabled j, next_of j with
    | true, Some n => match wake with
                      | Some w => if n <? w then Some n else wake
                      | None => Some n
                      end
    | _, _ => wake
    end) js None.

(** ** The file *)

Definition set_jobs (js : list CronJob) : S unit := fun s => (mkService js (disk s) (running s) (os_calls s), Ok tt).

Definition loadStore : S unit := fun s =>
  let loaded js := mkService js (disk s) (running s) (Datatypes.S (os_calls s)) in
  if fails (os_calls s) then (loaded [], Err LoadFailed)
  else match disk s with
       | Missing => (loaded [], Ok tt)
       | Corrupt => (loaded [], Err LoadFailed)
       | Doc js => (loaded js, Ok tt)
       end.

Definition saveStoreUnsafe : S unit := fun s =>
  if fails (os_calls s) then (mkService (jobs s) (disk s) (running s) (Datatypes.S (os_calls s)), Err SaveFailed)
  else (mkService (jobs s) (Doc (jobs s)) (running s) (Datatypes.S (os_calls s)), Ok tt).

(** ** Operations *)

Definition Start (now : Z) : S unit := fun s =>
  if running s then (s, Ok tt)
  else
    (let! _ := loadStore in
     let! _ := fun s => (mkService (recomputeNextRuns now (jobs s)) (disk s) (running s) (os_calls s), Ok tt) in
     let! _ := saveStoreUnsafe in
     fun s => (mkService (jobs s) (disk s) true (os_calls s), Ok tt)) s.

Definition Stop : S unit := fun s => (mkService (jobs s) (disk s) false (os_calls s), Ok tt).

Definition find_job (id : string) (js : list CronJob) : option CronJob :=
  find_first (fun j => String.eqb (ID j) id) js.

(** The first job of an identifier, changed. *)
Fixpoint update_job (id : string) (f : CronJob -> CronJob) (js : list CronJob) : list CronJob :=
  match js with
  | [] => []
  | j :: js' => if String.eqb (ID j) id then f j :: js' else j :: update_job id f js'
  end.

Definition AddJob (id name : string) (schedule : CronSchedule) (message channel to : string) (now : Z) : S CronJob := fun s =>
  let job := mkJob id name true schedule (mkPayload "agent_turn" message "" channel to)
               (mkJobState (computeNextRun schedule now) None "" "") now now (String.eqb (Kind schedule) "at") in
  (let! _ := set_jobs (jobs s ++ [job]) in
   let! _ := saveStoreUnsafe in ret job) s.

Definition UpdateJob (job : CronJob) (now : Z) : S unit := fun s =>
  match find_job (ID job) (jobs s) with
  | Some _ =>
      (let! _ := set_jobs (update_job (ID job) (fun _ => with_state job (State job) now) (jobs s)) in
       saveStoreUnsafe) s
  | None => (s, Err JobNotFound)
  end.

Definition removeJobUnsafe (id : string) : S bool := fun s =>
  let rest := List.filter (fun j => negb (String.eqb (ID j) id)) (jobs s) in
  let removed := (length rest <? length (jobs s))%nat in
  (let! _ := set_jobs rest in
   let! _ := if removed then try saveStoreUnsafe else ret (Ok tt) in
   ret removed) s.

Definition EnableJob (id : string) (enabled : bool) (now : Z) : S (option CronJob) := fun s =>
  match find_job id (jobs s) with
  | Some _ =>
      let f j := with_enabled (with_state j (with_next (State j)
                   (if enabled then computeNextRun (Schedule j) now else None)) now) enabled in
      (let! _ := set_jobs (update_job id f (jobs s)) in
       let! _ := try saveStoreUnsafe in
       fun s => (s, Ok (find_job id (jobs s)))) s
  | None => (s, Ok None)
  end.

Definition ListJobs (includeDisabled : bool) (s : CronService) : list CronJob :=
  if includeDisabled then jobs s else List.filter Enabled (jobs s).

(** Running, number of jobs, next wake-up. *)
Definition Status (s : CronService) : bool * nat * option Z := (running s, length (jobs s), getNextWakeMS (jobs s)).

(** ** Running jobs *)

Definition is_due (now : Z) (j : CronJob) : bool :=
  Enabled j && match next_of j with Some n => n <=? now | None => false end.

(** The identifiers of the due jobs, whose next runs are cleared. *)
Definition checkJobs (now : Z) : S (list string) := fun s =>
  if negb (running s) then (s, Ok [])
  else
    let due := map ID (List.filter (is_due now) (jobs s)) in
    (let! _ := set_jobs (map (fun j => if bool_decide (ID j ∈ due) then schedule_next j None else j) (jobs s)) in
     let! _ := try saveStoreUnsafe in ret due) s.

(** The second half of [executeJobByID], after the handler: [outcome] is the
    text of its error. *)
Definition finish_job (id : string) (startTime : Z) (outcome : option string) (now : Z) : S unit := fun s =>
  match find_job id (jobs s) with
  | None => (s, Ok tt)
  | Some job =>
      let st := mkJobState (next_of job) (Some startTime)
                  (match outcome with Some _ => "error" | None => "ok" end) (default "" outcome) in
      (let! _ :=
         if String.eqb (Kind (Schedule job)) "at" then
           if DeleteAfterRun job then let! _ := removeJobUnsafe id in ret tt
           else set_jobs (update_job id (fun j => with_enabled (with_state j (with_next st None) now) false) (jobs s))
         else set_jobs (update_job id
                (fun j => with_state j (with_next st (computeNextRun (Schedule j) now)) now) (jobs s)) in
       let! _ := try saveStoreUnsafe in ret tt) s
  end.

(** ** The loop *)

(** How long the loop waits, in nanoseconds; a timer fires at once for a time
    that is not positive. *)
Definition wake_delay (nextWake : option Z) (now : Z) : duration :=
  match nextWake with
  | None => Hour
  | Some w => let diff := wrap64 (w - now) in if diff <=? 0 then 0 else wrap64 (diff * Millisecond)
  end.

(** At its top, with the delay computed but not yet waiting, waiting until a
    time (in nanoseconds), with due jobs to run, or in the handler. *)
Inductive loop : Type :=
| Top
| Armed (deadline : Z)
| Asleep (deadline : Z)
| Running (queue : list string)
| Executing (id : string) (startTime : Z) (queue : list string).

Record world : Type := mkWorld {
  svc : CronService;
  now : Z;
  lp : loop;
  fired : list (CronJob * Z)
}.

(** The operations that other goroutines call. *)
Inductive api : Type :=
| OAdd (id name : string) (schedule : CronSchedule) (message channel to : string)
| OUpdate (job : CronJob)
| ORemove (id : string)
| OEnable (id : string) (enabled : bool).

(** The new service, and whether the loop was notified. *)
Definition run_api (o : api) (now : Z) (s : CronService) : CronService * bool :=
  match o with
  | OAdd id name schedule message channel to =>
      let '(s', r) := AddJob id name schedule message channel to now s in
      (s', match r with Ok _ => true | Err _ => false end)
  | OUpdate job => (fst (UpdateJob job now s), match find_job (ID job) (jobs s) with Some _ => true | None => false end)
  | ORemove id => (fst (removeJobUnsafe id s), true)
  | OEnable id enabled =>
      (fst (EnableJob id enabled now s), match find_job id (jobs s) with Some _ => true | None => false end)
  end.

(** [notify] does not block: only a loop that waits receives it. *)
Definition notify (notified : bool) (l : loop) : loop :=
  match l with Asleep _ => if notified then Top else l | _ => l end.

(** [allowed] restricts the operations that happen and when, [crashes] says
    whether the process can be killed and started again. *)
Inductive step (allowed : world -> api -> Prop) (crashes : Prop) : world -> world -> Prop :=
| step_tick s t t' l f : t <= t' -> step allowed crashes (mkWorld s t l f) (mkWorld s t' l f)
| step_arm s t f :
    step allowed crashes (mkWorld s t Top f)
      (mkWorld s t (Armed (t * Millisecond + Z.max 0 (wake_delay (getNextWakeMS (jobs s)) t))) f)
| step_select s t d f : step allowed crashes (mkWorld s t (Armed d) f) (mkWorld s t (Asleep d) f)
| step_timer s t d f s' due :
    d <= t * Millisecond -> checkJobs t s = (s', Ok due) ->
    step allowed crashes (mkWorld s t (Asleep d) f) (mkWorld s' t (Running due) f)
| step_skip s t id q f :
    find_job id (jobs s) = None -> step allowed crashes (mkWorld s t (Running (id :: q)) f) (mkWorld s t (Running q) f)
| step_begin s t id q f j :
    find_job id (jobs s) = Some j ->
    step allowed crashes (mkWorld s t (Running (id :: q)) f) (mkWorld s t (Executing id t q) (f ++ [(j, t)]))
| step_finish s t id t0 q f outcome :
    step allowed crashes (mkWorld s t (Executing id t0 q) f) (mkWorld (fst (finish_job id t0 outcome t s)) t (Running q) f)
| step_done s t f : step allowed crashes (mkWorld s t (Running []) f) (mkWorld s t Top f)
| step_api s t l f o :
    allowed (mkWorld s t l f) o ->
    step allowed crashes (mkWorld s t l f) (mkWorld (fst (run_api o t s)) t (notify (snd (run_api o t s)) l) f)
| step_restart s t l f s' k :
    crashes -> Start t (mkService [] (disk s) false k) = (s', Ok tt) ->
    step allowed crashes (mkWorld s t l f) (mkWorld s' t Top f).
End Service.

(** ** How operations change the jobs *)

Section Changes.
Context (tick : string -> Z -> option Z) (fails : nat -> bool).

Abbreviation computeNextRun := (computeNextRun tick).

(** A job after a change at time [t]: the same identifier and schedule, and a
    next run that was there, or is computed now, or none. *)
Definition derives (t : Z) (j j' : CronJob) : Prop :=
  ID j' = ID j /\ Schedule j' = Schedule j /\
  (Enabled j' = true -> next_of j' = None \/ (Enabled j = true /\ next_of j' = next_of j) \/
                        next_of j' = computeNextRun (Schedule j) t).

Lemma derives_refl t j : derives t j j.
Proof. unfold derives. split_and!; [done | done |]. intros He. right. left. by split. Qed.

Definition all_derive (t : Z) (js js' : list CronJob) : Prop :=
  forall j', j' ∈ js' -> exists j, j ∈ js /\ derives t j j'.

Definition ids (js : list CronJob) : list string := map ID js.

(** A list of jobs that a change leaves. *)
Record change (t : Z) (js js' : list CronJob) : Prop := {
  change_derives : all_derive t js js';
  change_ids : NoDup (ids js) -> NoDup (ids js')
}.

Lemma change_map t f js : (forall j, derives t j (f j)) -> change t js (map f js).
Proof.
  intros Hf. split.
  - intros j' Hj. apply list_elem_of_fmap in Hj as (j & -> & Hj). eauto.
  - unfold ids. rewrite map_map. replace (map (fun j => ID (f j)) js) with (map ID js); [done|].
    apply map_ext. intros j. symmetry. apply Hf.
Qed.

Lemma update_job_ids id f js : (forall j, ID (f j) = ID j) -> ids (update_job id f js) = ids js.
Proof.
  intros Hf. unfold ids. induction js as [|j js IH]; cbn [update_job]; [done|]. destruct (String.eqb (ID j) id); cbn [map]; [by rewrite Hf | by rewrite IH].
Qed.

Lemma change_update t id f js : (forall j, derives t j (f j)) -> change t js (update_job id f js).
Proof.
  intros Hf. split.
  - induction js as [|j js IH]; cbn [update_job]; [by intros j' ?%not_elem_of_nil|]. intros j' Hj.
    destruct (String.eqb (ID j) id); apply elem_of_cons in Hj as [->|Hj].
    + exists j. split; [by left | apply Hf].
    + exists j'. split; [by right | apply derives_refl].
    + exists j. split; [by left | apply derives_refl].
    + destruct (IH j' Hj) as (j0 & Hj0 & Hd). exists j0. split; [by right | done].
  - rewrite update_job_ids; [done|]. intros j. apply Hf.
Qed.

Lemma change_update_found t id f js j0 : find_job id js = Some j0 -> derives t j0 (f j0) -> change t js (update_job id f js).
Proof.
  induction js as [|j js IH]; [done|]. unfold find_job. cbn [find_first update_job]. destruct (String.eqb_spec (ID j) id) as [Hi|Hi].
  - intros [= ->] Hd. split.
    + intros j' [->|Hj]%elem_of_cons; [exists j0; by split; [left|] | exists j'; split; [by right | apply derives_refl]].
    + unfold ids. cbn [map]. by destruct Hd as [-> _].
  - intros Hf Hd. destruct (IH Hf Hd) as [H1 H2]. split.
    + intros j' [->|Hj]%elem_of_cons; [exists j; split; [by left | apply derives_refl]|].
      destruct (H1 j' Hj) as (j1 & Hj1 & ?). exists j1. by split; [right|].
    + unfold ids in *. cbn [map]. rewrite !NoDup_cons. intros [Hn HN]. split; [|by apply H2].
      intros Hin. apply Hn. apply list_elem_of_fmap in Hin as (j1 & E & Hj1). destruct (H1 j1 Hj1) as (j2 & Hj2 & Ei & _).
      rewrite E, Ei. by apply list_elem_of_fmap_2.
Qed.

Lemma change_filter t p js : change t js (List.filter p js).
Proof.
  split.
  - intros j' Hj. apply list_elem_of_In, filter_In in Hj as [Hj _]. apply list_elem_of_In in Hj.
    exists j'. split; [done | apply derives_refl].
  - unfold ids. induction js as [|j js IH]; cbn [List.filter map]; [done|]. rewrite NoDup_cons. intros [Hn HD].
    destruct (p j); [|auto]. cbn [map]. apply NoDup_cons. split; [|auto]. intros Hin. apply Hn.
    apply list_elem_of_In, in_map_iff in Hin as (x & Hx & Hin). apply filter_In in Hin as [Hin _].
    apply list_elem_of_In, in_map_iff. eauto.
Qed.

Lemma change_refl t js : change t js js.
Proof. split; [|done]. intros j Hj. exists j. split; [done | apply derives_refl]. Qed.

(** A service whose jobs have changed; the file is the old one or has the new
    jobs. *)
Definition evolves (t : Z) (s s' : CronService) : Prop :=
  change t (jobs s) (jobs s') /\ (disk s' = disk s \/ disk s' = Doc (jobs s')).

Lemma saved_jobs s s' r : saveStoreUnsafe fails s = (s', r) ->
  jobs s' = jobs s /\ running s' = running s /\ (disk s' = disk s \/ disk s' = Doc (jobs s')) /\
  (r = Ok tt -> disk s' = Doc (jobs s')).
Proof. unfold saveStoreUnsafe. destruct (fails (os_calls s)); intros [= <- <-]; cbn; split_and!; auto; done. Qed.

Lemma try_save_jobs s s' r : try (saveStoreUnsafe fails) s = (s', r) ->
  jobs s' = jobs s /\ running s' = running s /\ (disk s' = disk s \/ disk s' = Doc (jobs s')).
Proof. intros (r0 & E & _)%try_inv. apply saved_jobs in E as (? & ? & ? & _). auto. Qed.

Lemma set_and_save {A} js (k : unit -> S A) s s' r :
  (let! _ := set_jobs js in let! u := try (saveStoreUnsafe fails) in k tt) s = (s', r) ->
  (forall s1 s2 x, k tt s1 = (s2, x) -> s2 = s1) ->
  jobs s' = js /\ running s' = running s /\ (disk s' = disk s \/ disk s' = Doc js).
Proof.
  intros E Hk. unfold bind at 1, set_jobs in E.
  apply bind_inv in E as [(x & s1 & E1 & E) | (e & E1 & _)]; [|by apply try_inv in E1 as (? & _ & ?)].
  apply try_save_jobs in E1 as (H1 & H2 & H3). apply Hk in E as ->. cbn in *. rewrite H1 in *. auto.
Qed.

Lemma checkJobs_cases t s s' r :
  checkJobs fails t s = (s', r) ->
  (running s = false /\ s' = s /\ r = Ok []) \/
  (running s = true /\ r = Ok (ids (List.filter (is_due t) (jobs s))) /\ running s' = true /\
   jobs s' = map (fun j => if bool_decide (ID j ∈ ids (List.filter (is_due t) (jobs s)))
                           then schedule_next j None else j) (jobs s) /\
   (disk s' = disk s \/ disk s' = Doc (jobs s'))).
Proof.
  unfold checkJobs. intros E. destruct (running s) eqn:ER; cbn [negb] in E; [right | left; by simplify_eq].
  cbv zeta in E. set (due := map ID _) in *. change (ids _) with due.
  pose proof (set_and_save (map (fun j => if bool_decide (ID j ∈ due) then schedule_next j None else j) (jobs s))
    (fun _ => ret due) s s' r) as HS. cbv beta in HS.
  destruct (HS E) as (H1 & H2 & H3); [by intros ? ? ? [= <- _]|].
  assert (HR : r = Ok due).
  { revert E. unfold bind, set_jobs, try, ret. destruct (saveStoreUnsafe _ _). by intros [= _ <-]. }
  rewrite H1, H2. split_and!; auto.
Qed.

Lemma removeJobUnsafe_cases id s s' r :
  removeJobUnsafe fails id s = (s', r) ->
  jobs s' = List.filter (fun j => negb (String.eqb (ID j) id)) (jobs s) /\ running s' = running s /\
  (disk s' = disk s \/ disk s' = Doc (jobs s')).
Proof.
  unfold removeJobUnsafe. cbv zeta. set (rest := List.filter _ _). intros E. unfold bind at 1, set_jobs in E.
  apply bind_inv in E as [(x & s1 & E1 & E) | (e & E1 & _)]; destruct (_ <? _)%nat; try done.
  - apply try_save_jobs in E1 as (H1 & H2 & H3). injection E as <- _. auto.
  - injection E1 as <- _. injection E as <- _. cbn. auto.
  - by apply try_inv in E1 as (? & _ & ?).
Qed.

Lemma EnableJob_evolves id b t s s' r :
  EnableJob tick fails id b t s = (s', r) -> evolves t s s' /\ running s' = running s.
Proof.
  unfold EnableJob. destruct (find_job id (jobs s)); [|intros [= <- _]; split; [split; [apply change_refl | by left] | done]].
  cbv zeta. set (f := fun j => with_enabled _ _). intros E.
  apply (set_and_save _ (fun _ s => (s, Ok (find_job id (jobs s))))) in E as (H1 & H2 & H3); [|by intros ? ? ? [= <- _]].
  split; [|done]. split; rewrite H1; [|by destruct H3; auto].
  apply change_update. intros j. unfold derives, f. cbn. split_and!; [done | done |]. intros ->. auto.
Qed.

Lemma set_try_save (m : S unit) s s' r :
  (let! _ := m in let! _ := try (saveStoreUnsafe fails) in ret tt) s = (s', r) ->
  (forall s1 r1, m s = (s1, r1) -> r1 = Ok tt) ->
  exists s1, m s = (s1, Ok tt) /\ jobs s' = jobs s1 /\ running s' = running s1 /\
    (disk s' = disk s1 \/ disk s' = Doc (jobs s')).
Proof.
  intros E Hm. apply bind_inv in E as [([] & s1 & E1 & E) | (e & E1 & _)]; [|by apply Hm in E1].
  exists s1. split; [done|]. apply bind_inv in E as [(x & s2 & E2 & E) | (e & E2 & _)]; [|by apply try_inv in E2 as (? & _ & ?)].
  apply try_save_jobs in E2 as (H1 & H2 & H3). injection E as <- _. auto.
Qed.

Lemma removeJobUnsafe_Ok id s s' r : removeJobUnsafe fails id s = (s', r) -> exists b, r = Ok b.
Proof.
  unfold removeJobUnsafe, bind, set_jobs, try, ret. destruct (_ <? _)%nat; [destruct (saveStoreUnsafe _ _)|];
    intros [= <- <-]; eauto.
Qed.

Lemma UpdateJob_evolves job t s s' r j0 : find_job (ID job) (jobs s) = Some j0 -> derives t j0 (with_state job (State job) t) ->
  UpdateJob fails job t s = (s', r) -> evolves t s s'.
Proof.
  intros Hf Hd. unfold UpdateJob. rewrite Hf. intros E.
  unfold bind, set_jobs in E. apply saved_jobs in E as (H1 & _ & H3 & _). cbn in *.
  split; [|destruct H3 as [H3|H3]; rewrite H3, ?H1; auto]. rewrite H1. by eapply change_update_found.
Qed.

Lemma finish_job_evolves id t0 outcome t s s' r :
  finish_job tick fails id t0 outcome t s = (s', r) -> evolves t s s' /\ running s' = running s.
Proof.
  unfold finish_job. destruct (find_job id (jobs s)) as [job|]; [|intros [= <- _]; split; [split; [apply change_refl | by left] | done]].
  cbv zeta. set (st := mkJobState _ _ _ _). intros E. apply set_try_save in E.
  - destruct E as (s1 & E1 & H1 & H2 & H3).
    assert (HE : evolves t s s1 /\ running s1 = running s).
    { destruct (String.eqb (Kind (Schedule job)) "at"); [destruct (DeleteAfterRun job)|].
      - apply bind_inv in E1 as [(b & s2 & E2 & E1) | (e & E2 & ?)]; [|done]. injection E1 as <-.
        apply removeJobUnsafe_cases in E2 as (G1 & G2 & G3). split; [|done]. split; [|done]. rewrite G1. apply change_filter.
      - injection E1 as <-. split; [|done]. split; [|by left]. cbn. apply change_update.
        intros j. unfold derives. cbn. by split_and!.
      - injection E1 as <-. split; [|done]. split; [|by left]. cbn. apply change_update.
        intros j. unfold derives. cbn. split_and!; [done | done |]. intros _. auto. }
    destruct HE as [[HC HD] HR]. split; [|congruence]. split; rewrite H1; [done|].
    destruct H3 as [-> | H3]; [|rewrite H1 in H3; by right]. destruct HD as [-> | ->]; auto.
  - intros s1 r1 E1. destruct (String.eqb (Kind (Schedule job)) "at"); [destruct (DeleteAfterRun job)|].
    + apply bind_inv in E1 as [(b & s2 & E2 & E1) | (e & E2 & ->)]; [by injection E1 as _ <-|].
      by apply removeJobUnsafe_Ok in E2 as [? ?].
    + by injection E1 as _ <-.
    + by injection E1 as _ <-.
Qed.
End Changes.

(** ** One-time jobs *)

Section OneTime.
Context (tick : string -> Z -> option Z) (fails : nat -> bool).

Definition one_time (j : CronJob) : Prop := Kind (Schedule j) = "at".
#[local] Instance one_time_dec j : Decision (one_time j) := _.

(** The time of the job has come. *)
Definition past (t : Z) (j : CronJob) : Prop := one_time j -> exists a, AtMS (Schedule j) = Some a /\ a <= t.

(** Its next run is its time, or it has none. *)
Definition aligned (j : CronJob) : Prop :=
  one_time j -> Enabled j = true -> next_of j = None \/ next_of j = AtMS (Schedule j).

Definition doc_jobs (d : document) : list CronJob := match d with Doc js => js | _ => [] end.

(** The one-time job of this identifier, if there is one, does not run again. *)
Definition spent (t : Z) (s : CronService) (id : string) : Prop :=
  (forall j, j ∈ jobs s -> ID j = id -> past t j /\ (one_time j -> Enabled j = true -> next_of j = None)) /\
  (forall j, j ∈ doc_jobs (disk s) -> ID j = id -> past t j).

Record sound (s : CronService) : Prop := {
  sound_ids : NoDup (ids (jobs s));
  sound_disk : NoDup (ids (doc_jobs (disk s)));
  sound_aligned : forall j, j ∈ jobs s -> aligned j;
  sound_same : forall j j', j ∈ jobs s -> j' ∈ doc_jobs (disk s) -> ID j = ID j' -> Schedule j = Schedule j'
}.

Lemma same_job js j j' : NoDup (ids js) -> j ∈ js -> j' ∈ js -> ID j = ID j' -> j = j'.
Proof.
  intros HN [i Hi]%list_elem_of_lookup [i' Hi']%list_elem_of_lookup HE. assert (i = i') as ->; [|congruence].
  eapply NoDup_lookup; [exact HN | |]; unfold ids; rewrite list_lookup_fmap; [by rewrite Hi | by rewrite Hi', HE].
Qed.

(** Every job of an identifier, in memory or on disk, has such a schedule. *)
Definition schedules (P : CronSchedule -> Prop) (s : CronService) (id : string) : Prop :=
  forall j, j ∈ jobs s \/ j ∈ doc_jobs (disk s) -> ID j = id -> P (Schedule j).

Lemma computeNextRun_at sch t :
  Kind sch = "at" -> computeNextRun tick sch t = None \/ exists a, AtMS sch = Some a /\ t < a /\ computeNextRun tick sch t = Some a.
Proof.
  intros Hk. unfold computeNextRun. rewrite Hk. cbn [String.eqb]. 
  change (String.eqb "at" "at") with true. cbn. destruct (AtMS sch) as [a|]; [|auto].
  destruct (Z.ltb_spec t a); [right; eauto | auto].
Qed.

Lemma past_mono t t' j : t <= t' -> past t j -> past t' j.
Proof. intros Ht H Hk. destruct (H Hk) as (a & ? & ?). exists a. split; [done | lia]. Qed.

Lemma spent_mono t t' s id : t <= t' -> spent t s id -> spent t' s id.
Proof.
  intros Ht [H1 H2]. split; intros j Hj Hi; [|by eapply past_mono; [|apply H2]].
  destruct (H1 j Hj Hi). split; [by eapply past_mono | done].
Qed.

Lemma derives_aligned t j j' : derives tick t j j' -> aligned j -> aligned j'.
Proof.
  intros (Hi & Hs & Hn) HA Hk He. unfold one_time in *. rewrite Hs in *.
  destruct (Hn He) as [? | [[He' ->] | ->]]; [by left | by apply HA |].
  destruct (computeNextRun_at _ t Hk) as [-> | (a & -> & _ & ->)]; auto.
Qed.

Lemma derives_past t j j' : derives tick t j j' -> past t j -> past t j'.
Proof. intros (_ & Hs & _) HP Hk. unfold one_time in *. rewrite Hs in *. by apply HP. Qed.

Lemma derives_spent t j j' :
  derives tick t j j' -> past t j -> (one_time j -> Enabled j = true -> next_of j = None) ->
  one_time j' -> Enabled j' = true -> next_of j' = None.
Proof.
  intros (Hi & Hs & Hn) HP HN Hk He. unfold one_time in *. rewrite Hs in *.
  destruct (Hn He) as [? | [[He' ->] | ->]]; [done | by apply HN |].
  destruct (HP Hk) as (a & Ha & ?). destruct (computeNextRun_at _ t Hk) as [-> | (b & Hb & ? & _)]; [done|].
  rewrite Ha in Hb. injection Hb as ->. lia.
Qed.

(** Changes keep a service sound, spent jobs spent and schedules as they are. *)
Lemma evolves_sound t s s' : evolves tick t s s' -> sound s ->
  sound s' /\ (forall id, spent t s id -> spent t s' id) /\ (forall P id, schedules P s id -> schedules P s' id).
Proof.
  intros [[HD HI] Hdisk] [S1 S2 S3 S4]. split; [split|split].
  - auto.
  - destruct Hdisk as [-> | ->]; cbn; auto.
  - intros j' Hj. destruct (HD j' Hj) as (j & Hj0 & Hd). eapply derives_aligned; eauto.
  - intros j1 j2 Hj1 Hj2 HE. destruct Hdisk as [E | E]; rewrite E in Hj2.
    + destruct (HD j1 Hj1) as (j & Hj0 & Hi & -> & _). apply S4; [done | done | congruence].
    + by rewrite (same_job (jobs s') j1 j2) by auto.
  - intros id [H1 H2]. assert (HP : forall j', j' ∈ jobs s' -> ID j' = id -> past t j' /\ (one_time j' -> Enabled j' = true -> next_of j' = None)).
    { intros j' Hj Hi. destruct (HD j' Hj) as (j & Hj0 & Hd). assert (ID j = id) by (destruct Hd; congruence).
      destruct (H1 j Hj0); [done|]. split; [by eapply derives_past | by eapply derives_spent]. }
    split; [done|]. intros j' Hj Hi. destruct Hdisk as [E | E]; rewrite E in Hj; [by apply H2 | by apply HP].
  - intros P id HP j' Hj Hi.
    assert (HM : j' ∈ jobs s' \/ j' ∈ doc_jobs (disk s)) by (destruct Hdisk as [E | E]; rewrite E in Hj; tauto).
    destruct HM as [HM | HM]; [|by apply HP; [right|]].
    destruct (HD j' HM) as (j & Hj0 & Hi' & -> & _). apply HP; [by left | congruence].
Qed.

(** *** Due jobs *)

Lemma checkJobs_evolves t s s' r : checkJobs fails t s = (s', r) -> evolves tick t s s'.
Proof.
  intros [(_ & -> & _) | (_ & _ & _ & H1 & H2)]%checkJobs_cases; [split; [apply change_refl | by left]|].
  split; [|exact H2]. rewrite H1. apply change_map. intros j. case_bool_decide; [|apply derives_refl].
  unfold derives. cbn. split_and!; auto.
Qed.

Lemma checkJobs_spent t s s' due :
  checkJobs fails t s = (s', Ok due) -> sound s ->
  NoDup due /\ (forall id, id ∈ due -> spent t s' id) /\
  (forall id, id ∈ due -> exists j, j ∈ jobs s /\ ID j = id /\ is_due t j = true).
Proof.
  intros [(_ & -> & [= ->]) | (_ & Hr & _ & H1 & H2)]%checkJobs_cases [S1 S2 S3 S4].
  { split_and!; [constructor | intros id Hid; by apply not_elem_of_nil in Hid ..]. }
  injection Hr as ->. set (due := ids _) in *.
  assert (HDue : forall id, id ∈ due -> exists j, j ∈ jobs s /\ ID j = id /\ is_due t j = true).
  { intros id Hin. unfold due, ids in Hin. apply list_elem_of_fmap in Hin as (j' & HE & Hin).
    apply list_elem_of_In, filter_In in Hin as [Hin Hd]. apply list_elem_of_In in Hin. eauto. }
  assert (HP : forall j, j ∈ jobs s -> ID j ∈ due -> past t j).
  { intros j Hj Hin Hk. destruct (HDue _ Hin) as (j' & Hj' & HE & Hd).
    rewrite (same_job _ j' j S1 Hj' Hj HE) in Hd. unfold is_due in Hd. apply andb_true_iff in Hd as [He Hn].
    destruct (S3 j Hj Hk He) as [E | E]; rewrite E in Hn; [done|]. destruct (AtMS (Schedule j)) as [a|]; [|done].
    exists a. split; [done | by apply Z.leb_le]. }
  split; [by apply (change_ids tick t _ _ (change_filter tick t (is_due t) (jobs s)))|]. split; [|exact HDue].
  intros id Hid.
  assert (HJ : forall j, j ∈ jobs s' -> ID j = id -> past t j /\ (one_time j -> Enabled j = true -> next_of j = None)).
  { intros j Hj Hi. rewrite H1 in Hj. apply list_elem_of_fmap in Hj as (j0 & -> & Hj0).
    case_bool_decide as Hin; cbn in Hi.
    - split; [|done]. apply (HP j0 Hj0 Hin).
    - congruence. }
  split; [done|]. intros j Hj Hi. destruct H2 as [E | E]; rewrite E in Hj.
  - destruct (HDue id Hid) as (j0 & Hj0 & HE & _). intros Hk. unfold one_time in Hk.
    rewrite <- (S4 j0 j Hj0 Hj) in Hk by congruence. destruct (HP j0 Hj0) as (a & Ha & ?); [by rewrite HE | done|].
    exists a. rewrite <- (S4 j0 j Hj0 Hj) by congruence. done.
  - by apply HJ.
Qed.

(** *** A start *)

Lemma Start_cases t s s' : Start tick fails t s = (s', Ok tt) -> running s = false ->
  jobs s' = recomputeNextRuns tick t (doc_jobs (disk s)) /\ disk s' = Doc (jobs s') /\ running s' = true.
Proof.
  intros E HR. unfold Start in E. rewrite HR in E.
  apply bind_inv in E as [([] & s1 & E1 & E) | (? & _ & ?)]; [|done].
  assert (HL : jobs s1 = doc_jobs (disk s)).
  { unfold loadStore in E1. destruct (fails _); [done|]. destruct (disk s); by injection E1 as <-. }
  unfold bind at 1 in E. apply bind_inv in E as [([] & s2 & E2 & E) | (? & _ & ?)]; [|done].
  apply saved_jobs in E2 as (H1 & _ & _ & H2). cbn in H1. injection E as <-. cbn. rewrite H1, HL.
  specialize (H2 eq_refl). rewrite H1, HL in H2. by split_and!.
Qed.

Lemma Start_sound t s s' : Start tick fails t s = (s', Ok tt) -> running s = false -> NoDup (ids (doc_jobs (disk s))) ->
  sound s' /\ (forall id, (forall j, j ∈ doc_jobs (disk s) -> ID j = id -> past t j) -> spent t s' id) /\
  (forall P id, (forall j, j ∈ doc_jobs (disk s) -> ID j = id -> P (Schedule j)) -> schedules P s' id).
Proof.
  intros E HR HN. destruct (Start_cases t s s' E HR) as (HJ & HD & _).
  set (js := doc_jobs (disk s)) in *.
  assert (HC : change tick t js (jobs s')).
  { rewrite HJ. apply change_map. intros j. destruct (Enabled j); [|apply derives_refl].
    unfold derives. cbn. split_and!; auto. }
  assert (HA : forall j, j ∈ jobs s' -> Enabled j = true -> next_of j = computeNextRun tick (Schedule j) t).
  { intros j Hj He. rewrite HJ in Hj. apply list_elem_of_fmap in Hj as (j0 & -> & _).
    destruct (Enabled j0) eqn:E0; [done | congruence]. }
  destruct HC as [HC HI]. split; [split|split].
  - auto.
  - rewrite HD. cbn. auto.
  - intros j Hj Hk He. rewrite (HA j Hj He). destruct (computeNextRun_at _ t Hk) as [-> | (a & -> & _ & ->)]; auto.
  - intros j j' Hj Hj' HE. rewrite HD in Hj'. by rewrite (same_job (jobs s') j j') by auto.
  - intros id Hp.
    assert (HP : forall j, j ∈ jobs s' -> ID j = id -> past t j).
    { intros j Hj Hi. destruct (HC j Hj) as (j0 & Hj0 & Hd). eapply derives_past; [exact Hd|]. apply Hp; [done|].
      destruct Hd; congruence. }
    split; [|rewrite HD; exact HP]. intros j Hj Hi. split; [auto|]. intros Hk He. rewrite (HA j Hj He).
    destruct (HP j Hj Hi Hk) as (a & Ha & ?). destruct (computeNextRun_at _ t Hk) as [-> | (b & Hb & ? & _)]; [done|].
    rewrite Ha in Hb. injection Hb as ->. lia.
  - intros P id Hp j Hj Hi. rewrite HD in Hj. destruct Hj as [Hj | Hj]; destruct (HC j Hj) as (j0 & Hj0 & Hi' & -> & _);
      apply Hp; congruence.
Qed.

(** *** Executions *)

Definition queue (l : loop) : list string :=
  match l with Running q => q | Executing id _ q => id :: q | _ => [] end.
(** The identifiers whose turn is still to come. *)
Definition waiting (l : loop) : list string :=
  match l with Running q | Executing _ _ q => q | _ => [] end.

Definition fresh (w : world) (id : string) : Prop :=
  (id ∉ ids (jobs (svc w))) /\ (id ∉ ids (doc_jobs (disk (svc w)))) /\ (id ∉ queue (lp w)) /\
  (id ∉ ids (map fst (fired w))).

(** A copy that may replace the job: with its schedule, and with no run that
    the job does not have now. *)
Definition up_to_date (job j : CronJob) : Prop :=
  Schedule job = Schedule j /\ (Enabled job = true -> next_of job = None \/ Enabled j = true /\ next_of job = next_of j).

(** New jobs get new identifiers, and no job is overwritten with an old copy. *)
Definition no_overwrite (w : world) (o : api) : Prop :=
  match o with
  | OAdd id _ _ _ _ _ => fresh w id
  | OUpdate job => forall j, find_job (ID job) (jobs (svc w)) = Some j -> up_to_date job j
  | _ => True
  end.

Lemma AddJob_cases id name sch m c o t s s' r : AddJob tick fails id name sch m c o t s = (s', r) ->
  exists job, ID job = id /\ aligned job /\ jobs s' = jobs s ++ [job] /\ (disk s' = disk s \/ disk s' = Doc (jobs s')).
Proof.
  unfold AddJob. cbv zeta. set (job := mkJob _ _ _ _ _ _ _ _ _). intros E. exists job.
  assert (HA : aligned job).
  { intros Hk _. destruct (computeNextRun_at sch t Hk) as [H | (a & Ha & _ & H)]; unfold next_of; cbn; rewrite H; auto. }
  unfold bind at 1, set_jobs in E.
  apply bind_inv in E as [([] & s1 & E1 & E) | (e & E1 & _)]; apply saved_jobs in E1 as (H1 & _ & H2 & _); cbn in *.
  - injection E as <- _. auto.
  - auto.
Qed.

Lemma run_api_sound w o s' b :
  no_overwrite w o -> run_api tick fails o (now w) (svc w) = (s', b) -> sound (svc w) ->
  sound s' /\
  (forall id, id ∈ queue (lp w) \/ id ∈ ids (map fst (fired w)) ->
     (spent (now w) (svc w) id -> spent (now w) s' id) /\ (forall P, schedules P (svc w) id -> schedules P s' id)).
Proof.
  intros Ha E HS. destruct o as [id name sch m c o | job | id | id en]; cbn [no_overwrite run_api] in Ha, E.
  - destruct (AddJob tick fails id name sch m c o (now w) (svc w)) as [s1 r] eqn:EA. injection E as <- _.
    destruct (AddJob_cases _ _ _ _ _ _ _ _ _ _ EA) as (job & Hid & Hal & HJ & HD). destruct HS as [S1 S2 S3 S4].
    destruct Ha as (F1 & F2 & F3 & F4).
    assert (HN : NoDup (ids (jobs s1))).
    { unfold ids. rewrite HJ, map_app. apply NoDup_app. split_and!; [done | | apply NoDup_singleton].
      intros x Hx [= ->]%list_elem_of_singleton. by rewrite Hid in Hx. }
    assert (Hold : forall j x, (j ∈ jobs s1 \/ j ∈ doc_jobs (disk s1)) -> ID j = x -> x <> id -> j ∈ jobs (svc w) \/ j ∈ doc_jobs (disk (svc w))).
    { intros j x Hj Hx Hne. assert (HM : j ∈ jobs s1 \/ j ∈ doc_jobs (disk (svc w))).
      { destruct Hj as [?|Hj]; [by left|]. destruct HD as [E | E]; rewrite E in Hj; auto. }
      destruct HM as [HM | HM]; [|by right]. rewrite HJ in HM. apply elem_of_app in HM as [? | ->%list_elem_of_singleton]; [by left|].
      congruence. }
    split; [split|].
    + done.
    + destruct HD as [-> | ->]; cbn; auto.
    + intros j Hj. rewrite HJ in Hj. apply elem_of_app in Hj as [Hj | ->%list_elem_of_singleton]; auto.
    + intros j j' Hj Hj' HE. destruct HD as [E | E]; rewrite E in Hj'; [|by rewrite (same_job (jobs s1) j j')].
      rewrite HJ in Hj. apply elem_of_app in Hj as [Hj | ->%list_elem_of_singleton]; [auto|].
      exfalso. apply F2. rewrite <- Hid, HE. by apply list_elem_of_fmap_2.
    + intros x Hx. assert (Hne : x <> id) by (intros ->; destruct Hx; [by apply F3 | by apply F4]). split.
      * intros [H1 H2]. split; intros j Hj Hi.
        -- rewrite HJ in Hj. apply elem_of_app in Hj as [Hj | ->%list_elem_of_singleton]; [auto | congruence].
        -- destruct HD as [E | E]; rewrite E in Hj; [auto|]. cbn in Hj. rewrite HJ in Hj.
           apply elem_of_app in Hj as [Hj | ->%list_elem_of_singleton]; [by apply H1 | congruence].
      * intros P HP j Hj Hi. apply HP; [|done]. by eapply Hold.
  - destruct (UpdateJob fails job (now w) (svc w)) as [s1 r] eqn:EU. injection E as <- _.
    destruct (find_job (ID job) (jobs (svc w))) as [j|] eqn:Ef.
    + destruct (Ha j eq_refl) as [Hsch Hnext].
      destruct (evolves_sound (now w) (svc w) s1) as (HS' & HSp & HSc); [|done|split; [done|]; intros x _; auto].
      eapply UpdateJob_evolves; [exact Ef | | exact EU]. unfold derives. cbn. split_and!; [|done|].
      * apply find_first_Some in Ef as [Hi%String.eqb_eq _]. done.
      * intros He. destruct (Hnext He); auto.
    + unfold UpdateJob in EU. rewrite Ef in EU. injection EU as <- _. split; [done|]. intros x _. auto.
  - destruct (removeJobUnsafe fails id (svc w)) as [s1 r] eqn:ER. injection E as <- _.
    apply removeJobUnsafe_cases in ER as (H1 & _ & H2).
    destruct (evolves_sound (now w) (svc w) s1) as (HS' & HSp & HSc); [|done|].
    + split; [|exact H2]. rewrite H1. apply change_filter.
    + split; [done|]. intros x _. auto.
  - destruct (EnableJob tick fails id en (now w) (svc w)) as [s1 r] eqn:EE. injection E as <- _.
    apply EnableJob_evolves in EE as [HE _]. destruct (evolves_sound _ _ _ HE HS) as (HS' & HSp & HSc).
    split; [done|]. intros x _. auto.
Qed.

Record inv (w : world) : Prop := {
  inv_sound : sound (svc w);
  inv_queue : NoDup (queue (lp w)) /\ forall id, id ∈ queue (lp w) -> spent (now w) (svc w) id;
  inv_fired : forall j t0, (j, t0) ∈ fired w -> one_time j ->
    (exists a, AtMS (Schedule j) = Some a /\ a <= t0) /\ spent (now w) (svc w) (ID j) /\
    schedules (fun sch => Kind sch = "at") (svc w) (ID j) /\ (ID j ∉ waiting (lp w));
  inv_once : NoDup (ids (List.filter (fun j => bool_decide (one_time j)) (map fst (fired w))))
}.

Lemma waiting_queue l id : id ∈ waiting l -> id ∈ queue l.
Proof. destruct l; cbn; auto. intros H. by right. Qed.

Lemma fired_id w j t0 : (j, t0) ∈ fired w -> ID j ∈ ids (map fst (fired w)).
Proof. intros H. unfold ids. rewrite map_map. by apply (list_elem_of_fmap_2 (fun p => ID (fst p)) _ (j, t0)). Qed.

(** A step of the service that keeps spent jobs and schedules. *)
Lemma inv_service w s' l' :
  inv w -> sound s' -> NoDup (queue l') ->
  (forall id, id ∈ queue l' -> id ∈ queue (lp w)) -> (forall id, id ∈ waiting l' -> id ∈ waiting (lp w)) ->
  (forall id, id ∈ queue (lp w) \/ id ∈ ids (map fst (fired w)) ->
     (spent (now w) (svc w) id -> spent (now w) s' id) /\ (forall P, schedules P (svc w) id -> schedules P s' id)) ->
  inv (mkWorld s' (now w) l' (fired w)).
Proof.
  intros [I1 [I2 I3] I4 I5] HS HN HQ HW HK. split; cbn; [done | split; [done|] | | done].
  - intros id Hid. apply HQ in Hid. apply HK; auto.
  - intros j t0 Hj Hk. destruct (I4 j t0 Hj Hk) as (H1 & H2 & H3 & H4). pose proof (fired_id w j t0 Hj) as Hf.
    split_and!; [done | by apply HK; auto | by apply HK; auto |]. intros Hx. by apply H4, HW.
Qed.

Lemma inv_step w w' : inv w -> step tick fails no_overwrite True w w' -> inv w'.
Proof.
  intros HI Hstep. pose proof HI as [I1 [I2 I3] I4 I5].
  destruct Hstep as [s t t' l f Ht | s t f | s t d f | s t d f s' due Hd Hc | s t id q f Hf | s t id q f j Hf | s t id t0 q f oc | s t f | s t l f o Ha | s t l f s' k _ Hs];
    cbn [svc now lp fired queue waiting] in *.
  - split; cbn; [done | split; [done|] | | done].
    + intros id Hid. eapply spent_mono; [exact Ht | auto].
    + intros j t0 Hj Hk. destruct (I4 j t0 Hj Hk) as (H1 & H2 & H3 & H4). split_and!; [done | | done | done].
      by eapply spent_mono.
  - split; cbn; auto.
  - split; cbn; auto.
  - destruct (checkJobs_spent t s s' due Hc I1) as (D1 & D2 & D3).
    destruct (evolves_sound t s s' (checkJobs_evolves t s s' _ Hc) I1) as (HS & HSp & HSc).
    split; cbn; [done | by split | | done].
    intros j t0 Hj Hk. destruct (I4 j t0 Hj Hk) as (H1 & H2 & H3 & H4). split_and!; [done | auto | auto |].
    intros Hin. destruct (D3 _ Hin) as (j' & Hj' & HE & Hdue). unfold is_due in Hdue. apply andb_true_iff in Hdue as [He Hn].
    destruct H2 as [H2 _]. destruct (H2 j' Hj' HE) as [_ HN]. rewrite HN in Hn; [done | | done].
    by apply H3; [left|].
  - apply (inv_service (mkWorld s t (Running (id :: q)) f)); cbn; auto.
    + by inversion I2.
    + intros x Hx. by right.
    + intros x Hx. by right.
  - assert (Hj : j ∈ jobs s /\ ID j = id).
    { unfold find_job in Hf. pose proof (find_first_elem _ _ _ Hf) as Hin.
      apply find_first_Some in Hf as [HE%String.eqb_eq _]. by split. }
    destruct Hj as [Hj <-]. apply NoDup_cons in I2 as [Hni HNq].
    assert (Hsp : spent t s (ID j)) by (apply I3; by left).
    split; cbn; [done | | |].
    + split; [by apply NoDup_cons|]. exact I3.
    + intros j1 t1 Hin Hk. apply elem_of_app in Hin as [Hin | [= -> ->]%list_elem_of_singleton].
      * destruct (I4 j1 t1 Hin Hk) as (H1 & H2 & H3 & H4). split_and!; [done | done | done |].
        intros Hx. apply H4. by right.
      * split_and!; [| done | | done].
        -- destruct Hsp as [H _]. by destruct (H j Hj eq_refl) as [HP _]; apply HP.
        -- intros j' [Hj' | Hj'] HE; [by rewrite (same_job (jobs s) j' j) by (done || apply I1)|].
           rewrite <- (sound_same s I1 j j' Hj Hj') by congruence. done.
    + rewrite map_app, List.filter_app. unfold ids. rewrite map_app. cbn [map List.filter fst].
      case_bool_decide as Hk; [|by rewrite app_nil_r]. cbn [map]. apply NoDup_app. split_and!; [done | | apply NoDup_singleton].
      intros x Hx [= ->]%list_elem_of_singleton. apply list_elem_of_fmap in Hx as (j1 & HE & Hx).
      apply list_elem_of_In, filter_In in Hx as [Hx Hk1%bool_decide_eq_true]. apply list_elem_of_In, list_elem_of_fmap in Hx as ([j2 t1] & -> & Hx).
      destruct (I4 _ t1 Hx Hk1) as (_ & _ & _ & H4). apply H4. rewrite HE. by left.
  - destruct (finish_job tick fails id t0 oc t s) as [s' r] eqn:E. cbn.
    apply finish_job_evolves in E as [HE _]. destruct (evolves_sound _ _ _ HE I1) as (HS & HSp & HSc).
    apply (inv_service (mkWorld s t (Executing id t0 q) f)); cbn; auto.
    + by inversion I2.
    + intros x Hx. by right.
  - split; cbn; auto.
  - destruct (run_api tick fails o t s) as [s' b] eqn:E. cbn.
    destruct (run_api_sound (mkWorld s t l f) o s' b Ha E I1) as [HS HK]. cbn in HK.
    apply (inv_service (mkWorld s t l f)); cbn; auto; by destruct l, b.
  - destruct (Start_sound t _ s' Hs eq_refl (sound_disk s I1)) as (HS & HSp & HSc). cbn in HSp, HSc.
    split; cbn; [done | split; [constructor | intros id Hid; by apply not_elem_of_nil in Hid] | | done].
    intros j t0 Hj Hk. destruct (I4 j t0 Hj Hk) as (H1 & H2 & H3 & H4). split_and!; [done | | | apply not_elem_of_nil].
    + apply HSp. intros j' Hj' HE. by apply H2.
    + apply HSc. intros j' Hj' HE. by apply H3; [right|].
Qed.
End OneTime.

(** C9: a one-time job runs at most once and never before its time: in every
    execution from a start of the service, with jobs added, updated, removed,
    enabled and disabled at any point between the steps of the loop, handlers
    that fail, files that cannot be written, crashes and restarts, as long as
    identifiers are not used again and a job is updated only with a copy that
    has its schedule and no run that the job does not have at that moment. *)
Theorem one_time_jobs_run_once NextTickAfter fails d k t0 s0 w :
  NoDup (ids (doc_jobs d)) -> Start NextTickAfter fails t0 (mkService [] d false k) = (s0, Ok tt) ->
  star (step NextTickAfter fails no_overwrite True) (mkWorld s0 t0 Top []) w ->
  NoDup (ids (List.filter (fun j => String.eqb (Kind (Schedule j)) "at") (map fst (fired w)))) /\
  forall j t, (j, t) ∈ fired w -> Kind (Schedule j) = "at" -> exists a, AtMS (Schedule j) = Some a /\ a <= t.
Proof.
  intros HN HS Hw. assert (HI : inv w).
  { eapply star_invariant; [intros w1 w2; apply inv_step | exact Hw |].
    destruct (Start_sound _ _ _ _ _ HS eq_refl HN) as (HS' & _ & _).
    split; cbn; [done | | | constructor].
    - split; [constructor | intros id Hid; by apply not_elem_of_nil in Hid].
    - intros j t Hj. by apply not_elem_of_nil in Hj. }
  split; [|intros j t Hj Hk; by destruct (inv_fired _ HI j t Hj Hk) as [? _]].
  pose proof (inv_once _ HI) as H. erewrite filter_ext; [exact H|]. intros j. cbn.
  destruct (String.eqb_spec (Kind (Schedule j)) "at"); symmetry; [by apply bool_decide_true | by apply bool_decide_false].
Qed.

(** *** Jobs on disk *)

Section Disk.
Context (tick : string -> Z -> option Z).

Definition never (n : nat) : bool := false.
Definition synced (s : CronService) : Prop := disk s = Doc (jobs s).

Lemma save_synced s s' r : saveStoreUnsafe never s = (s', r) -> synced s' /\ jobs s' = jobs s /\ r = Ok tt.
Proof. unfold saveStoreUnsafe, never. intros [= <- <-]. by split_and!. Qed.

Lemma try_save_synced s s' r : try (saveStoreUnsafe never) s = (s', r) -> synced s' /\ jobs s' = jobs s.
Proof. intros (r0 & E & _)%try_inv. by apply save_synced in E as (? & ? & _). Qed.

Lemma set_save_synced {A} (m : S unit) (k : S A) s s' r :
  (let! _ := m in let! _ := try (saveStoreUnsafe never) in k) s = (s', r) ->
  (forall s1 s2 x, k s1 = (s2, x) -> s2 = s1) -> (forall s1 r1, m s = (s1, r1) -> r1 = Ok tt) ->
  synced s'.
Proof.
  intros E Hk Hm. apply bind_inv in E as [([] & s1 & E1 & E) | (e & E1 & _)]; [|by apply Hm in E1].
  apply bind_inv in E as [(x & s2 & E2 & E) | (e & E2 & _)]; [|by apply try_inv in E2 as (? & _ & ?)].
  apply try_save_synced in E2 as [H _]. by apply Hk in E as ->.
Qed.

Lemma filter_same_length {A} (p : A -> bool) l : (length l <= length (List.filter p l))%nat -> List.filter p l = l.
Proof.
  induction l as [|x l IH]; cbn; [done|]. pose proof (filter_length_le p l). destruct (p x); cbn; [|lia].
  intros H1. f_equal. apply IH. lia.
Qed.

Lemma checkJobs_synced t s s' due : checkJobs never t s = (s', Ok due) -> synced s -> synced s'.
Proof.
  unfold checkJobs. destruct (running s); cbn [negb]; [|by intros [= <- _]]. cbv zeta. intros E _.
  eapply set_save_synced; [exact E | by intros ? ? ? [= <- _] | by intros ? ? [= _ <-]].
Qed.

Lemma remove_synced id s s' r : removeJobUnsafe never id s = (s', r) -> synced s -> synced s'.
Proof.
  unfold removeJobUnsafe. cbv zeta. set (rest := List.filter _ _). intros E HS. unfold bind at 1, set_jobs in E.
  apply bind_inv in E as [(x & s1 & E1 & E) | (e & E1 & _)]; destruct (Nat.ltb_spec (length rest) (length (jobs s))) as [Hl|Hl].
  - apply try_save_synced in E1 as [H _]. by injection E as <- _.
  - injection E1 as <- _. injection E as <- _. unfold synced. cbn. unfold rest. by rewrite filter_same_length.
  - by apply try_inv in E1 as (? & _ & ?).
  - done.
Qed.

Lemma finish_synced id t0 oc t s : synced s -> synced (fst (finish_job tick never id t0 oc t s)).
Proof.
  intros HS. destruct (finish_job tick never id t0 oc t s) as [s' r] eqn:E. cbn. unfold finish_job in E.
  destruct (find_job id (jobs s)) as [job|]; [|by injection E as <- _]. cbv zeta in E.
  eapply set_save_synced; [exact E | by intros ? ? ? [= <- _] |].
  intros s1 r1. destruct (String.eqb _ "at"); [destruct (DeleteAfterRun job)|]; [| by intros [= _ <-] ..].
  intros [(b & s2 & E2 & E1) | (e & E2 & ->)]%bind_inv; [by injection E1 as _ <-|].
  by apply removeJobUnsafe_Ok in E2 as [? ?].
Qed.

Lemma api_synced o t s : synced s -> synced (fst (run_api tick never o t s)).
Proof.
  intros HS. destruct o as [id name sch m c to | job | id | id en]; cbn [run_api].
  - unfold AddJob. cbv zeta. unfold bind at 1, set_jobs, bind.
    destruct (saveStoreUnsafe never _) as [s1 r] eqn:E. apply save_synced in E as (H & _ & ->). exact H.
  - unfold UpdateJob. destruct (find_job _ _); [|done]. unfold bind, set_jobs.
    destruct (saveStoreUnsafe never _) as [s1 r] eqn:E. by apply save_synced in E as (H & _ & _).
  - destruct (removeJobUnsafe never id s) as [s1 r] eqn:E. by eapply remove_synced.
  - destruct (EnableJob tick never id en t s) as [s1 r] eqn:E. unfold EnableJob in E.
    destruct (find_job id (jobs s)); [|by injection E as <- _]. cbv zeta in E.
    eapply set_save_synced; [exact E | by intros ? ? ? [= <- _] | by intros ? ? [= _ <-]].
Qed.
End Disk.

(** C38: while the file can be written, a crash loses no job: at every point of
    every execution, whatever operations fall between the steps of the loop,
    the file has exactly the jobs of the service, so that a restart has them
    again with the next runs of the enabled ones computed anew. *)
Theorem crash_keeps_jobs NextTickAfter d k t0 s0 w s' t' k' :
  Start NextTickAfter never t0 (mkService [] d false k) = (s0, Ok tt) ->
  star (step NextTickAfter never (fun _ _ => True) True) (mkWorld s0 t0 Top []) w ->
  Start NextTickAfter never t' (mkService [] (disk (svc w)) false k') = (s', Ok tt) ->
  disk (svc w) = Doc (jobs (svc w)) /\ jobs s' = recomputeNextRuns NextTickAfter t' (jobs (svc w)).
Proof.
  intros HS Hw HS'. assert (HI : synced (svc w)).
  { eapply (star_invariant _ (fun w => synced (svc w))); [|exact Hw|].
    - intros w1 w2 H1 Hstep. destruct Hstep; cbn [svc] in *; try done.
      + by eapply checkJobs_synced.
      + by apply finish_synced.
      + by apply api_synced.
      + by destruct (Start_cases _ _ _ _ _ H0 eq_refl) as (_ & ? & _).
    - by destruct (Start_cases _ _ _ _ _ HS eq_refl) as (_ & ? & _). }
  split; [exact HI|]. destruct (Start_cases _ _ _ _ _ HS' eq_refl) as (HJ & _ & _). rewrite HJ. cbn. by rewrite HI.
Qed.

(** *** Waking up in time *)

Section Wake.
Context (tick : string -> Z -> option Z).
(** A tick is after the given time, and a number of 64 bits. *)
Hypothesis tick_after : forall e t n, tick e t = Some n -> t < n <= int64_max.

Definition sane (sch : CronSchedule) : Prop :=
  (forall e, EveryMS sch = Some e -> e < 2 ^ 62) /\ (forall a, AtMS sch = Some a -> a <= int64_max).

Definition good_next (j : CronJob) : Prop := forall n, Enabled j = true -> next_of j = Some n -> 0 <= n <= int64_max.

Definition good (s : CronService) : Prop :=
  (forall j, j ∈ jobs s \/ j ∈ doc_jobs (disk s) -> sane (Schedule j)) /\ (forall j, j ∈ jobs s -> good_next j).

Lemma computeNextRun_range sch t n :
  0 <= t <= 2 ^ 62 -> sane sch -> computeNextRun tick sch t = Some n -> t < n <= int64_max.
Proof.
  intros Ht [He Ha]. unfold computeNextRun. destruct (String.eqb _ "at").
  { destruct (AtMS sch) as [a|]; [|done]. destruct (Z.ltb_spec t a); [|done]. intros [= <-]. specialize (Ha a eq_refl). lia. }
  destruct (String.eqb _ "every").
  { destruct (EveryMS sch) as [e|]; [|done]. destruct (Z.leb_spec e 0); [done|]. specialize (He e eq_refl).
    intros [= <-]. rewrite wrap64_small; unfold in_int64, int64_min, int64_max; lia. }
  destruct (String.eqb _ "cron"); [|done]. destruct (String.eqb _ ""); [done|]. apply tick_after.
Qed.

Lemma evolves_good t s s' : 0 <= t <= 2 ^ 62 -> evolves tick t s s' -> good s -> good s'.
Proof.
  intros Ht [[HD _] Hdisk] [G1 G2].
  assert (HS : forall j, j ∈ jobs s' -> sane (Schedule j)).
  { intros j Hj. destruct (HD j Hj) as (j0 & Hj0 & _ & -> & _). apply G1. by left. }
  split.
  - intros j [Hj | Hj]; [auto|]. destruct Hdisk as [E | E]; rewrite E in Hj; auto.
  - intros j Hj n He Hn. destruct (HD j Hj) as (j0 & Hj0 & _ & Hs & HN).
    destruct (HN He) as [E | [[He0 E] | E]]; rewrite E in Hn; [done | by apply (G2 j0) |].
    apply computeNextRun_range in Hn; [lia | done | apply G1; by left].
Qed.

(** The earliest of the next runs. *)
Lemma getNextWakeMS_least js :
  match getNextWakeMS js with
  | None => forall j, j ∈ js -> Enabled j = true -> next_of j = None
  | Some w => (exists j, j ∈ js /\ Enabled j = true /\ next_of j = Some w) /\
      forall j n, j ∈ js -> Enabled j = true -> next_of j = Some n -> w <= n
  end.
Proof.
  unfold getNextWakeMS. induction js as [|j js IH] using rev_ind; [by intros j ?%not_elem_of_nil|].
  rewrite fold_left_app. cbn [fold_left]. set (wake := fold_left _ js None) in *.
  destruct (Enabled j) eqn:He; [destruct (next_of j) as [n|] eqn:Hn|].
  - destruct wake as [w|].
    + destruct IH as [(j0 & H1 & H2 & H3) H4]. destruct (Z.ltb_spec n w).
      * split; [exists j; rewrite elem_of_app, list_elem_of_singleton; auto|].
        intros j' n' [Hj | ->%list_elem_of_singleton]%elem_of_app He' Hn'; [specialize (H4 j' n' Hj He' Hn'); lia|].
        rewrite Hn in Hn'. injection Hn' as ->. lia.
      * split; [exists j0; rewrite elem_of_app; auto|].
        intros j' n' [Hj | ->%list_elem_of_singleton]%elem_of_app He' Hn'; [eauto|].
        rewrite Hn in Hn'. injection Hn' as ->. lia.
    + split; [exists j; rewrite elem_of_app, list_elem_of_singleton; auto|].
      intros j' n' [Hj | ->%list_elem_of_singleton]%elem_of_app He' Hn'; [by rewrite IH in Hn' by done|].
      rewrite Hn in Hn'. injection Hn' as ->. lia.
  - destruct wake as [w|].
    + destruct IH as [(j0 & H1 & H2 & H3) H4]. split; [exists j0; rewrite elem_of_app; auto|].
      intros j' n' [Hj | ->%list_elem_of_singleton]%elem_of_app He' Hn'; [eauto | congruence].
    + intros j' [Hj | ->%list_elem_of_singleton]%elem_of_app He'; auto.
  - destruct wake as [w|].
    + destruct IH as [(j0 & H1 & H2 & H3) H4]. split; [exists j0; rewrite elem_of_app; auto|].
      intros j' n' [Hj | ->%list_elem_of_singleton]%elem_of_app He' Hn'; [eauto | congruence].
    + intros j' [Hj | ->%list_elem_of_singleton]%elem_of_app He'; [auto | congruence].
Qed.

Lemma wrap64_le z : - 2 ^ 63 <= z -> wrap64 z <= z.
Proof.
  intros H. unfold wrap64. assert ((z + 2 ^ 63) mod 2 ^ 64 <= z + 2 ^ 63); [|lia]. apply Z.mod_le; lia.
Qed.

(** The wait ends when the earliest job is due, or at once. *)
Lemma wake_delay_le t w : 0 <= t <= 2 ^ 62 -> 0 <= w <= int64_max ->
  t * Millisecond + Z.max 0 (wake_delay (Some w) t) <= Z.max w t * Millisecond.
Proof.
  intros Ht Hw. unfold wake_delay, Millisecond. cbv zeta. rewrite (wrap64_small (w - t)) by (unfold in_int64, int64_min, int64_max in *; lia).
  destruct (Z.leb_spec (w - t) 0); [lia|]. pose proof (wrap64_le ((w - t) * 1000000)). lia.
Qed.

(** The loop does not wait for longer than any job. *)
Definition covers (w : world) : Prop :=
  match lp w with
  | Armed d | Asleep d =>
      forall j n, j ∈ jobs (svc w) -> Enabled j = true -> next_of j = Some n -> d <= Z.max n (now w) * Millisecond
  | _ => True
  end.

(** Operations do not fall between the computation of the delay and the wait. *)
Definition not_armed (w : world) (o : api) : Prop :=
  (forall d, lp w <> Armed d) /\
  match o with
  | OAdd _ _ sch _ _ _ => sane sch
  | OUpdate job => sane (Schedule job) /\ good_next job
  | _ => True
  end.

Lemma update_job_elem id f js j' : j' ∈ update_job id f js -> j' ∈ js \/ exists j, j ∈ js /\ j' = f j.
Proof.
  induction js as [|j js IH]; cbn [update_job]; [auto|]. destruct (String.eqb (ID j) id); intros [-> | H]%elem_of_cons.
  - right. exists j. split; [by left | done].
  - left. by right.
  - left. by left.
  - destruct (IH H) as [?|(j0 & ? & ->)]; [left; by right | right; exists j0; split; [by right | done]].
Qed.

Lemma api_good w o : 0 <= now w <= 2 ^ 62 -> not_armed w o -> good (svc w) -> synced (svc w) ->
  good (fst (run_api tick never o (now w) (svc w))) /\
  (snd (run_api tick never o (now w) (svc w)) = false -> jobs (fst (run_api tick never o (now w) (svc w))) = jobs (svc w)).
Proof.
  intros Ht [_ Ho] HG HS. pose proof (api_synced tick o (now w) (svc w) HS) as HS'.
  destruct (run_api tick never o (now w) (svc w)) as [s' b] eqn:E. cbn [fst snd] in *.
  assert (HM : forall s : CronService, synced s -> (forall j, j ∈ jobs s -> sane (Schedule j) /\ good_next j) -> good s).
  { intros s Hs Hj. split; [|intros; by apply Hj]. intros j [H|H]; [by apply Hj|]. rewrite Hs in H. by apply Hj. }
  destruct HG as [G1 G2]. destruct o as [id name sch m c to | job | id | id en]; cbn [run_api] in E.
  - destruct (AddJob tick never id name sch m c to (now w) (svc w)) as [s1 r] eqn:EA.
    assert (Hr : exists job, r = Ok job).
    { revert EA. unfold AddJob, bind, set_jobs, saveStoreUnsafe, never, ret. cbv zeta beta iota. intros [= _ <-]. eauto. }
    destruct Hr as [job0 ->]. injection E as <- <-. split; [|done].
    assert (EA' := EA). apply (AddJob_cases tick never) in EA' as (job & _ & _ & HJ & _).
    apply HM; [done|]. intros j Hj.
    assert (HJ1 : jobs s1 = jobs (svc w) ++ [mkJob id name true sch (mkPayload "agent_turn" m "" c to)
               (mkJobState (computeNextRun tick sch (now w)) None "" "") (now w) (now w) (String.eqb (Kind sch) "at")]).
    { revert EA. unfold AddJob, bind, set_jobs, saveStoreUnsafe, never, ret. cbv zeta beta iota. intros [= <- _]. done. }
    rewrite HJ1 in Hj. apply elem_of_app in Hj as [Hj | ->%list_elem_of_singleton]; [auto|]. split; [done|].
    intros n _ Hn. unfold next_of in Hn. cbn in Hn. apply computeNextRun_range in Hn; [lia | done | done].
  - injection E as <- <-. revert HS'. unfold UpdateJob. destruct (find_job (ID job) (jobs (svc w))) eqn:EF; [|by intros _; split].
    intros HS'. split; [|done]. apply HM; [done|]. intros j Hj.
    assert (Hj' : j ∈ update_job (ID job) (fun _ => with_state job (State job) (now w)) (jobs (svc w))) by exact Hj.
    apply update_job_elem in Hj' as [Hj' | (j0 & _ & ->)]; [auto|]. exact Ho.
  - injection E as <- <-. split; [|done]. destruct (removeJobUnsafe never id (svc w)) as [s1 r] eqn:ER. cbn [fst] in *.
    apply removeJobUnsafe_cases in ER as (HJ & _ & _). apply HM; [done|]. intros j Hj. rewrite HJ in Hj.
    apply list_elem_of_In, filter_In in Hj as [Hj _]. apply list_elem_of_In in Hj. auto.
  - injection E as <- <-. destruct (EnableJob tick never id en (now w) (svc w)) as [s1 r] eqn:EE. cbn [fst] in *.
    assert (EE' := EE). apply EnableJob_evolves in EE' as [HE _]. split; [by eapply evolves_good|].
    unfold EnableJob in EE. destruct (find_job id (jobs (svc w))); [done|]. by injection EE as <- _.
Qed.

(** What holds in every execution without such operations, while the clock is
    in the range of 64 bits. *)
Definition timely (w : world) : Prop :=
  0 <= now w /\ synced (svc w) /\ (now w <= 2 ^ 62 -> good (svc w) /\ covers w).

Lemma timely_step w w' : timely w -> step tick never not_armed True w w' -> timely w'.
Proof.
  intros (T1 & T2 & T3) Hstep.
  destruct Hstep as [s t t' l f Ht | s t f | s t d f | s t d f s' due Hd Hc | s t id q f Hf | s t id q f j Hf | s t id t0 q f oc | s t f | s t l f o Ha | s t l f s' k _ Hs];
    cbn [svc now lp] in *.
  - split; [cbn; lia|]. split; [done|]. cbn. intros Hn. destruct T3 as [HG HC]; [lia|]. split; [done|].
    unfold covers in *. cbn in *. destruct l; try done; intros j n Hj He Hx; specialize (HC j n Hj He Hx); unfold Millisecond in *; lia.
  - split; [done|]. split; [done|]. cbn. intros Hn. destruct (T3 Hn) as [HG _]. split; [done|].
    unfold covers. cbn. intros j n Hj He Hx. pose proof (getNextWakeMS_least (jobs s)) as HL.
    destruct (getNextWakeMS (jobs s)) as [w|]; [|by rewrite HL in Hx].
    destruct HL as [(j0 & Hj0 & He0 & Hx0) HL]. specialize (HL j n Hj He Hx).
    destruct HG as [_ HG]. pose proof (HG j0 Hj0 w He0 Hx0).
    etransitivity; [apply wake_delay_le; [done | lia]|]. unfold Millisecond. lia.
  - done.
  - split; [done|]. split; [by eapply checkJobs_synced|]. intros Hn. destruct (T3 Hn) as [HG _]. split; [|done].
    eapply evolves_good; [|by eapply checkJobs_evolves | done]. cbn in Hn. lia.
  - split; [done|]. by split.
  - split; [done|]. by split.
  - split; [done|]. split; [by apply finish_synced|]. intros Hn. destruct (T3 Hn) as [HG _]. split; [|done]. cbn in Hn |- *.
    destruct (finish_job tick never id t0 oc t s) as [s' r] eqn:E. apply finish_job_evolves in E as [HE _].
    eapply evolves_good; [|exact HE | done]. lia.
  - split; [done|]. by split.
  - split; [done|]. split; [by apply api_synced|]. intros Hn. destruct (T3 Hn) as [HG HC]. cbn in Hn |- *.
    destruct (api_good (mkWorld s t l f) o (conj T1 Hn) Ha HG T2) as [HG' HJ]. cbn [svc now] in HG', HJ. split; [done|].
    unfold covers in *. cbn in *. destruct l as [|d|d|q|id t0 q]; cbn [notify]; try done.
    + destruct Ha as [Ha _]. by destruct (Ha d).
    + destruct (snd _) eqn:Eb; [done|]. by rewrite HJ.
  - split; [done|]. destruct (Start_cases _ _ _ _ _ Hs eq_refl) as (HJ & HD & _). split; [done|]. intros Hn.
    destruct (T3 Hn) as [HG _]. split; [|done]. cbn in Hn |- *.
    eapply (evolves_good t (mkService (doc_jobs (disk s)) (disk s) false k)); [lia | split; [|by right] |].
    + cbn. rewrite HJ. cbn. apply change_map. intros j. destruct (Enabled j); [|apply derives_refl].
      unfold derives. cbn. split_and!; auto.
    + cbn. rewrite T2. cbn. destruct HG as [G1 G2]. split; cbn; [|exact G2]. intros j [Hj|Hj]; apply G1; by left.
Qed.
End Wake.

(** C33: the loop wakes up in time: in every execution in which the file can be
    written and no operation falls between the computation of the delay and the
    wait, the loop never waits beyond the time of an enabled job, or beyond now if that is over. *)
Theorem loop_wakes_in_time NextTickAfter d k t0 s0 w deadline j n :
  (forall e t m, NextTickAfter e t = Some m -> t < m <= int64_max) ->
  Forall (fun j => sane (Schedule j)) (doc_jobs d) -> 0 <= t0 ->
  Start NextTickAfter never t0 (mkService [] d false k) = (s0, Ok tt) ->
  star (step NextTickAfter never not_armed True) (mkWorld s0 t0 Top []) w ->
  lp w = Asleep deadline -> j ∈ jobs (svc w) -> Enabled j = true -> next_of j = Some n -> now w <= 2 ^ 62 ->
  deadline <= Z.max n (now w) * Millisecond.
Proof.
  intros Htick Hd Ht HS Hw Hl Hj He Hn Hnow. assert (HT : timely w).
  { eapply star_invariant; [intros w1 w2; by apply timely_step | exact Hw |].
    destruct (Start_cases _ _ _ _ _ HS eq_refl) as (HJ & HD & _). cbn in HJ.
    split; [done|]. split; [done|]. cbn. intros Hn0. split; [|done]. split; cbn.
    - intros j0 Hj0. rewrite HD in Hj0. cbn in Hj0. assert (Hj1 : j0 ∈ jobs s0) by tauto. rewrite HJ in Hj1.
      apply list_elem_of_fmap in Hj1 as (j1 & -> & Hj1). rewrite Forall_forall in Hd. specialize (Hd j1 Hj1).
      by destruct (Enabled j1).
    - intros j0 Hj0 m He0 Hm. rewrite HJ in Hj0. apply list_elem_of_fmap in Hj0 as (j1 & -> & Hj1).
      destruct (Enabled j1) eqn:E1; [|congruence]. unfold next_of in Hm. cbn in Hm. rewrite Forall_forall in Hd.
      apply computeNextRun_range in Hm; [lia | exact Htick | lia | by apply Hd]. }
  destruct HT as (_ & _ & HT). destruct (HT Hnow) as [_ HC]. unfold covers in HC. rewrite Hl in HC. by eapply HC.
Qed.

(** A notification is lost: a job that is added after the loop has
    computed its delay and before it waits does not wake it, since the channel
    has no buffer. An idle service then sleeps for an hour although the job is
    due before; nothing but another operation changes that. *)
Theorem added_job_not_noticed NextTickAfter s t id name sch message channel to n :
  jobs s = [] -> computeNextRun NextTickAfter sch t = Some n ->
  exists w, star (step NextTickAfter never (fun _ _ => True) False) (mkWorld s t Top []) w /\
    lp w = Asleep (t * Millisecond + Hour) /\
    (exists j, jobs (svc w) = [j] /\ ID j = id /\ Message (Payload j) = message /\ Enabled j = true /\ next_of j = Some n) /\
    snd (run_api NextTickAfter never (OAdd id name sch message channel to) t s) = true /\
    forall w', star (step NextTickAfter never (fun _ _ => False) False) w w' ->
      now w' * Millisecond < t * Millisecond + Hour -> fired w' = [] /\ svc w' = svc w.
Proof.
  intros HJ Hn. set (o := OAdd id name sch message channel to). set (D := t * Millisecond + Hour).
  set (s1 := fst (run_api NextTickAfter never o t s)).
  exists (mkWorld s1 t (Asleep D) []). split.
  { eapply star_step; [apply step_arm|]. rewrite HJ. cbn [getNextWakeMS fold_left wake_delay].
    change (t * Millisecond + Z.max 0 Hour) with D.
    eapply star_step; [by apply (step_api _ _ _ _ s t (Armed D) [] o)|].
    eapply star_step; [apply step_select | apply star_refl]. }
  split; [done|]. split.
  { cbn. rewrite HJ. eexists. split; [reflexivity|]. cbn. by rewrite <- Hn. }
  split; [done|]. intros w' Hw Hnow.
  assert (HI : D <= now w' * Millisecond \/ lp w' = Asleep D /\ fired w' = [] /\ svc w' = s1).
  { eapply (star_invariant _ (fun w => D <= now w * Millisecond \/ lp w = Asleep D /\ fired w = [] /\ svc w = s1));
      [| exact Hw | by right].
    intros w1 w2 HI Hstep. destruct Hstep; cbn [lp now fired svc] in *; try done.
    all: destruct HI as [HI | (HI1 & HI2 & HI3)]; [left; unfold Millisecond in *; lia | try done].
    - right. by split_and!.
    - left. injection HI1 as ->. done. }
  destruct HI as [?|(_ & ? & ?)]; [unfold D in *; lia | done].
Qed.

(** ** Other ways to fail *)

(** A job that is disabled while it waits for its turn runs all the same. *)
Lemma disabled_job_fires tick s t id q f j :
  find_job id (jobs s) = Some j ->
  exists w j', star (step tick never (fun _ _ => True) False) (mkWorld s t (Running (id :: q)) f) w /\
    fired w = f ++ [(j', t)] /\ ID j' = id /\ Enabled j' = false.
Proof.
  intros Hf. set (s1 := fst (EnableJob tick never id false t s)).
  assert (HJ : exists j', find_job id (jobs s1) = Some j' /\ ID j' = id /\ Enabled j' = false).
  { unfold s1, EnableJob. rewrite Hf. cbn. revert Hf. unfold find_job. induction (jobs s) as [|x l IH]; cbn; [done|].
    destruct (String.eqb (ID x) id) eqn:E; cbn; [|by rewrite E].
    intros _. rewrite E. eexists. split; [done|]. cbn. by apply String.eqb_eq in E. }
  destruct HJ as (j' & HF & HID & HE).
  eexists _, j'. split; [|split].
  - eapply star_step; [apply (step_api _ _ _ _ _ _ _ _ (OEnable id false)); exact I|].
    eapply star_step; [by apply step_begin | apply star_refl].
  - done.
  - done.
Qed.

(** A one-time job whose time passed while the service was down stays enabled
    for ever and does not run. *)
Lemma missed_job_stays tick fails js k t s' j a :
  Start tick fails t (mkService [] (Doc js) false k) = (s', Ok tt) ->
  j ∈ js -> Kind (Schedule j) = "at" -> AtMS (Schedule j) = Some a -> a <= t -> Enabled j = true ->
  exists j', j' ∈ jobs s' /\ ID j' = ID j /\ Enabled j' = true /\ next_of j' = None.
Proof.
  intros HS Hj Hk Ha Hle He. destruct (Start_cases _ _ _ _ _ HS eq_refl) as (HJ & _ & _). cbn in HJ.
  exists (schedule_next j (computeNextRun tick (Schedule j) t)). split_and!; [| done | done |].
  - rewrite HJ. apply list_elem_of_fmap. exists j. by rewrite He.
  - unfold next_of. cbn. destruct (computeNextRun_at tick _ t Hk) as [-> | (b & Hb & ? & _)]; [done|].
    rewrite Ha in Hb. injection Hb as ->. lia.
Qed.

(** A job whose file could not be written is reported as an error and runs. *)
Lemma failed_add_stays tick fails id name sch m c to t s :
  fails (os_calls s) = true ->
  exists s' job, AddJob tick fails id name sch m c to t s = (s', Err SaveFailed) /\ jobs s' = jobs s ++ [job] /\
    ID job = id /\ Enabled job = true /\ next_of job = computeNextRun tick sch t.
Proof.
  intros Hf. unfold AddJob, bind, set_jobs, saveStoreUnsafe. cbv zeta beta iota. cbn [os_calls]. rewrite Hf.
  by do 2 eexists.
Qed.

(** ** Executions that the theorems apply to *)

Definition no_tick (e : string) (t : Z) : option Z := None.
Definition reminder : CronSchedule := mkSchedule "at" (Some 5000) None "" "".
Definition empty_service : CronService := fst (Start no_tick never 0 (mkService [] Missing false 0)).
Definition add_reminder : api := OAdd "a1" "tea" reminder "tea is ready" "telegram" "1".
Definition with_reminder : CronService := fst (run_api no_tick never add_reminder 0 empty_service).

(** The reminder is added while the loop waits, and its time comes. *)
Lemma reminder_fires :
  exists w, star (step no_tick never no_overwrite True) (mkWorld empty_service 0 Top []) w /\
    map (fun p => (ID (fst p), snd p)) (fired w) = [("a1", 5000)] /\ jobs (svc w) = [].
Proof.
  eexists. split.
  - eapply star_step; [apply step_arm|]. eapply star_step; [apply step_select|].
    eapply star_step; [apply (step_api _ _ _ _ _ _ _ _ add_reminder)|].
    { split; [|split; [|split]]; apply not_elem_of_nil. }
    eapply star_step; [apply step_arm|]. eapply star_step; [apply step_select|].
    eapply star_step; [apply (step_tick _ _ _ _ _ 0 5000); lia|].
    eapply star_step; [apply step_timer; [vm_compute; discriminate | vm_compute; reflexivity]|].
    eapply star_step; [apply step_begin; vm_compute; reflexivity|].
    eapply star_step; [apply (step_finish _ _ _ _ _ _ _ _ _ _ None) | apply star_refl].
  - split; vm_compute; reflexivity.
Qed.

Lemma one_time_jobs_run_once_witness :
  exists w, map (fun p => (ID (fst p), snd p)) (fired w) = [("a1", 5000)] /\
    NoDup (ids (List.filter (fun j => String.eqb (Kind (Schedule j)) "at") (map fst (fired w)))).
Proof.
  destruct reminder_fires as (w & Hw & Hf & _). exists w. split; [exact Hf|].
  apply (one_time_jobs_run_once no_tick never Missing 0%nat 0 empty_service w); [constructor | reflexivity | exact Hw].
Defined.

Lemma crash_keeps_jobs_witness :
  exists s', Start no_tick never 9 (mkService [] (disk with_reminder) false 0) = (s', Ok tt) /\
    jobs s' = recomputeNextRuns no_tick 9 (jobs with_reminder).
Proof.
  eexists. split; [reflexivity|].
  apply (crash_keeps_jobs no_tick Missing 0%nat 0 empty_service (mkWorld with_reminder 0 Top []) _ 9 0%nat); [reflexivity | | reflexivity].
  eapply star_step; [apply (step_api _ _ _ _ empty_service 0 Top [] add_reminder); exact I | apply star_refl].
Defined.

Lemma loop_wakes_in_time_witness : 5000 * Millisecond <= Z.max 5000 0 * Millisecond.
Proof.
  apply (loop_wakes_in_time no_tick Missing 0%nat 0 empty_service
           (mkWorld with_reminder 0 (Asleep (5000 * Millisecond)) []) (5000 * Millisecond)
           (mkJob "a1" "tea" true reminder (mkPayload "agent_turn" "tea is ready" "" "telegram" "1")
              (mkJobState (Some 5000) None "" "") 0 0 true) 5000);
    [discriminate | constructor | lia | reflexivity | | reflexivity | vm_compute; left | reflexivity | reflexivity | vm_compute; discriminate].
  eapply star_step; [apply step_arm|]. eapply star_step; [apply step_select|].
  eapply star_step; [apply (step_api _ _ _ _ _ _ _ _ add_reminder)|].
  { split; [discriminate|]. split; [discriminate | intros a [= <-]; vm_compute; discriminate]. }
  eapply star_step; [apply step_arm|]. eapply star_step; [apply step_select | apply star_refl].
Defined.

Lemma added_job_not_noticed_witness :
  exists w, lp w = Asleep Hour /\ exists j, jobs (svc w) = [j] /\ ID j = "a1" /\ next_of j = Some 5000.
Proof.
  destruct (added_job_not_noticed no_tick empty_service 0 "a1" "tea" reminder "tea is ready" "telegram" "1" 5000)
    as (w & _ & Hl & (j & Hj & Hid & _ & _ & Hn) & _); [reflexivity | reflexivity |].
  exists w. split; [exact Hl|]. exists j. split_and!; assumption.
Defined.
