(* ===== verification/SeahorseStore.v ===== *)
(** * The summary graph: [src/pkg/seahorse/store.go] and [types.go]

    The tables of the store and the transactions on them. A transaction
    happens or fails as a whole; [fails] tells which do. The messages are in
    the order of their identifiers and the context items of a conversation in
    the order of their ordinals, as every query asks for them. What only the
    full-text search reads is left out. *)

From S2P Require Import Prelude Effects GoStrings.

(** ** Data *)

Inductive SummaryKind : Type := SummaryKindLeaf | SummaryKindCondensed.

Record MessagePart : Type := mkPart {
  PartType : string;
  Text : string;
  PartName : string;
  Arguments : string;
  PartToolCallID : string;
  MediaURI : string;
  MimeType : string
}.

Record Message : Type := mkMessage {
  ID : Z;
  ConversationID : Z;
  Role : string;
  Content : string;
  ReasoningContent : string;
  TokenCount : Z;
  CreatedAt : time;
  Parts : list MessagePart
}.

Record Summary : Type := mkSummary {
  SummaryID : string;
  SummaryConversation : Z;
  Kind : SummaryKind;
  Depth : Z;
  SummaryContent : string;
  SummaryTokens : Z;
  EarliestAt : option time;
  LatestAt : option time;
  DescendantCount : Z;
  DescendantTokenCount : Z;
  SourceMessageTokenCount : Z
}.

(** The two types of items. *)
Inductive item : Type := IMessage (id : Z) | ISummary (id : string).

Record ContextItem : Type := mkContextItem { Ordinal : Z; Item : item; ItemTokens : Z }.

#[global] Instance item_eq_dec : EqDecision item.
Proof. solve_decision. Defined.

Record Store : Type := mkStore {
  conversations : gmap string Z;
  next_conversation : Z;
  messages : list Message;
  next_message : Z;
  summaries : gmap string Summary;
  summary_parents : list (string * string);
  summary_messages : list (string * Z);
  context_items : gmap Z (list ContextItem);
  queries : nat
}.

Definition empty_store : Store := mkStore ∅ 1 [] 1 ∅ [] [] ∅ 0.

Inductive db_error : Type := DBError | NotFound | UniqueViolation | CompleteError (text : string).

Abbreviation S := (ST Store db_error).

(** *** Updates of one table *)

Definition set_messages (db : Store) (ms : list Message) (next : Z) : Store :=
  mkStore (conversations db) (next_conversation db) ms next (summaries db) (summary_parents db)
    (summary_messages db) (context_items db) (queries db).
Definition set_sources (db : Store) (l : list (string * Z)) : Store :=
  mkStore (conversations db) (next_conversation db) (messages db) (next_message db) (summaries db)
    (summary_parents db) l (context_items db) (queries db).
Definition set_context (db : Store) (m : gmap Z (list ContextItem)) : Store :=
  mkStore (conversations db) (next_conversation db) (messages db) (next_message db) (summaries db)
    (summary_parents db) (summary_messages db) m (queries db).
Definition tick (db : Store) : Store :=
  mkStore (conversations db) (next_conversation db) (messages db) (next_message db) (summaries db)
    (summary_parents db) (summary_messages db) (context_items db) (Datatypes.S (queries db)).

Definition context_of (db : Store) (convID : Z) : list ContextItem := default [] (context_items db !! convID).
Definition put_context (db : Store) (convID : Z) (l : list ContextItem) : Store :=
  set_context db (<[convID := l]> (context_items db)).

Definition find_message (id : Z) (ms : list Message) : option Message := find_first (fun m => ID m =? id) ms.

Definition OrdinalStep : Z := 100.

(** ** Transactions *)

Section Store.
Context (fails : nat -> bool) (now : nat -> time).

Definition transaction {A} (f : S A) : S A := fun db =>
  if fails (queries db) then (tick db, Err DBError) else f (tick db).

Definition query {A} (f : Store -> A) : S A := transaction (fun db => (db, Ok (f db))).

Definition GetOrCreateConversation (sessionKey : string) : S Z := transaction (fun db =>
  match conversations db !! sessionKey with
  | Some id => (db, Ok id)
  | None =>
      let id := next_conversation db in
      (mkStore (<[sessionKey := id]> (conversations db)) (id + 1) (messages db) (next_message db) (summaries db)
         (summary_parents db) (summary_messages db) (context_items db) (queries db), Ok id)
  end).

(** *** Messages *)

(** The rows of a message; the result has the identifier. *)
Definition insert_message (convID : Z) (role content : string) (parts : list MessagePart) (tokenCount : Z) : S Message :=
  transaction (fun db =>
    let m := mkMessage (next_message db) convID role content "" tokenCount (now (queries db)) parts in
    (set_messages db (messages db ++ [m]) (next_message db + 1), Ok m)).

Definition AddMessage (convID : Z) (role content : string) (tokenCount : Z) : S Message :=
  insert_message convID role content [] tokenCount.

Definition part_text (p : MessagePart) : string :=
  if String.eqb (PartType p) "text" then Text p
  else if String.eqb (PartType p) "tool_use" then "[tool_use: " +:+ PartName p +:+ ", args: " +:+ Arguments p +:+ "]"
  else if String.eqb (PartType p) "tool_result" then
    "[tool_result for " +:+ PartToolCallID p +:+ ": " +:+ Text p +:+ "]"
  else if String.eqb (PartType p) "media" then "[media: " +:+ MediaURI p +:+ " (" +:+ MimeType p +:+ ")]"
  else Text p.

Definition partsToReadableContent (parts : list MessagePart) : string := join nl (map part_text parts).

Definition AddMessageWithParts (convID : Z) (role : string) (parts : list MessagePart) (tokenCount : Z) : S Message :=
  insert_message convID role (partsToReadableContent parts) parts tokenCount.

(** A limit of 0 is none. *)
Definition GetMessages (convID : Z) (limit : nat) (beforeID : Z) : S (list Message) := query (fun db =>
  let ms := List.filter (fun m => (ConversationID m =? convID) && ((beforeID <=? 0) || (ID m <? beforeID))) (messages db) in
  match limit with O => ms | _ => take limit ms end).

Definition GetMessageCount (convID : Z) : S Z :=
  query (fun db => Z.of_nat (length (List.filter (fun m => ConversationID m =? convID) (messages db)))).

Definition GetMessageByID (messageID : Z) : S Message := transaction (fun db =>
  match find_message messageID (messages db) with
  | Some m => (db, Ok m)
  | None => (db, Err NotFound)
  end).

(** Messages and all rows that refer to them; summaries stay. *)
Definition DeleteMessagesAfterID (convID afterID : Z) : S unit := transaction (fun db =>
  let gone := map ID (List.filter (fun m => (ConversationID m =? convID) && (afterID <? ID m)) (messages db)) in
  let keeps (id : Z) := negb (bool_decide (id ∈ gone)) in
  (mkStore (conversations db) (next_conversation db)
     (List.filter (fun m => negb ((ConversationID m =? convID) && (afterID <? ID m))) (messages db)) (next_message db)
     (summaries db) (summary_parents db) (List.filter (fun r => keeps (snd r)) (summary_messages db))
     (List.filter (fun c => match Item c with IMessage id => keeps id | ISummary _ => true end) <$> context_items db)
     (queries db), Ok tt)).

(** *** Summaries *)

Fixpoint hex_digits (fuel : nat) (n : N) (acc : list ascii) : list ascii :=
  match fuel with
  | O => acc
  | Datatypes.S f =>
      let d := (n mod 16)%N in
      let c := ascii_of_N (if (d <? 10)%N then 48 + d else 87 + d)%N in
      if (n <? 16)%N then c :: acc else hex_digits f (n / 16)%N (c :: acc)
  end.

(** Nanoseconds since 1970 in hexadecimal. *)
Definition generateSummaryID (t : time) : string :=
  let n := Z.to_N (t - 62135596800 * Second) in
  "sum_" +:+ implode (hex_digits (Datatypes.S (N.to_nat (N.size n))) n []).

Definition GetSummary (summaryID : string) : S Summary := transaction (fun db =>
  match summaries db !! summaryID with
  | Some s => (db, Ok s)
  | None => (db, Err NotFound)
  end).

(** The identifier comes from the clock; [parents] are the condensed ones. *)
Definition CreateSummary (input : Summary) (parents : list string) : S Summary := transaction (fun db =>
  let id := generateSummaryID (now (queries db)) in
  match summaries db !! id with
  | Some _ => (db, Err UniqueViolation)
  | None =>
      let s := mkSummary id (SummaryConversation input) (Kind input) (Depth input) (SummaryContent input)
                 (SummaryTokens input) (EarliestAt input) (LatestAt input) (DescendantCount input)
                 (DescendantTokenCount input) (SourceMessageTokenCount input) in
      (mkStore (conversations db) (next_conversation db) (messages db) (next_message db) (<[id := s]> (summaries db))
         (summary_parents db ++ map (fun p => (id, p)) parents) (summary_messages db) (context_items db) (queries db),
       Ok s)
  end).

Definition LinkSummaryToMessages (summaryID : string) (messageIDs : list Z) : S unit := transaction (fun db =>
  (set_sources db (fold_left (fun rows id => if bool_decide ((summaryID, id) ∈ rows) then rows else rows ++ [(summaryID, id)])
                     messageIDs (summary_messages db)), Ok tt)).

Definition parents_of (db : Store) (summaryID : string) : list string :=
  omap (fun r => if String.eqb (fst r) summaryID then Some (snd r) else None) (summary_parents db).
Definition sources_of (db : Store) (summaryID : string) : list Z :=
  omap (fun r => if String.eqb (fst r) summaryID then Some (snd r) else None) (summary_messages db).

Definition GetSummaryParents (summaryID : string) : S (list Summary) :=
  query (fun db => omap (fun p => summaries db !! p) (parents_of db summaryID)).

Definition GetSummaryChildren (summaryID : string) : S (list string) := query (fun db =>
  omap (fun r => if String.eqb (snd r) summaryID then Some (fst r) else None) (summary_parents db)).

(** Without their parts. *)
Definition GetSummarySourceMessages (summaryID : string) : S (list Message) := query (fun db =>
  omap (fun id => (fun m => mkMessage (ID m) (ConversationID m) (Role m) (Content m) "" (TokenCount m) (CreatedAt m) [])
                    <$> find_message id (messages db)) (sources_of db summaryID)).

(** *** Context items *)

Definition GetContextItems (convID : Z) : S (list ContextItem) := query (fun db => context_of db convID).

Definition GetContextTokenCount (convID : Z) : S Z :=
  query (fun db => fold_right (fun c n => ItemTokens c + n) 0 (context_of db convID)).

Definition max_ordinal (l : list ContextItem) : Z := fold_left (fun n c => Z.max n (Ordinal c)) l 0.

Definition GetMaxOrdinal (convID : Z) : S Z := query (fun db => max_ordinal (context_of db convID)).

Definition ClearContextItems (convID : Z) : S unit := transaction (fun db => (put_context db convID [], Ok tt)).

Definition resolveItemTokenCount (db : Store) (i : item) : Z :=
  match i with
  | IMessage id => if 0 <? id then match find_message id (messages db) with Some m => TokenCount m | None => 0 end else 0
  | ISummary id => match summaries db !! id with Some s => SummaryTokens s | None => 0 end
  end.

Fixpoint appended (db : Store) (ordinal : Z) (items : list item) : list ContextItem :=
  match items with
  | [] => []
  | i :: items' => mkContextItem ordinal i (resolveItemTokenCount db i) :: appended db (ordinal + OrdinalStep) items'
  end.

Definition appendContextItems (convID : Z) (items : list item) : S unit := transaction (fun db =>
  let l := context_of db convID in
  (put_context db convID (l ++ appended db (max_ordinal l + OrdinalStep) items), Ok tt)).

Definition AppendContextMessages (convID : Z) (messageIDs : list Z) : S unit :=
  appendContextItems convID (map IMessage messageIDs).

(** An insertion keeps the order. *)
Fixpoint insert_item (c : ContextItem) (l : list ContextItem) : list ContextItem :=
  match l with
  | [] => [c]
  | d :: l' => if Ordinal c <? Ordinal d then c :: l else d :: insert_item c l'
  end.

(** [INSERT ... SELECT]: no row when the summary does not exist. *)
Definition summary_item (db : Store) (ordinal : Z) (summaryID : string) : option ContextItem :=
  (fun s => mkContextItem ordinal (ISummary summaryID) (SummaryTokens s)) <$> summaries db !! summaryID.

(** The items are renumbered and the new summary comes after all of them. *)
Fixpoint renumbered (ordinal : Z) (l : list ContextItem) : list ContextItem :=
  match l with
  | [] => []
  | c :: l' => mkContextItem ordinal (Item c) (ItemTokens c) :: renumbered (ordinal + OrdinalStep) l'
  end.
Definition resequenceContextItems (db : Store) (l : list ContextItem) (newSummaryID : string) : list ContextItem :=
  renumbered OrdinalStep l ++ option_list (summary_item db ((Z.of_nat (length l) + 1) * OrdinalStep) newSummaryID).

(** The remaining items with the summary at the midpoint. *)
Definition place_summary (db : Store) (rest : list ContextItem) (midpoint : Z) (summaryID : string) : list ContextItem :=
  if existsb (fun c => Ordinal c =? midpoint) rest then resequenceContextItems db rest summaryID
  else match summary_item db midpoint summaryID with
       | Some c => insert_item c rest
       | None => rest
       end.

Definition ReplaceContextRangeWithSummary (convID startOrdinal endOrdinal : Z) (summaryID : string) : S unit :=
  transaction (fun db =>
    let rest := List.filter (fun c => negb ((startOrdinal <=? Ordinal c) && (Ordinal c <=? endOrdinal))) (context_of db convID) in
    (put_context db convID (place_summary db rest (Z.quot (startOrdinal + endOrdinal) 2) summaryID), Ok tt)).

Definition is_summary_of (ids : list string) (c : ContextItem) : bool :=
  match Item c with ISummary id => bool_decide (id ∈ ids) | IMessage _ => false end.

Definition ReplaceContextItemsWithSummary (convID : Z) (summaryIDs : list string) (newSummaryID : string) : S unit :=
  transaction (fun db =>
    let l := context_of db convID in
    match List.filter (is_summary_of summaryIDs) l with
    | [] => (db, Ok tt)
    | (first :: _) as found =>
        let rest := List.filter (fun c => negb (is_summary_of summaryIDs c)) l in
        let midpoint := Z.quot (Ordinal first + Ordinal (List.last found first)) 2 in
        (put_context db convID (place_summary db rest midpoint newSummaryID), Ok tt)
    end).

(** Without repetition, in order. *)
Definition insert_depth (d : Z) (l : list Z) : list Z :=
  List.filter (fun x => x <? d) l ++ [d] ++ List.filter (fun x => d <? x) l.
Definition GetDistinctDepthsInContext (convID : Z) : S (list Z) := query (fun db =>
  fold_right insert_depth [] (omap (fun c => match Item c with
                                             | ISummary id => Depth <$> summaries db !! id
                                             | IMessage _ => None
                                             end) (context_of db convID))).
End Store.
