(* ===== verification/SeahorseCompact.v ===== *)
(** * Compaction: [src/pkg/seahorse/short_compaction.go]

    Leaf compaction replaces a run of messages of the context by a summary of
    them, condensed compaction replaces summaries by a summary of summaries.
    The model that writes the summaries is a parameter [complete]: what it
    answers may depend on everything, or there is none. *)

From S2P Require Import Prelude Effects GoStrings GoLib.
Import GoFloat.
From S2P Require Import ContextBudget SeahorseStore.

(** ** Constants of [short_constants.go] *)

Definition ContextThreshold : float64 := lit 75 100.
Definition FreshTailCount : nat := 32.
Definition LeafMinFanout : nat := 8.
Definition CondensedMinFanout : nat := 4.
Definition CondensedMinFanoutHard : nat := 2.
Definition LeafChunkTokens : Z := 20000.
Definition LeafTargetTokens : Z := 1200.
Definition CondensedTargetTokens : Z := 2000.
Definition MaxCompactIterations : nat := 20.

(** ** Texts *)

Definition lines (l : list string) : string := join nl l.
Definition quoted (s : string) : string := String (ascii_of_nat 34) s +:+ String (ascii_of_nat 34) "".

(** [tokenizer.EstimateMessageTokens] of a text. *)
Definition text_tokens (content : string) : Z := ContextBudget.EstimateMessageTokens (Message.text_message "" content).

Definition sumMessageTokens (ms : list Message) : Z := fold_right (fun m n => TokenCount m + n) 0 ms.
Definition sumSummaryTokens (ss : list Summary) : Z := fold_right (fun s n => SummaryTokens s + n) 0 ss.

Definition minInt (a b : Z) : Z := if a <? b then a else b.

(** [int(float64(n) * f)] *)
Definition share (n : Z) (f : float64) : Z := float_to_Z (fmul (float_of_Z n) f).

Definition message_text (m : Message) : string :=
  if String.eqb (Content m) "" && (0 <? Z.of_nat (length (Parts m))) then partsToReadableContent (Parts m) else Content m.

(** The first 2048 bytes. *)
Definition cut (s : string) : string := implode (take 2048 (chars s)).

Definition truncateSummary (ms : list Message) : string :=
  cut (String.concat "" (map (fun m => message_text m +:+ nl) ms)) +:+ nl +:+ "[Truncated from "
  +:+ itoa (Z.of_nat (length ms)) +:+ " messages]".

Definition truncateCondensedSummaries (ss : list Summary) : string :=
  cut (String.concat "" (map (fun s => SummaryContent s +:+ nl) ss)) +:+ nl +:+ "[Condensed from "
  +:+ itoa (Z.of_nat (length ss)) +:+ " summaries]".

Definition output_requirements (files : list string) (expand : string) (targetTokens : Z) : list string :=
  ["Output requirements:"; "- Plain text only."; "- No preamble, headings, or markdown formatting."] ++ files
  ++ ["- End with exactly: " +:+ quoted expand +:+ "."; "- Target length: about " +:+ itoa targetTokens +:+ " tokens or less."; ""].

Definition file_requirements : list string :=
  ["- Track file operations (created, modified, deleted, renamed) with file paths and current status.";
   "- If no file operations appear, include exactly: " +:+ quoted "Files: none" +:+ "."].

Definition segment (previousSummary sourceText : string) : list string :=
  ["<previous_context>"; (if String.eqb previousSummary "" then "(none)" else previousSummary); "</previous_context>"; "";
   "<conversation_segment>"; sourceText; "</conversation_segment>"].

Definition buildLeafSummaryPrompt (sourceText previousSummary : string) (targetTokens : Z) : string := lines
  (["You summarize a SEGMENT of a conversation for future model turns.";
    "Treat this as incremental memory compaction input, not a full-conversation summary."; ""; "Normal summary policy:";
    "- Preserve key decisions, rationale, constraints, and active tasks.";
    "- Keep essential technical details needed to continue work safely.";
    "- Remove obvious repetition and conversational filler."; ""]
   ++ output_requirements file_requirements
        "Expand for details about: <comma-separated list of what was dropped or compressed>" targetTokens
   ++ segment previousSummary sourceText).

Definition buildAggressiveLeafSummaryPrompt (sourceText previousSummary : string) (targetTokens : Z) : string := lines
  (["You summarize a SEGMENT of a conversation for future model turns."; "Aggressive summary policy:";
    "- Keep only durable facts and current task state.";
    "- Remove examples, repetition, and low-value narrative details.";
    "- Preserve explicit TODOs, blockers, decisions, and constraints."; ""]
   ++ output_requirements file_requirements
        "Expand for details about: <comma-separated list of what was dropped or compressed>" targetTokens
   ++ segment previousSummary sourceText).

Definition buildCondensedSummaryPrompt (sourceText : string) (targetTokens : Z) : string := lines
  (["You condense multiple summaries into a single higher-level summary.";
    "Preserve all important decisions, constraints, and outcomes.";
    "Merge overlapping topics. Keep technical details intact."; ""]
   ++ output_requirements [] "Expand for details about: <comma-separated list>" targetTokens
   ++ ["<summaries>"; sourceText; "</summaries>"]).

Section Compaction.
Context (fails : nat -> bool) (now : nat -> time).
(** [complete prompt max_tokens zero_temperature] at some moment. *)
Context (complete : option (nat -> string -> Z -> bool -> result string string)).
(** [time.Format] with minutes and the zone, and with the day. *)
Context (minute_stamp day_stamp : time -> string).

Definition formatMessagesForSummary (ms : list Message) : string :=
  String.concat "" (map (fun m => "[" +:+ minute_stamp (CreatedAt m) +:+ "]" +:+ nl +:+ message_text m
                                  +:+ nl +:+ nl) ms).

Definition stamp (t : option time) : string := match t with Some t => day_stamp t | None => "" end.
Definition formatSummariesForCondensation (ss : list Summary) : string :=
  String.concat "" (map (fun s => "[" +:+ stamp (EarliestAt s) +:+ " - " +:+ stamp (LatestAt s) +:+ "]" +:+ nl
                                  +:+ SummaryContent s +:+ nl +:+ nl) ss).

Definition ask (f : nat -> string -> Z -> bool -> result string string) (prompt : string) (maxTokens : Z) (zero : bool) :
    S string := fun db =>
  (db, match f (queries db) prompt maxTokens zero with Ok s => Ok s | Err e => Err (CompleteError e) end).

(** With a second try, at temperature 0, when the answer is empty. *)
Definition ask_twice f (prompt : string) (maxTokens : Z) : S string :=
  let! content := ask f prompt maxTokens false in
  if String.eqb content "" then ask f prompt maxTokens true else ret content.

Definition generateLeafSummary (ms : list Message) (previousSummary : string) : S string :=
  match complete with
  | None => ret (truncateSummary ms)
  | Some f =>
      let sourceText := formatMessagesForSummary ms in
      let inputTokens := sumMessageTokens ms in
      let good content := negb (String.eqb content "") && (text_tokens content <? inputTokens) in
      let targetTokens := minInt LeafTargetTokens (share inputTokens (lit 35 100)) in
      let! content := ask_twice f (buildLeafSummaryPrompt sourceText previousSummary targetTokens) (LeafTargetTokens * 2) in
      if good content then ret content
      else
        let aggressiveTarget := minInt 640 (share inputTokens (lit 20 100)) in
        let! content := ask_twice f (buildAggressiveLeafSummaryPrompt sourceText previousSummary aggressiveTarget)
                          (aggressiveTarget * 2) in
        ret (if good content then content else truncateSummary ms)
  end.

Definition generateCondensedSummary (ss : list Summary) : S string :=
  match complete with
  | None => ret (truncateCondensedSummaries ss)
  | Some f =>
      let sourceText := formatSummariesForCondensation ss in
      let inputTokens := sumSummaryTokens ss in
      let targetTokens := minInt CondensedTargetTokens (share inputTokens (lit 35 100)) in
      let! content := ask_twice f (buildCondensedSummaryPrompt sourceText targetTokens) (CondensedTargetTokens * 2) in
      if negb (String.eqb content "") then ret content
      else
        let aggressiveTarget := minInt 640 (share inputTokens (lit 20 100)) in
        let! content := ask f (buildCondensedSummaryPrompt sourceText aggressiveTarget) (aggressiveTarget * 2) false in
        ret (if negb (String.eqb content "") then content else truncateCondensedSummaries ss)
  end.

(** ** Leaf compaction *)

(** The first run of messages that is long enough: the items before it, and
    the run, which ends as soon as it has tokens enough. *)
Fixpoint find_chunk (before run : list ContextItem) (accum : Z) (items : list ContextItem) :
    list ContextItem * list ContextItem :=
  match items with
  | [] => (before, run)
  | c :: rest =>
      match Item c with
      | IMessage _ =>
          if LeafChunkTokens <=? accum + ItemTokens c then (before, run ++ [c])
          else find_chunk before (run ++ [c]) (accum + ItemTokens c) rest
      | ISummary _ =>
          if (LeafMinFanout <=? length run)%nat then (before, run)
          else find_chunk (before ++ run ++ [c]) [] 0 rest
      end
  end.

Fixpoint load_messages (chunk : list ContextItem) : S (list Message) :=
  match chunk with
  | [] => ret []
  | c :: rest =>
      let! m := GetMessageByID fails (match Item c with IMessage id => id | ISummary _ => 0 end) in
      let! ms := load_messages rest in
      ret (m :: ms)
  end.

(** The two summaries closest to the chunk, read from there backwards. *)
Fixpoint prior_summary (n : nat) (prior : string) (before : list ContextItem) : S string :=
  match n, before with
  | O, _ | _, [] => ret prior
  | Datatypes.S n', c :: rest =>
      match Item c with
      | IMessage _ => prior_summary n prior rest
      | ISummary id =>
          let! r := try (GetSummary fails id) in
          match r with
          | Ok s => prior_summary n' (SummaryContent s +:+ nl +:+ prior) rest
          | Err _ => prior_summary n prior rest
          end
      end
  end.

Definition is_message (c : ContextItem) : bool := match Item c with IMessage _ => true | ISummary _ => false end.

(** The chunk that would be compacted, if any, and what is before it. *)
Definition leaf_chunk (force : bool) (items : list ContextItem) : option (list ContextItem * list ContextItem) :=
  let msgs := List.filter is_message items in
  if (length msgs <? LeafMinFanout)%nat && (fold_right (fun c n => ItemTokens c + n) 0 msgs <? LeafChunkTokens) then None
  else
    let tailStart := if force then length items else (length items - FreshTailCount)%nat in
    let '(before, chunk) := find_chunk [] [] 0 (take tailStart items) in
    if (length chunk <? LeafMinFanout)%nat then None else Some (before, chunk).

(** Everything before the context is changed: the summary and its range. *)
Definition leaf_plan (convID : Z) (force : bool) : S (option (string * Z * Z)) :=
  let! items := GetContextItems fails convID in
  match leaf_chunk force items with
  | None | Some (_, []) => ret None
  | Some (before, (first :: _) as chunk) =>
      let! ms := load_messages chunk in
      let! prior := prior_summary 2 "" (rev before) in
      let! content := generateLeafSummary ms prior in
      let! s := CreateSummary fails now
        (mkSummary "" convID SummaryKindLeaf 0 content (text_tokens content) (CreatedAt <$> head ms)
           (CreatedAt <$> last ms) 0 0 (sumMessageTokens ms)) [] in
      let! _ := LinkSummaryToMessages fails (SummaryID s) (map ID ms) in
      ret (Some (SummaryID s, Ordinal first, Ordinal (List.last chunk first)))
  end.

Definition compactLeaf (convID : Z) (force : bool) : S (option string) :=
  let! plan := leaf_plan convID force in
  match plan with
  | None => ret None
  | Some (id, startOrdinal, endOrdinal) =>
      let! _ := ReplaceContextRangeWithSummary fails convID startOrdinal endOrdinal id in ret (Some id)
  end.

(** ** Condensed compaction *)

Fixpoint collect_at_depth (targetDepth accum : Z) (items : list ContextItem) : S (list Summary * Z) :=
  match items with
  | [] => ret ([], accum)
  | c :: rest =>
      match Item c with
      | IMessage _ => ret ([], accum)
      | ISummary id =>
          let! r := try (GetSummary fails id) in
          match r with
          | Err _ => ret ([], accum)
          | Ok s =>
              if negb (Depth s =? targetDepth) || (LeafChunkTokens <? accum + SummaryTokens s) then ret ([], accum)
              else
                let! p := collect_at_depth targetDepth (accum + SummaryTokens s) rest in
                ret (s :: fst p, snd p)
          end
      end
  end.

Definition before_tail (items : list ContextItem) : list ContextItem := take (length items - FreshTailCount) items.

Definition selectOldestChunkAtDepth (convID targetDepth : Z) : S (list Summary) :=
  let! items := GetContextItems fails convID in
  let! p := collect_at_depth targetDepth 0 (before_tail items) in
  ret (if snd p <? CondensedTargetTokens then [] else fst p).

(** The depths in turn, until one gives candidates. *)
Fixpoint oldest_candidates (convID : Z) (depths : list Z) : S (list Summary) :=
  match depths with
  | [] => ret []
  | d :: rest =>
      let! r := try (selectOldestChunkAtDepth convID d) in
      match r with
      | Ok ((_ :: _) as chunk) => ret chunk
      | _ => oldest_candidates convID rest
      end
  end.

(** The summaries that can be read. *)
Fixpoint load_summaries (ids : list string) : S (list Summary) :=
  match ids with
  | [] => ret []
  | id :: rest =>
      let! r := try (GetSummary fails id) in
      let! ss := load_summaries rest in
      ret (match r with Ok s => s :: ss | Err _ => ss end)
  end.

Definition summary_ids (items : list ContextItem) : list string :=
  omap (fun c => match Item c with ISummary id => Some id | IMessage _ => None end) items.

Definition selectShallowestCondensationCandidate (convID : Z) (forced : bool) : S (list Summary) :=
  let! items := GetContextItems fails convID in
  let! found := load_summaries (summary_ids (before_tail items)) in
  let minFanout := if forced then CondensedMinFanoutHard else CondensedMinFanout in
  let group d := List.filter (fun s => Depth s =? d) found in
  match find_first (fun d => (minFanout <=? length (group d))%nat) (fold_right insert_depth [] (map Depth found)) with
  | Some d => load_summaries (map SummaryID (take minFanout (group d)))
  | None => ret []
  end.

(** The range of the candidates, and whether something else lies in it. *)
Fixpoint candidate_range (all : list ContextItem) (is_candidate : ContextItem -> bool) (range : option (Z * Z))
    (l : list ContextItem) : option (Z * Z) * bool :=
  match l with
  | [] => (range, false)
  | c :: rest =>
      if is_candidate c then
        match range with
        | None => candidate_range all is_candidate (Some (Ordinal c, Ordinal c)) rest
        | Some (s, e) =>
            if existsb (fun it => (e <? Ordinal it) && (Ordinal it <=? Ordinal c) && negb (is_candidate it)) all
            then (range, true)
            else candidate_range all is_candidate (Some (Z.min s (Ordinal c), Z.max e (Ordinal c))) rest
        end
      else candidate_range all is_candidate range rest
  end.

Definition min_time (a b : option time) : option time :=
  match a, b with Some x, Some y => Some (if x <? y then x else y) | None, y => y | x, None => x end.
Definition max_time (a b : option time) : option time :=
  match a, b with Some x, Some y => Some (if y <? x then x else y) | None, y => y | x, None => x end.

Definition merged (convID : Z) (content : string) (candidates : list Summary) : Summary :=
  mkSummary "" convID SummaryKindCondensed (fold_left (fun d c => Z.max d (Depth c)) candidates 0 + 1) content
    (text_tokens content)
    (fold_left (fun t c => min_time (EarliestAt c) t) candidates None)
    (fold_left (fun t c => max_time (LatestAt c) t) candidates None)
    (fold_right (fun c n => DescendantCount c + 1 + n) 0 candidates)
    (fold_right (fun c n => SummaryTokens c + DescendantTokenCount c + n) 0 candidates)
    (fold_right (fun c n => SourceMessageTokenCount c + n) 0 candidates).

Definition condensed_candidates (convID : Z) : S (list Summary) :=
  let! depths := GetDistinctDepthsInContext fails convID in
  let! oldest := oldest_candidates convID depths in
  match oldest with
  | [] => selectShallowestCondensationCandidate convID false
  | _ => ret oldest
  end.

(** The new summary in place of the candidates. *)
Definition place_condensed (convID : Z) (ids : list string) (id : string) : S (option string) :=
  let! items := GetContextItems fails convID in
  match candidate_range items (is_summary_of ids) None items with
  | (None, _) => ret None
  | (Some _, true) => let! _ := ReplaceContextItemsWithSummary fails convID ids id in ret (Some id)
  | (Some (s, e), false) => let! _ := ReplaceContextRangeWithSummary fails convID s e id in ret (Some id)
  end.

Definition compactCondensed (convID : Z) : S (option string) :=
  let! candidates := condensed_candidates convID in
  match candidates with
  | [] => ret None
  | _ =>
      let! content := generateCondensedSummary candidates in
      let ids := map SummaryID candidates in
      let! s := CreateSummary fails now (merged convID content candidates) ids in
      place_condensed convID ids (SummaryID s)
  end.

(** ** Compaction *)

Definition NeedsCompaction (convID contextWindow : Z) : S bool :=
  let! tokens := GetContextTokenCount fails convID in
  ret (share contextWindow ContextThreshold <=? tokens).

Record CompactResult : Type := mkResult {
  SummariesCreated : list string;
  TokensSaved : Z;
  LeafSummaries : Z;
  CondensedSummaries : Z
}.

(** An error counts as no tokens. *)
Definition tokens_or_zero (convID : Z) : S Z :=
  let! r := try (GetContextTokenCount fails convID) in ret (match r with Ok n => n | Err _ => 0 end).

(** The result, and whether the loop of condensed compaction is started. *)
Definition Compact (convID : Z) (budget : option Z) (force : bool) : S (CompactResult * bool) :=
  let! id := compactLeaf convID false in
  let! tokensBefore := tokens_or_zero convID in
  let budget := match budget with Some b => b | None => share tokensBefore ContextThreshold end in
  let launch := force || ((budget <? tokensBefore) && (0 <? budget)) in
  let! tokensAfter := tokens_or_zero convID in
  ret (mkResult (option_list id) (if tokensAfter <? tokensBefore then tokensBefore - tokensAfter else 0)
         (match id with Some _ => 1 | None => 0 end) 0, launch).

Fixpoint until_under (iterations : nat) (convID budget prevTokens : Z) (r : CompactResult) : S CompactResult :=
  match iterations with
  | O => ret r
  | Datatypes.S n =>
      let! tokens := GetContextTokenCount fails convID in
      if tokens <=? budget then ret r
      else
        let! leaf := compactLeaf convID true in
        match leaf with
        | Some id =>
            until_under n convID budget prevTokens
              (mkResult (SummariesCreated r ++ [id]) (TokensSaved r) (LeafSummaries r + 1) (CondensedSummaries r))
        | None =>
            let! condensed := compactCondensed convID in
            match condensed with
            | Some id =>
                until_under n convID budget prevTokens
                  (mkResult (SummariesCreated r ++ [id]) (TokensSaved r) (LeafSummaries r) (CondensedSummaries r + 1))
            | None =>
                let! newTokens := tokens_or_zero convID in
                if prevTokens <=? newTokens then ret r else until_under n convID budget newTokens r
            end
        end
  end.

Definition CompactUntilUnder (convID budget : Z) : S CompactResult :=
  until_under MaxCompactIterations convID budget 0 (mkResult [] 0 0 0).

(** The loop of the goroutine; [None] when the fuel was not enough. *)
Fixpoint runCondensedLoop (fuel : nat) (convID prevTokens : Z) : S (option unit) :=
  match fuel with
  | O => ret None
  | Datatypes.S fuel' =>
      let! before := try (GetContextTokenCount fails convID) in
      match before with
      | Err _ => ret (Some tt)
      | Ok tokensBefore =>
          let! r := try (compactCondensed convID) in
          match r with
          | Err _ | Ok None => ret (Some tt)
          | Ok (Some _) =>
              let! tokensAfter := tokens_or_zero convID in
              if (tokensBefore <=? tokensAfter) || ((prevTokens <=? tokensAfter) && (0 <? prevTokens)) then ret (Some tt)
              else runCondensedLoop fuel' convID tokensAfter
          end
      end
  end.
End Compaction.
