(* ===== verification/SeahorseCover.v ===== *)
(** * What the context covers

    Every message of a conversation is in the context or behind a summary of
    it: compaction, whatever the model answers and whichever transactions
    fail, loses none and adds none. *)

From S2P Require Import Prelude Effects GoStrings SeahorseStore SeahorseCompact.
From stdpp Require Import sorting.

#[local] Open Scope Z_scope.

(** ** The messages behind a summary *)

(** A summary stands for its source messages and for what its parents stand
    for; parents are less deep. *)
Fixpoint expand (n : nat) (db : Store) (id : string) : list Z :=
  match n with
  | O => []
  | Datatypes.S n' => sources_of db id ++ flat_map (expand n' db) (parents_of db id)
  end.

Definition rank (db : Store) (id : string) : nat :=
  match summaries db !! id with Some s => Datatypes.S (Z.to_nat (Depth s)) | None => O end.

Definition covered (db : Store) (id : string) : list Z := expand (rank db id) db id.

Definition item_cover (db : Store) (i : item) : list Z :=
  match i with IMessage id => [id] | ISummary id => covered db id end.

Definition items_cover (db : Store) (l : list item) : list Z := flat_map (item_cover db) l.

(** The messages that the context of a conversation stands for, in order. *)
Definition cover (db : Store) (convID : Z) : list Z := items_cover db (map Item (context_of db convID)).

(** ** Well-formed stores *)

Definition ordered (l : list ContextItem) : Prop := StronglySorted (fun a b => Ordinal a < Ordinal b) l.

Definition known (db : Store) (id : string) : Prop := is_Some (summaries db !! id).

Record wf_context (db : Store) (l : list ContextItem) : Prop := {
  wf_ordered : ordered l;
  wf_positive : Forall (fun c => 0 < Ordinal c) l;
  wf_once : NoDup (map Item l);
  wf_known : forall c id, c ∈ l -> Item c = ISummary id -> known db id
}.

Record wf (db : Store) : Prop := {
  wf_contexts : forall convID, wf_context db (context_of db convID);
  wf_keys : forall id s, summaries db !! id = Some s -> SummaryID s = id /\ 0 <= Depth s;
  wf_parents : forall id p, (id, p) ∈ summary_parents db ->
    exists s sp, summaries db !! id = Some s /\ summaries db !! p = Some sp /\ Depth sp < Depth s;
  wf_sources : forall id m, (id, m) ∈ summary_messages db -> known db id
}.

(** A store with more summaries; those that were there are the same. *)
Definition grows (db db' : Store) : Prop :=
  forall id, known db id -> summaries db' !! id = summaries db !! id /\
    sources_of db' id = sources_of db id /\ parents_of db' id = parents_of db id.

#[export] Instance grows_preorder : PreOrder grows.
Proof.
  split; [by intros db id|]. intros d1 d2 d3 H1 H2 id Hk. destruct (H1 id Hk) as (E1 & E2 & E3).
  destruct (H2 id) as (F1 & F2 & F3); [unfold known in *; by rewrite E1|]. split_and!; congruence.
Qed.

Lemma elem_of_rows_parents db id p : p ∈ parents_of db id <-> (id, p) ∈ summary_parents db.
Proof.
  unfold parents_of. rewrite list_elem_of_omap. split.
  - intros ([a b] & Hin & E). cbn in E. destruct (String.eqb_spec a id) as [->|]; [|done]. by injection E as ->.
  - intros Hin. exists (id, p). split; [done|]. cbn. by rewrite String.eqb_refl.
Qed.

Lemma elem_of_rows_sources db id m : m ∈ sources_of db id <-> (id, m) ∈ summary_messages db.
Proof.
  unfold sources_of. rewrite list_elem_of_omap. split.
  - intros ([a b] & Hin & E). cbn in E. destruct (String.eqb_spec a id) as [->|]; [|done]. by injection E as ->.
  - intros Hin. exists (id, m). split; [done|]. cbn. by rewrite String.eqb_refl.
Qed.

Lemma parent_rank db id s p :
  wf db -> summaries db !! id = Some s -> p ∈ parents_of db id -> known db p /\ (rank db p <= Z.to_nat (Depth s))%nat.
Proof.
  intros HW Hs Hp%elem_of_rows_parents. destruct (wf_parents db HW id p Hp) as (s' & sp & Hs' & Hsp & Hd).
  split; [by eexists|]. unfold rank. rewrite Hsp. rewrite Hs in Hs'. injection Hs' as <-.
  destruct (wf_keys db HW p sp Hsp) as [_ ?]. lia.
Qed.

(** What a summary stands for needs no more than its depth, and later
    summaries do not change it. *)
Lemma expand_stable db db' n k id :
  wf db -> grows db db' -> known db id -> (rank db id <= n)%nat -> (rank db id <= k)%nat ->
  expand n db' id = expand k db id.
Proof.
  intros HW HG. revert k id; induction n as [|n IH]; intros k id Hk Hn Hm; destruct (Hk) as [s Hs];
    unfold rank in Hn, Hm; rewrite Hs in Hn, Hm; [lia|]. destruct k as [|k]; [lia|].
  destruct (HG id Hk) as (E1 & E2 & E3). cbn [expand]. rewrite E2, E3. f_equal.
  pose proof (fun p => parent_rank db id s p HW Hs) as HP. revert HP. generalize (parents_of db id).
  intros l. induction l as [|p l IHl]; intros HP; [done|]. cbn [flat_map].
  destruct (HP p) as [Hkp Hrp]; [by left|]. rewrite IHl by (intros q Hq; apply HP; by right). f_equal.
  apply IH; [done | lia | lia].
Qed.

Lemma covered_stable db db' id : wf db -> grows db db' -> known db id -> covered db' id = covered db id.
Proof.
  intros HW HG Hk. apply expand_stable; [done | done | done | | done]. unfold rank.
  by destruct (HG id Hk) as (-> & _ & _).
Qed.

Lemma cover_stable db db' l :
  wf db -> grows db db' -> (forall id, ISummary id ∈ l -> known db id) -> items_cover db' l = items_cover db l.
Proof.
  intros HW HG. unfold items_cover. induction l as [|i l IH]; intros Hl; [done|]. cbn [flat_map].
  rewrite IH by (intros id Hid; apply Hl; by right). f_equal.
  destruct i as [m|id]; [done|]. cbn. apply covered_stable; [done | done | apply Hl; by left].
Qed.

Lemma items_cover_app db l1 l2 : items_cover db (l1 ++ l2) = items_cover db l1 ++ items_cover db l2.
Proof. unfold items_cover. by rewrite flat_map_app. Qed.

Lemma items_cover_perm db l1 l2 : l1 ≡ₚ l2 -> items_cover db l1 ≡ₚ items_cover db l2.
Proof. intros H. unfold items_cover. by rewrite H. Qed.

#[export] Instance items_cover_proper db : Proper ((≡ₚ) ==> (≡ₚ)) (items_cover db).
Proof. intros l1 l2. apply items_cover_perm. Qed.

Lemma items_cover_messages db l : items_cover db (map IMessage l) = l.
Proof. unfold items_cover. induction l as [|m l IH]; cbn; [done | by rewrite IH]. Qed.

Lemma cover_known db convID id : wf db -> ISummary id ∈ map Item (context_of db convID) -> known db id.
Proof.
  intros HW Hin. apply list_elem_of_fmap in Hin as (c & Hc & Hin). eapply wf_known; [apply HW | exact Hin | done].
Qed.

(** ** Ordered lists of items *)

Lemma ordered_app l1 l2 :
  ordered (l1 ++ l2) <-> ordered l1 /\ ordered l2 /\ forall a b, a ∈ l1 -> b ∈ l2 -> Ordinal a < Ordinal b.
Proof.
  unfold ordered. induction l1 as [|c l1 IH]; cbn.
  - split; [intros H; split_and!; [constructor | done | intros a b Ha; by apply not_elem_of_nil in Ha] | tauto].
  - split.
    + intros [H1 H2]%StronglySorted_inv. apply IH in H1 as (F1 & F2 & F3). rewrite Forall_app in H2. destruct H2 as [G1 G2].
      split_and!; [by constructor | done |]. intros a b [->|Ha]%elem_of_cons Hb; [|auto].
      rewrite Forall_forall in G2. auto.
    + intros ([F1 G1]%StronglySorted_inv & F2 & F3). constructor.
      * apply IH. split_and!; [done | done |]. intros a b Ha Hb. apply F3; [by right | done].
      * rewrite Forall_app. split; [done|]. rewrite Forall_forall. intros b Hb. apply F3; [by left | done].
Qed.

Lemma insert_item_between c l1 l2 :
  (forall a, a ∈ l1 -> Ordinal a < Ordinal c) -> (forall b, b ∈ l2 -> Ordinal c < Ordinal b) ->
  insert_item c (l1 ++ l2) = l1 ++ c :: l2.
Proof.
  intros H1 H2. induction l1 as [|a l1 IH]; cbn.
  - destruct l2 as [|b l2]; [done|]. cbn. specialize (H2 b ltac:(by left)). by rewrite (proj2 (Z.ltb_lt _ _) H2).
  - specialize (H1 a ltac:(by left)) as Ha. rewrite (proj2 (Z.ltb_ge _ _)) by lia. rewrite IH; [done|].
    intros x Hx. apply H1. by right.
Qed.

Lemma insert_item_perm c l : insert_item c l ≡ₚ c :: l.
Proof.
  induction l as [|d l IH]; cbn; [done|]. destruct (Ordinal c <? Ordinal d); [done|]. rewrite IH. constructor.
Qed.

Lemma insert_item_ordered c l :
  ordered l -> (forall d, d ∈ l -> Ordinal d <> Ordinal c) -> ordered (insert_item c l).
Proof.
  induction l as [|d l IH]; cbn; intros HO Hne; [by repeat constructor|].
  apply StronglySorted_inv in HO as [HO HF]. rewrite Forall_forall in HF.
  specialize (Hne d ltac:(by left)) as Hd. destruct (Z.ltb_spec (Ordinal c) (Ordinal d)).
  - constructor; [constructor; [done | by apply Forall_forall]|]. constructor; [done|].
    apply Forall_forall. intros x Hx. specialize (HF x Hx). lia.
  - constructor.
    + apply IH; [done|]. intros x Hx. apply Hne. by right.
    + apply Forall_forall. intros x Hx. rewrite insert_item_perm in Hx. apply elem_of_cons in Hx as [->|Hx]; [lia | auto].
Qed.

Lemma renumbered_items o l : map Item (renumbered o l) = map Item l.
Proof. revert o; induction l as [|c l IH]; intros o; cbn; [done | by rewrite IH]. Qed.

Lemma renumbered_ordered o l :
  ordered (renumbered o l) /\ forall c, c ∈ renumbered o l -> o <= Ordinal c < o + Z.of_nat (length l) * OrdinalStep.
Proof.
  revert o; induction l as [|c l IH]; intros o; cbn [renumbered length].
  { split; [constructor | intros c Hc; by apply not_elem_of_nil in Hc]. }
  destruct (IH (o + OrdinalStep)) as [H1 H2]. unfold OrdinalStep in *. split.
  - constructor; [done|]. apply Forall_forall. intros x Hx. specialize (H2 x Hx). cbn. lia.
  - intros x [->|Hx]%elem_of_cons; [cbn; lia|]. specialize (H2 x Hx). lia.
Qed.

(** The summary is placed once, whether its midpoint is taken or not. *)
Lemma place_summary_perm db rest midpoint id :
  known db id -> map Item (place_summary db rest midpoint id) ≡ₚ ISummary id :: map Item rest.
Proof.
  intros [s Hs]. unfold place_summary, resequenceContextItems, summary_item. rewrite Hs. cbn [fmap option_fmap option_map].
  destruct (existsb _ rest).
  - cbn [option_list]. rewrite map_app, renumbered_items. cbn. by rewrite Permutation_app_comm.
  - by rewrite (Permutation_map Item (insert_item_perm _ _)).
Qed.

Lemma place_summary_ordered db rest midpoint id :
  ordered rest -> Forall (fun c => 0 < Ordinal c) rest -> 0 < midpoint ->
  ordered (place_summary db rest midpoint id) /\ Forall (fun c => 0 < Ordinal c) (place_summary db rest midpoint id).
Proof.
  intros HO HP Hm. unfold place_summary. destruct (existsb _ rest) eqn:Ex.
  - unfold resequenceContextItems. destruct (renumbered_ordered OrdinalStep rest) as [H1 H2].
    assert (Hi : forall c, c ∈ option_list (summary_item db ((Z.of_nat (length rest) + 1) * OrdinalStep) id) ->
                   Ordinal c = (Z.of_nat (length rest) + 1) * OrdinalStep).
    { unfold summary_item. destruct (summaries db !! id); cbn; intros c Hc; [|by apply not_elem_of_nil in Hc].
      by apply list_elem_of_singleton in Hc as ->. }
    split.
    + apply ordered_app. split_and!; [done | |].
      * unfold summary_item. destruct (summaries db !! id); repeat constructor.
      * intros a b Ha Hb. specialize (H2 a Ha). rewrite (Hi b Hb). unfold OrdinalStep in *. lia.
    + apply Forall_app. split; apply Forall_forall; intros c Hc.
      * specialize (H2 c Hc). unfold OrdinalStep in *. lia.
      * rewrite (Hi c Hc). unfold OrdinalStep. lia.
  - unfold summary_item. destruct (summaries db !! id) as [s|]; [|done]. cbn [fmap option_fmap option_map]. split.
    + apply insert_item_ordered; [done|]. intros d Hd E. cbn in E.
      assert (Ht : existsb (fun c => Ordinal c =? midpoint) rest = true); [|congruence].
      apply existsb_exists. exists d. split; [by apply list_elem_of_In | by apply Z.eqb_eq].
    + rewrite insert_item_perm. by constructor.
Qed.

(** ** Runs that keep what the contexts cover *)

(** The same tables, at a later query. *)
Definition same (db db' : Store) : Prop := exists n, db' =
  mkStore (conversations db) (next_conversation db) (messages db) (next_message db) (summaries db)
    (summary_parents db) (summary_messages db) (context_items db) n.

#[export] Instance same_preorder : PreOrder same.
Proof.
  split; [intros []; by eexists|]. intros d1 d2 d3 [n ->] [k ->]. by exists k.
Qed.

Lemma same_tick db : same db (tick db).
Proof. by eexists. Qed.

(** [eqv] says how much of the order of the covered messages is kept. *)
Record kept (eqv : relation (list Z)) (db db' : Store) : Prop := {
  kept_wf : wf db';
  kept_grows : grows db db';
  kept_messages : messages db' = messages db;
  kept_next : next_message db' = next_message db;
  kept_conversations : conversations db' = conversations db;
  kept_cover : forall convID, eqv (cover db' convID) (cover db convID)
}.

Definition conserves (eqv : relation (list Z)) (db db' : Store) : Prop := wf db -> kept eqv db db'.

#[export] Instance conserves_preorder eqv `{!PreOrder eqv} : PreOrder (conserves eqv).
Proof.
  split; [intros db HW; by split|]. intros d1 d2 d3 H1 H2 HW. destruct (H1 HW) as [W1 G1 M1 N1 C1 K1].
  destruct (H2 W1) as [W2 G2 M2 N2 C2 K2]. split; [done | by transitivity d2 | congruence.. |].
  intros c. by transitivity (cover d2 c).
Qed.

Lemma wf_same db db' : same db db' -> wf db -> wf db'.
Proof. intros [n ->] [H1 H2 H3 H4]. split; [|exact H2 | exact H3 | exact H4]. intros c. destruct (H1 c). by split. Qed.

(** What a summary stands for depends on three tables. *)
Definition graph (db : Store) := (summaries db, summary_parents db, summary_messages db).

Lemma expand_graph n db db' id : graph db' = graph db -> expand n db' id = expand n db id.
Proof.
  intros [= E1 E2 E3]. revert id; induction n as [|n IH]; intros id; [done|]. cbn [expand]. unfold sources_of, parents_of.
  rewrite E2, E3. f_equal. apply flat_map_ext. exact IH.
Qed.

Lemma covered_graph db db' id : graph db' = graph db -> covered db' id = covered db id.
Proof. intros E. unfold covered. rewrite (expand_graph _ _ _ _ E). unfold rank. by injection E as -> _ _. Qed.

Lemma items_cover_graph db db' l : graph db' = graph db -> items_cover db' l = items_cover db l.
Proof. intros E. apply flat_map_ext. intros [m|id]; cbn; [done | by apply covered_graph]. Qed.

Lemma cover_same db db' convID : same db db' -> cover db' convID = cover db convID.
Proof. intros [n ->]. unfold cover. by apply items_cover_graph. Qed.

(** A new context of one conversation. *)
Lemma put_context_kept eqv db convID l `{!PreOrder eqv} :
  wf db -> wf_context db l -> eqv (items_cover db (map Item l)) (cover db convID) -> kept eqv db (put_context db convID l).
Proof.
  intros [W1 W2 W3 W4] Hl HE.
  assert (Hc : forall c, context_of (put_context db convID l) c = if decide (c = convID) then l else context_of db c).
  { intros c. unfold context_of. cbn. destruct (decide _) as [->|]; [by rewrite lookup_insert_eq | by rewrite lookup_insert_ne]. }
  split; [split; [| exact W2 | exact W3 | exact W4] | done | done | done | done |].
  - intros c. rewrite Hc. by destruct (decide _); [destruct Hl | destruct (W1 c)]; split.
  - intros c. unfold cover at 1. rewrite Hc, (items_cover_graph db) by done. destruct (decide _) as [->|]; done.
Qed.

Lemma same_conserves eqv db db' `{!Reflexive eqv} : same db db' -> conserves eqv db db'.
Proof.
  intros Hs HW. split; [by eapply wf_same | | | | |]; try (by destruct Hs as [? ->]).
  intros c. by rewrite (cover_same _ _ _ Hs).
Qed.

Lemma keeps_weaken {A} (R R' : relation Store) (m : S A) :
  (forall d d', R d d' -> R' d d') -> keeps R m -> keeps R' m.
Proof. intros H Hm w w' r E. eapply H, Hm, E. Qed.

Lemma transaction_inv {A} fails (f : S A) db db' r :
  transaction fails f db = (db', r) -> (db' = tick db /\ r = Err DBError) \/ f (tick db) = (db', r).
Proof. unfold transaction. destruct (fails _); [intros [= <- <-]; by left | by right]. Qed.

Lemma keeps_reads {A} fails (f : S A) : (forall db, (f db).1 = db) -> keeps same (transaction fails f).
Proof.
  intros Hf db db' r [[-> _]|E]%transaction_inv; [apply same_tick|]. specialize (Hf (tick db)). rewrite E in Hf.
  cbn in Hf. subst. apply same_tick.
Qed.

(** ** New summaries *)

Lemma omap_snd_none {A} (id : string) (l : list (string * A)) :
  (forall r, r ∈ l -> fst r <> id) -> omap (fun r => if String.eqb (fst r) id then Some (snd r) else None) l = [].
Proof.
  induction l as [|r l IH]; intros H; [done|]. cbn. destruct (String.eqb_spec (fst r) id) as [E|_].
  - by destruct (H r ltac:(by left)).
  - apply IH. intros q Hq. apply H. by right.
Qed.

Lemma omap_snd_all {A} (id : string) (l : list A) :
  omap (fun r => if String.eqb (fst r) id then Some (snd r) else None) (map (fun p => (id, p)) l) = l.
Proof. induction l as [|p l IH]; [done|]. cbn. by rewrite String.eqb_refl, IH. Qed.

Definition new_parents (db : Store) (d : Z) (parents : list string) : Prop :=
  Forall (fun p => exists sp, summaries db !! p = Some sp /\ Depth sp < d) parents.

(** What a summary is like when it has just been created. *)
Record created (db db' : Store) (input s : Summary) (parents : list string) : Prop := {
  created_fresh : ~ known db (SummaryID s);
  created_there : summaries db' !! SummaryID s = Some s;
  created_depth : Depth s = Depth input;
  created_parents : parents_of db' (SummaryID s) = parents;
  created_sources : sources_of db' (SummaryID s) = [];
  created_contexts : context_items db' = context_items db
}.

Lemma fresh_rows db id :
  wf db -> summaries db !! id = None -> parents_of db id = [] /\ sources_of db id = [].
Proof.
  intros HW Hn. split; apply omap_snd_none; intros [a b] Hin E; cbn in E; subst a.
  - destruct (wf_parents db HW id b Hin) as (s & _ & Hs & _). congruence.
  - destruct (wf_sources db HW id b Hin) as [s Hs]. congruence.
Qed.

(** A store with one more summary that nothing refers to. *)
Lemma wf_new_summary db id s parents :
  wf db -> summaries db !! id = None -> SummaryID s = id -> 0 <= Depth s -> new_parents db (Depth s) parents ->
  forall n, kept eq db (mkStore (conversations db) (next_conversation db) (messages db) (next_message db)
    (<[id := s]> (summaries db)) (summary_parents db ++ map (fun p => (id, p)) parents) (summary_messages db)
    (context_items db) n).
Proof.
  intros HW Hn Hid Hd HP n. set (db' := mkStore _ _ _ _ _ _ _ _ _).
  assert (HL : forall i, known db i -> summaries db' !! i = summaries db !! i).
  { intros i [si Hi]. subst db'; cbn. by rewrite lookup_insert_ne by congruence. }
  assert (HG : grows db db').
  { intros i Hk. split_and!; [by apply HL | done |]. unfold parents_of. subst db'; cbn. rewrite omap_app.
    rewrite (omap_snd_none i (map _ _)), app_nil_r; [done|]. intros r (p & -> & _)%list_elem_of_fmap. cbn.
    intros ->. destruct Hk as [si Hi]. congruence. }
  split; [| exact HG | done | done | done |].
  - split.
    + intros c. destruct (wf_contexts db HW c) as [H1 H2 H3 H4]. split; [done | done | done |].
      intros x i Hx Hi. specialize (H4 x i Hx Hi). unfold known. by rewrite (HL i H4).
    + intros i si Hi. subst db'; cbn in Hi. apply lookup_insert_Some in Hi as [[-> ->]|[_ Hi]]; [done|].
      by apply (wf_keys db HW).
    + intros i p Hin. subst db'; cbn in Hin. apply elem_of_app in Hin as [Hin|Hin].
      * destruct (wf_parents db HW i p Hin) as (si & sp & Hi & Hp & Hlt). exists si, sp.
        rewrite !HL by (by eexists). done.
      * apply list_elem_of_fmap in Hin as (q & E & Hq). injection E as -> ->. apply (proj1 (Forall_forall _ _) HP) in Hq as (sp & Hp & Hlt).
        exists s, sp. split_and!; [apply lookup_insert_eq | | done]. rewrite <- Hp. apply HL. by eexists.
    + intros i m Hin. destruct (wf_sources db HW i m Hin) as [si Hi]. exists si. by rewrite HL by (by eexists).
  - intros c. apply cover_stable; [done | done |]. intros i. by apply cover_known.
Qed.

Lemma CreateSummary_spec fails now input parents db db' r :
  CreateSummary fails now input parents db = (db', r) -> wf db -> 0 <= Depth input ->
  new_parents db (Depth input) parents ->
  kept eq db db' /\ context_items db' = context_items db /\ forall s, r = Ok s -> created db db' input s parents.
Proof.
  intros [[-> ->]|E]%transaction_inv HW Hd HP.
  { split_and!; [|done..]. by apply (same_conserves eq db _ (same_tick db)). }
  set (id := generateSummaryID (now (queries (tick db)))) in *. cbn in E. fold id in E.
  destruct (summaries db !! id) eqn:Hn.
  { injection E as <- <-. split_and!; [|done..]. by apply (same_conserves eq db _ (same_tick db)). }
  set (s0 := mkSummary id _ _ _ _ _ _ _ _ _ _) in E. injection E as <- <-. split_and!; [by apply (wf_new_summary db id s0 parents) | done |].
  intros s [= <-]. destruct (fresh_rows db id HW Hn) as [F1 F2]. split; cbn [SummaryID s0].
  - intros [si Hi]. congruence.
  - apply lookup_insert_eq.
  - done.
  - unfold parents_of in *. cbn [summary_parents]. by rewrite omap_app, F1, omap_snd_all.
  - exact F2.
  - done.
Qed.

Lemma link_rows (id : string) (ids : list Z) (rows : list (string * Z)) :
  NoDup ids -> (forall m, m ∈ ids -> (id, m) ∉ rows) ->
  fold_left (fun rows m => if bool_decide ((id, m) ∈ rows) then rows else rows ++ [(id, m)]) ids rows
  = rows ++ map (fun m => (id, m)) ids.
Proof.
  revert rows; induction ids as [|m ids IH]; intros rows HN HF; cbn; [by rewrite app_nil_r|].
  apply NoDup_cons in HN as [Hm HN]. rewrite bool_decide_eq_false_2 by (apply HF; by left). rewrite IH; [|done|].
  - by rewrite <- app_assoc.
  - intros k Hk [Hin|E%list_elem_of_singleton]%elem_of_app; [by apply (HF k); [right|]|]. injection E as ->. done.
Qed.

(** The rows of the sources of a summary that is in no context and no parent. *)
Lemma LinkSummaryToMessages_spec fails id ids db db' r :
  LinkSummaryToMessages fails id ids db = (db', r) -> wf db -> known db id -> sources_of db id = [] -> NoDup ids ->
  wf db' /\ context_items db' = context_items db /\ summaries db' = summaries db /\ messages db' = messages db /\
  next_message db' = next_message db /\ conversations db' = conversations db /\
  summary_parents db' = summary_parents db /\ (forall i, i <> id -> sources_of db' i = sources_of db i) /\
  (is_ok r = true -> sources_of db' id = ids).
Proof.
  intros [[-> ->]|E]%transaction_inv HW Hk HS HN.
  { split_and!; try done. eapply wf_same; [apply same_tick | done]. }
  injection E as <- <-. cbn. rewrite link_rows; [|done|].
  2:{ intros m _ Hin%elem_of_rows_sources. rewrite HS in Hin. by apply not_elem_of_nil in Hin. }
  split_and!; try done.
  - destruct HW as [W1 W2 W3 W4]. split; [| done | done |].
    + intros c. destruct (W1 c). by split.
    + intros i m [Hin|Hin]%elem_of_app; [by eapply W4|]. apply list_elem_of_fmap in Hin as (k & E & _). by injection E as -> ->.
  - intros i Hi. unfold sources_of. cbn. rewrite omap_app, (omap_snd_none i (map _ _)), app_nil_r; [done|].
    intros q (k & -> & _)%list_elem_of_fmap. cbn. congruence.
  - intros _. unfold sources_of in *. cbn. by rewrite omap_app, HS, omap_snd_all.
Qed.
