(* ===== verification/SeahorseConserve.v ===== *)
(** * Compaction loses no message

    Whatever the model answers and whichever transactions fail: a compaction
    step leaves every message of a conversation in its context or behind a
    summary in it, exactly once, and the context in order. *)

From S2P Require Import Prelude Effects GoStrings SeahorseStore SeahorseCompact SeahorseCover.
From stdpp Require Import sorting.

#[local] Open Scope Z_scope.

Section Conserve.
Context (fails : nat -> bool) (now : nat -> time).
Context (complete : option (nat -> string -> Z -> bool -> result string string)).
Context (minute_stamp day_stamp : time -> string).

(** ** What only reads *)

Lemma reads_GetContextItems c : keeps same (GetContextItems fails c).
Proof. by apply keeps_reads. Qed.
Lemma reads_GetContextTokenCount c : keeps same (GetContextTokenCount fails c).
Proof. by apply keeps_reads. Qed.
Lemma reads_GetDistinctDepthsInContext c : keeps same (GetDistinctDepthsInContext fails c).
Proof. by apply keeps_reads. Qed.
Lemma reads_GetMessageByID id : keeps same (GetMessageByID fails id).
Proof. apply keeps_reads. intros db. by destruct (find_message _ _). Qed.
Lemma reads_GetSummary id : keeps same (GetSummary fails id).
Proof. apply keeps_reads. intros db. by destruct (_ !! _). Qed.
Lemma reads_ask f p n z : keeps same (ask f p n z).
Proof. intros db db' r E. unfold ask in E. by injection E as <- _. Qed.
#[local] Hint Resolve reads_GetContextItems reads_GetContextTokenCount reads_GetDistinctDepthsInContext
  reads_GetMessageByID reads_GetSummary reads_ask : go.

Lemma reads_ask_twice f p n : keeps same (ask_twice f p n).
Proof. unfold ask_twice. keeps_auto. Qed.
#[local] Hint Resolve reads_ask_twice : go.

Lemma reads_generateLeafSummary ms prior : keeps same (generateLeafSummary complete minute_stamp ms prior).
Proof. unfold generateLeafSummary. keeps_auto. Qed.
Lemma reads_generateCondensedSummary ss : keeps same (generateCondensedSummary complete day_stamp ss).
Proof. unfold generateCondensedSummary. keeps_auto. Qed.

Lemma reads_load_messages chunk : keeps same (load_messages fails chunk).
Proof. induction chunk; cbn [load_messages]; keeps_auto. Qed.

Lemma reads_prior_summary n prior before : keeps same (prior_summary fails n prior before).
Proof.
  revert n prior; induction before as [|c before IH]; intros [|n] prior; cbn [prior_summary]; keeps_auto.
Qed.

Lemma reads_load_summaries ids : keeps same (load_summaries fails ids).
Proof. induction ids; cbn [load_summaries]; keeps_auto. Qed.

Lemma reads_collect d accum l : keeps same (collect_at_depth fails d accum l).
Proof. revert accum; induction l; intros accum; cbn [collect_at_depth]; keeps_auto. Qed.
#[local] Hint Resolve reads_generateLeafSummary reads_generateCondensedSummary reads_load_messages
  reads_prior_summary reads_load_summaries reads_collect : go.

Lemma reads_selectOldestChunkAtDepth c d : keeps same (selectOldestChunkAtDepth fails c d).
Proof. unfold selectOldestChunkAtDepth. keeps_auto. Qed.
#[local] Hint Resolve reads_selectOldestChunkAtDepth : go.

Lemma reads_oldest_candidates c ds : keeps same (oldest_candidates fails c ds).
Proof. induction ds; cbn [oldest_candidates]; keeps_auto. Qed.
Lemma reads_selectShallowest c forced : keeps same (selectShallowestCondensationCandidate fails c forced).
Proof. unfold selectShallowestCondensationCandidate. keeps_auto. Qed.
#[local] Hint Resolve reads_oldest_candidates reads_selectShallowest : go.

Lemma reads_condensed_candidates c : keeps same (condensed_candidates fails c).
Proof. unfold condensed_candidates. keeps_auto. Qed.
Lemma reads_tokens_or_zero c : keeps same (tokens_or_zero fails c).
Proof. unfold tokens_or_zero. keeps_auto. Qed.

(** ** What is read *)

Lemma GetContextItems_Ok c db db' l : GetContextItems fails c db = (db', Ok l) -> l = context_of db c.
Proof. intros [[_ E]|E]%transaction_inv; [done|]. by injection E as _ <-. Qed.

Lemma GetMessageByID_Ok id db db' m : GetMessageByID fails id db = (db', Ok m) -> ID m = id.
Proof.
  intros [[_ E]|E]%transaction_inv; [done|]. unfold find_message in E. destruct (find_first _ _) eqn:Ef; [|done].
  injection E as _ ->. apply find_first_Some in Ef as [Ef _]. by apply Z.eqb_eq.
Qed.

Lemma GetSummary_Ok id db db' s : GetSummary fails id db = (db', Ok s) -> summaries db !! id = Some s.
Proof.
  intros [[_ E]|E]%transaction_inv; [done|]. cbn in E. destruct (summaries db !! id); [|done]. by injection E as _ ->.
Qed.

Lemma load_messages_Ok chunk db db' ms :
  load_messages fails chunk db = (db', Ok ms) -> Forall (fun c => is_message c = true) chunk ->
  map IMessage (map ID ms) = map Item chunk.
Proof.
  revert db db' ms; induction chunk as [|c chunk IH]; intros db db' ms E HF; cbn [load_messages] in E.
  { unfold ret in E. by injection E as _ <-. }
  apply Forall_cons in HF as [Hc HF]. unfold is_message in Hc. apply bind_inv in E as [(m & d1 & E1 & E)|(e & _ & ?)]; [|done].
  apply bind_inv in E as [(ms' & d2 & E2 & E)|(e & _ & ?)]; [|done]. unfold ret in E. injection E as _ <-.
  apply IH in E2; [|done]. cbn. rewrite E2. destruct (Item c); [|done]. apply GetMessageByID_Ok in E1. by rewrite E1.
Qed.

(** ** Leaf compaction *)

Lemma find_chunk_split before run accum l b k :
  find_chunk before run accum l = (b, k) -> Forall (fun c => is_message c = true) run ->
  Forall (fun c => is_message c = true) k /\ exists after, before ++ run ++ l = b ++ k ++ after.
Proof.
  revert before run accum; induction l as [|c l IH]; intros before run accum E HF; cbn [find_chunk] in E.
  { injection E as <- <-. split; [done|]. by exists []. }
  destruct (Item c) eqn:Ec.
  - assert (HF' : Forall (fun c => is_message c = true) (run ++ [c])).
    { apply Forall_app. split; [done|]. constructor; [unfold is_message; by rewrite Ec | done]. }
    destruct (_ <=? _); [injection E as <- <- | apply IH in E as [H1 [after H2]]; [|done]].
    + split; [done|]. exists l. by rewrite <- app_assoc.
    + split; [done|]. exists after. rewrite <- H2. by rewrite <- app_assoc.
  - destruct (_ <=? _)%nat; [injection E as <- <-; split; [done | by eexists]|].
    apply IH in E as [H1 [after H2]]; [|done]. split; [done|]. exists after. rewrite <- H2. cbn. by rewrite <- !app_assoc.
Qed.

Lemma leaf_chunk_split force items b k :
  leaf_chunk force items = Some (b, k) ->
  Forall (fun c => is_message c = true) k /\ exists after, items = b ++ k ++ after.
Proof.
  unfold leaf_chunk. destruct (_ && _); [done|]. destruct (find_chunk _ _ _ _) as [b' k'] eqn:E.
  destruct (_ <? _)%nat; [done|]. intros [= <- <-]. apply find_chunk_split in E as [H1 [after H2]]; [|done].
  split; [done|]. cbn in H2. eexists (after ++ drop _ items). rewrite !app_assoc, <- (app_assoc b'), <- H2.
  symmetry. apply take_drop.
Qed.

(** A chunk of the context and the summary that stands for it. *)
Record planned (force : bool) (db db' : Store) (convID : Z) (id : string) (s e : Z) : Prop := {
  planned_fresh : ~ known db id;
  planned_leaf : exists sum, summaries db' !! id = Some sum /\ Depth sum = 0;
  planned_contexts : context_items db' = context_items db;
  planned_chunk : exists before first chunk after,
    leaf_chunk force (context_of db convID) = Some (before, first :: chunk) /\
    context_of db convID = before ++ (first :: chunk) ++ after /\ s = Ordinal first /\
    e = Ordinal (List.last (first :: chunk) first) /\
    covered db' id = items_cover db (map Item (first :: chunk))
}.

Lemma same_lookup db db' : same db db' ->
  summaries db' = summaries db /\ messages db' = messages db /\ context_items db' = context_items db /\
  summary_parents db' = summary_parents db /\ summary_messages db' = summary_messages db /\
  next_message db' = next_message db /\ conversations db' = conversations db.
Proof. intros [n ->]. done. Qed.

Lemma sublist_of_chunk {A B} (f : A -> B) b k a l : l = b ++ k ++ a -> NoDup (map f l) -> NoDup (map f k).
Proof. intros -> H. rewrite !map_app in H. by apply NoDup_app in H as (_ & _ & (H & _ & _)%NoDup_app). Qed.

Lemma NoDup_map_inv {A B} (f : A -> B) (l : list A) : NoDup (map f l) -> NoDup l.
Proof. apply NoDup_fmap_1. Qed.

(** Creating the summary of a chunk and linking it to the messages of the
    chunk changes nothing that the contexts stand for. *)
Lemma create_linked input ids db db1 db2 s r :
  wf db -> 0 <= Depth input -> CreateSummary fails now input [] db = (db1, Ok s) -> NoDup ids ->
  LinkSummaryToMessages fails (SummaryID s) ids db1 = (db2, r) ->
  kept eq db db2 /\ ~ known db (SummaryID s) /\
  (exists sum, summaries db2 !! SummaryID s = Some sum /\ Depth sum = Depth input) /\
  context_items db2 = context_items db /\ (is_ok r = true -> covered db2 (SummaryID s) = ids).
Proof.
  intros HW Hd E1 HN E2. apply CreateSummary_spec in E1 as (HK1 & _ & HC); [|done|done|by constructor].
  specialize (HC s eq_refl) as [F1 F2 F3 F4 F5 F6]. destruct HK1 as [W1 G1 M1 N1 C1 K1].
  apply LinkSummaryToMessages_spec in E2 as (W2 & X2 & S2' & M2 & N2 & C2 & P2 & R2 & R3); [|done|by eexists|done|done].
  assert (G2 : grows db db2).
  { intros i Hk. destruct (G1 i Hk) as (A1 & A2 & A3). assert (i <> SummaryID s) by (by intros ->).
    split_and!; [congruence | rewrite R2; congruence | rewrite <- A3; unfold parents_of; by rewrite P2]. }
  split; [|split_and!; [done | | |]].
  - split; [done | done | congruence | congruence | congruence |].
    intros c. unfold cover, context_of. rewrite X2, F6. apply cover_stable; [done | done |]. intros i. by apply cover_known.
  - exists s. by rewrite S2'.
  - by rewrite X2.
  - intros Hr. unfold covered, rank. rewrite S2', F2. cbn [expand]. rewrite (R3 Hr). unfold parents_of in F4 |- *.
    rewrite P2, F4. cbn. by rewrite app_nil_r.
Qed.

Lemma reads_bind {A B} (m : S A) (k : A -> S B) db db' r :
  keeps same m -> bind m k db = (db', r) ->
  (same db db' /\ is_ok r = false) \/ exists a d, m db = (d, Ok a) /\ same db d /\ k a d = (db', r).
Proof.
  intros Hm [(a & d & E1 & E2)|(e & E & ->)]%bind_inv; [right; exists a, d | left].
  - split_and!; [done | by eapply Hm | done].
  - split; [by eapply Hm | done].
Qed.

Lemma bind_ret_inv {A B} (m : S A) (b : B) db db' r : bind m (fun _ => ret b) db = (db', r) -> exists r1, m db = (db', r1).
Proof.
  unfold bind, ret. destruct (m db) as [d [a|e]]; intros E; injection E as -> _; by eexists.
Qed.

Lemma kept_same eqv db db' `{!PreOrder eqv} : wf db -> same db db' -> kept eqv db db'.
Proof. intros HW Hs. apply same_conserves; [apply _ | done | done]. Qed.

Lemma kept_after_same eqv db d db' `{!PreOrder eqv} : wf db -> same db d -> (wf d -> kept eqv d db') -> kept eqv db db'.
Proof.
  intros HW Hs Hk. pose proof (kept_same eqv db d HW Hs) as H1. revert HW. fold (conserves eqv db db').
  transitivity d; [|exact Hk]. intros _. exact H1.
Qed.

Lemma planned_after_same force db d db' convID id s e :
  same db d -> planned force d db' convID id s e -> planned force db db' convID id s e.
Proof.
  intros Hs [H1 H2 H0 (b & f & k & a & H7 & H3 & H4 & H5 & H6)]. pose proof (same_lookup _ _ Hs) as (S1 & _ & S3 & _). split.
  - unfold known in *. by rewrite <- S1.
  - done.
  - congruence.
  - exists b, f, k, a. unfold context_of in *. rewrite S3 in H3, H7. split_and!; [done.. |]. rewrite H6.
    apply items_cover_graph. by destruct Hs as [? ->].
Qed.

Ltac by_same :=
  apply kept_same; [apply _ | done | repeat (eassumption || (etransitivity; [eassumption|]))].

Ltac by_same' :=
  match goal with |- kept _ ?d ?d' /\ _ =>
    let H := fresh in assert (H : same d d') by (repeat (eassumption || (etransitivity; [eassumption|])));
    split_and!; [by apply same_conserves; [apply _ | | ] | apply same_lookup in H; apply H | by intros; subst]
  end.

Lemma leaf_plan_spec convID force db db' r :
  leaf_plan fails now complete minute_stamp convID force db = (db', r) -> wf db ->
  kept eq db db' /\ context_items db' = context_items db /\
  forall id s e, r = Ok (Some (id, s, e)) -> planned force db db' convID id s e.
Proof.
  intros E HW. unfold leaf_plan in E.
  apply reads_bind in E as [[Hs Hr]|(items & d1 & E1 & S1 & E)]; [| |auto with go].
  { by_same'. }
  apply GetContextItems_Ok in E1 as ->.
  destruct (leaf_chunk force (context_of db convID)) as [[b [|first k]]|] eqn:Ek;
    try (unfold ret in E; injection E as <- <-; by_same').
  pose proof (leaf_chunk_split _ _ _ _ Ek) as [HF [after Ha]].
  apply reads_bind in E as [[S2' Hr]|(ms & d2 & E2 & S2' & E)]; [| |auto with go].
  { by_same'. }
  apply load_messages_Ok in E2; [|done].
  apply reads_bind in E as [[S3 Hr]|(prior & d3 & _ & S3 & E)]; [| |auto with go].
  { by_same'. }
  apply reads_bind in E as [[S4 Hr]|(content & d4 & _ & S4 & E)]; [| |auto with go].
  { by_same'. }
  assert (Hs : same db d4) by (repeat (eassumption || (etransitivity; [eassumption|]))). clear S1 S2' S3 S4.
  assert (HW4 : wf d4) by exact (wf_same _ _ Hs HW).
  apply bind_inv in E as [(s & d5 & E5 & E)|(e & E & ->)].
  2:{ apply CreateSummary_spec in E as (HK & HX & _); [|done | cbn; lia | by constructor].
      split_and!; [by refine (kept_after_same eq _ d4 _ HW Hs _) | by rewrite HX; apply same_lookup in Hs; apply Hs | done]. }
  assert (HN : NoDup (map ID ms)).
  { apply (NoDup_map_inv IMessage). rewrite E2. apply (sublist_of_chunk Item b (first :: k) after (context_of db convID)); [done|].
    apply wf_contexts, HW. }
  assert (exists r1 d6, LinkSummaryToMessages fails (SummaryID s) (map ID ms) d5 = (d6, r1)) as (r1 & d6 & E6)
    by (eexists _, _; apply surjective_pairing).
  pose proof (fun Hd => create_linked _ _ _ _ _ _ _ HW4 Hd E5 HN E6) as HC.
  destruct (HC ltac:(cbn; lia)) as (HK & F1 & F2 & F3 & F4).
  unfold bind in E. rewrite E6 in E.
  assert (db' = d6) as -> by (destruct r1; by injection E). split; [by refine (kept_after_same eq _ d4 _ HW Hs _)|].
  split; [by rewrite F3; apply same_lookup in Hs; apply Hs|]. intros id s0 e0 ->. destruct r1 as [[]|]; [|done]. unfold ret in E. injection E as <- <- <-.
  apply (planned_after_same force db d4); [done|]. split; [done | done | done |].
  exists b, first, k, after.
  destruct (same_lookup _ _ Hs) as (_ & _ & X & _). unfold context_of in *. rewrite X. split_and!; [done.. |].
  rewrite (F4 eq_refl), <- E2. by rewrite items_cover_messages.
Qed.


Lemma last_in {A} (f : A) k : List.last (f :: k) f ∈ f :: k.
Proof. rewrite (app_removelast_last f (l := f :: k)) at 2 by done. apply elem_of_app. right. by left. Qed.

Lemma ordered_chunk b f k a :
  ordered (b ++ (f :: k) ++ a) -> let e := Ordinal (List.last (f :: k) f) in
  (forall x, x ∈ b -> Ordinal x < Ordinal f) /\ (forall x, x ∈ f :: k -> Ordinal f <= Ordinal x <= e) /\
  (forall x, x ∈ a -> e < Ordinal x) /\ Ordinal f <= e.
Proof.
  intros (H1 & (H2 & H3 & H4)%ordered_app & H5)%ordered_app e.
  assert (Hl : f :: k = removelast (f :: k) ++ [List.last (f :: k) f]) by (by apply app_removelast_last).
  pose proof (last_in f k) as Hz. set (z := List.last (f :: k) f) in *.
  assert (HF : forall x, x ∈ f :: k -> Ordinal f <= Ordinal x).
  { intros x [->|Hx]%elem_of_cons; [done|]. apply StronglySorted_inv in H2 as [_ H2]. rewrite Forall_forall in H2.
    specialize (H2 x Hx). cbn in H2. lia. }
  assert (HL : forall x, x ∈ f :: k -> Ordinal x <= e).
  { intros x Hx. rewrite Hl in Hx, H2. apply ordered_app in H2 as (_ & _ & H2).
    apply elem_of_app in Hx as [Hx|Hx%list_elem_of_singleton]; [|by subst]. specialize (H2 x z Hx ltac:(by left)). subst e. lia. }
  split_and!; [| by auto | | by apply HL; left].
  - intros x Hx. apply H5; [done|]. apply elem_of_app. left. by left.
  - intros x Hx. by apply H4.
Qed.

Lemma filter_all {A} (p : A -> bool) l : (forall x, x ∈ l -> p x = true) -> List.filter p l = l.
Proof.
  induction l as [|x l IH]; intros H; [done|]. cbn. rewrite (H x) by (by left). f_equal. apply IH. intros y Hy. apply H. by right.
Qed.

Lemma filter_none {A} (p : A -> bool) l : (forall x, x ∈ l -> p x = false) -> List.filter p l = [].
Proof.
  induction l as [|x l IH]; intros H; [done|]. cbn. rewrite (H x) by (by left). apply IH. intros y Hy. apply H. by right.
Qed.

Lemma midpoint_between s e : 0 < s -> s <= e -> s <= Z.quot (s + e) 2 <= e.
Proof.
  intros H1 H2. rewrite Z.quot_div_nonneg by lia. split; [apply Z.div_le_lower_bound; lia | apply Z.div_le_upper_bound; lia].
Qed.

Lemma place_free db b a m id s :
  (forall x, x ∈ b -> Ordinal x < m) -> (forall x, x ∈ a -> m < Ordinal x) -> summaries db !! id = Some s ->
  place_summary db (b ++ a) m id = b ++ mkContextItem m (ISummary id) (SummaryTokens s) :: a.
Proof.
  intros Hb Ha Hs. unfold place_summary, summary_item. rewrite Hs. cbn [fmap option_fmap option_map].
  replace (existsb _ _) with false; [by apply insert_item_between|]. symmetry. apply not_true_iff_false.
  intros (x & Hx%list_elem_of_In & E%Z.eqb_eq)%existsb_exists.
  apply elem_of_app in Hx as [Hx|Hx]; [specialize (Hb x Hx) | specialize (Ha x Hx)]; lia.
Qed.

(** The summary takes the place of the chunk that it stands for. *)
Lemma replace_chunk convID b f k a id db db' r :
  ReplaceContextRangeWithSummary fails convID (Ordinal f) (Ordinal (List.last (f :: k) f)) id db = (db', r) ->
  wf db -> context_of db convID = b ++ (f :: k) ++ a -> known db id -> ISummary id ∉ map Item (context_of db convID) ->
  covered db id = items_cover db (map Item (f :: k)) ->
  kept eq db db' /\ (forall c, c <> convID -> context_of db' c = context_of db c) /\
  (context_of db' convID = context_of db convID \/
   exists c, Item c = ISummary id /\ context_of db' convID = b ++ c :: a).
Proof.
  intros [[-> _]|E]%transaction_inv HW HC [s Hs] Hid Hcov.
  { split_and!; [apply (same_conserves eq); [apply _ | apply same_tick | done] | done | by left]. }
  apply (f_equal fst) in E. cbn [fst] in E. rewrite <- E. clear E. pose proof (wf_same _ _ (same_tick db) HW) as HW'.
  destruct (wf_contexts db HW convID) as [HO HP HN HK]. change (context_of (tick db) convID) with (context_of db convID).
  rewrite HC in *. pose proof (ordered_chunk b f k a HO) as (H1 & H2 & H3 & H4). cbv zeta in *.
  set (e := Ordinal (List.last (f :: k) f)) in *. assert (Hf : 0 < Ordinal f).
  { rewrite !Forall_app in HP. destruct HP as (_ & HP & _). by inversion HP. }
  pose proof (midpoint_between _ _ Hf H4) as Hm. set (m := Z.quot _ 2) in *.
  rewrite !List.filter_app, (filter_all _ b), (filter_none _ (f :: k)), (filter_all _ a); cbn [app];
    [| intros x Hx; apply negb_true_iff; specialize (H3 x Hx); lia | intros x Hx; apply negb_false_iff; specialize (H2 x Hx); lia
     | intros x Hx; apply negb_true_iff; specialize (H1 x Hx); lia ].
  rewrite (place_free (tick db) b a m id s); [| intros x Hx; specialize (H1 x Hx); lia | intros x Hx; specialize (H3 x Hx); lia | done].
  split; [refine (kept_after_same eq _ _ _ HW (same_tick db) (fun _ => _)); apply (put_context_kept eq (tick db)); [apply _ | done | |]|].
  - apply ordered_app in HO as (O1 & (O2 & O3 & O4)%ordered_app & O5). rewrite !map_app in HN, Hid.
    rewrite !not_elem_of_app in Hid. destruct Hid as (I1 & _ & I3).
    rewrite !Forall_app in HP. destruct HP as (P1 & P2 & P3). split.
    + apply ordered_app. split_and!; [done | |].
      * constructor; [done|]. apply Forall_forall. intros x Hx. cbn. specialize (H3 x Hx). lia.
      * intros x y Hx [->|Hy]%elem_of_cons; [cbn; specialize (H1 x Hx); lia|]. apply O5; [done|]. apply elem_of_app. by right.
    + apply Forall_app. split; [done|]. constructor; [cbn; lia | done].
    + rewrite map_app. cbn [map Item]. apply NoDup_app in HN as (N1 & N2 & (N3 & N4 & N5)%NoDup_app).
      apply NoDup_app. split_and!; [done | |].
      * intros x Hx [->|Hy]%elem_of_cons; [done | by apply (N2 x Hx), elem_of_app; right].
      * by apply NoDup_cons.
    + intros c i [Hc|[->|Hc]%elem_of_cons]%elem_of_app Hi; [eapply HK; [|done] | cbn in Hi; injection Hi as <-; by eexists | eapply HK; [|done]].
      * apply elem_of_app. by left.
      * apply elem_of_app. right. apply elem_of_app. by right.
  - unfold cover. change (context_of (tick db) convID) with (context_of db convID). rewrite HC, !map_app, !items_cover_app.
    f_equal. rewrite (items_cover_graph (tick db) db), (covered_graph (tick db) db) in Hcov by done. by rewrite <- Hcov.
  - split; [intros c Hc; unfold context_of; cbn; by rewrite lookup_insert_ne | right].
    exists (mkContextItem m (ISummary id) (SummaryTokens s)). split; [done|]. unfold context_of; cbn. by rewrite lookup_insert_eq.
Qed.

Lemma fresh_not_in_context db convID id : wf db -> ~ known db id -> ISummary id ∉ map Item (context_of db convID).
Proof. intros HW Hk Hin. by apply Hk, (cover_known db convID). Qed.

Lemma kept_trans eqv db d db' `{!PreOrder eqv} : wf db -> kept eqv db d -> (wf d -> kept eqv d db') -> kept eqv db db'.
Proof. intros HW H1 H2. revert HW. fold (conserves eqv db db'). transitivity d; [by intros _ | exact H2]. Qed.

Lemma apply_plan force convID id s e db d db' r :
  wf db -> kept eq db d -> planned force db d convID id s e -> ReplaceContextRangeWithSummary fails convID s e id d = (db', r) ->
  kept eq db db' /\ (forall c, c <> convID -> context_of db' c = context_of db c) /\
  (context_of db' convID = context_of db convID \/ exists b k a c,
     leaf_chunk force (context_of db convID) = Some (b, k) /\ context_of db convID = b ++ k ++ a /\
     Item c = ISummary id /\ context_of db' convID = b ++ c :: a).
Proof.
  intros HW HK [P1 (sum & P2 & _) P3 (b & f & k & a & P6 & P4 & -> & -> & P5)] E.
  assert (HW1 : wf d) by apply HK.
  assert (HX : forall c, context_of d c = context_of db c) by (intros c; unfold context_of; by rewrite P3).
  apply (replace_chunk _ b f k a) in E as (K1 & K2 & K3); [|done | by rewrite HX | by eexists | |].
  - split_and!; [by refine (kept_trans eq _ d _ HW HK _) | intros c Hc; by rewrite K2 |]. rewrite HX in K3.
    destruct K3 as [K3|(c & Hc & K3)]; [by left | right]. by exists b, (f :: k), a, c.
  - rewrite HX. by apply fresh_not_in_context.
  - rewrite P5. symmetry. apply cover_stable; [done | apply HK |]. intros i Hi. apply (cover_known db convID); [done|].
    rewrite P4, !map_app. apply elem_of_app. right. apply elem_of_app. by left.
Qed.

Lemma conserves_compactLeaf convID force :
  keeps (conserves eq) (compactLeaf fails now complete minute_stamp convID force).
Proof.
  intros db db' r E HW. unfold compactLeaf in E.
  apply bind_inv in E as [(plan & d1 & E1 & E)|(e & E & _)]; [|by apply leaf_plan_spec in E as (HK & _)].
  apply leaf_plan_spec in E1 as (HK & _ & HP); [|done]. destruct plan as [[[id s] e]|].
  2:{ unfold ret in E. by injection E as <- _. }
  apply bind_ret_inv in E as [r1 E]. by apply (apply_plan force convID id s e db d1 db' r1 HW HK (HP _ _ _ eq_refl) E).
Qed.

(** ** The candidates of condensed compaction *)

Definition picked (db : Store) (ids : list string) (ss : list Summary) : Prop :=
  Forall (fun s => summaries db !! SummaryID s = Some s) ss /\ map SummaryID ss `sublist_of` ids.

Lemma picked_same db db' ids ss : same db db' -> picked db' ids ss -> picked db ids ss.
Proof. intros [n ->]. done. Qed.

Lemma picked_sublist db ids ids' ss : ids `sublist_of` ids' -> picked db ids ss -> picked db ids' ss.
Proof. intros Hs [H1 H2]. split; [done | by etransitivity]. Qed.

Lemma picked_nil db ids : picked db ids [].
Proof. split; [constructor | apply sublist_nil_l]. Qed.

Lemma GetSummary_picked id db db' s : wf db -> GetSummary fails id db = (db', Ok s) ->
  summaries db !! SummaryID s = Some s /\ SummaryID s = id.
Proof. intros HW H%GetSummary_Ok. destruct (wf_keys db HW id s H) as [-> _]. done. Qed.

Lemma summary_ids_sublist l l' : l `sublist_of` l' -> summary_ids l `sublist_of` summary_ids l'.
Proof.
  unfold summary_ids. induction 1 as [|x l l' H IH|x l l' H IH]; [done | |]; cbn.
  - by destruct (Item x); [|constructor].
  - by destruct (Item x); [|constructor].
Qed.

Lemma before_tail_sublist l : before_tail l `sublist_of` l.
Proof. apply sublist_take. Qed.

Lemma collect_picked d accum l db db' p :
  collect_at_depth fails d accum l db = (db', Ok p) -> wf db -> picked db (summary_ids l) (fst p).
Proof.
  revert accum db db' p; induction l as [|c l IH]; intros accum db db' p E HW; cbn [collect_at_depth] in E.
  { unfold ret in E. injection E as _ <-. apply picked_nil. }
  destruct (Item c) as [m|id] eqn:Ec; [unfold ret in E; injection E as _ <-; apply picked_nil|].
  apply reads_bind in E as [[_ ?]|(r & d1 & E1 & S1 & E)]; [done| |auto with go].
  apply try_inv in E1 as (r0 & E1 & [= ->]).
  destruct r0 as [s|]; [|unfold ret in E; injection E as _ <-; apply picked_nil].
  destruct (GetSummary_picked _ _ _ _ HW E1) as [Hs Hid].
  destruct (_ || _); [unfold ret in E; injection E as _ <-; apply picked_nil|].
  apply bind_inv in E as [(p' & d2 & E2 & E)|(e & _ & ?)]; [|done]. unfold ret in E. injection E as _ <-. cbn [fst].
  apply IH in E2; [|by eapply wf_same]. apply (picked_same _ _ _ _ S1) in E2 as [F1 F2].
  unfold summary_ids. cbn. rewrite Ec. split; [by constructor|]. cbn. rewrite Hid. by constructor.
Qed.

Lemma load_summaries_picked ids db db' ss :
  load_summaries fails ids db = (db', Ok ss) -> wf db -> picked db ids ss.
Proof.
  revert db db' ss; induction ids as [|id ids IH]; intros db db' ss E HW; cbn [load_summaries] in E.
  { unfold ret in E. injection E as _ <-. apply picked_nil. }
  apply reads_bind in E as [[_ ?]|(r & d1 & E1 & S1 & E)]; [done| |auto with go].
  apply try_inv in E1 as (r0 & E1 & [= ->]).
  apply bind_inv in E as [(ss' & d2 & E2 & E)|(e & _ & ?)]; [|done]. unfold ret in E. injection E as _ <-.
  apply IH in E2; [|by eapply wf_same]. apply (picked_same _ _ _ _ S1) in E2 as [F1 F2].
  destruct r0 as [s|]; [|split; [done | by constructor]].
  destruct (GetSummary_picked _ _ _ _ HW E1) as [Hs Hid]. split; [by constructor|]. cbn. rewrite Hid. by constructor.
Qed.

Lemma filter_sublist {A} (p : A -> bool) l : List.filter p l `sublist_of` l.
Proof. induction l as [|x l IH]; cbn; [done|]. destruct (p x); by constructor. Qed.

Lemma map_sublist {A B} (f : A -> B) l l' : l `sublist_of` l' -> map f l `sublist_of` map f l'.
Proof. induction 1; cbn; by constructor. Qed.

Lemma oldest_candidates_picked convID ds db db' ss :
  oldest_candidates fails convID ds db = (db', Ok ss) -> wf db -> picked db (summary_ids (context_of db convID)) ss.
Proof.
  revert db db' ss; induction ds as [|d ds IH]; intros db db' ss E HW; cbn [oldest_candidates] in E.
  { unfold ret in E. injection E as _ <-. apply picked_nil. }
  apply reads_bind in E as [[_ ?]|(r & d1 & E1 & S1 & E)]; [done | | auto with go].
  assert (Hrest : oldest_candidates fails convID ds d1 = (db', Ok ss) -> picked db (summary_ids (context_of db convID)) ss).
  { intros H%IH; [|by eapply wf_same]. apply (picked_same _ _ _ _ S1) in H. by destruct S1 as [n ->]. }
  apply try_inv in E1 as (r0 & E1 & [= ->]). destruct r0 as [[|s ss']|]; [by apply Hrest | | by apply Hrest].
  unfold ret in E. injection E as _ <-. unfold selectOldestChunkAtDepth in E1.
  apply reads_bind in E1 as [[_ ?]|(items & d2 & E2 & S2' & E1)]; [done | | auto with go]. apply GetContextItems_Ok in E2 as ->.
  apply bind_inv in E1 as [(p & d3 & E3 & E1)|(e & _ & ?)]; [|done]. unfold ret in E1. injection E1 as _ E1.
  apply collect_picked in E3; [|by eapply wf_same]. apply (picked_same _ _ _ _ S2') in E3.
  destruct (_ <? _); [done|]. rewrite E1 in E3. eapply picked_sublist; [|exact E3].
  apply summary_ids_sublist, before_tail_sublist.
Qed.

Lemma selectShallowest_picked convID forced db db' ss :
  selectShallowestCondensationCandidate fails convID forced db = (db', Ok ss) -> wf db ->
  picked db (summary_ids (context_of db convID)) ss.
Proof.
  intros E HW. unfold selectShallowestCondensationCandidate in E.
  apply reads_bind in E as [[_ ?]|(items & d1 & E1 & S1 & E)]; [done | | auto with go]. apply GetContextItems_Ok in E1 as ->.
  apply reads_bind in E as [[_ ?]|(found & d2 & E2 & S2' & E)]; [done | | auto with go].
  apply load_summaries_picked in E2; [|by eapply wf_same]. destruct (find_first _ _) as [d|].
  2:{ unfold ret in E. injection E as _ <-. apply picked_nil. }
  apply load_summaries_picked in E; [|eapply wf_same, wf_same, HW; eassumption].
  apply (picked_same _ _ _ _ S2'), (picked_same _ _ _ _ S1) in E. apply (picked_same _ _ _ _ S1) in E2.
  eapply picked_sublist, E. etransitivity; [apply map_sublist; etransitivity; [apply sublist_take | apply filter_sublist]|].
  etransitivity; [apply E2 | apply summary_ids_sublist, before_tail_sublist].
Qed.

Lemma condensed_candidates_picked convID db db' ss :
  condensed_candidates fails convID db = (db', Ok ss) -> wf db -> picked db (summary_ids (context_of db convID)) ss.
Proof.
  intros E HW. unfold condensed_candidates in E.
  apply reads_bind in E as [[_ ?]|(ds & d1 & E1 & S1 & E)]; [done | | auto with go].
  assert (HW1 : wf d1) by exact (wf_same _ _ S1 HW).
  apply bind_inv in E as [(oldest & d2 & E2 & E)|(e & _ & ?)]; [|done].
  pose proof (reads_oldest_candidates _ _ _ _ _ E2) as S2'. apply oldest_candidates_picked in E2; [|done].
  pose proof (same_lookup _ _ S1) as (_ & _ & X1 & _). pose proof (same_lookup _ _ S2') as (_ & _ & X2 & _).
  apply (picked_same _ _ _ _ S1). destruct oldest as [|o os].
  - apply selectShallowest_picked in E; [|exact (wf_same _ _ S2' HW1)]. apply (picked_same _ _ _ _ S2') in E.
    unfold context_of in *. congruence.
  - unfold ret in E. injection E as _ <-. unfold context_of in *. by rewrite X1 in E2.
Qed.

(** ** The place of the candidates *)

Lemma filter_split {A} (p : A -> bool) l : l ≡ₚ List.filter p l ++ List.filter (fun x => negb (p x)) l.
Proof.
  induction l as [|x l IH]; cbn; [done|]. destruct (p x); cbn; [by constructor|].
  etransitivity; [by constructor; exact IH | apply Permutation_middle].
Qed.

Lemma ordered_filter p l : ordered l -> ordered (List.filter p l).
Proof.
  induction l as [|c l IH]; cbn; intros H; [done|]. apply StronglySorted_inv in H as [H1 H2].
  destruct (p c); [|by apply IH]. constructor; [by apply IH|]. apply Forall_forall. intros x Hx%list_elem_of_In.
  apply filter_In in Hx as [Hx _]. rewrite Forall_forall in H2. by apply H2, list_elem_of_In.
Qed.

Lemma elem_of_List_filter {A} (p : A -> bool) l x : x ∈ List.filter p l <-> x ∈ l /\ p x = true.
Proof. by rewrite !list_elem_of_In, filter_In. Qed.

Lemma elem_of_summary_ids id l : id ∈ summary_ids l <-> ISummary id ∈ map Item l.
Proof.
  unfold summary_ids. rewrite list_elem_of_omap. split.
  - intros (c & Hc & E). destruct (Item c) eqn:Ei; [done|]. injection E as ->. apply list_elem_of_fmap. by exists c.
  - intros (c & E & Hc)%list_elem_of_fmap. exists c. by rewrite <- E.
Qed.

Lemma ordered_inj l x y : ordered l -> x ∈ l -> y ∈ l -> Ordinal x = Ordinal y -> x = y.
Proof.
  induction l as [|c l IH]; intros HO Hx Hy E; [by apply not_elem_of_nil in Hx|].
  apply StronglySorted_inv in HO as [HO HF]. rewrite Forall_forall in HF.
  apply elem_of_cons in Hx as [Hx|Hx]; apply elem_of_cons in Hy as [Hy|Hy]; subst; [done | | | by apply IH].
  - specialize (HF y Hy). cbn in HF. lia.
  - specialize (HF x Hx). cbn in HF. lia.
Qed.

(** The items that the candidates of the context cover. *)
Lemma candidates_items ids l :
  NoDup ids -> NoDup (map Item l) -> (forall id, id ∈ ids -> id ∈ summary_ids l) ->
  map Item (List.filter (is_summary_of ids) l) ≡ₚ map ISummary ids.
Proof.
  intros H1 H2 H3. apply NoDup_Permutation.
  - eapply sublist_NoDup; [done | apply map_sublist, filter_sublist].
  - apply NoDup_fmap_2; [|done]. by intros ?? [= ->].
  - intros i. split.
    + intros (c & -> & [_ Hc]%elem_of_List_filter)%list_elem_of_fmap. unfold is_summary_of in Hc.
      destruct (Item c) as [|id]; [done|]. apply bool_decide_eq_true in Hc. apply list_elem_of_fmap. by exists id.
    + intros (id & -> & Hid)%list_elem_of_fmap. pose proof (H3 id Hid) as Hi. apply elem_of_summary_ids in Hi.
      apply list_elem_of_fmap in Hi as (c & E & Hc). apply list_elem_of_fmap. exists c. split; [done|].
      apply elem_of_List_filter. split; [done|]. unfold is_summary_of. rewrite <- E. by apply bool_decide_eq_true.
Qed.

Lemma items_cover_summaries db ids : items_cover db (map ISummary ids) = flat_map (covered db) ids.
Proof. induction ids as [|id ids IH]; cbn; [done|]. unfold items_cover in *. by rewrite IH. Qed.

Lemma place_condensed_context db convID ids id m :
  wf db -> NoDup ids -> (forall i, i ∈ ids -> i ∈ summary_ids (context_of db convID)) -> known db id ->
  ISummary id ∉ map Item (context_of db convID) -> covered db id ≡ₚ flat_map (covered db) ids -> 0 < m ->
  kept (≡ₚ) db (put_context db convID
    (place_summary db (List.filter (fun c => negb (is_summary_of ids c)) (context_of db convID)) m id)).
Proof.
  intros HW HN Hin Hk Hid Hcov Hm. destruct (wf_contexts db HW convID) as [W1 W2 W3 W4].
  set (l := context_of db convID) in *. set (rest := List.filter _ l).
  assert (Hr : forall c, c ∈ rest -> c ∈ l) by (intros c [Hc _]%elem_of_List_filter; done).
  assert (HP : Forall (fun c => 0 < Ordinal c) rest).
  { apply Forall_forall. intros c Hc. rewrite Forall_forall in W2. auto. }
  pose proof (place_summary_perm db rest m id Hk) as Hperm.
  destruct (place_summary_ordered db rest m id (ordered_filter _ _ W1) HP Hm) as [O1 O2].
  assert (Hsub : map Item rest `sublist_of` map Item l) by (apply map_sublist, filter_sublist).
  apply put_context_kept; [apply _ | done | split; [done | done | |] |].
  - rewrite Hperm. apply NoDup_cons. split; [|by eapply sublist_NoDup]. intros Hi. apply Hid.
    eapply elem_of_submseteq; [exact Hi | by apply sublist_submseteq].
  - intros c i Hc Hi. assert (Hci : ISummary i ∈ ISummary id :: map Item rest).
    { rewrite <- Hperm. apply list_elem_of_fmap. by exists c. }
    apply elem_of_cons in Hci as [[= ->]|Hci]; [done|].
    apply list_elem_of_fmap in Hci as (c' & E & Hc'). apply (W4 c'); [by apply Hr | done].
  - unfold cover. fold l. rewrite (items_cover_perm db _ _ Hperm). cbn [items_cover flat_map item_cover].
    fold (items_cover db (map Item rest)). rewrite Hcov, <- items_cover_summaries.
    pose proof (candidates_items ids l HN W3 Hin) as HC. rewrite <- HC.
    rewrite <- items_cover_app, <- map_app. apply items_cover_perm, Permutation_map. symmetry. apply filter_split.
Qed.

Lemma candidate_range_some all cand s0 e0 l s e :
  candidate_range all cand (Some (s0, e0)) l = (Some (s, e), false) -> ordered l ->
  (forall x, x ∈ l -> e0 < Ordinal x) -> s0 <= e0 ->
  (forall x, x ∈ all -> s0 <= Ordinal x <= e0 -> cand x = true) ->
  s = s0 /\ e0 <= e /\ (forall x, x ∈ l -> cand x = true -> Ordinal x <= e) /\
  (forall x, x ∈ all -> s <= Ordinal x <= e -> cand x = true).
Proof.
  revert e0; induction l as [|c l IH]; intros e0 E HO Hl Hse Hall; cbn [candidate_range] in E.
  { injection E as <- <-. split_and!; [done | done | intros x Hx; by apply not_elem_of_nil in Hx | done]. }
  apply StronglySorted_inv in HO as [HO HF]. rewrite Forall_forall in HF.
  assert (Hc : e0 < Ordinal c) by (apply Hl; by left). destruct (cand c) eqn:Ec.
  - destruct (existsb _ all) eqn:Ex; [done|]. replace (Z.min s0 (Ordinal c)) with s0 in E by lia.
    replace (Z.max e0 (Ordinal c)) with (Ordinal c) in E by lia. apply IH in E; [|done | exact HF | lia |].
    + destruct E as (-> & H2 & H3 & H4). split_and!; [done | lia | | done].
      intros x [->|Hx]%elem_of_cons Hcx; [lia | auto].
    + intros x Hx [H1 H2]. destruct (Z.le_gt_cases (Ordinal x) e0); [by apply Hall|].
      apply not_false_is_true. intros Hn. apply (not_true_iff_false (existsb _ all)) in Ex. apply Ex. apply existsb_exists.
      exists x. split; [by apply list_elem_of_In|]. rewrite Hn. cbn. lia.
  - apply IH in E; [|done | intros x Hx; apply Hl; by right | done | done].
    destruct E as (-> & H2 & H3 & H4). split_and!; [done | done | | done].
    intros x [->|Hx]%elem_of_cons Hcx; [congruence | auto].
Qed.

Lemma candidate_range_none all cand l s e :
  candidate_range all cand None l = (Some (s, e), false) -> ordered l -> ordered all -> (forall x, x ∈ l -> x ∈ all) ->
  s <= e /\ (exists x, x ∈ all /\ s = Ordinal x) /\ (forall x, x ∈ l -> cand x = true -> s <= Ordinal x <= e) /\
  (forall x, x ∈ all -> s <= Ordinal x <= e -> cand x = true).
Proof.
  induction l as [|c l IH]; intros E HO HA Hin; cbn [candidate_range] in E; [done|].
  apply StronglySorted_inv in HO as [HO HF]. rewrite Forall_forall in HF. destruct (cand c) eqn:Ec.
  - apply candidate_range_some in E; [|done | exact HF | lia |].
    + destruct E as (-> & H2 & H3 & H4). split_and!; [done | exists c; split; [apply Hin; by left | done] | | done].
      intros x [->|Hx]%elem_of_cons Hcx; [lia|]. specialize (H3 x Hx Hcx). specialize (HF x Hx). cbn in HF. lia.
    + intros x Hx Ho. assert (x = c) as ->; [|done]. apply (ordered_inj all); [done | done | apply Hin; by left | lia].
  - apply IH in E; [|done | done | intros x Hx; apply Hin; by right].
    destruct E as (H1 & H2 & H3 & H4). split_and!; [done | done | | done].
    intros x [->|Hx]%elem_of_cons Hcx; [congruence | auto].
Qed.

(** The summaries are replaced, by the range or one by one. *)
Lemma place_condensed_conserves convID ids id db db' r :
  place_condensed fails convID ids id db = (db', r) -> wf db -> NoDup ids ->
  (forall i, i ∈ ids -> i ∈ summary_ids (context_of db convID)) -> known db id ->
  ISummary id ∉ map Item (context_of db convID) -> covered db id ≡ₚ flat_map (covered db) ids -> kept (≡ₚ) db db'.
Proof.
  intros E HW HN Hin Hk Hid Hcov. unfold place_condensed in E.
  apply reads_bind in E as [[Hs _]|(items & d & E1 & Hs & E)]; [by_same | | auto with go].
  apply GetContextItems_Ok in E1 as ->. refine (kept_after_same _ _ d _ HW Hs _). intros HWd.
  assert (HX : context_of d convID = context_of db convID) by (by destruct Hs as [n ->]).
  assert (Hplace : forall d1 m, same d d1 -> 0 < m -> kept (≡ₚ) d1 (put_context d1 convID
    (place_summary d1 (List.filter (fun c => negb (is_summary_of ids c)) (context_of d1 convID)) m id))).
  { intros d1 m Hs1 Hm. assert (HX1 : context_of d1 convID = context_of db convID) by (rewrite <- HX; by destruct Hs1 as [n ->]).
    assert (HG : graph d1 = graph db) by (by destruct Hs as [? ->], Hs1 as [? ->]).
    apply place_condensed_context; rewrite ?HX1; [exact (wf_same _ _ Hs1 HWd) | done | done | | done | | done].
    - unfold known. by injection HG as -> _ _.
    - rewrite (covered_graph db) by done. rewrite Hcov.
      replace (flat_map (covered d1) ids) with (flat_map (covered db) ids); [done|]. apply flat_map_ext.
      intros i. symmetry. by apply covered_graph. }
  destruct (wf_contexts d HWd convID) as [W1 W2 W3 W4]. rewrite Forall_forall in W2.
  rewrite <- HX in E. destruct (candidate_range _ _ _ _) as [[[s e]|] [|]] eqn:Ec.
  - apply bind_ret_inv in E as [r1 E]. apply transaction_inv in E as [[-> _]|E]; [exact (kept_same _ _ _ HWd (same_tick d))|].
    refine (kept_after_same _ _ _ _ HWd (same_tick d) _). intros _.
    cbv beta zeta in E. change (context_of (tick d) convID) with (context_of d convID) in E.
    destruct (List.filter (is_summary_of ids) (context_of d convID)) as [|f found] eqn:Ef.
    { injection E as <- _. exact (kept_same _ _ _ (wf_same _ _ (same_tick d) HWd) (reflexivity _)). }
    apply (f_equal fst) in E. cbn [fst] in E. rewrite <- E. apply (Hplace (tick d)); [apply same_tick|].
    assert (Hf : forall x, x ∈ f :: found -> 0 < Ordinal x).
    { intros x Hx. rewrite <- Ef in Hx. apply elem_of_List_filter in Hx as [Hx _]. auto. }
    pose proof (Hf f ltac:(by left)). pose proof (Hf _ (last_in f found)). apply Z.quot_str_pos. lia.
  - apply bind_ret_inv in E as [r1 E]. apply transaction_inv in E as [[-> _]|E]; [exact (kept_same _ _ _ HWd (same_tick d))|].
    refine (kept_after_same _ _ _ _ HWd (same_tick d) _). intros _.
    apply (f_equal fst) in E. cbn [fst] in E. rewrite <- E. clear E.
    apply candidate_range_none in Ec as (H1 & (x & Hx & ->) & H3 & H4); [|done..].
    change (context_of (tick d) convID) with (context_of d convID).
    erewrite (filter_ext_in _ (fun c => negb (is_summary_of ids c))).
    + apply (Hplace (tick d)); [apply same_tick|]. specialize (W2 x Hx). apply Z.quot_str_pos. lia.
    + intros c Hc%list_elem_of_In. f_equal. apply eq_true_iff_eq. split; [intros Hb; apply H4; [done | lia]|].
      intros Hb%(H3 c Hc). lia.
  - unfold ret in E. injection E as <- _. exact (kept_same _ _ _ HWd (reflexivity _)).
  - unfold ret in E. injection E as <- _. exact (kept_same _ _ _ HWd (reflexivity _)).
Qed.

(** ** Condensed compaction *)

Lemma picked_depth db ids ss d :
  picked db ids ss -> new_parents db (fold_left (fun d c => Z.max d (Depth c)) ss d + 1) (map SummaryID ss).
Proof.
  intros [HF _]. apply Forall_fmap, Forall_forall. intros s Hs. exists s.
  split; [by rewrite Forall_forall in HF; apply HF|]. clear HF. revert d; induction ss as [|c ss IH]; intros d.
  { by apply not_elem_of_nil in Hs. }
  cbn. apply elem_of_cons in Hs as [->|Hs]; [|by apply IH]. clear IH.
  assert (Hmono : forall l d, d <= fold_left (fun d c => Z.max d (Depth c)) l d).
  { induction l as [|x l IHl]; intros d0; cbn; [done|]. etransitivity; [|apply IHl]. lia. }
  specialize (Hmono ss (Z.max d (Depth c))). lia.
Qed.

Lemma merged_depth ss d : 0 <= d -> 0 <= fold_left (fun d c => Z.max d (Depth c)) ss d.
Proof. revert d; induction ss as [|c ss IH]; intros d Hd; cbn; [done | apply IH; lia]. Qed.

(** A summary of summaries stands for what they stand for. *)
Lemma created_covered db db' input s parents :
  wf db -> created db db' input s parents -> grows db db' -> new_parents db (Depth input) parents -> 0 <= Depth input ->
  covered db' (SummaryID s) = flat_map (covered db') parents.
Proof.
  intros HW [F1 F2 F3 F4 F5 F6] HG HP Hd. unfold covered at 1, rank. rewrite F2. cbn [expand]. rewrite F4, F5. cbn [app].
  clear F1 F2 F4 F5 F6. induction HP as [|p parents (sp & Hp & Hlt) HP IH]; [done|]. cbn [flat_map]. rewrite IH. f_equal.
  assert (Hk : known db p) by (by eexists). rewrite (covered_stable db) by done.
  apply expand_stable; [done | done | done | | done]. unfold rank. rewrite Hp. destruct (wf_keys db HW p sp Hp). lia.
Qed.

Lemma conserves_compactCondensed convID :
  keeps (conserves (≡ₚ)) (compactCondensed fails now complete day_stamp convID).
Proof.
  intros db db' r E HW. unfold compactCondensed in E.
  apply reads_bind in E as [[Hs _]|(cs & d1 & E1 & S1 & E)]; [by_same | | apply reads_condensed_candidates].
  apply condensed_candidates_picked in E1; [|done].
  destruct cs as [|c0 cs0]; [unfold ret in E; injection E as <- _; by_same|]. set (cs := c0 :: cs0) in *. clearbody cs. clear c0 cs0.
  apply reads_bind in E as [[Hs _]|(content & d2 & _ & S2' & E)]; [by_same | | auto with go].
  assert (Hs : same db d2) by (by transitivity d1). clear S1 S2'.
  assert (HW2 : wf d2) by exact (wf_same _ _ Hs HW). refine (kept_after_same _ _ d2 _ HW Hs _). intros _.
  assert (HX : context_of d2 convID = context_of db convID) by (by destruct Hs as [n ->]).
  assert (HC : picked d2 (summary_ids (context_of d2 convID)) cs).
  { rewrite HX. apply (picked_same d2 db); [by destruct Hs as [n ->]; exists (queries db); destruct db | done]. }
  pose proof (picked_depth _ _ _ 0 HC) as HP. assert (Hd : 0 <= Depth (merged convID content cs)).
  { cbn. pose proof (merged_depth cs 0 ltac:(done)). lia. }
  set (ids := map SummaryID cs) in *. clear HX Hs E1 HW. clear db. rename d2 into db.
  assert (Hks : forall eqv, PreOrder eqv -> forall d, kept eq db d -> kept eqv db d).
  { intros eqv HQ d [A1 A2 A3 A4 A5 A6]. split; [done.. |]. intros c. by rewrite A6. }
  apply bind_inv in E as [(s & d3 & E3 & E)|(e & E & _)].
  2:{ apply CreateSummary_spec in E as (HK & _); [by apply Hks; [apply _|] | done | done | done]. }
  apply CreateSummary_spec in E3 as (HK & _ & HCr); [|done | done | done]. specialize (HCr s eq_refl).
  pose proof HCr as [F1 F2 F3 F4 F5 F6].
  refine (kept_trans _ _ d3 _ HW2 (Hks _ _ _ HK) _). intros HW3.
  assert (HX : context_of d3 convID = context_of db convID) by (unfold context_of; by rewrite F6).
  apply place_condensed_conserves in E; [done | done | | | by eexists | | ].
  - destruct HC as [_ HC]. eapply sublist_NoDup; [|exact HC]. destruct (wf_contexts db HW2 convID) as [_ _ N _].
    clear -N. unfold summary_ids. induction (context_of db convID) as [|c l IH]; [constructor|]. cbn in *.
    apply NoDup_cons in N as [N1 N2]. destruct (Item c) eqn:Ei; [by apply IH|]. apply NoDup_cons. split; [|by apply IH].
    intros Hin. apply N1, (proj1 (elem_of_summary_ids _ l)), Hin.
  - intros i Hi. rewrite HX. destruct HC as [_ HC]. eapply elem_of_submseteq; [exact Hi | by apply sublist_submseteq].
  - rewrite HX. by apply fresh_not_in_context.
  - erewrite created_covered; [done | exact HW2 | exact HCr | apply HK | exact HP | exact Hd].
Qed.

(** ** Whole compactions *)

Lemma conserves_weaken {A} (m : S A) : keeps (conserves eq) m -> keeps (conserves (≡ₚ)) m.
Proof.
  apply keeps_weaken. intros d d' H HW. destruct (H HW) as [A1 A2 A3 A4 A5 A6]. split; [done.. |]. intros c. by rewrite A6.
Qed.

Lemma conserves_reads {A} (m : S A) : keeps same m -> keeps (conserves (≡ₚ)) m.
Proof. apply keeps_weaken. intros d d'. apply same_conserves, _. Qed.

Lemma conserves_leaf convID force : keeps (conserves (≡ₚ)) (compactLeaf fails now complete minute_stamp convID force).
Proof. apply conserves_weaken, conserves_compactLeaf. Qed.
Lemma conserves_tokens convID : keeps (conserves (≡ₚ)) (GetContextTokenCount fails convID).
Proof. apply conserves_reads, reads_GetContextTokenCount. Qed.
Lemma conserves_tokens_or_zero convID : keeps (conserves (≡ₚ)) (tokens_or_zero fails convID).
Proof. apply conserves_reads, reads_tokens_or_zero. Qed.
#[local] Hint Resolve conserves_leaf conserves_compactCondensed conserves_tokens conserves_tokens_or_zero : go.

Lemma conserves_until_under n convID budget prev res :
  keeps (conserves (≡ₚ)) (until_under fails now complete minute_stamp day_stamp n convID budget prev res).
Proof. revert prev res; induction n as [|n IH]; intros prev res; cbn [until_under]; keeps_auto. Qed.

Lemma conserves_loop fuel convID prev :
  keeps (conserves (≡ₚ)) (runCondensedLoop fails now complete day_stamp fuel convID prev).
Proof. revert prev; induction fuel as [|n IH]; intros prev; cbn [runCondensedLoop]; keeps_auto. Qed.

Lemma conserves_Compact convID budget force :
  keeps (conserves (≡ₚ)) (Compact fails now complete minute_stamp convID budget force).
Proof. unfold Compact. keeps_auto. Qed.
End Conserve.

#[export] Hint Resolve reads_GetContextItems reads_GetContextTokenCount reads_GetDistinctDepthsInContext
  reads_GetMessageByID reads_GetSummary reads_generateLeafSummary reads_generateCondensedSummary reads_load_messages
  reads_prior_summary reads_load_summaries reads_condensed_candidates reads_tokens_or_zero : go.
