(* ===== verification/SeahorseOrder.v ===== *)
(** * The context stays in order

    While no read fails, a context is summaries, the deeper ones first, and
    then messages. So a condensed chunk is contiguous, no item is moved, and
    the context stands for its messages in the order in which they came. *)

From S2P Require Import Prelude Effects GoStrings SeahorseStore SeahorseCompact SeahorseCover SeahorseConserve.
From stdpp Require Import sorting.

#[local] Open Scope Z_scope.

(** ** Settled contexts *)

(** Messages come below every summary. *)
Definition level (db : Store) (i : item) : Z :=
  match i with
  | IMessage _ => -1
  | ISummary id => match summaries db !! id with Some s => Depth s | None => 0 end
  end.

Definition falling (db : Store) (l : list item) : Prop := StronglySorted (fun i j => level db j <= level db i) l.

Definition settled (db : Store) : Prop := forall convID, falling db (map Item (context_of db convID)).

Lemma falling_app db l1 l2 :
  falling db (l1 ++ l2) <-> falling db l1 /\ falling db l2 /\ forall i j, i ∈ l1 -> j ∈ l2 -> level db j <= level db i.
Proof.
  unfold falling. induction l1 as [|c l1 IH]; cbn.
  - split; [intros H; split_and!; [constructor | done | intros a b Ha; by apply not_elem_of_nil in Ha] | tauto].
  - split.
    + intros [H1 H2]%StronglySorted_inv. apply IH in H1 as (F1 & F2 & F3). rewrite Forall_app in H2. destruct H2 as [G1 G2].
      split_and!; [by constructor | done |]. intros a b [->|Ha]%elem_of_cons Hb; [|auto].
      rewrite Forall_forall in G2. auto.
    + intros ([F1 G1]%StronglySorted_inv & F2 & F3). constructor.
      * apply IH. split_and!; [done | done |]. intros a b Ha Hb. apply F3; [by right | done].
      * rewrite Forall_app. split; [done|]. rewrite Forall_forall. intros b Hb. apply F3; [by left | done].
Qed.

Lemma falling_change db db' l : (forall i, i ∈ l -> level db' i = level db i) -> falling db l -> falling db' l.
Proof.
  unfold falling. induction l as [|i l IH]; intros He H; [constructor|]. apply StronglySorted_inv in H as [H1 H2].
  constructor; [apply IH; [|done]; intros j Hj; apply He; by right|]. rewrite Forall_forall in H2 |- *.
  intros j Hj. rewrite (He j), (He i); [by apply H2 | by left | by right].
Qed.

Lemma level_grows db db' i : grows db db' -> (forall id, i = ISummary id -> known db id) -> level db' i = level db i.
Proof. intros HG Hk. destruct i as [|id]; [done|]. cbn. destruct (HG id (Hk id eq_refl)) as (-> & _). done. Qed.

Lemma level_summary db id : wf db -> -1 < level db (ISummary id).
Proof.
  intros HW. cbn. destruct (summaries db !! id) eqn:E; [|lia]. destruct (wf_keys db HW id _ E). lia.
Qed.

Lemma message_level db c : wf db -> is_message c = true <-> level db (Item c) = -1.
Proof.
  intros HW. unfold is_message. destruct (Item c) as [|id]; [done|]. split; [done|].
  pose proof (level_summary db id HW). lia.
Qed.

(** What a step does to the contexts, when what it keeps is known to stay. *)
Lemma settled_other db db' convID :
  wf db -> kept eq db db' -> settled db -> falling db' (map Item (context_of db' convID)) ->
  (forall c, c <> convID -> context_of db' c = context_of db c) -> settled db'.
Proof.
  intros HW HK HS HF Ho c. destruct (decide (c = convID)) as [->|Hne]; [done|]. rewrite (Ho c Hne).
  eapply falling_change; [|apply HS]. intros i Hi. apply level_grows; [apply HK|]. intros id ->. by apply (cover_known db c).
Qed.

Lemma settled_same db db' : same db db' -> settled db -> settled db'.
Proof. intros [n ->] H c. apply (H c). Qed.

(** ** Leaf compaction *)

(** The chunk is the oldest messages of the context. *)
Lemma find_chunk_first db before run accum l b k :
  wf db -> find_chunk before run accum l = (b, k) -> falling db (map Item (before ++ run ++ l)) ->
  Forall (fun c => is_message c = false) before -> Forall (fun c => is_message c = true) run ->
  Forall (fun c => is_message c = false) b.
Proof.
  intros HW. revert before run accum; induction l as [|c l IH]; intros before run accum E HF Hb Hr; cbn [find_chunk] in E.
  { by injection E as <- _. }
  assert (Hc : is_message c = match Item c with IMessage _ => true | ISummary _ => false end) by done.
  destruct (Item c) as [m|id] eqn:Ei.
  - destruct (_ <=? _); [by injection E as <- _|]. apply IH in E; [done | by rewrite <- app_assoc | done |].
    apply Forall_app. split; [done | by constructor].
  - destruct (_ <=? _)%nat; [by injection E as <- _|]. destruct run as [|r run].
    + apply IH in E; [done | by rewrite <- app_assoc | | constructor]. apply Forall_app. split; [done | by constructor].
    + exfalso. rewrite !map_app in HF. apply falling_app in HF as (_ & (_ & _ & HF)%falling_app & _).
      apply Forall_cons in Hr as [Hr _]. apply (message_level db r HW) in Hr.
      specialize (HF (Item r) (Item c)). cbn [map] in HF. specialize (HF ltac:(by left) ltac:(by left)).
      rewrite Hr, Ei in HF. pose proof (level_summary db id HW). lia.
Qed.

Lemma leaf_chunk_first db convID force b k :
  wf db -> settled db -> leaf_chunk force (context_of db convID) = Some (b, k) -> Forall (fun c => is_message c = false) b.
Proof.
  intros HW HS. unfold leaf_chunk. destruct (_ && _); [done|]. destruct (find_chunk _ _ _ _) as [b' k'] eqn:E.
  destruct (_ <? _)%nat; [done|]. intros [= <- <-]. eapply find_chunk_first; [done | exact E | | constructor | constructor].
  cbn [app]. specialize (HS convID). rewrite <- (take_drop (if force then length (context_of db convID) else (length (context_of db convID) - FreshTailCount)%nat)
    (context_of db convID)), map_app in HS. by apply falling_app in HS as [HS _].
Qed.

Lemma messages_after db b f k a :
  wf db -> falling db (map Item (b ++ (f :: k) ++ a)) -> is_message f = true -> Forall (fun c => is_message c = true) a.
Proof.
  intros HW HF Hf. rewrite !map_app in HF. apply falling_app in HF as (_ & (_ & _ & HF)%falling_app & _).
  apply Forall_forall. intros c Hc. apply (message_level db c HW). apply (message_level db f HW) in Hf.
  specialize (HF (Item f) (Item c)). cbn [map] in HF. specialize (HF ltac:(by left)).
  assert (Hin : Item c ∈ map Item a) by (apply list_elem_of_fmap; by exists c). specialize (HF Hin).
  destruct (Item c) as [|id]; [done|]. pose proof (level_summary db id HW). lia.
Qed.

Lemma level_bounds db c : wf db -> -1 <= level db (Item c).
Proof. intros HW. destruct (Item c) as [|id]; [done|]. pose proof (level_summary db id HW). lia. Qed.

(** A new leaf between the summaries and the messages. *)
Lemma falling_leaf db b c a :
  wf db -> falling db (map Item b) -> Forall (fun c => is_message c = false) b -> Forall (fun c => is_message c = true) a ->
  falling db (map Item a) -> level db (Item c) = 0 -> falling db (map Item (b ++ c :: a)).
Proof.
  intros HW HFb Hb Ha HFa Hc. rewrite map_app. cbn [map]. rewrite Forall_forall in Hb, Ha.
  assert (Hba : forall i, i ∈ map Item b -> 0 <= level db i).
  { intros i (x & -> & Hx)%list_elem_of_fmap. pose proof (level_bounds db x HW). specialize (Hb x Hx).
    destruct (Z.eq_dec (level db (Item x)) (-1)) as [E|]; [|lia]. apply (message_level db x HW) in E. congruence. }
  assert (Haa : forall i, i ∈ map Item a -> level db i = -1).
  { intros i (x & -> & Hx)%list_elem_of_fmap. apply (message_level db x HW). auto. }
  apply falling_app. split_and!; [done | |].
  - constructor; [done|]. apply Forall_forall. intros i Hi. rewrite (Haa i Hi). lia.
  - intros i j Hi [->|Hj]%elem_of_cons; [specialize (Hba i Hi); lia|]. specialize (Hba i Hi). rewrite (Haa j Hj). lia.
Qed.

Lemma falling_parts db b k a :
  falling db (map Item (b ++ k ++ a)) -> falling db (map Item b) /\ falling db (map Item k) /\ falling db (map Item a).
Proof. rewrite !map_app. intros (H1 & (H2 & H3 & _)%falling_app & _)%falling_app. done. Qed.

Section Order.
Context (fails : nat -> bool) (now : nat -> time).
Context (complete : option (nat -> string -> Z -> bool -> result string string)).
Context (minute_stamp day_stamp : time -> string).

Lemma settled_contexts db db' :
  wf db -> kept eq db db' -> context_items db' = context_items db -> settled db -> settled db'.
Proof.
  intros HW HK HX HS. assert (HX' : forall c, context_of db' c = context_of db c) by (intros c; unfold context_of; by rewrite HX).
  apply (settled_other db db' 0); [done | done | done | | by intros c _].
  rewrite HX'. eapply falling_change; [|apply (HS 0)]. intros i Hi. apply level_grows; [apply HK|]. intros id ->.
  by apply (cover_known db 0).
Qed.

(** The plan of a leaf is applied to the context that it was made for. *)
Lemma settled_apply force convID id s e db d db' r :
  wf db -> settled db -> kept eq db d -> planned force db d convID id s e ->
  ReplaceContextRangeWithSummary fails convID s e id d = (db', r) -> settled db'.
Proof.
  intros HW HS HK HP E. pose proof HP as [P1 (sum & P2 & P2') P3 P4].
  pose proof (apply_plan fails force convID id s e db d db' r HW HK HP E) as (K1 & K2 & K3).
  apply (settled_other db db' convID); [done | done | done | | done].
  assert (Hold : forall i, i ∈ map Item (context_of db convID) -> level db' i = level db i).
  { intros i Hi. apply level_grows; [apply K1|]. intros j ->. by apply (cover_known db convID). }
  destruct K3 as [->|(b & k & a & c & K4 & K5 & K6 & ->)]; [eapply falling_change; [exact Hold | apply HS]|].
  assert (Hlev : level db' (Item c) = 0).
  { rewrite K6. cbn. assert (summaries db' = summaries d) as ->.
    { apply transaction_inv in E as [[-> _]|E]; [done|]. by injection E as <- _. }
    by rewrite P2. }
  pose proof (leaf_chunk_first db convID force b k HW HS K4) as Hb.
  pose proof (leaf_chunk_split _ _ _ _ K4) as [Hk _]. pose proof (HS convID) as HF. rewrite K5 in HF.
  assert (Ha : Forall (fun c => is_message c = true) a).
  { destruct k as [|f k].
    - destruct P4 as (b' & f & k' & a' & Hl & _). by rewrite K4 in Hl.
    - apply Forall_cons in Hk as [Hf _]. by eapply messages_after. }
  apply falling_parts in HF as (F1 & _ & F3). rewrite K5 in Hold. apply falling_leaf; [apply K1 | | done | done | | done].
  - eapply falling_change; [|exact F1]. intros i Hi. apply Hold. rewrite map_app. apply elem_of_app. by left.
  - eapply falling_change; [|exact F3]. intros i Hi. apply Hold. rewrite !map_app. apply elem_of_app. right. apply elem_of_app. by right.
Qed.

(** What compaction promises as long as no read fails. *)
Definition orderly (db db' : Store) : Prop := wf db -> settled db -> kept eq db db' /\ settled db'.

#[export] Instance orderly_preorder : PreOrder orderly.
Proof.
  split; [intros db HW HS; split; [exact (kept_same eq _ _ HW (reflexivity _)) | done]|]. intros d1 d2 d3 H1 H2 HW HS.
  destruct (H1 HW HS) as [K1 S1]. destruct (H2 (kept_wf _ _ _ K1) S1) as [K2 S2'].
  split; [|done]. by refine (kept_trans eq _ d2 _ HW K1 (fun _ => _)).
Qed.

Lemma orderly_reads {A} (m : S A) : keeps same m -> keeps orderly m.
Proof.
  apply keeps_weaken. intros d d' Hs HW HS. split; [exact (kept_same eq _ _ HW Hs) | by eapply settled_same].
Qed.

Lemma orderly_compactLeaf convID force : keeps orderly (compactLeaf fails now complete minute_stamp convID force).
Proof.
  intros db db' r E HW HS. pose proof (conserves_compactLeaf fails now complete minute_stamp convID force db db' r E HW) as HKK.
  split; [done|]. unfold compactLeaf in E.
  apply bind_inv in E as [(plan & d1 & E1 & E)|(e & E & _)].
  2:{ apply leaf_plan_spec in E as (HK & HX & _); [|done]. by apply (settled_contexts db). }
  apply leaf_plan_spec in E1 as (HK & HX & HP); [|done]. destruct plan as [[[id s] e]|].
  2:{ unfold ret in E. injection E as <- _. by apply (settled_contexts db). }
  apply bind_ret_inv in E as [r1 E]. by apply (settled_apply force convID id s e db d1 db' r1 HW HS HK (HP _ _ _ eq_refl)).
Qed.
End Order.

(** ** Condensed compaction *)

(** The candidates are next to each other, of one depth, behind deeper ones. *)
Definition adjacent (db : Store) (l : list ContextItem) (cs : list Summary) : Prop :=
  exists b k a d, l = b ++ k ++ a /\ map Item k = map ISummary (map SummaryID cs) /\
    Forall (fun s => Depth s = d) cs /\ Forall (fun c => d < level db (Item c)) b.

Lemma adjacent_nil db l : adjacent db l [].
Proof. exists [], [], l, 0. split_and!; [done | done | constructor | constructor]. Qed.

Lemma collect_adjacent fails d accum l db db' p :
  collect_at_depth fails d accum l db = (db', Ok p) -> wf db ->
  exists k a, l = k ++ a /\ map Item k = map ISummary (map SummaryID (fst p)) /\ Forall (fun s => Depth s = d) (fst p).
Proof.
  revert accum db db' p; induction l as [|c l IH]; intros accum db db' p E HW; cbn [collect_at_depth] in E.
  { unfold ret in E. injection E as _ <-. by exists [], []. }
  assert (Hstop : exists k a, c :: l = k ++ a /\ map Item k = map ISummary (map SummaryID []) /\ Forall (fun s => Depth s = d) []).
  { by exists [], (c :: l). }
  destruct (Item c) as [m|id] eqn:Ec; [unfold ret in E; by injection E as _ <-|].
  apply reads_bind in E as [[_ ?]|(r & d1 & E1 & S1 & E)]; [done| |auto with go].
  apply try_inv in E1 as (r0 & E1 & [= ->]).
  destruct r0 as [s|]; [|unfold ret in E; by injection E as _ <-].
  destruct (GetSummary_picked fails _ _ _ _ HW E1) as [Hs Hid].
  destruct (negb _ || _) eqn:Eg; [unfold ret in E; by injection E as _ <-|].
  apply orb_false_iff in Eg as [Eg _]. apply negb_false_iff, Z.eqb_eq in Eg.
  apply bind_inv in E as [(p' & d2 & E2 & E)|(e & _ & ?)]; [|done]. unfold ret in E. injection E as _ <-. cbn [fst].
  apply IH in E2 as (k & a & -> & Hk & HF); [|by eapply wf_same].
  exists (c :: k), a. cbn. rewrite Hk, Ec, Hid. split_and!; [done | done | by constructor].
Qed.

Lemma oldest_adjacent fails convID ds db db' ss :
  oldest_candidates fails convID ds db = (db', Ok ss) -> wf db -> adjacent db (context_of db convID) ss.
Proof.
  revert db db' ss; induction ds as [|d ds IH]; intros db db' ss E HW; cbn [oldest_candidates] in E.
  { unfold ret in E. injection E as _ <-. apply adjacent_nil. }
  apply reads_bind in E as [[_ ?]|(r & d1 & E1 & S1 & E)]; [done | | apply keeps_try, reads_selectOldestChunkAtDepth].
  assert (Hrest : oldest_candidates fails convID ds d1 = (db', Ok ss) -> adjacent db (context_of db convID) ss).
  { intros H%IH; [|by eapply wf_same]. by destruct S1 as [n ->]. }
  apply try_inv in E1 as (r0 & E1 & [= ->]). destruct r0 as [[|s ss']|]; [by apply Hrest | | by apply Hrest].
  unfold ret in E. injection E as _ <-. unfold selectOldestChunkAtDepth in E1.
  apply reads_bind in E1 as [[_ ?]|(items & d2 & E2 & S2' & E1)]; [done | | auto with go]. apply GetContextItems_Ok in E2 as ->.
  apply bind_inv in E1 as [(p & d3 & E3 & E1)|(e & _ & ?)]; [|done]. unfold ret in E1. injection E1 as _ E1.
  apply collect_adjacent in E3 as (k & a & E4 & E5 & E6); [|by eapply wf_same].
  destruct (_ <? _); [done|]. rewrite E1 in E5, E6. unfold before_tail in E4.
  exists [], k, (a ++ drop (length (context_of db convID) - FreshTailCount) (context_of db convID)), d.
  split_and!; [|done | done | constructor]. cbn [app]. by rewrite app_assoc, <- E4, take_drop.
Qed.

Lemma falling_split db l d :
  falling db (map Item l) ->
  l = List.filter (fun c => d <? level db (Item c)) l ++ List.filter (fun c => level db (Item c) =? d) l
      ++ List.filter (fun c => level db (Item c) <? d) l.
Proof.
  induction l as [|c l IH]; intros HF; [done|]. apply StronglySorted_inv in HF as [HF Hc]. specialize (IH HF).
  assert (Hle : forall x, x ∈ l -> level db (Item x) <= level db (Item c)).
  { intros x Hx. rewrite Forall_forall in Hc. apply Hc. apply list_elem_of_fmap. by exists x. }
  cbn [List.filter]. destruct (Z.lt_trichotomy d (level db (Item c))) as [Hd|[Hd|Hd]].
  - rewrite (proj2 (Z.ltb_lt _ _) Hd), (proj2 (Z.eqb_neq _ _)), (proj2 (Z.ltb_ge (level db (Item c)) d)) by lia.
    cbn [app]. by rewrite <- IH.
  - rewrite (filter_none (fun c => d <? _)) in IH |- * by (intros x Hx; specialize (Hle x Hx); lia).
    rewrite (proj2 (Z.ltb_ge d _)), (proj2 (Z.eqb_eq _ d)), (proj2 (Z.ltb_ge (level db (Item c)) d)) by lia.
    cbn [app] in *. by rewrite <- IH.
  - rewrite (filter_none (fun c => d <? _)) in IH |- * by (intros x Hx; specialize (Hle x Hx); lia).
    rewrite (filter_none (fun c => _ =? d)) in IH |- * by (intros x Hx; specialize (Hle x Hx); lia).
    rewrite (proj2 (Z.ltb_ge d _)), (proj2 (Z.eqb_neq _ d)), (proj2 (Z.ltb_lt (level db (Item c)) d)) by lia.
    cbn [app] in *. by rewrite <- IH.
Qed.

Definition loaded (db : Store) (ids : list string) : list Summary := omap (fun id => summaries db !! id) ids.

(** The summaries of a depth in the context, as items and as rows. *)
Lemma group_items db l d :
  wf db -> (forall id, ISummary id ∈ map Item l -> known db id) -> 0 <= d ->
  map Item (List.filter (fun c => level db (Item c) =? d) l)
  = map ISummary (map SummaryID (List.filter (fun s => Depth s =? d) (loaded db (summary_ids l)))).
Proof.
  intros HW. induction l as [|c l IH]; intros Hk Hd; [done|]. unfold loaded, summary_ids in *. cbn [List.filter omap list_omap].
  specialize (IH ltac:(intros id Hid; apply Hk; by right) Hd).
  destruct (Item c) as [m|id] eqn:Ec.
  - cbn [level]. assert ((-1 =? d) = false) as -> by lia. exact IH.
  - destruct (Hk id) as [s Hs]; [cbn; rewrite Ec; by left|]. cbn [level omap list_omap]. rewrite Hs.
    cbn [List.filter]. destruct (wf_keys db HW id s Hs) as [Hid _]. destruct (Depth s =? d); cbn [map]; [|exact IH].
    rewrite Ec, Hid. f_equal. exact IH.
Qed.

Definition never : nat -> bool := fun _ => false.

Lemma load_summaries_never ids db db' ss :
  load_summaries never ids db = (db', Ok ss) -> ss = loaded db ids.
Proof.
  revert db db' ss; induction ids as [|id ids IH]; intros db db' ss E; cbn [load_summaries] in E.
  { unfold ret in E. by injection E as _ <-. }
  unfold bind, try, GetSummary, transaction in E. cbn in E.
  assert (Hs : forall d, d = tick db -> loaded d ids = loaded db ids) by (by intros d ->).
  destruct (summaries db !! id) as [s|] eqn:El;
    destruct (load_summaries never ids (tick db)) as [d2 [ss'|]] eqn:E2; try done;
    injection E as _ <-; apply IH in E2; rewrite E2, Hs by done; unfold loaded; cbn; by rewrite El.
Qed.

Lemma loaded_self db ss : Forall (fun s => summaries db !! SummaryID s = Some s) ss -> loaded db (map SummaryID ss) = ss.
Proof. unfold loaded. induction 1 as [|s ss Hs _ IH]; [done|]. cbn. by rewrite Hs, IH. Qed.

Lemma Forall_filter {A} (P : A -> Prop) (p : A -> bool) l : Forall P l -> Forall P (List.filter p l).
Proof. intros H. apply Forall_forall. intros x [Hx _]%elem_of_List_filter. rewrite Forall_forall in H. auto. Qed.

Lemma loaded_rows db ids : wf db -> Forall (fun s => summaries db !! SummaryID s = Some s /\ 0 <= Depth s) (loaded db ids).
Proof.
  intros HW. apply Forall_forall. intros s Hs. unfold loaded in Hs. apply list_elem_of_omap in Hs as (id & _ & Hs).
  destruct (wf_keys db HW id s Hs) as [-> Hd]. done.
Qed.

Lemma shallowest_adjacent convID forced db db' ss :
  selectShallowestCondensationCandidate never convID forced db = (db', Ok ss) -> wf db -> settled db ->
  adjacent db (context_of db convID) ss.
Proof.
  intros E HW HS. unfold selectShallowestCondensationCandidate in E.
  apply reads_bind in E as [[_ ?]|(items & d1 & E1 & S1 & E)]; [done | | auto with go]. apply GetContextItems_Ok in E1 as ->.
  apply reads_bind in E as [[_ ?]|(found & d2 & E2 & S2' & E)]; [done | | auto with go].
  apply load_summaries_never in E2.
  assert (HL : forall d ids, same db d -> loaded d ids = loaded db ids) by (by intros d ids [n ->]).
  rewrite (HL d1) in E2 by done.
  set (l := before_tail (context_of db convID)) in *. set (n := if forced then _ else _) in E.
  destruct (find_first _ _) as [d|] eqn:Ef; [|unfold ret in E; injection E as _ <-; apply adjacent_nil].
  apply load_summaries_never in E. rewrite (HL d2) in E by (by transitivity d1).
  set (g := List.filter (fun s => Depth s =? d) found) in *.
  pose proof (loaded_rows db (summary_ids l) HW) as Hrows. rewrite <- E2 in Hrows.
  assert (Hg : Forall (fun s => (summaries db !! SummaryID s = Some s /\ 0 <= Depth s) /\ Depth s = d) (take n g)).
  { apply Forall_take, Forall_forall. intros s [Hs Hd]%elem_of_List_filter. rewrite Forall_forall in Hrows.
    split; [by apply Hrows | lia]. }
  rewrite loaded_self in E; [|eapply Forall_impl; [exact Hg | cbn; tauto]]. subst ss.
  destruct (take n g) as [|s0 g0] eqn:Eg; [apply adjacent_nil|]. rewrite <- Eg in *.
  assert (Hd : 0 <= d). { rewrite Eg in Hg. apply Forall_cons in Hg as [[[_ ?] <-] _]. done. }
  assert (HF : falling db (map Item l)).
  { specialize (HS convID). rewrite <- (take_drop (length (context_of db convID) - FreshTailCount) (context_of db convID)), map_app in HS.
    by apply falling_app in HS as [HS _]. }
  pose proof (falling_split db l d HF) as Hl. pose proof (group_items db l d HW) as Hgi. rewrite <- E2 in Hgi. fold g in Hgi.
  set (deep := List.filter (fun c => d <? _) l) in *. set (mid := List.filter (fun c => _ =? d) l) in *. set (low := List.filter _ l) in Hl.
  exists deep, (take n mid), (drop n mid ++ low ++ drop (length (context_of db convID) - FreshTailCount) (context_of db convID)), d.
  split_and!.
  - rewrite (app_assoc (take n mid)), take_drop, !app_assoc, <- (app_assoc deep mid low), <- Hl. symmetry. apply take_drop.
  - rewrite <- !firstn_map. f_equal. apply Hgi; [|done]. intros id Hid. apply (cover_known db convID); [done|].
    eapply elem_of_submseteq; [exact Hid|]. apply sublist_submseteq, map_sublist, before_tail_sublist.
  - eapply Forall_impl; [exact Hg | cbn; tauto].
  - apply Forall_forall. intros c [_ Hc]%elem_of_List_filter. lia.
Qed.

Lemma condensed_candidates_adjacent convID db db' ss :
  condensed_candidates never convID db = (db', Ok ss) -> wf db -> settled db -> adjacent db (context_of db convID) ss.
Proof.
  intros E HW HS. unfold condensed_candidates in E.
  apply reads_bind in E as [[_ ?]|(ds & d1 & E1 & S1 & E)]; [done | | auto with go].
  assert (HW1 : wf d1) by exact (wf_same _ _ S1 HW).
  apply bind_inv in E as [(oldest & d2 & E2 & E)|(e & _ & ?)]; [|done].
  pose proof (reads_oldest_candidates never _ _ _ _ _ E2) as S2'. apply oldest_adjacent in E2; [|done].
  assert (Ht : same d1 d2 -> same db d2) by (intros; by transitivity d1). specialize (Ht S2').
  destruct oldest as [|o os].
  - apply shallowest_adjacent in E; [|exact (wf_same _ _ Ht HW) | exact (settled_same _ _ Ht HS)]. by destruct Ht as [n ->].
  - unfold ret in E. injection E as _ <-. by destruct S1 as [n ->].
Qed.

(** ** Placing the summary of adjacent candidates *)

Lemma candidate_range_skip all p range a :
  (forall x, x ∈ a -> p x = false) -> candidate_range all p range a = (range, false).
Proof.
  induction a as [|x a IH]; intros Ha; [done|]. cbn [candidate_range]. rewrite (Ha x) by (by left). apply IH.
  intros y Hy. apply Ha. by right.
Qed.

Lemma candidate_range_run all p s e k a :
  (forall x, x ∈ a -> p x = false) -> (forall x, x ∈ k -> p x = true) -> ordered k -> (forall x, x ∈ k -> e < Ordinal x) -> s <= e ->
  (forall x, x ∈ all -> e < Ordinal x -> (forall y, y ∈ k -> Ordinal x <= Ordinal y -> p x = true)) ->
  candidate_range all p (Some (s, e)) (k ++ a) = (Some (s, match last k with Some z => Ordinal z | None => e end), false).
Proof.
  intros Ha. revert e; induction k as [|c k IH]; intros e Hk HO He Hse Hall; cbn [app].
  { by apply candidate_range_skip. }
  cbn [candidate_range]. rewrite (Hk c) by (by left). apply StronglySorted_inv in HO as [HO HF]. rewrite Forall_forall in HF.
  specialize (He c ltac:(by left)) as Hc. destruct (existsb _ all) eqn:Ex.
  { apply existsb_exists in Ex as (x & Hx%list_elem_of_In & Hb). breflect.
    rewrite (Hall x Hx) with (y := c) in *; [done | lia | by left | lia]. }
  replace (Z.min s (Ordinal c)) with s by lia. replace (Z.max e (Ordinal c)) with (Ordinal c) by lia.
  rewrite IH; [| by intros x Hx; apply Hk; right | done | exact HF | lia |].
  - destruct k as [|c' k]; [done|]. rewrite last_cons_cons. destruct (last (c' :: k)) eqn:El; [done|].
    by apply last_None in El.
  - intros x Hx Hlt y Hy Hle. apply (Hall x Hx ltac:(lia) y ltac:(by right) Hle).
Qed.

Lemma last_ordinal f k : match last k with Some z => Ordinal z | None => Ordinal f end = Ordinal (List.last (f :: k) f).
Proof.
  revert f. assert (H : forall f d, match last k with Some z => Ordinal z | None => Ordinal f end = Ordinal (List.last (f :: k) d)).
  { induction k as [|c k IH]; intros f d; [done|]. specialize (IH c d). change (List.last (f :: c :: k) d) with (List.last (c :: k) d).
    rewrite <- IH. destruct k as [|c' k]; [done|]. rewrite last_cons_cons. destruct (last (c' :: k)) eqn:El; [done|].
    by apply last_None in El. }
  intros f. apply H.
Qed.

Lemma candidate_range_adjacent p b f k a :
  ordered (b ++ (f :: k) ++ a) -> (forall x, x ∈ b ++ a -> p x = false) -> (forall x, x ∈ f :: k -> p x = true) ->
  candidate_range (b ++ (f :: k) ++ a) p None (b ++ (f :: k) ++ a)
  = (Some (Ordinal f, Ordinal (List.last (f :: k) f)), false).
Proof.
  intros HO Hno Hyes. set (all := b ++ (f :: k) ++ a) at 1. pose proof (ordered_chunk b f k a HO) as (H1 & H2 & H3 & H4).
  assert (Hskip : forall l l', (forall x, x ∈ l -> p x = false) -> candidate_range all p None (l ++ l') = candidate_range all p None l').
  { induction l as [|x l IH]; intros l' Hl; [done|]. cbn [app candidate_range]. rewrite (Hl x) by (by left). apply IH.
    intros y Hy. apply Hl. by right. }
  rewrite Hskip by (intros x Hx; apply Hno, elem_of_app; by left). cbn [app candidate_range]. rewrite (Hyes f) by (by left).
  apply ordered_app in HO as (_ & (O2 & _ & _)%ordered_app & _). apply StronglySorted_inv in O2 as [O2 OF]. rewrite Forall_forall in OF.
  rewrite candidate_range_run; [by rewrite last_ordinal | | by intros x Hx; apply Hyes; right | done | exact OF | lia |].
  - intros x Hx. apply Hno, elem_of_app. by right.
  - intros x Hx Hlt y Hy Hle. subst all. apply elem_of_app in Hx as [Hx|[Hx|Hx]%elem_of_app].
    + specialize (H1 x Hx). lia.
    + by apply Hyes.
    + specialize (H3 x Hx). specialize (H2 y ltac:(by right)). lia.
Qed.

(** In a context without repetition the candidates are where they are. *)
Lemma is_summary_of_adjacent ids b k a x :
  map Item k = map ISummary ids -> NoDup (map Item (b ++ k ++ a)) -> (x ∈ b ++ a -> is_summary_of ids x = false) /\
  (x ∈ k -> is_summary_of ids x = true).
Proof.
  intros Hk HN. unfold is_summary_of. split; intros Hx.
  - destruct (Item x) as [|i] eqn:Ei; [done|]. apply bool_decide_eq_false. intros Hi.
    assert (Hin : ISummary i ∈ map Item k) by (rewrite Hk; apply list_elem_of_fmap; by exists i).
    rewrite !map_app in HN. apply NoDup_app in HN as (_ & N1 & (_ & N2 & _)%NoDup_app).
    assert (Hmx : forall l, x ∈ l -> ISummary i ∈ map Item l) by (intros l Hl; apply list_elem_of_fmap; by exists x).
    apply elem_of_app in Hx as [Hx|Hx]; [apply (N1 (ISummary i) (Hmx b Hx)), elem_of_app; by left | by apply (N2 _ Hin), Hmx].
  - assert (Hin : Item x ∈ map Item k) by (apply list_elem_of_fmap; by exists x). rewrite Hk in Hin.
    apply list_elem_of_fmap in Hin as (i & -> & Hi). by apply bool_decide_eq_true.
Qed.

Lemma place_adjacent fails convID ids id b f k a db db' r :
  place_condensed fails convID ids id db = (db', r) -> wf db ->
  context_of db convID = b ++ (f :: k) ++ a -> map Item (f :: k) = map ISummary ids -> known db id ->
  ISummary id ∉ map Item (context_of db convID) -> covered db id = flat_map (covered db) ids ->
  kept eq db db' /\ summaries db' = summaries db /\ (forall c, c <> convID -> context_of db' c = context_of db c) /\
  (context_of db' convID = context_of db convID \/
   exists c, Item c = ISummary id /\ context_of db' convID = b ++ c :: a).
Proof.
  intros E HW HC Hk Hkn Hid Hcov. unfold place_condensed in E.
  apply reads_bind in E as [[Hs _]|(items & d & E1 & Hs & E)]; [ | | auto with go].
  { split_and!; [exact (kept_same eq _ _ HW Hs) | by destruct Hs as [n ->].. | left; by destruct Hs as [n ->]]. }
  apply GetContextItems_Ok in E1 as ->.
  assert (HX : forall c, context_of d c = context_of db c) by (by destruct Hs as [n ->]).
  destruct (wf_contexts db HW convID) as [W1 _ W3 _]. rewrite HC in E, W1, W3.
  rewrite candidate_range_adjacent in E;
    [|done | intros x Hx; by eapply is_summary_of_adjacent | intros x Hx; by eapply (is_summary_of_adjacent ids b (f :: k) a)].
  apply bind_ret_inv in E as [r1 E].
  assert (Hsum : summaries db' = summaries d) by (by apply transaction_inv in E as [[-> _]|E]; [|injection E as <- _]).
  apply (replace_chunk fails convID b f k a) in E as (K1 & K2 & K3);
    [| exact (wf_same _ _ Hs HW) | by rewrite HX | | by rewrite HX |].
  - split_and!; [exact (kept_after_same eq _ _ _ HW Hs (fun _ => K1)) | rewrite Hsum; by destruct Hs as [n ->] | |].
    + intros c Hc. by rewrite K2, HX.
    + by rewrite <- HX.
  - unfold known. by destruct Hs as [n ->].
  - assert (HG : graph d = graph db) by (by destruct Hs as [n ->]).
    rewrite (covered_graph db d), (items_cover_graph db d), Hcov, Hk by done. symmetry. apply items_cover_summaries.
Qed.

Lemma max_depth d ss : 0 <= d -> Forall (fun s => Depth s = d) ss -> ss <> [] -> fold_left (fun m c => Z.max m (Depth c)) ss 0 = d.
Proof.
  intros Hd HF Hne. destruct ss as [|s ss]; [done|]. apply Forall_cons in HF as [Hs HF]. cbn [fold_left].
  replace (Z.max 0 (Depth s)) with d by lia. clear s Hs Hne. induction HF as [|s ss Hs HF IH]; [done|]. cbn [fold_left].
  by replace (Z.max d (Depth s)) with d by lia.
Qed.

(** A deeper summary in place of adjacent ones. *)
Lemma falling_condensed db b f k a c d :
  falling db (map Item (b ++ (f :: k) ++ a)) -> (forall x, x ∈ b -> d < level db (Item x)) -> level db (Item f) = d ->
  level db (Item c) = d + 1 -> falling db (map Item (b ++ c :: a)).
Proof.
  intros HF Hb Hf Hc. pose proof HF as HF'. apply falling_parts in HF' as (F1 & _ & F3). rewrite !map_app in HF. rewrite map_app. cbn [map].
  apply falling_app in HF as (_ & (_ & _ & HF2)%falling_app & HF1). cbn [map] in HF2.
  assert (Ha : forall j, j ∈ map Item a -> level db j <= d) by (intros j Hj; rewrite <- Hf; apply HF2; [by left | done]).
  assert (Hb' : forall i, i ∈ map Item b -> d < level db i) by (intros i (x & -> & Hx)%list_elem_of_fmap; auto).
  apply falling_app. split_and!; [done | |].
  - constructor; [done|]. apply Forall_forall. intros j Hj. specialize (Ha j Hj). lia.
  - intros i j Hi [->|Hj]%elem_of_cons; [specialize (Hb' i Hi); lia|]. specialize (Hb' i Hi). specialize (Ha j Hj). lia.
Qed.

Section Condensed.
Context (now : nat -> time).
Context (complete : option (nat -> string -> Z -> bool -> result string string)).
Context (minute_stamp day_stamp : time -> string).

(** The new summary is made and put in place. *)
Lemma orderly_place convID content cs db db1 s db' r :
  wf db -> settled db -> picked db (summary_ids (context_of db convID)) cs -> adjacent db (context_of db convID) cs -> cs <> [] ->
  CreateSummary never now (merged convID content cs) (map SummaryID cs) db = (db1, Ok s) ->
  place_condensed never convID (map SummaryID cs) (SummaryID s) db1 = (db', r) -> kept eq db db' /\ settled db'.
Proof.
  intros HW HS HP (b & k & a & d & HC & Hk & Hdep & Hb) Hne E1 E2.
  pose proof (picked_depth db _ _ 0 HP) as Hpar.
  assert (Hd : 0 <= d).
  { destruct cs as [|c0 cs]; [done|]. apply Forall_cons in Hdep as [<- _]. destruct HP as [HP _]. apply Forall_cons in HP as [HP _].
    by destruct (wf_keys db HW _ _ HP). }
  assert (Hmd : Depth (merged convID content cs) = d + 1) by (cbn; by rewrite (max_depth d)).
  apply CreateSummary_spec in E1 as (K1 & X1 & HCr); [|done | lia | exact Hpar]. specialize (HCr s eq_refl).
  pose proof HCr as [F1 F2 F3 _ _ _]. assert (HW1 : wf db1) by apply K1.
  assert (HX : forall c, context_of db1 c = context_of db c) by (intros c; unfold context_of; by rewrite X1).
  destruct k as [|f k]; [destruct cs; [done | by cbn in Hk]|].
  assert (Hold : forall i, i ∈ map Item (context_of db convID) -> level db1 i = level db i).
  { intros i Hi. apply level_grows; [apply K1|]. intros j ->. by apply (cover_known db convID). }
  apply (place_adjacent never convID _ _ b f k a) in E2 as (K2 & S2' & O2 & C2);
    [|done | by rewrite HX | done | by eexists | rewrite HX; by apply fresh_not_in_context | ].
  2:{ eapply created_covered; [exact HW | exact HCr | apply K1 | exact Hpar | lia]. }
  assert (K : kept eq db db') by exact (kept_trans eq _ db1 _ HW K1 (fun _ => K2)). split; [done|].
  apply (settled_other db db' convID); [done | done | done | | intros c Hc; by rewrite O2].
  assert (Hl' : forall i, level db' i = level db1 i) by (intros [|]; cbn; [done | by rewrite S2']).
  assert (HF : falling db1 (map Item (context_of db convID))) by (eapply falling_change; [exact Hold | apply HS]).
  rewrite HX in C2. destruct C2 as [->|(c & Hc & ->)]; [by apply (falling_change db1)|].
  apply (falling_change db1); [done|]. rewrite HC in HF, Hold. apply (falling_condensed db1 b f k a c d); [done | | |].
  - intros x Hx. rewrite Hold, Forall_forall in * by (apply list_elem_of_fmap; exists x; split; [done|]; apply elem_of_app; by left). auto.
  - rewrite Hold by (apply list_elem_of_fmap; exists f; split; [done|]; apply elem_of_app; right; by left).
    destruct cs as [|c0 cs]; [done|]. injection Hk as -> _. cbn. destruct HP as [HP _]. apply Forall_cons in HP as [-> _].
    by apply Forall_cons in Hdep as [-> _].
  - rewrite Hc. cbn. by rewrite F2, F3.
Qed.

Lemma orderly_compactCondensed convID : keeps orderly (compactCondensed never now complete day_stamp convID).
Proof.
  intros db db' r E HW HS. unfold compactCondensed in E.
  apply reads_bind in E as [[Hs _]|(cs & d1 & E1 & S1 & E)]; [ | | apply reads_condensed_candidates].
  { split; [exact (kept_same eq _ _ HW Hs) | exact (settled_same _ _ Hs HS)]. }
  pose proof (condensed_candidates_picked never _ _ _ _ E1 HW) as HP.
  pose proof (condensed_candidates_adjacent _ _ _ _ E1 HW HS) as HA. destruct cs as [|c0 cs0].
  { unfold ret in E. injection E as <- _. split; [exact (kept_same eq _ _ HW S1) | exact (settled_same _ _ S1 HS)]. }
  assert (Hne : c0 :: cs0 <> []) by done. set (cs := c0 :: cs0) in *. clearbody cs. clear c0 cs0.
  apply reads_bind in E as [[Hs _]|(content & d2 & _ & S2' & E)]; [ | | auto with go].
  { assert (H : same db db') by (by transitivity d1). split; [exact (kept_same eq _ _ HW H) | exact (settled_same _ _ H HS)]. }
  assert (Hs : same db d2) by (by transitivity d1). clear S1 S2'.
  pose proof (wf_same _ _ Hs HW) as HW2. pose proof (settled_same _ _ Hs HS) as HS2.
  assert (Hgoal : kept eq d2 db' /\ settled db').
  2:{ destruct Hgoal as [K ?]. split; [exact (kept_after_same eq _ _ _ HW Hs (fun _ => K)) | done]. }
  assert (HP2 : picked d2 (summary_ids (context_of d2 convID)) cs) by (by destruct Hs as [n ->]).
  assert (HA2 : adjacent d2 (context_of d2 convID) cs) by (by destruct Hs as [n ->]).
  apply bind_inv in E as [(s & d3 & E3 & E)|(e & E & _)]; [by eapply orderly_place|].
  apply CreateSummary_spec in E as (K & X & _); [|done | cbn; apply Z.add_nonneg_nonneg; [by apply merged_depth | done] | by apply (picked_depth _ _ _ 0 HP2)].
  split; [done | by apply (settled_contexts d2)].
Qed.

Lemma orderly_leaf convID force : keeps orderly (compactLeaf never now complete minute_stamp convID force).
Proof. apply orderly_compactLeaf. Qed.
Lemma orderly_tokens convID : keeps orderly (GetContextTokenCount never convID).
Proof. apply orderly_reads, reads_GetContextTokenCount. Qed.
Lemma orderly_tokens_or_zero convID : keeps orderly (tokens_or_zero never convID).
Proof. apply orderly_reads, reads_tokens_or_zero. Qed.
#[local] Hint Resolve orderly_leaf orderly_compactCondensed orderly_tokens orderly_tokens_or_zero : go.

Lemma orderly_until_under n convID budget prev res :
  keeps orderly (until_under never now complete minute_stamp day_stamp n convID budget prev res).
Proof. revert prev res; induction n as [|n IH]; intros prev res; cbn [until_under]; keeps_auto. Qed.

Lemma orderly_loop fuel convID prev : keeps orderly (runCondensedLoop never now complete day_stamp fuel convID prev).
Proof. revert prev; induction fuel as [|n IH]; intros prev; cbn [runCondensedLoop]; keeps_auto. Qed.

Lemma orderly_Compact convID budget force : keeps orderly (Compact never now complete minute_stamp convID budget force).
Proof. unfold Compact. keeps_auto. Qed.
End Condensed.
