(* ===== verification/SeahorseEngine.v ===== *)
(** * The engine: [src/pkg/seahorse/short_engine.go], [short_assembler.go]

    Sessions, ingestion of messages, reconciliation with the history of a
    session, and the assembly of a context under a budget. *)

From S2P Require Import Prelude Effects GoStrings GoLib.
Import GoRegexp Utf8.
From S2P Require Import SeahorseStore SeahorseCompact.

(** ** Sessions *)

(** A byte of the pattern stands for the rune with its number. *)
Definition pattern_byte (c : ascii) : regex := ALit (string_of_runes [code c]).

Definition not_colon : cls := fun c => negb (Ascii.eqb c ":").

Fixpoint pattern_atoms (l : list ascii) : regex :=
  match l with
  | [] => []
  | c :: l' =>
      if Ascii.eqb c "*" then
        match l' with
        | d :: l'' => if Ascii.eqb d "*" then AStar cAny :: pattern_atoms l'' else AStar not_colon :: pattern_atoms l'
        | [] => [AStar not_colon]
        end
      else pattern_byte c ++ pattern_atoms l'
  end.

Definition compileSessionPattern (pattern : string) : regex := [ABegin] ++ pattern_atoms (chars pattern) ++ [AEnd].

Definition compileSessionPatterns (patterns : list string) : list regex :=
  map compileSessionPattern (List.filter (fun p => negb (String.eqb p "")) patterns).

(** FNV-1a over the runes. *)
Definition fnv32 (key : string) : Z :=
  fold_left (fun h c => Z.lxor h c * 16777619 mod 2 ^ 32) (runes key) 2166136261.

Definition numSessionShards : Z := 256.
Definition getSessionMutex (sessionKey : string) : Z := fnv32 sessionKey mod numSessionShards.

Record Engine : Type := mkEngine { ignorePatterns : list regex; statelessPatterns : list regex }.

Definition NewEngine (IgnoreSessionPatterns StatelessSessionPatterns : list string) : Engine :=
  mkEngine (compileSessionPatterns ("heartbeat" :: IgnoreSessionPatterns)) (compileSessionPatterns StatelessSessionPatterns).

Definition shouldIgnoreSession (e : Engine) (sessionKey : string) : bool :=
  existsb (fun p => MatchString p sessionKey) (ignorePatterns e).
Definition isStatelessSession (e : Engine) (sessionKey : string) : bool :=
  existsb (fun p => MatchString p sessionKey) (statelessPatterns e).

(** ** Comparison of messages *)

Definition part_matches (a b : MessagePart) : bool :=
  String.eqb (PartType a) (PartType b) &&
  (if String.eqb (PartType a) "text" then String.eqb (Text a) (Text b)
   else if String.eqb (PartType a) "tool_use" then
     String.eqb (PartName a) (PartName b) && String.eqb (Arguments a) (Arguments b)
     && String.eqb (PartToolCallID a) (PartToolCallID b)
   else if String.eqb (PartType a) "tool_result" then
     String.eqb (PartToolCallID a) (PartToolCallID b) && String.eqb (Text a) (Text b)
   else if String.eqb (PartType a) "media" then
     String.eqb (MediaURI a) (MediaURI b) && String.eqb (MimeType a) (MimeType b)
   else true).

Fixpoint partsMatch (a b : list MessagePart) : bool :=
  match a, b with
  | [], [] => true
  | x :: a', y :: b' => part_matches x y && partsMatch a' b'
  | _, _ => false
  end.

Definition messageMatches (a b : Message) : bool :=
  String.eqb (Role a) (Role b) &&
  match Parts a, Parts b with
  | [], [] => String.eqb (Content a) (Content b)
  | _, _ => partsMatch (Parts a) (Parts b)
  end.

(** ** Operations of the engine *)

Section Engine.
Context (fails : nat -> bool) (now : nat -> time).
Context (complete : option (nat -> string -> Z -> bool -> result string string)).
Context (minute_stamp day_stamp : time -> string).
Context (e : Engine).

Fixpoint add_messages (convID : Z) (ms : list Message) : S (list Z) :=
  match ms with
  | [] => ret []
  | m :: ms' =>
      let! added :=
        match Parts m with
        | [] => AddMessage fails now convID (Role m) (Content m) (TokenCount m)
        | _ => AddMessageWithParts fails now convID (Role m) (Parts m) (TokenCount m)
        end in
      let! ids := add_messages convID ms' in
      ret (ID added :: ids)
  end.

(** The numbers of messages and of tokens. *)
Definition Ingest (sessionKey : string) (ms : list Message) : S (option (Z * Z)) :=
  if shouldIgnoreSession e sessionKey || isStatelessSession e sessionKey then ret None
  else
    let! convID := GetOrCreateConversation fails sessionKey in
    let! ids := add_messages convID ms in
    let! _ := AppendContextMessages fails convID ids in
    ret (Some (Z.of_nat (length ms), sumMessageTokens ms)).

Definition EngineCompact (sessionKey : string) (budget : option Z) (force : bool) : S (CompactResult * option Z) :=
  if shouldIgnoreSession e sessionKey || isStatelessSession e sessionKey then ret (mkResult [] 0 0 0, None)
  else
    let! convID := GetOrCreateConversation fails sessionKey in
    let! p := Compact fails now complete minute_stamp convID budget force in
    ret (fst p, if snd p then Some convID else None).

Definition EngineCompactUntilUnder (sessionKey : string) (budget : Z) : S CompactResult :=
  if shouldIgnoreSession e sessionKey || isStatelessSession e sessionKey then ret (mkResult [] 0 0 0)
  else
    let! convID := GetOrCreateConversation fails sessionKey in
    CompactUntilUnder fails now complete minute_stamp day_stamp convID budget.

(** The number of messages at the start that match. *)
Fixpoint matching (a b : list Message) : nat :=
  match a, b with
  | x :: a', y :: b' => if messageMatches x y then Datatypes.S (matching a' b') else O
  | _, _ => O
  end.

Definition Bootstrap (sessionKey : string) (ms : list Message) : S unit :=
  if shouldIgnoreSession e sessionKey || isStatelessSession e sessionKey || (length ms =? 0)%nat then ret tt
  else
    let! convID := GetOrCreateConversation fails sessionKey in
    let! dbMsgs := GetMessages fails convID (length ms) 0 in
    let n := matching dbMsgs ms in
    if ((length dbMsgs =? length ms) && (n =? length ms))%nat then ret tt
    else
      match n, dbMsgs with
      | O, [] => let! _ := Ingest sessionKey ms in ret tt
      | O, _ :: _ =>
          let! _ := DeleteMessagesAfterID fails convID 0 in
          let! _ := Ingest sessionKey ms in ret tt
      | Datatypes.S anchor, _ =>
          if (n <? length dbMsgs)%nat then
            let! _ := DeleteMessagesAfterID fails convID (match nth_error dbMsgs anchor with Some m => ID m | None => 0 end) in
            match drop n ms with
            | [] => ret tt
            | delta => let! _ := Ingest sessionKey delta in ret tt
            end
          else
            match drop n ms with
            | [] => ret tt
            | delta => let! _ := Ingest sessionKey delta in ret tt
            end
      end.
End Engine.

(** ** Assembly: [short_assembler.go] *)

(** [strings.ReplaceAll] of one byte by a text. *)
Definition replace_byte (c : ascii) (by_text : string) (s : string) : string :=
  implode (flat_map (fun d => if Ascii.eqb d c then chars by_text else [d]) (chars s)).

Definition escapeXML (s : string) : string :=
  replace_byte "'" "&apos;" (replace_byte (ascii_of_nat 34) "&quot;" (replace_byte ">" "&gt;"
    (replace_byte "<" "&lt;" (replace_byte "&" "&amp;" s)))).

(** An item with its content; no item has neither. *)
Record resolvedItem : Type := mkResolved { resolved : Message + Summary; tokenCount : Z }.

Record AssembleResult : Type := mkAssembled { Messages : list Message; SummaryText : string }.

Definition item_tokens (c : ContextItem) (tokens : Z) : Z := if ItemTokens c =? 0 then tokens else ItemTokens c.

Definition tokens_of (l : list resolvedItem) : Z := fold_right (fun r n => tokenCount r + n) 0 l.

(** From the newest, as long as they fit. *)
Fixpoint newest_fitting (remaining accum : Z) (newest_first : list resolvedItem) : list resolvedItem :=
  match newest_first with
  | [] => []
  | r :: rest =>
      if accum + tokenCount r <=? remaining then r :: newest_fitting remaining (accum + tokenCount r) rest else []
  end.

(** What is sent of the resolved items under a budget. *)
Definition select (budget : Z) (l : list resolvedItem) : list resolvedItem :=
  let tailStart := (length l - FreshTailCount)%nat in
  let evictable := take tailStart l in
  let freshTail := drop tailStart l in
  let remaining := Z.max 0 (budget - tokens_of freshTail) in
  (if tokens_of evictable <=? remaining then evictable else rev (newest_fitting remaining 0 (rev evictable))) ++ freshTail.

Definition kind_text (k : SummaryKind) : string :=
  match k with SummaryKindLeaf => "leaf" | SummaryKindCondensed => "condensed" end.

Definition attr (name value : string) : string := name +:+ "=" +:+ quoted value.

Definition heavily_compressed : string := lines
  ["Your context has been heavily compressed through multi-level summarization.";
   "- Do NOT assert specific facts (commands, SHAs, paths, timestamps) from summaries without expanding.";
   "- When uncertain, use expand to recover original detail before making claims.";
   "- Tool escalation: grep " +:+ string_of_runes [8594] +:+ " describe " +:+ string_of_runes [8594] +:+ " expand"].

Definition systemPromptAddition (ss : list Summary) : string :=
  match ss with
  | [] => ""
  | _ =>
      if (2 <=? fold_left (fun d s => Z.max d (Depth s)) ss 0)
         || (2 <=? length (List.filter (fun s => match Kind s with SummaryKindCondensed => true | SummaryKindLeaf => false end) ss))%nat
      then heavily_compressed
      else "Some earlier messages have been summarized. Use expand tools to recover details if needed."
  end.

Section Assemble.
Context (fails : nat -> bool) (rfc3339 : time -> string).

Definition FormatSummaryXML (s : Summary) (parentIDs : list string) : string :=
  let time_attr name t := match t with Some t => " " +:+ attr name (rfc3339 t) | None => "" end in
  let refs := String.concat "" (map (fun id => "    <summary_ref " +:+ attr "id" id +:+ " />" +:+ nl) parentIDs) in
  let parents :=
    match Kind s, parentIDs with
    | SummaryKindCondensed, _ :: _ => "<parents>" +:+ nl +:+ refs +:+ "  </parents>" +:+ nl
    | _, _ => ""
    end in
  "<summary " +:+ attr "id" (SummaryID s) +:+ " " +:+ attr "kind" (kind_text (Kind s)) +:+ " "
  +:+ attr "depth" (itoa (Depth s)) +:+ " " +:+ attr "descendant_count" (itoa (DescendantCount s))
  +:+ time_attr "earliest_at" (EarliestAt s) +:+ time_attr "latest_at" (LatestAt s) +:+ ">" +:+ nl
  +:+ "  <content>" +:+ nl +:+ "    " +:+ escapeXML (SummaryContent s) +:+ nl +:+ "  </content>" +:+ nl
  +:+ parents +:+ "</summary>".

Definition resolveItem (c : ContextItem) : S resolvedItem :=
  match Item c with
  | IMessage id =>
      let! m := GetMessageByID fails id in
      ret (mkResolved (inl m) (item_tokens c (TokenCount m)))
  | ISummary id =>
      let! s := GetSummary fails id in
      ret (mkResolved (inr s) (item_tokens c (SummaryTokens s)))
  end.

Fixpoint resolve_all (items : list ContextItem) : S (list resolvedItem) :=
  match items with
  | [] => ret []
  | c :: rest => let! r := resolveItem c in let! rs := resolve_all rest in ret (r :: rs)
  end.

(** Parents that cannot be read are left out. *)
Fixpoint summary_parts (ss : list Summary) : S (list string) :=
  match ss with
  | [] => ret []
  | s :: rest =>
      if String.eqb (SummaryContent s) "" then summary_parts rest
      else
        let! r := try (GetSummaryParents fails (SummaryID s)) in
        let! parts := summary_parts rest in
        ret (FormatSummaryXML s (map SummaryID (match r with Ok ps => ps | Err _ => [] end)) :: parts)
  end.

Definition the_messages (l : list resolvedItem) : list Message :=
  omap (fun r => match resolved r with inl m => Some m | inr _ => None end) l.
Definition the_summaries (l : list resolvedItem) : list Summary :=
  omap (fun r => match resolved r with inl _ => None | inr s => Some s end) l.

Definition Assemble (convID budget : Z) : S AssembleResult :=
  let! items := GetContextItems fails convID in
  match items with
  | [] => ret (mkAssembled [] "")
  | _ =>
      let! rs := resolve_all items in
      let final := select budget rs in
      let! parts := summary_parts (the_summaries final) in
      let summary := join (nl +:+ nl) parts in
      let addition := systemPromptAddition (the_summaries final) in
      ret (mkAssembled (the_messages final)
        (if String.eqb addition "" then summary
         else (if String.eqb summary "" then "" else summary +:+ nl +:+ nl) +:+ addition))
  end.

(** No result for an ignored session. *)
Definition EngineAssemble (e : Engine) (sessionKey : string) (budget : Z) : S (option AssembleResult) :=
  if shouldIgnoreSession e sessionKey then ret None
  else
    let! convID := GetOrCreateConversation fails sessionKey in
    let! r := Assemble convID budget in
    ret (Some r).
End Assemble.
