(* ===== verification/SeahorseHistory.v ===== *)
(** * The context stands for the conversation

    As long as no query fails, whatever sequence of ingestions,
    reconciliations and compactions is run, the context of a conversation
    stands for exactly the messages of the conversation, in order. *)

From S2P Require Import Prelude Effects GoStrings GoLib.
Import GoRegexp.
From S2P Require Import SeahorseStore SeahorseCompact SeahorseCover SeahorseConserve SeahorseOrder SeahorseEngine.
From stdpp Require Import sorting.

#[local] Open Scope Z_scope.

(** ** Consistent stores *)

Definition rows (db : Store) (convID : Z) : list Message :=
  List.filter (fun m => ConversationID m =? convID) (messages db).

Definition rising (l : list Message) : Prop := StronglySorted (fun a b => ID a < ID b) l.

Record consistent (db : Store) : Prop := {
  c_wf : wf db;
  c_settled : settled db;
  c_rising : rising (messages db);
  c_ids : Forall (fun m => 0 < ID m < next_message db) (messages db);
  c_next : 0 < next_message db;
  c_cover : forall convID, cover db convID = map ID (rows db convID)
}.

Lemma empty_consistent : consistent empty_store.
Proof.
  assert (Hx : forall c, context_of empty_store c = []) by done. split.
  - split; [| by intros ?? | intros ?? H; by apply not_elem_of_nil in H | intros ?? H; by apply not_elem_of_nil in H].
    intros c. rewrite Hx. split; [constructor | constructor | constructor | intros ?? H; by apply not_elem_of_nil in H].
  - intros c. rewrite Hx. constructor.
  - constructor.
  - constructor.
  - done.
  - done.
Qed.

(** Steps that touch neither the messages nor what the contexts stand for. *)
Lemma consistent_kept db db' : consistent db -> kept eq db db' -> settled db' -> consistent db'.
Proof.
  intros [C1 C2 C3 C4 C5 C6] [K1 K2 K3 K4 K5 K6] HS. split; [done | done | by rewrite K3 | by rewrite K3, K4 | by rewrite K4 |].
  intros c. rewrite K6, C6. unfold rows. by rewrite K3.
Qed.

Lemma consistent_orderly db db' : consistent db -> orderly db db' -> consistent db'.
Proof. intros HC HO. destruct (HO (c_wf _ HC) (c_settled _ HC)). by eapply consistent_kept. Qed.

(** A session gets its conversation. *)
Lemma GetOrCreateConversation_spec key db db' r :
  GetOrCreateConversation never key db = (db', r) -> consistent db ->
  exists id, r = Ok id /\ conversations db' !! key = Some id /\ messages db' = messages db /\
    next_message db' = next_message db /\ context_items db' = context_items db /\ consistent db'.
Proof.
  intros E HC. unfold GetOrCreateConversation, transaction in E. cbn in E. destruct (conversations db !! key) as [id|] eqn:Ek.
  - injection E as <- <-. exists id. split_and!; try done. eapply consistent_orderly; [done | ].
    intros HW HS. split; [exact (kept_same eq _ _ HW (same_tick db)) | done].
  - injection E as <- <-. exists (next_conversation db). cbn. rewrite lookup_insert_eq. split_and!; try done.
    destruct HC as [[W1 W2 W3 W4] C2 C3 C4 C5 C6]. split; [| exact C2 | done | done | done |].
    + split; [| exact W2 | exact W3 | exact W4]. intros c. destruct (W1 c). by split.
    + intros c. etransitivity; [|exact (C6 c)]. unfold cover. by apply items_cover_graph.
Qed.

(** ** Ingestion *)

(** What is kept of a message. *)
Definition stored (m : Message) : string * string * list MessagePart * Z :=
  (Role m, match Parts m with [] => Content m | ps => partsToReadableContent ps end, Parts m, TokenCount m).
Definition row (m : Message) : string * string * list MessagePart * Z := (Role m, Content m, Parts m, TokenCount m).

Fixpoint numbered (next : Z) (l : list Message) : Prop :=
  match l with [] => True | m :: l' => ID m = next /\ numbered (next + 1) l' end.

Record added (db db' : Store) (convID : Z) (new : list Message) : Prop := {
  a_messages : messages db' = messages db ++ new;
  a_next : next_message db' = next_message db + Z.of_nat (length new);
  a_numbered : numbered (next_message db) new;
  a_conversation : Forall (fun m => ConversationID m = convID) new;
  a_graph : graph db' = graph db;
  a_contexts : context_items db' = context_items db;
  a_conversations : conversations db' = conversations db
}.

Lemma insert_message_spec fails now convID role content parts tokens db db' m :
  insert_message fails now convID role content parts tokens db = (db', Ok m) ->
  added db db' convID [m] /\ row m = (role, content, parts, tokens).
Proof.
  intros [[_ ?]|E]%transaction_inv; [done|]. injection E as <- <-. cbn. split; [|done].
  split; cbn; try done. by constructor.
Qed.

Lemma added_trans d1 d2 d3 convID n1 n2 : added d1 d2 convID n1 -> added d2 d3 convID n2 -> added d1 d3 convID (n1 ++ n2).
Proof.
  intros [A1 A2 A3 A4 A5 A6 A7] [B1 B2 B3 B4 B5 B6 B7]. split; try congruence.
  - by rewrite B1, A1, app_assoc.
  - rewrite B2, A2, length_app. lia.
  - rewrite A2 in B3. clear -A3 B3. revert A3 B3. generalize (next_message d1). induction n1 as [|m n1 IH]; intros n A3 B3.
    { cbn in *. by rewrite Z.add_0_r in B3. }
    destruct A3 as [A A3]. split; [done|]. apply IH; [done|].
    replace (n + 1 + Z.of_nat (length n1)) with (n + Z.of_nat (length (m :: n1))) by (cbn [length]; lia). exact B3.
  - by apply Forall_app.
Qed.

Lemma add_messages_spec fails now convID ms db db' ids :
  add_messages fails now convID ms db = (db', Ok ids) ->
  exists new, added db db' convID new /\ ids = map ID new /\ map row new = map stored ms.
Proof.
  revert db db' ids; induction ms as [|m ms IH]; intros db db' ids E; cbn [add_messages] in E.
  { unfold ret in E. injection E as <- <-. exists []. split; [|done]. split; cbn; try done; by rewrite ?app_nil_r, ?Z.add_0_r. }
  apply bind_inv in E as [(a & d1 & E1 & E)|(e & _ & ?)]; [|done].
  apply bind_inv in E as [(ids' & d2 & E2 & E)|(e & _ & ?)]; [|done]. unfold ret in E. injection E as <- <-.
  apply IH in E2 as (new & A2 & -> & Hn).
  assert (Ha : added db d1 convID [a] /\ row a = stored m).
  { unfold stored. destruct (Parts m); apply insert_message_spec in E1 as [A ->]; done. }
  destruct Ha as [A1 Hr]. exists ([a] ++ new). split; [by eapply added_trans|]. cbn. by rewrite Hr, Hn.
Qed.

(** Without failures it succeeds. *)
Lemma add_messages_ok now convID ms db : exists db' ids, add_messages never now convID ms db = (db', Ok ids).
Proof.
  revert db; induction ms as [|m ms IH]; intros db; cbn [add_messages]; [by eexists _, _|].
  unfold bind. unfold AddMessage, AddMessageWithParts, insert_message, transaction. cbn [never].
  destruct (Parts m); (edestruct IH as (d & ids & ->); by eexists _, _).
Qed.

Lemma max_ordinal_spec l : Forall (fun c => 0 < Ordinal c) l -> 0 <= max_ordinal l /\ forall c, c ∈ l -> Ordinal c <= max_ordinal l.
Proof.
  unfold max_ordinal. assert (H : forall n, n <= fold_left (fun n c => Z.max n (Ordinal c)) l n /\
    forall c, c ∈ l -> Ordinal c <= fold_left (fun n c => Z.max n (Ordinal c)) l n).
  { induction l as [|d l IH]; intros n; cbn [fold_left]; [split; [done | intros c Hc; by apply not_elem_of_nil in Hc]|].
    destruct (IH (Z.max n (Ordinal d))) as [H1 H2]. split; [lia|]. intros c [->|Hc]%elem_of_cons; [lia | auto]. }
  intros _. apply H.
Qed.

Lemma appended_spec db o l :
  map Item (appended db o l) = l /\ ordered (appended db o l) /\ forall c, c ∈ appended db o l -> o <= Ordinal c.
Proof.
  revert o; induction l as [|i l IH]; intros o; cbn [appended]; [split_and!; [done | constructor | intros c Hc; by apply not_elem_of_nil in Hc]|].
  destruct (IH (o + OrdinalStep)) as (H1 & H2 & H3). unfold OrdinalStep in *. split_and!; [cbn; by rewrite H1 | |].
  - constructor; [done|]. apply Forall_forall. intros c Hc. specialize (H3 c Hc). cbn. lia.
  - intros c [->|Hc]%elem_of_cons; [done | specialize (H3 c Hc); lia].
Qed.

Lemma numbered_spec n l : numbered n l -> rising l /\ Forall (fun m => n <= ID m < n + Z.of_nat (length l)) l.
Proof.
  revert n; induction l as [|m l IH]; intros n; [intros _; split; constructor|]. intros [Hm Hl]. apply IH in Hl as [H1 H2].
  cbn [length]. split; constructor; [done | | lia |]; (eapply Forall_impl; [exact H2|]); cbn; intros x Hx; lia.
Qed.

Lemma rising_app l1 l2 : rising l1 -> rising l2 -> (forall a b, a ∈ l1 -> b ∈ l2 -> ID a < ID b) -> rising (l1 ++ l2).
Proof.
  unfold rising. induction l1 as [|m l1 IH]; intros H1 H2 H3; [done|]. apply StronglySorted_inv in H1 as [H1 HF]. cbn. constructor.
  - apply IH; [done | done |]. intros a b Ha Hb. apply H3; [by right | done].
  - apply Forall_app. split; [done|]. apply Forall_forall. intros b Hb. apply H3; [by left | done].
Qed.

Lemma rising_nodup l : rising l -> NoDup (map ID l).
Proof.
  induction l as [|m l IH]; intros H; [constructor|]. apply StronglySorted_inv in H as [H HF]. cbn. constructor; [|by apply IH].
  intros (x & E & Hx)%list_elem_of_fmap. rewrite Forall_forall in HF. specialize (HF x Hx). cbn in HF. lia.
Qed.

Lemma cover_ids db convID m : consistent db -> IMessage m ∈ map Item (context_of db convID) -> m < next_message db.
Proof.
  intros HC Hm. assert (Hin : m ∈ cover db convID).
  { unfold cover, items_cover. apply list_elem_of_In, in_flat_map. exists (IMessage m). split; [by apply list_elem_of_In | by left]. }
  rewrite (c_cover _ HC) in Hin. apply list_elem_of_fmap in Hin as (x & -> & [Hx _]%elem_of_List_filter).
  pose proof (c_ids _ HC) as Hi. rewrite Forall_forall in Hi. by destruct (Hi x Hx).
Qed.

Lemma graph_fields db db' : graph db' = graph db ->
  summaries db' = summaries db /\ summary_parents db' = summary_parents db /\ summary_messages db' = summary_messages db.
Proof. by intros [= -> -> ->]. Qed.

Lemma wf_graph db db' :
  graph db' = graph db -> wf db -> (forall c, wf_context db (context_of db' c)) -> wf db'.
Proof.
  intros (E1 & E2 & E3)%graph_fields [W1 W2 W3 W4] HX. split.
  - intros c. destruct (HX c) as [X1 X2 X3 X4]. split; [done | done | done |]. intros i id Hi Hid. unfold known. rewrite E1. by eapply X4.
  - by rewrite E1.
  - rewrite E1, E2. exact W3.
  - intros id m. unfold known. rewrite E1, E3. apply W4.
Qed.

Lemma falling_graph db db' l : graph db' = graph db -> falling db l -> falling db' l.
Proof. intros (E & _)%graph_fields. apply falling_change. intros [|id] _; cbn; [done | by rewrite E]. Qed.

Lemma falling_messages db l ms : wf db -> falling db l -> falling db (l ++ map IMessage ms).
Proof.
  intros HW HF. apply falling_app. split_and!; [done | |].
  - induction ms as [|m ms IH]; [constructor|]. cbn. constructor; [done|]. apply Forall_forall. by intros j (x & -> & _)%list_elem_of_fmap.
  - intros i j _ (x & -> & _)%list_elem_of_fmap. cbn. destruct i as [|id]; [done|]. pose proof (level_summary db id HW). cbn in *. lia.
Qed.

(** The context with the new messages at its end. *)
Lemma append_context db dbt convID new o :
  consistent db -> numbered (next_message db) new -> o = max_ordinal (context_of db convID) + OrdinalStep ->
  wf_context db (context_of db convID ++ appended dbt o (map IMessage (map ID new))).
Proof.
  intros HC HN ->. destruct (wf_contexts _ (c_wf _ HC) convID) as [X1 X2 X3 X4].
  set (o := max_ordinal _ + OrdinalStep). destruct (appended_spec dbt o (map IMessage (map ID new))) as (P1 & P2 & P3).
  destruct (max_ordinal_spec _ X2) as [M1 M2]. apply numbered_spec in HN as [HN1 HN2]. rewrite Forall_forall in HN2.
  assert (Ho : forall c, c ∈ appended dbt o (map IMessage (map ID new)) -> max_ordinal (context_of db convID) < Ordinal c).
  { intros c Hc. specialize (P3 c Hc). subst o. unfold OrdinalStep in P3. lia. }
  split.
  - apply ordered_app. split_and!; [done | done |]. intros a b Ha Hb. specialize (M2 a Ha). specialize (Ho b Hb). lia.
  - apply Forall_app. split; [done|]. apply Forall_forall. intros c Hc. specialize (Ho c Hc). lia.
  - rewrite map_app, P1. apply NoDup_app. split_and!; [done | |].
    + intros i Hi (m & -> & Hm)%list_elem_of_fmap. apply (cover_ids db convID m HC) in Hi.
      apply list_elem_of_fmap in Hm as (x & -> & Hx). specialize (HN2 x Hx). lia.
    + apply NoDup_fmap_2; [by intros ?? [= ->] | by apply rising_nodup].
  - intros c id [Hc|Hc]%elem_of_app Hi; [by eapply X4|].
    assert (Hin : Item c ∈ map IMessage (map ID new)) by (rewrite <- P1; apply list_elem_of_fmap; by exists c).
    rewrite Hi in Hin. by apply list_elem_of_fmap in Hin as (x & ? & _).
Qed.

(** The new messages become the end of the context. *)
Lemma append_consistent convID new db d db' r :
  consistent db -> added db d convID new -> AppendContextMessages never convID (map ID new) d = (db', r) ->
  r = Ok tt /\ consistent db' /\ messages db' = messages db ++ new /\ conversations db' = conversations db.
Proof.
  intros HC HA E. pose proof HC as [C1 C2 C3 C4 C5 C6]. pose proof HA as [A1 A2 A3 A4 A5 A6 A7].
  unfold AppendContextMessages, appendContextItems, transaction in E. cbn [never] in E. injection E as <- <-.
  change (context_of (tick d) convID) with (context_of d convID).
  assert (HX : forall c, context_of d c = context_of db c) by (intros c; unfold context_of; by rewrite A6). rewrite HX.
  set (o := max_ordinal (context_of db convID) + OrdinalStep). set (items := map IMessage (map ID new)).
  set (l := context_of db convID ++ appended (tick d) o items). set (db' := put_context (tick d) convID l).
  assert (Hc : forall c, context_of db' c = if decide (c = convID) then l else context_of db c).
  { intros c. rewrite <- HX. unfold context_of. cbn. destruct (decide _) as [->|]; [by rewrite lookup_insert_eq | by rewrite lookup_insert_ne]. }
  assert (HG : graph db' = graph db) by exact A5.
  assert (HI : map Item l = map Item (context_of db convID) ++ items) by (subst l; by rewrite map_app, (proj1 (appended_spec _ _ _))).
  destruct (numbered_spec _ _ A3) as [N1 N2]. rewrite Forall_forall in N2, C4.
  split_and!; [done | | exact A1 | exact A7]. split.
  - apply (wf_graph db); [done | done |]. intros c. rewrite Hc. destruct (decide _) as [->|]; [by apply append_context | by apply wf_contexts].
  - intros c. apply (falling_graph db); [done|]. rewrite Hc. destruct (decide _); [|apply C2]. rewrite HI. by apply falling_messages.
  - change (messages db') with (messages d). rewrite A1. apply rising_app; [done | done |].
    intros a b Ha Hb. specialize (N2 b Hb). destruct (C4 a Ha). lia.
  - change (messages db') with (messages d). change (next_message db') with (next_message d). rewrite A1, A2. apply Forall_forall.
    intros x [Hx|Hx]%elem_of_app; [destruct (C4 x Hx) | specialize (N2 x Hx)]; lia.
  - change (next_message db') with (next_message d). rewrite A2. lia.
  - intros c. unfold cover, rows. rewrite (items_cover_graph db db') by done. change (messages db') with (messages d).
    rewrite A1, List.filter_app, map_app. fold (rows db c). rewrite <- (C6 c), Hc. destruct (decide _) as [->|Hne].
    + rewrite HI, items_cover_app. unfold items. rewrite items_cover_messages, (filter_all _ new); [done|].
      intros x Hx. rewrite Forall_forall in A4. specialize (A4 x Hx). lia.
    + rewrite (filter_none _ new); [by rewrite app_nil_r|]. intros x Hx. rewrite Forall_forall in A4. specialize (A4 x Hx). lia.
Qed.

(** Every message of a batch is at the end of its conversation. *)
Lemma Ingest_spec e now key ms db :
  consistent db -> shouldIgnoreSession e key = false -> isStatelessSession e key = false ->
  exists db' id, Ingest never now e key ms db = (db', Ok (Some (Z.of_nat (length ms), sumMessageTokens ms))) /\
    consistent db' /\ conversations db' !! key = Some id /\
    (exists new, messages db' = messages db ++ new /\ map row new = map stored ms /\
      Forall (fun m => ConversationID m = id) new).
Proof.
  intros HC Hi Hs. unfold Ingest. rewrite Hi, Hs. cbn [orb].
  destruct (GetOrCreateConversation never key db) as [d1 r1] eqn:E1.
  destruct (GetOrCreateConversation_spec _ _ _ _ E1 HC) as (id & -> & K1 & K2 & K3 & K4 & HC1).
  destruct (add_messages_ok now id ms d1) as (d2 & ids & E2).
  destruct (add_messages_spec _ _ _ _ _ _ _ E2) as (new & A & -> & Hn).
  destruct (AppendContextMessages never id (map ID new) d2) as [d3 r3] eqn:E3.
  destruct (append_consistent _ _ _ _ _ _ HC1 A E3) as (-> & HC3 & M3 & V3).
  exists d3, id. unfold bind. rewrite E1, E2, E3. split_and!; [done | done | by rewrite V3 |].
  exists new. split_and!; [by rewrite M3, K2 | done | apply A].
Qed.

(** ** Deletion *)

Lemma filter_flat_map {A B} (p : B -> bool) (f g : A -> list B) l :
  (forall x, List.filter p (f x) = g x) -> List.filter p (flat_map f l) = flat_map g l.
Proof. intros H. induction l as [|x l IH]; [done|]. cbn. by rewrite List.filter_app, H, IH. Qed.

(** Whatever an item stands for is left out of it. *)
Lemma expand_filter (p : Z -> bool) db db' n id :
  summary_parents db' = summary_parents db -> (forall i, sources_of db' i = List.filter p (sources_of db i)) ->
  expand n db' id = List.filter p (expand n db id).
Proof.
  intros H1 H2. revert id; induction n as [|n IH]; intros id; [done|]. cbn [expand]. rewrite List.filter_app, H2. f_equal.
  unfold parents_of. rewrite H1. symmetry. apply filter_flat_map. intros x. symmetry. apply IH.
Qed.

Lemma sources_filter (p : Z -> bool) (l : list (string * Z)) id :
  omap (fun r => if String.eqb (fst r) id then Some (snd r) else None) (List.filter (fun r => p (snd r)) l)
  = List.filter p (omap (fun r => if String.eqb (fst r) id then Some (snd r) else None) l).
Proof.
  induction l as [|[a m] l IH]; [done|]. cbn. destruct (p m) eqn:Ep; cbn; destruct (String.eqb a id); cbn; rewrite ?Ep; by rewrite IH.
Qed.

Definition kept_item (p : Z -> bool) (c : ContextItem) : bool := match Item c with IMessage id => p id | ISummary _ => true end.

Lemma items_cover_filter (p : Z -> bool) db db' l :
  summaries db' = summaries db -> summary_parents db' = summary_parents db ->
  (forall i, sources_of db' i = List.filter p (sources_of db i)) ->
  items_cover db' (map Item (List.filter (kept_item p) l)) = List.filter p (items_cover db (map Item l)).
Proof.
  intros H0 H1 H2. induction l as [|c l IH]; [done|]. cbn [List.filter map items_cover flat_map]. unfold kept_item at 1.
  rewrite List.filter_app. fold (items_cover db (map Item l)). rewrite <- IH. destruct (Item c) as [m|id] eqn:Ec; cbn [item_cover].
  - cbn [List.filter]. destruct (p m); cbn [map items_cover flat_map]; [by rewrite Ec | done].
  - cbn [map items_cover flat_map]. rewrite Ec. cbn [item_cover]. f_equal. unfold covered, rank. rewrite H0. by apply expand_filter.
Qed.

Lemma filter_comm {A} (p q : A -> bool) l : List.filter p (List.filter q l) = List.filter q (List.filter p l).
Proof. induction l as [|x l IH]; [done|]. cbn. destruct (q x) eqn:Eq, (p x) eqn:Ep; cbn; rewrite ?Eq, ?Ep, IH; done. Qed.

Lemma rising_filter p l : rising l -> rising (List.filter p l).
Proof.
  unfold rising. induction l as [|m l IH]; intros H; [done|]. apply StronglySorted_inv in H as [H HF]. cbn.
  destruct (p m); [|by apply IH]. constructor; [by apply IH | by apply Forall_filter].
Qed.

Lemma falling_filter db p l : falling db (map Item l) -> falling db (map Item (List.filter p l)).
Proof.
  unfold falling. induction l as [|c l IH]; intros H; [done|]. apply StronglySorted_inv in H as [H HF]. cbn.
  destruct (p c); [|by apply IH]. cbn. constructor; [by apply IH|]. rewrite Forall_forall in HF |- *.
  intros j (x & -> & [Hx _]%elem_of_List_filter)%list_elem_of_fmap. apply HF, list_elem_of_fmap. by exists x.
Qed.

Lemma DeleteMessagesAfterID_spec convID after db db' r :
  DeleteMessagesAfterID never convID after db = (db', r) -> consistent db ->
  r = Ok tt /\ consistent db' /\ conversations db' = conversations db /\
  forall c, rows db' c = if decide (c = convID) then List.filter (fun m => ID m <=? after) (rows db c) else rows db c.
Proof.
  intros E [C1 C2 C3 C4 C5 C6]. unfold DeleteMessagesAfterID, transaction in E. cbn [never] in E. injection E as <- <-.
  change (messages (tick db)) with (messages db). change (summaries (tick db)) with (summaries db).
  set (del := fun m => (ConversationID m =? convID) && (after <? ID m)). set (gone := map ID (List.filter del (messages db))).
  set (keep := fun id => negb (bool_decide (id ∈ gone))).
  match goal with |- context [consistent ?d] => set (db' := d) end.
  assert (Hsrc : forall i, sources_of db' i = List.filter keep (sources_of db i)) by (intros i; exact (sources_filter keep (summary_messages db) i)).
  assert (HX : forall c, context_of db' c = List.filter (kept_item keep) (context_of db c)).
  { intros c. unfold context_of. cbn. rewrite lookup_fmap. by destruct (_ !! c). }
  assert (Hkeep : forall m, m ∈ messages db -> keep (ID m) = negb (del m)).
  { intros m Hm. unfold keep. f_equal. apply eq_true_iff_eq. rewrite bool_decide_eq_true. unfold gone. rewrite list_elem_of_fmap. split.
    - intros (x & E & [Hx Hd]%elem_of_List_filter). enough (m = x) as ->; [done|]. clear -C3 Hm Hx E. induction (messages db) as [|y l IH].
      { by apply not_elem_of_nil in Hm. }
      apply StronglySorted_inv in C3 as [C3 HF]. rewrite Forall_forall in HF.
      apply elem_of_cons in Hm as [Hm|Hm]; apply elem_of_cons in Hx as [Hx|Hx]; subst; [done | | | by apply IH].
      + specialize (HF x Hx). cbn in HF. lia.
      + specialize (HF m Hm). cbn in HF. lia.
    - intros Hd. exists m. by rewrite elem_of_List_filter. }
  assert (Hrows : forall c, rows db' c = List.filter (fun m => negb (del m)) (rows db c)).
  { intros c. unfold rows. change (messages db') with (List.filter (fun m => negb (del m)) (messages db)).
    apply filter_comm. }
  split_and!; [done | | done |].
  - split.
    + destruct C1 as [W1 W2 W3 W4]. split; [|exact W2 | exact W3 |].
      * intros c. rewrite HX. destruct (W1 c) as [X1 X2 X3 X4]. split; [by apply ordered_filter | by apply Forall_filter | |].
        -- eapply sublist_NoDup; [exact X3 | apply map_sublist, filter_sublist].
        -- intros x id [Hx _]%elem_of_List_filter. by apply X4.
      * intros id m Hin. cbn in Hin. apply elem_of_List_filter in Hin as [Hin _]. by apply (W4 id m).
    + intros c. rewrite HX. apply falling_filter. exact (C2 c).
    + by apply rising_filter.
    + by apply Forall_filter.
    + done.
    + intros c. unfold cover. rewrite HX, Hrows, (items_cover_filter keep db db') by done. fold (cover db c). rewrite C6.
      assert (Hm : forall m, m ∈ rows db c -> m ∈ messages db) by (by intros m [Hm _]%elem_of_List_filter).
      revert Hm. generalize (rows db c). intros l. induction l as [|m l IH]; intros Hm; [done|]. cbn.
      rewrite Hkeep by (apply Hm; by left). destruct (negb (del m)); cbn; (rewrite IH; [done|]); intros x Hx; apply Hm; by right.
  - intros c. rewrite Hrows. destruct (decide _) as [->|Hne].
    + apply filter_ext_in. intros m [_ Hm]%list_elem_of_In%elem_of_List_filter. unfold del. rewrite Hm. cbn. lia.
    + apply filter_all. intros m [_ Hm]%elem_of_List_filter. unfold del. lia.
Qed.

(** ** Reconciliation with a history *)

Definition matches (a b : Message) : Prop := messageMatches a b = true.

Lemma part_matches_refl p : part_matches p p = true.
Proof. unfold part_matches. rewrite !String.eqb_refl. by repeat match goal with |- context [if ?b then _ else _] => destruct b end. Qed.

Lemma partsMatch_refl l : partsMatch l l = true.
Proof. induction l as [|q l IH]; [done|]. cbn. by rewrite part_matches_refl. Qed.

Lemma row_matches x y : row x = stored y -> matches x y.
Proof.
  unfold row, stored, matches, messageMatches. intros [= -> HC -> _]. rewrite String.eqb_refl. cbn [andb].
  destruct (Parts y) as [|p ps]; [rewrite HC; apply String.eqb_refl|].
  apply partsMatch_refl.
Qed.

Lemma rows_match new ms : map row new = map stored ms -> Forall2 matches new ms.
Proof.
  revert ms; induction new as [|x new IH]; intros [|y ms] H; try done. injection H as H1 H2 H3 H4 H.
  constructor; [apply row_matches; unfold row, stored; congruence | by apply IH].
Qed.

Lemma matching_spec a b :
  let n := matching a b in Forall2 matches (take n a) (take n b) /\ (n <= length a)%nat /\ (n <= length b)%nat.
Proof.
  revert b; induction a as [|x a IH]; intros [|y b]; cbn [matching];
    try (split; [constructor | split; cbn; lia]).
  destruct (messageMatches x y) eqn:E; [|split; [constructor | split; cbn; lia]].
  destruct (IH b) as (H1 & H2 & H3). split; [by constructor | split; cbn; lia].
Qed.

Lemma rising_take l k m : rising l -> nth_error l k = Some m -> List.filter (fun x => ID x <=? ID m) l = take (Datatypes.S k) l.
Proof.
  revert k; induction l as [|x l IH]; intros k HR Hk; [by destruct k|]. apply StronglySorted_inv in HR as [HR HF].
  rewrite Forall_forall in HF. destruct k as [|k]; cbn in Hk.
  - injection Hk as ->. cbn. rewrite Z.leb_refl. f_equal. rewrite filter_none; [done|]. intros y Hy. specialize (HF y Hy). cbn in HF. lia.
  - cbn [List.filter take]. assert (Hm : m ∈ l) by (by eapply list_elem_of_In, nth_error_In). specialize (HF m Hm). cbn in HF.
    replace (ID x <=? ID m) with true by lia. f_equal. by apply IH.
Qed.

Lemma GetMessages_never convID limit db :
  (0 < limit)%nat -> GetMessages never convID limit 0 db = (tick db, Ok (take limit (rows db convID))).
Proof.
  intros Hl. unfold GetMessages, query, transaction. cbn [never]. unfold rows. change (messages (tick db)) with (messages db).
  rewrite (filter_ext _ (fun m => ConversationID m =? convID)) by (intros m; cbn; by rewrite andb_true_r). destruct limit; [lia | done].
Qed.

Lemma rows_rising db convID : consistent db -> rising (rows db convID).
Proof. intros HC. apply rising_filter, HC. Qed.

(** Ingestion, as what it does to the messages of the conversation. *)
Lemma Ingest_rows e now key ms db id :
  consistent db -> shouldIgnoreSession e key = false -> isStatelessSession e key = false ->
  conversations db !! key = Some id ->
  exists db' n new, Ingest never now e key ms db = (db', Ok n) /\ consistent db' /\ conversations db' !! key = Some id /\
    rows db' id = rows db id ++ new /\ Forall2 matches new ms.
Proof.
  intros HC Hi Hs Hk. destruct (Ingest_spec e now key ms db HC Hi Hs) as (db' & id' & E & HC' & Hk' & new & M & Hn & HF).
  pose proof E as E'. unfold Ingest in E'. rewrite Hi, Hs in E'. cbn [orb] in E'.
  apply bind_inv in E' as [(i & d1 & E1 & E')|(? & _ & ?)]; [|done].
  apply bind_inv in E' as [(ids & d2 & E2 & E')|(? & _ & ?)]; [|done].
  apply bind_inv in E' as [(u & d3 & E3 & E')|(? & _ & ?)]; [|done]. unfold ret in E'. injection E' as ->.
  assert (Hc1 : conversations d1 !! key = Some id).
  { unfold GetOrCreateConversation, transaction in E1. cbn in E1. rewrite Hk in E1. by injection E1 as <- _. }
  assert (Hc2 : conversations db' !! key = Some id).
  { apply add_messages_spec in E2 as (new' & A & _). injection E3 as <- _. cbn. by rewrite (a_conversations _ _ _ _ A). }
  assert (id' = id) as -> by congruence. eexists db', _, new. split_and!; [exact E | done | done | | by apply rows_match].
  unfold rows. rewrite M, List.filter_app. f_equal. apply filter_all. intros m Hm. rewrite Forall_forall in HF. specialize (HF m Hm). lia.
Qed.

Lemma Ingest_then_ret e now key ms db id :
  consistent db -> shouldIgnoreSession e key = false -> isStatelessSession e key = false ->
  conversations db !! key = Some id ->
  exists db' new, bind (Ingest never now e key ms) (fun _ => ret tt) db = (db', Ok tt) /\ consistent db' /\
    conversations db' !! key = Some id /\ rows db' id = rows db id ++ new /\ Forall2 matches new ms.
Proof.
  intros HC Hi Hs Hk. destruct (Ingest_rows e now key ms db id HC Hi Hs Hk) as (d & n & new & E & H).
  exists d, new. unfold bind. by rewrite E.
Qed.

(** What reconciliation promises: the conversation has the history, or it had
    more already and is as it was. *)
Definition reconciled (db db' : Store) (key : string) (ms : list Message) : Prop :=
  exists id, conversations db' !! key = Some id /\
    (Forall2 matches (rows db' id) ms \/
     rows db' id = rows db id /\ Forall2 matches (take (length ms) (rows db id)) ms).

Lemma Forall2_halves {A B} (R : A -> B -> Prop) n a b new :
  Forall2 R (take n a) (take n b) -> Forall2 R new (drop n b) -> Forall2 R (take n a ++ new) b.
Proof. intros H1 H2. rewrite <- (take_drop n b). by apply Forall2_app. Qed.

(** The messages that match stay and the others come after them. *)
Lemma reconcile_tail e now key ms n d id old :
  consistent d -> shouldIgnoreSession e key = false -> isStatelessSession e key = false -> conversations d !! key = Some id ->
  rows d id = take n old -> Forall2 matches (take n old) (take n ms) -> drop n ms <> [] ->
  exists db', match drop n ms with
              | [] => ret tt
              | delta => let! _ := Ingest never now e key delta in ret tt
              end d = (db', Ok tt) /\ consistent db' /\ conversations db' !! key = Some id /\ Forall2 matches (rows db' id) ms.
Proof.
  intros HC Hi Hs Hk Hr HF Hne. destruct (Ingest_then_ret e now key (drop n ms) d id HC Hi Hs Hk) as (db' & new & E & HC' & Hk' & Hr' & Hn).
  exists db'. split_and!; [by destruct (drop n ms) | done | done |]. rewrite Hr', Hr. by apply Forall2_halves.
Qed.

(** Bootstrap once the messages have been read. *)
Lemma bootstrap_rest e now key ms d id :
  consistent d -> shouldIgnoreSession e key = false -> isStatelessSession e key = false -> conversations d !! key = Some id ->
  let dbMsgs := take (length ms) (rows d id) in let n := matching dbMsgs ms in
  exists db', (if ((length dbMsgs =? length ms) && (n =? length ms))%nat then ret tt
      else match n, dbMsgs with
      | O, [] => let! _ := Ingest never now e key ms in ret tt
      | O, _ :: _ => let! _ := DeleteMessagesAfterID never id 0 in let! _ := Ingest never now e key ms in ret tt
      | Datatypes.S anchor, _ =>
          if (n <? length dbMsgs)%nat then
            let! _ := DeleteMessagesAfterID never id (match nth_error dbMsgs anchor with Some m => ID m | None => 0 end) in
            match drop n ms with [] => ret tt | delta => let! _ := Ingest never now e key delta in ret tt end
          else match drop n ms with [] => ret tt | delta => let! _ := Ingest never now e key delta in ret tt end
      end) d = (db', Ok tt) /\ consistent db' /\ conversations db' !! key = Some id /\
    (Forall2 matches (rows db' id) ms \/ rows db' id = rows d id /\ Forall2 matches (take (length ms) (rows d id)) ms).
Proof.
  intros HC Hi Hs Hk dbMsgs n. destruct (matching_spec dbMsgs ms) as (HM & Hna & Hnb). fold n in HM, Hna, Hnb.
  assert (Hlen : (length dbMsgs <= length ms)%nat) by (subst dbMsgs; rewrite length_take; lia).
  destruct (Nat.eq_dec n (length ms)) as [Hn|Hn].
  { exists d. assert ((length dbMsgs =? length ms)%nat && (n =? length ms)%nat = true) as ->
      by (apply andb_true_iff; split; apply Nat.eqb_eq; lia).
    split_and!; [done | done | done |]. right. split; [done|]. fold dbMsgs. rewrite !firstn_all2 in HM by lia. done. }
  assert ((length dbMsgs =? length ms)%nat && (n =? length ms)%nat = false) as ->
    by (apply andb_false_iff; right; by apply Nat.eqb_neq).
  assert (Hdel : forall after, exists d', DeleteMessagesAfterID never id after d = (d', Ok tt) /\ consistent d' /\
    conversations d' !! key = Some id /\ rows d' id = List.filter (fun m => ID m <=? after) (rows d id)).
  { intros after. destruct (DeleteMessagesAfterID never id after d) as [d' r'] eqn:Ed.
    destruct (DeleteMessagesAfterID_spec _ _ _ _ _ Ed HC) as (-> & HC2 & HV & HR). exists d'. split_and!; [done | done | by rewrite HV |].
    specialize (HR id). by rewrite decide_True in HR. }
  assert (Hprefix : forall k, (k <= length dbMsgs)%nat -> take k dbMsgs = take k (rows d id)).
  { intros k Hk'. subst dbMsgs. rewrite take_take. f_equal. rewrite length_take in Hk'. lia. }
  assert (Hdrop : drop n ms <> []).
  { intros Hd. apply (f_equal length) in Hd. rewrite length_drop in Hd. cbn in Hd. lia. }
  assert (Htail : forall d', consistent d' -> conversations d' !! key = Some id -> rows d' id = take n (rows d id) ->
    exists db', match drop n ms with [] => ret tt | delta => let! _ := Ingest never now e key delta in ret tt end d' = (db', Ok tt) /\
      consistent db' /\ conversations db' !! key = Some id /\ Forall2 matches (rows db' id) ms).
  { intros d' H1 H2 H3. apply (reconcile_tail e now key ms n d' id (rows d id)); try done. by rewrite <- Hprefix by lia. }
  assert (Hrows : (length dbMsgs < length ms)%nat -> dbMsgs = rows d id).
  { subst dbMsgs. rewrite length_take. intros Hl. apply firstn_all2. lia. }
  clearbody n. destruct n as [|anchor]; [destruct dbMsgs as [|m0 l] eqn:Edb|].
  - destruct (Htail d HC Hk) as (db' & E & H1 & H2 & H3); [rewrite <- Hrows; [done | cbn; destruct ms; cbn in *; lia]|].
    exists db'. cbn [drop] in E. destruct ms; [done|]. split_and!; [done | done | done | by left].
  - destruct (Hdel 0) as (d2 & Ed & HC2 & HV & HR). destruct (Htail d2 HC2 HV) as (db' & E & H1 & H2 & H3).
    { rewrite HR. apply filter_none. intros m [Hm _]%elem_of_List_filter. pose proof (c_ids _ HC) as Hids.
      rewrite Forall_forall in Hids. specialize (Hids m Hm). lia. }
    exists db'. cbn [drop] in E. unfold bind at 1. rewrite Ed. destruct ms; [done|]. split_and!; [done | done | done | by left].
  - destruct (Nat.ltb_spec (Datatypes.S anchor) (length dbMsgs)) as [Hlt|Hge].
    + destruct (nth_error dbMsgs anchor) as [m|] eqn:En; [|apply nth_error_None in En; lia].
      destruct (Hdel (ID m)) as (d2 & Ed & HC2 & HV & HR). destruct (Htail d2 HC2 HV) as (db' & E & H1 & H2 & H3).
      { rewrite HR. apply rising_take; [by apply rows_rising|]. rewrite <- En. subst dbMsgs. rewrite nth_error_firstn.
        rewrite length_take in Hlt. rewrite (proj2 (Nat.ltb_lt anchor (length ms))); [done | lia]. }
      exists db'. unfold bind at 1. rewrite Ed. split_and!; [done | done | done | by left].
    + destruct (Htail d HC Hk) as (db' & E & H1 & H2 & H3); [|exists db'; split_and!; [done | done | done | by left]].
      rewrite <- Hrows by lia. rewrite firstn_all2; [done|]. lia.
Qed.

(** Afterwards the conversation has the history, unless it had more. *)
Lemma Bootstrap_spec e now key ms db :
  consistent db -> shouldIgnoreSession e key = false -> isStatelessSession e key = false -> ms <> [] ->
  exists db', Bootstrap never now e key ms db = (db', Ok tt) /\ consistent db' /\ reconciled db db' key ms.
Proof.
  intros HC Hi Hs Hne. unfold Bootstrap. rewrite Hi, Hs. cbn [orb].
  destruct (length ms =? 0)%nat eqn:El; [by destruct ms|]. apply Nat.eqb_neq in El.
  destruct (GetOrCreateConversation never key db) as [d1 r1] eqn:E1.
  destruct (GetOrCreateConversation_spec _ _ _ _ E1 HC) as (id & -> & K1 & K2 & K3 & K4 & HC1).
  unfold bind at 1. rewrite E1. unfold bind at 1. rewrite GetMessages_never by lia.
  assert (HCt : consistent (tick d1)).
  { eapply consistent_orderly; [exact HC1|]. intros HW HS. split; [exact (kept_same eq _ _ HW (same_tick d1)) | done]. }
  destruct (bootstrap_rest e now key ms (tick d1) id HCt Hi Hs K1) as (db' & E & H1 & H2 & H3).
  exists db'. split_and!; [exact E | done |]. exists id. split; [done|]. change (rows (tick d1) id) with (rows d1 id) in H3.
  assert (HR : rows d1 id = rows db id) by (unfold rows; by rewrite K2). by rewrite HR in H3.
Qed.

(** ** Runs of the engine *)

Inductive operation : Type :=
| OpIngest (key : string) (ms : list Message)
| OpBootstrap (key : string) (ms : list Message)
| OpCompact (key : string) (budget : option Z) (force : bool)
| OpCompactUntilUnder (key : string) (budget : Z)
| OpCondensedLoop (convID : Z) (fuel : nat).

Section Run.
Context (e : Engine) (now : nat -> time).
Context (complete : option (nat -> string -> Z -> bool -> result string string)).
Context (minute_stamp day_stamp : time -> string).

(** The store after an operation, whatever it returns. *)
Definition perform (db : Store) (o : operation) : Store :=
  match o with
  | OpIngest key ms => fst (Ingest never now e key ms db)
  | OpBootstrap key ms => fst (Bootstrap never now e key ms db)
  | OpCompact key budget force => fst (EngineCompact never now complete minute_stamp e key budget force db)
  | OpCompactUntilUnder key budget => fst (EngineCompactUntilUnder never now complete minute_stamp day_stamp e key budget db)
  | OpCondensedLoop convID fuel => fst (runCondensedLoop never now complete day_stamp fuel convID 0 db)
  end.

Lemma orderly_run {A} (m : S A) db : consistent db -> keeps orderly m -> consistent (fst (m db)).
Proof. intros HC Hm. destruct (m db) as [db' r] eqn:E. cbn. eapply consistent_orderly; [done | by eapply Hm]. Qed.

(** An operation on the conversation of a session. *)
Lemma session_run {A} key (k : Z -> S A) db :
  consistent db -> (forall id, keeps orderly (k id)) -> consistent (fst (bind (GetOrCreateConversation never key) k db)).
Proof.
  intros HC Hk. destruct (GetOrCreateConversation never key db) as [d r] eqn:E.
  destruct (GetOrCreateConversation_spec _ _ _ _ E HC) as (id & -> & _ & _ & _ & _ & HC').
  unfold bind. rewrite E. by apply orderly_run.
Qed.

Lemma perform_consistent db o : consistent db -> consistent (perform db o).
Proof.
  intros HC. destruct o as [key ms|key ms|key budget force|key budget|convID fuel]; cbn [perform].
  - destruct (shouldIgnoreSession e key) eqn:Hi, (isStatelessSession e key) eqn:Hs;
      try (unfold Ingest; rewrite Hi, Hs; done).
    by destruct (Ingest_spec e now key ms db HC Hi Hs) as (d & id & -> & H & _).
  - destruct (shouldIgnoreSession e key) eqn:Hi, (isStatelessSession e key) eqn:Hs;
      try (unfold Bootstrap; rewrite Hi, Hs; done).
    destruct ms as [|m ms]; [unfold Bootstrap; rewrite Hi, Hs; done|].
    by destruct (Bootstrap_spec e now key (m :: ms) db HC Hi Hs) as (d & -> & H & _).
  - unfold EngineCompact. destruct (_ || _); [done|]. apply session_run; [done|]. intros id.
    apply keeps_bind; [apply _ | apply orderly_Compact | intros p; apply keeps_ret, _].
  - unfold EngineCompactUntilUnder. destruct (_ || _); [done|]. apply session_run; [done|]. intros id. apply orderly_until_under.
  - by apply orderly_run, orderly_loop.
Qed.

Lemma run_consistent ops db : consistent db -> consistent (fold_left perform ops db).
Proof. revert db; induction ops as [|o ops IH]; intros db HC; [done|]. by apply IH, perform_consistent. Qed.
End Run.

(** ** What the engine promises *)

(** C19: As long as no query fails, after any sequence of ingestions,
    reconciliations and compactions the context of a conversation stands for
    exactly the messages of the conversation, in their order; it is summaries,
    deeper ones first, and then messages. *)
Theorem context_is_conversation e now complete minute_stamp day_stamp ops convID :
  let db := fold_left (perform e now complete minute_stamp day_stamp) ops empty_store in
  cover db convID = map ID (rows db convID) /\ rising (rows db convID) /\
  falling db (map Item (context_of db convID)) /\ ordered (context_of db convID).
Proof.
  intros db. assert (HC : consistent db) by apply run_consistent, empty_consistent.
  split_and!; [by apply HC | by apply rows_rising | by apply HC | by apply wf_contexts, HC].
Qed.

(** A conversation of ten messages to run examples on. *)
Definition tick_clock (n : nat) : time := 62135596800 * Second + Z.of_nat n.
Definition sample_engine : Engine := NewEngine [] [].
Definition sample_message (tokens : Z) : Message := mkMessage 0 0 "user" "hello" "" tokens 0 [].
Definition sample_ops (n : nat) : list operation := [OpIngest "chat" (repeat (sample_message 100) n)].
Definition sample_store (n : nat) : Store :=
  fold_left (perform sample_engine tick_clock None (fun _ => "") (fun _ => "")) (sample_ops n) empty_store.

(** Reconciliation succeeds, and afterwards the messages of the
    conversation are the history, or it had more messages than the history
    has and is as it was; the context stands for them. *)
Theorem Bootstrap_reconciles e now key ms db :
  consistent db -> shouldIgnoreSession e key = false -> isStatelessSession e key = false -> ms <> [] ->
  exists db' id, Bootstrap never now e key ms db = (db', Ok tt) /\ conversations db' !! key = Some id /\
    cover db' id = map ID (rows db' id) /\
    (Forall2 matches (rows db' id) ms \/
     rows db' id = rows db id /\ Forall2 matches (take (length ms) (rows db id)) ms).
Proof.
  intros HC Hi Hs Hne. destruct (Bootstrap_spec e now key ms db HC Hi Hs Hne) as (db' & E & HC' & id & Hk & H).
  exists db', id. split_and!; [done | done | by apply HC' | done].
Qed.

Lemma Bootstrap_reconciles_witness :
  let edited := repeat (sample_message 100) 9 ++ [mkMessage 0 0 "user" "edited" "" 3 0 []] in
  let db := sample_store 12 in
  consistent db /\ exists db' id, Bootstrap never tick_clock sample_engine "chat" edited db = (db', Ok tt) /\
    conversations db' !! "chat" = Some id /\ cover db' id = map ID (rows db' id) /\
    (Forall2 matches (rows db' id) edited \/
     rows db' id = rows db id /\ Forall2 matches (take (length edited) (rows db id)) edited).
Proof.
  intros edited db. assert (HC : consistent db) by apply run_consistent, empty_consistent.
  split; [done|]. apply (Bootstrap_reconciles sample_engine tick_clock "chat" edited db HC);
    [vm_compute; reflexivity | vm_compute; reflexivity | discriminate].
Defined.
