(* ===== verification/SeahorseConcurrent.v ===== *)
(** * A turn and the background loop at work on one conversation

    [Compact] starts a goroutine that condenses summaries while the turns go
    on, and nothing locks the context between the moment a compaction reads it
    and the moment it changes it; the model that writes the summary is asked
    in between. A compaction is therefore two steps, a plan and its
    application, and other steps come in between. *)

From S2P Require Import Prelude Effects GoStrings GoLib.
Import GoRegexp.
From S2P Require Import SeahorseStore SeahorseCompact SeahorseCover SeahorseConserve SeahorseOrder SeahorseEngine SeahorseHistory.
From stdpp Require Import sorting.

#[local] Open Scope Z_scope.

(** ** The system *)

(** The plans under way: of leaves, the summary and the range, and of
    condensed summaries, the candidates and the summary. *)
Record System : Type := mkSystem {
  store : Store;
  leaf_plans : gmap Z (string * Z * Z);
  condensed_plans : gmap Z (list string * string)
}.

(** The part of [compactCondensed] before the new summary is put in place. *)
Definition condensed_plan (fails : nat -> bool) (now : nat -> time)
    (complete : option (nat -> string -> Z -> bool -> result string string)) (day_stamp : time -> string) (convID : Z) :
    S (option (list string * string)) :=
  let! candidates := condensed_candidates fails convID in
  match candidates with
  | [] => ret None
  | _ =>
      let! content := generateCondensedSummary complete day_stamp candidates in
      let ids := map SummaryID candidates in
      let! s := CreateSummary fails now (merged convID content candidates) ids in
      ret (Some (ids, SummaryID s))
  end.

(** It is the first half indeed. *)
Lemma compactCondensed_halves fails now complete day_stamp convID db :
  compactCondensed fails now complete day_stamp convID db =
  bind (condensed_plan fails now complete day_stamp convID)
    (fun p => match p with Some (ids, id) => place_condensed fails convID ids id | None => ret None end) db.
Proof.
  unfold compactCondensed, condensed_plan, bind, ret. destruct (condensed_candidates _ _ _) as [d1 [[|c cs]|]]; [done | | done].
  destruct (generateCondensedSummary _ _ _ _) as [d2 [content|]]; [|done]. by destruct (CreateSummary _ _ _ _ _) as [d3 [s|]].
Qed.

Section Steps.
Context (e : Engine) (now : nat -> time).
Context (complete : option (nat -> string -> Z -> bool -> result string string)).
Context (minute_stamp day_stamp : time -> string).

(** One leaf and one condensed compaction at a time in a conversation. *)
Inductive step : System -> System -> Prop :=
| step_ingest sys key ms :
    step sys (mkSystem (fst (Ingest never now e key ms (store sys))) (leaf_plans sys) (condensed_plans sys))
| step_leaf_plan sys convID force db r :
    leaf_plans sys !! convID = None ->
    leaf_plan never now complete minute_stamp convID force (store sys) = (db, r) ->
    step sys (mkSystem db (match r with Ok (Some p) => <[convID := p]> (leaf_plans sys) | _ => leaf_plans sys end)
                (condensed_plans sys))
| step_leaf_apply sys convID id s e :
    leaf_plans sys !! convID = Some (id, s, e) ->
    step sys (mkSystem (fst (ReplaceContextRangeWithSummary never convID s e id (store sys))) (delete convID (leaf_plans sys))
                (condensed_plans sys))
| step_condensed_plan sys convID db r :
    condensed_plans sys !! convID = None ->
    condensed_plan never now complete day_stamp convID (store sys) = (db, r) ->
    step sys (mkSystem db (leaf_plans sys)
                (match r with Ok (Some p) => <[convID := p]> (condensed_plans sys) | _ => condensed_plans sys end))
| step_condensed_apply sys convID ids id :
    condensed_plans sys !! convID = Some (ids, id) ->
    step sys (mkSystem (fst (place_condensed never convID ids id (store sys))) (leaf_plans sys)
                (delete convID (condensed_plans sys))).

(** ** Plans that fit the context *)

Definition leaf_ready (db : Store) (l : list ContextItem) (p : string * Z * Z) : Prop :=
  let '(id, s, e) := p in
  exists b f k a, l = b ++ (f :: k) ++ a /\ s = Ordinal f /\ e = Ordinal (List.last (f :: k) f) /\
    Forall (fun c => is_message c = false) b /\ Forall (fun c => is_message c = true) ((f :: k) ++ a) /\
    known db id /\ level db (ISummary id) = 0 /\ (ISummary id ∉ map Item l) /\
    covered db id = items_cover db (map Item (f :: k)).

Definition condensed_ready (db : Store) (l : list ContextItem) (p : list string * string) : Prop :=
  let '(ids, id) := p in
  exists b f k a d, l = b ++ (f :: k) ++ a /\ map Item (f :: k) = map ISummary ids /\ 0 <= d /\
    level db (Item f) = d /\ Forall (fun c => d < level db (Item c)) b /\
    known db id /\ level db (ISummary id) = d + 1 /\ (ISummary id ∉ map Item l) /\
    covered db id = flat_map (covered db) ids.

Record sound (sys : System) : Prop := {
  s_consistent : consistent (store sys);
  s_leaf : forall c p, leaf_plans sys !! c = Some p -> leaf_ready (store sys) (context_of (store sys) c) p;
  s_condensed : forall c p, condensed_plans sys !! c = Some p -> condensed_ready (store sys) (context_of (store sys) c) p
}.
End Steps.

(** ** What changes the store without touching the context of a plan *)

Lemma level_stable db db' l i :
  wf db -> grows db db' -> wf_context db l -> i ∈ map Item l -> level db' i = level db i.
Proof.
  intros HW HG HL Hi. apply level_grows; [done|]. intros id ->. apply list_elem_of_fmap in Hi as (c & E & Hc). by eapply wf_known.
Qed.

Lemma level_known db db' id : grows db db' -> known db id -> level db' (ISummary id) = level db (ISummary id).
Proof. intros HG Hk. apply level_grows; [done|]. by intros ? [= ->]. Qed.

Lemma known_grows db db' id : grows db db' -> known db id -> known db' id.
Proof. intros HG Hk. unfold known. by destruct (HG id Hk) as (-> & _). Qed.

Lemma flat_covered db db' ids :
  wf db -> grows db db' -> (forall i, i ∈ ids -> known db i) -> flat_map (covered db') ids = flat_map (covered db) ids.
Proof.
  intros HW HG. induction ids as [|i ids IH]; intros Hk; [done|]. cbn. rewrite IH by (intros j Hj; apply Hk; by right).
  by rewrite (covered_stable db db' i HW HG) by (apply Hk; by left).
Qed.

Lemma leaf_ready_stable db db' l p : wf db -> grows db db' -> wf_context db l -> leaf_ready db l p -> leaf_ready db' l p.
Proof.
  intros HW HG HL. destruct p as [[id s] e]. intros (b & f & k & a & H1 & H2 & H3 & H4 & H5 & H6 & H7 & H8 & H9).
  exists b, f, k, a. split_and!; try done; [by eapply known_grows | by rewrite (level_known db) |].
  rewrite (covered_stable db db' id HW HG H6), H9. symmetry. apply cover_stable; [done | done |]. intros i Hi.
  apply list_elem_of_fmap in Hi as (c & E & Hc). eapply wf_known; [exact HL | | done]. rewrite H1. apply elem_of_app. right.
  apply elem_of_app. by left.
Qed.

Lemma condensed_ready_stable db db' l p :
  wf db -> grows db db' -> wf_context db l -> condensed_ready db l p -> condensed_ready db' l p.
Proof.
  intros HW HG HL. destruct p as [ids id]. intros (b & f & k & a & d & H1 & H2 & H3 & H4 & H5 & H6 & H7 & H8 & H9).
  assert (HI : forall c, c ∈ l -> level db' (Item c) = level db (Item c)).
  { intros c Hc. eapply level_stable; [done | done | exact HL |]. apply list_elem_of_fmap. by exists c. }
  exists b, f, k, a, d. split_and!; try done.
  - rewrite HI; [done|]. rewrite H1. apply elem_of_app. right. by left.
  - apply Forall_forall. intros c Hc. rewrite HI by (rewrite H1; apply elem_of_app; by left). rewrite Forall_forall in H5. auto.
  - by eapply known_grows.
  - by rewrite (level_known db).
  - rewrite (covered_stable db db' id HW HG H6), H9. symmetry. apply flat_covered; [done | done |]. intros i Hi.
    assert (Hin : ISummary i ∈ map Item (f :: k)) by (rewrite H2; apply list_elem_of_fmap; by exists i).
    apply list_elem_of_fmap in Hin as (c & E & Hc). eapply wf_known; [exact HL | | done]. rewrite H1. apply elem_of_app. right.
    apply elem_of_app. by left.
Qed.

(** A step that leaves the contexts alone. *)
Lemma plans_stable sys db :
  sound sys -> kept eq (store sys) db -> context_items db = context_items (store sys) ->
  sound (mkSystem db (leaf_plans sys) (condensed_plans sys)).
Proof.
  intros [H1 H2 H3] HK HX. pose proof (c_wf _ H1) as HW.
  assert (HX' : forall c, context_of db c = context_of (store sys) c) by (intros c; unfold context_of; by rewrite HX).
  split; cbn.
  - eapply consistent_kept; [done | done |]. apply (settled_contexts (store sys)); [done | done | done | apply H1].
  - intros c p Hp. rewrite HX'. eapply leaf_ready_stable; [done | apply HK | by apply wf_contexts | auto].
  - intros c p Hp. rewrite HX'. eapply condensed_ready_stable; [done | apply HK | by apply wf_contexts | auto].
Qed.

(** ** Ingestion *)

Lemma Ingest_contexts e now key ms db :
  consistent db -> let db' := fst (Ingest never now e key ms db) in
  graph db' = graph db /\ forall c, exists new, context_of db' c = context_of db c ++ new /\ Forall (fun c => is_message c = true) new.
Proof.
  intros HC. cbv zeta. unfold Ingest. destruct (_ || _).
  { split; [done|]. intros c. exists []. by rewrite app_nil_r. }
  destruct (GetOrCreateConversation never key db) as [d1 r1] eqn:E1.
  assert (G1 : graph d1 = graph db).
  { unfold GetOrCreateConversation, transaction in E1. cbn in E1. by destruct (_ !! key); injection E1 as <- _. }
  destruct (GetOrCreateConversation_spec _ _ _ _ E1 HC) as (id & -> & _ & _ & _ & K4 & _).
  destruct (add_messages_ok now id ms d1) as (d2 & ids & E2).
  destruct (add_messages_spec _ _ _ _ _ _ _ E2) as (new & A & -> & _).
  unfold bind. rewrite E1, E2. unfold AppendContextMessages, appendContextItems, transaction. cbn [never fst].
  set (o := max_ordinal _ + _). set (items := map IMessage _).
  split; [rewrite <- G1; exact (a_graph _ _ _ _ A)|]. intros c. unfold context_of. cbn.
  pose proof (a_contexts _ _ _ _ A) as AX.
  destruct (decide (c = id)) as [->|Hne].
  - exists (appended (tick d2) o items). rewrite lookup_insert_eq. unfold context_of. cbn. rewrite AX, K4. split; [done|].
    destruct (appended_spec (tick d2) o items) as (P & _). apply Forall_forall. intros x Hx.
    assert (Hin : Item x ∈ items) by (rewrite <- P; apply list_elem_of_fmap; by exists x).
    apply list_elem_of_fmap in Hin as (m & E & _). unfold is_message. by rewrite E.
  - exists []. rewrite lookup_insert_ne by done. rewrite AX, K4. by rewrite app_nil_r.
Qed.

Lemma level_graph db db' i : graph db' = graph db -> level db' i = level db i.
Proof. intros (E & _)%graph_fields. destruct i as [|id]; cbn; [done | by rewrite E]. Qed.

Lemma summary_not_new id l new :
  Forall (fun c => is_message c = true) new -> (ISummary id ∉ map Item l) -> ISummary id ∉ map Item (l ++ new).
Proof.
  intros HF Hl. rewrite map_app, not_elem_of_app. split; [done|]. intros (c & E & Hc)%list_elem_of_fmap.
  rewrite Forall_forall in HF. specialize (HF c Hc). unfold is_message in HF. by rewrite <- E in HF.
Qed.

Lemma leaf_ready_append db db' l new p :
  graph db' = graph db -> Forall (fun c => is_message c = true) new -> leaf_ready db l p -> leaf_ready db' (l ++ new) p.
Proof.
  intros HG HN. destruct p as [[id s] e]. intros (b & f & k & a & H1 & H2 & H3 & H4 & H5 & H6 & H7 & H8 & H9).
  exists b, f, k, (a ++ new). split_and!; try done.
  - rewrite H1. by rewrite <- !app_assoc.
  - rewrite app_assoc. apply Forall_app. done.
  - unfold known. by destruct (graph_fields _ _ HG) as (-> & _).
  - by rewrite (level_graph db).
  - by apply summary_not_new.
  - rewrite (covered_graph db db'), (items_cover_graph db db') by done. done.
Qed.

Lemma condensed_ready_append db db' l new p :
  graph db' = graph db -> Forall (fun c => is_message c = true) new -> condensed_ready db l p -> condensed_ready db' (l ++ new) p.
Proof.
  intros HG HN. destruct p as [ids id]. intros (b & f & k & a & d & H1 & H2 & H3 & H4 & H5 & H6 & H7 & H8 & H9).
  exists b, f, k, (a ++ new), d. split_and!; try done.
  - rewrite H1. by rewrite <- !app_assoc.
  - by rewrite (level_graph db).
  - eapply Forall_impl; [exact H5|]. cbn. intros c. by rewrite (level_graph db db').
  - unfold known. by destruct (graph_fields _ _ HG) as (-> & _).
  - by rewrite (level_graph db).
  - by apply summary_not_new.
  - rewrite (covered_graph db db') by done. rewrite H9. apply flat_map_ext. intros i. symmetry. by apply covered_graph.
Qed.

Lemma ingest_sound e now sys key ms :
  sound sys -> sound (mkSystem (fst (Ingest never now e key ms (store sys))) (leaf_plans sys) (condensed_plans sys)).
Proof.
  intros [H1 H2 H3]. destruct (Ingest_contexts e now key ms (store sys) H1) as [HG HX]. split; cbn.
  - exact (perform_consistent e now None (fun _ => "") (fun _ => "") (store sys) (OpIngest key ms) H1).
  - intros c p Hp. destruct (HX c) as (new & -> & HN). apply (leaf_ready_append (store sys)); auto.
  - intros c p Hp. destruct (HX c) as (new & -> & HN). apply (condensed_ready_append (store sys)); auto.
Qed.

(** ** Plans *)

Lemma leaf_plan_sound now complete minute_stamp sys convID force db r :
  sound sys -> leaf_plan never now complete minute_stamp convID force (store sys) = (db, r) ->
  sound (mkSystem db (match r with Ok (Some p) => <[convID := p]> (leaf_plans sys) | _ => leaf_plans sys end) (condensed_plans sys)).
Proof.
  intros HS E. pose proof HS as [H1 _ _]. pose proof (c_wf _ H1) as HW. apply leaf_plan_spec in E as (HK & HX & HP); [|done].
  pose proof (plans_stable _ _ HS HK HX) as HS'. destruct r as [[[[id s] e]|]|]; try done.
  destruct (HP id s e eq_refl) as [P1 (sum & P2 & P2') P3 (b & f & k & a & P4 & P5 & -> & -> & P6)]. destruct HS' as [S1 S2' S3].
  split; [done | | done]. cbn [leaf_plans condensed_plans]. intros c p.
  destruct (decide (c = convID)) as [->|Hne]; [|rewrite lookup_insert_ne by done; apply S2'].
  rewrite lookup_insert_eq. intros [= <-]. cbn [store].
  assert (HX' : context_of db convID = context_of (store sys) convID) by (unfold context_of; by rewrite HX). rewrite HX'.
  assert (HF : Forall (fun c => is_message c = true) (f :: k)) by apply (leaf_chunk_split _ _ _ _ P4).
  exists b, f, k, a. split_and!; try done.
  - by apply (leaf_chunk_first (store sys) convID force b (f :: k) HW (c_settled _ H1)).
  - apply Forall_app. split; [done|]. apply (messages_after (store sys) b f k); [done | rewrite <- P5; apply H1 | by apply Forall_cons in HF as [? _]].
  - by eexists.
  - cbn. by rewrite P2.
  - by apply fresh_not_in_context.
  - rewrite P6. symmetry. apply cover_stable; [done | apply HK |]. intros i Hi. apply (cover_known (store sys) convID); [done|].
    rewrite P5, !map_app. apply elem_of_app. right. apply elem_of_app. by left.
Qed.

(** A new summary of adjacent candidates is ready to take their place. *)
Lemma create_ready now convID content cs db db1 s :
  wf db -> settled db -> picked db (summary_ids (context_of db convID)) cs -> adjacent db (context_of db convID) cs -> cs <> [] ->
  CreateSummary never now (merged convID content cs) (map SummaryID cs) db = (db1, Ok s) ->
  condensed_ready db1 (context_of db convID) (map SummaryID cs, SummaryID s).
Proof.
  intros HW HS HP (b & k & a & d & HC & Hk & Hdep & Hb) Hne E1.
  pose proof (picked_depth db _ _ 0 HP) as Hpar.
  assert (Hd : 0 <= d).
  { destruct cs as [|c0 cs]; [done|]. apply Forall_cons in Hdep as [<- _]. destruct HP as [HP _]. apply Forall_cons in HP as [HP _].
    by destruct (wf_keys db HW _ _ HP). }
  assert (Hmd : Depth (merged convID content cs) = d + 1) by (cbn; by rewrite (max_depth d)).
  apply CreateSummary_spec in E1 as (K1 & X1 & HCr); [|done | lia | exact Hpar]. specialize (HCr s eq_refl).
  pose proof HCr as [F1 F2 F3 _ _ _].
  destruct k as [|f k]; [destruct cs; [done | by cbn in Hk]|].
  assert (Hold : forall c, c ∈ context_of db convID -> level db1 (Item c) = level db (Item c)).
  { intros c Hc. eapply level_stable; [done | apply K1 | by apply wf_contexts | apply list_elem_of_fmap; by exists c]. }
  exists b, f, k, a, d. split_and!; try done.
  - rewrite Hold by (rewrite HC; apply elem_of_app; right; by left).
    destruct cs as [|c0 cs]; [done|]. injection Hk as -> _. cbn. destruct HP as [HP _]. apply Forall_cons in HP as [-> _].
    by apply Forall_cons in Hdep as [-> _].
  - apply Forall_forall. intros x Hx. rewrite Hold by (rewrite HC; apply elem_of_app; by left). rewrite Forall_forall in Hb. auto.
  - by eexists.
  - cbn. rewrite F2. lia.
  - by apply fresh_not_in_context.
  - eapply created_covered; [exact HW | exact HCr | apply K1 | exact Hpar | lia].
Qed.

Lemma condensed_plan_cases now complete day_stamp convID db db' r :
  condensed_plan never now complete day_stamp convID db = (db', r) -> wf db -> settled db ->
  (same db db' /\ (is_ok r = false \/ r = Ok None)) \/
  exists d content cs r1, same db d /\ picked d (summary_ids (context_of d convID)) cs /\ adjacent d (context_of d convID) cs /\
    cs <> [] /\ CreateSummary never now (merged convID content cs) (map SummaryID cs) d = (db', r1) /\
    r = match r1 with Ok s => Ok (Some (map SummaryID cs, SummaryID s)) | Err e => Err e end.
Proof.
  intros E HW HS. unfold condensed_plan in E.
  apply reads_bind in E as [[Hs Hr]|(cs & d1 & E1 & S1 & E)]; [left; by split; [|left] | | apply reads_condensed_candidates].
  pose proof (condensed_candidates_picked never _ _ _ _ E1 HW) as HP.
  pose proof (condensed_candidates_adjacent _ _ _ _ E1 HW HS) as HA. destruct cs as [|c0 cs0].
  { unfold ret in E. injection E as <- <-. left. by split; [|right]. }
  assert (Hne : c0 :: cs0 <> []) by done. set (cs := c0 :: cs0) in *. clearbody cs. clear c0 cs0.
  apply reads_bind in E as [[Hs Hr]|(content & d2 & _ & S2' & E)]; [left; split; [by transitivity d1 | by left] | | auto with go].
  assert (Hs : same db d2) by (by transitivity d1). clear E1 S1 S2'. right.
  destruct (CreateSummary never now (merged convID content cs) (map SummaryID cs) d2) as [d3 r1] eqn:E3.
  exists d2, content, cs, r1. unfold bind, ret in E. rewrite E3 in E.
  assert (HP2 : picked d2 (summary_ids (context_of d2 convID)) cs) by (by destruct Hs as [n ->]).
  assert (HA2 : adjacent d2 (context_of d2 convID) cs) by (by destruct Hs as [n ->]).
  destruct r1 as [s|x]; injection E as <- <-; by split_and!.
Qed.

Lemma condensed_plan_sound now complete day_stamp sys convID db r :
  sound sys -> condensed_plan never now complete day_stamp convID (store sys) = (db, r) ->
  sound (mkSystem db (leaf_plans sys) (match r with Ok (Some p) => <[convID := p]> (condensed_plans sys) | _ => condensed_plans sys end)).
Proof.
  intros HS E. pose proof HS as [H1 _ _]. pose proof (c_wf _ H1) as HW.
  apply condensed_plan_cases in E as [[Hs Hr]|(d & content & cs & r1 & Hs & HP & HA & Hne & E & ->)]; [| |done | apply H1].
  { pose proof (plans_stable sys db HS (kept_same eq _ _ HW Hs) ltac:(by apply same_lookup in Hs as (_ & _ & -> & _))).
    destruct r as [[p|]|]; [by destruct Hr | done | done]. }
  pose proof (plans_stable sys d HS (kept_same eq _ _ HW Hs) ltac:(by apply same_lookup in Hs as (_ & _ & -> & _))) as HS'.
  pose proof HS' as [H1' _ _]. pose proof (c_wf _ H1') as HW'. cbn [store] in *.
  pose proof E as E'. apply CreateSummary_spec in E' as (K & X & _);
    [|done | cbn; apply Z.add_nonneg_nonneg; [by apply merged_depth | done] | by apply (picked_depth _ _ _ 0 HP)].
  pose proof (plans_stable _ _ HS' K X) as HS2. cbn [store leaf_plans condensed_plans] in HS2.
  destruct r1 as [s|x]; [|done]. destruct HS2 as [S1 S2' S3]. split; [done | done |]. cbn [store condensed_plans] in *. intros c p.
  destruct (decide (c = convID)) as [->|Hc]; [|rewrite lookup_insert_ne by done; apply S3].
  rewrite lookup_insert_eq. intros [= <-].
  assert (HX' : context_of db convID = context_of d convID) by (unfold context_of; by rewrite X). rewrite HX'.
  eapply create_ready; [done | apply H1' | exact HP | exact HA | done | exact E].
Qed.

(** ** Application of a plan next to another *)

(** The summaries at the start of a context are the same in both readings. *)
Lemma summaries_first b1 r1 b2 r2 :
  b1 ++ r1 = b2 ++ r2 -> Forall (fun c => is_message c = false) b1 -> Forall (fun c => is_message c = true) r2 ->
  exists a, b2 = b1 ++ a /\ r1 = a ++ r2.
Proof.
  revert b2; induction b1 as [|c b1 IH]; intros b2 E H1 H2; [by exists b2|]. apply Forall_cons in H1 as [Hc H1].
  destruct b2 as [|c2 b2].
  - cbn in E. destruct r2 as [|m r2]; [done|]. injection E as -> _. apply Forall_cons in H2 as [Hm _]. congruence.
  - injection E as <- E. destruct (IH b2 E H1 H2) as (a & -> & ->). by exists a.
Qed.

Lemma not_message_level db c : wf db -> 0 <= level db (Item c) -> is_message c = false.
Proof.
  intros HW H. destruct (is_message c) eqn:E; [|done]. apply (message_level db c HW) in E. lia.
Qed.

Lemma condensed_candidates_first db b f k a ids d :
  wf db -> map Item (f :: k) = map ISummary ids -> 0 <= d -> Forall (fun c => d < level db (Item c)) b ->
  Forall (fun c => is_message c = false) (b ++ f :: k) /\ (b ++ (f :: k) ++ a = (b ++ f :: k) ++ a).
Proof.
  intros HW Hk Hd Hb. split; [|by rewrite app_assoc]. apply Forall_app. split.
  - eapply Forall_impl; [exact Hb|]. intros c Hc. apply (not_message_level db); [done|]. cbn in Hc. lia.
  - apply Forall_forall. intros c Hc. assert (Hin : Item c ∈ map ISummary ids) by (rewrite <- Hk; apply list_elem_of_fmap; by exists c).
    apply list_elem_of_fmap in Hin as (i & E & _). unfold is_message. by rewrite E.
Qed.

Lemma not_in_replaced id id' b k a c l :
  l = b ++ k ++ a -> Item c = ISummary id' -> id <> id' -> (ISummary id ∉ map Item l) -> ISummary id ∉ map Item (b ++ c :: a).
Proof.
  intros -> Hc Hne. rewrite !map_app, !not_elem_of_app. cbn [map]. rewrite not_elem_of_cons, Hc. intros (H1 & H2 & H3).
  split_and!; [done | congruence | done].
Qed.

(** A leaf in the place of its messages leaves the candidates where they are. *)
Lemma condensed_ready_leaf db l b k a c id p :
  wf db -> l = b ++ k ++ a -> Forall (fun c => is_message c = true) (k ++ a) -> Item c = ISummary id ->
  level db (ISummary id) = 0 -> condensed_ready db l p -> condensed_ready db (b ++ c :: a) p.
Proof.
  intros HW Hl Hk Hc Hlev. destruct p as [ids cid]. intros (b2 & f2 & k2 & a2 & d & H1 & H2 & H3 & H4 & H5 & H6 & H7 & H8 & H9).
  destruct (condensed_candidates_first db b2 f2 k2 a2 ids d HW H2 H3 H5) as [F1 F2].
  assert (Heq : (b2 ++ f2 :: k2) ++ a2 = b ++ k ++ a) by (rewrite <- F2, <- H1; done).
  destruct (summaries_first _ _ _ _ Heq F1 Hk) as (x & -> & _).
  exists b2, f2, k2, (x ++ c :: a), d. split_and!; try done; [by rewrite <- !app_assoc|].
  eapply not_in_replaced; [exact Hl | exact Hc | | done]. intros ->. lia.
Qed.

(** A condensed summary in the place of its candidates leaves the messages where they are. *)
Lemma leaf_ready_condensed db l b f k a ids d c cid p :
  wf db -> l = b ++ (f :: k) ++ a -> map Item (f :: k) = map ISummary ids -> 0 <= d ->
  Forall (fun c => d < level db (Item c)) b -> Item c = ISummary cid -> level db (ISummary cid) = d + 1 ->
  leaf_ready db l p -> leaf_ready db (b ++ c :: a) p.
Proof.
  intros HW Hl Hk Hd Hb Hc Hlev. destruct p as [[id s] e]. intros (b2 & f2 & k2 & a2 & H1 & H2 & H3 & H4 & H5 & H6 & H7 & H8 & H9).
  destruct (condensed_candidates_first db b f k a ids d HW Hk Hd Hb) as [F1 F2].
  assert (Heq : (b ++ f :: k) ++ a = b2 ++ (f2 :: k2) ++ a2) by (rewrite <- F2, <- Hl; done).
  destruct (summaries_first _ _ _ _ Heq F1 H5) as (x & -> & ->).
  exists (b ++ c :: x), f2, k2, a2. split_and!; try done.
  - by rewrite <- !app_assoc.
  - apply Forall_app in H4 as [H4 Hx]. apply Forall_app in H4 as [H4 _]. apply Forall_app. split; [done|].
    constructor; [|done]. apply (not_message_level db); [done|]. rewrite Hc. lia.
  - eapply (not_in_replaced id cid b (f :: k)); [exact Hl | exact Hc | | done]. intros ->. lia.
Qed.

Lemma leaf_apply_sound sys convID id s e :
  sound sys -> leaf_plans sys !! convID = Some (id, s, e) ->
  sound (mkSystem (fst (ReplaceContextRangeWithSummary never convID s e id (store sys))) (delete convID (leaf_plans sys))
           (condensed_plans sys)).
Proof.
  intros HS Hp. pose proof HS as [H1 H2 H3]. pose proof (c_wf _ H1) as HW.
  destruct (ReplaceContextRangeWithSummary never convID s e id (store sys)) as [db r] eqn:E. cbn [fst].
  pose proof (H2 _ _ Hp) as (b & f & k & a & R1 & -> & -> & R4 & R5 & R6 & R7 & R8 & R9).
  destruct (replace_chunk never convID b f k a id _ _ _ E HW R1 R6 R8 R9) as (K1 & K2 & K3). clear E.
  assert (HWdb : wf db) by apply K1.
  assert (HL : falling db (map Item (context_of (store sys) convID))).
  { eapply falling_change; [|apply H1]. intros i Hi. eapply level_stable; [done | apply K1 | by apply wf_contexts | done]. }
  assert (HC : consistent db).
  { eapply consistent_kept; [exact H1 | exact K1 |]. apply (settled_other (store sys) db convID); [done | done | apply H1 | | done].
    destruct K3 as [->|(c & Hc & ->)]; [done|]. rewrite R1 in HL. apply Forall_app in R5 as [_ R5].
    apply falling_parts in HL as (L1 & _ & L3). apply falling_leaf; try done. rewrite Hc. by rewrite (level_known (store sys)); [|apply K1|]. }
  split; cbn [store leaf_plans condensed_plans]; [done | |].
  - intros c p [Hne Hpc]%lookup_delete_Some. rewrite K2 by done.
    apply (leaf_ready_stable (store sys)); [done | apply K1 | by apply wf_contexts | auto].
  - intros c p Hpc. assert (HR : condensed_ready db (context_of (store sys) c) p).
    { apply (condensed_ready_stable (store sys)); [done | apply K1 | by apply wf_contexts | auto]. }
    destruct (decide (c = convID)) as [->|Hne]; [|by rewrite K2]. destruct K3 as [->|(c & Hc & ->)]; [done|].
    eapply (condensed_ready_leaf db _ b (f :: k) a c id); [done | exact R1 | done | done | | done].
    by rewrite (level_known (store sys)); [|apply K1|].
Qed.

Lemma condensed_apply_sound sys convID ids id :
  sound sys -> condensed_plans sys !! convID = Some (ids, id) ->
  sound (mkSystem (fst (place_condensed never convID ids id (store sys))) (leaf_plans sys) (delete convID (condensed_plans sys))).
Proof.
  intros HS Hp. pose proof HS as [H1 H2 H3]. pose proof (c_wf _ H1) as HW.
  destruct (place_condensed never convID ids id (store sys)) as [db r] eqn:E. cbn [fst].
  pose proof (H3 _ _ Hp) as (b & f & k & a & d & R1 & R2 & R3 & R4 & R5 & R6 & R7 & R8 & R9).
  destruct (place_adjacent never convID ids id b f k a _ _ _ E HW R1 R2 R6 R8 R9) as (K1 & _ & K2 & K3). clear E.
  assert (HWdb : wf db) by apply K1.
  assert (HI : forall c, c ∈ context_of (store sys) convID -> level db (Item c) = level (store sys) (Item c)).
  { intros c Hc. eapply level_stable; [done | apply K1 | by apply wf_contexts | apply list_elem_of_fmap; by exists c]. }
  assert (HL : falling db (map Item (context_of (store sys) convID))).
  { eapply falling_change; [|apply H1]. intros i Hi. eapply level_stable; [done | apply K1 | by apply wf_contexts | done]. }
  assert (Hid : level db (ISummary id) = d + 1) by (by rewrite (level_known (store sys)); [|apply K1|]).
  assert (Hb : Forall (fun c => d < level db (Item c)) b).
  { apply Forall_forall. intros c Hc. rewrite HI by (rewrite R1; apply elem_of_app; by left). rewrite Forall_forall in R5. auto. }
  assert (HC : consistent db).
  { eapply consistent_kept; [exact H1 | exact K1 |]. apply (settled_other (store sys) db convID); [done | done | apply H1 | | done].
    destruct K3 as [->|(c & Hc & ->)]; [done|]. rewrite R1 in HL.
    apply (falling_condensed db b f k a c d); [done | by rewrite Forall_forall in Hb | | by rewrite Hc].
    rewrite HI; [done|]. rewrite R1. apply elem_of_app. right. by left. }
  split; cbn [store leaf_plans condensed_plans]; [done | |].
  - intros c p Hpc. assert (HR : leaf_ready db (context_of (store sys) c) p).
    { apply (leaf_ready_stable (store sys)); [done | apply K1 | by apply wf_contexts | auto]. }
    destruct (decide (c = convID)) as [->|Hne]; [|by rewrite K2]. destruct K3 as [->|(c & Hc & ->)]; [done|].
    by eapply (leaf_ready_condensed db _ b f k a ids d c id).
  - intros c p [Hne Hpc]%lookup_delete_Some. rewrite K2 by done.
    apply (condensed_ready_stable (store sys)); [done | apply K1 | by apply wf_contexts | auto].
Qed.

Lemma step_sound e now complete minute_stamp day_stamp s1 s2 :
  sound s1 -> step e now complete minute_stamp day_stamp s1 s2 -> sound s2.
Proof.
  intros HS H. destruct H.
  - by apply ingest_sound.
  - by eapply leaf_plan_sound.
  - by apply leaf_apply_sound.
  - by eapply condensed_plan_sound.
  - by apply condensed_apply_sound.
Qed.
