(* ===== verification/SeahorseClaims.v ===== *)
(** * What the summary graph promises

    The theorems on compaction, ingestion, reconciliation and assembly, with
    the runs that show their limits. *)

From S2P Require Import ContextBudget.
From S2P Require Import Prelude Effects GoStrings GoLib.
Import GoRegexp.
From S2P Require Import SeahorseStore SeahorseCompact SeahorseCover SeahorseConserve SeahorseOrder SeahorseEngine SeahorseHistory SeahorseConcurrent.
From stdpp Require Import sorting.

#[local] Open Scope Z_scope.

(** ** Assembly *)

Lemma newest_fitting_spec remaining accum l :
  accum <= remaining ->
  exists k rest, l = k ++ rest /\ newest_fitting remaining accum l = k /\ accum + tokens_of k <= remaining /\
    match rest with [] => True | r :: _ => remaining < accum + tokens_of k + tokenCount r end.
Proof.
  revert accum; induction l as [|r l IH]; intros accum Ha; cbn [newest_fitting].
  { exists [], []. cbn. split_and!; [done | done | lia | done]. }
  destruct (Z.leb_spec (accum + tokenCount r) remaining) as [Hle|Hgt].
  - destruct (IH _ Hle) as (k & rest & -> & -> & H1 & H2). exists (r :: k), rest. assert (tokens_of (r :: k) = tokenCount r + tokens_of k) as -> by done.
    split_and!; [done | done | lia |]. destruct rest; [done | lia].
  - exists [], (r :: l). cbn. split_and!; [done | done | lia | lia].
Qed.

Lemma tokens_of_app l1 l2 : tokens_of (l1 ++ l2) = tokens_of l1 + tokens_of l2.
Proof. unfold tokens_of. induction l1 as [|r l1 IH]; cbn; [done | lia]. Qed.

Lemma tokens_of_rev l : tokens_of (rev l) = tokens_of l.
Proof. induction l as [|r l IH]; [done|]. cbn. rewrite tokens_of_app, IH. unfold tokens_of. cbn. lia. Qed.

(** The longest suffix that has the tail and fits. *)
Record window (budget : Z) (l : list resolvedItem) (n : nat) : Prop := {
  w_tail : (n <= length l - FreshTailCount)%nat;
  w_fits : tokens_of (drop n l) <= Z.max budget (tokens_of (drop (length l - FreshTailCount) l));
  w_longest : n = O \/ Z.max budget (tokens_of (drop (length l - FreshTailCount) l)) < tokens_of (drop (n - 1) l)
}.

Lemma select_window budget l : exists n, select budget l = drop n l /\ window budget l n.
Proof.
  unfold select. set (t := (length l - FreshTailCount)%nat). set (tail := drop t l). set (ev := take t l).
  assert (Hl : l = ev ++ tail) by (symmetry; apply take_drop). remember (Z.max 0 (budget - tokens_of tail)) as rem eqn:Hrem.
  assert (Ht : tokens_of l = tokens_of ev + tokens_of tail) by (by rewrite Hl at 1; rewrite tokens_of_app).
  destruct (Z.leb_spec (tokens_of ev) rem) as [Hle|Hgt].
  - exists O. split; [by rewrite <- Hl|]. split; rewrite ?drop_0; fold t tail; [lia | lia | by left].
  - destruct (newest_fitting_spec rem 0 (rev ev)) as (k & rest & H1 & -> & H2 & H3); [lia|].
    assert (Hev : ev = rev rest ++ rev k) by (rewrite <- rev_app_distr, <- H1; by rewrite rev_involutive).
    exists (length rest). assert (Hlen : length ev = (length rest + length k)%nat) by (rewrite Hev, length_app, !length_rev; lia).
    assert (Hle' : (length ev <= t)%nat) by (subst ev; rewrite length_take; lia).
    assert (Hdrop : drop (length rest) l = rev k ++ tail).
    { rewrite Hl, Hev, <- app_assoc. rewrite <- (length_rev rest). apply drop_app_length. }
    split; [done|]. split; fold t tail.
    + lia.
    + rewrite Hdrop, tokens_of_app, tokens_of_rev. lia.
    + destruct rest as [|r rest]; [by left|]. right. cbn [length]. replace (Datatypes.S (length rest) - 1)%nat with (length rest) by lia.
      assert (Hd1 : drop (length rest) l = r :: rev k ++ tail).
      { rewrite Hl, Hev. cbn [rev]. rewrite <- !app_assoc. cbn [app]. rewrite <- (length_rev rest). apply drop_app_length. }
      rewrite Hd1. cbn [tokens_of fold_right]. fold (tokens_of (rev k ++ tail)). rewrite tokens_of_app, tokens_of_rev. lia.
Qed.

(** An item and its content. *)
Definition resolves (db : Store) (c : ContextItem) (r : resolvedItem) : Prop :=
  match Item c, resolved r with
  | IMessage id, inl m => find_message id (messages db) = Some m /\ tokenCount r = item_tokens c (TokenCount m)
  | ISummary id, inr s => summaries db !! id = Some s /\ tokenCount r = item_tokens c (SummaryTokens s)
  | _, _ => False
  end.

Lemma resolve_all_Ok fails items db db' rs :
  resolve_all fails items db = (db', Ok rs) -> Forall2 (resolves db) items rs.
Proof.
  revert db db' rs; induction items as [|c items IH]; intros db db' rs E; cbn [resolve_all] in E.
  { unfold ret in E. injection E as _ <-. constructor. }
  assert (Hr : keeps same (resolveItem fails c)) by (unfold resolveItem; keeps_auto).
  apply reads_bind in E as [[_ ?]|(r & d1 & E1 & S1 & E)]; [done | | done].
  apply bind_inv in E as [(rs' & d2 & E2 & E)|(e & _ & ?)]; [|done]. unfold ret in E. injection E as _ <-.
  apply IH in E2. constructor; [|by destruct S1 as [n ->]]. unfold resolveItem in E1. unfold resolves.
  destruct (Item c) as [id|id]; apply bind_inv in E1 as [(x & d3 & E3 & E1)|(e & _ & ?)]; try done; unfold ret in E1; injection E1 as _ <-;
    (apply transaction_inv in E3 as [[_ Hx]|E3]; [discriminate Hx|]); cbn in E3 |- *.
  - unfold find_message. destruct (find_first _ _); [|done]. by injection E3 as _ ->.
  - destruct (summaries db !! id); [|done]. by injection E3 as _ ->.
Qed.

Lemma reads_resolve_all fails items : keeps same (resolve_all fails items).
Proof. induction items as [|c items IH]; cbn [resolve_all]; unfold resolveItem; keeps_auto. Qed.

(** How a summary is shown: by its text, its identifier and data, and for a
    condensed one what it was made of, unless that cannot be read. *)
Definition shown_summary (rfc3339 : time -> string) (db : Store) (s : Summary) (note : string) : Prop :=
  exists parents, note = FormatSummaryXML rfc3339 s (map SummaryID parents) /\
    (parents = [] \/ parents = omap (fun p => summaries db !! p) (parents_of db (SummaryID s))).

Definition with_content (ss : list Summary) : list Summary :=
  List.filter (fun s => negb (String.eqb (SummaryContent s) "")) ss.

Lemma summary_parts_Ok fails rfc3339 ss db db' parts :
  summary_parts fails rfc3339 ss db = (db', Ok parts) -> Forall2 (shown_summary rfc3339 db) (with_content ss) parts.
Proof.
  revert db db' parts; induction ss as [|s ss IH]; intros db db' parts E; cbn [summary_parts] in E.
  { unfold ret in E. injection E as _ <-. constructor. }
  cbn [with_content List.filter]. destruct (String.eqb (SummaryContent s) ""); cbn [negb]; [by eapply IH|].
  assert (Hk : keeps same (try (GetSummaryParents fails (SummaryID s)))) by by apply keeps_try, keeps_reads.
  apply reads_bind in E as [[_ ?]|(r & d1 & E1 & S1 & E)]; [done | | done].
  apply bind_inv in E as [(parts' & d2 & E2 & E)|(e & _ & ?)]; [|done]. unfold ret in E. injection E as _ <-.
  apply IH in E2. constructor.
  - apply try_inv in E1 as (r0 & E1 & Er). injection Er as ->. destruct r0 as [ps|]; [|exists []; split; [done | by left]].
    exists ps. split; [done|]. right. apply transaction_inv in E1 as [[_ Hx]|E1]; [discriminate Hx|]. cbn in E1. by injection E1 as _ <-.
  - destruct S1 as [k ->]. exact E2.
Qed.

Lemma join_caution sep (notes : list string) caution : Forall (fun x => x <> "") notes ->
  (if String.eqb (GoStrings.join sep notes) "" then "" else GoStrings.join sep notes +:+ sep) +:+ caution = GoStrings.join sep (notes ++ [caution]).
Proof.
  destruct notes as [|x notes]; [done|]. intros [Hx _]%Forall_cons.
  assert (Hne : forall l, GoStrings.join sep (x :: l) <> "").
  { intros [|y l]; cbn [GoStrings.join]; [done|]. by destruct x. }
  rewrite (proj2 (String.eqb_neq _ _) (Hne notes)). clear Hne Hx. revert x; induction notes as [|y notes IH]; intros x; [cbn; by rewrite append_assoc|].
  change (GoStrings.join sep ((x :: y :: notes) ++ [caution])) with (x +:+ sep +:+ GoStrings.join sep ((y :: notes) ++ [caution])).
  rewrite <- IH. cbn [GoStrings.join]. by rewrite <- !append_assoc.
Qed.

(** C35: What [Assemble] sends is a suffix of the context: it has the last 32
    items, it is within the budget unless these alone are not, and one more
    item would not fit. The messages of the suffix are sent as messages; its
    summaries that have a text are shown, in order, in the summary, followed
    by a caution if there are any. *)
Theorem Assemble_window fails rfc3339 convID budget db db' r :
  Assemble fails rfc3339 convID budget db = (db', Ok r) ->
  exists rs n notes, Forall2 (resolves db) (context_of db convID) rs /\ window budget rs n /\
    Messages r = the_messages (drop n rs) /\
    Forall2 (shown_summary rfc3339 db) (with_content (the_summaries (drop n rs))) notes /\
    SummaryText r = GoStrings.join (nl +:+ nl) (notes ++ match the_summaries (drop n rs) with
                                              | [] => []
                                              | ss => [systemPromptAddition ss]
                                              end).
Proof.
  intros E. unfold Assemble in E.
  apply reads_bind in E as [[_ ?]|(items & d1 & E1 & S1 & E)]; [done | | auto with go]. apply GetContextItems_Ok in E1 as ->.
  destruct (context_of db convID) as [|c l] eqn:Ec.
  { unfold ret in E. injection E as _ <-. exists [], O, []. cbn. split_and!; [constructor | | done | constructor | done].
    split; cbn; [done | lia | by left]. }
  assert (Hr : keeps same (resolve_all fails (c :: l))) by apply reads_resolve_all.
  apply reads_bind in E as [[_ ?]|(rs & d2 & E2 & S2 & E)]; [done | | done]. apply resolve_all_Ok in E2.
  apply bind_inv in E as [(parts & d3 & E3 & E)|(? & _ & ?)]; [|done]. unfold ret in E. injection E as _ <-. cbn [Messages SummaryText].
  destruct (select_window budget rs) as (n & Hn & HW). rewrite Hn in E3 |- *. apply summary_parts_Ok in E3.
  exists rs, n, parts. split_and!; [by destruct S1 as [k ->] | done | done | |].
  - destruct S1 as [k1 ->], S2 as [k2 ->]. exact E3.
  - assert (Hne : Forall (fun x => x <> "") parts).
    { clear -E3. induction E3 as [|s x ss xs (ps & -> & _) _ IH]; constructor; [|done]. unfold FormatSummaryXML. by cbn. }
    destruct (the_summaries (drop n rs)) as [|s ss] eqn:Es; [cbn; by rewrite app_nil_r|].
    rewrite (proj2 (String.eqb_neq (systemPromptAddition (s :: ss)) "")).
    + by apply join_caution.
    + unfold systemPromptAddition. destruct (_ || _); [|done]. vm_compute. discriminate.
Qed.

(** ** Compaction *)

Definition unharmed (db db' : Store) : Prop :=
  wf db' /\ messages db' = messages db /\ forall convID, cover db' convID ≡ₚ cover db convID.

(** C31: A compaction that runs alone, from a well-formed store, loses no message
    and repeats none, whatever the model answers and whichever transactions
    fail: every message that was in a context or behind a summary in it still
    is, and the messages themselves are not touched. *)
Theorem compaction_loses_nothing fails now complete minute_stamp day_stamp convID db :
  wf db ->
  (forall budget force, unharmed db (fst (Compact fails now complete minute_stamp convID budget force db))) /\
  (forall budget, unharmed db (fst (CompactUntilUnder fails now complete minute_stamp day_stamp convID budget db))) /\
  (forall fuel, unharmed db (fst (runCondensedLoop fails now complete day_stamp fuel convID 0 db))).
Proof.
  intros HW.
  assert (H : forall A (m : S A), keeps (conserves (≡ₚ)) m -> unharmed db (fst (m db))).
  { intros A m Hm. destruct (m db) as [db' r] eqn:E. destruct (Hm _ _ _ E HW) as [K1 _ K3 _ _ K6]. by split_and!. }
  split_and!; intros; apply H; [apply conserves_Compact | apply conserves_until_under | apply conserves_loop].
Qed.

(** A leaf summary replaces messages and then a query fails. *)
Lemma compaction_loses_nothing_witness :
  let fails n := (n =? 28)%nat in
  let db := sample_store 10 in
  let db' := fst (CompactUntilUnder fails (fun n => tick_clock (n + 1000)) None (fun _ => "") (fun _ => "") 1 10 db) in
  wf db /\ map Item (context_of db' 1) <> map Item (context_of db 1) /\ unharmed db db'.
Proof.
  cbv zeta. assert (HW : wf (sample_store 10)).
  { apply c_wf, run_consistent, empty_consistent. }
  split; [done|]. split; [vm_compute; discriminate|].
  exact (proj1 (proj2 (compaction_loses_nothing (fun n => (n =? 28)%nat) (fun n => tick_clock (n + 1000)) None
    (fun _ => "") (fun _ => "") 1 _ HW)) 10).
Defined.

Definition idle : System := mkSystem empty_store ∅ ∅.

(** C17: The same holds when a turn and the background loop work on one
    conversation at the same time: between the plan of a compaction and its
    application messages may come in, and the other compaction may plan or
    change the context. No query fails, and in a conversation one leaf and one
    condensation at most are planned at a time. *)
Theorem interleaved_context_is_conversation e now complete minute_stamp day_stamp sys convID :
  star (step e now complete minute_stamp day_stamp) idle sys ->
  cover (store sys) convID = map ID (rows (store sys) convID) /\ ordered (context_of (store sys) convID).
Proof.
  intros Hs. assert (HS : sound sys).
  { refine (star_invariant _ sound _ _ _ Hs _).
    - intros s1 s2. apply step_sound.
    - split; [apply empty_consistent | done | done]. }
  pose proof (s_consistent _ HS) as HC. split; [by apply HC | by apply wf_contexts, HC].
Qed.

(** A leaf is planned, messages come in, and the plan is applied. *)
Lemma ingest_during_plan e now complete minute_stamp day_stamp key ms ms' convID force db1 d p db3 :
  db1 = fst (Ingest never now e key ms empty_store) ->
  leaf_plan never now complete minute_stamp convID force db1 = (d, Ok (Some p)) ->
  db3 = fst (Ingest never now e key ms' d) ->
  star (step e now complete minute_stamp day_stamp) idle
    (mkSystem (fst (ReplaceContextRangeWithSummary never convID (snd (fst p)) (snd p) (fst (fst p)) db3))
       (delete convID (<[convID := p]> ∅)) ∅).
Proof.
  intros -> Hp ->. eapply star_step; [exact (step_ingest e now complete minute_stamp day_stamp idle key ms)|].
  eapply star_step; [eapply (step_leaf_plan e now complete minute_stamp day_stamp _ convID force); [done | exact Hp]|].
  eapply star_step; [exact (step_ingest e now complete minute_stamp day_stamp _ key ms')|]. apply star_one.
  destruct p as [[id s] e'].
  refine (step_leaf_apply e now complete minute_stamp day_stamp
    (mkSystem (fst (Ingest never now e key ms' d)) (<[convID := (id, s, e')]> ∅) ∅) convID id s e' _).
  apply lookup_insert_eq.
Qed.

Lemma interleaved_context_is_conversation_witness :
  let e := sample_engine in
  let db1 := fst (Ingest never tick_clock e "chat" (repeat (sample_message 100) 40) empty_store) in
  let p := leaf_plan never tick_clock None (fun _ => "") 1 false db1 in
  let plan := match snd p with Ok (Some q) => q | _ => ("", 0, 0) end in
  let db3 := fst (Ingest never tick_clock e "chat" [sample_message 7] (fst p)) in
  let db4 := fst (ReplaceContextRangeWithSummary never 1 (snd (fst plan)) (snd plan) (fst (fst plan)) db3) in
  length (context_of db4 1) = 34%nat /\ cover db4 1 = map ID (rows db4 1).
Proof.
  intros e db1 p plan db3 db4. split; [vm_compute; reflexivity|].
  assert (Hp : leaf_plan never tick_clock None (fun _ => "") 1 false db1 = (fst p, Ok (Some plan))).
  { assert (Hs : snd p = Ok (Some plan)) by (vm_compute; reflexivity).
    exact (eq_trans (surjective_pairing p) (f_equal (pair (fst p)) Hs)). }
  exact (proj1 (interleaved_context_is_conversation e tick_clock None (fun _ => "") (fun _ => "") _ 1
    (ingest_during_plan e tick_clock None (fun _ => "") (fun _ => "") "chat" (repeat (sample_message 100) 40) [sample_message 7]
       1 false db1 (fst p) plan db3 eq_refl Hp eq_refl))).
Defined.

(** Forty messages of 100 tokens under a budget of 3500. *)
Lemma Assemble_window_witness :
  let db := sample_store 40 in
  let p := Assemble never (fun _ => "") 1 3500 db in
  let r := match snd p with Ok r => r | Err _ => mkAssembled [] "" end in
  length (Messages r) = 35%nat /\
  exists rs n, Forall2 (resolves db) (context_of db 1) rs /\ Messages r = the_messages (drop n rs) /\ window 3500 rs n.
Proof.
  intros db p r. split; [vm_compute; reflexivity|].
  assert (Hs : snd p = Ok r) by (vm_compute; reflexivity).
  destruct (Assemble_window never (fun _ => "") 1 3500 db (fst p) r (eq_trans (surjective_pairing p) (f_equal (pair (fst p)) Hs)))
    as (rs & n & notes & H1 & H2 & H3 & _).
  exists rs, n. exact (conj H1 (conj H3 H2)).
Defined.

(** ** Large messages *)

Definition message_tokens (l : list ContextItem) : Z := fold_right (fun c n => ItemTokens c + n) 0 l.

(** The search for a chunk inside a run of messages that is too large. *)
Lemma find_chunk_large run0 accum run c rest n :
  Forall (fun x => is_message x = true) (run ++ [c]) ->
  LeafChunkTokens <= accum + message_tokens (run ++ [c]) ->
  (forall p q, run = p ++ q -> q <> [] -> accum + message_tokens p < LeafChunkTokens) ->
  exists k, snd (find_chunk [] run0 accum (take n (run ++ c :: rest))) = run0 ++ k /\ (length k <= length run + 1)%nat.
Proof.
  revert run0 accum n; induction run as [|x run IH]; intros run0 accum n HF HL HS.
  - destruct n as [|n]; [exists []; cbn; by rewrite app_nil_r; split; [|lia]|]. cbn [app take find_chunk].
    apply Forall_cons in HF as [Hc _]. unfold is_message in Hc. destruct (Item c); [|done]. cbn in HL.
    rewrite (proj2 (Z.leb_le _ _)) by lia. exists [c]. cbn. split; [done | lia].
  - destruct n as [|n]; [exists []; cbn; by rewrite app_nil_r; split; [|lia]|]. cbn [app take find_chunk].
    apply Forall_cons in HF as [Hc HF]. unfold is_message in Hc. destruct (Item x) eqn:Ex; [|done].
    destruct (LeafChunkTokens <=? accum + ItemTokens x) eqn:Eb; [exists [x]; cbn; split; [done | lia]|].
    apply Z.leb_gt in Eb. destruct (IH (run0 ++ [x]) (accum + ItemTokens x) n) as (k & -> & Hk); [done | | |].
    + cbn in HL. unfold message_tokens in *. lia.
    + intros p q -> Hq. specialize (HS (x :: p) q eq_refl Hq). cbn in HS. unfold message_tokens in *. lia.
    + exists (x :: k). rewrite <- app_assoc. cbn. split; [done | lia].
Qed.

(** Fewer than eight messages at the start of the messages of a context
    that have 20000 tokens together stop leaf compaction for good: no chunk is
    found, with or without force, whatever comes after them. *)
Theorem large_messages_block force run c rest :
  Forall (fun x => is_message x = true) (run ++ [c]) -> (length (run ++ [c]) < LeafMinFanout)%nat ->
  LeafChunkTokens <= message_tokens (run ++ [c]) ->
  (forall p q, run = p ++ q -> q <> [] -> message_tokens p < LeafChunkTokens) ->
  leaf_chunk force (run ++ c :: rest) = None.
Proof.
  intros HF Hlen HL HS. unfold leaf_chunk. destruct (_ && _); [done|].
  destruct (find_chunk_large [] 0 run c rest (if force then length (run ++ c :: rest) else length (run ++ c :: rest) - FreshTailCount)%nat)
    as (k & Hk & Hl); [done | lia | done |].
  destruct (find_chunk [] [] 0 _) as [b k'] eqn:E. cbn in Hk. subst k'. rewrite length_app in Hlen. cbn in Hlen.
  rewrite (proj2 (Nat.ltb_lt (length k) LeafMinFanout)); [done | lia].
Qed.

(** Three messages before sixty others. *)
Lemma large_messages_block_witness :
  let item n tokens := mkContextItem (100 * n) (IMessage n) tokens in
  let rest := map (fun n => item (Z.of_nat n) 500) (seq 4 60) in
  leaf_chunk true ([item 1 7000; item 2 7000] ++ item 3 7000 :: rest) = None.
Proof.
  intros item rest. apply (large_messages_block true [item 1 7000; item 2 7000] (item 3 7000) rest).
  - by repeat constructor.
  - cbn. unfold LeafMinFanout. lia.
  - cbn. unfold LeafChunkTokens. lia.
  - intros [|x [|y p]] q E Hq; cbn.
    + unfold LeafChunkTokens. lia.
    + injection E as <- _. cbn. unfold LeafChunkTokens. lia.
    + injection E as <- <- E. symmetry in E. apply app_eq_nil in E as [_ ->]. done.
Defined.

(** ** Failures in the middle of an ingestion *)

(** An ingestion whose last query fails has stored its messages and not
    put them into the context, and the reconciliation at the next start finds
    nothing to do: the context misses them for good. *)
Theorem failed_append_forgotten :
  let fails n := (n =? 2)%nat in
  let p := Ingest fails tick_clock sample_engine "chat" [sample_message 100] empty_store in
  let q := Bootstrap never tick_clock sample_engine "chat" [sample_message 100] (fst p) in
  snd p = Err DBError /\ snd q = Ok tt /\ rows (fst q) 1 <> [] /\ cover (fst q) 1 = [].
Proof. vm_compute. split_and!; [done | done | discriminate | done]. Qed.

(** ** Two condensed compactions at once *)

(** [CompactUntilUnder] condenses without regard to the background loop.
    When both have read the same summaries and a summary more has come in
    between, the context afterwards stands for messages twice. *)
Theorem two_condensations_repeat :
  let text := String.concat "" (repeat "0123456789" 250) in
  let complete := Some (fun (n : nat) (p : string) (m : Z) (z : bool) => Ok (E := string) text) in
  let run ops db := fold_left (perform sample_engine tick_clock complete (fun _ => "") (fun _ => "")) ops db in
  let ingest n := OpIngest "chat" (repeat (sample_message 2500) n) in
  let compact := OpCompact "chat" (Some 1000000) false in
  let db1 := run [ingest 56%nat; compact; compact] empty_store in
  let plan := condensed_plan never tick_clock complete (fun _ => "") 1 in
  let p1 := plan db1 in
  let db2 := run [compact] (fst p1) in
  let p2 := plan db2 in
  let apply r db := match r with Ok (Some (ids, id)) => fst (place_condensed never 1 ids id db) | _ => db end in
  let db3 := apply (snd p2) (apply (snd p1) (fst p2)) in
  cover db2 1 = map ID (rows db2 1) /\ length (rows db3 1) = 56%nat /\ length (cover db3 1) = 72%nat.
Proof. vm_compute. by split_and!. Qed.

(** * Session patterns

    What the compiled pattern of a session accepts, without regular
    expressions. *)
Module SeahorseSessions.
Import Prelude GoStrings GoLib GoRegexp Utf8 SeahorseEngine.

#[local] Open Scope char_scope.

Definition no_newline (c : ascii) : Prop := (code c <> 10)%Z.

(** A star stands for what has no colon, two stars stand for what is on one
    line, and any other byte for itself. *)
Inductive glob : list ascii -> list ascii -> Prop :=
| glob_nil : glob [] []
| glob_double p u v : Forall no_newline u -> glob p v -> glob ("*" :: "*" :: p) (u ++ v)
| glob_single p u v : head p <> Some "*" -> Forall (fun c => c <> ":") u -> glob p v -> glob ("*" :: p) (u ++ v)
| glob_literal c p v : c <> "*" -> glob p v -> glob (c :: p) (chars (string_of_runes [code c]) ++ v).

Section Continuations.
Context (k : kont) (K : list ascii -> Prop) (Hk : forall prev cp l, is_Some (k prev cp l) <-> K l).

Lemma m_star_spec p prev cp l :
  is_Some (m_star p k prev cp l) <-> exists u v, l = u ++ v /\ Forall (fun c => p c = true) u /\ K v.
Proof.
  revert prev cp; induction l as [|c l IH]; intros prev cp; cbn [m_star].
  { rewrite Hk. split; [intros H; by exists [], [] | by intros ([|] & [|] & ? & _ & ?)]. }
  destruct (p c) eqn:Ep.
  - specialize (IH (Some c) (cap_push c cp)). destruct (m_star p k _ _ l) as [r|].
    + split; [|done]. intros _. destruct (proj1 IH) as (u & v & -> & H1 & H2); [done|]. exists (c :: u), v. by repeat constructor.
    + rewrite Hk. split; [intros H; by exists [], (c :: l)|]. intros (u & v & E & H1 & H2). destruct u as [|d u].
      * cbn in E. by rewrite E.
      * injection E as <- ->. apply Forall_cons in H1 as [_ H1]. destruct (proj2 IH) as [? ?]; [by exists u, v | done].
  - rewrite Hk. split; [intros H; by exists [], (c :: l)|]. intros (u & v & E & H1 & H2). destruct u as [|d u].
    + cbn in E. by rewrite E.
    + injection E as <- _. apply Forall_cons in H1 as [H1 _]. congruence.
Qed.
End Continuations.

Lemma m_lit_spec r (K : list ascii -> Prop) s :
  (forall prev cp l, is_Some (m_re r prev cp l) <-> K l) ->
  forall prev cp l, is_Some (m_re (map (fun c => ACls (Ascii.eqb c)) s ++ r) prev cp l) <-> exists v, l = s ++ v /\ K v.
Proof.
  intros Hk. induction s as [|c s IH]; intros prev cp l; cbn [map app m_re].
  { rewrite Hk. split; [intros H; by exists l | by intros (v & -> & ?)]. }
  destruct l as [|d l]; [split; [by intros [] | by intros (? & ? & _)]|]. destruct (Ascii.eqb_spec c d) as [<-|Hne].
  - rewrite IH. split; intros (v & E & H); exists v; [by rewrite E | by injection E as ->].
  - split; [by intros []|]. intros (v & E & _). by injection E as -> _.
Qed.

Lemma pattern_atoms_spec n p :
  (length p <= n)%nat -> forall prev cp l, is_Some (m_re (pattern_atoms p ++ [AEnd]) prev cp l) <-> glob p l.
Proof.
  revert p; induction n as [|n IH]; intros p Hn prev cp l.
  { destruct p; [|cbn in Hn; lia]. cbn. destruct l; split; try (by intros []); [constructor | by inversion 1]. }
  destruct p as [|c p]; [cbn; destruct l; split; try (by intros []); [constructor | by inversion 1]|].
  cbn [pattern_atoms]. cbn in Hn. destruct (Ascii.eqb_spec c "*") as [->|Hc].
  - destruct p as [|d p]; [|destruct (Ascii.eqb_spec d "*") as [->|Hd]]; cbn [app m_re].
    + rewrite (m_star_spec _ (fun v => v = [])) by (intros ?? [|]; cbn; split; try done; by intros []).
      split.
      * intros (u & v & -> & H & ->). apply (glob_single [] u []); [done | | constructor].
        eapply Forall_impl; [exact H|]. intros c Hc%negb_true_iff%Ascii.eqb_neq. done.
      * inversion 1 as [| |? u v Hh HF HG|]; subst; try done. inversion HG; subst. exists u, []. split_and!; [done | | done].
        eapply Forall_impl; [exact HF|]. intros c Hc. by apply negb_true_iff, Ascii.eqb_neq.
    + rewrite (m_star_spec _ (glob p)) by (intros; apply IH; cbn in Hn; lia). split.
      * intros (u & v & -> & H & HG). apply glob_double; [|done]. eapply Forall_impl; [exact H|].
        intros c Hc%negb_true_iff%Z.eqb_neq. done.
      * inversion 1 as [|? u v HF HG|? u v Hh HF HG|]; subst; try done. exists u, v. split_and!; [done | | done].
        eapply Forall_impl; [exact HF|]. intros c Hc. by apply negb_true_iff, Z.eqb_neq.
    + rewrite (m_star_spec _ (glob (d :: p))) by (intros; apply IH; cbn in Hn |- *; lia). split.
      * intros (u & v & -> & H & HG). apply glob_single; [by intros [= ->] | | done].
        eapply Forall_impl; [exact H|]. intros c Hc%negb_true_iff%Ascii.eqb_neq. done.
      * inversion 1 as [|? u v HF HG|? u v Hh HF HG|]; subst; try done. exists u, v. split_and!; [done | | done].
        eapply Forall_impl; [exact HF|]. intros c Hc. by apply negb_true_iff, Ascii.eqb_neq.
  - unfold pattern_byte, ALit. rewrite <- app_assoc. rewrite (m_lit_spec _ (glob p)) by (intros; apply IH; lia). split.
    + intros (v & -> & HG). by constructor.
    + inversion 1 as [| | |? ? v _ HG]; subst; try done. by exists v.
Qed.

(** A session key matches a pattern exactly when the glob does: one star
    does not cross a colon, two stars do. *)
Theorem session_pattern_glob pattern key :
  MatchString (compileSessionPattern pattern) key = true <-> glob (chars pattern) (chars key).
Proof.
  rewrite <- (pattern_atoms_spec (length (chars pattern)) (chars pattern) (le_n _) None (Cap false []) (chars key)).
  unfold MatchString, compileSessionPattern. cbn [app].
  destruct (chars key) as [|c l]; cbn [m_find m_re].
  - destruct (m_re _ None _ []); split; intros H; try done; destruct H; done.
  - destruct (m_re _ None _ (c :: l)); [by split|]. rewrite m_find_begin. split; intros H; [done | destruct H; done].
Qed.
End SeahorseSessions.

(** * The background loop ends

    The loop goes on only while the context gets smaller. *)
Module SeahorseLoop.
Import Prelude Effects GoStrings ContextBudget SeahorseStore SeahorseCompact SeahorseCover SeahorseConserve SeahorseOrder.

#[local] Open Scope Z_scope.

(** ** No negative counts *)

Definition light (l : list ContextItem) : Prop := Forall (fun c => 0 <= ItemTokens c) l.

Record nonneg (db : Store) : Prop := {
  n_summaries : forall id s, summaries db !! id = Some s -> 0 <= SummaryTokens s;
  n_contexts : forall convID, light (context_of db convID)
}.

Definition keeps_nonneg (db db' : Store) : Prop := nonneg db -> nonneg db'.

#[export] Instance keeps_nonneg_preorder : PreOrder keeps_nonneg.
Proof. split; [intros db H; exact H | intros d1 d2 d3 H1 H2 H; by apply H2, H1]. Qed.

Lemma nonneg_same db db' : same db db' -> keeps_nonneg db db'.
Proof. intros [n ->] [H1 H2]. split; [exact H1 | exact H2]. Qed.

Lemma text_tokens_nonneg s : 0 <= text_tokens s.
Proof. pose proof (ContextBudget.EstimateMessageTokens_pos (Message.text_message "" s)). unfold text_tokens. lia. Qed.

Lemma nonneg_CreateSummary fails now input parents :
  0 <= SummaryTokens input -> keeps keeps_nonneg (CreateSummary fails now input parents).
Proof.
  intros Hi db db' r [[-> _]|E]%transaction_inv HN; [by apply (nonneg_same _ _ (same_tick db))|]. cbn in E.
  destruct (summaries db !! _); injection E as <- _; [by apply (nonneg_same _ _ (same_tick db))|].
  destruct HN as [H1 H2]. split; [|exact H2]. cbn. intros id s [[<- <-]|[_ Hs]]%lookup_insert_Some; [done | by apply (H1 id)].
Qed.

Lemma light_insert c l : 0 <= ItemTokens c -> light l -> light (insert_item c l).
Proof. intros Hc Hl. unfold light. rewrite insert_item_perm. by constructor. Qed.

Lemma light_renumbered o l : light l -> light (renumbered o l).
Proof. intros H. revert o. induction H as [|c l Hc H IH]; intros o; cbn; constructor; [done | apply IH]. Qed.

Lemma summary_item_light db o id c : nonneg db -> summary_item db o id = Some c -> 0 <= ItemTokens c.
Proof.
  intros HN. unfold summary_item. destruct (summaries db !! id) as [s|] eqn:Es; [|done]. intros [= <-].
  by apply (n_summaries db HN id).
Qed.

Lemma light_place db rest m id : nonneg db -> light rest -> light (place_summary db rest m id).
Proof.
  intros HN HR. unfold place_summary, resequenceContextItems. destruct (existsb _ _).
  - apply Forall_app. split; [by apply light_renumbered|].
    destruct (summary_item db _ id) as [c|] eqn:Ei; cbn; [|constructor]. constructor; [by eapply summary_item_light | constructor].
  - destruct (summary_item db m id) as [c|] eqn:Ei; [|done]. apply light_insert; [by eapply summary_item_light | done].
Qed.

Lemma nonneg_put db convID l : nonneg db -> light l -> nonneg (put_context db convID l).
Proof.
  intros [H1 H2] Hl. split; [exact H1|]. intros c. unfold context_of. cbn. destruct (decide (c = convID)) as [->|Hne].
  - by rewrite lookup_insert_eq.
  - rewrite lookup_insert_ne by done. apply (H2 c).
Qed.

Lemma nonneg_replace_range fails convID s e id : keeps keeps_nonneg (ReplaceContextRangeWithSummary fails convID s e id).
Proof.
  intros db db' r [[-> _]|E]%transaction_inv HN; [by apply (nonneg_same _ _ (same_tick db))|].
  apply (f_equal fst) in E. cbn [fst] in E. rewrite <- E. pose proof (nonneg_same _ _ (same_tick db) HN) as HT.
  apply nonneg_put; [done|]. apply light_place; [done|]. apply Forall_filter, HT.
Qed.

Lemma nonneg_replace_items fails convID ids id : keeps keeps_nonneg (ReplaceContextItemsWithSummary fails convID ids id).
Proof.
  intros db db' r [[-> _]|E]%transaction_inv HN; [by apply (nonneg_same _ _ (same_tick db))|].
  pose proof (nonneg_same _ _ (same_tick db) HN) as HT. cbv beta zeta in E.
  destruct (List.filter (is_summary_of ids) _) as [|f found]; apply (f_equal fst) in E; cbn [fst] in E; rewrite <- E; [done|].
  apply nonneg_put; [done|]. apply light_place; [done|]. apply Forall_filter, HT.
Qed.

Lemma nonneg_reads {A} (m : S A) : keeps same m -> keeps keeps_nonneg m.
Proof. apply keeps_weaken, nonneg_same. Qed.

Section Loop.
Context (now : nat -> time).
Context (complete : option (nat -> string -> Z -> bool -> result string string)).
Context (day_stamp : time -> string).

Lemma nonneg_compactCondensed fails convID : keeps keeps_nonneg (compactCondensed fails now complete day_stamp convID).
Proof.
  unfold compactCondensed. apply keeps_bind; [apply _ | apply nonneg_reads, reads_condensed_candidates|]. intros [|c cs]; [apply keeps_ret, _|].
  apply keeps_bind; [apply _ | apply nonneg_reads, reads_generateCondensedSummary|]. intros content.
  apply keeps_bind; [apply _ | apply nonneg_CreateSummary, text_tokens_nonneg|]. intros s.
  unfold place_condensed. apply keeps_bind; [apply _ | apply nonneg_reads, reads_GetContextItems|]. intros items.
  destruct (candidate_range _ _ _ _) as [[[a b]|] [|]]; try apply keeps_ret, _;
    (apply keeps_bind; [apply _ | apply nonneg_replace_items || apply nonneg_replace_range | intros; apply keeps_ret, _]).
Qed.

Definition context_tokens (db : Store) (convID : Z) : Z := fold_right (fun c n => ItemTokens c + n) 0 (context_of db convID).

Lemma context_tokens_nonneg db convID : nonneg db -> 0 <= context_tokens db convID.
Proof.
  intros HN. unfold context_tokens. pose proof (n_contexts db HN convID) as H. unfold light in H.
  induction H as [|c l Hc H IH]; cbn; [done | lia].
Qed.

Lemma tokens_never convID db : GetContextTokenCount never convID db = (tick db, Ok (context_tokens db convID)).
Proof. done. Qed.

(** One more round than the tokens of the context is enough. *)
Lemma loop_ends fuel convID prev db :
  nonneg db -> (Z.to_nat (context_tokens db convID) < fuel)%nat ->
  snd (runCondensedLoop never now complete day_stamp fuel convID prev db) = Ok (Some tt).
Proof.
  revert prev db; induction fuel as [|fuel IH]; intros prev db HN Hf; [lia|]. cbn [runCondensedLoop].
  unfold bind at 1, try at 1. rewrite tokens_never.
  assert (HNt : nonneg (tick db)) by (by apply (nonneg_same _ _ (same_tick db))).
  unfold bind at 1, try at 1. destruct (compactCondensed never now complete day_stamp convID (tick db)) as [d [[id|]|x]] eqn:Ec; try done.
  pose proof (nonneg_compactCondensed never convID _ _ _ Ec HNt) as HNd.
  unfold tokens_or_zero, bind, try. rewrite tokens_never. cbn [ret].
  unfold ret. destruct (_ || _) eqn:Eb; [done|]. apply orb_false_iff in Eb as [Eb _]. apply Z.leb_gt in Eb.
  apply IH; [by apply (nonneg_same _ _ (same_tick d))|]. change (context_tokens (tick d) convID) with (context_tokens d convID).
  pose proof (context_tokens_nonneg d convID HNd). lia.
Qed.

(** The background loop ends when no query fails: it makes at most as many
    rounds as the context has tokens, and then one. *)
Theorem runCondensedLoop_ends convID db :
  nonneg db -> exists fuel, forall fuel', (fuel <= fuel')%nat ->
  snd (runCondensedLoop never now complete day_stamp fuel' convID 0 db) = Ok (Some tt).
Proof.
  intros HN. exists (Datatypes.S (Z.to_nat (context_tokens db convID))). intros fuel' Hf. apply loop_ends; [done | lia].
Qed.
End Loop.

(** Thirty summaries are condensed until nothing gets smaller. *)
Definition loop_store : Store :=
  let l := map (fun n => mkSummary ("s" +:+ itoa (Z.of_nat n)) 1 SummaryKindLeaf 0 "text" 700 None None 0 0 0) (seq 0 70) in
  mkStore {[ "chat" := 1 ]} 2 [] 1 (list_to_map (map (fun s => (SummaryID s, s)) l)) [] []
    {[ 1 := imap (fun n s => mkContextItem (100 * (Z.of_nat n + 1)) (ISummary (SummaryID s)) 700) l ]} 0.

Lemma loop_store_nonneg : nonneg loop_store.
Proof.
  split.
  - assert (H : map_Forall (fun _ s => bool_decide (0 <= SummaryTokens s) = true) (summaries loop_store)).
    { apply map_Forall_lookup. intros id s Hs. apply elem_of_list_to_map_2 in Hs.
      apply list_elem_of_fmap in Hs as (x & E & Hx). injection E as _ ->.
      apply list_elem_of_fmap in Hx as (n & -> & _). done. }
    intros id s Hs. apply (bool_decide_eq_true_1 _), (H id s Hs).
  - intros c. unfold light, context_of. cbn [context_items loop_store]. destruct (decide (c = 1)) as [->|Hne].
    + rewrite lookup_singleton_eq. cbn [default]. apply Forall_forall. intros x Hx. apply elem_of_lookup_imap in Hx as (n & s & -> & _). done.
    + rewrite lookup_singleton_ne by done. constructor.
Qed.

Lemma runCondensedLoop_ends_witness :
  let now n := 62135596800 * Second + Z.of_nat n in
  let run fuel := runCondensedLoop never now None (fun _ => "") fuel 1 0 loop_store in
  nonneg loop_store /\ (length (context_of (fst (run 100%nat)) 1) < 40)%nat /\
  exists fuel, forall fuel', (fuel <= fuel')%nat -> snd (run fuel') = Ok (Some tt).
Proof.
  cbv zeta. split; [apply loop_store_nonneg|]. split; [apply Nat.ltb_lt; vm_compute; reflexivity|].
  apply (runCondensedLoop_ends (fun n => 62135596800 * Second + Z.of_nat n) None (fun _ => "") 1 loop_store loop_store_nonneg).
Defined.
End SeahorseLoop.
