(* ===== verification/SeahorseAdapter.v ===== *)
(** * The summary graph as the context of a turn: [src/pkg/agent/context_seahorse.go]

    Conversion of messages, the budgets, and what a message is when it comes
    back. *)

From S2P Require Import Prelude Effects GoStrings GoLib.
Import GoRegexp.
From S2P Require Import ContextBudget SeahorseStore SeahorseCompact SeahorseEngine.
From S2P Require Message.

#[local] Open Scope Z_scope.

(** ** Conversion *)

Definition tool_use_part (tc : Message.ToolCall) (fn : Message.FunctionCall) : MessagePart :=
  mkPart "tool_use" "" (Message.FnName fn) (Message.FnArguments fn) (Message.CallID tc) "" "".

(** A call without a function is a nil pointer: no result. *)
Fixpoint call_parts (calls : list Message.ToolCall) : option (list MessagePart) :=
  match calls with
  | [] => Some []
  | tc :: rest =>
      match Message.Function tc, call_parts rest with
      | Some fn, Some ps => Some (tool_use_part tc fn :: ps)
      | _, _ => None
      end
  end.

Definition result_parts (msg : Message.Message) : list MessagePart :=
  if String.eqb (Message.ToolCallID msg) "" then []
  else [mkPart "tool_result" (Message.Content msg) "" "" (Message.ToolCallID msg) "" ""].

Definition media_parts (msg : Message.Message) : list MessagePart :=
  map (fun uri => mkPart "media" "" "" "" "" uri "") (Message.Media msg).

Definition providerToSeahorseMessage (msg : Message.Message) : option Message :=
  match call_parts (Message.ToolCalls msg) with
  | None => None
  | Some ps =>
      Some (mkMessage 0 0 (Message.Role msg) (Message.Content msg) (Message.ReasoningContent msg)
              (ContextBudget.EstimateMessageTokens msg) 0 (ps ++ result_parts msg ++ media_parts msg))
  end.

Definition add_part (pm : Message.Message) (p : MessagePart) : Message.Message :=
  let pm :=
    if String.eqb (PartType p) "tool_use" then
      Message.mkMessage (Message.Role pm) (Message.Content pm) (Message.Media pm) (Message.ReasoningContent pm)
        (Message.SystemParts pm)
        (Message.ToolCalls pm ++ [Message.mkToolCall (PartToolCallID p) "function"
           (Some (Message.mkFunctionCall (PartName p) (Arguments p) "")) "" "" None])
        (Message.ToolCallID pm)
    else pm in
  let pm :=
    if String.eqb (PartType p) "tool_result" then
      Message.mkMessage (Message.Role pm)
        (if String.eqb (Message.Content pm) "" && negb (String.eqb (Text p) "") then Text p else Message.Content pm)
        (Message.Media pm) (Message.ReasoningContent pm) (Message.SystemParts pm) (Message.ToolCalls pm) (PartToolCallID p)
    else pm in
  if String.eqb (PartType p) "media" && negb (String.eqb (MediaURI p) "") then
    Message.mkMessage (Message.Role pm) (Message.Content pm) (Message.Media pm ++ [MediaURI p]) (Message.ReasoningContent pm)
      (Message.SystemParts pm) (Message.ToolCalls pm) (Message.ToolCallID pm)
  else pm.

Definition to_provider (m : Message) : Message.Message :=
  fold_left add_part (Parts m) (Message.mkMessage (Role m) (Content m) [] (ReasoningContent m) [] [] "").

Definition seahorseToProviderMessages (r : AssembleResult) : list Message.Message := map to_provider (Messages r).

(** ** The context manager *)

Inductive CompressReason : Type := ReasonProactive | ReasonRetry | ReasonSummarize.

(** The budget of a context beside the answer; 100000 when none is given. *)
Definition effective_budget (budget maxTokens : Z) : Z :=
  let budget := if budget <=? 0 then 100000 else budget in
  if budget - maxTokens <=? 0 then Z.quot budget 2 else budget - maxTokens.

Section Manager.
Context (fails : nat -> bool) (now : nat -> time) (rfc3339 : time -> string).
Context (complete : option (nat -> string -> Z -> bool -> result string string)).
Context (minute_stamp day_stamp : time -> string).
Context (e : Engine).

(** [None] is a nil pointer that is followed. *)
Definition ManagerAssemble (sessionKey : string) (budget maxTokens : Z) : S (option (list Message.Message * string)) :=
  let! r := EngineAssemble fails rfc3339 e sessionKey (effective_budget budget maxTokens) in
  ret ((fun r => (seahorseToProviderMessages r, SummaryText r)) <$> r).

Definition ManagerCompact (sessionKey : string) (reason : CompressReason) (budget : Z) : S unit :=
  match reason with
  | ReasonRetry =>
      if 0 <? budget then
        let! _ := EngineCompactUntilUnder fails now complete minute_stamp day_stamp e sessionKey budget in ret tt
      else
        let! _ := EngineCompact fails now complete minute_stamp e sessionKey (Some budget) true in ret tt
  | _ => let! _ := EngineCompact fails now complete minute_stamp e sessionKey (Some budget) false in ret tt
  end.

Definition ManagerIngest (sessionKey : string) (msg : Message.Message) : S (option unit) :=
  match providerToSeahorseMessage msg with
  | None => ret None
  | Some m => let! _ := Ingest fails now e sessionKey [m] in ret (Some tt)
  end.

Fixpoint convert_all (history : list Message.Message) : option (list Message) :=
  match history with
  | [] => Some []
  | h :: rest =>
      match providerToSeahorseMessage h, convert_all rest with
      | Some m, Some ms => Some (m :: ms)
      | _, _ => None
      end
  end.

(** Errors are logged only. *)
Definition bootstrapSession (sessionKey : string) (history : list Message.Message) : S (option unit) :=
  match convert_all history with
  | None => ret None
  | Some ms => let! _ := try (Bootstrap fails now e sessionKey ms) in ret (Some tt)
  end.
End Manager.

(** ** What comes back *)

(** The row of a message as [Ingest] writes it and [Assemble] reads it. *)
Definition stored_row (m : Message) (id conv : Z) (at_ : time) : Message :=
  mkMessage id conv (Role m) (match Parts m with [] => Content m | ps => partsToReadableContent ps end) "" (TokenCount m) at_ (Parts m).

Definition returned (msg : Message.Message) : option Message.Message :=
  (fun m => to_provider (stored_row m 1 1 0)) <$> providerToSeahorseMessage msg.

Definition returned_call (tc : Message.ToolCall) (fn : Message.FunctionCall) : Message.ToolCall :=
  Message.mkToolCall (Message.CallID tc) "function"
    (Some (Message.mkFunctionCall (Message.FnName fn) (Message.FnArguments fn) "")) "" "" None.

Fixpoint returned_calls (calls : list Message.ToolCall) : list Message.ToolCall :=
  match calls with
  | [] => []
  | tc :: rest => match Message.Function tc with Some fn => returned_call tc fn :: returned_calls rest | None => returned_calls rest end
  end.

Lemma fold_calls calls ps pm : call_parts calls = Some ps ->
  fold_left add_part ps pm = Message.mkMessage (Message.Role pm) (Message.Content pm) (Message.Media pm) (Message.ReasoningContent pm)
    (Message.SystemParts pm) (Message.ToolCalls pm ++ returned_calls calls) (Message.ToolCallID pm).
Proof.
  revert ps pm; induction calls as [|tc calls IH]; intros ps pm E; cbn in E |- *.
  { injection E as <-. cbn. rewrite app_nil_r. by destruct pm. }
  destruct (Message.Function tc) as [fn|]; [|done]. destruct (call_parts calls) as [ps'|]; [|done]. injection E as <-.
  cbn [fold_left]. rewrite (IH ps') by done. cbn. by rewrite <- app_assoc.
Qed.

Lemma fold_media uris pm : Forall (fun u => u <> "") uris ->
  fold_left add_part (map (fun uri => mkPart "media" "" "" "" "" uri "") uris) pm
  = Message.mkMessage (Message.Role pm) (Message.Content pm) (Message.Media pm ++ uris) (Message.ReasoningContent pm)
      (Message.SystemParts pm) (Message.ToolCalls pm) (Message.ToolCallID pm).
Proof.
  revert pm; induction uris as [|u uris IH]; intros pm HF; cbn [map fold_left]; [rewrite app_nil_r; by destruct pm|].
  apply Forall_cons in HF as [Hu HF]. rewrite IH by done. unfold add_part. cbn.
  destruct (String.eqb_spec u ""); [done|]. cbn. by rewrite <- app_assoc.
Qed.

(** The text that comes back. *)
Definition returned_text (msg : Message.Message) (ps : list MessagePart) : string :=
  match (ps ++ result_parts msg ++ media_parts msg)%list with [] => Message.Content msg | parts => partsToReadableContent parts end.

(** A message comes back from the summary graph with its role, its calls,
    the number of the call that it answers and its media. Its text comes back
    only when it has none of these, else a rendering of them takes its place;
    its reasoning does not come back. *)
Theorem returned_spec msg ps :
  call_parts (Message.ToolCalls msg) = Some ps -> Forall (fun u => u <> "") (Message.Media msg) ->
  returned msg = Some (Message.mkMessage (Message.Role msg)
    (let text := returned_text msg ps in
     if String.eqb (Message.ToolCallID msg) "" then text
     else if String.eqb text "" && negb (String.eqb (Message.Content msg) "") then Message.Content msg else text)
    (Message.Media msg) "" [] (returned_calls (Message.ToolCalls msg)) (Message.ToolCallID msg)).
Proof.
  intros Hps HM. unfold returned, providerToSeahorseMessage. rewrite Hps. cbn [fmap option_fmap option_map]. f_equal.
  unfold to_provider, stored_row. cbn [Parts Role Content ReasoningContent]. fold (returned_text msg ps).
  rewrite !fold_left_app, (fold_calls _ _ _ Hps). cbn [Message.Role Message.Content Message.Media Message.ReasoningContent Message.SystemParts Message.ToolCalls Message.ToolCallID app].
  unfold result_parts at 1. destruct (String.eqb_spec (Message.ToolCallID msg) "") as [->|Hne]; cbn [fold_left].
  - unfold media_parts. by rewrite fold_media.
  - unfold media_parts. rewrite fold_media by done. unfold add_part. by cbn.
Qed.

(** A call with a text before it, and the answer. *)
Lemma returned_spec_witness :
  let call := Message.mkToolCall "c1" "function" (Some (Message.mkFunctionCall "ls" "{}" "")) "" "" None in
  let msg := Message.mkMessage "assistant" "I look." [] "hm" [] [call] "" in
  returned msg = Some (Message.mkMessage "assistant" "[tool_use: ls, args: {}]" [] "" [] [call] "") /\
  returned (Message.mkMessage "tool" "a.txt" [] "" [] [] "c1")
  = Some (Message.mkMessage "tool" "[tool_result for c1: a.txt]" [] "" [] [] "c1").
Proof.
  intros call msg. split.
  - rewrite (returned_spec msg [mkPart "tool_use" "" "ls" "{}" "c1" "" ""]); [reflexivity | reflexivity | constructor].
  - reflexivity.
Defined.
