(* ===== verification/Steering.v ===== *)
(** * The steering queue: [src/pkg/agent/steering.go]

    Messages of users that arrive while a turn runs, queued per scope. Every
    method holds the lock of the queue, so an operation is one step. *)

From S2P Require Import Prelude GoStrings Message.

(** ** Modes and scopes *)

Inductive SteeringMode : Type := SteeringOneAtATime | SteeringAll.

#[global] Instance SteeringMode_eq_dec : EqDecision SteeringMode.
Proof. solve_decision. Defined.

Definition parseSteeringMode (s : string) : SteeringMode :=
  if String.eqb s "all" then SteeringAll else SteeringOneAtATime.

Definition MaxQueueSize : nat := 10.
Definition manualSteeringScope : string := "__manual__".

Definition normalizeSteeringScope (scope : string) : string :=
  let scope := TrimSpace scope in
  if String.eqb scope "" then manualSteeringScope else scope.

(** ** The queue *)

Record steeringQueue : Type := mkQueue { queues : gmap string (list Message); mode : SteeringMode }.

Definition newSteeringQueue (m : SteeringMode) : steeringQueue := mkQueue ∅ m.

(** A key that is missing reads as an empty slice. *)
Definition queued (sq : steeringQueue) (scope : string) : list Message := default [] (queues sq !! scope).

(** [None] is the error of a full queue. *)
Definition pushScope (sq : steeringQueue) (scope : string) (msg : Message) : option steeringQueue :=
  let scope := normalizeSteeringScope scope in
  let queue := queued sq scope in
  if (MaxQueueSize <=? length queue)%nat then None
  else Some (mkQueue (<[scope := queue ++ [msg]]> (queues sq)) (mode sq)).

Definition push (sq : steeringQueue) (msg : Message) : option steeringQueue := pushScope sq manualSteeringScope msg.

Definition dequeueLocked (sq : steeringQueue) (scope : string) : steeringQueue * list Message :=
  match queued sq scope with
  | [] => (sq, [])
  | msg :: queue =>
      match mode sq with
      | SteeringAll => (mkQueue (delete scope (queues sq)) (mode sq), msg :: queue)
      | SteeringOneAtATime =>
          (mkQueue (match queue with [] => delete scope (queues sq) | _ => <[scope := queue]> (queues sq) end) (mode sq),
           [msg])
      end
  end.

Definition dequeueScope (sq : steeringQueue) (scope : string) : steeringQueue * list Message :=
  dequeueLocked sq (normalizeSteeringScope scope).

Definition dequeue (sq : steeringQueue) : steeringQueue * list Message := dequeueScope sq manualSteeringScope.

Definition dequeueScopeWithFallback (sq : steeringQueue) (scope : string) : steeringQueue * list Message :=
  let scope := TrimSpace scope in
  let '(sq', msgs) := if String.eqb scope "" then (sq, []) else dequeueLocked sq scope in
  match msgs with
  | [] => dequeueLocked sq manualSteeringScope
  | _ => (sq', msgs)
  end.

Definition lenScope (sq : steeringQueue) (scope : string) : nat := length (queued sq (normalizeSteeringScope scope)).

(** The number of messages over all scopes ([len]). *)
Definition total (sq : steeringQueue) : nat := map_fold (fun _ queue n => (length queue + n)%nat) O (queues sq).

Definition setMode (sq : steeringQueue) (m : SteeringMode) : steeringQueue := mkQueue (queues sq) m.

(** ** Lemmas *)

Lemma queued_insert sq m scope queue : queued (mkQueue (<[scope := queue]> (queues sq)) m) scope = queue.
Proof. unfold queued. simpl. by rewrite lookup_insert_eq. Qed.

Lemma queued_insert_ne sq m scope s queue :
  scope <> s -> queued (mkQueue (<[scope := queue]> (queues sq)) m) s = queued sq s.
Proof. intros Hne. unfold queued. simpl. by rewrite lookup_insert_ne. Qed.

Lemma queued_delete sq m scope : queued (mkQueue (delete scope (queues sq)) m) scope = [].
Proof. unfold queued. simpl. by rewrite lookup_delete_eq. Qed.

Lemma queued_delete_ne sq m scope s :
  scope <> s -> queued (mkQueue (delete scope (queues sq)) m) s = queued sq s.
Proof. intros Hne. unfold queued. simpl. by rewrite lookup_delete_ne. Qed.

#[export] Hint Rewrite queued_insert queued_delete : go.

(** Taking messages splits the queue of the scope and leaves the others. *)
Lemma dequeueLocked_spec sq scope :
  let '(sq', msgs) := dequeueLocked sq scope in
  queued sq scope = msgs ++ queued sq' scope /\
  (forall s, s <> scope -> queued sq' s = queued sq s) /\ mode sq' = mode sq /\
  (msgs = [] -> queued sq scope = [] /\ sq' = sq) /\
  (mode sq = SteeringAll -> queued sq' scope = []) /\
  (mode sq = SteeringOneAtATime -> (length msgs <= 1)%nat).
Proof.
  unfold dequeueLocked. destruct (queued sq scope) as [|msg queue] eqn:E; [rewrite E; split_and!; try done; simpl; lia|].
  destruct (mode sq) eqn:Em; cbn [mode].
  - split_and!; try done.
    + destruct queue; by autorewrite with go.
    + intros s Hne. destruct queue; [by rewrite queued_delete_ne | by rewrite queued_insert_ne].
  - rewrite queued_delete, app_nil_r. split_and!; try done. intros s Hne. by rewrite queued_delete_ne.
Qed.

Lemma pushScope_spec sq scope msg sq' :
  pushScope sq scope msg = Some sq' ->
  let k := normalizeSteeringScope scope in
  queued sq' k = queued sq k ++ [msg] /\ (forall s, s <> k -> queued sq' s = queued sq s) /\
  mode sq' = mode sq /\ (length (queued sq k) < MaxQueueSize)%nat.
Proof.
  unfold pushScope. case_match eqn:E; [done|]. breflect. intros [= <-]. simpl.
  rewrite queued_insert. split_and!; try done. intros s Hne. by rewrite queued_insert_ne.
Qed.

(** ** Runs of the queue

    The methods with what they accept and hand out, each message under the
    scope of the queue that it is in. *)

Inductive queue_op : Type :=
| OpPush (scope : string) (msg : Message)
| OpDequeue (scope : string)
| OpDequeueFallback (scope : string)
| OpSetMode (m : SteeringMode).

Record effect : Type := mkEffect { accepted : list (string * Message); handed : list (string * Message) }.

Definition of_scope (k : string) (l : list (string * Message)) : list Message :=
  map snd (List.filter (fun p => String.eqb (fst p) k) l).

Definition tag (k : string) (msgs : list Message) : list (string * Message) := map (pair k) msgs.

(** The scope that [dequeueScopeWithFallback] takes from. *)
Definition fallback_scope (sq : steeringQueue) (scope : string) : string :=
  let scope := TrimSpace scope in
  if String.eqb scope "" then manualSteeringScope
  else match queued sq scope with [] => manualSteeringScope | _ => scope end.

Definition run_op (sq : steeringQueue) (o : queue_op) : steeringQueue * effect :=
  match o with
  | OpPush scope msg =>
      match pushScope sq scope msg with
      | Some sq' => (sq', mkEffect (tag (normalizeSteeringScope scope) [msg]) [])
      | None => (sq, mkEffect [] [])
      end
  | OpDequeue scope =>
      let '(sq', msgs) := dequeueScope sq scope in (sq', mkEffect [] (tag (normalizeSteeringScope scope) msgs))
  | OpDequeueFallback scope =>
      let '(sq', msgs) := dequeueScopeWithFallback sq scope in (sq', mkEffect [] (tag (fallback_scope sq scope) msgs))
  | OpSetMode m => (setMode sq m, mkEffect [] [])
  end.

Fixpoint run_ops (sq : steeringQueue) (ops : list queue_op) : steeringQueue * effect :=
  match ops with
  | [] => (sq, mkEffect [] [])
  | o :: rest =>
      let '(sq1, e1) := run_op sq o in
      let '(sq2, e2) := run_ops sq1 rest in
      (sq2, mkEffect (accepted e1 ++ accepted e2) (handed e1 ++ handed e2))
  end.

Lemma of_scope_app k l1 l2 : of_scope k (l1 ++ l2) = of_scope k l1 ++ of_scope k l2.
Proof. unfold of_scope. by rewrite List.filter_app, map_app. Qed.

Lemma of_scope_tag k msgs : of_scope k (tag k msgs) = msgs.
Proof. induction msgs as [|m msgs IH]; [done|]. unfold of_scope in *. simpl. by rewrite String.eqb_refl; simpl; rewrite IH. Qed.

Lemma of_scope_other k s msgs : k <> s -> of_scope k (tag s msgs) = [].
Proof.
  intros Hne. induction msgs as [|m msgs IH]; [done|]. unfold of_scope in *. simpl.
  by destruct (String.eqb_spec s k); [congruence|].
Qed.

Lemma dequeueScopeWithFallback_eq sq scope :
  dequeueScopeWithFallback sq scope = dequeueLocked sq (fallback_scope sq scope).
Proof.
  unfold dequeueScopeWithFallback, fallback_scope. destruct (String.eqb_spec (TrimSpace scope) ""); [done|].
  pose proof (dequeueLocked_spec sq (TrimSpace scope)) as H. destruct (dequeueLocked sq (TrimSpace scope)) as [sq' msgs] eqn:E.
  destruct H as (Hq & _ & _ & Hnil & _). destruct msgs as [|m msgs].
  - by destruct (Hnil eq_refl) as [-> _].
  - rewrite Hq. simpl. by rewrite E.
Qed.

(** One step keeps the books of every scope. *)
Lemma run_op_balance sq o k :
  let '(sq', e) := run_op sq o in
  queued sq k ++ of_scope k (accepted e) = of_scope k (handed e) ++ queued sq' k.
Proof.
  assert (Htake : forall s, let '(sq', msgs) := dequeueLocked sq s in
      queued sq k = of_scope k (tag s msgs) ++ queued sq' k).
  { intros s. pose proof (dequeueLocked_spec sq s) as H. destruct (dequeueLocked sq s) as [sq' msgs].
    destruct H as (Hq & Ho & _). destruct (decide (k = s)) as [->|Hne].
    - by rewrite of_scope_tag.
    - rewrite of_scope_other by done. by rewrite Ho. }
  destruct o as [scope msg|scope|scope|m]; unfold run_op, dequeueScope; try rewrite dequeueScopeWithFallback_eq.
  - destruct (pushScope sq scope msg) as [sq'|] eqn:E; [|cbn; by rewrite app_nil_r].
    apply pushScope_spec in E as (Hq & Ho & _). cbn [accepted handed]. change (of_scope k []) with (@nil Message). simpl.
    destruct (decide (k = normalizeSteeringScope scope)) as [->|Hne].
    + change [(normalizeSteeringScope scope, msg)] with (tag (normalizeSteeringScope scope) [msg]). by rewrite of_scope_tag.
    + change [(normalizeSteeringScope scope, msg)] with (tag (normalizeSteeringScope scope) [msg]).
      rewrite of_scope_other, app_nil_r by done. symmetry. by apply Ho.
  - specialize (Htake (normalizeSteeringScope scope)). destruct (dequeueLocked _ _). cbn. by rewrite app_nil_r.
  - specialize (Htake (fallback_scope sq scope)). destruct (dequeueLocked _ _). cbn. by rewrite app_nil_r.
  - cbn. by rewrite app_nil_r.
Qed.

Lemma run_ops_balance sq ops k :
  let '(sq', e) := run_ops sq ops in
  queued sq k ++ of_scope k (accepted e) = of_scope k (handed e) ++ queued sq' k.
Proof.
  revert sq; induction ops as [|o ops IH]; intros sq; simpl; [by rewrite app_nil_r|].
  pose proof (run_op_balance sq o k) as H1. destruct (run_op sq o) as [sq1 e1].
  specialize (IH sq1). destruct (run_ops sq1 ops) as [sq2 e2]. cbn [accepted handed].
  rewrite !of_scope_app, app_assoc, H1, <- !app_assoc. by rewrite IH.
Qed.

(** No queue grows beyond its limit, and no empty queue is kept. *)
Definition bounded (sq : steeringQueue) : Prop :=
  map_Forall (fun _ queue => (0 < length queue <= MaxQueueSize)%nat) (queues sq).

Lemma bounded_queued sq k : bounded sq -> (length (queued sq k) <= MaxQueueSize)%nat.
Proof.
  intros HB. unfold queued. destruct (queues sq !! k) as [q|] eqn:E; simpl; [|unfold MaxQueueSize; lia].
  by specialize (HB k q E) as [_ ?].
Qed.

Lemma dequeueLocked_bounded sq s : bounded sq -> bounded (fst (dequeueLocked sq s)).
Proof.
  intros HB. unfold dequeueLocked. pose proof (bounded_queued sq s HB) as Hs.
  destruct (queued sq s) as [|m queue]; [done|]. unfold bounded in *.
  destruct (mode sq); cbn [fst queues]; [destruct queue as [|m' queue]|]; try by apply map_Forall_delete.
  apply map_Forall_insert_2; [simpl in *; lia | done].
Qed.

Lemma run_op_bounded sq o : bounded sq -> bounded (fst (run_op sq o)).
Proof.
  intros HB. destruct o as [scope msg|scope|scope|m]; unfold run_op, dequeueScope; try rewrite dequeueScopeWithFallback_eq.
  - unfold pushScope. case_match eqn:E; case_match; simplify_eq; [|done]. breflect.
    apply map_Forall_insert_2; [rewrite length_app; simpl; unfold MaxQueueSize in *; lia | done].
  - pose proof (dequeueLocked_bounded sq (normalizeSteeringScope scope) HB). by destruct (dequeueLocked _ _).
  - pose proof (dequeueLocked_bounded sq (fallback_scope sq scope) HB). by destruct (dequeueLocked _ _).
  - done.
Qed.

Lemma run_ops_bounded sq ops : bounded sq -> bounded (fst (run_ops sq ops)).
Proof.
  revert sq; induction ops as [|o ops IH]; intros sq HB; [done|]. simpl.
  pose proof (run_op_bounded sq o HB) as H1. destruct (run_op sq o) as [sq1 e1].
  specialize (IH sq1 H1). by destruct (run_ops sq1 ops).
Qed.

(** C30: Steering is first in, first out, per scope: over any sequence of the
    methods, what a scope has handed out, followed by what it still holds, is
    what it accepted, in order; no message is lost, repeated or moved to
    another scope, and no scope holds more than ten. *)
Theorem steering_fifo m ops k :
  let '(sq, e) := run_ops (newSteeringQueue m) ops in
  of_scope k (accepted e) = of_scope k (handed e) ++ queued sq k /\ (length (queued sq k) <= MaxQueueSize)%nat.
Proof.
  pose proof (run_ops_balance (newSteeringQueue m) ops k) as H.
  pose proof (run_ops_bounded (newSteeringQueue m) ops (map_Forall_empty _)) as HB.
  destruct (run_ops (newSteeringQueue m) ops) as [sq e]. split; [exact H | by apply bounded_queued].
Qed.
