(* ===== verification/Hooks.v ===== *)
(** * Hooks: [src/pkg/agent/hooks.go]

    The hooks that observe and change a turn, in the order of their source,
    priority and name. A hook is what its methods return; the number is the
    time of the call. A method that fails, or does not answer in time, is
    [None]. Observers (they only read) and the closing of hooks are left out,
    and the copies that [Clone] makes, which are equal values. *)

From Stdlib Require Import Sorted OrderedTypeEx.
From stdpp Require Import sorting.
From S2P Require Import Prelude GoStrings Message.

(** ** Tool results: the fields that the agent reads, of [src/pkg/tools/result.go] *)

Record ToolResult : Type := mkToolResult {
  ForLLM : string;
  ForUser : string;
  Silent : bool;
  IsError : bool;
  Async : bool;
  ErrText : option string;
  ResultMedia : list string;
  ArtifactTags : list string;
  ResponseHandled : bool
}.

Definition ErrorResult (message : string) : ToolResult := mkToolResult message "" false true false None [] [] false.
Definition NewToolResult (forLLM : string) : ToolResult := mkToolResult forLLM "" false false false None [] [] false.
Definition SilentResult (forLLM : string) : ToolResult := mkToolResult forLLM "" true false false None [] [] false.

Definition handledToolLLMNote : string :=
  "The requested output has already been delivered to the user in the current chat. Do not call send_file or any other delivery tool again. If you reply, provide only a brief confirmation.".
Definition artifactPathsLLMNote : string :=
  "Use `send_file` with one of these paths to send it to the user, or use file/exec tools to save it inside the workspace if requested.".

Definition ContentForLLM (tr : ToolResult) : string :=
  let content := ForLLM tr in
  let content := match ErrText tr with Some e => if String.eqb content "" then e else content | None => content end in
  let content :=
    if ResponseHandled tr then
      if String.eqb content "" then handledToolLLMNote
      else if Contains content handledToolLLMNote then content
      else content +:+ nl +:+ handledToolLLMNote
    else content in
  match ArtifactTags tr with
  | [] => content
  | tags =>
      let artifactNote := "Local artifact paths: " +:+ join " " tags +:+ nl +:+ artifactPathsLLMNote in
      if String.eqb content "" then artifactNote
      else if Contains content artifactNote then content
      else content +:+ nl +:+ artifactNote
  end.

(** ** Decisions *)

Inductive HookAction : Type :=
| HookActionContinue
| HookActionModify
| HookActionRespond
| HookActionDenyTool
| HookActionAbortTurn
| HookActionHardAbort
| OtherAction (text : string).

(** The action as a hook writes it. *)
Record HookDecision : Type := mkDecision { Action : string; Reason : string }.

Definition normalizedAction (d : HookDecision) : HookAction :=
  if String.eqb (Action d) "" || String.eqb (Action d) "continue" then HookActionContinue
  else if String.eqb (Action d) "modify" then HookActionModify
  else if String.eqb (Action d) "respond" then HookActionRespond
  else if String.eqb (Action d) "deny_tool" then HookActionDenyTool
  else if String.eqb (Action d) "abort_turn" then HookActionAbortTurn
  else if String.eqb (Action d) "hard_abort" then HookActionHardAbort
  else OtherAction (Action d).

Definition continue : HookDecision := mkDecision "continue" "".

Record ApprovalDecision : Type := mkApproval { Approved : bool; ApprovalReason : string }.

Section Hooks.
Context {Args Tools Response : Type}.
(** [strconv.Quote] *)
Context (quote : string -> string).

(** ** Requests *)

Record LLMHookRequest : Type := mkLLMRequest { ReqModel : string; ReqMessages : list Message; ReqTools : Tools }.

Record ToolCallHookRequest : Type := mkToolRequest {
  ReqTool : string;
  ReqArguments : Args;
  ReqResult : option ToolResult
}.

Record ToolResultHookResponse : Type := mkToolResponse {
  RespTool : string;
  RespArguments : Args;
  RespResult : option ToolResult
}.

(** [Response] of [LLMHookResponse] is a pointer. *)
Abbreviation LLMHookResponse := (option Response).

(** ** Registrations *)

Inductive approval : Type := Decided (d : ApprovalDecision) | ApprovalFailed | ApprovalTimedOut.

(** What a call of an interceptor gives: a pointer and a decision, unless it
    fails. *)
Abbreviation answer A := (option (option A * HookDecision)).

Record LLMInterceptor : Type := mkLLMInterceptor {
  HookBeforeLLM : nat -> LLMHookRequest -> answer LLMHookRequest;
  HookAfterLLM : nat -> LLMHookResponse -> answer LLMHookResponse
}.

Record ToolInterceptor : Type := mkToolInterceptor {
  HookBeforeTool : nat -> ToolCallHookRequest -> answer ToolCallHookRequest;
  HookAfterTool : nat -> ToolResultHookResponse -> answer ToolResultHookResponse
}.

(** [HookSourceInProcess] is 0, [HookSourceProcess] is 1; a hook is what its
    type implements. *)
Record HookRegistration : Type := mkRegistration {
  HookName : string;
  Priority : Z;
  HookSource : Z;
  AsLLM : option LLMInterceptor;
  AsTool : option ToolInterceptor;
  AsApprover : option (nat -> string -> Args -> approval)
}.

(** ** The order *)

Definition string_ltb (s t : string) : bool := match String.compare s t with Lt => true | _ => false end.

Definition less (i j : HookRegistration) : bool :=
  if negb (HookSource i =? HookSource j) then HookSource i <? HookSource j
  else if Priority i =? Priority j then string_ltb (HookName i) (HookName j)
  else Priority i <? Priority j.

(** [sort.SliceStable] *)
Fixpoint insert_hook (x : HookRegistration) (l : list HookRegistration) : list HookRegistration :=
  match l with
  | [] => [x]
  | y :: l' => if less y x then y :: insert_hook x l' else x :: l
  end.

Definition sort_hooks (l : list HookRegistration) : list HookRegistration := fold_right insert_hook [] l.

Record HookManager : Type := mkManager { hooks : gmap string HookRegistration; ordered : list HookRegistration }.

Definition NewHookManager : HookManager := mkManager ∅ [].

(** From the map in the order of one iteration over it. *)
Definition rebuildOrdered (hs : gmap string HookRegistration) : list HookRegistration :=
  sort_hooks (map snd (map_to_list hs)).

(** [None] is the error of a registration without a name. *)
Definition Mount (hm : HookManager) (reg : HookRegistration) : option HookManager :=
  if String.eqb (HookName reg) "" then None
  else
    let hs := <[HookName reg := reg]> (hooks hm) in
    Some (mkManager hs (rebuildOrdered hs)).

Definition Unmount (hm : HookManager) (name : string) : HookManager :=
  if String.eqb name "" then hm
  else let hs := delete name (hooks hm) in mkManager hs (rebuildOrdered hs).

(** ** Chains

    The loops over [snapshotHooks]; [regs] is what is left of the snapshot. *)

Fixpoint BeforeLLM (t : nat) (regs : list HookRegistration) (current : LLMHookRequest) : LLMHookRequest * HookDecision :=
  match regs with
  | [] => (current, continue)
  | reg :: rest =>
      match AsLLM reg with
      | None => BeforeLLM t rest current
      | Some i =>
          match HookBeforeLLM i t current with
          | None => BeforeLLM t rest current
          | Some (next, decision) =>
              match normalizedAction decision with
              | HookActionContinue | HookActionModify => BeforeLLM t rest (default current next)
              | HookActionAbortTurn | HookActionHardAbort => (current, decision)
              | _ => BeforeLLM t rest current
              end
          end
      end
  end.

Fixpoint AfterLLM (t : nat) (regs : list HookRegistration) (current : LLMHookResponse) : LLMHookResponse * HookDecision :=
  match regs with
  | [] => (current, continue)
  | reg :: rest =>
      match AsLLM reg with
      | None => AfterLLM t rest current
      | Some i =>
          match HookAfterLLM i t current with
          | None => AfterLLM t rest current
          | Some (next, decision) =>
              match normalizedAction decision with
              | HookActionContinue | HookActionModify => AfterLLM t rest (default current next)
              | HookActionAbortTurn | HookActionHardAbort => (current, decision)
              | _ => AfterLLM t rest current
              end
          end
      end
  end.

(** A hook that responds ends the chain with the request that it returns,
    which may be nil. *)
Fixpoint BeforeTool (t : nat) (regs : list HookRegistration) (current : ToolCallHookRequest) :
    option ToolCallHookRequest * HookDecision :=
  match regs with
  | [] => (Some current, continue)
  | reg :: rest =>
      match AsTool reg with
      | None => BeforeTool t rest current
      | Some i =>
          match HookBeforeTool i t current with
          | None => BeforeTool t rest current
          | Some (next, decision) =>
              match normalizedAction decision with
              | HookActionContinue | HookActionModify => BeforeTool t rest (default current next)
              | HookActionRespond => (next, decision)
              | HookActionDenyTool | HookActionAbortTurn | HookActionHardAbort => (Some current, decision)
              | OtherAction _ => BeforeTool t rest current
              end
          end
      end
  end.

Fixpoint AfterTool (t : nat) (regs : list HookRegistration) (current : ToolResultHookResponse) :
    ToolResultHookResponse * HookDecision :=
  match regs with
  | [] => (current, continue)
  | reg :: rest =>
      match AsTool reg with
      | None => AfterTool t rest current
      | Some i =>
          match HookAfterTool i t current with
          | None => AfterTool t rest current
          | Some (next, decision) =>
              match normalizedAction decision with
              | HookActionContinue | HookActionModify => AfterTool t rest (default current next)
              | HookActionAbortTurn | HookActionHardAbort => (current, decision)
              | _ => AfterTool t rest current
              end
          end
      end
  end.

Fixpoint ApproveTool (t : nat) (regs : list HookRegistration) (tool : string) (args : Args) : ApprovalDecision :=
  match regs with
  | [] => mkApproval true ""
  | reg :: rest =>
      match AsApprover reg with
      | None => ApproveTool t rest tool args
      | Some approve =>
          match approve t tool args with
          | ApprovalFailed => mkApproval false ("tool approval hook " +:+ quote (HookName reg) +:+ " failed")
          | ApprovalTimedOut => mkApproval false ("tool approval hook " +:+ quote (HookName reg) +:+ " timed out")
          | Decided d => if Approved d then ApproveTool t rest tool args else d
          end
      end
  end.
End Hooks.
Arguments LLMHookRequest : clear implicits.
Arguments ToolCallHookRequest : clear implicits.
Arguments ToolResultHookResponse : clear implicits.
Arguments HookRegistration : clear implicits.
Arguments HookManager : clear implicits.

(** ** The order of the hooks *)

Lemma string_ltb_lt s t : string_ltb s t = true <-> String_as_OT.lt s t.
Proof.
  unfold string_ltb. rewrite <- String_as_OT.cmp_lt. change (String_as_OT.cmp s t) with (String.compare s t).
  by destruct (String.compare s t).
Qed.

Lemma string_lt_total s t : s <> t -> string_ltb s t = true \/ string_ltb t s = true.
Proof.
  intros Hne. unfold string_ltb. rewrite (String.compare_antisym t s).
  destruct (String.compare s t) eqn:E; simpl; [by apply String.compare_eq_iff in E | by left | by right].
Qed.

Section Order.
Context {Args Tools Response : Type}.
Abbreviation reg := (HookRegistration Args Tools Response).

Lemma less_trans (x y z : reg) : less x y = true -> less y z = true -> less x z = true.
Proof.
  unfold less. repeat case_match; breflect; try lia; try congruence.
  rewrite !string_ltb_lt. apply String_as_OT.lt_trans.
Qed.

Lemma less_total (x y : reg) : HookName x <> HookName y -> less x y = true \/ less y x = true.
Proof.
  intros Hne. unfold less. rewrite (Z.eqb_sym (HookSource y)), (Z.eqb_sym (Priority y)).
  case_match eqn:E1; breflect; [rewrite !Z.ltb_lt; lia|].
  case_match eqn:E2; breflect; [by apply string_lt_total | rewrite !Z.ltb_lt; lia].
Qed.

Lemma less_irrefl (x : reg) : less x x = false.
Proof.
  unfold less. rewrite !Z.eqb_refl. simpl. destruct (string_ltb _ _) eqn:E; [|done].
  apply string_ltb_lt in E. by apply String_as_OT.lt_not_eq in E.
Qed.

Definition precedes (x y : reg) : Prop := less x y = true.

Lemma insert_hook_perm x (l : list reg) : insert_hook x l ≡ₚ x :: l.
Proof. induction l as [|y l IH]; simpl; [done|]. destruct (less y x); [|done]. rewrite IH. apply Permutation_swap. Qed.

Lemma sort_hooks_perm (l : list reg) : sort_hooks l ≡ₚ l.
Proof. induction l as [|x l IH]; simpl; [done|]. by rewrite insert_hook_perm, IH. Qed.

Lemma insert_hook_sorted x (l : list reg) :
  StronglySorted precedes l -> HookName x ∉ map HookName l -> StronglySorted precedes (insert_hook x l).
Proof.
  induction 1 as [|y l HS IH HF]; intros Hx; simpl; [by repeat constructor|]. apply not_elem_of_cons in Hx as [Hxy Hx].
  destruct (less y x) eqn:E.
  - constructor; [by apply IH|]. rewrite insert_hook_perm. by constructor.
  - destruct (less_total x y Hxy) as [Hl|Hl]; [|congruence]. constructor; [by constructor|]. constructor; [done|].
    eapply Forall_impl; [exact HF|]. intros z Hz. by eapply less_trans.
Qed.

Lemma sort_hooks_sorted (l : list reg) : NoDup (map HookName l) -> StronglySorted precedes (sort_hooks l).
Proof.
  induction l as [|x l IH]; simpl; [constructor|]. intros [Hx HN]%NoDup_cons. apply insert_hook_sorted; [by apply IH|].
  by rewrite (fmap_Permutation HookName _ _ (sort_hooks_perm l)).
Qed.

(** Every name in the map is the name of its registration. *)
Definition well_named (hs : gmap string reg) : Prop := map_Forall (fun name r => HookName r = name) hs.

Lemma well_named_names (hs : gmap string reg) : well_named hs -> map HookName (map snd (map_to_list hs)) = map fst (map_to_list hs).
Proof.
  intros HW. rewrite map_map. apply map_ext_in. intros [name r] Hin%list_elem_of_In. apply elem_of_map_to_list in Hin.
  by apply (HW name r).
Qed.

Lemma rebuildOrdered_spec (hs : gmap string reg) : well_named hs ->
  StronglySorted precedes (rebuildOrdered hs) /\ rebuildOrdered hs ≡ₚ map snd (map_to_list hs).
Proof.
  intros HW. split; [|apply sort_hooks_perm]. apply sort_hooks_sorted. rewrite well_named_names by done.
  exact (NoDup_fst_map_to_list hs).
Qed.

(** *** Mounting and unmounting *)

Inductive hook_op : Type := OpMount (r : reg) | OpUnmount (name : string).

(** A mount without a name changes nothing. *)
Definition run_hook_op (hm : HookManager Args Tools Response) (o : hook_op) : HookManager Args Tools Response :=
  match o with
  | OpMount r => default hm (Mount hm r)
  | OpUnmount name => Unmount hm name
  end.

Definition coherent (hm : HookManager Args Tools Response) : Prop :=
  well_named (hooks hm) /\ ordered hm = rebuildOrdered (hooks hm).

Lemma run_hook_op_coherent hm o : coherent hm -> coherent (run_hook_op hm o).
Proof.
  intros [HW HO]. destruct o as [r|name]; unfold run_hook_op, Mount, Unmount; case_match; try done; simpl.
  - split; [by apply map_Forall_insert_2|done].
  - split; [by apply map_Forall_delete|done].
Qed.

(** The registration of each name after a sequence of operations. *)
Fixpoint mounted (ops : list hook_op) (name : string) (acc : option reg) : option reg :=
  match ops with
  | [] => acc
  | OpMount r :: rest => mounted rest name (if negb (String.eqb name "") && String.eqb (HookName r) name then Some r else acc)
  | OpUnmount n :: rest => mounted rest name (if negb (String.eqb name "") && String.eqb n name then None else acc)
  end.

Lemma mounted_lookup ops hm name :
  hooks (fold_left run_hook_op ops hm) !! name = mounted ops name (hooks hm !! name).
Proof.
  revert hm; induction ops as [|o ops IH]; intros hm; [done|]. simpl fold_left. rewrite IH. simpl.
  destruct o as [r|n]; f_equal; unfold run_hook_op, Mount, Unmount.
  - destruct (String.eqb_spec (HookName r) "") as [E|E]; simpl.
    + destruct (String.eqb_spec name ""), (String.eqb_spec (HookName r) name); try done; congruence.
    + destruct (String.eqb_spec (HookName r) name) as [<-|Hne].
      * rewrite lookup_insert_eq. by destruct (String.eqb_spec (HookName r) "").
      * rewrite lookup_insert_ne by done. by rewrite andb_false_r.
  - destruct (String.eqb_spec n "") as [E|E]; simpl.
    + destruct (String.eqb_spec name ""), (String.eqb_spec n name); try done; congruence.
    + destruct (String.eqb_spec n name) as [<-|Hne].
      * rewrite lookup_delete_eq. by destruct (String.eqb_spec n "").
      * rewrite lookup_delete_ne by done. by rewrite andb_false_r.
Qed.
End Order.

(** The order of the hooks is determined: after any mounts and unmounts
    the hooks run are exactly those whose name was mounted last and not
    unmounted since, once each, in-process hooks first, then by priority, then
    by name; however the map was iterated over, no other list of them is in
    this order. *)
Theorem hooks_in_order {Args Tools Response} (ops : list (@hook_op Args Tools Response)) :
  let hm := fold_left run_hook_op ops NewHookManager in
  (forall r, r ∈ ordered hm <-> mounted ops (HookName r) None = Some r) /\
  StronglySorted precedes (ordered hm) /\
  (forall l, l ≡ₚ ordered hm -> StronglySorted precedes l -> l = ordered hm).
Proof.
  assert (HC : forall ops hm, coherent hm -> coherent (fold_left (@run_hook_op Args Tools Response) ops hm)).
  { clear. induction ops; intros hm Hhm; [done|]. simpl. by apply IHops, run_hook_op_coherent. }
  specialize (HC ops NewHookManager (conj (map_Forall_empty _) eq_refl)). intros hm. fold hm in HC.
  destruct HC as [HW HO]. destruct (rebuildOrdered_spec (hooks hm) HW) as [HS HP]. rewrite <- HO in HS, HP.
  split_and!; [|done|].
  - intros r. rewrite HP. change (None : option (HookRegistration Args Tools Response)) with (hooks (@NewHookManager Args Tools Response) !! HookName r).
    rewrite <- mounted_lookup. fold hm. rewrite list_elem_of_In, in_map_iff. split.
    + intros ([name r'] & <- & Hin%list_elem_of_In%elem_of_map_to_list). simpl. by rewrite (HW name r' Hin).
    + intros Hl. exists (HookName r, r). split; [done|]. by apply list_elem_of_In, elem_of_map_to_list.
  - intros l Hl HSl. eapply StronglySorted_unique_strong; [|done..].
    intros x y _ _ Hxy Hyx. pose proof (less_trans x y x Hxy Hyx) as H. by rewrite less_irrefl in H.
Qed.

(** ** Approval *)

Lemma ApproveTool_spec {Args Tools Response} quote t (regs : list (HookRegistration Args Tools Response)) tool args :
  Approved (ApproveTool quote t regs tool args) = true <->
  Forall (fun reg => match AsApprover reg with
                     | None => True
                     | Some approve => exists d, approve t tool args = Decided d /\ Approved d = true
                     end) regs.
Proof.
  induction regs as [|reg rest IH]; simpl; [split; auto|]. rewrite Forall_cons, <- IH.
  destruct (AsApprover reg) as [approve|]; [|tauto].
  destruct (approve t tool args) as [d| |].
  - destruct (Approved d) eqn:E; split; intros H; [by eauto | by destruct H | congruence | by destruct H as [(d' & [= <-] & ?) _]; congruence].
  - split; [done|]. by intros [(d & ? & _) _].
  - split; [done|]. by intros [(d & ? & _) _].
Qed.

(** A hook that responds without a result ends the chain: hooks behind it,
    which could deny the call, are not asked, and the call goes on. *)
Lemma respond_hides_denial {Args Tools Response} t (responds denies : HookRegistration Args Tools Response) i j req :
  AsTool responds = Some i -> HookBeforeTool i t req = Some (None, mkDecision "respond" "") ->
  AsTool denies = Some j -> HookBeforeTool j t req = Some (None, mkDecision "deny_tool" "") ->
  BeforeTool t [responds; denies] req = (None, mkDecision "respond" "") /\
  BeforeTool t [denies; responds] req = (Some req, mkDecision "deny_tool" "").
Proof. intros Hr Hi Hd Hj. simpl. by rewrite Hr, Hi, Hd, Hj. Qed.
