(* ===== verification/ToolArgs.v ===== *)
(** * Arguments of tools: [src/pkg/tools/validate.go]

    Arguments are checked against a part of JSON Schema before a tool runs. A
    Go map is the list of its entries, in the order of an iteration. *)

From S2P Require Import Prelude GoStrings GoLib.
Import GoFloat.

#[local] Set Warnings "-register-all".
(** What a variable of type [any] can hold here; only a schema has
    [[]string]. *)
Inductive value : Type :=
| VNull
| VString (s : string)
| VFloat (f : float64)
| VInt (z : Z)
| VInt64 (z : Z)
| VBool (b : bool)
| VArray (l : list value)
| VStrings (l : list string)
| VObject (fields : list (string * value)).

Abbreviation fields := (list (string * value)).

Definition lookup_field (o : fields) (key : string) : option value :=
  snd <$> find_first (fun f => String.eqb (fst f) key) o.

(** [%T] *)
Definition type_name (v : value) : string :=
  match v with
  | VNull => "<nil>"
  | VString _ => "string"
  | VFloat _ => "float64"
  | VInt _ => "int"
  | VInt64 _ => "int64"
  | VBool _ => "bool"
  | VArray _ => "[]interface {}"
  | VStrings _ => "[]string"
  | VObject _ => "map[string]interface {}"
  end.

Definition feqb (x y : float64) : bool := match SFcompare x y with Some Eq => true | _ => false end.

(** [v != math.Trunc(v)] *)
Definition has_fraction (f : float64) : bool :=
  match f with
  | S754_nan => true
  | S754_zero _ | S754_infinity _ => false
  | S754_finite _ m e => if 0 <=? e then false else negb (Zpos m mod 2 ^ (- e) =? 0)
  end.

(** [==] of two interface values; [None] is the panic for types that cannot
    be compared. *)
Definition interface_eq (v w : value) : option bool :=
  match v, w with
  | VNull, VNull => Some true
  | VString s, VString t => Some (String.eqb s t)
  | VFloat f, VFloat g => Some (feqb f g)
  | VInt a, VInt b | VInt64 a, VInt64 b => Some (a =? b)
  | VBool a, VBool b => Some (Bool.eqb a b)
  | VArray _, VArray _ | VStrings _, VStrings _ | VObject _, VObject _ => None
  | _, _ => Some false
  end.

Inductive verdict : Type := Valid | Invalid (text : string) | Panics.

Definition and_then (v : verdict) (k : verdict) : verdict := match v with Valid => k | _ => v end.

(** The fields that are required; other types say nothing. *)
Definition required (schema : fields) : list string :=
  match lookup_field schema "required" with
  | Some (VStrings r) => r
  | Some (VArray r) => omap (fun v => match v with VString s => Some s | _ => None end) r
  | _ => []
  end.

Definition allowsAdditional (schema : fields) : bool :=
  match lookup_field schema "additionalProperties" with Some (VBool b) => b | _ => false end.

Section Validate.
(** [%q] and [%v] *)
Context (quote : string -> string) (show : value -> string).

Definition checkRequired (schema args : fields) : verdict :=
  match find_first (fun field => match lookup_field args field with None => true | Some _ => false end) (required schema) with
  | Some field => Invalid ("missing required property " +:+ quote field)
  | None => Valid
  end.

Definition not_in_enum (key : string) (val : value) : verdict :=
  Invalid ("property " +:+ quote key +:+ ": value " +:+ show val +:+ " is not in enum").

Fixpoint enum_any (key : string) (val : value) (allowed : list value) : verdict :=
  match allowed with
  | [] => not_in_enum key val
  | v :: rest =>
      match interface_eq val v with
      | None => Panics
      | Some true => Valid
      | Some false => enum_any key val rest
      end
  end.

Definition checkEnum (key : string) (val : value) (propSchema : fields) : verdict :=
  match lookup_field propSchema "enum" with
  | Some (VArray allowed) => enum_any key val allowed
  | Some (VStrings allowed) =>
      match val with
      | VString s => if existsb (String.eqb s) allowed then Valid else not_in_enum key val
      | _ => not_in_enum key val
      end
  | _ => Valid
  end.

(** The loop over the arguments, with the check of one property. *)
Definition check_args (check : string -> value -> fields -> verdict) (props : fields) (additional : bool) :=
  fix loop (args : fields) : verdict :=
    match args with
    | [] => Valid
    | (key, val) :: rest =>
        match lookup_field props key with
        | None => if additional then loop rest else Invalid ("unexpected property " +:+ quote key)
        | Some (VObject propSchema) => and_then (check key val propSchema) (loop rest)
        | Some _ => loop rest
        end
    end.

Definition validate_with (check : string -> value -> fields -> verdict) (schema args : fields) : verdict :=
  match schema with
  | [] => Valid
  | _ =>
      and_then (checkRequired schema args)
        match lookup_field schema "properties" with
        | Some (VObject props) => check_args check props (allowsAdditional schema) args
        | _ => Valid
        end
  end.

(** The loop over the elements of an array, from index [i]. *)
Definition check_items (check : string -> value -> fields -> verdict) (key : string) (items : fields) :=
  fix loop (i : Z) (arr : list value) : verdict :=
    match arr with
    | [] => Valid
    | elem :: rest => and_then (check (key +:+ "[" +:+ itoa i +:+ "]") elem items) (loop (i + 1) rest)
    end.

Definition expected (key typeName : string) (val : value) : verdict :=
  Invalid ("property " +:+ quote key +:+ ": expected " +:+ typeName +:+ ", got " +:+ type_name val).

(** The [switch] over the name of the type. *)
Definition check_value (check : string -> value -> fields -> verdict)
    (key : string) (val : value) (propSchema : fields) (typeName : string) : verdict :=
  if String.eqb typeName "string" then match val with VString _ => Valid | _ => expected key "string" val end
  else if String.eqb typeName "integer" then
    match val with
    | VFloat f =>
        if has_fraction f
        then Invalid ("property " +:+ quote key +:+ ": expected integer, got float64 with fractional part") else Valid
    | VInt _ | VInt64 _ => Valid
    | _ => expected key "integer" val
    end
  else if String.eqb typeName "number" then
    match val with VFloat _ | VInt _ | VInt64 _ => Valid | _ => expected key "number" val end
  else if String.eqb typeName "boolean" then match val with VBool _ => Valid | _ => expected key "boolean" val end
  else if String.eqb typeName "array" then
    match val with
    | VArray arr =>
        match lookup_field propSchema "items" with
        | Some (VObject items) => check_items check key items 0 arr
        | _ => Valid
        end
    | _ => expected key "array" val
    end
  else if String.eqb typeName "object" then
    match val with
    | VObject obj =>
        match validate_with check propSchema obj with
        | Invalid text => Invalid ("property " +:+ quote key +:+ ": " +:+ text)
        | v => v
        end
    | _ => expected key "object" val
    end
  else Valid.

Fixpoint checkType (key : string) (val : value) (propSchema : fields) : verdict :=
  match lookup_field propSchema "type" with
  | Some (VString typeName) =>
      and_then (check_value checkType key val propSchema typeName) (checkEnum key val propSchema)
  | _ => Valid
  end.

(** No arguments (nil) are the empty map. *)
Definition validateToolArgs (schema args : fields) : verdict := validate_with checkType schema args.
End Validate.

(** ** What is accepted *)

(** The simple types of the schema language. *)
Definition of_type (typeName : string) (v : value) : Prop :=
  match v with
  | VString _ => typeName = "string"
  | VFloat f => typeName = "number" \/ typeName = "integer" /\ has_fraction f = false
  | VInt _ | VInt64 _ => typeName = "number" \/ typeName = "integer"
  | VBool _ => typeName = "boolean"
  | VArray _ => typeName = "array"
  | VObject _ => typeName = "object"
  | VNull | VStrings _ => False
  end.

Definition known_types : list string := ["string"; "integer"; "number"; "boolean"; "array"; "object"].

(** A value that the enumeration of a schema allows, where it has one: it is
    equal to an entry, and cannot be compared with none before. *)
Definition in_enum (ps : fields) (v : value) : Prop :=
  match lookup_field ps "enum" with
  | Some (VArray allowed) =>
      exists before x after, allowed = before ++ x :: after /\ interface_eq v x = Some true /\
        Forall (fun y => interface_eq v y = Some false) before
  | Some (VStrings allowed) => exists s, v = VString s /\ s ∈ allowed
  | _ => True
  end.

Inductive accepts : fields -> value -> Prop :=
| accepts_untyped ps v : (forall t, lookup_field ps "type" <> Some (VString t)) -> accepts ps v
| accepts_typed ps v t :
    lookup_field ps "type" = Some (VString t) ->
    (t ∈ known_types -> of_type t v) ->
    (forall l items, t = "array" -> v = VArray l -> lookup_field ps "items" = Some (VObject items) ->
       forall x, x ∈ l -> accepts items x) ->
    (forall o, t = "object" -> v = VObject o -> accepts_args ps o) ->
    in_enum ps v -> accepts ps v
with accepts_args : fields -> fields -> Prop :=
| accepts_any args : accepts_args [] args
| accepts_fields schema args :
    (forall f, f ∈ required schema -> lookup_field args f <> None) ->
    (forall props k v, lookup_field schema "properties" = Some (VObject props) -> (k, v) ∈ args ->
       lookup_field props k = None -> allowsAdditional schema = true) ->
    (forall props k v ps, lookup_field schema "properties" = Some (VObject props) -> (k, v) ∈ args ->
       lookup_field props k = Some (VObject ps) -> accepts ps v) ->
    accepts_args schema args.

(** ** The check accepts exactly these *)

Fixpoint vsize (v : value) : nat :=
  match v with
  | VArray l => S (list_sum (map vsize l))
  | VObject o => S (list_sum (map (fun f => vsize (snd f)) o))
  | _ => 1
  end.

Lemma and_then_Valid v k : and_then v k = Valid <-> v = Valid /\ k = Valid.
Proof. destruct v; simpl; split; try done; by intros []. Qed.

Lemma elem_sum {A} (f : A -> nat) l x : x ∈ l -> (f x <= list_sum (map f l))%nat.
Proof. induction 1 as [x l|x y l _ IH]; simpl; lia. Qed.

Section Spec.
Context (quote : string -> string) (show : value -> string).

Lemma checkRequired_Valid schema args :
  checkRequired quote schema args = Valid <-> forall f, f ∈ required schema -> lookup_field args f <> None.
Proof.
  unfold checkRequired. destruct (find_first _ _) as [f|] eqn:E.
  - split; [done|]. intros Ha. apply find_first_elem in E as E'.
    apply find_first_Some in E as [E _]. specialize (Ha f E'). by destruct (lookup_field args f).
  - split; [|done]. intros _ f Hf. apply find_first_None in E. rewrite Forall_forall in E.
    specialize (E f Hf). by destruct (lookup_field args f).
Qed.

Lemma enum_any_Valid key v allowed :
  enum_any quote show key v allowed = Valid <->
  exists before x after, allowed = before ++ x :: after /\ interface_eq v x = Some true /\
    Forall (fun y => interface_eq v y = Some false) before.
Proof.
  induction allowed as [|y rest IH]; simpl.
  - split; [done|]. intros (before & x & after & E & _). by destruct before.
  - destruct (interface_eq v y) as [[|]|] eqn:E.
    + split; [|done]. intros _. by exists [], y, rest.
    + rewrite IH. split.
      * intros (before & x & after & -> & Ex & Hb). exists (y :: before), x, after. by repeat split; auto.
      * intros (before & x & after & El & Ex & Hb). destruct before as [|z before]; simplify_eq/=.
        inversion_clear Hb. by exists before, x, after.
    + split; [done|]. intros (before & x & after & El & Ex & Hb).
      destruct before as [|z before]; simplify_eq/=. inversion Hb. by simplify_eq.
Qed.

Lemma checkEnum_Valid key v ps : checkEnum quote show key v ps = Valid <-> in_enum ps v.
Proof.
  unfold checkEnum, in_enum. destruct (lookup_field ps "enum") as [[]|]; try done.
  - apply enum_any_Valid.
  - destruct v; try (split; [done|]; by intros (? & ? & _)).
    destruct (existsb _ _) eqn:E; split; try done.
    + intros _. apply existsb_exists in E as (x & Hx & ->%String.eqb_eq).
      exists x. split; [done|]. by apply list_elem_of_In.
    + intros (x & [= ->] & Hx). exfalso. apply not_true_iff_false in E. apply E, existsb_exists.
      exists x. split; [by apply list_elem_of_In|apply String.eqb_refl].
Qed.

Section Nested.
Context (check : string -> value -> fields -> verdict).

(** The check of the arguments, for any check of one property. *)
Lemma check_args_Valid props additional args :
  check_args quote check props additional args = Valid <->
  forall k v, (k, v) ∈ args ->
    (lookup_field props k = None -> additional = true) /\
    (forall ps, lookup_field props k = Some (VObject ps) -> check k v ps = Valid).
Proof.
  induction args as [|[k v] rest IH]; simpl.
  - split; [|done]. set_solver.
  - transitivity
      (((lookup_field props k = None -> additional = true) /\
        (forall ps, lookup_field props k = Some (VObject ps) -> check k v ps = Valid)) /\
       check_args quote check props additional rest = Valid).
    + destruct (lookup_field props k) as [[]|] eqn:E; [naive_solver..| |].
      * rewrite and_then_Valid. naive_solver.
      * destruct additional; naive_solver.
    + rewrite IH. setoid_rewrite elem_of_cons. naive_solver.
Qed.

Lemma validate_with_Valid schema args :
  validate_with quote check schema args = Valid <->
  schema = [] \/
  ((forall f, f ∈ required schema -> lookup_field args f <> None) /\
   forall props k v, lookup_field schema "properties" = Some (VObject props) -> (k, v) ∈ args ->
     (lookup_field props k = None -> allowsAdditional schema = true) /\
     (forall ps, lookup_field props k = Some (VObject ps) -> check k v ps = Valid)).
Proof.
  destruct schema as [|f schema]; [simpl; naive_solver|].
  cbn [validate_with]. set (sc := f :: schema).
  rewrite and_then_Valid, checkRequired_Valid.
  destruct (lookup_field sc "properties") as [[]|]; [naive_solver..| |naive_solver].
  rewrite check_args_Valid. naive_solver.
Qed.

Lemma check_items_Valid key items i arr :
  (forall x key', x ∈ arr -> check key x items = Valid <-> check key' x items = Valid) ->
  check_items check key items i arr = Valid <-> forall x, x ∈ arr -> check key x items = Valid.
Proof.
  intros Hk. revert i. induction arr as [|x arr IH]; intros i; simpl; [set_solver|].
  rewrite and_then_Valid, IH by set_solver. setoid_rewrite elem_of_cons.
  rewrite <- (Hk x) by set_solver. naive_solver.
Qed.
End Nested.

Definition correct_at (v : value) : Prop :=
  forall key ps, checkType quote show key v ps = Valid <-> accepts ps v.

Lemma args_correct schema args :
  (forall k v, (k, v) ∈ args -> correct_at v) ->
  validate_with quote (checkType quote show) schema args = Valid <-> accepts_args schema args.
Proof.
  intros Hc. rewrite validate_with_Valid. split.
  - intros [->|[Hr Ha]]; [constructor|]. constructor; [done|naive_solver|].
    intros props k v ps Hp Hin Hl. eapply Hc; [done|]. naive_solver.
  - intros Ha. inversion Ha; subst; [by left|right]. split; [done|]. intros props k v Hp Hin. split; [naive_solver|].
  intros ps Hl. eapply Hc; naive_solver.
Qed.

(** The check of a type by itself, before the enumeration. *)
Definition typed (v : value) (ps : fields) (t : string) : Prop :=
  (t ∈ known_types -> of_type t v) /\
  (forall l items, t = "array" -> v = VArray l -> lookup_field ps "items" = Some (VObject items) ->
     forall x, x ∈ l -> accepts items x) /\
  (forall o, t = "object" -> v = VObject o -> accepts_args ps o).

Lemma accepts_typed_iff ps v t :
  lookup_field ps "type" = Some (VString t) -> accepts ps v <-> typed v ps t /\ in_enum ps v.
Proof.
  intros E. split.
  - intros Ha. inversion Ha as [? ? Hu|? ? t' E']; subst; [by destruct (Hu t)|].
    rewrite E in E'. simplify_eq. by repeat split.
  - intros [(Ht & Ha & Ho) He]. by eapply accepts_typed.
Qed.

Lemma accepts_untyped_iff ps v : (forall t, lookup_field ps "type" <> Some (VString t)) -> accepts ps v <-> True.
Proof. intros Hu. split; [done|]. intros _. by constructor. Qed.

Lemma typed_simple v ps t :
  t ∈ known_types -> t <> "array" -> t <> "object" -> typed v ps t <-> of_type t v.
Proof. intros Hk Ha Ho. unfold typed. naive_solver. Qed.

Lemma typed_array v ps :
  typed v ps "array" <->
  exists l, v = VArray l /\
    forall items, lookup_field ps "items" = Some (VObject items) -> forall x, x ∈ l -> accepts items x.
Proof.
  assert ("array" ∈ known_types) by by do 5 constructor.
  unfold typed. destruct v; naive_solver.
Qed.

Lemma typed_object v ps : typed v ps "object" <-> exists o, v = VObject o /\ accepts_args ps o.
Proof.
  assert ("object" ∈ known_types) by by do 6 constructor.
  unfold typed. destruct v; naive_solver.
Qed.

Lemma typed_other v ps t : t ∉ known_types -> typed v ps t <-> True.
Proof.
  intros Ht. assert (t <> "array") by (intros ->; apply Ht; by do 5 constructor).
  assert (t <> "object") by (intros ->; apply Ht; by do 6 constructor). unfold typed. naive_solver.
Qed.

Lemma checkType_eq key v ps t :
  lookup_field ps "type" = Some (VString t) ->
  checkType quote show key v ps =
  and_then (check_value quote (checkType quote show) key v ps t) (checkEnum quote show key v ps).
Proof. intros E. destruct v; simpl; by rewrite E. Qed.

(** Whatever is nested in a value that can be checked is smaller. *)
Definition nested_correct (v : value) : Prop :=
  forall x, (exists l, v = VArray l /\ x ∈ l) \/ (exists o k, v = VObject o /\ (k, x) ∈ o) -> correct_at x.

Lemma check_array key v ps :
  nested_correct v ->
  check_value quote (checkType quote show) key v ps "array" = Valid <-> typed v ps "array".
Proof.
  intros Hn. rewrite typed_array. unfold check_value. simpl.
  destruct v as [| | | | | |l| |]; try (split; [done|by intros (? & ? & _)]).
  assert (Hl : forall x, x ∈ l -> correct_at x) by (intros x Hx; apply Hn; left; eauto).
  transitivity (forall items, lookup_field ps "items" = Some (VObject items) -> forall x, x ∈ l -> accepts items x);
    [|naive_solver].
  destruct (lookup_field ps "items") as [[]|]; [naive_solver..| |naive_solver].
  rewrite check_items_Valid.
  - split.
    + intros Hx items E x Hin. simplify_eq. eapply Hl; eauto.
    + intros Hx x Hin. eapply Hl; naive_solver.
  - intros x key' Hin. split; intros Hv; eapply (Hl x Hin), (Hl x Hin), Hv.
Qed.

Lemma check_object key v ps :
  nested_correct v ->
  check_value quote (checkType quote show) key v ps "object" = Valid <-> typed v ps "object".
Proof.
  intros Hn. rewrite typed_object. unfold check_value. simpl.
  destruct v as [| | | | | | | |o]; try (split; [done|by intros (? & ? & _)]).
  assert (Ho : forall k x, (k, x) ∈ o -> correct_at x) by (intros k x Hx; apply Hn; right; eauto).
  pose proof (args_correct ps o Ho) as Hc.
  destruct (validate_with _ _ _ _); naive_solver.
Qed.

Lemma check_value_correct key v ps t :
  nested_correct v ->
  check_value quote (checkType quote show) key v ps t = Valid <-> typed v ps t.
Proof.
  intros Hn. destruct (decide (t ∈ known_types)) as [Hk|Hk].
  - unfold known_types in Hk. rewrite !elem_of_cons, elem_of_nil in Hk.
    destruct Hk as [E|[E|[E|[E|[E|[E|[]]]]]]]; subst;
      [..|by apply check_array|by apply check_object];
      (rewrite typed_simple by (try done; by repeat constructor));
      unfold check_value; destruct v; simpl; try destruct (has_fraction f); naive_solver.
  - rewrite typed_other by done. unfold check_value, known_types in *.
    repeat match goal with
           | |- context [String.eqb t ?x] => destruct (String.eqb_spec t x); [subst; exfalso; apply Hk; set_solver|]
           end. done.
Qed.

Lemma nested_smaller v x :
  (exists l, v = VArray l /\ x ∈ l) \/ (exists o k, v = VObject o /\ (k, x) ∈ o) -> (vsize x < vsize v)%nat.
Proof.
  intros [(l & -> & Hx)|(o & k & -> & Hx)]; simpl.
  - pose proof (elem_sum vsize _ _ Hx). lia.
  - pose proof (elem_sum (fun f => vsize (snd f)) _ _ Hx). simpl in *. lia.
Qed.

Lemma checkType_correct v : correct_at v.
Proof.
  induction v as [v IH] using (induction_ltof1 _ vsize). unfold ltof in IH. intros key ps.
  destruct (lookup_field ps "type") as [w|] eqn:E.
  2: { rewrite accepts_untyped_iff by naive_solver. by destruct v; simpl; rewrite E. }
  destruct w as [|t| | | | | | |];
    try (rewrite accepts_untyped_iff by naive_solver; by destruct v; simpl; rewrite E).
  rewrite (accepts_typed_iff _ _ _ E), (checkType_eq _ _ _ _ E), and_then_Valid, checkEnum_Valid.
  rewrite check_value_correct; [done|]. intros x Hx. by apply IH, nested_smaller.
Qed.
End Spec.

(** ** Theorems *)

Section Claims.
Context (quote : string -> string) (show : value -> string).

(** C28: the arguments of a tool pass the check exactly when the schema
    accepts them: every required field is there, every argument is a declared
    property (or others are allowed), and every declared one has the type,
    the elements, the fields and one of the values that its schema asks for,
    at any depth. *)
Theorem validateToolArgs_correct schema args :
  validateToolArgs quote show schema args = Valid <-> accepts_args schema args.
Proof. apply args_correct. intros k v _. apply checkType_correct. Qed.

(** Whether arguments pass does not depend on the order of an iteration over
    the map, although the text of the error may. *)
Lemma validateToolArgs_any_order schema args args' :
  args ≡ₚ args' ->
  validateToolArgs quote show schema args = Valid -> validateToolArgs quote show schema args' = Valid.
Proof.
  intros Hp. unfold validateToolArgs. rewrite !(args_correct _ _ _ _ (fun k v _ => checkType_correct quote show v)).
  intros Ha. inversion Ha as [|? ? Hr Hx Hf]; subst; [constructor|]. constructor.
  - intros f Hf'. specialize (Hr f Hf'). intros E. apply Hr. clear -E Hp.
    unfold lookup_field in *. apply fmap_None. apply fmap_None in E.
    apply find_first_None. apply find_first_None in E. by rewrite Hp.
  - intros props k v Hprops Hin. apply (Hx props k v); [done|by rewrite Hp].
  - intros props k v ps Hprops Hin. apply (Hf props k v); [done|by rewrite Hp].
Qed.
End Claims.

(** An enumeration of arrays or objects stops the program: [==] cannot
    compare them, and this check runs before the code that recovers from
    panics of tools. *)
Lemma enum_of_arrays_panics quote show :
  let schema := [("properties", VObject [("size", VObject
                   [("type", VString "array"); ("enum", VArray [VArray [VFloat (float_of_Z 1)]])])])] in
  validateToolArgs quote show schema [("size", VArray [VFloat (float_of_Z 1)])] = Panics.
Proof. reflexivity. Qed.

(** The check takes an absent [additionalProperties] for false. *)
Lemma no_additional_by_default : allowsAdditional [] = false.
Proof. reflexivity. Qed.
