(* ===== verification/GoPath.v ===== *)
(** * The operations of package [path/filepath] the program uses, on Unix

    A path is a string. What matters of a path is whether it is rooted and its
    elements after [Clean]: no empty element, no [.], and [..] only at the
    beginning of a path that is not rooted. *)

From S2P Require Import Prelude GoStrings.

Definition slash : ascii := "/"%char.

(** The text between slashes. *)
Fixpoint pieces (cur l : list ascii) : list string :=
  match l with
  | [] => [implode (rev cur)]
  | c :: l' => if Ascii.eqb c slash then implode (rev cur) :: pieces [] l' else pieces (c :: cur) l'
  end.

Definition elements (s : string) : list string := pieces [] (chars s).

Definition IsAbs (s : string) : bool :=
  match chars s with c :: _ => Ascii.eqb c slash | [] => false end.

(** ** [Clean] *)

(** The elements so far, the last one first. *)
Definition clean_step (rooted : bool) (acc : list string) (e : string) : list string :=
  if String.eqb e "" || String.eqb e "." then acc
  else if String.eqb e ".." then
    match acc with
    | [] => if rooted then [] else [".."]
    | last :: rest => if String.eqb last ".." then ".." :: acc else rest
    end
  else e :: acc.

Definition clean_elements (rooted : bool) (l : list string) : list string :=
  rev (fold_left (clean_step rooted) l []).

(** The elements of a path, cleaned. *)
Definition parts (s : string) : list string := clean_elements (IsAbs s) (elements s).

Definition render (rooted : bool) (l : list string) : string :=
  if rooted then "/" +:+ join "/" l
  else match l with [] => "." | _ => join "/" l end.

Definition Clean (s : string) : string := render (IsAbs s) (parts s).

(** ** [Join], [Dir], [Base], [Rel], [IsLocal] *)

Definition Join (elem : list string) : string :=
  match List.filter (fun e => negb (String.eqb e "")) elem with
  | [] => ""
  | l => Clean (join "/" l)
  end.

(** Up to the last slash, with it. *)
Fixpoint up_to_slash (r : list ascii) : list ascii :=
  match r with
  | [] => []
  | c :: r' => if Ascii.eqb c slash then r else up_to_slash r'
  end.

Definition Dir (s : string) : string := Clean (implode (rev (up_to_slash (rev (chars s))))).

(** The last element; [.] for an empty path, [/] for one of slashes only. *)
Definition Base (s : string) : string :=
  if String.eqb s "" then "."
  else match last (List.filter (fun e => negb (String.eqb e "")) (elements s)) with
       | Some e => e
       | None => "/"
       end.

Fixpoint strip_common (base targ : list string) : list string * list string :=
  match base, targ with
  | b :: base', t :: targ' => if String.eqb b t then strip_common base' targ' else (base, targ)
  | _, _ => (base, targ)
  end.

(** The way from one path to the other, where both are rooted or both are the
    same; there is none from a relative path to a rooted one or back, and the
    program never relates two relative ones. *)
Definition Rel (basepath targpath : string) : option string :=
  let base := Clean basepath in
  let targ := Clean targpath in
  if String.eqb targ base then Some "."
  else if IsAbs base && IsAbs targ then
    let '(base', targ') := strip_common (parts base) (parts targ) in
    Some (join "/" (repeat ".." (length base') ++ targ'))
  else None.

Definition IsLocal (path : string) : bool :=
  if IsAbs path || String.eqb path "" then false
  else let path := Clean path in
       negb (String.eqb path ".." || HasPrefix path "../").

(** ** Laws of [Clean] *)

(** What [clean_elements] returns. *)
Definition ordinary (e : string) : Prop :=
  e <> "" /\ e <> "." /\ e <> ".." /\ slash ∉ chars e.

Inductive tidy (rooted : bool) : list string -> Prop :=
| tidy_down l : Forall ordinary l -> tidy rooted l
| tidy_up l : rooted = false -> tidy rooted l -> tidy rooted (".." :: l).

Lemma elem_of_rev_list {A} (x : A) l : x ∈ rev l <-> x ∈ l.
Proof. rewrite !list_elem_of_In. symmetry. apply in_rev. Qed.

Lemma pieces_no_slash cur l : slash ∉ cur -> Forall (fun e => slash ∉ chars e) (pieces cur l).
Proof.
  revert cur. induction l as [|c l IH]; intros cur Hc; cbn [pieces].
  - constructor; [|done]. rewrite chars_implode. by rewrite elem_of_rev_list.
  - destruct (Ascii.eqb_spec c slash) as [->|Hne].
    + constructor; [rewrite chars_implode; by rewrite elem_of_rev_list | apply IH; apply not_elem_of_nil].
    + apply IH. rewrite not_elem_of_cons. done.
Qed.

Lemma elements_no_slash s : Forall (fun e => slash ∉ chars e) (elements s).
Proof. apply pieces_no_slash, not_elem_of_nil. Qed.

(** A piece before a slash. *)
Lemma pieces_app cur e l :
  slash ∉ e -> pieces cur (e ++ slash :: l) = implode (rev cur ++ e) :: pieces [] l.
Proof.
  revert cur. induction e as [|c e IH]; intros cur He; cbn [pieces app].
  - by rewrite Ascii.eqb_refl, app_nil_r.
  - apply not_elem_of_cons in He as [Hc He].
    destruct (Ascii.eqb_spec c slash) as [->|_]; [done|].
    rewrite IH by done. cbn [rev]. by rewrite <- app_assoc.
Qed.

Lemma pieces_last cur e : slash ∉ e -> pieces cur e = [implode (rev cur ++ e)].
Proof.
  revert cur. induction e as [|c e IH]; intros cur He; cbn [pieces].
  - by rewrite app_nil_r.
  - apply not_elem_of_cons in He as [Hc He].
    destruct (Ascii.eqb_spec c slash) as [->|_]; [done|].
    rewrite IH by done. cbn [rev]. by rewrite <- app_assoc.
Qed.

Lemma elements_join l : l <> [] -> Forall (fun e => slash ∉ chars e) l -> elements (join "/" l) = l.
Proof.
  intros Hne Hl. induction Hl as [|e l He Hl IH]; [done|]. unfold elements in *.
  destruct l as [|f l].
  - cbn [join]. rewrite pieces_last by done. cbn [rev app]. by rewrite implode_chars.
  - change (join "/" (e :: f :: l)) with (e +:+ "/" +:+ join "/" (f :: l)).
    rewrite chars_app. change (chars ("/" +:+ join "/" (f :: l))) with (slash :: chars (join "/" (f :: l))).
    rewrite pieces_app by done. rewrite IH by done. cbn [rev app]. by rewrite implode_chars.
Qed.

(** A rooted path. *)
Lemma elements_rooted s : elements ("/" +:+ s) = "" :: elements s.
Proof. reflexivity. Qed.

Lemma ordinary_no_slash l : Forall ordinary l -> Forall (fun e => slash ∉ chars e) l.
Proof. intros Hl. eapply Forall_impl; [exact Hl|]. by intros e (_ & _ & _ & ?). Qed.

Lemma tidy_no_slash r l : tidy r l -> Forall (fun e => slash ∉ chars e) l.
Proof.
  induction 1 as [l Hl|l _ _ IH]; [by apply ordinary_no_slash|]. constructor; [|done].
  vm_compute. set_solver.
Qed.

Lemma tidy_rooted l : tidy true l -> Forall ordinary l.
Proof. by inversion 1. Qed.

Lemma tidy_snoc r l e : tidy r l -> ordinary e -> tidy r (l ++ [e]).
Proof.
  induction 1 as [l Hl|l Hr Hl IH]; intros He; [|apply tidy_up; auto].
  apply tidy_down, Forall_app. split; [done|by apply Forall_singleton].
Qed.

Lemma tidy_init r l e : tidy r (l ++ [e]) -> tidy r l.
Proof.
  remember (l ++ [e]) as k eqn:E. intros Hk. revert l E.
  induction Hk as [k Hk|k Hr Hk IH]; intros l E.
  - subst k. apply Forall_app in Hk as [Hl _]. by apply tidy_down.
  - destruct l as [|f l]; [apply tidy_down; constructor|]. injection E as <- E. apply tidy_up; [done|by apply IH].
Qed.

(** After [..], only [..]. *)
Lemma tidy_last_up r l : tidy r (l ++ [".."]) -> r = false /\ tidy r ((l ++ [".."]) ++ [".."]).
Proof.
  remember (l ++ [".."]) as k eqn:E. intros Hk. revert l E.
  induction Hk as [k Hk|k Hr Hk IH]; intros l E.
  - subst k. apply Forall_app in Hk as [_ Hk]. by inversion Hk as [|? ? (_ & _ & ? & _)].
  - split; [done|]. destruct l as [|f l].
    + injection E as ->. by apply (tidy_up r), (tidy_up r), tidy_down.
    + injection E as <- E. apply (tidy_up r); [done|]. by eapply IH.
Qed.

Lemma clean_step_tidy r acc e :
  tidy r (rev acc) -> slash ∉ chars e -> tidy r (rev (clean_step r acc e)).
Proof.
  intros Ha He. unfold clean_step.
  destruct (String.eqb_spec e "") as [|H1]; [done|]. destruct (String.eqb_spec e ".") as [|H2]; [done|]. simpl orb. cbn iota.
  destruct (String.eqb_spec e "..") as [->|H3].
  - destruct acc as [|last rest].
    + destruct r; [done|]. apply (tidy_up false); [done|]. apply tidy_down. constructor.
    + cbn [rev] in Ha. destruct (String.eqb_spec last "..") as [->|Hl].
      * apply tidy_last_up in Ha as [-> Ha]. done.
      * by eapply tidy_init.
  - cbn [rev]. by apply tidy_snoc.
Qed.

Lemma parts_tidy s : tidy (IsAbs s) (parts s).
Proof.
  unfold parts, clean_elements. generalize (elements_no_slash s). generalize (elements s). intros l Hl.
  assert (G : forall acc, tidy (IsAbs s) (rev acc) -> tidy (IsAbs s) (rev (fold_left (clean_step (IsAbs s)) l acc))).
  { induction Hl as [|e l He Hl IH]; intros acc Ha; [done|]. apply IH. by apply clean_step_tidy. }
  apply G, tidy_down. constructor.
Qed.

Lemma clean_step_ordinary r acc e : ordinary e -> clean_step r acc e = e :: acc.
Proof.
  intros (H1 & H2 & H3 & _). unfold clean_step.
  by rewrite (proj2 (String.eqb_neq _ _) H1), (proj2 (String.eqb_neq _ _) H2), (proj2 (String.eqb_neq _ _) H3).
Qed.

Lemma fold_ordinary r l acc : Forall ordinary l -> fold_left (clean_step r) l acc = rev l ++ acc.
Proof.
  intros Hl. revert acc. induction Hl as [|e l He Hl IH]; intros acc; [done|].
  cbn [fold_left rev]. rewrite clean_step_ordinary, IH by done. by rewrite <- app_assoc.
Qed.

Lemma fold_tidy r l acc :
  tidy r l -> Forall (eq "..") acc -> fold_left (clean_step r) l acc = rev l ++ acc.
Proof.
  intros Hl. revert acc. induction Hl as [l Hl|l Hr Hl IH]; intros acc Ha; [by apply fold_ordinary|].
  assert (E : clean_step r acc ".." = ".." :: acc).
  { subst r. destruct Ha as [|? acc <- Ha]; reflexivity. }
  cbn [fold_left rev]. rewrite E, IH by (by constructor). by rewrite <- app_assoc.
Qed.

Lemma clean_tidy r l : tidy r l -> clean_elements r l = l.
Proof. intros Hl. unfold clean_elements. rewrite fold_tidy by done. by rewrite app_nil_r, rev_involutive. Qed.

Lemma clean_skip r l : clean_elements r ("" :: l) = clean_elements r l.
Proof. reflexivity. Qed.

Lemma IsAbs_element e s : e <> "" -> slash ∉ chars e -> IsAbs (e +:+ s) = false.
Proof.
  intros Hn He. destruct e as [|c e]; [done|]. unfold IsAbs. cbn. apply not_elem_of_cons in He as [Hc _].
  by apply Ascii.eqb_neq.
Qed.

Lemma tidy_head r e l : tidy r (e :: l) -> e <> "" /\ slash ∉ chars e.
Proof.
  inversion 1 as [k Hk|k Hr Hk].
  - by apply Forall_inv in Hk as (? & _ & _ & ?).
  - split; [done|]. vm_compute. set_solver.
Qed.

Lemma join_cons e l : exists s, join "/" (e :: l) = e +:+ s.
Proof. destruct l as [|f l]; [exists ""; by rewrite append_nil_r | by eexists]. Qed.

Lemma IsAbs_render r l : tidy r l -> IsAbs (render r l) = r.
Proof.
  intros Hl. destruct r; [reflexivity|]. destruct l as [|e l]; [reflexivity|].
  apply tidy_head in Hl as [H1 H2]. unfold render. destruct (join_cons e l) as [s ->]. by apply IsAbs_element.
Qed.

Lemma parts_render r l : tidy r l -> parts (render r l) = l.
Proof.
  intros Hl. unfold parts. rewrite IsAbs_render by done. pose proof (tidy_no_slash _ _ Hl) as Hs.
  destruct r; unfold render.
  - rewrite elements_rooted, clean_skip. destruct l as [|e l]; [reflexivity|].
    rewrite elements_join by done. by apply clean_tidy.
  - destruct l as [|e l]; [reflexivity|]. rewrite elements_join by done. by apply clean_tidy.
Qed.

Lemma IsAbs_Clean s : IsAbs (Clean s) = IsAbs s.
Proof. apply IsAbs_render, parts_tidy. Qed.

Lemma parts_Clean s : parts (Clean s) = parts s.
Proof. apply parts_render, parts_tidy. Qed.

Lemma Clean_idem s : Clean (Clean s) = Clean s.
Proof. unfold Clean at 1. by rewrite parts_Clean, IsAbs_Clean. Qed.

Lemma parts_ordinary s : IsAbs s = true -> Forall ordinary (parts s).
Proof. intros Hs. apply tidy_rooted. rewrite <- Hs. apply parts_tidy. Qed.

Lemma Clean_eq s t : IsAbs s = IsAbs t -> Clean s = Clean t <-> parts s = parts t.
Proof.
  intros H. split; intros E; [by rewrite <- (parts_Clean s), E, parts_Clean|].
  unfold Clean. by rewrite H, E.
Qed.

(** ** [Rel] and [IsLocal]: what they say together *)

Lemma strip_common_spec base targ base' targ' :
  strip_common base targ = (base', targ') ->
  exists p, base = p ++ base' /\ targ = p ++ targ' /\
    match base', targ' with b :: _, t :: _ => b <> t | _, _ => True end.
Proof.
  revert targ base' targ'. induction base as [|b base IH]; intros targ base' targ'; cbn [strip_common].
  - intros [= <- <-]. by exists [].
  - destruct targ as [|t targ]; [intros [= <- <-]; by exists []|].
    destruct (String.eqb_spec b t) as [->|Hne].
    + intros (p & -> & -> & Hp)%IH. by exists (t :: p).
    + intros [= <- <-]. by exists [].
Qed.

Lemma IsLocal_tidy l : tidy false l -> l <> [] ->
  IsLocal (join "/" l) = match l with e :: _ => negb (String.eqb e "..") | [] => false end.
Proof.
  intros Hl Hne. pose proof (tidy_no_slash _ _ Hl) as Hs. unfold IsLocal.
  assert (Er : render false l = join "/" l) by (by destruct l). rewrite <- Er.
  rewrite IsAbs_render by done. destruct l as [|e l]; [done|].
  destruct (tidy_head _ _ _ Hl) as [He1 He2].
  destruct (String.eqb_spec (render false (e :: l)) "") as [E|_].
  { exfalso. rewrite Er in E. destruct (join_cons e l) as [s Es]. rewrite Es in E. by destruct e. }
  cbn [orb]. unfold Clean. rewrite IsAbs_render, parts_render, Er by done. clear Er. f_equal.
  assert (Ej := elements_join (e :: l) Hne Hs).
  destruct (String.eqb_spec e "..") as [->|He].
  - destruct l as [|f l]; [done|]. by rewrite orb_comm.
  - apply orb_false_iff. split.
    + apply String.eqb_neq. intros E. rewrite E in Ej. vm_compute in Ej. by injection Ej as <- _.
    + apply not_true_iff_false. rewrite HasPrefix_spec. intros [r E]. rewrite E in Ej.
      unfold elements in Ej. rewrite chars_app in Ej. cbn in Ej. by injection Ej as <- _.
Qed.

(** [candidate] is [workspace] or below it. *)
Definition below (workspace candidate : string) : Prop := parts workspace `prefix_of` parts candidate.

Lemma repeat_up n : tidy false (repeat ".." n).
Proof. induction n; cbn; [apply tidy_down; constructor | by apply tidy_up]. Qed.

Lemma tidy_ups n l : Forall ordinary l -> tidy false (repeat ".." n ++ l).
Proof. intros Hl. induction n as [|n IH]; cbn [repeat app]; [by apply tidy_down | by apply tidy_up]. Qed.

Lemma parts_inj_prefix (p l k : list string) : p ++ l `prefix_of` p ++ k -> l `prefix_of` k.
Proof. apply prefix_app_inv. Qed.

Lemma Rel_local base targ :
  IsAbs base = true -> IsAbs targ = true ->
  match Rel base targ with Some rel => String.eqb rel "." || IsLocal rel | None => false end = true <-> below base targ.
Proof.
  intros Hb Ht. unfold Rel, below. rewrite !IsAbs_Clean, Hb, Ht, !parts_Clean. cbn [andb].
  destruct (String.eqb_spec (Clean targ) (Clean base)) as [E|Hne].
  { apply Clean_eq in E; [|congruence]. rewrite E. split; [done|reflexivity]. }
  destruct (strip_common _ _) as [base' targ'] eqn:E.
  apply strip_common_spec in E as (p & Eb & Et & Hdiff).
  pose proof (parts_ordinary targ Ht) as Ho. rewrite Et in Ho. apply Forall_app in Ho as [_ Ho].
  assert (Htidy := tidy_ups (length base') targ' Ho).
  destruct base' as [|b base']; cbn [length repeat app] in *.
  - rewrite app_nil_r in Eb. rewrite Eb, Et. split; intros _; [by exists targ'|].
    destruct targ' as [|t targ'].
    + destruct Hne. apply Clean_eq; [congruence|]. by rewrite Eb, Et, app_nil_r.
    + rewrite IsLocal_tidy by done. apply orb_true_intro. right.
      apply Forall_inv in Ho as (_ & _ & H3 & _). by apply negb_true_iff, String.eqb_neq.
  - rewrite IsLocal_tidy by done. cbn [String.eqb negb]. rewrite Eb, Et. split.
    + intros [Hx|Hx]%orb_prop; [|done]. apply String.eqb_eq in Hx.
      destruct (join_cons ".." (repeat ".." (length base') ++ targ')) as [s Es]. by rewrite Es in Hx.
    + intros Hp%prefix_app_inv. destruct targ' as [|t targ'].
      * by apply prefix_nil_inv in Hp.
      * by apply prefix_cons_inv_1 in Hp.
Qed.

(** ** [Dir] and [Join] of rooted paths *)

Lemma up_to_slash_app e r : slash ∉ e -> up_to_slash (e ++ slash :: r) = slash :: r.
Proof.
  induction e as [|c e IH]; intros He; cbn [up_to_slash app]; [by rewrite Ascii.eqb_refl|].
  apply not_elem_of_cons in He as [Hc He]. destruct (Ascii.eqb_spec c slash) as [->|_]; [done|auto].
Qed.

Lemma join_snoc l e : l <> [] -> join "/" (l ++ [e]) = join "/" l +:+ "/" +:+ e.
Proof.
  induction l as [|f l IH]; intros Hl; [done|]. destruct l as [|g l]; [done|].
  change (join "/" ((f :: g :: l) ++ [e])) with (f +:+ "/" +:+ join "/" ((g :: l) ++ [e])).
  rewrite IH by done. change (join "/" (f :: g :: l)) with (f +:+ "/" +:+ join "/" (g :: l)).
  by rewrite !append_assoc.
Qed.

Lemma render_snoc l e : exists p, render true (l ++ [e]) = p +:+ "/" +:+ e /\
  (l = [] /\ p = "" \/ l <> [] /\ p = render true l).
Proof.
  destruct l as [|f l]; [exists ""; by split; [|left]|]. exists (render true (f :: l)).
  split; [|by right]. unfold render. rewrite join_snoc by done. by rewrite !append_assoc.
Qed.

Lemma elements_slash s : elements (s +:+ "/") = elements s ++ [""].
Proof.
  unfold elements. rewrite chars_app. generalize (@nil ascii). generalize (chars s). intros l.
  induction l as [|c l IH]; intros cur; cbn [app pieces]; [reflexivity|].
  destruct (Ascii.eqb c slash); [by rewrite IH | apply IH].
Qed.

Lemma parts_slash s : s <> "" -> parts (s +:+ "/") = parts s.
Proof.
  intros Hs. unfold parts. assert (IsAbs (s +:+ "/") = IsAbs s) as -> by by destruct s.
  rewrite elements_slash. unfold clean_elements. by rewrite fold_left_app.
Qed.

Lemma Dir_render l e : Forall ordinary (l ++ [e]) -> Dir (render true (l ++ [e])) = render true l.
Proof.
  intros Ho. destruct (render_snoc l e) as (p & E & Hp). rewrite E. unfold Dir.
  apply Forall_app in Ho as [Hl He%Forall_inv]. destruct He as (_ & _ & _ & He).
  assert (Er : rev (chars (p +:+ "/" +:+ e)) = rev (chars e) ++ slash :: rev (chars p)).
  { rewrite !chars_app, !rev_app_distr. cbn [rev app chars]. by rewrite <- app_assoc. }
  rewrite Er, up_to_slash_app by (by rewrite elem_of_rev_list).
  assert (Ep : implode (rev (slash :: rev (chars p))) = p +:+ "/").
  { cbn [rev]. by rewrite rev_involutive, implode_app, implode_chars. }
  rewrite Ep. destruct Hp as [[-> ->]|[Hne ->]]; [reflexivity|].
  unfold Clean. rewrite parts_slash by done. by rewrite parts_render by by apply tidy_down.
Qed.

Lemma parts_Dir s : IsAbs s = true -> Clean s = s -> parts (Dir s) = removelast (parts s).
Proof.
  intros Hs Hc. pose proof (parts_ordinary s Hs) as Ho. rewrite <- Hc at 1. unfold Clean. rewrite Hs.
  destruct (parts s) as [|e l _] using rev_ind; [reflexivity|].
  rewrite Dir_render by done. rewrite parts_render by (apply tidy_down; by apply Forall_app in Ho as [Hl _]).
  by rewrite removelast_last.
Qed.

Lemma IsAbs_Dir s : IsAbs s = true -> Clean s = s -> IsAbs (Dir s) = true.
Proof.
  intros Hs Hc. pose proof (parts_ordinary s Hs) as Ho. rewrite <- Hc. unfold Clean. rewrite Hs.
  destruct (parts s) as [|e l _] using rev_ind; [reflexivity|]. by rewrite Dir_render by done.
Qed.

Lemma Clean_Dir s : Clean (Dir s) = Dir s.
Proof. apply Clean_idem. Qed.

Lemma elements_app s t : elements (s +:+ "/" +:+ t) = elements s ++ elements t.
Proof.
  unfold elements. rewrite chars_app. generalize (@nil ascii) at 1 2. generalize (chars s). intros l.
  induction l as [|c l IH]; intros cur; cbn [app pieces]; [reflexivity|].
  destruct (Ascii.eqb c slash); [by rewrite IH | apply IH].
Qed.

Lemma Join_two a b : a <> "" -> b <> "" -> Join [a; b] = Clean (a +:+ "/" +:+ b).
Proof.
  intros Ha%String.eqb_neq Hb%String.eqb_neq. unfold Join. cbn [List.filter]. rewrite Ha, Hb. reflexivity.
Qed.

Lemma clean_elements_app r l k : clean_elements r (l ++ k) = rev (fold_left (clean_step r) k (rev (clean_elements r l))).
Proof. unfold clean_elements. by rewrite fold_left_app, rev_involutive. Qed.

Lemma IsAbs_Join a b : IsAbs a = true -> IsAbs (Join [a; b]) = true.
Proof.
  intros Ha. destruct (String.eqb_spec b "") as [->|Hb].
  - unfold Join. cbn. destruct a as [|c a]; [done|]. cbn. by rewrite IsAbs_Clean.
  - rewrite Join_two by (try done; by intros ->). rewrite IsAbs_Clean. by destruct a.
Qed.

(** Going down from a rooted path. *)
Lemma parts_Join a l :
  IsAbs a = true -> l <> [] -> Forall ordinary l -> parts (Join [a; join "/" l]) = parts a ++ l.
Proof.
  intros Ha Hne Hl. assert (Hj : join "/" l <> "").
  { destruct l as [|e l]; [done|]. apply Forall_inv in Hl as [He _].
    destruct (join_cons e l) as [s ->]. by destruct e. }
  rewrite Join_two by (try done; by intros ->). rewrite parts_Clean. unfold parts at 1.
  assert (IsAbs (a +:+ "/" +:+ join "/" l) = IsAbs a) as -> by by destruct a.
  rewrite elements_app, elements_join, clean_elements_app, fold_ordinary by (try done; by apply ordinary_no_slash).
  rewrite rev_app_distr, !rev_involutive. reflexivity.
Qed.

(** Following the way to a path that is below leads to it. *)
Lemma Join_Rel base targ rel :
  IsAbs base = true -> IsAbs targ = true -> Rel base targ = Some rel -> IsLocal rel = true ->
  Join [base; rel] = Clean targ.
Proof.
  intros Hb Ht. unfold Rel. rewrite !IsAbs_Clean, Hb, Ht, !parts_Clean. cbn [andb].
  destruct (String.eqb_spec (Clean targ) (Clean base)) as [E|Hne].
  { intros [= <-] _. rewrite Join_two by (try done; by intros ->). rewrite E.
    apply Clean_eq; [by destruct base|]. unfold parts at 1.
    assert (IsAbs (base +:+ "/" +:+ ".") = IsAbs base) as -> by by destruct base.
    rewrite elements_app, clean_elements_app. unfold parts. cbn. by rewrite rev_involutive. }
  destruct (strip_common _ _) as [base' targ'] eqn:E.
  apply strip_common_spec in E as (p & Eb & Et & _). intros [= <-].
  pose proof (parts_ordinary targ Ht) as Ho. rewrite Et in Ho. apply Forall_app in Ho as [_ Ho].
  destruct base' as [|b base'].
  - cbn [length repeat app]. rewrite app_nil_r in Eb. subst p. intros Hloc.
    assert (targ' <> []) by by intros ->. unfold Clean. rewrite Ht.
    assert (Join [base; join "/" targ'] = Clean (Join [base; join "/" targ'])) as ->.
    { assert (join "/" targ' <> "") by (intros E; by rewrite E in Hloc).
      rewrite Join_two by (try done; by intros ->). by rewrite Clean_idem. }
    unfold Clean. rewrite IsAbs_Join, parts_Join, Et by done. done.
  - intros Hloc. assert (Htidy := tidy_ups (length (b :: base')) targ' Ho).
    rewrite IsLocal_tidy in Hloc by done. done.
Qed.

Lemma strip_common_prefix l rest : strip_common l (l ++ rest) = ([], rest).
Proof. induction l as [|e l IH]; cbn; [by destruct rest|]. by rewrite String.eqb_refl. Qed.

Lemma Rel_below base targ rest :
  IsAbs base = true -> IsAbs targ = true -> parts targ = parts base ++ rest ->
  Rel base targ = Some (match rest with [] => "." | _ => join "/" rest end).
Proof.
  intros Hb Ht E. unfold Rel. rewrite !IsAbs_Clean, Hb, Ht, !parts_Clean, E, strip_common_prefix. cbn [andb].
  destruct (String.eqb_spec (Clean targ) (Clean base)) as [Ec|Hne].
  - apply Clean_eq in Ec; [|congruence]. rewrite E in Ec. rewrite <- (app_nil_r (parts base)) in Ec at 2.
    by apply app_inv_head in Ec as ->.
  - destruct rest as [|e rest]; [|done]. rewrite app_nil_r in E. destruct Hne. apply Clean_eq; [congruence|done].
Qed.

Lemma join_ordinary l : Forall ordinary l -> l <> [] -> join "/" l <> ".".
Proof.
  intros Hl Hne E. pose proof (elements_join l Hne (ordinary_no_slash _ Hl)) as Ej. rewrite E in Ej.
  vm_compute in Ej. subst l. by apply Forall_inv in Hl as (_ & ? & _).
Qed.

Lemma rooted_eq p : IsAbs p = true -> Clean p = p -> p = render true (parts p).
Proof. intros Hp Hc. rewrite <- Hc at 1. unfold Clean. by rewrite Hp. Qed.

Lemma Dir_fixed p : IsAbs p = true -> Clean p = p -> Dir p = p <-> parts p = [].
Proof.
  intros Hp Hc. pose proof (parts_Dir p Hp Hc) as Hd. split; intros E.
  - rewrite E in Hd. destruct (parts p) as [|e l _] using rev_ind; [done|].
    rewrite removelast_last in Hd. apply (f_equal length) in Hd. rewrite length_app in Hd. cbn in Hd. lia.
  - rewrite (rooted_eq p Hp Hc), E. reflexivity.
Qed.

Lemma length_join l : Forall ordinary l -> (length l <= S (length (chars (join "/" l))))%nat.
Proof.
  induction 1 as [|e l He Hl IH]; [cbn; lia|]. destruct l as [|f l]; [cbn; lia|].
  change (join "/" (e :: f :: l)) with (e +:+ "/" +:+ join "/" (f :: l)).
  set (j := join "/" (f :: l)) in *. rewrite !chars_app, !length_app. cbn in *. lia.
Qed.

(** A rooted path has fewer elements than bytes. *)
Lemma length_parts p : IsAbs p = true -> (length (parts p) <= length (chars (Clean p)))%nat.
Proof.
  intros Hp. pose proof (length_join _ (parts_ordinary p Hp)). unfold Clean. rewrite Hp. unfold render.
  rewrite chars_app, length_app. cbn. lia.
Qed.
