(* ===== verification/PathPolicy.v ===== *)
(** * Which paths the tools may touch: [src/pkg/tools/filesystem.go]

    [EvalSymlinks] is the file system: where a path really leads, or that
    there is nothing there. *)

From S2P Require Import Prelude GoStrings GoPath.

(** An [os] error: [os.IsNotExist], or another one. *)
Inductive fs_error : Type := NotExist | OtherError (text : string).

(** A compiled regular expression. *)
Record Regexp : Type := mkRegexp { String_ : string; MatchString : string -> bool }.

Inductive path_error : Type :=
| Denied (text : string)                                   (* access denied: ... *)
| Undefined                                                (* workspace is not defined *)
| Unresolved (text : string).                              (* failed to resolve ... *)

Definition isWithinWorkspace (candidate workspace : string) : bool :=
  match Rel (Clean workspace) (Clean candidate) with
  | Some rel => String.eqb rel "." || IsLocal rel
  | None => false
  end.

(** ** Allowed paths *)

Definition is_meta (c : ascii) : bool :=
  existsb (Ascii.eqb c) ["."; "+"; "*"; "?"; "("; ")"; "["; "]"; "{"; "}"; "|"]%char.

Definition backslash : ascii := "\"%char.

Fixpoint unescaped_meta (escaped : bool) (l : list ascii) : bool :=
  match l with
  | [] => escaped
  | r :: l' =>
      if escaped then unescaped_meta false l'
      else if Ascii.eqb r backslash then unescaped_meta true l'
      else if is_meta r then true
      else unescaped_meta false l'
  end.

Definition containsUnescapedRegexMeta (s : string) : bool := unescaped_meta false (chars s).

Fixpoint unescape (escaped : bool) (l : list ascii) : option (list ascii) :=
  match l with
  | [] => if escaped then None else Some []
  | r :: l' =>
      if escaped then cons r <$> unescape false l'
      else if Ascii.eqb r backslash then unescape true l'
      else cons r <$> unescape false l'
  end.

Definition unescapeRegexLiteral (s : string) : option string := implode <$> unescape false (chars s).

Definition HasSuffix (s suffix : string) : bool := l_prefix (rev (chars suffix)) (rev (chars s)).

Definition TrimSuffix (s suffix : string) : string :=
  if HasSuffix s suffix
  then slice_to s (length (chars s) - length (chars suffix)) else s.

Definition extractAllowedPathRoot (pattern : Regexp) : option string :=
  let raw := String_ pattern in
  if negb (HasPrefix raw "^") then None
  else
    let literal := TrimPrefix raw "^" in
    let literal := TrimSuffix literal "(?:/|$)" in
    let literal := TrimSuffix literal "(?:\\|$)" in
    if containsUnescapedRegexMeta literal then None
    else
      match unescapeRegexLiteral literal with
      | None => None
      | Some unescaped =>
          if String.eqb unescaped "" then None
          else if IsAbs unescaped then Some (Clean unescaped) else None
      end.

Definition appendUniquePath (paths : list string) (path : string) : list string :=
  if existsb (String.eqb path) paths then paths else paths ++ [path].

Section Policy.
Context (EvalSymlinks : string -> result fs_error string).

(** [current] and the ancestors above it, up to the root; each [Dir] is
    shorter. *)
Fixpoint ancestors (fuel : nat) (current : string) : list string :=
  match fuel with
  | O => []
  | S fuel' => current :: if String.eqb (Dir current) current then [] else ancestors fuel' (Dir current)
  end.

(** The first that exists and where it leads; an error of another kind ends
    the search. *)
Fixpoint first_existing (l : list string) : result fs_error (string * string) :=
  match l with
  | [] => Err NotExist
  | current :: rest =>
      match EvalSymlinks current with
      | Ok resolved => Ok (current, resolved)
      | Err NotExist => first_existing rest
      | Err e => Err e
      end
  end.

Definition search (path : string) : result fs_error (string * string) :=
  first_existing (ancestors (S (length (chars (Clean path)))) (Clean path)).

Definition resolveExistingAncestor (path : string) : result fs_error string :=
  match search path with Ok (_, resolved) => Ok resolved | Err e => Err e end.

Definition resolvePathAgainstExistingAncestor (path : string) : result fs_error string :=
  match search path with
  | Err e => Err e
  | Ok (current, resolved) =>
      match Rel current (Clean path) with
      | None => Err (OtherError "Rel: can't make relative")
      | Some suffix =>
          if String.eqb suffix "." then Ok (Clean resolved) else Ok (Clean (Join [resolved; suffix]))
      end
  end.

Definition isWithinAllowedRoot (path root : string) : bool :=
  let candidate := Clean path in
  let allowedVariants := [Clean root] in
  let allowedVariants :=
    match resolvePathAgainstExistingAncestor root with
    | Ok resolvedRoot => appendUniquePath allowedVariants (Clean resolvedRoot)
    | Err _ => allowedVariants
    end in
  existsb (isWithinWorkspace candidate) allowedVariants.

Definition matches_one (cleaned : string) (pattern : Regexp) : bool :=
  MatchString pattern cleaned ||
  match extractAllowedPathRoot pattern with
  | Some root => isWithinAllowedRoot cleaned root
  | None => false
  end.

Definition matchesAllowedPath (path : string) (patterns : list Regexp) : bool :=
  existsb (matches_one (Clean path)) patterns.

Definition isAllowedPath (path : string) (patterns : list Regexp) : bool :=
  match patterns with
  | [] => false
  | _ =>
      let cleaned := Clean path in
      if negb (IsAbs cleaned) then false
      else if negb (matchesAllowedPath cleaned patterns) then false
      else match resolvePathAgainstExistingAncestor cleaned with
           | Err _ => false
           | Ok resolved => matchesAllowedPath resolved patterns
           end
  end.

(** ** [validatePathWithAllowPaths] *)

(** The working directory, if it can be read. *)
Context (Getwd : option string).

Definition Abs (path : string) : option string :=
  if IsAbs path then Some (Clean path)
  else match Getwd with Some wd => Some (Join [wd; path]) | None => None end.

Definition symlink_outside : path_error := Denied "access denied: symlink resolves outside workspace".

Definition real_workspace (absWorkspace : string) : string :=
  match EvalSymlinks absWorkspace with Ok resolved => resolved | Err _ => absWorkspace end.

Definition check_restricted (absPath absWorkspace : string) (patterns : list Regexp) : result path_error string :=
  if isAllowedPath absPath patterns then Ok absPath
  else if negb (isWithinWorkspace absPath absWorkspace)
  then Err (Denied "access denied: path is outside the workspace")
  else
    let workspaceReal := real_workspace absWorkspace in
    match EvalSymlinks absPath with
    | Ok resolved => if isWithinWorkspace resolved workspaceReal then Ok absPath else Err symlink_outside
    | Err NotExist =>
        match resolveExistingAncestor (Dir absPath) with
        | Ok parentResolved =>
            if isWithinWorkspace parentResolved workspaceReal then Ok absPath else Err symlink_outside
        | Err NotExist => Ok absPath
        | Err (OtherError text) => Err (Unresolved text)
        end
    | Err (OtherError text) => Err (Unresolved text)
    end.

Definition validatePathWithAllowPaths (path workspace : string) (restrict : bool) (patterns : list Regexp) :
    result path_error string :=
  if String.eqb workspace "" then Err Undefined
  else
    match Abs workspace with
    | None => Err (Unresolved "failed to resolve workspace path")
    | Some absWorkspace =>
        match (if IsAbs path then Some (Clean path) else Abs (Join [absWorkspace; path])) with
        | None => Err (Unresolved "failed to resolve file path")
        | Some absPath => if restrict then check_restricted absPath absWorkspace patterns else Ok absPath
        end
    end.
End Policy.

(** ** [getSafeRelPath] *)

Inductive rel_error : Type := NoWorkspace | NoRelative | Escapes.

Definition getSafeRelPath (workspace path : string) : result rel_error string :=
  if String.eqb workspace "" then Err NoWorkspace
  else
    let rel := Clean path in
    match (if IsAbs rel then Rel workspace rel else Some rel) with
    | None => Err NoRelative
    | Some rel => if IsLocal rel then Ok rel else Err Escapes
    end.

(** ** The patterns of an agent: [src/pkg/agent/instance.go] *)

(** [regexp.QuoteMeta] *)
Definition special (c : ascii) : bool :=
  existsb (Ascii.eqb c) ["\"; "."; "+"; "*"; "?"; "("; ")"; "|"; "["; "]"; "{"; "}"; "^"; "$"]%char.

Fixpoint quote_meta (l : list ascii) : list ascii :=
  match l with
  | [] => []
  | c :: l' => if special c then backslash :: c :: quote_meta l' else c :: quote_meta l'
  end.

Definition QuoteMeta (s : string) : string := implode (quote_meta (chars s)).

Definition allowedDirPattern (path : string) : string := "^" +:+ QuoteMeta (Clean path) +:+ "(?:" +:+ QuoteMeta "/" +:+ "|$)".

Definition containsPattern (patterns : list Regexp) (want : Regexp) : bool :=
  existsb (fun pattern => String.eqb (String_ pattern) (String_ want)) patterns.

Section Patterns.
(** [regexp.Compile], and [regexp.MustCompile] where it does not panic; the
    home directory; which directories are there. *)
Context (Compile : string -> option Regexp) (MustCompile : string -> Regexp) (TempDir : string)
  (UserHomeDir : option string) (pathExists : string -> bool).

Definition compilePatterns (patterns : list string) : list Regexp := omap Compile patterns.

Definition mediaTempDirPattern : string := "^" +:+ QuoteMeta (Clean TempDir) +:+ "(?:" +:+ QuoteMeta "/" +:+ "|$)".

Definition skill_roots (home : string) : list string :=
  [Join [home; ".agents"; "skills"]; Join [home; ".codex"; "skills"]].

Definition defaultReadWhitelistPatterns : list Regexp :=
  let patterns := [MustCompile mediaTempDirPattern] in
  match UserHomeDir with
  | None => patterns
  | Some home =>
      if String.eqb (TrimSpace home) "" then patterns
      else patterns ++ map (fun root => MustCompile (allowedDirPattern root)) (List.filter pathExists (skill_roots home))
  end.

Definition buildAllowReadPatterns (configured : list string) : list Regexp :=
  fold_left (fun compiled pattern => if containsPattern compiled pattern then compiled else compiled ++ [pattern])
    defaultReadWhitelistPatterns (compilePatterns configured).
End Patterns.

(** ** The comparison of paths *)

Lemma isWithinWorkspace_below candidate workspace :
  IsAbs candidate = true -> IsAbs workspace = true ->
  isWithinWorkspace candidate workspace = true <-> below workspace candidate.
Proof.
  intros Hc Hw. unfold isWithinWorkspace.
  rewrite Rel_local by (by rewrite IsAbs_Clean). unfold below. by rewrite !parts_Clean.
Qed.

Lemma below_Clean w c : below (Clean w) (Clean c) <-> below w c.
Proof. unfold below. by rewrite !parts_Clean. Qed.

(** ** Quoted texts *)

Lemma is_meta_special c : is_meta c = true -> special c = true.
Proof.
  assert (G := byte_forall (fun c => implb (is_meta c) (special c)) ltac:(vm_compute; reflexivity) c).
  cbv beta in G. by destruct (is_meta c).
Qed.

Lemma special_backslash c : special c = false -> Ascii.eqb c backslash = false.
Proof.
  assert (G := byte_forall (fun c => implb (Ascii.eqb c backslash) (special c)) ltac:(vm_compute; reflexivity) c).
  cbv beta in G. by destruct (Ascii.eqb c backslash), (special c).
Qed.

Lemma unescaped_meta_quote l k : unescaped_meta false (quote_meta l ++ k) = unescaped_meta false k.
Proof.
  induction l as [|c l IH]; [done|]. cbn [quote_meta]. destruct (special c) eqn:Ec; cbn [app unescaped_meta].
  - rewrite Ascii.eqb_refl. cbn [unescaped_meta]. done.
  - rewrite (special_backslash c Ec). destruct (is_meta c) eqn:Em; [|done].
    apply is_meta_special in Em. congruence.
Qed.

Lemma unescape_quote l : unescape false (quote_meta l) = Some l.
Proof.
  induction l as [|c l IH]; [done|]. cbn [quote_meta]. destruct (special c) eqn:Ec; cbn [unescape].
  - rewrite Ascii.eqb_refl. cbn [unescape]. by rewrite IH.
  - rewrite (special_backslash c Ec). by rewrite IH.
Qed.

Lemma QuoteMeta_literal s :
  containsUnescapedRegexMeta (QuoteMeta s) = false /\ unescapeRegexLiteral (QuoteMeta s) = Some s.
Proof.
  unfold containsUnescapedRegexMeta, unescapeRegexLiteral, QuoteMeta. rewrite chars_implode. split.
  - rewrite <- (app_nil_r (quote_meta _)). by rewrite unescaped_meta_quote.
  - rewrite unescape_quote. cbn. by rewrite implode_chars.
Qed.

Lemma TrimSuffix_app s suffix : TrimSuffix (s +:+ suffix) suffix = s.
Proof.
  unfold TrimSuffix, HasSuffix. rewrite chars_app, rev_app_distr.
  rewrite (proj2 (l_prefix_spec _ _)) by eauto. unfold slice_to. rewrite chars_app, length_app.
  rewrite Nat.add_sub, take_app_length. apply implode_chars.
Qed.

Lemma TrimSuffix_none s suffix : (forall r, s <> r +:+ suffix) -> TrimSuffix s suffix = s.
Proof.
  intros Hs. unfold TrimSuffix, HasSuffix. destruct (l_prefix _ _) eqn:E; [|done].
  apply l_prefix_spec in E as [r E]. destruct (Hs (implode (rev r))). apply chars_inj.
  rewrite chars_app, chars_implode. rewrite <- (rev_involutive (chars s)), E, rev_app_distr.
  by rewrite rev_involutive.
Qed.

(** After any text at all, the Windows suffix is not literal. *)
Lemma windows_suffix_meta e l : unescaped_meta e (l ++ chars "(?:\\|$)") = true.
Proof.
  revert e. induction l as [|c l IH]; intros e; [by destruct e|]. cbn [app unescaped_meta].
  destruct e; [apply IH|]. destruct (Ascii.eqb c backslash); [apply IH|]. destruct (is_meta c); [done|apply IH].
Qed.

Lemma literal_root path MatchS :
  IsAbs path = true ->
  extractAllowedPathRoot (mkRegexp (allowedDirPattern path) MatchS) = Some (Clean path).
Proof.
  intros Hp. unfold extractAllowedPathRoot, allowedDirPattern. cbn [String_].
  rewrite HasPrefix_app, TrimPrefix_app. cbn [negb].
  change ("(?:" +:+ QuoteMeta "/" +:+ "|$)") with "(?:/|$)". rewrite TrimSuffix_app.
  destruct (QuoteMeta_literal (Clean path)) as [H1 H2].
  rewrite TrimSuffix_none.
  - rewrite H1, H2. assert (Ha : IsAbs (Clean path) = true) by by rewrite IsAbs_Clean.
    destruct (String.eqb_spec (Clean path) "") as [E|_]; [by rewrite E in Ha|]. by rewrite Ha, Clean_idem.
  - intros r E. rewrite E in H1. unfold containsUnescapedRegexMeta in H1.
    rewrite chars_app, windows_suffix_meta in H1. done.
Qed.

(** ** The search for an existing ancestor *)

Section Search.
Context (EvalSymlinks : string -> result fs_error string).

(** What [EvalSymlinks] documents: the result is clean, and rooted if the path
    is. *)
Context (Heval : forall p real, IsAbs p = true -> EvalSymlinks p = Ok real -> IsAbs real = true /\ Clean real = real).

(** [c] is an ancestor of [p], or [p]. *)
Definition above (p c : string) : Prop := IsAbs c = true /\ Clean c = c /\ below c p.

Lemma above_Dir p c : above p c -> above p (Dir c).
Proof.
  intros (Ha & Hc & Hb). split_and!; [by apply IsAbs_Dir | apply Clean_Dir|].
  unfold below in *. rewrite parts_Dir by done. etrans; [|exact Hb].
  destruct (parts c) as [|e l _] using rev_ind; [reflexivity|]. rewrite removelast_last. by exists [e].
Qed.

Lemma ancestors_above fuel p c : above p c -> Forall (above p) (ancestors fuel c).
Proof.
  revert c. induction fuel as [|fuel IH]; intros c Hc; cbn [ancestors]; constructor; [done|].
  destruct (String.eqb (Dir c) c); [constructor|]. by apply IH, above_Dir.
Qed.

Lemma first_existing_Ok l cur real :
  first_existing EvalSymlinks l = Ok (cur, real) -> cur ∈ l /\ EvalSymlinks cur = Ok real.
Proof.
  induction l as [|c l IH]; cbn [first_existing]; [done|]. destruct (EvalSymlinks c) as [r|[]] eqn:E; [| |done].
  - intros [= <- <-]. split; [left|done].
  - intros [H1 H2]%IH. split; [by right|done].
Qed.

Lemma search_Ok p cur real :
  IsAbs p = true -> search EvalSymlinks p = Ok (cur, real) ->
  above p cur /\ EvalSymlinks cur = Ok real /\ IsAbs real = true /\ Clean real = real.
Proof.
  intros Hp [Hin He]%first_existing_Ok.
  assert (Hs : above p (Clean p)).
  { split_and!; [by rewrite IsAbs_Clean | apply Clean_idem | unfold below; by rewrite parts_Clean]. }
  pose proof (proj1 (Forall_forall _ _) (ancestors_above _ p _ Hs) cur Hin) as Ha.
  split_and!; [done|done| |]; by eapply Heval, He; destruct Ha.
Qed.

(** Where a path leads is the place of the ancestor that exists, and the rest
    of the path below it. *)
Lemma resolve_Ok p dest :
  IsAbs p = true -> resolvePathAgainstExistingAncestor EvalSymlinks p = Ok dest ->
  exists cur real rest, search EvalSymlinks p = Ok (cur, real) /\
    parts p = parts cur ++ rest /\ parts dest = parts real ++ rest /\ IsAbs dest = true.
Proof.
  intros Hp. unfold resolvePathAgainstExistingAncestor.
  destruct (search EvalSymlinks p) as [[cur real]|e] eqn:Es; [|done].
  destruct (search_Ok _ _ _ Hp Es) as ((Hc1 & Hc2 & [rest Hrest]) & _ & Hr1 & Hr2).
  assert (Ho := parts_ordinary p Hp). rewrite Hrest in Ho. apply Forall_app in Ho as [_ Ho].
  rewrite (Rel_below cur (Clean p) rest) by (rewrite ?IsAbs_Clean, ?parts_Clean; done).
  intros H. exists cur, real, rest. split; [done|]. split; [done|].
  destruct rest as [|e rest].
  - injection H as <-. by rewrite parts_Clean, app_nil_r, IsAbs_Clean.
  - rewrite (proj2 (String.eqb_neq _ _) (join_ordinary _ Ho ltac:(done))) in H.
    assert (dest = Clean (Join [real; join "/" (e :: rest)])) as -> by congruence.
    rewrite parts_Clean, parts_Join, IsAbs_Clean, IsAbs_Join by done. done.
Qed.

Lemma resolve_exists p real :
  IsAbs p = true -> Clean p = p -> EvalSymlinks p = Ok real ->
  search EvalSymlinks p = Ok (p, real) /\ resolvePathAgainstExistingAncestor EvalSymlinks p = Ok real.
Proof.
  intros Hp Hc He. assert (Es : search EvalSymlinks p = Ok (p, real)).
  { unfold search. rewrite Hc. cbn [ancestors first_existing]. by rewrite He. }
  split; [done|]. unfold resolvePathAgainstExistingAncestor. rewrite Es, Hc.
  rewrite (Rel_below p p []) by (try done; by rewrite app_nil_r). cbn.
  by rewrite (proj2 (Heval p real Hp He)).
Qed.

(** The bytes of a path are more fuel than it has ancestors. *)
Lemma ancestors_fuel fuel p :
  IsAbs p = true -> Clean p = p -> (length (parts p) < fuel)%nat ->
  ancestors fuel p = ancestors (S (length (parts p))) p.
Proof.
  remember (length (parts p)) as n eqn:En. revert fuel p En. induction n as [|n IH]; intros fuel p En Hp Hc Hf.
  - destruct fuel as [|fuel]; [lia|]. cbn [ancestors].
    assert (Dir p = p) as -> by (apply Dir_fixed; [done|done|by apply length_zero_iff_nil]). by rewrite String.eqb_refl.
  - destruct fuel as [|fuel]; [lia|]. cbn [ancestors]. fold (ancestors (S n) (Dir p)).
    destruct (String.eqb (Dir p) p) eqn:Ed; [done|]. f_equal.
    assert (El : length (parts (Dir p)) = n).
    { rewrite parts_Dir by done. destruct (parts p) as [|e l _] using rev_ind; [done|].
      rewrite removelast_last. rewrite length_app in En. cbn in En. lia. }
    rewrite (IH fuel (Dir p)); [done | by rewrite El | by apply IsAbs_Dir | by apply Clean_Dir | lia].
Qed.

Lemma search_ancestors p :
  IsAbs p = true -> search EvalSymlinks p = first_existing EvalSymlinks (ancestors (S (length (parts p))) (Clean p)).
Proof.
  intros Hp. unfold search. rewrite ancestors_fuel; [by rewrite parts_Clean | by rewrite IsAbs_Clean | apply Clean_idem|].
  rewrite parts_Clean. pose proof (length_parts p Hp). lia.
Qed.

(** A path that is not there is looked for from its parent on. *)
Lemma search_missing p :
  IsAbs p = true -> Clean p = p -> EvalSymlinks p = Err NotExist ->
  search EvalSymlinks p = search EvalSymlinks (Dir p).
Proof.
  intros Hp Hc He. destruct (decide (Dir p = p)) as [->|Hne]; [done|].
  rewrite (search_ancestors p), (search_ancestors (Dir p)), Clean_Dir, Hc by (by try apply IsAbs_Dir).
  rewrite parts_Dir by done. rewrite (Dir_fixed p Hp Hc) in Hne.
  destruct (parts p) as [|e l _] eqn:Ep using rev_ind; [done|].
  rewrite removelast_last, length_app, Nat.add_1_r. remember (S (length l)) as n. cbn [ancestors first_existing]. rewrite He.
  destruct (String.eqb_spec (Dir p) p) as [E|_]; [|done].
  apply Dir_fixed in E; [|done|done]. rewrite Ep in E. by destruct l.
Qed.

(** ** Confinement *)

Context (Getwd : option string) (Hwd : forall wd, Getwd = Some wd -> IsAbs wd = true).

Lemma Abs_rooted path p : Abs Getwd path = Some p -> IsAbs p = true /\ Clean p = p.
Proof.
  unfold Abs. destruct (IsAbs path) eqn:Ha.
  - intros [= <-]. by rewrite IsAbs_Clean, Clean_idem.
  - destruct Getwd as [wd|]; [|done]. intros [= <-]. specialize (Hwd wd eq_refl).
    split; [by apply IsAbs_Join|]. unfold Join. cbn [List.filter].
    destruct (String.eqb_spec wd "") as [->|_]; [done|]. cbn [negb]. destruct (negb _); apply Clean_idem.
Qed.

Lemma real_workspace_rooted w : IsAbs w = true -> Clean w = w ->
  IsAbs (real_workspace EvalSymlinks w) = true /\ Clean (real_workspace EvalSymlinks w) = real_workspace EvalSymlinks w.
Proof. intros Hw Hc. unfold real_workspace. destruct (EvalSymlinks w) eqn:E; [by apply (Heval w)|done]. Qed.

Lemma check_restricted_spec p w patterns q :
  IsAbs p = true -> Clean p = p -> IsAbs w = true -> Clean w = w ->
  check_restricted EvalSymlinks p w patterns = Ok q ->
  q = p /\ (isAllowedPath EvalSymlinks p patterns = true \/
    below w p /\ forall dest, resolvePathAgainstExistingAncestor EvalSymlinks p = Ok dest ->
      below (real_workspace EvalSymlinks w) dest).
Proof.
  intros Hp Hc Hw Hcw. unfold check_restricted.
  destruct (isAllowedPath _ _ _); [intros [= <-]; by split; [|left]|].
  destruct (isWithinWorkspace p w) eqn:Ein; [|done]. cbn [negb]. apply isWithinWorkspace_below in Ein; [|done|done].
  destruct (real_workspace_rooted w Hw Hcw) as [Hrw _]. set (rw := real_workspace EvalSymlinks w) in *.
  destruct (EvalSymlinks p) as [real|e] eqn:Ee.
  - destruct (isWithinWorkspace real rw) eqn:Er; [|done]. intros [= <-]. split; [done|]. right. split; [done|].
    destruct (resolve_exists p real Hp Hc Ee) as [_ ->]. intros dest [= <-].
    apply isWithinWorkspace_below in Er; [done| |done]. by apply (Heval p real).
  - destruct e as [|text]; [|done]. unfold resolveExistingAncestor.
    rewrite <- (search_missing p Hp Hc Ee). intros H.
    assert (Hq : q = p /\ forall cur real, search EvalSymlinks p = Ok (cur, real) -> below rw real).
    { destruct (search EvalSymlinks p) as [[cur real]|[]] eqn:Es; [| by injection H as <- | done].
      destruct (isWithinWorkspace real rw) eqn:Er; [|done]. injection H as <-. split; [done|]. intros ? ? [= <- <-].
      destruct (search_Ok _ _ _ Hp Es) as (_ & _ & Hr & _). by apply isWithinWorkspace_below in Er. }
    destruct Hq as [-> Hq]. split; [done|]. right. split; [done|]. intros dest Hd.
    destruct (resolve_Ok p dest Hp Hd) as (cur & real & rest & Es & _ & Ed & _). apply Hq in Es.
    unfold below in *. rewrite Ed. etrans; [exact Es|]. by exists rest.
Qed.
End Search.

(** ** The patterns for reading confine, too *)

Section Allowed.
Context (EvalSymlinks : string -> result fs_error string).
Context (Heval : forall p real, IsAbs p = true -> EvalSymlinks p = Ok real -> IsAbs real = true /\ Clean real = real).

(** In a directory: by name, or where the directory really is. *)
Definition in_directory (root p : string) : Prop :=
  below root p \/ exists real, resolvePathAgainstExistingAncestor EvalSymlinks root = Ok real /\ below real p.

Lemma existsb_append paths x (P : string -> bool) :
  existsb P (appendUniquePath paths x) = true -> existsb P paths = true \/ P x = true.
Proof.
  unfold appendUniquePath. destruct (existsb (String.eqb x) paths); [by left|].
  rewrite existsb_app. cbn. rewrite orb_false_r. apply orb_prop.
Qed.

Lemma isWithinAllowedRoot_spec p root :
  IsAbs p = true -> IsAbs root = true -> isWithinAllowedRoot EvalSymlinks p root = true -> in_directory root p.
Proof.
  intros Hp Hr. unfold isWithinAllowedRoot, in_directory.
  assert (Hone : forall q, IsAbs q = true -> isWithinWorkspace (Clean p) (Clean q) = true -> below q p).
  { intros q Hq H. apply isWithinWorkspace_below in H; [|by rewrite IsAbs_Clean..]. by apply below_Clean. }
  destruct (resolvePathAgainstExistingAncestor _ root) as [real|e] eqn:E.
  - intros [H|H]%existsb_append.
    + cbn in H. rewrite orb_false_r in H. left. by apply Hone.
    + right. exists real. split; [done|]. apply Hone; [|done].
      by destruct (resolve_Ok EvalSymlinks Heval root real Hr E) as (? & ? & ? & _ & _ & _ & ?).
  - cbn. rewrite orb_false_r. intros H. left. by apply Hone.
Qed.

(** A pattern for a directory, as [regexp] documents its meaning. *)
Definition directory_pattern (root : string) (pattern : Regexp) : Prop :=
  IsAbs root = true /\ String_ pattern = allowedDirPattern root /\
  forall s, MatchString pattern s = true -> s = Clean root \/ exists t, s = Clean root +:+ "/" +:+ t.

Lemma below_prefix root p t :
  IsAbs root = true -> Clean p = p -> p = Clean root +:+ "/" +:+ t -> below root p.
Proof.
  intros Hr Hc E. unfold below. assert (Hp : IsAbs p = true).
  { rewrite E. assert (Ha : IsAbs (Clean root) = true) by by rewrite IsAbs_Clean. by destruct (Clean root). }
  assert (Ho := parts_ordinary p Hp). assert (Er := elements_app (Clean root) t). rewrite <- E in Er.
  destruct (parts root) as [|e l] eqn:Eroot; [apply prefix_nil|].
  rewrite (rooted_eq p Hp Hc) in Er. rewrite <- Eroot in *.
  assert (Ec : elements (Clean root) = "" :: parts root).
  { unfold Clean. rewrite Hr. unfold render. rewrite elements_rooted, elements_join; [done|by rewrite Eroot|].
    apply ordinary_no_slash. by apply parts_ordinary. }
  rewrite Ec in Er. unfold render in Er. rewrite elements_rooted in Er. injection Er as Er.
  destruct (parts p) as [|f k] eqn:Ep; [|].
  - rewrite Eroot in Er. destruct e; [|done]. pose proof (parts_ordinary root Hr) as Hx. rewrite Eroot in Hx.
    by apply Forall_inv in Hx as (? & _).
  - rewrite elements_join in Er by (try done; by apply ordinary_no_slash). rewrite Er. by eexists.
Qed.

Lemma matches_directory root pattern p :
  directory_pattern root pattern -> IsAbs p = true -> Clean p = p ->
  matches_one EvalSymlinks p pattern = true -> in_directory root p.
Proof.
  intros (Hr & Hs & Hm) Hp Hc [H|H]%orb_prop.
  - left. apply Hm in H as [E|[t E]].
    + unfold below. by rewrite E, parts_Clean.
    + by eapply below_prefix.
  - destruct pattern as [raw m]. cbn in Hs. subst raw. rewrite literal_root in H by done.
    apply isWithinAllowedRoot_spec in H; [|done|by rewrite IsAbs_Clean].
    destruct H as [H|(real & E & H)].
    + left. unfold below in *. by rewrite parts_Clean in H.
    + right. exists real. split; [|done].
      unfold resolvePathAgainstExistingAncestor, search in *. by rewrite Clean_idem in E.
Qed.

Lemma isAllowedPath_spec p patterns (roots : list string) :
  Forall (fun pattern => exists root, root ∈ roots /\ directory_pattern root pattern) patterns ->
  isAllowedPath EvalSymlinks p patterns = true ->
  exists dest, resolvePathAgainstExistingAncestor EvalSymlinks p = Ok dest /\
    (exists root, root ∈ roots /\ in_directory root (Clean p)) /\ (exists root, root ∈ roots /\ in_directory root dest).
Proof.
  intros Hpat. unfold isAllowedPath. destruct patterns as [|p0 ps] eqn:Eps; [done|]. rewrite <- Eps in *. clear Eps p0 ps.
  rewrite IsAbs_Clean. destruct (IsAbs p) eqn:Hp; [|done]. cbn [negb].
  destruct (matchesAllowedPath _ (Clean p) patterns) eqn:Hm; [|done]. cbn [negb].
  assert (E : resolvePathAgainstExistingAncestor EvalSymlinks (Clean p) = resolvePathAgainstExistingAncestor EvalSymlinks p).
  { unfold resolvePathAgainstExistingAncestor, search. by rewrite Clean_idem. }
  rewrite E. destruct (resolvePathAgainstExistingAncestor _ p) as [dest|] eqn:Ed; [|done]. intros Hm'.
  destruct (resolve_Ok EvalSymlinks Heval p dest Hp Ed) as (_ & _ & _ & _ & _ & _ & Hd).
  assert (G : forall q, IsAbs q = true -> matchesAllowedPath EvalSymlinks q patterns = true ->
    exists root, root ∈ roots /\ in_directory root (Clean q)).
  { intros q Hq (pattern & Hin & H)%existsb_exists. apply list_elem_of_In in Hin.
    destruct (proj1 (Forall_forall _ _) Hpat pattern Hin) as (root & Hroot & Hdir). exists root. split; [done|].
    eapply matches_directory; [done|by rewrite IsAbs_Clean|apply Clean_idem|done]. }
  exists dest. split; [done|]. split.
  - apply (G (Clean p)) in Hm; [|by rewrite IsAbs_Clean]. by rewrite Clean_idem in Hm.
  - destruct (G dest Hd Hm') as (root & Hroot & Hin). exists root. split; [done|].
    unfold in_directory, below in *. by setoid_rewrite parts_Clean in Hin.
Qed.
End Allowed.

(** ** What the sandbox is asked for *)

Lemma IsLocal_parts p :
  IsLocal (Clean p) = true -> IsAbs p = false /\ Forall ordinary (parts p).
Proof.
  intros H. assert (Ha : IsAbs p = false).
  { unfold IsLocal in H. rewrite IsAbs_Clean in H. by destruct (IsAbs p). }
  split; [done|]. pose proof (parts_tidy p) as Ht. unfold Clean in H. rewrite Ha in Ht, H.
  destruct (parts p) as [|e l] eqn:E; [constructor|]. unfold render in H. rewrite IsLocal_tidy in H by done.
  inversion Ht as [k Hk|k _ Hk]; [done|]. by subst.
Qed.

Lemma getSafeRelPath_below w p rel :
  IsAbs w = true -> getSafeRelPath w p = Ok rel ->
  IsLocal rel = true /\ below w (Join [w; rel]) /\ (IsAbs p = true -> Join [w; rel] = Clean p).
Proof.
  intros Hw. unfold getSafeRelPath. destruct (String.eqb_spec w "") as [->|Hne]; [done|].
  rewrite IsAbs_Clean. destruct (IsAbs p) eqn:Hp.
  - destruct (Rel w (Clean p)) as [r|] eqn:Er; [|done]. destruct (IsLocal r) eqn:El; [|done]. intros [= <-].
    assert (Hcp : IsAbs (Clean p) = true) by by rewrite IsAbs_Clean.
    assert (E : Join [w; r] = Clean p) by (rewrite (Join_Rel w (Clean p) r) by done; apply Clean_idem).
    split; [done|]. split; [|done]. rewrite E. pose proof (Rel_local w (Clean p) Hw Hcp) as [H _].
    rewrite Er in H. apply H. by rewrite El, orb_true_r.
  - destruct (IsLocal (Clean p)) eqn:El; [|done]. intros [= <-]. split; [done|]. split; [|done].
    apply IsLocal_parts in El as [_ Ho]. unfold Clean. rewrite Hp. unfold below.
    destruct (parts p) as [|e l] eqn:E.
    + unfold render. rewrite Join_two by done. rewrite parts_Clean. unfold parts at 2.
      assert (IsAbs (w +:+ "/" +:+ ".") = IsAbs w) as -> by by destruct w.
      rewrite elements_app, clean_elements_app. cbn. by rewrite rev_involutive.
    + unfold render. rewrite parts_Join by done. by eexists.
Qed.
