(* ===== verification/FsTree.v ===== *)
(** * A file system with symbolic links

    What [filepath.EvalSymlinks] does on a tree of files, and what the kernel
    does when a path is opened: both follow the elements of the path, [..] and
    links on the way, from where they are. *)

From stdpp Require Import gmap.
From S2P Require Import Prelude GoStrings GoPath PathPolicy.

Inductive node : Type := Directory | File (data : string) | Symlink (target : string).

(** By the elements of the path from the root; the root is there. *)
Abbreviation tree := (gmap (list string) node).

Inductive walk_result : Type := Reached (at_ : list string) | Failed (e : fs_error).

Section Walk.
Context (fs : tree).

(** Follow the elements [rest] from the directory [dest]; [links] more links
    may be followed. *)
Fixpoint walk (links : nat) : list string -> list string -> walk_result :=
  fix go (dest rest : list string) : walk_result :=
    match rest with
    | [] => Reached dest
    | e :: rest' =>
        if String.eqb e "" || String.eqb e "." then go dest rest'
        else if String.eqb e ".." then go (removelast dest) rest'
        else
          match fs !! (dest ++ [e]) with
          | None => Failed NotExist
          | Some Directory => go (dest ++ [e]) rest'
          | Some (File _) =>
              match rest' with [] => Reached (dest ++ [e]) | _ => Failed (OtherError "not a directory") end
          | Some (Symlink target) =>
              match links with
              | O => Failed (OtherError "EvalSymlinks: too many links")
              | Datatypes.S links' =>
                  walk links' (if IsAbs target then [] else dest) (elements target ++ rest')
              end
          end
    end.

(** [filepath.EvalSymlinks] of a rooted path. *)
Definition EvalSymlinks (path : string) : result fs_error string :=
  match walk 255 [] (elements path) with
  | Reached at_ => Ok (render true at_)
  | Failed e => Err e
  end.

(** Where the kernel arrives when it opens a path. *)
Definition opened (path : string) : option (list string) :=
  match walk 40 [] (elements path) with Reached at_ => Some at_ | Failed _ => None end.

Lemma walk_ordinary links dest rest at_ :
  Forall ordinary dest -> Forall (fun e => slash ∉ chars e) rest -> walk links dest rest = Reached at_ ->
  Forall ordinary at_.
Proof.
  revert dest rest. induction links as [|links IHl]; intros dest rest.
  all: revert dest; induction rest as [|e rest IH]; intros dest Hd Hr; [by intros [= <-]|].
  all: apply Forall_cons in Hr as [He Hr]; cbn [walk].
  all: destruct (String.eqb_spec e "") as [|H1]; [by apply IH|].
  all: destruct (String.eqb_spec e ".") as [|H2]; [by apply IH|]; cbn [orb].
  all: destruct (String.eqb_spec e "..") as [|H3].
  1,3: apply IH; [|done]; destruct dest as [|x dest _] using rev_ind; [done|];
       rewrite removelast_last; by apply Forall_app in Hd as [? _].
  all: assert (Hs : Forall ordinary (dest ++ [e])) by (apply Forall_app; split; [done|apply Forall_singleton; by split_and!]).
  all: destruct (fs !! (dest ++ [e])) as [[|data|target]|]; [by apply IH| |  |done].
  1,3: destruct rest; [by intros [= <-]|done].
  - done.
  - apply IHl; [by destruct (IsAbs target)|]. apply Forall_app. split; [apply elements_no_slash|done].
Qed.

Lemma EvalSymlinks_clean p real :
  IsAbs p = true -> EvalSymlinks p = Ok real -> IsAbs real = true /\ Clean real = real.
Proof.
  intros _. unfold EvalSymlinks. destruct (walk _ _ _) as [at_|e] eqn:E; [|done].
  intros H. assert (real = render true at_) as -> by congruence.
  apply walk_ordinary in E; [|constructor|apply elements_no_slash]. split; [done|].
  unfold Clean. rewrite IsAbs_render, parts_render by by apply tidy_down. done.
Qed.
(** More links do not change where a walk arrives. *)
Lemma walk_more links more dest rest at_ :
  (links <= more)%nat -> walk links dest rest = Reached at_ -> walk more dest rest = Reached at_.
Proof.
  revert more dest rest. induction links as [|links IHl]; intros more dest rest Hle.
  all: revert dest; induction rest as [|e rest IH]; intros dest.
  1,3: by destruct more.
  all: destruct more as [|more]; [try lia; try done|]; cbn [walk].
  all: destruct (String.eqb e "" || String.eqb e "."); [apply IH|].
  all: destruct (String.eqb e ".."); [apply IH|].
  all: destruct (fs !! (dest ++ [e])) as [[|data|target]|]; try done; try apply IH.
  apply IHl. lia.
Qed.

Lemma opened_EvalSymlinks p at_ : opened p = Some at_ -> EvalSymlinks p = Ok (render true at_) /\ Forall ordinary at_.
Proof.
  unfold opened, EvalSymlinks. destruct (walk 40 _ _) as [a|] eqn:E; [|done]. intros [= <-].
  split; [|eapply walk_ordinary, E; [constructor|apply elements_no_slash]].
  by rewrite (walk_more 40 255 _ _ _ ltac:(lia) E).
Qed.

(** ** Where a validated path leads *)

Lemma parts_rooted_below root at_ : Forall ordinary at_ -> below root (render true at_) <-> parts root `prefix_of` at_.
Proof. intros Ho. unfold below. by rewrite parts_render by by apply tidy_down. Qed.

(** A pattern allows a path: it matches it, or the path is in the directory that
    the pattern is written for, by its name or where that directory really is. *)
Definition pattern_allows (pattern : Regexp) (p : string) : Prop :=
  MatchString pattern p = true \/ exists root, extractAllowedPathRoot pattern = Some root /\ in_directory EvalSymlinks root p.

Lemma extracted_rooted pattern root : extractAllowedPathRoot pattern = Some root -> IsAbs root = true.
Proof.
  unfold extractAllowedPathRoot. destruct (negb _); [done|]. destruct (containsUnescapedRegexMeta _); [done|].
  destruct (unescapeRegexLiteral _) as [u|]; [|done]. destruct (String.eqb u ""); [done|].
  destruct (IsAbs u) eqn:E; [|done]. intros [= <-]. by rewrite IsAbs_Clean.
Qed.

Lemma matches_allowed p patterns : IsAbs p = true -> Clean p = p -> matchesAllowedPath EvalSymlinks p patterns = true ->
  exists pattern, pattern ∈ patterns /\ pattern_allows pattern p.
Proof.
  intros Hp Hc (pattern & Hin & H)%existsb_exists. apply list_elem_of_In in Hin. exists pattern. split; [done|].
  rewrite Hc in H. apply orb_prop in H as [H|H]; [by left|right].
  destruct (extractAllowedPathRoot pattern) as [root|] eqn:Er; [|done]. exists root. split; [done|].
  by apply (isWithinAllowedRoot_spec EvalSymlinks EvalSymlinks_clean); [|eapply extracted_rooted|].
Qed.

Lemma isAllowedPath_allows p dest patterns : IsAbs p = true -> resolvePathAgainstExistingAncestor EvalSymlinks p = Ok dest ->
  isAllowedPath EvalSymlinks p patterns = true -> exists pattern, pattern ∈ patterns /\ pattern_allows pattern (Clean dest).
Proof.
  intros Hp Ed. unfold isAllowedPath. destruct patterns as [|p0 ps]; [done|]. rewrite IsAbs_Clean, Hp. cbn [negb].
  destruct (matchesAllowedPath _ (Clean p) _); [|done]. cbn [negb].
  assert (resolvePathAgainstExistingAncestor EvalSymlinks (Clean p) = Ok dest) as ->.
  { unfold resolvePathAgainstExistingAncestor, search in *. by rewrite Clean_idem. }
  intros Hm. destruct (resolve_Ok EvalSymlinks EvalSymlinks_clean p dest Hp Ed) as (_ & _ & _ & _ & _ & _ & Hd).
  apply (matches_allowed (Clean dest)); [by rewrite IsAbs_Clean | apply Clean_idem |].
  unfold matchesAllowedPath in *. by rewrite Clean_idem.
Qed.

(** C6: A path that is validated for a restricted agent, and is there, leads, once
    the kernel has followed every link, into the real workspace, or to a place
    that one of the allowed patterns itself allows, whatever the patterns are:
    it matches the pattern, or is in the directory that the pattern is written
    for. *)
Theorem validated_paths_stay (Getwd : option string) (path workspace : string) (patterns : list Regexp)
    (q : string) (at_ : list string)
    (Hwd : forall wd, Getwd = Some wd -> IsAbs wd = true)
    (Hok : validatePathWithAllowPaths EvalSymlinks Getwd path workspace true patterns = Ok q)
    (Hopen : opened q = Some at_) :
  (exists w, Abs Getwd workspace = Some w /\ parts (real_workspace EvalSymlinks w) `prefix_of` at_) \/
  (exists pattern, pattern ∈ patterns /\ pattern_allows pattern (render true at_)).
Proof.
  unfold validatePathWithAllowPaths in Hok. destruct (String.eqb workspace ""); [done|].
  destruct (Abs Getwd workspace) as [w|] eqn:Ew; [|done].
  destruct (Abs_rooted _ Hwd _ _ Ew) as [Hw Hcw].
  assert (Hq : exists p, IsAbs p = true /\ Clean p = p /\ check_restricted EvalSymlinks p w patterns = Ok q).
  { destruct (IsAbs path) eqn:Ha.
    - exists (Clean path). by rewrite IsAbs_Clean, Clean_idem.
    - destruct (Abs Getwd (Join [w; path])) as [p|] eqn:Ep; [|done]. exists p.
      by destruct (Abs_rooted _ Hwd _ _ Ep). }
  destruct Hq as (p & Hp & Hc & Hq).
  destruct (opened_EvalSymlinks q at_ Hopen) as [He Ho].
  apply (check_restricted_spec _ EvalSymlinks_clean) in Hq as [-> [Hal|[_ Hin]]]; [| |done..].
  - right. destruct (EvalSymlinks_clean p _ Hp He) as [_ <-]. eapply isAllowedPath_allows; [done| |done].
    by apply resolve_exists; [apply EvalSymlinks_clean|..].
  - left. exists w. split; [done|]. apply parts_rooted_below; [done|]. apply Hin.
    by apply resolve_exists; [apply EvalSymlinks_clean|..].
Qed.
End Walk.

(** A workspace with a link that leads out of it, and a shared directory. *)
Definition demo_tree : gmap (list string) node :=
  <[["work"] := Directory]> (<[["work"; "a.txt"] := File "text"]> (<[["work"; "up"] := Symlink "../secret"]>
  (<[["secret"] := Directory]> (<[["secret"; "key"] := File "k"]> (<[["secret"; "inner"] := Directory]>
  (<[["shared"] := Directory]> (<[["shared"; "link"] := Symlink "/secret/inner"]> ∅))))))).

Definition shared_pattern : Regexp :=
  mkRegexp (allowedDirPattern "/shared") (fun s => String.eqb s "/shared" || HasPrefix s "/shared/").

Lemma shared_directory : directory_pattern "/shared" shared_pattern.
Proof.
  split; [done|]. split; [done|]. intros s [H|H]%orb_prop.
  - left. by apply String.eqb_eq in H.
  - right. apply HasPrefix_spec in H as [t ->]. by exists t.
Qed.

(** Where a symbolic link goes up and out, the path is refused; otherwise the
    theorem says where it leads. *)
Lemma validated_paths_stay_witness :
  validatePathWithAllowPaths (EvalSymlinks demo_tree) None "up/key" "/work" true [shared_pattern] =
    Err symlink_outside /\
  ((exists w, Abs None "/work" = Some w /\ parts (real_workspace (EvalSymlinks demo_tree) w) `prefix_of` ["work"; "a.txt"]) \/
   (exists pattern, pattern ∈ [shared_pattern] /\ pattern_allows demo_tree pattern "/work/a.txt")).
Proof.
  split; [vm_compute; reflexivity|].
  apply (validated_paths_stay demo_tree None "./x/../a.txt" "/work" [shared_pattern] "/work/a.txt" ["work"; "a.txt"]).
  - discriminate.
  - vm_compute. reflexivity.
  - vm_compute. reflexivity.
Defined.

