(* ===== verification/FileTools.v ===== *)
(** * Files for the agent: [src/pkg/tools/filesystem.go], [edit.go]

    A file system is a record of operations over a world [W]: the host's, the
    sandbox of a workspace ([os.Root]), or the host's for allowed paths and the
    sandbox for the others. The tools are the same for all of them. *)

From S2P Require Import Prelude GoStrings GoLib.
Import GoFloat Utf8.
From S2P Require Import GoPath PathPolicy Hooks ToolArgs.

Record file_error : Type := mkError { is_not_exist : bool; error_text : string }.

(** An open file. A file that is no [io.Seeker] cannot go back; [Seek] to an
    offset can fail. [first_read] is how much the first read of 512 bytes gives. *)
Inductive seeking : Type := NoSeeker | Seeker (fails : Z -> option string).

Record file : Type := mkFile {
  data : list ascii;
  stat_size : option Z;
  stat_dir : bool;
  seeker : seeking;
  first_read : nat;
  read_error : option string
}.

Record fileSystem (W : Type) : Type := mkFileSystem {
  ReadFile : string -> W -> result file_error string;
  WriteFile : string -> string -> W -> W * option file_error;
  ReadDir : string -> W -> result file_error (list (string * bool));
  Open : string -> W -> result file_error file
}.
Arguments mkFileSystem {W}.
Arguments ReadFile {W}.
Arguments WriteFile {W}.
Arguments ReadDir {W}.
Arguments Open {W}.

(** ** The three file systems *)

Inductive os_error : Type := OsNotExist (t : string) | OsPermission (t : string) | OsOther (t : string).

Definition os_text (e : os_error) : string := match e with OsNotExist t | OsPermission t | OsOther t => t end.

Definition host_error (action : string) (e : os_error) : file_error :=
  match e with
  | OsNotExist t => mkError true ("failed to " +:+ action +:+ " file: file not found: " +:+ t)
  | OsPermission t => mkError false ("failed to " +:+ action +:+ " file: access denied: " +:+ t)
  | OsOther t => mkError false ("failed to " +:+ action +:+ " file: " +:+ t)
  end.

Definition sandbox_error (action : string) (e : os_error) : file_error :=
  match e with
  | OsOther t =>
      if Contains t "escapes from parent" || Contains t "permission denied"
      then mkError false ("failed to " +:+ action +:+ " file: access denied: " +:+ t)
      else host_error action e
  | _ => host_error action e
  end.

Definition plain_error (e : os_error) : file_error :=
  mkError (match e with OsNotExist _ => true | _ => false end) (os_text e).

Definition map_err {A} (f : os_error -> file_error) (r : result os_error A) : result file_error A :=
  match r with Ok a => Ok a | Err e => Err (f e) end.

Section FileSystems.
Context {W : Type}.

(** Package [os], and [fileutil.WriteFileAtomic]. *)
Record host_os : Type := mkHostOs {
  os_ReadFile : string -> W -> result os_error string;
  os_WriteFileAtomic : string -> string -> W -> W * option file_error;
  os_ReadDir : string -> W -> result os_error (list (string * bool));
  os_Open : string -> W -> result os_error file
}.

Definition hostFs (os : host_os) : fileSystem W :=
  mkFileSystem
    (fun path w => map_err (host_error "read") (os_ReadFile os path w))
    (fun path content w => os_WriteFileAtomic os path content w)
    (fun path w => map_err plain_error (os_ReadDir os path w))
    (fun path w => map_err (host_error "open") (os_Open os path w)).

(** An [os.Root], for paths relative to it. A temporary file has a name of its
    own: the process, and the time. *)
Record root : Type := mkRoot {
  root_ReadFile : string -> W -> result os_error string;
  root_MkdirAll : string -> W -> W * option os_error;
  root_Create : string -> W -> W * option os_error;                  (* O_CREATE|O_EXCL *)
  root_Write : string -> string -> W -> W * option os_error;
  root_Sync : string -> W -> W * option os_error;
  root_Close : string -> W -> W * option os_error;
  root_Rename : string -> string -> W -> W * option os_error;
  root_Remove : string -> W -> W;
  root_SyncDir : W -> W;
  root_ReadDir : string -> W -> result os_error (list (string * bool));
  root_Open : string -> W -> result os_error file
}.

Context (OpenRoot : string -> W -> result os_error root) (temp_name : W -> string).

Definition rel_error_text (path : string) (e : rel_error) : file_error :=
  match e with
  | NoWorkspace => mkError false "workspace is not defined"
  | NoRelative => mkError false "failed to calculate relative path: Rel: can't make relative"
  | Escapes => mkError false ("path escapes workspace: " +:+ path)
  end.

(** What is done with the root and the relative path. *)
Definition execute {A} (workspace path : string) (w : W) (fn : root -> string -> result file_error A) : result file_error A :=
  if String.eqb workspace "" then Err (mkError false "workspace is not defined")
  else
    match OpenRoot workspace w with
    | Err e => Err (mkError (is_not_exist (plain_error e)) ("failed to open workspace: " +:+ os_text e))
    | Ok r =>
        match getSafeRelPath workspace path with
        | Err e => Err (rel_error_text path e)
        | Ok relPath => fn r relPath
        end
    end.

(** One step of writing: when it fails, the temporary file is closed, where it
    is open, and removed. *)
Definition step (r : root) (tmp prefix : string) (is_open : bool) (op : W * option os_error)
    (k : W -> W * option file_error) : W * option file_error :=
  match op with
  | (w, None) => k w
  | (w, Some e) =>
      (root_Remove r tmp (if is_open then fst (root_Close r tmp w) else w), Some (mkError (is_not_exist (plain_error e)) (prefix +:+ ": " +:+ os_text e)))
  end.

Definition write_atomic (r : root) (relPath content : string) (w : W) : W * option file_error :=
  let tmpRelPath := temp_name w in
  step r tmpRelPath "failed to open temp file" false (root_Create r tmpRelPath w) (fun w =>
  step r tmpRelPath "failed to write temp file" true (root_Write r tmpRelPath content w) (fun w =>
  step r tmpRelPath "failed to sync temp file" true (root_Sync r tmpRelPath w) (fun w =>
  step r tmpRelPath "failed to close temp file" false (root_Close r tmpRelPath w) (fun w =>
  step r tmpRelPath "failed to rename temp file over target" false (root_Rename r tmpRelPath relPath w) (fun w =>
  (root_SyncDir r w, None)))))).

Definition write_in_root (r : root) (relPath content : string) (w : W) : W * option file_error :=
  let dir := Dir relPath in
  if negb (String.eqb dir ".") && negb (String.eqb dir "/") then
    match root_MkdirAll r dir w with
    | (w, Some e) => (w, Some (mkError (is_not_exist (plain_error e)) ("failed to create parent directories: " +:+ os_text e)))
    | (w, None) => write_atomic r relPath content w
    end
  else write_atomic r relPath content w.

Definition sandboxFs (workspace : string) : fileSystem W :=
  mkFileSystem
    (fun path w => execute workspace path w (fun r rel => map_err (sandbox_error "read") (root_ReadFile r rel w)))
    (fun path content w =>
       match execute workspace path w (fun r rel => Ok (write_in_root r rel content w)) with
       | Ok written => written
       | Err e => (w, Some e)
       end)
    (fun path w => execute workspace path w (fun r rel => map_err plain_error (root_ReadDir r rel w)))
    (fun path w => execute workspace path w (fun r rel => map_err (sandbox_error "open") (root_Open r rel w))).

(** The patterns decide, in the file system as it is. *)
Context (EvalSymlinks : W -> string -> result fs_error string).

Definition whitelistFs (sandbox host : fileSystem W) (patterns : list Regexp) : fileSystem W :=
  let pick path w := if isAllowedPath (EvalSymlinks w) path patterns then host else sandbox in
  mkFileSystem
    (fun path w => ReadFile (pick path w) path w)
    (fun path content w => WriteFile (pick path w) path content w)
    (fun path w => ReadDir (pick path w) path w)
    (fun path w => Open (pick path w) path w).

Definition buildFs (os : host_os) (workspace : string) (restrict : bool) (patterns : list Regexp) : fileSystem W :=
  if negb restrict then hostFs os
  else match patterns with
       | [] => sandboxFs workspace
       | _ => whitelistFs (sandboxFs workspace) (hostFs os) patterns
       end.
End FileSystems.
Arguments host_os : clear implicits.
Arguments root : clear implicits.

(** ** Editing and writing *)

(** [strings.Count], also of the empty text. *)
Definition CountAll (s p : string) : Z := if String.eqb p "" then RuneCount s + 1 else Count s p.

(** [strings.Replace(s, old, new, 1)] *)
Definition ReplaceFirst (s old new : string) : string :=
  match Index s old with
  | Some i => slice_to s i +:+ new +:+ slice_from s (i + length (chars old))
  | None => s
  end.

Definition edit_error (text : string) : file_error := mkError false text.

Definition replaceEditContent (content oldText newText : string) : result file_error string :=
  if negb (Contains content oldText)
  then Err (edit_error "old_text not found in file. Make sure it matches exactly")
  else
    let count := CountAll content oldText in
    if 1 <? count
    then Err (edit_error ("old_text appears " +:+ itoa count +:+ " times. Please provide more context to make it unique"))
    else Ok (ReplaceFirst content oldText newText).

Definition arg (args : fields) (key : string) : option string :=
  match lookup_field args key with Some (VString s) => Some s | _ => None end.

Section Tools.
Context {W : Type} (fs : fileSystem W).

Definition editFile (path oldText newText : string) (w : W) : W * option file_error :=
  match ReadFile fs path w with
  | Err e => (w, Some e)
  | Ok content =>
      match replaceEditContent content oldText newText with
      | Err e => (w, Some e)
      | Ok newContent => WriteFile fs path newContent w
      end
  end.

Definition appendFile (path appendContent : string) (w : W) : W * option file_error :=
  match ReadFile fs path w with
  | Err e => if is_not_exist e then WriteFile fs path appendContent w else (w, Some e)
  | Ok content => WriteFile fs path (content +:+ appendContent) w
  end.

Definition report (done : string) (r : W * option file_error) : W * ToolResult :=
  match r with
  | (w, Some e) => (w, ErrorResult (error_text e))
  | (w, None) => (w, SilentResult done)
  end.

Definition EditFile_Execute (args : fields) (w : W) : W * ToolResult :=
  match arg args "path" with
  | None => (w, ErrorResult "path is required")
  | Some path =>
      match arg args "old_text" with
      | None => (w, ErrorResult "old_text is required")
      | Some oldText =>
          match arg args "new_text" with
          | None => (w, ErrorResult "new_text is required")
          | Some newText => report ("File edited: " +:+ path) (editFile path oldText newText w)
          end
      end
  end.

Definition AppendFile_Execute (args : fields) (w : W) : W * ToolResult :=
  match arg args "path" with
  | None => (w, ErrorResult "path is required")
  | Some path =>
      match arg args "content" with
      | None => (w, ErrorResult "content is required")
      | Some content => report ("Appended to " +:+ path) (appendFile path content w)
      end
  end.

Definition overwrite (args : fields) : bool :=
  match lookup_field args "overwrite" with Some (VBool b) => b | _ => false end.

Definition WriteFile_Execute (args : fields) (w : W) : W * ToolResult :=
  match arg args "path" with
  | None => (w, ErrorResult "path is required")
  | Some path =>
      match arg args "content" with
      | None => (w, ErrorResult "content is required")
      | Some content =>
          if negb (overwrite args) && is_ok (Open fs path w)
          then (w, ErrorResult ("file: " +:+ path +:+ " already exists. Set overwrite=true to replace."))
          else report ("File written: " +:+ path) (WriteFile fs path content w)
      end
  end.

Definition formatDirEntries (entries : list (string * bool)) : ToolResult :=
  NewToolResult (foldr (fun e rest => (if snd e : bool then "DIR:  " else "FILE: ") +:+ fst e +:+ nl +:+ rest) "" entries).

Definition ListDir_Execute (args : fields) (w : W) : ToolResult :=
  let path := match arg args "path" with Some p => p | None => "." end in
  match ReadDir fs path w with
  | Err e => ErrorResult ("failed to read directory: " +:+ error_text e)
  | Ok entries => formatDirEntries entries
  end.
End Tools.

(** ** [read_file] by bytes *)

(** [strconv.ParseInt(s, 10, 64)] *)
Inductive parse_error : Type := SyntaxError | RangeError.

Fixpoint parse_uint (n : Z) (l : list ascii) : result parse_error Z :=
  match l with
  | [] => Ok n
  | c :: l' =>
      if is_digit c then
        let n := n * 10 + (code c - 48) in
        if 2 ^ 64 <=? n then Err RangeError else parse_uint n l'
      else Err SyntaxError
  end.

Definition ParseInt (s : string) : result parse_error Z :=
  let '(neg, l) := match chars s with
                   | "+"%char :: l => (false, l)
                   | "-"%char :: l => (true, l)
                   | l => (false, l)
                   end in
  match l with
  | [] => Err SyntaxError
  | _ =>
      match parse_uint 0 l with
      | Err e => Err e
      | Ok un =>
          if negb neg && (2 ^ 63 <=? un) then Err RangeError
          else if neg && (2 ^ 63 <? un) then Err RangeError
          else Ok (if neg then - un else un)
      end
  end.

Definition MaxReadFileSize : Z := 64 * 1024.

Section Read.
(** [%v] of a float64, [strconv.Quote], and the conversion of a float64 that
    is an integer out of the range of int64, which Go leaves to the machine. *)
Context (show_float : float64 -> string) (quote : string -> string) (out_of_range : float64 -> Z).

Definition float_to_int64 (f : float64) : Z :=
  let z := float_to_Z f in if (int64_min <=? z) && (z <=? int64_max) then z else out_of_range f.

(** [math.MaxInt64] as a float64 is 2^63. *)
Definition getInt64Arg (args : fields) (key : string) (defaultVal : Z) : result string Z :=
  match lookup_field args key with
  | None => Ok defaultVal
  | Some (VFloat v) =>
      if has_fraction v then Err (key +:+ " must be an integer, got float " +:+ show_float v)
      else if fltb (float_of_Z int64_max) v || fltb v (float_of_Z int64_min)
      then Err (key +:+ " value " +:+ show_float v +:+ " overflows int64")
      else Ok (float_to_int64 v)
  | Some (VInt v) => Ok v
  | Some (VInt64 v) => Ok v
  | Some (VString v) =>
      match ParseInt v with
      | Ok n => Ok n
      | Err e => Err ("invalid integer format for " +:+ key +:+ " parameter: strconv.ParseInt: parsing " +:+ quote v +:+ ": " +:+
                      match e with SyntaxError => "invalid syntax" | RangeError => "value out of range" end)
      end
  | Some raw => Err ("unsupported type " +:+ type_name raw +:+ " for " +:+ key +:+ " parameter")
  end.

Context {W : Type} (fs : fileSystem W).

(** What [NewReadFileTool] makes of the configured size. *)
Definition max_size (maxReadFileSize : Z) : Z := if maxReadFileSize <=? 0 then MaxReadFileSize else maxReadFileSize.

(** The first read, at most 512 bytes. *)
Definition sniffed (f : file) : nat := Nat.min (first_read f) (Nat.min 512 (length (data f))).

(** The bytes from [offset] on, as they can be read after the first read. *)
Definition seek_to (f : file) (offset : Z) : result string (list ascii) :=
  match seeker f with
  | Seeker fails =>
      match fails 0, fails offset with
      | Some text, _ => Err ("failed to reset file position after sniff: " +:+ text)
      | None, Some text => Err ("failed to seek to offset " +:+ itoa offset +:+ ": " +:+ text)
      | None, None => Ok (drop (Z.to_nat offset) (data f))
      end
  | NoSeeker =>
      let sniffN := Z.of_nat (sniffed f) in
      if (offset <? sniffN) && (0 <? offset)
      then Err "non-seekable file: cannot seek to an offset within the first 512 bytes after binary detection"
      else
        let rest := drop (sniffed f) (data f) in
        if 0 <? offset - sniffN then
          if Z.of_nat (length rest) <? offset - sniffN
          then Err ("failed to advance to offset " +:+ itoa offset +:+ ": EOF")
          else Ok (drop (Z.to_nat (offset - sniffN)) rest)
        else Ok rest
  end.

Definition read_header (path : string) (f : file) (offset : Z) (n : Z) (hasMore : bool) : string :=
  let readEnd := offset + n in
  let readRange := "bytes " +:+ itoa offset +:+ "-" +:+ itoa (readEnd - 1) in
  (match stat_size f with
   | Some total => "[file: " +:+ Base path +:+ " | total: " +:+ itoa total +:+ " bytes | read: " +:+ readRange +:+ "]"
   | None => "[file: " +:+ Base path +:+ " | read: " +:+ readRange +:+ " | total size unknown]"
   end) +:+
  (if hasMore
   then nl +:+ "[TRUNCATED - file has more content. Call read_file again with offset=" +:+ itoa readEnd +:+ " to continue.]"
   else nl +:+ "[END OF FILE - no further content.]").

(** The bytes that are read: at most [length], and whether there are more. *)
Definition read_page (f : file) (offset length_ : Z) : result string (list ascii * bool) :=
  match seek_to f offset with
  | Err text => Err text
  | Ok rest =>
      match read_error f with
      | Some text => Err ("failed to read file content: " +:+ text)
      | None =>
          let probe := take (Z.to_nat (length_ + 1)) rest in
          Ok (take (Z.to_nat length_) probe, length_ <? Z.of_nat (length probe))
      end
  end.

Definition ReadFile_Execute (maxSize : Z) (args : fields) (w : W) : ToolResult :=
  match arg args "path" with
  | None => ErrorResult "path is required"
  | Some path =>
      match getInt64Arg args "offset" 0 with
      | Err text => ErrorResult text
      | Ok offset =>
          if offset <? 0 then ErrorResult "offset must be >= 0"
          else
            match getInt64Arg args "length" maxSize with
            | Err text => ErrorResult text
            | Ok length_ =>
                if length_ <=? 0 then ErrorResult "length must be > 0"
                else
                  let length_ := if maxSize <? length_ then maxSize else length_ in
                  match Open fs path w with
                  | Err e => ErrorResult (error_text e)
                  | Ok f =>
                      match read_page f offset length_ with
                      | Err text => ErrorResult text
                      | Ok ([], _) => NewToolResult "[END OF FILE - no content at this offset]"
                      | Ok (page, hasMore) =>
                          NewToolResult (read_header path f offset (Z.of_nat (length page)) hasMore +:+ nl +:+ nl +:+ implode page)
                      end
                  end
            end
      end
  end.
End Read.

(** ** An edit replaces the one occurrence *)

Lemma l_count_nonneg p k l : 0 <= l_count p k l.
Proof.
  revert k. induction l as [|c l IH]; intros k; cbn [l_count]; [lia|].
  destruct k as [|k]; [|apply IH]. destruct (l_prefix p (c :: l)); [|apply IH]. specialize (IH (length p - 1)%nat). lia.
Qed.

Lemma l_count_skip p k l : (k <= length l)%nat -> l_count p k l = l_count p 0 (drop k l).
Proof. revert k. induction l as [|c l IH]; intros k Hk; destruct k as [|k]; cbn in *; try done. apply IH. lia. Qed.

(** The first occurrence, and how many there are after it. *)
Lemma l_count_first p l : p <> [] ->
  match l_index p l with
  | Some i => l_count p 0 l = 1 + l_count p 0 (drop (i + length p) l)
  | None => l_count p 0 l = 0
  end.
Proof.
  intros Hp. induction l as [|c l IH]; [by destruct p|]. cbn [l_index l_count].
  destruct (l_prefix p (c :: l)) eqn:E.
  - apply l_prefix_spec in E as [r Er]. rewrite l_count_skip.
    + destruct p as [|d p]; [done|]. cbn [length Nat.add drop]. by rewrite Nat.sub_succ, Nat.sub_0_r.
    + apply (f_equal length) in Er. rewrite length_app in Er. cbn in Er. lia.
  - destruct (l_index p l) as [i|]; cbn; done.
Qed.

(** No occurrence is before the first. *)
Lemma l_index_first p l i a b : l_index p l = Some i -> l = a ++ p ++ b -> (i <= length a)%nat.
Proof.
  revert i a. induction l as [|c l IH]; intros i a; cbn [l_index].
  - destruct (l_prefix p []); [intros [= <-]; lia|done].
  - destruct (l_prefix p (c :: l)) eqn:E; [intros [= <-]; lia|].
    destruct (l_index p l) as [j|] eqn:Ej; [|done]. intros [= <-] El. destruct a as [|d a].
    + assert (l_prefix p (c :: l) = true) by (apply l_prefix_spec; eauto). congruence.
    + injection El as _ El. specialize (IH j a eq_refl El). cbn. lia.
Qed.

(** Where the text occurs. *)
Definition occurs_at (s p : string) (i : nat) : Prop :=
  exists a b, s = a +:+ p +:+ b /\ length (chars a) = i.

Lemma occurs_at_chars s p i :
  occurs_at s p i <-> exists a b, chars s = a ++ chars p ++ b /\ length a = i.
Proof.
  split.
  - intros (a & b & -> & <-). exists (chars a), (chars b). by rewrite !chars_app.
  - intros (a & b & E & <-). exists (implode a), (implode b). rewrite chars_implode. split; [|done].
    apply chars_inj. by rewrite !chars_app, !chars_implode.
Qed.

Lemma count_two p l i :
  p <> [] -> l_index p l = Some i ->
  1 < l_count p 0 l <-> exists a b, l = a ++ p ++ b /\ (i + length p <= length a)%nat.
Proof.
  intros Hp Hi. pose proof (l_count_first p l Hp) as Hc. rewrite Hi in Hc. rewrite Hc. clear Hc.
  apply l_index_Some in Hi as (a0 & b0 & -> & <-).
  assert (Ed : drop (length a0 + length p) (a0 ++ p ++ b0) = b0).
  { rewrite app_assoc. rewrite <- length_app. apply drop_app_length. }
  rewrite Ed. pose proof (l_count_first p b0 Hp) as Hb. pose proof (l_count_nonneg p 0 b0). split.
  - intros Hgt. destruct (l_index p b0) as [j|] eqn:Ej; [|lia].
    apply l_index_Some in Ej as (a & b & -> & <-). exists (a0 ++ p ++ a), b. split; [by rewrite <- !app_assoc|].
    rewrite !length_app. lia.
  - intros (a & b & E & Hle). destruct (l_index p b0) as [j|] eqn:Ej.
    + pose proof (l_count_nonneg p 0 (drop (j + length p) b0)). lia.
    + exfalso. apply (l_index_None _ _ (drop (length a0 + length p) a) b) in Ej. apply Ej.
      rewrite <- Ed, E. apply drop_app_le. lia.
Qed.

Lemma replaceEditContent_spec content oldText newText (Hold : oldText <> "") :
  match replaceEditContent content oldText newText with
  | Ok newContent =>
      exists a b, content = a +:+ oldText +:+ b /\ newContent = a +:+ newText +:+ b /\
        forall i, occurs_at content oldText i -> (len a <= Z.of_nat i < len a + len oldText)%Z
  | Err e =>
      (forall i, ~ occurs_at content oldText i) \/
      exists i j, occurs_at content oldText i /\ occurs_at content oldText j /\ (i + length (chars oldText) <= j)%nat
  end.
Proof.
  unfold replaceEditContent, CountAll, Count, ReplaceFirst, Contains, Index.
  rewrite (proj2 (String.eqb_neq _ _) Hold). assert (Hp : chars oldText <> []) by by intros ?%chars_nil.
  destruct (l_index (chars oldText) (chars content)) as [i|] eqn:Ei; cbn [negb].
  - pose proof (count_two _ _ _ Hp Ei) as Htwo. destruct (Z.ltb_spec 1 (l_count (chars oldText) 0 (chars content))) as [Hc|Hc].
    + right. apply Htwo in Hc as (a & b & E & Hle). exists i, (length a). rewrite !occurs_at_chars.
      split; [by apply l_index_Some in Ei|]. split; [by exists a, b|done].
    + pose proof (l_index_Some _ _ _ Ei) as (a & b & E & Ha).
      exists (implode a), (implode b). split; [|split].
      * apply chars_inj. by rewrite !chars_app, !chars_implode.
      * unfold slice_to, slice_from. rewrite E, <- Ha, take_app_length, app_assoc, <- length_app, drop_app_length. done.
      * intros j (a' & b' & E' & <-)%occurs_at_chars. unfold len. rewrite chars_implode, Ha.
        pose proof (l_index_first _ _ _ _ _ Ei E'). split; [lia|].
        assert (~ (i + length (chars oldText) <= length a')%nat); [|lia]. intros Hle. apply Z.le_ngt in Hc. apply Hc, Htwo. eauto.
  - left. intros i (a & b & E & _)%occurs_at_chars. by apply (l_index_None _ _ a b) in Ei.
Qed.

(** ** An edited file has the new text *)

(** What a file system that keeps what is written promises. *)
Class KeepsWrites {W} (fs : fileSystem W) : Prop :=
  read_written path content w w' : WriteFile fs path content w = (w', None) -> ReadFile fs path w' = Ok content.

Section Edits.
Context {W : Type} (fs : fileSystem W) `{!KeepsWrites fs}.

(** Either the tool says it failed, and what failed was the writing or nothing
    has changed; or the file had the text in one place and now has the new
    text there. *)
Lemma EditFile_Execute_spec args w w' r :
  EditFile_Execute fs args w = (w', r) ->
  if IsError r then
    w' = w \/ exists path content e, WriteFile fs path content w = (w', Some e)
  else
    exists path oldText newText, arg args "path" = Some path /\ arg args "old_text" = Some oldText /\
      arg args "new_text" = Some newText /\
      exists content content', ReadFile fs path w = Ok content /\ ReadFile fs path w' = Ok content' /\
        replaceEditContent content oldText newText = Ok content'.
Proof.
  unfold EditFile_Execute. destruct (arg args "path") as [path|] eqn:E1; [|intros [= <- <-]; by left].
  destruct (arg args "old_text") as [o|] eqn:E2; [|intros [= <- <-]; by left].
  destruct (arg args "new_text") as [n|] eqn:E3; [|intros [= <- <-]; by left].
  unfold editFile. destruct (ReadFile fs path w) as [content|e] eqn:Er; [|intros [= <- <-]; by left].
  destruct (replaceEditContent content o n) as [c'|e] eqn:Ec; [|intros [= <- <-]; by left].
  destruct (WriteFile fs path c' w) as [w1 [e|]] eqn:Ew; intros [= <- <-]; cbn.
  - right. eauto.
  - exists path, o, n. split_and!; [done..|]. exists content, c'. split_and!; [done| |done]. by eapply read_written.
Qed.

Lemma AppendFile_Execute_spec args w w' r :
  AppendFile_Execute fs args w = (w', r) -> IsError r = false ->
  exists path content, arg args "path" = Some path /\ arg args "content" = Some content /\
    ReadFile fs path w' =
      Ok (match ReadFile fs path w with Ok old => old +:+ content | Err _ => content end) /\
    match ReadFile fs path w with Ok _ => True | Err e => is_not_exist e = true end.
Proof.
  unfold AppendFile_Execute. destruct (arg args "path") as [path|] eqn:E1; [|by intros [= <- <-]].
  destruct (arg args "content") as [c|] eqn:E2; [|by intros [= <- <-]].
  unfold appendFile. destruct (ReadFile fs path w) as [old|e] eqn:Er.
  - destruct (WriteFile fs path _ w) as [w1 [e|]] eqn:Ew; intros [= <- <-] Hr; [done|].
    exists path, c. rewrite Er. split_and!; [done..| |done]. by eapply read_written.
  - destruct (is_not_exist e) eqn:En; [|by intros [= <- <-]].
    destruct (WriteFile fs path _ w) as [w1 [e'|]] eqn:Ew; intros [= <- <-] Hr; [done|].
    exists path, c. rewrite Er. split_and!; [done..| |done]. by eapply read_written.
Qed.

(** Without [overwrite], a file that can be opened is not written. *)
Lemma WriteFile_Execute_keeps args w w' r path :
  WriteFile_Execute fs args w = (w', r) -> arg args "path" = Some path ->
  overwrite args = false -> is_ok (Open fs path w) = true -> w' = w /\ IsError r = true.
Proof.
  unfold WriteFile_Execute. intros H Hp Ho Hopen. rewrite Hp in H.
  destruct (arg args "content"); [|by injection H as <- <-]. rewrite Ho, Hopen in H. by injection H as <- <-.
Qed.
End Edits.

(** ** Writing in the sandbox is all or nothing *)

Section Atomic.
Context {W : Type} (r : root W) (temp_name : W -> string).
(** The laws speak of directory entries, since with links in the tree many paths
    can lead to one. [entry w p]: the entry that a path of the root leads to,
    the last element not followed if it is a link; [here name]: the entry of
    that name in the directory of the root itself; [content w e]: what the
    regular file at an entry holds, if there is one; [mine w name]: the file was
    made by [O_EXCL] and has not been written. A temporary file that was made
    is no link to another, operations on it change nothing else, and renaming
    puts what it holds where the target leads. Nobody else writes. *)
Context {E : Type} (entry : W -> string -> option E) (here : string -> E) (content : W -> E -> option string)
  (mine : W -> string -> Prop).

Record root_laws : Prop := mkRootLaws {
  law_create v w e : e <> here (temp_name v) -> content (fst (root_Create r (temp_name v) w)) e = content w e;
  law_created v w w' : root_Create r (temp_name v) w = (w', None) -> mine w' (temp_name v);
  law_write v d w e : mine w (temp_name v) -> e <> here (temp_name v) ->
    content (fst (root_Write r (temp_name v) d w)) e = content w e;
  law_written v d w w' : mine w (temp_name v) -> root_Write r (temp_name v) d w = (w', None) ->
    content w' (here (temp_name v)) = Some d;
  law_sync v w e : content (fst (root_Sync r (temp_name v) w)) e = content w e;
  law_close v w e : content (fst (root_Close r (temp_name v) w)) e = content w e;
  law_rename_fails v p w w' x e : root_Rename r (temp_name v) p w = (w', Some x) -> content w' e = content w e;
  law_rename v p w w' : root_Rename r (temp_name v) p w = (w', None) ->
    exists t, entry w' p = Some t /\ content w' t = content w (here (temp_name v)) /\
      forall e, e <> here (temp_name v) -> e <> t -> content w' e = content w e;
  law_remove v w e : e <> here (temp_name v) -> content (root_Remove r (temp_name v) w) e = content w e;
  law_sync_dir w e p : content (root_SyncDir r w) e = content w e /\ entry (root_SyncDir r w) p = entry w p;
  law_mkdir d w e : content (fst (root_MkdirAll r d w)) e = content w e
}.

Context (laws : root_laws).

(** All entries but that of the temporary file [tmp] hold what they held. *)
Definition same_but (tmp : string) (w w' : W) : Prop := forall e, e <> here tmp -> content w' e = content w e.

(** When a step fails, other files are as they were before. *)
Lemma step_fails v prefix is_open op k w0 w' x :
  same_but (temp_name v) w0 (fst op) ->
  step r (temp_name v) prefix is_open op k = (w', x) ->
  (snd op = None /\ k (fst op) = (w', x)) \/ (is_Some x /\ same_but (temp_name v) w0 w').
Proof.
  intros Hop H. destruct op as [w [y|]]; cbn in *; [|by left]. injection H as <- <-. right.
  split; [done|]. intros e He. rewrite (law_remove laws) by done.
  destruct is_open; [rewrite (law_close laws)|]; by apply Hop.
Qed.

Definition all_or_nothing (relPath new : string) (w w' : W) (x : option file_error) (tmp : string) : Prop :=
  match x with
  | Some _ => same_but tmp w w'
  | None => exists t, entry w' relPath = Some t /\ content w' t = Some new /\
      forall e, e <> here tmp -> e <> t -> content w' e = content w e
  end.

Lemma write_atomic_spec relPath new w w' x :
  write_atomic temp_name r relPath new w = (w', x) -> all_or_nothing relPath new w w' x (temp_name w).
Proof.
  unfold write_atomic. intros H.
  assert (Hfail : forall x, is_Some x /\ same_but (temp_name w) w w' -> all_or_nothing relPath new w w' x (temp_name w)).
  { intros ? [[y ->] Hy]. exact Hy. }
  assert (G1 : same_but (temp_name w) w (fst (root_Create r (temp_name w) w))) by (intros q Hq; by apply law_create).
  apply (step_fails w _ _ _ _ w) in H as [[E1 H]|?]; [|by apply Hfail|done].
  assert (Hm : mine (fst (root_Create r (temp_name w) w)) (temp_name w)).
  { eapply (law_created laws). by rewrite (surjective_pairing (root_Create r (temp_name w) w)), E1. }
  set (w1 := fst (root_Create r (temp_name w) w)) in *.
  assert (G2 : same_but (temp_name w) w (fst (root_Write r (temp_name w) new w1))).
  { intros q Hq. rewrite (law_write laws) by done. by apply G1. }
  apply (step_fails w _ _ _ _ w) in H as [[E2 H]|?]; [|by apply Hfail|done].
  assert (Hw : content (fst (root_Write r (temp_name w) new w1)) (here (temp_name w)) = Some new).
  { eapply (law_written laws); [exact Hm|]. by rewrite (surjective_pairing (root_Write r (temp_name w) new w1)), E2. }
  set (w2 := fst (root_Write r (temp_name w) new w1)) in *.
  apply (step_fails w _ _ _ _ w) in H as [[E3 H]|?];
    [|by apply Hfail|intros q Hq; rewrite (law_sync laws); by apply G2].
  apply (step_fails w _ _ _ _ w) in H as [[E4 H]|?];
    [|by apply Hfail|intros q Hq; rewrite (law_close laws), (law_sync laws); by apply G2].
  set (w4 := fst (root_Close r (temp_name w) _)) in *.
  assert (G4 : forall q, content w4 q = content w2 q) by (intros q; unfold w4; by rewrite (law_close laws), (law_sync laws)).
  destruct (root_Rename r (temp_name w) relPath w4) as [w5 [y|]] eqn:E5; cbn in H; injection H as <- <-; cbn.
  - intros q Hq. rewrite (law_remove laws), (law_rename_fails laws _ _ _ _ _ q E5), G4 by done. by apply G2.
  - destruct (law_rename laws _ _ _ _ E5) as (t & H1 & H2 & H3). exists t.
    rewrite (proj2 (law_sync_dir laws w5 t relPath)), (proj1 (law_sync_dir laws w5 t relPath)), H2, G4.
    split_and!; [done..|]. intros q Hq Ht. rewrite (proj1 (law_sync_dir laws w5 q relPath)), H3, G4 by done. by apply G2.
Qed.

Lemma write_in_root_spec relPath new w w' x :
  write_in_root temp_name r relPath new w = (w', x) -> exists v, all_or_nothing relPath new w w' x (temp_name v).
Proof.
  unfold write_in_root. intros H.
  destruct (negb _ && negb _); [|exists w; by apply write_atomic_spec].
  pose proof (law_mkdir laws (Dir relPath) w) as Em.
  destruct (root_MkdirAll r (Dir relPath) w) as [w1 [y|]]; cbn in *; [exists w; injection H as <- <-; intros q _; apply Em|].
  exists w1. apply write_atomic_spec in H. unfold all_or_nothing in *. destruct x.
  - intros q Hq. rewrite <- Em. by apply H.
  - destruct H as (t & H1 & H2 & H3). exists t. split_and!; [done..|]. intros q Hq Ht. rewrite <- Em. by apply H3.
Qed.
End Atomic.

(** ** Reading page by page *)

(** The pages of a file, as the hints say to ask for them. *)
Fixpoint pages (fuel : nat) (f : file) (offset length_ : Z) : list ascii :=
  match fuel with
  | O => []
  | S fuel' =>
      match read_page f offset length_ with
      | Ok (page, hasMore) =>
          page ++ if (hasMore : bool) then pages fuel' f (offset + Z.of_nat (length page)) length_ else []
      | Err _ => []
      end
  end.

(** A file that can be read and sought in. *)
Definition regular (f : file) : Prop := seeker f = Seeker (fun _ => None) /\ read_error f = None.

Lemma read_page_regular f offset length_ : regular f -> 0 <= offset -> 0 < length_ ->
  let rest := drop (Z.to_nat offset) (data f) in
  read_page f offset length_ = Ok (take (Z.to_nat length_) rest, length_ <? Z.of_nat (length rest)).
Proof.
  intros [Hs Hr] Ho Hl rest. unfold read_page, seek_to. rewrite Hs, Hr. fold rest.
  rewrite take_take, Nat.min_l by lia. f_equal. f_equal. rewrite length_take.
  destruct (Z.ltb_spec length_ (Z.of_nat (length rest))), (Z.ltb_spec length_ (Z.of_nat (Nat.min (Z.to_nat (length_ + 1)) (length rest)))); lia.
Qed.

Lemma pages_cover f length_ : regular f -> 0 < length_ ->
  forall fuel offset, 0 <= offset -> (length (drop (Z.to_nat offset) (data f)) < fuel)%nat ->
  pages fuel f offset length_ = drop (Z.to_nat offset) (data f).
Proof.
  intros Hf Hl fuel. induction fuel as [|fuel IH]; intros offset Ho Hfuel; [lia|]. cbn [pages].
  rewrite read_page_regular by done. set (rest := drop (Z.to_nat offset) (data f)) in *.
  destruct (Z.ltb_spec length_ (Z.of_nat (length rest))) as [Hlt|Hge].
  - rewrite IH; [| lia |].
    + rewrite length_take, Nat.min_l by lia. rewrite Z2Nat.inj_add, Z2Nat.id by lia.
      rewrite <- drop_drop. fold rest. apply take_drop.
    + rewrite length_take, Nat.min_l by lia. rewrite Z2Nat.inj_add, Z2Nat.id by lia. rewrite <- drop_drop. fold rest.
      rewrite length_drop. lia.
  - rewrite app_nil_r. apply take_ge. lia.
Qed.
