(* ===== verification/ReadLines.v ===== *)
(** * [read_file] by lines: [src/pkg/tools/filesystem.go]

    A buffered reader is the bytes that are still to be read. A file whose first
    read fails is modelled; errors of later reads are not. *)

From S2P Require Import Prelude GoStrings GoLib.
Import GoFloat Utf8.
From S2P Require Import GoPath PathPolicy Hooks ToolArgs FileTools.

Definition newline : ascii := ascii_of_nat 10.

Definition formatReadFileLinePrefix (lineNumber : Z) : string := itoa lineNumber +:+ "|".

(** ** The buffered reader *)

Inductive slice_end : Type := Delimiter | BufferFull | EOF.

Definition bufferSize : nat := Z.to_nat (32 * 1024).

(** [ReadSlice('\n')]: up to the end of the line, a full buffer, or the end;
    [n] bytes fit. *)
Fixpoint read_slice (n : nat) (l : list ascii) : list ascii * slice_end * list ascii :=
  match n, l with
  | O, _ => ([], BufferFull, l)
  | _, [] => ([], EOF, [])
  | Datatypes.S n', c :: l' =>
      if Ascii.eqb c newline then ([c], Delimiter, l')
      else let '(frag, e, rest) := read_slice n' l' in (c :: frag, e, rest)
  end.

(** ** Lines; the loops end after as many steps as there are bytes *)

(** Whether there was a line, and what is left. *)
Fixpoint consume (fuel : nat) (sawData : bool) (reader : list ascii) : bool * list ascii :=
  match fuel with
  | O => (sawData, reader)
  | Datatypes.S fuel' =>
      match read_slice bufferSize reader with
      | (_, Delimiter, rest) => (true, rest)
      | (frag, BufferFull, rest) => consume fuel' (sawData || negb (bool_decide (frag = []))) rest
      | (frag, EOF, rest) => (sawData || negb (bool_decide (frag = [])), rest)
      end
  end.

Definition consumeNextLine (reader : list ascii) : bool * list ascii := consume (Datatypes.S (length reader)) false reader.

(** The line as far as it fits, whether that is all of it, whether there was
    one, and what is left. *)
Record line_read : Type := mkLine { line : list ascii; complete : bool; hasLine : bool; left_over : list ascii }.

Fixpoint read_prefix (fuel : nat) (maxBytes : Z) (out : list ascii) (sawData ok : bool) (reader : list ascii) : line_read :=
  match fuel with
  | O => mkLine out ok sawData reader
  | Datatypes.S fuel' =>
      let '(frag, e, rest) := read_slice bufferSize reader in
      let some := negb (bool_decide (frag = [])) in
      let remaining := maxBytes - Z.of_nat (length out) in
      let fits := (0 <? remaining) && (Z.of_nat (length frag) <=? remaining) in
      let out := if some && (0 <? remaining) then out ++ take (Z.to_nat remaining) frag else out in
      let ok := ok && (negb some || fits) in
      let sawData := sawData || some in
      match e with
      | Delimiter => mkLine out ok sawData rest
      | BufferFull => if negb ok then mkLine out false true rest else read_prefix fuel' maxBytes out sawData ok rest
      | EOF => if negb sawData then mkLine [] true false rest else mkLine out ok true rest
      end
  end.

Definition readNextLinePrefix (reader : list ascii) (maxBytes : Z) : line_read :=
  if maxBytes <=? 0 then mkLine [] false false reader
  else read_prefix (Datatypes.S (length reader)) maxBytes [] false true reader.

Definition readerHasMoreContent (reader : list ascii) : bool := negb (bool_decide (reader = [])).

(** ** Text or not *)

Section Binary.
(** [http.DetectContentType] *)
Context (DetectContentType : list ascii -> string).

Definition utf8_valid (l : list ascii) : bool := bool_decide (encode (decode (map code l)) = map code l).

Definition control (c : ascii) : bool :=
  (code c <? 32) && negb (existsb (Z.eqb (code c)) [10; 13; 9; 12; 8]).

Definition isBinaryReadFileData (data : list ascii) : bool :=
  match data with
  | [] => false
  | _ =>
      let sample := take 512 data in
      if existsb (fun c => code c =? 0) sample then true
      else
        let contentType := DetectContentType sample in
        if HasPrefix contentType "text/" then false
        else if HasSuffix contentType "/json" || HasSuffix contentType "+json" || HasSuffix contentType "/xml"
                || HasSuffix contentType "+xml" || Contains contentType "javascript" then false
        else if negb (utf8_valid sample) then true
        else
          let controlChars := Z.of_nat (length (List.filter control sample)) in
          fltb (lit 1 10) (fdiv (float_of_Z controlChars) (float_of_Z (Z.of_nat (length sample))))
  end.

(** ** The tool *)

(** Skip to line [startLine]: whether the file ends before. *)
Fixpoint skip_lines (fuel : nat) (lineIndex startLine : Z) (reader : list ascii) : bool * list ascii :=
  match fuel with
  | O => (true, reader)
  | Datatypes.S fuel' =>
      if lineIndex <? startLine then
        match consumeNextLine reader with
        | (true, rest) => skip_lines fuel' (lineIndex + 1) startLine rest
        | (false, rest) => (true, rest)
        end
      else (false, reader)
  end.

Record progress : Type := mkProgress {
  content : list ascii;
  linesRead : Z;
  fileBytesRead : Z;
  reachedEOF : bool;
  byteBudgetTruncated : bool;
  lineTruncated : bool;
  unread : list ascii
}.

(** The loop over the lines; [limit] is negative without one.
    [outputBytesRead] is the length of the content. *)
Fixpoint take_lines (fuel : nat) (maxSize limit lineIndex : Z) (p : progress) : progress :=
  match fuel with
  | O => p
  | Datatypes.S fuel' =>
      if negb (reachedEOF p) && ((limit <? 0) || (linesRead p <? limit)) then
        let prefix := chars (formatReadFileLinePrefix lineIndex) in
        let remaining := maxSize - Z.of_nat (length (content p)) - Z.of_nat (length prefix) in
        if remaining <=? 0
        then mkProgress (content p) (linesRead p) (fileBytesRead p) (reachedEOF p) true (lineTruncated p) (unread p)
        else
          let r := readNextLinePrefix (unread p) remaining in
          if negb (hasLine r)
          then mkProgress (content p) (linesRead p) (fileBytesRead p) true (byteBudgetTruncated p) (lineTruncated p) (left_over r)
          else
            let p := mkProgress (content p ++ prefix ++ line r) (linesRead p + 1) (fileBytesRead p + Z.of_nat (length (line r)))
                       (reachedEOF p) (byteBudgetTruncated p) (lineTruncated p) (left_over r) in
            if negb (complete r)
            then mkProgress (content p) (linesRead p) (fileBytesRead p) (reachedEOF p) true true (unread p)
            else take_lines fuel' maxSize limit (lineIndex + 1) p
      else p
  end.

(** After the loop: the end is noticed also where it was not read. *)
Definition notice_end (p : progress) : progress :=
  if negb (reachedEOF p) && negb (lineTruncated p) && negb (readerHasMoreContent (unread p))
  then mkProgress (content p) (linesRead p) (fileBytesRead p) true false (lineTruncated p) (unread p)
  else p.

Definition read_lines (maxSize limit startLine : Z) (reader : list ascii) : progress :=
  let '(ended, rest) := skip_lines (Datatypes.S (length reader)) 1 startLine reader in
  notice_end (take_lines (Datatypes.S (length rest)) maxSize limit startLine (mkProgress [] 0 0 ended false false rest)).

Definition lines_note (maxSize limit startLine : Z) (p : progress) : string :=
  let endLine := startLine + linesRead p - 1 in
  if lineTruncated p
  then "[TRUNCATED - line " +:+ itoa endLine +:+ " exceeded the " +:+ itoa maxSize +:+ " byte read budget and was cut mid-line.]"
  else if byteBudgetTruncated p then
    if 0 <? limit
    then "[TRUNCATED - byte budget reached. Call read_file again with start_line=" +:+ itoa (startLine + linesRead p) +:+
         " and max_lines=" +:+ itoa limit +:+ " to continue at the next line.]"
    else "[TRUNCATED - byte budget reached. Call read_file again with start_line=" +:+ itoa (startLine + linesRead p) +:+
         " to continue at the next line.]"
  else if negb (reachedEOF p) && (0 <? limit) && (limit <=? linesRead p)
  then "[PARTIAL - more content remains. Call read_file again with start_line=" +:+ itoa (startLine + linesRead p) +:+
       " and max_lines=" +:+ itoa limit +:+ " to continue.]"
  else "[END OF FILE - no further content.]".

Definition lines_header (path : string) (maxSize limit startLine : Z) (p : progress) : string :=
  let endLine := startLine + linesRead p - 1 in
  "[file: " +:+ Base path +:+ " | read: lines " +:+ itoa startLine +:+ "-" +:+ itoa endLine +:+ " (1-indexed) | file_bytes: " +:+
  itoa (fileBytesRead p) +:+ " | output_bytes: " +:+ itoa (Z.of_nat (length (content p))) +:+ "]" +:+ nl +:+
  lines_note maxSize limit startLine p.

Context (show_float : float64 -> string) (quote : string -> string) (out_of_range : float64 -> Z).
Context {W : Type} (fs : fileSystem W).

Definition has_arg (args : fields) (key : string) : bool := bool_decide (is_Some (lookup_field args key)).

(** [max_lines]; [-1] where it is absent or null. *)
Definition line_limit (args : fields) : result string Z :=
  match lookup_field args "max_lines" with
  | None | Some VNull => Ok (-1)
  | Some _ =>
      match getInt64Arg show_float quote out_of_range args "max_lines" (-1) with
      | Err text => Err text
      | Ok limit => if limit <=? 0 then Err "max_lines, if provided, must be > 0" else Ok limit
      end
  end.

Definition ReadFileLines_Execute (maxSize : Z) (args : fields) (w : W) : ToolResult :=
  match arg args "path" with
  | None => ErrorResult "path is required"
  | Some path =>
      match getInt64Arg show_float quote out_of_range args "start_line" 1 with
      | Err text => ErrorResult text
      | Ok startLine =>
          if startLine <? 1 then ErrorResult "start_line must be >= 1"
          else if has_arg args "offset" then ErrorResult "offset is not supported in line mode; use start_line"
          else if has_arg args "length" then ErrorResult "length is not supported in line mode; use max_lines"
          else if has_arg args "limit" then ErrorResult "limit is not supported in line mode; use max_lines"
          else
            match line_limit args with
            | Err text => ErrorResult text
            | Ok limit =>
                match Open fs path w with
                | Err e => ErrorResult (error_text e)
                | Ok f =>
                    if stat_dir f then ErrorResult ("failed to open file: path is a directory: " +:+ path)
                    else
                      match read_error f with
                      | Some text => ErrorResult ("failed to read file: " +:+ text)
                      | None =>
                          if isBinaryReadFileData (take (sniffed f) (data f))
                          then ErrorResult "file appears to be binary; switch read_file mode to 'bytes' for byte-based inspection"
                          else
                            let p := read_lines maxSize limit startLine (data f) in
                            if (linesRead p =? 0) && bool_decide (content p = [])
                            then NewToolResult ("[END OF FILE - no content at or after start_line=" +:+ itoa startLine +:+ "]")
                            else NewToolResult (lines_header path maxSize limit startLine p +:+ nl +:+ nl +:+ implode (content p))
                      end
                end
            end
      end
  end.
End Binary.

(** ** Lines of a text *)

Fixpoint first_line (l : list ascii) : list ascii * list ascii :=
  match l with
  | [] => ([], [])
  | c :: l' => if Ascii.eqb c newline then ([c], l') else let '(a, b) := first_line l' in (c :: a, b)
  end.

(** The lines with their ends; the last may have none. *)
Fixpoint lines_fuel (fuel : nat) (l : list ascii) : list (list ascii) :=
  match fuel, l with
  | Datatypes.S fuel', _ :: _ => fst (first_line l) :: lines_fuel fuel' (snd (first_line l))
  | _, _ => []
  end.

Definition lines (l : list ascii) : list (list ascii) := lines_fuel (length l) l.

Lemma first_line_app l : fst (first_line l) ++ snd (first_line l) = l.
Proof.
  induction l as [|c l IH]; [done|]. cbn [first_line]. destruct (Ascii.eqb c newline); [done|].
  destruct (first_line l) as [a b]. cbn in *. by rewrite IH.
Qed.

Lemma first_line_shorter c l : (length (snd (first_line (c :: l))) <= length l)%nat.
Proof.
  pose proof (f_equal length (first_line_app (c :: l))) as E. rewrite length_app in E.
  assert (1 <= length (fst (first_line (c :: l))))%nat; [|cbn [length] in E; lia].
  cbn [first_line]. destruct (Ascii.eqb c newline); [cbn; lia|]. destruct (first_line l). cbn. lia.
Qed.

Lemma lines_fuel_enough fuel l : (length l <= fuel)%nat -> lines_fuel fuel l = lines l.
Proof.
  unfold lines. remember (length l) as n eqn:En. assert (Hn : (length l <= n)%nat) by lia. clear En. revert n l Hn.
  induction fuel as [|fuel IH]; intros n l Hn Hf.
  - destruct l; [by destruct n|]. cbn in Hn. lia.
  - destruct l as [|c l]; [by destruct n|]. destruct n as [|n]; [cbn in Hn; lia|]. cbn [lines_fuel]. f_equal.
    pose proof (first_line_shorter c l). cbn [length] in Hn. apply IH; lia.
Qed.

Lemma lines_cons c l : lines (c :: l) = fst (first_line (c :: l)) :: lines (snd (first_line (c :: l))).
Proof.
  unfold lines at 1. cbn [length lines_fuel]. f_equal. apply lines_fuel_enough, first_line_shorter.
Qed.

Lemma first_line_skip frag rest : newline ∉ frag ->
  first_line (frag ++ rest) = (frag ++ fst (first_line rest), snd (first_line rest)).
Proof.
  induction frag as [|c frag IH]; intros Hn; cbn [app first_line]; [by destruct (first_line rest)|].
  apply not_elem_of_cons in Hn as [Hc Hn]. destruct (Ascii.eqb_spec c newline) as [->|_]; [done|]. by rewrite IH.
Qed.

Lemma read_slice_spec n l frag e rest : read_slice n l = (frag, e, rest) ->
  l = frag ++ rest /\
  match e with
  | Delimiter => frag <> [] /\ first_line l = (frag, rest)
  | BufferFull => (newline ∉ frag) /\ length frag = n
  | EOF => (newline ∉ frag) /\ rest = []
  end.
Proof.
  revert l frag e rest. induction n as [|n IH]; intros l frag e rest; cbn [read_slice].
  - intros [= <- <- <-]. split_and!; [done|apply not_elem_of_nil|done].
  - destruct l as [|c l]; [intros [= <- <- <-]; split_and!; [done|apply not_elem_of_nil|done]|].
    cbn [first_line]. destruct (Ascii.eqb_spec c newline) as [->|Hc]; [by intros [= <- <- <-]|].
    destruct (read_slice n l) as [[f e'] r] eqn:E. intros [= <- <- <-]. apply IH in E as [-> HE].
    split; [done|]. destruct e'.
    + destruct HE as [_ HE]. by rewrite HE.
    + destruct HE as [H1 <-]. rewrite not_elem_of_cons. done.
    + destruct HE as [H1 ->]. rewrite not_elem_of_cons. done.
Qed.

(** ** The reader reads lines, whatever its buffer *)

Lemma bufferSize_pos : (0 < bufferSize)%nat.
Proof. apply Nat.ltb_lt. reflexivity. Qed.
#[local] Opaque bufferSize.

Lemma first_line_all l : newline ∉ l -> first_line l = (l, []).
Proof. intros Hl. pose proof (first_line_skip l [] Hl) as E. by rewrite app_nil_r in E; cbn in E; rewrite app_nil_r in E. Qed.

Lemma nonempty_dec (l : list ascii) : negb (bool_decide (l = [])) = match l with [] => false | _ => true end.
Proof. by destruct l. Qed.

Lemma consume_spec fuel saw reader : (length reader < fuel)%nat ->
  consume fuel saw reader = (saw || match reader with [] => false | _ => true end, snd (first_line reader)).
Proof.
  revert saw reader. induction fuel as [|fuel IH]; intros saw reader Hf; [lia|]. cbn [consume].
  destruct (read_slice bufferSize reader) as [[frag e] rest] eqn:E. apply read_slice_spec in E as [-> HE]. destruct e.
  - destruct HE as [Hne ->]. destruct frag as [|c frag]; [done|]. cbn. by rewrite orb_true_r.
  - destruct HE as [Hn Hl]. rewrite length_app, Hl in Hf. pose proof bufferSize_pos. rewrite IH by lia.
    rewrite first_line_skip by done. cbn [snd]. destruct frag as [|c frag]; [cbn in Hl; lia|]. cbn. by rewrite !orb_true_r.
  - destruct HE as [Hn ->]. rewrite app_nil_r, first_line_all by done. by destruct frag.
Qed.

Lemma consumeNextLine_spec reader :
  consumeNextLine reader = (match reader with [] => false | _ => true end, snd (first_line reader)).
Proof. unfold consumeNextLine. by rewrite consume_spec by lia. Qed.


Lemma read_prefix_spec maxBytes fuel out saw reader :
  0 < maxBytes -> (length reader < fuel)%nat -> Z.of_nat (length out) <= maxBytes -> (saw = false -> out = []) ->
  let r := read_prefix fuel maxBytes out saw true reader in
  let l := out ++ fst (first_line reader) in
  if negb saw && bool_decide (reader = []) then r = mkLine [] true false []
  else if Z.of_nat (length l) <=? maxBytes then r = mkLine l true true (snd (first_line reader))
  else line r = take (Z.to_nat maxBytes) l /\ complete r = false /\ hasLine r = true.
Proof.
  intros Hm. revert out saw reader. induction fuel as [|fuel IH]; intros out saw reader Hf Ho Hsaw; [lia|]. cbv zeta.
  cbn [read_prefix]. destruct (read_slice bufferSize reader) as [[frag e] rest] eqn:E.
  apply read_slice_spec in E as [-> HE]. rewrite nonempty_dec.
  destruct frag as [|c frag].
  { assert (Hr : rest = [] /\ e = EOF).
    { destruct e.
      - by destruct HE.
      - destruct HE as [_ HE]. pose proof bufferSize_pos. cbn in HE. lia.
      - by destruct HE. }
    destruct Hr as [-> ->]. cbn. rewrite orb_false_r. destruct saw; cbn; [|done].
    rewrite app_nil_r. destruct (Z.leb_spec (Z.of_nat (length out)) maxBytes); [done|lia]. }
  cbn [negb orb andb app]. rewrite orb_true_r. cbn [negb].
  assert (Hb : bool_decide (c :: frag ++ rest = []) = false) by done.
  change ((c :: frag) ++ rest) with (c :: frag ++ rest) in *. rewrite Hb, andb_false_r. clear Hb.
  set (fr := c :: frag) in *. change (c :: frag ++ rest) with (fr ++ rest) in *.
  set (remaining := maxBytes - Z.of_nat (length out)).
  destruct (Z.ltb_spec 0 remaining) as [Hrem|Hrem]; cbn [andb].
  - destruct (Z.leb_spec (Z.of_nat (length fr)) remaining) as [Hfit|Hfit].
    + rewrite take_ge by lia. destruct e.
      * destruct HE as [_ ->]. cbn [fst snd]. rewrite length_app. destruct (Z.leb_spec (Z.of_nat (length out + length fr)) maxBytes); [done|lia].
      * destruct HE as [Hn Hl]. cbn [negb]. rewrite length_app in Hf. specialize (IH (out ++ fr) true rest).
        rewrite first_line_skip by done. cbn [fst snd]. cbn [negb andb] in IH. rewrite <- app_assoc in IH.
        pose proof bufferSize_pos. apply IH; [lia | rewrite length_app; lia | done].
      * destruct HE as [Hn ->]. rewrite app_nil_r, first_line_all by done. cbn [fst snd negb]. rewrite length_app.
        destruct (Z.leb_spec (Z.of_nat (length out + length fr)) maxBytes); [done|lia].
    + assert (Hlong : exists more, fst (first_line (fr ++ rest)) = fr ++ more).
      { destruct e; [destruct HE as [_ ->]; exists []; by rewrite app_nil_r| |]; destruct HE as [Hn _];
          rewrite first_line_skip by done; by eexists. }
      destruct Hlong as [more ->].
      destruct (Z.leb_spec (Z.of_nat (length (out ++ fr ++ more))) maxBytes) as [Hx|_]; [rewrite !length_app in Hx; lia|].
      assert (Et : take (Z.to_nat maxBytes) (out ++ fr ++ more) = out ++ take (Z.to_nat remaining) fr).
      { rewrite take_app_ge by lia. f_equal. rewrite take_app_le by lia. f_equal. lia. }
      rewrite Et. by destruct e.
  - assert (Hlong : exists more, fst (first_line (fr ++ rest)) = fr ++ more).
    { destruct e; [destruct HE as [_ ->]; exists []; by rewrite app_nil_r| |]; destruct HE as [Hn _];
        rewrite first_line_skip by done; by eexists. }
    destruct Hlong as [more ->].
    destruct (Z.leb_spec (Z.of_nat (length (out ++ fr ++ more))) maxBytes) as [Hx|_];
      [rewrite !length_app in Hx; unfold fr in Hx; cbn in Hx; lia|].
    assert (Et : take (Z.to_nat maxBytes) (out ++ fr ++ more) = out).
    { rewrite take_app_le by lia. apply take_ge. lia. }
    rewrite Et. by destruct e.
Qed.

Lemma readNextLinePrefix_spec reader maxBytes : 0 < maxBytes ->
  let r := readNextLinePrefix reader maxBytes in
  match reader with
  | [] => r = mkLine [] true false []
  | _ =>
      let l := fst (first_line reader) in
      if Z.of_nat (length l) <=? maxBytes then r = mkLine l true true (snd (first_line reader))
      else line r = take (Z.to_nat maxBytes) l /\ complete r = false /\ hasLine r = true
  end.
Proof.
  intros Hm. cbv zeta. unfold readNextLinePrefix. destruct (Z.leb_spec maxBytes 0); [lia|].
  assert (Hread := read_prefix_spec maxBytes (Datatypes.S (length reader)) [] false reader Hm ltac:(lia) ltac:(cbn; lia) ltac:(done)).
  cbv zeta in Hread. destruct reader as [|c reader]; exact Hread.
Qed.

(** ** What the answer shows *)

(** Lines with their numbers, from [i] on. *)
Fixpoint numbered (i : Z) (ls : list (list ascii)) : list ascii :=
  match ls with
  | [] => []
  | l :: ls' => chars (formatReadFileLinePrefix i) ++ l ++ numbered (i + 1) ls'
  end.

Lemma lines_concat l : concat (lines l) = l.
Proof.
  remember (length l) as n eqn:En. assert (Hn : (length l <= n)%nat) by lia. clear En. revert l Hn.
  induction n as [|n IH]; intros [|c l] Hn; cbn in Hn; try lia; try done.
  rewrite lines_cons. cbn [concat]. pose proof (first_line_shorter c l). rewrite IH by lia. apply first_line_app.
Qed.

Lemma lines_snd c l : lines (snd (first_line (c :: l))) = tail (lines (c :: l)).
Proof. by rewrite lines_cons. Qed.

(** The lines that are skipped. *)
Lemma skip_lines_spec fuel i start reader : (length reader < fuel)%nat -> i <= start ->
  let '(ended, rest) := skip_lines fuel i start reader in
  lines rest = drop (Z.to_nat (start - i)) (lines reader) /\ (ended = true -> rest = []).
Proof.
  revert i reader. induction fuel as [|fuel IH]; intros i reader Hf Hi; [lia|]. cbn [skip_lines].
  destruct (Z.ltb_spec i start) as [Hlt|Hge].
  - rewrite consumeNextLine_spec. destruct reader as [|c reader].
    + split; [|done]. change (snd (first_line [])) with (@nil ascii). change (lines []) with (@nil (list ascii)). by rewrite drop_nil.
    + pose proof (first_line_shorter c reader). cbn [length] in Hf.
      specialize (IH (i + 1) (snd (first_line (c :: reader))) ltac:(lia) ltac:(lia)).
      destruct (skip_lines fuel (i + 1) start (snd (first_line (c :: reader)))) as [ended rest]. destruct IH as [IH He]. split; [|done].
      rewrite IH, lines_snd. rewrite lines_cons. cbn [tail].
      replace (Z.to_nat (start - i)) with (Datatypes.S (Z.to_nat (start - (i + 1)))) by lia. done.
  - split; [|done]. by replace (Z.to_nat (start - i)) with O by lia.
Qed.

(** What the loop adds to [p]: some lines, and part of the next one if that is
    too long. *)
Record shown (maxSize limit i : Z) (p q : progress) (k : nat) (part : list ascii) : Prop := mkShown {
  shown_content : content q = content p ++ numbered i (take k (lines (unread p))) ++ part;
  shown_count : (k <= length (lines (unread p)))%nat;
  shown_budget : Z.of_nat (length (content p)) <= maxSize -> Z.of_nat (length (content q)) <= maxSize;
  shown_cut : if lineTruncated q
    then linesRead q = linesRead p + Z.of_nat k + 1 /\ (k < length (lines (unread p)))%nat /\
         exists m l, lines (unread p) !! k = Some l /\ (m < length l)%nat /\
           part = chars (formatReadFileLinePrefix (i + Z.of_nat k)) ++ take m l
    else part = [] /\ linesRead q = linesRead p + Z.of_nat k /\ unread q = concat (drop k (lines (unread p))) /\
         (reachedEOF q = true -> k = length (lines (unread p)));
  shown_limit : 0 <= limit -> linesRead p <= limit -> linesRead q <= limit;
  shown_stop : lineTruncated q = false ->
    if reachedEOF q then byteBudgetTruncated q = false else byteBudgetTruncated q = true \/ 0 <= limit <= linesRead q
}.

Lemma shown_nothing maxSize limit i p e b u :
  lineTruncated p = false -> u = unread p -> (e = true -> lines (unread p) = []) ->
  (if e then b = false else b = true \/ 0 <= limit <= linesRead p) ->
  shown maxSize limit i p (mkProgress (content p) (linesRead p) (fileBytesRead p) e b (lineTruncated p) u) 0 [].
Proof.
  intros Ht -> He Hs. split; cbn.
  - by rewrite app_nil_r.
  - lia.
  - done.
  - rewrite Ht. split_and!; [done|lia|by rewrite drop_0, lines_concat|]. intros ->%He. done.
  - done.
  - done.
Qed.

Lemma progress_eta p : p = mkProgress (content p) (linesRead p) (fileBytesRead p) (reachedEOF p) (byteBudgetTruncated p) (lineTruncated p) (unread p).
Proof. by destruct p. Qed.

Lemma take_lines_spec maxSize limit fuel i p :
  (length (unread p) < fuel)%nat -> lineTruncated p = false -> byteBudgetTruncated p = false ->
  (reachedEOF p = true -> unread p = []) ->
  exists k part, shown maxSize limit i p (take_lines fuel maxSize limit i p) k part.
Proof.
  revert i p. induction fuel as [|fuel IH]; intros i p Hf Ht Hbb He; [lia|]. cbn [take_lines].
  destruct (negb (reachedEOF p) && _) eqn:Econd.
  2: { exists O, []. rewrite (progress_eta p) at 2. apply shown_nothing; [done..|by intros ->%He|].
       destruct (reachedEOF p); [done|]. right. apply orb_false_iff in Econd as [?%Z.ltb_ge ?%Z.ltb_ge]. lia. }
  apply andb_true_iff in Econd as [Heof Hlimit]. apply negb_true_iff in Heof.
  assert (Hlt : 0 <= limit -> linesRead p < limit) by (apply orb_prop in Hlimit as [?%Z.ltb_lt|?%Z.ltb_lt]; lia). clear Hlimit.
  set (prefix := chars (formatReadFileLinePrefix i)).
  set (remaining := maxSize - Z.of_nat (length (content p)) - Z.of_nat (length prefix)).
  destruct (Z.leb_spec remaining 0) as [Hr|Hr].
  { exists O, []. apply shown_nothing; [done..|congruence|]. rewrite Heof. by left. }
  pose proof (readNextLinePrefix_spec (unread p) remaining Hr) as Hline. cbv zeta in Hline.
  destruct (unread p) as [|c u] eqn:Eu.
  { rewrite Hline. cbn [hasLine left_over negb]. exists O, []. apply shown_nothing; [done|by rewrite Eu|by rewrite Eu|done]. }
  destruct (Z.leb_spec (Z.of_nat (length (fst (first_line (c :: u))))) remaining) as [Hfit|Hfit].
  - rewrite Hline. cbn [hasLine complete line left_over negb].
    set (p' := mkProgress _ _ _ _ _ _ _).
    pose proof (first_line_shorter c u) as Hs. cbn [length] in Hf.
    destruct (IH (i + 1) p') as (k & part & Hk); [change (unread p') with (snd (first_line (c :: u))); lia|done|done|cbn; congruence|].
    exists (Datatypes.S k), part. destruct Hk as [Hc Hn Hb Hcut Hlim Hst]. cbn [unread content linesRead p'] in *.
    rewrite lines_snd in *. rewrite lines_cons in *. cbn [tail] in *. split; rewrite ?Eu, ?lines_cons.
    + rewrite Hc. cbn [take numbered]. by rewrite <- !app_assoc.
    + cbn [length]. lia.
    + intros Hp. apply Hb. rewrite !length_app. unfold remaining in Hfit. fold prefix. lia.
    + destruct (lineTruncated (take_lines _ _ _ _ p')).
      * destruct Hcut as (H1 & H2 & m & l & H3 & H4 & ->). split; [lia|]. split; [cbn [length]; lia|].
        exists m, l. split_and!; [done|done|]. by replace (i + Z.of_nat (Datatypes.S k)) with (i + 1 + Z.of_nat k) by lia.
      * destruct Hcut as (-> & H1 & H2 & H3). split_and!; [done|lia|done|]. intros ->%H3. done.
    + intros Hl0 Hl1. apply Hlim; [done|]. lia.
    + exact Hst.
  - destruct Hline as (E1 & E2 & E3). rewrite E2, E3. cbn [negb]. rewrite E1.
    exists O. eexists. split; cbn [content linesRead lineTruncated unread reachedEOF]; rewrite ?Eu, ?lines_cons.
    + cbn [take numbered app]. reflexivity.
    + cbn [length]. lia.
    + intros Hp. rewrite !length_app, length_take. unfold remaining in *. fold prefix. lia.
    + split; [lia|]. split; [cbn [length]; lia|]. exists (Z.to_nat remaining), (fst (first_line (c :: u))).
      split_and!; [done|lia|]. by replace (i + Z.of_nat 0) with i by lia.
    + intros Hl0 Hl1. lia.
    + done.
Qed.

Lemma lines_nonempty l : [] ∉ lines l.
Proof.
  remember (length l) as n eqn:En. assert (Hn : (length l <= n)%nat) by lia. clear En. revert l Hn.
  induction n as [|n IH]; intros [|c l] Hn; cbn in Hn; try lia; try apply not_elem_of_nil.
  rewrite lines_cons, not_elem_of_cons. pose proof (first_line_shorter c l) as Hs. split; [|apply IH; lia].
  intros E. pose proof (first_line_app (c :: l)) as Ea. rewrite <- E in Ea. cbn [app] in Ea. rewrite Ea in Hs. cbn in Hs. lia.
Qed.

Lemma lines_note_end maxSize limit startLine p : lineTruncated p = false ->
  lines_note maxSize limit startLine p = "[END OF FILE - no further content.]" <->
  byteBudgetTruncated p = false /\ negb (reachedEOF p) && (0 <? limit) && (limit <=? linesRead p) = false.
Proof.
  intros Ht. unfold lines_note. rewrite Ht. destruct (byteBudgetTruncated p); [by destruct (0 <? limit); naive_solver|].
  destruct (negb _ && _ && _); naive_solver.
Qed.

(** C26: the answer of the tool shows the lines from the first one asked for,
    numbered, within the budget of bytes and the limit of lines. Only the last
    line can be cut; when none was cut the note at the head of the answer says
    that the file has ended exactly when all lines were given. (An answer
    without any line has no such note: it always says that there is no content,
    also when the budget has no room for a line.) *)
Theorem read_lines_shows (maxSize limit startLine : Z) (reader : list ascii)
    (Hmax : 0 <= maxSize) (Hlimit : limit <> 0) (Hstart : 1 <= startLine) :
  let p := read_lines maxSize limit startLine reader in
  let ls := drop (Z.to_nat (startLine - 1)) (lines reader) in
  exists k part, content p = numbered startLine (take k ls) ++ part /\
    Z.of_nat (length (content p)) <= maxSize /\
    (0 <= limit -> linesRead p <= limit) /\
    if lineTruncated p
    then linesRead p = Z.of_nat k + 1 /\ exists m l, ls !! k = Some l /\ (m < length l)%nat /\
           part = chars (formatReadFileLinePrefix (startLine + Z.of_nat k)) ++ take m l
    else part = [] /\ linesRead p = Z.of_nat k /\
         (lines_note maxSize limit startLine p = "[END OF FILE - no further content.]" <-> (length ls <= k)%nat).
Proof.
  cbv zeta. unfold read_lines.
  pose proof (skip_lines_spec (Datatypes.S (length reader)) 1 startLine reader ltac:(lia) Hstart) as Hskip.
  destruct (skip_lines _ _ _ reader) as [ended rest]. destruct Hskip as [<- Hend].
  set (p0 := mkProgress [] 0 0 ended false false rest).
  destruct (take_lines_spec maxSize limit (Datatypes.S (length rest)) startLine p0) as (k & part & [Hc Hn Hb Hcut Hlim Hst]);
    [cbn; lia|done|done|done|].
  set (q := take_lines _ _ _ _ p0) in *. cbn [content unread linesRead p0 app] in *. exists k, part.
  assert (Ekeep : content (notice_end q) = content q /\ linesRead (notice_end q) = linesRead q /\ lineTruncated (notice_end q) = lineTruncated q).
  { unfold notice_end. by destruct (negb _ && _ && _). }
  destruct Ekeep as (Ec & El & Ell). rewrite Ec, El, Ell. split; [done|]. split; [apply Hb; cbn; lia|].
  split; [intros; apply Hlim; cbn; lia|].
  destruct (lineTruncated q) eqn:Et.
  - destruct Hcut as (H1 & H2 & H3). split; [lia|done].
  - destruct Hcut as (H1 & H2 & H3 & H4). specialize (Hst eq_refl). split; [done|]. split; [lia|].
    rewrite (lines_note_end _ _ _ _ Ell), El. unfold notice_end, readerHasMoreContent. rewrite Et, nonempty_dec. cbn [negb].
    rewrite andb_true_r. destruct (reachedEOF q) eqn:Ee.
    + cbn [negb andb]. rewrite Ee. split; [intros _; by rewrite <- (H4 eq_refl)|done].
    + cbn [negb andb]. rewrite H3. destruct (concat (drop k (lines rest))) as [|c u] eqn:Eu; cbn [negb reachedEOF byteBudgetTruncated andb].
      * split; [intros _|done]. destruct (decide (k < length (lines rest))%nat) as [Hk|]; [exfalso|lia].
        apply lookup_lt_is_Some in Hk as [l Hl]. rewrite (drop_S _ l) in Eu by done. cbn in Eu.
        apply app_nil in Eu as [-> _]. apply list_elem_of_lookup_2 in Hl. by eapply lines_nonempty.
      * rewrite Ee. cbn [negb andb]. split; [|intros Hk; rewrite drop_ge in Eu by lia; done].
        intros [Hbf Hp]. destruct Hst as [?|[? ?]]; [congruence|].
        rewrite (proj2 (Z.ltb_lt 0 limit)), (proj2 (Z.leb_le limit (linesRead q))) in Hp by lia. done.
Qed.

Definition demo_text : list ascii := chars ("a" +:+ nl +:+ "bb" +:+ nl +:+ "cc" +:+ nl +:+ "d").

Lemma read_lines_shows_witness :
  let p := read_lines 12 2 2 demo_text in
  reachedEOF p = false /\
  exists k part, content p = numbered 2 (take k (drop 1 (lines demo_text))) ++ part /\ part = [] /\ Z.of_nat k = 2.
Proof.
  split; [vm_compute; reflexivity|].
  destruct (read_lines_shows 12 2 2 demo_text ltac:(lia) ltac:(lia) ltac:(lia)) as (k & part & H1 & _ & _ & H2).
  exists k, part. split; [exact H1|].
  assert (Et : lineTruncated (read_lines 12 2 2 demo_text) = false) by (vm_compute; reflexivity). rewrite Et in H2.
  assert (El : linesRead (read_lines 12 2 2 demo_text) = 2) by (vm_compute; reflexivity). rewrite El in H2.
  destruct H2 as (-> & <- & _). split; reflexivity.
Defined.

(** A budget that has no room for the number of a line and a byte: nothing is
    shown, and the tool answers that there is no content. *)
Example small_budget_says_end :
  let p := read_lines 2 (-1) 1 (chars "abc") in content p = [] /\ linesRead p = 0 /\ reachedEOF p = false.
Proof. vm_compute. auto. Qed.
