(* ===== verification/FileClaims.v ===== *)
(** * What the file tools promise: [src/pkg/tools/filesystem.go], [edit.go]

    The theorems about the tools as they are called, concrete file systems that
    they are about, and what goes wrong. *)

From stdpp Require Import gmap.
From S2P Require Import Prelude GoStrings GoLib.
Import GoFloat.
From S2P Require Import GoPath PathPolicy FsTree Hooks ToolArgs FileTools ReadLines.

(** ** Editing *)

(** C22: on a file system that reads back what was written, when the edit tool
    reports success the file had the old text in one
    place, which every other occurrence overlaps, and now has the new text in
    that place and is otherwise the same. *)
Theorem EditFile_replaces_the_occurrence {W} (fs : fileSystem W) (args : fields) (w w' : W) (r : ToolResult)
    (Hkeeps : KeepsWrites fs)
    (Hrun : EditFile_Execute fs args w = (w', r))
    (Hok : IsError r = false) :
  exists path oldText newText, arg args "path" = Some path /\ arg args "old_text" = Some oldText /\
    arg args "new_text" = Some newText /\
    exists before after, ReadFile fs path w = Ok (before +:+ oldText +:+ after) /\
      ReadFile fs path w' = Ok (before +:+ newText +:+ after) /\
      forall i, oldText <> "" -> occurs_at (before +:+ oldText +:+ after) oldText i ->
        len before <= Z.of_nat i < len before + len oldText.
Proof.
  apply EditFile_Execute_spec in Hrun; [|done]. rewrite Hok in Hrun.
  destruct Hrun as (path & o & n & E1 & E2 & E3 & c & c' & R1 & R2 & Ec). exists path, o, n. split_and!; [done..|].
  destruct (decide (o = "")) as [->|Ho].
  - exists "", c. unfold replaceEditContent in Ec. destruct (negb _); [done|]. destruct (1 <? _); [done|].
    injection Ec as <-. split_and!; [done| |done]. rewrite R2. unfold ReplaceFirst, Index, slice_to, slice_from.
    assert (l_index (chars "") (chars c) = Some O) as -> by by destruct (chars c).
    cbn [Nat.add chars length]. by rewrite drop_0, implode_chars.
  - pose proof (replaceEditContent_spec c o n Ho) as Hspec. rewrite Ec in Hspec.
    destruct Hspec as (a & b & -> & -> & Hocc). exists a, b. split_and!; [done|done|]. intros i _. apply Hocc.
Qed.

(** A world of files by name, for the witnesses. *)
Definition plain_fs : fileSystem (gmap string string) :=
  mkFileSystem
    (fun path w => match w !! path with Some c => Ok c | None => Err (mkError true "file not found") end)
    (fun path c w => (<[path := c]> w, None))
    (fun _ _ => Err (mkError false "not a directory"))
    (fun path w => match w !! path with
                   | Some c => Ok (mkFile (chars c) (Some (len c)) false (Seeker (fun _ => None)) 512 None)
                   | None => Err (mkError true "file not found")
                   end).

Lemma plain_fs_keeps : KeepsWrites plain_fs.
Proof. intros path content w w' [= <-]. unfold plain_fs; cbn. by rewrite lookup_insert_eq. Qed.

Definition demo_files : gmap string string := {[ "notes.txt" := "one two three" ]}.
Definition demo_edit : fields := [("path", VString "notes.txt"); ("old_text", VString "two"); ("new_text", VString "2")].

Lemma EditFile_replaces_the_occurrence_witness :
  exists before after, ReadFile plain_fs "notes.txt" demo_files = Ok (before +:+ "two" +:+ after) /\
    ReadFile plain_fs "notes.txt" (fst (EditFile_Execute plain_fs demo_edit demo_files)) = Ok (before +:+ "2" +:+ after).
Proof.
  destruct (EditFile_replaces_the_occurrence plain_fs demo_edit demo_files
    (fst (EditFile_Execute plain_fs demo_edit demo_files)) (snd (EditFile_Execute plain_fs demo_edit demo_files))
    plain_fs_keeps (surjective_pairing _) ltac:(vm_compute; reflexivity))
    as (path & o & n & [= <-] & [= <-] & [= <-] & b & a & H1 & H2 & _).
  exists b, a. split; assumption.
Defined.

(** Occurrences that overlap count as one: the text to replace is then not
    unique, and the first is replaced. *)
Lemma overlapping_is_not_ambiguous :
  occurs_at "aaa" "aa" 0 /\ occurs_at "aaa" "aa" 1 /\ replaceEditContent "aaa" "aa" "b" = Ok "ba".
Proof.
  split; [by exists "", "a"|]. split; [by exists "a", ""|]. vm_compute. reflexivity.
Qed.

(** ** Writing in the sandbox *)

(** C18: a write in the sandbox that fails leaves every file as it was; a write
    that succeeds gives the new content to the file that the path leads to
    inside the workspace and changes no other. The one exception is a file with
    the temporary name, which is removed even if it was there before. Whatever
    links the workspace has: a file is a directory entry, so that all paths that
    lead to the target see the new content. While nobody else writes. *)
Theorem sandbox_write_all_or_nothing {W E} (OpenRoot : string -> W -> result os_error (root W)) (temp_name : W -> string)
    (entry : W -> string -> option E) (here : string -> E) (content : W -> E -> option string) (mine : W -> string -> Prop)
    (workspace path new : string) (w w' : W) (e : option file_error)
    (Hlaws : forall r, OpenRoot workspace w = Ok r -> root_laws r temp_name entry here content mine)
    (Hrun : WriteFile (sandboxFs OpenRoot temp_name workspace) path new w = (w', e)) :
  exists v, match e with
  | Some _ => forall q, q <> here (temp_name v) -> content w' q = content w q
  | None => exists rel target, getSafeRelPath workspace path = Ok rel /\
      entry w' rel = Some target /\ content w' target = Some new /\
      forall q, q <> here (temp_name v) -> q <> target -> content w' q = content w q
  end.
Proof.
  cbn in Hrun. unfold execute in Hrun. destruct (String.eqb workspace ""); [injection Hrun as <- <-; by exists w|].
  destruct (OpenRoot workspace w) as [r|x] eqn:Er; [|injection Hrun as <- <-; by exists w].
  destruct (getSafeRelPath workspace path) as [rel|x] eqn:Eg; [|injection Hrun as <- <-; by exists w].
  apply (write_in_root_spec _ _ _ _ _ _ (Hlaws r eq_refl)) in Hrun as (v & H). exists v.
  unfold all_or_nothing in H. destruct e; [exact H|]. destruct H as (t & H). by exists rel, t.
Qed.

(** A root over a map. *)
Definition map_root : root (gmap string string) :=
  {| root_ReadFile := fun p w => match w !! p with Some c => Ok c | None => Err (OsNotExist "no such file") end;
     root_MkdirAll := fun _ w => (w, None);
     root_Create := fun p w => (<[p := ""]> w, None);
     root_Write := fun p d w => (<[p := d]> w, None);
     root_Sync := fun _ w => (w, None);
     root_Close := fun _ w => (w, None);
     root_Rename := fun p q w => match w !! p with
                                 | Some c => (<[q := c]> (delete p w), None)
                                 | None => (w, Some (OsNotExist "no such file"))
                                 end;
     root_Remove := fun p w => delete p w;
     root_SyncDir := fun w => w;
     root_ReadDir := fun _ _ => Ok [];
     root_Open := fun _ _ => Err (OsOther "not modelled") |}.

Lemma map_root_laws temp_name :
  root_laws map_root temp_name (fun w p => (fun _ => p) <$> w !! p) id (fun w p => w !! p) (fun w p => w !! p = Some "").
Proof.
  split; cbn; intros; simplify_eq; rewrite ?lookup_insert_ne, ?lookup_delete_ne, ?lookup_insert_eq by done; try done.
  - case_match; simplify_eq; done.
  - case_match; simplify_eq. exists p. rewrite lookup_insert_eq. split_and!; [done..|]. intros.
    by rewrite lookup_insert_ne, lookup_delete_ne by done.
Qed.

Lemma sandbox_write_all_or_nothing_witness :
  let '(w', e) := WriteFile (sandboxFs (fun _ _ => Ok map_root) (fun _ => ".tmp-1-1") "/work") "notes.txt" "new" demo_files in
  e = None /\ w' !! "notes.txt" = Some "new".
Proof.
  destruct (WriteFile _ _ _ _) as [w' e] eqn:Ew.
  destruct (sandbox_write_all_or_nothing (fun _ _ => Ok map_root) (fun _ => ".tmp-1-1") _ _ _ _ "/work"
    "notes.txt" "new" demo_files w' e ltac:(intros r [= <-]; apply map_root_laws) Ew) as [v H].
  assert (Ee : e = None) by (apply (f_equal snd) in Ew; vm_compute in Ew; by symmetry).
  subst e. split; [reflexivity|]. destruct H as (rel & t & Er & Ht & H & _). vm_compute in Er. injection Er as <-.
  cbn in Ht. destruct (w' !! "notes.txt") eqn:En; [|discriminate Ht]. injection Ht as <-. cbn in H. congruence.
Defined.

(** ** Reading *)

Theorem pages_give_the_file (f : file) (length_ : Z) (Hf : regular f) (Hlen : 0 < length_) :
  pages (S (length (data f))) f 0 length_ = data f.
Proof. rewrite (pages_cover f length_ Hf Hlen) by (change (Z.to_nat 0) with O; rewrite ?drop_0; lia). done. Qed.

Definition demo_file : file := mkFile (chars "0123456789") (Some 10) false (Seeker (fun _ => None)) 512 None.

Lemma pages_give_the_file_witness : pages 11 demo_file 0 4 = chars "0123456789".
Proof. exact (pages_give_the_file demo_file 4 (conj eq_refl eq_refl) ltac:(lia)). Defined.

(** A file that cannot seek is read without its beginning: the bytes that were
    looked at are gone, and the range of the answer says otherwise. *)
Lemma unseekable_file_loses_its_beginning f length_ :
  seeker f = NoSeeker -> read_error f = None -> 0 < length_ ->
  exists page more, read_page f 0 length_ = Ok (page, more) /\ page = take (Z.to_nat length_) (drop (sniffed f) (data f)).
Proof.
  intros Hs Hr Hl. unfold read_page, seek_to. rewrite Hs, Hr. rewrite andb_false_r.
  destruct (Z.ltb_spec 0 (0 - Z.of_nat (sniffed f))); [lia|]. eexists _, _. split; [reflexivity|].
  rewrite take_take. f_equal. lia.
Qed.

(** 2^63 as a float64 is accepted as an int64. *)
Lemma offset_too_large_is_accepted show_float quote out_of_range :
  getInt64Arg show_float quote out_of_range [("offset", VFloat (float_of_Z (2 ^ 63)))] "offset" 0
  = Ok (out_of_range (float_of_Z (2 ^ 63))).
Proof. vm_compute. reflexivity. Qed.

Lemma read_lines_example :
  let p := read_lines 12 2 2 (chars ("a" +:+ nl +:+ "bb" +:+ nl +:+ "cc" +:+ nl +:+ "d")) in
  content p = chars ("2|bb" +:+ nl +:+ "3|cc" +:+ nl) /\ reachedEOF p = false.
Proof. vm_compute. auto. Qed.

(** ** Paths *)

(** What the kernel reads. *)
Definition kernel_read (t : gmap (list string) node) (path : string) : option string :=
  match opened t path with
  | Some at_ => match t !! at_ with Some (File d) => Some d | _ => None end
  | None => None
  end.

(** The file system for allowed paths decides by the clean path and opens the
    path as it was given: [..] after a link leads out. *)
Lemma allowed_path_leads_out (os : host_os (gmap (list string) node)) (sandbox : fileSystem (gmap (list string) node))
    (Hread : forall p t d, kernel_read t p = Some d -> os_ReadFile os p t = Ok d) :
  ReadFile (whitelistFs EvalSymlinks sandbox (hostFs os) [shared_pattern]) "/shared/link/../key" demo_tree = Ok "k" /\
  opened demo_tree "/shared/link/../key" = Some ["secret"; "key"] /\
  validatePathWithAllowPaths (EvalSymlinks demo_tree) None "/shared/link/../key" "/work" true [shared_pattern] = Ok "/shared/key" /\
  opened demo_tree "/shared/key" = None.
Proof.
  assert (E : isAllowedPath (EvalSymlinks demo_tree) "/shared/link/../key" [shared_pattern] = true) by (vm_compute; reflexivity).
  split_and!; [|vm_compute; reflexivity..].
  unfold whitelistFs. cbn [ReadFile]. rewrite E. unfold hostFs. cbn [ReadFile].
  rewrite (Hread _ _ "k") by (vm_compute; reflexivity). reflexivity.
Qed.

(** An allowed path that is clean is read where the patterns allow it. *)
Theorem allowed_reads_stay {W} (tree_of : W -> gmap (list string) node) (os : host_os W) (sandbox : fileSystem W)
    (patterns : list Regexp) (roots : list string) (path : string) (w : W) (at_ : list string)
    (Hpat : Forall (fun pattern => exists root, root ∈ roots /\ directory_pattern root pattern) patterns)
    (Hclean : Clean path = path)
    (Hopen : opened (tree_of w) path = Some at_) :
  let fs := whitelistFs (fun w => EvalSymlinks (tree_of w)) sandbox (hostFs os) patterns in
  ReadFile fs path w = ReadFile sandbox path w \/
  exists root, root ∈ roots /\ in_directory (EvalSymlinks (tree_of w)) root (render true at_).
Proof.
  cbn. destruct (isAllowedPath _ path patterns) eqn:E; [right|by left].
  destruct (opened_EvalSymlinks _ _ _ Hopen) as [He _].
  assert (Hp : IsAbs path = true).
  { unfold isAllowedPath in E. destruct patterns; [done|]. rewrite IsAbs_Clean in E. by destruct (IsAbs path). }
  eapply isAllowedPath_spec in E as (dest & Ed & _ & Hd); [|apply EvalSymlinks_clean|exact Hpat].
  rewrite (proj2 (resolve_exists _ (EvalSymlinks_clean (tree_of w)) path _ Hp Hclean He)) in Ed. by injection Ed as <-.
Qed.
