(* ===== verification/WebGuard.v ===== *)
(** * The web tools' guard against private hosts: [src/pkg/tools/web.go]

    [web_fetch] connects only to addresses that are not private, or that are
    allowed by the configuration, whatever names resolve to and wherever servers
    redirect. The resolver, the connections and the servers are functions of
    everything that has happened so far. *)

From stdpp Require Import gmap.
From S2P Require Import Prelude GoStrings GoPath PathPolicy.

(** ** Addresses of package [net]: 4 or 16 bytes, or none *)

Abbreviation IP := (list Z).

Definition To4 (ip : IP) : option IP :=
  if (length ip =? 4)%nat then Some ip
  else if (length ip =? 16)%nat && forallb (Z.eqb 0) (take 10 ip) && (nth 10 ip 0 =? 255) && (nth 11 ip 0 =? 255)
  then Some (drop 12 ip)
  else None.

Definition IPv4 (a b c d : Z) : IP := [0; 0; 0; 0; 0; 0; 0; 0; 0; 0; 255; 255; a; b; c; d].

Definition at_ (ip : IP) (i : nat) : Z := nth i ip 0.

Definition is16 (ip : IP) : bool := (length ip =? 16)%nat.

Definition IPv6loopback : IP := [0; 0; 0; 0; 0; 0; 0; 0; 0; 0; 0; 0; 0; 0; 0; 1].
Definition IPv6unspecified : IP := [0; 0; 0; 0; 0; 0; 0; 0; 0; 0; 0; 0; 0; 0; 0; 0].

Definition IsLoopback (ip : IP) : bool :=
  match To4 ip with Some ip4 => at_ ip4 0 =? 127 | None => bool_decide (ip = IPv6loopback) end.
Definition IsLinkLocalUnicast (ip : IP) : bool :=
  match To4 ip with
  | Some ip4 => (at_ ip4 0 =? 169) && (at_ ip4 1 =? 254)
  | None => is16 ip && (at_ ip 0 =? 254) && (Z.land (at_ ip 1) 192 =? 128)
  end.
Definition IsLinkLocalMulticast (ip : IP) : bool :=
  match To4 ip with
  | Some ip4 => (at_ ip4 0 =? 224) && (at_ ip4 1 =? 0) && (at_ ip4 2 =? 0)
  | None => is16 ip && (at_ ip 0 =? 255) && (Z.land (at_ ip 1) 15 =? 2)
  end.
Definition IsMulticast (ip : IP) : bool :=
  match To4 ip with
  | Some ip4 => Z.land (at_ ip4 0) 240 =? 224
  | None => is16 ip && (at_ ip 0 =? 255)
  end.
Definition IsUnspecified (ip : IP) : bool :=
  match To4 ip with
  | Some ip4 => bool_decide (ip4 = [0; 0; 0; 0])
  | None => bool_decide (ip = IPv6unspecified)
  end.

(** An [IPNet]: the number and the mask, of the same length. *)
Record IPNet : Type := mkNet { number : IP; mask : list Z }.

Definition net_Contains (n : IPNet) (ip : IP) : bool :=
  let ip := match To4 ip with Some x => x | None => ip end in
  (length ip =? length (number n))%nat &&
  forallb (fun t => Z.land (fst (fst t)) (snd (fst t)) =? Z.land (snd t) (snd (fst t)))
    (zip (zip (number n) (mask n)) ip).

(** ** Private addresses *)

Definition restricted4 (ip4 : IP) : bool :=
  (at_ ip4 0 =? 10) || (at_ ip4 0 =? 127) || (at_ ip4 0 =? 0) ||
  ((at_ ip4 0 =? 172) && (16 <=? at_ ip4 1) && (at_ ip4 1 <=? 31)) ||
  ((at_ ip4 0 =? 192) && (at_ ip4 1 =? 168)) ||
  ((at_ ip4 0 =? 169) && (at_ ip4 1 =? 254)) ||
  ((at_ ip4 0 =? 100) && (64 <=? at_ ip4 1) && (at_ ip4 1 <=? 127)).

Definition special_ip (ip : IP) : bool :=
  IsLoopback ip || IsLinkLocalUnicast ip || IsLinkLocalMulticast ip || IsMulticast ip || IsUnspecified ip.

(** The address that is embedded is one of IPv4, which embeds none. *)
Definition isPrivateIPv4 (ip : IP) : bool :=
  special_ip ip || match To4 ip with Some ip4 => restricted4 ip4 | None => false end.

Definition isPrivateOrRestrictedIP (ip : IP) : bool :=
  match ip with
  | [] => true
  | _ =>
      if special_ip ip then true
      else
        match To4 ip with
        | Some ip4 => restricted4 ip4
        | None =>
            if is16 ip then
              if Z.land (at_ ip 0) 254 =? 252 then true
              else if (at_ ip 0 =? 32) && (at_ ip 1 =? 2)
              then isPrivateIPv4 (IPv4 (at_ ip 2) (at_ ip 3) (at_ ip 4) (at_ ip 5))
              else if (at_ ip 0 =? 32) && (at_ ip 1 =? 1) && (at_ ip 2 =? 0) && (at_ ip 3 =? 0)
              then isPrivateIPv4 (IPv4 (Z.lxor (at_ ip 12) 255) (Z.lxor (at_ ip 13) 255)
                                       (Z.lxor (at_ ip 14) 255) (Z.lxor (at_ ip 15) 255))
              else false
            else false
        end
  end.

(** ** The allowed private hosts *)

Definition normalizeWhitelistIP (ip : IP) : IP := match To4 ip with Some ip4 => ip4 | None => ip end.

Section Guard.
(** Text of addresses: [IP.String], [ParseIP], [ParseCIDR] (the network),
    [SplitHostPort], [JoinHostPort]. *)
Context (ip_String : IP -> string) (ParseIP : string -> option IP) (ParseCIDR : string -> option IPNet)
  (SplitHostPort : string -> option (string * string)) (JoinHostPort : string -> string -> string).

Record privateHostWhitelist : Type := mkWhitelist { exact : gset string; cidrs : list IPNet }.

Fixpoint read_entries (entries : list string) (w : privateHostWhitelist) : result string privateHostWhitelist :=
  match entries with
  | [] => Ok w
  | entry :: rest =>
      let entry := TrimSpace entry in
      if String.eqb entry "" then read_entries rest w
      else
        match ParseIP entry with
        | Some ip => read_entries rest (mkWhitelist ({[ip_String (normalizeWhitelistIP ip)]} ∪ exact w) (cidrs w))
        | None =>
            match ParseCIDR entry with
            | None => Err ("invalid entry " +:+ entry +:+ ": expected IP or CIDR")
            | Some network => read_entries rest (mkWhitelist (exact w) (cidrs w ++ [network]))
            end
        end
  end.

Definition newPrivateHostWhitelist (entries : list string) : result string (option privateHostWhitelist) :=
  match entries with
  | [] => Ok None
  | _ =>
      match read_entries entries (mkWhitelist ∅ []) with
      | Err e => Err e
      | Ok w => Ok (if bool_decide (exact w = ∅) && bool_decide (length (cidrs w) = O) then None else Some w)
      end
  end.

Definition Contains (w : option privateHostWhitelist) (ip : IP) : bool :=
  match w, ip with
  | Some w, _ :: _ =>
      let normalized := normalizeWhitelistIP ip in
      bool_decide (ip_String normalized ∈ exact w) || existsb (fun network => net_Contains network normalized) (cidrs w)
  | _, _ => false
  end.

Definition shouldBlockPrivateIP (ip : IP) (whitelist : option privateHostWhitelist) : bool :=
  isPrivateOrRestrictedIP ip && negb (Contains whitelist ip).

Context (allowPrivateWebFetchHosts : bool).

Definition isObviousPrivateHost (host : string) (whitelist : option privateHostWhitelist) : bool :=
  if allowPrivateWebFetchHosts then false
  else
    let h := TrimSuffix (ToLower (TrimSpace host)) "." in
    if String.eqb h "" then true
    else if String.eqb h "localhost" || HasSuffix h ".localhost" then true
    else match ParseIP h with
         | Some ip => shouldBlockPrivateIP ip whitelist
         | None => false
         end.

(** ** Connections and requests *)

Record URL : Type := mkURL { Scheme : string; Host : string; Hostname : string; target : string }.

Inductive event : Type :=
| Looked (host : string)
| Dialled (address : string)
| Requested (u : URL).

(** The last response: whether it is a challenge (status 403 with the header
    [Cf-Mitigated: challenge]), and its body, which may be too large or break. *)
Record answer : Type := mkAnswer { challenge : bool; body : result string string }.

Inductive response : Type := Redirect (location : URL) | Final (a : answer).

(** The resolver, the network, the servers. *)
Context (lookup : list event -> string -> result string (list IP)) (dial : list event -> string -> option string)
  (respond : list event -> URL -> response).

(** [dialer.DialContext] *)
Definition dialer (tr : list event) (address : string) : list event * result string unit :=
  (tr ++ [Dialled address], match dial tr address with Some e => Err e | None => Ok tt end).

(** The addresses of a name, in order: the first that can be connected to. *)
Fixpoint dial_first (tr : list event) (whitelist : option privateHostWhitelist) (port : string)
    (attempted : Z) (lastErr : option string) (ips : list IP) : list event * result (Z * option string) unit :=
  match ips with
  | [] => (tr, Err (attempted, lastErr))
  | ip :: rest =>
      if shouldBlockPrivateIP ip whitelist then dial_first tr whitelist port attempted lastErr rest
      else
        match dialer tr (JoinHostPort (ip_String ip) port) with
        | (tr, Ok _) => (tr, Ok tt)
        | (tr, Err e) => dial_first tr whitelist port (attempted + 1) (Some e) rest
        end
  end.

Definition safeDialContext (whitelist : option privateHostWhitelist) (tr : list event) (address : string) :
    list event * result string unit :=
  if allowPrivateWebFetchHosts then dialer tr address
  else
    match SplitHostPort address with
    | None => (tr, Err ("invalid target address " +:+ address))
    | Some (host, port) =>
        if String.eqb host "" then (tr, Err "empty target host")
        else
          match ParseIP host with
          | Some ip =>
              if shouldBlockPrivateIP ip whitelist then (tr, Err ("blocked private or local target: " +:+ host))
              else dialer tr (JoinHostPort (ip_String ip) port)
          | None =>
              let tr' := tr ++ [Looked host] in
              match lookup tr host with
              | Err e => (tr', Err ("failed to resolve " +:+ host +:+ ": " +:+ e))
              | Ok ips =>
                  match dial_first tr' whitelist port 0 None ips with
                  | (tr, Ok _) => (tr, Ok tt)
                  | (tr, Err (attempted, lastErr)) =>
                      (tr, Err (if attempted =? 0
                                then "all resolved addresses for " +:+ host +:+ " are private, restricted, or not whitelisted"
                                else match lastErr with
                                     | Some e => "failed connecting to public addresses for " +:+ host +:+ ": " +:+ e
                                     | None => "failed connecting to public addresses for " +:+ host
                                     end))
                  end
              end
          end
    end.

Definition maxRedirects : Z := 5.

(** [CheckRedirect]: the host of the next request, and how many there were. *)
Definition checkRedirect (whitelist : option privateHostWhitelist) (next : URL) (via : Z) : option string :=
  if maxRedirects <=? via then Some "stopped after 5 redirects"
  else if isObviousPrivateHost (Hostname next) whitelist then Some "redirect target is private or local network host"
  else None.

(** [http.Client.Do]: connect to the server of the URL, or to the proxy, and
    follow redirects. [None]: not within [fuel] requests. *)
Fixpoint do (fuel : nat) (whitelist : option privateHostWhitelist) (tr : list event) (via : Z) (u : URL) :
    list event * option (result string answer) :=
  match fuel with
  | O => (tr, None)
  | S fuel' =>
      match safeDialContext whitelist tr (target u) with
      | (tr, Err e) => (tr, Some (Err e))
      | (tr, Ok _) =>
          match respond tr u with
          | Final a => (tr ++ [Requested u], Some (Ok a))
          | Redirect next =>
              match checkRedirect whitelist next (via + 1) with
              | Some e => (tr ++ [Requested u], Some (Err e))
              | None => do fuel' whitelist (tr ++ [Requested u]) (via + 1) next
              end
          end
      end
  end.

Context (Parse : string -> result string URL).

(** [doFetch], with the body read. *)
Definition doFetch (whitelist : option privateHostWhitelist) (tr : list event) (u : URL) :
    list event * option (result string (bool * string)) :=
  match do (Z.to_nat maxRedirects) whitelist tr 0 u with
  | (tr, Some (Ok a)) => (tr, Some (let* b := body a in Ok (challenge a, b)))
  | (tr, Some (Err e)) => (tr, Some (Err e))
  | (tr, None) => (tr, None)
  end.

(** [WebFetchTool.Execute] up to the body of the answer: a challenge is answered
    by one more attempt, with another name for the client. *)
Definition fetch (whitelist : option privateHostWhitelist) (tr : list event) (urlStr : string) :
    list event * option (result string string) :=
  match Parse urlStr with
  | Err e => (tr, Some (Err ("invalid URL: " +:+ e)))
  | Ok parsedURL =>
      if negb (String.eqb (Scheme parsedURL) "http") && negb (String.eqb (Scheme parsedURL) "https")
      then (tr, Some (Err "only http/https URLs are allowed"))
      else if String.eqb (Host parsedURL) "" then (tr, Some (Err "missing domain in URL"))
      else if isObviousPrivateHost (Hostname parsedURL) whitelist
      then (tr, Some (Err "fetching private or local network hosts is not allowed"))
      else
        match doFetch whitelist tr parsedURL with
        | (tr, Some (Ok (true, _))) =>
            let (tr, r2) := doFetch whitelist tr parsedURL in (tr, (fun r => let* p := r in Ok (snd p)) <$> r2)
        | (tr, Some (Ok (false, b))) => (tr, Some (Ok b))
        | (tr, Some (Err e)) => (tr, Some (Err e))
        | (tr, None) => (tr, None)
        end
  end.
End Guard.

Definition looksLikeHTML (body : string) : bool :=
  if String.eqb body "" then false
  else HasPrefix body "<!doctype" || HasPrefix (ToLower body) "<html".

(** ** Only public or allowed addresses are connected to *)

Section Confined.
Context (ip_String : IP -> string) (ParseIP : string -> option IP) (SplitHostPort : string -> option (string * string))
  (JoinHostPort : string -> string -> string)
  (lookup : list event -> string -> result string (list IP)) (dial : list event -> string -> option string)
  (respond : list event -> URL -> response) (whitelist : option privateHostWhitelist).

Definition allowed_event (e : event) : Prop :=
  match e with
  | Dialled a => exists ip port, a = JoinHostPort (ip_String ip) port /\
      (isPrivateOrRestrictedIP ip = false \/ Contains ip_String whitelist ip = true)
  | _ => True
  end.

Lemma shouldBlock_false ip : shouldBlockPrivateIP ip_String ip whitelist = false ->
  isPrivateOrRestrictedIP ip = false \/ Contains ip_String whitelist ip = true.
Proof. intros [H|H%negb_false_iff]%andb_false_iff; auto. Qed.

Lemma dialer_allowed tr ip port : Forall allowed_event tr ->
  shouldBlockPrivateIP ip_String ip whitelist = false ->
  Forall allowed_event (fst (dialer dial tr (JoinHostPort (ip_String ip) port))).
Proof.
  intros Htr Hip. apply Forall_app. split; [done|]. apply Forall_singleton. exists ip, port. by split; [|apply shouldBlock_false].
Qed.

Lemma dial_first_allowed port ips tr n e : Forall allowed_event tr ->
  Forall allowed_event (fst (dial_first ip_String JoinHostPort dial tr whitelist port n e ips)).
Proof.
  revert tr n e. induction ips as [|ip ips IH]; intros tr n e Htr; [done|]. cbn [dial_first].
  destruct (shouldBlockPrivateIP _ ip _) eqn:Eb; [by apply IH|].
  pose proof (dialer_allowed tr ip port Htr Eb) as Hd. destruct (dialer _ tr _) as [tr' [[]|x]]; cbn in *; [done|by apply IH].
Qed.

Lemma safeDial_allowed tr address : Forall allowed_event tr ->
  Forall allowed_event (fst (safeDialContext ip_String ParseIP SplitHostPort JoinHostPort false lookup dial whitelist tr address)).
Proof.
  intros Htr. unfold safeDialContext. destruct (SplitHostPort address) as [[host port]|]; [|done].
  destruct (String.eqb host ""); [done|]. destruct (ParseIP host) as [ip|].
  - destruct (shouldBlockPrivateIP _ ip _) eqn:Eb; [done|]. by apply dialer_allowed.
  - assert (Htr' : Forall allowed_event (tr ++ [Looked host])) by (apply Forall_app; split; [done|by apply Forall_singleton]).
    destruct (lookup tr host) as [ips|e]; [|done].
    pose proof (dial_first_allowed port ips _ 0 None Htr') as Hd.
    destruct (dial_first _ _ _ _ _ _ _ _ ips) as [tr' [[]|[n x]]]; cbn in *; done.
Qed.

Lemma do_allowed fuel tr via u : Forall allowed_event tr ->
  Forall allowed_event (fst (do ip_String ParseIP SplitHostPort JoinHostPort false lookup dial respond fuel whitelist tr via u)).
Proof.
  revert tr via u. induction fuel as [|fuel IH]; intros tr via u Htr; [done|]. cbn [do].
  pose proof (safeDial_allowed tr (target u) Htr) as Hd.
  destruct (safeDialContext _ _ _ _ _ _ _ _ tr (target u)) as [tr' [[]|e]]; cbn in *; [|done].
  assert (Hr : Forall allowed_event (tr' ++ [Requested u])) by (apply Forall_app; split; [done|by apply Forall_singleton]).
  destruct (respond tr' u); [|done]. destruct (checkRedirect _ _ _ _ _ _); [done|by apply IH].
Qed.

(** The requests of a trace. *)
Definition requests (tr : list event) : nat :=
  length (List.filter (fun e => match e with Requested _ => true | _ => false end) tr).

Lemma requests_app tr tr' : requests (tr ++ tr') = (requests tr + requests tr')%nat.
Proof. unfold requests. by rewrite List.filter_app, length_app. Qed.

Lemma dial_first_requests port ips tr n e :
  requests (fst (dial_first ip_String JoinHostPort dial tr whitelist port n e ips)) = requests tr.
Proof.
  revert tr n e. induction ips as [|ip ips IH]; intros tr n e; [done|]. cbn [dial_first].
  destruct (shouldBlockPrivateIP _ ip _); [by apply IH|]. unfold dialer.
  destruct (dial tr _); cbn [fst]; rewrite ?IH, requests_app; cbn; lia.
Qed.

Lemma safeDial_requests allow tr address :
  requests (fst (safeDialContext ip_String ParseIP SplitHostPort JoinHostPort allow lookup dial whitelist tr address)) = requests tr.
Proof.
  unfold safeDialContext, dialer. destruct allow; [cbn [fst]; rewrite requests_app; cbn; lia|].
  destruct (SplitHostPort address) as [[host port]|]; [|done].
  destruct (String.eqb host ""); [done|]. destruct (ParseIP host) as [ip|].
  - destruct (shouldBlockPrivateIP _ ip _); [done|]. cbn [fst]. rewrite requests_app. cbn. lia.
  - destruct (lookup tr host) as [ips|e]; [|cbn [fst]; rewrite requests_app; cbn; lia].
    pose proof (dial_first_requests port ips (tr ++ [Looked host]) 0 None) as Hd.
    destruct (dial_first _ _ _ _ _ _ _ _ ips) as [tr' [[]|[n x]]]; cbn [fst] in *; rewrite Hd, requests_app; cbn; lia.
Qed.

(** There are at most five requests, and then there is an answer. *)
Lemma do_ends allow fuel tr via u : via = maxRedirects - Z.of_nat fuel -> (0 < fuel)%nat ->
  let '(tr', r) := do ip_String ParseIP SplitHostPort JoinHostPort allow lookup dial respond fuel whitelist tr via u in
  r <> None /\ (requests tr' <= requests tr + fuel)%nat.
Proof.
  revert tr via u. induction fuel as [|fuel IH]; intros tr via u Hv Hf; [lia|]. cbn [do].
  pose proof (safeDial_requests allow tr (target u)) as Hd.
  destruct (safeDialContext _ _ _ _ _ _ _ _ tr (target u)) as [tr' [[]|e]]; cbn [fst] in Hd; [|split; [done|lia]].
  destruct (respond tr' u) as [next|body]; [|split; [done|rewrite requests_app; cbn; lia]].
  destruct (checkRedirect _ _ _ _ next (via + 1)) eqn:Ec; [split; [done|rewrite requests_app; cbn; lia]|].
  assert (Hfuel : (0 < fuel)%nat).
  { unfold checkRedirect in Ec. destruct (Z.leb_spec maxRedirects (via + 1)); [done|]. lia. }
  specialize (IH (tr' ++ [Requested u]) (via + 1) next ltac:(lia) Hfuel).
  destruct (do _ _ _ _ _ _ _ _ fuel _ _ _ next) as [tr'' r]. rewrite requests_app in IH. cbn [requests List.filter length] in IH. split; [tauto|lia].
Qed.
End Confined.

(** ** The ranges *)

Definition net4 (a b c d ma mb : Z) : IPNet := mkNet [a; b; c; d] [ma; mb; 0; 0].

(** 0/8, 10/8, 127/8, 169.254/16, 172.16/12, 192.168/16, 100.64/10, 224/4. *)
Definition nets4 : list IPNet :=
  [net4 0 0 0 0 255 0; net4 10 0 0 0 255 0; net4 127 0 0 0 255 0; net4 169 254 0 0 255 255; net4 172 16 0 0 255 240;
   net4 192 168 0 0 255 255; net4 100 64 0 0 255 192; net4 224 0 0 0 240 0].

Definition net6 (a b ma mb : Z) : IPNet := mkNet (a :: b :: repeat 0 14) (ma :: mb :: repeat 0 14).

(** fe80::/10, fc00::/7, ff00::/8; ::1 and :: alone. *)
Definition nets6 : list IPNet :=
  [net6 254 128 255 192; net6 252 0 254 0; net6 255 0 255 0;
   mkNet IPv6loopback (repeat 255 16); mkNet IPv6unspecified (repeat 255 16)].

Definition byte (z : Z) : Prop := 0 <= z < 256.

Lemma byte_check (P : Z -> bool) : forallb P (map Z.of_nat (seq 0 256)) = true -> forall z, byte z -> P z = true.
Proof.
  intros H z Hz. rewrite forallb_forall in H. apply H. apply in_map_iff. exists (Z.to_nat z). split; [unfold byte in Hz; lia|].
  apply in_seq. unfold byte in Hz. lia.
Qed.

Lemma land_255 z : byte z -> Z.land z 255 = z.
Proof. intros Hz. change 255 with (Z.ones 8). rewrite Z.land_ones by lia. apply Z.mod_small. unfold byte in Hz. lia. Qed.

Lemma land_240 z : byte z -> (16 =? Z.land z 240) = (16 <=? z) && (z <=? 31).
Proof. intros Hz. apply eqb_prop. by apply (byte_check (fun z => Bool.eqb (16 =? Z.land z 240) ((16 <=? z) && (z <=? 31)))). Qed.

Lemma land_192 z : byte z -> (64 =? Z.land z 192) = (64 <=? z) && (z <=? 127).
Proof. intros Hz. apply eqb_prop. by apply (byte_check (fun z => Bool.eqb (64 =? Z.land z 192) ((64 <=? z) && (z <=? 127)))). Qed.

Lemma restricted_ipv4 a b c d : byte a -> byte b -> byte c -> byte d ->
  isPrivateIPv4 [a; b; c; d] = existsb (fun n => net_Contains n [a; b; c; d]) nets4.
Proof.
  intros Ha Hb Hc Hd. unfold isPrivateIPv4, special_ip, IsLoopback, IsLinkLocalUnicast, IsLinkLocalMulticast, IsMulticast,
    IsUnspecified, restricted4, at_, net_Contains.
  change (To4 [a; b; c; d]) with (Some [a; b; c; d]). cbn -[Z.land Z.leb Z.eqb bool_decide].
  rewrite !Z.land_0_r, !land_255, land_240, land_192 by done.
  assert (E0 : bool_decide ([a; b; c; d] = [0; 0; 0; 0]) = (a =? 0) && (b =? 0) && (c =? 0) && (d =? 0)).
  { clear. apply eq_true_iff_eq. rewrite bool_decide_eq_true, !andb_true_iff, !Z.eqb_eq.
    split; [intros H; injection H; tauto|]. intros [[[-> ->] ->] ->]. reflexivity. }
  rewrite E0. change (Z.land 224 240) with 224. set (x := Z.land a 240).
  assert (a = 224 -> x = 224) by (intros E; subst x; by rewrite E). clearbody x. clear Ha Hb Hc Hd E0.
  rewrite !Z.eqb_refl, !andb_true_r, orb_false_r, (Z.eqb_sym 224), (Z.eqb_sym 0), (Z.eqb_sym 10), (Z.eqb_sym 127), (Z.eqb_sym 169),
    (Z.eqb_sym 172), (Z.eqb_sym 192), (Z.eqb_sym 100), (Z.eqb_sym 254), (Z.eqb_sym 168).
  apply eq_true_iff_eq. rewrite !orb_true_iff, !andb_true_iff, !Z.eqb_eq. tauto.
Qed.

Lemma restricted_mapped a b c d : isPrivateIPv4 (IPv4 a b c d) = isPrivateIPv4 [a; b; c; d].
Proof. reflexivity. Qed.

Lemma isPrivate_v4 a b c d ip :
  To4 ip = Some [a; b; c; d] -> isPrivateOrRestrictedIP ip = isPrivateIPv4 [a; b; c; d].
Proof.
  intros E. assert (Es : special_ip ip = special_ip [a; b; c; d]).
  { unfold special_ip, IsLoopback, IsLinkLocalUnicast, IsLinkLocalMulticast, IsMulticast, IsUnspecified. by rewrite E. }
  unfold isPrivateOrRestrictedIP, isPrivateIPv4. rewrite E, Es. change (To4 [a; b; c; d]) with (Some [a; b; c; d]).
  destruct ip; [done|]. by destruct (special_ip [a; b; c; d]).
Qed.

Lemma To4_four ip ip4 : To4 ip = Some ip4 -> length ip4 = 4%nat /\ (Forall byte ip -> Forall byte ip4).
Proof.
  unfold To4. destruct (Nat.eqb_spec (length ip) 4) as [H4|_]; [by intros [= <-]|].
  destruct (Nat.eqb_spec (length ip) 16) as [H16|_]; [|done]. cbn [andb]. destruct (_ && _ && _); [|done].
  intros [= <-]. rewrite length_drop, H16. split; [done|]. apply Forall_drop.
Qed.

(** The eight networks on the address in four bytes. *)
Lemma isPrivate_nets4 ip ip4 : Forall byte ip -> To4 ip = Some ip4 ->
  isPrivateOrRestrictedIP ip = existsb (fun n => net_Contains n ip4) nets4.
Proof.
  intros Hb E. destruct (To4_four ip ip4 E) as [Hl Hb4]. specialize (Hb4 Hb).
  destruct ip4 as [|a [|b [|c [|d [|? ?]]]]]; try done. rewrite (isPrivate_v4 a b c d ip E).
  repeat (apply Forall_cons in Hb4 as [? Hb4]). by apply restricted_ipv4.
Qed.

Lemma all16 (P : IP -> Prop) :
  (forall a b c d e f g h i j k l m n o p, P [a; b; c; d; e; f; g; h; i; j; k; l; m; n; o; p]) ->
  forall ip, length ip = 16%nat -> P ip.
Proof. intros H ip Hl. do 16 (destruct ip as [|? ip]; [done|]). by destruct ip. Qed.

Lemma cons_iff (x y : Z) (l k : IP) : x :: l = y :: k <-> x = y /\ l = k.
Proof. split; [by intros [= -> ->]|by intros [-> ->]]. Qed.

Lemma nets6_special ip : Forall byte ip -> length ip = 16%nat -> To4 ip = None ->
  existsb (fun n => net_Contains n ip) nets6 = special_ip ip || (Z.land (at_ ip 0) 254 =? 252).
Proof.
  intros Hb Hl. revert Hb. pattern ip. apply all16; [|done]. clear ip Hl.
  intros a b c d e f g h i j k l m n o p Hb Ht. unfold special_ip, IsLoopback, IsLinkLocalUnicast, IsLinkLocalMulticast, IsMulticast,
    IsUnspecified, net_Contains. rewrite Ht. repeat (apply Forall_cons in Hb as [? Hb]).
  cbn -[Z.land Z.eqb bool_decide]. rewrite !Z.land_0_r, !land_255 by done.
  change (Z.land 254 255) with 254. change (Z.land 128 192) with 128. change (Z.land 252 254) with 252. change (Z.land 255 255) with 255.
  rewrite !Z.eqb_refl, !andb_true_r, orb_false_r, !(Z.eqb_sym 0), (Z.eqb_sym 1), (Z.eqb_sym 254), (Z.eqb_sym 255), (Z.eqb_sym 252), (Z.eqb_sym 128).
  apply eq_true_iff_eq. unfold IPv6loopback, IPv6unspecified.
  rewrite !orb_true_iff, !andb_true_iff, !bool_decide_eq_true, !cons_iff, !Z.eqb_eq.
  assert (Hnil : @nil Z = []) by reflexivity. clear - Hnil. tauto.
Qed.

Lemma xor_twice l : map (fun b => Z.lxor b 255) (map (fun b => Z.lxor b 255) l) = l.
Proof.
  induction l as [|b l IH]; [done|]. cbn [map]. rewrite IH, Z.lxor_assoc, Z.lxor_nilpotent, Z.lxor_0_r. done.
Qed.

Lemma embedded_private a b c d : isPrivateIPv4 (IPv4 a b c d) = isPrivateOrRestrictedIP [a; b; c; d].
Proof. symmetry. by apply isPrivate_v4. Qed.

(** What is private, read as networks: of IPv4 the eight above; of IPv6 the
    five above and what embeds a private address of IPv4 (6to4, Teredo). *)
Theorem isPrivateOrRestrictedIP_ranges (ip : IP) (Hbytes : Forall byte ip)
    (Hlen : length ip = 4%nat \/ length ip = 16%nat) :
  isPrivateOrRestrictedIP ip = true <->
  (exists ip4, To4 ip = Some ip4 /\ existsb (fun n => net_Contains n ip4) nets4 = true) \/
  To4 ip = None /\
    (existsb (fun n => net_Contains n ip) nets6 = true \/
     (exists ip4, isPrivateOrRestrictedIP ip4 = true /\ length ip4 = 4%nat /\
        (take 6 ip = 32 :: 2 :: ip4 \/ take 4 ip = [32; 1; 0; 0] /\ drop 12 ip = map (fun b => Z.lxor b 255) ip4))).
Proof.
  destruct (To4 ip) as [ip4|] eqn:E.
  - rewrite (isPrivate_nets4 ip ip4 Hbytes E). split; [intros H; left; by exists ip4|].
    intros [(? & [= <-] & H)|[? _]]; [done|discriminate].
  - destruct Hlen as [H4|H16]; [by unfold To4 in E; rewrite H4 in E|].
    rewrite (nets6_special ip Hbytes H16 E). revert E. pattern ip. apply all16; [|done]. clear.
    intros a b c d e f g h i j k l m n o p E. unfold isPrivateOrRestrictedIP at 1. rewrite E, !embedded_private.
    set (ip := [a; b; c; d; e; f; g; h; i; j; k; l; m; n; o; p]) in *.
    change (is16 ip) with true. cbn iota. destruct (special_ip ip) eqn:Es; [cbn [orb]; split; [intros _; right; split; [reflexivity|left; reflexivity]|reflexivity]|]. cbn [orb].
    change (at_ ip 0) with a. destruct (Z.land a 254 =? 252); [split; [intros _; right; split; [reflexivity|left; reflexivity]|reflexivity]|].
    transitivity (exists ip4, isPrivateOrRestrictedIP ip4 = true /\ length ip4 = 4%nat /\
        (take 6 ip = 32 :: 2 :: ip4 \/ take 4 ip = [32; 1; 0; 0] /\ drop 12 ip = map (fun b => Z.lxor b 255) ip4)); cycle 1.
    { split; [intros H; right; split; [reflexivity|right; exact H]|]. intros [(? & ? & _)|[_ [H|H]]]; [discriminate|discriminate|exact H]. }
    cbn [at_ nth ip take drop]. split.
    + destruct (Z.eqb_spec a 32) as [->|_]; [|done]. destruct (Z.eqb_spec b 2) as [->|_]; cbn [andb].
      * intros H. exists [c; d; e; f]. auto.
      * destruct (Z.eqb_spec b 1) as [->|_]; [|done]. destruct (Z.eqb_spec c 0) as [->|_]; [|done].
        destruct (Z.eqb_spec d 0) as [->|_]; [|done]. intros H. eexists. split; [exact H|]. split; [done|]. right. split; [done|].
        symmetry. exact (xor_twice [m; n; o; p]).
    + intros (ip4 & H & Hl & [Hx|[Hx Hy]]).
      * injection Hx as -> -> <-. exact H.
      * injection Hx as -> -> -> ->. apply (f_equal (map (fun b => Z.lxor b 255))) in Hy. rewrite xor_twice in Hy. subst ip4. exact H.
Qed.

(** ** The tool *)

Section Fetch.
Context (ip_String : IP -> string) (ParseIP : string -> option IP)
  (SplitHostPort : string -> option (string * string)) (JoinHostPort : string -> string -> string)
  (lookup : list event -> string -> result string (list IP)) (dial : list event -> string -> option string)
  (respond : list event -> URL -> response) (Parse : string -> result string URL) (whitelist : option privateHostWhitelist).

(** One attempt adds allowed events, at most five of them requests, and ends. *)
Lemma doFetch_allowed tr u : Forall (allowed_event ip_String JoinHostPort whitelist) tr ->
  let '(tr', r) := doFetch ip_String ParseIP SplitHostPort JoinHostPort false lookup dial respond whitelist tr u in
  Forall (allowed_event ip_String JoinHostPort whitelist) tr' /\ (requests tr' <= requests tr + 5)%nat /\ r <> None.
Proof.
  intros Htr. unfold doFetch. change (Z.to_nat maxRedirects) with 5%nat.
  pose proof (do_allowed ip_String ParseIP SplitHostPort JoinHostPort lookup dial respond whitelist 5 tr 0 u Htr) as H1.
  pose proof (do_ends ip_String ParseIP SplitHostPort JoinHostPort lookup dial respond whitelist false 5 tr 0 u ltac:(reflexivity) ltac:(lia)) as H2.
  destruct (do _ _ _ _ _ _ _ _ 5 _ _ _ u) as [tr' [[a|e]|]]; cbn [fst] in H1; split_and!; tauto || done.
Qed.

(** C7: Whatever names resolve to, connections do and servers answer, with any
    redirects and the second attempt after a challenge, [web_fetch] connects only
    to addresses that are not private, or that are allowed, sends at most ten
    requests (five for each attempt), and ends. *)
Theorem fetch_dials_public (urlStr : string) :
  let '(tr, r) := fetch ip_String ParseIP SplitHostPort JoinHostPort false lookup dial respond Parse whitelist [] urlStr in
  Forall (allowed_event ip_String JoinHostPort whitelist) tr /\ (requests tr <= 10)%nat /\ r <> None.
Proof.
  unfold fetch. destruct (Parse urlStr) as [u|e]; [|by split_and!; [constructor|cbn; lia|]].
  destruct (negb _ && negb _); [by split_and!; [constructor|cbn; lia|]|].
  destruct (String.eqb (Host u) ""); [by split_and!; [constructor|cbn; lia|]|].
  destruct (isObviousPrivateHost _ _ _ _ _); [by split_and!; [constructor|cbn; lia|]|].
  pose proof (doFetch_allowed [] u ltac:(constructor)) as H1.
  destruct (doFetch _ _ _ _ _ _ _ _ _ [] u) as [tr1 r1]; destruct H1 as (Ha & Hn & Hr); cbn in Hn.
  destruct r1 as [[[[] b]|e]|]; try (split_and!; [done|lia|done]).
  pose proof (doFetch_allowed tr1 u Ha) as H2. destruct (doFetch _ _ _ _ _ _ _ _ _ tr1 u) as [tr2 r2]; destruct H2 as (Ha2 & Hn2 & Hr2).
  split_and!; [done|lia|by destruct r2].
Qed.
End Fetch.

(** Where connections go to a proxy at a private address that is not allowed,
    nothing can be fetched. *)
Lemma private_proxy_blocks ip_String ParseIP SplitHostPort JoinHostPort lookup dial respond whitelist fuel tr via u host port ip :
  SplitHostPort (target u) = Some (host, port) -> ParseIP host = Some ip ->
  shouldBlockPrivateIP ip_String ip whitelist = true ->
  exists e, do ip_String ParseIP SplitHostPort JoinHostPort false lookup dial respond (S fuel) whitelist tr via u = (tr, Some (Err e)).
Proof.
  intros Hs Hp Hb. cbn [do]. unfold safeDialContext. rewrite Hs. destruct (String.eqb host ""); [by eexists|].
  rewrite Hp, Hb. by eexists.
Qed.

(** The address of the metadata service, also embedded; a public one. *)
Example metadata_service :
  isPrivateOrRestrictedIP [169; 254; 169; 254] = true /\
  isPrivateOrRestrictedIP (IPv4 169 254 169 254) = true /\
  isPrivateOrRestrictedIP (32 :: 2 :: 169 :: 254 :: 169 :: 254 :: repeat 0 10) = true /\
  isPrivateOrRestrictedIP [8; 8; 8; 8] = false.
Proof. vm_compute. auto. Qed.

(** The type of a document in capitals is not seen. *)
Lemma capital_doctype_is_not_html : looksLikeHTML "<!DOCTYPE html><p>" = false /\ looksLikeHTML "<!doctype html><p>" = true.
Proof. vm_compute. auto. Qed.

Definition demo_6to4 : IP := 32 :: 2 :: 10 :: 0 :: 0 :: 1 :: repeat 0 10.

Lemma isPrivateOrRestrictedIP_ranges_witness :
  isPrivateOrRestrictedIP demo_6to4 = true /\ existsb (fun n => net_Contains n [10; 0; 0; 1]) nets4 = true.
Proof.
  split; [|vm_compute; reflexivity].
  apply (isPrivateOrRestrictedIP_ranges demo_6to4).
  - unfold demo_6to4, byte. repeat (apply Forall_cons_2; [lia|]). apply Forall_nil_2.
  - right. reflexivity.
  - right. split; [reflexivity|]. right. exists [10; 0; 0; 1]. split; [vm_compute; reflexivity|]. split; [reflexivity|]. left. reflexivity.
Defined.

(** * Keys and ranges of the web search: [src/pkg/tools/web.go]

    The keys of a provider are used in turn; a range of time has a name of its
    own for each provider. *)
Module WebSearch.
Import Prelude GoStrings.

Definition uint32 (z : Z) : Z := z mod 2 ^ 32.

Record APIKeyPool : Type := mkPool { keys : list string; current : Z }.

Definition NewAPIKeyPool (keys : list string) : APIKeyPool := mkPool keys 0.

Record APIKeyIterator : Type := mkIterator { startIdx : Z; attempt : Z }.

Definition NewIterator (p : APIKeyPool) : APIKeyPool * APIKeyIterator :=
  match keys p with
  | [] => (p, mkIterator 0 0)
  | _ =>
      let current := uint32 (current p + 1) in
      (mkPool (keys p) current, mkIterator (uint32 (current - 1)) 0)
  end.

(** [None] when every key was tried. *)
Definition Next (p : APIKeyPool) (it : APIKeyIterator) : APIKeyIterator * option string :=
  let length_ := uint32 (Z.of_nat (length (keys p))) in
  if (length_ =? 0) || (length_ <=? attempt it) then (it, None)
  else
    (mkIterator (startIdx it) (uint32 (attempt it + 1)),
     keys p !! Z.to_nat (uint32 (startIdx it + attempt it) mod length_)).

(** The keys that the next [n] calls return. *)
Fixpoint next_keys (n : nat) (p : APIKeyPool) (it : APIKeyIterator) : list (option string) :=
  match n with
  | O => []
  | S n' => let '(it', k) := Next p it in k :: next_keys n' p it'
  end.

Definition normalizeSearchRange (raw : string) : option string :=
  let rangeCode := ToLower (TrimSpace raw) in
  if existsb (String.eqb rangeCode) [""; "d"; "w"; "m"; "y"] then Some rangeCode else None.

(** A [switch] over the codes of a range. *)
Definition by_code (d w m y other rangeCode : string) : string :=
  if String.eqb rangeCode "d" then d else if String.eqb rangeCode "w" then w
  else if String.eqb rangeCode "m" then m else if String.eqb rangeCode "y" then y else other.

Definition mapBraveFreshness : string -> string := by_code "pd" "pw" "pm" "py" "".
Definition mapTavilyTimeRange : string -> string := by_code "day" "week" "month" "year" "".
Definition mapPerplexityRecencyFilter : string -> string := by_code "day" "week" "month" "year" "".
Definition mapDuckDuckGoDateFilter : string -> string := by_code "d" "w" "m" "t" "".
Definition mapSearXNGTimeRange : string -> string := by_code "day" "week" "month" "year" "".
Definition mapGLMRecencyFilter : string -> string := by_code "oneDay" "oneWeek" "oneMonth" "oneYear" "noLimit".
Definition mapBaiduRecencyFilter : string -> string := by_code "week" "week" "month" "year" "".

(** ** Each key once *)

Lemma next_keys_from p it n :
  (0 < length (keys p))%nat -> Z.of_nat (length (keys p)) < 2 ^ 32 ->
  0 <= startIdx it -> startIdx it + Z.of_nat (length (keys p)) <= 2 ^ 32 ->
  0 <= attempt it -> attempt it + Z.of_nat n <= Z.of_nat (length (keys p)) ->
  next_keys n p it = map (fun i => keys p !! Z.to_nat ((startIdx it + attempt it + Z.of_nat i) mod Z.of_nat (length (keys p)))) (seq 0 n).
Proof.
  intros Hk Hk' Hs Hs'. set (L := Z.of_nat (length (keys p))) in *.
  revert it Hs Hs'. induction n as [|n IH]; intros it Hs Hs' Ha Hn; [done|]. cbn [next_keys]. unfold Next. fold L.
  assert (EL : uint32 L = L) by (unfold uint32; apply Z.mod_small; lia). rewrite EL.
  destruct (Z.eqb_spec L 0); [lia|]. destruct (Z.leb_spec L (attempt it)); [lia|]. cbn [orb].
  assert (Es : uint32 (startIdx it + attempt it) = startIdx it + attempt it) by (unfold uint32; apply Z.mod_small; lia).
  assert (Ea : uint32 (attempt it + 1) = attempt it + 1) by (unfold uint32; apply Z.mod_small; lia).
  rewrite Es, Ea, IH by (cbn; lia). cbn [startIdx attempt seq map]. f_equal; [by rewrite Z.add_0_r|].
  rewrite <- seq_shift, map_map. apply map_ext. intros i. do 2 f_equal. f_equal. lia.
Qed.

Lemma next_keys_end p it n :
  (0 < length (keys p))%nat -> Z.of_nat (length (keys p)) < 2 ^ 32 ->
  0 <= attempt it -> attempt it + Z.of_nat n = Z.of_nat (length (keys p)) ->
  next_keys (S n) p it = next_keys n p it ++ [None].
Proof.
  intros Hk Hk'. set (L := Z.of_nat (length (keys p))) in *.
  assert (EL : uint32 L = L) by (unfold uint32; apply Z.mod_small; lia).
  revert it. induction n as [|n IH]; intros it Ha Hn.
  - cbn [next_keys app]. unfold Next. fold L. rewrite EL. destruct (Z.leb_spec L (attempt it)); [|lia]. by rewrite orb_true_r.
  - change (next_keys (S (S n)) p it) with (let '(it', k) := Next p it in k :: next_keys (S n) p it').
    change (next_keys (S n) p it) with (let '(it', k) := Next p it in k :: next_keys n p it').
    unfold Next. fold L. rewrite EL. destruct (Z.eqb_spec L 0); [lia|]. destruct (Z.leb_spec L (attempt it)); [lia|]. cbn [orb].
    assert (Ea : uint32 (attempt it + 1) = attempt it + 1) by (unfold uint32; apply Z.mod_small; lia).
    rewrite Ea. rewrite IH by (cbn; lia). done.
Qed.

Lemma lookups {A} (l : list A) m : forall k, (k + m <= length l)%nat ->
  map (fun i => l !! (k + i)%nat) (seq 0 m) = map Some (take m (drop k l)).
Proof.
  induction m as [|m IH]; intros k Hk; [done|]. destruct (lookup_lt_is_Some_2 l k ltac:(lia)) as [x Hx].
  rewrite (drop_S l x k Hx). cbn [seq map take]. rewrite Nat.add_0_r, Hx. f_equal. rewrite <- IH by lia.
  rewrite <- seq_shift, map_map. apply map_ext. intros i. by replace (k + S i)%nat with (S k + i)%nat by lia.
Qed.

Lemma seq_from j m : seq j m = map (Nat.add j) (seq 0 m).
Proof.
  revert j. induction m as [|m IH]; intros j; [done|]. cbn [seq map]. rewrite (IH (S j)), <- seq_shift, map_map, Nat.add_0_r.
  f_equal. apply map_ext. intros i. lia.
Qed.

Lemma rotation {A} (l : list A) (s : Z) : 0 <= s -> l <> [] ->
  let r := Z.to_nat (s mod Z.of_nat (length l)) in
  map (fun i => l !! Z.to_nat ((s + Z.of_nat i) mod Z.of_nat (length l))) (seq 0 (length l)) =
  map Some (drop r l ++ take r l).
Proof.
  intros Hs Hl. cbv zeta. set (L := Z.of_nat (length l)).
  assert (HL : 0 < L) by (unfold L; destruct l; [done|cbn [length]; lia]).
  pose proof (Z.mod_pos_bound s L HL) as Hb. set (r := s mod L) in *. set (k := Z.to_nat r).
  assert (Hk : (k < length l)%nat) by lia.
  assert (Hm : forall i, (0 <= i)%Z -> (s + i) mod L = (r + i) mod L) by (intros i _; unfold r; by rewrite Z.add_mod_idemp_l by lia).
  replace (length l) with ((length l - k) + k)%nat at 1 by lia. rewrite seq_app, !map_app. f_equal.
  - rewrite <- (take_ge (drop k l) (length l - k)) by (rewrite length_drop; lia). rewrite <- lookups by lia.
    apply map_ext_in. intros i Hi%in_seq. rewrite Hm, Z.mod_small by lia. f_equal. lia.
  - assert (El : take k l = take k (drop 0 l)) by done. rewrite El, <- lookups by lia. rewrite seq_from, map_map.
    apply map_ext_in. intros i Hi%in_seq. rewrite Hm by lia.
    replace (r + Z.of_nat (0 + (length l - k) + i)) with (Z.of_nat i + 1 * L) by lia.
    rewrite Z.mod_add, Z.mod_small by lia. f_equal. lia.
Qed.

(** An iterator gives every key of its pool exactly once, the first one
    being the next in turn, and then nothing; unless its counter is about to
    wrap around. *)
Theorem iterator_gives_each_key (p p' : APIKeyPool) (it : APIKeyIterator)
    (Hiter : NewIterator p = (p', it))
    (Hkeys : 0 < Z.of_nat (length (keys p)) < 2 ^ 32)
    (Hcurrent : 0 <= current p /\ current p + Z.of_nat (length (keys p)) <= 2 ^ 32) :
  next_keys (length (keys p)) p' it ≡ₚ map Some (keys p) /\
  head (next_keys (length (keys p)) p' it) = Some (keys p !! Z.to_nat (current p mod Z.of_nat (length (keys p)))) /\
  last (next_keys (S (length (keys p))) p' it) = Some None.
Proof.
  unfold NewIterator in Hiter. destruct (keys p) as [|k ks] eqn:Ek; [cbn in Hkeys; lia|]. rewrite <- Ek in *.
  injection Hiter as <- <-. set (L := Z.of_nat (length (keys p))) in *.
  assert (Es : uint32 (uint32 (current p + 1) - 1) = current p).
  { unfold uint32. rewrite Zminus_mod_idemp_l, Z.add_simpl_r. apply Z.mod_small. lia. }
  rewrite Es. assert (Hlen : (0 < length (keys p))%nat) by lia.
  rewrite next_keys_end by (cbn; lia). rewrite next_keys_from by (cbn; lia). cbn [keys startIdx attempt].
  rewrite (map_ext _ (fun i => keys p !! Z.to_nat ((current p + Z.of_nat i) mod L))) by (intros i; by rewrite Z.add_0_r).
  pose proof (rotation (keys p) (current p) ltac:(lia) ltac:(by rewrite Ek)) as Hrot. cbv zeta in Hrot. fold L in Hrot.
  rewrite Hrot. clear Hrot. set (r := Z.to_nat (current p mod L)).
  assert (Hr : (r < length (keys p))%nat) by (unfold r; pose proof (Z.mod_pos_bound (current p) L ltac:(lia)); lia).
  split; [|split].
  - rewrite Permutation_app_comm, take_drop. done.
  - destruct (lookup_lt_is_Some_2 (keys p) r Hr) as [x Hx]. by rewrite (drop_S _ x r Hx), Hx.
  - apply last_snoc.
Qed.

Definition demo_pool : APIKeyPool := mkPool ["a"; "b"; "c"] 1.

Lemma iterator_gives_each_key_witness :
  next_keys 3 (fst (NewIterator demo_pool)) (snd (NewIterator demo_pool)) ≡ₚ map Some ["a"; "b"; "c"].
Proof.
  exact (proj1 (iterator_gives_each_key demo_pool (fst (NewIterator demo_pool)) (snd (NewIterator demo_pool))
    (surjective_pairing _) ltac:(cbn; lia) ltac:(cbn; lia))).
Defined.

(** Where the counter wraps around, a key comes twice and another not at all. *)
Lemma wrap_around_repeats :
  let '(p, it) := NewIterator (mkPool ["a"; "b"; "c"] (2 ^ 32 - 1)) in
  next_keys 3 p it = [Some "a"; Some "a"; Some "b"].
Proof. vm_compute. reflexivity. Qed.

(** A range that is accepted has a name for every provider. *)
Lemma ranges_are_mapped raw code : normalizeSearchRange raw = Some code -> code <> "" ->
  Forall (fun f => f code <> "")
    [mapBraveFreshness; mapTavilyTimeRange; mapPerplexityRecencyFilter; mapDuckDuckGoDateFilter; mapSearXNGTimeRange;
     mapGLMRecencyFilter; mapBaiduRecencyFilter].
Proof.
  unfold normalizeSearchRange. destruct (existsb _ _) eqn:E; [|done]. intros [= <-] Hne.
  apply existsb_exists in E as (x & Hx & Ex). apply String.eqb_eq in Ex. rewrite Ex in *.
  apply list_elem_of_In in Hx. repeat (apply elem_of_cons in Hx as [->|Hx]; [try done; repeat constructor; done|]).
  by apply not_elem_of_nil in Hx.
Qed.
End WebSearch.
