(* ===== verification/ShellSessions.v ===== *)
(** * Background commands: [src/pkg/tools/session.go], the actions of [shell.go]

    A session has a process, the output that was not read yet, and the keys that
    its terminal expects. The agent's actions and the goroutines that copy
    output and wait for processes work on the same sessions: sessions live in a
    heap, and the manager has references to them. Whether system calls succeed,
    what processes print and when they end are arguments. *)

From stdpp Require Import gmap.
From S2P Require Import Prelude GoStrings Hooks ToolArgs FileTools.

(** ** Keys *)

Inductive PtyKeyMode : Type := PtyKeyModeCSI | PtyKeyModeSS3.

Definition esc (s : string) : string := String (ascii_of_nat 27) s.
Definition byte (n : nat) : string := String (ascii_of_nat n) "".

Definition keyMap : list (string * string) :=
  [("enter", byte 13); ("return", byte 13); ("tab", byte 9); ("escape", esc ""); ("esc", esc ""); ("space", " ");
   ("backspace", byte 127); ("bspace", byte 127); ("up", esc "[A"); ("down", esc "[B"); ("right", esc "[C"); ("left", esc "[D");
   ("home", esc "[1~"); ("end", esc "[4~"); ("pageup", esc "[5~"); ("pagedown", esc "[6~"); ("pgup", esc "[5~"); ("pgdn", esc "[6~");
   ("insert", esc "[2~"); ("ic", esc "[2~"); ("delete", esc "[3~"); ("del", esc "[3~"); ("dc", esc "[3~"); ("btab", esc "[Z");
   ("f1", esc "OP"); ("f2", esc "OQ"); ("f3", esc "OR"); ("f4", esc "OS"); ("f5", esc "[15~"); ("f6", esc "[17~"); ("f7", esc "[18~");
   ("f8", esc "[19~"); ("f9", esc "[20~"); ("f10", esc "[21~"); ("f11", esc "[23~"); ("f12", esc "[24~")].

Definition ss3KeysMap : list (string * string) :=
  [("up", esc "OA"); ("down", esc "OB"); ("right", esc "OC"); ("left", esc "OD"); ("home", esc "OH"); ("end", esc "OF")].

Definition key_of (m : list (string * string)) (key : string) : option string := snd <$> find_first (fun e => String.eqb (fst e) key) m.

Definition upper_byte (c : ascii) : ascii := if is_lower c then ascii_of_nat (nat_of_ascii c - 32) else c.
Definition ToUpper (s : string) : string := implode (map upper_byte (chars s)).

(** The place where the text is found last. *)
Fixpoint l_last_index (p : list ascii) (i : Z) (l : list ascii) (last : Z) : Z :=
  let last := if l_prefix p l then i else last in
  match l with [] => last | _ :: l' => l_last_index p (i + 1) l' last end.

Definition LastIndex (s p : string) : Z := l_last_index (chars p) 0 (chars s) (-1).

(** [None]: the text has neither sequence. *)
Definition detectPtyKeyMode (raw : string) : option PtyKeyMode :=
  let lastSmkx := LastIndex raw (esc "[?1h") in
  let lastRmkx := LastIndex raw (esc "[?1l") in
  if (lastSmkx =? -1) && (lastRmkx =? -1) then None
  else if lastRmkx <? lastSmkx then Some PtyKeyModeSS3 else Some PtyKeyModeCSI.

(** The bytes for a key, an error, or an index that is out of range. *)
Inductive key_result : Type := Keys (seq : string) | BadKey (text : string) | KeyPanic.

(** [token[i]] with control pressed. *)
Definition ctrl (token : string) (i : nat) : key_result :=
  match chars token !! i with
  | None => KeyPanic
  | Some c => if is_lower c then Keys (byte (nat_of_ascii c - 96)) else BadKey ("invalid ctrl key: " +:+ token)
  end.

Definition encodeKeyToken (token : string) (ptyKeyMode : PtyKeyMode) : key_result :=
  let token := ToLower (TrimSpace token) in
  if String.eqb token "" then Keys ""
  else if HasPrefix token "c-" then ctrl token 2
  else if HasPrefix token "ctrl-" then ctrl token 5
  else if HasPrefix token "m-" || HasPrefix token "alt-" then
    let char := if HasPrefix token "m-" then slice_from token 2 else slice_from token 4 in
    if len char =? 1 then Keys (esc char) else BadKey ("invalid alt key: " +:+ token)
  else if HasPrefix token "s-" || HasPrefix token "shift-" then
    let key := if HasPrefix token "s-" then slice_from token 2 else slice_from token 6 in
    match key_of keyMap key with
    | Some seq => Keys (if len seq =? 1 then ToUpper seq else seq)
    | None => BadKey ("unknown key with shift: " +:+ key)
    end
  else
    match (match ptyKeyMode with PtyKeyModeSS3 => key_of ss3KeysMap token | PtyKeyModeCSI => None end) with
    | Some seq => Keys seq
    | None =>
        match key_of keyMap token with
        | Some seq => Keys seq
        | None => BadKey ("unknown key: " +:+ token +:+ " (use write action for text input)")
        end
    end.

Fixpoint encodeKeySequence (tokens : list string) (ptyKeyMode : PtyKeyMode) : key_result :=
  match tokens with
  | [] => Keys ""
  | token :: tokens' =>
      match encodeKeyToken token ptyKeyMode with
      | Keys seq => match encodeKeySequence tokens' ptyKeyMode with Keys rest => Keys (seq +:+ rest) | r => r end
      | r => r
      end
  end.

(** ** Sessions *)

Record ProcessSession : Type := mkSession {
  ID : string; PID : Z; Command : string; PTY : bool; StartTime : Z; ExitCode : Z; Status : string;
  ptyMaster : bool; stdinWriter : bool;
  (** [None]: the pointer is nil *)
  outputBuffer : option string; outputTruncated : bool; ptyKeyMode : PtyKeyMode
}.

Definition maxOutputBufferSize : Z := 1 * 1024 * 1024.
Definition outputTruncateMarker : string := nl +:+ "... [output truncated, exceeded 1MB]" +:+ nl.

Inductive session_error : Type := ErrSessionNotFound | ErrSessionDone | ErrNoStdin | ErrWrite (text : string).

Definition session_error_text (e : session_error) : string :=
  match e with
  | ErrSessionNotFound => "session not found"
  | ErrSessionDone => "session already completed"
  | ErrNoStdin => "no stdin available"
  | ErrWrite text => text
  end.

Definition IsDone (s : ProcessSession) : bool := String.eqb (Status s) "done" || String.eqb (Status s) "exited".

Definition SetPtyKeyMode (mode : PtyKeyMode) (s : ProcessSession) : ProcessSession :=
  mkSession (ID s) (PID s) (Command s) (PTY s) (StartTime s) (ExitCode s) (Status s) (ptyMaster s) (stdinWriter s)
    (outputBuffer s) (outputTruncated s) mode.

Definition finish (code : Z) (s : ProcessSession) : ProcessSession :=
  mkSession (ID s) (PID s) (Command s) (PTY s) (StartTime s) code "done" (ptyMaster s) (stdinWriter s)
    (outputBuffer s) (outputTruncated s) (ptyKeyMode s).

Definition set_output (buffer : option string) (truncated : bool) (s : ProcessSession) : ProcessSession :=
  mkSession (ID s) (PID s) (Command s) (PTY s) (StartTime s) (ExitCode s) (Status s) (ptyMaster s) (stdinWriter s)
    buffer truncated (ptyKeyMode s).

(** [killProcess]; the signal itself never reports an error. The process that
    is killed, if any. *)
Definition killProcess (s : ProcessSession) : ProcessSession * option session_error * option Z :=
  if negb (String.eqb (Status s) "running") then (s, Some ErrSessionDone, None)
  else if PID s <=? 0 then (s, Some ErrSessionNotFound, None)
  else (finish (-1) s, None, Some (PID s)).

(** [failed]: what the operating system says about the write. *)
Definition Write (failed : option string) (s : ProcessSession) : option session_error :=
  if negb (String.eqb (Status s) "running") then Some ErrSessionDone
  else if PTY s && ptyMaster s || stdinWriter s then ErrWrite <$> failed
  else Some ErrNoStdin.

(** [None]: the nil buffer is used, a panic. *)
Definition Read (s : ProcessSession) : option (ProcessSession * string) :=
  match outputBuffer s with
  | None => None
  | Some data => if String.eqb data "" then Some (s, "") else Some (set_output (Some "") (outputTruncated s) s, data)
  end.

(** What the goroutine does with a chunk of output; a terminal may change the
    mode of its keys first. *)
Definition append_output (chunk : string) (s : ProcessSession) : option ProcessSession :=
  match outputBuffer s with
  | None => None
  | Some data =>
      Some (if maxOutputBufferSize <=? len data
            then (if outputTruncated s then s else set_output (Some (data +:+ outputTruncateMarker)) true s)
            else set_output (Some (data +:+ chunk)) (outputTruncated s) s)
  end.

Definition copy_chunk (chunk : string) (s : ProcessSession) : option ProcessSession :=
  append_output chunk (if PTY s then match detectPtyKeyMode chunk with Some mode => SetPtyKeyMode mode s | None => s end else s).

(** ** The manager *)

Record shell : Type := mkShell { heap : gmap nat ProcessSession; sessions : gmap string nat }.

Definition update (ref : nat) (f : ProcessSession -> ProcessSession) (w : shell) : shell :=
  mkShell (alter f ref (heap w)) (sessions w).

Definition Add (id : string) (ref : nat) (w : shell) : shell := mkShell (heap w) (<[id := ref]> (sessions w)).

Definition Get (id : string) (w : shell) : option (nat * ProcessSession) :=
  ref ← sessions w !! id; s ← heap w !! ref; Some (ref, s).

Definition Remove (id : string) (w : shell) : shell := mkShell (heap w) (delete id (sessions w)).

(** Done, and started more than thirty minutes ago. *)
Definition is_old (now : Z) (s : ProcessSession) : bool := IsDone s && (StartTime s <? now - 30 * 60).

Definition cleanupOldSessions (now : Z) (w : shell) : shell :=
  mkShell (heap w) (filter (fun e => match heap w !! snd e with Some s => is_old now s | None => false end = false) (sessions w)).

Record SessionInfo : Type := mkInfo { InfoID : string; InfoCommand : string; InfoStatus : string; InfoPID : Z; StartedAt : Z }.

Definition ToSessionInfo (s : ProcessSession) : SessionInfo := mkInfo (ID s) (Command s) (Status s) (PID s) (StartTime s).

(** In the order of an iteration over the map. *)
Definition List (order : list string) (w : shell) : list SessionInfo :=
  omap (fun id => ToSessionInfo ∘ snd <$> Get id w) order.

(** ** The actions *)

Record ExecResponse : Type := mkResponse {
  RespSessionID : string; RespStatus : string; RespExitCode : Z; RespOutput : string; RespSessions : list SessionInfo
}.

Inductive action : Type := Answer (r : ToolResult) | Panic.

Section Actions.
Context (Marshal : ExecResponse -> string).

Definition respond (r : ExecResponse) (forUser : string) : action :=
  Answer (mkToolResult (Marshal r) forUser false false false None [] [] false).
Definition refuse (text : string) : action := Answer (ErrorResult text).

Definition exited (s : ProcessSession) : string := "process already exited with code " +:+ itoa (ExitCode s).

Definition executeList (order : list string) (w : shell) : shell * action :=
  let infos := List order w in
  (w, respond (mkResponse "" "" 0 "" infos) (itoa (Z.of_nat (length infos)) +:+ " active sessions")).

(** The session of the arguments, or the answer that there is none. *)
Definition with_session (args : fields) (w : shell) (f : string -> nat -> ProcessSession -> shell * action) : shell * action :=
  match arg args "sessionId" with
  | None => (w, refuse "sessionId is required")
  | Some id => match Get id w with
               | None => (w, refuse ("session not found: " +:+ id))
               | Some (ref, s) => f id ref s
               end
  end.

Definition executePoll (args : fields) (w : shell) : shell * action :=
  with_session args w (fun id _ s => (w, respond (mkResponse id (Status s) (ExitCode s) "" []) "")).

Definition executeRead (args : fields) (w : shell) : shell * action :=
  with_session args w (fun id ref s =>
    match Read s with
    | None => (w, Panic)
    | Some (s', output) => (update ref (fun _ => s') w, respond (mkResponse id (Status s') 0 output []) "")
    end).

(** What is said about a write that has failed. *)
Definition write_refused (what : string) (s : ProcessSession) (e : session_error) : action :=
  match e with
  | ErrSessionDone => refuse (exited s)
  | _ => refuse (what +:+ session_error_text e)
  end.

Definition executeWrite (args : fields) (failed : option string) (w : shell) : shell * action :=
  match arg args "sessionId", arg args "data" with
  | None, _ => (w, refuse "sessionId is required")
  | Some _, None => (w, refuse "data is required")
  | Some _, Some _ =>
      with_session args w (fun id _ s =>
        if IsDone s then (w, refuse (exited s))
        else match Write failed s with
             | Some e => (w, write_refused "failed to write to session: " s e)
             | None => (w, respond (mkResponse id (Status s) 0 "" []) "")
             end)
  end.

Definition executeKill (args : fields) (w : shell) : shell * action :=
  with_session args w (fun id ref s =>
    if IsDone s then (w, refuse (exited s))
    else match killProcess s with
         | (_, Some e, _) => (w, refuse ("failed to kill session: " +:+ session_error_text e))
         | (s', None, _) =>
             (Remove id (update ref (fun _ => s') w), respond (mkResponse id "done" 0 "" []) ("Session " +:+ id +:+ " killed"))
         end).

Definition key_names (keys : string) : list string :=
  filter (fun k => k <> "") (map TrimSpace (SplitN keys "," (S (length (chars keys))))).

Definition executeSendKeys (args : fields) (failed : option string) (w : shell) : shell * action :=
  match arg args "sessionId", arg args "keys" with
  | None, _ => (w, refuse "sessionId is required")
  | Some _, None => (w, refuse "keys must be a string")
  | Some _, Some keysStr =>
      let keys := key_names keysStr in
      if bool_decide (keys = []) then (w, refuse "keys cannot be empty")
      else
        with_session args w (fun id _ s =>
          match encodeKeySequence keys (ptyKeyMode s) with
          | KeyPanic => (w, Panic)
          | BadKey e => (w, refuse ("invalid key: " +:+ e))
          | Keys _ =>
              if IsDone s then (w, refuse (exited s))
              else match Write failed s with
                   | Some e => (w, write_refused "failed to send keys: " s e)
                   | None => (w, respond (mkResponse id "running" 0 ("Sent keys: [" +:+ join " " keys +:+ "]") []) "")
                   end
          end)
  end.

(** ** Starting *)

(** [runBackground] up to the start of the process: the terminal or the pipes,
    and the process itself may fail. [ref] is the new session. *)
Inductive started : Type := StartFailed (text : string) | Started (pid : Z).

Definition new_session (id command : string) (pty : bool) (now pid : Z) : ProcessSession :=
  mkSession id pid command pty now 0 "running" pty (negb pty) None false PtyKeyModeCSI.

(** The session is in the manager before it has a buffer. *)
Definition register_session (id command : string) (pty : bool) (now pid : Z) (ref : nat) (w : shell) : shell :=
  Add id ref (mkShell (<[ref := new_session id command pty now pid]> (heap w)) (sessions w)).

Definition set_buffer (ref : nat) (w : shell) : shell := update ref (fun s => set_output (Some "") (outputTruncated s) s) w.

Definition runBackground (id command : string) (pty : bool) (now : Z) (start : started) (ref : nat) (w : shell) : shell * action :=
  match start with
  | StartFailed text => (w, refuse text)
  | Started pid =>
      (set_buffer ref (register_session id command pty now pid ref w),
       respond (mkResponse id "running" 0 "" []) ("Session " +:+ id +:+ " started"))
  end.
End Actions.

(** * Theorems *)

(** ** Keys *)

(** A key token panics exactly when it is a control prefix with nothing behind. *)
Lemma encodeKeyToken_panics token mode : encodeKeyToken token mode = KeyPanic <->
  (ToLower (TrimSpace token) = "c-" \/ ToLower (TrimSpace token) = "ctrl-").
Proof.
  unfold encodeKeyToken; set (t := ToLower (TrimSpace token)).
  assert (forall p n, length (chars p) = n -> HasPrefix t p = true -> ctrl t n = KeyPanic <-> t = p) as Hctrl.
  { intros p n Hn Hp; unfold ctrl; unfold HasPrefix in Hp; apply l_prefix_spec in Hp as [r Hr].
    rewrite Hr, lookup_app_r, Hn, Nat.sub_diag by lia; destruct r as [|c r]; cbn.
    - split; [intros _ | done]; apply chars_inj; rewrite Hr, app_nil_r; done.
    - split; [destruct (is_lower c); done|]; intros E; apply (f_equal chars) in E; rewrite E in Hr.
      apply (f_equal length) in Hr; rewrite length_app in Hr; cbn in Hr; lia. }
  destruct (String.eqb_spec t ""); [split; [done | intros [E|E]; rewrite E in *; done]|].
  destruct (HasPrefix t "c-") eqn:E1.
  { rewrite (Hctrl "c-" 2%nat) by done; split; [by left|]; intros [?|E]; [done|]; rewrite E in E1; done. }
  destruct (HasPrefix t "ctrl-") eqn:E2.
  { rewrite (Hctrl "ctrl-" 5%nat) by done; split; [by right|]; intros [E|?]; [|done]; rewrite E in E1; done. }
  split; [|intros [E|E]; rewrite E in *; done].
  destruct (HasPrefix t "m-" || HasPrefix t "alt-"); [destruct (len _ =? 1); done|].
  destruct (HasPrefix t "s-" || HasPrefix t "shift-"); [destruct (key_of keyMap _); done|].
  destruct mode; [|destruct (key_of ss3KeysMap t); [done|]]; destruct (key_of keyMap t); done.
Qed.

(** Only the first character behind the prefix counts: control with an arrow
    key is another control key, which erases the line. *)
Example ctrl_up_erases_the_line : encodeKeyToken "ctrl-up" PtyKeyModeCSI = encodeKeyToken "ctrl-u" PtyKeyModeCSI.
Proof. vm_compute. reflexivity. Qed.

(** ** Output *)

(** What happens to a session: output arrives, the agent reads, the process
    ends or is killed. *)
Inductive session_event : Type := Chunk (text : string) | ReadOutput | Exits (code : Z) | Kills.

(** The session and what reads have given. *)
Definition session_step (e : session_event) (x : ProcessSession * list string) : option (ProcessSession * list string) :=
  let (s, reads) := x in
  match e with
  | Chunk text => s' ← copy_chunk text s; Some (s', reads)
  | ReadOutput => '(s', data) ← Read s; Some (s', reads ++ [data])
  | Exits code => Some (finish code s, reads)
  | Kills => Some (fst (fst (killProcess s)), reads)
  end.

Fixpoint session_run (es : list session_event) (x : ProcessSession * list string) : option (ProcessSession * list string) :=
  match es with [] => Some x | e :: es' => x' ← session_step e x; session_run es' x' end.

Definition chunks_of (es : list session_event) : list string := omap (fun e => match e with Chunk t => Some t | _ => None end) es.

Lemma copy_chunk_parts text s s' : copy_chunk text s = Some s' -> exists data, outputBuffer s = Some data /\ Status s' = Status s /\
  if maxOutputBufferSize <=? len data
  then outputTruncated s' = true /\ (outputBuffer s' = if outputTruncated s then Some data else Some (data +:+ outputTruncateMarker))
  else outputTruncated s' = outputTruncated s /\ outputBuffer s' = Some (data +:+ text).
Proof.
  unfold copy_chunk; set (s1 := if PTY s then _ else s).
  assert (outputBuffer s1 = outputBuffer s /\ outputTruncated s1 = outputTruncated s /\ Status s1 = Status s) as (E1 & E2 & E3).
  { subst s1; destruct (PTY s); [|done]; destruct (detectPtyKeyMode text); done. }
  unfold append_output; rewrite E1, E2; destruct (outputBuffer s) as [data|]; [|done]; intros [= <-]; exists data.
  destruct (maxOutputBufferSize <=? len data); [destruct (outputTruncated s) eqn:Ht|]; cbn; rewrite ?E1, ?E2, ?E3, ?Ht; done.
Qed.

Fixpoint cat (l : list string) : string := match l with [] => "" | s :: l' => s +:+ cat l' end.

Lemma cat_app l k : cat (l ++ k) = cat l +:+ cat k.
Proof. induction l as [|s l IH]; cbn; [done|]; rewrite IH, append_assoc; done. Qed.

Definition seen (x : ProcessSession * list string) : string := cat (snd x) +:+ default "" (outputBuffer (fst x)).

(** What is seen are chunks in order, the marker stands where the first was left
    out, and none is left out before it. *)
Record faithful (chunks : list string) (x : ProcessSession * list string) (before after : list string) : Prop := {
  faithful_seen : seen x = cat before +:+ (if outputTruncated (fst x) then outputTruncateMarker else "") +:+ cat after;
  faithful_sub : before ++ after `sublist_of` chunks;
  faithful_all : outputTruncated (fst x) = false -> before = chunks /\ after = [];
  faithful_prefix : before `prefix_of` chunks
}.

Lemma faithful_chunk chunks x text before after s' : faithful chunks x before after -> copy_chunk text (fst x) = Some s' ->
  exists after' before', faithful (chunks ++ [text]) (s', snd x) before' after'.
Proof.
  destruct x as [s reads]; intros [Hs Hsub Hall Hp]; cbn [fst snd] in *; intros H; apply copy_chunk_parts in H as (data & Hd & _ & H).
  unfold seen in Hs; cbn [fst snd] in Hs; rewrite Hd in Hs; cbn [from_option id] in Hs.
  destruct (maxOutputBufferSize <=? len data); destruct H as [Ht Hb]; destruct (outputTruncated s) eqn:E.
  - exists after, before; split; unfold seen; cbn [fst snd]; rewrite ?Ht, ?Hb; cbn [from_option id]; [exact Hs | | done|].
    + apply sublist_inserts_r; done.
    + apply prefix_app_r; done.
  - destruct (Hall eq_refl) as [-> ->]; exists [], chunks; split; unfold seen; cbn [fst snd]; rewrite ?Ht, ?Hb; cbn [from_option id cat]; [| | done|].
    + rewrite append_assoc, Hs; cbn; rewrite !append_nil_r; done.
    + rewrite app_nil_r; apply sublist_inserts_r; done.
    + apply prefix_app_r; done.
  - exists (after ++ [text]), before; split; unfold seen; cbn [fst snd]; rewrite ?Ht, ?Hb; cbn [from_option id]; [| | done|].
    + rewrite append_assoc, Hs, cat_app; cbn [cat]; rewrite append_nil_r, <- !append_assoc; done.
    + rewrite app_assoc; apply sublist_app; done.
    + apply prefix_app_r; done.
  - destruct (Hall eq_refl) as [-> ->]; exists [], (chunks ++ [text]); split; unfold seen; cbn [fst snd]; rewrite ?Ht, ?Hb; cbn [from_option id]; [| | done|done].
    + rewrite append_assoc, Hs, cat_app; cbn [cat]; rewrite !append_nil_r; done.
    + rewrite app_nil_r; done.
Qed.

(** Steps that leave what is seen and the mark. *)
Lemma faithful_same chunks x x' before after : seen x' = seen x -> outputTruncated (fst x') = outputTruncated (fst x) ->
  faithful chunks x before after -> faithful chunks x' before after.
Proof. intros Hs Ht [H1 H2 H3 H4]; split; rewrite ?Hs, ?Ht; done. Qed.

Lemma session_step_faithful chunks e x x' before after : faithful chunks x before after -> session_step e x = Some x' ->
  exists before' after', faithful (chunks ++ chunks_of [e]) x' before' after'.
Proof.
  intros Hf; destruct x as [s reads]; destruct e as [text| |code|]; cbn [session_step chunks_of omap list_omap]; rewrite ?app_nil_r.
  - destruct (copy_chunk text s) as [s'|] eqn:E; cbn; [|done]; intros [= <-].
    destruct (faithful_chunk _ _ _ _ _ _ Hf E) as (a & b & H); eauto.
  - unfold Read; destruct (outputBuffer s) as [data|] eqn:E; cbn; [|done]; intros H.
    exists before, after; revert Hf; apply faithful_same; destruct (String.eqb_spec data ""); injection H as <-; try done;
      unfold seen; cbn [fst snd]; rewrite cat_app; cbn; rewrite ?E, ?append_nil_r; subst; cbn; rewrite ?append_nil_r; done.
  - intros [= <-]; exists before, after; revert Hf; apply faithful_same; done.
  - intros [= <-]; exists before, after; revert Hf; unfold killProcess.
    destruct (negb _); [done|]; destruct (PID s <=? 0); [done|]; apply faithful_same; done.
Qed.

Lemma session_run_faithful es : forall chunks x x' before after, faithful chunks x before after -> session_run es x = Some x' ->
  exists before' after', faithful (chunks ++ chunks_of es) x' before' after'.
Proof.
  induction es as [|e es IH]; intros chunks x x' before after Hf; cbn [session_run].
  - intros [= <-]; cbn; rewrite app_nil_r; eauto.
  - destruct (session_step e x) as [x1|] eqn:E; cbn; [|done]; intros Hr.
    destruct (session_step_faithful _ _ _ _ _ _ Hf E) as (b & a & H1).
    destruct (IH _ _ _ _ _ H1 Hr) as (b' & a' & H2); exists b', a'; rewrite <- app_assoc in H2.
    destruct e; exact H2.
Qed.

(** What the agent reads of a command in the background, with what waits to
    be read, is the output of the command in order: all of it as long as no
    truncation is marked; otherwise everything up to the marker, and of what
    comes after it some chunks, in order. *)
Theorem session_output es s reads id command pty now pid :
  session_run es (set_output (Some "") false (new_session id command pty now pid), []) = Some (s, reads) ->
  exists before after,
    cat reads +:+ default "" (outputBuffer s) = cat before +:+ (if outputTruncated s then outputTruncateMarker else "") +:+ cat after /\
    before `prefix_of` chunks_of es /\ before ++ after `sublist_of` chunks_of es /\
    (outputTruncated s = false -> before = chunks_of es /\ after = []).
Proof.
  intros Hr; destruct (session_run_faithful es [] (set_output (Some "") false (new_session id command pty now pid), []) (s, reads) [] []) as (b & a & [H1 H2 H3 H4]).
  - split; done.
  - exact Hr.
  - exists b, a; split_and!; done.
Qed.

(** The chunks are at most [n] bytes, as the buffer of the goroutine. *)
Definition small (n : Z) (e : session_event) : Prop := match e with Chunk t => len t <= n | _ => True end.

Definition fits (n : Z) (x : ProcessSession * list string) : Prop :=
  match outputBuffer (fst x) with
  | None => True
  | Some data => len data <= maxOutputBufferSize - 1 + n + (if outputTruncated (fst x) then len outputTruncateMarker else 0)
  end.

Lemma session_step_fits n e x x' : 0 <= n -> small n e -> fits n x -> session_step e x = Some x' -> fits n x'.
Proof.
  intros Hn He Hf; destruct x as [s reads]; unfold fits in *; cbn [fst] in *; destruct e as [text| |code|]; cbn [session_step small] in *.
  - destruct (copy_chunk text s) as [s'|] eqn:E; cbn; [|done]; intros [= <-]; cbn [fst].
    apply copy_chunk_parts in E as (data & Hd & _ & H); rewrite Hd in Hf.
    destruct (Z.leb_spec maxOutputBufferSize (len data)); destruct H as [Ht Hb]; rewrite Ht, ?Hb; [destruct (outputTruncated s); [done|]|];
      rewrite len_append; [lia|]. assert (0 <= len outputTruncateMarker) by done; destruct (outputTruncated s); lia.
  - assert (0 <= len outputTruncateMarker) by done; assert (maxOutputBufferSize = 1048576) by done.
    unfold Read; destruct (outputBuffer s) as [data|] eqn:E; cbn; [|done]; intros H'; destruct (String.eqb data ""); injection H' as <-; cbn [fst].
    + rewrite E; done.
    + cbn [outputBuffer set_output outputTruncated]; change (len "") with 0; destruct (outputTruncated s); lia.
  - intros [= <-]; done.
  - intros [= <-]; unfold killProcess; destruct (negb _); [done|]; destruct (PID s <=? 0); done.
Qed.

(** The memory that output takes is bounded, whatever the command prints. *)
Theorem session_memory n es s reads id command pty now pid : 0 <= n -> Forall (small n) es ->
  session_run es (set_output (Some "") false (new_session id command pty now pid), []) = Some (s, reads) ->
  len (default "" (outputBuffer s)) <= maxOutputBufferSize - 1 + n + len outputTruncateMarker.
Proof.
  intros Hn Hes Hr. enough (fits n (s, reads)) as Hf.
  { unfold fits in Hf; cbn [fst] in Hf; assert (0 <= len outputTruncateMarker) by done; assert (maxOutputBufferSize = 1048576) by done.
    destruct (outputBuffer s); simpl; [|change (len "") with 0; lia]; destruct (outputTruncated s); lia. }
  revert Hr; assert (fits n (set_output (Some "") false (new_session id command pty now pid), [])) as Hf.
  { unfold fits; cbn [fst outputBuffer set_output outputTruncated]; change (len "") with 0; assert (maxOutputBufferSize = 1048576) by done; lia. }
  revert Hf; generalize (set_output (Some "") false (new_session id command pty now pid), @nil string) as x.
  induction Hes as [|e es He Hes IH]; intros x Hf; cbn [session_run]; [intros [= ->]; done|].
  destruct (session_step e x) as [x1|] eqn:E; cbn; [|done]; apply IH; eapply session_step_fits; eauto.
Qed.

(** ** Sessions that are over *)

(** A finished session stays finished, and refuses input. *)
Lemma done_is_forever e s reads s' reads' : Status s = "done" -> session_step e (s, reads) = Some (s', reads') -> Status s' = "done".
Proof.
  intros Hs; destruct e as [text| |code|]; cbn [session_step].
  - destruct (copy_chunk text s) as [s1|] eqn:E; cbn; [|done]; intros [= <- <-]; apply copy_chunk_parts in E as (d & _ & -> & _); done.
  - unfold Read; destruct (outputBuffer s) as [data|]; cbn; [|done]; destruct (String.eqb data ""); intros [= <- <-]; done.
  - intros [= <- <-]; done.
  - unfold killProcess; rewrite Hs; cbn; intros [= <- <-]; done.
Qed.

Lemma done_refuses_input s failed : Status s = "done" -> Write failed s = Some ErrSessionDone.
Proof. unfold Write; intros ->; done. Qed.

(** Cleaning takes the sessions that are done and were started more than half an
    hour ago, however recently they have ended. *)
Lemma cleanup_spec now w id : sessions (cleanupOldSessions now w) !! id =
  match sessions w !! id with
  | Some ref => match heap w !! ref with Some s => if is_old now s then None else Some ref | None => Some ref end
  | None => None
  end.
Proof.
  unfold cleanupOldSessions; cbn [sessions]; rewrite map_lookup_filter; destruct (sessions w !! id) as [ref|]; [|done]; simpl.
  destruct (heap w !! ref) as [s|]; [destruct (is_old now s)|]; reflexivity.
Qed.

Lemma long_session_is_lost_at_once now w id ref s code : sessions w !! id = Some ref -> heap w !! ref = Some s ->
  StartTime s < now - 30 * 60 -> Get id (cleanupOldSessions now (update ref (finish code) w)) = None.
Proof.
  intros Hi Hh Hs; unfold Get; rewrite cleanup_spec; cbn [sessions heap update]; rewrite Hi, lookup_alter_eq, Hh; cbn [fmap option_fmap option_map].
  unfold is_old; change (StartTime (finish code s)) with (StartTime s); rewrite (proj2 (Z.ltb_lt _ _) Hs); reflexivity.
Qed.

(** A session can be found before it has a buffer; reading it then panics. *)
Example read_before_buffer Marshal :
  executeRead Marshal [("sessionId", VString "a")] (register_session "a" "make" false 0 7 0 (mkShell ∅ ∅)) =
  (register_session "a" "make" false 0 7 0 (mkShell ∅ ∅), Panic).
Proof. reflexivity. Qed.

(** A control prefix alone makes the action panic. *)
Example empty_control_key_panics Marshal :
  snd (executeSendKeys Marshal [("sessionId", VString "a"); ("keys", VString "ctrl-")] None
    (fst (runBackground Marshal "a" "vi" true 0 (Started 7) 0 (mkShell ∅ ∅)))) = Panic.
Proof. reflexivity. Qed.

(** ** A run *)

Definition demo_session : ProcessSession * list string := (set_output (Some "") false (new_session "a" "make" false 0 7), []).

Lemma session_output_witness : exists s reads before after,
  session_run [Chunk "one "; ReadOutput; Chunk "two"; Exits 0; Chunk " three"] demo_session = Some (s, reads) /\
  cat reads +:+ default "" (outputBuffer s) = "one two three" /\
  cat reads +:+ default "" (outputBuffer s) = cat before +:+ (if outputTruncated s then outputTruncateMarker else "") +:+ cat after.
Proof.
  destruct (session_run [Chunk "one "; ReadOutput; Chunk "two"; Exits 0; Chunk " three"] demo_session) as [[s reads]|] eqn:E;
    [|vm_compute in E; discriminate].
  destruct (session_output _ s reads "a" "make" false 0 7 E) as (before & after & H & _).
  exists s, reads, before, after; split; [reflexivity|]; split; [|exact H].
  vm_compute in E; injection E as <- <-; vm_compute; reflexivity.
Defined.

Lemma session_memory_witness : exists s reads,
  session_run [Chunk "one "; ReadOutput; Chunk "two"] demo_session = Some (s, reads) /\
  len (default "" (outputBuffer s)) <= maxOutputBufferSize - 1 + 4096 + len outputTruncateMarker.
Proof.
  destruct (session_run [Chunk "one "; ReadOutput; Chunk "two"] demo_session) as [[s reads]|] eqn:E; [|vm_compute in E; discriminate].
  exists s, reads; split; [reflexivity|].
  apply (session_memory 4096 [Chunk "one "; ReadOutput; Chunk "two"] s reads "a" "make" false 0 7); [lia | | exact E].
  repeat constructor; vm_compute; discriminate.
Defined.
