(* ===== verification/ShellGuard.v ===== *)
(** * Commands of the shell: [src/pkg/tools/shell.go]

    Before a command runs, its text is compared with patterns of dangerous
    commands, the absolute paths in it must lead into the working directory, and
    the working directory into the workspace. The file system, the working
    directory of the program and what processes do are arguments. *)

From S2P Require Import Prelude GoStrings GoLib.
Import GoRegexp.
From S2P Require Import GoPath PathPolicy Hooks ToolArgs FileTools ShellSessions.

(** ** Patterns

    A pattern with alternatives is the list of its ways through them. *)

Fixpoint ways (l : list (list regex)) : list regex :=
  match l with
  | [] => [[]]
  | alternatives :: l' => r ← alternatives; k ← ways l'; [r ++ k]
  end.

Definition pattern (source : string) (l : list (list regex)) : Regexp :=
  mkRegexp source (fun s => existsb (fun r => GoRegexp.MatchString r s) (ways l)).

Definition lit (s : string) : list regex := [ALit s].
Definition lits (l : list string) : list regex := map ALit l.
Definition word_end : list regex := [[AWordB]].
Definition spaces : list regex := [APlus cSpace].
Definition maybe_spaces : list regex := [[AStar cSpace]].
Definition anything : list regex := [[AStar cAny]].
Definition one (p : cls) : list regex := [[ACls p]].
Definition none_of (s : string) : cls := fun c => negb (cOneOf s c).
(** [\b...\b] *)
Definition word (l : list string) : list (list regex) := [word_end; lits l; word_end].
(** [[p]{1,2}] *)
Definition one_or_two (p : cls) : list regex := [[ACls p; ARep p 1]].

Definition octal : cls := between 48 55.
Definition backquote : string := String (ascii_of_nat 96) "".

Definition heredoc : Regexp := pattern "<<\s*EOF" [lit "<<"; maybe_spaces; lit "EOF"].

Definition defaultDenyPatterns : list Regexp :=
  [pattern "\brm\s+-[rf]{1,2}\b" [word_end; lit "rm"; spaces; lit "-"; one_or_two (cOneOf "rf"); word_end];
   pattern "\bdel\s+/[fq]\b" [word_end; lit "del"; spaces; lit "/"; one (cOneOf "fq"); word_end];
   pattern "\brmdir\s+/s\b" [word_end; lit "rmdir"; spaces; lit "/s"; word_end];
   pattern "(^|[^-\w])\b(format|mkfs|diskpart)\b\s"
     [[[ABegin]; [ACls (fun c => negb (Ascii.eqb c "-"%char || cWord c))]]; word_end; lits ["format"; "mkfs"; "diskpart"]; word_end; one cSpace];
   pattern "\bdd\s+if=" [word_end; lit "dd"; spaces; lit "if="];
   pattern ">\s*/dev/(sd[a-z]|hd[a-z]|vd[a-z]|xvd[a-z]|nvme\d|mmcblk\d|loop\d|dm-\d|md\d|sr\d|nbd\d)"
     [lit ">"; maybe_spaces; lit "/dev/";
      map (fun s => ALit s ++ [ACls is_lower]) ["sd"; "hd"; "vd"; "xvd"] ++
      map (fun s => ALit s ++ [ACls cDigit]) ["nvme"; "mmcblk"; "loop"; "dm-"; "md"; "sr"; "nbd"]];
   pattern "\b(shutdown|reboot|poweroff)\b" (word ["shutdown"; "reboot"; "poweroff"]);
   pattern ":\(\)\s*\{.*\};\s*:" [lit ":()"; maybe_spaces; lit "{"; anything; lit "};"; maybe_spaces; lit ":"];
   pattern "\$\([^)]+\)" [lit "$("; [APlus (none_of ")")]; lit ")"];
   pattern "\$\{[^}]+\}" [lit "${"; [APlus (none_of "}")]; lit "}"];
   pattern "`[^`]+`" [lit backquote; [APlus (none_of backquote)]; lit backquote];
   pattern "\|\s*sh\b" [lit "|"; maybe_spaces; lit "sh"; word_end];
   pattern "\|\s*bash\b" [lit "|"; maybe_spaces; lit "bash"; word_end];
   pattern ";\s*rm\s+-[rf]" [lit ";"; maybe_spaces; lit "rm"; spaces; lit "-"; one (cOneOf "rf")];
   pattern "&&\s*rm\s+-[rf]" [lit "&&"; maybe_spaces; lit "rm"; spaces; lit "-"; one (cOneOf "rf")];
   pattern "\|\|\s*rm\s+-[rf]" [lit "||"; maybe_spaces; lit "rm"; spaces; lit "-"; one (cOneOf "rf")];
   heredoc;
   pattern "\$\(\s*cat\s+" [lit "$("; maybe_spaces; lit "cat"; spaces];
   pattern "\$\(\s*curl\s+" [lit "$("; maybe_spaces; lit "curl"; spaces];
   pattern "\$\(\s*wget\s+" [lit "$("; maybe_spaces; lit "wget"; spaces];
   pattern "\$\(\s*which\s+" [lit "$("; maybe_spaces; lit "which"; spaces];
   pattern "\bsudo\b" (word ["sudo"]);
   pattern "\bchmod\s+[0-7]{3,4}\b" [word_end; lit "chmod"; spaces; [[ACls octal; ACls octal; ACls octal; ARep octal 1]]; word_end];
   pattern "\bchown\b" (word ["chown"]);
   pattern "\bpkill\b" (word ["pkill"]);
   pattern "\bkillall\b" (word ["killall"]);
   pattern "\bkill\b" (word ["kill"]);
   pattern "\bcurl\b.*\|\s*(sh|bash)" (word ["curl"] ++ [anything; lit "|"; maybe_spaces; lits ["sh"; "bash"]]);
   pattern "\bwget\b.*\|\s*(sh|bash)" (word ["wget"] ++ [anything; lit "|"; maybe_spaces; lits ["sh"; "bash"]]);
   pattern "\bnpm\s+install\s+-g\b" [word_end; lit "npm"; spaces; lit "install"; spaces; lit "-g"; word_end];
   pattern "\bpip\s+install\s+--user\b" [word_end; lit "pip"; spaces; lit "install"; spaces; lit "--user"; word_end];
   pattern "\bapt\s+(install|remove|purge)\b" [word_end; lit "apt"; spaces; lits ["install"; "remove"; "purge"]; word_end];
   pattern "\byum\s+(install|remove)\b" [word_end; lit "yum"; spaces; lits ["install"; "remove"]; word_end];
   pattern "\bdnf\s+(install|remove)\b" [word_end; lit "dnf"; spaces; lits ["install"; "remove"]; word_end];
   pattern "\bdocker\s+run\b" [word_end; lit "docker"; spaces; lit "run"; word_end];
   pattern "\bdocker\s+exec\b" [word_end; lit "docker"; spaces; lit "exec"; word_end];
   pattern "\bgit\s+push\b" [word_end; lit "git"; spaces; lit "push"; word_end];
   pattern "\bgit\s+force\b" [word_end; lit "git"; spaces; lit "force"; word_end];
   pattern "\bssh\b.*@" (word ["ssh"] ++ [anything; lit "@"]);
   pattern "\beval\b" (word ["eval"]);
   pattern "\bsource\s+.*\.sh\b" [word_end; lit "source"; spaces; anything; lit ".sh"; word_end]].

(** ** Absolute paths in a text *)

Fixpoint run (p : cls) (l : list ascii) : nat :=
  match l with c :: l' => if p c then S (run p l') else O | [] => O end.

Definition is_letter (c : ascii) : bool := is_lower c || is_upper c.
Definition double_quote : ascii := ascii_of_nat 34.
Definition single_quote : ascii := ascii_of_nat 39.

(** What goes on with a path of Windows, and with one of Unix. *)
Definition drive_char (c : ascii) : bool := negb (Ascii.eqb c backslash || Ascii.eqb c double_quote || Ascii.eqb c single_quote).
Definition path_char (c : ascii) : bool := negb (cSpace c || Ascii.eqb c double_quote || Ascii.eqb c single_quote).

(** The length of a match of [absolutePathPattern] at this place. *)
Definition absolute_path (l : list ascii) : option nat :=
  match (match l with
         | c :: colon :: b :: l' =>
             if is_letter c && Ascii.eqb colon ":"%char && Ascii.eqb b backslash && (0 <? run drive_char l')%nat
             then Some (3 + run drive_char l')%nat else None
         | _ => None
         end) with
  | Some n => Some n
  | None => match l with
            | c :: l' => if Ascii.eqb c "/"%char && (0 <? run path_char l')%nat then Some (S (run path_char l')) else None
            | [] => None
            end
  end.

(** [FindAllStringIndex]: what comes before each match, and the match. [skip]
    bytes belong to a match that was found. *)
Fixpoint find_all (skip : nat) (before l : list ascii) : list (list ascii * list ascii) :=
  match l with
  | [] => []
  | c :: l' =>
      match skip with
      | S skip' => find_all skip' (before ++ [c]) l'
      | O =>
          match absolute_path l with
          | Some n => (before, take n l) :: find_all (n - 1) (before ++ [c]) l'
          | None => find_all 0 (before ++ [c]) l'
          end
      end
  end.

Definition safePaths : list string :=
  ["/dev/null"; "/dev/zero"; "/dev/random"; "/dev/urandom"; "/dev/stdin"; "/dev/stdout"; "/dev/stderr"].

Definition webSchemes : list string := ["http:"; "https:"; "ftp:"; "ftps:"; "sftp:"; "ssh:"; "git:"].

(** ** The tool *)

Record ExecTool : Type := mkExecTool {
  workingDir : string; timeout : Z; denyPatterns : list Regexp; allowPatterns : list Regexp;
  customAllowPatterns : list Regexp; allowedPathPatterns : list Regexp; restrictToWorkspace : bool; allowRemote : bool
}.

Record ExecConfig : Type := mkExecConfig {
  EnableDenyPatterns : bool; AllowRemote : bool; CustomDenyPatterns : list string; CustomAllowPatterns : list string;
  TimeoutSeconds : Z
}.

Definition SetTimeout (d : Z) (t : ExecTool) : ExecTool :=
  mkExecTool (workingDir t) d (denyPatterns t) (allowPatterns t) (customAllowPatterns t) (allowedPathPatterns t) (restrictToWorkspace t) (allowRemote t).
Definition SetRestrictToWorkspace (restrict : bool) (t : ExecTool) : ExecTool :=
  mkExecTool (workingDir t) (timeout t) (denyPatterns t) (allowPatterns t) (customAllowPatterns t) (allowedPathPatterns t) restrict (allowRemote t).

Section Tool.
Context (Compile : string -> option Regexp).

Fixpoint compile_all (what : string) (patterns : list string) : result string (list Regexp) :=
  match patterns with
  | [] => Ok []
  | p :: patterns' =>
      match Compile p with
      | None => Err (what +:+ p)
      | Some re => let* rest := compile_all what patterns' in Ok (re :: rest)
      end
  end.

(** The patterns compiled so far stay when one does not compile. *)
Fixpoint compile_some (patterns : list string) : list Regexp * option string :=
  match patterns with
  | [] => ([], None)
  | p :: patterns' =>
      match Compile p with
      | None => ([], Some ("invalid allow pattern " +:+ p))
      | Some re => let (rest, e) := compile_some patterns' in (re :: rest, e)
      end
  end.

Definition SetAllowPatterns (patterns : list string) (t : ExecTool) : ExecTool * option string :=
  let (res, e) := compile_some patterns in
  (mkExecTool (workingDir t) (timeout t) (denyPatterns t) res (customAllowPatterns t) (allowedPathPatterns t) (restrictToWorkspace t) (allowRemote t), e).

Definition NewExecToolWithConfig (workingDir : string) (restrict : bool) (cfg : option ExecConfig) (allowPaths : list Regexp) :
    result string ExecTool :=
  match cfg with
  | None => Ok (mkExecTool workingDir 0 defaultDenyPatterns [] [] allowPaths restrict true)
  | Some c =>
      let* deny := (if EnableDenyPatterns c
                    then let* custom := compile_all "invalid custom deny pattern " (CustomDenyPatterns c) in Ok (defaultDenyPatterns ++ custom)
                    else Ok []) in
      let* allow := compile_all "invalid custom allow pattern " (CustomAllowPatterns c) in
      Ok (mkExecTool workingDir (if 0 <? TimeoutSeconds c then wrap64 (TimeoutSeconds c * 1000000000) else 0)
            deny [] allow allowPaths restrict (AllowRemote c))
  end.

Definition NewExecTool (workingDir : string) (restrict : bool) (allowPaths : list Regexp) : result string ExecTool :=
  NewExecToolWithConfig workingDir restrict None allowPaths.
End Tool.

(** ** The guard *)

Section Guard.
Context (EvalSymlinks : string -> result fs_error string) (Getwd : option string).

Definition matches_any (patterns : list Regexp) (s : string) : bool := existsb (fun p => MatchString p s) patterns.

(** The path of an address of the web. *)
Definition is_web_url (before raw : string) : bool :=
  HasPrefix raw "//" && negb (String.eqb before "") && existsb (HasSuffix before) webSchemes.

Definition is_safe (p : string) (patterns : list Regexp) : bool :=
  existsb (String.eqb p) safePaths || isAllowedPath EvalSymlinks p patterns.

Definition escapes (patterns : list Regexp) (cwdPath : string) (m : list ascii * list ascii) : bool :=
  let before := implode (fst m) in
  let raw := implode (snd m) in
  if is_web_url before raw then false
  else
    match Abs Getwd raw with
    | None => false
    | Some p =>
        if is_safe p patterns then false
        else match Rel cwdPath p with None => false | Some rel => HasPrefix rel ".." end
    end.

Definition guard_paths (t : ExecTool) (cmd cwd : string) : string :=
  if Contains cmd "..\" || Contains cmd "../" then "Command blocked by safety guard (path traversal detected)"
  else
    match Abs Getwd cwd with
    | None => ""
    | Some cwdPath =>
        if existsb (escapes (allowedPathPatterns t) cwdPath) (find_all 0 [] (chars cmd))
        then "Command blocked by safety guard (path outside working dir)" else ""
    end.

(** The reason against the command, or the empty text. *)
Definition guardCommand (t : ExecTool) (command cwd : string) : string :=
  let cmd := TrimSpace command in
  let lower := ToLower cmd in
  if negb (matches_any (customAllowPatterns t) lower) && matches_any (denyPatterns t) lower
  then "Command blocked by safety guard (dangerous pattern detected)"
  else if negb (bool_decide (allowPatterns t = nil)) && negb (matches_any (allowPatterns t) lower)
  then "Command blocked by safety guard (not in allowlist)"
  else if restrictToWorkspace t then guard_paths t cmd cwd else "".

(** ** Where a command runs *)

(** The directory that is asked for. *)
Definition choose_cwd (t : ExecTool) (args : fields) : result string string :=
  match arg args "cwd" with
  | Some wd =>
      if String.eqb wd "" then Ok (workingDir t)
      else if restrictToWorkspace t && negb (String.eqb (workingDir t) "") then
        match validatePathWithAllowPaths EvalSymlinks Getwd wd (workingDir t) true (allowedPathPatterns t) with
        | Ok resolved => Ok resolved
        | Err e => Err ("Command blocked by safety guard (" +:+
                        match e with Denied text | Unresolved text => text | Undefined => "workspace is not defined" end +:+ ")")
        end
      else Ok wd
  | None => Ok (workingDir t)
  end.

(** It is resolved once more just before the command runs. *)
Definition recheck (t : ExecTool) (cwd : string) : result string string :=
  if restrictToWorkspace t && negb (String.eqb (workingDir t) "") && negb (String.eqb cwd (workingDir t)) then
    match EvalSymlinks cwd with
    | Err _ => Err "Command blocked by safety guard (path resolution failed)"
    | Ok resolved =>
        if isAllowedPath EvalSymlinks resolved (allowedPathPatterns t) then Ok resolved
        else
          match Rel (real_workspace EvalSymlinks (default "" (Abs Getwd (workingDir t)))) resolved with
          | Some rel => if IsLocal rel then Ok resolved
                        else Err "Command blocked by safety guard (working directory escaped workspace)"
          | None => Err "Command blocked by safety guard (working directory escaped workspace)"
          end
    end
  else Ok cwd.
End Guard.

(** ** Running *)

(** How waiting for the process ends. *)
Inductive wait_error : Type := ExitError (code : Z) | OtherFailure (text : string).

Record process_end : Type := mkEnd { stdout : string; stderr : string; waited : option wait_error; timed_out : bool }.

Definition output_of (e : process_end) : string :=
  if String.eqb (stderr e) "" then stdout e else stdout e +:+ nl +:+ "STDERR:" +:+ nl +:+ stderr e.

Definition wait_note (e : wait_error) : string :=
  match e with
  | ExitError code => nl +:+ nl +:+ "[Command exited with code " +:+ itoa code +:+ "]" +:+ (if code =? -1 then " (killed by signal)" else "")
  | OtherFailure text => nl +:+ nl +:+ "[Command failed: " +:+ text +:+ "]"
  end.

Definition maxLen : nat := 10000.

Definition truncated (output : string) : string :=
  if (maxLen <? length (chars output))%nat
  then slice_to output maxLen +:+ nl +:+ "... (truncated, " +:+ itoa (Z.of_nat (length (chars output) - maxLen)) +:+ " more chars)"
  else output.

(** The result of a command that was started; [shown]: the time limit. *)
Definition sync_result (shown : string) (e : process_end) : ToolResult :=
  let output := output_of e in
  match waited e with
  | Some err =>
      if timed_out e then
        let msg := "Command timed out after " +:+ shown +:+
                   (if String.eqb output "" then "" else nl +:+ nl +:+ "Partial output before timeout:" +:+ nl +:+ output) in
        mkToolResult msg msg false true false (Some "command timeout") [] [] false
      else
        let text := truncated (output +:+ wait_note err) in mkToolResult text text false true false None [] [] false
  | None =>
      let text := truncated (if String.eqb output "" then "(no output)" else output) in
      mkToolResult text text false false false None [] [] false
  end.

Section Run.
Context {W : Type} (Getwd : option string) (show : Z -> string).

(** The file system when the command is checked and when it starts; a process
    that runs to its end, or one that cannot be started; the background. *)
Context (before_ after_ : string -> result fs_error string)
  (process : string -> string -> Z -> W -> W * result string process_end)
  (runBackground : string -> string -> bool -> W -> W * ToolResult).

Definition runSync (t : ExecTool) (command cwd : string) (w : W) : W * ToolResult :=
  let (w, r) := process command cwd (timeout t) w in
  (w, match r with
      | Err e => ErrorResult ("failed to start command: " +:+ e)
      | Ok e => sync_result (show (timeout t)) e
      end).

Definition IsInternalChannel (channel : string) : bool :=
  String.eqb channel "cli" || String.eqb channel "system" || String.eqb channel "subagent".

(** The channel of the call, or of the arguments. *)
Definition remote (channel : string) (args : fields) : bool :=
  let channel := TrimSpace (if String.eqb channel "" then default "" (arg args "__channel") else channel) in
  String.eqb channel "" || negb (IsInternalChannel channel).

Definition getBoolArg (args : fields) (key : string) : bool :=
  match lookup_field args key with
  | Some (VBool b) => b
  | Some (VString s) => String.eqb s "true"
  | _ => false
  end.

Definition executeRun (t : ExecTool) (channel : string) (args : fields) (w : W) : W * ToolResult :=
  match arg args "command" with
  | None => (w, ErrorResult "command is required")
  | Some command =>
      if negb (allowRemote t) && remote channel args then (w, ErrorResult "exec is restricted to internal channels")
      else
        match choose_cwd before_ Getwd t args with
        | Err e => (w, ErrorResult e)
        | Ok cwd =>
            let cwd := if String.eqb cwd "" then default "" Getwd else cwd in
            let guardError := guardCommand before_ Getwd t command cwd in
            if negb (String.eqb guardError "") then (w, ErrorResult guardError)
            else
              match recheck after_ Getwd t cwd with
              | Err e => (w, ErrorResult e)
              | Ok cwd =>
                  if getBoolArg args "background" then runBackground command cwd (getBoolArg args "pty") w
                  else runSync t command cwd w
              end
        end
  end.
End Run.

(** * Theorems *)

(** ** What a match needs *)

Lemma m_star_needs p k prev cp l x : m_star p k prev cp l = Some x ->
  exists prev' cp' pre post, l = pre ++ post /\ k prev' cp' post = Some x.
Proof.
  revert prev cp; induction l as [|c l IH]; intros prev cp; cbn; [intros H; exists prev, cp, [], []; done|].
  assert (k prev cp (c :: l) = Some x -> exists prev' cp' pre post, c :: l = pre ++ post /\ k prev' cp' post = Some x) as Hk.
  { intros H; exists prev, cp, [], (c :: l); done. }
  destruct (p c); [|exact Hk]; destruct (m_star p k (Some c) (cap_push c cp) l) as [r|] eqn:E; [|exact Hk].
  intros [= ->]; destruct (IH _ _ E) as (prev' & cp' & pre & post & -> & H); exists prev', cp', (c :: pre), post; done.
Qed.

Lemma m_rep_needs p k hi prev cp l x : m_rep p k hi prev cp l = Some x ->
  exists prev' cp' pre post, l = pre ++ post /\ k prev' cp' post = Some x.
Proof.
  revert prev cp l; induction hi as [|hi IH]; intros prev cp l; cbn; [intros H; exists prev, cp, [], l; done|].
  assert (k prev cp l = Some x -> exists prev' cp' pre post, l = pre ++ post /\ k prev' cp' post = Some x) as Hk.
  { intros H; exists prev, cp, [], l; done. }
  destruct l as [|c l]; [exact Hk|]; destruct (p c); [|exact Hk].
  destruct (m_rep p k hi (Some c) (cap_push c cp) l) as [r|] eqn:E; [|exact Hk].
  intros [= ->]; destruct (IH _ _ _ E) as (prev' & cp' & pre & post & -> & H); exists prev', cp', (c :: pre), post; done.
Qed.

(** A text that matches has a byte of every class of the pattern. *)
Lemma m_re_needs r p : ACls p ∈ r -> forall prev cp l x, m_re r prev cp l = Some x -> exists c, c ∈ l /\ p c = true.
Proof.
  induction r as [|a r IH]; intros Hin; [inversion Hin|]; intros prev cp l x.
  assert (ACls p ∈ r -> forall prev cp pre post, m_re r prev cp post = Some x -> exists c, c ∈ pre ++ post /\ p c = true) as Hr.
  { intros H prev0 cp0 pre post Hm; destruct (IH H _ _ _ _ Hm) as (c & Hc & Hp); exists c; split; [apply elem_of_app; by right | done]. }
  apply elem_of_cons in Hin as [<-|Hin].
  - cbn; destruct l as [|c l]; [done|]; destruct (p c) eqn:E; [|done]; intros _; exists c; split; [left | done].
  - specialize (Hr Hin); destruct a; cbn [m_re].
    + destruct l as [|c l]; [done|]; destruct (p0 c); [|done]; intros H; apply (Hr _ _ [c] l H).
    + intros H; apply m_rep_needs in H as (prev' & cp' & pre & post & -> & H); apply (Hr _ _ pre post H).
    + intros H; apply m_star_needs in H as (prev' & cp' & pre & post & -> & H); apply (Hr _ _ pre post H).
    + intros H; apply m_rep_needs in H as (prev' & cp' & pre & post & -> & H); apply (Hr _ _ pre post H).
    + destruct (xorb _ _); [|done]; apply (Hr prev cp []).
    + destruct prev; [done|]; apply (Hr None cp []).
    + destruct l; [|done]; apply (Hr prev cp []).
    + apply (Hr prev _ []).
    + apply (Hr prev _ []).
Qed.

Lemma m_find_needs r p : ACls p ∈ r -> forall prev l x, m_find r prev l = Some x -> exists c, c ∈ l /\ p c = true.
Proof.
  intros Hp prev l; revert prev; induction l as [|c l IH]; intros prev x; cbn [m_find];
    (destruct (m_re r prev _ _) as [y|] eqn:E; [intros _; eapply m_re_needs; eauto|]); [done|].
  intros H; destruct (IH _ _ H) as (d & Hd & Hpd); exists d; split; [right; done | done].
Qed.

(** The command is compared in lower case, so the pattern for here documents,
    which has capitals, never matches anything. *)
Theorem heredoc_pattern_is_dead cmd : MatchString heredoc (ToLower cmd) = false.
Proof.
  unfold heredoc, pattern; cbn [MatchString]; destruct (existsb _ _) eqn:E; [|done].
  apply existsb_exists in E as (r & Hr & Hm); exfalso.
  unfold GoRegexp.MatchString in Hm; destruct (m_find r None (chars (ToLower cmd))) as [x|] eqn:Ex; [|done].
  apply list_elem_of_In in Hr; vm_compute in Hr; apply list_elem_of_singleton in Hr as ->.
  apply (m_find_needs _ (Ascii.eqb "E"%char)) in Ex as (c & Hc & Hp).
  - apply Ascii.eqb_eq in Hp as <-; rewrite chars_ToLower in Hc; apply list_elem_of_fmap in Hc as (d & Hd & _).
    apply (f_equal is_upper) in Hd; rewrite lower_byte_not_upper in Hd; done.
  - do 3 right; left.
Qed.

(** ** The paths of an accepted command *)

Lemma run_length p l : (run p l <= length l)%nat.
Proof. induction l as [|c l IH]; cbn; [done|]; destruct (p c); cbn; lia. Qed.

Lemma absolute_path_bound l n : absolute_path l = Some n -> (0 < n <= length l)%nat.
Proof.
  unfold absolute_path; destruct (match l with c :: colon :: b :: l' => _ | _ => _ end) as [k|] eqn:E.
  - intros [= <-]; destruct l as [|c [|c1 [|c2 l]]]; try done; pose proof (run_length drive_char l).
    destruct (_ && _); [|done]; injection E as <-; cbn; lia.
  - destruct l as [|c l]; [done|]; pose proof (run_length path_char l); destruct (_ && _); [|done]; intros [= <-]; cbn; lia.
Qed.

(** A slash that a character of a path follows begins a match, unless one has
    begun before it. *)
Lemma slash_matches c l : path_char c = true -> exists n, absolute_path ("/"%char :: c :: l) = Some n /\ (0 < n)%nat.
Proof.
  intros Hc; unfold absolute_path; assert (is_letter "/"%char = false) as -> by done.
  cbn [run]; rewrite Hc; cbn [andb]; rewrite Ascii.eqb_refl.
  destruct l as [|c2 l]; cbn; eexists; (split; [reflexivity | lia]).
Qed.

(** The match stands in the text behind what comes before it, and has the place. *)
Definition covers (l : list ascii) (i : nat) (m : list ascii * list ascii) : Prop :=
  exists post, l = fst m ++ snd m ++ post /\ (length (fst m) <= i < length (fst m) + length (snd m))%nat.

Lemma find_all_covers l : forall skip before pre c post, l = pre ++ "/"%char :: c :: post -> path_char c = true ->
  (skip <= length pre)%nat -> exists m, m ∈ find_all skip before l /\ covers (before ++ l) (length before + length pre) m.
Proof.
  induction l as [|x l IH]; intros skip before pre c post El Hc Hs; [by destruct pre|].
  assert (forall skip' pre', pre = x :: pre' -> (skip' <= length pre')%nat ->
    exists m, m ∈ find_all skip' (before ++ [x]) l /\ covers (before ++ x :: l) (length before + length pre) m) as Hrest.
  { intros skip' pre' -> Hs'; injection El as El; destruct (IH skip' (before ++ [x]) pre' c post El Hc Hs') as (m & Hm & Hcov).
    exists m; split; [done|]; revert Hcov; rewrite <- app_assoc, length_app; cbn.
    replace (length before + 1 + length pre')%nat with (length before + S (length pre'))%nat by lia; done. }
  cbn [find_all]; destruct skip as [|skip].
  - destruct (absolute_path (x :: l)) as [n|] eqn:En.
    + destruct (decide (length pre < n)%nat) as [Hlt|Hge].
      * exists (before, take n (x :: l)); split; [left|]; exists (drop n (x :: l)); cbn [fst snd].
        pose proof (absolute_path_bound _ _ En); rewrite take_drop, length_take; split; [done | lia].
      * destruct pre as [|y pre]; [pose proof (absolute_path_bound _ _ En); cbn in Hge; lia|].
        assert (y = x) as -> by (cbn in El; congruence).
        destruct (Hrest (n - 1)%nat pre eq_refl) as (m & Hm & Hcov); [cbn in Hge; lia|]; exists m; split; [right; done | done].
    + destruct pre as [|y pre]; [|assert (y = x) as -> by (cbn in El; congruence); apply (Hrest 0%nat pre eq_refl); lia].
      injection El as -> ->; destruct (slash_matches c post Hc) as (n & Hn & _); congruence.
  - destruct pre as [|y pre]; [cbn in Hs; lia|]; assert (y = x) as -> by (cbn in El; congruence); apply (Hrest skip pre eq_refl); cbn in Hs; lia.
Qed.

Lemma HasPrefix_up l : HasPrefix (join "/" (".." :: l)) ".." = true.
Proof. unfold HasPrefix; apply l_prefix_spec; destruct l; cbn; eauto. Qed.

(** A way that does not go up leads below. *)
Lemma Rel_not_up base targ rel : IsAbs base = true -> IsAbs targ = true -> Rel base targ = Some rel ->
  HasPrefix rel ".." = false -> below base targ.
Proof.
  intros Hb Ht; unfold Rel, below; rewrite !IsAbs_Clean, Hb, Ht, !parts_Clean; cbn [andb].
  destruct (String.eqb_spec (Clean targ) (Clean base)) as [E|Hne].
  { intros _ _; apply Clean_eq in E; [|congruence]; rewrite E; done. }
  destruct (strip_common (parts base) (parts targ)) as [base' targ'] eqn:E; apply strip_common_spec in E as (p & Eb & Et & _).
  intros [= <-]; destruct base' as [|b base']; cbn [length repeat app]; [|rewrite HasPrefix_up; done].
  intros _; rewrite Eb, Et, app_nil_r; by eexists.
Qed.

Section Accepted.
Context (EvalSymlinks : string -> result fs_error string) (Getwd : option string).
Context (Hwd : forall wd, Getwd = Some wd -> IsAbs wd = true).

(** A path that a restricted command may mention. *)
Definition harmless (t : ExecTool) (cwdPath before raw : string) : Prop :=
  is_web_url before raw = true \/
  forall p, Abs Getwd raw = Some p -> p ∈ safePaths \/ isAllowedPath EvalSymlinks p (allowedPathPatterns t) = true \/ below cwdPath p.

Lemma escapes_harmless t cwd cwdPath m : Abs Getwd cwd = Some cwdPath ->
  escapes EvalSymlinks Getwd (allowedPathPatterns t) cwdPath m = false -> harmless t cwdPath (implode (fst m)) (implode (snd m)).
Proof.
  intros Hcwd; unfold escapes, harmless; destruct (is_web_url _ _); [by left|]; intros H; right; intros p Hp; rewrite Hp in H.
  unfold is_safe in H; destruct (existsb (String.eqb p) safePaths) eqn:Es.
  { left; apply existsb_exists in Es as (q & Hq & ->%String.eqb_eq); apply list_elem_of_In; done. }
  cbn [orb] in H; destruct (isAllowedPath _ _ _); [auto|]; right; right.
  destruct (Abs_rooted Getwd Hwd cwd cwdPath Hcwd) as [Hc _]; destruct (Abs_rooted Getwd Hwd _ p Hp) as [Ha _].
  destruct (Rel cwdPath p) as [rel|] eqn:Er; [apply (Rel_not_up _ _ rel); done|].
  unfold Rel in Er; rewrite !IsAbs_Clean, Hc, Ha in Er; cbn [andb] in Er.
  destruct (String.eqb _ _); [done|]; destruct (strip_common _ _); done.
Qed.

End Accepted.

(** ** Where commands run *)

Section Runs.
Context {W : Type} (Getwd : option string) (show : Z -> string).
Context (before_ after_ : string -> result fs_error string)
  (process : string -> string -> Z -> W -> W * result string process_end)
  (runBackground : string -> string -> bool -> W -> W * ToolResult).
Context (Hwd : forall wd, Getwd = Some wd -> IsAbs wd = true).
Context (Heval : forall p real, IsAbs p = true -> after_ p = Ok real -> IsAbs real = true /\ Clean real = real).

(** The workspace itself, or what is in the workspace, where that really is when
    it is looked at last, or allowed. *)
Definition may_run_in (t : ExecTool) (cwd : string) : Prop :=
  cwd = workingDir t \/ isAllowedPath after_ cwd (allowedPathPatterns t) = true \/
  below (real_workspace after_ (Clean (workingDir t))) cwd.

Lemma validated_rooted path workspace patterns p :
  validatePathWithAllowPaths before_ Getwd path workspace true patterns = Ok p -> IsAbs p = true.
Proof.
  unfold validatePathWithAllowPaths; destruct (String.eqb workspace ""); [done|].
  destruct (Abs Getwd workspace) as [ws|]; [|done].
  destruct (if IsAbs path then Some (Clean path) else Abs Getwd (Join [ws; path])) as [q|] eqn:Eq; [|done].
  assert (IsAbs q = true) as Hq.
  { destruct (IsAbs path) eqn:Ep; [injection Eq as <-; by rewrite IsAbs_Clean | by apply (Abs_rooted Getwd Hwd _ _ Eq)]. }
  unfold check_restricted; repeat (match goal with |- context [match ?x with _ => _ end] => destruct x end; try done); congruence.
Qed.

Lemma recheck_place t cwd0 cwd : restrictToWorkspace t = true -> IsAbs (workingDir t) = true -> (cwd0 = workingDir t \/ IsAbs cwd0 = true) ->
  recheck after_ Getwd t cwd0 = Ok cwd -> may_run_in t cwd.
Proof.
  intros Hr Hw Hc; unfold recheck; rewrite Hr; destruct (String.eqb_spec (workingDir t) "") as [E|]; [by rewrite E in Hw|].
  destruct (String.eqb_spec cwd0 (workingDir t)) as [->|Hne]; cbn [negb andb]; [intros [= <-]; by left|].
  destruct Hc as [?|Hc]; [done|]; destruct (after_ cwd0) as [resolved|] eqn:E; [|done]; destruct (Heval _ _ Hc E) as [Ha _].
  destruct (isAllowedPath _ _ _) eqn:Hall; [intros [= <-]; right; by left|].
  unfold Abs at 1; rewrite Hw; cbn [from_option id]; set (ws := Clean (workingDir t)).
  assert (IsAbs ws = true) as Hws by (unfold ws; by rewrite IsAbs_Clean).
  assert (IsAbs (real_workspace after_ ws) = true) as Hreal.
  { unfold real_workspace; destruct (after_ ws) eqn:E2; [by destruct (Heval _ _ Hws E2) | done]. }
  destruct (Rel _ resolved) as [rel|] eqn:Erel; [|done]; destruct (IsLocal rel) eqn:Hl; [|done]; intros [= <-].
  right; right; apply (Rel_local _ _ Hreal Ha); rewrite Erel, Hl; apply orb_true_r.
Qed.

Lemma chosen_place t args cwd : restrictToWorkspace t = true -> IsAbs (workingDir t) = true ->
  choose_cwd before_ Getwd t args = Ok cwd -> cwd = workingDir t \/ IsAbs cwd = true.
Proof.
  intros Hr Hw; unfold choose_cwd; rewrite Hr; destruct (String.eqb_spec (workingDir t) "") as [E|]; [by rewrite E in Hw|]; cbn [negb andb].
  destruct (arg args "cwd") as [wd|]; [|intros [= <-]; by left]; destruct (String.eqb wd ""); [intros [= <-]; by left|].
  destruct (validatePathWithAllowPaths _ _ _ _ _ _) as [p|] eqn:E; [|done]; intros [= <-]; right; by eapply validated_rooted.
Qed.

(** C14: Running a command in a restricted tool whose workspace is an absolute
    path: either it is refused and nothing has happened, or the command that was
    asked for runs, after the guard has accepted it, in the workspace or an
    allowed directory, where links lead when they are looked at again, just
    before it starts. From a chat it runs only when that is allowed. *)
Theorem commands_run_in_workspace t channel args (w : W) : restrictToWorkspace t = true -> IsAbs (workingDir t) = true ->
  let '(w', r) := executeRun Getwd show before_ after_ process runBackground t channel args w in
  (w' = w /\ IsError r = true) \/
  exists command cwd0 cwd, arg args "command" = Some command /\ guardCommand before_ Getwd t command cwd0 = "" /\
    may_run_in t cwd /\ (allowRemote t = true \/ remote channel args = false) /\
    (w', r) = if getBoolArg args "background" then runBackground command cwd (getBoolArg args "pty") w
              else runSync show process t command cwd w.
Proof.
  intros Hr Hw; unfold executeRun; destruct (arg args "command") as [command|]; [|by left].
  destruct (negb (allowRemote t) && remote channel args) eqn:Hremote; [by left|].
  destruct (choose_cwd before_ Getwd t args) as [cwd1|e] eqn:Ec; [|by left].
  pose proof (chosen_place t args cwd1 Hr Hw Ec) as Hplace.
  assert (cwd1 <> "") as Hne by (intros ->; destruct Hplace as [E|]; [by rewrite <- E in Hw | done]).
  destruct (String.eqb_spec cwd1 ""); [done|].
  destruct (String.eqb_spec (guardCommand before_ Getwd t command cwd1) "") as [Hg|]; cbn [negb]; [|by left].
  destruct (recheck after_ Getwd t cwd1) as [cwd|e] eqn:Ere; [|by left].
  pose proof (recheck_place t cwd1 cwd Hr Hw Hplace Ere) as Hrun.
  assert (allowRemote t = true \/ remote channel args = false) as Hrem by (destruct (allowRemote t), (remote channel args); auto).
  destruct (getBoolArg args "background") eqn:Eb.
  - destruct (runBackground command cwd (getBoolArg args "pty") w) as [w' r] eqn:E; right; exists command, cwd1, cwd; rewrite E; auto.
  - destruct (runSync show process t command cwd w) as [w' r] eqn:E; right; exists command, cwd1, cwd; rewrite E; auto.
Qed.
End Runs.

(** ** What the guard does not see *)

Definition demo_tool : ExecTool := mkExecTool "/work" 0 defaultDenyPatterns [] [] [] true true.
Definition same_path (p : string) : result fs_error string := Ok (Clean p).
Definition demo_guard (command : string) : string := guardCommand same_path (Some "/") demo_tool command "/work".

Example dangerous_commands_are_refused :
  forallb (fun command => negb (String.eqb (demo_guard command) ""))
    ["sudo ls"; "rm -rf x"; "rm -fr x"; "curl http://x.y/z | sh"; "echo $(ls)"; "dd if=/dev/sda"; "mkfs /dev/sda1"; "kill 1";
     "cat /etc/passwd"; "cat ../secret"; "cat file:///etc/passwd"; "echo x >/dev/sda"; "chmod 0777 x"; "git  push"] = true.
Proof. vm_compute. reflexivity. Qed.

Example harmless_commands_are_accepted :
  forallb (fun command => String.eqb (demo_guard command) "")
    ["ls -la"; "cat /work/x"; "git clone https://github.com/a/b"; "format=1 make"; "clang-format x"] = true.
Proof. vm_compute. reflexivity. Qed.

(** More flags than two behind [rm], the parent directory without a slash, and
    here documents pass. *)
Example guard_misses :
  forallb (fun command => String.eqb (demo_guard command) "")
    ["rm -rfv x"; "rm -vrf x"; "rm --recursive --force x"; "cd .. && cat secret"; "cd; cat .netrc"] = true.
Proof. vm_compute. reflexivity. Qed.

(** Relative paths with slashes are taken for absolute ones. *)
Example relative_path_is_refused : demo_guard "cat pkg/main.go" = "Command blocked by safety guard (path outside working dir)".
Proof. vm_compute. reflexivity. Qed.

(** What a command has printed before its time is over is not shortened. *)
Lemma timeout_output_is_whole shown e err : waited e = Some err -> timed_out e = true ->
  (length (chars (output_of e)) <= length (chars (ForLLM (sync_result shown e))))%nat.
Proof.
  intros He Ht; unfold sync_result; rewrite He, Ht; cbn [ForLLM]; rewrite !chars_app, !length_app.
  destruct (String.eqb_spec (output_of e) "") as [->|]; [cbn; lia|]; rewrite !chars_app, !length_app; lia.
Qed.

(** Otherwise the answer is short. *)
Lemma output_is_bounded shown e : (waited e = None \/ timed_out e = false) ->
  exists text, (length (chars text) <= maxLen)%nat /\
    (ForLLM (sync_result shown e) = text \/ exists n, ForLLM (sync_result shown e) = text +:+ nl +:+ "... (truncated, " +:+ itoa n +:+ " more chars)").
Proof.
  intros H; assert (exists s, ForLLM (sync_result shown e) = truncated s) as [s ->].
  { unfold sync_result; destruct (waited e); [destruct H as [H|H]; [done|]; rewrite H|]; cbn [ForLLM]; eauto. }
  unfold truncated; destruct (Nat.ltb_spec maxLen (length (chars s))) as [Hl|Hl]; [|eauto].
  exists (slice_to s maxLen); split; [unfold slice_to; rewrite chars_implode, length_take; lia | right; eauto].
Qed.

(** ** Runs *)


Definition demo_process (command cwd : string) (_ : Z) (log : list (string * string)) : list (string * string) * result string process_end :=
  (log ++ [(command, cwd)], Ok (mkEnd "done" "" None false)).

Lemma commands_run_in_workspace_witness :
  let run args := executeRun (Some "/") (fun _ => "") same_path same_path demo_process (fun _ _ _ w => (w, ErrorResult "")) demo_tool "cli" args [] in
  run [("command", VString "ls"); ("cwd", VString "src")] = ([("ls", "/work/src")], mkToolResult "done" "done" false false false None [] [] false) /\
  may_run_in same_path demo_tool "/work/src".
Proof.
  cbv zeta. assert (E : executeRun (Some "/") (fun _ => "") same_path same_path demo_process (fun _ _ _ w => (w, ErrorResult "")) demo_tool "cli"
    [("command", VString "ls"); ("cwd", VString "src")] [] = ([("ls", "/work/src")], mkToolResult "done" "done" false false false None [] [] false))
    by (vm_compute; reflexivity).
  split; [exact E|].
  pose proof (commands_run_in_workspace (Some "/") (fun _ => "") same_path same_path demo_process (fun _ _ _ w => (w, ErrorResult ""))
    ltac:(intros wd [= <-]; reflexivity) ltac:(intros p real Hp [= <-]; rewrite IsAbs_Clean, Clean_idem; done) demo_tool "cli"
    [("command", VString "ls"); ("cwd", VString "src")] [] eq_refl eq_refl) as H.
  rewrite E in H. destruct H as [[H _]|(command & cwd0 & cwd & Hc & _ & Hm & _ & Hr)]; [discriminate|].
  unfold arg in Hc; cbn in Hc. injection Hc as <-. cbn in Hr. injection Hr as <-. exact Hm.
Defined.
