(* ===== verification/ToolRegistry.v ===== *)
(** * The tools of an agent: [src/pkg/tools/registry.go], [base.go]

    Core tools are always there; hidden ones are visible, and can be called,
    for a number of rounds after a search has found them. Tools act on a world
    [W] of their own, can panic or return nil, and the registry can change
    while they run (a search tool promotes what it finds, other goroutines
    register and tick). *)

From stdpp Require Import sorting.
From S2P Require Import Prelude GoStrings GoLib.
Import GoSort.
From S2P Require Import Hooks ToolArgs.

Record ToolDefinition : Type := mkToolDefinition { DefType : string; FnName : string; FnDescription : string; FnParameters : fields }.

Record HiddenToolDoc : Type := mkDoc { DocName : string; DocDescription : string }.

Section Registry.
(** Tools and media stores. *)
Context {T M W : Type} (Name Description : T -> string) (Parameters : T -> fields).

(** ** The registry *)

Record ToolEntry : Type := mkEntry { Tool : T; IsCore : bool; TTL : Z }.

Record ToolRegistry : Type := mkRegistry {
  tools : gmap string ToolEntry;
  version : Z;                                                    (* uint64 *)
  mediaStore : option M
}.

Definition NewToolRegistry : ToolRegistry := mkRegistry ∅ 0 None.

(** Tools that use media are handed the store, which may be nil: what that
    does to the world. *)
Context (inject : T -> option M -> W -> W).

Definition inject_store (t : T) (store : option M) (w : W) : W :=
  match store with Some _ => inject t store w | None => w end.

Definition register (core : bool) (t : T) (r : ToolRegistry) : ToolRegistry :=
  mkRegistry (<[Name t := mkEntry t core 0]> (tools r)) ((version r + 1) mod 2 ^ 64) (mediaStore r).

Definition Register (t : T) (s : ToolRegistry * W) : ToolRegistry * W :=
  (register true t (fst s), inject_store t (mediaStore (fst s)) (snd s)).

Definition RegisterHidden (t : T) (s : ToolRegistry * W) : ToolRegistry * W :=
  (register false t (fst s), inject_store t (mediaStore (fst s)) (snd s)).

(** [order] is the order of this iteration over the map. *)
Definition SetMediaStore (order : list string) (store : option M) (s : ToolRegistry * W) : ToolRegistry * W :=
  let '(r, w) := s in
  (mkRegistry (tools r) (version r) store,
   fold_left (fun w name => match tools r !! name with Some e => inject (Tool e) store w | None => w end) order w).

Definition promote (ttl : Z) (m : gmap string ToolEntry) (name : string) : gmap string ToolEntry :=
  match m !! name with
  | Some e => if IsCore e then m else <[name := mkEntry (Tool e) (IsCore e) ttl]> m
  | None => m
  end.

Definition PromoteTools (names : list string) (ttl : Z) (r : ToolRegistry) : ToolRegistry :=
  mkRegistry (fold_left (promote ttl) names (tools r)) (version r) (mediaStore r).

Definition tick (e : ToolEntry) : ToolEntry :=
  if negb (IsCore e) && (0 <? TTL e) then mkEntry (Tool e) (IsCore e) (TTL e - 1) else e.

Definition TickTTL (r : ToolRegistry) : ToolRegistry := mkRegistry (tick <$> tools r) (version r) (mediaStore r).

Definition Version (r : ToolRegistry) : Z := version r.

(** The hidden tools, in the order of an iteration, with the version. *)
Definition SnapshotHiddenTools (order : list string) (r : ToolRegistry) : list HiddenToolDoc * Z :=
  (omap (fun name =>
     match tools r !! name with
     | Some e => if IsCore e then None else Some (mkDoc name (Description (Tool e)))
     | None => None
     end) order, version r).

(** Hidden tools whose time is over cannot be called. *)
Definition visible (e : ToolEntry) : bool := IsCore e || (0 <? TTL e).

Definition Get (r : ToolRegistry) (name : string) : option T :=
  match tools r !! name with
  | Some e => if negb (IsCore e) && (TTL e <=? 0) then None else Some (Tool e)
  | None => None
  end.

(** ** What the model is told *)

Definition ToolToSchema (t : T) : fields :=
  [("type", VString "function");
   ("function", VObject [("name", VString (Name t)); ("description", VString (Description t));
                         ("parameters", VObject (Parameters t))])].

Definition sortedToolNames (r : ToolRegistry) : list string := sorted_keys (tools r).

(** The loop over the sorted names that the listings share: hidden tools whose
    time is over are left out. *)
Definition each_visible {A} (f : T -> option A) (r : ToolRegistry) : list A :=
  omap (fun name =>
    match tools r !! name with
    | Some e => if negb (IsCore e) && (TTL e <=? 0) then None else f (Tool e)
    | None => None
    end) (sortedToolNames r).

Definition GetDefinitions (r : ToolRegistry) : list fields := each_visible (fun t => Some (ToolToSchema t)) r.

Definition string_field (o : fields) (key : string) : string :=
  match lookup_field o key with Some (VString s) => s | _ => "" end.

Definition to_definition (schema : fields) : option ToolDefinition :=
  match lookup_field schema "function" with
  | Some (VObject fn) =>
      Some (mkToolDefinition "function" (string_field fn "name") (string_field fn "description")
              match lookup_field fn "parameters" with Some (VObject p) => p | _ => [] end)
  | _ => None
  end.

Definition ToProviderDefs (r : ToolRegistry) : list ToolDefinition :=
  each_visible (fun t => to_definition (ToolToSchema t)) r.

Definition GetSummaries (r : ToolRegistry) : list string :=
  each_visible (fun t => Some ("- `" +:+ Name t +:+ "` - " +:+ Description t)) r.

Definition GetAll (r : ToolRegistry) : list T := each_visible Some r.

Definition List_ (r : ToolRegistry) : list string := sortedToolNames r.
Definition Count (r : ToolRegistry) : Z := Z.of_nat (size (tools r)).

(** The entries are copied; the version starts again. *)
Definition Clone (r : ToolRegistry) : ToolRegistry := mkRegistry (tools r) 0 (mediaStore r).

(** ** Sequences of changes *)

Inductive operation : Type :=
| OpRegister (t : T)
| OpRegisterHidden (t : T)
| OpPromote (names : list string) (ttl : Z)
| OpTick
| OpSetMediaStore (order : list string) (store : option M).

Definition apply_op (s : ToolRegistry * W) (op : operation) : ToolRegistry * W :=
  match op with
  | OpRegister t => Register t s
  | OpRegisterHidden t => RegisterHidden t s
  | OpPromote names ttl => (PromoteTools names ttl (fst s), snd s)
  | OpTick => (TickTTL (fst s), snd s)
  | OpSetMediaStore order store => SetMediaStore order store s
  end.

Definition run_ops (ops : list operation) (s : ToolRegistry * W) : ToolRegistry * W := fold_left apply_op ops s.

(** ** Calls *)

Inductive outcome : Type := Returned (r : option ToolResult) | Panicked (text : string).

(** [Execute] and [ExecuteAsync] of a tool, with the channel and the chat that
    its context carries, and what happens to the registry in the meantime. *)
Context (Execute ExecuteAsync : T -> string -> string -> fields -> W -> list operation * W * outcome).
Context (IsAsync : T -> bool).
(** [normalizeToolResult], which moves inline media to the store. *)
Context (normalizeToolResult : ToolResult -> string -> option M -> string -> string -> W -> W * ToolResult).
(** [%q] and [%v] *)
Context (quote : string -> string) (show : value -> string).

Definition WithError (r : ToolResult) (err : string) : ToolResult :=
  mkToolResult (ForLLM r) (ForUser r) (Silent r) (IsError r) (Async r) (Some err) (ResultMedia r) (ArtifactTags r)
    (ResponseHandled r).

Definition crashed (text err : string) : ToolResult := mkToolResult text text false true false (Some err) [] [] false.

(** The result of a run: panics are recovered, and nil is an error. *)
Definition settle (name : string) (o : outcome) : ToolResult :=
  match o with
  | Returned (Some r) => r
  | Returned None =>
      crashed ("Tool '" +:+ name +:+ "' returned nil result unexpectedly") "nil result from tool"
  | Panicked text => crashed ("Tool '" +:+ name +:+ "' crashed with panic: " +:+ text) ("panic: " +:+ text)
  end.

(** [None] is a panic. [args] is nil or a map; [callback] tells whether the
    caller has one. *)
Definition ExecuteWithContext (s : ToolRegistry * W) (name : string) (args : option fields) (channel chatID : string)
    (callback : bool) : (ToolRegistry * W) * option ToolResult :=
  match Get (fst s) name with
  | None =>
      (s, Some (WithError (ErrorResult ("tool " +:+ quote name +:+ " not found")) "tool not found"))
  | Some tool =>
      let given := match args with Some a => a | None => [] end in
      match validateToolArgs quote show (Parameters tool) given with
      | Panics => (s, None)
      | Invalid text =>
          (s, Some (WithError (ErrorResult ("invalid arguments for tool " +:+ quote name +:+ ": " +:+ text))
                      ("argument validation failed: " +:+ text)))
      | Valid =>
          let '(ops, w, o) :=
            (if IsAsync tool && callback then ExecuteAsync else Execute) tool channel chatID given (snd s) in
          let '(r, w) := run_ops ops (fst s, w) in
          let '(w, result) := normalizeToolResult (settle name o) name (mediaStore r) channel chatID w in
          ((r, w), Some result)
      end
  end.
End Registry.
Arguments ToolEntry : clear implicits.
Arguments ToolRegistry : clear implicits.
Arguments operation : clear implicits.

(** ** Lemmas *)

Section Facts.
Context {T M W : Type} (Name Description : T -> string) (Parameters : T -> fields) (inject : T -> option M -> W -> W).
#[local] Abbreviation registry := (ToolRegistry T M).
#[local] Abbreviation run := (run_ops Name inject).
Implicit Types (r : registry) (s : registry * W) (ops : list (operation T M)).

Lemma Get_visible r name :
  Get r name = match tools r !! name with Some e => if visible e then Some (Tool e) else None | None => None end.
Proof.
  unfold Get, visible. destruct (tools r !! name) as [e|]; [|done].
  destruct (IsCore e); [done|]. simpl. rewrite Z.leb_antisym. by destruct (0 <? TTL e).
Qed.

Lemma promote_lookup ttl m names name :
  fold_left (promote (T := T) ttl) names m !! name =
  match m !! name with
  | Some e => Some (if IsCore e then e else if bool_decide (name ∈ names) then mkEntry (Tool e) false ttl else e)
  | None => None
  end.
Proof.
  revert m. induction names as [|x names IH]; intros m; cbn [fold_left].
  - destruct (m !! name) as [e|]; [|done]. by destruct (IsCore e).
  - rewrite IH. clear IH. unfold promote. destruct (m !! x) as [ex|] eqn:Ex; [destruct (IsCore ex) eqn:Ec|].
    3: { destruct (m !! name) as [e|] eqn:E; [|done]. do 2 f_equal.
         erewrite bool_decide_ext; [done|]. set_solver. }
    + destruct (m !! name) as [e|] eqn:E; [|done]. destruct (decide (name = x)) as [->|]; simplify_eq.
      * by rewrite Ec.
      * do 2 f_equal. erewrite bool_decide_ext; [done|]. set_solver.
    + destruct (decide (name = x)) as [->|Hne].
      * rewrite lookup_insert_eq, Ex. cbn [IsCore Tool]. rewrite !Ec, (bool_decide_true (x ∈ x :: names)) by set_solver.
        by destruct (bool_decide _).
      * rewrite lookup_insert_ne by done. destruct (m !! name) as [e|]; [|done]. do 2 f_equal.
        erewrite bool_decide_ext; [done|]. set_solver.
Qed.

Lemma run_ops_app ops ops' s : run (ops ++ ops') s = run ops' (run ops s).
Proof. apply fold_left_app. Qed.

(** What an operation does to the entry of a name. *)
Definition entry_after (op : operation T M) (name : string) (e : option (ToolEntry T)) : option (ToolEntry T) :=
  match op with
  | OpRegister t => if String.eqb (Name t) name then Some (mkEntry t true 0) else e
  | OpRegisterHidden t => if String.eqb (Name t) name then Some (mkEntry t false 0) else e
  | OpPromote names ttl =>
      (fun e => if IsCore e then e else if bool_decide (name ∈ names) then mkEntry (Tool e) false ttl else e) <$> e
  | OpTick => tick <$> e
  | OpSetMediaStore _ _ => e
  end.

Lemma apply_op_lookup op s name :
  tools (fst (apply_op Name inject s op)) !! name = entry_after op name (tools (fst s) !! name).
Proof.
  destruct s as [r w], op; simpl; try done.
  - destruct (String.eqb_spec (Name t) name) as [->|]; simplify_map_eq; done.
  - destruct (String.eqb_spec (Name t) name) as [->|]; simplify_map_eq; done.
  - rewrite promote_lookup. by destruct (tools r !! name).
  - apply lookup_fmap.
Qed.

(** *** Names *)

Definition well_named r : Prop := forall name e, tools r !! name = Some e -> Name (Tool e) = name.

Lemma apply_op_named op s : well_named (fst s) -> well_named (fst (apply_op Name inject s op)).
Proof.
  intros Hw name e. rewrite apply_op_lookup. intros He.
  destruct op as [t|t|names ttl| |]; simpl in He.
  - destruct (String.eqb_spec (Name t) name); simplify_eq/=; eauto.
  - destruct (String.eqb_spec (Name t) name); simplify_eq/=; eauto.
  - apply fmap_Some in He as (e0 & E0 & ->). specialize (Hw _ _ E0). by destruct (IsCore e0); [|case_bool_decide].
  - apply fmap_Some in He as (e0 & E0 & ->). specialize (Hw _ _ E0). unfold tick. by destruct (_ && _).
  - eauto.
Qed.

Lemma run_ops_named ops s : well_named (fst s) -> well_named (fst (run ops s)).
Proof.
  revert s. induction ops as [|op ops IH]; intros s Hw; [done|]. by apply IH, apply_op_named.
Qed.

(** *** Listings *)

Definition is_visible r (name : string) : bool :=
  match tools r !! name with Some e => visible e | None => false end.

Lemma Get_is_visible r name : is_Some (Get r name) <-> is_visible r name = true.
Proof.
  rewrite Get_visible. unfold is_visible. destruct (tools r !! name) as [e|]; [|by split; [intros []|]].
  destruct (visible e); [naive_solver|]. by split; [intros []|].
Qed.

(** A listing is about the visible names in order. *)
Lemma each_visible_names {A} (f : T -> option A) (g : A -> string) r :
  well_named r -> (forall t, exists a, f t = Some a /\ g a = Name t) ->
  map g (each_visible f r) = List.filter (is_visible r) (sortedToolNames r).
Proof.
  intros Hw Hf. unfold each_visible. induction (sortedToolNames r) as [|name l IH]; simpl; [done|].
  unfold is_visible at 1. destruct (tools r !! name) as [e|] eqn:E; simpl; [|exact IH].
  destruct (Hf (Tool e)) as (a & Ea & Eg). unfold visible. rewrite Z.leb_antisym.
  destruct (IsCore e); simpl; [|destruct (0 <? TTL e); simpl; [|exact IH]];
    rewrite Ea; simpl; (f_equal; [by rewrite Eg, (Hw _ _ E)|exact IH]).
Qed.

Lemma to_definition_name t : exists d, to_definition (ToolToSchema Name Description Parameters t) = Some d /\ FnName d = Name t.
Proof. by eexists. Qed.

Lemma ToProviderDefs_names r :
  well_named r ->
  map FnName (ToProviderDefs Name Description Parameters r) = List.filter (is_visible r) (sortedToolNames r).
Proof. intros Hw. apply each_visible_names; [done|]. intros t. apply to_definition_name. Qed.

Lemma filter_StronglySorted {A} (R : A -> A -> Prop) (p : A -> bool) l :
  StronglySorted R l -> StronglySorted R (List.filter p l).
Proof.
  induction 1 as [|x l Hl IH Hx]; simpl; [constructor|]. destruct (p x); [|done]. constructor; [done|].
  rewrite Forall_forall in *. intros y Hy. apply Hx. apply list_elem_of_In, filter_In in Hy as [Hy _].
  by apply list_elem_of_In.
Qed.

(** *** The time of a hidden tool *)

Definition touches (name : string) (op : operation T M) : bool :=
  match op with
  | OpRegister t | OpRegisterHidden t => String.eqb (Name t) name
  | OpPromote names _ => bool_decide (name ∈ names)
  | OpTick | OpSetMediaStore _ _ => false
  end.

Definition is_tick (op : operation T M) : bool := match op with OpTick => true | _ => false end.

Definition ticks ops : Z := Z.of_nat (length (List.filter is_tick ops)).

Lemma ticks_cons op ops : ticks (op :: ops) = ticks ops + Z.b2z (is_tick op).
Proof. unfold ticks. simpl. destruct (is_tick op); simpl length; simpl Z.b2z; lia. Qed.

Lemma hidden_countdown ops s name t n :
  tools (fst s) !! name = Some (mkEntry t false n) -> Forall (fun op => touches name op = false) ops ->
  exists k, tools (fst (run ops s)) !! name = Some (mkEntry t false k) /\ (0 <? k) = (ticks ops <? n).
Proof.
  revert s n. induction ops as [|op ops IH]; intros s n E Hops.
  - exists n. split; [done|]. done.
  - inversion_clear Hops as [|? ? Ht Hops'].
    assert (Hstep : exists m, tools (fst (apply_op Name inject s op)) !! name = Some (mkEntry t false m) /\
              (ticks ops <? m) = (ticks (op :: ops) <? n)).
    { rewrite apply_op_lookup, E, ticks_cons. destruct op; simpl in *; try (rewrite Ht); eauto using Z.add_0_r.
      all: rewrite ?Z.add_0_r; eauto.
      unfold tick. simpl. assert (0 <= ticks ops) by (unfold ticks; lia).
      destruct (Z.ltb_spec 0 n); eexists; (split; [done|]); lia. }
    destruct Hstep as (m & Em & Hm). destruct (IH _ _ Em Hops') as (k & Ek & Hk). exists k.
    split; [done|]. by rewrite Hk, Hm.
Qed.
End Facts.

(** ** Theorems *)

Section Claims.
Context {T M W : Type} (Name Description : T -> string) (Parameters : T -> fields) (inject : T -> option M -> W -> W).
#[local] Abbreviation run := (run_ops Name inject).

Lemma each_visible_elem {A} (f : T -> option A) (r : ToolRegistry T M) a :
  a ∈ each_visible f r <-> exists name t, Get r name = Some t /\ f t = Some a.
Proof.
  unfold each_visible. rewrite list_elem_of_omap. unfold sortedToolNames, Get.
  setoid_rewrite elem_sorted_keys. split.
  - intros (name & _ & Ha). exists name. destruct (tools r !! name) as [e|]; [|done].
    destruct (_ && _); [done|]. eauto.
  - intros (name & t & Ht & Hf). exists name. destruct (tools r !! name) as [e|]; [|done].
    destruct (_ && _); [done|]. simplify_eq. eauto.
Qed.

(** The model is offered exactly the tools that it can call: after any
    sequence of registrations, promotions and rounds, the definitions are
    sorted by name without duplicates, whatever the order of the map; a name
    is among them exactly when [Get] finds a tool, and then with that tool's
    own name, description and parameters. *)
Theorem definitions_are_callable (ops : list (operation T M)) (w : W) :
  let r := fst (run ops (NewToolRegistry, w)) in
  let defs := ToProviderDefs Name Description Parameters r in
  StronglySorted string_leb (map FnName defs) /\ NoDup (map FnName defs) /\
  (forall name, name ∈ map FnName defs <-> is_Some (Get r name)) /\
  (forall d, d ∈ defs -> exists t, Get r (FnName d) = Some t /\
     d = mkToolDefinition "function" (Name t) (Description t) (Parameters t)).
Proof.
  intros r. assert (Hw : well_named Name r) by by apply run_ops_named; intros ? ?.
  clearbody r. intros defs.
  unfold defs. rewrite (ToProviderDefs_names Name Description Parameters r Hw). repeat split.
  - apply filter_StronglySorted, sorted_keys_sorted.
  - apply NoDup_ListNoDup, List.NoDup_filter, NoDup_ListNoDup, NoDup_sorted_keys.
  - rewrite Get_is_visible. intros Hin. by apply list_elem_of_In, filter_In in Hin as [_ Hv].
  - rewrite Get_is_visible. intros Hv. apply list_elem_of_In, filter_In. split; [|done].
    apply list_elem_of_In, elem_sorted_keys. unfold is_visible in Hv. by destruct (tools r !! name).
  - intros d Hd. apply each_visible_elem in Hd as (name & t & Ht & Hd). exists t.
    injection Hd as <-. split; [|done]. rewrite Get_visible in Ht.
    destruct (tools r !! name) as [e|] eqn:E; [|done]. destruct (visible e) eqn:Ev; [|done].
    injection Ht as <-. change (Get r (Name (Tool e)) = Some (Tool e)). by rewrite (Hw _ _ E), Get_visible, E, Ev.
Qed.

(** A hidden tool that a search promotes can be called for exactly [ttl]
    rounds: whatever else happens in the meantime to other tools, it is found
    until [TickTTL] has run [ttl] times, and not from then on. *)
Theorem hidden_tool_window (s : ToolRegistry T M * W) name e names ttl ops :
  tools (fst s) !! name = Some e -> IsCore e = false -> name ∈ names ->
  Forall (fun op => touches Name name op = false) ops ->
  Get (fst (run ops (apply_op Name inject s (OpPromote names ttl)))) name =
  if ticks ops <? ttl then Some (Tool e) else None.
Proof.
  intros E Ec Hin Hops.
  assert (Ep : tools (fst (apply_op Name inject s (OpPromote names ttl))) !! name = Some (mkEntry (Tool e) false ttl)).
  { rewrite apply_op_lookup, E. simpl. by rewrite Ec, bool_decide_true. }
  destruct (hidden_countdown Name inject ops _ _ _ _ Ep Hops) as (k & Ek & Hk).
  rewrite Get_visible, Ek. unfold visible. simpl. by rewrite Hk.
Qed.

Context (Execute ExecuteAsync : T -> string -> string -> fields -> W -> list (operation T M) * W * outcome) (IsAsync : T -> bool).
Context (normalizeToolResult : ToolResult -> string -> option M -> string -> string -> W -> W * ToolResult).
Context (quote : string -> string) (show : value -> string).
#[local] Abbreviation execute := (ExecuteWithContext Name Parameters inject Execute ExecuteAsync IsAsync normalizeToolResult quote show).

(** The tool is registered under the name, and is a core tool or was found by a
    search whose rounds are not over. *)
Definition callable (reg : ToolRegistry T M) (name : string) (t : T) : Prop :=
  exists e, tools reg !! name = Some e /\ Tool e = t /\ (IsCore e = true \/ 0 < TTL e).

Lemma Get_callable reg name t : Get reg name = Some t <-> callable reg name t.
Proof.
  rewrite Get_visible. unfold callable, visible. destruct (tools reg !! name) as [e|]; [|split; [done|by intros (x & Hx & _)]].
  destruct (IsCore e) eqn:Ec; cbn [orb].
  - split; [intros [= <-]; exists e; by split; [|split; [|left]]|]. by intros (x & [= <-] & <- & _).
  - destruct (Z.ltb_spec 0 (TTL e)).
    + split; [intros [= <-]; exists e; by split; [|split; [|right]]|]. by intros (x & [= <-] & <- & _).
    + split; [done|]. intros (x & [= <-] & _ & [Hx|Hx]); [congruence|lia].
Qed.

(** C5: a call runs a tool only when the registry has it under that name as a
    core tool or with rounds left, and its schema accepts the arguments. Every
    other call changes nothing and gives an error result; only when the check of
    the arguments of a callable tool itself panics there is none. A call that is
    accepted runs the tool once with the channel, the chat and the arguments of
    the call, and gives a result also when the tool panics or returns nil, which
    count as errors. *)
Theorem only_valid_calls_run (s : ToolRegistry T M * W) name args channel chatID callback :
  let given := default [] args in
  let '(s', result) := execute s name args channel chatID callback in
  ((forall t, callable (fst s) name t -> ~ accepts_args (Parameters t) given) ->
     s' = s /\
     ((exists r, result = Some r /\ IsError r = true) \/
      result = None /\ exists t, callable (fst s) name t /\ validateToolArgs quote show (Parameters t) given = Panics)) /\
  (forall t, callable (fst s) name t -> accepts_args (Parameters t) given ->
     exists ops w o r,
       (if IsAsync t && callback then ExecuteAsync else Execute) t channel chatID given (snd s) = (ops, w, o) /\
       r = settle name o /\ ((forall x, o <> Returned (Some x)) -> IsError r = true) /\
       let '(reg, w) := run ops (fst s, w) in
       s' = (reg, fst (normalizeToolResult r name (mediaStore reg) channel chatID w)) /\
       result = Some (snd (normalizeToolResult r name (mediaStore reg) channel chatID w))).
Proof.
  intros given. unfold ExecuteWithContext. change (match args with Some a => a | None => [] end) with given.
  assert (Hg : forall t, callable (fst s) name t <-> Get (fst s) name = Some t) by (intros t; symmetry; apply Get_callable).
  destruct (Get (fst s) name) as [t|].
  2: { split; [intros _; split; [done|]; left; eexists; by split|]. intros t Ht. by apply Hg in Ht. }
  assert (Hv : validateToolArgs quote show (Parameters t) given = Valid <-> accepts_args (Parameters t) given).
  { apply args_correct. intros k v _. apply checkType_correct. }
  destruct (validateToolArgs _ _ _ _) eqn:Ev.
  2: { split; [intros _; split; [done|]; left; eexists; by split|]. intros t' [= <-]%Hg Ha. by apply Hv in Ha. }
  2: { split; [intros _; split; [done|]; right; split; [done|]; exists t; by rewrite Hg|]. intros t' [= <-]%Hg Ha. by apply Hv in Ha. }
  destruct ((if IsAsync t && callback then ExecuteAsync else Execute) t channel chatID given (snd s)) as [[ops w] o] eqn:E.
  destruct (run ops (fst s, w)) as [reg w1] eqn:Er. destruct (normalizeToolResult _ _ _ _ _ _) as [w2 res] eqn:En. split.
  - intros Hn. by destruct (Hn t (proj2 (Hg t) eq_refl) (proj1 Hv eq_refl)).
  - intros t' [= <-]%Hg _. exists ops, w, o, (settle name o). rewrite E, Er, En. repeat split.
    intros Hx. destruct o as [[y|]|]; try done. by destruct (Hx y).
Qed.
End Claims.

(** *** An example: the tools [0] (core) and [1] (hidden) *)

Definition demo_name (t : nat) : string := match t with O => "read" | _ => "deploy" end.
Definition demo_schema (t : nat) : fields :=
  [("type", VString "object");
   ("properties", VObject [("path", VObject [("type", VString "string")])]); ("required", VStrings ["path"])].
Definition demo_registry : ToolRegistry nat nat * nat :=
  run_ops demo_name (fun _ _ w => w) [OpRegister 0%nat; OpRegisterHidden 1%nat] (NewToolRegistry, 0%nat).

(** It counts its runs. *)
Definition demo_execute (_ : nat) (_ _ : string) (args : fields) (w : nat) : list (operation nat nat) * nat * outcome :=
  ([], Datatypes.S w, Returned (Some (NewToolResult "done"))).

Definition demo_call (s : ToolRegistry nat nat * nat) (name : string) (args : option fields) :=
  ExecuteWithContext demo_name demo_schema (fun _ _ w => w) demo_execute demo_execute (fun _ => false)
    (fun r _ _ _ _ w => (w, r)) (fun x => x) (fun _ => "") s name args "cli" "direct" false.

Example demo_missing_argument :
  demo_call demo_registry "read" None =
  (demo_registry, Some (WithError (ErrorResult "invalid arguments for tool read: missing required property path")
                          "argument validation failed: missing required property path")).
Proof. reflexivity. Qed.

Example demo_hidden :
  snd (demo_call demo_registry "deploy" (Some [("path", VString "x")])) =
  Some (WithError (ErrorResult "tool deploy not found") "tool not found").
Proof. reflexivity. Qed.

Lemma hidden_tool_window_witness :
  Get (fst (run_ops demo_name (fun _ _ w => w) [OpTick; OpRegister 0%nat]
    (apply_op demo_name (fun _ _ w => w) demo_registry (OpPromote ["read"; "deploy"] 2)))) "deploy" = Some 1%nat /\
  Get (fst (run_ops demo_name (fun _ _ w => w) [OpTick; OpTick]
    (apply_op demo_name (fun _ _ w => w) demo_registry (OpPromote ["read"; "deploy"] 2)))) "deploy" = None.
Proof.
  split.
  - apply (hidden_tool_window demo_name (fun _ _ w => w) demo_registry "deploy" (mkEntry 1%nat false 0)
      ["read"; "deploy"] 2 [OpTick; OpRegister 0%nat]); [reflexivity|reflexivity|by do 2 constructor|by repeat constructor].
  - apply (hidden_tool_window demo_name (fun _ _ w => w) demo_registry "deploy" (mkEntry 1%nat false 0)
      ["read"; "deploy"] 2 [OpTick; OpTick]); [reflexivity|reflexivity|by do 2 constructor|by repeat constructor].
Defined.

Lemma only_valid_calls_run_witness :
  snd (fst (demo_call demo_registry "read" (Some [("path", VString "x")]))) = 1%nat /\
  fst (demo_call demo_registry "read" (Some [])) = demo_registry.
Proof.
  split; [reflexivity|].
  pose proof (only_valid_calls_run demo_name demo_schema (fun _ _ w => w) demo_execute demo_execute (fun _ => false)
    (fun r _ _ _ _ w => (w, r)) (fun x => x) (fun _ => "") demo_registry "read" (Some []) "cli" "direct" false) as [Hn _].
  apply Hn. intros t Ht Ha. apply Get_callable in Ht. injection Ht as <-. inversion Ha as [|? ? Hr _ _]. by apply (Hr "path"); [constructor|].
Defined.
