(* ===== verification/ToolSearch.v ===== *)
(** * Finding hidden tools: [src/pkg/tools/search_tool.go]

    Two tools let the model look for hidden tools, with a regular expression
    or in words; what they find is promoted for a number of rounds. The index
    for the search in words is kept until the registry changes. *)

From S2P Require Import Prelude GoStrings GoLib.
Import GoSort GoFloat.
From S2P Require Import Hooks ToolArgs ToolRegistry TopK Bm25.

Abbreviation ToolSearchResult := HiddenToolDoc.

Section Search.
Context {T M W : Type} (Name Description : T -> string) (inject : T -> option M -> W -> W).
#[local] Abbreviation registry := (ToolRegistry T M).
(** [regexp.Compile] (an error is a text), [json.Marshal] of the results,
    [math.Log], [sort.Slice] and iterations over the scores. *)
Context (Compile : string -> result string (string -> bool)) (Marshal : list ToolSearchResult -> string).
Context (Log : float64 -> float64) (sort_Slice : list bm25ScoredDoc -> list bm25ScoredDoc)
  (score_order : gmap nat float32 -> list bm25ScoredDoc).
Context (quote : string -> string).

Definition none_found : ToolResult := SilentResult "No tools found matching the query.".

Definition formatDiscoveryResponse (r : registry) (results : list ToolSearchResult) (ttl : Z) : registry * ToolResult :=
  match results with
  | [] => (r, none_found)
  | _ =>
      (PromoteTools (map DocName results) ttl r,
       SilentResult ("Found " +:+ itoa (Z.of_nat (length results)) +:+ " tools:" +:+ nl +:+ Marshal results +:+ nl +:+ nl +:+
         "SUCCESS: These tools have been temporarily UNLOCKED as native tools! In your next response, you can call them directly just like any normal tool"))
  end.

(** ** By regular expression *)

Definition MaxRegexPatternLength : Z := 200.

(** The loop over the sorted names ends when [room] results are there. *)
Fixpoint regex_results (r : registry) (matches : string -> bool) (room : nat) (names : list string) : list ToolSearchResult :=
  match names with
  | [] => []
  | name :: rest =>
      match tools r !! name with
      | Some e =>
          let desc := Description (Tool e) in
          if negb (IsCore e) && (matches name || matches desc) then
            mkDoc name desc :: match room with
                               | Datatypes.S (Datatypes.S _ as n) => regex_results r matches n rest
                               | _ => []
                               end
          else regex_results r matches room rest
      | None => regex_results r matches room rest
      end
  end.

Definition SearchRegex (r : registry) (pattern : string) (maxSearchResults : Z) : result string (list ToolSearchResult) :=
  if maxSearchResults <=? 0 then Ok []
  else match Compile ("(?i)" +:+ pattern) with
       | Err err => Err ("failed to compile regex pattern " +:+ quote pattern +:+ ": " +:+ err)
       | Ok matches => Ok (regex_results r matches (Z.to_nat maxSearchResults) (sortedToolNames r))
       end.

Definition string_arg (args : fields) (key : string) : option string :=
  match lookup_field args key with
  | Some (VString s) => if String.eqb (TrimSpace s) "" then None else Some s
  | _ => None
  end.

Definition RegexSearch_Execute (r : registry) (ttl maxSearchResults : Z) (args : fields) : registry * ToolResult :=
  match string_arg args "pattern" with
  | None => (r, ErrorResult "Missing or invalid 'pattern' argument. Must be a non-empty string.")
  | Some pattern =>
      if MaxRegexPatternLength <? len pattern
      then (r, ErrorResult ("Pattern too long: max " +:+ itoa MaxRegexPatternLength +:+ " characters allowed"))
      else match SearchRegex r pattern maxSearchResults with
           | Err err => (r, ErrorResult ("Invalid regex pattern syntax: " +:+ err +:+ ". Please fix your regex and try again."))
           | Ok res => formatDiscoveryResponse r res ttl
           end
  end.

(** ** In words *)

#[local] Abbreviation engine := (BM25Engine (D := HiddenToolDoc)).

Record BM25SearchTool : Type := mkSearchTool { cachedEngine : option engine; cacheVersion : Z }.

Definition NewBM25SearchTool : BM25SearchTool := mkSearchTool None 0.

Definition buildBM25Engine (docs : list HiddenToolDoc) : engine :=
  NewBM25Engine Log docs (fun doc => DocName doc +:+ " " +:+ DocDescription doc) DefaultBM25K1 DefaultBM25B.

(** [order] is the order of the snapshot's iteration. *)
Definition getOrBuildEngine (t : BM25SearchTool) (r : registry) (order : list string) : BM25SearchTool * option engine :=
  match cachedEngine t with
  | Some cached =>
      if cacheVersion t =? Version r then (t, Some cached)
      else
        let '(docs, v) := SnapshotHiddenTools Description order r in
        if cacheVersion t =? v then (t, Some cached)
        else match docs with
             | [] => (mkSearchTool None v, None)
             | _ => (mkSearchTool (Some (buildBM25Engine docs)) v, Some (buildBM25Engine docs))
             end
  | None =>
      let '(docs, v) := SnapshotHiddenTools Description order r in
      match docs with
      | [] => (mkSearchTool None v, None)
      | _ => (mkSearchTool (Some (buildBM25Engine docs)) v, Some (buildBM25Engine docs))
      end
  end.

Definition ranked (e : engine) (query : string) (maxSearchResults : Z) : list ToolSearchResult :=
  map fst (Search score_order sort_Slice e query maxSearchResults).

Definition BM25Search_Execute (t : BM25SearchTool) (r : registry) (order : list string) (ttl maxSearchResults : Z)
    (args : fields) : BM25SearchTool * registry * ToolResult :=
  match string_arg args "query" with
  | None => (t, r, ErrorResult "Missing or invalid 'query' argument. Must be a non-empty string.")
  | Some query =>
      let '(t, cached) := getOrBuildEngine t r order in
      match cached with
      | None => (t, r, none_found)
      | Some e =>
          let '(r, result) := formatDiscoveryResponse r (ranked e query maxSearchResults) ttl in
          (t, r, result)
      end
  end.

(** Without the cache. *)
Definition SearchBM25 (r : registry) (order : list string) (query : string) (maxSearchResults : Z) : list ToolSearchResult :=
  match fst (SnapshotHiddenTools Description order r) with
  | [] => []
  | docs => ranked (buildBM25Engine docs) query maxSearchResults
  end.

(** ** Steps: other changes of the registry between searches *)

Definition hidden_docs (r : registry) : list HiddenToolDoc := fst (SnapshotHiddenTools Description (sortedToolNames r) r).

(** Registrations are counted in 64 bits: no run is so long that the counter
    starts again. *)
Definition counts (op : operation T M) (v : Z) : Prop :=
  match op with OpRegister _ | OpRegisterHidden _ => v < 2 ^ 64 - 1 | _ => True end.

Inductive reachable : BM25SearchTool -> registry * W -> Prop :=
| reachable_new w : reachable NewBM25SearchTool (NewToolRegistry, w)
| reachable_op t s op : reachable t s -> counts op (Version (fst s)) -> reachable t (apply_op Name inject s op)
| reachable_search t s order :
    reachable t s -> order ≡ₚ sortedToolNames (fst s) ->
    reachable (fst (getOrBuildEngine t (fst s) order)) s.
End Search.

(** ** Facts *)

Section Facts.
Context {T M W : Type} (Name Description : T -> string) (inject : T -> option M -> W -> W).
Context (Log : float64 -> float64) (sort_Slice : list bm25ScoredDoc -> list bm25ScoredDoc)
  (score_order : gmap nat float32 -> list bm25ScoredDoc).
#[local] Abbreviation registry := (ToolRegistry T M).
Implicit Types (r : registry) (t : BM25SearchTool).

(** What the hidden documents depend on. *)
Definition kinds r : gmap string (T * bool) := (fun e => (Tool e, IsCore e)) <$> tools r.

Lemma sortedToolNames_kinds r : sortedToolNames r = sorted_keys (kinds r).
Proof.
  apply sort_strings_proper. unfold kinds. rewrite map_to_list_fmap.
  induction (map_to_list (tools r)) as [|[name e] l IH]; simpl; [done|]. by constructor.
Qed.

Lemma snapshot_kinds order r :
  fst (SnapshotHiddenTools Description order r) =
  omap (fun name => match kinds r !! name with
                    | Some (tool, core) => if core : bool then None else Some (mkDoc name (Description tool))
                    | None => None
                    end) order.
Proof.
  simpl. induction order as [|name order IH]; simpl; [done|]. unfold kinds at 1. rewrite lookup_fmap.
  destruct (tools r !! name) as [e|]; simpl; [|exact IH]. destruct (IsCore e); [exact IH|]. f_equal. exact IH.
Qed.

Lemma hidden_docs_kinds r r' : kinds r = kinds r' -> hidden_docs Description r = hidden_docs Description r'.
Proof. intros E. unfold hidden_docs. by rewrite !snapshot_kinds, !sortedToolNames_kinds, E. Qed.

Lemma snapshot_any_order order r :
  order ≡ₚ sortedToolNames r -> fst (SnapshotHiddenTools Description order r) ≡ₚ hidden_docs Description r.
Proof. intros Ho. unfold hidden_docs. simpl. by rewrite Ho. Qed.

(** Promotions and rounds change neither. *)
Lemma kinds_op (s : registry * W) op :
  match op with OpRegister _ | OpRegisterHidden _ => False | _ => True end ->
  kinds (fst (apply_op Name inject s op)) = kinds (fst s) /\
  Version (fst (apply_op Name inject s op)) = Version (fst s).
Proof.
  intros Hop. split; [|by destruct op, s]. apply map_eq. intros name. unfold kinds. rewrite !lookup_fmap, apply_op_lookup.
  destruct op; simpl in *; try done; destruct (tools (fst s) !! name) as [e|]; simpl; try done; f_equal.
  - destruct e as [tool [] n]; simpl; [done|]. by case_bool_decide.
  - unfold tick. by destruct (_ && _).
Qed.

#[local] Abbreviation build := (buildBM25Engine Log).

(** What is kept is what the registry had at that version. *)
Definition coherent t r : Prop :=
  0 <= Version r < 2 ^ 64 /\
  forall e, cachedEngine t = Some e ->
    cacheVersion t <= Version r /\
    (cacheVersion t = Version r -> exists docs, docs ≡ₚ hidden_docs Description r /\ e = build docs).

Lemma coherent_op t (s : registry * W) op :
  coherent t (fst s) -> counts op (Version (fst s)) -> coherent t (fst (apply_op Name inject s op)).
Proof.
  intros [Hv Hc] Hop.
  assert (Hreg : forall core tool, (exists b, op = (if b : bool then OpRegister tool else OpRegisterHidden tool)) ->
    coherent t (register Name core tool (fst s))).
  { intros core tool [b ->]. assert (Version (fst s) < 2 ^ 64 - 1) by by destruct b. unfold Version in *.
    split; simpl; rewrite Z.mod_small by lia; [lia|]. intros e He. destruct (Hc e He). split; lia. }
  destruct op; try (apply Hreg; by exists true); try (apply Hreg; by exists false);
    (match goal with |- coherent t (fst (apply_op _ _ _ ?op)) => destruct (kinds_op s op I) as [Hk HV] end;
     unfold coherent; rewrite HV, (hidden_docs_kinds _ _ Hk); done).
Qed.

(** A call gives, and keeps, what the registry has now. *)
Lemma getOrBuildEngine_current t r order :
  coherent t r -> order ≡ₚ sortedToolNames r ->
  let '(t', eng) := getOrBuildEngine Description Log t r order in
  coherent t' r /\
  match eng with
  | Some e => exists docs, docs ≡ₚ hidden_docs Description r /\ e = build docs
  | None => hidden_docs Description r = []
  end.
Proof.
  intros [Hv Hc] Ho. pose proof (snapshot_any_order order r Ho) as Hd.
  unfold getOrBuildEngine. destruct (SnapshotHiddenTools _ _ _) as [docs v] eqn:E. simpl in Hd.
  assert (v = Version r) as -> by by injection E.
  assert (Hnew : forall docs' : list HiddenToolDoc, docs' = docs -> docs' <> [] ->
    coherent (mkSearchTool (Some (build docs')) (Version r)) r /\
    exists docs, docs ≡ₚ hidden_docs Description r /\ build docs' = build docs).
  { intros docs' -> _. split; [|by exists docs]. split; [done|]. intros e [= <-]. split; [done|]. by exists docs. }
  assert (Hnone : docs = [] -> coherent (mkSearchTool None (Version r)) r /\ hidden_docs Description r = []).
  { intros ->. split; [by split|]. by apply Permutation_nil_l in Hd. }
  destruct (cachedEngine t) as [e|] eqn:Ee.
  - destruct (Hc e eq_refl) as [Hle Hcur]. destruct (Z.eqb_spec (cacheVersion t) (Version r)) as [Ev|Hne].
    + split; [|by apply Hcur]. split; [done|]. intros e' E'. rewrite Ee in E'. simplify_eq. by split.
    + destruct docs; [by apply Hnone|by apply Hnew].
  - destruct docs; [by apply Hnone|by apply Hnew].
Qed.

Lemma reachable_coherent t (s : registry * W) : reachable Name Description inject Log t s -> coherent t (fst s).
Proof.
  induction 1 as [w|t s op _ IH Hop|t s order _ IH Ho].
  - split; [simpl; lia|]. by intros e.
  - by apply coherent_op.
  - pose proof (getOrBuildEngine_current t (fst s) order IH Ho) as Hg.
    destruct (getOrBuildEngine _ _ _ _ _) as [t' eng]. by destruct Hg.
Qed.
End Facts.

(** ** Theorems *)

Section Claims.
Context {T M W : Type} (Name Description : T -> string) (inject : T -> option M -> W -> W).
Context (Marshal : list ToolSearchResult -> string).
Context (Log : float64 -> float64) (sort_Slice : list bm25ScoredDoc -> list bm25ScoredDoc)
  (score_order : gmap nat float32 -> list bm25ScoredDoc).

(** The search index is never stale: after any sequence of registrations,
    promotions, rounds and searches, the engine that a search uses is that of
    the hidden tools that the registry has now (there is none exactly when no
    tool is hidden), although it is built only when the version has changed. *)
Theorem search_index_is_current t (s : ToolRegistry T M * W) order :
  reachable Name Description inject Log t s -> order ≡ₚ sortedToolNames (fst s) ->
  match snd (getOrBuildEngine Description Log t (fst s) order) with
  | Some e => exists docs, docs ≡ₚ hidden_docs Description (fst s) /\ e = buildBM25Engine Log docs
  | None => hidden_docs Description (fst s) = []
  end.
Proof.
  intros Hr Ho. pose proof (getOrBuildEngine_current Description Log t (fst s) order
    (reachable_coherent Name Description inject Log t s Hr) Ho) as Hg.
  by destruct (getOrBuildEngine _ _ _ _ _) as [t' eng], Hg.
Qed.

Lemma elem_hidden_docs (r : ToolRegistry T M) doc :
  doc ∈ hidden_docs Description r ->
  exists e, tools r !! DocName doc = Some e /\ IsCore e = false /\ DocDescription doc = Description (Tool e).
Proof.
  unfold hidden_docs. simpl. rewrite list_elem_of_omap. intros (name & _ & E).
  destruct (tools r !! name) as [e|] eqn:Ee; [|done]. destruct (IsCore e) eqn:Ec; [done|]. simplify_eq/=. eauto.
Qed.

Lemma ranked_corpus docs query k doc :
  doc ∈ ranked sort_Slice score_order (buildBM25Engine Log docs) query k -> doc ∈ docs.
Proof.
  unfold ranked, Search. intros ([d sc] & -> & Hd)%list_elem_of_fmap.
  apply list_elem_of_omap in Hd as ([i sc'] & _ & E). apply fmap_Some in E as (d' & E & [= -> ->]).
  by eapply list_elem_of_lookup_2.
Qed.

Lemma promoted_Get (r : ToolRegistry T M) names ttl name e :
  tools r !! name = Some e -> IsCore e = false -> name ∈ names -> 0 < ttl ->
  Get (PromoteTools names ttl r) name = Some (Tool e).
Proof.
  intros E Ec Hin Ht. rewrite Get_visible. simpl. rewrite promote_lookup, E, Ec, bool_decide_true by done.
  unfold visible. simpl. by rewrite (proj2 (Z.ltb_lt _ _) Ht).
Qed.

(** What a search finds can be called right away: either nothing is found
    (or asked for) and the registry stays as it is, or every result is a
    hidden tool of the registry, with its description, that [Get] finds
    afterwards. *)
Theorem found_tools_can_be_called t (s : ToolRegistry T M * W) order ttl maxSearchResults args :
  reachable Name Description inject Log t s -> order ≡ₚ sortedToolNames (fst s) -> 0 < ttl ->
  let '(_, r', result) :=
    BM25Search_Execute Description Marshal Log sort_Slice score_order t (fst s) order ttl maxSearchResults args in
  (r' = fst s /\ (result = none_found \/ IsError result = true)) \/
  exists query docs results,
    string_arg args "query" = Some query /\ docs ≡ₚ hidden_docs Description (fst s) /\
    results = ranked sort_Slice score_order (buildBM25Engine Log docs) query maxSearchResults /\ results <> [] /\
    r' = PromoteTools (map DocName results) ttl (fst s) /\
    forall doc, doc ∈ results -> exists tool, Get r' (DocName doc) = Some tool /\ Description tool = DocDescription doc.
Proof.
  intros Hr Ho Ht. pose proof (getOrBuildEngine_current Description Log t (fst s) order
    (reachable_coherent Name Description inject Log t s Hr) Ho) as Hg.
  unfold BM25Search_Execute. destruct (string_arg args "query") as [query|]; [|left; auto].
  destruct (getOrBuildEngine _ _ _ _ _) as [t' [e|]]; [|left; auto]. destruct Hg as (_ & docs & Hdocs & ->).
  unfold formatDiscoveryResponse.
  destruct (ranked _ _ _ _ _) as [|x results] eqn:E; [left; auto|right].
  exists query, docs, (x :: results). rewrite E. repeat split; [done..|]. intros doc Hdoc.
  rewrite <- E in Hdoc. apply ranked_corpus in Hdoc as Hin. rewrite Hdocs in Hin.
  apply elem_hidden_docs in Hin as (en & Een & Ec & Ed). exists (Tool en). split; [|done].
  apply promoted_Get; [done..| |done]. apply list_elem_of_fmap. exists doc. split; [done|]. by rewrite <- E.
Qed.
End Claims.

(** *** An example *)

Definition search_demo : ToolRegistry nat nat * nat :=
  apply_op demo_name (fun _ _ w => w)
    (apply_op demo_name (fun _ _ w => w) (NewToolRegistry, 0%nat) (OpRegister 0%nat)) (OpRegisterHidden 1%nat).

Definition demo_description (t : nat) : string := match t with O => "Read a file" | _ => "Deploy the site" end.

Lemma search_demo_reachable t :
  t = NewBM25SearchTool -> reachable demo_name demo_description (fun _ _ w => w) (fun x => x) t search_demo.
Proof.
  intros ->. unfold search_demo. apply reachable_op; [apply reachable_op; [constructor|reflexivity]|reflexivity].
Qed.

Lemma search_index_is_current_witness :
  exists docs, docs ≡ₚ hidden_docs demo_description (fst search_demo) /\
    snd (getOrBuildEngine demo_description (fun x => x) NewBM25SearchTool (fst search_demo) ["read"; "deploy"]) =
    Some (buildBM25Engine (fun x => x) docs).
Proof.
  pose proof (search_index_is_current demo_name demo_description (fun _ _ w => w) (fun x => x) NewBM25SearchTool
    search_demo ["read"; "deploy"] (search_demo_reachable _ eq_refl) (perm_swap _ _ _)) as Hs.
  destruct Hs as (docs & Hd & E). exists docs. split; [exact Hd|]. by rewrite <- E.
Defined.

Definition demo_found : ToolRegistry nat nat :=
  let '(_, r', _) := BM25Search_Execute demo_description (fun _ => "[]") (fun x => x) sort_scores map_to_list
    NewBM25SearchTool (fst search_demo) ["read"; "deploy"] 5 3 [("query", VString "deploy a site")] in r'.

Example demo_found_deploy : Get demo_found "deploy" = Some 1%nat.
Proof. vm_compute. reflexivity. Qed.

Lemma found_tools_can_be_called_witness :
  exists docs, docs ≡ₚ hidden_docs demo_description (fst search_demo) /\
    demo_found = PromoteTools (map DocName (ranked sort_scores map_to_list (buildBM25Engine (fun x => x) docs)
                                              "deploy a site" 3)) 5 (fst search_demo).
Proof.
  pose proof demo_found_deploy as Hd. unfold demo_found in *.
  pose proof (found_tools_can_be_called demo_name demo_description (fun _ _ w => w) (fun _ => "[]") (fun x => x)
    sort_scores map_to_list NewBM25SearchTool search_demo ["read"; "deploy"] 5 3 [("query", VString "deploy a site")]
    (search_demo_reachable _ eq_refl) (perm_swap _ _ _) ltac:(done)) as Hf.
  destruct (BM25Search_Execute _ _ _ _ _ _ _ _ _ _ _) as [[t' r'] result].
  destruct Hf as [[-> _]|(query & docs & results & E & Hdocs & -> & _ & -> & _)].
  - exfalso. clear -Hd. revert Hd. vm_compute. discriminate.
  - exists docs. split; [done|]. by injection E as <-.
Defined.
