(* ===== verification/MediaStore.v ===== *)
(** * Media files and their references: [src/pkg/media/store.go]

    Several references may share a file. A file that the store manages is
    deleted with its last reference; one that somebody else owns is only
    forgotten. *)

From S2P Require Import Prelude GoStrings.

Definition CleanupPolicyDeleteOnCleanup : string := "delete_on_cleanup".
Definition CleanupPolicyForgetOnly : string := "forget_only".

Record MediaMeta : Type := mkMeta { Filename : string; ContentType : string; Source : string; CleanupPolicy : string }.

Record mediaEntry : Type := mkMediaEntry { path : string; meta : MediaMeta; storedAt : time }.

Record pathRefState : Type := mkPathState { refCount : Z; deleteEligible : bool }.

Record FileMediaStore : Type := mkStore {
  refs : gmap string mediaEntry;
  scopeToRefs : gmap string (gset string);
  refToScope : gmap string string;
  refToPath : gmap string string;
  pathStates : gmap string pathRefState
}.

Definition NewFileMediaStore : FileMediaStore := mkStore ∅ ∅ ∅ ∅ ∅.

Definition normalizeCleanupPolicy (policy : string) : string :=
  if String.eqb policy "" || String.eqb policy CleanupPolicyDeleteOnCleanup then CleanupPolicyDeleteOnCleanup
  else if String.eqb policy CleanupPolicyForgetOnly then CleanupPolicyForgetOnly
  else CleanupPolicyDeleteOnCleanup.

Definition with_policy (m : MediaMeta) : MediaMeta :=
  mkMeta (Filename m) (ContentType m) (Source m) (normalizeCleanupPolicy (CleanupPolicy m)).

(** ** Operations under the lock *)

(** The rest of [Store], after [os.Stat]; [id] is the new UUID. *)
Definition store_locked (id localPath : string) (meta : MediaMeta) (scope : string) (now : time) (s : FileMediaStore) :
    FileMediaStore * string :=
  let ref := "media://" +:+ id in
  let meta := with_policy meta in
  let st := default (mkPathState 0 false) (pathStates s !! localPath) in
  let eligible :=
    if refCount st =? 0 then String.eqb (CleanupPolicy meta) CleanupPolicyDeleteOnCleanup
    else if String.eqb (CleanupPolicy meta) CleanupPolicyForgetOnly then false else deleteEligible st in
  (mkStore (<[ref := mkMediaEntry localPath meta now]> (refs s))
     (<[scope := {[ref]} ∪ default ∅ (scopeToRefs s !! scope)]> (scopeToRefs s))
     (<[ref := scope]> (refToScope s)) (<[ref := localPath]> (refToPath s))
     (<[localPath := mkPathState (refCount st + 1) eligible]> (pathStates s)), ref).

Definition ResolveWithMeta (s : FileMediaStore) (ref : string) : option (string * MediaMeta) :=
  (fun e => (path e, meta e)) <$> refs s !! ref.

Definition Resolve (s : FileMediaStore) (ref : string) : option string := fst <$> ResolveWithMeta s ref.

(** The path to delete, if any. *)
Definition releaseRefLocked (ref fallbackPath : string) (s : FileMediaStore) : FileMediaStore * option string :=
  let p := default fallbackPath (refToPath s !! ref) in
  let s' := mkStore (delete ref (refs s)) (scopeToRefs s) (delete ref (refToScope s)) (delete ref (refToPath s)) in
  if String.eqb p "" then (s' (pathStates s), None)
  else match pathStates s !! p with
       | None => (s' (pathStates s), None)
       | Some st =>
           if refCount st <=? 1 then (s' (delete p (pathStates s)), if deleteEligible st then Some p else None)
           else (s' (<[p := mkPathState (refCount st - 1) (deleteEligible st)]> (pathStates s)), None)
       end.

Definition fallback (s : FileMediaStore) (ref : string) : string :=
  match refs s !! ref with Some e => path e | None => "" end.

(** The loop over the references of a scope, in the order of the iteration,
    with the paths to delete. *)
Fixpoint release_all (order : list string) (s : FileMediaStore) : FileMediaStore * list string :=
  match order with
  | [] => (s, [])
  | ref :: rest =>
      let '(s, p) := releaseRefLocked ref (fallback s ref) s in
      let '(s, paths) := release_all rest s in
      (s, option_list p ++ paths)
  end.

Definition ReleaseAll_locked (scope : string) (order : list string) (s : FileMediaStore) : FileMediaStore * list string :=
  match scopeToRefs s !! scope with
  | None => (s, [])
  | Some _ =>
      let '(s, paths) := release_all order s in
      (mkStore (refs s) (delete scope (scopeToRefs s)) (refToScope s) (refToPath s) (pathStates s), paths)
  end.

Definition drop_from_scope (ref : string) (s : FileMediaStore) : FileMediaStore :=
  match refToScope s !! ref with
  | Some scope =>
      match scopeToRefs s !! scope with
      | Some scopeRefs =>
          let left := scopeRefs ∖ {[ref]} in
          mkStore (refs s) (if bool_decide (left = ∅) then delete scope (scopeToRefs s) else <[scope := left]> (scopeToRefs s))
            (refToScope s) (refToPath s) (pathStates s)
      | None => s
      end
  | None => s
  end.

(** The loop over all references: those stored before [cutoff] go. *)
Fixpoint clean_expired (cutoff : time) (order : list string) (s : FileMediaStore) : FileMediaStore * list string * Z :=
  match order with
  | [] => (s, [], 0)
  | ref :: rest =>
      match refs s !! ref with
      | Some e =>
          if storedAt e <? cutoff then
            let '(s, p) := releaseRefLocked ref (path e) (drop_from_scope ref s) in
            let '(s, paths, n) := clean_expired cutoff rest s in
            (s, option_list p ++ paths, n + 1)
          else clean_expired cutoff rest s
      | None => clean_expired cutoff rest s
      end
  end.

(** With the number of references removed. *)
Definition CleanExpired_locked (maxAge : duration) (now : time) (order : list string) (s : FileMediaStore) :
    FileMediaStore * list string * Z :=
  if maxAge <=? 0 then (s, [], 0) else clean_expired (now - maxAge) order s.

(** ** The store and the disk

    [Store] looks for the file before it takes the lock, and files are deleted
    after the lock is released: anything can come in between. [checked]: the
    paths of the calls of [Store] that wait for the lock; [pending]: the paths
    that are still to be deleted. [raced] is not part of the program: the
    references that were given although the file was gone meanwhile, or was
    about to be deleted. *)

Record world : Type := mkWorld {
  store : FileMediaStore;
  disk : gset string;
  checked : list string;
  pending : list string;
  raced : gset string
}.

Definition empty_world : world := mkWorld NewFileMediaStore ∅ [] [] ∅.

(** A call of [Store] under the lock. *)
Definition store_done (w : world) (waiting : list string) (id localPath : string) (meta : MediaMeta) (scope : string) (now : time) : world :=
  let '(s, ref) := store_locked id localPath meta scope now (store w) in
  mkWorld s (disk w) waiting (pending w)
    (if bool_decide (localPath ∈ disk w /\ localPath ∉ pending w) then raced w else {[ref]} ∪ raced w).

(** UUIDs are new, iterations meet every element once, in any order; nobody
    else deletes files. *)
Inductive step (w : world) : world -> Prop :=
| step_create p : p <> "" ->
    step w (mkWorld (store w) ({[p]} ∪ disk w) (checked w) (pending w) (raced w))
| step_stat p : p ∈ disk w ->
    step w (mkWorld (store w) (disk w) (p :: checked w) (pending w) (raced w))
| step_store before p after id m scope now :
    checked w = before ++ p :: after -> refs (store w) !! ("media://" +:+ id) = None ->
    step w (store_done w (before ++ after) id p m scope now)
| step_release scope order s paths :
    order ≡ₚ elements (default ∅ (scopeToRefs (store w) !! scope)) ->
    ReleaseAll_locked scope order (store w) = (s, paths) ->
    step w (mkWorld s (disk w) (checked w) (pending w ++ paths) (raced w))
| step_clean maxAge now order s paths n :
    order ≡ₚ map fst (map_to_list (refs (store w))) ->
    CleanExpired_locked maxAge now order (store w) = (s, paths, n) ->
    step w (mkWorld s (disk w) (checked w) (pending w ++ paths) (raced w))
(** [os.Remove], which may fail. *)
| step_remove before p after (fails : bool) :
    pending w = before ++ p :: after ->
    step w (mkWorld (store w) (if fails then disk w else disk w ∖ {[p]}) (checked w) (before ++ after) (raced w)).

Definition reachable (w : world) : Prop := rtc step empty_world w.

(** ** Invariants *)

(** The references to a file. *)
Definition users (p : string) (m : gmap string mediaEntry) : gmap string mediaEntry :=
  filter (fun x => path (snd x) = p) m.

Definition some_count (n : nat) : option Z := match n with O => None | Datatypes.S _ => Some (Z.of_nat n) end.

Record paths_ok (s : FileMediaStore) : Prop := {
  ok_path ref : refToPath s !! ref = path <$> refs s !! ref;
  ok_nonempty ref e : refs s !! ref = Some e -> path e <> "";
  ok_count p :
    refCount <$> pathStates s !! p = some_count (size (users p (refs s)));
  ok_eligible p st ref e :
    pathStates s !! p = Some st -> deleteEligible st = true -> refs s !! ref = Some e -> path e = p ->
    CleanupPolicy (meta e) = CleanupPolicyDeleteOnCleanup
}.

Record scopes_ok (s : FileMediaStore) : Prop := {
  ok_scope ref scope :
    refToScope s !! ref = Some scope <-> exists set, scopeToRefs s !! scope = Some set /\ ref ∈ set;
  ok_dom ref : is_Some (refToScope s !! ref) <-> is_Some (refs s !! ref)
}.

Lemma users_insert ref e m :
  m !! ref = None ->
  users (path e) (<[ref := e]> m) = <[ref := e]> (users (path e) m) /\ users (path e) m !! ref = None.
Proof.
  intros E. split; [by apply map_filter_insert_True|]. apply map_lookup_filter_None. by left.
Qed.

Lemma users_insert_ne p ref e m : m !! ref = None -> path e <> p -> users p (<[ref := e]> m) = users p m.
Proof.
  intros E Hp. unfold users. rewrite map_filter_insert_False by done. by rewrite delete_id.
Qed.

Lemma users_delete p ref m : users p (delete ref m) = delete ref (users p m).
Proof. apply map_filter_delete. Qed.

Lemma users_lookup p ref e m : users p m !! ref = Some e <-> m !! ref = Some e /\ path e = p.
Proof. apply map_lookup_filter_Some. Qed.

Lemma users_delete_ne p ref e m : m !! ref = Some e -> path e <> p -> users p (delete ref m) = users p m.
Proof.
  intros E Hp. rewrite users_delete. apply delete_id. apply map_lookup_filter_None. right. intros e' E'. by simplify_eq.
Qed.

Lemma users_delete_size ref e m :
  m !! ref = Some e -> size (users (path e) m) = Datatypes.S (size (users (path e) (delete ref m))).
Proof.
  intros E. rewrite users_delete. assert (Hu : users (path e) m !! ref = Some e) by by apply users_lookup.
  rewrite map_size_delete, Hu.
  assert (size (users (path e) m) <> 0%nat) by (intros Hz%map_size_empty_inv; by rewrite Hz, lookup_empty in Hu). lia.
Qed.

(** *** Releasing one reference *)

(** The file may be deleted with its last reference. *)
Definition eligible (s : FileMediaStore) (p : string) : bool :=
  match pathStates s !! p with Some st => deleteEligible st | None => false end.

Lemma release_spec ref e fb s :
  paths_ok s -> refs s !! ref = Some e ->
  let '(s', p) := releaseRefLocked ref fb s in
  paths_ok s' /\ refs s' = delete ref (refs s) /\ scopeToRefs s' = scopeToRefs s /\
  refToScope s' = delete ref (refToScope s) /\
  p = (if bool_decide (users (path e) (refs s') = ∅) && eligible s (path e) then Some (path e) else None) /\
  (forall q, users q (refs s') <> ∅ -> eligible s' q = eligible s q).
Proof.
  intros Hok E. pose proof (ok_count s Hok (path e)) as Hc. pose proof (users_delete_size _ _ _ E) as Hsz.
  unfold releaseRefLocked, eligible. rewrite (ok_path s Hok), E. cbn [fmap option_fmap option_map default from_option id].
  rewrite (proj2 (String.eqb_neq _ _) (ok_nonempty s Hok _ _ E)). rewrite Hsz in Hc.
  unfold some_count in Hc at 1. destruct (pathStates s !! path e) as [st|] eqn:Est; [|done]. simpl in Hc. injection Hc as Hc.
  assert (Hel : deleteEligible st = true -> CleanupPolicy (meta e) = CleanupPolicyDeleteOnCleanup).
  { intros Hd. by eapply ok_eligible. }
  set (rest := size (users (path e) (delete ref (refs s)))) in *.
  assert (Hnew : forall states',
    (refCount <$> states' !! path e = some_count rest) ->
    (forall p, p <> path e -> states' !! p = pathStates s !! p) ->
    (forall st', states' !! path e = Some st' -> deleteEligible st' = deleteEligible st) ->
    paths_ok (mkStore (delete ref (refs s)) (scopeToRefs s) (delete ref (refToScope s)) (delete ref (refToPath s)) states')).
  { intros states' Hp Hne Hd. split; simpl.
    - intros ref'. destruct (decide (ref = ref')) as [->|]; simplify_map_eq; [done|]. apply (ok_path s Hok).
    - intros ref' e' [_ E']%lookup_delete_Some. by eapply ok_nonempty.
    - intros p. destruct (decide (p = path e)) as [->|Hpe]; [done|].
      rewrite Hne, (users_delete_ne p ref e) by done. apply (ok_count s Hok).
    - intros p st' ref' e' Est' Hel' [_ E']%lookup_delete_Some Hpath.
      destruct (decide (p = path e)) as [->|Hpe].
      + rewrite (Hd _ Est') in Hel'. by eapply (ok_eligible s Hok).
      + rewrite Hne in Est' by done. by eapply (ok_eligible s Hok). }
  destruct (Z.leb_spec (refCount st) 1) as [Hle|Hgt].
  - assert (Hr : users (path e) (delete ref (refs s)) = ∅) by (apply map_size_empty_inv; fold rest; lia).
    simpl. rewrite bool_decide_true by done.
    split; [|split; [done|split; [done|split; [done|split]]]].
    + apply Hnew; [|by intros p Hp; rewrite lookup_delete_ne|by rewrite lookup_delete_eq].
      rewrite lookup_delete_eq. unfold rest. by rewrite Hr.
    + by destruct (deleteEligible st).
    + intros q Hq. rewrite lookup_delete_ne; [done|]. by intros <-.
  - assert (Hr : users (path e) (delete ref (refs s)) <> ∅).
    { intros Hr. unfold rest in Hc. rewrite Hr, map_size_empty in Hc. lia. }
    simpl. rewrite bool_decide_false by done. split; [|split; [done|split; [done|split; [done|split; [done|]]]]].
    + apply Hnew.
      * rewrite lookup_insert_eq. simpl. unfold some_count. destruct rest; [lia|]. f_equal. lia.
      * intros p Hp. by rewrite lookup_insert_ne.
      * rewrite lookup_insert_eq. by intros st' [= <-].
    + intros q Hq. destruct (decide (q = path e)) as [->|]; [by rewrite lookup_insert_eq, Est|by rewrite lookup_insert_ne].
Qed.

(** *** Releasing many *)

Lemma users_nonempty p ref e m : m !! ref = Some e -> path e = p -> users p m <> ∅.
Proof.
  intros E Hp Hu. assert (Hl : users p m !! ref = Some e) by by apply users_lookup. by rewrite Hu, lookup_empty in Hl.
Qed.

Lemma users_mono p m m' : m' ⊆ m -> users p m = ∅ -> users p m' = ∅.
Proof.
  intros Hs Hu. apply map_empty. intros ref. destruct (users p m' !! ref) as [e|] eqn:E; [|done].
  apply users_lookup in E as [E Hp]. exfalso. eapply users_nonempty; [|done|done]. by eapply lookup_weaken.
Qed.

(** What a loop over [order] does: these references go, and the paths to
    delete are those whose last reference went, if they may be deleted. *)
Definition released (order : list string) (s s' : FileMediaStore) (paths : list string) : Prop :=
  paths_ok s' /\ refs s' ⊆ refs s /\
  (forall ref, ref ∈ order -> refs s' !! ref = None) /\
  (forall ref, ref ∉ order -> refs s' !! ref = refs s !! ref) /\
  (forall q, users q (refs s') <> ∅ -> eligible s' q = eligible s q) /\
  (forall p, p ∈ paths <->
     users p (refs s') = ∅ /\ eligible s p = true /\ exists ref e, ref ∈ order /\ refs s !! ref = Some e /\ path e = p).

Lemma released_nil s : paths_ok s -> released [] s s [].
Proof. intros Hok. split; [done|]. split; [done|]. split; [set_solver|]. split; [done|]. split; [done|]. set_solver. Qed.

Lemma released_cons ref e order s s1 s' paths :
  refs s !! ref = Some e -> ref ∉ order ->
  paths_ok s1 -> refs s1 = delete ref (refs s) -> (forall q, users q (refs s1) <> ∅ -> eligible s1 q = eligible s q) ->
  released order s1 s' paths ->
  released (ref :: order) s s'
    (option_list (if bool_decide (users (path e) (refs s1) = ∅) && eligible s (path e) then Some (path e) else None) ++ paths).
Proof.
  intros E Hn Hok1 Er1 Hel1 (Hok' & Hsub & Hgone & Hkeep & Hel & Hp).
  assert (Hsub0 : refs s' ⊆ refs s) by (etransitivity; [done|rewrite Er1; apply delete_subseteq]).
  split; [done|]. split; [done|]. split; [|split; [|split]].
  - intros r [->|Hr]%elem_of_cons; [|by apply Hgone]. rewrite Hkeep, Er1 by done. apply lookup_delete_eq.
  - intros r Hr. apply not_elem_of_cons in Hr as [Hne Hr]. rewrite Hkeep, Er1 by done. by apply lookup_delete_ne.
  - intros q Hq. rewrite (Hel q Hq). apply Hel1. intros Hu. by apply Hq, (users_mono _ (refs s1)).
  - intros p. rewrite elem_of_app, Hp. split.
    + intros [Hh|(Hu & He & r & e' & Hr & E' & <-)].
      * destruct (bool_decide _ && eligible s (path e)) eqn:Eb; [|by apply elem_of_nil in Hh].
        apply andb_true_iff in Eb as [Hb%bool_decide_eq_true He]. apply list_elem_of_singleton in Hh as ->.
        split; [by apply (users_mono _ (refs s1))|]. split; [done|]. exists ref, e. split; [by left|done].
      * split; [done|]. rewrite <- Hel1 by by eapply users_nonempty. split; [done|].
        rewrite Er1 in E'. apply lookup_delete_Some in E' as [_ E']. exists r, e'. split; [by right|done].
    + intros (Hu & He & r & e' & Hr & E' & <-). destruct (decide (users (path e') (refs s1) = ∅)) as [Hs1|Hs1].
      * left. apply elem_of_cons in Hr as [->|Hr].
        -- rewrite E in E'. injection E' as <-. rewrite bool_decide_true, He by done. by left.
        -- exfalso. eapply users_nonempty; [|done|exact Hs1]. rewrite Er1, lookup_delete_ne; [done|]. by intros ->.
      * right. split; [done|]. rewrite (Hel1 _ Hs1). split; [done|].
        apply map_choose in Hs1 as (r2 & e2 & [E2 Hp2]%users_lookup). exists r2, e2. split; [|done].
        destruct (decide (r2 ∈ order)) as [|Hn2]; [done|]. exfalso.
        eapply users_nonempty; [|exact Hp2|exact Hu]. by rewrite Hkeep.
Qed.

Lemma release_all_spec order s :
  paths_ok s -> NoDup order -> (forall ref, ref ∈ order -> is_Some (refs s !! ref)) ->
  let '(s', paths) := release_all order s in
  released order s s' paths /\ scopeToRefs s' = scopeToRefs s /\
  (forall ref, refToScope s' !! ref = if bool_decide (ref ∈ order) then None else refToScope s !! ref).
Proof.
  revert s. induction order as [|ref order IH]; intros s Hok Hnd Hin; cbn [release_all].
  - split; [by apply released_nil|]. split; [done|]. intros ref. by rewrite bool_decide_false by set_solver.
  - apply NoDup_cons in Hnd as [Hn Hnd]. destruct (Hin ref) as [e E]; [by left|].
    pose proof (release_spec ref e (fallback s ref) s Hok E) as Hr.
    destruct (releaseRefLocked _ _ s) as [s1 p]. destruct Hr as (Hok1 & Er1 & Es1 & Et1 & -> & Hel1).
    specialize (IH s1 Hok1 Hnd). destruct (release_all order s1) as [s' paths].
    destruct IH as (Hrel & Es' & Et').
    { intros r Hr. rewrite Er1, lookup_delete_ne; [apply Hin; by right|]. by intros ->. }
    split; [by eapply released_cons|]. split; [by rewrite Es'|]. intros r. rewrite Et', Et1.
    destruct (decide (r = ref)) as [->|Hne].
    + rewrite lookup_delete_eq, (bool_decide_true (ref ∈ ref :: order)) by by left. by case_bool_decide.
    + rewrite lookup_delete_ne by done. erewrite bool_decide_ext; [done|]. rewrite elem_of_cons. naive_solver.
Qed.

(** *** Scopes *)

Lemma paths_ok_fields s s' :
  refs s' = refs s -> refToPath s' = refToPath s -> pathStates s' = pathStates s -> paths_ok s -> paths_ok s'.
Proof.
  intros Er Ep Es [H1 H2 H3 H4]. split; intros *; rewrite ?Er, ?Ep, ?Es; eauto.
Qed.

Lemma drop_from_scope_fields ref s :
  refs (drop_from_scope ref s) = refs s /\ refToScope (drop_from_scope ref s) = refToScope s /\
  refToPath (drop_from_scope ref s) = refToPath s /\ pathStates (drop_from_scope ref s) = pathStates s.
Proof. unfold drop_from_scope. by destruct (refToScope s !! ref) as [sc|]; [destruct (scopeToRefs s !! sc)|]. Qed.

Lemma drop_from_scope_scopes ref s sc r :
  scopes_ok s -> is_Some (refs s !! ref) ->
  (exists set, scopeToRefs (drop_from_scope ref s) !! sc = Some set /\ r ∈ set) <->
  r <> ref /\ refToScope s !! r = Some sc.
Proof.
  intros Hok [scope Es]%(ok_dom s Hok). pose proof (proj1 (ok_scope s Hok _ _) Es) as (set & Eset & Hin).
  unfold drop_from_scope. rewrite Es, Eset. rewrite (ok_scope s Hok).
  destruct (decide (sc = scope)) as [->|Hne].
  - rewrite Eset. case_bool_decide as Hemp; simpl.
    + rewrite lookup_delete_eq. split; [by intros (? & ? & _)|]. intros (Hr & ? & [= <-] & Hrs). set_solver.
    + rewrite lookup_insert_eq. split.
      * intros (? & [= <-] & Hr). apply elem_of_difference in Hr as [Hr Hne]. split; [set_solver|]. by exists set.
      * intros (Hr & ? & [= <-] & Hrs). eexists. split; [done|]. set_solver.
  - assert (Hsame : scopeToRefs s !! sc = (if bool_decide (set ∖ {[ref]} = ∅) then delete scope (scopeToRefs s)
                      else <[scope := set ∖ {[ref]}]> (scopeToRefs s)) !! sc).
    { case_bool_decide; by rewrite ?lookup_delete_ne, ?lookup_insert_ne. }
    simpl. rewrite <- Hsame. split; [|naive_solver]. intros (set' & E' & Hr). split; [|by exists set'].
    intros ->. assert (refToScope s !! ref = Some sc) by (apply (ok_scope s Hok); eauto). congruence.
Qed.

Definition is_expired (cutoff : time) (s : FileMediaStore) (ref : string) : bool :=
  match refs s !! ref with Some e => storedAt e <? cutoff | None => false end.

Lemma clean_expired_spec cutoff order s :
  paths_ok s -> scopes_ok s -> NoDup order ->
  let '(s', paths, n) := clean_expired cutoff order s in
  let gone := List.filter (is_expired cutoff s) order in
  released gone s s' paths /\ scopes_ok s' /\ n = Z.of_nat (length gone).
Proof.
  revert s. induction order as [|ref order IH]; intros s Hok Hsc Hnd; cbn [clean_expired List.filter].
  - split; [by apply released_nil|done].
  - apply NoDup_cons in Hnd as [Hn Hnd]. cbn zeta.
    assert (Ei : is_expired cutoff s ref = match refs s !! ref with Some e => storedAt e <? cutoff | None => false end) by done.
    rewrite !Ei. clear Ei.
    destruct (refs s !! ref) as [e|] eqn:E; [|by apply IH]. destruct (storedAt e <? cutoff); [|by apply IH].
    destruct (drop_from_scope_fields ref s) as (Dr & Dt & Dp & Ds).
    pose proof (release_spec ref e (path e) (drop_from_scope ref s) (paths_ok_fields _ _ Dr Dp Ds Hok)) as Hr.
    rewrite Dr in Hr. specialize (Hr E). destruct (releaseRefLocked _ _ _) as [s1 p].
    destruct Hr as (Hok1 & Er1 & Es1 & Et1 & -> & Hel1).
    assert (Hel : forall q, eligible (drop_from_scope ref s) q = eligible s q) by (intros q; unfold eligible; by rewrite Ds).
    assert (Hsc1 : scopes_ok s1).
    { split.
      - intros r sc. rewrite Es1, drop_from_scope_scopes, Et1, Dt by (try done; by exists e).
        rewrite lookup_delete_Some. naive_solver.
      - intros r. rewrite Et1, Er1, Dt. destruct (decide (r = ref)) as [->|]; simplify_map_eq; [done|]. apply (ok_dom s Hsc). }
    specialize (IH s1 Hok1 Hsc1 Hnd). destruct (clean_expired cutoff order s1) as [[s' paths] n].
    destruct IH as (Hrel & Hsc' & ->).
    assert (Ef : List.filter (is_expired cutoff s1) order = List.filter (is_expired cutoff s) order).
    { apply List.filter_ext_in. intros r Hr%list_elem_of_In. unfold is_expired. rewrite Er1, lookup_delete_ne; [done|].
      by intros ->. }
    rewrite Ef in *. split; [|split; [done|simpl length; lia]]. rewrite Hel.
    eapply released_cons; [done| |done|done| |done].
    + intros Hin%list_elem_of_In. apply filter_In in Hin as [Hin _]. by apply Hn, list_elem_of_In.
    + intros q Hq. by rewrite (Hel1 q Hq).
Qed.

(** *** Storing *)

Lemma store_locked_ok id p m scope now s :
  paths_ok s -> scopes_ok s -> refs s !! ("media://" +:+ id) = None -> p <> "" ->
  paths_ok (fst (store_locked id p m scope now s)) /\ scopes_ok (fst (store_locked id p m scope now s)).
Proof.
  intros Hok Hsc Hfresh Hp. unfold store_locked. set (ref := "media://" +:+ id) in *.
  pose proof (ok_count s Hok p) as Hc. set (e := mkMediaEntry p (with_policy m) now).
  assert (Hst : refCount (default (mkPathState 0 false) (pathStates s !! p)) = Z.of_nat (size (users p (refs s)))).
  { destruct (pathStates s !! p) as [st|]; simpl in *; unfold some_count in Hc; destruct (size _); by simplify_eq/=. }
  simpl. split; split; simpl.
  - intros r. destruct (decide (r = ref)) as [->|]; simplify_map_eq; [done|]. apply (ok_path s Hok).
  - intros r e' [[<- <-]|[_ E']]%lookup_insert_Some; [done|]. by eapply ok_nonempty.
  - intros q. destruct (decide (q = p)) as [->|Hq].
    + rewrite lookup_insert_eq. simpl. rewrite Hst. destruct (users_insert ref e (refs s) Hfresh) as [Hu Hn].
      cbn [path e] in Hu, Hn. rewrite Hu, map_size_insert_None by done. simpl. f_equal. lia.
    + rewrite lookup_insert_ne, users_insert_ne by done. apply (ok_count s Hok).
  - intros q st r e' Est Hel [[<- <-]|[Hr E']]%lookup_insert_Some Hpath; simpl in *.
    + rewrite <- Hpath, lookup_insert_eq in Est. injection Est as <-. simpl in Hel.
      unfold normalizeCleanupPolicy in *. repeat case_match; try done.
    + destruct (decide (q = p)) as [->|Hq].
      * rewrite lookup_insert_eq in Est. injection Est as <-. simpl in Hel. rewrite Hst in Hel.
        assert (Hu : size (users p (refs s)) <> 0%nat).
        { intros Hz%map_size_empty_inv. by eapply users_nonempty. }
        rewrite (proj2 (Z.eqb_neq _ _)) in Hel by lia. destruct (String.eqb _ _); [done|].
        destruct (pathStates s !! p) as [st|] eqn:Est; [|done]. by eapply (ok_eligible s Hok).
      * rewrite lookup_insert_ne in Est by done. by eapply (ok_eligible s Hok).
  - intros r sc. destruct (decide (r = ref)) as [->|Hr].
    + rewrite lookup_insert_eq. assert (Hno : forall sc set, scopeToRefs s !! sc = Some set -> ref ∉ set).
      { intros sc' set E Hin. assert (H1 : is_Some (refToScope s !! ref)) by (exists sc'; apply (ok_scope s Hsc); eauto).
        apply (ok_dom s Hsc) in H1 as [? H1]. congruence. }
      split.
      * intros [= <-]. rewrite lookup_insert_eq. eexists. split; [done|]. set_solver.
      * intros (set & [[<- _]|[_ E]]%lookup_insert_Some & Hin); [done|]. by destruct (Hno _ _ E).
    + rewrite lookup_insert_ne, (ok_scope s Hsc) by done. destruct (decide (sc = scope)) as [->|Hne].
      * rewrite lookup_insert_eq. split.
        -- intros (set & E & Hin). rewrite E. eexists. split; [done|]. set_solver.
        -- intros (set & [= <-] & Hin). destruct (scopeToRefs s !! scope) as [set|]; simpl in Hin; [exists set; split; [done|set_solver]|set_solver].
      * by rewrite lookup_insert_ne.
  - intros r. rewrite !lookup_insert_is_Some'. split; intros [?|H]; auto; right; by apply (ok_dom s Hsc).
Qed.

(** What a release of a scope does. *)
Lemma ReleaseAll_locked_spec scope order s :
  paths_ok s -> scopes_ok s -> order ≡ₚ elements (default ∅ (scopeToRefs s !! scope)) ->
  let '(s', paths) := ReleaseAll_locked scope order s in released order s s' paths /\ scopes_ok s'.
Proof.
  intros Hok Hsc Ho. unfold ReleaseAll_locked. destruct (scopeToRefs s !! scope) as [set|] eqn:E.
  2: { simpl in Ho. rewrite elements_empty in Ho. apply Permutation_nil_r in Ho as ->. split; [by apply released_nil|done]. }
  simpl in Ho. assert (Hin : forall r, r ∈ order <-> refToScope s !! r = Some scope).
  { intros r. rewrite Ho, elem_of_elements, (ok_scope s Hsc). rewrite E. naive_solver. }
  pose proof (release_all_spec order s Hok) as Hr. destruct (release_all order s) as [s' paths].
  destruct Hr as (Hrel & Es & Et).
  { rewrite Ho. apply NoDup_elements. }
  { intros r Hr%Hin. apply (ok_dom s Hsc). by exists scope. }
  split.
  - destruct Hrel as (Hok' & Hrest). split; [by eapply paths_ok_fields; [..|exact Hok']|exact Hrest].
  - destruct Hrel as (_ & _ & Hgone & Hkeep & _). split; simpl.
    + intros r sc. rewrite Et, Es. case_bool_decide as Hr.
      * split; [done|]. intros (set' & [Hne E']%lookup_delete_Some & Hrs). exfalso. apply Hne.
        apply Hin in Hr. assert (refToScope s !! r = Some sc) by (apply (ok_scope s Hsc); eauto). congruence.
      * rewrite (ok_scope s Hsc). setoid_rewrite lookup_delete_Some. split; [|naive_solver]. intros (set' & E' & Hrs).
        exists set'. split; [|done]. split; [|done]. intros ->. apply Hr, Hin, (ok_scope s Hsc). eauto.
    + intros r. rewrite Et. case_bool_decide as Hr.
      * rewrite (Hgone r Hr). split; intros [? ?]; done.
      * rewrite (Hkeep r Hr). apply (ok_dom s Hsc).
Qed.

(** The file of a reference that did not race is there and is not about to be
    deleted. *)
Record world_ok (w : world) : Prop := {
  ok_paths : paths_ok (store w);
  ok_scopes : scopes_ok (store w);
  ok_files ref e : refs (store w) !! ref = Some e -> ref ∉ raced w -> path e ∈ disk w /\ path e ∉ pending w;
  ok_checked : "" ∉ disk w /\ "" ∉ checked w
}.

(** The deletions after a release are of files without a reference. *)
Lemma released_pending order s s' paths (d : gset string) todo r :
  released order s s' paths -> (forall ref e, refs s !! ref = Some e -> ref ∉ r -> path e ∈ d /\ path e ∉ todo) ->
  forall ref e, refs s' !! ref = Some e -> ref ∉ (r : gset string) -> path e ∈ d /\ path e ∉ todo ++ paths.
Proof.
  intros (_ & Hsub & _ & _ & _ & Hp) Hd ref e E Hr. destruct (Hd ref e) as [H1 H2]; [by eapply lookup_weaken|done|].
  split; [done|]. rewrite elem_of_app, Hp. intros [?|(Hu & _)]; [done|]. by eapply users_nonempty.
Qed.

Lemma CleanExpired_locked_spec maxAge now order s :
  paths_ok s -> scopes_ok s -> order ≡ₚ map fst (map_to_list (refs s)) ->
  let '(s', paths, n) := CleanExpired_locked maxAge now order s in
  let gone := if maxAge <=? 0 then [] else List.filter (is_expired (now - maxAge) s) order in
  released gone s s' paths /\ scopes_ok s' /\ n = Z.of_nat (length gone).
Proof.
  intros Hok Hsc Ho. unfold CleanExpired_locked. destruct (maxAge <=? 0); [by split; [apply released_nil|]|].
  apply clean_expired_spec; [done..|]. rewrite Ho. apply NoDup_fst_map_to_list.
Qed.

Lemma media_step_ok w w' : world_ok w -> step w w' -> world_ok w'.
Proof.
  intros [Hok Hsc Hf [Hd Hch]] Hst. destruct Hst as [p Hp|p Hp|before p after id m scope now Hc Hid|scope order s paths Ho E
    |maxAge now order s paths n Ho E|before p after fails Hp].
  - split; simpl; [done|done| |set_solver]. intros ref e E Hr. destruct (Hf ref e E Hr). split; [set_solver|done].
  - split; simpl; [done|done|done|]. split; [done|]. rewrite elem_of_cons. intros [<-|?]; done.
  - assert (Hne : p <> "") by (intros ->; apply Hch; rewrite Hc; set_solver).
    destruct (store_locked_ok id p m scope now (store w) Hok Hsc Hid Hne) as [Hok' Hsc'].
    unfold store_done. split; simpl; [exact Hok'|exact Hsc'| |split; [done|rewrite Hc in Hch; set_solver]].
    intros ref e [[<- <-]|[Hne' E]]%lookup_insert_Some Hr; simpl.
    + case_bool_decide; [done|set_solver].
    + apply (Hf ref e E). case_bool_decide; set_solver.
  - pose proof (ReleaseAll_locked_spec scope order (store w) Hok Hsc Ho) as Hr. rewrite E in Hr. destruct Hr as [Hrel Hsc'].
    split; simpl; [by destruct Hrel|done|by eapply released_pending|done].
  - pose proof (CleanExpired_locked_spec maxAge now order (store w) Hok Hsc Ho) as Hr. rewrite E in Hr. destruct Hr as (Hrel & Hsc' & _).
    split; simpl; [by destruct Hrel|done|by eapply released_pending|done].
  - split; simpl; [done|done| |split; [destruct fails; set_solver|done]].
    intros ref e E Hr. destruct (Hf ref e E Hr) as [H1 H2]. rewrite Hp in H2. destruct fails; set_solver.
Qed.

Lemma media_reachable_ok w : reachable w -> world_ok w.
Proof.
  intros Hr. refine (rtc_ind_r world_ok _ _ _ _ Hr); [|intros v w' _ Hst IH; by eapply media_step_ok].
  split; simpl; [split; simpl| |by intros ref e E|set_solver].
  - done.
  - by intros ref e E.
  - intros p. unfold users. by rewrite lookup_empty, map_filter_empty, map_size_empty.
  - done.
  - split; simpl; [|by intros ref; rewrite !lookup_empty; split; intros [? ?]]. intros ref scope. rewrite !lookup_empty. split; [done|]. by intros (? & ? & _).
Qed.

(** ** Theorems *)

(** C16: However storing, releasing and cleaning interleave, with files deleted
    after the lock and whichever deletions fail: a reference that resolves
    belongs to exactly one scope, which lists it; the count kept for a file is
    the number of its references (files without one have no entry); and the file
    of a reference is on disk, unless the reference was given when the file had
    gone since it was looked for, or while its deletion was still to come.
    Nobody else deletes files. *)
Theorem references_have_files w :
  reachable w ->
  (forall ref p, Resolve (store w) ref = Some p ->
     (ref ∉ raced w -> p ∈ disk w /\ p ∉ pending w) /\
     exists scope, refToScope (store w) !! ref = Some scope /\
       forall scope', (exists set, scopeToRefs (store w) !! scope' = Some set /\ ref ∈ set) <-> scope' = scope) /\
  (forall p n, refCount <$> pathStates (store w) !! p = Some n <->
     0 < n /\ n = Z.of_nat (size (users p (refs (store w))))).
Proof.
  intros [Hok Hsc Hf _]%media_reachable_ok. split.
  - intros ref p E. unfold Resolve, ResolveWithMeta in E. destruct (refs (store w) !! ref) as [e|] eqn:Ee; [|done].
    injection E as <-. split; [by eapply Hf|]. destruct (proj2 (ok_dom _ Hsc ref) (ex_intro _ e Ee)) as [scope Es].
    exists scope. split; [done|]. intros scope'. rewrite <- (ok_scope _ Hsc), Es. naive_solver.
  - intros p n. rewrite (ok_count _ Hok). unfold some_count. destruct (size _); naive_solver lia.
Qed.

(** Releasing a scope forgets its references and no other, and what is deleted
    then are exactly the files that only they referred to, unless a reference
    that somebody else owns was among those alive together. *)
Theorem ReleaseAll_deletes_unshared w scope order :
  reachable w -> order ≡ₚ elements (default ∅ (scopeToRefs (store w) !! scope)) ->
  let '(s', paths) := ReleaseAll_locked scope order (store w) in
  (forall ref, Resolve s' ref =
     if bool_decide (refToScope (store w) !! ref = Some scope) then None else Resolve (store w) ref) /\
  (forall p, p ∈ paths <->
     eligible (store w) p = true /\
     (exists ref, refToScope (store w) !! ref = Some scope /\ Resolve (store w) ref = Some p) /\
     (forall ref, Resolve (store w) ref = Some p -> refToScope (store w) !! ref = Some scope)) /\
  (forall p ref m, eligible (store w) p = true -> ResolveWithMeta (store w) ref = Some (p, m) ->
     CleanupPolicy m = CleanupPolicyDeleteOnCleanup).
Proof.
  intros [Hok Hsc Hf _]%media_reachable_ok Ha.
  assert (Hin : forall r, r ∈ order <-> refToScope (store w) !! r = Some scope).
  { intros r. rewrite Ha, elem_of_elements, (ok_scope _ Hsc).
    destruct (scopeToRefs (store w) !! scope); simpl; [naive_solver|]. split; [set_solver|naive_solver]. }
  pose proof (ReleaseAll_locked_spec scope order (store w) Hok Hsc Ha) as Hr.
  destruct (ReleaseAll_locked scope order (store w)) as [s' paths]. destruct Hr as [Hrel _].
  destruct Hrel as (_ & _ & Hgone & Hkeep & _ & Hp). unfold Resolve, ResolveWithMeta. split; [|split].
  - intros ref. case_bool_decide as Hs; [by rewrite Hgone by by apply Hin|]. rewrite Hkeep; [done|]. by rewrite Hin.
  - intros p. rewrite Hp. split.
    + intros (Hu & He & ref & e & Hr & E & Hpe). split; [done|]. split.
      * exists ref. rewrite E. simpl. by rewrite <- Hin, Hpe.
      * intros ref' E'. apply Hin. destruct (decide (ref' ∈ order)) as [|Hn']; [done|]. exfalso.
        destruct (refs (store w) !! ref') as [e'|] eqn:Ee; [|done]. simplify_eq/=.
        eapply (users_nonempty (path e) ref' e'); [|done|exact Hu]. by rewrite Hkeep.
    + intros (He & (ref & Hs & E) & Hall). split; [|split; [done|]].
      * apply map_empty. intros ref'. destruct (users p (refs s') !! ref') as [e'|] eqn:Eu; [|done].
        apply users_lookup in Eu as [Eu Hpe]. exfalso. destruct (decide (ref' ∈ order)) as [Hr'|Hr'].
        -- by rewrite Hgone in Eu.
        -- rewrite Hkeep in Eu by done. apply Hr', Hin, Hall. rewrite Eu. simpl. by rewrite Hpe.
      * destruct (refs (store w) !! ref) as [e|] eqn:Ee; [|done]. simplify_eq/=. exists ref, e. by rewrite Hin.
  - intros p ref m He E. destruct (refs (store w) !! ref) as [e|] eqn:Ee; [|done]. simplify_eq/=.
    unfold eligible in He. destruct (pathStates (store w) !! path e) as [st|] eqn:Est; [|done]. by eapply ok_eligible.
Qed.

(** Cleaning removes exactly the references older than the maximal age
    and returns how many these are. *)
Theorem CleanExpired_removes_old w maxAge now order :
  reachable w -> order ≡ₚ map fst (map_to_list (refs (store w))) -> 0 < maxAge ->
  let '(s', _, n) := CleanExpired_locked maxAge now order (store w) in
  (forall ref, refs s' !! ref =
     match refs (store w) !! ref with
     | Some e => if storedAt e <? now - maxAge then None else Some e
     | None => None
     end) /\
  exists gone, NoDup gone /\ n = Z.of_nat (length gone) /\
    forall ref, ref ∈ gone <-> exists e, refs (store w) !! ref = Some e /\ storedAt e < now - maxAge.
Proof.
  intros [Hok Hsc _ _]%media_reachable_ok Ho Hm.
  pose proof (CleanExpired_locked_spec maxAge now order (store w) Hok Hsc Ho) as Hr.
  destruct (CleanExpired_locked _ _ _ _) as [[s' paths] n]. rewrite (proj2 (Z.leb_gt _ _)) in Hr by lia.
  set (cutoff := now - maxAge) in *. set (gone := List.filter _ order) in *.
  destruct Hr as ((_ & Hsub & Hgone & Hkeep & _) & _ & ->).
  assert (Hin : forall ref, ref ∈ gone <-> exists e, refs (store w) !! ref = Some e /\ storedAt e < cutoff).
  { intros ref. unfold gone. rewrite list_elem_of_In, filter_In, <- list_elem_of_In. unfold is_expired. split.
    - intros [_ He]. destruct (refs (store w) !! ref) as [e|]; [|done]. exists e. split; [done|]. by apply Z.ltb_lt.
    - intros (e & E & He). rewrite E. split; [|by apply Z.ltb_lt]. rewrite Ho. apply list_elem_of_fmap.
      exists (ref, e). split; [done|]. by apply elem_of_map_to_list. }
  split.
  - intros ref. destruct (decide (ref ∈ gone)) as [Hr|Hr].
    + rewrite Hgone by done. apply Hin in Hr as (e & -> & He). by rewrite (proj2 (Z.ltb_lt _ _) He).
    + rewrite Hkeep by done. rewrite Hin in Hr. destruct (refs (store w) !! ref) as [e|]; [|done].
      destruct (Z.ltb_spec (storedAt e) cutoff); [|done]. destruct Hr. by exists e.
  - exists gone. split; [|done]. unfold gone. apply NoDup_ListNoDup, List.NoDup_filter, NoDup_ListNoDup.
    rewrite Ho. apply NoDup_fst_map_to_list.
Qed.

(** *** An example: a borrowed file and a managed one *)

Definition demo_meta (policy : string) : MediaMeta := mkMeta "" "" "" policy.

Definition demo_files : world := mkWorld NewFileMediaStore {["/tmp/a"; "/tmp/b"]} [] [] ∅.

Definition demo_store : world :=
  let w := store_done demo_files [] "1" "/tmp/a" (demo_meta "") "s" 0 in
  let w := store_done w [] "2" "/tmp/b" (demo_meta "") "s" 5 in
  store_done w [] "3" "/tmp/b" (demo_meta "forget_only") "t" 5.

Lemma step_Store w id p m scope now :
  p ∈ disk w -> checked w = [] -> refs (store w) !! ("media://" +:+ id) = None ->
  rtc step w (store_done w [] id p m scope now).
Proof.
  intros Hp Hc Hid. eapply rtc_l; [by apply (step_stat w p)|]. rewrite Hc. apply rtc_once.
  exact (step_store (mkWorld (store w) (disk w) [p] (pending w) (raced w)) [] p [] id m scope now eq_refl Hid).
Qed.

Lemma demo_files_reachable : reachable demo_files.
Proof.
  eapply rtc_l; [by apply (step_create _ "/tmp/b")|]. eapply rtc_l; [by apply (step_create _ "/tmp/a")|].
  unfold demo_files; cbn [disk store checked pending raced empty_world].
  assert (E : {["/tmp/a"]} ∪ ({["/tmp/b"]} ∪ ∅) = ({["/tmp/a"; "/tmp/b"]} : gset string)) by set_solver. rewrite E. reflexivity.
Qed.

Lemma demo_store_reachable : reachable demo_store.
Proof.
  unfold demo_store, reachable; cbv zeta.
  do 3 (etransitivity; [|apply step_Store; [decide_now|reflexivity|vm_compute; reflexivity]]).
  exact demo_files_reachable.
Qed.

(** A file that is stored again between the two phases of a release is
    deleted although the new reference is alive. *)
Lemma late_deletion :
  exists w, reachable w /\ pending w = [] /\ Resolve (store w) "media://b" = Some "/tmp/a" /\ "/tmp/a" ∉ disk w.
Proof.
  set (w2 := store_done demo_files [] "a" "/tmp/a" (demo_meta "") "one" 0).
  set (s3 := fst (ReleaseAll_locked "one" ["media://a"] (store w2))).
  set (w3 := mkWorld s3 (disk w2) [] ["/tmp/a"] ∅).
  set (w4 := store_done w3 [] "b" "/tmp/a" (demo_meta "") "two" 1).
  exists (mkWorld (store w4) (disk w4 ∖ {["/tmp/a"]}) [] [] (raced w4)).
  split; [|split; [done|split; [vm_compute; reflexivity|decide_now]]].
  unfold reachable; etransitivity; [exact demo_files_reachable|].
  etransitivity; [apply (step_Store _ "a" "/tmp/a" (demo_meta "") "one" 0); [decide_now|reflexivity|vm_compute; reflexivity]|]. fold w2.
  eapply rtc_l; [apply (step_release w2 "one" ["media://a"] s3 ["/tmp/a"])|].
  { vm_compute. apply Permutation_refl. }
  { vm_compute. reflexivity. }
  change (rtc step w3 (mkWorld (store w4) (disk w4 ∖ {["/tmp/a"]}) [] [] (raced w4))).
  etransitivity; [apply (step_Store w3 "b" "/tmp/a" (demo_meta "") "two" 1); [decide_now|reflexivity|vm_compute; reflexivity]|]. fold w4.
  apply rtc_once. exact (step_remove w4 [] "/tmp/a" [] false eq_refl).
Qed.

Lemma references_have_files_witness : "/tmp/b" ∈ disk demo_store.
Proof.
  pose proof (references_have_files demo_store demo_store_reachable) as [Hf _].
  assert (Hr : "media://3" ∉ raced demo_store) by decide_now.
  apply (Hf "media://3"); [vm_compute; reflexivity|exact Hr].
Defined.

Lemma ReleaseAll_deletes_unshared_witness :
  "/tmp/a" ∈ snd (ReleaseAll_locked "s" ["media://1"; "media://2"] (store demo_store)).
Proof.
  assert (Ha : ["media://1"; "media://2"] ≡ₚ elements (default ∅ (scopeToRefs (store demo_store) !! "s"))).
  { assert (E : elements (default ∅ (scopeToRefs (store demo_store) !! "s")) = ["media://1"; "media://2"] \/
                elements (default ∅ (scopeToRefs (store demo_store) !! "s")) = ["media://2"; "media://1"]).
    { first [left; vm_compute; reflexivity | right; vm_compute; reflexivity]. }
    destruct E as [-> | ->]; [apply Permutation_refl|apply perm_swap]. }
  pose proof (ReleaseAll_deletes_unshared demo_store "s" ["media://1"; "media://2"] demo_store_reachable Ha) as Hr.
  destruct (ReleaseAll_locked "s" ["media://1"; "media://2"] (store demo_store)) as [s' paths]. destruct Hr as (_ & Hd & _).
  apply Hd. split; [vm_compute; reflexivity|]. split.
  - exists "media://1". split; vm_compute; reflexivity.
  - intros ref Hr.
    assert (Hall : map_Forall (fun ref e => path e = "/tmp/a" -> refToScope (store demo_store) !! ref = Some "s")
                     (refs (store demo_store))) by decide_now.
    unfold Resolve, ResolveWithMeta in Hr. destruct (refs (store demo_store) !! ref) as [e|] eqn:E; [|done].
    apply (Hall ref e E). by injection Hr.
Defined.

Lemma CleanExpired_removes_old_witness :
  let order := map fst (map_to_list (refs (store demo_store))) in
  let '(s', _, _) := CleanExpired_locked 10 12 order (store demo_store) in
  refs s' !! "media://1" = None /\ is_Some (refs s' !! "media://2").
Proof.
  intros order. pose proof (CleanExpired_removes_old demo_store 10 12 order demo_store_reachable
    (Permutation_refl _) ltac:(lia)) as Hc.
  destruct (CleanExpired_locked 10 12 order (store demo_store)) as [[s' paths] n]. destruct Hc as [Hr _].
  rewrite !Hr. split; [vm_compute; reflexivity|]. vm_compute. by eexists.
Defined.
