(* ===== verification/SearchCache.v ===== *)
(** * The cache of skill searches: [src/pkg/skills/search_cache.go]

    Results are kept per normalised query for a time; a query that is similar
    to a kept one, by the trigrams of its bytes, hits too. *)

From stdpp Require Import sorting.
From Stdlib Require Zbitwise.
From S2P Require Import Prelude GoStrings GoLib.
Import GoFloat.

(** ** Trigrams *)

Definition trigram (a b c : ascii) : Z := Z.lor (Z.lor (Z.shiftl (code a) 16) (Z.shiftl (code b) 8)) (code c).

Fixpoint all_trigrams (l : list ascii) : list Z :=
  match l with
  | a :: ((b :: c :: _) as rest) => trigram a b c :: all_trigrams rest
  | _ => []
  end.

(** Without those that are equal to the one before. *)
Fixpoint dedup_after (prev : Z) (l : list Z) : list Z :=
  match l with
  | [] => []
  | x :: rest => if x =? prev then dedup_after x rest else x :: dedup_after x rest
  end.

Definition dedup_sorted (l : list Z) : list Z := match l with [] => [] | x :: rest => x :: dedup_after x rest end.

(** [slices.Sort] is a sort of integers. *)
Definition buildTrigrams (s : string) : list Z := dedup_sorted (merge_sort Z.le (all_trigrams (chars s))).

(** The loop that walks both sorted lists; an iteration shortens one. *)
Fixpoint common (fuel : nat) (a b : list Z) : Z :=
  match fuel with
  | O => 0
  | Datatypes.S fuel =>
      match a, b with
      | x :: a', y :: b' =>
          if x =? y then 1 + common fuel a' b' else if x <? y then common fuel a' b else common fuel a b'
      | _, _ => 0
      end
  end.

Definition jaccardSimilarity (a b : list Z) : float64 :=
  match a, b with
  | [], [] => fone
  | _, _ =>
      let intersection := common (length a + length b) a b in
      let union := Z.of_nat (length a) + Z.of_nat (length b) - intersection in
      fdiv (float_of_Z intersection) (float_of_Z union)
  end.

Definition similarityThreshold : float64 := lit 7 10.

(** ** The cache *)

Definition normalizeQuery (q : string) : string := ToLower (TrimSpace q).

Section Cache.
(** Results are copied on the way in and out. *)
Context {R : Type}.

Record cacheEntry : Type := mkCacheEntry { query : string; trigrams : list Z; results : list R; createdAt : time }.

Record SearchCache : Type := mkCache {
  entries : gmap string cacheEntry;
  order : list string;                                            (* oldest first *)
  maxEntries : Z;
  ttl : duration
}.

Definition NewSearchCache (maxEntries : Z) (ttl : duration) : SearchCache :=
  mkCache ∅ [] (if maxEntries <=? 0 then 50 else maxEntries) (if ttl <=? 0 then 5 * Minute else ttl).

Fixpoint remove_first (key : string) (l : list string) : list string :=
  match l with
  | [] => []
  | k :: rest => if String.eqb k key then rest else k :: remove_first key rest
  end.

Definition moveToEnd (key : string) (c : SearchCache) : SearchCache :=
  mkCache (entries c) (remove_first key (order c) ++ [key]) (maxEntries c) (ttl c).

Definition fresh (c : SearchCache) (now : time) (e : cacheEntry) : bool := now - createdAt e <? ttl c.

(** The loop over the entries, in the order of the iteration, with the best
    one so far. *)
Definition best_step (c : SearchCache) (now : time) (q : list Z) (best : option cacheEntry * float64) (e : cacheEntry) :
    option cacheEntry * float64 :=
  if fresh c now e then
    let sim := jaccardSimilarity q (trigrams e) in
    if fltb (snd best) sim then (Some e, sim) else best
  else best.

Definition best_entry (c : SearchCache) (now : time) (q : list Z) (es : list cacheEntry) : option cacheEntry * float64 :=
  fold_left (best_step c now q) es (None, fzero).

Definition similar (now : time) (es : list cacheEntry) (normalized : string) (c : SearchCache) :
    SearchCache * option (list R) :=
  match best_entry c now (buildTrigrams normalized) es with
  | (Some e, sim) => if fleb similarityThreshold sim then (moveToEnd (query e) c, Some (results e)) else (c, None)
  | (None, _) => (c, None)
  end.

(** [es] are the entries in the order of the iteration. *)
Definition Get (now : time) (es : list cacheEntry) (q : string) (c : SearchCache) : SearchCache * option (list R) :=
  let normalized := normalizeQuery q in
  if String.eqb normalized "" then (c, None)
  else match entries c !! normalized with
       | Some e =>
           if fresh c now e then (moveToEnd normalized c, Some (results e)) else similar now es normalized c
       | None => similar now es normalized c
       end.

Fixpoint evict (now : time) (ttl : duration) (keys : list string) (m : gmap string cacheEntry) :
    gmap string cacheEntry * list string :=
  match keys with
  | [] => (m, [])
  | key :: rest =>
      let drop := match m !! key with Some e => ttl <=? now - createdAt e | None => true end in
      if drop then evict now ttl rest (delete key m)
      else let '(m, kept) := evict now ttl rest m in (m, key :: kept)
  end.

Definition evictExpired (now : time) (c : SearchCache) : SearchCache :=
  let '(m, kept) := evict now (ttl c) (order c) (entries c) in mkCache m kept (maxEntries c) (ttl c).

(** The loop that makes room. *)
Fixpoint make_room (max : Z) (keys : list string) (m : gmap string cacheEntry) : gmap string cacheEntry * list string :=
  match keys with
  | [] => (m, [])
  | oldest :: rest => if max <=? Z.of_nat (size m) then make_room max rest (delete oldest m) else (m, keys)
  end.

Definition Put (now : time) (q : string) (res : list R) (c : SearchCache) : SearchCache :=
  let normalized := normalizeQuery q in
  if String.eqb normalized "" then c
  else
    let c := evictExpired now c in
    let e := mkCacheEntry normalized (buildTrigrams normalized) res now in
    match entries c !! normalized with
    | Some _ => moveToEnd normalized (mkCache (<[normalized := e]> (entries c)) (order c) (maxEntries c) (ttl c))
    | None =>
        let '(m, keys) := make_room (maxEntries c) (order c) (entries c) in
        mkCache (<[normalized := e]> m) (keys ++ [normalized]) (maxEntries c) (ttl c)
    end.

Definition Len (c : SearchCache) : Z := Z.of_nat (size (entries c)).
End Cache.
Arguments cacheEntry : clear implicits.
Arguments SearchCache : clear implicits.

(** ** Trigrams: facts *)

(** The packing of three bytes is injective. *)
Lemma code_range c : 0 <= code c < 256.
Proof. unfold code. pose proof (N_ascii_bounded c). lia. Qed.

Lemma code_inj c d : code c = code d -> c = d.
Proof. unfold code. intros E. apply N2Z.inj in E. by rewrite <- (ascii_N_embedding c), E, ascii_N_embedding. Qed.

(** Bits put below others. *)
Lemma lor_low n x y : 0 <= n -> 0 <= y < 2 ^ n -> Z.lor (Z.shiftl x n) y = x * 2 ^ n + y.
Proof.
  intros Hn Hy. assert (Hl : Z.land (Z.shiftl x n) y = 0).
  { apply Z.bits_inj'. intros i Hi. rewrite Z.land_spec, Z.bits_0. destruct (Z.lt_ge_cases i n) as [Hlt|Hge].
    - by rewrite Z.shiftl_spec_low.
    - rewrite <- (Z.mod_small y (2 ^ n)) by done. rewrite Z.mod_pow2_bits_high by done. apply andb_false_r. }
  pose proof (Zbitwise.Z.add_lor_land (Z.shiftl x n) y) as E. rewrite Z.shiftl_mul_pow2 in * by done. lia.
Qed.

Lemma trigram_sum a b c : trigram a b c = code a * 65536 + code b * 256 + code c.
Proof.
  pose proof (code_range a). pose proof (code_range b). pose proof (code_range c). unfold trigram.
  rewrite (lor_low 16) by (rewrite ?Z.shiftl_mul_pow2; lia). rewrite (Z.shiftl_mul_pow2 (code b)) by done.
  replace (code a * 2 ^ 16 + code b * 2 ^ 8) with ((code a * 256 + code b) * 2 ^ 8) by lia.
  rewrite <- Z.shiftl_mul_pow2, lor_low by lia. lia.
Qed.

Lemma trigram_inj a b c a' b' c' : trigram a b c = trigram a' b' c' -> a = a' /\ b = b' /\ c = c'.
Proof.
  rewrite !trigram_sum.
  pose proof (code_range a). pose proof (code_range b). pose proof (code_range c).
  pose proof (code_range a'). pose proof (code_range b'). pose proof (code_range c'). intros E.
  repeat split; apply code_inj; lia.
Qed.

(** The sorted list without duplicates. *)
Lemma dedup_after_spec prev l :
  StronglySorted Z.le (prev :: l) ->
  StronglySorted Z.lt (prev :: dedup_after prev l) /\ forall x, x ∈ prev :: dedup_after prev l <-> x ∈ prev :: l.
Proof.
  revert prev. induction l as [|y l IH]; intros prev Hs; cbn [dedup_after]; [by split; [repeat constructor|]|].
  apply StronglySorted_inv in Hs as [Hl Hp]. destruct (IH y Hl) as [Hsy Hey].
  apply Forall_cons_1 in Hp as [Hpy Hp]. destruct (Z.eqb_spec y prev) as [->|Hne].
  - split; [done|]. intros x. rewrite Hey, !elem_of_cons. naive_solver.
  - split; [|intros x; rewrite elem_of_cons, Hey, !elem_of_cons; naive_solver].
    constructor; [done|]. apply StronglySorted_inv in Hsy as [_ Hy]. constructor; [lia|].
    eapply Forall_impl; [exact Hy|]. simpl. lia.
Qed.

Lemma dedup_sorted_spec l :
  StronglySorted Z.le l -> StronglySorted Z.lt (dedup_sorted l) /\ forall x, x ∈ dedup_sorted l <-> x ∈ l.
Proof. destruct l as [|x l]; [by split; [constructor|]|]. apply dedup_after_spec. Qed.

Lemma buildTrigrams_spec s :
  StronglySorted Z.lt (buildTrigrams s) /\ forall x, x ∈ buildTrigrams s <-> x ∈ all_trigrams (chars s).
Proof.
  unfold buildTrigrams. destruct (dedup_sorted_spec (merge_sort Z.le (all_trigrams (chars s)))) as [Hs Hin].
  { apply (StronglySorted_merge_sort Z.le). }
  split; [done|]. intros x. rewrite Hin. by rewrite (merge_sort_Permutation Z.le).
Qed.

Lemma StronglySorted_lt_NoDup l : StronglySorted Z.lt l -> NoDup l.
Proof.
  induction 1 as [|x l _ IH Hx]; constructor; [|done]. intros Hin. rewrite Forall_forall in Hx. specialize (Hx x Hin). lia.
Qed.

Abbreviation trigram_set s := (list_to_set (all_trigrams (chars s)) : gset Z).

Lemma buildTrigrams_set s : (list_to_set (buildTrigrams s) : gset Z) = trigram_set s.
Proof. apply set_eq. intros x. rewrite !elem_of_list_to_set. apply buildTrigrams_spec. Qed.

Lemma common_spec fuel a b :
  StronglySorted Z.lt a -> StronglySorted Z.lt b -> (length a + length b <= fuel)%nat ->
  common fuel a b = Z.of_nat (size ((list_to_set a : gset Z) ∩ list_to_set b)).
Proof.
  assert (Hl : forall X : gset Z, size ((list_to_set [] : gset Z) ∩ X) = 0%nat) by (intros X; apply size_empty_iff; set_solver).
  assert (Hr : forall X : gset Z, size (X ∩ (list_to_set [] : gset Z)) = 0%nat) by (intros X; apply size_empty_iff; set_solver).
  revert a b. induction fuel as [|fuel IH]; intros a b Ha Hb Hf.
  { destruct a, b; simpl in Hf; try lia. by rewrite Hl. }
  destruct a as [|x a]; [by rewrite Hl|]. destruct b as [|y b]; [by rewrite Hr|].
  cbn [common]. simpl in Hf. apply StronglySorted_inv in Ha as [Ha Hxa]. apply StronglySorted_inv in Hb as [Hb Hyb].
  rewrite Forall_forall in Hxa, Hyb.
  assert (Hout : forall z l, (forall w, w ∈ l -> z < w) -> z ∉ (list_to_set l : gset Z)).
  { intros z l Hz Hin%elem_of_list_to_set. specialize (Hz z Hin). lia. }
  destruct (Z.eqb_spec x y) as [->|Hne]; [|destruct (Z.ltb_spec x y)].
  - rewrite IH by (done || lia). rewrite !list_to_set_cons, <- union_intersection_l_L.
    assert (Hd : {[y]} ## (list_to_set a : gset Z) ∩ list_to_set b).
    { apply disjoint_singleton_l. rewrite elem_of_intersection. intros [Hin _]. by apply (Hout y a). }
    rewrite (size_union _ _ Hd), size_singleton. lia.
  - rewrite IH by (try done; simpl; try lia; by constructor; [|apply Forall_forall]).
    f_equal. f_equal. apply set_eq. intros z. simpl. rewrite !elem_of_intersection, !elem_of_union, !elem_of_singleton,
      !elem_of_list_to_set. split; [naive_solver|]. intros [[->|Hz] [->|Hzb]]; auto; [lia|].
    specialize (Hyb x Hzb). lia.
  - rewrite IH by (try done; simpl; try lia; by constructor; [|apply Forall_forall]).
    f_equal. f_equal. apply set_eq. intros z. simpl. rewrite !elem_of_intersection, !elem_of_union, !elem_of_singleton,
      !elem_of_list_to_set. split; [naive_solver|]. intros [[->|Hz] [->|Hzb]]; auto; [lia|].
    specialize (Hxa y Hz). lia.
Qed.

Lemma buildTrigrams_length s : length (buildTrigrams s) = size (trigram_set s).
Proof.
  destruct (buildTrigrams_spec s) as [Hs _]. rewrite <- buildTrigrams_set. symmetry.
  apply size_list_to_set. by apply StronglySorted_lt_NoDup.
Qed.

Lemma buildTrigrams_nil s : buildTrigrams s = [] <-> trigram_set s = ∅.
Proof.
  rewrite <- buildTrigrams_set. split; [by intros ->|]. intros E. destruct (buildTrigrams s) as [|x l]; [done|].
  exfalso. assert (Hx : x ∈ (list_to_set (x :: l) : gset Z)) by (apply elem_of_list_to_set; by left).
  rewrite E in Hx. by apply not_elem_of_empty in Hx.
Qed.

(** ** The cache: facts *)

Section CacheFacts.
Context {R : Type}.
Implicit Types (c : SearchCache R) (m : gmap string (cacheEntry R)) (e : cacheEntry R).

Record cache_ok c : Prop := {
  ok_order : NoDup (order c);
  ok_keys k : k ∈ order c <-> is_Some (entries c !! k);
  ok_room : 0 < maxEntries c /\ Z.of_nat (size (entries c)) <= maxEntries c;
  ok_entry k e : entries c !! k = Some e -> query e = k /\ trigrams e = buildTrigrams k
}.

Lemma remove_first_perm key l : key ∈ l -> key :: remove_first key l ≡ₚ l.
Proof.
  induction l as [|k l IH]; simpl; [by intros ?%elem_of_nil|]. intros Hin. destruct (String.eqb_spec k key) as [->|Hne]; [done|].
  apply elem_of_cons in Hin as [->|Hin]; [done|]. rewrite perm_swap. constructor. by apply IH.
Qed.

Lemma moveToEnd_ok key c : cache_ok c -> is_Some (entries c !! key) -> cache_ok (moveToEnd key c).
Proof.
  intros [Ho Hk Hr He] Hin%Hk. assert (Hp : remove_first key (order c) ++ [key] ≡ₚ order c).
  { rewrite Permutation_app_comm. by apply remove_first_perm. }
  split; simpl; [by rewrite Hp|intros k; rewrite Hp; apply Hk|done|done].
Qed.

Definition is_fresh (now : time) (ttl : duration) m (k : string) : bool :=
  match m !! k with Some e => now - createdAt e <? ttl | None => false end.

Lemma evict_spec now ttl keys m :
  NoDup keys ->
  let '(m', kept) := evict now ttl keys m in
  kept = List.filter (is_fresh now ttl m) keys /\
  forall k, m' !! k = if bool_decide (k ∈ keys) && negb (is_fresh now ttl m k) then None else m !! k.
Proof.
  intros Hnd. revert m. induction keys as [|key rest IH]; intros m; cbn [evict List.filter].
  - split; [done|]. intros k. by rewrite bool_decide_false by set_solver.
  - apply NoDup_cons in Hnd as [Hn Hnd].
    assert (Hd : match m !! key with Some e => ttl <=? now - createdAt e | None => true end = negb (is_fresh now ttl m key)).
    { unfold is_fresh. destruct (m !! key); [|done]. rewrite Z.ltb_antisym. by rewrite negb_involutive. }
    rewrite Hd. destruct (is_fresh now ttl m key) eqn:Ef; cbn [negb].
    + specialize (IH Hnd m). destruct (evict now ttl rest m) as [m' kept]. destruct IH as [-> Hm]. split; [done|].
      intros k. rewrite Hm. destruct (decide (k = key)) as [->|Hne].
      * by rewrite Ef, !andb_false_r.
      * rewrite (bool_decide_ext (k ∈ rest) (k ∈ key :: rest)); [done|]. set_solver.
    + specialize (IH Hnd (delete key m)). destruct (evict now ttl rest (delete key m)) as [m' kept]. destruct IH as [-> Hm].
      assert (Hf : forall k, k <> key -> is_fresh now ttl (delete key m) k = is_fresh now ttl m k).
      { intros k Hk. unfold is_fresh. by rewrite lookup_delete_ne. }
      split.
      * apply List.filter_ext_in. intros k Hk%list_elem_of_In. apply Hf. by intros ->.
      * intros k. rewrite Hm. destruct (decide (k = key)) as [->|Hne].
        -- rewrite (bool_decide_false (key ∈ rest)), (bool_decide_true (key ∈ key :: rest)), Ef by (done || by left).
           apply lookup_delete_eq.
        -- rewrite Hf, lookup_delete_ne by done.
           rewrite (bool_decide_ext (k ∈ rest) (k ∈ key :: rest)); [done|]. set_solver.
Qed.

Lemma evictExpired_ok now c : cache_ok c -> cache_ok (evictExpired now c).
Proof.
  intros [Ho Hk Hr He]. unfold evictExpired. pose proof (evict_spec now (ttl c) (order c) (entries c) Ho) as Hev.
  destruct (evict _ _ _ _) as [m kept]. destruct Hev as [-> Hm].
  assert (Hsub : m ⊆ entries c).
  { apply map_subseteq_spec. intros k e. rewrite Hm. by destruct (_ && _). }
  split; simpl.
  - by apply NoDup_ListNoDup, List.NoDup_filter, NoDup_ListNoDup.
  - intros k. rewrite list_elem_of_In, filter_In, <- list_elem_of_In, Hk, Hm. unfold is_fresh.
    destruct (entries c !! k) as [e|] eqn:E.
    + rewrite bool_decide_true by by apply Hk. simpl.
      destruct (_ <? _); simpl; [by split; [intros _; eexists|split; [eexists|]]|]. split; [by intros [_ ?]|by intros [? ?]].
    + split; [by intros [[? ?] _]|]. destruct (_ && _); by intros [? ?].
  - split; [apply Hr|]. apply map_subseteq_size in Hsub. lia.
  - intros k e E. apply He. by eapply lookup_weaken.
Qed.

(** The oldest go until there is room. *)
Lemma make_room_spec max keys m :
  0 < max -> NoDup keys -> (forall k, k ∈ keys <-> is_Some (m !! k)) ->
  let '(m', keys') := make_room max keys m in
  (forall k, k ∈ keys' <-> is_Some (m' !! k)) /\ m' ⊆ m /\ Z.of_nat (size m') < max /\
  exists gone, keys = gone ++ keys'.
Proof.
  intros Hmax. revert m. induction keys as [|oldest rest IH]; intros m Hnd Hk; cbn [make_room].
  - assert (m = ∅) as ->.
    { apply map_empty. intros k. destruct (m !! k) eqn:E; [|done]. exfalso.
      apply (not_elem_of_nil k), Hk. by eexists. }
    split; [done|]. split; [done|]. split; [by rewrite map_size_empty|]. by exists [].
  - destruct (Z.leb_spec max (Z.of_nat (size m))) as [Hle|Hlt].
    + apply NoDup_cons in Hnd as [Hn Hnd]. specialize (IH (delete oldest m) Hnd).
      destruct (make_room max rest (delete oldest m)) as [m' keys']. destruct IH as (Hk' & Hsub & Hsz & gone & ->).
      { intros k. destruct (decide (k = oldest)) as [->|Hne].
        - rewrite lookup_delete_eq. split; [done|by intros []].
        - rewrite lookup_delete_ne, <- Hk by done. set_solver. }
      split; [done|]. split; [etransitivity; [done|apply delete_subseteq]|]. split; [done|].
      by exists (oldest :: gone).
    + split; [done|]. split; [done|]. split; [done|]. by exists [].
Qed.

Lemma Put_ok now q res c : cache_ok c -> cache_ok (Put now q res c).
Proof.
  intros Hc. unfold Put. destruct (String.eqb _ ""); [done|].
  apply (evictExpired_ok now) in Hc. destruct Hc as [Ho Hk Hr He]. set (c' := evictExpired now c) in *. clearbody c'.
  set (key := normalizeQuery q). set (e := mkCacheEntry key (buildTrigrams key) res now).
  destruct (entries c' !! key) as [old|] eqn:E.
  - apply moveToEnd_ok; [|simpl; rewrite lookup_insert_eq; by eexists]. split; simpl.
    + done.
    + intros k. rewrite Hk, lookup_insert_is_Some'. split; [by right|]. intros [<-|]; [by eexists|done].
    + split; [apply Hr|]. rewrite map_size_insert, E. unfold id. apply Hr.
    + intros k e' [[<- <-]|[_ E']]%lookup_insert_Some; [done|by apply He].
  - pose proof (make_room_spec (maxEntries c') (order c') (entries c') (proj1 Hr) Ho Hk) as Hm.
    destruct (make_room _ _ _) as [m keys]. destruct Hm as (Hk' & Hsub & Hsz & gone & Eo).
    assert (Em : m !! key = None).
    { destruct (m !! key) as [x|] eqn:Ex; [|done]. by rewrite (lookup_weaken _ _ _ _ Ex Hsub) in E. }
    assert (Hnk : key ∉ keys) by (rewrite Hk', Em; by intros []).
    rewrite Eo in Ho. apply NoDup_app in Ho as (_ & _ & Ho). split; simpl.
    + apply NoDup_app. split; [done|]. split; [|apply NoDup_singleton]. intros k Hin ->%list_elem_of_singleton. done.
    + intros k. rewrite elem_of_app, list_elem_of_singleton, Hk', lookup_insert_is_Some'. naive_solver.
    + split; [apply Hr|]. rewrite map_size_insert_None by done. lia.
    + intros k e' [[<- <-]|[_ E']]%lookup_insert_Some; [done|]. apply He. by eapply lookup_weaken.
Qed.
End CacheFacts.

(** ** Theorems *)

(** The similarity of two queries is the size of the intersection of
    their sets of trigrams over the size of the union, rounded once, although
    the code sorts, drops duplicates and walks two lists; two bytes strings
    have the same trigram exactly when the three bytes are the same. *)
Theorem jaccard_of_trigram_sets s t :
  trigram_set s <> ∅ \/ trigram_set t <> ∅ ->
  jaccardSimilarity (buildTrigrams s) (buildTrigrams t) =
  fdiv (float_of_Z (Z.of_nat (size (trigram_set s ∩ trigram_set t))))
       (float_of_Z (Z.of_nat (size (trigram_set s ∪ trigram_set t)))) /\
  (forall a b c a' b' c', trigram a b c = trigram a' b' c' <-> a = a' /\ b = b' /\ c = c').
Proof.
  intros Hne. split; [|intros *; split; [apply trigram_inj|naive_solver]].
  destruct (buildTrigrams_spec s) as [Hs _]. destruct (buildTrigrams_spec t) as [Ht _].
  pose proof (common_spec _ _ _ Hs Ht (Nat.le_refl _)) as Hc. rewrite !buildTrigrams_set in Hc.
  assert (Hu : Z.of_nat (length (buildTrigrams s)) + Z.of_nat (length (buildTrigrams t)) -
               Z.of_nat (size (trigram_set s ∩ trigram_set t)) = Z.of_nat (size (trigram_set s ∪ trigram_set t))).
  { assert (Eu := size_union_alt (trigram_set s) (trigram_set t)). rewrite !buildTrigrams_length, Eu.
    pose proof (size_difference_alt (trigram_set t) (trigram_set s)) as E.
    assert (Hle : (size (trigram_set t ∩ trigram_set s) <= size (trigram_set t))%nat) by (apply subseteq_size; set_solver).
    assert (Hcm : size (trigram_set s ∩ trigram_set t) = size (trigram_set t ∩ trigram_set s)) by (f_equal; set_solver).
    lia. }
  assert (Hj : jaccardSimilarity (buildTrigrams s) (buildTrigrams t) =
    let i := common (length (buildTrigrams s) + length (buildTrigrams t)) (buildTrigrams s) (buildTrigrams t) in
    fdiv (float_of_Z i) (float_of_Z (Z.of_nat (length (buildTrigrams s)) + Z.of_nat (length (buildTrigrams t)) - i))).
  { pose proof (buildTrigrams_nil s) as Hns. pose proof (buildTrigrams_nil t) as Hnt.
    destruct (buildTrigrams s), (buildTrigrams t); try done. exfalso. destruct Hne as [Hx|Hx]; apply Hx; naive_solver. }
  rewrite Hj. cbn zeta. by rewrite Hc, Hu.
Qed.

Lemma jaccard_of_trigram_sets_witness :
  jaccardSimilarity (buildTrigrams "weather") (buildTrigrams "weathers") = fdiv (float_of_Z 5) (float_of_Z 6).
Proof.
  assert (Hne : trigram_set "weather" <> ∅) by (vm_compute; discriminate).
  rewrite (proj1 (jaccard_of_trigram_sets "weather" "weathers" (or_introl Hne))). vm_compute. reflexivity.
Defined.

Section Claims.
Context {R : Type}.

Inductive reachable : SearchCache R -> Prop :=
| reachable_new max ttl : reachable (NewSearchCache max ttl)
| reachable_put now q res c : reachable c -> reachable (Put now q res c)
| reachable_get now es q c :
    reachable c -> es ≡ₚ map snd (map_to_list (entries c)) -> reachable (fst (Get now es q c)).

(** The best entry, so far. *)
Definition best_so_far (c : SearchCache R) now q (es : list (cacheEntry R)) (b : option (cacheEntry R) * float64) : Prop :=
  is_nan (snd b) = false /\
  match fst b with
  | Some e => e ∈ es /\ fresh c now e = true /\ snd b = jaccardSimilarity q (trigrams e)
  | None => snd b = fzero
  end /\
  forall e, e ∈ es -> fresh c now e = true -> fltb (snd b) (jaccardSimilarity q (trigrams e)) = false.

Lemma best_step_spec c now q es b e : best_so_far c now q es b -> best_so_far c now q (es ++ [e]) (best_step c now q b e).
Proof.
  intros (Hn & Hb & Hmax). unfold best_step. destruct (fresh c now e) eqn:Ef.
  - destruct (fltb (snd b) _) eqn:El.
    + destruct (fltb_not_nan _ _ El) as [_ Hn']. split; [done|]. simpl. split.
      * split; [apply elem_of_app; right; by left|done].
      * intros e' [He'|E'%list_elem_of_singleton]%elem_of_app Hf'; [|subst e'].
        -- destruct (is_nan (jaccardSimilarity q (trigrams e'))) eqn:En.
           { destruct (jaccardSimilarity q (trigrams e')); try done. apply fltb_nan_r. }
           apply (fltb_ntrans _ (snd b)); auto. by apply fltb_asym.
        -- destruct (fltb (jaccardSimilarity q (trigrams e)) (jaccardSimilarity q (trigrams e))) eqn:E; [|done].
           by rewrite (fltb_asym _ _ E) in E.
    + split; [done|]. split.
      * destruct (fst b); [|done]. destruct Hb as [? ?]. split; [apply elem_of_app; by left|done].
      * intros e' [He'|E'%list_elem_of_singleton]%elem_of_app Hf'; [|subst e']; auto.
  - split; [done|]. split.
    + destruct (fst b); [|done]. destruct Hb as [? ?]. split; [apply elem_of_app; by left|done].
    + intros e' [He'|E'%list_elem_of_singleton]%elem_of_app Hf'; [|subst e']; [auto|congruence].
Qed.

Lemma best_entry_spec c now q es : best_so_far c now q es (best_entry c now q es).
Proof.
  unfold best_entry. induction es as [|e es IH] using rev_ind.
  - split; [done|]. split; [done|]. by intros e ?%elem_of_nil.
  - rewrite fold_left_app. by apply best_step_spec.
Qed.

Lemma threshold_max c now q es b e :
  best_so_far c now q es b -> e ∈ es -> fresh c now e = true ->
  fleb similarityThreshold (jaccardSimilarity q (trigrams e)) = true -> fleb similarityThreshold (snd b) = true.
Proof. intros (Hn & _ & Hmax) He Hf Hle. eapply fleb_max; eauto. Qed.

(** A hit gives the results of an entry that has not expired: that of
    the query itself, or else one whose similarity reaches the threshold and
    which no other entry exceeds; on a miss there is neither. This does not
    depend on the order of the iteration. *)
Theorem Get_finds_the_most_similar now es q (c : SearchCache R) :
  normalizeQuery q <> "" -> es ≡ₚ map snd (map_to_list (entries c)) ->
  let sim e := jaccardSimilarity (buildTrigrams (normalizeQuery q)) (trigrams e) in
  match snd (Get now es q c) with
  | Some r =>
      exists k e, entries c !! k = Some e /\ fresh c now e = true /\ results e = r /\
        (k = normalizeQuery q \/
         fleb similarityThreshold (sim e) = true /\
         (forall e', entries c !! normalizeQuery q = Some e' -> fresh c now e' = false) /\
         forall k' e', entries c !! k' = Some e' -> fresh c now e' = true -> fltb (sim e) (sim e') = false)
  | None =>
      forall k e, entries c !! k = Some e -> fresh c now e = true ->
        k <> normalizeQuery q /\ fleb similarityThreshold (sim e) = false
  end.
Proof.
  intros Hq Hes sim. unfold Get. set (key := normalizeQuery q) in *.
  rewrite (proj2 (String.eqb_neq _ _) Hq).
  assert (Hin : forall e, e ∈ es <-> exists k, entries c !! k = Some e).
  { intros e. rewrite Hes, list_elem_of_fmap. split.
    - intros ([k e'] & -> & He). exists k. by apply elem_of_map_to_list.
    - intros [k He]. exists (k, e). split; [done|]. by apply elem_of_map_to_list. }
  assert (Hsim : (forall e', entries c !! key = Some e' -> fresh c now e' = false) ->
    match snd (similar now es key c) with
    | Some r =>
        exists k e, entries c !! k = Some e /\ fresh c now e = true /\ results e = r /\
          (k = key \/ fleb similarityThreshold (sim e) = true /\
           (forall e', entries c !! key = Some e' -> fresh c now e' = false) /\
           forall k' e', entries c !! k' = Some e' -> fresh c now e' = true -> fltb (sim e) (sim e') = false)
    | None =>
        forall k e, entries c !! k = Some e -> fresh c now e = true -> k <> key /\ fleb similarityThreshold (sim e) = false
    end).
  { intros Hexact. pose proof (best_entry_spec c now (buildTrigrams key) es) as Hb. unfold similar.
    destruct (best_entry _ _ _ _) as [[e|] s].
    - pose proof Hb as (_ & (He & Hf & Es) & Hmax). simpl in Es, Hmax. subst s. destruct (fleb _ _) eqn:El; simpl.
      + apply Hin in He as [k He]. exists k, e. split; [done|]. split; [done|]. split; [done|]. right.
        split; [done|]. split; [done|]. intros k' e' He' Hf'. apply Hmax; [|done]. apply Hin. by exists k'.
      + intros k e' He' Hf'. split; [intros ->; rewrite (Hexact e' He') in Hf'; done|].
        destruct (fleb similarityThreshold (sim e')) eqn:El'; [|done]. rewrite <- El. symmetry.
        exact (threshold_max _ _ _ _ _ e' Hb (proj2 (Hin e') (ex_intro _ k He')) Hf' El').
    - pose proof Hb as (_ & Es & _). simpl in Es. subst s. simpl. intros k e' He' Hf'.
      split; [intros ->; rewrite (Hexact e' He') in Hf'; done|].
      destruct (fleb similarityThreshold (sim e')) eqn:El'; [|done].
      assert (Hz : fleb similarityThreshold fzero = true); [|by vm_compute in Hz].
      exact (threshold_max _ _ _ _ _ e' Hb (proj2 (Hin e') (ex_intro _ k He')) Hf' El'). }
  destruct (entries c !! key) as [e|] eqn:E; [|by apply Hsim].
  destruct (fresh c now e) eqn:Ef; [|apply Hsim; by intros e' [= <-]].
  simpl. exists key, e. repeat split; auto.
Qed.

Lemma Get_ok now es q (c : SearchCache R) : cache_ok c -> es ≡ₚ map snd (map_to_list (entries c)) ->
  fst (Get now es q c) = c \/ exists k, is_Some (entries c !! k) /\ fst (Get now es q c) = moveToEnd k c.
Proof.
  intros IH Hes. unfold Get. destruct (String.eqb _ ""); [by left|].
  assert (Hs : fst (similar now es (normalizeQuery q) c) = c \/
    exists k, is_Some (entries c !! k) /\ fst (similar now es (normalizeQuery q) c) = moveToEnd k c).
  { unfold similar. pose proof (best_entry_spec c now (buildTrigrams (normalizeQuery q)) es) as (_ & Hb & _).
    destruct (best_entry _ _ _ _) as [[e|] s]; [|by left]. destruct (fleb _ _); [|by left]. right.
    destruct Hb as (He & _). rewrite Hes, list_elem_of_fmap in He. destruct He as ([k e'] & -> & He).
    apply elem_of_map_to_list in He. exists (query e'). simpl. rewrite (proj1 (ok_entry c IH _ _ He)). split; [by eexists|done]. }
  destruct (entries c !! normalizeQuery q) as [e|] eqn:E; [|done]. destruct (fresh c now e); [|done].
  right. exists (normalizeQuery q). split; [by eexists|done].
Qed.

Lemma cache_reachable_ok (c : SearchCache R) : reachable c -> cache_ok c.
Proof.
  induction 1 as [max t|now q res c _ IH|now es q c _ IH Hes].
  - unfold NewSearchCache. split; simpl; [constructor|..].
    + intros k. rewrite lookup_empty. split; [by intros ?%elem_of_nil|by intros []].
    + rewrite map_size_empty. destruct (Z.leb_spec max 0); lia.
    + intros k e. by rewrite lookup_empty.
  - by apply Put_ok.
  - destruct (Get_ok now es q c IH Hes) as [->|(k & Hk & ->)]; [done|]. by apply moveToEnd_ok.
Qed.

(** Caches after [n] operations: puts for other queries before the results
    that were put for [key] at [now] expire, and searches. *)
Inductive later (key : string) (now : time) (c : SearchCache R) : nat -> SearchCache R -> Prop :=
| later_none : later key now c 0 c
| later_put n c1 now1 q res : later key now c n c1 -> normalizeQuery q <> key -> now1 - now < ttl c ->
    later key now c (Datatypes.S n) (Put now1 q res c1)
| later_get n c1 now1 es q : later key now c n c1 -> es ≡ₚ map snd (map_to_list (entries c1)) ->
    later key now c (Datatypes.S n) (fst (Get now1 es q c1)).

(** The entry of [key] is there, and at most [n] others are behind it. *)
Definition kept (key : string) (now : time) (res : list R) (M : Z) (T : duration) (n : nat) (c : SearchCache R) : Prop :=
  cache_ok c /\ maxEntries c = M /\ ttl c = T /\
  (exists e, entries c !! key = Some e /\ results e = res /\ createdAt e = now) /\
  exists l1 l2, order c = l1 ++ key :: l2 /\ (length l2 <= n)%nat.

Lemma kept_more key now res M T n m c : (n <= m)%nat -> kept key now res M T n c -> kept key now res M T m c.
Proof. intros Hnm (H1 & H2 & H3 & H4 & l1 & l2 & H5 & H6). split_and!; [done..|]. exists l1, l2. split; [done|lia]. Qed.

Lemma remove_first_other k key l1 l2 : k <> key ->
  exists l1' l2', remove_first k (l1 ++ key :: l2) = l1' ++ key :: l2' /\ (length l2' <= length l2)%nat.
Proof.
  intros Hk. induction l1 as [|x l1 IH]; cbn [app remove_first].
  - rewrite (proj2 (String.eqb_neq key k)) by congruence. exists [], (remove_first k l2). split; [done|].
    clear Hk. induction l2 as [|y l2 IH]; simpl; [done|]. destruct (String.eqb y k); simpl; lia.
  - destruct (String.eqb x k); [by exists l1, l2|]. destruct IH as (l1' & l2' & -> & Hl). by exists (x :: l1'), l2'.
Qed.

Lemma kept_moveToEnd key now res M T n c k :
  kept key now res M T n c -> is_Some (entries c !! k) -> kept key now res M T (Datatypes.S n) (moveToEnd k c).
Proof.
  intros (H1 & H2 & H3 & H4 & l1 & l2 & H5 & H6) Hk. split; [by apply moveToEnd_ok|]. split_and!; [done..|]. cbn [order moveToEnd].
  destruct (decide (k = key)) as [->|Hne].
  - exists (remove_first key (order c)), []. split; [done|simpl; lia].
  - rewrite H5. destruct (remove_first_other k key l1 l2 Hne) as (l1' & l2' & -> & Hl).
    exists l1', (l2' ++ [k]). split; [by rewrite <- app_assoc|]. rewrite length_app. simpl. lia.
Qed.

Lemma kept_evictExpired key now res M T n c now1 :
  kept key now res M T n c -> now1 - now < T -> kept key now res M T n (evictExpired now1 c).
Proof.
  intros (H1 & H2 & H3 & (e & He & Hr & Hn) & l1 & l2 & H5 & H6) Ht. split; [by apply evictExpired_ok|].
  unfold evictExpired. pose proof (evict_spec now1 (ttl c) (order c) (entries c) (ok_order c H1)) as Hev.
  destruct (evict _ _ _ _) as [m keys]. destruct Hev as [-> Hm]. cbn [maxEntries ttl entries order]. split_and!; [done..| |].
  - exists e. rewrite Hm. unfold is_fresh at 1. rewrite He, Hn, H3, (proj2 (Z.ltb_lt _ _) Ht), andb_false_r. done.
  - rewrite H5, List.filter_app. cbn [List.filter]. unfold is_fresh at 2. rewrite He, Hn, H3, (proj2 (Z.ltb_lt _ _) Ht).
    eexists _, _. split; [reflexivity|]. etransitivity; [apply List.filter_length_le|done].
Qed.

Lemma make_room_keeps max key (m : gmap string (cacheEntry R)) l1 l2 :
  NoDup (l1 ++ key :: l2) -> (forall k, k ∈ l1 ++ key :: l2 -> is_Some (m !! k)) ->
  size m = length (l1 ++ key :: l2) -> Z.of_nat (length l2) + 1 < max ->
  exists l1', snd (make_room max (l1 ++ key :: l2) m) = l1' ++ key :: l2 /\
    fst (make_room max (l1 ++ key :: l2) m) !! key = m !! key.
Proof.
  intros Hnd Hk Hs Hmax. revert m Hk Hs; induction l1 as [|x l1 IH]; intros m Hk Hs; cbn [app make_room].
  - rewrite (proj2 (Z.leb_gt _ _)) by (cbn [app length] in Hs; lia). by exists [].
  - cbn [app] in Hnd, Hk. apply NoDup_cons in Hnd as [Hn Hnd]. destruct (max <=? _); [|by exists (x :: l1)].
    destruct (IH Hnd (delete x m)) as (l1' & H1 & H2).
    + intros k Hin. rewrite lookup_delete_ne by (intros ->; done). apply Hk. by right.
    + rewrite map_size_delete. destruct (Hk x) as [y ->]; [by left|]. rewrite Hs. cbn [app length]. lia.
    + exists l1'. split; [done|]. rewrite H2, lookup_delete_ne; [done|]. intros ->. apply Hn, elem_of_app. right. by left.
Qed.

Lemma order_length (c : SearchCache R) : cache_ok c -> size (entries c) = length (order c).
Proof.
  intros [Ho Hk _ _]. rewrite <- size_dom, <- (size_list_to_set (C := gset string) _ Ho). f_equal. apply set_eq. intros k.
  by rewrite elem_of_dom, elem_of_list_to_set, Hk.
Qed.

Lemma kept_Put key now res M T n c now1 q res1 :
  kept key now res M T n c -> now1 - now < T -> normalizeQuery q <> key -> Z.of_nat (Datatypes.S n) < M ->
  kept key now res M T (Datatypes.S n) (Put now1 q res1 c).
Proof.
  intros HK Ht Hq Hn. pose proof (Put_ok now1 q res1 c (proj1 HK)) as Hok. unfold Put in *.
  destruct (String.eqb _ ""); [by eapply kept_more; [|exact HK]; lia|].
  apply (kept_evictExpired _ _ _ _ _ _ _ now1) in HK; [|done]. set (c1 := evictExpired now1 c) in *. clearbody c1.
  set (k := normalizeQuery q) in *. set (e1 := mkCacheEntry k _ _ _) in *.
  destruct HK as (H1 & H2 & H3 & (e & He & Hr & Hc) & l1 & l2 & H5 & H6). destruct (entries c1 !! k) as [old|] eqn:Eold.
  - apply kept_moveToEnd; [|cbn [entries]; rewrite lookup_insert_eq; by eexists]. split; [|split_and!; [done..| |]].
    + destruct H1 as [Ho Hk0 Hr0 He0]. split; cbn [entries order maxEntries].
      * done.
      * intros k0. rewrite Hk0, lookup_insert_is_Some'. split; [by right|]. intros [<-|]; [by eexists|done].
      * split; [apply Hr0|]. rewrite map_size_insert, Eold. apply Hr0.
      * intros k0 e' [[<- <-]|[_ E']]%lookup_insert_Some; [done|by apply He0].
    + exists e. cbn [entries]. by rewrite lookup_insert_ne.
    + by exists l1, l2.
  - pose proof (make_room_keeps (maxEntries c1) key (entries c1) l1 l2) as Hm. rewrite <- H5 in Hm.
    destruct Hm as (l1' & Hm1 & Hm2); [apply H1|intros k0; apply (ok_keys c1 H1)|by apply order_length|lia|].
    destruct (make_room _ _ _) as [m keys]. cbn [fst snd] in Hm1, Hm2. subst keys. split; [done|]. cbn [maxEntries ttl entries order].
    split_and!; [done..| |].
    + exists e. by rewrite lookup_insert_ne, Hm2.
    + exists l1', (l2 ++ [k]). split; [by rewrite <- app_assoc|]. rewrite length_app. simpl. lia.
Qed.

Lemma later_kept key now res M T c n c' : kept key now res M T 0 c -> later key now c n c' ->
  Z.of_nat n < M -> kept key now res M T n c'.
Proof.
  intros HK Hl. induction Hl as [|n c1 now1 q res1 Hl IH Hq Ht|n c1 now1 es q Hl IH Hes]; intros Hn; [done|..].
  - destruct HK as (_ & _ & HT & _). apply kept_Put; [apply IH; lia|lia|done|done].
  - destruct (Get_ok now1 es q c1) as [->|(k & Hk & ->)]; [apply IH; lia|done| |].
    + eapply kept_more; [|apply IH; lia]. lia.
    + apply kept_moveToEnd; [apply IH; lia|done].
Qed.

Lemma Put_kept now q res c : cache_ok c -> normalizeQuery q <> "" ->
  kept (normalizeQuery q) now res (maxEntries c) (ttl c) 0 (Put now q res c).
Proof.
  intros Hok Hq. split; [by apply Put_ok|]. unfold Put. rewrite (proj2 (String.eqb_neq _ _) Hq). unfold evictExpired.
  destruct (evict _ _ _ _) as [m keys]. cbn [entries order maxEntries ttl]. destruct (m !! normalizeQuery q); simpl.
  - split_and!; [done..| |eexists _, []; by split]. rewrite lookup_insert_eq. by eexists.
  - destruct (make_room _ _ _) as [m' keys']. simpl. split_and!; [done..| |eexists _, []; by split].
    rewrite lookup_insert_eq. by eexists.
Qed.

(** C39: the results that were put for a query are found until they expire, by a
    query that is the same up to case and blanks, as long as fewer operations
    come in between than the cache may have entries and none puts other results
    for the query: a full cache drops what was used least recently. It never
    holds more entries than it may. *)
Theorem Put_then_Get now q res (c : SearchCache R) n c' now' es q' :
  reachable c -> normalizeQuery q <> "" -> normalizeQuery q' = normalizeQuery q ->
  later (normalizeQuery q) now (Put now q res c) n c' -> Z.of_nat n < maxEntries c -> now' - now < ttl c ->
  snd (Get now' es q' c') = Some res /\ Len c' <= maxEntries c.
Proof.
  intros Hr Hq Hq' Hl Hn Hnow. pose proof (Put_kept now q res c (cache_reachable_ok c Hr) Hq) as HK.
  destruct (later_kept _ _ _ _ _ _ _ _ HK Hl Hn) as (Hok & HM & HT & (e & He & Hres & Hc) & _). split.
  - unfold Get. rewrite Hq', (proj2 (String.eqb_neq _ _) Hq), He. unfold fresh. rewrite Hc, HT, (proj2 (Z.ltb_lt _ _) Hnow).
    simpl. by rewrite Hres.
  - unfold Len. rewrite <- HM. apply Hok.
Qed.
End Claims.

(** *** Short queries

    Queries of one or two bytes have no trigrams, and two of these count as
    the same query. *)
Lemma short_queries_match :
  let c := Put 0 "go" [1] (NewSearchCache 10 100) in
  snd (Get 1 (map snd (map_to_list (entries c))) "ai" c) = Some [1].
Proof. vm_compute. reflexivity. Qed.

(** *** Examples *)

Definition demo_cache : SearchCache Z := Put 5 "email" [2] (Put 0 "Weather forecast" [1] (NewSearchCache 2 100)).

Lemma demo_cache_reachable : reachable demo_cache.
Proof. repeat constructor. Qed.

Lemma Get_finds_the_most_similar_witness :
  match snd (Get 50 (map snd (map_to_list (entries demo_cache))) "weather forecasts " demo_cache) with
  | Some r => r = [1]
  | None => False
  end /\
  forall k e, entries demo_cache !! k = Some e -> fresh demo_cache 50 e = true ->
    fleb similarityThreshold (jaccardSimilarity (buildTrigrams "github") (trigrams e)) = false.
Proof.
  split; [vm_compute; reflexivity|]. intros k e He Hf.
  pose proof (Get_finds_the_most_similar 50 (map snd (map_to_list (entries demo_cache))) "github" demo_cache
    ltac:(vm_compute; discriminate) (Permutation_refl _)) as Hm. cbn zeta in Hm.
  assert (Hnone : snd (Get 50 (map snd (map_to_list (entries demo_cache))) "github" demo_cache) = None) by (vm_compute; reflexivity).
  rewrite Hnone in Hm. by apply (Hm k e He Hf).
Defined.

(** A cache of two entries: one other query in between. *)
Lemma Put_then_Get_witness :
  snd (Get 60 [] "EMAIL client" (Put 20 "github" [3] (Put 10 "email client" [7] demo_cache))) = Some [7].
Proof.
  refine (proj1 (Put_then_Get 10 "email client" [7] demo_cache 1 _ 60 [] "EMAIL client" demo_cache_reachable _ _ _ _ _)).
  - vm_compute. discriminate.
  - vm_compute. reflexivity.
  - apply later_put; [apply later_none|vm_compute; discriminate|vm_compute; reflexivity].
  - vm_compute. reflexivity.
  - vm_compute. reflexivity.
Defined.

(** One more, and it is dropped. *)
Example older_results_are_dropped :
  snd (Get 60 [] "email client" (Put 30 "weather" [4] (Put 20 "github" [3] (Put 10 "email client" [7] demo_cache)))) = None.
Proof. vm_compute. reflexivity. Qed.
