(* ===== verification/Bus.v ===== *)
(** * The message bus: [src/pkg/bus/bus.go]

    Five buffered channels with any number of publishers, consumers, and one
    [Close]. Every access of shared state is a step: a publisher is a state
    machine that goes through [publish], and so is [Close]. *)

From S2P Require Import Prelude.

Inductive kind : Type := Inbound | Outbound | OutboundMedia | AudioChunks | VoiceControls.

#[export] Instance kind_eq_dec : EqDecision kind.
Proof. solve_decision. Defined.

Definition all_kinds : list kind := [Inbound; Outbound; OutboundMedia; AudioChunks; VoiceControls].

Definition defaultBusBufferSize : nat := 64.

Definition capacity (k : kind) : nat :=
  match k with AudioChunks => defaultBusBufferSize * 4 | _ => defaultBusBufferSize end.

(** What [publish] returns. *)
Inductive outcome : Type := Sent | ErrBusClosed | ErrContext.

#[export] Instance outcome_eq_dec : EqDecision outcome.
Proof. solve_decision. Defined.

(** Where a publisher is: before [closed.Load], before the first [select],
    before [wg.Add], in the second [select], before the deferred [wg.Done]. *)
Inductive pub_pc : Type :=
| AtLoad | AtCheck | AtAdd | AtSelect | AtDone (r : outcome) | Returned (r : outcome) | Panicked.

(** Where [Close] is: before [close(done)], before [closed.Store], before
    [wg.Wait], closing the channels that are left, draining. *)
Inductive close_pc : Type := NotClosing | AtStore | AtWait | Closing (remaining : list kind) | Draining | Finished.

Section Bus.
Context {V : Type}.

Record publisher : Type := mkPub { pub_kind : kind; pub_msg : V; pub_cancelled : bool; pc : pub_pc }.

Definition at_pc (p : publisher) (c : pub_pc) : publisher := mkPub (pub_kind p) (pub_msg p) (pub_cancelled p) c.
Definition cancelled (p : publisher) : publisher := mkPub (pub_kind p) (pub_msg p) true (pc p).

(** [taken] is what left each channel, in order, and whether a consumer got
    it; [accepted] is what entered it. *)
Record MessageBus : Type := mkBus {
  buffer : kind -> list V;
  channel_closed : kind -> bool;
  done : bool;
  closed : bool;
  wg : Z;
  pubs : list publisher;
  closer : close_pc;
  accepted : kind -> list V;
  taken : kind -> list (bool * V)
}.

Definition NewMessageBus : MessageBus :=
  mkBus (fun _ => []) (fun _ => false) false false 0 [] NotClosing (fun _ => []) (fun _ => []).

Definition upd {A} (f : kind -> A) (k : kind) (x : A) : kind -> A := fun k' => if decide (k' = k) then x else f k'.

Definition set_pub (b : MessageBus) (i : nat) (p : publisher) (dwg : Z) : MessageBus :=
  mkBus (buffer b) (channel_closed b) (done b) (closed b) (wg b + dwg) (<[i := p]> (pubs b)) (closer b) (accepted b) (taken b).

Definition set_closer (b : MessageBus) (c : close_pc) : MessageBus :=
  mkBus (buffer b) (channel_closed b) (done b) (closed b) (wg b) (pubs b) c (accepted b) (taken b).

(** The send of a publisher succeeds. *)
Definition send (b : MessageBus) (i : nat) (p : publisher) : MessageBus :=
  let k := pub_kind p in
  mkBus (upd (buffer b) k (buffer b k ++ [pub_msg p])) (channel_closed b) (done b) (closed b) (wg b)
    (<[i := at_pc p (AtDone Sent)]> (pubs b)) (closer b) (upd (accepted b) k (accepted b k ++ [pub_msg p])) (taken b).

Definition take_message (b : MessageBus) (k : kind) (m : V) (rest : list V) (by_consumer : bool) : MessageBus :=
  mkBus (upd (buffer b) k rest) (channel_closed b) (done b) (closed b) (wg b) (pubs b) (closer b) (accepted b)
    (upd (taken b) k (taken b k ++ [(by_consumer, m)])).

(** ** [publish] *)

Inductive pub_step (b : MessageBus) (i : nat) (p : publisher) : MessageBus -> Prop :=
| load_closed : pc p = AtLoad -> closed b = true -> pub_step b i p (set_pub b i (at_pc p (Returned ErrBusClosed)) 0)
| load_open : pc p = AtLoad -> closed b = false -> pub_step b i p (set_pub b i (at_pc p AtCheck) 0)
| check_context :
    pc p = AtCheck -> pub_cancelled p = true -> pub_step b i p (set_pub b i (at_pc p (Returned ErrContext)) 0)
| check_done : pc p = AtCheck -> done b = true -> pub_step b i p (set_pub b i (at_pc p (Returned ErrBusClosed)) 0)
| check_default :
    pc p = AtCheck -> pub_cancelled p = false -> done b = false -> pub_step b i p (set_pub b i (at_pc p AtAdd) 0)
| wg_add : pc p = AtAdd -> pub_step b i p (set_pub b i (at_pc p AtSelect) 1)
| select_send :
    pc p = AtSelect -> channel_closed b (pub_kind p) = false ->
    (length (buffer b (pub_kind p)) < capacity (pub_kind p))%nat -> pub_step b i p (send b i p)
| select_panic :                                                  (* a send on a closed channel *)
    pc p = AtSelect -> channel_closed b (pub_kind p) = true -> pub_step b i p (set_pub b i (at_pc p Panicked) (-1))
| select_context :
    pc p = AtSelect -> pub_cancelled p = true -> pub_step b i p (set_pub b i (at_pc p (AtDone ErrContext)) 0)
| select_done : pc p = AtSelect -> done b = true -> pub_step b i p (set_pub b i (at_pc p (AtDone ErrBusClosed)) 0)
| wg_done r : pc p = AtDone r -> pub_step b i p (set_pub b i (at_pc p (Returned r)) (-1)).

(** ** [Close]: the first call; others wait for it *)

Inductive close_step (b : MessageBus) : MessageBus -> Prop :=
| close_done :
    closer b = NotClosing ->
    close_step b (mkBus (buffer b) (channel_closed b) true (closed b) (wg b) (pubs b) AtStore (accepted b) (taken b))
| store_closed :
    closer b = AtStore ->
    close_step b (mkBus (buffer b) (channel_closed b) (done b) true (wg b) (pubs b) AtWait (accepted b) (taken b))
| wg_wait : closer b = AtWait -> wg b = 0 -> close_step b (set_closer b (Closing all_kinds))
| close_channel k remaining :
    closer b = Closing (k :: remaining) ->
    close_step b (mkBus (buffer b) (upd (channel_closed b) k true) (done b) (closed b) (wg b) (pubs b) (Closing remaining)
                    (accepted b) (taken b))
| closing_over : closer b = Closing [] -> close_step b (set_closer b Draining)
| drain k m rest : closer b = Draining -> buffer b k = m :: rest -> close_step b (take_message b k m rest false)
| drained : closer b = Draining -> (forall k, buffer b k = []) -> close_step b (set_closer b Finished).

(** ** All of it *)

Inductive step (b : MessageBus) : MessageBus -> Prop :=
| step_publish k m :
    step b (mkBus (buffer b) (channel_closed b) (done b) (closed b) (wg b) (pubs b ++ [mkPub k m false AtLoad])
              (closer b) (accepted b) (taken b))
| step_cancel i p : pubs b !! i = Some p -> step b (set_pub b i (cancelled p) 0)
| step_pub i p b' : pubs b !! i = Some p -> pub_step b i p b' -> step b b'
| step_receive k m rest : buffer b k = m :: rest -> step b (take_message b k m rest true)
| step_close b' : close_step b b' -> step b b'.

Definition reachable (b : MessageBus) : Prop := rtc step NewMessageBus b.
End Bus.
Arguments publisher : clear implicits.
Arguments MessageBus : clear implicits.

(** ** Invariants *)

Section Facts.
Context {V : Type}.
Implicit Types (b : MessageBus V) (p : publisher V).

Lemma insert_perm {A} (l : list A) i x y :
  l !! i = Some x -> exists rest, l ≡ₚ x :: rest /\ <[i := y]> l ≡ₚ y :: rest.
Proof.
  intros E. exists (take i l ++ drop (Datatypes.S i) l). split.
  - rewrite <- (take_drop_middle l i x E) at 1. by rewrite Permutation_middle.
  - rewrite insert_take_drop by by eapply lookup_lt_Some. by rewrite Permutation_middle.
Qed.

(** The publishers that [wg] counts. *)
Definition counted p : Z := match pc p with AtSelect | AtDone _ => 1 | _ => 0 end.
Definition count (l : list (publisher V)) : Z := foldr (fun p n => counted p + n) 0 l.

#[local] Instance count_proper : Proper ((≡ₚ) ==> (=)) count.
Proof. intros l k Hp. unfold count. induction Hp; simpl; lia. Qed.

Lemma count_insert l i p p' : l !! i = Some p -> count (<[i := p']> l) = count l - counted p + counted p'.
Proof. intros (rest & E1 & E2)%(insert_perm _ _ _ p'). rewrite E2, E1. simpl. lia. Qed.

(** The message that a publisher has put into a channel. *)
Definition sent_to (k : kind) p : option V :=
  match pc p with
  | AtDone Sent | Returned Sent => if decide (pub_kind p = k) then Some (pub_msg p) else None
  | _ => None
  end.

Lemma sent_insert k l i p p' :
  l !! i = Some p -> sent_to k p = sent_to k p' -> omap (sent_to k) (<[i := p']> l) ≡ₚ omap (sent_to k) l.
Proof. intros (rest & E1 & E2)%(insert_perm _ _ _ p') E. rewrite E2, E1. simpl. by rewrite E. Qed.

Definition close_begun b : Prop := closer b <> NotClosing.
Definition done_waiting b : Prop := match closer b with Closing _ | Draining | Finished => True | _ => False end.

Record inv b : Prop := {
  inv_fifo k : accepted b k = map snd (taken b k) ++ buffer b k;
  inv_capacity k : (length (buffer b k) <= capacity k)%nat;
  inv_sent k : accepted b k ≡ₚ omap (sent_to k) (pubs b);
  inv_wg : wg b = count (pubs b);
  inv_done : done b = true <-> close_begun b;
  inv_closed : closed b = true <-> closer b <> NotClosing /\ closer b <> AtStore;
  inv_channels k : channel_closed b k = true <->
    done_waiting b /\ match closer b with Closing remaining => k ∉ remaining | _ => True end;
  inv_left remaining : closer b = Closing remaining -> NoDup remaining;
  inv_drain k : (match closer b with Draining | Finished => True | _ => False end) \/ Forall (fun x => fst x = true) (taken b k);
  inv_panic p : p ∈ pubs b -> pc p = Panicked -> channel_closed b (pub_kind p) = true
}.

Lemma elem_insert_inv {A} (l : list A) i x y : x ∈ <[i := y]> l -> x = y \/ x ∈ l.
Proof.
  intros [j Hj]%list_elem_of_lookup. destruct (decide (i = j)) as [->|Hne].
  - apply list_lookup_insert_Some in Hj as [(_ & -> & _)|(? & _)]; [by left|done].
  - rewrite list_lookup_insert_ne in Hj by done. right. by eapply list_elem_of_lookup_2.
Qed.

(** A step of a publisher that sends nothing. *)
Lemma inv_set_pub b i p p' dwg :
  inv b -> pubs b !! i = Some p -> (forall k, sent_to k p = sent_to k p') -> counted p' = counted p + dwg ->
  (pc p' = Panicked -> channel_closed b (pub_kind p') = true) -> inv (set_pub b i p' dwg).
Proof.
  intros [] E Hs Hc Hp. split; simpl; try done.
  - intros k. rewrite (sent_insert k _ _ _ _ E (Hs k)). done.
  - rewrite (count_insert _ _ _ _ E). lia.
  - intros q [->|Hq]%elem_insert_inv Hq'; auto.
Qed.

Lemma pub_step_inv b i p b' : inv b -> pubs b !! i = Some p -> pub_step b i p b' -> inv b'.
Proof.
  intros Hi E Hstep. destruct p as [k m c pc0]. 
  inversion Hstep as [Hpc Hx|Hpc Hx|Hpc Hx|Hpc Hx|Hpc Hx Hy|Hpc|Hpc Hx Hy|Hpc Hx|Hpc Hx|Hpc Hx|r Hpc]; subst; simpl in Hpc; subst pc0;
    try (eapply inv_set_pub; [exact Hi|exact E|by intros k'|done|done]).
  - (* a send *) simpl in *. destruct Hi. split; simpl; try done.
    + intros k'. unfold upd. destruct (decide (k' = k)) as [->|]; [|done]. by rewrite inv_fifo0, app_assoc.
    + intros k'. unfold upd. destruct (decide (k' = k)) as [->|]; [|done]. rewrite length_app. simpl. lia.
    + intros k'. destruct (insert_perm _ _ _ (mkPub k m c (AtDone Sent)) E) as (rest & H1 & H2).
      change (at_pc (mkPub k m c AtSelect) (AtDone Sent)) with (mkPub k m c (AtDone Sent)). rewrite H2.
      specialize (inv_sent0 k'). rewrite H1 in inv_sent0. cbn [omap list_omap] in *. simpl in inv_sent0.
      assert (Hs : sent_to k' (mkPub k m c (AtDone Sent)) = if decide (k = k') then Some m else None) by done.
      rewrite Hs. unfold upd. destruct (decide (k' = k)) as [->|Hne].
      * rewrite decide_True by done. rewrite Permutation_app_comm. simpl. by rewrite inv_sent0.
      * by rewrite decide_False by congruence.
    + rewrite (count_insert _ _ _ _ E). unfold counted. simpl. lia.
    + intros q [->|Hq]%elem_insert_inv Hq'; [done|auto].
Qed.

(** A message leaves a channel. *)
Lemma inv_take b k m rest by_consumer :
  inv b -> buffer b k = m :: rest ->
  (by_consumer = true \/ closer b = Draining) -> inv (take_message b k m rest by_consumer).
Proof.
  intros [] E Hc. split; simpl; try done.
  - intros k'. unfold upd. destruct (decide (k' = k)) as [->|]; [|done].
    rewrite inv_fifo0, E, map_app, <- app_assoc. done.
  - intros k'. unfold upd. destruct (decide (k' = k)) as [->|]; [|done]. specialize (inv_capacity0 k).
    rewrite E in inv_capacity0. simpl in inv_capacity0. lia.
  - intros k'. unfold upd. destruct (decide (k' = k)) as [->|]; [|done].
    destruct Hc as [->| ->]; [|by left]. destruct (inv_drain0 k) as [|Hf]; [by left|right].
    apply Forall_app. split; [done|]. by constructor.
Qed.

(** A step of [Close] that moves no message. *)
Lemma inv_close b chans d cl c :
  inv b ->
  (d = true <-> c <> NotClosing) -> (cl = true <-> c <> NotClosing /\ c <> AtStore) ->
  (forall k, chans k = true <->
     match c with Closing remaining => k ∉ remaining | Draining | Finished => True | _ => False end) ->
  (forall remaining, c = Closing remaining -> NoDup remaining) ->
  (closer b = Draining -> c = Finished) -> closer b <> Finished ->
  (forall k, channel_closed b k = true -> chans k = true) ->
  inv (mkBus (buffer b) chans d cl (wg b) (pubs b) c (accepted b) (taken b)).
Proof.
  intros [] Hd Hcl Hch Hl Hdr Hfin Hmono. split; simpl; try done.
  - intros k. unfold done_waiting. simpl. rewrite Hch. destruct c; tauto.
  - intros k. destruct (inv_drain0 k) as [Hk|Hk]; [left|by right]. destruct (closer b); try done. by rewrite Hdr.
  - intros p Hp Hpc. apply Hmono. eauto.
Qed.

Lemma channels_at b k :
  inv b -> channel_closed b k = true <->
  match closer b with Closing remaining => k ∉ remaining | Draining | Finished => True | _ => False end.
Proof. intros []. rewrite inv_channels0. unfold done_waiting. destruct (closer b); tauto. Qed.

Lemma all_kinds_spec k : k ∈ all_kinds.
Proof. destruct k; unfold all_kinds; rewrite !elem_of_cons; tauto. Qed.

Lemma close_step_inv b b' : inv b -> close_step b b' -> inv b'.
Proof.
  intros Hi Hstep. pose proof (fun k => channels_at b k Hi) as Hch.
  pose proof (inv_done b Hi) as Hd. pose proof (inv_closed b Hi) as Hcl. pose proof (inv_left b Hi) as Hl.
  inversion Hstep as [Hc|Hc|Hc Hw|k remaining Hc|Hc|k m rest Hc E|Hc E]; subst;
    unfold close_begun in *; rewrite Hc in *;
    [apply inv_close; try done; try (by rewrite Hc)..| |apply inv_close; try done; try (by rewrite Hc)].
  all: try (rewrite Hcl; naive_solver); try (rewrite Hd; naive_solver).
  - intros k. rewrite Hch. pose proof (all_kinds_spec k). tauto.
  - intros remaining [= <-]. by decide_now.
  - intros k'. unfold upd. destruct (decide (k' = k)) as [->|Hne].
    + split; [|done]. intros _. specialize (Hl _ eq_refl). by apply NoDup_cons in Hl as [? _].
    + rewrite Hch, not_elem_of_cons. tauto.
  - intros r [= <-]. specialize (Hl _ eq_refl). by apply NoDup_cons in Hl as [_ ?].
  - intros k' Hk'. unfold upd. by destruct (decide (k' = k)).
  - intros k. rewrite Hch. set_solver.
  - apply inv_take; [done..|by right].
Qed.

Lemma step_inv b b' : inv b -> step b b' -> inv b'.
Proof.
  intros Hi Hstep. inversion Hstep as [k m|i p E|i p ? E Hp|k m rest E|? Hc]; subst.
  - destruct Hi. split; simpl; try done.
    + intros k'. rewrite omap_app. simpl. by rewrite app_nil_r.
    + rewrite inv_wg0. unfold count. rewrite foldr_app. simpl. done.
    + intros q [Hq|Hq%list_elem_of_singleton]%elem_of_app Hpc; [auto|by subst].
  - eapply inv_set_pub; [done|done|done| |].
    + simpl. unfold counted. simpl. lia.
    + simpl. intros Hpc. apply (inv_panic b Hi p); [by eapply list_elem_of_lookup_2|done].
  - by eapply pub_step_inv.
  - apply inv_take; [done..|by left].
  - by eapply close_step_inv.
Qed.

Lemma inv_new : inv NewMessageBus.
Proof.
  split; simpl; try done.
  - intros k. lia.
  - split; [done|]. by intros [].
  - split; [done|]. by intros [[] _].
  - intros k. by right.
  - by intros p ?%elem_of_nil.
Qed.

Lemma reachable_inv b : reachable b -> inv b.
Proof.
  assert (Hi : forall a, rtc step a b -> inv a -> inv b) by (induction 1; eauto using step_inv).
  intros Hr. apply (Hi _ Hr inv_new).
Qed.

(** *** Publishers come to an end *)

(** The steps that a publisher can still take, at most. *)
Definition rank p : nat :=
  match pc p with AtLoad => 5 | AtCheck => 4 | AtAdd => 3 | AtSelect => 2 | AtDone _ => 1 | Returned _ | Panicked => 0 end.

Definition over p : Prop := rank p = 0%nat.

Lemma pub_step_rank b i p b' :
  pubs b !! i = Some p -> pub_step b i p b' ->
  exists p', pubs b' = <[i := p']> (pubs b) /\ (rank p' < rank p)%nat /\ done b' = done b /\ closer b' = closer b.
Proof.
  intros E Hstep. destruct Hstep as [Hpc|Hpc|Hpc|Hpc|Hpc|Hpc|Hpc|Hpc|Hpc|Hpc|r Hpc];
    (eexists; split; [reflexivity|]; unfold rank; rewrite Hpc; simpl; repeat split; lia).
Qed.

(** Once the bus is being closed, nothing blocks a publisher. *)
Lemma pub_step_enabled b i p :
  done b = true -> ~ over p -> exists b', pub_step b i p b'.
Proof.
  intros Hd Ho. destruct (pc p) as [| | | |r|r|] eqn:Hpc.
  - destruct (closed b) eqn:Hc; eexists; [by apply load_closed|by apply load_open].
  - eexists. by apply check_done.
  - eexists. by apply wg_add.
  - eexists. by apply select_done.
  - eexists. by eapply wg_done.
  - destruct Ho. unfold over, rank. by rewrite Hpc.
  - destruct Ho. unfold over, rank. by rewrite Hpc.
Qed.

Definition total_rank b : nat := list_sum (map rank (pubs b)).

Lemma total_rank_insert (l : list (publisher V)) i p p' :
  l !! i = Some p -> (rank p' < rank p)%nat ->
  (list_sum (map rank (<[i := p']> l)) < list_sum (map rank l))%nat.
Proof.
  revert i. induction l as [|q l IH]; intros i; [done|]. destruct i as [|i]; simpl.
  - intros [= ->] Hr. lia.
  - intros E Hr. specialize (IH i E Hr). simpl in IH. lia.
Qed.

(** Steps of publishers only. *)
Definition pubs_step b b' : Prop := exists i p, pubs b !! i = Some p /\ pub_step b i p b'.

Lemma publishers_finish b :
  done b = true -> exists b', rtc pubs_step b b' /\ Forall over (pubs b') /\ done b' = true /\ closer b' = closer b.
Proof.
  remember (total_rank b) as n eqn:En. revert b En. induction n as [n IH] using lt_wf_ind. intros b -> Hd.
  destruct (decide (Forall (fun p => rank p = 0%nat) (pubs b))) as [Hall|Hn]; [by exists b|].
  apply not_Forall_Exists in Hn; [|intros p; apply _].
  apply Exists_exists in Hn as (p & Hp & Hr). apply list_elem_of_lookup in Hp as [i E].
  destruct (pub_step_enabled b i p Hd Hr) as [b1 Hs].
  destruct (pub_step_rank b i p b1 E Hs) as (p' & Ep & Hlt & Hd1 & Hc1).
  destruct (IH (total_rank b1)) with (b := b1) as (b' & Hb' & Hall & Hd' & Hc'); [|done|congruence|].
  - unfold total_rank. rewrite Ep. by apply (total_rank_insert _ _ p).
  - exists b'. split; [|split; [done|split; [done|congruence]]]. eapply rtc_l; [|done]. by exists i, p.
Qed.

(** *** Close comes to an end *)

Definition buffered b : nat := list_sum (map (fun k => length (buffer b k)) all_kinds).

Lemma draining_finishes b :
  closer b = Draining -> exists b', rtc close_step b b' /\ closer b' = Finished /\ pubs b' = pubs b.
Proof.
  remember (buffered b) as n eqn:En. revert b En. induction n as [n IH] using lt_wf_ind. intros b -> Hc.
  destruct (decide (Forall (fun k => buffer b k = []) all_kinds)) as [Hall|Hn].
  - exists (set_closer b Finished). split; [|done]. apply rtc_once, drained; [done|]. intros k.
    rewrite Forall_forall in Hall. apply Hall, all_kinds_spec.
  - apply not_Forall_Exists in Hn; [|intros k; apply _]. apply Exists_exists in Hn as (k & _ & Hk).
    destruct (buffer b k) as [|m rest] eqn:E; [done|].
    destruct (IH (buffered (take_message b k m rest false))) with (b := take_message b k m rest false)
      as (b' & Hb' & Hf & Hp); [|done|done|].
    + unfold buffered, all_kinds, take_message, upd. simpl.
      destruct k; repeat (first [rewrite decide_True by done | rewrite decide_False by done]); rewrite E; simpl; lia.
    + exists b'. split; [|done]. eapply rtc_l; [by apply drain|done].
Qed.

Lemma closing_finishes remaining b :
  closer b = Closing remaining -> exists b', rtc close_step b b' /\ closer b' = Finished /\ pubs b' = pubs b.
Proof.
  revert b. induction remaining as [|k remaining IH]; intros b Hc.
  - destruct (draining_finishes (set_closer b Draining)) as (b' & Hb' & Hf); [done|]. exists b'.
    split; [|done]. eapply rtc_l; [by apply closing_over|done].
  - set (b1 := mkBus (buffer b) (upd (channel_closed b) k true) (done b) (closed b) (wg b) (pubs b) (Closing remaining)
                 (accepted b) (taken b)).
    destruct (IH b1) as (b' & Hb' & Hf); [done|]. exists b'. split; [|done].
    eapply rtc_l; [by apply close_channel|done].
Qed.

Lemma count_over (l : list (publisher V)) : Forall over l -> count l = 0.
Proof.
  induction 1 as [|p l Hp _ IH]; [done|]. simpl. rewrite IH. unfold over, rank in Hp. unfold counted. by destruct (pc p).
Qed.

(** A step of a publisher or of [Close]: no consumer, no cancelled context. *)
Definition own_step b b' : Prop := pubs_step b b' \/ close_step b b'.

Lemma own_step_step b b' : own_step b b' -> step b b'.
Proof. intros [(i & p & E & Hs)|Hs]; [by eapply step_pub|by apply step_close]. Qed.

Lemma waiting_finishes b :
  inv b -> closer b = AtWait -> Forall over (pubs b) ->
  exists b', rtc close_step b b' /\ closer b' = Finished /\ pubs b' = pubs b.
Proof.
  intros Hi Hc Ho. destruct (closing_finishes all_kinds (set_closer b (Closing all_kinds))) as (b' & Hb' & Hf); [done|].
  exists b'. split; [|done]. eapply rtc_l; [apply wg_wait; [done|]|done]. rewrite (inv_wg b Hi). by apply count_over.
Qed.

Lemma over_finishes b :
  inv b -> close_begun b -> Forall over (pubs b) ->
  exists b', rtc close_step b b' /\ closer b' = Finished /\ pubs b' = pubs b.
Proof.
  intros Hi Hb Ho. destruct (closer b) as [| | |remaining| |] eqn:Hc.
  - by destruct Hb.
  - set (b1 := mkBus (buffer b) (channel_closed b) (done b) true (wg b) (pubs b) AtWait (accepted b) (taken b)).
    assert (Hs : close_step b b1) by by apply store_closed.
    destruct (waiting_finishes b1) as (b' & Hb' & Hf); [by eapply close_step_inv|done|done|].
    exists b'. split; [|done]. by eapply rtc_l.
  - by apply waiting_finishes.
  - by eapply closing_finishes.
  - by apply draining_finishes.
  - by exists b.
Qed.
End Facts.

(** ** Theorems *)

Section Claims.
Context {V : Type}.
Implicit Types (b : MessageBus V).

(** C11: the bus keeps order and loses nothing: whatever publishers,
    consumers and [Close] do, what left a channel and what is still in it are
    together exactly what publishers put in, in that order, each message of a
    publisher whose [publish] succeeded exactly once; a buffer holds at most
    its capacity; and until [Close] has closed the channels everything that
    left went to consumers. *)
Theorem bus_is_fifo b k :
  reachable b ->
  accepted b k = map snd (taken b k) ++ buffer b k /\ accepted b k ≡ₚ omap (sent_to k) (pubs b) /\
  (length (buffer b k) <= capacity k)%nat /\
  (closer b <> Draining -> closer b <> Finished -> Forall (fun x => fst x = true) (taken b k)).
Proof.
  intros [Hf Hc Hs _ _ _ _ _ Hd _]%reachable_inv. split; [done|]. split; [done|]. split; [done|].
  intros H1 H2. destruct (Hd k) as [Hk|Hk]; [|done]. by destruct (closer b).
Qed.

(** C20: [Close] always comes to an end, without any help: from every state in
    which it has begun, the publishers and [Close] alone, with no consumer and
    no context that is cancelled, can bring the bus to the state in which
    [Close] has returned and no publisher waits; and each step that a publisher
    takes brings it nearer to its end, whatever the others do. *)
Theorem Close_returns b :
  reachable b -> close_begun b ->
  (exists b', rtc own_step b b' /\ closer b' = Finished /\ Forall over (pubs b')) /\
  (forall i p b', pubs b !! i = Some p -> pub_step b i p b' ->
     exists p', pubs b' = <[i := p']> (pubs b) /\ (rank p' < rank p)%nat) /\
  (forall i p, pubs b !! i = Some p -> ~ over p -> exists b', pub_step b i p b').
Proof.
  intros Hi%reachable_inv Hb. assert (Hd : done b = true) by by apply (inv_done b Hi).
  split; [|split].
  - destruct (publishers_finish b Hd) as (b1 & Hb1 & Ho & Hd1 & Hc1).
    assert (Hi1 : inv b1).
    { clear -Hi Hb1. induction Hb1 as [|x y z (i & p & E & Hs) _ IH]; [done|]. apply IH. by eapply pub_step_inv. }
    destruct (over_finishes b1 Hi1) as (b2 & Hb2 & Hf & Hp); [unfold close_begun; by rewrite Hc1|done|].
    exists b2. split; [|split; [done|by rewrite Hp]].
    etransitivity; [eapply rtc_subrel; [|exact Hb1]; by left|eapply rtc_subrel; [|exact Hb2]; by right].
  - intros i p b' E Hs. destruct (pub_step_rank b i p b' E Hs) as (p' & Ep & Hr & _). by exists p'.
  - intros i p _ Ho. by apply pub_step_enabled.
Qed.

(** After [Close] has set its flag, a publisher that starts gets
    [ErrBusClosed] and sends nothing, and one that [wg] counts when [Close]
    starts to wait can never meet a closed channel. *)
Theorem late_publishers_are_refused b i p b' :
  reachable b -> closed b = true -> pubs b !! i = Some p -> pub_step b i p b' ->
  (pc p = AtLoad -> b' = set_pub b i (at_pc p (Returned ErrBusClosed)) 0) /\
  (pc p = AtSelect -> closer b = AtWait -> b' <> set_pub b i (at_pc p Panicked) (-1)) /\
  (pc p = AtSelect -> closer b = AtWait -> 0 < wg b).
Proof.
  intros Hi%reachable_inv Hc E Hs. split; [|split].
  - intros Hpc. inversion Hs; congruence.
  - intros Hpc Hw Eb. assert (Hch : channel_closed b (pub_kind p) = false).
    { apply not_true_iff_false. rewrite (channels_at b _ Hi), Hw. tauto. }
    assert (Hp : pubs b' !! i = Some (at_pc p Panicked)).
    { rewrite Eb. simpl. apply list_lookup_insert_eq. by eapply lookup_lt_Some. }
    assert (Hl : (i < length (pubs b))%nat) by by eapply lookup_lt_Some.
    inversion Hs as [| | | | | |? ? ? Ex|? Hx|? ? Ex|? ? Ex|r Hr Ex]; try congruence;
      rewrite <- Ex in Hp; simpl in Hp; rewrite list_lookup_insert_eq in Hp by done; discriminate.
  - intros Hpc _. rewrite (inv_wg b Hi). clear -E Hpc. revert i E. induction (pubs b) as [|q l IH]; intros i E; [done|].
    assert (Hn : forall k : list (publisher V), 0 <= count k).
    { induction k as [|x k IHk]; simpl; [lia|]. assert (0 <= counted x) by (unfold counted; destruct (pc x); lia). lia. }
    simpl. destruct i as [|i]; simplify_eq/=.
    + specialize (Hn l). unfold counted. rewrite Hpc. lia.
    + specialize (IH i E). assert (0 <= counted q) by (unfold counted; destruct (pc q); lia). lia.
Qed.
End Claims.

(** *** A send on a closed channel

    A publisher that has made both checks, but is not yet counted, is not
    waited for: it can meet a closed channel, and panic. *)

Ltac publisher_step c := eapply rtc_l; [eapply (step_pub _ 0%nat); [reflexivity|eapply c; reflexivity]|cbn].
Ltac closer_step c := eapply rtc_l; [apply step_close; eapply c; reflexivity|cbn].

Lemma send_on_closed_channel (m : nat) :
  exists b, reachable b /\ pubs b = [mkPub Inbound m false Panicked].
Proof.
  eexists. split.
  - unfold reachable. eapply rtc_l; [apply (step_publish _ Inbound m)|cbn].
    publisher_step @load_open. publisher_step @check_default.
    closer_step @close_done. closer_step @store_closed. closer_step @wg_wait. closer_step @close_channel.
    publisher_step @wg_add. publisher_step @select_panic. apply rtc_refl.
  - reflexivity.
Qed.

(** *** Examples *)

(** One message is in the buffer when [Close] begins. *)
Lemma demo_bus : exists b : MessageBus nat,
  reachable b /\ close_begun b /\ buffer b Inbound = [7%nat] /\ closed b = true /\
  pubs b = [mkPub Inbound 7%nat false (AtDone Sent); mkPub Outbound 8%nat false AtLoad].
Proof.
  eexists. split.
  - unfold reachable. eapply rtc_l; [apply (step_publish _ Inbound 7%nat)|cbn].
    publisher_step @load_open. publisher_step @check_default. publisher_step @wg_add.
    eapply rtc_l; [eapply (step_pub _ 0%nat); [reflexivity|eapply select_send; [reflexivity|reflexivity|by apply Nat.ltb_lt]]|cbn].
    closer_step @close_done. closer_step @store_closed.
    eapply rtc_l; [apply (step_publish _ Outbound 8%nat)|cbn]. apply rtc_refl.
  - split; [discriminate|]. split; [reflexivity|]. split; reflexivity.
Qed.

Lemma bus_is_fifo_witness : exists b : MessageBus nat, reachable b /\ accepted b Inbound = [7%nat].
Proof.
  destruct demo_bus as (b & Hr & Hc & Hb & _ & Hp). exists b. split; [done|].
  destruct (bus_is_fifo b Inbound Hr) as (Hf & Hs & _). rewrite Hp in Hs. simpl in Hs.
  by apply Permutation_singleton_r in Hs.
Defined.

Lemma Close_returns_witness : exists b b' : MessageBus nat, reachable b /\ buffer b Inbound = [7%nat] /\
  rtc own_step b b' /\ closer b' = Finished.
Proof.
  destruct demo_bus as (b & Hr & Hc & Hb & _). destruct (Close_returns b Hr Hc) as [(b' & Hs & Hf & _) _]. by exists b, b'.
Defined.

Lemma late_publishers_are_refused_witness : exists b : MessageBus nat, reachable b /\
  forall b', pub_step b 1 (mkPub Outbound 8%nat false AtLoad) b' ->
    b' = set_pub b 1 (mkPub Outbound 8%nat false (Returned ErrBusClosed)) 0.
Proof.
  destruct demo_bus as (b & Hr & Hc & Hb & Hcl & Hp). exists b. split; [done|]. intros b' Hs.
  destruct (late_publishers_are_refused b 1 (mkPub Outbound 8%nat false AtLoad) b' Hr Hcl) as [Hl _];
    [by rewrite Hp|done|]. by apply Hl.
Defined.
