(* ===== verification/Transcription.v ===== *)
(** * Audio of messages: [transcribeAudioInMessage] of [src/pkg/agent/loop.go], [src/pkg/utils/media.go]

    The audio files of a message are transcribed in order, and the texts take
    the places of the annotations that the channel has put into the message. The
    transcriber is an argument, files are those of the media store. *)

From S2P Require Import Prelude GoStrings MediaStore.

(** ** Kinds of files *)

Definition audioExtensions : list string := [".mp3"; ".wav"; ".ogg"; ".m4a"; ".flac"; ".aac"; ".wma"].

Definition HasSuffix (s x : string) : bool := l_prefix (rev (chars x)) (rev (chars s)).

Definition IsAudioFile (filename contentType : string) : bool :=
  existsb (HasSuffix (ToLower filename)) audioExtensions ||
  existsb (HasPrefix (ToLower contentType)) ["audio/"; "application/ogg"; "application/x-ogg"].

(** [filepath.Ext]: from the last dot of the last element of the path. *)
Fixpoint ext_rev (acc l : list ascii) : list ascii :=
  match l with
  | [] => []
  | c :: l' =>
      if Ascii.eqb c "/"%char then [] else if Ascii.eqb c "."%char then c :: acc else ext_rev (c :: acc) l'
  end.

Definition Ext (path : string) : string := implode (ext_rev [] (rev (chars path))).

Definition one_of (l : list string) (s : string) : bool := existsb (String.eqb s) l.

Definition inferMediaType (filename contentType : string) : string :=
  let ct := ToLower contentType in
  let fn := ToLower filename in
  if HasPrefix ct "image/" then "image"
  else if HasPrefix ct "audio/" || String.eqb ct "application/ogg" then "audio"
  else if HasPrefix ct "video/" then "video"
  else
    let ext := Ext fn in
    if one_of [".jpg"; ".jpeg"; ".png"; ".gif"; ".webp"; ".bmp"; ".svg"] ext then "image"
    else if one_of [".mp3"; ".wav"; ".ogg"; ".m4a"; ".flac"; ".aac"; ".wma"; ".opus"] ext then "audio"
    else if one_of [".mp4"; ".avi"; ".mov"; ".webm"; ".mkv"] ext then "video"
    else "file".

(** ** Annotations *)

(** The bytes up to the bracket that closes, and with it. *)
Fixpoint to_bracket (l : list ascii) : option nat :=
  match l with
  | [] => None
  | c :: l' => if Ascii.eqb c "]"%char then Some 1%nat else S <$> to_bracket l'
  end.

(** After [voice] or [audio]: the end, or a colon and anything up to it. *)
Definition annotation_end (l : list ascii) : option nat :=
  match l with
  | c :: l' =>
      if Ascii.eqb c "]"%char then Some 1%nat
      else if Ascii.eqb c ":"%char then S <$> to_bracket l' else None
  | [] => None
  end.

(** The length of a match of [audioAnnotationRe] at this place. *)
Definition annotation (l : list ascii) : option nat :=
  if l_prefix (chars "[voice") l || l_prefix (chars "[audio") l then Nat.add 6 <$> annotation_end (drop 6 l) else None.

Definition voice_note (text : string) : string := "[voice: " +:+ text +:+ "]".

(** [ReplaceAllStringFunc] with the function that takes the next text; what is
    left of the texts. [skip] bytes of a match are still to come. *)
Fixpoint replace_annotations (skip : nat) (texts : list string) (l : list ascii) : list ascii * list string :=
  match l with
  | [] => ([], texts)
  | c :: l' =>
      match skip with
      | S skip' => replace_annotations skip' texts l'
      | O =>
          match annotation l with
          | Some n =>
              let (new, texts') :=
                match texts with
                | [] => (take n l, [])
                | text :: texts' => (if String.eqb text "" then take n l else chars (voice_note text), texts')
                end in
              let (out, left_) := replace_annotations (n - 1) texts' l' in
              (new ++ out, left_)
          | None => let (out, left_) := replace_annotations 0 texts l' in (c :: out, left_)
          end
      end
  end.

Fixpoint append_texts (content : string) (texts : list string) : string :=
  match texts with
  | [] => content
  | text :: texts' => append_texts (if String.eqb text "" then content else content +:+ nl +:+ voice_note text) texts'
  end.

Definition new_content (content : string) (texts : list string) : string :=
  let (out, left_) := replace_annotations 0 texts (chars content) in append_texts (implode out) left_.

(** ** Transcription *)

(** What becomes of one reference: a text, and whether it stays. *)
Definition transcribe_ref (store : FileMediaStore) (Transcribe : string -> option string) (ref : string) : option string * bool :=
  match ResolveWithMeta store ref with
  | None => (None, true)
  | Some (path, meta) =>
      if negb (IsAudioFile (Filename meta) (ContentType meta)) then (None, true)
      else match Transcribe path with
           | None => (Some "", true)
           | Some text => (Some text, false)
           end
  end.

(** The texts and the references that are kept. *)
Fixpoint transcribe_media (store : FileMediaStore) (Transcribe : string -> option string) (media : list string) : list string * list string :=
  match media with
  | [] => ([], [])
  | ref :: media' =>
      let (texts, kept) := transcribe_media store Transcribe media' in
      let (text, keep) := transcribe_ref store Transcribe ref in
      (option_list text ++ texts, if keep then ref :: kept else kept)
  end.

(** The new content and media, and the texts; [None] when there is no audio. *)
Definition transcribe (transcriber : option (FileMediaStore * (string -> option string))) (content : string) (media : list string)
    : option (string * list string * list string) :=
  match transcriber, media with
  | None, _ | _, [] => None
  | Some (store, Transcribe), _ =>
      match transcribe_media store Transcribe media with
      | ([], _) => None
      | (texts, kept) => Some (new_content content texts, kept, texts)
      end
  end.

(** What the user is told of it. *)
Definition feedback (EchoTranscription : bool) (texts : list string) : option string :=
  if negb EchoTranscription then None
  else
    match filter (fun t => t <> "") texts with
    | [] => Some "No voice detected in the audio"
    | nonEmpty => Some ("Transcript: " +:+ join nl nonEmpty)
    end.

(** * Theorems *)

Lemma to_bracket_bound l n : to_bracket l = Some n -> (0 < n <= length l)%nat.
Proof.
  revert n; induction l as [|c l IH]; intros n; cbn; [done|]; destruct (Ascii.eqb c "]"%char); [intros [= <-]; lia|].
  destruct (to_bracket l) as [m|]; [|done]; intros [= <-]; specialize (IH m eq_refl); lia.
Qed.

Lemma annotation_bound l n : annotation l = Some n -> (6 < n <= length l)%nat.
Proof.
  unfold annotation; destruct (l_prefix _ l || l_prefix _ l); [|done]; unfold annotation_end.
  pose proof (length_drop l 6) as Hl; destruct (drop 6 l) as [|c r]; [done|]; cbn in Hl.
  destruct (Ascii.eqb c "]"%char); [intros [= <-]; lia|]; destruct (Ascii.eqb c ":"%char); [|done].
  destruct (to_bracket r) as [m|] eqn:E; [|done]; intros [= <-]; apply to_bracket_bound in E; lia.
Qed.

(** The pieces of a text: bytes and annotations. *)
Fixpoint pieces (skip : nat) (l : list ascii) : list (ascii + list ascii) :=
  match l with
  | [] => []
  | c :: l' =>
      match skip with
      | S skip' => pieces skip' l'
      | O => match annotation l with Some n => inr (take n l) :: pieces (n - 1) l' | None => inl c :: pieces 0 l' end
      end
  end.

Definition piece_text (p : ascii + list ascii) : list ascii := match p with inl c => [c] | inr a => a end.
Definition is_annotation (p : ascii + list ascii) : bool := match p with inl _ => false | inr _ => true end.

(** They are the whole text. *)
Lemma pieces_concat skip l : (skip <= length l)%nat -> concat (map piece_text (pieces skip l)) = drop skip l.
Proof.
  revert skip; induction l as [|c l IH]; intros [|skip] Hs; cbn [pieces length] in *; try lia; try done.
  - destruct (annotation (c :: l)) as [n|] eqn:E; cbn [map piece_text concat]; rewrite IH by (try apply annotation_bound in E; cbn in *; lia); [|done].
    apply annotation_bound in E; destruct n as [|n]; [lia|]; cbn; rewrite Nat.sub_0_r, take_drop; done.
  - rewrite IH by lia; done.
Qed.

(** The texts take the places of the annotations, one each. *)
Fixpoint fill (texts : list string) (ps : list (ascii + list ascii)) : list ascii :=
  match ps with
  | [] => []
  | inl c :: ps' => c :: fill texts ps'
  | inr a :: ps' =>
      match texts with
      | [] => a ++ fill [] ps'
      | text :: texts' => (if String.eqb text "" then a else chars (voice_note text)) ++ fill texts' ps'
      end
  end.

Lemma replace_annotations_spec skip texts l :
  replace_annotations skip texts l =
  (fill texts (pieces skip l), drop (length (List.filter is_annotation (pieces skip l))) texts).
Proof.
  revert skip texts; induction l as [|c l IH]; intros skip texts; cbn [replace_annotations pieces]; [done|].
  destruct skip as [|skip]; [|apply IH].
  destruct (annotation (c :: l)) as [n|]; [|rewrite IH; done].
  destruct texts as [|text texts]; rewrite IH; cbn [fill List.filter is_annotation length drop]; [rewrite drop_nil|]; done.
Qed.

(** Only annotations change: without any, and without texts, the content stays. *)
Lemma no_texts_keep_content content : new_content content [] = content.
Proof.
  unfold new_content; rewrite replace_annotations_spec, drop_nil; cbn.
  enough (fill [] (pieces 0 (chars content)) = concat (map piece_text (pieces 0 (chars content)))) as ->.
  { rewrite pieces_concat by lia; cbn; apply string_of_list_ascii_of_string. }
  generalize (pieces 0 (chars content)) as ps; induction ps as [|[c|a] ps IH]; cbn; [done | by rewrite IH | by rewrite IH].
Qed.

(** References and texts: what is not audio stays, what cannot be transcribed
    stays beside an empty text, and only what has become a text is gone. *)
Lemma transcribe_media_spec store Transcribe media :
  let (texts, kept) := transcribe_media store Transcribe media in
  kept = List.filter (fun ref => snd (transcribe_ref store Transcribe ref)) media /\
  texts = concat (map (fun ref => option_list (fst (transcribe_ref store Transcribe ref))) media).
Proof.
  induction media as [|ref media IH]; cbn; [done|]; destruct (transcribe_media store Transcribe media) as [texts kept].
  destruct IH as [-> ->]; destruct (transcribe_ref store Transcribe ref) as [text []]; done.
Qed.

(** A reference is gone only for a text. *)
Lemma dropped_media_are_transcribed store Transcribe media ref texts kept : transcribe_media store Transcribe media = (texts, kept) ->
  ref ∈ media -> ref ∉ kept ->
  exists path meta text, ResolveWithMeta store ref = Some (path, meta) /\ IsAudioFile (Filename meta) (ContentType meta) = true /\
    Transcribe path = Some text /\ text ∈ texts.
Proof.
  intros Ht Hin Hout; pose proof (transcribe_media_spec store Transcribe media) as Hs; rewrite Ht in Hs; destruct Hs as [-> ->].
  destruct (transcribe_ref store Transcribe ref) as [text keep] eqn:E.
  assert (keep = false) as ->.
  { destruct keep; [|done]; contradict Hout; apply list_elem_of_In, filter_In; split; [apply list_elem_of_In; done | rewrite E; done]. }
  assert (forall t, text = Some t -> t ∈ concat (map (fun r => option_list (fst (transcribe_ref store Transcribe r))) media)) as Hc.
  { intros t ->; apply list_elem_of_In, in_concat; exists [t]; split; [|left; done].
    apply in_map_iff; exists ref; rewrite E; split; [done | apply list_elem_of_In; done]. }
  unfold transcribe_ref in E; destruct (ResolveWithMeta store ref) as [[path meta]|]; [|done].
  destruct (IsAudioFile _ _) eqn:Ha; cbn in E; [|done]; destruct (Transcribe path) as [t|] eqn:Hp; [|done].
  injection E as <-; exists path, meta, t; split_and!; try done; apply Hc; done.
Qed.

(** ** Wrong places *)

(** A file that does not resolve gives no text at all, not even an empty one, and
    the text of the next file takes the place of its annotation. *)
Definition demo_store : FileMediaStore :=
  (fun s => mkStore {["m2" := mkMediaEntry "/b.ogg" (mkMeta "b.ogg" "audio/ogg" "" "") 0]}
     (scopeToRefs s) (refToScope s) (refToPath s) (pathStates s)) NewFileMediaStore.

Example text_in_wrong_place :
  transcribe (Some (demo_store, fun _ => Some "hello")) "[voice: a.ogg] and [voice: b.ogg]" ["m1"; "m2"] =
  Some ("[voice: hello] and [voice: b.ogg]", ["m1"], ["hello"]).
Proof. vm_compute. reflexivity. Qed.

(** Silence: the file is gone, and there is no text of it either. *)
Example silent_file_is_gone :
  transcribe (Some (demo_store, fun _ => Some "")) "[voice]" ["m2"] = Some ("[voice]", [], [""]).
Proof. vm_compute. reflexivity. Qed.

(** A voice message of a type that is not named is audio for answers and not for
    transcription. *)
Example opus_is_not_transcribed : IsAudioFile "note.opus" "" = false /\ inferMediaType "note.opus" "" = "audio".
Proof. vm_compute. done. Qed.
