(* ===== verification/Commands.v ===== *)
(** * Commands of users: [src/pkg/commands], [handleCommand] of [src/pkg/agent/loop.go]

    A text that starts with [/] or [!] names a command. The registry has the
    definitions and an index of their names and aliases, the executor finds the
    handler of the command or of its sub-command, and what is not handled goes
    on to the model. Handlers are arguments. *)

From stdpp Require Import gmap.
From S2P Require Import Prelude GoStrings GoLib.
Import GoFields.

(** ** Texts *)

Definition commandPrefixes : list string := ["/"; "!"].

(** [nthToken]: a field of the text, or nothing. *)
Definition nthToken (input : string) (n : nat) : string := default "" (Fields (TrimSpace input) !! n).

Fixpoint trim_prefix (prefixes : list string) (token : string) : option string :=
  match prefixes with
  | [] => None
  | p :: prefixes' => if HasPrefix token p then Some (TrimPrefix token p) else trim_prefix prefixes' token
  end.

Definition trimCommandPrefix (token : string) : option string := trim_prefix commandPrefixes token.

Definition HasCommandPrefix (input : string) : bool :=
  let token := nthToken input 0 in
  if String.eqb token "" then false else bool_decide (is_Some (trimCommandPrefix token)).

Definition normalizeCommandName (name : string) : string := ToLower (TrimSpace name).

Definition parseCommandName (input : string) : option string :=
  let token := nthToken input 0 in
  if String.eqb token "" then None
  else
    match trimCommandPrefix token with
    | None => None
    | Some name =>
        let name := match Index name "@" with Some i => slice_to name i | None => name end in
        let name := normalizeCommandName name in
        if String.eqb name "" then None else Some name
    end.

Definition CommandName (input : string) : option string := parseCommandName input.

(** ** Definitions and the registry *)

Record Request : Type := mkRequest { Channel : string; ChatID : string; SenderID : string; Text : string }.

Section Commands.
Context {W : Type}.

(** A handler changes the world, replies any number of times, and may fail. *)
Definition Handler : Type := Request -> W -> W * list string * option string.

Record SubCommand : Type := mkSub { SubName : string; ArgsUsage : string; SubHandler : option Handler }.

Record Definition_ : Type := mkDef {
  Name : string; Usage : string; Aliases : list string; SubCommands : list SubCommand; Handler_ : option Handler
}.

Definition EffectiveUsage (d : Definition_) : string :=
  match SubCommands d with
  | [] => Usage d
  | subs =>
      let name (sc : SubCommand) := if String.eqb (ArgsUsage sc) "" then SubName sc else SubName sc +:+ " " +:+ ArgsUsage sc in
      "/" +:+ Name d +:+ " [" +:+ join "|" (map name subs) +:+ "]"
  end.

Record Registry : Type := mkRegistry { defs : list Definition_; index : gmap string nat }.

Definition registerCommandName (idx : gmap string nat) (name : string) (defIndex : nat) : gmap string nat :=
  let key := normalizeCommandName name in
  if String.eqb key "" then idx
  else match idx !! key with Some _ => idx | None => <[key := defIndex]> idx end.

Definition register_names (idx : gmap string nat) (names : list string) (defIndex : nat) : gmap string nat :=
  fold_left (fun idx name => registerCommandName idx name defIndex) names idx.

Fixpoint register_all (idx : gmap string nat) (i : nat) (ds : list Definition_) : gmap string nat :=
  match ds with
  | [] => idx
  | d :: ds' => register_all (register_names idx (Name d :: Aliases d) i) (S i) ds'
  end.

Definition NewRegistry (ds : list Definition_) : Registry := mkRegistry ds (register_all ∅ 0 ds).

Definition Lookup_ (r : Registry) (name : string) : option Definition_ :=
  let key := normalizeCommandName name in
  if String.eqb key "" then None else i ← index r !! key; defs r !! i.

(** ** The executor *)

Inductive Outcome : Type := OutcomePassthrough | OutcomeHandled.

Record ExecuteResult : Type := mkResult { outcome : Outcome; command : string; err : option string }.

(** The answers are what the handler has replied, in order. *)
Definition run_handler (h : option Handler) (req : Request) (name : string) (w : W) : W * list string * ExecuteResult :=
  match h with
  | None => (w, [], mkResult OutcomePassthrough name None)
  | Some h => let '(w, replies, e) := h req w in (w, replies, mkResult OutcomeHandled name e)
  end.

Definition executeDefinition (req : Request) (d : Definition_) (w : W) : W * list string * ExecuteResult :=
  match SubCommands d with
  | [] => run_handler (Handler_ d) req (Name d) w
  | subs =>
      let subName := nthToken (Text req) 1 in
      if String.eqb subName "" then (w, ["Usage: " +:+ EffectiveUsage d], mkResult OutcomeHandled (Name d) None)
      else
        match find (fun sc => String.eqb (normalizeCommandName (SubName sc)) (normalizeCommandName subName)) subs with
        | Some sc => run_handler (SubHandler sc) req (Name d) w
        | None => (w, ["Unknown option: " +:+ subName +:+ ". Usage: " +:+ EffectiveUsage d], mkResult OutcomeHandled (Name d) None)
        end
  end.

Definition Execute (reg : option Registry) (req : Request) (w : W) : W * list string * ExecuteResult :=
  match parseCommandName (Text req) with
  | None => (w, [], mkResult OutcomePassthrough "" None)
  | Some cmdName =>
      match reg ≫= fun r => Lookup_ r cmdName with
      | None => (w, [], mkResult OutcomePassthrough cmdName None)
      | Some d => executeDefinition req d w
      end
  end.

(** ** [handleCommand], after the command for skills *)

Definition mapCommandError (command e : string) : string :=
  if String.eqb command "" then "Failed to execute command: " +:+ e else "Failed to execute /" +:+ command +:+ ": " +:+ e.

(** The last reply counts. *)
Definition execute_command (reg : option Registry) (req : Request) (w : W) : W * option string :=
  match reg with
  | None => (w, None)
  | Some _ =>
      let '(w, replies, r) := Execute reg req w in
      match outcome r with
      | OutcomePassthrough => (w, None)
      | OutcomeHandled =>
          (w, Some (match err r with Some e => mapCommandError (command r) e | None => default "" (last replies) end))
      end
  end.

(** * Theorems *)

(** A definition goes by its name and aliases. *)
Definition goes_by (key : string) (d : Definition_) : bool :=
  existsb (fun name => String.eqb (normalizeCommandName name) key) (Name d :: Aliases d).

Fixpoint first_index (key : string) (i : nat) (ds : list Definition_) : option nat :=
  match ds with
  | [] => None
  | d :: ds' => if goes_by key d then Some i else first_index key (S i) ds'
  end.

Lemma registerCommandName_lookup idx name i key : key <> "" ->
  registerCommandName idx name i !! key =
  match idx !! key with Some j => Some j | None => if String.eqb (normalizeCommandName name) key then Some i else None end.
Proof.
  intros Hk; unfold registerCommandName; destruct (String.eqb_spec (normalizeCommandName name) "") as [He|He].
  - rewrite He; destruct (idx !! key); [done|]; destruct (String.eqb_spec "" key); congruence.
  - destruct (String.eqb_spec (normalizeCommandName name) key) as [<-|Hne].
    + destruct (idx !! normalizeCommandName name) eqn:Hi; [done | apply lookup_insert_eq].
    + destruct (idx !! normalizeCommandName name) eqn:Hi; [|rewrite lookup_insert_ne by done]; destruct (idx !! key); done.
Qed.

Lemma register_names_lookup idx names i key : key <> "" ->
  register_names idx names i !! key =
  match idx !! key with Some j => Some j | None => if existsb (fun name => String.eqb (normalizeCommandName name) key) names then Some i else None end.
Proof.
  intros Hk; unfold register_names; revert idx; induction names as [|n names IH]; intros idx; cbn [fold_left existsb].
  - destruct (idx !! key); done.
  - rewrite IH, registerCommandName_lookup by done; destruct (idx !! key); [done|].
    destruct (String.eqb (normalizeCommandName n) key); done.
Qed.

Lemma register_all_lookup ds idx i key : key <> "" ->
  register_all idx i ds !! key = match idx !! key with Some j => Some j | None => first_index key i ds end.
Proof.
  intros Hk; revert idx i; induction ds as [|d ds IH]; intros idx i; cbn [register_all first_index].
  - destruct (idx !! key); done.
  - rewrite IH, register_names_lookup by done; destruct (idx !! key); [done|].
    fold (goes_by key d); destruct (goes_by key d); done.
Qed.

Lemma first_index_find key i ds : (first_index key i ds ≫= fun j => ds !! (j - i)%nat) = find (goes_by key) ds.
Proof.
  assert (forall ds i j, first_index key i ds = Some j -> (i <= j)%nat) as Hge.
  { clear; induction ds as [|d ds IH]; intros i j; cbn [first_index]; [done|]; destruct (goes_by key d); [intros [= ->]; lia|].
    intros Hj; apply IH in Hj; lia. }
  revert i; induction ds as [|d ds IH]; intros i; cbn [first_index find]; [done|].
  destruct (goes_by key d); cbn; [rewrite Nat.sub_diag; done|].
  rewrite <- (IH (S i)); destruct (first_index key (S i) ds) as [j|] eqn:Hj; [|done]; cbn.
  apply Hge in Hj; replace (j - i)%nat with (S (j - S i)) by lia; done.
Qed.

(** Looking up a name in the index is a search for the first definition that goes
    by it: earlier definitions take precedence, with their aliases too. *)
Theorem Lookup_finds_first ds name :
  Lookup_ (NewRegistry ds) name =
  if String.eqb (normalizeCommandName name) "" then None else find (goes_by (normalizeCommandName name)) ds.
Proof.
  unfold Lookup_; cbn [index defs NewRegistry]; destruct (String.eqb_spec (normalizeCommandName name) "") as [He|He]; [done|].
  rewrite register_all_lookup by done; rewrite lookup_empty, <- (first_index_find _ 0).
  destruct (first_index _ _ _) as [j|]; [|done]; cbn; rewrite Nat.sub_0_r; done.
Qed.

(** What no handler takes leaves the world alone. *)
Lemma passthrough_is_silent reg req w w' replies r : Execute reg req w = (w', replies, r) ->
  outcome r = OutcomePassthrough -> w' = w /\ replies = [].
Proof.
  unfold Execute; destruct (parseCommandName (Text req)) as [n|]; [|intros [= <- <- <-]; done].
  destruct (reg ≫= _) as [d|]; [|intros [= <- <- <-]; done]; unfold executeDefinition.
  assert (forall h n, run_handler h req n w = (w', replies, r) -> outcome r = OutcomePassthrough -> w' = w /\ replies = []) as Hh.
  { intros [h|] k; cbn; [destruct (h req w) as [[? ?] ?]; intros [= <- <- <-]; done | intros [= <- <- <-]; done]. }
  destruct (SubCommands d) as [|s subs]; [apply Hh|].
  destruct (String.eqb _ ""); [intros [= <- <- <-]; done|]; destruct (find _ _); [apply Hh | intros [= <- <- <-]; done].
Qed.
End Commands.
Arguments Definition_ : clear implicits.
Arguments Registry : clear implicits.

Example parse_examples :
  parseCommandName "  /Help@my_bot now" = Some "help" /\ parseCommandName "!x" = Some "x" /\
  parseCommandName "/" = None /\ HasCommandPrefix "/" = true /\ parseCommandName "help" = None.
Proof. vm_compute. repeat split. Qed.
