(* ===== verification/AgentRun.v ===== *)
(** * Around a turn: [Run], [processMessage], [Continue] of [src/pkg/agent/loop.go], [steering.go]

    A message of the bus finds its agent and session, is a command or becomes
    the prompt of a turn; messages that wait for the session when the turn is
    over continue it; then the last response is published. Meanwhile another
    goroutine takes messages from the bus for the running turn. A turn itself is
    an argument here ([RunTurn] has it), as are transcription and the handlers
    of commands. The bus is open and takes what these functions publish. *)

From stdpp Require Import gmap.
From S2P Require Import Prelude GoStrings GoLib.
Import GoFields.
From S2P Require Import AgentID SessionKey Route Message Steering MediaStore Transcription Commands.

(** ** Messages *)

Record InboundMessage : Type := mkInbound {
  MsgChannel : string; MsgSenderID : string; MsgChatID : string; MsgContent : string; MsgMedia : list string;
  PeerKind : string; PeerID : string; MsgSessionKey : string; Metadata : gmap string string;
  MsgMessageID : string; MsgDisplayName : string
}.

Record OutboundMessage : Type := mkOutbound { OutChannel : string; OutChatID : string; OutContent : string }.

Record processOptions : Type := mkOptions {
  OptSessionKey : string; OptChannel : string; OptChatID : string; OptSenderID : string; UserMessage : string;
  OptMedia : list string; DefaultResponse : string; EnableSummary : bool; SendResponse : bool;
  InitialSteeringMessages : list Message; SkipInitialSteeringPoll : bool; ForcedSkills : list string;
  (** the message, the one it replies to, the name of the sender, whether texts
      between tool calls may be shown, and the settings of heartbeats *)
  OptMessageID : string; OptReplyTo : string; OptSenderName : string; AllowInterimPicoPublish : bool;
  SuppressToolFeedback : bool; NoHistory : bool
}.

Definition defaultResponse : string :=
  "The model returned an empty response. This may indicate a provider error or token limit.".

Definition IsInternalChannel (channel : string) : bool :=
  String.eqb channel "cli" || String.eqb channel "system" || String.eqb channel "subagent".

(** ** Routing *)

Definition inboundMetadata (msg : InboundMessage) (key : string) : string := default "" (Metadata msg !! key).

Definition extractPeer (msg : InboundMessage) : option RoutePeer :=
  if String.eqb (PeerKind msg) "" then None
  else
    let peerID :=
      if String.eqb (PeerID msg) "" then (if String.eqb (PeerKind msg) "direct" then MsgSenderID msg else MsgChatID msg)
      else PeerID msg in
    Some (mkRoutePeer (PeerKind msg) peerID).

Definition extractParentPeer (msg : InboundMessage) : option RoutePeer :=
  let parentKind := inboundMetadata msg "parent_peer_kind" in
  let parentID := inboundMetadata msg "parent_peer_id" in
  if String.eqb parentKind "" || String.eqb parentID "" then None else Some (mkRoutePeer parentKind parentID).

Definition route_input (msg : InboundMessage) : RouteInput :=
  mkRouteInput (MsgChannel msg) (inboundMetadata msg "account_id") (extractPeer msg) (extractParentPeer msg)
    (inboundMetadata msg "guild_id") (inboundMetadata msg "team_id").

Definition resolveScopeKey (route : ResolvedRoute) (msgSessionKey : string) : string :=
  if negb (String.eqb msgSessionKey "") && HasPrefix msgSessionKey "agent:" then msgSessionKey
  else if String.eqb (RouteChannel route) "cli" && negb (String.eqb msgSessionKey "") then msgSessionKey
  else Route.SessionKey route.

(** What the agent uses of the channel manager: to send a message that replies to
    another, to show a placeholder, to end the typing indicator. *)
Record channelManager (W : Type) : Type := mkManager {
  SendMessage : OutboundMessage -> string -> W -> W;
  SendPlaceholder : string -> string -> W -> W;
  InvokeTypingStop : string -> string -> W -> W
}.

Inductive turn_result : Type :=
| TurnError (e : string)
| TurnAborted
| TurnDone (followUps : list InboundMessage) (finalContent : string).

Section Loop.
Context {W : Type}.

(** What the functions of this file share; the rest of the world is [rest].
    [sentTargets] is what the message tool of each agent has sent in its round. *)
Record world : Type := mkWorld {
  steering : steeringQueue;
  inbound : list InboundMessage;
  outbound : list OutboundMessage;
  sentTargets : gmap string (list (string * string));
  pendingSkills : gmap string (list string);
  rest : W
}.

Definition set_steering (q : steeringQueue) (w : world) : world :=
  mkWorld q (inbound w) (outbound w) (sentTargets w) (pendingSkills w) (rest w).
Definition set_inbound (l : list InboundMessage) (w : world) : world :=
  mkWorld (steering w) l (outbound w) (sentTargets w) (pendingSkills w) (rest w).
Definition publish (channel chatID content : string) (w : world) : world :=
  mkWorld (steering w) (inbound w) (outbound w ++ [mkOutbound channel chatID content]) (sentTargets w) (pendingSkills w) (rest w).
Definition set_sent (x : gmap string (list (string * string))) (w : world) : world :=
  mkWorld (steering w) (inbound w) (outbound w) x (pendingSkills w) (rest w).
Definition set_rest (x : W) (w : world) : world :=
  mkWorld (steering w) (inbound w) (outbound w) (sentTargets w) (pendingSkills w) x.
Definition set_skills (x : gmap string (list string)) (w : world) : world :=
  mkWorld (steering w) (inbound w) (outbound w) (sentTargets w) x (rest w).

(** The configuration, the agents that run, and the agent that an iteration over
    them gives first. *)
Context (cfg : Config) (agents : gset string) (first_agent : option string).

Definition GetAgent (agentID : string) : option string :=
  let id := NormalizeAgentID agentID in if bool_decide (id ∈ agents) then Some id else None.

Definition GetDefaultAgent : option string := if bool_decide ("main" ∈ agents) then Some "main" else first_agent.

Definition resolveMessageRoute (msg : InboundMessage) : result string (ResolvedRoute * string) :=
  let route := ResolveRoute cfg (route_input msg) in
  match (match GetAgent (RouteAgentID route) with Some a => Some a | None => GetDefaultAgent end) with
  | Some agent => Ok (route, agent)
  | None => Err ("no agent available for route (agent_id=" +:+ RouteAgentID route +:+ ")")
  end.

Definition resolveSteeringTarget (msg : InboundMessage) : option (string * string) :=
  if String.eqb (MsgChannel msg) "system" then None
  else match resolveMessageRoute msg with
       | Ok (route, agent) => Some (resolveScopeKey route (MsgSessionKey msg), agent)
       | Err _ => None
       end.

(** ** Audio

    The transcriber with the media store as it finds it, and the channel manager. *)

Context (transcriber : InboundMessage -> option (FileMediaStore * (string -> option string))) (EchoTranscription : bool)
  (manager : option (channelManager W)).

(** What a message becomes, and the texts when it has audio. *)
Definition transcription (msg : InboundMessage) : InboundMessage * option (list string) :=
  match transcribe (transcriber msg) (MsgContent msg) (MsgMedia msg) with
  | None => (msg, None)
  | Some (content, media, texts) =>
      (mkInbound (MsgChannel msg) (MsgSenderID msg) (MsgChatID msg) content media (PeerKind msg) (PeerID msg) (MsgSessionKey msg)
         (Metadata msg) (MsgMessageID msg) (MsgDisplayName msg), Some texts)
  end.

Definition sendTranscriptionFeedback (channel chatID messageID : string) (texts : list string) (w : world) : world :=
  match feedback EchoTranscription texts, manager with
  | Some text, Some m => set_rest (SendMessage _ m (mkOutbound channel chatID text) messageID (rest w)) w
  | _, _ => w
  end.

Definition transcribeAudioInMessage (msg : InboundMessage) (w : world) : world * (InboundMessage * bool) :=
  match transcription msg with
  | (msg', None) => (w, (msg', false))
  | (msg', Some texts) => (sendTranscriptionFeedback (MsgChannel msg) (MsgChatID msg) (MsgMessageID msg) texts w, (msg', true))
  end.

(** ** Taking messages for a running turn *)

(** [requeueInboundMessage]; publishing may fail. *)
Definition requeueInboundMessage (msg : InboundMessage) (ok : bool) (w : world) : world :=
  if ok then publish (MsgChannel msg) (MsgChatID msg) (MsgContent msg) w else w.

Definition enqueueSteeringMessage (scope : string) (msg : Message) (w : world) : world :=
  match pushScope (steering w) scope msg with Some q => set_steering q w | None => w end.

Definition steering_message (msg : InboundMessage) : Message :=
  mkMessage "user" (MsgContent msg) (MsgMedia msg) "" [] [] "".

(** What [drainBusToSteering] does with a message that it has taken, over a
    thread that takes messages itself, and the bus. *)
Definition drain_message (native : Message -> bool) (published : bool)
    (activeScope : string) (msg : InboundMessage) (w : world) : world :=
  match resolveSteeringTarget msg with
  | Some (scope, _) =>
      if String.eqb scope activeScope then
        let '(w, (msg, _)) := transcribeAudioInMessage msg w in
        let m := steering_message msg in
        if native m then w else enqueueSteeringMessage activeScope m w
      else requeueInboundMessage msg published w
  | None => requeueInboundMessage msg published w
  end.

(** All that is there: it waits for the first message and stops when there is
    none left. *)
Fixpoint drain_all (native : Message -> bool) (published : InboundMessage -> bool)
    (activeScope : string) (msgs : list InboundMessage) (w : world) : world :=
  match msgs with
  | [] => w
  | msg :: msgs' => drain_all native published activeScope msgs' (drain_message native (published msg) activeScope msg w)
  end.

Definition drainBusToSteering (native : Message -> bool) (published : InboundMessage -> bool)
    (activeScope : string) (w : world) : world :=
  drain_all native published activeScope (inbound w) (set_inbound [] w).

(** ** Skills for the next message *)

Definition setPendingSkills (sessionKey : string) (skillNames : list string) (w : world) : world :=
  let sessionKey := TrimSpace sessionKey in
  let filtered := filter (fun name => name <> "") (map TrimSpace skillNames) in
  if String.eqb sessionKey "" || bool_decide (filtered = []) then w
  else set_skills (<[sessionKey := filtered]> (pendingSkills w)) w.

Definition takePendingSkills (sessionKey : string) (w : world) : world * list string :=
  let sessionKey := TrimSpace sessionKey in
  if String.eqb sessionKey "" then (w, [])
  else match pendingSkills w !! sessionKey with
       | Some skills => (set_skills (delete sessionKey (pendingSkills w)) w, skills)
       | None => (w, [])
       end.

Definition clearPendingSkills (sessionKey : string) (w : world) : world :=
  let sessionKey := TrimSpace sessionKey in
  if String.eqb sessionKey "" then w else set_skills (delete sessionKey (pendingSkills w)) w.

(** The skills of the agent: the name of one, and all of them. *)
Context (ResolveSkillName : string -> option string) (skill_names : list string).

Definition buildUseCommandHelp : string :=
  match skill_names with
  | [] => "Usage: /use <skill> [message]" +:+ nl +:+ "No installed skills found."
  | _ => "Usage: /use <skill> [message]" +:+ nl +:+ nl +:+ "Installed Skills:" +:+ nl +:+ "- " +:+ join (nl +:+ "- ") skill_names +:+ nl +:+ nl +:+
         "Use /use <skill> to apply a skill to your next message, or /use <skill> <message> to force it immediately."
  end.

Definition commandsUnavailableSkillMessage : string := "Skill selection is unavailable in the current context.".

(** A name in double quotes; names of skills have no character to escape. *)
Definition quoted (s : string) : string := String (ascii_of_nat 34) (s +:+ String (ascii_of_nat 34) "").

Definition with_skill (skill message : string) (o : processOptions) : processOptions :=
  mkOptions (OptSessionKey o) (OptChannel o) (OptChatID o) (OptSenderID o) message (OptMedia o) (DefaultResponse o)
    (EnableSummary o) (SendResponse o) (InitialSteeringMessages o) (SkipInitialSteeringPoll o) (ForcedSkills o ++ [skill])
    (OptMessageID o) (OptReplyTo o) (OptSenderName o) (AllowInterimPicoPublish o) (SuppressToolFeedback o) (NoHistory o).

(** The reply, or the options with which the message goes on; [None] when it is
    not this command. *)
Definition applyExplicitSkillCommand (raw : string) (opts : processOptions) (w : world) : option (world * (string + processOptions)) :=
  match CommandName raw with
  | Some cmdName =>
      if negb (String.eqb cmdName "use") then None
      else
        let parts := Fields (TrimSpace raw) in
        match parts with
        | _ :: arg0 :: message_parts =>
            let arg := TrimSpace arg0 in
            if EqualFold arg "clear" || EqualFold arg "off" then
              Some (clearPendingSkills (OptSessionKey opts) w, inl "Cleared pending skill override.")
            else
              match ResolveSkillName arg with
              | None => Some (w, inl ("Unknown skill: " +:+ arg +:+ nl +:+ "Use /list skills to see installed skills."))
              | Some skillName =>
                  match message_parts with
                  | [] =>
                      if String.eqb (TrimSpace (OptSessionKey opts)) "" then Some (w, inl commandsUnavailableSkillMessage)
                      else Some (setPendingSkills (OptSessionKey opts) [skillName] w,
                             inl ("Skill " +:+ quoted skillName +:+ " is armed for your next message. Send your next prompt normally, or use /use clear to cancel."))
                  | _ =>
                      let message := TrimSpace (join " " message_parts) in
                      if String.eqb message "" then Some (w, inl buildUseCommandHelp)
                      else Some (w, inr (with_skill skillName message opts))
                  end
              end
        | _ => Some (w, inl buildUseCommandHelp)
        end
  | None => None
  end.

Context (reg : option (Registry world)).

(** A reply, or the options to go on with. *)
Definition handleCommand (msg : InboundMessage) (opts : processOptions) (w : world) : world * (string + processOptions) :=
  if negb (HasCommandPrefix (MsgContent msg)) then (w, inr opts)
  else
    match applyExplicitSkillCommand (MsgContent msg) opts w with
    | Some r => r
    | None =>
        let (w, reply) := execute_command reg (mkRequest (MsgChannel msg) (MsgChatID msg) (MsgSenderID msg) (MsgContent msg)) w in
        (w, match reply with Some text => inl text | None => inr opts end)
    end.

(** ** Turns *)

(** A turn, and the file with the last channel, for heartbeats. *)
Context (turn : string -> processOptions -> world -> world * turn_result) (RecordLastChannel : string -> W -> W).

Definition record_channel (opts : processOptions) (w : world) : world :=
  if negb (String.eqb (OptChannel opts) "") && negb (String.eqb (OptChatID opts) "") && negb (IsInternalChannel (OptChannel opts))
  then set_rest (RecordLastChannel (OptChannel opts +:+ ":" +:+ OptChatID opts) (rest w)) w else w.

Definition runAgentLoop (agent : string) (opts : processOptions) (w : world) : world * result string string :=
  let (w, r) := turn agent opts (record_channel opts w) in
  match r with
  | TurnError e => (w, Err e)
  | TurnAborted => (w, Ok "")
  | TurnDone followUps content =>
      let w := set_inbound (inbound w ++ followUps) w in
      let w := if SendResponse opts && negb (String.eqb content "") then publish (OptChannel opts) (OptChatID opts) content w else w in
      (w, Ok content)
  end.

(** The message tool of an agent begins a round. *)
Definition ResetSentInRound (agent : string) (w : world) : world := set_sent (<[agent := []]> (sentTargets w)) w.

Definition HasSentTo (agent channel chatID : string) (w : world) : bool :=
  existsb (fun st => String.eqb (fst st) channel && String.eqb (snd st) chatID) (default [] (sentTargets w !! agent)).

(** [channel:chat_id], or a chat of the command line. *)
Definition origin (chatID : string) : string * string :=
  match Index chatID ":" with
  | Some (S i) => (slice_to chatID (S i), slice_from chatID (S (S i)))
  | _ => ("cli", chatID)
  end.

Definition processSystemMessage (msg : InboundMessage) (w : world) : world * result string string :=
  if negb (String.eqb (MsgChannel msg) "system") then
    (w, Err ("processSystemMessage called with non-system message channel: " +:+ MsgChannel msg))
  else
    let (originChannel, originChatID) := origin (MsgChatID msg) in
    if IsInternalChannel originChannel then (w, Ok "")
    else
      match GetDefaultAgent with
      | None => (w, Err "no default agent for system message")
      | Some agent =>
          runAgentLoop agent
            (mkOptions (BuildAgentMainSessionKey agent) originChannel originChatID ""
               ("[System: " +:+ MsgSenderID msg +:+ "] " +:+ MsgContent msg) [] "Background task completed." false true [] false []
               "" "" "" false false false) w
      end.

Definition message_options (sessionKey : string) (msg : InboundMessage) : processOptions :=
  mkOptions sessionKey (MsgChannel msg) (MsgChatID msg) (MsgSenderID msg) (MsgContent msg) (MsgMedia msg)
    defaultResponse true false [] false [] (MsgMessageID msg) (inboundMetadata msg "reply_to_message_id") (MsgDisplayName msg) true false false.

Definition with_skills (skills : list string) (o : processOptions) : processOptions :=
  mkOptions (OptSessionKey o) (OptChannel o) (OptChatID o) (OptSenderID o) (UserMessage o) (OptMedia o) (DefaultResponse o)
    (EnableSummary o) (SendResponse o) (InitialSteeringMessages o) (SkipInitialSteeringPoll o) (ForcedSkills o ++ skills)
    (OptMessageID o) (OptReplyTo o) (OptSenderName o) (AllowInterimPicoPublish o) (SuppressToolFeedback o) (NoHistory o).

(** Audio of a message becomes text; for audio a placeholder is sent then. *)
Definition hear (msg : InboundMessage) (w : world) : world * InboundMessage :=
  let '(w, (msg, hadAudio)) := transcribeAudioInMessage msg w in
  ((match manager with
    | Some m => if hadAudio then set_rest (SendPlaceholder _ m (MsgChannel msg) (MsgChatID msg) (rest w)) w else w
    | None => w
    end), msg).

Definition processMessage (msg : InboundMessage) (w : world) : world * result string string :=
  let (w, msg) := hear msg w in
  if String.eqb (MsgChannel msg) "system" then processSystemMessage msg w
  else
    match resolveMessageRoute msg with
    | Err e => (w, Err e)
    | Ok (route, agent) =>
        let w := ResetSentInRound agent w in
        let opts := message_options (resolveScopeKey route (MsgSessionKey msg)) msg in
        let (w, r) := handleCommand msg opts w in
        match r with
        | inl response => (w, Ok response)
        | inr opts =>
            let (w, pending) := takePendingSkills (OptSessionKey opts) w in
            runAgentLoop agent (with_skills pending opts) w
        end
    end.

(** A message without a channel, of the command line and of the scheduler;
    [started]: the hooks and the tools of other servers. *)
Definition ProcessDirectWithChannel (started : option string) (content sessionKey channel chatID : string) (w : world)
    : world * result string string :=
  match started with
  | Some e => (w, Err e)
  | None => processMessage (mkInbound channel "cron" chatID content [] "" "" sessionKey ∅ "" "") w
  end.

Definition ProcessDirect (started : option string) (content sessionKey : string) (w : world) : world * result string string :=
  ProcessDirectWithChannel started content sessionKey "cli" "direct" w.

Definition ProcessHeartbeat (started : option string) (content channel chatID : string) (w : world) : world * result string string :=
  match started, GetDefaultAgent with
  | Some e, _ => (w, Err e)
  | None, None => (w, Err "no default agent for heartbeat")
  | None, Some agent =>
      runAgentLoop agent
        (mkOptions "heartbeat" channel chatID "" content [] defaultResponse false false [] false [] "" "" "" false true true) w
  end.

Definition agentForSession (sessionKey : string) : option string :=
  match ParseAgentSessionKey sessionKey with
  | Some parsed => match GetAgent (SessionKey.ParsedAgentID parsed) with Some a => Some a | None => GetDefaultAgent end
  | None => GetDefaultAgent
  end.

(** [Continue]; [active]: the turn that runs, if any. *)
Definition Continue (active started : option string) (sessionKey channel chatID : string) (w : world) : world * result string string :=
  match active, started with
  | Some turnID, _ => (w, Err ("turn " +:+ turnID +:+ " is still active"))
  | None, Some e => (w, Err e)
  | None, None =>
    let (q, msgs) := dequeueScopeWithFallback (steering w) sessionKey in
    let w := set_steering q w in
    match msgs with
    | [] => (w, Ok "")
    | _ =>
        match agentForSession sessionKey with
        | None => (w, Err ("no agent available for session " +:+ quoted sessionKey))
        | Some a =>
            runAgentLoop a (mkOptions sessionKey channel chatID "" "" [] defaultResponse true false msgs true []
              "" "" "" false false false) (ResetSentInRound a w)
        end
    end
  end.

Definition PublishResponseIfNeeded (channel chatID response : string) (w : world) : world :=
  if String.eqb response "" then w
  else
    let alreadySent := match GetDefaultAgent with Some a => HasSentTo a channel chatID w | None => false end in
    if alreadySent then w else publish channel chatID response w.

Definition buildContinuationTarget (msg : InboundMessage) : result string (option (string * string * string)) :=
  if String.eqb (MsgChannel msg) "system" then Ok None
  else let* p := resolveMessageRoute msg in
       Ok (Some (resolveScopeKey (fst p) (MsgSessionKey msg), MsgChannel msg, MsgChatID msg)).

(** ** A message of the bus

    [continue_ n] is the [n]-th call of [Continue], with what has happened
    before it. A loop gives the response that counts so far, or says that the
    function has returned; [None] without fuel. *)

Inductive loop_end : Type := Returned | Left (finalResponse : string).

(** [on_empty]: what the loop does about an empty response: the first returns,
    the second leaves. *)
Fixpoint continue_loop (fuel : nat) (continue_ : nat -> world -> world * result string string) (scope : string) (on_empty : string -> loop_end)
    (n : nat) (finalResponse : string) (w : world) : option (world * nat * loop_end) :=
  match fuel with
  | O => None
  | S fuel' =>
      if (0 <? lenScope (steering w) scope)%nat then
        let (w, r) := continue_ n w in
        match r with
        | Err _ => Some (w, S n, Returned)
        | Ok continued =>
            if String.eqb continued "" then Some (w, S n, on_empty finalResponse)
            else continue_loop fuel' continue_ scope on_empty (S n) continued w
        end
      else Some (w, n, Left finalResponse)
  end.

Definition error_response (e : string) : string := "Error processing message: " +:+ e.

(** What [Run] does with a message: the turn, what continues it while others
    still hand messages over and afterwards, and the response. *)
Definition handle_message (fuel : nat) (continue_ : nat -> world -> world * result string string) (stop_drain : world -> world)
    (msg : InboundMessage) (w : world) : option world :=
  let (w, r) := processMessage msg w in
  let response := match r with Ok response => response | Err e => error_response e end in
  match buildContinuationTarget msg with
  | Err _ => Some w
  | Ok None => Some (PublishResponseIfNeeded (MsgChannel msg) (MsgChatID msg) response w)
  | Ok (Some (scope, channel, chatID)) =>
      match continue_loop fuel continue_ scope (fun _ => Returned) 0 response w with
      | None => None
      | Some (w, _, Returned) => Some w
      | Some (w, n, Left response) =>
          match continue_loop fuel continue_ scope Left n response (stop_drain w) with
          | None => None
          | Some (w, _, Returned) => Some w
          | Some (w, _, Left response) => Some (PublishResponseIfNeeded channel chatID response w)
          end
      end
  end.

(** And the typing indicator ends. *)
Definition Run_message (fuel : nat) (continue_ : nat -> world -> world * result string string) (stop_drain : world -> world)
    (msg : InboundMessage) (w : world) : option world :=
  w ← handle_message fuel continue_ stop_drain msg w;
  Some (match manager with
        | Some m => set_rest (InvokeTypingStop _ m (MsgChannel msg) (MsgChatID msg) (rest w)) w
        | None => w
        end).

(** * Theorems *)

(** ** Messages that arrive during a turn *)

Definition for_scope (activeScope : string) (msg : InboundMessage) : bool :=
  match resolveSteeringTarget msg with Some (scope, _) => String.eqb scope activeScope | None => false end.

Definition echo (msg : InboundMessage) : OutboundMessage := mkOutbound (MsgChannel msg) (MsgChatID msg) (MsgContent msg).

(** A message for the queue of the turn; it is dropped when the queue is full. *)
Definition offer (activeScope : string) (q : steeringQueue) (m : Message) : steeringQueue := default q (pushScope q activeScope m).

Lemma set_rest_same (w : world) : set_rest (rest w) w = w.
Proof. destruct w; done. Qed.

(** Transcription leaves everything of the agent as it is. *)
Lemma transcribe_parts msg w : exists x had, transcribeAudioInMessage msg w = (set_rest x w, (fst (transcription msg), had)).
Proof.
  unfold transcribeAudioInMessage, sendTranscriptionFeedback; destruct (transcription msg) as [msg' [texts|]]; cbn [fst].
  - destruct (feedback EchoTranscription texts) as [text|], manager as [m|]; eauto; exists (rest w), true; rewrite set_rest_same; done.
  - exists (rest w), false; rewrite set_rest_same; done.
Qed.

Lemma hear_parts msg w : exists x, hear msg w = (set_rest x w, fst (transcription msg)).
Proof.
  unfold hear; destruct (transcribe_parts msg w) as (x & had & ->).
  destruct manager as [m|], had; eauto; eexists; cbn; reflexivity.
Qed.

Lemma drain_all_spec native published scope msgs w :
  let w' := drain_all native published scope msgs w in
  inbound w' = inbound w /\
  outbound w' = outbound w ++ map echo (List.filter (fun m => negb (for_scope scope m) && published m) msgs) /\
  steering w' = fold_left (offer scope)
    (List.filter (fun m => negb (native m)) (map (fun m => steering_message (fst (transcription m))) (List.filter (for_scope scope) msgs))) (steering w).
Proof.
  revert w; induction msgs as [|m msgs IH]; intros w; cbn [drain_all]; [cbn; rewrite app_nil_r; done|].
  destruct (IH (drain_message native (published m) scope m w)) as (Hi & Ho & Hs); cbn [drain_all] in *.
  rewrite Hi, Ho, Hs; cbn [List.filter map].
  assert (for_scope scope m = match resolveSteeringTarget m with Some (s, _) => String.eqb s scope | None => false end) as Hf by done.
  unfold drain_message; destruct (resolveSteeringTarget m) as [[s a]|]; [destruct (String.eqb s scope)|]; rewrite Hf; cbn [negb andb List.filter map].
  - destruct (transcribe_parts m w) as (x & had & ->); destruct (native (steering_message (fst (transcription m)))); cbn [negb fold_left]; [done|].
    unfold enqueueSteeringMessage, offer at 3; cbn [steering set_rest]; destruct (pushScope (steering w) scope _); cbn; done.
  - unfold requeueInboundMessage; destruct (published m); cbn; rewrite <- ?app_assoc; done.
  - unfold requeueInboundMessage; destruct (published m); cbn; rewrite <- ?app_assoc; done.
Qed.

(** Messages that the agent takes from the bus while it works on one
    conversation: those of the conversation are offered to its queue, in order;
    all others are sent back to the chat that they come from, as if they were
    answers. None is left to be worked on. *)
Theorem drained_messages native published scope w :
  let w' := drainBusToSteering native published scope w in
  inbound w' = [] /\
  outbound w' = outbound w ++ map echo (List.filter (fun m => negb (for_scope scope m) && published m) (inbound w)) /\
  steering w' = fold_left (offer scope)
    (List.filter (fun m => negb (native m)) (map (fun m => steering_message (fst (transcription m))) (List.filter (for_scope scope) (inbound w)))) (steering w).
Proof.
  destruct (drain_all_spec native published scope (inbound w) (set_inbound [] w)) as (Hi & Ho & Hs).
  split_and!; assumption.
Qed.

(** ** The response *)

(** Nothing is published by turns themselves. *)
Definition silent (f : world -> world * result string string) : Prop := forall w, outbound (fst (f w)) = outbound w.

Lemma continue_loop_silent fuel continue_ scope on_empty n response w w' n' e :
  (forall n, silent (continue_ n)) -> continue_loop fuel continue_ scope on_empty n response w = Some (w', n', e) ->
  outbound w' = outbound w.
Proof.
  intros Hc; revert n response w; induction fuel as [|fuel IH]; intros n response w; cbn [continue_loop]; [done|].
  destruct (0 <? lenScope (steering w) scope)%nat; [|intros [= <- <- <-]; done].
  pose proof (Hc n w) as Hn; destruct (continue_ n w) as [w1 [continued|err]]; cbn [fst] in Hn; [|intros [= <- <- <-]; done].
  destruct (String.eqb continued ""); [intros [= <- <- <-]; done|]; intros Hl; apply IH in Hl; congruence.
Qed.

Lemma publish_if_needed channel chatID response w : let w' := PublishResponseIfNeeded channel chatID response w in
  w' = w \/ response <> "" /\ w' = publish channel chatID response w.
Proof.
  cbn; unfold PublishResponseIfNeeded; destruct (String.eqb_spec response ""); [auto|].
  destruct (match GetDefaultAgent with Some a => HasSentTo a channel chatID w | None => false end); auto.
Qed.

Lemma handle_message_response fuel continue_ stop_drain msg w w' :
  silent (processMessage msg) -> (forall n, silent (continue_ n)) -> (forall w, outbound (stop_drain w) = outbound w) ->
  handle_message fuel continue_ stop_drain msg w = Some w' ->
  outbound w' = outbound w \/
  exists response, response <> "" /\ outbound w' = outbound w ++ [mkOutbound (MsgChannel msg) (MsgChatID msg) response].
Proof.
  intros Hp Hc Hd; unfold handle_message; pose proof (Hp w) as Hw; destruct (processMessage msg w) as [w1 r]; cbn [fst] in Hw.
  rewrite <- Hw; set (response := match r with Ok _ => _ | Err _ => _ end).
  assert (forall w2 text, outbound w2 = outbound w1 -> let w3 := PublishResponseIfNeeded (MsgChannel msg) (MsgChatID msg) text w2 in
    outbound w3 = outbound w1 \/ exists response, response <> "" /\ outbound w3 = outbound w1 ++ [mkOutbound (MsgChannel msg) (MsgChatID msg) response]) as Hpub.
  { intros w2 text H2; destruct (publish_if_needed (MsgChannel msg) (MsgChatID msg) text w2) as [->|[Hne ->]]; [auto|].
    right; exists text; split; [done|]; cbn; rewrite H2; done. }
  unfold buildContinuationTarget; destruct (String.eqb (MsgChannel msg) "system"); [intros [= <-]; apply Hpub; done|].
  destruct (resolveMessageRoute msg) as [[route agent]|]; cbn [result_bind fst]; [|intros [= <-]; auto].
  destruct (continue_loop fuel continue_ _ _ 0 response w1) as [[[w2 n] [|text]]|] eqn:H1; [|intros H2|done].
  { intros [= <-]; left; eapply continue_loop_silent; [exact Hc | exact H1]. }
  assert (outbound w2 = outbound w1) as Hw2 by (eapply continue_loop_silent; [exact Hc | exact H1]).
  destruct (continue_loop fuel continue_ _ Left n text (stop_drain w2)) as [[[w3 n3] [|text3]]|] eqn:H3; [|injection H2 as <-|done].
  - injection H2 as <-; left; rewrite (continue_loop_silent _ _ _ _ _ _ _ _ _ _ Hc H3), Hd; done.
  - apply Hpub; rewrite (continue_loop_silent _ _ _ _ _ _ _ _ _ _ Hc H3), Hd; done.
Qed.

(** However often a message is continued by others, the agent publishes at
    most one response for it, which is not empty and goes to the chat of the
    message. *)
Theorem one_response_for_a_message fuel continue_ stop_drain msg w w' :
  silent (processMessage msg) -> (forall n, silent (continue_ n)) -> (forall w, outbound (stop_drain w) = outbound w) ->
  Run_message fuel continue_ stop_drain msg w = Some w' ->
  outbound w' = outbound w \/
  exists response, response <> "" /\ outbound w' = outbound w ++ [mkOutbound (MsgChannel msg) (MsgChatID msg) response].
Proof.
  intros Hp Hc Hd; unfold Run_message; destruct (handle_message fuel continue_ stop_drain msg w) as [w1|] eqn:E; [|done].
  apply handle_message_response in E; [|done..]; cbn; intros [= <-]; destruct manager; done.
Qed.

Lemma transcription_routing msg : let msg' := fst (transcription msg) in
  MsgChannel msg' = MsgChannel msg /\ MsgChatID msg' = MsgChatID msg /\ resolveMessageRoute msg' = resolveMessageRoute msg /\
  MsgSessionKey msg' = MsgSessionKey msg.
Proof. unfold transcription; destruct (transcribe _ _ _) as [[[content media] texts]|]; done. Qed.

Lemma runAgentLoop_silent agent o : SendResponse o = false -> (forall w, outbound (fst (turn agent o w)) = outbound w) ->
  silent (runAgentLoop agent o).
Proof.
  intros Ho Ht w; unfold runAgentLoop; specialize (Ht (record_channel o w)).
  assert (outbound (record_channel o w) = outbound w) as Hrec by (unfold record_channel; destruct (_ && _); done).
  destruct (turn agent o (record_channel o w)) as [w1 []]; cbn [fst] in *; rewrite ?Ho; cbn; congruence.
Qed.

Lemma applyExplicitSkillCommand_silent raw opts w r : applyExplicitSkillCommand raw opts w = Some r ->
  outbound (fst r) = outbound w /\ forall o, snd r = inr o -> SendResponse o = SendResponse opts.
Proof.
  unfold applyExplicitSkillCommand, clearPendingSkills, setPendingSkills.
  repeat (match goal with |- context [match ?x with _ => _ end] => destruct x end; try done);
    intros [= <-]; split; try done; intros o; cbn; congruence || (intros [= <-]; done).
Qed.

Lemma takePendingSkills_silent k w : outbound (fst (takePendingSkills k w)) = outbound w.
Proof. unfold takePendingSkills; destruct (String.eqb _ ""); [done|]; destruct (pendingSkills w !! _); done. Qed.

(** Without commands and with turns that publish nothing, the work on a message
    publishes nothing. *)
Lemma processMessage_silent msg : reg = None -> MsgChannel msg <> "system" ->
  (forall a o w, outbound (fst (turn a o w)) = outbound w) -> silent (processMessage msg).
Proof.
  intros Hreg Hch Ht w; unfold processMessage; destruct (hear_parts msg w) as (x & ->).
  destruct (transcription_routing msg) as (Hch' & _); set (msg' := fst (transcription msg)) in *.
  destruct (String.eqb_spec (MsgChannel msg') "system"); [congruence|].
  destruct (resolveMessageRoute msg') as [[route agent]|]; [|done].
  set (opts := message_options _ msg'); set (w0 := ResetSentInRound agent (set_rest x w)).
  assert (outbound (fst (handleCommand msg' opts w0)) = outbound w /\
    forall o, snd (handleCommand msg' opts w0) = inr o -> SendResponse o = false) as [Hh Ho].
  { unfold handleCommand; destruct (negb (HasCommandPrefix (MsgContent msg'))); [split; [done | intros o [= <-]; done]|].
    destruct (applyExplicitSkillCommand (MsgContent msg') opts w0) as [r|] eqn:E; [apply applyExplicitSkillCommand_silent in E; done|].
    rewrite Hreg; cbn; split; [done | intros o [= <-]; done]. }
  destruct (handleCommand msg' opts w0) as [w1 [reply|o]]; cbn [fst snd] in *; [done|].
  pose proof (takePendingSkills_silent (OptSessionKey o) w1) as Htake.
  destruct (takePendingSkills (OptSessionKey o) w1) as [w2 pending]; cbn [fst] in Htake.
  rewrite runAgentLoop_silent; [congruence | apply (Ho o eq_refl) | apply Ht].
Qed.

(** Messages that wait for the end of a turn are continued by the agent that
    had it, when the message leaves its session to the route. *)
Theorem continuation_keeps_agent msg route agent : Agents cfg <> [] -> plain_agents cfg ->
  MsgSessionKey msg = "" -> resolveMessageRoute msg = Ok (route, agent) ->
  agentForSession (resolveScopeKey route (MsgSessionKey msg)) = Some agent.
Proof.
  intros Hne Hp Hs Hr; rewrite Hs; unfold resolveScopeKey; cbn [String.eqb negb andb]; rewrite andb_false_r.
  unfold resolveMessageRoute in Hr; destruct (ResolveRoute_agent cfg (route_input msg) Hne Hp) as (_ & _ & rest & Hrest).
  assert (route = ResolveRoute cfg (route_input msg)) as Hroute by (destruct (GetAgent _), GetDefaultAgent; congruence).
  rewrite <- Hroute in *; unfold agentForSession; rewrite Hrest; cbn [ParsedAgentID].
  destruct (GetAgent (RouteAgentID route)); [congruence|]; destruct GetDefaultAgent; congruence.
Qed.

(** When continuing fails or gives nothing, for instance because a sub-turn is
    still active, the response of the first turn is lost. *)
Lemma failed_continuation_drops_response fuel continue_ stop_drain msg w w1 r route agent w2 r2 :
  processMessage msg w = (w1, r) -> MsgChannel msg <> "system" -> resolveMessageRoute msg = Ok (route, agent) ->
  (0 < lenScope (steering w1) (resolveScopeKey route (MsgSessionKey msg)))%nat ->
  continue_ 0%nat w1 = (w2, r2) -> r2 = Ok "" \/ (exists e, r2 = Err e) ->
  handle_message (S fuel) continue_ stop_drain msg w = Some w2.
Proof.
  intros Hp Hs Hr Hl Hc Hr2; unfold handle_message, buildContinuationTarget; rewrite Hp, Hr.
  destruct (String.eqb_spec (MsgChannel msg) "system"); [done|]; cbn [result_bind fst continue_loop].
  rewrite (proj2 (Nat.ltb_lt _ _) Hl), Hc; destruct Hr2 as [->|[e ->]]; done.
Qed.

(** What the default agent has sent to a chat in its last round keeps every other
    agent from answering there. *)
Lemma stale_round_suppresses_answers d a channel chatID response w : GetDefaultAgent = Some d -> a <> d ->
  HasSentTo d channel chatID w = true ->
  PublishResponseIfNeeded channel chatID response (ResetSentInRound a w) = ResetSentInRound a w.
Proof.
  intros Hd Hne Hs; unfold PublishResponseIfNeeded; destruct (String.eqb response ""); [done|]; rewrite Hd.
  unfold HasSentTo, ResetSentInRound in *; cbn [sentTargets set_sent]; rewrite lookup_insert_ne by done; rewrite Hs; done.
Qed.

(** And an agent that has answered with its own tool answers again. *)
Lemma tool_answer_is_repeated d a channel chatID response w : GetDefaultAgent = Some d ->
  HasSentTo a channel chatID w = true -> HasSentTo d channel chatID w = false -> response <> "" ->
  outbound (PublishResponseIfNeeded channel chatID response w) = outbound w ++ [mkOutbound channel chatID response].
Proof.
  intros Hd _ Hn Hr; unfold PublishResponseIfNeeded; destruct (String.eqb_spec response ""); [done|]; rewrite Hd, Hn; done.
Qed.

(** ** Skills *)

(** A skill that is armed goes with the next message of the session and not with
    the one after it. *)
Lemma armed_skill_is_used_once sessionKey skill w : TrimSpace sessionKey <> "" -> TrimSpace skill = skill -> skill <> "" ->
  let (w1, skills1) := takePendingSkills sessionKey (setPendingSkills sessionKey [skill] w) in
  skills1 = [skill] /\ takePendingSkills sessionKey w1 = (w1, []) /\
  forall k, k <> TrimSpace sessionKey -> pendingSkills w1 !! k = pendingSkills w !! k.
Proof.
  intros Hk Hs Hn; unfold setPendingSkills; cbn [map]; rewrite Hs, filter_cons_True, filter_nil by done.
  destruct (String.eqb_spec (TrimSpace sessionKey) ""); [done|]; cbn [orb]; rewrite bool_decide_false by done.
  unfold takePendingSkills; destruct (String.eqb_spec (TrimSpace sessionKey) ""); [done|].
  cbn [pendingSkills set_skills]; rewrite lookup_insert_eq; cbn [pendingSkills set_skills]; rewrite lookup_delete_eq.
  split_and!; try done; intros k Hne; rewrite lookup_delete_ne, lookup_insert_ne by done; done.
Qed.
End Loop.
Arguments world : clear implicits.

(** ** A run *)

Definition demo_cfg : Config := mkConfig [mkAgentConfig "main" true] [] "main" [].
Definition demo_message (channel chat content : string) : InboundMessage := mkInbound channel "u" chat content [] "" "" "" ∅ "" "".
Definition demo_world (l : list InboundMessage) : world unit := mkWorld (newSteeringQueue SteeringAll) l [] ∅ ∅ tt.
Definition demo_turn (agent : string) (o : processOptions) (w : world unit) : world unit * turn_result :=
  (w, TurnDone [] ("re: " +:+ UserMessage o)).

Definition demo_run (msg : InboundMessage) (w : world unit) : option (world unit) :=
  Run_message demo_cfg {["main"]} None (fun _ => None) false None (fun _ => None) [] None demo_turn (fun _ x => x) 5 (fun _ w => (w, Ok "")) (fun w => w) msg w.

Lemma one_response_for_a_message_witness : exists w', demo_run (demo_message "telegram" "7" "hi") (demo_world []) = Some w' /\
  exists response, response <> "" /\ outbound w' = [mkOutbound "telegram" "7" response].
Proof.
  destruct (demo_run (demo_message "telegram" "7" "hi") (demo_world [])) as [w'|] eqn:Hr; [|vm_compute in Hr; discriminate].
  exists w'; split; [reflexivity|].
  destruct (one_response_for_a_message demo_cfg {["main"]} None (fun _ => None) false None (fun _ => None) [] None demo_turn (fun _ x => x) 5 (fun _ w => (w, Ok "")) (fun w => w)
    (demo_message "telegram" "7" "hi") (demo_world []) w') as [H|H].
  - apply processMessage_silent; [reflexivity | discriminate | reflexivity].
  - intros n w; reflexivity.
  - intros w; reflexivity.
  - exact Hr.
  - exfalso; vm_compute in Hr; injection Hr as <-; vm_compute in H; discriminate.
  - exact H.
Defined.

(** A message of another chat comes back to it as if the agent had said it. *)
Example other_chat_gets_echo :
  outbound (drainBusToSteering demo_cfg {["main"]} None (fun _ => None) false None (fun _ => false) (fun _ => true) "some session"
    (demo_world [demo_message "telegram" "8" "please help"])) = [mkOutbound "telegram" "8" "please help"].
Proof. vm_compute. reflexivity. Qed.

(** Two agents; the one of the command line is not the default one. *)
Definition two_cfg : Config :=
  mkConfig [mkAgentConfig "main" true; mkAgentConfig "sales" false]
    [mkAgentBinding "sales" (mkBindingMatch "cli" "*" None "" "")] "main" [].

Lemma continuation_keeps_agent_witness :
  agentForSession {["main"; "sales"]} None
    (resolveScopeKey (ResolveRoute two_cfg (route_input (demo_message "cli" "direct" "hi"))) "") = Some "sales".
Proof.
  apply (continuation_keeps_agent two_cfg {["main"; "sales"]} None (demo_message "cli" "direct" "hi")); try reflexivity.
  - discriminate.
  - intros a [-> | [-> | []%elem_of_nil]%elem_of_cons]%elem_of_cons; discriminate.
Defined.

(** A session that the message names is another matter: the routed agent has the
    turn, the default agent continues it. *)
Example named_session_changes_agent :
  let msg := mkInbound "cli" "u" "direct" "hi" [] "" "" "my-session" ∅ "" "" in
  exists route, resolveMessageRoute two_cfg {["main"; "sales"]} None msg = Ok (route, "sales") /\
    agentForSession {["main"; "sales"]} None (resolveScopeKey route (MsgSessionKey msg)) = Some "main".
Proof.
  cbv zeta; exists (ResolveRoute two_cfg (route_input (demo_message "cli" "direct" "hi"))); split; vm_compute; reflexivity.
Qed.
