(* ===== verification/PromptContext.v ===== *)
(** * The messages of a request: [src/pkg/agent/context.go]

    What is sent to the model: one system message, the history with
    everything a strict provider rejects taken out, and the user's message.
    The static prompt, the text of the active skills, the clock and the name
    of the runtime are arguments; their caching is left out. *)

From S2P Require Import Prelude GoStrings Message.

(** ** The system message *)

Definition formatCurrentSenderLine (senderID senderDisplayName : string) : string :=
  let senderID := TrimSpace senderID in
  let senderDisplayName := TrimSpace senderDisplayName in
  if negb (String.eqb senderDisplayName "") && negb (String.eqb senderID "") then
    "Current sender: " +:+ senderDisplayName +:+ " (ID: " +:+ senderID +:+ ")"
  else if negb (String.eqb senderDisplayName "") then "Current sender: " +:+ senderDisplayName
  else if negb (String.eqb senderID "") then "Current sender: " +:+ senderID
  else "".

(** The time of day and the runtime as they are printed. *)
Definition buildDynamicContext (now_text rt channel chatID senderID senderDisplayName : string) : string :=
  let line := formatCurrentSenderLine senderID senderDisplayName in
  "## Current Time" +:+ nl +:+ now_text +:+ nl +:+ nl +:+ "## Runtime" +:+ nl +:+ rt
  +:+ (if negb (String.eqb channel "") && negb (String.eqb chatID "") then
         nl +:+ nl +:+ "## Current Session" +:+ nl +:+ "Channel: " +:+ channel +:+ nl +:+ "Chat ID: " +:+ chatID
       else "")
  +:+ (if String.eqb line "" then "" else nl +:+ nl +:+ "## Current Sender" +:+ nl +:+ line).

Definition summary_text (summary : string) : string :=
  "CONTEXT_SUMMARY: The following is an approximate summary of prior conversation "
  +:+ "for reference only. It may be incomplete or outdated — always defer to explicit instructions."
  +:+ nl +:+ nl +:+ summary.

Definition system_parts (staticPrompt dynamicCtx skillsText summary : string) : list string :=
  [staticPrompt; dynamicCtx]
  ++ (if String.eqb skillsText "" then [] else [skillsText])
  ++ (if String.eqb summary "" then [] else [summary_text summary]).

Definition content_blocks (parts : list string) : list ContentBlock :=
  match parts with
  | [] => []
  | p :: rest => mkContentBlock "text" p (Some "ephemeral") :: map (fun q => mkContentBlock "text" q None) rest
  end.

Definition system_message (staticPrompt dynamicCtx skillsText summary : string) : Message :=
  let parts := system_parts staticPrompt dynamicCtx skillsText summary in
  mkMessage "system" (join (nl +:+ nl +:+ "---" +:+ nl +:+ nl) parts) [] "" (content_blocks parts) [] "".

(** ** The history *)

Definition is_tool (m : Message) : bool := String.eqb (Role m) "tool".
Definition has_calls (m : Message) : bool := match ToolCalls m with [] => false | _ => true end.
Definition is_call (m : Message) : bool := String.eqb (Role m) "assistant" && has_calls m.

(** The backward scan over tool messages; [kept] is what was kept, last first. *)
Fixpoint found_assistant (kept : list Message) : bool :=
  match kept with
  | [] => false
  | m :: rest => if is_tool m then found_assistant rest else is_call m
  end.

(** Whether the first pass appends a message. *)
Definition first_keeps (kept : list Message) (msg : Message) : bool :=
  if String.eqb (Role msg) "system" then false
  else if is_tool msg then found_assistant kept
  else if is_call msg then
    match kept with
    | [] => false
    | prev :: _ => String.eqb (Role prev) "user" || is_tool prev
    end
  else true.

Fixpoint first_pass (kept : list Message) (history : list Message) : list Message :=
  match history with
  | [] => rev kept
  | msg :: rest => first_pass (if first_keeps kept msg then msg :: kept else kept) rest
  end.

Fixpoint leading_tools (l : list Message) : list Message :=
  match l with
  | m :: rest => if is_tool m then m :: leading_tools rest else []
  | [] => []
  end.

Definition all_found (msg : Message) (following : list Message) : bool :=
  forallb (fun tc => existsb (fun m => String.eqb (ToolCallID m) (CallID tc)) (leading_tools following)) (ToolCalls msg).

(** [skip] messages are passed over without a look; [seen] are the answered
    calls. *)
Fixpoint second_pass (skip : nat) (seen : list string) (l : list Message) : list Message :=
  match l with
  | [] => []
  | msg :: rest =>
      match skip with
      | S k => second_pass k seen rest
      | O =>
          if is_tool msg && negb (String.eqb (ToolCallID msg) "") then
            if existsb (String.eqb (ToolCallID msg)) seen then second_pass O seen rest
            else msg :: second_pass O (ToolCallID msg :: seen) rest
          else if is_call msg && negb (all_found msg rest) then second_pass (length (leading_tools rest)) seen rest
          else msg :: second_pass O seen rest
      end
  end.

Definition sanitizeHistoryForProvider (history : list Message) : list Message :=
  second_pass O [] (first_pass [] history).

(** ** The request *)

Definition user_part (currentMessage : string) (media : list string) : list Message :=
  if negb (String.eqb (TrimSpace currentMessage) "") || match media with [] => false | _ => true end
  then [mkMessage "user" currentMessage media "" [] [] ""] else [].

Definition BuildMessages (staticPrompt dynamicCtx skillsText : string) (history : list Message) (summary currentMessage : string)
    (media : list string) : list Message :=
  system_message staticPrompt dynamicCtx skillsText summary :: sanitizeHistoryForProvider history
  ++ user_part currentMessage media.

(** ** What a strict provider accepts

    Tool messages stand only behind a message with calls, in one run that
    answers every call of it; there is no system message. *)

Inductive strict : list Message -> Prop :=
| strict_nil : strict []
| strict_plain m l : is_call m = false -> is_tool m = false -> Role m <> "system" -> strict l -> strict (m :: l)
| strict_call m tools l :
    is_call m = true -> Forall (fun t => is_tool t = true) tools ->
    (forall tc, tc ∈ ToolCalls m -> exists t, t ∈ tools /\ ToolCallID t = CallID tc) ->
    strict l -> strict (m :: tools ++ l).

(** The numbers of the calls that a history answers. *)
Fixpoint answered_ids (l : list Message) : list string :=
  match l with
  | [] => []
  | m :: rest =>
      if is_tool m && negb (String.eqb (ToolCallID m) "") then ToolCallID m :: answered_ids rest else answered_ids rest
  end.

(** Tool messages stand only in a run behind a message with calls; [open]
    tells whether such a run can go on. *)
Fixpoint grouped (open : bool) (l : list Message) : Prop :=
  match l with
  | [] => True
  | m :: rest => Role m <> "system" /\ if is_tool m then open = true /\ grouped true rest else grouped (is_call m) rest
  end.

(** Whether a run of tool messages can go on behind a list. *)
Fixpoint open_after (open : bool) (l : list Message) : bool :=
  match l with
  | [] => open
  | m :: rest => open_after (if is_tool m then open else is_call m) rest
  end.

Lemma open_after_snoc open l m : open_after open (l ++ [m]) = if is_tool m then open_after open l else is_call m.
Proof. revert open; induction l as [|x l IH]; intros open; simpl; [done | apply IH]. Qed.

Lemma found_assistant_open kept : found_assistant kept = open_after false (rev kept).
Proof. induction kept as [|m kept IH]; simpl; [done|]. by rewrite open_after_snoc, IH. Qed.

Lemma grouped_snoc open l m : grouped open l ->
  Role m <> "system" -> (is_tool m = true -> open_after open l = true) -> grouped open (l ++ [m]).
Proof.
  revert open; induction l as [|x l IH]; intros open HG Hs Ht; simpl in *.
  - split; [done|]. destruct (is_tool m); [by split; [apply Ht|] | done].
  - destruct HG as [Hx HG]. split; [done|]. destruct (is_tool x); [destruct HG as [-> HG]; split; [done|]|]; by apply IH.
Qed.

Lemma first_pass_grouped kept history : grouped false (rev kept) -> grouped false (first_pass kept history).
Proof.
  revert kept; induction history as [|m rest IH]; intros kept HG; simpl; [done|]. apply IH.
  destruct (first_keeps kept m) eqn:E; [|done]. simpl. unfold first_keeps in E.
  destruct (String.eqb_spec (Role m) "system") as [|Hs]; [done|]. apply grouped_snoc; [done..|].
  intros Hm. rewrite Hm in E. by rewrite <- found_assistant_open.
Qed.

Lemma leading_tools_spec l : exists l', l = leading_tools l ++ l' /\ Forall (fun t => is_tool t = true) (leading_tools l) /\
  (forall m k, l' = m :: k -> is_tool m = false).
Proof.
  induction l as [|m l (l' & E & HF & Hd)]; [by exists []|]. simpl. destruct (is_tool m) eqn:Em.
  - exists l'. split; [simpl; by rewrite <- E|]. split; [by constructor | done].
  - exists (m :: l). split; [done|]. split; [constructor|]. by intros ? ? [= <- <-].
Qed.

Lemma grouped_after l l' open : Forall (fun t => is_tool t = true) l -> (forall m k, l' = m :: k -> is_tool m = false) ->
  grouped open (l ++ l') -> grouped false l'.
Proof.
  intros HF Hd. revert open; induction HF as [|m l Hm _ IH]; intros open HG; simpl in *.
  - destruct l' as [|m k]; [done|]. simpl in *. by rewrite (Hd m k eq_refl) in *.
  - rewrite Hm in HG. by eapply IH, HG.
Qed.

Lemma answered_ids_app l k : answered_ids (l ++ k) = answered_ids l ++ answered_ids k.
Proof. induction l as [|m l IH]; simpl; [done|]. case_match; simpl; by rewrite IH. Qed.

Lemma answered_ids_elem l t : t ∈ l -> is_tool t = true -> ToolCallID t <> "" -> ToolCallID t ∈ answered_ids l.
Proof.
  intros Hin Ht Hid. induction l as [|m l IH]; [set_solver|]. cbn [answered_ids]. apply elem_of_cons in Hin as [->|Hin].
  - rewrite Ht. rewrite (proj2 (String.eqb_neq _ _)) by done. by left.
  - case_match; [right|]; by apply IH.
Qed.

Lemma answered_ids_nonempty l : "" ∉ answered_ids l.
Proof.
  induction l as [|m l IH]; simpl; [set_solver|]. destruct (is_tool m); simpl; [|done].
  destruct (String.eqb_spec (ToolCallID m) ""); simpl; [done|]. apply not_elem_of_cons. split; [congruence|done].
Qed.

Lemma second_pass_skip seen l k n : length l = n -> second_pass n seen (l ++ k) = second_pass O seen k.
Proof. revert n; induction l as [|m l IH]; intros [|n] Hn; simpl in *; try done. apply IH. lia. Qed.

(** What is left of a run of tool messages, and the answered calls after it. *)
Fixpoint fresh_tools (seen : list string) (tools : list Message) : list Message * list string :=
  match tools with
  | [] => ([], seen)
  | t :: rest =>
      if String.eqb (ToolCallID t) "" then let '(l, s) := fresh_tools seen rest in (t :: l, s)
      else if existsb (String.eqb (ToolCallID t)) seen then fresh_tools seen rest
      else let '(l, s) := fresh_tools (ToolCallID t :: seen) rest in (t :: l, s)
  end.

Lemma tool_no_call t : is_tool t = true -> is_call t = false.
Proof. unfold is_call, is_tool. by intros ->%String.eqb_eq. Qed.

Lemma existsb_seen x seen : existsb (String.eqb x) seen = bool_decide (x ∈ seen).
Proof.
  induction seen as [|y seen IH]; [done|]. cbn [existsb]. rewrite IH. destruct (String.eqb_spec x y) as [->|Hne].
  - cbn. symmetry. apply bool_decide_true. by left.
  - cbn. apply bool_decide_ext. rewrite elem_of_cons. naive_solver.
Qed.

Lemma second_pass_tools seen tools k : Forall (fun t => is_tool t = true) tools ->
  second_pass O seen (tools ++ k) = (fresh_tools seen tools).1 ++ second_pass O (fresh_tools seen tools).2 k.
Proof.
  intros HF. revert seen; induction HF as [|t tools Ht HF IH]; intros seen; simpl; [done|].
  rewrite Ht, (tool_no_call t Ht). simpl. destruct (String.eqb (ToolCallID t) ""); simpl.
  - rewrite IH. by destruct (fresh_tools seen tools).
  - destruct (existsb _ seen); [apply IH|]. rewrite IH. by destruct (fresh_tools _ tools).
Qed.

Lemma fresh_tools_seen seen tools x : Forall (fun t => is_tool t = true) tools ->
  x ∈ (fresh_tools seen tools).2 <-> x ∈ seen \/ x ∈ answered_ids tools.
Proof.
  intros HF. revert seen; induction HF as [|t tools Ht HF IH]; intros seen; simpl; [set_solver|]. rewrite Ht, existsb_seen. simpl.
  destruct (String.eqb_spec (ToolCallID t) "") as [E|E]; simpl.
  - specialize (IH seen). by destruct (fresh_tools seen tools).
  - case_bool_decide as Hin; [rewrite IH; set_solver|].
    specialize (IH (ToolCallID t :: seen)). destruct (fresh_tools _ tools). simpl in *. rewrite IH. set_solver.
Qed.

Lemma fresh_tools_all seen tools : Forall (fun t => is_tool t = true) tools ->
  Forall (fun t => is_tool t = true) (fresh_tools seen tools).1.
Proof.
  intros HF. revert seen; induction HF as [|t tools Ht HF IH]; intros seen; simpl; [constructor|].
  destruct (String.eqb _ _); [|destruct (existsb _ _); [done|]].
  - specialize (IH seen). destruct (fresh_tools seen tools). by constructor.
  - specialize (IH (ToolCallID t :: seen)). destruct (fresh_tools _ tools). by constructor.
Qed.

(** A call that was answered still is, unless it was before the run. *)
Lemma fresh_tools_answer seen tools t : t ∈ tools -> ToolCallID t ∉ seen \/ ToolCallID t = "" ->
  exists t', t' ∈ (fresh_tools seen tools).1 /\ ToolCallID t' = ToolCallID t.
Proof.
  revert seen; induction tools as [|u tools IH]; intros seen Hin Hs; [set_solver|]. simpl. rewrite existsb_seen.
  destruct (String.eqb_spec (ToolCallID u) "") as [E|E]; [|case_bool_decide as Hu].
  - pose proof (IH seen) as IH'. destruct (fresh_tools seen tools) as [l s]. cbn [fst] in *.
    apply elem_of_cons in Hin as [->|Hin]; [exists u; split; [by left|done]|].
    destruct (IH' Hin Hs) as (t' & H1 & H2). exists t'. split; [by right|done].
  - apply elem_of_cons in Hin as [->|Hin]; [by destruct Hs|]. by apply IH.
  - pose proof (IH (ToolCallID u :: seen)) as IH'. destruct (fresh_tools _ tools) as [l s]. cbn [fst] in *.
    destruct (decide (ToolCallID t = ToolCallID u)) as [Eu|Hne]; [exists u; split; [by left|done]|].
    apply elem_of_cons in Hin as [->|Hin]; [done|]. destruct (IH' Hin) as (t' & H1 & H2).
    { destruct Hs as [Hs|Hs]; [left|by right]. rewrite elem_of_cons. naive_solver. }
    exists t'. split; [by right|done].
Qed.

(** ** Answers that stand together

    Results for the same call stand in one run, if there are several. *)

Definition after_run (l : list Message) : list Message := drop (length (leading_tools l)) l.

Fixpoint together (l : list Message) : Prop :=
  match l with
  | [] => True
  | m :: rest => (is_tool m = true -> ToolCallID m <> "" -> ToolCallID m ∉ answered_ids (after_run rest)) /\ together rest
  end.

Lemma answered_sublist l k : l `sublist_of` k -> answered_ids l ⊆ answered_ids k.
Proof. induction 1 as [|m l k _ IH|m l k _ IH]; simpl; [done| |]; case_match; set_solver. Qed.

Lemma after_run_answered l : answered_ids (after_run l) ⊆ answered_ids l.
Proof. apply answered_sublist, sublist_drop. Qed.

Lemma after_run_sublist l k : l `sublist_of` k -> answered_ids (after_run l) ⊆ answered_ids (after_run k).
Proof.
  induction 1 as [|m l k Hl IH|m l k Hl IH]; [done|unfold after_run; cbn [leading_tools]..];
    (destruct (is_tool m) eqn:Em; [cbn [length drop]; exact IH|]); cbn [length drop].
  - apply answered_sublist. by constructor.
  - etransitivity; [apply after_run_answered|]. apply answered_sublist. by constructor.
Qed.

Lemma together_sublist l k : l `sublist_of` k -> together k -> together l.
Proof.
  induction 1 as [|m l k Hl IH|m l k Hl IH]; simpl; [done| |by intros [_ ?%IH]]. intros [Hm Hk%IH]. split; [|done].
  intros Ht Hid Hin. apply (Hm Ht Hid). by eapply after_run_sublist.
Qed.

Lemma after_run_app tools k : Forall (fun t => is_tool t = true) tools -> (forall m l, k = m :: l -> is_tool m = false) ->
  after_run (tools ++ k) = k.
Proof.
  intros HF Hk. unfold after_run. induction HF as [|t tools Ht HF IH]; cbn [app leading_tools].
  - destruct k as [|m l]; [done|]. simpl. by rewrite (Hk m l eq_refl).
  - rewrite Ht. exact IH.
Qed.

Lemma together_run tools k : Forall (fun t => is_tool t = true) tools -> (forall m l, k = m :: l -> is_tool m = false) ->
  together (tools ++ k) -> together k /\ forall x, x ∈ answered_ids tools -> x ∉ answered_ids k.
Proof.
  intros HF Hk. induction HF as [|t tools Ht HF IH]; simpl; [intros HT; split; [done|set_solver]|].
  intros [Hm HT%IH]. destruct HT as [HT1 HT2]. split; [done|]. rewrite Ht. simpl.
  destruct (String.eqb_spec (ToolCallID t) "") as [E|E]; simpl; [done|].
  intros x [->|Hx]%elem_of_cons; [|by apply HT2]. specialize (Hm Ht E). by rewrite after_run_app in Hm.
Qed.

(** Then the second pass leaves what a strict provider accepts. *)
Lemma second_pass_strict n l seen : (length l <= n)%nat -> grouped false l -> together l ->
  (forall x, x ∈ answered_ids l -> x ∉ seen) -> "" ∉ seen -> strict (second_pass O seen l).
Proof.
  revert l seen; induction n as [|n IH]; intros [|m l] seen Hn HG HT Hd He; simpl in Hn; try lia; [constructor..|].
  cbn [second_pass grouped answered_ids together] in *. destruct HG as [Hs HG], HT as [_ HT].
  destruct (is_tool m) eqn:Em; [by destruct HG|]. simpl in Hd |- *.
  destruct (leading_tools_spec l) as (l' & E & HF & Hhead).
  destruct (is_call m) eqn:Ec; simpl; [|constructor; [done..|]; apply IH; [lia|done..]].
  rewrite E in HG. assert (HG' := grouped_after _ _ _ HF Hhead HG).
  assert (Hlen : (length l' <= n)%nat) by (rewrite E, length_app in Hn; lia).
  rewrite E in HT, Hd. apply together_run in HT as [HT' Hdis]; [|done..].
  assert (Hd' : forall x, x ∈ answered_ids (leading_tools l) \/ x ∈ answered_ids l' -> x ∉ seen).
  { intros x Hx. apply Hd. rewrite answered_ids_app. by apply elem_of_app. }
  destruct (all_found m l) eqn:Ea; simpl.
  - rewrite E at 1. rewrite second_pass_tools by done.
    apply strict_call; [done|by apply fresh_tools_all| |].
    + intros tc Htc. unfold all_found in Ea. rewrite forallb_forall in Ea. apply list_elem_of_In in Htc. specialize (Ea tc Htc).
      apply existsb_exists in Ea as (t & Ht%list_elem_of_In & HE%String.eqb_eq). rewrite <- HE. apply fresh_tools_answer; [done|].
      destruct (decide (ToolCallID t = "")) as [|Hne]; [by right|]. left. apply Hd'. left.
      apply (answered_ids_elem _ t); [done| |done]. rewrite Forall_forall in HF. by apply HF.
    + apply IH; [done..| |].
      * intros x Hx. rewrite fresh_tools_seen by done. intros [Hin|Hin]; [by apply (Hd' x); [right|]|by apply (Hdis x)].
      * rewrite fresh_tools_seen by done. intros [?|Hin]; [done|]. by apply answered_ids_nonempty in Hin.
  - rewrite E at 2. rewrite second_pass_skip by done. apply IH; [done..| |done]. intros x Hx. apply Hd'. by right.
Qed.

(** What the passes do to every history. *)
Lemma first_pass_sublist kept history : first_pass kept history `sublist_of` rev kept ++ history.
Proof.
  revert kept; induction history as [|m rest IH]; intros kept; simpl; [by rewrite app_nil_r|].
  etransitivity; [apply IH|]. destruct (first_keeps kept m); simpl; [by rewrite <- app_assoc|].
  apply sublist_app; [done|]. by constructor.
Qed.

Lemma grouped_head open l : (forall m k, l = m :: k -> is_tool m = false) -> grouped false l -> grouped open l.
Proof. destruct l as [|m l]; [done|]. intros Hh. simpl. by rewrite (Hh m l eq_refl). Qed.

Lemma second_pass_grouped n l seen open : (length l <= n)%nat -> grouped open l -> grouped open (second_pass O seen l).
Proof.
  revert l seen open; induction n as [|n IH]; intros [|m l] seen open Hn HG; simpl in Hn; try lia; [done..|].
  cbn [second_pass]. cbn [grouped] in HG. destruct HG as [Hs HG]. destruct (is_tool m) eqn:Em.
  - rewrite (tool_no_call m Em). cbn [andb]. destruct HG as [-> HG].
    destruct (String.eqb _ _); [|destruct (existsb _ _)]; cbn [negb grouped]; rewrite ?Em; auto with lia.
  - cbn [andb]. destruct (is_call m) eqn:Ec; cbn [andb]; [destruct (all_found m l); cbn [negb]|];
      try (cbn [grouped]; rewrite Em, ?Ec; split; [done|]; apply IH; [lia|done]).
    destruct (leading_tools_spec l) as (l' & E & HF & Hhead). rewrite E at 2. rewrite second_pass_skip by done.
    apply IH; [rewrite E, length_app in Hn; lia|]. rewrite E in HG. by apply grouped_head, (grouped_after _ _ _ HF Hhead HG).
Qed.

Lemma second_pass_once n seen l :
  NoDup (answered_ids (second_pass n seen l)) /\ forall x, x ∈ answered_ids (second_pass n seen l) -> x ∉ seen.
Proof.
  revert n seen; induction l as [|m l IH]; intros n seen; [simpl; split; [constructor|set_solver]|].
  cbn [second_pass]. destruct n as [|n]; [|apply IH].
  destruct (is_tool m && negb (String.eqb (ToolCallID m) "")) eqn:Et.
  - rewrite existsb_seen. case_bool_decide as Hin; [apply IH|]. cbn [answered_ids]. rewrite Et.
    destruct (IH O (ToolCallID m :: seen)) as [H1 H2]. split.
    + constructor; [|done]. intros Hx. apply (H2 _ Hx). by left.
    + intros x [->|Hx]%elem_of_cons; [done|]. intros Hs. apply (H2 _ Hx). by right.
  - destruct (is_call m && _); [apply IH|]. cbn [answered_ids]. rewrite Et. apply IH.
Qed.

(** C21: What is left of a history for the provider never has a system message,
    has tool messages only in the run behind a message with calls, and no two
    that answer the same call. When all results that the history has for a call
    stand in one run, every call that is left is answered in the run behind its
    message, as strict providers demand. *)
Theorem sanitize_strict history :
  (grouped false (sanitizeHistoryForProvider history) /\ NoDup (answered_ids (sanitizeHistoryForProvider history))) /\
  (together history -> strict (sanitizeHistoryForProvider history)).
Proof.
  unfold sanitizeHistoryForProvider. pose proof (first_pass_grouped [] history I) as HG. split; [split|].
  - by eapply second_pass_grouped.
  - apply second_pass_once.
  - intros HT. eapply second_pass_strict; [done|done| |set_solver|set_solver].
    eapply together_sublist; [apply first_pass_sublist|done].
Qed.

Definition demo_calls (id : string) : Message :=
  mkMessage "assistant" "" [] "" [] [mkToolCall id "function" (Some (mkFunctionCall "ls" "{}" "")) "ls" "" None] "".
Definition demo_answer (id text : string) : Message := mkMessage "tool" text [] "" [] [] id.

(** A call that was interrupted, its successor with two copies of its result, and
    a stray answer. *)
Lemma sanitize_strict_witness :
  let history := [text_message "system" "old"; text_message "user" "a"; demo_calls "c1"; text_message "user" "b";
                  demo_calls "c2"; demo_answer "c2" "x"; demo_answer "c2" "x"; text_message "assistant" "done"; demo_answer "c3" "y"] in
  strict (sanitizeHistoryForProvider history) /\
  sanitizeHistoryForProvider history
  = [text_message "user" "a"; text_message "user" "b"; demo_calls "c2"; demo_answer "c2" "x"; text_message "assistant" "done"].
Proof.
  intros history. assert (HT : together history).
  { unfold history. cbn [together]. split_and!; try exact I; intros Ht _; try discriminate Ht; decide_now. }
  split; [exact (proj2 (sanitize_strict history) HT) | reflexivity].
Defined.

(** Providers that number the calls of each answer from the start repeat
    numbers: the second answer is taken for a copy of the first, and its call
    is sent without an answer. *)
Lemma repeated_number_unanswered :
  sanitizeHistoryForProvider
    [text_message "user" "a"; demo_calls "call_0"; demo_answer "call_0" "x"; text_message "assistant" "done";
     text_message "user" "b"; demo_calls "call_0"; demo_answer "call_0" "y"]
  = [text_message "user" "a"; demo_calls "call_0"; demo_answer "call_0" "x"; text_message "assistant" "done";
     text_message "user" "b"; demo_calls "call_0"].
Proof. reflexivity. Qed.

(** ** Histories that need no repair *)

(** Every message with calls follows a message of the user or a tool, and is
    answered by the run behind it. *)
Fixpoint in_order (prev : option Message) (l : list Message) : Prop :=
  match l with
  | [] => True
  | m :: rest =>
      (is_call m = true -> (exists p, prev = Some p /\ (Role p = "user" \/ is_tool p = true)) /\ all_found m rest = true) /\
      in_order (Some m) rest
  end.

Lemma first_pass_id kept l : grouped (open_after false (rev kept)) l -> in_order (head kept) l -> first_pass kept l = rev kept ++ l.
Proof.
  revert kept; induction l as [|m l IH]; intros kept HG HO; simpl; [by rewrite app_nil_r|].
  simpl in HG, HO. destruct HG as [Hs HG], HO as [Hc HO].
  assert (Hk : first_keeps kept m = true).
  { unfold first_keeps. destruct (String.eqb_spec (Role m) "system"); [done|].
    destruct (is_tool m); [by rewrite found_assistant_open; destruct HG|].
    destruct (is_call m) eqn:Ec; [|done]. destruct (Hc eq_refl) as [(p & Hp & Hr) _]. destruct kept as [|q kept]; [done|].
    injection Hp as ->. by destruct Hr as [-> | ->]; [|rewrite orb_true_r]. }
  rewrite Hk. rewrite IH; simpl; [by rewrite <- app_assoc | | done].
  rewrite open_after_snoc. by destruct (is_tool m); [destruct HG as [-> ?]|].
Qed.

Lemma second_pass_id l prev seen : in_order prev l -> NoDup (answered_ids l) -> (forall x, x ∈ answered_ids l -> x ∉ seen) ->
  second_pass O seen l = l.
Proof.
  revert prev seen; induction l as [|m l IH]; intros prev seen HO HN Hd; simpl; [done|]. simpl in HO, HN, Hd.
  destruct HO as [Hc HO]. destruct (is_tool m && negb (String.eqb (ToolCallID m) "")) eqn:Et.
  - apply NoDup_cons in HN as [Hnin HN].
    destruct (existsb (String.eqb (ToolCallID m)) seen) eqn:Ex.
    { apply existsb_exists in Ex as (y & Hy%list_elem_of_In & HE%String.eqb_eq). exfalso. apply (Hd y); [rewrite HE; by left | done]. }
    f_equal. eapply IH; [done..|]. intros x Hx. apply not_elem_of_cons. split; [congruence|]. by apply Hd; right.
  - destruct (is_call m) eqn:Ec; simpl; [destruct (Hc eq_refl) as [_ ->]; simpl|]; f_equal; by eapply IH.
Qed.

(** A history that follows the rules is sent as it is. *)
Lemma sanitize_id history :
  NoDup (answered_ids history) -> grouped false history -> in_order None history ->
  sanitizeHistoryForProvider history = history.
Proof.
  intros HN HG HO. unfold sanitizeHistoryForProvider. rewrite first_pass_id by done. simpl.
  by eapply second_pass_id; [exact HO | done | set_solver].
Qed.
