(* ===== verification/AgentTurn.v ===== *)
(** * One turn of the agent: [src/pkg/agent/turn.go], [tool_exec_shared.go],
    [interactive_tool_exec.go] and [runTurn] of [loop.go]

    A turn talks to the model, runs the tools that it asks for and writes both
    into the session, until the model answers without a tool, while users
    steer and interrupt it. Everything outside the turn is an argument: the
    model (a dialogue, because a model may call tools while it answers), the
    tools, the hooks, the context manager, the session store, the clock, and
    the other goroutines ([env]): before each look at shared state they do
    what [env] says for that time. Events, logging, streaming, reasoning
    output, tool feedback and the settings of interactive threads are left
    out. *)

From S2P Require Import Prelude Effects GoStrings Message Session ContextManager Steering Hooks PromptContext.

(** ** The model *)

(** The JSON text of the parameters is in place of the parameters. *)
Record ToolDefinition : Type := mkDef { DefName : string; DefDescription : string; DefParameters : string }.

Section Types.
Context {Args : Type}.

(** A call as the provider decodes it: [Arguments] is a map that may be nil. *)
Record RespCall : Type := mkRespCall { Encoded : ToolCall; CallArguments : option Args }.

Record LLMResponse : Type := mkResponse {
  RespContent : string;
  RespReasoningContent : string;
  RespCalls : list RespCall
}.

Record llm_error : Type := mkLLMError { ErrorText : string; IsCanceled : bool; IsDeadline : bool }.

Record InteractiveToolCall : Type := mkInteractive { InterID : string; InterName : string; InterArgs : Args }.
Record InteractiveToolResult : Type := mkInterResult { Success : bool; ContentItems : list string }.

(** A call of the model: it answers, or calls a tool and goes on with what
    that gives (an error is a text). *)
Inductive dialogue : Type :=
| Reply (r : result llm_error LLMResponse)
| CallTool (call : InteractiveToolCall) (k : result string InteractiveToolResult -> dialogue).
End Types.
Arguments RespCall : clear implicits.
Arguments LLMResponse : clear implicits.
Arguments InteractiveToolCall : clear implicits.
Arguments dialogue : clear implicits.

(** ** Tools, for the loop *)

Class ToolBox (R Args : Type) := {
  ToProviderDefs : R -> list ToolDefinition;
  has_tool : R -> string -> bool;
  ExecuteWithContext : nat -> R -> string -> Args -> R * ToolResult;
  TickTTL : R -> R
}.

(** ** The state of a turn *)

Inductive TurnPhase : Type :=
| TurnPhaseSetup | TurnPhaseRunning | TurnPhaseTools | TurnPhaseFinalizing | TurnPhaseCompleted | TurnPhaseAborted.

(** [pendingResults]: no channel, or its buffer and whether it is closed.
    [parentEnded] is what the turn tells its children, [parentFlag] what its
    parent tells it; [ctxDone] tells whether its context is cancelled. *)
Record turnState : Type := mkTurn {
  phase : TurnPhase;
  iteration : Z;
  turnFinal : string;
  gracefulInterrupt : bool;
  gracefulInterruptHint : string;
  gracefulTerminalUsed : bool;
  hardAbort : bool;
  restorePointHistory : list Message;
  restorePointSummary : string;
  persistedMessages : list Message;
  pendingResults : option (list (option ToolResult) * bool);
  parentEnded : bool;
  parentFlag : bool;
  isFinished : bool;
  initialHistoryLength : nat;
  ctxDone : bool
}.

Definition set_phase (p : TurnPhase) (t : turnState) : turnState :=
  mkTurn p (iteration t) (turnFinal t) (gracefulInterrupt t) (gracefulInterruptHint t) (gracefulTerminalUsed t)
    (hardAbort t) (restorePointHistory t) (restorePointSummary t) (persistedMessages t) (pendingResults t)
    (parentEnded t) (parentFlag t) (isFinished t) (initialHistoryLength t) (ctxDone t).
Definition set_iteration (n : Z) (t : turnState) : turnState :=
  mkTurn (phase t) n (turnFinal t) (gracefulInterrupt t) (gracefulInterruptHint t) (gracefulTerminalUsed t)
    (hardAbort t) (restorePointHistory t) (restorePointSummary t) (persistedMessages t) (pendingResults t)
    (parentEnded t) (parentFlag t) (isFinished t) (initialHistoryLength t) (ctxDone t).
Definition set_final (c : string) (t : turnState) : turnState :=
  mkTurn (phase t) (iteration t) c (gracefulInterrupt t) (gracefulInterruptHint t) (gracefulTerminalUsed t)
    (hardAbort t) (restorePointHistory t) (restorePointSummary t) (persistedMessages t) (pendingResults t)
    (parentEnded t) (parentFlag t) (isFinished t) (initialHistoryLength t) (ctxDone t).
Definition set_graceful (hint : string) (t : turnState) : turnState :=
  mkTurn (phase t) (iteration t) (turnFinal t) true hint (gracefulTerminalUsed t) (hardAbort t)
    (restorePointHistory t) (restorePointSummary t) (persistedMessages t) (pendingResults t) (parentEnded t)
    (parentFlag t) (isFinished t) (initialHistoryLength t) (ctxDone t).
Definition markGracefulTerminalUsed (t : turnState) : turnState :=
  mkTurn (phase t) (iteration t) (turnFinal t) (gracefulInterrupt t) (gracefulInterruptHint t) true (hardAbort t)
    (restorePointHistory t) (restorePointSummary t) (persistedMessages t) (pendingResults t) (parentEnded t)
    (parentFlag t) (isFinished t) (initialHistoryLength t) (ctxDone t).
(** The contexts are cancelled with it. *)
Definition set_hard (t : turnState) : turnState :=
  mkTurn (phase t) (iteration t) (turnFinal t) (gracefulInterrupt t) (gracefulInterruptHint t)
    (gracefulTerminalUsed t) true (restorePointHistory t) (restorePointSummary t) (persistedMessages t)
    (pendingResults t) (parentEnded t) (parentFlag t) (isFinished t) (initialHistoryLength t) true.
Definition captureRestorePoint (h : list Message) (s : string) (t : turnState) : turnState :=
  mkTurn (phase t) (iteration t) (turnFinal t) (gracefulInterrupt t) (gracefulInterruptHint t)
    (gracefulTerminalUsed t) (hardAbort t) h s (persistedMessages t) (pendingResults t) (parentEnded t) (parentFlag t)
    (isFinished t) (initialHistoryLength t) (ctxDone t).
Definition recordPersistedMessage (m : Message) (t : turnState) : turnState :=
  mkTurn (phase t) (iteration t) (turnFinal t) (gracefulInterrupt t) (gracefulInterruptHint t)
    (gracefulTerminalUsed t) (hardAbort t) (restorePointHistory t) (restorePointSummary t)
    (persistedMessages t ++ [m]) (pendingResults t) (parentEnded t) (parentFlag t) (isFinished t)
    (initialHistoryLength t) (ctxDone t).
Definition set_results (r : option (list (option ToolResult) * bool)) (t : turnState) : turnState :=
  mkTurn (phase t) (iteration t) (turnFinal t) (gracefulInterrupt t) (gracefulInterruptHint t)
    (gracefulTerminalUsed t) (hardAbort t) (restorePointHistory t) (restorePointSummary t) (persistedMessages t) r
    (parentEnded t) (parentFlag t) (isFinished t) (initialHistoryLength t) (ctxDone t).
Definition set_ended (own parent : bool) (t : turnState) : turnState :=
  mkTurn (phase t) (iteration t) (turnFinal t) (gracefulInterrupt t) (gracefulInterruptHint t)
    (gracefulTerminalUsed t) (hardAbort t) (restorePointHistory t) (restorePointSummary t) (persistedMessages t)
    (pendingResults t) (parentEnded t || own) (parentFlag t || parent) (isFinished t) (initialHistoryLength t)
    (ctxDone t).
Definition set_finished (cancelled : bool) (t : turnState) : turnState :=
  mkTurn (phase t) (iteration t) (turnFinal t) (gracefulInterrupt t) (gracefulInterruptHint t)
    (gracefulTerminalUsed t) (hardAbort t) (restorePointHistory t) (restorePointSummary t) (persistedMessages t)
    (pendingResults t) (parentEnded t) (parentFlag t) true (initialHistoryLength t) (ctxDone t || cancelled).

(** The new state, and whether the request was taken. *)
Definition requestGracefulInterrupt (hint : string) (t : turnState) : turnState * bool :=
  if hardAbort t then (t, false) else (set_graceful hint t, true).

Definition requestHardAbort (t : turnState) : turnState * bool :=
  if hardAbort t then (t, false) else (set_hard t, true).

Definition gracefulInterruptRequested (t : turnState) : bool := gracefulInterrupt t && negb (gracefulTerminalUsed t).

Definition interruptHintMessage (t : turnState) : Message :=
  let content := "Interrupt requested. Stop scheduling tools and provide a short final summary." in
  text_message "user"
    (if String.eqb (gracefulInterruptHint t) "" then content
     else content +:+ nl +:+ nl +:+ "Interrupt hint: " +:+ gracefulInterruptHint t).

(** The longest common tail, from size [n] downwards. *)
Fixpoint matching_tail (n : nat) (history persisted : list Message) : nat :=
  match n with
  | O => O
  | Datatypes.S k =>
      if decide (drop (length history - n) history = drop (length persisted - n) persisted) then n
      else matching_tail k history persisted
  end.

Definition matchingTurnMessageTail (history persisted : list Message) : nat :=
  matching_tail (Nat.min (length history) (length persisted)) history persisted.

(** [Finish]: [cascade] tells whether the turn has a cancel function, as only
    a sub-turn has. *)
Definition Finish (cascade isHardAbort isRoot : bool) (t : turnState) : turnState :=
  let t := set_results (match pendingResults t with Some (buf, _) => Some (buf, true) | None => None end) t in
  let t := if negb isHardAbort && isRoot then set_ended true false t else t in
  set_finished cascade t.
