(* ===== verification/SubTurn.v ===== *)
(** * Sub-turns: [src/pkg/agent/subturn.go], [Finish] of [turn.go]

    Tools spawn turns of their own, in any number of goroutines. A call of
    [spawnSubTurn] is a small machine: it waits for a slot of its parent, is
    checked, registers a child, lets it run, gives the slot back, delivers the
    result of an asynchronous child, and cleans up. Calls, polling parents and
    turns that finish interleave in any way. What a child does while it runs is
    not seen here ([RunTurn] has that); it ends with a result or panics. *)

From stdpp Require Import gmap list_numbers.
From S2P Require Import Prelude GoStrings Message Session.

(** ** Configuration *)

Record SubTurnConfigFile : Type := mkConfig {
  MaxDepth : Z; MaxConcurrent : Z; ConcurrencyTimeoutSec : Z; DefaultTimeoutMinutes : Z; DefaultTokenBudget : Z
}.

Record subTurnRuntimeConfig : Type := mkRuntime {
  maxDepth : Z; maxConcurrent : Z; concurrencyTimeout : duration; defaultTimeout : duration; defaultTokenBudget : Z
}.

Definition defaultMaxSubTurnDepth : Z := 3.
Definition defaultMaxConcurrentSubTurns : Z := 5.
Definition defaultConcurrencyTimeout : duration := 30 * Second.
Definition defaultSubTurnTimeout : duration := 5 * Minute.

(** [n] units as a [time.Duration], which wraps around. *)
Definition times (n unit : Z) : duration := wrap64 (n * unit).

Definition getSubTurnConfig (cfg : SubTurnConfigFile) : subTurnRuntimeConfig :=
  let or_default (v d : Z) := if v <=? 0 then d else v in
  mkRuntime (or_default (MaxDepth cfg) defaultMaxSubTurnDepth)
    (or_default (MaxConcurrent cfg) defaultMaxConcurrentSubTurns)
    (or_default (times (ConcurrencyTimeoutSec cfg) Second) defaultConcurrencyTimeout)
    (or_default (times (DefaultTimeoutMinutes cfg) Minute) defaultSubTurnTimeout)
    (DefaultTokenBudget cfg).

Section SubTurns.
(** Results of turns. *)
Context {V : Type} `{EqDecision V}.

(** ** Turns and calls *)

(** Of [turnState] what sub-turns use. [concurrencySem]: the capacity of the
    semaphore, if there is one, and [taken] what is taken of it;
    [pendingResults]: the channel of results, each with the call it is from;
    [al]: whether the turn knows the agent loop. *)
Record turn : Type := mkTurn {
  depth : Z;
  parentTurnState : option nat;
  concurrencySem : option Z;
  taken : nat;
  isFinished : bool;
  parentEnded : bool;
  pendingResults : option (list (nat * option V));
  childTurnIDs : list nat;
  al : bool
}.

Inductive failure : Type := DepthLimit | InvalidConfig | ConcurrencyTimeout | Canceled.

(** Where a call is. [slot]: it holds a slot of the parent. A result is nil
    after a panic. *)
Inductive place : Type :=
| Waiting
| Checking (slot : bool)
| Registered (slot : bool) (child : nat)
| Running (slot : bool) (child : nat)
| Cleaning (slot : bool) (child : nat) (r : option V)
| Sending (slot : bool) (child : nat) (r : option V)
| Closing (slot : bool) (child : nat) (r : option V)
| Returned (child : nat) (r : option V)
| Rejected (why : failure).

Record call : Type := mkCall { parent : nat; model : string; async : bool; pc : place }.

Record world : Type := mkWorld {
  turns : list turn;
  activeTurnStates : gset nat;
  calls : list call;
  polled : list (nat * (nat * option V));
  orphans : list (nat * option V)
}.

Definition set_turn (t : nat) (x : turn) (w : world) : world :=
  mkWorld (<[t := x]> (turns w)) (activeTurnStates w) (calls w) (polled w) (orphans w).

Definition set_pc (i : nat) (c : call) (p : place) (w : world) : world :=
  mkWorld (turns w) (activeTurnStates w) (<[i := mkCall (parent c) (model c) (async c) p]> (calls w)) (polled w) (orphans w).

Definition with_taken (n : nat) (x : turn) : turn :=
  mkTurn (depth x) (parentTurnState x) (concurrencySem x) n (isFinished x) (parentEnded x) (pendingResults x) (childTurnIDs x) (al x).
Definition with_pending (p : option (list (nat * option V))) (x : turn) : turn :=
  mkTurn (depth x) (parentTurnState x) (concurrencySem x) (taken x) (isFinished x) (parentEnded x) p (childTurnIDs x) (al x).
Definition with_child (c : nat) (x : turn) : turn :=
  mkTurn (depth x) (parentTurnState x) (concurrencySem x) (taken x) (isFinished x) (parentEnded x) (pendingResults x) (childTurnIDs x ++ [c]) (al x).

(** Receive from the semaphore. *)
Definition release (slot : bool) (x : turn) : turn :=
  if slot then with_taken (Nat.pred (taken x)) x else x.

(** A turn that is started by [runAgentLoop]: [newTurnState] sets nothing of
    what is here. *)
Definition root_turn : turn := mkTurn 0 None None 0 false false None [] false.

Definition resultCapacity : Z := 16.

(** The parent that a tool outside of any turn gets. *)
Definition adhoc_turn : turn := mkTurn 0 None (Some 5) 0 false false (Some []) [] false.

(** The turn of a child, from [newTurnState] and what is set afterwards. *)
Definition child_turn (cfg : subTurnRuntimeConfig) (t : nat) (x : turn) : turn :=
  mkTurn (depth x + 1) (Some t) (Some (maxConcurrent cfg)) 0 false false (Some []) [] true.

(** An event of a result that nobody gets; there is none for nil. *)
Definition add_orphan (i : nat) (r : option V) (w : world) : world :=
  mkWorld (turns w) (activeTurnStates w) (calls w) (polled w)
    (orphans w ++ match r with Some _ => [(i, r)] | None => [] end).

(** ** [Finish]: the flag is set and the channels are closed; a hard abort
    reaches the children that are active *)

Definition finished_turn (isHardAbort : bool) (x : turn) : turn :=
  mkTurn (depth x) (parentTurnState x) (concurrencySem x) (taken x) true
    (parentEnded x || (negb isHardAbort && bool_decide (parentTurnState x = None)))
    (pendingResults x) (childTurnIDs x) (al x).

(** Children come after their parents, so that there are no more calls in a
    row than turns. *)
Fixpoint Finish (fuel : nat) (isHardAbort : bool) (active : gset nat) (t : nat) (ts : list turn) : list turn :=
  match fuel with
  | O => ts
  | S fuel' =>
      match ts !! t with
      | None => ts
      | Some x =>
          let ts := <[t := finished_turn isHardAbort x]> ts in
          if isHardAbort && al x
          then fold_left (fun ts c => if bool_decide (c ∈ active) then Finish fuel' true active c ts else ts) (childTurnIDs x) ts
          else ts
      end
  end.

(** [HardAbort]; the session is rolled back by it too, see [TurnSession]. *)
Definition HardAbort (t : nat) (w : world) : world :=
  mkWorld (Finish (length (turns w)) true (activeTurnStates w) t (turns w)) (activeTurnStates w) (calls w) (polled w) (orphans w).

(** [dequeuePendingSubTurnResults]: everything that is there, without nil. *)
Definition dequeuePendingSubTurnResults (t : nat) (ts : list turn) : list V * list turn :=
  match ts !! t with
  | Some x =>
      match pendingResults x with
      | Some buf => (omap snd buf, <[t := with_pending (Some []) x]> ts)
      | None => ([], ts)
      end
  | None => ([], ts)
  end.

(** [IsParentEnded] *)
Definition IsParentEnded (ts : list turn) (x : turn) : bool :=
  match parentTurnState x with
  | None => false
  | Some p => match ts !! p with Some y => parentEnded y | None => false end
  end.

(** ** Steps *)

Context (cfg : subTurnRuntimeConfig).

Inductive step (w : world) : world -> Prop :=
(** A turn begins: [runTurn] registers it, a tool outside of any turn does not. *)
| step_root :
    step w (mkWorld (turns w ++ [root_turn]) ({[length (turns w)]} ∪ activeTurnStates w) (calls w) (polled w) (orphans w))
| step_adhoc :
    step w (mkWorld (turns w ++ [adhoc_turn]) (activeTurnStates w) (calls w) (polled w) (orphans w))
(** [clearActiveTurn] when a turn ends. *)
| step_clear t x : turns w !! t = Some x -> depth x = 0 ->
    step w (mkWorld (turns w) (activeTurnStates w ∖ {[t]}) (calls w) (polled w) (orphans w))
(** [spawnSubTurn] is called. *)
| step_call t m a : (t < length (turns w))%nat ->
    step w (mkWorld (turns w) (activeTurnStates w) (calls w ++ [mkCall t m a Waiting]) (polled w) (orphans w))
| step_no_semaphore i c x : calls w !! i = Some c -> pc c = Waiting -> turns w !! parent c = Some x -> concurrencySem x = None ->
    step w (set_pc i c (Checking false) w)
| step_acquire i c x k : calls w !! i = Some c -> pc c = Waiting -> turns w !! parent c = Some x -> concurrencySem x = Some k ->
    Z.of_nat (taken x) < k ->
    step w (set_pc i c (Checking true) (set_turn (parent c) (with_taken (S (taken x)) x) w))
| step_timeout i c x k e : calls w !! i = Some c -> pc c = Waiting -> turns w !! parent c = Some x -> concurrencySem x = Some k ->
    e = ConcurrencyTimeout \/ e = Canceled ->
    step w (set_pc i c (Rejected e) w)
| step_reject i c x slot e : calls w !! i = Some c -> pc c = Checking slot -> turns w !! parent c = Some x ->
    (maxDepth cfg <= depth x /\ e = DepthLimit \/ depth x < maxDepth cfg /\ model c = "" /\ e = InvalidConfig) ->
    step w (set_pc i c (Rejected e) (set_turn (parent c) (release slot x) w))
(** The child is stored in [activeTurnStates]. *)
| step_register i c x slot : calls w !! i = Some c -> pc c = Checking slot -> turns w !! parent c = Some x ->
    depth x < maxDepth cfg -> model c <> "" ->
    step w (set_pc i c (Registered slot (length (turns w)))
      (mkWorld (turns w ++ [child_turn cfg (parent c) x]) ({[length (turns w)]} ∪ activeTurnStates w) (calls w) (polled w) (orphans w)))
(** The parent gets to know it. *)
| step_link i c x slot child : calls w !! i = Some c -> pc c = Registered slot child -> turns w !! parent c = Some x ->
    step w (set_pc i c (Running slot child) (set_turn (parent c) (with_child child x) w))
(** [runTurn] is over, and has cleared the turn: the slot is given back at once. *)
| step_run i c x slot child v : calls w !! i = Some c -> pc c = Running slot child -> turns w !! parent c = Some x ->
    step w (set_pc i c (Cleaning false child (Some v))
      (mkWorld (<[parent c := release slot x]> (turns w)) (activeTurnStates w ∖ {[child]}) (calls w) (polled w) (orphans w)))
(** It panics: the slot is kept until the end. *)
| step_panic i c slot child : calls w !! i = Some c -> pc c = Running slot child ->
    step w (set_pc i c (Cleaning slot child None)
      (mkWorld (turns w) (activeTurnStates w ∖ {[child]}) (calls w) (polled w) (orphans w)))
(** [deliverSubTurnResult] *)
| step_sync i c slot child r : calls w !! i = Some c -> pc c = Cleaning slot child r -> async c = false ->
    step w (set_pc i c (Closing slot child r) w)
| step_late i c x slot child r : calls w !! i = Some c -> pc c = Cleaning slot child r -> async c = true ->
    turns w !! parent c = Some x -> (isFinished x = true \/ pendingResults x = None) ->
    step w (set_pc i c (Closing slot child r) (add_orphan i r w))
| step_deliver i c x slot child r : calls w !! i = Some c -> pc c = Cleaning slot child r -> async c = true ->
    turns w !! parent c = Some x -> isFinished x = false -> is_Some (pendingResults x) ->
    step w (set_pc i c (Sending slot child r) w)
(** [Finish] sets the flag before it closes the channel: a send can still come
    in between. *)
| step_send i c x buf slot child r : calls w !! i = Some c -> pc c = Sending slot child r ->
    turns w !! parent c = Some x -> pendingResults x = Some buf -> Z.of_nat (length buf) < resultCapacity ->
    step w (set_pc i c (Closing slot child r) (set_turn (parent c) (with_pending (Some (buf ++ [(i, r)])) x) w))
(** The parent has finished meanwhile: both of its channels are closed, and the
    send panics or the other case is chosen. *)
| step_send_late i c x slot child r : calls w !! i = Some c -> pc c = Sending slot child r ->
    turns w !! parent c = Some x -> isFinished x = true ->
    step w (set_pc i c (Closing slot child r) (add_orphan i r w))
(** The deferred calls. *)
| step_close i c x slot child r : calls w !! i = Some c -> pc c = Closing slot child r -> turns w !! parent c = Some x ->
    step w (set_pc i c (Returned child r)
      (mkWorld (<[parent c := release slot x]> (turns w)) (activeTurnStates w ∖ {[child]}) (calls w) (polled w) (orphans w)))
(** A turn polls, for one result ([runTurn]) or, which is many such steps, for
    all of them; somebody aborts a turn that is active. *)
| step_poll t x i r buf : turns w !! t = Some x -> pendingResults x = Some ((i, r) :: buf) ->
    step w (mkWorld (<[t := with_pending (Some buf) x]> (turns w)) (activeTurnStates w) (calls w) (polled w ++ [(t, (i, r))]) (orphans w))
| step_abort t : t ∈ activeTurnStates w -> step w (HardAbort t w).

Definition initial : world := mkWorld [] ∅ [] [] [].

Definition reachable (w : world) : Prop := star step initial w.

(** * What holds of every turn *)

Implicit Types (w : world) (x : turn) (c : call) (p : place).

(** Roots have neither limits nor a channel of results, and do not know the
    agent loop. *)
Definition root_like (x : turn) : Prop :=
  parentTurnState x = None /\ depth x = 0 /\ al x = false /\
  (concurrencySem x = None /\ pendingResults x = None \/ concurrencySem x = Some 5 /\ is_Some (pendingResults x)).

Definition child_like (x : turn) : Prop :=
  is_Some (parentTurnState x) /\ 0 < depth x <= maxDepth cfg /\ al x = true /\
  concurrencySem x = Some (maxConcurrent cfg) /\ is_Some (pendingResults x).

Definition turn_ok (x : turn) : Prop :=
  (root_like x \/ child_like x) /\ parentEnded x = false /\
  (forall k, concurrencySem x = Some k -> Z.of_nat (taken x) <= k) /\
  (forall buf, pendingResults x = Some buf -> Z.of_nat (length buf) <= resultCapacity).

(** An abort only marks turns as finished. *)
Definition marked (x y : turn) : Prop := y = x \/ y = finished_turn true x.

#[local] Instance marked_refl : Reflexive marked.
Proof. intros x; left; done. Qed.

#[local] Instance marked_trans : Transitive marked.
Proof.
  intros x y z [->| ->] [->| ->]; [left | right | right | right]; try done.
  unfold finished_turn; cbn; rewrite !orb_false_r; done.
Qed.

Lemma Finish_marked fuel active t ts : Forall2 marked ts (Finish fuel true active t ts).
Proof.
  revert t ts; induction fuel as [|fuel IH]; intros t ts; cbn; [done|].
  destruct (ts !! t) as [x|] eqn:Hx; [|done].
  assert (Forall2 marked ts (<[t := finished_turn true x]> ts)) as Hts.
  { rewrite <- (list_insert_id ts t x Hx) at 1; apply Forall2_insert; [done | right; done]. }
  destruct (al x); cbn; [|done]; revert Hts; generalize (<[t := finished_turn true x]> ts).
  induction (childTurnIDs x) as [|c cs IHcs]; intros l Hl; cbn; [done|].
  apply IHcs; case_bool_decide; [|done]; etransitivity; [exact Hl | apply IH].
Qed.

Lemma Finish_forall (P : turn -> Prop) fuel active t ts :
  (forall x, P x -> P (finished_turn true x)) -> Forall P ts -> Forall P (Finish fuel true active t ts).
Proof.
  intros HP Hts; apply Forall_lookup; intros d y Hy.
  destruct (Forall2_lookup_r _ _ _ _ _ (Finish_marked fuel active t ts) Hy) as (x & Hx & Hm).
  pose proof (Forall_lookup_1 _ _ _ _ Hts Hx); destruct Hm as [->| ->]; auto.
Qed.

Lemma turn_ok_taken x n : turn_ok x -> (forall k, concurrencySem x = Some k -> Z.of_nat n <= k) -> turn_ok (with_taken n x).
Proof. intros (Hk & He & _ & Hb) Hn; repeat split; done. Qed.

Lemma turn_ok_release b x : turn_ok x -> turn_ok (release b x).
Proof.
  destruct b; [|done]; intros Hx; apply turn_ok_taken; [done|]; intros k Hk.
  destruct Hx as (_ & _ & Ht & _); specialize (Ht k Hk); lia.
Qed.

Lemma turn_ok_pending x buf : turn_ok x -> is_Some (pendingResults x) -> Z.of_nat (length buf) <= resultCapacity ->
  turn_ok (with_pending (Some buf) x).
Proof.
  intros (Hk & He & Ht & _) [old Hold] Hbuf; repeat split; try done; [|cbn; intros ? [= <-]; done].
  destruct Hk as [(? & ? & ? & [[_ ?]|[]])|(? & [] & ? & ? & _)]; [congruence | left | right];
    repeat split; try done; right; eauto.
Qed.

Lemma turn_ok_child n x : turn_ok x -> turn_ok (with_child n x).
Proof. intros (Hk & He & Ht & Hb); repeat split; done. Qed.

Lemma turn_ok_finished x : turn_ok x -> turn_ok (finished_turn true x).
Proof.
  intros (Hk & He & Ht & Hb); repeat split; try done.
  cbn; rewrite He; done.
Qed.


Lemma turns_ok w : 0 < maxDepth cfg -> 0 < maxConcurrent cfg -> reachable w -> Forall turn_ok (turns w).
Proof.
  intros Hdep Hcon Hr.
  refine (star_invariant step (fun w => Forall turn_ok (turns w)) _ _ _ Hr _); [|constructor].
  clear w Hr; intros w w' Hok Hst.
  assert (forall t x, turns w !! t = Some x -> turn_ok x) as Hl by (intros t x; apply Forall_lookup_1; done).
  destruct Hst; cbn; try done;
    try (apply Forall_insert; [done | eauto using turn_ok_release, turn_ok_child; fail]).
  - apply Forall_app; split; [done|]; constructor; [|done].
    repeat split; [left; repeat split; left; done | cbn; discriminate..].
  - apply Forall_app; split; [done|]; constructor; [|done].
    repeat split; [left; repeat split; right; eauto | cbn; intros ? [= <-]; done..].
  - apply Forall_insert; [done|]; apply turn_ok_taken; [eauto|]; intros k' Hk'.
    assert (k' = k) by congruence; lia.
  - apply Forall_app; split; [done|]; constructor; [|done].
    assert (0 <= depth x) by (destruct (Hl (parent c) x) as [[(?&?&?)|(?&?&?)] _]; [done | lia..]).
    repeat split; [right; repeat split; cbn; eauto; lia | cbn; intros ? [= <-]; cbn; try lia; done..].
  - apply Forall_insert; [done|]; apply turn_ok_pending; [eauto | eauto |]; rewrite length_app; cbn; lia.
  - apply Forall_insert; [done|]; apply turn_ok_pending; [eauto | eauto |].
    destruct (Hl t x) as (_ & _ & _ & Hb); [done|]; specialize (Hb _ H0); cbn in Hb; lia.
  - apply Finish_forall; [apply turn_ok_finished | done].
Qed.


(** ** Slots *)

Definition slot_of (p : place) : option bool :=
  match p with
  | Checking b | Registered b _ | Running b _ | Cleaning b _ _ | Sending b _ _ | Closing b _ _ => Some b
  | _ => None
  end.

Definition holds (t : nat) (c : call) : nat :=
  if bool_decide (parent c = t /\ slot_of (pc c) = Some true) then 1 else 0.

Lemma sum_list_with_insert {A} (f : A -> nat) (l : list A) (i : nat) (a b : A) :
  l !! i = Some a -> (sum_list_with f (<[i := b]> l) + f a = sum_list_with f l + f b)%nat.
Proof.
  revert i; induction l as [|y l IH]; intros [|i] Hi; simpl in *; try done; [injection Hi as ->; lia|].
  specialize (IH _ Hi); lia.
Qed.

Definition slots_inv (w : world) : Prop :=
  (forall i c, calls w !! i = Some c -> (parent c < length (turns w))%nat) /\
  (forall t x, turns w !! t = Some x -> taken x = sum_list_with (holds t) (calls w)).

Definition has (b : option bool) : nat := if bool_decide (b = Some true) then 1 else 0.

(** A call moves on and its parent's semaphore with it. *)
Lemma slots_inv_move w i c x y p active pol orp :
  slots_inv w -> calls w !! i = Some c -> turns w !! parent c = Some x ->
  (taken y + has (slot_of (pc c)) = taken x + has (slot_of p))%nat ->
  slots_inv (set_pc i c p (mkWorld (<[parent c := y]> (turns w)) active (calls w) pol orp)).
Proof.
  intros [Hp Ht] Hi Hx Hy; split; cbn.
  - intros j d Hj; rewrite length_insert; apply list_lookup_insert_Some in Hj as [(<- & <- & _)|[_ Hj]]; cbn; eauto.
  - intros t z Hz.
    pose proof (sum_list_with_insert (holds t) _ i c (mkCall (parent c) (model c) (async c) p) Hi) as Hs.
    unfold holds at 2 4 in Hs; cbn in Hs; unfold has in Hy.
    apply list_lookup_insert_Some in Hz as [(<- & <- & _)|[Hne Hz]]; [pose proof (Ht _ _ Hx) | pose proof (Ht _ _ Hz)];
      repeat case_bool_decide; tauto || lia.
Qed.

Lemma slots_inv_stay w i c x p active pol orp :
  slots_inv w -> calls w !! i = Some c -> turns w !! parent c = Some x -> has (slot_of (pc c)) = has (slot_of p) ->
  slots_inv (set_pc i c p (mkWorld (turns w) active (calls w) pol orp)).
Proof.
  intros Hw Hi Hx Hs; rewrite <- (list_insert_id (turns w) (parent c) x Hx).
  eapply slots_inv_move; [done..|]; lia.
Qed.

Lemma slots_inv_new w x active : slots_inv w -> taken x = 0%nat ->
  slots_inv (mkWorld (turns w ++ [x]) active (calls w) (polled w) (orphans w)).
Proof.
  intros [Hp Ht] Hx; split; cbn.
  - intros i c Hi; rewrite length_app; cbn; specialize (Hp _ _ Hi); lia.
  - intros t y [Hy|[Hlt Hy]]%lookup_app_Some; [eauto|].
    apply list_lookup_singleton_Some in Hy as [Heq <-]; rewrite Hx.
    assert (forall l, (forall i c, l !! i = Some c -> (parent c < length (turns w))%nat) -> sum_list_with (holds t) l = 0%nat) as H0.
    { induction l as [|c l IH]; intros Hl; cbn; [done|]; unfold holds at 1.
      specialize (Hl 0%nat c eq_refl) as Hc; rewrite bool_decide_false by (intros [? _]; lia).
      apply IH; intros i d Hi; exact (Hl (S i) d Hi). }
    symmetry; apply H0; exact Hp.
Qed.

Lemma slots_inv_turn w t x y active pol orp : slots_inv w -> turns w !! t = Some x -> taken y = taken x ->
  slots_inv (mkWorld (<[t := y]> (turns w)) active (calls w) pol orp).
Proof.
  intros [Hp Ht] Hx Hy; split; cbn; [intros i c Hi; rewrite length_insert; eauto|].
  intros u z Hz; apply list_lookup_insert_Some in Hz as [(<- & <- & _)|[_ Hz]]; [rewrite Hy|]; eauto.
Qed.

(** What the parent of the call knows of its slot. *)
Lemma holder_taken w i c x : slots_inv w -> calls w !! i = Some c -> turns w !! parent c = Some x ->
  slot_of (pc c) = Some true -> (0 < taken x)%nat.
Proof.
  intros [_ Ht] Hi Hx Hs; rewrite (Ht _ _ Hx).
  pose proof (sum_list_with_in c (holds (parent c)) (calls w)) as Hin.
  assert (holds (parent c) c = 1%nat) as H1 by (unfold holds; rewrite bool_decide_true; done).
  rewrite H1 in Hin; apply Hin; eapply list_elem_of_lookup_2; exact Hi.
Qed.


Lemma release_has b x : (b = true -> 0 < taken x)%nat -> (taken (release b x) + has (Some b) = taken x)%nat.
Proof.
  destruct b; cbn; [|change (has (Some false)) with 0%nat; lia].
  intros Hpos; specialize (Hpos eq_refl); change (has (Some true)) with 1%nat; lia.
Qed.

Lemma slots_step w w' : slots_inv w -> step w w' -> slots_inv w'.
Proof.
  intros Hw Hst.
  assert (forall i c b x, calls w !! i = Some c -> turns w !! parent c = Some x -> slot_of (pc c) = Some b ->
    (taken (release b x) + has (Some b) = taken x)%nat) as Hrel.
  { intros i c b x Hi Hx Hb; apply release_has; intros ->; eapply holder_taken; eassumption. }
  pose proof Hw as [Hp Ht].
  destruct Hst;
    try (eapply slots_inv_stay; [done | done | done | rewrite H0; done]);
    try (eapply slots_inv_move; [done | done | done |];
         specialize (Hrel _ _ slot _ H H1); rewrite H0 in Hrel |- *; specialize (Hrel eq_refl);
         cbn; change (has None) with 0%nat; try change (has (Some false)) with 0%nat; lia).
  - apply slots_inv_new; done.
  - apply slots_inv_new; done.
  - split; done.
  - split; cbn.
    + intros i c [Hi|[_ Hi]]%lookup_app_Some; [eauto|]; apply list_lookup_singleton_Some in Hi as [_ <-]; done.
    + intros u x Hx; rewrite sum_list_with_app; cbn; unfold holds at 2; cbn.
      rewrite bool_decide_false by (intros [_ ?]; discriminate); rewrite (Ht _ _ Hx); lia.
  - eapply slots_inv_move; [done..|]; rewrite H0; cbn; change (has None) with 0%nat; change (has (Some true)) with 1%nat; lia.
  - refine (slots_inv_stay (mkWorld _ _ _ _ _) i c x _ _ _ _ (slots_inv_new _ _ ∅ Hw _) H _ _); [done | | rewrite H0; done].
    cbn; rewrite lookup_app_l; eauto.
  - destruct (lookup_lt_is_Some_2 _ _ (Hp _ _ H)) as [x Hx]; eapply slots_inv_stay; [done..|]; rewrite H0; done.
  - destruct (lookup_lt_is_Some_2 _ _ (Hp _ _ H)) as [x Hx].
    refine (slots_inv_stay w i c x _ _ _ _ Hw H Hx _); rewrite H0; done.
  - eapply slots_inv_turn; done.
  - split; cbn.
    + intros i c Hi; rewrite <- (Forall2_length _ _ _ (Finish_marked _ _ _ _)); eauto.
    + intros u y Hy; destruct (Forall2_lookup_r _ _ _ _ _ (Finish_marked _ _ _ _) Hy) as (x & Hx & [->| ->]); exact (Ht _ _ Hx).
Qed.

Lemma slots_ok w : reachable w -> slots_inv w.
Proof.
  intros Hr; refine (star_invariant step slots_inv _ _ _ Hr _); [intros; eapply slots_step; eassumption|].
  split; intros ? ? Hx; cbn in Hx; done.
Qed.


(** What never changes of a turn. *)
Definition same_kind (x y : turn) : Prop :=
  depth x = depth y /\ parentTurnState x = parentTurnState y /\ concurrencySem x = concurrencySem y /\
  al x = al y /\ (is_Some (pendingResults x) <-> is_Some (pendingResults y)).

#[local] Instance same_kind_refl : Reflexive same_kind.
Proof. intros x; repeat split; auto. Qed.

Lemma same_kind_insert (ts : list turn) (t u : nat) x y (z : turn) :
  ts !! t = Some x -> same_kind x y -> ts !! u = Some z -> exists z', <[t := y]> ts !! u = Some z' /\ same_kind z z'.
Proof.
  intros Ht Hxy Hu; destruct (decide (t = u)) as [->|Hne].
  - exists y; rewrite list_lookup_insert_eq by (apply lookup_lt_is_Some; eauto); split; [done|]; congruence.
  - exists z; rewrite list_lookup_insert_ne by done; split; [done | reflexivity].
Qed.

Lemma same_kind_pending x buf q : pendingResults x = Some buf -> same_kind x (with_pending (Some q) x).
Proof. intros Hx; repeat split; cbn; rewrite ?Hx; eauto. Qed.

Lemma same_kind_release b x : same_kind x (release b x).
Proof. destruct b; repeat split; cbn; auto. Qed.

Lemma step_same_kind w w' t x : step w w' -> turns w !! t = Some x -> exists y, turns w' !! t = Some y /\ same_kind x y.
Proof.
  intros Hst Hx; destruct Hst; cbn;
    try (exists x; split; [done | reflexivity]);
    try (exists x; rewrite lookup_app_l by (eapply lookup_lt_Some; exact Hx); split; [done | reflexivity]);
    try (eapply same_kind_insert; [eassumption | | done]; first [apply same_kind_release | eapply same_kind_pending; eassumption | repeat split; auto; fail]).
  destruct (Forall2_lookup_l _ _ _ _ _ (Finish_marked (length (turns w)) (activeTurnStates w) t0 (turns w)) Hx) as (y & Hy & [->| ->]);
    eexists; (split; [exact Hy|]); repeat split; auto.
Qed.

(** While a child of a turn with a semaphore runs, it holds a slot. *)
Definition slots_kept (w : world) : Prop :=
  forall i c x b, calls w !! i = Some c -> turns w !! parent c = Some x ->
    (pc c = Checking b \/ (exists n, pc c = Registered b n) \/ (exists n, pc c = Running b n)) ->
    b = bool_decide (is_Some (concurrencySem x)).

Lemma slots_are_kept w : reachable w -> slots_kept w.
Proof.
  intros Hr; refine (proj2 (star_invariant step (fun w => slots_inv w /\ slots_kept w) _ _ _ Hr _));
    [|split; [apply slots_ok; constructor | intros ? ? ? ? Hx; cbn in Hx; done]].
  clear w Hr; intros w w' [Hw Hk] Hst; split; [eapply slots_step; eassumption|].
  assert (forall t x y, turns w !! t = Some x -> turns w' !! t = Some y -> concurrencySem x = concurrencySem y) as Hsem.
  { intros t x y Hx Hy; destruct (step_same_kind _ _ _ _ Hst Hx) as (z & Hz & _ & _ & Hs & _); congruence. }
  intros j d y b Hj Hy Hpc.
  assert (calls w !! j = Some d -> b = bool_decide (is_Some (concurrencySem y))) as Hold.
  { intros Hd; destruct Hw as [Hp _]; destruct (lookup_lt_is_Some_2 _ _ (Hp _ _ Hd)) as [x Hx].
    rewrite <- (Hsem _ _ _ Hx Hy); eapply Hk; eassumption. }
  destruct Hst; cbn in Hj; try (apply list_lookup_insert_Some in Hj as [(<- & <- & _)|[_ Hj]]); try (apply Hold; assumption);
    cbn [pc] in Hpc; try (destruct Hpc as [Hpc|[[? Hpc]|[? Hpc]]]; discriminate);
    try (destruct Hpc as [[= <-]|[[? [= ]]|[? [= ]]]]; subst).
  - apply lookup_app_Some in Hj as [Hj|[_ Hj]]; [auto|]; apply list_lookup_singleton_Some in Hj as [_ <-].
    destruct Hpc as [Hpc|[[? Hpc]|[? Hpc]]]; discriminate.
  - rewrite <- (Hsem _ _ _ H1 Hy), H2; done.
  - rewrite <- (Hsem _ _ _ H1 Hy), H2; done.
  - rewrite <- (Hsem _ _ _ H1 Hy); eapply Hk; eauto.
  - rewrite <- (Hsem _ _ _ H1 Hy); eapply Hk; eauto.
Qed.

(** The number of sub-turns of [t] that run. *)
Definition runs (t : nat) (c : call) : nat :=
  if bool_decide (parent c = t) then match pc c with Running _ _ => 1 | _ => 0 end else 0.

Definition running (t : nat) (w : world) : nat := sum_list_with (runs t) (calls w).

Lemma sum_list_with_le {A} (f g : A -> nat) (l : list A) :
  (forall a, a ∈ l -> f a <= g a)%nat -> (sum_list_with f l <= sum_list_with g l)%nat.
Proof.
  induction l as [|a l IH]; intros Hle; simpl; [lia|].
  pose proof (Hle a ltac:(constructor)); specialize (IH (fun b Hb => Hle b (list_elem_of_further _ _ _ Hb))); lia.
Qed.

(** C12: A tree of sub-turns stays within its limits, however calls, results and
    aborts interleave: no turn is deeper than the maximum, no sub-turn has more
    sub-turns running at the same time than allowed, and its channel of results
    never has more than fits. *)
Theorem subturns_are_bounded w t x :
  0 < maxDepth cfg -> 0 < maxConcurrent cfg -> reachable w -> turns w !! t = Some x ->
  0 <= depth x <= maxDepth cfg /\
  (0 < depth x -> Z.of_nat (running t w) <= maxConcurrent cfg) /\
  (forall buf, pendingResults x = Some buf -> Z.of_nat (length buf) <= resultCapacity).
Proof.
  intros Hdep Hcon Hr Hx.
  pose proof (Forall_lookup_1 _ _ _ _ (turns_ok w Hdep Hcon Hr) Hx) as (Hkind & _ & Hsem & Hbuf).
  split; [destruct Hkind as [(_ & ? & _)|(_ & ? & _)]; lia|]; split; [|exact Hbuf]; intros Hpos.
  destruct Hkind as [(_ & ? & _)|(_ & _ & _ & Hs & _)]; [lia|].
  specialize (Hsem _ Hs); rewrite (proj2 (slots_ok w Hr) t x Hx) in Hsem.
  enough (running t w <= sum_list_with (holds t) (calls w))%nat by lia.
  apply sum_list_with_le; intros c [i Hi]%list_elem_of_lookup; unfold runs, holds.
  destruct (decide (parent c = t)) as [<-|Hne]; [|rewrite bool_decide_false by done; lia].
  rewrite bool_decide_true by done; destruct (pc c) as [| | |b n| | | | |] eqn:Hpc; try lia.
  assert (b = true) as ->; [|rewrite bool_decide_true by done; lia].
  rewrite (slots_are_kept w Hr _ _ _ b Hi Hx) by eauto; rewrite Hs; done.
Qed.

(** ** Results *)

(** The result that a call has got rid of, and whether an entry of a channel is
    the result [v] of the call [j]. *)
Definition outcome (p : place) : option V :=
  match p with Closing _ _ r | Returned _ r => r | _ => None end.

Definition entry (j : nat) (v : V) (e : nat * option V) : nat :=
  if bool_decide (e = (j, Some v)) then 1 else 0.

Definition buffered (j : nat) (v : V) (x : turn) : nat :=
  sum_list_with (entry j v) (default [] (pendingResults x)).

(** How often the result [v] of the call [j] is in a channel, has been received
    from one or has been reported as an orphan. *)
Definition deliveries (j : nat) (v : V) (w : world) : nat :=
  (sum_list_with (buffered j v) (turns w) + sum_list_with (entry j v) (snd <$> polled w) + sum_list_with (entry j v) (orphans w))%nat.

Definition expected (j : nat) (v : V) (cs : list call) : nat :=
  match cs !! j with
  | Some c => if async c && bool_decide (outcome (pc c) = Some v) then 1 else 0
  | None => 0
  end.

Lemma expected_move j v cs i c p : cs !! i = Some c ->
  (async c = true -> outcome p = outcome (pc c)) ->
  expected j v (<[i := mkCall (parent c) (model c) (async c) p]> cs) = expected j v cs.
Proof.
  intros Hi Ho; unfold expected; destruct (decide (i = j)) as [<-|Hne]; [|rewrite list_lookup_insert_ne; done].
  rewrite list_lookup_insert_eq by (eapply lookup_lt_Some; exact Hi); rewrite Hi; cbn.
  destruct (async c); [rewrite Ho; done | done].
Qed.

Lemma expected_settle j v cs i c b n r : cs !! i = Some c -> async c = true -> outcome (pc c) = None ->
  expected j v (<[i := mkCall (parent c) (model c) (async c) (Closing b n r)]> cs)
  = (expected j v cs + entry j v (i, r))%nat.
Proof.
  intros Hi Ha Ho; unfold expected, entry; destruct (decide (i = j)) as [<-|Hne].
  - rewrite list_lookup_insert_eq by (eapply lookup_lt_Some; exact Hi); rewrite Hi, Ha, Ho; cbn.
    repeat case_bool_decide; congruence || lia.
  - rewrite list_lookup_insert_ne, (bool_decide_false (_ = (j, Some v))) by congruence; lia.
Qed.

Lemma expected_call j v cs c : outcome (pc c) = None -> expected j v (cs ++ [c]) = expected j v cs.
Proof.
  intros Ho; unfold expected; destruct (decide (j < length cs)%nat) as [Hlt|Hge]; [rewrite lookup_app_l; done|].
  rewrite (lookup_ge_None_2 cs) by lia; rewrite lookup_app_r by lia.
  destruct (j - length cs)%nat; cbn; [rewrite Ho, andb_false_r|]; done.
Qed.

Lemma buffered_insert j v ts t x y : ts !! t = Some x ->
  (sum_list_with (buffered j v) (<[t := y]> ts) + buffered j v x = sum_list_with (buffered j v) ts + buffered j v y)%nat.
Proof. apply sum_list_with_insert. Qed.

Lemma buffered_marked j v ts us : Forall2 marked ts us ->
  sum_list_with (buffered j v) us = sum_list_with (buffered j v) ts.
Proof. induction 1 as [|x y ts us [->| ->] _ IH]; simpl; [done | rewrite IH; done..]. Qed.

Lemma entry_orphan j v i r : sum_list_with (entry j v) (match r with Some _ => [(i, r)] | None => [] end) = entry j v (i, r).
Proof. destruct r; cbn; [lia|]; unfold entry; rewrite bool_decide_false by congruence; done. Qed.


(** Only results of asynchronous calls are sent. *)
Definition senders_async (w : world) : Prop :=
  forall i c b n r, calls w !! i = Some c -> pc c = Sending b n r -> async c = true.

Lemma senders_step w w' : senders_async w -> step w w' -> senders_async w'.
Proof.
  intros Hw Hst j d b n r' Hj Hpc; destruct Hst; cbn in Hj; eauto;
    try (apply list_lookup_insert_Some in Hj as [(<- & <- & _)|[_ Hj]]; [cbn in Hpc |-*; first [discriminate | done] | eauto]).
  apply lookup_app_Some in Hj as [Hj|[_ Hj]]; [eauto|]; apply list_lookup_singleton_Some in Hj as [_ <-]; done.
Qed.

Definition deliveries_inv (w : world) : Prop := forall j v, deliveries j v w = expected j v (calls w).

Lemma deliveries_step w w' : senders_async w -> deliveries_inv w -> step w w' -> deliveries_inv w'.
Proof.
  intros Hs Hw Hst j v; specialize (Hw j v); unfold deliveries in *.
  assert (forall b x, buffered j v (release b x) = buffered j v x) as Hrel by (intros [] ?; done).
  destruct Hst; cbn [turns calls polled orphans set_pc set_turn add_orphan HardAbort];
    rewrite ?fmap_app, ?sum_list_with_app, ?entry_orphan, ?expected_call by done;
    try rewrite (expected_move j v _ _ _ _ H) by (rewrite H0; done || congruence);
    try rewrite (expected_settle j v _ _ _ _ _ _ H) by (eauto; rewrite H0; done);
    try (pose proof (buffered_insert j v _ _ _ (release slot x) H1); rewrite Hrel in *; lia);
    try exact Hw; try (cbn; lia).
  - pose proof (buffered_insert j v _ _ _ (with_taken (S (taken x)) x) H1) as Hb.
    change (buffered j v (with_taken _ x)) with (buffered j v x) in Hb; lia.
  - pose proof (buffered_insert j v _ _ _ (with_child child x) H1) as Hb.
    change (buffered j v (with_child _ x)) with (buffered j v x) in Hb; lia.
  - pose proof (buffered_insert j v _ _ _ (with_pending (Some (buf ++ [(i, r)])) x) H1) as Hb.
    unfold buffered at 2 4 in Hb; cbn in Hb; rewrite H2, sum_list_with_app in Hb; cbn in Hb; lia.
  - pose proof (buffered_insert j v _ _ _ (with_pending (Some buf) x) H) as Hb.
    unfold buffered at 2 4 in Hb; cbn in Hb; rewrite H0 in Hb; cbn in Hb |- *; lia.
  - rewrite (buffered_marked j v _ _ (Finish_marked _ _ _ _)); exact Hw.
Qed.

(** A result is only where its call's parent reads: what is in the channel of a
    turn, and what a turn has received, is from calls that the turn has made. *)
Definition mine (w : world) (t : nat) (e : nat * option V) : Prop :=
  exists c, calls w !! fst e = Some c /\ parent c = t.

Definition placed (w : world) : Prop :=
  (forall t x, turns w !! t = Some x -> Forall (mine w t) (default [] (pendingResults x))) /\
  Forall (fun q => mine w (fst q) (snd q)) (polled w).

Lemma mine_set_pc w u i c p t e : calls u = calls w -> calls w !! i = Some c -> mine w t e -> mine (set_pc i c p u) t e.
Proof.
  intros Hu Hi (d & Hd & Hp); unfold mine, set_pc; cbn; rewrite Hu; destruct (decide (i = fst e)) as [->|Hne].
  - eexists; rewrite list_lookup_insert_eq by (eapply lookup_lt_Some; exact Hi); split; [done | cbn; congruence].
  - exists d; rewrite list_lookup_insert_ne; done.
Qed.

Lemma mine_step w w' t e : step w w' -> mine w t e -> mine w' t e.
Proof.
  intros Hst Hm; destruct Hst; try exact Hm; try (apply (mine_set_pc w); [reflexivity | assumption..]).
  destruct Hm as (d & Hd & Hp); exists d; split; [apply lookup_app_l_Some; exact Hd | exact Hp].
Qed.

Lemma placed_insert w w' t x y : step w w' -> placed w -> turns w !! t = Some x ->
  Forall (mine w' t) (default [] (pendingResults y)) ->
  forall u z, <[t := y]> (turns w) !! u = Some z -> Forall (mine w' u) (default [] (pendingResults z)).
Proof.
  intros Hst [Hw _] Hx Hy u z [(<- & <- & _)|[_ Hz]]%list_lookup_insert_Some; [exact Hy|].
  eapply Forall_impl; [exact (Hw _ _ Hz)|]; intros e; apply mine_step, Hst.
Qed.

Lemma placed_step w w' : placed w -> step w w' -> placed w'.
Proof.
  intros Hw Hst; pose proof Hw as [Ht Hp].
  assert (forall u z, turns w !! u = Some z -> Forall (mine w' u) (default [] (pendingResults z))) as Hold.
  { intros u z Hz; eapply Forall_impl; [exact (Ht _ _ Hz)|]; intros e; apply mine_step, Hst. }
  assert (Forall (fun q => mine w' (fst q) (snd q)) (polled w)) as Hpo.
  { eapply Forall_impl; [exact Hp|]; intros q; apply mine_step, Hst. }
  assert (forall x, default [] (pendingResults x) = [] ->
    forall u z, (turns w ++ [x]) !! u = Some z -> Forall (mine w' u) (default [] (pendingResults z))) as Hnew.
  { intros x Hx u z [Hz|[_ Hz]]%lookup_app_Some; [eauto|].
    apply list_lookup_singleton_Some in Hz as [_ <-]; rewrite Hx; constructor. }
  assert (forall b x, pendingResults (release b x) = pendingResults x) as Hrel by (intros [] ?; done).
  inversion Hst; subst w'; (split; [|try exact Hpo]); cbn [turns set_pc set_turn add_orphan HardAbort]; try exact Hold; try (apply Hnew; done);
    try (eapply placed_insert; [exact Hst | exact Hw | eassumption |]; rewrite ?Hrel;
      match goal with Hx : turns w !! _ = Some _ |- _ => exact (Hold _ _ Hx) end).
  - eapply placed_insert; [exact Hst | exact Hw | eassumption |]; cbn.
    apply Forall_app; split; [pose proof (Hold _ _ H1) as Hb; rewrite H2 in Hb; exact Hb|]; repeat constructor.
    eexists; cbn; rewrite list_lookup_insert_eq by (eapply lookup_lt_Some; eassumption); done.
  - eapply placed_insert; [exact Hst | exact Hw | eassumption |]; cbn.
    pose proof (Hold _ _ H) as Hb; rewrite H0 in Hb; inversion Hb; done.
  - cbn; apply Forall_app; split; [exact Hpo|]; repeat constructor.
    pose proof (Hold _ _ H) as Hb; rewrite H0 in Hb; inversion Hb; done.
  - intros u z Hz; destruct (Forall2_lookup_r _ _ _ _ _ (Finish_marked _ _ _ _) Hz) as (x & Hx & [->| ->]); exact (Hold _ _ Hx).
Qed.

Lemma results_placed w : reachable w -> placed w.
Proof.
  intros Hr; refine (star_invariant step placed _ _ _ Hr _); [exact placed_step|].
  split; [intros ? ? ?; done | constructor].
Qed.

(** How often the result is in the channel of the turn [t], and how often [t] has
    received it. *)
Definition in_channel (t j : nat) (v : V) (w : world) : nat :=
  match turns w !! t with Some x => buffered j v x | None => 0 end.

Definition received (t j : nat) (v : V) (w : world) : nat :=
  sum_list_with (fun q => if bool_decide (fst q = t) then entry j v (snd q) else 0%nat) (polled w).

Lemma sum_entries_others j v l : (forall r, (j, r) ∉ l) -> sum_list_with (entry j v) l = 0%nat.
Proof.
  induction l as [|e l IH]; intros Hl; simpl; [done|].
  rewrite IH by (intros r Hr; eapply Hl; constructor; exact Hr); unfold entry.
  rewrite bool_decide_false; [done|]; intros ->; eapply Hl; constructor.
Qed.

Lemma in_channel_others w j c v t : placed w -> calls w !! j = Some c -> t <> parent c -> in_channel t j v w = 0%nat.
Proof.
  intros [Hw _] Hj Ht; unfold in_channel; destruct (turns w !! t) as [x|] eqn:Hx; [|done].
  apply sum_entries_others; intros r Hr; specialize (Hw _ _ Hx); rewrite Forall_forall in Hw.
  destruct (Hw _ Hr) as (d & Hd & Hp); cbn in Hd; congruence.
Qed.

Lemma sum_lookup (f : turn -> nat) t ts : (forall u x, u <> t -> ts !! u = Some x -> f x = 0%nat) ->
  sum_list_with f ts = match ts !! t with Some x => f x | None => 0%nat end.
Proof.
  revert t; induction ts as [|x ts IH]; intros [|t] Hf; simpl; [done | done | |].
  - rewrite (IH (length ts)), lookup_ge_None_2; [lia | done|]; intros u y Hne Hy; apply (Hf (S u) y); [lia | exact Hy].
  - rewrite (Hf O x) by done; simpl; apply IH; intros u y Hne Hy; apply (Hf (S u) y); [lia | exact Hy].
Qed.

Lemma received_all w j c v : placed w -> calls w !! j = Some c ->
  sum_list_with (entry j v) (snd <$> polled w) = received (parent c) j v w /\
  forall t, t <> parent c -> received t j v w = 0%nat.
Proof.
  intros [_ Hw] Hj; unfold received; induction Hw as [|[u e] l (d & Hd & Hp) _ [IH1 IH2]]; [done|].
  cbn in Hd, Hp; rewrite fmap_cons; cbn [sum_list_with fst snd]; rewrite IH1; split.
  - case_bool_decide as Hu; [done|]; unfold entry; rewrite bool_decide_false; [done|].
    intros ->; cbn in Hd; congruence.
  - intros t Ht; cbn [sum_list_with fst snd]; rewrite IH2 by done; case_bool_decide as Hu; [|done]; unfold entry; rewrite bool_decide_false; [done|].
    intros ->; cbn in Hd; congruence.
Qed.

(** C13: Every result of an asynchronous sub-turn that is over is in exactly one
    place, once: in the channel of its parent, among what its parent has received,
    or reported as an orphan; a result of a synchronous one is in none of them.
    Nothing is there before, and no other turn ever has it in its channel or
    receives it. *)
Theorem async_results_arrive_once w j c v : reachable w -> calls w !! j = Some c ->
  (in_channel (parent c) j v w + received (parent c) j v w + sum_list_with (entry j v) (orphans w) =
    if async c && bool_decide (outcome (pc c) = Some v) then 1 else 0)%nat /\
  forall t, t <> parent c -> in_channel t j v w = 0%nat /\ received t j v w = 0%nat.
Proof.
  intros Hr Hj; pose proof (results_placed w Hr) as Hp; destruct (received_all _ _ _ v Hp Hj) as [Hre Hno].
  assert (senders_async w /\ deliveries_inv w) as [_ Hd].
  { refine (star_invariant step (fun w => senders_async w /\ deliveries_inv w) _ _ _ Hr _).
    - intros w1 w2 [Hs Hd] Hst; split; [eapply senders_step | eapply deliveries_step]; eassumption.
    - split; [intros ? ? ? ? ? Hx; done | done]. }
  split; [|intros t Ht; split; [exact (in_channel_others _ _ _ _ _ Hp Hj Ht) | exact (Hno t Ht)]].
  specialize (Hd j v); unfold deliveries, expected in Hd; rewrite Hj, Hre in Hd; rewrite <- Hd; f_equal; f_equal.
  symmetry; apply (sum_lookup (buffered j v)); intros t x Ht Hx.
  pose proof (in_channel_others _ _ _ v _ Hp Hj Ht) as H0; unfold in_channel in H0; rewrite Hx in H0; exact H0.
Qed.


(** ** Aborts *)

(** Children come after their parents. *)
Definition ordered (ts : list turn) : Prop :=
  forall t x n, ts !! t = Some x -> n ∈ childTurnIDs x -> (t < n < length ts)%nat.

Definition registered_after (w : world) : Prop :=
  forall i c b n, calls w !! i = Some c -> pc c = Registered b n -> (parent c < n < length (turns w))%nat.

Lemma ordered_insert ts t x y : ordered ts -> ts !! t = Some x -> (forall n, n ∈ childTurnIDs y -> (t < n < length ts)%nat) ->
  ordered (<[t := y]> ts).
Proof.
  intros Ho Hx Hy u z n Hu Hn; rewrite length_insert.
  apply list_lookup_insert_Some in Hu as [(<- & <- & _)|[_ Hu]]; eauto.
Qed.

Lemma turns_ordered_app ts x : ordered ts -> childTurnIDs x = [] -> ordered (ts ++ [x]).
Proof.
  intros Ho Hx t y n [Hy|[_ Hy]]%lookup_app_Some Hn; rewrite length_app; cbn.
  - specialize (Ho _ _ _ Hy Hn); lia.
  - apply list_lookup_singleton_Some in Hy as [_ <-]; rewrite Hx in Hn; inversion Hn.
Qed.

Lemma ordered_marked ts us : Forall2 marked ts us -> ordered ts -> ordered us.
Proof.
  intros Hm Ho t y n Hy Hn; rewrite <- (Forall2_length _ _ _ Hm).
  destruct (Forall2_lookup_r _ _ _ _ _ Hm Hy) as (x & Hx & [->| ->]); exact (Ho _ _ _ Hx Hn).
Qed.

Lemma ordered_step w w' : registered_after w -> ordered (turns w) -> step w w' -> ordered (turns w').
Proof.
  intros Hr Ho Hst; destruct Hst; cbn; try done; try (apply turns_ordered_app; done);
    try (eapply ordered_insert; [done | eassumption | intros n Hn; try destruct slot; (eapply Ho; [eassumption | exact Hn])]).
  - eapply ordered_insert; [done | eassumption |]; cbn; intros n [Hn|Hn]%elem_of_app; [eapply Ho; eassumption|].
    apply list_elem_of_singleton in Hn as ->; eapply Hr; eassumption.
  - eapply ordered_marked; [apply Finish_marked | done].
Qed.

Lemma step_length w w' : step w w' -> (length (turns w) <= length (turns w'))%nat.
Proof.
  intros Hst; destruct Hst; cbn; rewrite ?length_app, ?length_insert; cbn; try lia.
  rewrite <- (Forall2_length _ _ _ (Finish_marked _ _ _ _)); lia.
Qed.

Lemma registered_step w w' : registered_after w -> step w w' -> slots_inv w -> registered_after w'.
Proof.
  intros Hr Hst [Hp _] j d b n Hj Hpc; pose proof (step_length _ _ Hst) as Hlen.
  assert (calls w !! j = Some d -> (parent d < n < length (turns w'))%nat) as Hold
    by (intros Hd; specialize (Hr _ _ _ _ Hd Hpc); lia).
  destruct Hst; cbn in Hj; auto;
    try (apply list_lookup_insert_Some in Hj as [(<- & <- & _)|[_ Hj]]; [cbn in Hpc; try discriminate | auto]).
  - apply lookup_app_Some in Hj as [Hj|[_ Hj]]; [auto|]; apply list_lookup_singleton_Some in Hj as [_ <-]; done.
  - injection Hpc as <- <-; cbn [parent]; specialize (Hp _ _ H); cbn; rewrite length_app; cbn; lia.
Qed.

Lemma turns_ordered w : reachable w -> ordered (turns w).
Proof.
  intros Hr; refine (proj1 (star_invariant step (fun w => ordered (turns w) /\ registered_after w /\ slots_inv w) _ _ _ Hr _)); clear Hr.
  - intros w1 w2 (Ho & Hg & Hs) Hst; split_and!; [eapply ordered_step | eapply registered_step | eapply slots_step]; eassumption.
  - split_and!; [intros t x n Hx; done | intros i c b n Hx; done | split; [intros i c Hx | intros t x Hx]; done].
Qed.

(** Whom an abort reaches: the children, known to a turn that knows the loop,
    that are active. *)
Inductive descends (active : gset nat) (ts : list turn) : nat -> nat -> Prop :=
| descends_self t : descends active ts t t
| descends_child t x n d : ts !! t = Some x -> al x = true -> n ∈ childTurnIDs x -> n ∈ active ->
    descends active ts n d -> descends active ts t d.

Lemma descends_marked active ts us t d : Forall2 marked ts us -> descends active ts t d -> descends active us t d.
Proof.
  intros Hm; induction 1 as [|t x n d Hx Ha Hn Hact _ IH]; [constructor|].
  destruct (Forall2_lookup_l _ _ _ _ _ Hm Hx) as (y & Hy & [->| ->]); eapply descends_child; eauto.
Qed.

Definition finished_at (d : nat) (ts : list turn) : Prop := exists y, ts !! d = Some y /\ isFinished y = true.

Lemma finished_marked d ts us : Forall2 marked ts us -> finished_at d ts -> finished_at d us.
Proof.
  intros Hm (x & Hx & Hf); destruct (Forall2_lookup_l _ _ _ _ _ Hm Hx) as (y & Hy & [->| ->]); eexists; split; done.
Qed.

Lemma children_marked fuel active ns ts :
  Forall2 marked ts (fold_left (fun ts n => if bool_decide (n ∈ active) then Finish fuel true active n ts else ts) ns ts).
Proof.
  revert ts; induction ns as [|n ns IH]; intros ts; cbn; [done|].
  etransitivity; [|apply IH]; case_bool_decide; [apply Finish_marked | done].
Qed.

Lemma Finish_reaches fuel active t ts d : ordered ts -> (t < length ts <= fuel + t)%nat ->
  descends active ts t d -> finished_at d (Finish fuel true active t ts).
Proof.
  revert t ts d; induction fuel as [|fuel IH]; intros t ts d Ho Hlen Hd; [lia|]; cbn.
  destruct (lookup_lt_is_Some_2 ts t) as [x Hx]; [lia|]; rewrite Hx.
  pose proof (list_insert_id ts t x Hx) as Hid.
  assert (Forall2 marked ts (<[t := finished_turn true x]> ts)) as Hm.
  { rewrite <- Hid at 1; apply Forall2_insert; [done | right; done]. }
  inversion Hd as [|? x' n ? Hx' Ha Hn Hact Hrest]; subst.
  - assert (finished_at d (<[d := finished_turn true x]> ts)) as Hf.
    { eexists; rewrite list_lookup_insert_eq by lia; done. }
    destruct (al x); cbn; [|done]; eapply finished_marked; [apply children_marked | exact Hf].
  - assert (x' = x) as -> by congruence; rewrite Ha; cbn.
    destruct (Ho _ _ _ Hx Hn) as [Htn Hnl]; clear Hid Hd Hx Hx'; revert Hm Hn.
    generalize (<[t := finished_turn true x]> ts); induction (childTurnIDs x) as [|m ns IHns]; intros l Hm Hn; [inversion Hn|].
    cbn; apply elem_of_cons in Hn as [<-|Hn].
    + rewrite bool_decide_true by done; eapply finished_marked; [apply children_marked|].
      apply IH; [eapply ordered_marked; eassumption | rewrite <- (Forall2_length _ _ _ Hm); lia | eapply descends_marked; eassumption].
    + apply IHns; [|exact Hn]; case_bool_decide; [etransitivity; [exact Hm | apply Finish_marked] | exact Hm].
Qed.

(** A hard abort of a sub-turn reaches everything below it: each active
    descendant that is known to an active parent is finished by it, at any
    depth. *)
Theorem abort_reaches_descendants w t d : reachable w -> (t < length (turns w))%nat ->
  descends (activeTurnStates w) (turns w) t d -> finished_at d (turns (HardAbort t w)).
Proof. intros Hr Ht Hd; apply Finish_reaches; [apply turns_ordered; done | lia | done]. Qed.

(** Below a turn of the agent loop itself nothing is reached: [newTurnState]
    does not give it the loop, so that its children go on. *)
Theorem root_abort_spares_children w t x : 0 < maxDepth cfg -> 0 < maxConcurrent cfg -> reachable w ->
  turns w !! t = Some x -> depth x = 0 -> turns (HardAbort t w) = <[t := finished_turn true x]> (turns w).
Proof.
  intros Hdep Hcon Hr Hx H0.
  destruct (Forall_lookup_1 _ _ _ _ (turns_ok w Hdep Hcon Hr) Hx) as [[(_ & _ & Ha & _)|(_ & ? & _)] _]; [|lia].
  unfold HardAbort; cbn; pose proof (lookup_lt_Some _ _ _ Hx); destruct (length (turns w)); [lia|]; cbn; rewrite Hx, Ha; done.
Qed.

(** No turn ever sees that its parent has ended: nothing calls [Finish] but
    aborts. *)
Theorem parents_never_end w x : 0 < maxDepth cfg -> 0 < maxConcurrent cfg -> reachable w ->
  IsParentEnded (turns w) x = false.
Proof.
  intros Hdep Hcon Hr; unfold IsParentEnded; destruct (parentTurnState x) as [t|]; [|done].
  destruct (turns w !! t) as [y|] eqn:Hy; [|done].
  apply (Forall_lookup_1 _ _ _ _ (turns_ok w Hdep Hcon Hr) Hy).
Qed.


(** Nobody gets the results of asynchronous children of a turn of the agent
    loop: it has no channel for them. *)
Definition orphaned (w : world) : Prop :=
  forall j c x v, calls w !! j = Some c -> turns w !! parent c = Some x -> pendingResults x = None ->
    async c = true -> outcome (pc c) = Some v -> (j, Some v) ∈ orphans w.

Lemma orphaned_step w w' : slots_inv w -> orphaned w -> step w w' -> orphaned w'.
Proof.
  intros [Hp _] Ho Hst j d y v Hj Hy Hnone Ha Hout.
  assert (forall t x, turns w !! t = Some x -> turns w' !! t = Some y -> pendingResults x = None) as Hback.
  { intros t x Hx Hy'; destruct (step_same_kind _ _ _ _ Hst Hx) as (z & Hz & _ & _ & _ & _ & Hs).
    assert (z = y) as -> by congruence; destruct (pendingResults x); [|done].
    destruct (proj1 Hs ltac:(eauto)); congruence. }
  assert (calls w !! j = Some d -> (j, Some v) ∈ orphans w) as Hold.
  { intros Hd; destruct (lookup_lt_is_Some_2 _ _ (Hp _ _ Hd)) as [x Hx]; eapply Ho; eauto. }
  destruct Hst; cbn in Hj; auto;
    try (apply list_lookup_insert_Some in Hj as [(<- & <- & _)|[_ Hj]];
         [cbn in Hout; try discriminate; cbn in Ha; try congruence | first [solve [auto] | cbn; apply elem_of_app; left; auto]]).
  - apply lookup_app_Some in Hj as [Hj|[_ Hj]]; [auto|]; apply list_lookup_singleton_Some in Hj as [_ <-]; done.
  - cbn; rewrite Hout; apply elem_of_app; right; constructor.
  - specialize (Hback _ _ H1 Hy); congruence.
  - cbn; rewrite Hout; apply elem_of_app; right; constructor.
  - eapply Ho; eauto; rewrite H0; done.
Qed.

Theorem root_results_are_orphans w j c x v : reachable w -> calls w !! j = Some c -> turns w !! parent c = Some x ->
  pendingResults x = None -> async c = true -> outcome (pc c) = Some v -> (j, Some v) ∈ orphans w.
Proof.
  intros Hr; refine (proj2 (star_invariant step (fun w => slots_inv w /\ orphaned w) _ _ _ Hr _) j c x v); clear.
  - intros w1 w2 [Hs Ho] Hst; split; [eapply slots_step | eapply orphaned_step]; eassumption.
  - split; [split|]; intros ? ? *; try done; intros ? Hx; done.
Qed.

(** Nor is there a limit for how many children of it run at the same time. *)
Lemma insert_snoc {A} (l : list A) (a b : A) : <[length l := b]> (l ++ [a]) = l ++ [b].
Proof. induction l as [|z l IH]; simpl; [done | rewrite IH; done]. Qed.

Lemma lookup_snoc_last {A} (l : list A) (a : A) : (l ++ [a]) !! length l = Some a.
Proof. apply list_lookup_middle; done. Qed.

Lemma one_more w m x : 0 < maxDepth cfg -> m <> "" -> turns w !! 0%nat = Some x -> depth x = 0 -> concurrencySem x = None ->
  exists w', star step w w' /\ running 0 w' = S (running 0 w) /\
    exists y, turns w' !! 0%nat = Some y /\ depth y = 0 /\ concurrencySem y = None.
Proof.
  intros Hdep Hm Hx H0 Hs; pose proof (lookup_lt_Some _ _ _ Hx) as Hlt.
  set (n := length (turns w)); set (i := length (calls w)).
  set (at_ p := mkCall 0 m false p); set (ts := turns w ++ [child_turn cfg 0 x]).
  exists (mkWorld (<[0%nat := with_child n x]> ts) ({[n]} ∪ activeTurnStates w) (calls w ++ [at_ (Running false n)]) (polled w) (orphans w)).
  assert (ts !! 0%nat = Some x) as Hx' by (unfold ts; rewrite lookup_app_l; done).
  split; [|split].
  - eapply star_step; [apply (step_call w 0 m false); done|].
    eapply star_step; [eapply (step_no_semaphore _ i (at_ Waiting) x); [apply lookup_snoc_last | done..]|].
    eapply star_step.
    { eapply (step_register _ i (at_ (Checking false)) x false); [cbn | done | done | rewrite H0; done | done].
      unfold i; rewrite insert_snoc; apply lookup_snoc_last. }
    eapply star_step; [|constructor].
    unfold set_pc; cbn; unfold i; rewrite !insert_snoc.
    pose proof (step_link (mkWorld ts ({[n]} ∪ activeTurnStates w) (calls w ++ [at_ (Registered false n)]) (polled w) (orphans w))
      i (at_ (Registered false n)) x false n (lookup_snoc_last _ _) eq_refl Hx') as Hst.
    unfold set_pc, set_turn in Hst; cbn in Hst; unfold i in Hst; rewrite insert_snoc in Hst; exact Hst.
  - unfold running; cbn [calls]; rewrite sum_list_with_app; change (sum_list_with (runs 0) [at_ (Running false n)]) with 1%nat; lia.
  - exists (with_child n x); cbn; rewrite list_lookup_insert_eq by (eapply lookup_lt_Some; exact Hx'); done.
Qed.

Theorem roots_have_no_limit n : 0 < maxDepth cfg -> exists w, reachable w /\ running 0 w = n.
Proof.
  intros Hdep.
  enough (exists w, reachable w /\ running 0 w = n /\ exists x, turns w !! 0%nat = Some x /\ depth x = 0 /\ concurrencySem x = None)
    as (w & ? & ? & _) by eauto.
  induction n as [|n (w & Hr & <- & x & Hx & H0 & Hs)].
  - eexists; split; [apply star_one; apply step_root|]; cbn; eauto.
  - destruct (one_more w "m" x Hdep ltac:(done) Hx H0 Hs) as (w' & Hw & Hn & Hy).
    exists w'; split; [eapply star_trans; eassumption | eauto].
Qed.

End SubTurns.

Arguments turn : clear implicits.
Arguments call : clear implicits.
Arguments world : clear implicits.
Arguments place : clear implicits.

(** ** The limits that are configured *)

(** Whatever the configuration says, the limits are positive. *)
Lemma getSubTurnConfig_positive c : let r := getSubTurnConfig c in
  0 < maxDepth r /\ 0 < maxConcurrent r /\ 0 < concurrencyTimeout r /\ 0 < defaultTimeout r.
Proof.
  unfold getSubTurnConfig; cbn [maxDepth maxConcurrent concurrencyTimeout defaultTimeout].
  repeat match goal with |- context [if ?a <=? 0 then _ else _] => destruct (Z.leb_spec a 0) end; repeat split; done.
Qed.

(** ** The session of a sub-turn

    [ephemeralSessionStore]: one conversation in memory, whatever the key. *)
Module EphemeralStore.

Record ephemeralSessionStore : Type := mkStore { history : list Message; summary : string }.

Definition maxEphemeralHistorySize : nat := 50.

Definition newEphemeralSession (initial : list Message) : ephemeralSessionStore := mkStore initial "".

Definition truncateLocked (e : ephemeralSessionStore) : ephemeralSessionStore :=
  if (maxEphemeralHistorySize <? length (history e))%nat
  then mkStore (drop (length (history e) - maxEphemeralHistorySize) (history e)) (summary e)
  else e.

Definition AddFullMessage (e : ephemeralSessionStore) (msg : Message) : ephemeralSessionStore :=
  truncateLocked (mkStore (history e ++ [msg]) (summary e)).

Definition AddMessage (e : ephemeralSessionStore) (role content : string) : ephemeralSessionStore :=
  truncateLocked (mkStore (history e ++ [text_message role content]) (summary e)).

Definition GetHistory (e : ephemeralSessionStore) : list Message := history e.
Definition GetSummary (e : ephemeralSessionStore) : string := summary e.

Definition SetSummary (e : ephemeralSessionStore) (v : string) : ephemeralSessionStore := mkStore (history e) v.

Definition SetHistory (e : ephemeralSessionStore) (h : list Message) : ephemeralSessionStore :=
  truncateLocked (mkStore h (summary e)).

Definition TruncateHistory (e : ephemeralSessionStore) (keepLast : Z) : ephemeralSessionStore :=
  if keepLast <=? 0 then mkStore [] (summary e)
  else if Z.of_nat (length (history e)) <=? keepLast then e
  else mkStore (drop (length (history e) - Z.to_nat keepLast) (history e)) (summary e).

(** The last messages. *)
Definition window (ms : list Message) : list Message := drop (length ms - maxEphemeralHistorySize) ms.

Lemma history_truncateLocked e : history (truncateLocked e) = window (history e).
Proof.
  unfold truncateLocked, window; destruct (Nat.ltb_spec maxEphemeralHistorySize (length (history e))); [reflexivity|].
  assert (length (history e) - maxEphemeralHistorySize = 0)%nat as -> by lia; reflexivity.
Qed.

Lemma length_window ms : (length (window ms) <= maxEphemeralHistorySize)%nat.
Proof. unfold window; rewrite length_drop; lia. Qed.

(** What came before the window does not matter for what is added to it. *)
Lemma window_app ms ns : window (window ms ++ ns) = window (ms ++ ns).
Proof.
  unfold window at 2; rewrite <- drop_app_le by lia; unfold window.
  rewrite drop_drop, length_drop, !length_app; f_equal; lia.
Qed.

(** The history is the window on everything that has been added. *)
Lemma history_adds ms e : history e = window (history e) ->
  history (fold_left AddFullMessage ms e) = window (history e ++ ms).
Proof.
  revert e; induction ms as [|m ms IH]; intros e He; cbn [fold_left]; [rewrite app_nil_r; done|].
  assert (history (AddFullMessage e m) = window (history e ++ [m])) as Ha by apply history_truncateLocked.
  rewrite IH, Ha, window_app, <- app_assoc; [done|].
  rewrite Ha; pose proof (window_app (history e ++ [m]) []) as Hw; rewrite !app_nil_r in Hw; done.
Qed.

(** A session of messages that are too many is cut with the first addition only. *)
Lemma newEphemeralSession_history ms m : history (AddFullMessage (newEphemeralSession ms) m) = window (ms ++ [m]).
Proof. apply history_truncateLocked. Qed.

Lemma history_TruncateHistory e n : history (TruncateHistory e n) = truncated n (history e).
Proof.
  unfold TruncateHistory, truncated; destruct (n <=? 0); [done|].
  destruct (Z.leb_spec (Z.of_nat (length (history e))) n); [|done].
  assert (length (history e) - Z.to_nat n = 0)%nat as -> by lia; done.
Qed.
End EphemeralStore.

(** ** A run

    The agent runs turn 0, a tool of it turn 1, and that one asynchronously turn
    2, whose result 7 arrives in the channel of turn 1, while turn 1 runs. *)

Definition demo_config : subTurnRuntimeConfig := getSubTurnConfig (mkConfig 0 2 0 0 0).

Definition demo_turns : list (turn nat) :=
  [mkTurn 0 None None 0 false false None [1%nat] false;
   mkTurn 1 (Some 0%nat) (Some 2) 0 false false (Some [(1%nat, Some 7%nat)]) [2%nat] true;
   mkTurn 2 (Some 1%nat) (Some 2) 0 false false (Some []) [] true].

Definition demo_calls : list (call nat) :=
  [mkCall 0 "m" false (Running false 1); mkCall 1 "m" true (Closing false 2 (Some 7%nat))].

Ltac demo_start :=
  eapply star_step; [apply step_root|];
  eapply star_step; [apply (step_call _ _ 0 "m" false); cbn; lia|];
  eapply star_step; [eapply (step_no_semaphore _ _ 0); reflexivity|];
  eapply star_step; [eapply (step_register _ _ 0); first [reflexivity | done]|];
  eapply star_step; [eapply (step_link _ _ 0); reflexivity|];
  eapply star_step; [apply (step_call _ _ 1 "m" true); cbn; lia|];
  eapply star_step; [eapply (step_acquire _ _ 1); reflexivity|];
  eapply star_step; [eapply (step_register _ _ 1); first [reflexivity | done]|];
  eapply star_step; [eapply (step_link _ _ 1); reflexivity|].

(** The same run while turn 2 still works. *)
Lemma demo_reachable_running : exists w : world nat, reachable demo_config w /\ descends (activeTurnStates w) (turns w) 1 2.
Proof.
  eexists; split; [unfold reachable|].
  - demo_start; apply star_refl.
  - eapply descends_child; [reflexivity | reflexivity | constructor | cbn; set_solver | constructor].
Qed.

Lemma demo_reachable : exists w, reachable demo_config w /\ turns w = demo_turns /\ calls w = demo_calls /\ 1%nat ∈ activeTurnStates w.
Proof.
  eexists; split; [unfold reachable|].
  - demo_start.
    eapply star_step; [eapply (step_run _ _ 1) with (v := 7%nat); reflexivity|].
    eapply star_step; [eapply (step_deliver _ _ 1); first [reflexivity | eexists; reflexivity]|].
    eapply star_step; [eapply (step_send _ _ 1); reflexivity|].
    apply star_refl.
  - split_and!; [reflexivity | reflexivity | set_solver].
Qed.

Lemma subturns_are_bounded_witness : exists (w : world nat) x, reachable demo_config w /\ turns w !! 1%nat = Some x /\
  0 <= depth x <= 3 /\ Z.of_nat (running 1 w) <= 2 /\ (forall buf, pendingResults x = Some buf -> Z.of_nat (length buf) <= 16).
Proof.
  destruct demo_reachable as (w & Hr & Ht & _).
  assert (exists x, turns w !! 1%nat = Some x /\ depth x = 1) as (x & Hx & Hd) by (rewrite Ht; cbn; eauto).
  exists w, x; split; [exact Hr|]; split; [exact Hx|].
  destruct (subturns_are_bounded demo_config w 1 x eq_refl eq_refl Hr Hx) as (H1 & H2 & H3).
  split; [exact H1|]; split; [apply H2; rewrite Hd; reflexivity | exact H3].
Defined.

Lemma async_results_arrive_once_witness : exists w : world nat, reachable demo_config w /\
  (in_channel 1 1 7%nat w + received 1 1 7%nat w + sum_list_with (entry 1 7%nat) (orphans w) = 1)%nat /\
  in_channel 0 1 7%nat w = 0%nat.
Proof.
  destruct demo_reachable as (w & Hr & _ & Hc & _); exists w; split; [exact Hr|].
  assert (calls w !! 1%nat = Some (mkCall 1 "m" true (Closing false 2 (Some 7%nat)))) as Hj by (rewrite Hc; reflexivity).
  destruct (async_results_arrive_once demo_config w 1 _ 7%nat Hr Hj) as [H1 H2].
  split; [exact H1 | exact (proj1 (H2 0%nat ltac:(discriminate)))].
Defined.

Lemma abort_reaches_descendants_witness : exists w : world nat, reachable demo_config w /\
  finished_at 2 (turns (HardAbort 1 w)).
Proof.
  destruct demo_reachable_running as (w & Hr & Hd); exists w; split; [exact Hr|].
  apply (abort_reaches_descendants demo_config w 1 2 Hr); [|exact Hd].
  inversion Hd as [|? x ? ? Hx]; subst; eapply lookup_lt_Some; exact Hx.
Defined.
