(* ===== verification/RunTurn.v ===== *)
(** * The turn as a program: [runTurn] of [src/pkg/agent/loop.go] with
    [tool_exec_shared.go] and [interactive_tool_exec.go]

    [Outside] is what the turn uses, [TurnConfig] how it is called. An early
    return is the error of the monad. *)

From S2P Require Import Prelude Effects GoStrings Message ContextBudget Session ContextManager Steering Hooks PromptContext AgentTurn.

(** ** What surrounds a turn *)

(** [IsChild] and [Critical] of a sub-turn. *)
Record TurnConfig : Type := mkConfig {
  TurnAgent : string;
  MaxIterations : Z;
  MaxTokens : Z;
  TurnContextWindow : Z;
  SessionKey : string;
  Channel : string;
  ChatID : string;
  UserMessage : string;
  UserMedia : list string;
  DefaultResponse : string;
  EnableSummary : bool;
  SendResponse : bool;
  NoHistory : bool;
  SkipInitialSteeringPoll : bool;
  AllowInterimPicoPublish : bool;
  InitialSteeringMessages : list Message;
  IsChild : bool;
  Critical : bool
}.

(** What other goroutines do: use the queue, interrupt, deliver the result of
    a child, end the parent, roll back the session ([AgentLoop.HardAbort]), or
    change sessions and the state of the context manager. *)
Inductive action (S C : Type) : Type :=
| AQueue (o : queue_op)
| AGraceful (hint : string)
| AHard
| AResult (r : option ToolResult)
| AParentEnd
| ARollback
| AOther (f : Stores S -> C -> Stores S * C).
Arguments AQueue {S C} o.
Arguments AGraceful {S C} hint.
Arguments AHard {S C}.
Arguments AResult {S C} r.
Arguments AParentEnd {S C}.
Arguments ARollback {S C}.
Arguments AOther {S C} f.

(** The clock, the other goroutines, the hooks, the model, settings and
    texts; [quoteText] is [strconv.Quote], [saveError] the error of writing a
    session, [sendMedia] the channel manager if there is one. *)
Record Outside (S C Args : Type) : Type := mkOutside {
  now : nat -> time;
  env : nat -> list (action S C);
  hookChain : list (HookRegistration Args (list ToolDefinition) (LLMResponse Args));
  chat : nat -> string -> list Message -> list ToolDefinition -> dialogue Args;
  modelName : string;
  nativeSearch : bool;
  resolveMediaRefs : list Message -> list Message;
  inputError : option string;
  filterSensitive : string -> string;
  staticPrompt : nat -> string;
  dynamicContext : nat -> string;
  skillsContext : nat -> string;
  toolTokens : list ToolDefinition -> Z;
  saveError : nat -> option string;
  sendMedia : option (nat -> option string);
  artifactTags : list string -> list string;
  quoteText : string -> string;
  marshal : Args -> string;
  parseArgs : string -> option Args;
  noArgs : Args;
  emptyArgs : Args -> bool
}.
Arguments now {S C Args} o n.
Arguments env {S C Args} o n.
Arguments hookChain {S C Args} o.
Arguments chat {S C Args} o n.
Arguments modelName {S C Args} o.
Arguments nativeSearch {S C Args} o.
Arguments resolveMediaRefs {S C Args} o.
Arguments inputError {S C Args} o.
Arguments filterSensitive {S C Args} o.
Arguments staticPrompt {S C Args} o n.
Arguments dynamicContext {S C Args} o n.
Arguments skillsContext {S C Args} o n.
Arguments toolTokens {S C Args} o.
Arguments saveError {S C Args} o n.
Arguments sendMedia {S C Args} o.
Arguments artifactTags {S C Args} o.
Arguments quoteText {S C Args} o.
Arguments marshal {S C Args} o.
Arguments parseArgs {S C Args} o.
Arguments noArgs {S C Args} o.
Arguments emptyArgs {S C Args} o.

(** What the turn does to the outside, in order. *)
Inductive output (Args : Type) : Type :=
| OCall (model : string) (messages : list Message) (defs : list ToolDefinition)
| OExec (name : string) (args : Args)
| OPublish (content : string)
| OMedia (refs : list string).
Arguments OCall {Args} model messages defs.
Arguments OExec {Args} name args.
Arguments OPublish {Args} content.
Arguments OMedia {Args} refs.

Inductive exit : Type := TurnAborted | TurnError (text : string) | TurnPanic | OutOfFuel.

Record World (S C R Args : Type) : Type := mkWorld {
  stores : Stores S;
  cm : C;
  tools : R;
  steering : steeringQueue;
  turn : turnState;
  outbox : list (output Args);
  clock : nat
}.
Arguments mkWorld {S C R Args}.
Arguments stores {S C R Args} w.
Arguments cm {S C R Args} w.
Arguments tools {S C R Args} w.
Arguments steering {S C R Args} w.
Arguments turn {S C R Args} w.
Arguments outbox {S C R Args} w.
Arguments clock {S C R Args} w.

(** The capacity of the channel of a child's results. *)
Definition resultCapacity : nat := 16.

Definition IsInternalChannel (channel : string) : bool :=
  String.eqb channel "cli" || String.eqb channel "system" || String.eqb channel "subagent".

Definition toolLimitResponse : string :=
  "I've reached `max_tool_iterations` without a final response. Increase `max_tool_iterations` in config.json if this task needs more tool steps.".
Definition handledToolResponseSummary : string := "Requested output delivered via tool attachment.".

Section Turn.
Context {S C R Args : Type} `{SessionStore S} `{ContextManager S C} `{ToolBox R Args}.
Context (o : Outside S C Args) (cfg : TurnConfig).

Abbreviation W := (World S C R Args).
Abbreviation M := (ST W exit).
Abbreviation key := (SessionKey cfg).

Definition on_turn (f : turnState -> turnState) (w : W) : W :=
  mkWorld (stores w) (cm w) (tools w) (steering w) (f (turn w)) (outbox w) (clock w).
Definition on_stores (f : Stores S -> Stores S) (w : W) : W :=
  mkWorld (f (stores w)) (cm w) (tools w) (steering w) (turn w) (outbox w) (clock w).
Definition with_manager (ss : Stores S) (c : C) (w : W) : W :=
  mkWorld ss c (tools w) (steering w) (turn w) (outbox w) (clock w).
Definition with_tools (r : R) (w : W) : W :=
  mkWorld (stores w) (cm w) r (steering w) (turn w) (outbox w) (clock w).
Definition with_steering (q : steeringQueue) (w : W) : W :=
  mkWorld (stores w) (cm w) (tools w) q (turn w) (outbox w) (clock w).
Definition say (x : output Args) (w : W) : W :=
  mkWorld (stores w) (cm w) (tools w) (steering w) (turn w) (outbox w ++ [x]) (clock w).
Definition tick (w : W) : W :=
  mkWorld (stores w) (cm w) (tools w) (steering w) (turn w) (outbox w) (Datatypes.S (clock w)).

(** The store of the agent of the turn. *)
Definition session (w : W) : S := stores w (TurnAgent cfg).
Definition on_session (f : S -> S) : W -> W := on_stores (fun ss => store_at (TurnAgent cfg) (f (ss (TurnAgent cfg))) ss).

(** ** The other goroutines *)

(** [deliverSubTurnResult]; a full channel makes the child wait. *)
Definition deliverSubTurnResult (r : option ToolResult) (t : turnState) : turnState :=
  match pendingResults t with
  | Some (buf, closed) =>
      if isFinished t || closed || (resultCapacity <=? length buf)%nat then t
      else set_results (Some (buf ++ [r], closed)) t
  | None => t
  end.

(** [AgentLoop.HardAbort] of the session of this turn. *)
Definition HardAbort (t : time) (w : W) : W :=
  let w := on_turn (Finish (IsChild cfg) true (negb (IsChild cfg))) w in
  let history := GetHistory (session w) key in
  let n := initialHistoryLength (turn w) in
  if (n <? length history)%nat then on_session (fun s => SetHistory t s key (take n history)) w else w.

Definition act (t : time) (w : W) (a : action S C) : W :=
  match a with
  | AQueue q => with_steering (fst (run_op (steering w) q)) w
  | AGraceful hint => on_turn (fun t => fst (requestGracefulInterrupt hint t)) w
  | AHard => on_turn (fun t => fst (requestHardAbort t)) w
  | AResult r => on_turn (deliverSubTurnResult r) w
  | AParentEnd => on_turn (set_ended false true) w
  | ARollback => HardAbort t w
  | AOther f => let '(ss, c) := f (stores w) (cm w) in with_manager ss c w
  end.

(** The others move and time goes on. *)
Definition yield : M nat := fun w =>
  (tick (fold_left (act (now o (clock w))) (env o (clock w)) w), Ok (clock w)).

Definition get {A} (f : W -> A) : M A := fun w => (w, Ok (f w)).
Definition modify (f : W -> W) : M unit := fun w => (f w, Ok tt).

(** A look at the shared state of the turn. *)
Definition look {A} (f : turnState -> A) : M A := let! _ := yield in get (fun w => f (turn w)).

Definition hardAbortRequested : M bool := look hardAbort.
Definition graceful : M bool := look gracefulInterruptRequested.

(** ** The queue and the children *)

Definition dequeueForScope : M (list Message) :=
  let! _ := yield in
  fun w => let '(q, msgs) := dequeueScope (steering w) key in (with_steering q w, Ok msgs).

Definition dequeueForScopeWithFallback : M (list Message) :=
  let! _ := yield in
  fun w => let '(q, msgs) := dequeueScopeWithFallback (steering w) key in (with_steering q w, Ok msgs).

(** One non-blocking receive: what it gives to the model, if anything. *)
Definition pollSubTurnResult : M (list Message) :=
  let! _ := yield in
  fun w =>
    match pendingResults (turn w) with
    | Some (r :: buf, closed) =>
        (on_turn (set_results (Some (buf, closed))) w,
         Ok (match r with
             | Some tr =>
                 if String.eqb (ForLLM tr) "" then []
                 else [text_message "user" ("[SubTurn Result] " +:+ filterSensitive o (ForLLM tr))]
             | None => []
             end))
    | _ => (w, Ok [])
    end.

(** ** The session *)

Definition ingestMessage (msg : Message) : M unit :=
  let! n := yield in
  fun w =>
    match Ingest n (stores w) (cm w) key msg with
    | (c, Panicking) => (with_manager (stores w) c w, Err TurnPanic)
    | (c, _) => (with_manager (stores w) c w, Ok tt)
    end.

Definition addToSession (msg : Message) : M unit :=
  let! n := yield in modify (on_session (fun s => AddFullMessage (now o n) s key msg)).

(** [AddFullMessage], [recordPersistedMessage] and, usually, the manager. *)
Definition persist (ingest : bool) (msg : Message) : M unit :=
  if NoHistory cfg then ret tt
  else
    let! _ := addToSession msg in
    let! _ := modify (on_turn (recordPersistedMessage msg)) in
    if ingest then ingestMessage msg else ret tt.

(** The error of [Save]. *)
Definition saveSession : M (option string) :=
  let! n := yield in
  match saveError o n with
  | Some e => ret (Some e)
  | None => let! _ := modify (on_session (fun s => Save (now o n) s key)) in ret None
  end.

Definition refreshRestorePointFromSession : M unit :=
  let! _ := yield in
  modify (fun w =>
    let history := GetHistory (session w) key in
    let matched := matchingTurnMessageTail history (persistedMessages (turn w)) in
    on_turn (captureRestorePoint (take (length history - matched) history) (GetSummary (session w) key)) w).

(** [restoreSession]: the error of its [Save]. *)
Definition restoreSession : M (option string) :=
  let! n := yield in
  let! _ := modify (fun w => on_session (fun s => SetHistory (now o n) s key (restorePointHistory (turn w))) w) in
  let! n := yield in
  let! _ := modify (fun w => on_session (fun s => SetSummary (now o n) s key (restorePointSummary (turn w))) w) in
  saveSession.

Definition abortTurn {A} : M A :=
  let! _ := modify (on_turn (set_phase TurnPhaseAborted)) in
  if NoHistory cfg then throw TurnAborted
  else
    let! e := restoreSession in
    match e with Some text => throw (TurnError text) | None => throw TurnAborted end.

(** ** The context *)

(** What is assembled, or the history and summary at hand. *)
Definition assemble (history : list Message) (summary : string) : M (list Message * string) :=
  let! n := yield in
  fun w =>
    match Assemble n (stores w) (cm w) key (TurnContextWindow cfg) (MaxTokens cfg) with
    | (c, Fine hs) => (with_manager (stores w) c w, Ok hs)
    | (c, Failing) => (with_manager (stores w) c w, Ok (history, summary))
    | (c, Panicking) => (with_manager (stores w) c w, Err TurnPanic)
    end.

Definition compact (reason : CompressReason) : M unit :=
  let! n := yield in
  modify (fun w => let '(ss, c) := Compact n (stores w) (cm w) key reason (TurnContextWindow cfg) in with_manager ss c w).

Definition build (history : list Message) (summary currentMessage : string) (media : list string) : M (list Message) :=
  let! n := yield in
  ret (BuildMessages (staticPrompt o n) (dynamicContext o n) (skillsContext o n) history summary currentMessage media).

(** What the loop keeps in variables. *)
Record locals : Type := mkLocals {
  history : list Message;
  summary : string;
  messages : list Message;
  pending : list Message;
  finalContent : string
}.

Definition with_messages (ms : list Message) (l : locals) : locals :=
  mkLocals (history l) (summary l) ms (pending l) (finalContent l).
Definition with_pending (ms : list Message) (l : locals) : locals :=
  mkLocals (history l) (summary l) (messages l) ms (finalContent l).
Definition with_final (c : string) (l : locals) : locals :=
  mkLocals (history l) (summary l) (messages l) (pending l) c.
Definition add_pending (ms : list Message) (l : locals) : locals := with_pending (pending l ++ ms) l.
Definition add_message (m : Message) (l : locals) : locals := with_messages (messages l ++ [m]) l.

Definition user_message : Message := mkMessage "user" (UserMessage cfg) (UserMedia cfg) "" [] [] "".

Definition has_user_message : bool :=
  negb (String.eqb (TrimSpace (UserMessage cfg)) "") || match UserMedia cfg with [] => false | _ => true end.

(** Everything before the loop. *)
Definition setup : M locals :=
  let! hs := if NoHistory cfg then ret ([], "") else assemble [] "" in
  let! _ := modify (on_turn (captureRestorePoint (fst hs) (snd hs))) in
  let! ms := build (fst hs) (snd hs) (UserMessage cfg) (UserMedia cfg) in
  match inputError o with
  | Some e => throw (TurnError e)
  | None =>
      let ms := resolveMediaRefs o ms in
      let! defs := get (fun w => ToProviderDefs (tools w)) in
      let! q :=
        if negb (NoHistory cfg) && isOverContextBudget (toolTokens o defs) (TurnContextWindow cfg) ms (MaxTokens cfg) then
          let! _ := compact ReasonProactive in
          let! _ := refreshRestorePointFromSession in
          let! hs := assemble (fst hs) (snd hs) in
          let! ms := build (fst hs) (snd hs) (UserMessage cfg) (UserMedia cfg) in
          ret (hs, resolveMediaRefs o ms)
        else ret (hs, ms) in
      let! _ := if has_user_message then persist true user_message else ret tt in
      ret (mkLocals (fst (fst q)) (snd (fst q)) (snd q) (InitialSteeringMessages cfg) "")
  end.

(** ** Tools *)

Definition hookDeniedToolContent (prefix reason : string) : string :=
  if String.eqb reason "" then prefix else prefix +:+ ": " +:+ reason.

Definition hookAbortError (stage : string) (d : HookDecision) : string :=
  "hook aborted turn during " +:+ stage +:+ ": "
  +:+ (if String.eqb (Reason d) "" then "hook requested turn abort" else Reason d).

Record beforeToolHookOutcome : Type := mkBefore {
  OutTool : string;
  OutArgs : Args;
  OutResult : option ToolResult;
  DenyContent : string;
  OutHard : bool
}.

Definition applyBeforeToolHooks (toolName : string) (toolArgs : Args) : M (result string beforeToolHookOutcome) :=
  let! n := yield in
  let '(toolReq, decision) := BeforeTool n (hookChain o) (mkToolRequest toolName toolArgs None) in
  let outcome := mkBefore toolName toolArgs None "" false in
  match normalizedAction decision with
  | HookActionContinue | HookActionModify =>
      ret (Ok (match toolReq with
               | Some r => mkBefore (ReqTool r) (ReqArguments r) None "" false
               | None => outcome
               end))
  | HookActionRespond =>
      ret (Ok (match toolReq with
               | Some r => mkBefore toolName toolArgs (ReqResult r) "" false
               | None => outcome
               end))
  | HookActionDenyTool =>
      ret (Ok (mkBefore toolName toolArgs None (hookDeniedToolContent "Tool execution denied by hook" (Reason decision)) false))
  | HookActionAbortTurn => ret (Err (hookAbortError "before_tool" decision))
  | HookActionHardAbort =>
      let! _ := modify (on_turn (fun t => fst (requestHardAbort t))) in
      ret (Ok (mkBefore toolName toolArgs None "" true))
  | OtherAction _ => ret (Ok outcome)
  end.

(** Empty for a call that is approved. *)
Definition approveToolExecution (toolName : string) (toolArgs : Args) : M string :=
  let! n := yield in
  let approval := ApproveTool (quoteText o) n (hookChain o) toolName toolArgs in
  ret (if Approved approval then ""
       else hookDeniedToolContent "Tool execution denied by approval hook" (ApprovalReason approval)).

Definition executeAgentTool (toolName : string) (toolArgs : Args) : M ToolResult :=
  let! _ := modify (say (OExec toolName toolArgs)) in
  let! n := yield in
  fun w => let '(r, res) := ExecuteWithContext n (tools w) toolName toolArgs in (with_tools r w, Ok res).

Record afterToolHookOutcome : Type := mkAfter { AfterResult : option ToolResult; AfterHard : bool }.

Definition applyAfterToolHooks (toolName : string) (toolArgs : Args) (toolResult : option ToolResult) :
    M (result string afterToolHookOutcome) :=
  let! n := yield in
  let '(toolResp, decision) := AfterTool n (hookChain o) (mkToolResponse toolName toolArgs toolResult) in
  match normalizedAction decision with
  | HookActionContinue | HookActionModify =>
      ret (Ok (mkAfter (match RespResult toolResp with Some r => Some r | None => toolResult end) false))
  | HookActionAbortTurn => ret (Err (hookAbortError "after_tool" decision))
  | HookActionHardAbort =>
      let! _ := modify (on_turn (fun t => fst (requestHardAbort t))) in
      ret (Ok (mkAfter toolResult true))
  | _ => ret (Ok (mkAfter toolResult false))
  end.

Definition set_handled (handled : bool) (r : ToolResult) : ToolResult :=
  mkToolResult (ForLLM r) (ForUser r) (Silent r) (IsError r) (Async r) (ErrText r) (ResultMedia r) (Hooks.ArtifactTags r) handled.
Definition set_tags (tags : list string) (r : ToolResult) : ToolResult :=
  mkToolResult (ForLLM r) (ForUser r) (Silent r) (IsError r) (Async r) (ErrText r) (ResultMedia r) tags (ResponseHandled r).

Definition has_media (r : ToolResult) : bool := match ResultMedia r with [] => false | _ => true end.

(** The media of a tool that answers the user itself. *)
Definition deliverMedia (r : ToolResult) : M ToolResult :=
  if has_media r && ResponseHandled r then
    let external := negb (String.eqb (Channel cfg) "") && negb (IsInternalChannel (Channel cfg)) in
    match sendMedia o, external with
    | Some send, true =>
        let! n := yield in
        match send n with
        | Some e =>
            let text := "failed to deliver attachment: " +:+ e in
            ret (mkToolResult text "" false true false (Some e) [] [] false)
        | None => let! _ := modify (say (OMedia (ResultMedia r))) in ret r
        end
    | _, _ => let! _ := modify (say (OMedia (ResultMedia r))) in ret (set_handled false r)
    end
  else ret r.

Definition tool_message (id content : string) (media : list string) : Message := mkMessage "tool" content media "" [] [] id.

Record finalizedToolExecution : Type := mkFinalized { FinalResult : ToolResult; FinalMessage : Message; contentForLLM : string }.

(** [None] is a nil result. *)
Definition finalizeToolExecution (toolCallID : string) (toolResult : option ToolResult) : M finalizedToolExecution :=
  let r := default (ErrorResult "tool returned nil result unexpectedly") toolResult in
  let! _ :=
    if negb (Silent r) && negb (String.eqb (ForUser r) "") && (SendResponse cfg || ResponseHandled r)
    then modify (say (OPublish (ForUser r))) else ret tt in
  let! r := deliverMedia r in
  let r := if has_media r && negb (ResponseHandled r) then set_tags (artifactTags o (ResultMedia r)) r else r in
  let content := filterSensitive o (ContentForLLM r) in
  let msg := tool_message toolCallID content (if has_media r && negb (ResponseHandled r) then ResultMedia r else []) in
  let! _ := persist true msg in
  ret (mkFinalized r msg content).

Definition persistToolSkipped (toolCallID content : string) (ingest : bool) : M Message :=
  let msg := tool_message toolCallID content [] in
  let! _ := persist ingest msg in
  ret msg.

(** ** Tools called while the model answers *)

Definition interactiveResult (f : finalizedToolExecution) : InteractiveToolResult :=
  mkInterResult (negb (IsError (FinalResult f))) (if String.eqb (contentForLLM f) "" then [] else [contentForLLM f]).

Definition call_of (id name arguments signature : string) (extra : option ExtraContent) : ToolCall :=
  mkToolCall id "function" (Some (mkFunctionCall name arguments signature)) name signature extra.

Definition persistInteractiveAssistantToolCall (call : InteractiveToolCall Args) : M unit :=
  persist true (mkMessage "assistant" "" [] "" []
                  [call_of (InterID call) (InterName call) (marshal o (InterArgs call)) "" None] "").

Definition denied (id content : string) : M (result string InteractiveToolResult) :=
  let! msg := persistToolSkipped id content true in
  ret (Ok (mkInterResult false [Content msg])).

Definition executeInteractiveToolCall (call : InteractiveToolCall Args) : M (result string InteractiveToolResult) :=
  let! _ := persistInteractiveAssistantToolCall call in
  let! before := applyBeforeToolHooks (InterName call) (InterArgs call) in
  match before with
  | Err e => ret (Err e)
  | Ok before =>
      if OutHard before then ret (Err "context canceled")
      else
        match OutResult before with
        | Some r => let! f := finalizeToolExecution (InterID call) (Some r) in ret (Ok (interactiveResult f))
        | None =>
            if negb (String.eqb (DenyContent before) "") then denied (InterID call) (DenyContent before)
            else
              let! deny := approveToolExecution (OutTool before) (OutArgs before) in
              if negb (String.eqb deny "") then denied (InterID call) deny
              else
                let! r := executeAgentTool (OutTool before) (OutArgs before) in
                let! after := applyAfterToolHooks (OutTool before) (OutArgs before) (Some r) in
                match after with
                | Err e => ret (Err e)
                | Ok after =>
                    if AfterHard after then ret (Err "context canceled")
                    else
                      let! f := finalizeToolExecution (InterID call)
                                  (Some (default (ErrorResult "hook returned nil tool result") (AfterResult after))) in
                      ret (Ok (interactiveResult f))
                end
        end
  end.

Fixpoint run_dialogue (d : dialogue Args) : M (result llm_error (LLMResponse Args)) :=
  match d with
  | Reply r => let! _ := yield in ret r
  | CallTool call k => let! a := executeInteractiveToolCall call in run_dialogue (k a)
  end.

(** ** Calls of the model *)

Definition callLLM (model : string) (ms : list Message) (defs : list ToolDefinition) : M (result llm_error (LLMResponse Args)) :=
  let! _ := modify (say (OCall model ms defs)) in
  let! n := yield in
  run_dialogue (chat o n model ms defs).

Definition isTimeoutError (e : llm_error) : bool :=
  let errMsg := ToLower (ErrorText e) in
  IsDeadline e || Contains errMsg "deadline exceeded" || Contains errMsg "client.timeout" || Contains errMsg "timed out"
  || Contains errMsg "timeout exceeded".

Definition isContextError (e : llm_error) : bool :=
  let errMsg := ToLower (ErrorText e) in
  negb (isTimeoutError e) &&
  existsb (Contains errMsg)
    ["context_length_exceeded"; "context window"; "context_window"; "maximum context length"; "token limit";
     "too many tokens"; "max_tokens"; "invalidparameter"; "prompt is too long"; "request too large"].

Definition maxRetries : nat := 2.

Definition with_hint (terminal : bool) (ms : list Message) : M (list Message) :=
  if terminal then get (fun w => ms ++ [interruptHintMessage (turn w)]) else ret ms.

(** After the model found the context too long: the session is compacted and
    the messages are built again. *)
Definition rebuild (retry : nat) (terminal : bool) (l : locals) : M (locals * list Message) :=
  let! _ :=
    if Nat.eqb retry 0 && negb (IsInternalChannel (Channel cfg)) then
      modify (say (OPublish "Context window exceeded. Compressing history and retrying..."))
    else ret tt in
  let! _ := compact ReasonRetry in
  let! _ := refreshRestorePointFromSession in
  let! hs := assemble (history l) (summary l) in
  let! ms := build (fst hs) (snd hs) "" [] in
  let! calls := with_hint terminal ms in
  ret (mkLocals (fst hs) (snd hs) ms (pending l) (finalContent l), calls).

(** The loop over [retry]; [left] counts what is left of it. The context is
    cancelled with the turn, so a sleep ends early then. *)
Fixpoint call_with_retries (left : nat) (terminal : bool) (model : string) (defs : list ToolDefinition) (l : locals)
    (callMessages : list Message) : M (result llm_error (LLMResponse Args) * locals) :=
  let! r := callLLM model callMessages defs in
  match r with
  | Ok resp => ret (Ok resp, l)
  | Err e =>
      let! hard := hardAbortRequested in
      if hard && IsCanceled e then abortTurn
      else
        match left with
        | O => ret (Err e, l)
        | Datatypes.S left' =>
            if isTimeoutError e then
              let! cancelled := look ctxDone in
              if cancelled then
                let! hard := hardAbortRequested in
                if hard then abortTurn else ret (Err (mkLLMError "context canceled" true false), l)
              else call_with_retries left' terminal model defs l callMessages
            else if isContextError e && negb (NoHistory cfg) then
              let! q := rebuild (maxRetries - left)%nat terminal l in
              call_with_retries left' terminal model defs (fst q) (snd q)
            else ret (Err e, l)
        end
  end.

(** ** The calls of a response *)

(** [NormalizeToolCall] of [src/pkg/providers/toolcall_utils.go]: the call
    with its function, and its arguments. *)
Definition NormalizeToolCall (tc : RespCall Args) : ToolCall * FunctionCall * Args :=
  let e := Encoded tc in
  let name := match Function e with
              | Some f => if String.eqb (CallName e) "" then FnName f else CallName e
              | None => CallName e
              end in
  let args := default (noArgs o) (CallArguments tc) in
  let args := match Function e with
              | Some f => if emptyArgs o args && negb (String.eqb (FnArguments f) "")
                          then default args (parseArgs o (FnArguments f)) else args
              | None => args
              end in
  let argsJSON := marshal o args in
  let fn := match Function e with
            | None => mkFunctionCall name argsJSON ""
            | Some f => mkFunctionCall (if String.eqb (FnName f) "" then name else FnName f)
                          (if String.eqb (FnArguments f) "" then argsJSON else FnArguments f) (FnThoughtSignature f)
            end in
  let name := if String.eqb name "" then FnName fn else name in
  (mkToolCall (CallID e) (CallType e) (Some fn) name (CallThoughtSignature e) (CallExtra e), fn, args).

Definition assistant_message (resp : LLMResponse Args) (calls : list (ToolCall * FunctionCall * Args)) : Message :=
  mkMessage "assistant" (RespContent resp) [] (RespReasoningContent resp) []
    (map (fun c => let '(tc, fn, args) := c in
                   call_of (CallID tc) (CallName tc) (marshal o args) (FnThoughtSignature fn) (CallExtra tc)) calls) "".

(** What the loop over the calls has: its variables, and whether every tool
    answered the user itself. *)
Record tool_state : Type := mkToolState { vars : locals; allHandled : bool }.

Definition add_tool_message (m : Message) (handled : bool) (st : tool_state) : tool_state :=
  mkToolState (add_message m (vars st)) (allHandled st && handled).

(** A call that is neither denied nor answered by a hook; an early return for
    the errors of hooks. *)
Definition run_tool (id : string) (before : beforeToolHookOutcome) : M (result Message finalizedToolExecution) :=
  match OutResult before with
  | Some r => let! f := finalizeToolExecution id (Some r) in ret (Ok f)
  | None =>
      if negb (String.eqb (DenyContent before) "") then
        let! m := persistToolSkipped id (DenyContent before) false in ret (Err m)
      else
        let! deny := approveToolExecution (OutTool before) (OutArgs before) in
        if negb (String.eqb deny "") then let! m := persistToolSkipped id deny false in ret (Err m)
        else
          let! r := executeAgentTool (OutTool before) (OutArgs before) in
          let! hard := hardAbortRequested in
          if hard then abortTurn
          else
            let! after := applyAfterToolHooks (OutTool before) (OutArgs before) (Some r) in
            match after with
            | Err e => throw (TurnError e)
            | Ok after =>
                if AfterHard after then abortTurn
                else
                  let! f := finalizeToolExecution id
                              (Some (default (ErrorResult "hook returned nil tool result") (AfterResult after))) in
                  ret (Ok f)
            end
  end.

(** The messages in place of the calls that are not made. *)
Fixpoint skip_calls (skipMessage : string) (calls : list (ToolCall * FunctionCall * Args)) (st : tool_state) : M tool_state :=
  match calls with
  | [] => ret st
  | (tc, _, _) :: rest =>
      let msg := tool_message (CallID tc) skipMessage [] in
      let! _ := persist false msg in
      skip_calls skipMessage rest (mkToolState (add_message msg (vars st)) (allHandled st))
  end.

(** The result of a child that arrived while a tool ran: sent to the model and
    written into the session, even of a turn without history. *)
Definition inject_result (st : tool_state) : M tool_state :=
  let! msgs := pollSubTurnResult in
  match msgs with
  | msg :: _ =>
      let! _ := addToSession msg in
      ret (mkToolState (add_message msg (vars st)) (allHandled st))
  | [] => ret st
  end.

Fixpoint run_calls (calls : list (ToolCall * FunctionCall * Args)) (st : tool_state) : M tool_state :=
  match calls with
  | [] => ret st
  | (tc, fn, args) :: rest =>
      let! hard := hardAbortRequested in
      if hard then abortTurn
      else
        let! before := applyBeforeToolHooks (CallName tc) args in
        match before with
        | Err e => throw (TurnError e)
        | Ok before =>
            if OutHard before then abortTurn
            else
              let! r := run_tool (CallID tc) before in
              match r with
              | Err m => run_calls rest (add_tool_message m false st)
              | Ok f =>
                  let st := add_tool_message (FinalMessage f) (ResponseHandled (FinalResult f)) st in
                  let! steerMsgs := dequeueForScope in
                  let st := mkToolState (add_pending steerMsgs (vars st)) (allHandled st) in
                  let! skipMessage :=
                    match pending (vars st) with
                    | _ :: _ => ret "Skipped due to queued user message."
                    | [] => let! g := graceful in ret (if g then "Skipped due to graceful interrupt." else "")
                    end in
                  if String.eqb skipMessage "" then let! st := inject_result st in run_calls rest st
                  else skip_calls skipMessage rest st
              end
        end
  end.

(** ** The loop *)

(** How one iteration ends: the condition of the loop is looked at again, the
    loop is left, or the turn ends with what tools delivered. *)
Inductive step_end : Type := Again (l : locals) | Leave (l : locals) | Delivered (l : locals).

(** The messages that wait are given to the model and written. *)
Fixpoint inject_pending (resolved pms : list Message) (l : locals) : M locals :=
  match pms with
  | [] => ret l
  | pm :: rest =>
      let l := match resolved with r :: _ => add_message r l | [] => l end in
      let! _ := persist true pm in
      inject_pending (tail resolved) rest l
  end.

Definition poll_steering (iteration : Z) : M (list Message) :=
  if 1 <? iteration then dequeueForScope
  else if SkipInitialSteeringPoll cfg then ret []
  else dequeueForScopeWithFallback.

Definition request_tools (r : R) : list ToolDefinition :=
  if nativeSearch o && has_tool r "web_search"
  then List.filter (fun d => negb (String.eqb (DefName d) "web_search")) (ToProviderDefs r)
  else ToProviderDefs r.

(** A direct answer, unless a user steers just then. *)
Definition direct_answer (resp : LLMResponse Args) (l : locals) : M step_end :=
  let content :=
    if String.eqb (RespContent resp) "" && negb (String.eqb (RespReasoningContent resp) "") && negb (String.eqb (Channel cfg) "pico")
    then RespReasoningContent resp else RespContent resp in
  let! steerMsgs := dequeueForScope in
  match steerMsgs with
  | _ :: _ => ret (Again (add_pending steerMsgs l))
  | [] => ret (Leave (with_final content l))
  end.

Definition finishDelivered (l : locals) : M step_end :=
  match pending l with
  | _ :: _ => ret (Again (with_final "" l))
  | [] =>
      let! steerMsgs := dequeueForScope in
      match steerMsgs with
      | _ :: _ => ret (Again (with_final "" (add_pending steerMsgs l)))
      | [] => ret (Delivered l)
      end
  end.

Definition tool_round (resp : LLMResponse Args) (l : locals) : M step_end :=
  let calls := map NormalizeToolCall (RespCalls resp) in
  let msg := assistant_message resp calls in
  let! _ := persist true msg in
  let! _ := modify (on_turn (set_phase TurnPhaseTools)) in
  let! st := run_calls calls (mkToolState (add_message msg l) (match calls with [] => false | _ => true end)) in
  if allHandled st then finishDelivered (vars st)
  else let! _ := modify (fun w => with_tools (TickTTL (tools w)) w) in ret (Again (vars st)).

(** From the request to the response, with the hooks around it. *)
Definition ask (terminal : bool) (l : locals) : M (LLMResponse Args * locals) :=
  let! defs := get (fun w => if terminal then [] else request_tools (tools w)) in
  let! callMessages := with_hint terminal (messages l) in
  let! _ := if terminal then modify (on_turn markGracefulTerminalUsed) else ret tt in
  let! n := yield in
  let '(req, decision) := BeforeLLM n (hookChain o) (mkLLMRequest (modelName o) callMessages defs) in
  let! q :=
    match normalizedAction decision with
    | HookActionContinue | HookActionModify => ret req
    | HookActionAbortTurn => throw (TurnError (hookAbortError "before_llm" decision))
    | HookActionHardAbort => let! _ := modify (on_turn (fun t => fst (requestHardAbort t))) in abortTurn
    | _ => ret (mkLLMRequest (modelName o) callMessages defs)
    end in
  let! r := call_with_retries maxRetries terminal (ReqModel q) (ReqTools q) l (ReqMessages q) in
  let '(res, l) := r in
  match res with
  | Err e => throw (TurnError ("LLM call failed after retries: " +:+ ErrorText e))
  | Ok resp =>
      let! n := yield in
      let '(resp', decision) := AfterLLM n (hookChain o) (Some resp) in
      match normalizedAction decision with
      | HookActionContinue | HookActionModify => ret (default resp resp', l)
      | HookActionAbortTurn => throw (TurnError (hookAbortError "after_llm" decision))
      | HookActionHardAbort => let! _ := modify (on_turn (fun t => fst (requestHardAbort t))) in abortTurn
      | _ => ret (resp, l)
      end
  end.

Definition interim (resp : LLMResponse Args) : M unit :=
  if String.eqb (Channel cfg) "pico" && match RespCalls resp with [] => false | _ => true end && AllowInterimPicoPublish cfg
     && negb (String.eqb (TrimSpace (RespContent resp)) "")
  then modify (say (OPublish (RespContent resp))) else ret tt.

Definition turn_step (l : locals) : M step_end :=
  let! hard := hardAbortRequested in
  if hard then abortTurn
  else
    let! i := get (fun w => iteration (turn w) + 1) in
    let! _ := modify (on_turn (fun t => set_phase TurnPhaseRunning (set_iteration i t))) in
    let! steerMsgs := poll_steering i in
    let l := add_pending steerMsgs l in
    let! ended := look parentFlag in
    if IsChild cfg && ended && negb (Critical cfg) then ret (Leave l)
    else
      let! results := pollSubTurnResult in
      let l := add_pending results l in
      let! l := inject_pending (resolveMediaRefs o (pending l)) (pending l) l in
      let l := with_pending [] l in
      let! terminal := graceful in
      let l := if 1 <? i then with_messages (resolveMediaRefs o (messages l)) l else l in
      let! q := ask terminal l in
      let '(resp, l) := q in
      let! _ := interim resp in
      match RespCalls resp with
      | [] => direct_answer resp l
      | _ => if terminal then direct_answer resp l else tool_round resp l
      end.

Definition keep_going (l : locals) : M bool :=
  let! i := get (fun w => iteration (turn w)) in
  if i <? MaxIterations cfg then ret true
  else match pending l with
       | _ :: _ => ret true
       | [] => graceful
       end.

(** The end of a turn that was left by the loop. *)
Definition finalize (l : locals) : M string :=
  let! hard := hardAbortRequested in
  if hard then abortTurn
  else
    let! i := get (fun w => iteration (turn w)) in
    let content :=
      if String.eqb (finalContent l) "" then
        if (MaxIterations cfg <=? i) && (0 <? MaxIterations cfg) then toolLimitResponse else DefaultResponse cfg
      else finalContent l in
    let! _ := modify (on_turn (fun t => set_final content (set_phase TurnPhaseFinalizing t))) in
    let! _ := persist true (text_message "assistant" content) in
    let! e := if NoHistory cfg then ret None else saveSession in
    match e with
    | Some text => throw (TurnError text)
    | None =>
        let! _ := if EnableSummary cfg then compact ReasonSummarize else ret tt in
        let! _ := modify (on_turn (set_phase TurnPhaseCompleted)) in
        ret content
    end.

Definition finalize_delivered : M string :=
  let! _ := persist true (text_message "assistant" handledToolResponseSummary) in
  let! e := if NoHistory cfg then ret None else saveSession in
  match e with
  | Some text => throw (TurnError text)
  | None =>
      let! _ := if EnableSummary cfg then compact ReasonSummarize else ret tt in
      let! _ := modify (on_turn (fun t => set_final "" (set_phase TurnPhaseCompleted t))) in
      ret ""
  end.

(** [turnLoop]: the fuel bounds how often its condition is looked at. *)
Fixpoint turnLoop (fuel : nat) (l : locals) : M string :=
  match fuel with
  | O => throw OutOfFuel
  | Datatypes.S fuel' =>
      let after l :=
        let! steerMsgs := dequeueForScope in
        match steerMsgs with
        | _ :: _ => turnLoop fuel' (with_final "" (add_pending steerMsgs l))
        | [] => finalize l
        end in
      let! go := keep_going l in
      if go then
        let! e := turn_step l in
        match e with
        | Again l => turnLoop fuel' l
        | Leave l => after l
        | Delivered _ => finalize_delivered
        end
      else after l
  end.

Definition runTurn (fuel : nat) : M string :=
  let! l := setup in turnLoop fuel l.
End Turn.
