(* ===== verification/TurnDemo.v ===== *)
(** * A small world for turns

    Concrete parameters with which the theorems about turns are instantiated:
    one agent with sessions in memory and the legacy context manager, one tool
    that answers its argument, and a model that calls it once. *)

From S2P Require Import Prelude Effects Message Session ContextManager LegacyContext LegacyManager Steering Hooks AgentTurn RunTurn.

(** The tools: how often the clock of their lifetimes has ticked. *)
#[global] Instance echo_tools : ToolBox nat string := {
  ToProviderDefs _ := [mkDef "echo" "" "{}"];
  has_tool _ name := String.eqb name "echo";
  ExecuteWithContext n r name args := (r, NewToolResult args);
  TickTTL r := Datatypes.S r
}.

#[global] Instance demo_manager : ContextManager Manager.SessionManager legacyContextManager :=
  legacy_manager one_agent (fun _ => []) (fun _ => 0).

Definition echo_call (id args : string) : RespCall string :=
  mkRespCall (mkToolCall id "function" (Some (mkFunctionCall "echo" args "")) "echo" "" None) (Some args).

Definition is_tool_message (m : Message) : bool := String.eqb (Role m) "tool".

(** The model calls the tool, and answers when it sees a result. *)
Definition demo_model (n : nat) (model : string) (ms : list Message) (defs : list ToolDefinition) : dialogue string :=
  if existsb is_tool_message ms then Reply (Ok (mkResponse "done" "" []))
  else Reply (Ok (mkResponse "" "" [echo_call "c1" "one"; echo_call "c2" "two"])).

Definition demo_cfg : TurnConfig :=
  mkConfig "main" 3 1000 100000 "s" "telegram" "7" "please" [] "nothing" false false false false false [] false false.

Definition demo_outside (acts : nat -> list (action Manager.SessionManager legacyContextManager)) :
    Outside Manager.SessionManager legacyContextManager string :=
  mkOutside _ _ _ (fun _ => 0) acts [] demo_model "m" false (fun ms => ms) None (fun s => s) (fun _ => "static") (fun _ => "now")
    (fun _ => "") (fun _ => 0) (fun _ => None) None (fun refs => refs) (fun s => s) (fun s => s) (fun s => Some s) ""
    (fun s => String.eqb s "").

Definition fresh_turn : turnState :=
  mkTurn TurnPhaseSetup 0 "" false "" false false [] "" [] None false false false 0 false.

Definition demo_sessions : Stores Manager.SessionManager :=
  fun _ => {["s" := mkSession "s" [text_message "user" "hi"; text_message "assistant" "hello"] "greetings" 0 0]}.

Definition demo_world : World Manager.SessionManager legacyContextManager nat string :=
  mkWorld demo_sessions (mkLegacy ∅ [] []) 0%nat (newSteeringQueue SteeringOneAtATime) fresh_turn [] 0%nat.

(** What the turn has written into its session, and sent. *)
Definition texts (w : World Manager.SessionManager legacyContextManager nat string) : list (string * string) :=
  map (fun m => (Role m, Content m)) (GetHistory (stores w "main") "s").

Example demo_turn :
  let '(w, r) := runTurn (demo_outside (fun _ => [])) demo_cfg 9 demo_world in
  r = Ok "done" /\
  texts w = [("user", "hi"); ("assistant", "hello"); ("user", "please"); ("assistant", ""); ("tool", "one"); ("tool", "two");
             ("assistant", "done")] /\
  iteration (turn w) = 2.
Proof. vm_compute. done. Qed.

(** A user who steers after the first tool: the second call is skipped. *)
Definition steering_at (k : nat) (n : nat) : list (action Manager.SessionManager legacyContextManager) :=
  if Nat.eqb n k then [AQueue (OpPush "s" (text_message "user" "wait"))] else [].

Example demo_steered :
  let '(w, r) := runTurn (demo_outside (steering_at 20)) demo_cfg 9 demo_world in
  r = Ok "done" /\
  texts w = [("user", "hi"); ("assistant", "hello"); ("user", "please"); ("assistant", ""); ("tool", "one");
             ("tool", "Skipped due to queued user message."); ("user", "wait"); ("assistant", "done")].
Proof. vm_compute. done. Qed.

(** A hard abort: the session is as before. *)
Definition abort_at (k : nat) (n : nat) : list (action Manager.SessionManager legacyContextManager) :=
  if Nat.eqb n k then [AHard] else [].

Example demo_aborted :
  let '(w, r) := runTurn (demo_outside (abort_at 20)) demo_cfg 9 demo_world in
  r = Err TurnAborted /\ texts w = [("user", "hi"); ("assistant", "hello")].
Proof. vm_compute. done. Qed.
