(* ===== verification/TurnMoves.v ===== *)
(** * The steps of a turn

    A turn changes the world by the steps of [move] only. A relation that
    holds of each step holds between the ends of every part of the turn. *)

From S2P Require Import Prelude Effects GoStrings Message Session ContextManager Steering Hooks PromptContext AgentTurn RunTurn.

Section Moves.
Context {S C R Args : Type} `{SessionStore S} `{ContextManager S C} `{ToolBox R Args}.
Context (o : Outside S C Args) (cfg : TurnConfig).
Abbreviation W := (World S C R Args).

(** The scopes that the turn takes messages from. *)
Definition own_scope (w : W) (scope : string) : Prop :=
  scope = normalizeSteeringScope (SessionKey cfg) \/ scope = fallback_scope (steering w) (SessionKey cfg).

(** What is sent to the user. *)
Definition to_user (x : output Args) : bool := match x with OPublish _ | OMedia _ => true | _ => false end.

Inductive move : W -> W -> Prop :=
| move_others w : move w (tick (fold_left (act cfg (now o (clock w))) (env o (clock w)) w))
| move_phase p w : move w (on_turn (set_phase p) w)
| move_final c p w : move w (on_turn (fun t => set_final c (set_phase p t)) w)
| move_final_phase c p w : move w (on_turn (fun t => set_phase p (set_final c t)) w)
| move_used w : move w (on_turn markGracefulTerminalUsed w)
| move_hard w : move w (on_turn (fun t => fst (requestHardAbort t)) w)
| move_capture h s w : move w (on_turn (captureRestorePoint h s) w)
| move_record m w : move w (on_turn (recordPersistedMessage m) w)
| move_result r buf closed w :
    pendingResults (turn w) = Some (r :: buf, closed) -> move w (on_turn (set_results (Some (buf, closed))) w)
| move_session f w : move w (on_session cfg f w)
| move_manager c w : move w (with_manager (stores w) c w)
| move_compact n reason w :
    move w (let '(ss, c) := Compact n (stores w) (cm w) (SessionKey cfg) reason (TurnContextWindow cfg) in with_manager ss c w)
| move_tools r w : move w (with_tools r w)
| move_dequeue scope w : own_scope w scope -> move w (with_steering (fst (dequeueLocked (steering w) scope)) w)
| move_say x w : to_user x = true -> move w (say x w)
| move_exec n name args w :
    Approved (ApproveTool (quoteText o) n (hookChain o) name args) = true -> move w (say (OExec name args) w).

Context (Rel : W -> W -> Prop) `{!PreOrder Rel} (Hmove : forall w w', move w w' -> Rel w w').

Lemma keeps_pure {A} (m : ST W exit A) : (forall w, fst (m w) = w) -> keeps Rel m.
Proof. intros Hm w w' r E. specialize (Hm w). rewrite E in Hm. simpl in Hm. by subst. Qed.

Lemma keeps_step {A} (m : ST W exit A) : (forall w, move w (fst (m w))) -> keeps Rel m.
Proof. intros Hm w w' r E. apply Hmove. specialize (Hm w). by rewrite E in Hm. Qed.

Lemma keeps_modify f : (forall w, move w (f w)) -> keeps Rel (modify f).
Proof. intros Hf. by apply keeps_step. Qed.

Lemma keeps_get {A} (f : W -> A) : keeps Rel (get f).
Proof. by apply keeps_pure. Qed.

Lemma keeps_yield : keeps Rel (yield o cfg).
Proof. apply keeps_step. intros w. apply move_others. Qed.

Lemma keeps_after_yield {A} (k : nat -> ST W exit A) : (forall n, keeps Rel (k n)) -> keeps Rel (bind (yield o cfg) k).
Proof. intros Hk. apply keeps_bind; [done | apply keeps_yield | done]. Qed.

Lemma keeps_look {A} (f : turnState -> A) : keeps Rel (look o cfg f).
Proof. apply keeps_after_yield. intros _. apply keeps_get. Qed.

Lemma keeps_dequeue : keeps Rel (dequeueForScope o cfg).
Proof.
  apply keeps_after_yield. intros _. apply keeps_step. intros w. unfold dequeueScope.
  pose proof (move_dequeue _ w (or_introl eq_refl)) as Hm. by destruct (dequeueLocked _ _).
Qed.

Lemma keeps_dequeue_fallback : keeps Rel (dequeueForScopeWithFallback o cfg).
Proof.
  apply keeps_after_yield. intros _. apply keeps_step. intros w. rewrite dequeueScopeWithFallback_eq.
  pose proof (move_dequeue _ w (or_intror eq_refl)) as Hm. by destruct (dequeueLocked _ _).
Qed.

Lemma keeps_poll : keeps Rel (pollSubTurnResult o cfg).
Proof.
  apply keeps_after_yield. intros _ w w' r E.
  destruct (pendingResults (turn w)) as [[[|x buf] closed]|] eqn:Ep; injection E as <- _; [done | | done].
  by apply Hmove, (move_result x).
Qed.

Lemma keeps_ingest msg : keeps Rel (ingestMessage o cfg msg).
Proof.
  apply keeps_after_yield. intros n. apply keeps_step. intros w.
  destruct (Ingest n (stores w) (cm w) (SessionKey cfg) msg) as [c [u| |]]; apply move_manager.
Qed.

Lemma keeps_assemble h s : keeps Rel (assemble o cfg h s).
Proof.
  apply keeps_after_yield. intros n. apply keeps_step. intros w.
  destruct (Assemble n (stores w) (cm w) (SessionKey cfg) (TurnContextWindow cfg) (MaxTokens cfg)) as [c [u| |]];
    apply move_manager.
Qed.

Lemma keeps_compact reason : keeps Rel (compact o cfg reason).
Proof. apply keeps_after_yield. intros n. apply keeps_modify. intros w. apply move_compact. Qed.

Lemma keeps_build h s c m : keeps Rel (build o cfg h s c m).
Proof. apply keeps_after_yield. intros n. by apply keeps_ret. Qed.

Lemma keeps_addToSession msg : keeps Rel (addToSession o cfg msg).
Proof. apply keeps_after_yield. intros n. apply keeps_modify. intros w. apply move_session. Qed.

Lemma keeps_refresh : keeps Rel (refreshRestorePointFromSession o cfg).
Proof. apply keeps_after_yield. intros n. apply keeps_modify. intros w. apply move_capture. Qed.

Lemma keeps_say x : to_user x = true -> keeps Rel (modify (say x)).
Proof. intros Hx. apply keeps_modify. intros w. by apply move_say. Qed.

Lemma keeps_hint terminal ms : keeps Rel (with_hint terminal ms).
Proof. unfold with_hint. destruct terminal; [apply keeps_get | by apply keeps_ret]. Qed.

Hint Resolve keeps_get keeps_yield keeps_look keeps_dequeue keeps_dequeue_fallback keeps_poll keeps_ingest keeps_assemble
  keeps_compact keeps_build keeps_addToSession keeps_refresh keeps_say keeps_hint : go.

(** The constructor of a step that is one change of the state. *)
Ltac one_move := apply keeps_modify; intros ?; constructor.
Hint Extern 2 (keeps _ (modify _)) => one_move : go.

Lemma keeps_persist ingest msg : keeps Rel (persist o cfg ingest msg).
Proof. unfold persist. keeps_auto. Qed.
Hint Resolve keeps_persist : go.

Lemma keeps_save : keeps Rel (saveSession o cfg).
Proof. unfold saveSession. keeps_auto. Qed.
Hint Resolve keeps_save : go.

Lemma keeps_restore : keeps Rel (restoreSession o cfg).
Proof.
  unfold restoreSession. apply keeps_after_yield. intros n.
  apply keeps_bind; [done | apply keeps_modify; intros w; apply (move_session _ w) | intros _].
  apply keeps_after_yield. intros n'.
  apply keeps_bind; [done | apply keeps_modify; intros w; apply (move_session _ w) | intros _].
  apply keeps_save.
Qed.
Hint Resolve keeps_restore : go.

Lemma keeps_abort {A} : keeps Rel (abortTurn o cfg (A := A)).
Proof. unfold abortTurn. keeps_auto. Qed.
Hint Resolve keeps_abort : go.

Lemma keeps_before name args : keeps Rel (applyBeforeToolHooks o cfg name args).
Proof. unfold applyBeforeToolHooks. keeps_auto. Qed.

Lemma keeps_after name args r : keeps Rel (applyAfterToolHooks o cfg name args r).
Proof. unfold applyAfterToolHooks. keeps_auto. Qed.

Lemma keeps_deliver r : keeps Rel (deliverMedia o cfg r).
Proof. unfold deliverMedia. keeps_auto. Qed.
Hint Resolve keeps_before keeps_after keeps_deliver : go.

Lemma keeps_finalizeTool id r : keeps Rel (finalizeToolExecution o cfg id r).
Proof. unfold finalizeToolExecution. keeps_auto. Qed.

Lemma keeps_skipped id c ingest : keeps Rel (persistToolSkipped o cfg id c ingest).
Proof. unfold persistToolSkipped. keeps_auto. Qed.

Lemma keeps_denied id c : keeps Rel (denied o cfg id c).
Proof. unfold denied. pose proof keeps_skipped. keeps_auto. Qed.
Hint Resolve keeps_finalizeTool keeps_skipped keeps_denied : go.

(** A tool runs only behind its approval. *)
Lemma denied_text prefix reason : prefix <> "" -> hookDeniedToolContent prefix reason <> "".
Proof. unfold hookDeniedToolContent. case_match; [done|]. by destruct prefix. Qed.

Lemma keeps_exec n name args : Approved (ApproveTool (quoteText o) n (hookChain o) name args) = true ->
  keeps Rel (executeAgentTool o cfg name args).
Proof.
  intros Ha. apply keeps_bind; [done | apply keeps_modify; intros w; by eapply move_exec | intros _].
  apply keeps_after_yield. intros t. apply keeps_step. intros w.
  destruct (ExecuteWithContext t (tools w) name args) as [r res]. apply move_tools.
Qed.

Lemma keeps_approved {A} name args (refuse : string -> ST W exit A) (go : ToolResult -> ST W exit A) :
  (forall d, keeps Rel (refuse d)) -> (forall r, keeps Rel (go r)) ->
  keeps Rel (let! deny := approveToolExecution o cfg name args in
             if negb (String.eqb deny "") then refuse deny else let! r := executeAgentTool o cfg name args in go r).
Proof.
  intros Hr Hg w w' r [(deny & w1 & E1 & E2) | (e & E1 & _)]%bind_inv.
  2: { unfold approveToolExecution in E1. by apply bind_inv in E1 as [(n & w2 & E1 & E3) | (e' & E1 & _)]. }
  apply bind_inv in E1 as [(n & w2 & E1 & E3) | (e' & E1 & _)]; [|done]. injection E3 as <- <-.
  transitivity w2; [by eapply keeps_yield|].
  destruct (Approved _) eqn:Ha.
  2: { destruct (String.eqb_spec (hookDeniedToolContent "Tool execution denied by approval hook"
         (ApprovalReason (ApproveTool (quoteText o) n (hookChain o) name args))) "") as [E|]; [by apply denied_text in E | exact (Hr _ _ _ _ E2)]. }
  simpl in E2. eapply keeps_bind; [done | by eapply keeps_exec | exact Hg | exact E2].
Qed.

Lemma keeps_interactive call : keeps Rel (executeInteractiveToolCall o cfg call).
Proof.
  unfold executeInteractiveToolCall, persistInteractiveAssistantToolCall.
  repeat (apply keeps_bind; [done | by auto with go | intros ?]). destruct a0 as [before|e]; [|by auto with go].
  case_match; [by auto with go|]. destruct (OutResult before); [keeps_auto|]. case_match; [by auto with go|].
  apply keeps_approved; [by auto with go | intros r; keeps_auto].
Qed.
Hint Resolve keeps_interactive : go.

Lemma keeps_dialogue d : keeps Rel (run_dialogue o cfg d).
Proof. induction d as [r|call k IH]; simpl; keeps_auto. Qed.
Hint Resolve keeps_dialogue : go.

Context (Hcall : forall model ms defs (w : W), Rel w (say (OCall model ms defs) w)).

Lemma keeps_call model ms defs : keeps Rel (callLLM o cfg model ms defs).
Proof.
  apply keeps_bind; [done | | intros _; keeps_auto]. intros w w' r E. injection E as <- _. apply Hcall.
Qed.

Lemma keeps_rebuild retry terminal l : keeps Rel (rebuild o cfg retry terminal l).
Proof. unfold rebuild. keeps_auto. Qed.
Hint Resolve keeps_call keeps_rebuild : go.

Lemma keeps_retries left terminal model defs l ms : keeps Rel (call_with_retries o cfg left terminal model defs l ms).
Proof. revert l ms; induction left as [|left IH]; intros l ms; simpl; unfold hardAbortRequested; keeps_auto. Qed.
Hint Resolve keeps_retries : go.

Lemma keeps_ask terminal l : keeps Rel (ask o cfg terminal l).
Proof. unfold ask. keeps_auto. Qed.

Lemma keeps_run_tool id before : keeps Rel (run_tool o cfg id before).
Proof.
  unfold run_tool. destruct (OutResult before); [keeps_auto|]. case_match; [keeps_auto|].
  apply keeps_approved; [keeps_auto|]. intros r. unfold hardAbortRequested. keeps_auto.
Qed.

Lemma keeps_skip text calls st : keeps Rel (skip_calls o cfg text calls st).
Proof. revert st; induction calls as [|[[tc fn] args] calls IH]; intros st; simpl; keeps_auto. Qed.

Lemma keeps_inject_result st : keeps Rel (inject_result o cfg st).
Proof. unfold inject_result. keeps_auto. Qed.
Hint Resolve keeps_ask keeps_run_tool keeps_skip keeps_inject_result : go.

Lemma keeps_calls calls st : keeps Rel (run_calls o cfg calls st).
Proof.
  revert st; induction calls as [|[[tc fn] args] calls IH]; intros st; simpl; unfold hardAbortRequested, graceful; keeps_auto.
Qed.
Hint Resolve keeps_calls : go.

Lemma keeps_inject_pending resolved pms l : keeps Rel (inject_pending o cfg resolved pms l).
Proof. revert resolved l; induction pms as [|pm pms IH]; intros resolved l; simpl; keeps_auto. Qed.

Lemma keeps_direct resp l : keeps Rel (direct_answer o cfg resp l).
Proof. unfold direct_answer. keeps_auto. Qed.

Lemma keeps_finishDelivered l : keeps Rel (finishDelivered o cfg l).
Proof. unfold finishDelivered. keeps_auto. Qed.
Hint Resolve keeps_inject_pending keeps_direct keeps_finishDelivered : go.

Lemma keeps_tool_round resp l : keeps Rel (tool_round o cfg resp l).
Proof. unfold tool_round. keeps_auto. Qed.
Hint Resolve keeps_tool_round : go.

Lemma keeps_poll_steering i : keeps Rel (poll_steering o cfg i).
Proof. unfold poll_steering. keeps_auto. Qed.

Lemma keeps_interim resp : keeps Rel (interim cfg resp).
Proof. unfold interim. keeps_auto. Qed.

Lemma keeps_going l : keeps Rel (keep_going o cfg l).
Proof. unfold keep_going, graceful. keeps_auto. Qed.

Lemma keeps_finalize l : keeps Rel (finalize o cfg l).
Proof. unfold finalize, hardAbortRequested. keeps_auto. Qed.

Lemma keeps_finalize_delivered : keeps Rel (finalize_delivered o cfg).
Proof. unfold finalize_delivered. keeps_auto. Qed.

Lemma keeps_setup : keeps Rel (setup o cfg).
Proof. unfold setup. keeps_auto. Qed.
Hint Resolve keeps_poll_steering keeps_interim keeps_going keeps_finalize keeps_finalize_delivered keeps_setup : go.

(** *** The whole turn, with the count of its iterations *)

Definition begin_iteration (w : W) : W :=
  on_turn (fun t => set_phase TurnPhaseRunning (set_iteration (iteration (turn w) + 1) t)) w.

(** What is left of an iteration that has begun as number [i]. *)
Definition rest_of_step (i : Z) (l : locals) : ST W exit step_end :=
  let! steerMsgs := poll_steering o cfg i in
  let l := add_pending steerMsgs l in
  let! ended := look o cfg parentFlag in
  if IsChild cfg && ended && negb (Critical cfg) then ret (Leave l)
  else
    let! results := pollSubTurnResult o cfg in
    let l := add_pending results l in
    let! l := inject_pending o cfg (resolveMediaRefs o (pending l)) (pending l) l in
    let l := with_pending [] l in
    let! terminal := graceful o cfg in
    let l := if 1 <? i then with_messages (resolveMediaRefs o (messages l)) l else l in
    let! q := ask o cfg terminal l in
    let '(resp, l) := q in
    let! _ := interim cfg resp in
    match RespCalls resp with
    | [] => direct_answer o cfg resp l
    | _ => if terminal then direct_answer o cfg resp l else tool_round o cfg resp l
    end.

Lemma turn_step_eq l : turn_step o cfg l =
  (let! hard := hardAbortRequested o cfg in
   if hard then abortTurn o cfg
   else fun w => rest_of_step (iteration (turn w) + 1) l (begin_iteration w)).
Proof. done. Qed.

Lemma keeps_rest i l : keeps Rel (rest_of_step i l).
Proof. unfold rest_of_step, graceful. keeps_auto. Qed.

Context (Hiter : forall w, Rel w (begin_iteration w)).

Lemma keeps_turn_step l : keeps Rel (turn_step o cfg l).
Proof.
  rewrite turn_step_eq. apply keeps_bind; [done | by apply keeps_look | intros []]; [by auto with go|].
  intros w w' r E. transitivity (begin_iteration w); [apply Hiter | by eapply keeps_rest].
Qed.
Hint Resolve keeps_turn_step : go.

Lemma keeps_rounds fuel l : keeps Rel (turnLoop o cfg fuel l).
Proof. revert l; induction fuel as [|fuel IH]; intros l; simpl; keeps_auto. Qed.

Lemma keeps_runTurn fuel : keeps Rel (runTurn o cfg fuel).
Proof. unfold runTurn. pose proof keeps_rounds. keeps_auto. Qed.
End Moves.

(** An aborted turn has no result. *)
Lemma abort_throws {S C R Args} `{SessionStore S} `{ContextManager S C} `{ToolBox R Args} (o : Outside S C Args) cfg {A}
    (w : World S C R Args) :
  wp (abortTurn o cfg (A := A)) (fun _ _ => False) (fun _ _ => True) w.
Proof.
  unfold abortTurn. apply wp_bind. eapply wp_mono; [apply wp_true | | done]. intros _ w1 _.
  destruct (NoHistory cfg); [by apply wp_throw|]. apply wp_bind. eapply wp_mono; [apply wp_true | | done].
  intros [text|] w2 _; by apply wp_throw.
Qed.

(** ** Approval *)

Section Approval.
Context {S C R Args : Type} `{SessionStore S} `{ContextManager S C} `{ToolBox R Args}.
Context (o : Outside S C Args) (cfg : TurnConfig).

(** A tool with these arguments was approved by every hook that approves. *)
Definition approved (x : output Args) : Prop :=
  match x with
  | OExec name args =>
      exists n, Forall (fun reg => match AsApprover reg with
                                   | None => True
                                   | Some approve => exists d, approve n name args = Decided d /\ Approved d = true
                                   end) (hookChain o)
  | _ => True
  end.

Definition puts_out (w w' : World S C R Args) : Prop := exists new, outbox w' = outbox w ++ new /\ Forall approved new.

#[export] Instance puts_out_preorder : PreOrder puts_out.
Proof.
  split; [intros w; exists []; by rewrite app_nil_r|].
  intros w1 w2 w3 (n1 & E1 & H1') (n2 & E2 & H2'). exists (n1 ++ n2). rewrite E2, E1, app_assoc. split; [done|]. by apply Forall_app.
Qed.

Lemma puts_out_same (w w' : World S C R Args) : outbox w' = outbox w -> puts_out w w'.
Proof. intros E. exists []. by rewrite E, app_nil_r. Qed.

Lemma act_outbox t (w : World S C R Args) a : outbox (act cfg t w a) = outbox w.
Proof. destruct a; try done; cbn [act]; [unfold HardAbort; by case_match | by destruct (f _ _)]. Qed.

Lemma acts_outbox t l (w : World S C R Args) : outbox (fold_left (act cfg t) l w) = outbox w.
Proof. revert w; induction l as [|a l IH]; intros w; simpl; [done|]. by rewrite IH, act_outbox. Qed.

Lemma move_puts_out (w w' : World S C R Args) : move o cfg w w' -> puts_out w w'.
Proof.
  destruct 1; try by apply puts_out_same.
  - apply puts_out_same, acts_outbox.
  - apply puts_out_same. by destruct (Compact _ _ _ _ _ _).
  - exists [x]. split; [done|]. constructor; [by destruct x | constructor].
  - exists [OExec name args]. split; [done|]. constructor; [|constructor]. exists n. by eapply ApproveTool_spec.
Qed.

(** C4: No tool runs without approval: whatever the model asks for, in its
    answer or while it answers, whatever the hooks change and whatever happens
    beside the turn, each tool that is run was approved, with exactly the
    arguments that it gets, by every hook that approves tools; a hook that
    fails or does not answer in time does not approve. *)
Theorem tools_are_approved fuel (w : World S C R Args) :
  exists new, outbox (fst (runTurn o cfg fuel w)) = outbox w ++ new /\ Forall approved new.
Proof.
  destruct (runTurn o cfg fuel w) as [w' r] eqn:E.
  eapply (keeps_runTurn o cfg puts_out move_puts_out); [| |exact E].
  - intros model ms defs w0. exists [OCall model ms defs]. by split; [|repeat constructor].
  - intros w0. by apply puts_out_same.
Qed.
End Approval.
