(* ===== verification/TurnBounds.v ===== *)
(** * How long a turn can take

    Every iteration beyond the limit is paid for by a message or by the one
    graceful interrupt, so a turn ends when the users stop steering, after a
    bounded number of iterations and calls of the model. *)

From S2P Require Import Prelude Effects GoStrings Message Session ContextManager Steering Hooks PromptContext AgentTurn RunTurn TurnDemo TurnMoves.

Section Bounds.
Context {S C R Args : Type} `{SessionStore S} `{ContextManager S C} `{ToolBox R Args}.
Context (o : Outside S C Args) (cfg : TurnConfig).
Abbreviation W := (World S C R Args).

(** ** What can still come *)

(** The messages that others push before time [n]. *)
Definition is_push (a : action S C) : bool := match a with AQueue (OpPush _ _) => true | _ => false end.
Definition pushes (l : list (action S C)) : nat := length (List.filter is_push l).

Fixpoint offered (n : nat) : nat :=
  match n with
  | O => O
  | Datatypes.S m => (offered m + pushes (env o m))%nat
  end.

Context (N : nat) (HN : forall n, (offered n <= N)%nat).

Abbreviation scope := (normalizeSteeringScope (SessionKey cfg)).

Definition waiting (w : W) : nat :=
  (length (queued (steering w) scope) + length (queued (steering w) manualSteeringScope))%nat.

Definition base (w : W) : nat := (2 * waiting w + 4 * (N - offered (clock w)))%nat.

Abbreviation used w := (gracefulTerminalUsed (turn w)).

(** What the steps inside an iteration respect. *)
Record inner (w w' : W) : Prop := mkInner {
  inner_iteration : iteration (turn w') = iteration (turn w);
  inner_base : (base w' <= base w)%nat;
  inner_graceful : gracefulInterrupt (turn w) = true -> gracefulInterrupt (turn w') = true;
  inner_used : used w = true -> used w' = true
}.

#[local] Instance inner_preorder : PreOrder inner.
Proof.
  split; [by intros w; constructor|]. intros w1 w2 w3 [] []. constructor; [congruence | lia | tauto | tauto].
Qed.

Lemma own_scope_cases (w : W) s : own_scope cfg w s -> s = scope \/ s = manualSteeringScope.
Proof.
  intros [E|E]; subst s; [by left|]. unfold fallback_scope, normalizeSteeringScope.
  destruct (String.eqb_spec (TrimSpace (SessionKey cfg)) ""); [by right|]. destruct (queued _ _); [by right | by left].
Qed.

(** Taking messages from a scope of the turn. *)
Lemma dequeueLocked_waiting (w : W) s : s = scope \/ s = manualSteeringScope ->
  let '(q, msgs) := dequeueLocked (steering w) s in (waiting (with_steering q w) + length msgs <= waiting w)%nat.
Proof.
  intros Hs. pose proof (dequeueLocked_spec (steering w) s) as Hd. destruct (dequeueLocked (steering w) s) as [q msgs].
  destruct Hd as (Hq & Ho & _). unfold waiting. cbn [steering with_steering].
  assert (Hle : forall k, (length (queued q k) <= length (queued (steering w) k))%nat).
  { intros k. destruct (decide (k = s)) as [->|Hne]; [rewrite Hq, length_app; lia | by rewrite Ho]. }
  pose proof (Hle scope). pose proof (Hle manualSteeringScope).
  apply (f_equal (@length Message)) in Hq. rewrite length_app in Hq. destruct Hs as [E|E]; subst s; lia.
Qed.

Lemma queue_op_waiting (w : W) op :
  (waiting (with_steering (fst (run_op (steering w) op)) w) <= waiting w + (if is_push (AQueue op) then 2 else 0))%nat.
Proof.
  assert (Hk : forall k, (length (queued (fst (run_op (steering w) op)) k)
                          <= length (queued (steering w) k) + (if is_push (AQueue op) then 1 else 0))%nat).
  { intros k. pose proof (run_op_balance (steering w) op k) as Hb. destruct (run_op (steering w) op) as [q e] eqn:E. cbn [fst].
    apply (f_equal (@length Message)) in Hb. rewrite !length_app in Hb.
    assert (He : (length (of_scope k (accepted e)) <= if is_push (AQueue op) then 1 else 0)%nat).
    { destruct op; simpl in E |- *; repeat case_match; simplify_eq; simpl; try lia.
      unfold of_scope. simpl. case_match; simpl; lia. }
    lia. }
  unfold waiting. cbn [steering with_steering]. pose proof (Hk scope). pose proof (Hk manualSteeringScope). case_match; lia.
Qed.

Lemma act_inner t (w : W) a :
  iteration (turn (act cfg t w a)) = iteration (turn w) /\
  (waiting (act cfg t w a) <= waiting w + (if is_push a then 2 else 0))%nat /\
  (gracefulInterrupt (turn w) = true -> gracefulInterrupt (turn (act cfg t w a)) = true) /\
  used (act cfg t w a) = used w.
Proof.
  destruct a as [op|hint| |r| | |f].
  - split_and!; try done. exact (queue_op_waiting w op).
  - cbn [act]. unfold on_turn, requestGracefulInterrupt. cbn. split_and!; [by case_match | unfold waiting; simpl; lia | by case_match | by case_match].
  - cbn [act]. unfold on_turn, requestHardAbort. cbn. split_and!; [by case_match | unfold waiting; simpl; lia | by case_match | by case_match].
  - cbn [act]. unfold on_turn, deliverSubTurnResult. cbn. split_and!; [by repeat case_match | unfold waiting; simpl; lia | by repeat case_match | by repeat case_match].
  - split_and!; try done. unfold waiting; simpl; lia.
  - cbn [act]. unfold HardAbort, Finish. case_match; cbn; (split_and!; [by repeat case_match | unfold waiting; simpl; lia | by repeat case_match | by repeat case_match]).
  - cbn [act]. destruct (f _ _). split_and!; try done. unfold waiting; simpl; lia.
Qed.

Lemma acts_inner t l (w : W) :
  iteration (turn (fold_left (act cfg t) l w)) = iteration (turn w) /\
  (waiting (fold_left (act cfg t) l w) <= waiting w + 2 * pushes l)%nat /\
  (gracefulInterrupt (turn w) = true -> gracefulInterrupt (turn (fold_left (act cfg t) l w)) = true) /\
  used (fold_left (act cfg t) l w) = used w /\ clock (fold_left (act cfg t) l w) = clock w.
Proof.
  revert w; induction l as [|a l IH]; intros w; cbn [fold_left]; [unfold pushes; simpl; split_and!; try done; lia|].
  destruct (IH (act cfg t w a)) as (I1 & I2 & I3 & I4 & I5), (act_inner t w a) as (A1 & A2 & A3 & A4).
  split_and!; [congruence | | tauto | congruence | rewrite I5].
  - unfold pushes in *. simpl. destruct (is_push a); simpl; lia.
  - destruct a; try done; cbn [act]; [unfold HardAbort; by destruct (_ <? _)%nat | by destruct (f _ _)].
Qed.

Lemma move_inner (w w' : W) : move o cfg w w' -> inner w w'.
Proof.
  destruct 1; try (constructor; [done | unfold base, waiting; simpl; lia | done | done]).
  - destruct (acts_inner (now o (clock w)) (env o (clock w)) w) as (A1 & A2 & A3 & A4 & A5).
    constructor; try done; [|cbn; congruence]. unfold base. cbn [clock tick]. rewrite A5. simpl.
    pose proof (HN (Datatypes.S (clock w))) as HS. simpl in HS.
    change (waiting (tick ?x)) with (waiting x). lia.
  - unfold requestHardAbort. constructor; cbn; [by case_match | unfold base, waiting; simpl; lia | by case_match | by case_match].
  - destruct (Compact _ _ _ _ _ _). constructor; [done | unfold base, waiting; simpl; lia | done | done].
  - match goal with Hs : own_scope _ _ ?s |- _ =>
      pose proof (dequeueLocked_waiting w s (own_scope_cases w s Hs)) as Hd; destruct (dequeueLocked (steering w) s) as [q msgs]
    end.
    constructor; try done. unfold base. simpl. lia.
Qed.

(** ** The parts of an iteration *)

Abbreviation anyway := (fun (_ : exit) (w : W) => True).

Lemma wp_inner {A} (m : ST W exit A) (Q : A -> W -> Prop) (X : exit -> W -> Prop) w :
  keeps inner m -> (forall a w', inner w w' -> Q a w') -> (forall e w', inner w w' -> X e w') -> wp m Q X w.
Proof. apply wp_keeps_elim. Qed.

(** A bound of the messages that are queued, can come, or were taken. *)
Definition pot (w : W) (l : locals) : nat := (base w + 2 * length (pending l))%nat.

(** Messages taken weigh less than queued ones. *)
Definition took (w : W) (msgs : list Message) (w' : W) : Prop := inner w w' /\ (base w' + 2 * length msgs <= base w)%nat.

Lemma took_nil w w' : inner w w' -> took w [] w'.
Proof. intros Hi. split; [done|]. pose proof (inner_base _ _ Hi). simpl. lia. Qed.

Lemma wp_take s (w : W) (X : exit -> W -> Prop) : s = scope \/ s = manualSteeringScope ->
  wp (fun w => let '(q, msgs) := dequeueLocked (steering w) s in (with_steering q w, Ok msgs)) (took w) X w.
Proof.
  intros Hs. unfold wp. pose proof (dequeueLocked_waiting w s Hs) as Hd.
  destruct (dequeueLocked (steering w) s) as [q msgs]. split; [constructor; try done|]; unfold base; cbn [clock with_steering]; lia.
Qed.

Lemma took_after w w1 msgs w2 : inner w w1 -> took w1 msgs w2 -> took w msgs w2.
Proof. intros Hi [Hi' Hb]. split; [by transitivity w1|]. pose proof (inner_base _ _ Hi). lia. Qed.

Lemma wp_dequeue (X : exit -> W -> Prop) (w : W) : (forall e w', inner w w' -> X e w') -> wp (dequeueForScope o cfg) (took w) X w.
Proof.
  intros HX. apply wp_bind. apply wp_inner; [apply keeps_yield, move_inner | | done].
  intros n w1 Hi. eapply wp_mono; [apply (wp_take scope w1 X); by left | | done]. intros msgs w2. by apply took_after.
Qed.

Lemma wp_poll_steering i (X : exit -> W -> Prop) (w : W) : (forall e w', inner w w' -> X e w') -> wp (poll_steering o cfg i) (took w) X w.
Proof.
  intros HX. unfold poll_steering. case_match; [by apply wp_dequeue|]. case_match; [by apply wp_ret, took_nil|].
  apply wp_bind. apply wp_inner; [apply keeps_yield, move_inner | | done]. intros n w1 Hi.
  unfold wp. rewrite dequeueScopeWithFallback_eq.
  pose proof (wp_take (fallback_scope (steering w1) (SessionKey cfg)) w1 X (own_scope_cases w1 _ (or_intror eq_refl))) as Ht.
  unfold wp in Ht. destruct (dequeueLocked _ _) as [q msgs]. by eapply took_after.
Qed.

(** A part that runs between [w] and its end, with a result [P]. *)
Definition part {A} (w : W) (m : ST W exit A) (P : A -> W -> Prop) : Prop :=
  wp m (fun a w' => inner w w' /\ P a w') (fun _ w' => inner w w') w.

Lemma part_keeps {A} w (m : ST W exit A) : keeps inner m -> part w m (fun _ _ => True).
Proof. intros Hk. by apply wp_inner. Qed.

Lemma part_ret {A} w (a : A) (P : A -> W -> Prop) : P a w -> part w (ret a) P.
Proof. intros HP. unfold part. apply wp_ret. by split. Qed.

Lemma part_bind {A B} w (m : ST W exit A) (k : A -> ST W exit B) P Q :
  part w m P -> (forall a w1, inner w w1 -> P a w1 -> part w1 (k a) Q) -> part w (bind m k) Q.
Proof.
  intros Hm Hk. apply wp_bind. eapply wp_mono; [exact Hm | | done]. intros a w1 [Hi HP].
  eapply wp_mono; [by apply Hk | |].
  - intros b w' [Hi' HQ]. split; [by transitivity w1 | done].
  - intros e w' Hi'. by transitivity w1.
Qed.

Lemma part_skip {A B} w (m : ST W exit A) (k : A -> ST W exit B) Q :
  keeps inner m -> (forall a w1, inner w w1 -> part w1 (k a) Q) -> part w (bind m k) Q.
Proof. intros Hk HQ. eapply part_bind; [by apply part_keeps | auto]. Qed.

Lemma part_weaken {A} w (m : ST W exit A) (P Q : A -> W -> Prop) :
  part w m P -> (forall a w', P a w' -> Q a w') -> part w m Q.
Proof. intros Hm HQ. eapply wp_mono; [exact Hm | | done]. intros a w' [Hi HP]. auto. Qed.

Lemma part_throw {A} w e (P : A -> W -> Prop) : part w (throw e) P.
Proof. unfold part. by apply wp_throw. Qed.

Lemma part_take w : part w (dequeueForScope o cfg) (fun msgs w' => (base w' + 2 * length msgs <= base w)%nat).
Proof. by apply wp_dequeue. Qed.

(** Parts that only move. *)
Lemma call_inner model ms defs (w : W) : inner w (say (OCall model ms defs) w).
Proof. by constructor. Qed.

(** The lemma for the part that is run. *)
Ltac part_lemma := lazymatch goal with
  | |- keeps _ (persist _ _ _ _) => eapply keeps_persist
  | |- keeps _ (look _ _ _) => eapply keeps_look
  | |- keeps _ (hardAbortRequested _ _) => eapply keeps_look
  | |- keeps _ (graceful _ _) => eapply keeps_look
  | |- keeps _ (pollSubTurnResult _ _) => eapply keeps_poll
  | |- keeps _ (addToSession _ _ _) => eapply keeps_addToSession
  | |- keeps _ (applyBeforeToolHooks _ _ _ _) => eapply keeps_before
  | |- keeps _ (run_tool _ _ _ _) => eapply keeps_run_tool
  | |- keeps _ (inject_pending _ _ _ _ _) => eapply keeps_inject_pending
  | |- keeps _ (interim _ _) => eapply keeps_interim
  | |- keeps _ (ask _ _ _ _) => eapply keeps_ask
  | |- keeps _ (call_with_retries _ _ _ _ _ _ _ _) => eapply keeps_retries
  | |- keeps _ (with_hint _ _) => eapply keeps_hint
  | |- keeps _ (get _) => eapply keeps_get
  | |- keeps _ (rebuild _ _ _ _ _) => eapply keeps_rebuild
  | |- keeps _ (run_dialogue _ _ _) => eapply keeps_dialogue
  | |- keeps _ (direct_answer _ _ _ _) => eapply keeps_direct
  | |- keeps _ (tool_round _ _ _ _) => eapply keeps_tool_round
  | |- keeps _ (poll_steering _ _ _) => eapply keeps_poll_steering
  | |- keeps _ (dequeueForScope _ _) => eapply keeps_dequeue
  | |- keeps _ (abortTurn _ _) => eapply keeps_abort
  | |- keeps _ (yield _ _) => eapply keeps_yield
  | |- keeps _ (keep_going _ _ _) => eapply keeps_going
  | |- keeps _ (setup _ _) => eapply keeps_setup
  | |- keeps _ (finalize _ _ _) => eapply keeps_finalize
  | |- keeps _ (finalize_delivered _ _) => eapply keeps_finalize_delivered
  | |- keeps _ (modify _) => eapply (keeps_modify o cfg); [|intros; constructor]
  end.

Ltac kept := part_lemma; first [exact inner_preorder | exact move_inner | exact call_inner].

#[local] Hint Extern 1 (keeps inner _) => solve [kept] : go.

Lemma part_skip_calls text calls st w :
  part w (skip_calls o cfg text calls st) (fun st' _ => pending (vars st') = pending (vars st)).
Proof.
  revert st w; induction calls as [|[[tc fn] args] calls IH]; intros st w; [by apply part_ret|].
  simpl. apply part_skip; [kept|]. intros _ w1 _. exact (IH (mkToolState _ _) w1).
Qed.

Lemma part_inject_result st w : part w (inject_result o cfg st) (fun st' _ => pending (vars st') = pending (vars st)).
Proof.
  unfold inject_result. apply part_skip; [kept|]. intros msgs w1 _.
  destruct msgs as [|msg msgs]; [by apply part_ret|]. apply part_skip; [kept|]. intros _ w2 _. by apply part_ret.
Qed.

Lemma part_abort {A} w (P : A -> W -> Prop) : part w (abortTurn o cfg) P.
Proof.
  unfold part. eapply wp_mono; [apply wp_and; [apply abort_throws | apply wp_keeps; kept]| |].
  - by intros a w' [[] _].
  - by intros e w' [_ Hi].
Qed.

(** The loop over the calls: what is pending was taken from the queue. *)
Lemma part_run_calls b calls st w : (pot w (vars st) <= b)%nat ->
  part w (run_calls o cfg calls st) (fun st' w' => (pot w' (vars st') <= b)%nat).
Proof.
  revert st w; induction calls as [|[[tc fn] args] calls IH]; intros st w Hb; [by apply part_ret|].
  simpl. apply part_skip; [kept|]. intros hard w1 I1. destruct hard; [apply part_abort|].
  apply part_skip; [kept|]. intros [before|e] w2 I2; [|apply part_throw]. destruct (OutHard before); [apply part_abort|].
  apply part_skip; [kept|]. intros r w3 I3.
  pose proof (inner_base _ _ I1). pose proof (inner_base _ _ I2). pose proof (inner_base _ _ I3). unfold pot in *.
  destruct r as [f|m]; [|apply IH; simpl; lia].
  eapply part_bind; [apply part_take|]. intros msgs w4 _ Ht. simpl in Ht.
  assert (Hle : (base w4 + 2 * length (pending (vars st) ++ msgs) <= b)%nat) by (rewrite length_app; lia).
  apply part_skip; [destruct (pending (vars st) ++ msgs); [apply keeps_bind; [apply _ | kept | intros ?; apply keeps_ret, _] | apply keeps_ret, _]|].
  intros skipMessage w5 I5. pose proof (inner_base _ _ I5). destruct (String.eqb _ _).
  - eapply part_bind; [apply part_inject_result|]. intros st1 w6 I6 E. pose proof (inner_base _ _ I6). simpl in E.
    apply IH. rewrite E. lia.
  - eapply wp_mono; [apply part_skip_calls | | done]. intros st' w6 [I6 E]. split; [done|].
    pose proof (inner_base _ _ I6). rewrite E. simpl. lia.
Qed.

(** ** An iteration *)

(** What is left to do: iterations within the limit, messages, the interrupt. *)
Definition effort (w : W) (l : locals) : nat :=
  (Z.to_nat (MaxIterations cfg - iteration (turn w)) + base w + length (pending l) + (if used w then 0 else 1))%nat.

Lemma part_direct resp l w : pending l = [] ->
  part w (direct_answer o cfg resp l) (fun e w' => match e with
    | Again l' => (pot w' l' <= base w)%nat
    | Leave l' => pending l' = []
    | Delivered _ => False
    end).
Proof.
  intros Hl. unfold direct_answer. eapply part_bind; [apply part_take|]. intros msgs w1 I1 Ht. simpl in Ht.
  destruct msgs as [|m msgs]; apply part_ret; [done|]. unfold pot. simpl. rewrite Hl. simpl in *. lia.
Qed.

Lemma part_finishDelivered b l w : (pot w l <= b)%nat ->
  part w (finishDelivered o cfg l) (fun e w' => match e with Again l' => (pot w' l' <= b)%nat | Leave _ => False | Delivered _ => True end).
Proof.
  intros Hb. unfold finishDelivered. destruct (pending l) eqn:Hl; [|apply part_ret; unfold pot in *; simpl; by rewrite Hl in *].
  eapply part_bind; [apply part_take|]. intros msgs w1 I1 Ht. simpl in Ht.
  destruct msgs as [|m msgs]; apply part_ret; [done|]. unfold pot in *. simpl. rewrite Hl in *. simpl in *. lia.
Qed.

Lemma part_tool_round resp l w : pending l = [] ->
  part w (tool_round o cfg resp l) (fun e w' => match e with
    | Again l' => (pot w' l' <= base w)%nat
    | Leave _ => False
    | Delivered _ => True
    end).
Proof.
  intros Hl. unfold tool_round. apply part_skip; [kept|]. intros _ w1 I1. apply part_skip; [kept|]. intros _ w2 I2.
  pose proof (inner_base _ _ I1). pose proof (inner_base _ _ I2).
  eapply part_bind; [apply (part_run_calls (base w)); unfold pot; simpl; rewrite Hl; simpl; lia|].
  intros st w3 I3 Hb. simpl in Hb. destruct (allHandled st); [by apply part_finishDelivered|].
  apply part_skip; [kept|]. intros _ w4 I4. pose proof (inner_base _ _ I4). apply part_ret. unfold pot in *. lia.
Qed.

Lemma part_inner {A} w (m : ST W exit A) P : part w m P -> part w m (fun a w' => P a w' /\ inner w w').
Proof. intros Hm. eapply wp_mono; [exact Hm | | done]. by intros a w' [Hi HP]. Qed.

Lemma part_graceful w : part w (graceful o cfg) (fun t w' => t = gracefulInterruptRequested (turn w')).
Proof. unfold graceful, look. apply part_skip; [kept|]. intros _ w1 _. by apply part_ret. Qed.

(** What a part gives, wherever it starts. *)
Definition gives {A} (P : A -> Prop) (m : ST W exit A) : Prop := forall w, wp m (fun a _ => P a) (fun _ _ => True) w.

Lemma gives_ret {A} (a : A) (P : A -> Prop) : P a -> gives P (ret a).
Proof. intros HP w. by apply wp_ret. Qed.

Lemma gives_throw {A} e (P : A -> Prop) : gives P (throw e).
Proof. intros w. by apply wp_throw. Qed.

Lemma gives_bind {A B} (m : ST W exit A) (k : A -> ST W exit B) P : (forall a, gives P (k a)) -> gives P (bind m k).
Proof. intros Hk w. apply wp_bind. eapply wp_mono; [apply wp_true | | done]. intros a w1 _. apply Hk. Qed.

Lemma gives_after {A B} (m : ST W exit A) (k : A -> ST W exit B) P Q :
  gives P m -> (forall a, P a -> gives Q (k a)) -> gives Q (bind m k).
Proof.
  intros Hm Hk w. apply wp_bind. eapply wp_mono; [apply Hm | | done]. intros a w1 HP. by apply Hk.
Qed.

Lemma gives_abort {A} (P : A -> Prop) : gives P (abortTurn o cfg).
Proof. intros w. eapply wp_mono; [apply abort_throws | | done]. by intros a w1 []. Qed.

Ltac gives_auto := repeat lazymatch goal with
  | |- gives _ (ret _) => apply gives_ret
  | |- gives _ (throw _) => apply gives_throw
  | |- gives _ (abortTurn _ _) => apply gives_abort
  | |- gives _ (bind _ _) => apply gives_bind; intros ?
  | |- gives _ (match ?x with _ => _ end) => destruct x
  end.

Lemma gives_rebuild retry terminal l : gives (fun q => pending (fst q) = pending l) (rebuild o cfg retry terminal l).
Proof. unfold rebuild. by gives_auto. Qed.

Lemma gives_retries left terminal model defs l ms :
  gives (fun q => pending (snd q) = pending l) (call_with_retries o cfg left terminal model defs l ms).
Proof.
  revert l ms; induction left as [|left IH]; intros l ms; simpl; apply gives_bind; intros r.
  - destruct r as [resp|e]; [by apply gives_ret|]. by gives_auto.
  - destruct r as [resp|e]; [by apply gives_ret|]. apply gives_bind. intros hard. destruct (_ && _); [apply gives_abort|].
    destruct (isTimeoutError e); [apply gives_bind; intros cancelled; destruct cancelled; [by gives_auto | apply IH]|].
    destruct (_ && _); [|by apply gives_ret]. eapply gives_after; [apply gives_rebuild|]. intros q E.
    rewrite <- E. apply IH.
Qed.

Lemma gives_ask terminal l : gives (fun q => pending (snd q) = pending l) (ask o cfg terminal l).
Proof.
  unfold ask. do 4 (apply gives_bind; intros ?). destruct (BeforeLLM _ _ _) as [req decision].
  apply gives_bind; intros q. eapply gives_after; [apply gives_retries|]. intros [res l'] E. by gives_auto.
Qed.

Lemma part_gives {A} (P : A -> Prop) (m : ST W exit A) w : keeps inner m -> gives P m -> part w m (fun a _ => P a).
Proof.
  intros Hk Hg. unfold part. eapply wp_mono; [apply wp_and; [apply Hg | by apply wp_keeps] | |].
  - by intros a w' [HP Hi].
  - by intros e w' [_ Hi].
Qed.

(** The terminal request uses the interrupt up. *)
Lemma part_ask terminal l w :
  part w (ask o cfg terminal l) (fun q w' => pending (snd q) = pending l /\ (terminal = true -> used w' = true)).
Proof.
  assert (Hu : part w (ask o cfg terminal l) (fun _ w' => terminal = true -> used w' = true)).
  { unfold ask. do 2 (apply part_skip; [by auto with go|]; intros ? ? _).
    apply (part_bind _ _ _ (fun _ w' => terminal = true -> used w' = true)).
    { destruct terminal; [|by apply part_ret]. split; [apply move_inner; constructor | done]. }
    intros _ w3 _ Hu. eapply part_weaken; [apply part_inner, part_keeps; keeps_auto|].
    intros _ w' [_ Hi] Ht. by apply (inner_used _ _ Hi), Hu. }
  eapply wp_mono; [apply wp_and; [apply gives_ask | apply Hu] | |].
  - by intros q w' (E & Hi & Hu').
  - by intros e w' [_ Hi].
Qed.

(** The rest of an iteration that has begun in [w]. *)
Definition ends (w : W) (l : locals) (e : step_end) (w' : W) : Prop :=
  match e with
  | Again l' => (base w' + length (pending l') <= base w)%nat /\ (gracefulInterrupt (turn w) = true -> used w' = true)
  | Leave l' => (base w' + length (pending l') <= base w + length (pending l))%nat
  | Delivered _ => True
  end.

Lemma part_poll_steering i (w : W) :
  part w (poll_steering o cfg i) (fun msgs w' => (base w' + 2 * length msgs <= base w)%nat).
Proof. by apply wp_poll_steering. Qed.

Lemma part_answer (terminal : bool) (resp : LLMResponse Args) l (w : W) : pending l = [] ->
  part w (match RespCalls resp with
          | [] => direct_answer o cfg resp l
          | _ => if terminal then direct_answer o cfg resp l else tool_round o cfg resp l
          end) (fun e w' => match e with
    | Again l' => (pot w' l' <= base w)%nat
    | Leave l' => pending l' = []
    | Delivered _ => True
    end).
Proof.
  intros Hl. assert (Hd : part w (direct_answer o cfg resp l) (fun e w' => match e with
    | Again l' => (pot w' l' <= base w)%nat | Leave l' => pending l' = [] | Delivered _ => True end)).
  { eapply part_weaken; [by apply part_direct|]. by intros [] w'. }
  assert (Ht : part w (tool_round o cfg resp l) (fun e w' => match e with
    | Again l' => (pot w' l' <= base w)%nat | Leave l' => pending l' = [] | Delivered _ => True end)).
  { eapply part_weaken; [by apply part_tool_round|]. by intros [] w'. }
  destruct (RespCalls resp); [done|]. by destruct terminal.
Qed.

Lemma part_rest i l (w : W) : part w (rest_of_step o cfg i l) (ends w l).
Proof.
  unfold rest_of_step. eapply part_bind; [apply part_poll_steering|]. intros msgs w1 I1 Hm. simpl in Hm.
  apply part_skip; [kept|]. intros ended w2 I2. pose proof (inner_base _ _ I2).
  destruct (_ && _ && _); [apply part_ret; simpl; rewrite length_app; lia|].
  apply part_skip; [kept|]. intros results w3 I3. apply part_skip; [kept|]. intros l1 w4 I4.
  eapply part_bind; [apply part_graceful|]. intros terminal w5 I5 Et. simpl in Et.
  eapply part_bind; [apply part_ask|]. intros [resp l2] w6 I6 [El Hu]. simpl in El.
  apply part_skip; [kept|]. intros _ w7 I7.
  assert (Hl : pending l2 = []) by (rewrite El; by destruct (1 <? i)).
  eapply part_weaken; [apply part_inner, part_answer, Hl|]. intros e w8 [He I8].
  assert (I25 : inner w w5) by (do 4 (etransitivity; [eassumption|]); exact I5).
  assert (I68 : inner w6 w8) by by transitivity w7.
  pose proof (inner_base _ _ I25). pose proof (inner_base _ _ I6). pose proof (inner_base _ _ I68).
  pose proof (inner_base _ _ I7). destruct e as [l'|l'|l']; [|simpl; rewrite He; simpl; lia | done].
  split; [unfold pot in He; lia|]. intros Hg. apply (inner_used _ _ I68).
  apply (inner_graceful _ _ I25) in Hg. unfold gracefulInterruptRequested in Et. rewrite Hg in Et.
  destruct (used w5) eqn:Eu; [by apply (inner_used _ _ I6) | by apply Hu].
Qed.

(** Why the loop goes on. *)
Definition reason_to_go (w : W) (l : locals) : Prop :=
  iteration (turn w) < MaxIterations cfg \/ pending l <> [] \/ gracefulInterruptRequested (turn w) = true.

Lemma reason_kept w w1 l : inner w w1 -> reason_to_go w l -> reason_to_go w1 l \/ (used w = false /\ used w1 = true).
Proof.
  intros [Hi _ Hg _] [Hr|[Hr|Hr]]; [left; left; lia | by left; right; left|].
  unfold gracefulInterruptRequested in Hr. breflect. destruct (used w1) eqn:E; [by right|].
  left; right; right. unfold gracefulInterruptRequested. by rewrite E, Hg.
Qed.

Lemma effort_inner w w1 l : inner w w1 -> (effort w1 l <= effort w l)%nat.
Proof.
  intros [Hi Hb _ Hu]. unfold effort. rewrite Hi. destruct (used w1) eqn:E1, (used w) eqn:E; lia.
Qed.

(** An iteration lowers what is left, unless it is the last one. *)
Lemma step_effort l w : reason_to_go w l ->
  wp (turn_step o cfg l)
    (fun e w' => iteration (turn w') = iteration (turn w) + 1 /\
       match e with
       | Again l' => (effort w' l' < effort w l)%nat
       | Leave l' => (effort w' l' <= effort w l)%nat
       | Delivered _ => True
       end)
    (fun _ w' => iteration (turn w') <= iteration (turn w) + 1) w.
Proof.
  intros Hr. rewrite turn_step_eq. apply wp_bind. apply (wp_inner _ _ _ w); [kept | | intros e w1 []; lia].
  intros hard w1 I1. pose proof (inner_iteration _ _ I1) as Ei. destruct hard.
  { eapply wp_mono; [apply (part_abort w1 (fun _ _ => False)) | |]; [intros a w2 [_ []] | intros e w2 [Hi _ _ _]; lia]. }
  pose proof (effort_inner w w1 l I1) as He. pose proof (reason_kept _ _ _ I1 Hr) as Hr1.
  pose proof (part_rest (iteration (turn w1) + 1) l (begin_iteration w1)) as Hp. unfold part, wp in *.
  destruct (rest_of_step o cfg _ l _) as [w2 [e|e]].
  - destruct Hp as [[Hi _ Hg Hu] Hends]. cbn in Hi. split; [lia|].
    assert (Hu2 : used w1 = true -> used w2 = true) by exact Hu. 
    destruct e as [l'|l'|l']; simpl in Hends; [| | done]; change (base (begin_iteration w1)) with (base w1) in Hends.
    + destruct Hends as [Hb Hg2]. pose proof (inner_base _ _ I1). pose proof (inner_used _ _ I1).
      destruct Hr1 as [[Hr1|[Hr1|Hr1]]|[E E1]].
      * unfold effort. destruct (used w1), (used w2), (used w); lia.
      * assert (length (pending l) <> 0%nat) by by destruct (pending l). unfold effort. destruct (used w1), (used w2), (used w); lia.
      * unfold gracefulInterruptRequested in Hr1. breflect. unfold effort. rewrite Hg2 by done.
        destruct (used w1), (used w); try done; lia.
      * unfold effort. rewrite E, Hu2 by done. lia.
    + pose proof (inner_base _ _ I1). pose proof (inner_used _ _ I1). unfold effort. destruct (used w1), (used w2), (used w); lia.
  - destruct Hp as [Hi _ _ _]. cbn in Hi. lia.
Qed.

(** *** Nothing but the loop runs out of fuel *)

Definition fueled {A} (m : ST W exit A) : Prop := forall w, wp m (fun _ _ => True) (fun e _ => e <> OutOfFuel) w.

Lemma fueled_ret {A} (a : A) : fueled (ret a).
Proof. intros w. by apply wp_ret. Qed.

Lemma fueled_throw {A} e : e <> OutOfFuel -> fueled (throw (A := A) e).
Proof. intros He w. by apply wp_throw. Qed.

Lemma fueled_bind {A B} (m : ST W exit A) (k : A -> ST W exit B) : fueled m -> (forall a, fueled (k a)) -> fueled (bind m k).
Proof. intros Hm Hk w. apply wp_bind. eapply wp_mono; [apply Hm | | done]. intros a w1 _. apply Hk. Qed.

(** A step that only changes the state. *)
Lemma fueled_step {A} (m : ST W exit A) : (forall w, match snd (m w) with Err OutOfFuel => False | _ => True end) -> fueled m.
Proof. intros Hm w. specialize (Hm w). unfold wp. destruct (m w) as [w' [a|e]]; [done|]. by destruct e. Qed.

Ltac fueled_auto := repeat lazymatch goal with
  | |- fueled (bind _ _) => apply fueled_bind; [|intros ?]
  | |- fueled (ret _) => apply fueled_ret
  | |- fueled (throw _) => by apply fueled_throw
  | |- fueled (match ?x with _ => _ end) => destruct x
  | |- fueled (fun _ => _) => apply fueled_step; intros ?; cbn; by repeat case_match
  | |- fueled (modify _) => by apply fueled_step
  | |- fueled (get _) => by apply fueled_step
  | |- fueled (yield _ _) => by apply fueled_step
  | |- fueled (look _ _ _) => unfold look
  | |- _ => by auto with go
  end.

Lemma fueled_persist ingest msg : fueled (persist o cfg ingest msg).
Proof. unfold persist, addToSession, ingestMessage. fueled_auto. Qed.
#[local] Hint Resolve fueled_persist : go.

Lemma fueled_save : fueled (saveSession o cfg).
Proof. unfold saveSession. fueled_auto. Qed.
#[local] Hint Resolve fueled_save : go.

Lemma fueled_abort {A} : fueled (abortTurn o cfg (A := A)).
Proof. unfold abortTurn, restoreSession. fueled_auto. Qed.

Lemma fueled_dequeue : fueled (dequeueForScope o cfg).
Proof. unfold dequeueForScope. fueled_auto. Qed.

Lemma fueled_poll : fueled (pollSubTurnResult o cfg).
Proof. unfold pollSubTurnResult. fueled_auto. Qed.
#[local] Hint Resolve fueled_abort fueled_dequeue fueled_poll : go.

Lemma fueled_before name args : fueled (applyBeforeToolHooks o cfg name args).
Proof. unfold applyBeforeToolHooks. fueled_auto. Qed.

Lemma fueled_after name args r : fueled (applyAfterToolHooks o cfg name args r).
Proof. unfold applyAfterToolHooks. fueled_auto. Qed.

Lemma fueled_finalizeTool id r : fueled (finalizeToolExecution o cfg id r).
Proof. unfold finalizeToolExecution, deliverMedia. fueled_auto. Qed.

Lemma fueled_skipped id c ingest : fueled (persistToolSkipped o cfg id c ingest).
Proof. unfold persistToolSkipped. fueled_auto. Qed.

Lemma fueled_exec name args : fueled (executeAgentTool o cfg name args).
Proof. unfold executeAgentTool. fueled_auto. Qed.

Lemma fueled_approve name args : fueled (approveToolExecution o cfg name args).
Proof. unfold approveToolExecution. fueled_auto. Qed.
#[local] Hint Resolve fueled_before fueled_after fueled_finalizeTool fueled_skipped fueled_exec fueled_approve : go.

Lemma fueled_interactive call : fueled (executeInteractiveToolCall o cfg call).
Proof. unfold executeInteractiveToolCall, persistInteractiveAssistantToolCall, denied. fueled_auto. Qed.
#[local] Hint Resolve fueled_interactive : go.

Lemma fueled_dialogue d : fueled (run_dialogue o cfg d).
Proof. induction d as [r|call k IH]; simpl; fueled_auto. Qed.
#[local] Hint Resolve fueled_dialogue : go.

Lemma fueled_call model ms defs : fueled (callLLM o cfg model ms defs).
Proof. unfold callLLM. fueled_auto. Qed.

Lemma fueled_compact reason : fueled (compact o cfg reason).
Proof. unfold compact. fueled_auto. Qed.

Lemma fueled_refresh : fueled (refreshRestorePointFromSession o cfg).
Proof. unfold refreshRestorePointFromSession. fueled_auto. Qed.

Lemma fueled_assemble h s : fueled (assemble o cfg h s).
Proof. unfold assemble. fueled_auto. Qed.

Lemma fueled_hint terminal ms : fueled (with_hint terminal ms).
Proof. unfold with_hint. fueled_auto. Qed.
#[local] Hint Resolve fueled_call fueled_compact fueled_refresh fueled_assemble fueled_hint : go.

Lemma fueled_rebuild retry terminal l : fueled (rebuild o cfg retry terminal l).
Proof. unfold rebuild, build. fueled_auto. Qed.
#[local] Hint Resolve fueled_rebuild : go.

Lemma fueled_retries left terminal model defs l ms : fueled (call_with_retries o cfg left terminal model defs l ms).
Proof. revert l ms; induction left as [|left IH]; intros l ms; simpl; unfold hardAbortRequested; fueled_auto. Qed.
#[local] Hint Resolve fueled_retries : go.

Lemma fueled_ask terminal l : fueled (ask o cfg terminal l).
Proof. unfold ask. fueled_auto. Qed.

Lemma fueled_run_tool id before : fueled (run_tool o cfg id before).
Proof. unfold run_tool, hardAbortRequested. fueled_auto. Qed.

Lemma fueled_skip text calls st : fueled (skip_calls o cfg text calls st).
Proof. revert st; induction calls as [|[[tc fn] args] calls IH]; intros st; simpl; fueled_auto. Qed.
#[local] Hint Resolve fueled_ask fueled_run_tool fueled_skip : go.

Lemma fueled_calls calls st : fueled (run_calls o cfg calls st).
Proof.
  revert st; induction calls as [|[[tc fn] args] calls IH]; intros st; simpl;
    unfold hardAbortRequested, graceful, inject_result, addToSession; fueled_auto.
Qed.

Lemma fueled_inject_pending resolved pms l : fueled (inject_pending o cfg resolved pms l).
Proof. revert resolved l; induction pms as [|pm pms IH]; intros resolved l; simpl; fueled_auto. Qed.
#[local] Hint Resolve fueled_calls fueled_inject_pending : go.

Lemma fueled_turn_step l : fueled (turn_step o cfg l).
Proof.
  unfold turn_step, hardAbortRequested, poll_steering, dequeueForScopeWithFallback, graceful, interim, direct_answer,
    tool_round, finishDelivered. fueled_auto.
Qed.

Lemma fueled_finalize l : fueled (finalize o cfg l).
Proof. unfold finalize, hardAbortRequested. fueled_auto. Qed.

Lemma fueled_finalize_delivered : fueled (finalize_delivered o cfg).
Proof. unfold finalize_delivered. fueled_auto. Qed.

Lemma fueled_setup : fueled (setup o cfg).
Proof. unfold setup, build. fueled_auto. Qed.

(** *** The loop *)

(** Behind the loop: messages that came meanwhile start it again. *)
Definition after_loop (fuel : nat) (l : locals) : ST W exit string :=
  let! steerMsgs := dequeueForScope o cfg in
  match steerMsgs with
  | _ :: _ => turnLoop o cfg fuel (with_final "" (add_pending steerMsgs l))
  | [] => finalize o cfg l
  end.

Lemma turnLoop_eq fuel l : turnLoop o cfg (Datatypes.S fuel) l =
  (let! go := keep_going o cfg l in
   if go then
     let! e := turn_step o cfg l in
     match e with
     | Again l => turnLoop o cfg fuel l
     | Leave l => after_loop fuel l
     | Delivered _ => finalize_delivered o cfg
     end
   else after_loop fuel l).
Proof. done. Qed.

(** A run that ends within [n] more iterations. *)
Definition within {A} (n : Z) (m : ST W exit A) (w : W) : Prop :=
  wp m (fun _ w' => iteration (turn w') <= n) (fun e w' => e <> OutOfFuel /\ iteration (turn w') <= n) w.

Lemma within_kept {A} n (m : ST W exit A) w : keeps inner m -> fueled m -> iteration (turn w) <= n -> within n m w.
Proof.
  intros Hk Hf Hn. unfold within. eapply wp_mono; [apply wp_and; [apply Hf | by apply wp_keeps] | |].
  - intros a w' [_ [Hi _ _ _]]. lia.
  - intros e w' [He [Hi _ _ _]]. split; [done | lia].
Qed.

Lemma within_bind {A B} n (m : ST W exit A) (k : A -> ST W exit B) P w :
  part w m P -> fueled m -> iteration (turn w) <= n -> (forall a w1, inner w w1 -> P a w1 -> within n (k a) w1) -> within n (bind m k) w.
Proof.
  intros Hm Hf Hn Hk. apply wp_bind. eapply wp_mono; [apply wp_and; [apply Hf | apply Hm] | |].
  - intros a w1 [_ [Hi HP]]. by apply Hk.
  - intros e w1 [He [Hi _ _ _]]. split; [done | lia].
Qed.

Lemma part_going l w : part w (keep_going o cfg l) (fun go w' => go = true -> reason_to_go w' l).
Proof.
  unfold keep_going. eapply (part_bind _ _ _ (fun i w' => i = iteration (turn w'))); [by split|]. intros i w1 _ ->.
  destruct (_ <? _) eqn:E; [apply part_ret; intros _; left; by apply Z.ltb_lt|].
  destruct (pending l) eqn:Ep; [|apply part_ret; intros _; right; left; by rewrite Ep].
  eapply part_weaken; [apply part_graceful|]. intros go w2 -> Hg. by right; right.
Qed.

Lemma fueled_going l : fueled (keep_going o cfg l).
Proof. unfold keep_going, graceful. fueled_auto. Qed.

Lemma within_le {A} n n' (m : ST W exit A) w : n <= n' -> within n m w -> within n' m w.
Proof. intros Hn Hw. eapply wp_mono; [exact Hw | |]; simpl; [lia | intros e w' [? ?]; split; [done | lia]]. Qed.

(** Enough fuel for what is left to do. *)
Definition enough (fuel : nat) : Prop := forall l w, (effort w l < fuel)%nat ->
  within (iteration (turn w) + Z.of_nat (effort w l) + 1) (turnLoop o cfg fuel l) w.

Lemma after_within fuel l w : enough fuel -> (effort w l <= fuel)%nat ->
  within (iteration (turn w) + Z.of_nat (effort w l)) (after_loop fuel l) w.
Proof.
  intros Hf Hle. apply (within_bind _ _ _ _ _ (part_take w)); [apply fueled_dequeue | lia|].
  intros msgs w1 I1 Ht. simpl in Ht. pose proof (inner_iteration _ _ I1). pose proof (inner_used _ _ I1).
  destruct msgs as [|m msgs]; [apply within_kept; [kept | apply fueled_finalize | lia]|].
  assert (He : (effort w1 (with_final "" (add_pending (m :: msgs) l)) + 1 <= effort w l)%nat).
  { unfold effort. simpl. rewrite length_app. simpl in *. destruct (used w1), (used w); lia. }
  eapply within_le; [|apply Hf; lia]. lia.
Qed.

Lemma loop_within fuel : enough fuel.
Proof.
  induction fuel as [|fuel IH]; intros l w Hlt; [lia|]. rewrite turnLoop_eq.
  apply (within_bind _ _ _ _ _ (part_going l w)); [apply fueled_going | lia|]. intros go w1 I1 Hg.
  pose proof (effort_inner w w1 l I1). pose proof (inner_iteration _ _ I1). destruct go.
  2: { eapply within_le; [|apply after_within; [done | lia]]. lia. }
  apply wp_bind. eapply wp_mono; [apply wp_and; [apply fueled_turn_step | apply step_effort, Hg, eq_refl] | |].
  - intros [l'|l'|l'] w2 [_ [Hi He]].
    + eapply within_le; [|apply IH; lia]. lia.
    + eapply within_le; [|apply after_within; [done | lia]]. lia.
    + apply within_kept; [kept | apply fueled_finalize_delivered | lia].
  - intros e w2 [He Hi]. split; [done | lia].
Qed.

(** *** Requests to the model *)

Definition is_request (x : output Args) : bool := match x with OCall _ _ _ => true | _ => false end.
Definition requests (w : W) : Z := Z.of_nat (length (List.filter is_request (outbox w))).

Record stays (w w' : W) : Prop := mkStays { stays_requests : requests w' = requests w; stays_iteration : iteration (turn w') = iteration (turn w) }.

#[local] Instance stays_preorder : PreOrder stays.
Proof. split; [done|]. intros w1 w2 w3 [] []. constructor; congruence. Qed.

Lemma requests_say x (w : W) : requests (say x w) = requests w + (if is_request x then 1 else 0).
Proof.
  unfold requests. simpl. rewrite List.filter_app, length_app. simpl. destruct (is_request x); simpl; lia.
Qed.

Lemma move_stays (w w' : W) : move o cfg w w' -> stays w w'.
Proof.
  intros Hm. constructor; [|by apply inner_iteration, move_inner]. destruct Hm; try done.
  - unfold requests. cbn [outbox tick]. by rewrite acts_outbox.
  - by destruct (Compact _ _ _ _ _ _).
  - rewrite requests_say. destruct x; try done; simpl; lia.
  - rewrite requests_say. simpl. lia.
Qed.

Ltac still := part_lemma; first [exact stays_preorder | exact move_stays].
#[local] Hint Extern 1 (keeps stays _) => solve [still] : go.

(** At most [k] requests, in the same iteration. *)
Definition spends (k : Z) {A} (m : ST W exit A) : Prop := forall w w' r, m w = (w', r) ->
  requests w' <= requests w + k /\ iteration (turn w') = iteration (turn w).

Lemma spends_none {A} (m : ST W exit A) : keeps stays m -> spends 0 m.
Proof. intros Hk w w' r E. destruct (Hk _ _ _ E). lia. Qed.

Lemma spends_bind {A B} j k (m : ST W exit A) (f : A -> ST W exit B) :
  0 <= k -> spends j m -> (forall a, spends k (f a)) -> spends (j + k) (bind m f).
Proof.
  intros Hk0 Hm Hf w w' r [(a & w1 & E1 & E2) | (e & E1 & _)]%bind_inv.
  - apply Hm in E1. apply Hf in E2. lia.
  - apply Hm in E1. lia.
Qed.

Lemma spends_skip {A B} k (m : ST W exit A) (f : A -> ST W exit B) :
  0 <= k -> keeps stays m -> (forall a, spends k (f a)) -> spends k (bind m f).
Proof. intros Hk0 Hm Hf. apply (spends_bind 0 k); [done | by apply spends_none | done]. Qed.

Lemma spends_mono {A} j k (m : ST W exit A) : j <= k -> spends j m -> spends k m.
Proof. intros Hle Hm w w' r E. apply Hm in E. lia. Qed.

Lemma spends_stop {A} k (m : ST W exit A) : 0 <= k -> keeps stays m -> spends k m.
Proof. intros Hk Hm. by eapply spends_mono, spends_none. Qed.

Lemma spends_call model ms defs : spends 1 (callLLM o cfg model ms defs).
Proof.
  apply (spends_bind 1 0); [lia | |].
  - intros w w' r E. injection E as <- _. rewrite requests_say. simpl. lia.
  - intros _. apply spends_none. keeps_auto.
Qed.

Lemma spends_retries left terminal model defs l ms :
  spends (Z.of_nat left + 1) (call_with_retries o cfg left terminal model defs l ms).
Proof.
  revert l ms; induction left as [|left IH]; intros l ms; simpl call_with_retries.
  - apply (spends_bind 1 0); [lia | apply spends_call | intros r]. apply spends_none. unfold hardAbortRequested. keeps_auto.
  - eapply spends_mono; [|apply (spends_bind 1 (Z.of_nat left + 1)); [lia | apply spends_call | intros [resp|e]]]; [lia | |].
    { apply spends_stop; [lia | apply keeps_ret, _]. }
    apply spends_skip; [lia | still |]. intros hard. destruct (_ && _); [apply spends_stop; [lia | still]|].
    destruct (isTimeoutError e).
    + apply spends_skip; [lia | still |]. intros cancelled. destruct cancelled; [|apply IH].
      apply spends_stop; [lia|]. unfold hardAbortRequested. keeps_auto.
    + destruct (_ && _); [|apply spends_stop; [lia | apply keeps_ret, _]].
      apply spends_skip; [lia | still |]. intros q. apply IH.
Qed.

Lemma spends_ask terminal l : spends 3 (ask o cfg terminal l).
Proof.
  unfold ask. do 4 (apply spends_skip; [lia | by keeps_auto |]; intros ?).
  destruct (BeforeLLM _ _ _) as [req decision]. apply spends_skip; [lia | keeps_auto |]. intros q.
  apply (spends_bind 3 0); [lia | exact (spends_retries maxRetries _ _ _ _ _) |]. intros [res l']. apply spends_none. keeps_auto.
Qed.

Lemma spends_rest i l : spends 3 (rest_of_step o cfg i l).
Proof.
  unfold rest_of_step. do 2 (apply spends_skip; [lia | still |]; intros ?).
  destruct (_ && _ && _); [apply spends_stop; [lia | apply keeps_ret, _]|].
  do 3 (apply spends_skip; [lia | still |]; intros ?).
  apply (spends_bind 3 0); [lia | apply spends_ask |]. intros [resp l']. apply spends_none. keeps_auto.
Qed.

(** An iteration pays for three requests. *)
Definition pays (w w' : W) : Prop :=
  requests w' - requests w <= 3 * (iteration (turn w') - iteration (turn w)).

#[local] Instance pays_preorder : PreOrder pays.
Proof. split; [intros w; unfold pays; lia|]. intros w1 w2 w3. unfold pays. lia. Qed.

Lemma move_pays (w w' : W) : move o cfg w w' -> pays w w'.
Proof. intros [Hr Hi]%move_stays. unfold pays. lia. Qed.

Ltac paying := part_lemma; first [exact pays_preorder | exact move_pays].
#[local] Hint Extern 1 (keeps pays _) => solve [paying] : go.

Lemma keeps_pays_step l : keeps pays (turn_step o cfg l).
Proof.
  rewrite turn_step_eq. apply keeps_bind; [apply _ | paying | intros []]; [paying|].
  intros w w' r E. apply spends_rest in E as [E1 E2]. unfold pays. change (requests (begin_iteration w)) with (requests w) in E1.
  rewrite E2. simpl. lia.
Qed.
#[local] Hint Resolve keeps_pays_step : go.

Lemma keeps_pays_loop fuel l : keeps pays (turnLoop o cfg fuel l).
Proof. revert l; induction fuel as [|fuel IH]; intros l; simpl; keeps_auto. Qed.

(** What a turn has to do when it begins. *)
Definition effort_of_turn (w : W) : nat :=
  effort w (mkLocals [] "" [] (InitialSteeringMessages cfg) "").

Lemma gives_setup : gives (fun l => pending l = InitialSteeringMessages cfg) (setup o cfg).
Proof. unfold setup. by gives_auto. Qed.

(** C3: A turn ends, whatever the model, the tools and the hooks do: when the
    other goroutines push at most [N] messages into the queue of its session,
    it begins at most as many iterations as the limit leaves, the messages
    that wait or come allow, and one for an interrupt, and one more; and it
    makes at most three requests to the model in each. *)
Theorem turn_ends fuel (w : W) : (effort_of_turn w < fuel)%nat ->
  let '(w', r) := runTurn o cfg fuel w in
  r <> Err OutOfFuel /\
  iteration (turn w') <= iteration (turn w) + Z.of_nat (effort_of_turn w) + 1 /\
  requests w' - requests w <= 3 * (iteration (turn w') - iteration (turn w)).
Proof.
  intros Hf. destruct (runTurn o cfg fuel w) as [w' r] eqn:E.
  assert (Hp : pays w w').
  { eapply (keeps_bind pays (setup o cfg) (fun l => turnLoop o cfg fuel l)); [paying | intros l; apply keeps_pays_loop | exact E]. }
  assert (Hw : within (iteration (turn w) + Z.of_nat (effort_of_turn w) + 1) (runTurn o cfg fuel) w).
  { unfold runTurn. eapply within_bind; [apply part_gives; [kept | apply gives_setup] | apply fueled_setup | lia|].
    intros l w1 I1 El. simpl in El. pose proof (inner_iteration _ _ I1). pose proof (effort_inner w w1 l I1) as He.
    assert (Heq : effort w l = effort_of_turn w) by (unfold effort_of_turn, effort; by rewrite El).
    eapply within_le; [|apply loop_within; lia]. lia. }
  unfold within in Hw. pose proof (wp_inv _ _ _ _ _ _ Hw E) as Hr.
  destruct r as [c|e]; [|destruct Hr as [He Hr]]; split_and!; try done. by intros [= ->].
Qed.
End Bounds.

Lemma steering_offers_one n : (offered (demo_outside (steering_at 20)) n <= 1)%nat.
Proof.
  assert (H : offered (demo_outside (steering_at 20)) n = if (n <=? 20)%nat then 0%nat else 1%nat); [|rewrite H; case_match; lia].
  induction n as [|n IH]; [done|]. cbn [offered]. rewrite IH. cbn [env demo_outside]. unfold steering_at.
  destruct (Nat.eqb_spec n 20) as [->|Hn]; [done|]. destruct (Nat.leb_spec n 20), (Nat.leb_spec (Datatypes.S n) 20); unfold pushes; simpl; lia.
Qed.

Lemma turn_ends_witness :
  effort_of_turn (demo_outside (steering_at 20)) demo_cfg 1 demo_world = 8%nat /\
  let '(w', r) := runTurn (demo_outside (steering_at 20)) demo_cfg 9 demo_world in
  r <> Err OutOfFuel /\ iteration (turn w') <= 0 + 8 + 1 /\ requests w' - 0 <= 3 * (iteration (turn w') - 0).
Proof.
  split; [vm_compute; reflexivity|].
  exact (turn_ends (demo_outside (steering_at 20)) demo_cfg 1 steering_offers_one 9 demo_world ltac:(vm_compute; lia)).
Defined.
