(* ===== verification/TurnSession.v ===== *)
(** * What a turn leaves in its session

    While nothing else writes the session, it always has a tail of what it had
    before the turn, and then what the turn recorded; so an abort can take the
    turn back. *)

From S2P Require Import Prelude Effects GoStrings Message Session ContextManager Steering Hooks PromptContext AgentTurn RunTurn TurnDemo.

(** ** The messages of a turn at the end of a history *)

Lemma drop_app_tail {A} (l1 l2 : list A) n : (n <= length l2)%nat -> drop (length (l1 ++ l2) - n) (l1 ++ l2) = drop (length l2 - n) l2.
Proof.
  intros Hn. rewrite length_app. replace (length l1 + length l2 - n)%nat with (length l1 + (length l2 - n))%nat by lia.
  by rewrite drop_app_add.
Qed.

Lemma matching_tail_common n pre1 pre2 b : (length b <= n)%nat ->
  (length b <= matching_tail n (pre1 ++ b) (pre2 ++ b) <= n)%nat.
Proof.
  induction n as [|n IH]; intros Hn; simpl; [lia|]. case_decide as Hd; [lia|].
  destruct (decide (length b = Datatypes.S n)) as [E|Hne]; [|specialize (IH ltac:(lia)); lia].
  exfalso. apply Hd. rewrite <- E. by rewrite !drop_app_tail.
Qed.

(** The tail that a history and the messages of the turn share, when only one
    of them has anything before it. *)
Lemma matchingTurnMessageTail_app pre1 pre2 b : pre1 = [] \/ pre2 = [] ->
  matchingTurnMessageTail (pre1 ++ b) (pre2 ++ b) = length b.
Proof.
  intros Hp. unfold matchingTurnMessageTail. rewrite !length_app.
  pose proof (matching_tail_common (Nat.min (length pre1 + length b) (length pre2 + length b)) pre1 pre2 b) as Hm.
  destruct Hp as [-> | ->]; simpl in *; lia.
Qed.

Section Session.
Context {S C R Args : Type} `{SessionStore S} `{ContextManager S C} `{ToolBox R Args}.
Context (o : Outside S C Args) (cfg : TurnConfig).
Abbreviation W := (World S C R Args).
Abbreviation key := (SessionKey cfg).
Abbreviation own ss := (ss (TurnAgent cfg)).

(** The store keeps messages as they are. *)
Context (Hstored : forall m, stored m = m) (Hacceptable : forall m, acceptable m).

(** It is a turn with history. *)
Context (Hhistory : NoHistory cfg = false).

(** The others leave the session of the turn alone. *)
Definition polite (a : action S C) : Prop :=
  match a with
  | ARollback => False
  | AOther f => forall ss c, own (fst (f ss c)) = own ss
  | _ => True
  end.
Context (Hpolite : forall n, Forall polite (env o n)).

(** The manager reads the session, and compaction only cuts it at the front. *)
Context (Hassemble : forall n (ss : Stores S) (c : C), snd (Assemble n ss c key (TurnContextWindow cfg) (MaxTokens cfg))
                                    = Fine (GetHistory (own ss) key, GetSummary (own ss) key)).
Definition compacted (n : nat) (ss : Stores S) (c : C) (reason : CompressReason) : S :=
  own (fst (Compact n ss c key reason (TurnContextWindow cfg))).
Context (Hcompact : forall n (ss : Stores S) (c : C) reason, sane (own ss) -> known (own ss) key ->
  sane (compacted n ss c reason) /\ known (compacted n ss c reason) key /\
  exists k, GetHistory (compacted n ss c reason) key = drop k (GetHistory (own ss) key)).

Definition never_cuts : Prop := forall n (ss : Stores S) (c : C) reason, sane (own ss) -> known (own ss) key ->
  GetHistory (compacted n ss c reason) key = GetHistory (own ss) key /\
  GetSummary (compacted n ss c reason) key = GetSummary (own ss) key.

(** The session before the turn. *)
Context (old : list Message) (oldSummary : string).

(** The session after [k] of the old messages and some of the turn's were cut. *)
Record in_step (w : W) (k : nat) (gone kept : list Message) : Prop := {
  step_sane : sane (session cfg w);
  step_known : known (session cfg w) key;
  step_results : pendingResults (turn w) = None;
  step_history : GetHistory (session cfg w) key = drop k old ++ kept;
  step_persisted : persistedMessages (turn w) = gone ++ kept;
  step_one : gone = [] \/ drop k old = [];
  step_never : never_cuts -> k = 0%nat /\ gone = [] /\ GetSummary (session cfg w) key = oldSummary
}.

(** What an abort would bring back. *)
Definition point (w : W) (k : nat) : Prop :=
  restorePointHistory (turn w) = drop k old /\ (never_cuts -> restorePointSummary (turn w) = oldSummary).

Definition J (w : W) : Prop := exists k gone kept, in_step w k gone kept /\ point w k.
Definition J' (w : W) : Prop := exists k gone kept, in_step w k gone kept.

(** What an aborted turn leaves. *)
Definition restored (w : W) : Prop :=
  exists k, GetHistory (session cfg w) key = drop k old /\
            (never_cuts -> GetHistory (session cfg w) key = old /\ GetSummary (session cfg w) key = oldSummary).

Definition carries (I I' : W -> Prop) {A} (m : ST W exit A) : Prop :=
  forall w, I w -> wp m (fun _ => I') (fun e w' => e = TurnAborted -> restored w') w.

(** *** Steps that do not touch the session *)

Record apart (w w' : W) : Prop := {
  apart_session : session cfg w' = session cfg w;
  apart_persisted : persistedMessages (turn w') = persistedMessages (turn w);
  apart_results : pendingResults (turn w) = None -> pendingResults (turn w') = None;
  apart_history : restorePointHistory (turn w') = restorePointHistory (turn w);
  apart_summary : restorePointSummary (turn w') = restorePointSummary (turn w)
}.

#[local] Instance apart_preorder : PreOrder apart.
Proof. split; [done|]. intros w1 w2 w3 [] []. constructor; try congruence. tauto. Qed.

Lemma apart_in_step w w' k gone kept : apart w w' -> in_step w k gone kept -> in_step w' k gone kept.
Proof. intros [Es Ep Er _ _] []. constructor; rewrite ?Es, ?Ep; auto. Qed.

Lemma apart_J w w' : apart w w' -> J w -> J w'.
Proof.
  intros Ha (k & gone & kept & Hi & Hp & Hs). exists k, gone, kept. split; [by eapply apart_in_step|].
  destruct Ha as [_ _ _ Eh Em]. split; [by rewrite Eh | by rewrite Em].
Qed.

Lemma apart_J' w w' : apart w w' -> J' w -> J' w'.
Proof. intros Ha (k & gone & kept & Hi). exists k, gone, kept. by eapply apart_in_step. Qed.

Lemma J_J' w : J w -> J' w.
Proof. intros (k & gone & kept & Hi & _). by exists k, gone, kept. Qed.

Lemma act_apart t (w : W) a : polite a -> apart w (act cfg t w a).
Proof.
  destruct a as [op|hint| |r| | |f]; intros Ha; try done; cbn [act].
  - unfold on_turn, requestGracefulInterrupt. by case_match.
  - unfold on_turn, requestHardAbort. by case_match.
  - unfold on_turn, deliverSubTurnResult. constructor; cbn; repeat case_match; simplify_eq; done.
  - specialize (Ha (stores w) (cm w)). unfold session. destruct (f _ _) as [ss c] eqn:E. constructor; try done.
Qed.

Lemma acts_apart t l (w : W) : Forall polite l -> apart w (fold_left (act cfg t) l w).
Proof.
  intros Hl. revert w; induction Hl as [|a l Ha _ IH]; intros w; [done|]. simpl. etransitivity; [by apply act_apart | apply IH].
Qed.

Lemma yield_apart (w : W) : apart w (fst (yield o cfg w)).
Proof. etransitivity; [apply (acts_apart (now o (clock w)) (env o (clock w))), Hpolite | done]. Qed.

(** *** The parts of a turn *)

Lemma carries_ret {A} I (a : A) : carries I I (ret a).
Proof. intros w HI. by apply wp_ret. Qed.

Lemma carries_throw {A} I I' e : e <> TurnAborted -> carries I I' (throw (A := A) e).
Proof. intros He w HI. by apply wp_throw. Qed.

Lemma carries_bind {A B} I1 I2 I3 (m : ST W exit A) (k : A -> ST W exit B) :
  carries I1 I2 m -> (forall a, carries I2 I3 (k a)) -> carries I1 I3 (bind m k).
Proof. intros Hm Hk w HI. apply wp_bind. eapply wp_mono; [by apply Hm | | done]. intros a w1. apply Hk. Qed.

Lemma carries_step {A} I I' (m : ST W exit A) :
  (forall w, I w -> I' (fst (m w)) /\ match snd (m w) with Err TurnAborted => False | _ => True end) -> carries I I' m.
Proof. intros Hm w HI. specialize (Hm w HI). unfold wp. destruct (m w) as [w' [a|e]]; [by destruct Hm|]. by destruct Hm, e. Qed.

(** A step apart from the session. *)
Lemma carries_apart {A} (m : ST W exit A) :
  (forall w, apart w (fst (m w)) /\ match snd (m w) with Err TurnAborted => False | _ => True end) -> carries J J m.
Proof. intros Hm. apply carries_step. intros w HJ. destruct (Hm w) as [Ha Hr]. split; [by eapply apart_J | done]. Qed.

Lemma carries_yield : carries J J (yield o cfg).
Proof. apply carries_apart. intros w. split; [apply yield_apart | done]. Qed.

Lemma carries_yield' : carries J' J' (yield o cfg).
Proof. apply carries_step. intros w HJ. split; [eapply apart_J'; [apply yield_apart | done] | done]. Qed.

Ltac on_own := unfold session, on_session, on_stores; cbn [stores turn]; rewrite store_at_same.

Lemma in_step_add w k gone kept t msg : in_step w k gone kept ->
  in_step (on_turn (recordPersistedMessage msg) (on_session cfg (fun s => AddFullMessage t s key msg) w)) k gone (kept ++ [msg]).
Proof.
  intros [Hs Hk Hr Hh Hp Hone Hn]. unfold session in *. constructor; unfold session, on_session, on_stores, on_turn; cbn [stores turn]; rewrite ?store_at_same.
  - by apply sane_add.
  - apply known_add.
  - done.
  - rewrite history_add, Hh, Hstored by done. by rewrite app_assoc.
  - cbn. by rewrite Hp, app_assoc.
  - done.
  - intros Hc. rewrite summary_add by done. auto.
Qed.

Lemma carries_persist ingest msg : carries J J (persist o cfg ingest msg).
Proof.
  unfold persist, addToSession. destruct (NoHistory cfg); [apply carries_ret|].
  intros w HJ. apply wp_bind, wp_bind. eapply wp_mono; [apply carries_yield, HJ | | done].
  intros n w1 (k & gone & kept & Hi & Hp). unfold wp at 1, modify at 1. apply wp_bind. unfold wp at 1, modify at 1.
  assert (HJ2 : J (on_turn (recordPersistedMessage msg) (on_session cfg (fun s => AddFullMessage (now o n) s key msg) w1))).
  { exists k, gone, (kept ++ [msg]). split; [by apply in_step_add | exact Hp]. }
  destruct ingest; [|by apply wp_ret]. revert HJ2. generalize (on_turn (recordPersistedMessage msg) (on_session cfg (fun s => AddFullMessage (now o n) s key msg) w1)).
  change (carries J J (ingestMessage o cfg msg)). unfold ingestMessage. eapply carries_bind; [apply carries_yield|]. intros n2.
  apply carries_apart. intros w2. by destruct (Ingest _ _ _ _ _) as [c []].
Qed.

Lemma in_step_save w k gone kept t : in_step w k gone kept -> in_step (on_session cfg (fun s => Save t s key) w) k gone kept.
Proof.
  intros [Hs Hk Hr Hh Hp Hone Hn]. unfold session in *. constructor; unfold session, on_session, on_stores; cbn [stores turn]; rewrite ?store_at_same; try done.
  - by apply sane_save.
  - by apply known_save.
  - by rewrite history_save.
  - intros Hc. rewrite summary_save by done. auto.
Qed.

Lemma carries_save : carries J J (saveSession o cfg).
Proof.
  unfold saveSession. eapply carries_bind; [apply carries_yield|]. intros n. destruct (saveError o n); [apply carries_ret|].
  eapply carries_bind; [|intros _; apply carries_ret]. apply carries_step. intros w (k & gone & kept & Hi & Hp).
  split; [|done]. exists k, gone, kept. split; [by apply in_step_save | exact Hp].
Qed.

(** *** The end of an aborted turn *)

(** The session holds [h] and the summary [s]; the restore point has them too. *)
Definition holds (hist : list Message) (sum : string) (w : W) : Prop :=
  sane (session cfg w) /\ known (session cfg w) key /\ GetHistory (session cfg w) key = hist /\ GetSummary (session cfg w) key = sum.

Lemma holds_restored hist sum w : (exists k, hist = drop k old /\ (never_cuts -> hist = old /\ sum = oldSummary)) ->
  holds hist sum w -> restored w.
Proof. intros (k & E & Hn) (_ & _ & Eh & Es). exists k. rewrite Eh, Es. done. Qed.

Lemma holds_apart hist sum w w' : apart w w' -> holds hist sum w -> holds hist sum w'.
Proof. intros [Es _ _ _ _]. unfold holds. by rewrite Es. Qed.

Lemma wp_yield (Q : nat -> W -> Prop) X w : (forall n w', apart w w' -> Q n w') -> wp (yield o cfg) Q X w.
Proof. intros HQ. unfold wp. cbn. apply HQ. exact (yield_apart w). Qed.

Lemma saving hist sum w : holds hist sum w -> wp (saveSession o cfg) (fun _ => holds hist sum) (fun _ => holds hist sum) w.
Proof.
  intros Hh. unfold saveSession. apply wp_bind, wp_yield. intros n w1 Ha. apply (holds_apart _ _ _ _ Ha) in Hh.
  destruct (saveError o n); [by apply wp_ret|]. apply wp_bind. unfold wp at 1, modify. apply wp_ret.
  destruct Hh as (Hs & Hk & Eh & Es). unfold holds. unfold session in *. unfold on_session, on_stores. cbn [stores]. rewrite !store_at_same.
  split_and!; [by apply sane_save | by apply known_save | by rewrite history_save | by rewrite summary_save].
Qed.

Lemma restoring (w : W) : J w -> wp (restoreSession o cfg) (fun _ => restored) (fun _ => restored) w.
Proof.
  intros HJ. unfold restoreSession. apply wp_bind, wp_yield. intros n w1 Ha. apply (apart_J _ _ Ha) in HJ.
  destruct HJ as (k & gone & kept & [Hs Hk _ _ _ _ Hn] & Hr & Hrs). apply wp_bind. unfold wp at 1, modify.
  set (w2 := on_session _ _ _).
  assert (Hh : holds (drop k old) (GetSummary (session cfg w1) key) w2).
  { subst w2. unfold holds. unfold session in *. unfold on_session, on_stores. cbn [stores]. rewrite !store_at_same, Hr.
    split_and!; [by apply sane_history, Forall_true | by apply known_history | | by rewrite summary_history].
    rewrite history_set; [|done..|by apply Forall_true]. rewrite <- (map_id (drop k old)) at 2. by apply map_ext. }
  apply wp_bind, wp_yield. intros n2 w3 Ha3. apply (holds_apart _ _ _ _ Ha3) in Hh. apply wp_bind. unfold wp at 1, modify.
  set (w4 := on_session _ _ w3).
  assert (Hh4 : holds (drop k old) (restorePointSummary (turn w1)) w4).
  { destruct Hh as (Hs3 & Hk3 & Eh3 & _). subst w4. rewrite (apart_summary _ _ Ha3). subst w2. cbn [on_session on_stores turn].
    unfold holds. unfold session in *. unfold on_session, on_stores. cbn [stores]. rewrite !store_at_same.
    split_and!; [by apply sane_summary | by apply known_summary | by rewrite history_summary | by rewrite summary_set]. }
  assert (Hp : exists k', drop k old = drop k' old /\ (never_cuts -> drop k old = old /\ restorePointSummary (turn w1) = oldSummary)).
  { exists k. split; [done|]. intros Hc. destruct (Hn Hc) as (-> & _ & _). split; [done | by apply Hrs]. }
  eapply wp_mono; [by apply saving | |]; intros a w5; by apply holds_restored.
Qed.

Lemma carries_abort {A} I : carries J I (abortTurn o cfg (A := A)).
Proof.
  intros w HJ. unfold abortTurn. apply wp_bind. unfold wp at 1, modify.
  assert (HJ1 : J (on_turn (set_phase TurnPhaseAborted) w)) by (eapply apart_J; [|exact HJ]; done).
  rewrite Hhistory. apply wp_bind. eapply wp_mono; [by apply restoring | |].
  - intros [text|] w1 Hr; by apply wp_throw.
  - intros e w1 Hr _. exact Hr.
Qed.

(** *** Assembling and compacting *)

Lemma carries_assemble I h s : (forall w w', apart w w' -> I w -> I w') -> carries I I (assemble o cfg h s).
Proof.
  intros HI w Hw. unfold assemble. apply wp_bind, wp_yield. intros n w1 Ha. apply (HI _ _ Ha) in Hw. unfold wp.
  destruct (Assemble _ _ _ _ _ _) as [c [hs| |]]; try (eapply HI; [|exact Hw]; done); done.
Qed.

Lemma in_step_compact w n reason k gone kept : in_step w k gone kept ->
  let '(ss, c) := Compact n (stores w) (cm w) key reason (TurnContextWindow cfg) in J' (with_manager ss c w).
Proof.
  intros [Hs Hk Hr Hh Hp Hone Hn]. destruct (Hcompact n (stores w) (cm w) reason Hs Hk) as (Hs' & Hk' & j & Ej).
  unfold never_cuts in Hn. unfold session in *.
  assert (Hc : never_cuts -> GetHistory (compacted n (stores w) (cm w) reason) key = GetHistory (own (stores w)) key /\
                             GetSummary (compacted n (stores w) (cm w) reason) key = GetSummary (own (stores w)) key) by auto.
  unfold compacted in *. destruct (Compact _ _ _ _ _ _) as [ss c]. cbn [fst] in *. rewrite Hh in Ej.
  destruct (decide (j <= length (drop k old))%nat) as [Hj|Hj].
  - exists (k + j)%nat, gone, kept. constructor; unfold session; cbn [stores turn with_manager]; try done.
    + rewrite Ej, drop_app_le, drop_drop by done. done.
    + destruct Hone as [?|E]; [by left | right]. rewrite <- drop_drop, E. by destruct j.
    + intros Hnc. destruct (Hc Hnc) as [E1 E2], (Hn Hnc) as (-> & -> & E3). rewrite E2, E3. split_and!; try done.
      rewrite E1, Hh in Ej. apply (f_equal (@length Message)) in Ej. rewrite length_drop, length_app in Ej.
      rewrite drop_0 in *. destruct j; [done|]. lia.
  - set (d := (j - length (drop k old))%nat). exists (length old), (gone ++ take d kept), (drop d kept).
    assert (Ed : drop (length old) old = []) by (apply drop_ge; lia).
    constructor; unfold session; cbn [stores turn with_manager]; rewrite ?Ed; try done.
    + by rewrite Ej, drop_app_ge by lia.
    + by rewrite Hp, <- app_assoc, take_drop.
    + by right.
    + intros Hnc. destruct (Hc Hnc) as [E1 E2], (Hn Hnc) as (-> & -> & E3). rewrite E2, E3. rewrite E1, Hh in Ej.
      apply (f_equal (@length Message)) in Ej. rewrite length_drop, length_app in Ej. rewrite drop_0 in *.
      assert (length kept = 0%nat) by lia. assert (kept = []) as -> by by destruct kept.
      split_and!; [lia | by rewrite take_nil | done].
Qed.

Lemma carries_compact I reason : (forall w, I w -> J' w) -> (forall w w', apart w w' -> I w -> I w') -> carries I J' (compact o cfg reason).
Proof.
  intros HI Ha w Hw. unfold compact. apply wp_bind, wp_yield. intros n w1 Ha1. apply (Ha _ _ Ha1), HI in Hw.
  destruct Hw as (k & gone & kept & Hi). unfold wp, modify.
  pose proof (in_step_compact w1 n reason k gone kept Hi) as Hc. by destruct (Compact _ _ _ _ _ _).
Qed.

(** The restore point after a compaction: the turn's messages are left out. *)
Lemma carries_refresh : carries J' J (refreshRestorePointFromSession o cfg).
Proof.
  intros w HJ. unfold refreshRestorePointFromSession. apply wp_bind, wp_yield. intros n w1 Ha.
  apply (apart_J' _ _ Ha) in HJ. destruct HJ as (k & gone & kept & Hi). unfold wp, modify.
  assert (Hp : point (on_turn (captureRestorePoint
    (take (length (GetHistory (session cfg w1) key) - matchingTurnMessageTail (GetHistory (session cfg w1) key) (persistedMessages (turn w1)))
       (GetHistory (session cfg w1) key)) (GetSummary (session cfg w1) key)) w1) k).
  { destruct Hi as [_ _ _ Hh Hp Hone Hn]. split; cbn; [|intros Hc; by apply Hn].
    rewrite Hh, Hp, matchingTurnMessageTail_app by tauto. rewrite length_app.
    replace (length (drop k old) + length kept - length kept)%nat with (length (drop k old)) by lia. by rewrite take_app_length. }
  exists k, gone, kept. split; [|exact Hp]. by destruct Hi.
Qed.

#[local] Hint Resolve carries_yield carries_persist carries_save carries_abort : go.
Lemma carries_compact_refresh {A} reason (m : ST W exit A) : carries J J m ->
  carries J J (let! _ := compact o cfg reason in let! _ := refreshRestorePointFromSession o cfg in m).
Proof.
  intros Hm. eapply carries_bind; [apply carries_compact; [apply J_J' | apply apart_J]|]. intros _.
  eapply carries_bind; [apply carries_refresh|]. by intros _.
Qed.
Lemma carries_weaken {A} (I I' : W -> Prop) (m : ST W exit A) : (forall w, I w -> I' w) -> carries J I m -> carries J I' m.
Proof. intros HI Hm w HJ. eapply wp_mono; [by apply Hm | | done]. intros a w'. apply HI. Qed.

Ltac apart_step :=
  apply carries_apart; intros ?; unfold modify, on_turn, requestHardAbort; cbn; repeat case_match; (split; [constructor; cbn; first [done | congruence]|done]).

Ltac carries_auto := repeat lazymatch goal with
  | |- carries _ _ (bind (compact _ _ _) (fun _ => bind (refreshRestorePointFromSession _ _) _)) => apply carries_compact_refresh
  | |- carries _ _ (bind _ _) => eapply carries_bind; [|intros ?]
  | |- carries _ _ (ret _) => apply carries_ret
  | |- carries _ _ (throw _) => by apply carries_throw
  | |- carries _ _ (match ?x with _ => _ end) => destruct x
  | |- carries _ _ (abortTurn _ _) => apply carries_abort
  | |- carries _ _ (yield _ _) => apply carries_yield
  | |- carries _ _ (assemble _ _ _ _) => apply carries_assemble, apart_J
  | |- carries _ _ (fun _ => _) => apart_step
  | |- carries _ _ (modify _) => apart_step
  | |- carries _ _ (get _) => by apply carries_apart
  | |- carries _ _ (look _ _ _) => unfold look
  | |- _ => by auto with go
  end.

Lemma carries_before name args : carries J J (applyBeforeToolHooks o cfg name args).
Proof. unfold applyBeforeToolHooks. carries_auto. Qed.
Lemma carries_after name args r : carries J J (applyAfterToolHooks o cfg name args r).
Proof. unfold applyAfterToolHooks. carries_auto. Qed.

Lemma carries_finalizeTool id r : carries J J (finalizeToolExecution o cfg id r).
Proof. unfold finalizeToolExecution, deliverMedia. carries_auto. Qed.

Lemma carries_skipped id c ingest : carries J J (persistToolSkipped o cfg id c ingest).
Proof. unfold persistToolSkipped. carries_auto. Qed.

Lemma carries_exec name args : carries J J (executeAgentTool o cfg name args).
Proof. unfold executeAgentTool. carries_auto. Qed.

Lemma carries_approve name args : carries J J (approveToolExecution o cfg name args).
Proof. unfold approveToolExecution. carries_auto. Qed.
#[local] Hint Resolve carries_before carries_after carries_finalizeTool carries_skipped carries_exec carries_approve : go.

Lemma carries_interactive call : carries J J (executeInteractiveToolCall o cfg call).
Proof. unfold executeInteractiveToolCall, persistInteractiveAssistantToolCall, denied. carries_auto. Qed.
#[local] Hint Resolve carries_interactive : go.

Lemma carries_dialogue d : carries J J (run_dialogue o cfg d).
Proof. induction d as [r|call k IH]; simpl; carries_auto. Qed.
#[local] Hint Resolve carries_dialogue : go.

Lemma carries_call model ms defs : carries J J (callLLM o cfg model ms defs).
Proof. unfold callLLM. carries_auto. Qed.

Lemma carries_hint terminal ms : carries J J (with_hint terminal ms).
Proof. unfold with_hint. carries_auto. Qed.
#[local] Hint Resolve carries_call carries_hint : go.

Lemma carries_rebuild retry terminal l : carries J J (rebuild o cfg retry terminal l).
Proof. unfold rebuild, build. carries_auto. Qed.
#[local] Hint Resolve carries_rebuild : go.

Lemma carries_retries left terminal model defs l ms : carries J J (call_with_retries o cfg left terminal model defs l ms).
Proof. revert l ms; induction left as [|left IH]; intros l ms; simpl; unfold hardAbortRequested; carries_auto. Qed.
#[local] Hint Resolve carries_retries : go.

Lemma carries_ask terminal l : carries J J (ask o cfg terminal l).
Proof. unfold ask. carries_auto. Qed.

Lemma carries_run_tool id before : carries J J (run_tool o cfg id before).
Proof. unfold run_tool, hardAbortRequested. carries_auto. Qed.

Lemma carries_skip text calls st : carries J J (skip_calls o cfg text calls st).
Proof. revert st; induction calls as [|[[tc fn] args] calls IH]; intros st; simpl; carries_auto. Qed.

Lemma carries_poll : carries J J (pollSubTurnResult o cfg).
Proof. unfold pollSubTurnResult. carries_auto. Qed.

Lemma carries_dequeue : carries J J (dequeueForScope o cfg).
Proof. unfold dequeueForScope. carries_auto. Qed.
#[local] Hint Resolve carries_ask carries_run_tool carries_skip carries_poll carries_dequeue : go.

(** A turn without children has no results to wait for. *)
Lemma carries_inject_result st : carries J J (inject_result o cfg st).
Proof.
  intros w HJ. unfold inject_result, pollSubTurnResult. apply wp_bind, wp_bind, wp_yield. intros n w1 Ha.
  apply (apart_J _ _ Ha) in HJ. unfold wp. pose proof HJ as (k & gone & kept & Hi & _). by rewrite (step_results _ _ _ _ Hi).
Qed.
#[local] Hint Resolve carries_inject_result : go.

Lemma carries_calls calls st : carries J J (run_calls o cfg calls st).
Proof.
  revert st; induction calls as [|[[tc fn] args] calls IH]; intros st; simpl; unfold hardAbortRequested, graceful; carries_auto.
Qed.

Lemma carries_inject_pending resolved pms l : carries J J (inject_pending o cfg resolved pms l).
Proof. revert resolved l; induction pms as [|pm pms IH]; intros resolved l; simpl; carries_auto. Qed.
#[local] Hint Resolve carries_calls carries_inject_pending : go.

Lemma carries_turn_step l : carries J J (turn_step o cfg l).
Proof.
  unfold turn_step, hardAbortRequested, poll_steering, dequeueForScopeWithFallback, graceful, interim, direct_answer,
    tool_round, finishDelivered. carries_auto.
Qed.

Lemma carries_going l : carries J J (keep_going o cfg l).
Proof. unfold keep_going, graceful. carries_auto. Qed.
#[local] Hint Resolve carries_turn_step carries_going : go.
(** *** From the beginning to the end *)

Lemma carries_ending {A} (f : turnState -> turnState) (a : A) : (forall w, apart w (on_turn f w)) ->
  carries J J' (let! _ := if EnableSummary cfg then compact o cfg ReasonSummarize else ret tt in
                let! _ := modify (on_turn f) in ret a).
Proof.
  intros Hf. eapply carries_bind.
  - destruct (EnableSummary cfg); [apply carries_compact; [apply J_J' | apply apart_J]|].
    eapply carries_weaken; [apply J_J' | apply carries_ret].
  - intros _. eapply carries_bind; [|intros ?; apply carries_ret]. apply carries_step. intros w HJ.
    split; [|done]. eapply apart_J'; [apply Hf | done].
Qed.

Lemma carries_finalize l : carries J J' (finalize o cfg l).
Proof.
  unfold finalize. eapply carries_bind; [unfold hardAbortRequested; carries_auto|]. intros hard. destruct hard; [apply carries_abort|].
  do 4 (eapply (carries_bind J J J'); [carries_auto | intros ?]). destruct a2; [by apply carries_throw|]. by apply carries_ending.
Qed.

Lemma carries_finalize_delivered : carries J J' (finalize_delivered o cfg).
Proof.
  unfold finalize_delivered. do 2 (eapply (carries_bind J J J'); [carries_auto | intros ?]).
  destruct a0; [by apply carries_throw|]. by apply carries_ending.
Qed.

Lemma carries_turnLoop fuel l : carries J J' (turnLoop o cfg fuel l).
Proof.
  revert l; induction fuel as [|fuel IH]; intros l; simpl; [by apply carries_throw|].
  assert (Ha : forall l, carries J J' (let! steerMsgs := dequeueForScope o cfg in
    match steerMsgs with
    | _ :: _ => turnLoop o cfg fuel (with_final "" (add_pending steerMsgs l))
    | [] => finalize o cfg l
    end)).
  { intros l'. eapply carries_bind; [apply carries_dequeue|]. intros [|m ms]; [apply carries_finalize | apply IH]. }
  eapply carries_bind; [apply carries_going|]. intros go. destruct go; [|apply Ha].
  eapply carries_bind; [apply carries_turn_step|]. intros [l'|l'|l']; [apply IH | apply Ha | apply carries_finalize_delivered].
Qed.

(** The world before a turn. *)
Definition ready (w : W) : Prop :=
  sane (session cfg w) /\ known (session cfg w) key /\ pendingResults (turn w) = None /\ persistedMessages (turn w) = [] /\
  GetHistory (session cfg w) key = old /\ GetSummary (session cfg w) key = oldSummary.

Lemma ready_apart w w' : apart w w' -> ready w -> ready w'.
Proof. intros [Es Ep Er _ _] (? & ? & ? & ? & ? & ?). unfold ready. rewrite Es, Ep. split_and!; auto. Qed.

Lemma carries_setup : carries ready J (setup o cfg).
Proof.
  intros w Hw. unfold setup. rewrite Hhistory. apply wp_bind. unfold assemble at 1. apply wp_bind, wp_yield. intros n w1 Ha.
  apply (ready_apart _ _ Ha) in Hw. pose proof (Hassemble n (stores w1) (cm w1)) as Hs.
  unfold wp at 1. destruct (Assemble _ _ _ _ _ _) as [c out]. simpl in Hs. subst out. apply wp_bind. unfold wp at 1, modify.
  match goal with |- wp _ _ _ ?w2 => assert (HJ : J w2) end.
  { destruct Hw as (Hs & Hk & Hr & Hp & Eh & Em). exists 0%nat, [], []. split.
    - constructor; rewrite ?app_nil_r; try done; by left.
    - split; cbn; [exact Eh | intros _; exact Em]. }
  revert HJ. match goal with |- J ?w2 -> _ => generalize w2 end. match goal with |- forall w, J w -> wp ?m _ _ w => change (carries J J m) end.
  unfold build. carries_auto.
Qed.

Lemma carries_runTurn fuel : carries ready J' (runTurn o cfg fuel).
Proof. eapply carries_bind; [apply carries_setup|]. intros l. apply carries_turnLoop. Qed.
End Session.

Section Theorems.
Context {S C R Args : Type} `{SessionStore S} `{ContextManager S C} `{ToolBox R Args}.
Context (o : Outside S C Args) (cfg : TurnConfig).

(** What a turn is told of its surroundings: it has history, the store keeps
    every message as it is, nothing else writes the session, and the manager
    reads the session and only cuts it at the front. *)
Record undisturbed : Prop := {
  with_history : NoHistory cfg = false;
  all_stored : forall m, stored m = m;
  all_acceptable : forall m, acceptable m;
  all_polite : forall n, Forall (polite cfg) (env o n);
  reads_session : forall n (ss : Stores S) (c : C), snd (Assemble n ss c (SessionKey cfg) (TurnContextWindow cfg) (MaxTokens cfg))
    = Fine (GetHistory (ss (TurnAgent cfg)) (SessionKey cfg), GetSummary (ss (TurnAgent cfg)) (SessionKey cfg));
  cuts_front : forall n (ss : Stores S) (c : C) reason, sane (ss (TurnAgent cfg)) -> known (ss (TurnAgent cfg)) (SessionKey cfg) ->
    sane (compacted cfg n ss c reason) /\ known (compacted cfg n ss c reason) (SessionKey cfg) /\
    exists k, GetHistory (compacted cfg n ss c reason) (SessionKey cfg) = drop k (GetHistory (ss (TurnAgent cfg)) (SessionKey cfg))
}.

End Theorems.

(** *** A manager that keeps the last messages *)

Record window : Type := mkWindow { size : Z }.

#[local] Instance window_manager : ContextManager Manager.SessionManager window := {
  Assemble n ss c k budget maxTokens := (c, Fine (GetHistory (ss "main") k, GetSummary (ss "main") k));
  Compact n ss c k reason budget := (store_at "main" (TruncateHistory 0 (ss "main") k (size c)) ss, c);
  Ingest n ss c k msg := (c, Fine tt)
}.

Definition window_outside (acts : nat -> list (action Manager.SessionManager window)) :
    Outside Manager.SessionManager window string :=
  mkOutside _ _ _ (fun _ => 0) acts [] demo_model "m" false (fun ms => ms) None (fun s => s) (fun _ => "static") (fun _ => "now")
    (fun _ => "") (fun _ => 0) (fun _ => None) None (fun refs => refs) (fun s => s) (fun s => s) (fun s => Some s) ""
    (fun s => String.eqb s "").

Definition window_world : World Manager.SessionManager window nat string :=
  mkWorld demo_sessions (mkWindow 4) 0%nat (newSteeringQueue SteeringOneAtATime) fresh_turn [] 0%nat.

Definition abort_window (k n : nat) : list (action Manager.SessionManager window) := if Nat.eqb n k then [AHard] else [].

Lemma window_undisturbed k : undisturbed (window_outside (abort_window k)) demo_cfg.
Proof.
  constructor; try done.
  - intros n. unfold window_outside, abort_window. cbn [env]. destruct (Nat.eqb n k); by repeat constructor.
  - intros n ss c reason _ Hk. unfold compacted. cbn [Compact window_manager fst]. rewrite store_at_same.
    split; [done|]. split; [by apply known_truncate|]. rewrite history_truncate by done. unfold truncated.
    destruct (_ <=? 0); [|by eexists]. exists (length (GetHistory (ss "main") "s")). by rewrite drop_ge.
Qed.

