(* ===== verification/TurnTranscript.v ===== *)
(** * What a turn records

    The messages of a completed turn: every call of a tool is answered, in
    order and at once. *)

From S2P Require Import Prelude Effects GoStrings Message Session ContextManager Steering Hooks PromptContext AgentTurn RunTurn TurnDemo TurnMoves TurnBounds.

(** ** Transcripts *)

(** A message that neither calls nor answers. *)
Definition plain (m : Message) : Prop := ToolCalls m = [] /\ is_tool m = false /\ Role m <> "system".

(** A message that answers the call [id]. *)
Definition answers (id : string) (m : Message) : Prop := is_tool m = true /\ ToolCallID m = id /\ ToolCalls m = [].

Inductive transcript : list Message -> Prop :=
| transcript_nil : transcript []
| transcript_plain m l : plain m -> transcript l -> transcript (m :: l)
| transcript_calls m results l :
    Role m = "assistant" -> ToolCalls m <> [] -> Forall2 answers (map CallID (ToolCalls m)) results ->
    transcript l -> transcript (m :: results ++ l).

Lemma transcript_app l1 l2 : transcript l1 -> transcript l2 -> transcript (l1 ++ l2).
Proof.
  intros H1 H2. induction H1 as [|m l Hm _ IH|m rs l Hr Hc Ha _ IH]; [done | by constructor |].
  simpl. rewrite <- app_assoc. by constructor.
Qed.

Lemma transcript_all_plain l : Forall plain l -> transcript l.
Proof. induction 1; by constructor. Qed.

(** A transcript is what strict providers accept. *)
Lemma transcript_strict l : transcript l -> strict l.
Proof.
  induction 1 as [|m l (Hc & Ht & Hs) _ IH|m rs l Hr Hc Ha _ IH]; [constructor | |].
  - apply strict_plain; try done. unfold is_call, has_calls. rewrite Hc. by destruct (_ =? _)%string.
  - apply strict_call; [| | |exact IH].
    + unfold is_call, has_calls. rewrite Hr. by destruct (ToolCalls m).
    + clear -Ha. induction Ha as [|i r ids rs (H & _) _ IH]; by constructor.
    + intros tc Htc. assert (Hin : CallID tc ∈ map CallID (ToolCalls m)) by (apply list_elem_of_fmap; eauto).
      clear -Ha Hin. induction Ha as [|i r ids rs (H1 & H2 & _) _ IH]; [by apply not_elem_of_nil in Hin|].
      apply elem_of_cons in Hin as [-> | Hin]; [exists r; split; [left | done]|].
      destruct (IH Hin) as (t & Ht & E). exists t. split; [by right | done].
Qed.

Section Transcript.
Context {S C R Args : Type} `{SessionStore S} `{ContextManager S C} `{ToolBox R Args}.
Context (o : Outside S C Args) (cfg : TurnConfig).
Abbreviation W := (World S C R Args).

(** A model that only answers, a turn with history, and users who write plain
    messages. *)
Definition plain_push (a : action S C) : Prop := match a with AQueue (OpPush _ m) => plain m | _ => True end.

Record plain_talk : Prop := {
  talk_history : NoHistory cfg = false;
  talk_direct : forall n model ms defs, exists r, chat o n model ms defs = Reply r;
  talk_user : plain (user_message cfg);
  talk_initial : Forall plain (InitialSteeringMessages cfg);
  talk_pushes : forall n, Forall plain_push (env o n)
}.
Context (Htalk : plain_talk).

Definition tame (w : W) : Prop := forall k, Forall plain (queued (steering w) k).

Abbreviation log w := (persistedMessages (turn w)).

(** What a part records, with its result. *)
Definition writes {A} (P : A -> list Message -> Prop) (m : ST W exit A) : Prop :=
  forall w, tame w -> wp m (fun a w' => tame w' /\ exists new, log w' = log w ++ new /\ P a new) (fun _ _ => True) w.

Abbreviation silent := (writes (fun _ new => new = [])).

Lemma writes_ret {A} (a : A) (P : A -> list Message -> Prop) : P a [] -> writes P (ret a).
Proof. intros HP w Hw. split; [done|]. exists []. by rewrite app_nil_r. Qed.

Lemma writes_throw {A} e (P : A -> list Message -> Prop) : writes P (throw e).
Proof. intros w Hw. by apply wp_throw. Qed.

Lemma writes_bind {A B} (P : A -> list Message -> Prop) (Q : B -> list Message -> Prop) (m : ST W exit A) (k : A -> ST W exit B) :
  writes P m -> (forall a new, P a new -> writes (fun b more => Q b (new ++ more)) (k a)) -> writes Q (bind m k).
Proof.
  intros Hm Hk w Hw. apply wp_bind. eapply wp_mono; [by apply Hm | | done]. intros a w1 (Hw1 & new & E & HP).
  eapply wp_mono; [by apply (Hk a new) | | done]. intros b w2 (Hw2 & more & E2 & HQ). split; [done|].
  exists (new ++ more). split; [by rewrite E2, E, app_assoc | done].
Qed.

Lemma writes_skip {A B} (Q : B -> list Message -> Prop) (m : ST W exit A) (k : A -> ST W exit B) :
  silent m -> (forall a, writes Q (k a)) -> writes Q (bind m k).
Proof. intros Hm Hk. eapply writes_bind; [exact Hm|]. intros a new ->. apply Hk. Qed.

Lemma writes_mono {A} (P Q : A -> list Message -> Prop) (m : ST W exit A) :
  (forall a new, P a new -> Q a new) -> writes P m -> writes Q m.
Proof.
  intros HPQ Hm w Hw. eapply wp_mono; [by apply Hm | | done]. intros a w' (Ht & new & E & HP). split; [done|]. eauto.
Qed.

(** A step that records nothing. *)
Lemma silent_step {A} (m : ST W exit A) :
  (forall w, tame w -> tame (fst (m w)) /\ log (fst (m w)) = log w) -> silent m.
Proof.
  intros Hm w Hw. destruct (Hm w Hw) as [Ht E]. unfold wp. destruct (m w) as [w' [a|e]]; [|done].
  split; [done|]. exists []. by rewrite app_nil_r.
Qed.

Lemma queued_after sq sq' msgs scope : dequeueLocked sq scope = (sq', msgs) -> (forall k, Forall plain (queued sq k)) ->
  Forall plain msgs /\ (forall k, Forall plain (queued sq' k)).
Proof.
  intros E Hq. pose proof (dequeueLocked_spec sq scope) as Hd. rewrite E in Hd. destruct Hd as (Hs & Ho & _).
  pose proof (Hq scope) as Hscope. rewrite Hs in Hscope. apply Forall_app in Hscope as [H1' H2']. split; [done|].
  intros k. destruct (decide (k = scope)) as [->|Hne]; [done|]. rewrite Ho by done. apply Hq.
Qed.

Lemma op_tame sq op : plain_push (AQueue op) -> (forall k, Forall plain (queued sq k)) -> forall k, Forall plain (queued (fst (run_op sq op)) k).
Proof.
  intros Hp Hq. destruct op as [scope m|scope|scope|md]; simpl.
  - destruct (pushScope sq scope m) as [sq'|] eqn:E; [|exact Hq]. apply pushScope_spec in E as (E & Ho & _).
    intros k. destruct (decide (k = normalizeSteeringScope scope)) as [->|Hne]; [|rewrite Ho by done; apply Hq].
    cbn [fst]. cbv zeta in *. rewrite E. apply Forall_app. split; [apply Hq | by constructor].
  - unfold dequeueScope. destruct (dequeueLocked _ _) as [q ms] eqn:E. by eapply queued_after.
  - rewrite dequeueScopeWithFallback_eq. destruct (dequeueLocked _ _) as [q ms] eqn:E. by eapply queued_after.
  - exact Hq.
Qed.

Lemma act_tame t (w : W) a : plain_push a -> tame w -> tame (act cfg t w a) /\ log (act cfg t w a) = log w.
Proof.
  destruct a as [op|hint| |r| | |f]; intros Hp Hw; cbn [act].
  - split; [intros k; by apply (op_tame (steering w) op) | done].
  - split; [done|]. unfold on_turn, requestGracefulInterrupt. cbn. by case_match.
  - split; [done|]. unfold on_turn, requestHardAbort. cbn. by case_match.
  - split; [done|]. unfold on_turn, deliverSubTurnResult. cbn. by repeat case_match.
  - done.
  - unfold HardAbort, Finish. split; [by case_match|]. case_match; cbn; by repeat case_match.
  - by destruct (f _ _).
Qed.

Lemma acts_tame t l (w : W) : Forall plain_push l -> tame w -> tame (fold_left (act cfg t) l w) /\ log (fold_left (act cfg t) l w) = log w.
Proof.
  intros Hl. revert w; induction Hl as [|a l Ha _ IH]; intros w Hw; [done|]. simpl.
  destruct (act_tame t w a Ha Hw) as [Ht E]. destruct (IH _ Ht) as [Ht' E']. split; [done | congruence].
Qed.

Lemma silent_yield : silent (yield o cfg).
Proof.
  apply silent_step. intros w Hw. destruct (acts_tame (now o (clock w)) (env o (clock w)) w) as [Ht E]; [|done|done].
  apply (talk_pushes Htalk).
Qed.

(** *** The parts of a turn *)

Ltac silent_step :=
  apply silent_step; intros ? ?; unfold modify, on_turn, requestHardAbort; cbn; repeat case_match; (split; [done|]); done.

Ltac silent_auto := repeat lazymatch goal with
  | |- silent (bind _ _) => apply writes_skip; [|intros ?]
  | |- silent (ret _) => by apply writes_ret
  | |- silent (throw _) => apply writes_throw
  | |- silent (match ?x with _ => _ end) => destruct x
  | |- silent (yield _ _) => apply silent_yield
  | |- silent (fun _ => _) => silent_step
  | |- silent (modify _) => silent_step
  | |- silent (get _) => silent_step
  | |- silent (look _ _ _) => unfold look
  | |- _ => by auto with go
  end.

Lemma silent_saveSession : silent (saveSession o cfg).
Proof. unfold saveSession. silent_auto. Qed.

Lemma writes_abort {A} (P : A -> list Message -> Prop) : writes P (abortTurn o cfg).
Proof.
  intros w Hw. eapply wp_mono; [apply abort_throws | | done]. by intros a w' [].
Qed.

Lemma silent_compact reason : silent (compact o cfg reason).
Proof. unfold compact. silent_auto. Qed.

Lemma silent_refresh : silent (refreshRestorePointFromSession o cfg).
Proof. unfold refreshRestorePointFromSession. silent_auto. Qed.

Lemma silent_assemble h s : silent (assemble o cfg h s).
Proof. unfold assemble. silent_auto. Qed.

Lemma silent_before name args : silent (applyBeforeToolHooks o cfg name args).
Proof. unfold applyBeforeToolHooks. silent_auto. Qed.

Lemma silent_after name args r : silent (applyAfterToolHooks o cfg name args r).
Proof. unfold applyAfterToolHooks. silent_auto. Qed.

Lemma silent_approve name args : silent (approveToolExecution o cfg name args).
Proof. unfold approveToolExecution. silent_auto. Qed.

Lemma silent_exec name args : silent (executeAgentTool o cfg name args).
Proof. unfold executeAgentTool. silent_auto. Qed.

Lemma silent_deliver r : silent (deliverMedia o cfg r).
Proof. unfold deliverMedia. silent_auto. Qed.
#[local] Hint Resolve silent_saveSession writes_abort silent_compact silent_refresh silent_assemble silent_before silent_after
  silent_approve silent_exec silent_deliver : go.

Lemma silent_call model ms defs : silent (callLLM o cfg model ms defs).
Proof.
  unfold callLLM. apply writes_skip; [silent_step|]. intros _. apply writes_skip; [apply silent_yield|]. intros n.
  destruct (talk_direct Htalk n model ms defs) as [r ->]. simpl. silent_auto.
Qed.

Lemma silent_hint terminal ms : silent (with_hint terminal ms).
Proof. unfold with_hint. silent_auto. Qed.
#[local] Hint Resolve silent_call silent_hint : go.

Lemma silent_rebuild retry terminal l : silent (rebuild o cfg retry terminal l).
Proof. unfold rebuild, build. silent_auto. Qed.
#[local] Hint Resolve silent_rebuild : go.

Lemma silent_retries left terminal model defs l ms : silent (call_with_retries o cfg left terminal model defs l ms).
Proof. revert l ms; induction left as [|left IH]; intros l ms; simpl; unfold hardAbortRequested; silent_auto. Qed.
#[local] Hint Resolve silent_retries : go.

Lemma silent_ask terminal l : silent (ask o cfg terminal l).
Proof. unfold ask. silent_auto. Qed.

Lemma silent_poll : silent (pollSubTurnResult o cfg).
Proof. unfold pollSubTurnResult. silent_auto. Qed.

Lemma silent_addToSession m : silent (addToSession o cfg m).
Proof. unfold addToSession. silent_auto. Qed.
#[local] Hint Resolve silent_ask silent_poll silent_addToSession : go.

Lemma writes_persist ingest m : writes (fun _ new => new = [m]) (persist o cfg ingest m).
Proof.
  unfold persist. rewrite (talk_history Htalk). apply writes_skip; [apply silent_addToSession|]. intros _.
  apply (writes_bind (fun _ new => new = [m])).
  - intros w Hw. split; [done|]. by exists [m].
  - intros _ new ->. eapply writes_mono; [|instantiate (1 := fun _ new => new = [])].
    + by intros _ more ->.
    + destruct ingest; [|by apply writes_ret]. unfold ingestMessage. silent_auto.
Qed.

(** *** Tools *)

Lemma writes_finalizeTool id r :
  writes (fun f new => new = [FinalMessage f] /\ answers id (FinalMessage f)) (finalizeToolExecution o cfg id r).
Proof.
  unfold finalizeToolExecution. apply writes_skip; [silent_auto|]. intros _. apply writes_skip; [auto with go|]. intros r'.
  eapply writes_bind; [apply writes_persist|]. intros _ new ->. by apply writes_ret.
Qed.

Lemma writes_skipped id c ingest : writes (fun m new => new = [m] /\ answers id m) (persistToolSkipped o cfg id c ingest).
Proof. unfold persistToolSkipped. eapply writes_bind; [apply writes_persist|]. intros _ new ->. by apply writes_ret. Qed.

(** One call is answered by one message. *)
Definition one_answer (id : string) (r : result Message finalizedToolExecution) (new : list Message) : Prop :=
  new = [match r with Ok f => FinalMessage f | Err m => m end] /\ Forall2 answers [id] new.

Lemma one_answer_intro id r : answers id (match r with Ok f => FinalMessage f | Err m => m end) ->
  one_answer id r [match r with Ok f => FinalMessage f | Err m => m end].
Proof. intros Ha. split; [done | by constructor]. Qed.

Lemma writes_finalized id r : writes (one_answer id) (let! f := finalizeToolExecution o cfg id r in ret (Ok f)).
Proof.
  eapply writes_bind; [apply writes_finalizeTool|]. intros f new [-> Ha]. apply writes_ret.
  exact (one_answer_intro id (Ok f) Ha).
Qed.

Lemma writes_refused id c : writes (one_answer id) (let! m := persistToolSkipped o cfg id c false in ret (Err m)).
Proof.
  eapply writes_bind; [apply writes_skipped|]. intros m new [-> Ha]. apply writes_ret.
  exact (one_answer_intro id (Err m) Ha).
Qed.

Lemma writes_run_tool id before : writes (one_answer id) (run_tool o cfg id before).
Proof.
  unfold run_tool. destruct (OutResult before); [apply writes_finalized|]. destruct (negb _); [apply writes_refused|].
  apply writes_skip; [auto with go|]. intros deny. destruct (negb _); [apply writes_refused|].
  apply writes_skip; [auto with go|]. intros r. apply writes_skip; [unfold hardAbortRequested; silent_auto|]. intros hard.
  destruct hard; [apply writes_abort|]. apply writes_skip; [auto with go|]. intros [after|e]; [|apply writes_throw].
  destruct (AfterHard after); [apply writes_abort | apply writes_finalized].
Qed.

Abbreviation ids calls := (map (fun c : ToolCall * FunctionCall * Args => CallID (fst (fst c))) calls).

(** The calls are answered, and what is pending is plain. *)
Definition answered (calls : list (ToolCall * FunctionCall * Args)) (st : tool_state) (new : list Message) : Prop :=
  Forall plain (pending (vars st)) /\ Forall2 answers (ids calls) new.

Lemma writes_skip_calls text calls st : Forall plain (pending (vars st)) -> writes (answered calls) (skip_calls o cfg text calls st).
Proof.
  revert st; induction calls as [|[[tc fn] args] calls IH]; intros st Hp; [by apply writes_ret|].
  simpl. eapply writes_bind; [apply writes_persist|]. intros _ new ->.
  eapply writes_mono; [|by apply IH]. intros st' more [Hp' Ha]. split; [done|]. by constructor.
Qed.

Lemma writes_dequeue : writes (fun msgs new => new = [] /\ Forall plain msgs) (dequeueForScope o cfg).
Proof.
  unfold dequeueForScope. apply writes_skip; [apply silent_yield|]. intros n w Hw. unfold wp, dequeueScope.
  destruct (dequeueLocked _ _) as [q ms] eqn:E. destruct (queued_after _ _ _ _ E Hw) as [Hm Hq]. split; [exact Hq|].
  exists []. by rewrite app_nil_r.
Qed.

Lemma writes_inject_result st : writes (fun st' new => new = [] /\ pending (vars st') = pending (vars st)) (inject_result o cfg st).
Proof.
  unfold inject_result. apply writes_skip; [auto with go|]. intros [|m ms]; [by apply writes_ret|].
  apply writes_skip; [auto with go|]. intros _. by apply writes_ret.
Qed.

Lemma writes_calls calls st : Forall plain (pending (vars st)) -> writes (answered calls) (run_calls o cfg calls st).
Proof.
  revert st; induction calls as [|[[tc fn] args] calls IH]; intros st Hp; [by apply writes_ret|].
  assert (Hstep : forall m st1, answers (CallID tc) m -> Forall plain (pending (vars st1)) ->
    writes (fun st' more => answered ((tc, fn, args) :: calls) st' ([m] ++ more)) (run_calls o cfg calls st1)).
  { intros m st1 Hm Hp1. eapply writes_mono; [|by apply IH]. intros st' more [Hp' Ha]. split; [done|]. by constructor. }
  simpl run_calls. apply writes_skip; [unfold hardAbortRequested; silent_auto|]. intros hard. destruct hard; [apply writes_abort|].
  apply writes_skip; [auto with go|]. intros [before|e]; [|apply writes_throw]. destruct (OutHard before); [apply writes_abort|].
  eapply writes_bind; [apply writes_run_tool|]. intros r new [-> Ha]. inversion Ha as [|? ? ? ? Hm _]; subst.
  destruct r as [f|m]; [|by apply Hstep].
  eapply writes_bind; [apply writes_dequeue|]. intros msgs new [-> Hms]. simpl app.
  assert (Hp2 : Forall plain (pending (vars st) ++ msgs)) by (by apply Forall_app).
  apply writes_skip; [unfold graceful; simpl; destruct (pending (vars st) ++ msgs); silent_auto|]. intros text.
  destruct (String.eqb _ _).
  - eapply writes_bind; [apply writes_inject_result|]. intros st1 new [-> E]. apply Hstep; [done|]. rewrite E. exact Hp2.
  - eapply writes_mono; [|apply writes_skip_calls, Hp2]. intros st' more [Hp' Ha']. split; [done|]. by constructor.
Qed.

(** *** The loop *)

Definition end_pending (e : step_end) : list Message := match e with Again l | Leave l | Delivered l => pending l end.

Definition round (e : step_end) (new : list Message) : Prop := Forall plain (end_pending e) /\ transcript new.

Lemma writes_direct resp l : Forall plain (pending l) -> writes round (direct_answer o cfg resp l).
Proof.
  intros Hp. unfold direct_answer. eapply writes_bind; [apply writes_dequeue|]. intros [|m ms] new [-> Hms]; apply writes_ret.
  - by split; [|constructor].
  - split; [by apply Forall_app | constructor].
Qed.

Lemma writes_finishDelivered l : Forall plain (pending l) -> writes round (finishDelivered o cfg l).
Proof.
  intros Hp. unfold finishDelivered. destruct (pending l) eqn:El; [|apply writes_ret; split; [by simpl; rewrite El | constructor]].
  eapply writes_bind; [apply writes_dequeue|]. intros [|m ms] new [-> Hms]; apply writes_ret.
  - split; [simpl; by rewrite El | constructor].
  - split; [simpl; by rewrite El | constructor].
Qed.

Lemma ids_of_message resp calls : map CallID (ToolCalls (assistant_message (Args := Args) o resp calls)) = ids calls.
Proof. simpl. rewrite map_map. apply map_ext. by intros [[tc fn] args]. Qed.

Lemma writes_tool_round resp l : RespCalls resp <> [] -> Forall plain (pending l) -> writes round (tool_round o cfg resp l).
Proof.
  intros Hr Hp. unfold tool_round. set (calls := map (NormalizeToolCall o) (RespCalls resp)). set (msg := assistant_message o resp calls).
  eapply writes_bind; [apply writes_persist|]. intros _ new ->. apply writes_skip; [silent_auto|]. intros _.
  eapply writes_bind; [by apply writes_calls|]. intros st answers_ [Hp' Ha].
  assert (Ht : forall more, transcript more -> transcript ([msg] ++ answers_ ++ more)).
  { intros more Hm. simpl. apply transcript_calls; try done.
    - subst msg calls. simpl. destruct (RespCalls resp); [done|]. simpl. by destruct (NormalizeToolCall o r) as [[? ?] ?].
    - subst msg. rewrite ids_of_message. exact Ha. }
  destruct (allHandled st).
  - eapply writes_mono; [|by apply writes_finishDelivered]. intros e more [He Hm]. split; [done | by apply Ht].
  - apply writes_skip; [silent_auto|]. intros _. apply writes_ret. split; [done | by apply Ht; constructor].
Qed.

Lemma writes_inject_pending resolved pms l : Forall plain pms ->
  writes (fun _ new => transcript new) (inject_pending o cfg resolved pms l).
Proof.
  intros Hp. revert resolved l; induction Hp as [|m pms Hm Hp IH]; intros resolved l; simpl; [apply writes_ret; constructor|].
  eapply writes_bind; [apply writes_persist|]. intros _ new ->. eapply writes_mono; [|apply IH]. intros l' more Ht. by constructor.
Qed.

Lemma writes_poll_steering i : writes (fun msgs new => new = [] /\ Forall plain msgs) (poll_steering o cfg i).
Proof.
  unfold poll_steering. destruct (_ <? _); [apply writes_dequeue|]. destruct (SkipInitialSteeringPoll cfg); [by apply writes_ret|].
  unfold dequeueForScopeWithFallback. apply writes_skip; [apply silent_yield|]. intros n w Hw. unfold wp. rewrite dequeueScopeWithFallback_eq.
  destruct (dequeueLocked _ _) as [q ms] eqn:E. destruct (queued_after _ _ _ _ E Hw) as [Hm Hq]. split; [exact Hq|].
  exists []. by rewrite app_nil_r.
Qed.

Lemma writes_poll : writes (fun msgs new => new = [] /\ Forall plain msgs) (pollSubTurnResult o cfg).
Proof.
  unfold pollSubTurnResult. apply writes_skip; [apply silent_yield|]. intros n w Hw. unfold wp.
  destruct (pendingResults (turn w)) as [[[|r buf] closed]|]; (split; [done|]); exists []; rewrite app_nil_r;
    (split; [done|]); (split; [done|]); [by constructor | | by constructor].
  destruct r as [tr|]; [|constructor]. case_match; by repeat constructor.
Qed.

Lemma writes_ask terminal l : writes (fun q new => new = [] /\ pending (snd q) = pending l) (ask o cfg terminal l).
Proof.
  intros w Hw. eapply wp_mono; [apply wp_and; [by apply silent_ask | apply gives_ask] | | done].
  intros q w' [(Ht & new & E & ->) El]. split; [done|]. by exists [].
Qed.

Lemma writes_turn_step l : Forall plain (pending l) -> writes round (turn_step o cfg l).
Proof.
  intros Hp. unfold turn_step. apply writes_skip; [unfold hardAbortRequested; silent_auto|]. intros hard. destruct hard; [apply writes_abort|].
  do 2 (apply writes_skip; [silent_auto|]; intros ?). eapply writes_bind; [apply writes_poll_steering|]. intros msgs new [-> Hms].
  assert (Hp1 : Forall plain (pending l ++ msgs)) by by apply Forall_app.
  apply writes_skip; [silent_auto|]. intros ended. destruct (_ && _ && _); [apply writes_ret; split; [done | constructor]|].
  eapply writes_bind; [apply writes_poll|]. intros results new [-> Hrs].
  assert (Hp2 : Forall plain ((pending l ++ msgs) ++ results)) by by apply Forall_app.
  eapply writes_bind; [by apply writes_inject_pending|]. intros l1 new Hnew.
  apply writes_skip; [unfold graceful; silent_auto|]. intros terminal.
  eapply writes_bind; [apply writes_ask|]. intros [resp l2] more [-> El]. simpl in El.
  assert (Hp3 : Forall plain (pending l2)) by (rewrite El; destruct (1 <? _); constructor).
  apply writes_skip; [unfold interim; silent_auto|]. intros _.
  assert (Hend : forall m, writes round m -> writes (fun e more => round e (new ++ more)) m).
  { intros m. apply writes_mono. intros e more [He Hm]. split; [done | by apply transcript_app]. }
  apply Hend. destruct (RespCalls resp) eqn:Ec; [by apply writes_direct|]. destruct terminal; [by apply writes_direct|].
  apply writes_tool_round; [by rewrite Ec | done].
Qed.

(** The transcript of a turn with its last message. *)
Definition ended (c : string) (new : list Message) : Prop :=
  exists body answer, new = body ++ [text_message "assistant" answer] /\ transcript body /\
    (c = answer \/ c = "" /\ answer = handledToolResponseSummary).

Lemma writes_finalize l : writes ended (finalize o cfg l).
Proof.
  unfold finalize. apply writes_skip; [unfold hardAbortRequested; silent_auto|]. intros hard. destruct hard; [apply writes_abort|].
  do 2 (apply writes_skip; [silent_auto|]; intros ?). eapply writes_bind; [apply writes_persist|]. intros _ new ->.
  apply writes_skip; [silent_auto|]. intros e. destruct e; [apply writes_throw|]. do 2 (apply writes_skip; [silent_auto|]; intros ?).
  apply writes_ret. eexists [], _. split; [done|]. split; [constructor | by left].
Qed.

Lemma writes_finalize_delivered : writes ended (finalize_delivered o cfg).
Proof.
  unfold finalize_delivered. eapply writes_bind; [apply writes_persist|]. intros _ new ->.
  apply writes_skip; [silent_auto|]. intros e. destruct e; [apply writes_throw|]. do 2 (apply writes_skip; [silent_auto|]; intros ?).
  apply writes_ret. exists [], handledToolResponseSummary. split; [done|]. split; [constructor | by right].
Qed.

Lemma ended_after c new more : transcript new -> ended c more -> ended c (new ++ more).
Proof.
  intros Hn (body & answer & -> & Hb & Hc). exists (new ++ body), answer. rewrite app_assoc. split; [done|].
  split; [by apply transcript_app | done].
Qed.

Lemma silent_going l : silent (keep_going o cfg l).
Proof. unfold keep_going, graceful. silent_auto. Qed.

Lemma writes_turnLoop fuel l : Forall plain (pending l) -> writes ended (turnLoop o cfg fuel l).
Proof.
  revert l; induction fuel as [|fuel IH]; intros l Hp; [apply writes_throw|]. rewrite turnLoop_eq.
  assert (Ha : forall l, Forall plain (pending l) -> writes ended (after_loop o cfg fuel l)).
  { intros l' Hp'. unfold after_loop. eapply writes_bind; [apply writes_dequeue|]. intros [|m ms] new [-> Hms]; [apply writes_finalize|].
    apply IH. simpl. by apply Forall_app. }
  apply writes_skip; [apply silent_going|]. intros go. destruct go; [|by apply Ha].
  eapply writes_bind; [by apply writes_turn_step|]. intros e new [He Hn].
  eapply writes_mono; [intros c more; by apply ended_after|].
  destruct e as [l'|l'|l']; [by apply IH | by apply Ha | apply writes_finalize_delivered].
Qed.

Lemma writes_setup : writes (fun l new => pending l = InitialSteeringMessages cfg /\ transcript new) (setup o cfg).
Proof.
  unfold setup. apply writes_skip; [silent_auto|]. intros hs. apply writes_skip; [silent_auto|]. intros _.
  apply writes_skip; [unfold build; silent_auto|]. intros ms. destruct (inputError o); [apply writes_throw|].
  apply writes_skip; [silent_auto|]. intros defs. apply writes_skip; [unfold build; silent_auto|]. intros q.
  destruct has_user_message.
  - eapply writes_bind; [apply writes_persist|]. intros _ new ->. apply writes_ret. split; [done|].
    apply transcript_all_plain. constructor; [apply (talk_user Htalk) | constructor].
  - apply writes_skip; [by apply writes_ret|]. intros _. apply writes_ret. split; [done | constructor].
Qed.
End Transcript.

(** C2: What a completed turn with history records is well formed: with a model
    that answers directly (not by calling tools itself in an interactive thread)
    and users who write plain messages, whatever the tools and
    hooks do and whatever comes in between, each message with calls is followed
    at once by one result for each of its calls, in their order, no other
    message answers anything, and the last message is the answer of the turn. *)
Theorem completed_turn_answers_its_calls {S C R Args} `{SessionStore S} `{ContextManager S C} `{ToolBox R Args}
    (o : Outside S C Args) cfg fuel (w w' : World S C R Args) c :
  plain_talk o cfg -> tame w -> runTurn o cfg fuel w = (w', Ok c) ->
  exists body answer,
    persistedMessages (turn w') = persistedMessages (turn w) ++ body ++ [text_message "assistant" answer] /\
    transcript body /\ (c = answer \/ c = "" /\ answer = handledToolResponseSummary).
Proof.
  intros Ht Hw E. assert (Hr : writes ended (runTurn (R := R) o cfg fuel)).
  { eapply writes_bind; [by apply writes_setup|]. intros l new [El Hn]. eapply writes_mono; [intros c' more; by apply ended_after|].
    apply writes_turnLoop; [done|]. rewrite El. apply (talk_initial _ _ Ht). }
  specialize (Hr w Hw). unfold wp in Hr. rewrite E in Hr. destruct Hr as (_ & new & El & body & answer & -> & Hb & Hc).
  exists body, answer. by rewrite El.
Qed.

Lemma demo_talk : plain_talk (demo_outside (steering_at 20)) demo_cfg.
Proof.
  constructor; try done.
  - intros n model ms defs. simpl. unfold demo_model. case_match; by eexists.
  - intros n. cbn [env demo_outside]. unfold steering_at. destruct (Nat.eqb n 20); by repeat constructor.
Qed.

Lemma completed_turn_answers_its_calls_witness :
  let w' := fst (runTurn (demo_outside (steering_at 20)) demo_cfg 9 demo_world) in
  length (persistedMessages (turn w')) = 6%nat /\
  exists body answer, persistedMessages (turn w') = [] ++ body ++ [text_message "assistant" answer] /\
    transcript body /\ ("done" = answer \/ "done" = "" /\ answer = handledToolResponseSummary).
Proof.
  cbv zeta. split; [vm_compute; reflexivity|].
  assert (E : snd (runTurn (demo_outside (steering_at 20)) demo_cfg 9 demo_world) = Ok "done") by (vm_compute; reflexivity).
  exact (completed_turn_answers_its_calls (demo_outside (steering_at 20)) demo_cfg 9 demo_world _ "done" demo_talk
    (fun k => ltac:(constructor)) (eq_trans (surjective_pairing _) (f_equal (pair _) E))).
Defined.
